(* ===== verification/_CoqProject ===== *)
-Q . S2P
Prelude.v
Words.v
Bits.v
HashBase.v
RijndaelTables.v
Rijndael.v
RijndaelSpec.v
RijndaelApi.v
RijndaelCipher.v
RijndaelKey.v
RijndaelBlock.v
RijndaelModes.v
Varint.v
VarintProofs.v
Ctype.v
Integers.v
IntegersProps.v
Utf8.v
Utf8Proofs.v
Like.v
LikeSpec.v
LikeProofs.v
CharTokenizer.v
CharTokenizerProps.v
Unicode.v
UnicodeProofs.v
HtmlTokenizer.v
HtmlText.v
HtmlCreate.v
HtmlMarkup.v
HtmlProofs.v
HtmlProps.v
Regex.v
RegexProps.v
Bitvec.v
BitvecHash.v
BitvecProofs.v
BitvecProps.v
RowSet.v
RowSetLists.v
RowSetTrees.v
RowSetProps.v
BtreeBytes.v
BtreeCell.v
BtreeCellProofs.v
BtreePage.v
BtreeFree.v
BtreeFreeSpace.v
BtreeAlloc.v
BtreeInsert.v
BtreeProps.v
WalIndex.v
WalLog.v
WalFind.v
WalFile.v
WalRecover.v
WalRead.v
WalCommit.v
WalSort.v
WalCkpt.v
WalBackfill.v
WalHistory.v
WalProps.v
MD5.v
MD5Proofs.v
RC4.v
Sha2.v
Sha2Proofs.v
Codec.v
CodecProofs.v
CodecPage.v
CodecExt.v
CodecExtCallback.v
CodecExtKeys.v
CodecExtFile.v
CodecExamples.v
FtsHash.v
FtsHashLists.v
FtsHashProofs.v
FtsHashSpec.v
