(* ===== verification/Prelude.v ===== *)
(** * SQLite Custom: verification library

    The repository builds SQLite 3.15.2 for Android with page encryption,
    full-text tokenizers of its own and a REGEXP function. This library models
    the C code of the parts that carry the program's own logic and proves them
    correct. All sources are under src/sqlite-android/src/main/jni/sqlite/.

    ** The parts and how they interact

    sqlite3secure.c is the compilation unit: it includes sqlite3.c, the
    cryptography (rijndael.c, codec.c with sha2.c) and codecext.c, which puts a
    codec between the pager of sqlite3.c and its file.

    - Page encryption. RijndaelTables, Rijndael and RijndaelApi model
      rijndael.c; RijndaelSpec is FIPS-197, and RijndaelCipher, RijndaelKey,
      RijndaelBlock and RijndaelModes prove the cipher, its key schedule and its
      modes against it. MD5 and RC4 model the digests and the
      stream cipher of codec.c, Sha2 models sha2.c; MD5Proofs and Sha2Proofs
      state the standards and prove the equivalences. HashBase holds what
      the hash functions share. Codec models the codec object of codec.c: keys
      of passwords, initial vectors, the encryption of pages; CodecProofs and
      CodecPage prove it. CodecExt models codecext.c: the callback that the
      pager calls on every page it reads and writes, ATTACH, and changing the
      key of a database; its proofs are CodecExtCallback, CodecExtKeys and
      CodecExtFile. The pager that rekeying drives is an
      interface (PagerOps with its promises PagerSpec), which the examples
      instantiate. It may change the pages that it writes in the ways that the
      code of Pager and Btree does: the change counter and version numbers of
      page 1.
    - The integers and characters of sqlite3.c. Varint models the integers of a
      database file, Integers the conversion of text to integers, checked
      arithmetic and estimates of logarithms, Ctype the character classes, Utf8
      the UTF-8 and UTF-16 routines, Like the operators LIKE and GLOB; LikeSpec
      is the pattern language. Proofs are in VarintProofs, IntegersProps,
      Utf8Proofs and LikeProofs.
    - The sets of page numbers of sqlite3.c. Bitvec models struct Bitvec, which
      the pager uses to remember the pages it has journalled; BitvecHash,
      BitvecProofs and BitvecProps prove that it is a finite set.
    - The sets of rowids of sqlite3.c. RowSet models struct RowSet on a heap of
      entries that are lists and then trees; RowSetLists proves the merge sort,
      RowSetTrees the conversions between lists and trees and the forest, and
      RowSetProps the object.
    - The pages of the B-trees of sqlite3.c. BtreeBytes holds the bytes of a
      page, BtreeCell models the size and the parsing of cells, and BtreePage
      the list of free blocks, allocation, defragmentation, initialisation,
      insertion and removal. BtreeFree states what a well-formed page is: cells
      and free blocks as regions that do not overlap. BtreeCellProofs,
      BtreeFreeSpace, BtreeAlloc and BtreeInsert prove the operations one by
      one, BtreeProps that a page is a list of cells.
    - The write-ahead log of sqlite3.c (wal.c), which puts the pages of a
      transaction behind each other in a second file. WalIndex models the index
      of the log in shared memory with its hash tables, WalFile the frames, their
      checksums and the recovery of the index from the file, WalRead read and
      write transactions and sqlite3WalFrames, WalSort the merge sort and the
      iterator over pages, and WalCkpt checkpoints and the calls that open, close
      and configure a connection. WalLog says when an index stands for a list of
      page numbers and proves appending and taking back, WalFind the search;
      WalRecover proves that recovery finds the frames of a file, WalCommit that
      a call of sqlite3WalFrames adds a transaction, what one that fails leaves in
      the file, and that a reader holds the lock of its snapshot, WalBackfill what
      a checkpoint copies and what it leaves alone because of the locks of others,
      WalHistory that calls write behind the committed frames only and what
      recovery rebuilds after them. WalProps has the properties: commits survive
      a crash, exactly, and checkpoints change no snapshot.
    - Full text. FtsHash models fts3_hash.c, the tables of tokenizers and
      pending terms, on heaps of elements, copies of keys and arrays of buckets;
      FtsHashLists, FtsHashProofs and FtsHashSpec prove that it touches no freed
      memory and that clearing frees all of it, whatever allocations fail, and
      that it is a finite map as long as the array of buckets can grow. CharTokenizer models
      character_tokenizer.c; Unicode and HtmlTokenizer model
      fts3_html_tokenizer.c, with HtmlText saying what the tokens of a text are.
      Proofs are in CharTokenizerProps, UnicodeProofs, HtmlText, HtmlCreate,
      HtmlMarkup, HtmlProofs and HtmlProps. Ctype holds the functions of the C
      library that the tokenizers call.
    - REGEXP. Regex models regex.c, a cache of compiled expressions with its
      memory and its lock; RegexProps proves it against a list of expressions.

    Prelude, Words and Bits are shared: machine integers, loops, words as lists
    of bytes, and a reflective decision procedure for bit-vector equations.
    The end of RijndaelModes and CodecExamples run the models on published test
    vectors and on a small database.

    ** How state and operations correspond to the code

    Records are the structs of the code and functions carry its names. Integers
    are in Z, with the wrap-around of their C type written out where it can
    happen. Buffers are lists of bytes; pointers into them are offsets or
    suffixes, so that reads and writes have bounds: going past the end is
    [None], as are a use of freed memory, where memory is modelled as a heap
    (codecs, hash elements, cached expressions), and a loop that exhausts its
    fuel. An allocation that may fail is an argument of the operation. A loop of
    the code is a function of its own, named in the map of the library.

    The write-ahead log is a monad over the connection, the shared memory, the
    locks, the two files, a list of result codes, of which each allocation and
    each call of the operating system takes the next, a list of what other
    connections do to the shared memory, of which each call for a lock and each
    memory barrier lets the next happen, and the locks that others hold, which
    refuse a lock as unixShmLock does. An index stands for a list of frames even
    if a writer that crashed has left entries, or a page number without its slot,
    behind them. Files and locks are as the interface
    sqlite3_io_methods documents them; a busy handler is the list of its
    answers, and random bytes are arguments. The sort works on lists of indices
    instead of one array in place. The iterator reads the page numbers once,
    when it is made, while the code keeps pointers to them: the entries up to
    mxFrame do not change while the lock of a checkpoint is held.

    Fuel is always an explicit bound on the iterations, and the theorems show
    that it is enough: the length of the buffer plus one for the loops over
    strings (each iteration advances), the length of the pattern plus one for
    the recursion of [patternCompare], 10 for the bytes of a varint, the size of
    its table plus one for a binary search, the number of slots for the probing
    of a hash table, the size of a page plus one for its list of free blocks,
    five levels for a Bitvec, as 62^4 times 3968 exceeds 2^32, the size of the
    log file for the frames of recovery, mxFrame plus one for the pages of a
    checkpoint, and 101 attempts to begin a read, of which the code fails the
    last. No property has only the form "if it returns": each states the result.

    ** What the theorems show

    - Equivalence with a standard or a reference: AES, MD5, SHA-2, varints, LIKE
      and GLOB, and the text of integers.
    - Bounds: checked arithmetic overflows nowhere and reports every overflow,
      estimates of logarithms are close.
    - Refinement of an abstract object: the page of a B-tree is a list of cells
      with a capacity, hash tables are maps, Bitvecs and RowSets are sets, the
      cache of REGEXP is a list of sixteen expressions, and the file of a
      database keeps its pages when the key changes; the log file, its index and
      the frames that are committed are one list of frames.
    - Round trips: pages, padding of messages below 2^31 - 16 bytes, varints,
      UTF-8 and UTF-16, frames of the log.
    - Functional behaviour and errors on every branch: keys, ATTACH, rekeying,
      LIKE with its limits and escapes, insertion with every failure of memory,
      the tokens of a text, as long as the memory after a token holds a zero byte,
      the creation of a tokenizer.
    - Safety and invariants: no use of a freed codec, no read past a string, the
      callback writes at most its page, a checkpoint changes nothing that a
      reader sees, a connection holds exactly the lock of its snapshot.
    - Findings: inputs on which the code does not do what it means to, each
      proved where it is named as a theorem: the ECB padding check, the failed
      growth of a hash table, the U+0080 search of LIKE, the overflow of the
      largest Bitvec, the state after a failed rekey, the lock that REGEXP
      leaves held after an error, and the reads of the HTML tokenizer outside
      its memory.

    ** What is not modelled

    - The rest of the amalgamation sqlite3.c: parser, code generator, virtual
      machine, balancing and cursors of the B-tree, pager, VFS, the full-text
      and R-tree modules. They are far larger than this library, and what they
      do depends on one another and on the operating system much more than the
      parts above do. B-tree pages are modelled with the pager's part, its
      permission to write and its temporary space, as arguments, and without the
      pointer map.
    - Of wal.c: the code for SQLITE_ENABLE_SNAPSHOT, an option that is off,
      sqlite3OsUnfetch and the hint on the size of the file, which change nothing
      that the model has. Rewriting the checksums of frames that a transaction
      has written twice, and padding to a sector, are modelled; of them it is
      proved that they write behind the committed frames, not that recovery
      finds the frames.
    - extensionfunctions.c: the mathematical functions are floating point, and
      the rest of the file is not modelled either.
    - PCRE and the Snowball stemmers are libraries that the sources vendor and
      only call: parameters of Regex and HtmlTokenizer.
    - stopwords.cpp and the Android bindings are C++ and Java.
    - The execution of SQL statements that register the tokenizers and the
      functions (registerTokenizer, sqlite3_create_function). *)
From stdpp Require Export base list numbers option sets.
From Stdlib Require Export ZArith Lia Btauto.

Declare Scope sqlc_scope.
Delimit Scope sqlc_scope with sqlc.

(** ** Machine integers

    A [w]-bit unsigned integer is a [Z] in [0 .. 2^w); arithmetic that wraps
    in C is written with [wrap]. *)

Definition wrap (w x : Z) : Z := (x `mod` 2 ^ w)%Z.

Definition uint (w x : Z) : Prop := (0 ≤ x < 2 ^ w)%Z.

(** [(unsigned char) x], [(unsigned int) x] and [(uint64) x]. *)
Definition u8 (x : Z) : Z := wrap 8 x.
Definition u32 (x : Z) : Z := wrap 32 x.
Definition u64 (x : Z) : Z := wrap 64 x.

(** [(int) x]: two's complement. *)
Definition s32 (x : Z) : Z := (wrap 32 (x + 2 ^ 31) - 2 ^ 31)%Z.

(** A value that a C [int] can hold. *)
Definition int32 (x : Z) : Prop := (- 2 ^ 31 ≤ x < 2 ^ 31)%Z.

Abbreviation byte_ok := (uint 8).
Abbreviation bytes_ok := (Forall (uint 8)).

(** ** Result codes *)

Definition SQLITE_OK : Z := 0.
Definition SQLITE_CORRUPT : Z := 11.
Definition SQLITE_ERROR : Z := 1.
Definition SQLITE_NOMEM : Z := 7.

Create HintDb sqlc discriminated.

Section uint.
Local Open Scope Z_scope.
Implicit Types w x y : Z.

Lemma wrap_uint w x : 0 ≤ w → uint w (wrap w x).
Proof. intros. unfold uint, wrap. apply Z.mod_pos_bound. lia. Qed.

Lemma wrap_small w x : uint w x → wrap w x = x.
Proof. apply Z.mod_small. Qed.

Lemma u8_small x : 0 ≤ x < 256 → u8 x = x.
Proof. apply (wrap_small 8). Qed.

Lemma u16_small x : 0 ≤ x < 65536 → wrap 16 x = x.
Proof. apply (wrap_small 16). Qed.

Lemma u32_small x : 0 ≤ x < 2 ^ 32 → u32 x = x.
Proof. apply (wrap_small 32). Qed.

Lemma uint_0 w : 0 ≤ w → uint w 0.
Proof. intros. unfold uint. lia. Qed.

Lemma uint_mono w w' x : uint w x → w ≤ w' → uint w' x.
Proof.
  unfold uint. intros [? ?] ?. split; [done|].
  pose proof (Z.pow_le_mono_r 2 w w'). lia.
Qed.

(** A bitwise operation stays within the width of its operands: the bits from
    [w] up are all clear. *)
Lemma uint_bits w x :
  0 ≤ w → uint w x ↔ 0 ≤ x ∧ ∀ i, w ≤ i → Z.testbit x i = false.
Proof.
  intros Hw. unfold uint. split.
  - intros [Hx Hlt]. split; [done|]. intros i Hi.
    rewrite <-(Z.mod_small x (2 ^ w)) by lia. apply Z.mod_pow2_bits_high. lia.
  - intros [Hx Hbits]. split; [done|].
    rewrite <-(Z.mod_small x (2 ^ w)); [apply Z.mod_pos_bound; lia|].
    enough (x = x `mod` 2 ^ w) by (pose proof (Z.mod_pos_bound x (2 ^ w)); lia).
    apply Z.bits_inj'. intros i Hi. destruct (Z.lt_ge_cases i w).
    + by rewrite Z.mod_pow2_bits_low.
    + rewrite Z.mod_pow2_bits_high by lia. auto.
Qed.

Lemma uint_lxor w x y : 0 ≤ w → uint w x → uint w y → uint w (Z.lxor x y).
Proof.
  intros Hw [Hx Hxb]%uint_bits [Hy Hyb]%uint_bits; [|done..].
  apply uint_bits; [done|]. split; [by apply Z.lxor_nonneg|].
  intros i Hi. rewrite Z.lxor_spec, Hxb, Hyb; done.
Qed.

Lemma uint_land_r w x y : 0 ≤ w → 0 ≤ x → uint w y → uint w (Z.land x y).
Proof.
  intros Hw Hx [Hy Hyb]%uint_bits; [|done].
  apply uint_bits; [done|]. split; [apply Z.land_nonneg; auto|].
  intros i Hi. rewrite Z.land_spec, Hyb by done. apply andb_false_r.
Qed.

Lemma uint_lor w x y : 0 ≤ w → uint w x → uint w y → uint w (Z.lor x y).
Proof.
  intros Hw [Hx Hxb]%uint_bits [Hy Hyb]%uint_bits; [|done..].
  apply uint_bits; [done|]. split; [by apply Z.lor_nonneg|].
  intros i Hi. rewrite Z.lor_spec, Hxb, Hyb; done.
Qed.

Lemma uint_shiftr w x n : 0 ≤ n → uint w x → uint w (Z.shiftr x n).
Proof.
  unfold uint. intros Hn [Hx Hlt]. rewrite Z.shiftr_div_pow2 by done. split.
  - apply Z.div_pos; lia.
  - apply Z.le_lt_trans with x; [|done]. apply Z.div_le_upper_bound; [lia|].
    pose proof (Z.pow_pos_nonneg 2 n). nia.
Qed.
End uint.

(** A property of all bytes, by evaluation. *)
Lemma all_bytes (f : Z → bool) :
  forallb f (seqZ 0 256) = true → ∀ x, byte_ok x → f x = true.
Proof.
  intros Hf x Hx. rewrite forallb_forall in Hf. apply Hf.
  apply list_elem_of_In, elem_of_seqZ. unfold uint in Hx. lia.
Qed.

#[export] Hint Resolve wrap_uint uint_0 uint_lxor uint_lor uint_shiftr : sqlc.
#[export] Hint Extern 1 (_ ≤ _)%Z => lia : sqlc.

(** ** Arrays

    A C array is a list; [arr[i]] is [nth i arr d], reading out of bounds is
    the default [d] and never happens on the inputs the theorems allow. *)

Section arrays.
Context {A : Type}.
Implicit Types (l : list A) (d : A).

Lemma nth_lookup_Some l i d x : l !! i = Some x → nth i l d = x.
Proof. apply nth_lookup_Some. Qed.

Lemma Forall_nth_lt (P : A → Prop) l i d :
  Forall P l → i < length l → P (nth i l d).
Proof. intros HP Hi. by apply Forall_nth. Qed.

Lemma nth_insert_eq l i d x : i < length l → nth i (<[i:=x]> l) d = x.
Proof. intros. apply nth_lookup_Some. by apply list_lookup_insert_eq. Qed.

Lemma nth_insert_ne l i j d x : i ≠ j → nth j (<[i:=x]> l) d = nth j l d.
Proof. intros. rewrite !nth_lookup. by rewrite list_lookup_insert_ne. Qed.
End arrays.

Section last.
Context {A : Type}.
Implicit Types (x d : A) (l : list A).

Lemma last_cons_indep x l d d' : List.last (x :: l) d = List.last (x :: l) d'.
Proof.
  revert x. induction l as [|y l IH]; intros x; [done|]. apply (IH y).
Qed.

Lemma last_cons_eq x l d : List.last (x :: l) d = List.last l x.
Proof. destruct l as [|y l]; [done|]. apply (last_cons_indep y). Qed.
End last.

(** ** Counting loops

    [for_up f n r a] is [for(i = r; i < r + n; i++) a = f(i, a)] and
    [for_down f n lo a] is [for(i = lo + n - 1; i >= lo; i--) a = f(i, a)]. *)

Fixpoint for_up {A} (f : nat → A → A) (n r : nat) (a : A) : A :=
  match n with
  | O => a
  | S n' => for_up f n' (S r) (f r a)
  end.

Fixpoint for_down {A} (f : nat → A → A) (n lo : nat) (a : A) : A :=
  match n with
  | O => a
  | S n' => for_down f n' lo (f (lo + n')%nat a)
  end.

Section loops.
Context {A B : Type}.
Implicit Types (f : nat → A → A) (a : A).

Lemma for_up_0 f r a : for_up f 0 r a = a.
Proof. reflexivity. Qed.

Lemma for_up_S f n r a : for_up f (S n) r a = for_up f n (S r) (f r a).
Proof. reflexivity. Qed.

Lemma for_up_last f n r a : for_up f (S n) r a = f (r + n)%nat (for_up f n r a).
Proof.
  revert r a. induction n as [|n IH]; intros r a.
  - cbn. by rewrite Nat.add_0_r.
  - rewrite for_up_S, IH, for_up_S. f_equal. lia.
Qed.

Lemma for_down_0 f lo a : for_down f 0 lo a = a.
Proof. reflexivity. Qed.

Lemma for_down_S f n lo a : for_down f (S n) lo a = for_down f n lo (f (lo + n)%nat a).
Proof. reflexivity. Qed.

(** The invariant rule: [I i a] holds when iteration [i] is about to start. *)
Lemma for_up_inv (I : nat → A → Prop) f n r a :
  I r a → (∀ i a, r ≤ i < r + n → I i a → I (S i) (f i a)) → I (r + n)%nat (for_up f n r a).
Proof.
  revert r a. induction n as [|n IH]; intros r a Ha Hstep.
  - by rewrite Nat.add_0_r.
  - rewrite for_up_S, <-Nat.add_succ_comm. apply IH.
    + apply Hstep; [lia|done].
    + intros i b Hi. apply Hstep. lia.
Qed.

(** Two loops in step, with a relation between their states. *)
Lemma for_up_sim (R : nat → A → B → Prop) f (g : nat → B → B) n r a b :
  R r a b → (∀ i a b, r ≤ i < r + n → R i a b → R (S i) (f i a) (g i b)) →
  R (r + n)%nat (for_up f n r a) (for_up g n r b).
Proof.
  revert r a b. induction n as [|n IH]; intros r a b Hab Hstep.
  - by rewrite Nat.add_0_r.
  - rewrite !for_up_S, <-Nat.add_succ_comm. apply IH.
    + apply Hstep; [lia|done].
    + intros i c d Hi. apply Hstep. lia.
Qed.

Lemma for_up_ext f g n r a :
  (∀ i a, r ≤ i < r + n → f i a = g i a) → for_up f n r a = for_up g n r a.
Proof.
  revert r a. induction n as [|n IH]; intros r a Hfg; [done|].
  rewrite !for_up_S, Hfg by lia. apply IH. intros. apply Hfg. lia.
Qed.

Lemma for_up_add f n m r a : for_up f (n + m) r a = for_up f m (r + n) (for_up f n r a).
Proof.
  revert r a. induction n as [|n IH]; intros r a; [by rewrite Nat.add_0_r|].
  cbn [Nat.add]. rewrite !for_up_S, IH. f_equal. lia.
Qed.
End loops.

(** ** Operations that may fail

    An operation of type [option A] returns a value or hits an address that is
    not allocated; [ensures m Q] says that it returns a value in [Q]. *)

Definition ensures {A} (m : option A) (Q : A → Prop) : Prop :=
  match m with Some a => Q a | None => False end.

Section ensures.
Context {A B : Type}.
Implicit Types (m : option A) (Q : A → Prop).

Lemma ensures_Some (a : A) Q : Q a → ensures (Some a) Q.
Proof. done. Qed.


Lemma ensures_exists m Q : ensures m Q ↔ ∃ a, m = Some a ∧ Q a.
Proof. destruct m as [a|]; cbn; split; [eauto|by intros (? & [= ->] & ?)|done|by intros (? & ? & _)]. Qed.

Lemma ensures_mono m Q Q' : ensures m Q → (∀ a, Q a → Q' a) → ensures m Q'.
Proof. destruct m; cbn; auto. Qed.

Lemma ensures_bind m (f : A → option B) Q (Q' : B → Prop) :
  ensures m Q → (∀ a, Q a → ensures (f a) Q') → ensures (m ≫= f) Q'.
Proof. destruct m; cbn; [auto|done]. Qed.
End ensures.
