(* ===== verification/Words.v ===== *)
(** * Words and bytes

    Little- and big-endian encodings of unsigned integers as lists of bytes,
    rotations, and the byte order of the machine the C code is compiled for. *)
From S2P Require Import Prelude.
Local Open Scope Z_scope.

(** ** Byte encodings *)

Fixpoint le_word (l : list Z) : Z :=
  match l with
  | [] => 0
  | b :: l' => b + 256 * le_word l'
  end.

Fixpoint le_bytes (n : nat) (w : Z) : list Z :=
  match n with
  | O => []
  | S n' => w `mod` 256 :: le_bytes n' (w / 256)
  end.

Definition be_word (l : list Z) : Z := le_word (rev l).
Definition be_bytes (n : nat) (w : Z) : list Z := rev (le_bytes n w).

(** [words_of f k n l]: [n] words of [k] bytes each, read with [f]. *)
Fixpoint words_of (f : list Z → Z) (k n : nat) (l : list Z) : list Z :=
  match n with
  | O => []
  | S n' => f (take k l) :: words_of f k n' (drop k l)
  end.

(** Rotations of a [w]-bit word. *)
Definition rotl (w x n : Z) : Z := Z.lor (wrap w (Z.shiftl x n)) (Z.shiftr x (w - n)).
Definition rotr (w x n : Z) : Z := Z.lor (Z.shiftr x n) (wrap w (Z.shiftl x (w - n))).

Section encodings.
Implicit Types (l : list Z) (w : Z) (n : nat).

Lemma length_le_bytes n w : length (le_bytes n w) = n.
Proof. revert w. induction n as [|n IH]; intros w; cbn; [done|]. by rewrite IH. Qed.

Lemma length_be_bytes n w : length (be_bytes n w) = n.
Proof. unfold be_bytes. by rewrite length_rev, length_le_bytes. Qed.

Lemma le_bytes_ok n w : bytes_ok (le_bytes n w).
Proof.
  revert w. induction n as [|n IH]; intros w; cbn; constructor; [|done].
  unfold uint. apply Z.mod_pos_bound. lia.
Qed.

Lemma be_bytes_ok n w : bytes_ok (be_bytes n w).
Proof. unfold be_bytes. apply Forall_rev, le_bytes_ok. Qed.

Lemma le_word_bytes n w : le_word (le_bytes n w) = w `mod` 2 ^ (8 * Z.of_nat n).
Proof.
  revert w. induction n as [|n IH]; intros w; cbn [le_bytes le_word].
  - by rewrite Z.mod_1_r.
  - rewrite IH. replace (8 * Z.of_nat (S n)) with (8 + 8 * Z.of_nat n) by lia.
    rewrite Z.pow_add_r by lia. rewrite Z.rem_mul_r by lia. reflexivity.
Qed.

Lemma le_bytes_word l : bytes_ok l → le_bytes (length l) (le_word l) = l.
Proof.
  induction 1 as [|b l [Hb0 Hb1] Hl IH]; [done|]. change (2 ^ 8) with 256 in Hb1.
  cbn [length le_bytes le_word].
  rewrite (Z.mul_comm 256), Z.mod_add, Z.mod_small, Z.div_add, Z.div_small, Z.add_0_l by lia. by rewrite IH.
Qed.

Lemma be_bytes_word l : bytes_ok l → be_bytes (length l) (be_word l) = l.
Proof.
  intros Hl. unfold be_bytes, be_word.
  rewrite <-(length_rev l), (le_bytes_word (rev l)) by (by apply Forall_rev). apply rev_involutive.
Qed.

Lemma be_word_bytes n w : be_word (be_bytes n w) = w `mod` 2 ^ (8 * Z.of_nat n).
Proof. unfold be_word, be_bytes. by rewrite rev_involutive, le_word_bytes. Qed.

Lemma le_word_uint l : bytes_ok l → uint (8 * Z.of_nat (length l)) (le_word l).
Proof.
  intros Hl. rewrite <-(le_bytes_word l Hl), le_word_bytes, length_le_bytes.
  unfold uint. apply Z.mod_pos_bound. lia.
Qed.

Lemma be_word_uint l : bytes_ok l → uint (8 * Z.of_nat (length l)) (be_word l).
Proof.
  intros Hl. unfold be_word. rewrite <-length_rev. apply le_word_uint. by apply Forall_rev.
Qed.

Lemma length_words_of f k n l : length (words_of f k n l) = n.
Proof. revert l. induction n as [|n IH]; intros l; cbn; [done|]. by rewrite IH. Qed.

Lemma words_of_app f k n m l l' :
  length l = (k * n)%nat → words_of f k (n + m) (l ++ l') = words_of f k n l ++ words_of f k m l'.
Proof.
  revert l. induction n as [|n IH]; intros l Hl; cbn.
  - rewrite Nat.mul_0_r in Hl. by apply nil_length_inv in Hl as ->.
  - rewrite take_app_le, drop_app_le by lia. rewrite IH; [done|]. rewrite length_drop. lia.
Qed.

Lemma words_of_concat f g k (ws : list Z) :
  (∀ w, w ∈ ws → length (g w) = k ∧ f (g w) = w) →
  words_of f k (length ws) (concat (g <$> ws)) = ws.
Proof.
  induction ws as [|w ws IH]; intros Hg; [done|].
  destruct (Hg w) as [Hk Hf]; [left|]. rewrite fmap_cons. cbn [length concat words_of].
  rewrite take_app_length', drop_app_length' by done. rewrite Hf, IH; [done|].
  intros v Hv. apply Hg. by right.
Qed.

Lemma words_of_ext f g k n l :
  bytes_ok l → length l = (k * n)%nat →
  (∀ b, bytes_ok b → length b = k → f b = g b) → words_of f k n l = words_of g k n l.
Proof.
  intros Hl Hlen Hfg. revert l Hl Hlen. induction n as [|n IH]; intros l Hl Hlen; [done|].
  cbn [words_of]. f_equal.
  - apply Hfg; [by apply Forall_take|]. rewrite length_take. lia.
  - apply IH; [by apply Forall_drop|]. rewrite length_drop. lia.
Qed.

Lemma words_of_Forall (P : Z → Prop) f k n l :
  bytes_ok l → length l = (k * n)%nat →
  (∀ b, bytes_ok b → length b = k → P (f b)) → Forall P (words_of f k n l).
Proof.
  intros Hl Hlen Hf. revert l Hl Hlen. induction n as [|n IH]; intros l Hl Hlen; [done|].
  cbn [words_of]. constructor.
  - apply Hf; [by apply Forall_take|]. rewrite length_take. lia.
  - apply IH; [by apply Forall_drop|]. rewrite length_drop. lia.
Qed.

Lemma concat_bytes_ok (g : Z → list Z) (ws : list Z) :
  (∀ w, bytes_ok (g w)) → bytes_ok (concat (g <$> ws)).
Proof.
  intros Hg. induction ws as [|w ws IH]; [constructor|].
  rewrite fmap_cons. cbn [concat]. apply Forall_app. auto.
Qed.

Lemma take_concat_words (g : Z → list Z) k n (ws : list Z) :
  (∀ w, length (g w) = k) → take (k * n) (concat (g <$> ws)) = concat (g <$> take n ws).
Proof.
  intros Hg. revert n. induction ws as [|w ws IH]; intros n; [by destruct n; cbn; rewrite ?take_nil|].
  destruct n as [|n]; [by rewrite Nat.mul_0_r|]. cbn [take]. rewrite !fmap_cons. cbn [concat].
  replace (k * S n)%nat with (length (g w) + k * n)%nat by (rewrite Hg; lia).
  by rewrite take_app_add, IH.
Qed.

Lemma words_of_take f k n l : words_of f k n (take (k * n) l) = words_of f k n l.
Proof.
  revert l. induction n as [|n IH]; intros l; [done|]. cbn [words_of].
  rewrite take_take, Nat.min_l by lia. f_equal.
  rewrite skipn_firstn_comm. replace (k * S n - k)%nat with (k * n)%nat by lia. apply IH.
Qed.

Lemma le_bytes_app n m w :
  le_bytes (n + m) w = le_bytes n w ++ le_bytes m (w / 2 ^ (8 * Z.of_nat n)).
Proof.
  revert w. induction n as [|n IH]; intros w; cbn [Nat.add le_bytes app].
  - by rewrite Z.div_1_r.
  - rewrite IH, Z.div_div by lia. do 3 f_equal.
    replace (8 * Z.of_nat (S n)) with (8 + 8 * Z.of_nat n) by lia. by rewrite Z.pow_add_r by lia.
Qed.

Lemma le_bytes_0 n : le_bytes n 0 = replicate n 0.
Proof.
  induction n as [|n IH]; [done|]. cbn [le_bytes replicate].
  by rewrite Z.mod_0_l, Z.div_0_l, IH by done.
Qed.

(** Leading zeros of a number that fits in fewer bytes. *)
Lemma be_bytes_zeros n m w :
  0 ≤ w < 2 ^ (8 * Z.of_nat m) → be_bytes (n + m) w = replicate n 0 ++ be_bytes m w.
Proof.
  intros Hw. unfold be_bytes. rewrite Nat.add_comm, le_bytes_app, Z.div_small, le_bytes_0 by done.
  rewrite rev_app_distr. f_equal. rewrite rev_alt. apply reverse_replicate.
Qed.

Lemma le_bytes_mod n w : le_bytes n (w `mod` 2 ^ (8 * Z.of_nat n)) = le_bytes n w.
Proof.
  rewrite <-le_word_bytes. rewrite <-(length_le_bytes n w) at 1.
  apply le_bytes_word, le_bytes_ok.
Qed.

(** Or-ing a byte below a shifted word adds it. *)
Lemma lor_shiftl_add (n x y : Z) : 0 ≤ n → 0 ≤ y < 2 ^ n → Z.lor (Z.shiftl x n) y = x * 2 ^ n + y.
Proof.
  intros Hn Hy. rewrite <-Z.shiftl_mul_pow2 by done.
  rewrite <-Z.add_lor_land.
  assert (Z.land (Z.shiftl x n) y = 0) as ->; [|by rewrite Z.add_0_r].
  apply Z.bits_inj'. intros i Hi. rewrite Z.land_spec, Z.bits_0, Z.shiftl_spec by done.
  destruct (Z.lt_ge_cases i n).
  - by rewrite Z.testbit_neg_r by lia.
  - apply uint_bits in Hy as [_ Hy]; [|done]. by rewrite Hy, andb_false_r by done.
Qed.
End encodings.

(** ** The machine

    The byte order of an [unsigned int] in memory and the size of a pointer. *)
Class Machine := { little_endian : bool; sizeof_ptr : nat }.

Section machine.
Context `{Machine}.

(** [*(unsigned int* ) p] and [*(unsigned int* ) p = w]. *)
Definition native_word (l : list Z) : Z := if little_endian then le_word l else be_word l.
Definition native_bytes (w : Z) : list Z := if little_endian then le_bytes 4 w else be_bytes 4 w.

Lemma length_native_bytes w : length (native_bytes w) = 4%nat.
Proof. unfold native_bytes. case_match; [apply length_le_bytes|apply length_be_bytes]. Qed.

Lemma native_bytes_ok w : bytes_ok (native_bytes w).
Proof. unfold native_bytes. case_match; [apply le_bytes_ok|apply be_bytes_ok]. Qed.

Lemma native_word_bytes w : uint 32 w → native_word (native_bytes w) = w.
Proof.
  intros Hw. unfold native_word, native_bytes.
  case_match; rewrite ?le_word_bytes, ?be_word_bytes; by apply Z.mod_small.
Qed.
End machine.
