(* ===== verification/Bits.v ===== *)
(** * Symbolic bit vectors

    A reflective decision procedure for equalities between expressions built
    from bytes with shifts, masks, bitwise or and truncation: an expression is
    evaluated to the list of its bits, each the disjunction of a list of bits
    of the bytes it is made of, and two expressions whose bits have the same
    disjuncts are equal. *)
From S2P Require Import Prelude.
Local Open Scope Z_scope.

(** ** Expressions *)

Inductive bexp :=
  | BByte (j : nat)
  | BShl (e : bexp) (n : nat)
  | BShr (e : bexp) (n : nat)
  | BAnd (e : bexp) (mask : N)
  | BOr (e1 e2 : bexp)
  | BWrap (w : nat) (e : bexp).

(** The value of an expression when byte [j] is [nth j bs 0]. *)
Fixpoint beval (bs : list Z) (e : bexp) : Z :=
  match e with
  | BByte j => nth j bs 0
  | BShl e n => Z.shiftl (beval bs e) (Z.of_nat n)
  | BShr e n => Z.shiftr (beval bs e) (Z.of_nat n)
  | BAnd e mask => Z.land (beval bs e) (Z.of_N mask)
  | BOr e1 e2 => Z.lor (beval bs e1) (beval bs e2)
  | BWrap w e => wrap (Z.of_nat w) (beval bs e)
  end.

(** ** Bits *)

(** [(j, k)] is bit [k] of byte [j]; a symbolic bit is a disjunction. *)
Abbreviation sbit := (list (nat * nat)).

Fixpoint sbits_or (l1 l2 : list sbit) : list sbit :=
  match l1, l2 with
  | [], _ => l2
  | _, [] => l1
  | s1 :: l1, s2 :: l2 => (s1 ++ s2) :: sbits_or l1 l2
  end.

Fixpoint sbits_and (i : N) (mask : N) (l : list sbit) : list sbit :=
  match l with
  | [] => []
  | s :: l => (if N.testbit mask i then s else []) :: sbits_and (N.succ i) mask l
  end.

(** The bits of an expression; [low] lists the bytes known to be below 128. *)
Fixpoint sbits (low : list nat) (e : bexp) : list sbit :=
  match e with
  | BByte j =>
    (λ k, if (k =? 7)%nat && existsb (Nat.eqb j) low then [] else [(j, k)]) <$> seq 0 8
  | BShl e n => replicate n [] ++ sbits low e
  | BShr e n => drop n (sbits low e)
  | BAnd e mask => sbits_and 0 mask (sbits low e)
  | BOr e1 e2 => sbits_or (sbits low e1) (sbits low e2)
  | BWrap w e => take w (sbits low e)
  end.

Definition sbit_le (s1 s2 : sbit) : bool :=
  forallb (λ x, existsb (λ y, (x.1 =? y.1)%nat && (x.2 =? y.2)%nat) s2) s1.

Definition sbits_le (l1 l2 : list sbit) : bool :=
  forallb (λ i, sbit_le (nth i l1 []) (nth i l2 [])) (seq 0 (length l1)).

Definition sbits_eq (l1 l2 : list sbit) : bool := sbits_le l1 l2 && sbits_le l2 l1.

(** ** Correctness *)

Section bits.
Context (bs : list Z) (low : list nat).
Hypothesis bs_ok : bytes_ok bs.
Hypothesis low_ok : Forall (λ j, nth j bs 0 < 128) low.
Implicit Types (e : bexp) (s : sbit) (l : list sbit).

Definition sbit_val s : bool := existsb (λ x, Z.testbit (nth x.1 bs 0) (Z.of_nat x.2)) s.

Definition sbits_val l (i : nat) : bool := sbit_val (nth i l []).

Lemma sbits_val_nil i : sbits_val [] i = false.
Proof. by destruct i. Qed.

Lemma sbits_val_or l1 l2 i : sbits_val (sbits_or l1 l2) i = sbits_val l1 i || sbits_val l2 i.
Proof.
  revert l2 i. induction l1 as [|s1 l1 IH]; intros l2 i; [by cbn [sbits_or]; rewrite (sbits_val_nil i)|].
  destruct l2 as [|s2 l2]; [cbn [sbits_or]; by rewrite (sbits_val_nil i), orb_false_r|].
  destruct i as [|i]; [apply existsb_app|]. exact (IH l2 i).
Qed.

Lemma sbits_val_and (n mask : N) l i :
  sbits_val (sbits_and n mask l) i = sbits_val l i && N.testbit mask (n + N.of_nat i).
Proof.
  revert n i. induction l as [|s l IH]; intros n i; [by cbn [sbits_and]; rewrite (sbits_val_nil i)|].
  destruct i as [|i]; cbn [sbits_and]; unfold sbits_val; cbn [nth].
  - rewrite N.add_0_r. destruct (N.testbit mask n); [by rewrite andb_true_r|by rewrite andb_false_r].
  - change (sbits_val (sbits_and (N.succ n) mask l) i = sbits_val l i && N.testbit mask (n + N.of_nat (S i))).
    rewrite IH. do 2 f_equal. lia.
Qed.

Lemma byte_bit_range j k : 8 ≤ k → Z.testbit (nth j bs 0) k = false.
Proof.
  intros Hk. destruct (decide (j < length bs)%nat) as [Hj|Hj].
  - pose proof (Forall_nth_lt _ _ j 0 bs_ok Hj) as Hb. apply uint_bits in Hb as [_ Hb]; [|lia]. auto.
  - rewrite nth_overflow by lia. apply Z.testbit_0_l.
Qed.

Lemma byte_nonneg j : 0 ≤ nth j bs 0.
Proof.
  destruct (decide (j < length bs)%nat) as [Hj|Hj].
  - apply (Forall_nth_lt _ _ j 0 bs_ok Hj).
  - by rewrite nth_overflow by lia.
Qed.

Lemma sbits_val_byte j i : sbits_val (sbits low (BByte j)) i = Z.testbit (nth j bs 0) (Z.of_nat i).
Proof.
  destruct (decide (i < 8)%nat) as [Hi|Hi].
  - unfold sbits_val. cbn [sbits]. rewrite (nth_lookup_Some _ i [] (if (i =? 7)%nat && existsb (Nat.eqb j) low then [] else [(j, i)])).
    2:{ rewrite list_lookup_fmap, lookup_seq_lt by done. done. }
    destruct ((i =? 7)%nat && _) eqn:E; [|cbn; by rewrite orb_false_r].
    apply andb_true_iff in E as [->%Nat.eqb_eq (j' & Hin & ->%Nat.eqb_eq)%existsb_exists].
    assert (nth j' bs 0 < 128) as Hlow
      by (apply (proj1 (Forall_forall _ _) low_ok); by apply list_elem_of_In).
    pose proof (byte_nonneg j'). assert (uint 7 (nth j' bs 0)) as Hu by (split; done).
    apply uint_bits in Hu as [_ Hu]; [|lia]. by rewrite Hu.
  - rewrite byte_bit_range by lia. unfold sbits_val. rewrite nth_overflow; [done|].
    cbn. lia.
Qed.

Lemma beval_nonneg e : 0 ≤ beval bs e.
Proof.
  induction e; cbn [beval].
  - apply byte_nonneg.
  - by apply Z.shiftl_nonneg.
  - by apply Z.shiftr_nonneg.
  - apply Z.land_nonneg. by left.
  - by apply Z.lor_nonneg.
  - apply wrap_uint. lia.
Qed.

Lemma beval_bits e i : Z.testbit (beval bs e) (Z.of_nat i) = sbits_val (sbits low e) i.
Proof.
  revert i. induction e as [j|e IH n|e IH n|e IH mask|e1 IH1 e2 IH2|w e IH]; intros i.
  - by rewrite sbits_val_byte.
  - cbn [beval sbits]. rewrite Z.shiftl_spec by lia. unfold sbits_val.
    destruct (decide (i < n)%nat) as [Hi|Hi].
    + rewrite Z.testbit_neg_r, app_nth1 by (rewrite ?length_replicate; lia).
      by rewrite (nth_lookup_Some _ i [] []) by (by apply lookup_replicate_2).
    + rewrite app_nth2 by (rewrite length_replicate; lia). rewrite length_replicate.
      replace (Z.of_nat i - Z.of_nat n) with (Z.of_nat (i - n)) by lia. apply IH.
  - cbn [beval sbits]. rewrite Z.shiftr_spec by lia. unfold sbits_val.
    rewrite nth_skipn. replace (Z.of_nat i + Z.of_nat n) with (Z.of_nat (n + i)) by lia. apply IH.
  - cbn [beval sbits]. rewrite Z.land_spec, sbits_val_and, IH. f_equal.
    replace (Z.of_nat i) with (Z.of_N (N.of_nat i)) by lia. by rewrite Z.testbit_of_N.
  - cbn [beval sbits]. by rewrite Z.lor_spec, sbits_val_or, IH1, IH2.
  - cbn [beval sbits]. unfold wrap, sbits_val.
    destruct (decide (i < w)%nat) as [Hi|Hi].
    + rewrite Z.mod_pow2_bits_low, IH by lia. unfold sbits_val. by rewrite !nth_lookup, lookup_take_lt.
    + rewrite Z.mod_pow2_bits_high by lia. rewrite nth_overflow; [done|]. rewrite length_take. lia.
Qed.

Lemma sbit_le_val s1 s2 : sbit_le s1 s2 = true → sbit_val s1 = true → sbit_val s2 = true.
Proof.
  intros Hle (x & Hx & Hv)%existsb_exists. apply existsb_exists.
  unfold sbit_le in Hle. rewrite forallb_forall in Hle.
  destruct (proj1 (existsb_exists _ _) (Hle x Hx)) as (y & Hy & [E1 E2]%andb_true_iff).
  exists y. split; [done|]. apply Nat.eqb_eq in E1, E2. by rewrite <-E1, <-E2.
Qed.

Lemma sbits_le_val l1 l2 i : sbits_le l1 l2 = true → sbits_val l1 i = true → sbits_val l2 i = true.
Proof.
  intros Hle. unfold sbits_val. destruct (decide (i < length l1)%nat) as [Hi|Hi].
  - apply sbit_le_val. unfold sbits_le in Hle. rewrite forallb_forall in Hle.
    apply Hle, in_seq. lia.
  - rewrite nth_overflow by lia. done.
Qed.

Lemma sbits_eq_beval e1 e2 : sbits_eq (sbits low e1) (sbits low e2) = true → beval bs e1 = beval bs e2.
Proof.
  intros [H12 H21]%andb_true_iff. apply Z.bits_inj'. intros i Hi.
  rewrite <-(Z2Nat.id i) by done. rewrite !beval_bits.
  apply eq_true_iff_eq. split; by apply sbits_le_val.
Qed.
End bits.

(** ** Reification *)

Ltac breify_index bs b :=
  lazymatch bs with
  | b :: _ => constr:(O)
  | _ :: ?bs' => let n := breify_index bs' b in constr:(S n)
  end.

Ltac breify bs t :=
  lazymatch t with
  | Z.shiftl ?x ?n =>
    let e := breify bs x in let k := eval vm_compute in (Z.to_nat n) in constr:(BShl e k)
  | Z.shiftr ?x ?n =>
    let e := breify bs x in let k := eval vm_compute in (Z.to_nat n) in constr:(BShr e k)
  | Z.land ?x ?m =>
    let e := breify bs x in let k := eval vm_compute in (Z.to_N m) in constr:(BAnd e k)
  | Z.lor ?x ?y =>
    let e1 := breify bs x in let e2 := breify bs y in constr:(BOr e1 e2)
  | u8 ?x => let e := breify bs x in constr:(BWrap 8 e)
  | u32 ?x => let e := breify bs x in constr:(BWrap 32 e)
  | u64 ?x => let e := breify bs x in constr:(BWrap 64 e)
  | _ => let j := breify_index bs t in constr:(BByte j)
  end.

(** [bits bs low] proves an equality of two expressions over the bytes [bs],
    where [bytes_ok bs] and the bounds of the bytes [low] are at hand. *)
Ltac bits bs low :=
  lazymatch goal with
  | |- ?l = ?r =>
    let e1 := breify bs l in
    let e2 := breify bs r in
    change (beval bs e1 = beval bs e2);
    apply (sbits_eq_beval bs low); [auto|auto|vm_compute; reflexivity]
  end.
