(* ===== verification/HashBase.v ===== *)
(** * Iterated hash functions

    The construction that MD5 and the SHA-2 family share, on lists of bytes: the
    fold of a compression function over the whole blocks of a message and the
    padding of the last one; and the interface [StreamHash] that the contexts of
    codec.c and sha2.c implement and their clients rely on. *)
From S2P Require Import Prelude.
Local Open Scope nat_scope.

(** [memcpy(&dst[p], src, length src)] inside an array, and [memset]. *)
Definition memcpy (dst : list Z) (p : nat) (src : list Z) : list Z := list_inserts p src dst.
Definition memset (dst : list Z) (p : nat) (c : Z) (n : nat) : list Z :=
  list_inserts p (replicate n c) dst.

Section memory.
Implicit Types (l k : list Z) (p n : nat).

Lemma length_memcpy l p k : length (memcpy l p k) = length l.
Proof. apply length_inserts. Qed.

Lemma length_memset l p c n : length (memset l p c n) = length l.
Proof. apply length_inserts. Qed.

Lemma memcpy_split l p k :
  p + length k ≤ length l → memcpy l p k = take p l ++ k ++ drop (p + length k) l.
Proof.
  unfold memcpy. revert p. induction k as [|x k IH]; intros p Hp; cbn [list_inserts length] in *.
  - by rewrite Nat.add_0_r, app_nil_l, take_drop.
  - rewrite IH by lia. rewrite insert_take_drop.
    2: { rewrite length_app, length_take. lia. }
    rewrite take_app_le, take_take, Nat.min_l by (rewrite ?length_take; lia).
    rewrite drop_app_length' by (rewrite length_take; lia).
    by replace (S p + length k) with (p + S (length k)) by lia.
Qed.

Lemma take_memcpy_prefix l p k :
  p + length k ≤ length l → take (p + length k) (memcpy l p k) = take p l ++ k.
Proof.
  intros Hp. rewrite memcpy_split, app_assoc by done.
  apply take_app_length'. rewrite length_app, length_take. lia.
Qed.

Lemma drop_memcpy l p k :
  p + length k ≤ length l → drop (p + length k) (memcpy l p k) = drop (p + length k) l.
Proof.
  intros Hp. rewrite memcpy_split, app_assoc by done.
  apply drop_app_length'. rewrite length_app, length_take. lia.
Qed.

Lemma take_memcpy_le l p k n : n ≤ p → take n (memcpy l p k) = take n l.
Proof.
  intros Hn. apply (nth_ext _ _ 0%Z 0%Z).
  - by rewrite !length_take, length_memcpy.
  - intros i. rewrite length_take. intros Hi.
    rewrite !nth_firstn. destruct (Nat.ltb_spec i n); [|lia].
    rewrite !nth_lookup. unfold memcpy. by rewrite list_lookup_inserts_lt by lia.
Qed.

Lemma take_insert_S l n (x : Z) : n < length l → take (S n) (<[n:=x]> l) = take n l ++ [x].
Proof.
  intros Hn. rewrite insert_take_drop by done.
  change (x :: drop (S n) l) with ([x] ++ drop (S n) l). rewrite app_assoc.
  apply take_app_length'. rewrite length_app, length_take. cbn [length]. lia.
Qed.

(** A byte and then zeros, after the first [n] bytes. *)
Lemma take_insert_memset l n (x c : Z) z :
  n + 1 + z ≤ length l →
  take (n + 1 + z) (memset (<[n:=x]> l) (S n) c z) = take n l ++ [x] ++ replicate z c.
Proof.
  intros Hn. unfold memset. rewrite app_assoc, <-take_insert_S by lia.
  change (list_inserts (S n) (replicate z c) (<[n:=x]> l))
    with (memcpy (<[n:=x]> l) (S n) (replicate z c)).
  replace (n + 1 + z) with (S n + length (replicate z c)) by (rewrite length_replicate; lia).
  apply take_memcpy_prefix. rewrite length_replicate, length_insert. lia.
Qed.

Lemma bytes_ok_insert l n (x : Z) : bytes_ok l → byte_ok x → bytes_ok (<[n:=x]> l).
Proof. intros. by apply Forall_insert. Qed.

Lemma memcpy_ok l p k : bytes_ok l → bytes_ok k → bytes_ok (memcpy l p k).
Proof.
  intros Hl Hk. unfold memcpy. revert p. induction Hk as [|b k Hb Hk IH]; intros p; [done|].
  cbn [list_inserts]. by apply bytes_ok_insert.
Qed.

Lemma memset_ok l p c n : bytes_ok l → byte_ok c → bytes_ok (memset l p c n).
Proof. intros. apply memcpy_ok; [done|]. by apply Forall_replicate. Qed.

Lemma memcpy_all l k : length k = length l → memcpy l 0 k = k.
Proof.
  intros Hk. rewrite memcpy_split by lia. rewrite take_0, drop_ge by lia. by rewrite app_nil_r.
Qed.
End memory.

(** ** The Merkle–Damgård iteration *)

Section iteration.
Context {St : Type} (compress : St → list Z → St) (B : nat) (HB : 0 < B).
Implicit Types (st : St) (m k : list Z) (n : nat).

(** [n] blocks from the start of [m]. *)
Fixpoint compress_blocks n st m : St :=
  match n with
  | O => st
  | S n' => compress_blocks n' (compress st (take B m)) (drop B m)
  end.

(** All whole blocks of a message, and the bytes after them. *)
Definition absorb st m : St := compress_blocks (length m / B) st m.
Definition partial m : list Z := drop (B * (length m / B)) m.

(** Padding: 0x80, zeros, then [lenf] (at most a block less a byte). *)
Definition md_zeros (L len : nat) : nat :=
  if decide (len mod B + 1 + L ≤ B) then B - 1 - L - len mod B else 2 * B - 1 - L - len mod B.
Definition md_pad m (lenf : list Z) : list Z :=
  m ++ [0x80%Z] ++ replicate (md_zeros (length lenf) (length m)) 0%Z ++ lenf.

Lemma compress_blocks_add n1 n2 st m :
  compress_blocks (n1 + n2) st m = compress_blocks n2 (compress_blocks n1 st m) (drop (B * n1) m).
Proof.
  revert st m. induction n1 as [|n1 IH]; intros st m; cbn [compress_blocks Nat.add].
  - by rewrite Nat.mul_0_r, drop_0.
  - rewrite IH, drop_drop. do 2 f_equal. lia.
Qed.

Lemma compress_blocks_app n st m k :
  B * n ≤ length m → compress_blocks n st (m ++ k) = compress_blocks n st m.
Proof.
  revert st m. induction n as [|n IH]; intros st m Hn; [done|]. cbn [compress_blocks].
  rewrite take_app_le, drop_app_le by lia. apply IH. rewrite length_drop. lia.
Qed.

Lemma length_partial m : length (partial m) = length m mod B.
Proof.
  unfold partial. rewrite length_drop. pose proof (Nat.div_mod_eq (length m) B). lia.
Qed.

Lemma length_partial_lt m : length (partial m) < B.
Proof. rewrite length_partial. apply Nat.mod_upper_bound. lia. Qed.

Lemma partial_split m : take (B * (length m / B)) m ++ partial m = m.
Proof. apply take_drop. Qed.

Lemma absorb_nil st : absorb st [] = st.
Proof. unfold absorb. cbn [length]. by rewrite Nat.Div0.div_0_l. Qed.

Lemma absorb_short st m : length m < B → absorb st m = st.
Proof. intros. unfold absorb. by rewrite Nat.div_small. Qed.

Lemma partial_short m : length m < B → partial m = m.
Proof. intros. unfold partial. by rewrite Nat.div_small, Nat.mul_0_r. Qed.

Lemma absorb_S st m : B ≤ length m → absorb st m = absorb (compress st (take B m)) (drop B m).
Proof.
  intros Hm. unfold absorb. rewrite length_drop.
  replace (length m / B) with (S ((length m - B) / B)); [done|].
  replace (length m) with (1 * B + (length m - B)) at 2 by lia.
  rewrite Nat.div_add_l by lia. done.
Qed.

Lemma partial_S m : B ≤ length m → partial m = partial (drop B m).
Proof.
  intros Hm. unfold partial. rewrite length_drop, drop_drop. f_equal.
  replace (length m) with (1 * B + (length m - B)) at 1 by lia.
  rewrite Nat.div_add_l by lia. lia.
Qed.

Lemma absorb_block st m : length m = B → absorb st m = compress st m.
Proof.
  intros Hm. rewrite absorb_S by lia. rewrite absorb_short by (rewrite length_drop; lia).
  by rewrite firstn_all2 by lia.
Qed.

Lemma absorb_app_block st m k : length m = B → absorb st (m ++ k) = absorb (compress st m) k.
Proof.
  intros Hm. rewrite absorb_S by (rewrite length_app; lia).
  by rewrite take_app_length', drop_app_length'.
Qed.

Lemma partial_app_block m k : length m = B → partial (m ++ k) = partial k.
Proof.
  intros Hm. rewrite partial_S by (rewrite length_app; lia). by rewrite drop_app_length'.
Qed.

Lemma compress_blocks_take n st m :
  B * n ≤ length m → compress_blocks n st (take (B * n) m) = compress_blocks n st m.
Proof.
  intros Hn. rewrite <-(take_drop (B * n) m) at 2.
  by rewrite compress_blocks_app by (rewrite length_take; lia).
Qed.

(** Induction on the whole blocks of a message. *)
Lemma block_ind (P : list Z → Prop) :
  (∀ m, length m < B → P m) → (∀ b m, length b = B → P m → P (b ++ m)) → ∀ m, P m.
Proof.
  intros Hshort Hblock m. remember (length m) as n eqn:Hn. revert m Hn.
  induction n as [n IH] using lt_wf_ind. intros m ->.
  destruct (decide (length m < B)); [by apply Hshort|].
  rewrite <-(take_drop B m). apply Hblock; [rewrite length_take; lia|].
  apply (IH (length (drop B m))); rewrite ?length_drop; lia.
Qed.

(** A message absorbed in two parts: what is left of the first goes in front of
    the second. *)
Lemma absorb_app st m k : absorb st (m ++ k) = absorb (absorb st m) (partial m ++ k).
Proof.
  revert st. induction m as [m Hm|b m Hb IH] using block_ind; intros st.
  - by rewrite (absorb_short st m), (partial_short m).
  - rewrite <-app_assoc, !(absorb_app_block st b), partial_app_block by done. apply IH.
Qed.

Lemma partial_app m k : partial (m ++ k) = partial (partial m ++ k).
Proof.
  induction m as [m Hm|b m Hb IH] using block_ind; [by rewrite (partial_short m)|].
  by rewrite <-app_assoc, !(partial_app_block b) by done.
Qed.

(** The padded message: one or two blocks after the whole ones. *)
Lemma absorb_md_pad st m lenf :
  1 + length lenf ≤ B →
  let r := partial m in
  let z := B - 1 - length r in
  absorb st (md_pad m lenf) =
    if decide (length r + 1 + length lenf ≤ B)
    then compress (absorb st m) (r ++ [0x80%Z] ++ replicate (z - length lenf) 0%Z ++ lenf)
    else compress (compress (absorb st m) (r ++ [0x80%Z] ++ replicate z 0%Z))
           (replicate (B - length lenf) 0%Z ++ lenf).
Proof.
  intros HL r z. unfold md_pad, md_zeros. rewrite absorb_app. fold r.
  pose proof (length_partial_lt m) as Hlt. rewrite <-length_partial. fold r in Hlt |- *.
  case_decide.
  - replace (B - 1 - length lenf - length r) with (z - length lenf) by (unfold z; lia).
    apply absorb_block. rewrite !length_app, length_replicate. unfold z. cbn [length]. lia.
  - replace (2 * B - 1 - length lenf - length r) with (z + (B - length lenf)) by lia.
    rewrite replicate_add, <-app_assoc, (app_assoc [_]), (app_assoc r).
    rewrite absorb_app_block by (rewrite !length_app, length_replicate; unfold z; cbn [length]; lia).
    rewrite absorb_block by (rewrite length_app, length_replicate; lia). done.
Qed.

Lemma absorb_inv (P : St → Prop) st m :
  P st → (∀ st b, P st → P (compress st b)) → P (absorb st m).
Proof.
  intros Hst Hc. unfold absorb. generalize (length m / B) as n. intros n. revert st m Hst.
  induction n as [|n IH]; intros st m Hst; cbn [compress_blocks]; auto.
Qed.
End iteration.

(** Two compression functions that agree on the blocks of a message. *)
Lemma absorb_ext {St} (f g : St → list Z → St) (B : nat) (P : St → Prop) st m :
  0 < B → P st → bytes_ok m →
  (∀ st b, P st → bytes_ok b → length b = B → f st b = g st b ∧ P (f st b)) →
  absorb f B st m = absorb g B st m.
Proof.
  intros HB Hst Hm Hfg. revert st Hst Hm.
  induction m as [m Hm|b m Hb IH] using (block_ind B HB); intros st Hst Hok.
  - by rewrite !absorb_short.
  - apply Forall_app in Hok as [Hokb Hok]. rewrite !absorb_app_block by done.
    destruct (Hfg st b) as [<- HP]; [done..|]. by apply IH.
Qed.

(** ** Streaming contexts

    [StreamHash init update final hash] promises that [final] of a context
    returns the hash of the concatenation of the byte strings given to [update],
    as long as each of them and their total are within [max_chunk] and
    [max_total] bytes. *)
Class StreamHash {Ctx : Type} (init : Ctx) (update : Ctx → list Z → Ctx)
    (final : Ctx → list Z) (hash : list Z → list Z) (max_chunk max_total : Z) := {
  absorbed : Ctx → list Z → Prop;
  absorbed_init : absorbed init [];
  absorbed_update ctx m k :
    absorbed ctx m → bytes_ok k → (Z.of_nat (length k) < max_chunk)%Z → absorbed (update ctx k) (m ++ k);
  absorbed_final ctx m :
    absorbed ctx m → (Z.of_nat (length m) < max_total)%Z → final ctx = hash m
}.

Section stream.
Context `{StreamHash Ctx init update final hash max_chunk max_total}.

Lemma stream_absorbed chunks ctx m :
  absorbed ctx m →
  Forall (λ k, bytes_ok k ∧ (Z.of_nat (length k) < max_chunk)%Z) chunks →
  absorbed (fold_left update chunks ctx) (m ++ concat chunks).
Proof.
  revert ctx m. induction chunks as [|k chunks IH]; intros ctx m Hm Hchunks; cbn [fold_left concat].
  - by rewrite app_nil_r.
  - apply Forall_cons in Hchunks as [[Hk Hlen] Hchunks].
    rewrite app_assoc. apply IH; [|done]. by apply absorbed_update.
Qed.

(** The digest does not depend on how the message is cut into chunks. *)
Lemma stream_digest chunks :
  Forall (λ k, bytes_ok k ∧ (Z.of_nat (length k) < max_chunk)%Z) chunks →
  (Z.of_nat (length (concat chunks)) < max_total)%Z →
  final (fold_left update chunks init) = hash (concat chunks).
Proof.
  intros Hchunks Hlen. apply absorbed_final; [|done].
  apply (stream_absorbed chunks init []); [apply absorbed_init|done].
Qed.
End stream.
