(* ===== verification/RijndaelTables.v ===== *)
(** * The constant tables of rijndael.c

    [UINT8 x[4]] is the record [word4]; the tables are lists in the order of
    the source. *)
From S2P Require Import Prelude.
Local Open Scope Z_scope.

(** Four bytes in memory order: [UINT8 x[4]], also accessed as one [UINT32]. *)
Record word4 := W4 { w_0 : Z; w_1 : Z; w_2 : Z; w_3 : Z }.

Definition Sbox : list Z := [
  99; 124; 119; 123; 242; 107; 111; 197; 48; 1; 103; 43; 254; 215; 171; 118;
  202; 130; 201; 125; 250; 89; 71; 240; 173; 212; 162; 175; 156; 164; 114; 192;
  183; 253; 147; 38; 54; 63; 247; 204; 52; 165; 229; 241; 113; 216; 49; 21;
  4; 199; 35; 195; 24; 150; 5; 154; 7; 18; 128; 226; 235; 39; 178; 117;
  9; 131; 44; 26; 27; 110; 90; 160; 82; 59; 214; 179; 41; 227; 47; 132;
  83; 209; 0; 237; 32; 252; 177; 91; 106; 203; 190; 57; 74; 76; 88; 207;
  208; 239; 170; 251; 67; 77; 51; 133; 69; 249; 2; 127; 80; 60; 159; 168;
  81; 163; 64; 143; 146; 157; 56; 245; 188; 182; 218; 33; 16; 255; 243; 210;
  205; 12; 19; 236; 95; 151; 68; 23; 196; 167; 126; 61; 100; 93; 25; 115;
  96; 129; 79; 220; 34; 42; 144; 136; 70; 238; 184; 20; 222; 94; 11; 219;
  224; 50; 58; 10; 73; 6; 36; 92; 194; 211; 172; 98; 145; 149; 228; 121;
  231; 200; 55; 109; 141; 213; 78; 169; 108; 86; 244; 234; 101; 122; 174; 8;
  186; 120; 37; 46; 28; 166; 180; 198; 232; 221; 116; 31; 75; 189; 139; 138;
  112; 62; 181; 102; 72; 3; 246; 14; 97; 53; 87; 185; 134; 193; 29; 158;
  225; 248; 152; 17; 105; 217; 142; 148; 155; 30; 135; 233; 206; 85; 40; 223;
  140; 161; 137; 13; 191; 230; 66; 104; 65; 153; 45; 15; 176; 84; 187; 22
].

Definition T1 : list word4 := [
  W4 0xc6 0x63 0x63 0xa5; W4 0xf8 0x7c 0x7c 0x84; W4 0xee 0x77 0x77 0x99; W4 0xf6 0x7b 0x7b 0x8d;
  W4 0xff 0xf2 0xf2 0x0d; W4 0xd6 0x6b 0x6b 0xbd; W4 0xde 0x6f 0x6f 0xb1; W4 0x91 0xc5 0xc5 0x54;
  W4 0x60 0x30 0x30 0x50; W4 0x02 0x01 0x01 0x03; W4 0xce 0x67 0x67 0xa9; W4 0x56 0x2b 0x2b 0x7d;
  W4 0xe7 0xfe 0xfe 0x19; W4 0xb5 0xd7 0xd7 0x62; W4 0x4d 0xab 0xab 0xe6; W4 0xec 0x76 0x76 0x9a;
  W4 0x8f 0xca 0xca 0x45; W4 0x1f 0x82 0x82 0x9d; W4 0x89 0xc9 0xc9 0x40; W4 0xfa 0x7d 0x7d 0x87;
  W4 0xef 0xfa 0xfa 0x15; W4 0xb2 0x59 0x59 0xeb; W4 0x8e 0x47 0x47 0xc9; W4 0xfb 0xf0 0xf0 0x0b;
  W4 0x41 0xad 0xad 0xec; W4 0xb3 0xd4 0xd4 0x67; W4 0x5f 0xa2 0xa2 0xfd; W4 0x45 0xaf 0xaf 0xea;
  W4 0x23 0x9c 0x9c 0xbf; W4 0x53 0xa4 0xa4 0xf7; W4 0xe4 0x72 0x72 0x96; W4 0x9b 0xc0 0xc0 0x5b;
  W4 0x75 0xb7 0xb7 0xc2; W4 0xe1 0xfd 0xfd 0x1c; W4 0x3d 0x93 0x93 0xae; W4 0x4c 0x26 0x26 0x6a;
  W4 0x6c 0x36 0x36 0x5a; W4 0x7e 0x3f 0x3f 0x41; W4 0xf5 0xf7 0xf7 0x02; W4 0x83 0xcc 0xcc 0x4f;
  W4 0x68 0x34 0x34 0x5c; W4 0x51 0xa5 0xa5 0xf4; W4 0xd1 0xe5 0xe5 0x34; W4 0xf9 0xf1 0xf1 0x08;
  W4 0xe2 0x71 0x71 0x93; W4 0xab 0xd8 0xd8 0x73; W4 0x62 0x31 0x31 0x53; W4 0x2a 0x15 0x15 0x3f;
  W4 0x08 0x04 0x04 0x0c; W4 0x95 0xc7 0xc7 0x52; W4 0x46 0x23 0x23 0x65; W4 0x9d 0xc3 0xc3 0x5e;
  W4 0x30 0x18 0x18 0x28; W4 0x37 0x96 0x96 0xa1; W4 0x0a 0x05 0x05 0x0f; W4 0x2f 0x9a 0x9a 0xb5;
  W4 0x0e 0x07 0x07 0x09; W4 0x24 0x12 0x12 0x36; W4 0x1b 0x80 0x80 0x9b; W4 0xdf 0xe2 0xe2 0x3d;
  W4 0xcd 0xeb 0xeb 0x26; W4 0x4e 0x27 0x27 0x69; W4 0x7f 0xb2 0xb2 0xcd; W4 0xea 0x75 0x75 0x9f;
  W4 0x12 0x09 0x09 0x1b; W4 0x1d 0x83 0x83 0x9e; W4 0x58 0x2c 0x2c 0x74; W4 0x34 0x1a 0x1a 0x2e;
  W4 0x36 0x1b 0x1b 0x2d; W4 0xdc 0x6e 0x6e 0xb2; W4 0xb4 0x5a 0x5a 0xee; W4 0x5b 0xa0 0xa0 0xfb;
  W4 0xa4 0x52 0x52 0xf6; W4 0x76 0x3b 0x3b 0x4d; W4 0xb7 0xd6 0xd6 0x61; W4 0x7d 0xb3 0xb3 0xce;
  W4 0x52 0x29 0x29 0x7b; W4 0xdd 0xe3 0xe3 0x3e; W4 0x5e 0x2f 0x2f 0x71; W4 0x13 0x84 0x84 0x97;
  W4 0xa6 0x53 0x53 0xf5; W4 0xb9 0xd1 0xd1 0x68; W4 0x00 0x00 0x00 0x00; W4 0xc1 0xed 0xed 0x2c;
  W4 0x40 0x20 0x20 0x60; W4 0xe3 0xfc 0xfc 0x1f; W4 0x79 0xb1 0xb1 0xc8; W4 0xb6 0x5b 0x5b 0xed;
  W4 0xd4 0x6a 0x6a 0xbe; W4 0x8d 0xcb 0xcb 0x46; W4 0x67 0xbe 0xbe 0xd9; W4 0x72 0x39 0x39 0x4b;
  W4 0x94 0x4a 0x4a 0xde; W4 0x98 0x4c 0x4c 0xd4; W4 0xb0 0x58 0x58 0xe8; W4 0x85 0xcf 0xcf 0x4a;
  W4 0xbb 0xd0 0xd0 0x6b; W4 0xc5 0xef 0xef 0x2a; W4 0x4f 0xaa 0xaa 0xe5; W4 0xed 0xfb 0xfb 0x16;
  W4 0x86 0x43 0x43 0xc5; W4 0x9a 0x4d 0x4d 0xd7; W4 0x66 0x33 0x33 0x55; W4 0x11 0x85 0x85 0x94;
  W4 0x8a 0x45 0x45 0xcf; W4 0xe9 0xf9 0xf9 0x10; W4 0x04 0x02 0x02 0x06; W4 0xfe 0x7f 0x7f 0x81;
  W4 0xa0 0x50 0x50 0xf0; W4 0x78 0x3c 0x3c 0x44; W4 0x25 0x9f 0x9f 0xba; W4 0x4b 0xa8 0xa8 0xe3;
  W4 0xa2 0x51 0x51 0xf3; W4 0x5d 0xa3 0xa3 0xfe; W4 0x80 0x40 0x40 0xc0; W4 0x05 0x8f 0x8f 0x8a;
  W4 0x3f 0x92 0x92 0xad; W4 0x21 0x9d 0x9d 0xbc; W4 0x70 0x38 0x38 0x48; W4 0xf1 0xf5 0xf5 0x04;
  W4 0x63 0xbc 0xbc 0xdf; W4 0x77 0xb6 0xb6 0xc1; W4 0xaf 0xda 0xda 0x75; W4 0x42 0x21 0x21 0x63;
  W4 0x20 0x10 0x10 0x30; W4 0xe5 0xff 0xff 0x1a; W4 0xfd 0xf3 0xf3 0x0e; W4 0xbf 0xd2 0xd2 0x6d;
  W4 0x81 0xcd 0xcd 0x4c; W4 0x18 0x0c 0x0c 0x14; W4 0x26 0x13 0x13 0x35; W4 0xc3 0xec 0xec 0x2f;
  W4 0xbe 0x5f 0x5f 0xe1; W4 0x35 0x97 0x97 0xa2; W4 0x88 0x44 0x44 0xcc; W4 0x2e 0x17 0x17 0x39;
  W4 0x93 0xc4 0xc4 0x57; W4 0x55 0xa7 0xa7 0xf2; W4 0xfc 0x7e 0x7e 0x82; W4 0x7a 0x3d 0x3d 0x47;
  W4 0xc8 0x64 0x64 0xac; W4 0xba 0x5d 0x5d 0xe7; W4 0x32 0x19 0x19 0x2b; W4 0xe6 0x73 0x73 0x95;
  W4 0xc0 0x60 0x60 0xa0; W4 0x19 0x81 0x81 0x98; W4 0x9e 0x4f 0x4f 0xd1; W4 0xa3 0xdc 0xdc 0x7f;
  W4 0x44 0x22 0x22 0x66; W4 0x54 0x2a 0x2a 0x7e; W4 0x3b 0x90 0x90 0xab; W4 0x0b 0x88 0x88 0x83;
  W4 0x8c 0x46 0x46 0xca; W4 0xc7 0xee 0xee 0x29; W4 0x6b 0xb8 0xb8 0xd3; W4 0x28 0x14 0x14 0x3c;
  W4 0xa7 0xde 0xde 0x79; W4 0xbc 0x5e 0x5e 0xe2; W4 0x16 0x0b 0x0b 0x1d; W4 0xad 0xdb 0xdb 0x76;
  W4 0xdb 0xe0 0xe0 0x3b; W4 0x64 0x32 0x32 0x56; W4 0x74 0x3a 0x3a 0x4e; W4 0x14 0x0a 0x0a 0x1e;
  W4 0x92 0x49 0x49 0xdb; W4 0x0c 0x06 0x06 0x0a; W4 0x48 0x24 0x24 0x6c; W4 0xb8 0x5c 0x5c 0xe4;
  W4 0x9f 0xc2 0xc2 0x5d; W4 0xbd 0xd3 0xd3 0x6e; W4 0x43 0xac 0xac 0xef; W4 0xc4 0x62 0x62 0xa6;
  W4 0x39 0x91 0x91 0xa8; W4 0x31 0x95 0x95 0xa4; W4 0xd3 0xe4 0xe4 0x37; W4 0xf2 0x79 0x79 0x8b;
  W4 0xd5 0xe7 0xe7 0x32; W4 0x8b 0xc8 0xc8 0x43; W4 0x6e 0x37 0x37 0x59; W4 0xda 0x6d 0x6d 0xb7;
  W4 0x01 0x8d 0x8d 0x8c; W4 0xb1 0xd5 0xd5 0x64; W4 0x9c 0x4e 0x4e 0xd2; W4 0x49 0xa9 0xa9 0xe0;
  W4 0xd8 0x6c 0x6c 0xb4; W4 0xac 0x56 0x56 0xfa; W4 0xf3 0xf4 0xf4 0x07; W4 0xcf 0xea 0xea 0x25;
  W4 0xca 0x65 0x65 0xaf; W4 0xf4 0x7a 0x7a 0x8e; W4 0x47 0xae 0xae 0xe9; W4 0x10 0x08 0x08 0x18;
  W4 0x6f 0xba 0xba 0xd5; W4 0xf0 0x78 0x78 0x88; W4 0x4a 0x25 0x25 0x6f; W4 0x5c 0x2e 0x2e 0x72;
  W4 0x38 0x1c 0x1c 0x24; W4 0x57 0xa6 0xa6 0xf1; W4 0x73 0xb4 0xb4 0xc7; W4 0x97 0xc6 0xc6 0x51;
  W4 0xcb 0xe8 0xe8 0x23; W4 0xa1 0xdd 0xdd 0x7c; W4 0xe8 0x74 0x74 0x9c; W4 0x3e 0x1f 0x1f 0x21;
  W4 0x96 0x4b 0x4b 0xdd; W4 0x61 0xbd 0xbd 0xdc; W4 0x0d 0x8b 0x8b 0x86; W4 0x0f 0x8a 0x8a 0x85;
  W4 0xe0 0x70 0x70 0x90; W4 0x7c 0x3e 0x3e 0x42; W4 0x71 0xb5 0xb5 0xc4; W4 0xcc 0x66 0x66 0xaa;
  W4 0x90 0x48 0x48 0xd8; W4 0x06 0x03 0x03 0x05; W4 0xf7 0xf6 0xf6 0x01; W4 0x1c 0x0e 0x0e 0x12;
  W4 0xc2 0x61 0x61 0xa3; W4 0x6a 0x35 0x35 0x5f; W4 0xae 0x57 0x57 0xf9; W4 0x69 0xb9 0xb9 0xd0;
  W4 0x17 0x86 0x86 0x91; W4 0x99 0xc1 0xc1 0x58; W4 0x3a 0x1d 0x1d 0x27; W4 0x27 0x9e 0x9e 0xb9;
  W4 0xd9 0xe1 0xe1 0x38; W4 0xeb 0xf8 0xf8 0x13; W4 0x2b 0x98 0x98 0xb3; W4 0x22 0x11 0x11 0x33;
  W4 0xd2 0x69 0x69 0xbb; W4 0xa9 0xd9 0xd9 0x70; W4 0x07 0x8e 0x8e 0x89; W4 0x33 0x94 0x94 0xa7;
  W4 0x2d 0x9b 0x9b 0xb6; W4 0x3c 0x1e 0x1e 0x22; W4 0x15 0x87 0x87 0x92; W4 0xc9 0xe9 0xe9 0x20;
  W4 0x87 0xce 0xce 0x49; W4 0xaa 0x55 0x55 0xff; W4 0x50 0x28 0x28 0x78; W4 0xa5 0xdf 0xdf 0x7a;
  W4 0x03 0x8c 0x8c 0x8f; W4 0x59 0xa1 0xa1 0xf8; W4 0x09 0x89 0x89 0x80; W4 0x1a 0x0d 0x0d 0x17;
  W4 0x65 0xbf 0xbf 0xda; W4 0xd7 0xe6 0xe6 0x31; W4 0x84 0x42 0x42 0xc6; W4 0xd0 0x68 0x68 0xb8;
  W4 0x82 0x41 0x41 0xc3; W4 0x29 0x99 0x99 0xb0; W4 0x5a 0x2d 0x2d 0x77; W4 0x1e 0x0f 0x0f 0x11;
  W4 0x7b 0xb0 0xb0 0xcb; W4 0xa8 0x54 0x54 0xfc; W4 0x6d 0xbb 0xbb 0xd6; W4 0x2c 0x16 0x16 0x3a
].

Definition T2 : list word4 := [
  W4 0xa5 0xc6 0x63 0x63; W4 0x84 0xf8 0x7c 0x7c; W4 0x99 0xee 0x77 0x77; W4 0x8d 0xf6 0x7b 0x7b;
  W4 0x0d 0xff 0xf2 0xf2; W4 0xbd 0xd6 0x6b 0x6b; W4 0xb1 0xde 0x6f 0x6f; W4 0x54 0x91 0xc5 0xc5;
  W4 0x50 0x60 0x30 0x30; W4 0x03 0x02 0x01 0x01; W4 0xa9 0xce 0x67 0x67; W4 0x7d 0x56 0x2b 0x2b;
  W4 0x19 0xe7 0xfe 0xfe; W4 0x62 0xb5 0xd7 0xd7; W4 0xe6 0x4d 0xab 0xab; W4 0x9a 0xec 0x76 0x76;
  W4 0x45 0x8f 0xca 0xca; W4 0x9d 0x1f 0x82 0x82; W4 0x40 0x89 0xc9 0xc9; W4 0x87 0xfa 0x7d 0x7d;
  W4 0x15 0xef 0xfa 0xfa; W4 0xeb 0xb2 0x59 0x59; W4 0xc9 0x8e 0x47 0x47; W4 0x0b 0xfb 0xf0 0xf0;
  W4 0xec 0x41 0xad 0xad; W4 0x67 0xb3 0xd4 0xd4; W4 0xfd 0x5f 0xa2 0xa2; W4 0xea 0x45 0xaf 0xaf;
  W4 0xbf 0x23 0x9c 0x9c; W4 0xf7 0x53 0xa4 0xa4; W4 0x96 0xe4 0x72 0x72; W4 0x5b 0x9b 0xc0 0xc0;
  W4 0xc2 0x75 0xb7 0xb7; W4 0x1c 0xe1 0xfd 0xfd; W4 0xae 0x3d 0x93 0x93; W4 0x6a 0x4c 0x26 0x26;
  W4 0x5a 0x6c 0x36 0x36; W4 0x41 0x7e 0x3f 0x3f; W4 0x02 0xf5 0xf7 0xf7; W4 0x4f 0x83 0xcc 0xcc;
  W4 0x5c 0x68 0x34 0x34; W4 0xf4 0x51 0xa5 0xa5; W4 0x34 0xd1 0xe5 0xe5; W4 0x08 0xf9 0xf1 0xf1;
  W4 0x93 0xe2 0x71 0x71; W4 0x73 0xab 0xd8 0xd8; W4 0x53 0x62 0x31 0x31; W4 0x3f 0x2a 0x15 0x15;
  W4 0x0c 0x08 0x04 0x04; W4 0x52 0x95 0xc7 0xc7; W4 0x65 0x46 0x23 0x23; W4 0x5e 0x9d 0xc3 0xc3;
  W4 0x28 0x30 0x18 0x18; W4 0xa1 0x37 0x96 0x96; W4 0x0f 0x0a 0x05 0x05; W4 0xb5 0x2f 0x9a 0x9a;
  W4 0x09 0x0e 0x07 0x07; W4 0x36 0x24 0x12 0x12; W4 0x9b 0x1b 0x80 0x80; W4 0x3d 0xdf 0xe2 0xe2;
  W4 0x26 0xcd 0xeb 0xeb; W4 0x69 0x4e 0x27 0x27; W4 0xcd 0x7f 0xb2 0xb2; W4 0x9f 0xea 0x75 0x75;
  W4 0x1b 0x12 0x09 0x09; W4 0x9e 0x1d 0x83 0x83; W4 0x74 0x58 0x2c 0x2c; W4 0x2e 0x34 0x1a 0x1a;
  W4 0x2d 0x36 0x1b 0x1b; W4 0xb2 0xdc 0x6e 0x6e; W4 0xee 0xb4 0x5a 0x5a; W4 0xfb 0x5b 0xa0 0xa0;
  W4 0xf6 0xa4 0x52 0x52; W4 0x4d 0x76 0x3b 0x3b; W4 0x61 0xb7 0xd6 0xd6; W4 0xce 0x7d 0xb3 0xb3;
  W4 0x7b 0x52 0x29 0x29; W4 0x3e 0xdd 0xe3 0xe3; W4 0x71 0x5e 0x2f 0x2f; W4 0x97 0x13 0x84 0x84;
  W4 0xf5 0xa6 0x53 0x53; W4 0x68 0xb9 0xd1 0xd1; W4 0x00 0x00 0x00 0x00; W4 0x2c 0xc1 0xed 0xed;
  W4 0x60 0x40 0x20 0x20; W4 0x1f 0xe3 0xfc 0xfc; W4 0xc8 0x79 0xb1 0xb1; W4 0xed 0xb6 0x5b 0x5b;
  W4 0xbe 0xd4 0x6a 0x6a; W4 0x46 0x8d 0xcb 0xcb; W4 0xd9 0x67 0xbe 0xbe; W4 0x4b 0x72 0x39 0x39;
  W4 0xde 0x94 0x4a 0x4a; W4 0xd4 0x98 0x4c 0x4c; W4 0xe8 0xb0 0x58 0x58; W4 0x4a 0x85 0xcf 0xcf;
  W4 0x6b 0xbb 0xd0 0xd0; W4 0x2a 0xc5 0xef 0xef; W4 0xe5 0x4f 0xaa 0xaa; W4 0x16 0xed 0xfb 0xfb;
  W4 0xc5 0x86 0x43 0x43; W4 0xd7 0x9a 0x4d 0x4d; W4 0x55 0x66 0x33 0x33; W4 0x94 0x11 0x85 0x85;
  W4 0xcf 0x8a 0x45 0x45; W4 0x10 0xe9 0xf9 0xf9; W4 0x06 0x04 0x02 0x02; W4 0x81 0xfe 0x7f 0x7f;
  W4 0xf0 0xa0 0x50 0x50; W4 0x44 0x78 0x3c 0x3c; W4 0xba 0x25 0x9f 0x9f; W4 0xe3 0x4b 0xa8 0xa8;
  W4 0xf3 0xa2 0x51 0x51; W4 0xfe 0x5d 0xa3 0xa3; W4 0xc0 0x80 0x40 0x40; W4 0x8a 0x05 0x8f 0x8f;
  W4 0xad 0x3f 0x92 0x92; W4 0xbc 0x21 0x9d 0x9d; W4 0x48 0x70 0x38 0x38; W4 0x04 0xf1 0xf5 0xf5;
  W4 0xdf 0x63 0xbc 0xbc; W4 0xc1 0x77 0xb6 0xb6; W4 0x75 0xaf 0xda 0xda; W4 0x63 0x42 0x21 0x21;
  W4 0x30 0x20 0x10 0x10; W4 0x1a 0xe5 0xff 0xff; W4 0x0e 0xfd 0xf3 0xf3; W4 0x6d 0xbf 0xd2 0xd2;
  W4 0x4c 0x81 0xcd 0xcd; W4 0x14 0x18 0x0c 0x0c; W4 0x35 0x26 0x13 0x13; W4 0x2f 0xc3 0xec 0xec;
  W4 0xe1 0xbe 0x5f 0x5f; W4 0xa2 0x35 0x97 0x97; W4 0xcc 0x88 0x44 0x44; W4 0x39 0x2e 0x17 0x17;
  W4 0x57 0x93 0xc4 0xc4; W4 0xf2 0x55 0xa7 0xa7; W4 0x82 0xfc 0x7e 0x7e; W4 0x47 0x7a 0x3d 0x3d;
  W4 0xac 0xc8 0x64 0x64; W4 0xe7 0xba 0x5d 0x5d; W4 0x2b 0x32 0x19 0x19; W4 0x95 0xe6 0x73 0x73;
  W4 0xa0 0xc0 0x60 0x60; W4 0x98 0x19 0x81 0x81; W4 0xd1 0x9e 0x4f 0x4f; W4 0x7f 0xa3 0xdc 0xdc;
  W4 0x66 0x44 0x22 0x22; W4 0x7e 0x54 0x2a 0x2a; W4 0xab 0x3b 0x90 0x90; W4 0x83 0x0b 0x88 0x88;
  W4 0xca 0x8c 0x46 0x46; W4 0x29 0xc7 0xee 0xee; W4 0xd3 0x6b 0xb8 0xb8; W4 0x3c 0x28 0x14 0x14;
  W4 0x79 0xa7 0xde 0xde; W4 0xe2 0xbc 0x5e 0x5e; W4 0x1d 0x16 0x0b 0x0b; W4 0x76 0xad 0xdb 0xdb;
  W4 0x3b 0xdb 0xe0 0xe0; W4 0x56 0x64 0x32 0x32; W4 0x4e 0x74 0x3a 0x3a; W4 0x1e 0x14 0x0a 0x0a;
  W4 0xdb 0x92 0x49 0x49; W4 0x0a 0x0c 0x06 0x06; W4 0x6c 0x48 0x24 0x24; W4 0xe4 0xb8 0x5c 0x5c;
  W4 0x5d 0x9f 0xc2 0xc2; W4 0x6e 0xbd 0xd3 0xd3; W4 0xef 0x43 0xac 0xac; W4 0xa6 0xc4 0x62 0x62;
  W4 0xa8 0x39 0x91 0x91; W4 0xa4 0x31 0x95 0x95; W4 0x37 0xd3 0xe4 0xe4; W4 0x8b 0xf2 0x79 0x79;
  W4 0x32 0xd5 0xe7 0xe7; W4 0x43 0x8b 0xc8 0xc8; W4 0x59 0x6e 0x37 0x37; W4 0xb7 0xda 0x6d 0x6d;
  W4 0x8c 0x01 0x8d 0x8d; W4 0x64 0xb1 0xd5 0xd5; W4 0xd2 0x9c 0x4e 0x4e; W4 0xe0 0x49 0xa9 0xa9;
  W4 0xb4 0xd8 0x6c 0x6c; W4 0xfa 0xac 0x56 0x56; W4 0x07 0xf3 0xf4 0xf4; W4 0x25 0xcf 0xea 0xea;
  W4 0xaf 0xca 0x65 0x65; W4 0x8e 0xf4 0x7a 0x7a; W4 0xe9 0x47 0xae 0xae; W4 0x18 0x10 0x08 0x08;
  W4 0xd5 0x6f 0xba 0xba; W4 0x88 0xf0 0x78 0x78; W4 0x6f 0x4a 0x25 0x25; W4 0x72 0x5c 0x2e 0x2e;
  W4 0x24 0x38 0x1c 0x1c; W4 0xf1 0x57 0xa6 0xa6; W4 0xc7 0x73 0xb4 0xb4; W4 0x51 0x97 0xc6 0xc6;
  W4 0x23 0xcb 0xe8 0xe8; W4 0x7c 0xa1 0xdd 0xdd; W4 0x9c 0xe8 0x74 0x74; W4 0x21 0x3e 0x1f 0x1f;
  W4 0xdd 0x96 0x4b 0x4b; W4 0xdc 0x61 0xbd 0xbd; W4 0x86 0x0d 0x8b 0x8b; W4 0x85 0x0f 0x8a 0x8a;
  W4 0x90 0xe0 0x70 0x70; W4 0x42 0x7c 0x3e 0x3e; W4 0xc4 0x71 0xb5 0xb5; W4 0xaa 0xcc 0x66 0x66;
  W4 0xd8 0x90 0x48 0x48; W4 0x05 0x06 0x03 0x03; W4 0x01 0xf7 0xf6 0xf6; W4 0x12 0x1c 0x0e 0x0e;
  W4 0xa3 0xc2 0x61 0x61; W4 0x5f 0x6a 0x35 0x35; W4 0xf9 0xae 0x57 0x57; W4 0xd0 0x69 0xb9 0xb9;
  W4 0x91 0x17 0x86 0x86; W4 0x58 0x99 0xc1 0xc1; W4 0x27 0x3a 0x1d 0x1d; W4 0xb9 0x27 0x9e 0x9e;
  W4 0x38 0xd9 0xe1 0xe1; W4 0x13 0xeb 0xf8 0xf8; W4 0xb3 0x2b 0x98 0x98; W4 0x33 0x22 0x11 0x11;
  W4 0xbb 0xd2 0x69 0x69; W4 0x70 0xa9 0xd9 0xd9; W4 0x89 0x07 0x8e 0x8e; W4 0xa7 0x33 0x94 0x94;
  W4 0xb6 0x2d 0x9b 0x9b; W4 0x22 0x3c 0x1e 0x1e; W4 0x92 0x15 0x87 0x87; W4 0x20 0xc9 0xe9 0xe9;
  W4 0x49 0x87 0xce 0xce; W4 0xff 0xaa 0x55 0x55; W4 0x78 0x50 0x28 0x28; W4 0x7a 0xa5 0xdf 0xdf;
  W4 0x8f 0x03 0x8c 0x8c; W4 0xf8 0x59 0xa1 0xa1; W4 0x80 0x09 0x89 0x89; W4 0x17 0x1a 0x0d 0x0d;
  W4 0xda 0x65 0xbf 0xbf; W4 0x31 0xd7 0xe6 0xe6; W4 0xc6 0x84 0x42 0x42; W4 0xb8 0xd0 0x68 0x68;
  W4 0xc3 0x82 0x41 0x41; W4 0xb0 0x29 0x99 0x99; W4 0x77 0x5a 0x2d 0x2d; W4 0x11 0x1e 0x0f 0x0f;
  W4 0xcb 0x7b 0xb0 0xb0; W4 0xfc 0xa8 0x54 0x54; W4 0xd6 0x6d 0xbb 0xbb; W4 0x3a 0x2c 0x16 0x16
].

Definition T3 : list word4 := [
  W4 0x63 0xa5 0xc6 0x63; W4 0x7c 0x84 0xf8 0x7c; W4 0x77 0x99 0xee 0x77; W4 0x7b 0x8d 0xf6 0x7b;
  W4 0xf2 0x0d 0xff 0xf2; W4 0x6b 0xbd 0xd6 0x6b; W4 0x6f 0xb1 0xde 0x6f; W4 0xc5 0x54 0x91 0xc5;
  W4 0x30 0x50 0x60 0x30; W4 0x01 0x03 0x02 0x01; W4 0x67 0xa9 0xce 0x67; W4 0x2b 0x7d 0x56 0x2b;
  W4 0xfe 0x19 0xe7 0xfe; W4 0xd7 0x62 0xb5 0xd7; W4 0xab 0xe6 0x4d 0xab; W4 0x76 0x9a 0xec 0x76;
  W4 0xca 0x45 0x8f 0xca; W4 0x82 0x9d 0x1f 0x82; W4 0xc9 0x40 0x89 0xc9; W4 0x7d 0x87 0xfa 0x7d;
  W4 0xfa 0x15 0xef 0xfa; W4 0x59 0xeb 0xb2 0x59; W4 0x47 0xc9 0x8e 0x47; W4 0xf0 0x0b 0xfb 0xf0;
  W4 0xad 0xec 0x41 0xad; W4 0xd4 0x67 0xb3 0xd4; W4 0xa2 0xfd 0x5f 0xa2; W4 0xaf 0xea 0x45 0xaf;
  W4 0x9c 0xbf 0x23 0x9c; W4 0xa4 0xf7 0x53 0xa4; W4 0x72 0x96 0xe4 0x72; W4 0xc0 0x5b 0x9b 0xc0;
  W4 0xb7 0xc2 0x75 0xb7; W4 0xfd 0x1c 0xe1 0xfd; W4 0x93 0xae 0x3d 0x93; W4 0x26 0x6a 0x4c 0x26;
  W4 0x36 0x5a 0x6c 0x36; W4 0x3f 0x41 0x7e 0x3f; W4 0xf7 0x02 0xf5 0xf7; W4 0xcc 0x4f 0x83 0xcc;
  W4 0x34 0x5c 0x68 0x34; W4 0xa5 0xf4 0x51 0xa5; W4 0xe5 0x34 0xd1 0xe5; W4 0xf1 0x08 0xf9 0xf1;
  W4 0x71 0x93 0xe2 0x71; W4 0xd8 0x73 0xab 0xd8; W4 0x31 0x53 0x62 0x31; W4 0x15 0x3f 0x2a 0x15;
  W4 0x04 0x0c 0x08 0x04; W4 0xc7 0x52 0x95 0xc7; W4 0x23 0x65 0x46 0x23; W4 0xc3 0x5e 0x9d 0xc3;
  W4 0x18 0x28 0x30 0x18; W4 0x96 0xa1 0x37 0x96; W4 0x05 0x0f 0x0a 0x05; W4 0x9a 0xb5 0x2f 0x9a;
  W4 0x07 0x09 0x0e 0x07; W4 0x12 0x36 0x24 0x12; W4 0x80 0x9b 0x1b 0x80; W4 0xe2 0x3d 0xdf 0xe2;
  W4 0xeb 0x26 0xcd 0xeb; W4 0x27 0x69 0x4e 0x27; W4 0xb2 0xcd 0x7f 0xb2; W4 0x75 0x9f 0xea 0x75;
  W4 0x09 0x1b 0x12 0x09; W4 0x83 0x9e 0x1d 0x83; W4 0x2c 0x74 0x58 0x2c; W4 0x1a 0x2e 0x34 0x1a;
  W4 0x1b 0x2d 0x36 0x1b; W4 0x6e 0xb2 0xdc 0x6e; W4 0x5a 0xee 0xb4 0x5a; W4 0xa0 0xfb 0x5b 0xa0;
  W4 0x52 0xf6 0xa4 0x52; W4 0x3b 0x4d 0x76 0x3b; W4 0xd6 0x61 0xb7 0xd6; W4 0xb3 0xce 0x7d 0xb3;
  W4 0x29 0x7b 0x52 0x29; W4 0xe3 0x3e 0xdd 0xe3; W4 0x2f 0x71 0x5e 0x2f; W4 0x84 0x97 0x13 0x84;
  W4 0x53 0xf5 0xa6 0x53; W4 0xd1 0x68 0xb9 0xd1; W4 0x00 0x00 0x00 0x00; W4 0xed 0x2c 0xc1 0xed;
  W4 0x20 0x60 0x40 0x20; W4 0xfc 0x1f 0xe3 0xfc; W4 0xb1 0xc8 0x79 0xb1; W4 0x5b 0xed 0xb6 0x5b;
  W4 0x6a 0xbe 0xd4 0x6a; W4 0xcb 0x46 0x8d 0xcb; W4 0xbe 0xd9 0x67 0xbe; W4 0x39 0x4b 0x72 0x39;
  W4 0x4a 0xde 0x94 0x4a; W4 0x4c 0xd4 0x98 0x4c; W4 0x58 0xe8 0xb0 0x58; W4 0xcf 0x4a 0x85 0xcf;
  W4 0xd0 0x6b 0xbb 0xd0; W4 0xef 0x2a 0xc5 0xef; W4 0xaa 0xe5 0x4f 0xaa; W4 0xfb 0x16 0xed 0xfb;
  W4 0x43 0xc5 0x86 0x43; W4 0x4d 0xd7 0x9a 0x4d; W4 0x33 0x55 0x66 0x33; W4 0x85 0x94 0x11 0x85;
  W4 0x45 0xcf 0x8a 0x45; W4 0xf9 0x10 0xe9 0xf9; W4 0x02 0x06 0x04 0x02; W4 0x7f 0x81 0xfe 0x7f;
  W4 0x50 0xf0 0xa0 0x50; W4 0x3c 0x44 0x78 0x3c; W4 0x9f 0xba 0x25 0x9f; W4 0xa8 0xe3 0x4b 0xa8;
  W4 0x51 0xf3 0xa2 0x51; W4 0xa3 0xfe 0x5d 0xa3; W4 0x40 0xc0 0x80 0x40; W4 0x8f 0x8a 0x05 0x8f;
  W4 0x92 0xad 0x3f 0x92; W4 0x9d 0xbc 0x21 0x9d; W4 0x38 0x48 0x70 0x38; W4 0xf5 0x04 0xf1 0xf5;
  W4 0xbc 0xdf 0x63 0xbc; W4 0xb6 0xc1 0x77 0xb6; W4 0xda 0x75 0xaf 0xda; W4 0x21 0x63 0x42 0x21;
  W4 0x10 0x30 0x20 0x10; W4 0xff 0x1a 0xe5 0xff; W4 0xf3 0x0e 0xfd 0xf3; W4 0xd2 0x6d 0xbf 0xd2;
  W4 0xcd 0x4c 0x81 0xcd; W4 0x0c 0x14 0x18 0x0c; W4 0x13 0x35 0x26 0x13; W4 0xec 0x2f 0xc3 0xec;
  W4 0x5f 0xe1 0xbe 0x5f; W4 0x97 0xa2 0x35 0x97; W4 0x44 0xcc 0x88 0x44; W4 0x17 0x39 0x2e 0x17;
  W4 0xc4 0x57 0x93 0xc4; W4 0xa7 0xf2 0x55 0xa7; W4 0x7e 0x82 0xfc 0x7e; W4 0x3d 0x47 0x7a 0x3d;
  W4 0x64 0xac 0xc8 0x64; W4 0x5d 0xe7 0xba 0x5d; W4 0x19 0x2b 0x32 0x19; W4 0x73 0x95 0xe6 0x73;
  W4 0x60 0xa0 0xc0 0x60; W4 0x81 0x98 0x19 0x81; W4 0x4f 0xd1 0x9e 0x4f; W4 0xdc 0x7f 0xa3 0xdc;
  W4 0x22 0x66 0x44 0x22; W4 0x2a 0x7e 0x54 0x2a; W4 0x90 0xab 0x3b 0x90; W4 0x88 0x83 0x0b 0x88;
  W4 0x46 0xca 0x8c 0x46; W4 0xee 0x29 0xc7 0xee; W4 0xb8 0xd3 0x6b 0xb8; W4 0x14 0x3c 0x28 0x14;
  W4 0xde 0x79 0xa7 0xde; W4 0x5e 0xe2 0xbc 0x5e; W4 0x0b 0x1d 0x16 0x0b; W4 0xdb 0x76 0xad 0xdb;
  W4 0xe0 0x3b 0xdb 0xe0; W4 0x32 0x56 0x64 0x32; W4 0x3a 0x4e 0x74 0x3a; W4 0x0a 0x1e 0x14 0x0a;
  W4 0x49 0xdb 0x92 0x49; W4 0x06 0x0a 0x0c 0x06; W4 0x24 0x6c 0x48 0x24; W4 0x5c 0xe4 0xb8 0x5c;
  W4 0xc2 0x5d 0x9f 0xc2; W4 0xd3 0x6e 0xbd 0xd3; W4 0xac 0xef 0x43 0xac; W4 0x62 0xa6 0xc4 0x62;
  W4 0x91 0xa8 0x39 0x91; W4 0x95 0xa4 0x31 0x95; W4 0xe4 0x37 0xd3 0xe4; W4 0x79 0x8b 0xf2 0x79;
  W4 0xe7 0x32 0xd5 0xe7; W4 0xc8 0x43 0x8b 0xc8; W4 0x37 0x59 0x6e 0x37; W4 0x6d 0xb7 0xda 0x6d;
  W4 0x8d 0x8c 0x01 0x8d; W4 0xd5 0x64 0xb1 0xd5; W4 0x4e 0xd2 0x9c 0x4e; W4 0xa9 0xe0 0x49 0xa9;
  W4 0x6c 0xb4 0xd8 0x6c; W4 0x56 0xfa 0xac 0x56; W4 0xf4 0x07 0xf3 0xf4; W4 0xea 0x25 0xcf 0xea;
  W4 0x65 0xaf 0xca 0x65; W4 0x7a 0x8e 0xf4 0x7a; W4 0xae 0xe9 0x47 0xae; W4 0x08 0x18 0x10 0x08;
  W4 0xba 0xd5 0x6f 0xba; W4 0x78 0x88 0xf0 0x78; W4 0x25 0x6f 0x4a 0x25; W4 0x2e 0x72 0x5c 0x2e;
  W4 0x1c 0x24 0x38 0x1c; W4 0xa6 0xf1 0x57 0xa6; W4 0xb4 0xc7 0x73 0xb4; W4 0xc6 0x51 0x97 0xc6;
  W4 0xe8 0x23 0xcb 0xe8; W4 0xdd 0x7c 0xa1 0xdd; W4 0x74 0x9c 0xe8 0x74; W4 0x1f 0x21 0x3e 0x1f;
  W4 0x4b 0xdd 0x96 0x4b; W4 0xbd 0xdc 0x61 0xbd; W4 0x8b 0x86 0x0d 0x8b; W4 0x8a 0x85 0x0f 0x8a;
  W4 0x70 0x90 0xe0 0x70; W4 0x3e 0x42 0x7c 0x3e; W4 0xb5 0xc4 0x71 0xb5; W4 0x66 0xaa 0xcc 0x66;
  W4 0x48 0xd8 0x90 0x48; W4 0x03 0x05 0x06 0x03; W4 0xf6 0x01 0xf7 0xf6; W4 0x0e 0x12 0x1c 0x0e;
  W4 0x61 0xa3 0xc2 0x61; W4 0x35 0x5f 0x6a 0x35; W4 0x57 0xf9 0xae 0x57; W4 0xb9 0xd0 0x69 0xb9;
  W4 0x86 0x91 0x17 0x86; W4 0xc1 0x58 0x99 0xc1; W4 0x1d 0x27 0x3a 0x1d; W4 0x9e 0xb9 0x27 0x9e;
  W4 0xe1 0x38 0xd9 0xe1; W4 0xf8 0x13 0xeb 0xf8; W4 0x98 0xb3 0x2b 0x98; W4 0x11 0x33 0x22 0x11;
  W4 0x69 0xbb 0xd2 0x69; W4 0xd9 0x70 0xa9 0xd9; W4 0x8e 0x89 0x07 0x8e; W4 0x94 0xa7 0x33 0x94;
  W4 0x9b 0xb6 0x2d 0x9b; W4 0x1e 0x22 0x3c 0x1e; W4 0x87 0x92 0x15 0x87; W4 0xe9 0x20 0xc9 0xe9;
  W4 0xce 0x49 0x87 0xce; W4 0x55 0xff 0xaa 0x55; W4 0x28 0x78 0x50 0x28; W4 0xdf 0x7a 0xa5 0xdf;
  W4 0x8c 0x8f 0x03 0x8c; W4 0xa1 0xf8 0x59 0xa1; W4 0x89 0x80 0x09 0x89; W4 0x0d 0x17 0x1a 0x0d;
  W4 0xbf 0xda 0x65 0xbf; W4 0xe6 0x31 0xd7 0xe6; W4 0x42 0xc6 0x84 0x42; W4 0x68 0xb8 0xd0 0x68;
  W4 0x41 0xc3 0x82 0x41; W4 0x99 0xb0 0x29 0x99; W4 0x2d 0x77 0x5a 0x2d; W4 0x0f 0x11 0x1e 0x0f;
  W4 0xb0 0xcb 0x7b 0xb0; W4 0x54 0xfc 0xa8 0x54; W4 0xbb 0xd6 0x6d 0xbb; W4 0x16 0x3a 0x2c 0x16
].

Definition T4 : list word4 := [
  W4 0x63 0x63 0xa5 0xc6; W4 0x7c 0x7c 0x84 0xf8; W4 0x77 0x77 0x99 0xee; W4 0x7b 0x7b 0x8d 0xf6;
  W4 0xf2 0xf2 0x0d 0xff; W4 0x6b 0x6b 0xbd 0xd6; W4 0x6f 0x6f 0xb1 0xde; W4 0xc5 0xc5 0x54 0x91;
  W4 0x30 0x30 0x50 0x60; W4 0x01 0x01 0x03 0x02; W4 0x67 0x67 0xa9 0xce; W4 0x2b 0x2b 0x7d 0x56;
  W4 0xfe 0xfe 0x19 0xe7; W4 0xd7 0xd7 0x62 0xb5; W4 0xab 0xab 0xe6 0x4d; W4 0x76 0x76 0x9a 0xec;
  W4 0xca 0xca 0x45 0x8f; W4 0x82 0x82 0x9d 0x1f; W4 0xc9 0xc9 0x40 0x89; W4 0x7d 0x7d 0x87 0xfa;
  W4 0xfa 0xfa 0x15 0xef; W4 0x59 0x59 0xeb 0xb2; W4 0x47 0x47 0xc9 0x8e; W4 0xf0 0xf0 0x0b 0xfb;
  W4 0xad 0xad 0xec 0x41; W4 0xd4 0xd4 0x67 0xb3; W4 0xa2 0xa2 0xfd 0x5f; W4 0xaf 0xaf 0xea 0x45;
  W4 0x9c 0x9c 0xbf 0x23; W4 0xa4 0xa4 0xf7 0x53; W4 0x72 0x72 0x96 0xe4; W4 0xc0 0xc0 0x5b 0x9b;
  W4 0xb7 0xb7 0xc2 0x75; W4 0xfd 0xfd 0x1c 0xe1; W4 0x93 0x93 0xae 0x3d; W4 0x26 0x26 0x6a 0x4c;
  W4 0x36 0x36 0x5a 0x6c; W4 0x3f 0x3f 0x41 0x7e; W4 0xf7 0xf7 0x02 0xf5; W4 0xcc 0xcc 0x4f 0x83;
  W4 0x34 0x34 0x5c 0x68; W4 0xa5 0xa5 0xf4 0x51; W4 0xe5 0xe5 0x34 0xd1; W4 0xf1 0xf1 0x08 0xf9;
  W4 0x71 0x71 0x93 0xe2; W4 0xd8 0xd8 0x73 0xab; W4 0x31 0x31 0x53 0x62; W4 0x15 0x15 0x3f 0x2a;
  W4 0x04 0x04 0x0c 0x08; W4 0xc7 0xc7 0x52 0x95; W4 0x23 0x23 0x65 0x46; W4 0xc3 0xc3 0x5e 0x9d;
  W4 0x18 0x18 0x28 0x30; W4 0x96 0x96 0xa1 0x37; W4 0x05 0x05 0x0f 0x0a; W4 0x9a 0x9a 0xb5 0x2f;
  W4 0x07 0x07 0x09 0x0e; W4 0x12 0x12 0x36 0x24; W4 0x80 0x80 0x9b 0x1b; W4 0xe2 0xe2 0x3d 0xdf;
  W4 0xeb 0xeb 0x26 0xcd; W4 0x27 0x27 0x69 0x4e; W4 0xb2 0xb2 0xcd 0x7f; W4 0x75 0x75 0x9f 0xea;
  W4 0x09 0x09 0x1b 0x12; W4 0x83 0x83 0x9e 0x1d; W4 0x2c 0x2c 0x74 0x58; W4 0x1a 0x1a 0x2e 0x34;
  W4 0x1b 0x1b 0x2d 0x36; W4 0x6e 0x6e 0xb2 0xdc; W4 0x5a 0x5a 0xee 0xb4; W4 0xa0 0xa0 0xfb 0x5b;
  W4 0x52 0x52 0xf6 0xa4; W4 0x3b 0x3b 0x4d 0x76; W4 0xd6 0xd6 0x61 0xb7; W4 0xb3 0xb3 0xce 0x7d;
  W4 0x29 0x29 0x7b 0x52; W4 0xe3 0xe3 0x3e 0xdd; W4 0x2f 0x2f 0x71 0x5e; W4 0x84 0x84 0x97 0x13;
  W4 0x53 0x53 0xf5 0xa6; W4 0xd1 0xd1 0x68 0xb9; W4 0x00 0x00 0x00 0x00; W4 0xed 0xed 0x2c 0xc1;
  W4 0x20 0x20 0x60 0x40; W4 0xfc 0xfc 0x1f 0xe3; W4 0xb1 0xb1 0xc8 0x79; W4 0x5b 0x5b 0xed 0xb6;
  W4 0x6a 0x6a 0xbe 0xd4; W4 0xcb 0xcb 0x46 0x8d; W4 0xbe 0xbe 0xd9 0x67; W4 0x39 0x39 0x4b 0x72;
  W4 0x4a 0x4a 0xde 0x94; W4 0x4c 0x4c 0xd4 0x98; W4 0x58 0x58 0xe8 0xb0; W4 0xcf 0xcf 0x4a 0x85;
  W4 0xd0 0xd0 0x6b 0xbb; W4 0xef 0xef 0x2a 0xc5; W4 0xaa 0xaa 0xe5 0x4f; W4 0xfb 0xfb 0x16 0xed;
  W4 0x43 0x43 0xc5 0x86; W4 0x4d 0x4d 0xd7 0x9a; W4 0x33 0x33 0x55 0x66; W4 0x85 0x85 0x94 0x11;
  W4 0x45 0x45 0xcf 0x8a; W4 0xf9 0xf9 0x10 0xe9; W4 0x02 0x02 0x06 0x04; W4 0x7f 0x7f 0x81 0xfe;
  W4 0x50 0x50 0xf0 0xa0; W4 0x3c 0x3c 0x44 0x78; W4 0x9f 0x9f 0xba 0x25; W4 0xa8 0xa8 0xe3 0x4b;
  W4 0x51 0x51 0xf3 0xa2; W4 0xa3 0xa3 0xfe 0x5d; W4 0x40 0x40 0xc0 0x80; W4 0x8f 0x8f 0x8a 0x05;
  W4 0x92 0x92 0xad 0x3f; W4 0x9d 0x9d 0xbc 0x21; W4 0x38 0x38 0x48 0x70; W4 0xf5 0xf5 0x04 0xf1;
  W4 0xbc 0xbc 0xdf 0x63; W4 0xb6 0xb6 0xc1 0x77; W4 0xda 0xda 0x75 0xaf; W4 0x21 0x21 0x63 0x42;
  W4 0x10 0x10 0x30 0x20; W4 0xff 0xff 0x1a 0xe5; W4 0xf3 0xf3 0x0e 0xfd; W4 0xd2 0xd2 0x6d 0xbf;
  W4 0xcd 0xcd 0x4c 0x81; W4 0x0c 0x0c 0x14 0x18; W4 0x13 0x13 0x35 0x26; W4 0xec 0xec 0x2f 0xc3;
  W4 0x5f 0x5f 0xe1 0xbe; W4 0x97 0x97 0xa2 0x35; W4 0x44 0x44 0xcc 0x88; W4 0x17 0x17 0x39 0x2e;
  W4 0xc4 0xc4 0x57 0x93; W4 0xa7 0xa7 0xf2 0x55; W4 0x7e 0x7e 0x82 0xfc; W4 0x3d 0x3d 0x47 0x7a;
  W4 0x64 0x64 0xac 0xc8; W4 0x5d 0x5d 0xe7 0xba; W4 0x19 0x19 0x2b 0x32; W4 0x73 0x73 0x95 0xe6;
  W4 0x60 0x60 0xa0 0xc0; W4 0x81 0x81 0x98 0x19; W4 0x4f 0x4f 0xd1 0x9e; W4 0xdc 0xdc 0x7f 0xa3;
  W4 0x22 0x22 0x66 0x44; W4 0x2a 0x2a 0x7e 0x54; W4 0x90 0x90 0xab 0x3b; W4 0x88 0x88 0x83 0x0b;
  W4 0x46 0x46 0xca 0x8c; W4 0xee 0xee 0x29 0xc7; W4 0xb8 0xb8 0xd3 0x6b; W4 0x14 0x14 0x3c 0x28;
  W4 0xde 0xde 0x79 0xa7; W4 0x5e 0x5e 0xe2 0xbc; W4 0x0b 0x0b 0x1d 0x16; W4 0xdb 0xdb 0x76 0xad;
  W4 0xe0 0xe0 0x3b 0xdb; W4 0x32 0x32 0x56 0x64; W4 0x3a 0x3a 0x4e 0x74; W4 0x0a 0x0a 0x1e 0x14;
  W4 0x49 0x49 0xdb 0x92; W4 0x06 0x06 0x0a 0x0c; W4 0x24 0x24 0x6c 0x48; W4 0x5c 0x5c 0xe4 0xb8;
  W4 0xc2 0xc2 0x5d 0x9f; W4 0xd3 0xd3 0x6e 0xbd; W4 0xac 0xac 0xef 0x43; W4 0x62 0x62 0xa6 0xc4;
  W4 0x91 0x91 0xa8 0x39; W4 0x95 0x95 0xa4 0x31; W4 0xe4 0xe4 0x37 0xd3; W4 0x79 0x79 0x8b 0xf2;
  W4 0xe7 0xe7 0x32 0xd5; W4 0xc8 0xc8 0x43 0x8b; W4 0x37 0x37 0x59 0x6e; W4 0x6d 0x6d 0xb7 0xda;
  W4 0x8d 0x8d 0x8c 0x01; W4 0xd5 0xd5 0x64 0xb1; W4 0x4e 0x4e 0xd2 0x9c; W4 0xa9 0xa9 0xe0 0x49;
  W4 0x6c 0x6c 0xb4 0xd8; W4 0x56 0x56 0xfa 0xac; W4 0xf4 0xf4 0x07 0xf3; W4 0xea 0xea 0x25 0xcf;
  W4 0x65 0x65 0xaf 0xca; W4 0x7a 0x7a 0x8e 0xf4; W4 0xae 0xae 0xe9 0x47; W4 0x08 0x08 0x18 0x10;
  W4 0xba 0xba 0xd5 0x6f; W4 0x78 0x78 0x88 0xf0; W4 0x25 0x25 0x6f 0x4a; W4 0x2e 0x2e 0x72 0x5c;
  W4 0x1c 0x1c 0x24 0x38; W4 0xa6 0xa6 0xf1 0x57; W4 0xb4 0xb4 0xc7 0x73; W4 0xc6 0xc6 0x51 0x97;
  W4 0xe8 0xe8 0x23 0xcb; W4 0xdd 0xdd 0x7c 0xa1; W4 0x74 0x74 0x9c 0xe8; W4 0x1f 0x1f 0x21 0x3e;
  W4 0x4b 0x4b 0xdd 0x96; W4 0xbd 0xbd 0xdc 0x61; W4 0x8b 0x8b 0x86 0x0d; W4 0x8a 0x8a 0x85 0x0f;
  W4 0x70 0x70 0x90 0xe0; W4 0x3e 0x3e 0x42 0x7c; W4 0xb5 0xb5 0xc4 0x71; W4 0x66 0x66 0xaa 0xcc;
  W4 0x48 0x48 0xd8 0x90; W4 0x03 0x03 0x05 0x06; W4 0xf6 0xf6 0x01 0xf7; W4 0x0e 0x0e 0x12 0x1c;
  W4 0x61 0x61 0xa3 0xc2; W4 0x35 0x35 0x5f 0x6a; W4 0x57 0x57 0xf9 0xae; W4 0xb9 0xb9 0xd0 0x69;
  W4 0x86 0x86 0x91 0x17; W4 0xc1 0xc1 0x58 0x99; W4 0x1d 0x1d 0x27 0x3a; W4 0x9e 0x9e 0xb9 0x27;
  W4 0xe1 0xe1 0x38 0xd9; W4 0xf8 0xf8 0x13 0xeb; W4 0x98 0x98 0xb3 0x2b; W4 0x11 0x11 0x33 0x22;
  W4 0x69 0x69 0xbb 0xd2; W4 0xd9 0xd9 0x70 0xa9; W4 0x8e 0x8e 0x89 0x07; W4 0x94 0x94 0xa7 0x33;
  W4 0x9b 0x9b 0xb6 0x2d; W4 0x1e 0x1e 0x22 0x3c; W4 0x87 0x87 0x92 0x15; W4 0xe9 0xe9 0x20 0xc9;
  W4 0xce 0xce 0x49 0x87; W4 0x55 0x55 0xff 0xaa; W4 0x28 0x28 0x78 0x50; W4 0xdf 0xdf 0x7a 0xa5;
  W4 0x8c 0x8c 0x8f 0x03; W4 0xa1 0xa1 0xf8 0x59; W4 0x89 0x89 0x80 0x09; W4 0x0d 0x0d 0x17 0x1a;
  W4 0xbf 0xbf 0xda 0x65; W4 0xe6 0xe6 0x31 0xd7; W4 0x42 0x42 0xc6 0x84; W4 0x68 0x68 0xb8 0xd0;
  W4 0x41 0x41 0xc3 0x82; W4 0x99 0x99 0xb0 0x29; W4 0x2d 0x2d 0x77 0x5a; W4 0x0f 0x0f 0x11 0x1e;
  W4 0xb0 0xb0 0xcb 0x7b; W4 0x54 0x54 0xfc 0xa8; W4 0xbb 0xbb 0xd6 0x6d; W4 0x16 0x16 0x3a 0x2c
].

Definition T5 : list word4 := [
  W4 0x51 0xf4 0xa7 0x50; W4 0x7e 0x41 0x65 0x53; W4 0x1a 0x17 0xa4 0xc3; W4 0x3a 0x27 0x5e 0x96;
  W4 0x3b 0xab 0x6b 0xcb; W4 0x1f 0x9d 0x45 0xf1; W4 0xac 0xfa 0x58 0xab; W4 0x4b 0xe3 0x03 0x93;
  W4 0x20 0x30 0xfa 0x55; W4 0xad 0x76 0x6d 0xf6; W4 0x88 0xcc 0x76 0x91; W4 0xf5 0x02 0x4c 0x25;
  W4 0x4f 0xe5 0xd7 0xfc; W4 0xc5 0x2a 0xcb 0xd7; W4 0x26 0x35 0x44 0x80; W4 0xb5 0x62 0xa3 0x8f;
  W4 0xde 0xb1 0x5a 0x49; W4 0x25 0xba 0x1b 0x67; W4 0x45 0xea 0x0e 0x98; W4 0x5d 0xfe 0xc0 0xe1;
  W4 0xc3 0x2f 0x75 0x02; W4 0x81 0x4c 0xf0 0x12; W4 0x8d 0x46 0x97 0xa3; W4 0x6b 0xd3 0xf9 0xc6;
  W4 0x03 0x8f 0x5f 0xe7; W4 0x15 0x92 0x9c 0x95; W4 0xbf 0x6d 0x7a 0xeb; W4 0x95 0x52 0x59 0xda;
  W4 0xd4 0xbe 0x83 0x2d; W4 0x58 0x74 0x21 0xd3; W4 0x49 0xe0 0x69 0x29; W4 0x8e 0xc9 0xc8 0x44;
  W4 0x75 0xc2 0x89 0x6a; W4 0xf4 0x8e 0x79 0x78; W4 0x99 0x58 0x3e 0x6b; W4 0x27 0xb9 0x71 0xdd;
  W4 0xbe 0xe1 0x4f 0xb6; W4 0xf0 0x88 0xad 0x17; W4 0xc9 0x20 0xac 0x66; W4 0x7d 0xce 0x3a 0xb4;
  W4 0x63 0xdf 0x4a 0x18; W4 0xe5 0x1a 0x31 0x82; W4 0x97 0x51 0x33 0x60; W4 0x62 0x53 0x7f 0x45;
  W4 0xb1 0x64 0x77 0xe0; W4 0xbb 0x6b 0xae 0x84; W4 0xfe 0x81 0xa0 0x1c; W4 0xf9 0x08 0x2b 0x94;
  W4 0x70 0x48 0x68 0x58; W4 0x8f 0x45 0xfd 0x19; W4 0x94 0xde 0x6c 0x87; W4 0x52 0x7b 0xf8 0xb7;
  W4 0xab 0x73 0xd3 0x23; W4 0x72 0x4b 0x02 0xe2; W4 0xe3 0x1f 0x8f 0x57; W4 0x66 0x55 0xab 0x2a;
  W4 0xb2 0xeb 0x28 0x07; W4 0x2f 0xb5 0xc2 0x03; W4 0x86 0xc5 0x7b 0x9a; W4 0xd3 0x37 0x08 0xa5;
  W4 0x30 0x28 0x87 0xf2; W4 0x23 0xbf 0xa5 0xb2; W4 0x02 0x03 0x6a 0xba; W4 0xed 0x16 0x82 0x5c;
  W4 0x8a 0xcf 0x1c 0x2b; W4 0xa7 0x79 0xb4 0x92; W4 0xf3 0x07 0xf2 0xf0; W4 0x4e 0x69 0xe2 0xa1;
  W4 0x65 0xda 0xf4 0xcd; W4 0x06 0x05 0xbe 0xd5; W4 0xd1 0x34 0x62 0x1f; W4 0xc4 0xa6 0xfe 0x8a;
  W4 0x34 0x2e 0x53 0x9d; W4 0xa2 0xf3 0x55 0xa0; W4 0x05 0x8a 0xe1 0x32; W4 0xa4 0xf6 0xeb 0x75;
  W4 0x0b 0x83 0xec 0x39; W4 0x40 0x60 0xef 0xaa; W4 0x5e 0x71 0x9f 0x06; W4 0xbd 0x6e 0x10 0x51;
  W4 0x3e 0x21 0x8a 0xf9; W4 0x96 0xdd 0x06 0x3d; W4 0xdd 0x3e 0x05 0xae; W4 0x4d 0xe6 0xbd 0x46;
  W4 0x91 0x54 0x8d 0xb5; W4 0x71 0xc4 0x5d 0x05; W4 0x04 0x06 0xd4 0x6f; W4 0x60 0x50 0x15 0xff;
  W4 0x19 0x98 0xfb 0x24; W4 0xd6 0xbd 0xe9 0x97; W4 0x89 0x40 0x43 0xcc; W4 0x67 0xd9 0x9e 0x77;
  W4 0xb0 0xe8 0x42 0xbd; W4 0x07 0x89 0x8b 0x88; W4 0xe7 0x19 0x5b 0x38; W4 0x79 0xc8 0xee 0xdb;
  W4 0xa1 0x7c 0x0a 0x47; W4 0x7c 0x42 0x0f 0xe9; W4 0xf8 0x84 0x1e 0xc9; W4 0x00 0x00 0x00 0x00;
  W4 0x09 0x80 0x86 0x83; W4 0x32 0x2b 0xed 0x48; W4 0x1e 0x11 0x70 0xac; W4 0x6c 0x5a 0x72 0x4e;
  W4 0xfd 0x0e 0xff 0xfb; W4 0x0f 0x85 0x38 0x56; W4 0x3d 0xae 0xd5 0x1e; W4 0x36 0x2d 0x39 0x27;
  W4 0x0a 0x0f 0xd9 0x64; W4 0x68 0x5c 0xa6 0x21; W4 0x9b 0x5b 0x54 0xd1; W4 0x24 0x36 0x2e 0x3a;
  W4 0x0c 0x0a 0x67 0xb1; W4 0x93 0x57 0xe7 0x0f; W4 0xb4 0xee 0x96 0xd2; W4 0x1b 0x9b 0x91 0x9e;
  W4 0x80 0xc0 0xc5 0x4f; W4 0x61 0xdc 0x20 0xa2; W4 0x5a 0x77 0x4b 0x69; W4 0x1c 0x12 0x1a 0x16;
  W4 0xe2 0x93 0xba 0x0a; W4 0xc0 0xa0 0x2a 0xe5; W4 0x3c 0x22 0xe0 0x43; W4 0x12 0x1b 0x17 0x1d;
  W4 0x0e 0x09 0x0d 0x0b; W4 0xf2 0x8b 0xc7 0xad; W4 0x2d 0xb6 0xa8 0xb9; W4 0x14 0x1e 0xa9 0xc8;
  W4 0x57 0xf1 0x19 0x85; W4 0xaf 0x75 0x07 0x4c; W4 0xee 0x99 0xdd 0xbb; W4 0xa3 0x7f 0x60 0xfd;
  W4 0xf7 0x01 0x26 0x9f; W4 0x5c 0x72 0xf5 0xbc; W4 0x44 0x66 0x3b 0xc5; W4 0x5b 0xfb 0x7e 0x34;
  W4 0x8b 0x43 0x29 0x76; W4 0xcb 0x23 0xc6 0xdc; W4 0xb6 0xed 0xfc 0x68; W4 0xb8 0xe4 0xf1 0x63;
  W4 0xd7 0x31 0xdc 0xca; W4 0x42 0x63 0x85 0x10; W4 0x13 0x97 0x22 0x40; W4 0x84 0xc6 0x11 0x20;
  W4 0x85 0x4a 0x24 0x7d; W4 0xd2 0xbb 0x3d 0xf8; W4 0xae 0xf9 0x32 0x11; W4 0xc7 0x29 0xa1 0x6d;
  W4 0x1d 0x9e 0x2f 0x4b; W4 0xdc 0xb2 0x30 0xf3; W4 0x0d 0x86 0x52 0xec; W4 0x77 0xc1 0xe3 0xd0;
  W4 0x2b 0xb3 0x16 0x6c; W4 0xa9 0x70 0xb9 0x99; W4 0x11 0x94 0x48 0xfa; W4 0x47 0xe9 0x64 0x22;
  W4 0xa8 0xfc 0x8c 0xc4; W4 0xa0 0xf0 0x3f 0x1a; W4 0x56 0x7d 0x2c 0xd8; W4 0x22 0x33 0x90 0xef;
  W4 0x87 0x49 0x4e 0xc7; W4 0xd9 0x38 0xd1 0xc1; W4 0x8c 0xca 0xa2 0xfe; W4 0x98 0xd4 0x0b 0x36;
  W4 0xa6 0xf5 0x81 0xcf; W4 0xa5 0x7a 0xde 0x28; W4 0xda 0xb7 0x8e 0x26; W4 0x3f 0xad 0xbf 0xa4;
  W4 0x2c 0x3a 0x9d 0xe4; W4 0x50 0x78 0x92 0x0d; W4 0x6a 0x5f 0xcc 0x9b; W4 0x54 0x7e 0x46 0x62;
  W4 0xf6 0x8d 0x13 0xc2; W4 0x90 0xd8 0xb8 0xe8; W4 0x2e 0x39 0xf7 0x5e; W4 0x82 0xc3 0xaf 0xf5;
  W4 0x9f 0x5d 0x80 0xbe; W4 0x69 0xd0 0x93 0x7c; W4 0x6f 0xd5 0x2d 0xa9; W4 0xcf 0x25 0x12 0xb3;
  W4 0xc8 0xac 0x99 0x3b; W4 0x10 0x18 0x7d 0xa7; W4 0xe8 0x9c 0x63 0x6e; W4 0xdb 0x3b 0xbb 0x7b;
  W4 0xcd 0x26 0x78 0x09; W4 0x6e 0x59 0x18 0xf4; W4 0xec 0x9a 0xb7 0x01; W4 0x83 0x4f 0x9a 0xa8;
  W4 0xe6 0x95 0x6e 0x65; W4 0xaa 0xff 0xe6 0x7e; W4 0x21 0xbc 0xcf 0x08; W4 0xef 0x15 0xe8 0xe6;
  W4 0xba 0xe7 0x9b 0xd9; W4 0x4a 0x6f 0x36 0xce; W4 0xea 0x9f 0x09 0xd4; W4 0x29 0xb0 0x7c 0xd6;
  W4 0x31 0xa4 0xb2 0xaf; W4 0x2a 0x3f 0x23 0x31; W4 0xc6 0xa5 0x94 0x30; W4 0x35 0xa2 0x66 0xc0;
  W4 0x74 0x4e 0xbc 0x37; W4 0xfc 0x82 0xca 0xa6; W4 0xe0 0x90 0xd0 0xb0; W4 0x33 0xa7 0xd8 0x15;
  W4 0xf1 0x04 0x98 0x4a; W4 0x41 0xec 0xda 0xf7; W4 0x7f 0xcd 0x50 0x0e; W4 0x17 0x91 0xf6 0x2f;
  W4 0x76 0x4d 0xd6 0x8d; W4 0x43 0xef 0xb0 0x4d; W4 0xcc 0xaa 0x4d 0x54; W4 0xe4 0x96 0x04 0xdf;
  W4 0x9e 0xd1 0xb5 0xe3; W4 0x4c 0x6a 0x88 0x1b; W4 0xc1 0x2c 0x1f 0xb8; W4 0x46 0x65 0x51 0x7f;
  W4 0x9d 0x5e 0xea 0x04; W4 0x01 0x8c 0x35 0x5d; W4 0xfa 0x87 0x74 0x73; W4 0xfb 0x0b 0x41 0x2e;
  W4 0xb3 0x67 0x1d 0x5a; W4 0x92 0xdb 0xd2 0x52; W4 0xe9 0x10 0x56 0x33; W4 0x6d 0xd6 0x47 0x13;
  W4 0x9a 0xd7 0x61 0x8c; W4 0x37 0xa1 0x0c 0x7a; W4 0x59 0xf8 0x14 0x8e; W4 0xeb 0x13 0x3c 0x89;
  W4 0xce 0xa9 0x27 0xee; W4 0xb7 0x61 0xc9 0x35; W4 0xe1 0x1c 0xe5 0xed; W4 0x7a 0x47 0xb1 0x3c;
  W4 0x9c 0xd2 0xdf 0x59; W4 0x55 0xf2 0x73 0x3f; W4 0x18 0x14 0xce 0x79; W4 0x73 0xc7 0x37 0xbf;
  W4 0x53 0xf7 0xcd 0xea; W4 0x5f 0xfd 0xaa 0x5b; W4 0xdf 0x3d 0x6f 0x14; W4 0x78 0x44 0xdb 0x86;
  W4 0xca 0xaf 0xf3 0x81; W4 0xb9 0x68 0xc4 0x3e; W4 0x38 0x24 0x34 0x2c; W4 0xc2 0xa3 0x40 0x5f;
  W4 0x16 0x1d 0xc3 0x72; W4 0xbc 0xe2 0x25 0x0c; W4 0x28 0x3c 0x49 0x8b; W4 0xff 0x0d 0x95 0x41;
  W4 0x39 0xa8 0x01 0x71; W4 0x08 0x0c 0xb3 0xde; W4 0xd8 0xb4 0xe4 0x9c; W4 0x64 0x56 0xc1 0x90;
  W4 0x7b 0xcb 0x84 0x61; W4 0xd5 0x32 0xb6 0x70; W4 0x48 0x6c 0x5c 0x74; W4 0xd0 0xb8 0x57 0x42
].

Definition T6 : list word4 := [
  W4 0x50 0x51 0xf4 0xa7; W4 0x53 0x7e 0x41 0x65; W4 0xc3 0x1a 0x17 0xa4; W4 0x96 0x3a 0x27 0x5e;
  W4 0xcb 0x3b 0xab 0x6b; W4 0xf1 0x1f 0x9d 0x45; W4 0xab 0xac 0xfa 0x58; W4 0x93 0x4b 0xe3 0x03;
  W4 0x55 0x20 0x30 0xfa; W4 0xf6 0xad 0x76 0x6d; W4 0x91 0x88 0xcc 0x76; W4 0x25 0xf5 0x02 0x4c;
  W4 0xfc 0x4f 0xe5 0xd7; W4 0xd7 0xc5 0x2a 0xcb; W4 0x80 0x26 0x35 0x44; W4 0x8f 0xb5 0x62 0xa3;
  W4 0x49 0xde 0xb1 0x5a; W4 0x67 0x25 0xba 0x1b; W4 0x98 0x45 0xea 0x0e; W4 0xe1 0x5d 0xfe 0xc0;
  W4 0x02 0xc3 0x2f 0x75; W4 0x12 0x81 0x4c 0xf0; W4 0xa3 0x8d 0x46 0x97; W4 0xc6 0x6b 0xd3 0xf9;
  W4 0xe7 0x03 0x8f 0x5f; W4 0x95 0x15 0x92 0x9c; W4 0xeb 0xbf 0x6d 0x7a; W4 0xda 0x95 0x52 0x59;
  W4 0x2d 0xd4 0xbe 0x83; W4 0xd3 0x58 0x74 0x21; W4 0x29 0x49 0xe0 0x69; W4 0x44 0x8e 0xc9 0xc8;
  W4 0x6a 0x75 0xc2 0x89; W4 0x78 0xf4 0x8e 0x79; W4 0x6b 0x99 0x58 0x3e; W4 0xdd 0x27 0xb9 0x71;
  W4 0xb6 0xbe 0xe1 0x4f; W4 0x17 0xf0 0x88 0xad; W4 0x66 0xc9 0x20 0xac; W4 0xb4 0x7d 0xce 0x3a;
  W4 0x18 0x63 0xdf 0x4a; W4 0x82 0xe5 0x1a 0x31; W4 0x60 0x97 0x51 0x33; W4 0x45 0x62 0x53 0x7f;
  W4 0xe0 0xb1 0x64 0x77; W4 0x84 0xbb 0x6b 0xae; W4 0x1c 0xfe 0x81 0xa0; W4 0x94 0xf9 0x08 0x2b;
  W4 0x58 0x70 0x48 0x68; W4 0x19 0x8f 0x45 0xfd; W4 0x87 0x94 0xde 0x6c; W4 0xb7 0x52 0x7b 0xf8;
  W4 0x23 0xab 0x73 0xd3; W4 0xe2 0x72 0x4b 0x02; W4 0x57 0xe3 0x1f 0x8f; W4 0x2a 0x66 0x55 0xab;
  W4 0x07 0xb2 0xeb 0x28; W4 0x03 0x2f 0xb5 0xc2; W4 0x9a 0x86 0xc5 0x7b; W4 0xa5 0xd3 0x37 0x08;
  W4 0xf2 0x30 0x28 0x87; W4 0xb2 0x23 0xbf 0xa5; W4 0xba 0x02 0x03 0x6a; W4 0x5c 0xed 0x16 0x82;
  W4 0x2b 0x8a 0xcf 0x1c; W4 0x92 0xa7 0x79 0xb4; W4 0xf0 0xf3 0x07 0xf2; W4 0xa1 0x4e 0x69 0xe2;
  W4 0xcd 0x65 0xda 0xf4; W4 0xd5 0x06 0x05 0xbe; W4 0x1f 0xd1 0x34 0x62; W4 0x8a 0xc4 0xa6 0xfe;
  W4 0x9d 0x34 0x2e 0x53; W4 0xa0 0xa2 0xf3 0x55; W4 0x32 0x05 0x8a 0xe1; W4 0x75 0xa4 0xf6 0xeb;
  W4 0x39 0x0b 0x83 0xec; W4 0xaa 0x40 0x60 0xef; W4 0x06 0x5e 0x71 0x9f; W4 0x51 0xbd 0x6e 0x10;
  W4 0xf9 0x3e 0x21 0x8a; W4 0x3d 0x96 0xdd 0x06; W4 0xae 0xdd 0x3e 0x05; W4 0x46 0x4d 0xe6 0xbd;
  W4 0xb5 0x91 0x54 0x8d; W4 0x05 0x71 0xc4 0x5d; W4 0x6f 0x04 0x06 0xd4; W4 0xff 0x60 0x50 0x15;
  W4 0x24 0x19 0x98 0xfb; W4 0x97 0xd6 0xbd 0xe9; W4 0xcc 0x89 0x40 0x43; W4 0x77 0x67 0xd9 0x9e;
  W4 0xbd 0xb0 0xe8 0x42; W4 0x88 0x07 0x89 0x8b; W4 0x38 0xe7 0x19 0x5b; W4 0xdb 0x79 0xc8 0xee;
  W4 0x47 0xa1 0x7c 0x0a; W4 0xe9 0x7c 0x42 0x0f; W4 0xc9 0xf8 0x84 0x1e; W4 0x00 0x00 0x00 0x00;
  W4 0x83 0x09 0x80 0x86; W4 0x48 0x32 0x2b 0xed; W4 0xac 0x1e 0x11 0x70; W4 0x4e 0x6c 0x5a 0x72;
  W4 0xfb 0xfd 0x0e 0xff; W4 0x56 0x0f 0x85 0x38; W4 0x1e 0x3d 0xae 0xd5; W4 0x27 0x36 0x2d 0x39;
  W4 0x64 0x0a 0x0f 0xd9; W4 0x21 0x68 0x5c 0xa6; W4 0xd1 0x9b 0x5b 0x54; W4 0x3a 0x24 0x36 0x2e;
  W4 0xb1 0x0c 0x0a 0x67; W4 0x0f 0x93 0x57 0xe7; W4 0xd2 0xb4 0xee 0x96; W4 0x9e 0x1b 0x9b 0x91;
  W4 0x4f 0x80 0xc0 0xc5; W4 0xa2 0x61 0xdc 0x20; W4 0x69 0x5a 0x77 0x4b; W4 0x16 0x1c 0x12 0x1a;
  W4 0x0a 0xe2 0x93 0xba; W4 0xe5 0xc0 0xa0 0x2a; W4 0x43 0x3c 0x22 0xe0; W4 0x1d 0x12 0x1b 0x17;
  W4 0x0b 0x0e 0x09 0x0d; W4 0xad 0xf2 0x8b 0xc7; W4 0xb9 0x2d 0xb6 0xa8; W4 0xc8 0x14 0x1e 0xa9;
  W4 0x85 0x57 0xf1 0x19; W4 0x4c 0xaf 0x75 0x07; W4 0xbb 0xee 0x99 0xdd; W4 0xfd 0xa3 0x7f 0x60;
  W4 0x9f 0xf7 0x01 0x26; W4 0xbc 0x5c 0x72 0xf5; W4 0xc5 0x44 0x66 0x3b; W4 0x34 0x5b 0xfb 0x7e;
  W4 0x76 0x8b 0x43 0x29; W4 0xdc 0xcb 0x23 0xc6; W4 0x68 0xb6 0xed 0xfc; W4 0x63 0xb8 0xe4 0xf1;
  W4 0xca 0xd7 0x31 0xdc; W4 0x10 0x42 0x63 0x85; W4 0x40 0x13 0x97 0x22; W4 0x20 0x84 0xc6 0x11;
  W4 0x7d 0x85 0x4a 0x24; W4 0xf8 0xd2 0xbb 0x3d; W4 0x11 0xae 0xf9 0x32; W4 0x6d 0xc7 0x29 0xa1;
  W4 0x4b 0x1d 0x9e 0x2f; W4 0xf3 0xdc 0xb2 0x30; W4 0xec 0x0d 0x86 0x52; W4 0xd0 0x77 0xc1 0xe3;
  W4 0x6c 0x2b 0xb3 0x16; W4 0x99 0xa9 0x70 0xb9; W4 0xfa 0x11 0x94 0x48; W4 0x22 0x47 0xe9 0x64;
  W4 0xc4 0xa8 0xfc 0x8c; W4 0x1a 0xa0 0xf0 0x3f; W4 0xd8 0x56 0x7d 0x2c; W4 0xef 0x22 0x33 0x90;
  W4 0xc7 0x87 0x49 0x4e; W4 0xc1 0xd9 0x38 0xd1; W4 0xfe 0x8c 0xca 0xa2; W4 0x36 0x98 0xd4 0x0b;
  W4 0xcf 0xa6 0xf5 0x81; W4 0x28 0xa5 0x7a 0xde; W4 0x26 0xda 0xb7 0x8e; W4 0xa4 0x3f 0xad 0xbf;
  W4 0xe4 0x2c 0x3a 0x9d; W4 0x0d 0x50 0x78 0x92; W4 0x9b 0x6a 0x5f 0xcc; W4 0x62 0x54 0x7e 0x46;
  W4 0xc2 0xf6 0x8d 0x13; W4 0xe8 0x90 0xd8 0xb8; W4 0x5e 0x2e 0x39 0xf7; W4 0xf5 0x82 0xc3 0xaf;
  W4 0xbe 0x9f 0x5d 0x80; W4 0x7c 0x69 0xd0 0x93; W4 0xa9 0x6f 0xd5 0x2d; W4 0xb3 0xcf 0x25 0x12;
  W4 0x3b 0xc8 0xac 0x99; W4 0xa7 0x10 0x18 0x7d; W4 0x6e 0xe8 0x9c 0x63; W4 0x7b 0xdb 0x3b 0xbb;
  W4 0x09 0xcd 0x26 0x78; W4 0xf4 0x6e 0x59 0x18; W4 0x01 0xec 0x9a 0xb7; W4 0xa8 0x83 0x4f 0x9a;
  W4 0x65 0xe6 0x95 0x6e; W4 0x7e 0xaa 0xff 0xe6; W4 0x08 0x21 0xbc 0xcf; W4 0xe6 0xef 0x15 0xe8;
  W4 0xd9 0xba 0xe7 0x9b; W4 0xce 0x4a 0x6f 0x36; W4 0xd4 0xea 0x9f 0x09; W4 0xd6 0x29 0xb0 0x7c;
  W4 0xaf 0x31 0xa4 0xb2; W4 0x31 0x2a 0x3f 0x23; W4 0x30 0xc6 0xa5 0x94; W4 0xc0 0x35 0xa2 0x66;
  W4 0x37 0x74 0x4e 0xbc; W4 0xa6 0xfc 0x82 0xca; W4 0xb0 0xe0 0x90 0xd0; W4 0x15 0x33 0xa7 0xd8;
  W4 0x4a 0xf1 0x04 0x98; W4 0xf7 0x41 0xec 0xda; W4 0x0e 0x7f 0xcd 0x50; W4 0x2f 0x17 0x91 0xf6;
  W4 0x8d 0x76 0x4d 0xd6; W4 0x4d 0x43 0xef 0xb0; W4 0x54 0xcc 0xaa 0x4d; W4 0xdf 0xe4 0x96 0x04;
  W4 0xe3 0x9e 0xd1 0xb5; W4 0x1b 0x4c 0x6a 0x88; W4 0xb8 0xc1 0x2c 0x1f; W4 0x7f 0x46 0x65 0x51;
  W4 0x04 0x9d 0x5e 0xea; W4 0x5d 0x01 0x8c 0x35; W4 0x73 0xfa 0x87 0x74; W4 0x2e 0xfb 0x0b 0x41;
  W4 0x5a 0xb3 0x67 0x1d; W4 0x52 0x92 0xdb 0xd2; W4 0x33 0xe9 0x10 0x56; W4 0x13 0x6d 0xd6 0x47;
  W4 0x8c 0x9a 0xd7 0x61; W4 0x7a 0x37 0xa1 0x0c; W4 0x8e 0x59 0xf8 0x14; W4 0x89 0xeb 0x13 0x3c;
  W4 0xee 0xce 0xa9 0x27; W4 0x35 0xb7 0x61 0xc9; W4 0xed 0xe1 0x1c 0xe5; W4 0x3c 0x7a 0x47 0xb1;
  W4 0x59 0x9c 0xd2 0xdf; W4 0x3f 0x55 0xf2 0x73; W4 0x79 0x18 0x14 0xce; W4 0xbf 0x73 0xc7 0x37;
  W4 0xea 0x53 0xf7 0xcd; W4 0x5b 0x5f 0xfd 0xaa; W4 0x14 0xdf 0x3d 0x6f; W4 0x86 0x78 0x44 0xdb;
  W4 0x81 0xca 0xaf 0xf3; W4 0x3e 0xb9 0x68 0xc4; W4 0x2c 0x38 0x24 0x34; W4 0x5f 0xc2 0xa3 0x40;
  W4 0x72 0x16 0x1d 0xc3; W4 0x0c 0xbc 0xe2 0x25; W4 0x8b 0x28 0x3c 0x49; W4 0x41 0xff 0x0d 0x95;
  W4 0x71 0x39 0xa8 0x01; W4 0xde 0x08 0x0c 0xb3; W4 0x9c 0xd8 0xb4 0xe4; W4 0x90 0x64 0x56 0xc1;
  W4 0x61 0x7b 0xcb 0x84; W4 0x70 0xd5 0x32 0xb6; W4 0x74 0x48 0x6c 0x5c; W4 0x42 0xd0 0xb8 0x57
].

Definition T7 : list word4 := [
  W4 0xa7 0x50 0x51 0xf4; W4 0x65 0x53 0x7e 0x41; W4 0xa4 0xc3 0x1a 0x17; W4 0x5e 0x96 0x3a 0x27;
  W4 0x6b 0xcb 0x3b 0xab; W4 0x45 0xf1 0x1f 0x9d; W4 0x58 0xab 0xac 0xfa; W4 0x03 0x93 0x4b 0xe3;
  W4 0xfa 0x55 0x20 0x30; W4 0x6d 0xf6 0xad 0x76; W4 0x76 0x91 0x88 0xcc; W4 0x4c 0x25 0xf5 0x02;
  W4 0xd7 0xfc 0x4f 0xe5; W4 0xcb 0xd7 0xc5 0x2a; W4 0x44 0x80 0x26 0x35; W4 0xa3 0x8f 0xb5 0x62;
  W4 0x5a 0x49 0xde 0xb1; W4 0x1b 0x67 0x25 0xba; W4 0x0e 0x98 0x45 0xea; W4 0xc0 0xe1 0x5d 0xfe;
  W4 0x75 0x02 0xc3 0x2f; W4 0xf0 0x12 0x81 0x4c; W4 0x97 0xa3 0x8d 0x46; W4 0xf9 0xc6 0x6b 0xd3;
  W4 0x5f 0xe7 0x03 0x8f; W4 0x9c 0x95 0x15 0x92; W4 0x7a 0xeb 0xbf 0x6d; W4 0x59 0xda 0x95 0x52;
  W4 0x83 0x2d 0xd4 0xbe; W4 0x21 0xd3 0x58 0x74; W4 0x69 0x29 0x49 0xe0; W4 0xc8 0x44 0x8e 0xc9;
  W4 0x89 0x6a 0x75 0xc2; W4 0x79 0x78 0xf4 0x8e; W4 0x3e 0x6b 0x99 0x58; W4 0x71 0xdd 0x27 0xb9;
  W4 0x4f 0xb6 0xbe 0xe1; W4 0xad 0x17 0xf0 0x88; W4 0xac 0x66 0xc9 0x20; W4 0x3a 0xb4 0x7d 0xce;
  W4 0x4a 0x18 0x63 0xdf; W4 0x31 0x82 0xe5 0x1a; W4 0x33 0x60 0x97 0x51; W4 0x7f 0x45 0x62 0x53;
  W4 0x77 0xe0 0xb1 0x64; W4 0xae 0x84 0xbb 0x6b; W4 0xa0 0x1c 0xfe 0x81; W4 0x2b 0x94 0xf9 0x08;
  W4 0x68 0x58 0x70 0x48; W4 0xfd 0x19 0x8f 0x45; W4 0x6c 0x87 0x94 0xde; W4 0xf8 0xb7 0x52 0x7b;
  W4 0xd3 0x23 0xab 0x73; W4 0x02 0xe2 0x72 0x4b; W4 0x8f 0x57 0xe3 0x1f; W4 0xab 0x2a 0x66 0x55;
  W4 0x28 0x07 0xb2 0xeb; W4 0xc2 0x03 0x2f 0xb5; W4 0x7b 0x9a 0x86 0xc5; W4 0x08 0xa5 0xd3 0x37;
  W4 0x87 0xf2 0x30 0x28; W4 0xa5 0xb2 0x23 0xbf; W4 0x6a 0xba 0x02 0x03; W4 0x82 0x5c 0xed 0x16;
  W4 0x1c 0x2b 0x8a 0xcf; W4 0xb4 0x92 0xa7 0x79; W4 0xf2 0xf0 0xf3 0x07; W4 0xe2 0xa1 0x4e 0x69;
  W4 0xf4 0xcd 0x65 0xda; W4 0xbe 0xd5 0x06 0x05; W4 0x62 0x1f 0xd1 0x34; W4 0xfe 0x8a 0xc4 0xa6;
  W4 0x53 0x9d 0x34 0x2e; W4 0x55 0xa0 0xa2 0xf3; W4 0xe1 0x32 0x05 0x8a; W4 0xeb 0x75 0xa4 0xf6;
  W4 0xec 0x39 0x0b 0x83; W4 0xef 0xaa 0x40 0x60; W4 0x9f 0x06 0x5e 0x71; W4 0x10 0x51 0xbd 0x6e;
  W4 0x8a 0xf9 0x3e 0x21; W4 0x06 0x3d 0x96 0xdd; W4 0x05 0xae 0xdd 0x3e; W4 0xbd 0x46 0x4d 0xe6;
  W4 0x8d 0xb5 0x91 0x54; W4 0x5d 0x05 0x71 0xc4; W4 0xd4 0x6f 0x04 0x06; W4 0x15 0xff 0x60 0x50;
  W4 0xfb 0x24 0x19 0x98; W4 0xe9 0x97 0xd6 0xbd; W4 0x43 0xcc 0x89 0x40; W4 0x9e 0x77 0x67 0xd9;
  W4 0x42 0xbd 0xb0 0xe8; W4 0x8b 0x88 0x07 0x89; W4 0x5b 0x38 0xe7 0x19; W4 0xee 0xdb 0x79 0xc8;
  W4 0x0a 0x47 0xa1 0x7c; W4 0x0f 0xe9 0x7c 0x42; W4 0x1e 0xc9 0xf8 0x84; W4 0x00 0x00 0x00 0x00;
  W4 0x86 0x83 0x09 0x80; W4 0xed 0x48 0x32 0x2b; W4 0x70 0xac 0x1e 0x11; W4 0x72 0x4e 0x6c 0x5a;
  W4 0xff 0xfb 0xfd 0x0e; W4 0x38 0x56 0x0f 0x85; W4 0xd5 0x1e 0x3d 0xae; W4 0x39 0x27 0x36 0x2d;
  W4 0xd9 0x64 0x0a 0x0f; W4 0xa6 0x21 0x68 0x5c; W4 0x54 0xd1 0x9b 0x5b; W4 0x2e 0x3a 0x24 0x36;
  W4 0x67 0xb1 0x0c 0x0a; W4 0xe7 0x0f 0x93 0x57; W4 0x96 0xd2 0xb4 0xee; W4 0x91 0x9e 0x1b 0x9b;
  W4 0xc5 0x4f 0x80 0xc0; W4 0x20 0xa2 0x61 0xdc; W4 0x4b 0x69 0x5a 0x77; W4 0x1a 0x16 0x1c 0x12;
  W4 0xba 0x0a 0xe2 0x93; W4 0x2a 0xe5 0xc0 0xa0; W4 0xe0 0x43 0x3c 0x22; W4 0x17 0x1d 0x12 0x1b;
  W4 0x0d 0x0b 0x0e 0x09; W4 0xc7 0xad 0xf2 0x8b; W4 0xa8 0xb9 0x2d 0xb6; W4 0xa9 0xc8 0x14 0x1e;
  W4 0x19 0x85 0x57 0xf1; W4 0x07 0x4c 0xaf 0x75; W4 0xdd 0xbb 0xee 0x99; W4 0x60 0xfd 0xa3 0x7f;
  W4 0x26 0x9f 0xf7 0x01; W4 0xf5 0xbc 0x5c 0x72; W4 0x3b 0xc5 0x44 0x66; W4 0x7e 0x34 0x5b 0xfb;
  W4 0x29 0x76 0x8b 0x43; W4 0xc6 0xdc 0xcb 0x23; W4 0xfc 0x68 0xb6 0xed; W4 0xf1 0x63 0xb8 0xe4;
  W4 0xdc 0xca 0xd7 0x31; W4 0x85 0x10 0x42 0x63; W4 0x22 0x40 0x13 0x97; W4 0x11 0x20 0x84 0xc6;
  W4 0x24 0x7d 0x85 0x4a; W4 0x3d 0xf8 0xd2 0xbb; W4 0x32 0x11 0xae 0xf9; W4 0xa1 0x6d 0xc7 0x29;
  W4 0x2f 0x4b 0x1d 0x9e; W4 0x30 0xf3 0xdc 0xb2; W4 0x52 0xec 0x0d 0x86; W4 0xe3 0xd0 0x77 0xc1;
  W4 0x16 0x6c 0x2b 0xb3; W4 0xb9 0x99 0xa9 0x70; W4 0x48 0xfa 0x11 0x94; W4 0x64 0x22 0x47 0xe9;
  W4 0x8c 0xc4 0xa8 0xfc; W4 0x3f 0x1a 0xa0 0xf0; W4 0x2c 0xd8 0x56 0x7d; W4 0x90 0xef 0x22 0x33;
  W4 0x4e 0xc7 0x87 0x49; W4 0xd1 0xc1 0xd9 0x38; W4 0xa2 0xfe 0x8c 0xca; W4 0x0b 0x36 0x98 0xd4;
  W4 0x81 0xcf 0xa6 0xf5; W4 0xde 0x28 0xa5 0x7a; W4 0x8e 0x26 0xda 0xb7; W4 0xbf 0xa4 0x3f 0xad;
  W4 0x9d 0xe4 0x2c 0x3a; W4 0x92 0x0d 0x50 0x78; W4 0xcc 0x9b 0x6a 0x5f; W4 0x46 0x62 0x54 0x7e;
  W4 0x13 0xc2 0xf6 0x8d; W4 0xb8 0xe8 0x90 0xd8; W4 0xf7 0x5e 0x2e 0x39; W4 0xaf 0xf5 0x82 0xc3;
  W4 0x80 0xbe 0x9f 0x5d; W4 0x93 0x7c 0x69 0xd0; W4 0x2d 0xa9 0x6f 0xd5; W4 0x12 0xb3 0xcf 0x25;
  W4 0x99 0x3b 0xc8 0xac; W4 0x7d 0xa7 0x10 0x18; W4 0x63 0x6e 0xe8 0x9c; W4 0xbb 0x7b 0xdb 0x3b;
  W4 0x78 0x09 0xcd 0x26; W4 0x18 0xf4 0x6e 0x59; W4 0xb7 0x01 0xec 0x9a; W4 0x9a 0xa8 0x83 0x4f;
  W4 0x6e 0x65 0xe6 0x95; W4 0xe6 0x7e 0xaa 0xff; W4 0xcf 0x08 0x21 0xbc; W4 0xe8 0xe6 0xef 0x15;
  W4 0x9b 0xd9 0xba 0xe7; W4 0x36 0xce 0x4a 0x6f; W4 0x09 0xd4 0xea 0x9f; W4 0x7c 0xd6 0x29 0xb0;
  W4 0xb2 0xaf 0x31 0xa4; W4 0x23 0x31 0x2a 0x3f; W4 0x94 0x30 0xc6 0xa5; W4 0x66 0xc0 0x35 0xa2;
  W4 0xbc 0x37 0x74 0x4e; W4 0xca 0xa6 0xfc 0x82; W4 0xd0 0xb0 0xe0 0x90; W4 0xd8 0x15 0x33 0xa7;
  W4 0x98 0x4a 0xf1 0x04; W4 0xda 0xf7 0x41 0xec; W4 0x50 0x0e 0x7f 0xcd; W4 0xf6 0x2f 0x17 0x91;
  W4 0xd6 0x8d 0x76 0x4d; W4 0xb0 0x4d 0x43 0xef; W4 0x4d 0x54 0xcc 0xaa; W4 0x04 0xdf 0xe4 0x96;
  W4 0xb5 0xe3 0x9e 0xd1; W4 0x88 0x1b 0x4c 0x6a; W4 0x1f 0xb8 0xc1 0x2c; W4 0x51 0x7f 0x46 0x65;
  W4 0xea 0x04 0x9d 0x5e; W4 0x35 0x5d 0x01 0x8c; W4 0x74 0x73 0xfa 0x87; W4 0x41 0x2e 0xfb 0x0b;
  W4 0x1d 0x5a 0xb3 0x67; W4 0xd2 0x52 0x92 0xdb; W4 0x56 0x33 0xe9 0x10; W4 0x47 0x13 0x6d 0xd6;
  W4 0x61 0x8c 0x9a 0xd7; W4 0x0c 0x7a 0x37 0xa1; W4 0x14 0x8e 0x59 0xf8; W4 0x3c 0x89 0xeb 0x13;
  W4 0x27 0xee 0xce 0xa9; W4 0xc9 0x35 0xb7 0x61; W4 0xe5 0xed 0xe1 0x1c; W4 0xb1 0x3c 0x7a 0x47;
  W4 0xdf 0x59 0x9c 0xd2; W4 0x73 0x3f 0x55 0xf2; W4 0xce 0x79 0x18 0x14; W4 0x37 0xbf 0x73 0xc7;
  W4 0xcd 0xea 0x53 0xf7; W4 0xaa 0x5b 0x5f 0xfd; W4 0x6f 0x14 0xdf 0x3d; W4 0xdb 0x86 0x78 0x44;
  W4 0xf3 0x81 0xca 0xaf; W4 0xc4 0x3e 0xb9 0x68; W4 0x34 0x2c 0x38 0x24; W4 0x40 0x5f 0xc2 0xa3;
  W4 0xc3 0x72 0x16 0x1d; W4 0x25 0x0c 0xbc 0xe2; W4 0x49 0x8b 0x28 0x3c; W4 0x95 0x41 0xff 0x0d;
  W4 0x01 0x71 0x39 0xa8; W4 0xb3 0xde 0x08 0x0c; W4 0xe4 0x9c 0xd8 0xb4; W4 0xc1 0x90 0x64 0x56;
  W4 0x84 0x61 0x7b 0xcb; W4 0xb6 0x70 0xd5 0x32; W4 0x5c 0x74 0x48 0x6c; W4 0x57 0x42 0xd0 0xb8
].

Definition T8 : list word4 := [
  W4 0xf4 0xa7 0x50 0x51; W4 0x41 0x65 0x53 0x7e; W4 0x17 0xa4 0xc3 0x1a; W4 0x27 0x5e 0x96 0x3a;
  W4 0xab 0x6b 0xcb 0x3b; W4 0x9d 0x45 0xf1 0x1f; W4 0xfa 0x58 0xab 0xac; W4 0xe3 0x03 0x93 0x4b;
  W4 0x30 0xfa 0x55 0x20; W4 0x76 0x6d 0xf6 0xad; W4 0xcc 0x76 0x91 0x88; W4 0x02 0x4c 0x25 0xf5;
  W4 0xe5 0xd7 0xfc 0x4f; W4 0x2a 0xcb 0xd7 0xc5; W4 0x35 0x44 0x80 0x26; W4 0x62 0xa3 0x8f 0xb5;
  W4 0xb1 0x5a 0x49 0xde; W4 0xba 0x1b 0x67 0x25; W4 0xea 0x0e 0x98 0x45; W4 0xfe 0xc0 0xe1 0x5d;
  W4 0x2f 0x75 0x02 0xc3; W4 0x4c 0xf0 0x12 0x81; W4 0x46 0x97 0xa3 0x8d; W4 0xd3 0xf9 0xc6 0x6b;
  W4 0x8f 0x5f 0xe7 0x03; W4 0x92 0x9c 0x95 0x15; W4 0x6d 0x7a 0xeb 0xbf; W4 0x52 0x59 0xda 0x95;
  W4 0xbe 0x83 0x2d 0xd4; W4 0x74 0x21 0xd3 0x58; W4 0xe0 0x69 0x29 0x49; W4 0xc9 0xc8 0x44 0x8e;
  W4 0xc2 0x89 0x6a 0x75; W4 0x8e 0x79 0x78 0xf4; W4 0x58 0x3e 0x6b 0x99; W4 0xb9 0x71 0xdd 0x27;
  W4 0xe1 0x4f 0xb6 0xbe; W4 0x88 0xad 0x17 0xf0; W4 0x20 0xac 0x66 0xc9; W4 0xce 0x3a 0xb4 0x7d;
  W4 0xdf 0x4a 0x18 0x63; W4 0x1a 0x31 0x82 0xe5; W4 0x51 0x33 0x60 0x97; W4 0x53 0x7f 0x45 0x62;
  W4 0x64 0x77 0xe0 0xb1; W4 0x6b 0xae 0x84 0xbb; W4 0x81 0xa0 0x1c 0xfe; W4 0x08 0x2b 0x94 0xf9;
  W4 0x48 0x68 0x58 0x70; W4 0x45 0xfd 0x19 0x8f; W4 0xde 0x6c 0x87 0x94; W4 0x7b 0xf8 0xb7 0x52;
  W4 0x73 0xd3 0x23 0xab; W4 0x4b 0x02 0xe2 0x72; W4 0x1f 0x8f 0x57 0xe3; W4 0x55 0xab 0x2a 0x66;
  W4 0xeb 0x28 0x07 0xb2; W4 0xb5 0xc2 0x03 0x2f; W4 0xc5 0x7b 0x9a 0x86; W4 0x37 0x08 0xa5 0xd3;
  W4 0x28 0x87 0xf2 0x30; W4 0xbf 0xa5 0xb2 0x23; W4 0x03 0x6a 0xba 0x02; W4 0x16 0x82 0x5c 0xed;
  W4 0xcf 0x1c 0x2b 0x8a; W4 0x79 0xb4 0x92 0xa7; W4 0x07 0xf2 0xf0 0xf3; W4 0x69 0xe2 0xa1 0x4e;
  W4 0xda 0xf4 0xcd 0x65; W4 0x05 0xbe 0xd5 0x06; W4 0x34 0x62 0x1f 0xd1; W4 0xa6 0xfe 0x8a 0xc4;
  W4 0x2e 0x53 0x9d 0x34; W4 0xf3 0x55 0xa0 0xa2; W4 0x8a 0xe1 0x32 0x05; W4 0xf6 0xeb 0x75 0xa4;
  W4 0x83 0xec 0x39 0x0b; W4 0x60 0xef 0xaa 0x40; W4 0x71 0x9f 0x06 0x5e; W4 0x6e 0x10 0x51 0xbd;
  W4 0x21 0x8a 0xf9 0x3e; W4 0xdd 0x06 0x3d 0x96; W4 0x3e 0x05 0xae 0xdd; W4 0xe6 0xbd 0x46 0x4d;
  W4 0x54 0x8d 0xb5 0x91; W4 0xc4 0x5d 0x05 0x71; W4 0x06 0xd4 0x6f 0x04; W4 0x50 0x15 0xff 0x60;
  W4 0x98 0xfb 0x24 0x19; W4 0xbd 0xe9 0x97 0xd6; W4 0x40 0x43 0xcc 0x89; W4 0xd9 0x9e 0x77 0x67;
  W4 0xe8 0x42 0xbd 0xb0; W4 0x89 0x8b 0x88 0x07; W4 0x19 0x5b 0x38 0xe7; W4 0xc8 0xee 0xdb 0x79;
  W4 0x7c 0x0a 0x47 0xa1; W4 0x42 0x0f 0xe9 0x7c; W4 0x84 0x1e 0xc9 0xf8; W4 0x00 0x00 0x00 0x00;
  W4 0x80 0x86 0x83 0x09; W4 0x2b 0xed 0x48 0x32; W4 0x11 0x70 0xac 0x1e; W4 0x5a 0x72 0x4e 0x6c;
  W4 0x0e 0xff 0xfb 0xfd; W4 0x85 0x38 0x56 0x0f; W4 0xae 0xd5 0x1e 0x3d; W4 0x2d 0x39 0x27 0x36;
  W4 0x0f 0xd9 0x64 0x0a; W4 0x5c 0xa6 0x21 0x68; W4 0x5b 0x54 0xd1 0x9b; W4 0x36 0x2e 0x3a 0x24;
  W4 0x0a 0x67 0xb1 0x0c; W4 0x57 0xe7 0x0f 0x93; W4 0xee 0x96 0xd2 0xb4; W4 0x9b 0x91 0x9e 0x1b;
  W4 0xc0 0xc5 0x4f 0x80; W4 0xdc 0x20 0xa2 0x61; W4 0x77 0x4b 0x69 0x5a; W4 0x12 0x1a 0x16 0x1c;
  W4 0x93 0xba 0x0a 0xe2; W4 0xa0 0x2a 0xe5 0xc0; W4 0x22 0xe0 0x43 0x3c; W4 0x1b 0x17 0x1d 0x12;
  W4 0x09 0x0d 0x0b 0x0e; W4 0x8b 0xc7 0xad 0xf2; W4 0xb6 0xa8 0xb9 0x2d; W4 0x1e 0xa9 0xc8 0x14;
  W4 0xf1 0x19 0x85 0x57; W4 0x75 0x07 0x4c 0xaf; W4 0x99 0xdd 0xbb 0xee; W4 0x7f 0x60 0xfd 0xa3;
  W4 0x01 0x26 0x9f 0xf7; W4 0x72 0xf5 0xbc 0x5c; W4 0x66 0x3b 0xc5 0x44; W4 0xfb 0x7e 0x34 0x5b;
  W4 0x43 0x29 0x76 0x8b; W4 0x23 0xc6 0xdc 0xcb; W4 0xed 0xfc 0x68 0xb6; W4 0xe4 0xf1 0x63 0xb8;
  W4 0x31 0xdc 0xca 0xd7; W4 0x63 0x85 0x10 0x42; W4 0x97 0x22 0x40 0x13; W4 0xc6 0x11 0x20 0x84;
  W4 0x4a 0x24 0x7d 0x85; W4 0xbb 0x3d 0xf8 0xd2; W4 0xf9 0x32 0x11 0xae; W4 0x29 0xa1 0x6d 0xc7;
  W4 0x9e 0x2f 0x4b 0x1d; W4 0xb2 0x30 0xf3 0xdc; W4 0x86 0x52 0xec 0x0d; W4 0xc1 0xe3 0xd0 0x77;
  W4 0xb3 0x16 0x6c 0x2b; W4 0x70 0xb9 0x99 0xa9; W4 0x94 0x48 0xfa 0x11; W4 0xe9 0x64 0x22 0x47;
  W4 0xfc 0x8c 0xc4 0xa8; W4 0xf0 0x3f 0x1a 0xa0; W4 0x7d 0x2c 0xd8 0x56; W4 0x33 0x90 0xef 0x22;
  W4 0x49 0x4e 0xc7 0x87; W4 0x38 0xd1 0xc1 0xd9; W4 0xca 0xa2 0xfe 0x8c; W4 0xd4 0x0b 0x36 0x98;
  W4 0xf5 0x81 0xcf 0xa6; W4 0x7a 0xde 0x28 0xa5; W4 0xb7 0x8e 0x26 0xda; W4 0xad 0xbf 0xa4 0x3f;
  W4 0x3a 0x9d 0xe4 0x2c; W4 0x78 0x92 0x0d 0x50; W4 0x5f 0xcc 0x9b 0x6a; W4 0x7e 0x46 0x62 0x54;
  W4 0x8d 0x13 0xc2 0xf6; W4 0xd8 0xb8 0xe8 0x90; W4 0x39 0xf7 0x5e 0x2e; W4 0xc3 0xaf 0xf5 0x82;
  W4 0x5d 0x80 0xbe 0x9f; W4 0xd0 0x93 0x7c 0x69; W4 0xd5 0x2d 0xa9 0x6f; W4 0x25 0x12 0xb3 0xcf;
  W4 0xac 0x99 0x3b 0xc8; W4 0x18 0x7d 0xa7 0x10; W4 0x9c 0x63 0x6e 0xe8; W4 0x3b 0xbb 0x7b 0xdb;
  W4 0x26 0x78 0x09 0xcd; W4 0x59 0x18 0xf4 0x6e; W4 0x9a 0xb7 0x01 0xec; W4 0x4f 0x9a 0xa8 0x83;
  W4 0x95 0x6e 0x65 0xe6; W4 0xff 0xe6 0x7e 0xaa; W4 0xbc 0xcf 0x08 0x21; W4 0x15 0xe8 0xe6 0xef;
  W4 0xe7 0x9b 0xd9 0xba; W4 0x6f 0x36 0xce 0x4a; W4 0x9f 0x09 0xd4 0xea; W4 0xb0 0x7c 0xd6 0x29;
  W4 0xa4 0xb2 0xaf 0x31; W4 0x3f 0x23 0x31 0x2a; W4 0xa5 0x94 0x30 0xc6; W4 0xa2 0x66 0xc0 0x35;
  W4 0x4e 0xbc 0x37 0x74; W4 0x82 0xca 0xa6 0xfc; W4 0x90 0xd0 0xb0 0xe0; W4 0xa7 0xd8 0x15 0x33;
  W4 0x04 0x98 0x4a 0xf1; W4 0xec 0xda 0xf7 0x41; W4 0xcd 0x50 0x0e 0x7f; W4 0x91 0xf6 0x2f 0x17;
  W4 0x4d 0xd6 0x8d 0x76; W4 0xef 0xb0 0x4d 0x43; W4 0xaa 0x4d 0x54 0xcc; W4 0x96 0x04 0xdf 0xe4;
  W4 0xd1 0xb5 0xe3 0x9e; W4 0x6a 0x88 0x1b 0x4c; W4 0x2c 0x1f 0xb8 0xc1; W4 0x65 0x51 0x7f 0x46;
  W4 0x5e 0xea 0x04 0x9d; W4 0x8c 0x35 0x5d 0x01; W4 0x87 0x74 0x73 0xfa; W4 0x0b 0x41 0x2e 0xfb;
  W4 0x67 0x1d 0x5a 0xb3; W4 0xdb 0xd2 0x52 0x92; W4 0x10 0x56 0x33 0xe9; W4 0xd6 0x47 0x13 0x6d;
  W4 0xd7 0x61 0x8c 0x9a; W4 0xa1 0x0c 0x7a 0x37; W4 0xf8 0x14 0x8e 0x59; W4 0x13 0x3c 0x89 0xeb;
  W4 0xa9 0x27 0xee 0xce; W4 0x61 0xc9 0x35 0xb7; W4 0x1c 0xe5 0xed 0xe1; W4 0x47 0xb1 0x3c 0x7a;
  W4 0xd2 0xdf 0x59 0x9c; W4 0xf2 0x73 0x3f 0x55; W4 0x14 0xce 0x79 0x18; W4 0xc7 0x37 0xbf 0x73;
  W4 0xf7 0xcd 0xea 0x53; W4 0xfd 0xaa 0x5b 0x5f; W4 0x3d 0x6f 0x14 0xdf; W4 0x44 0xdb 0x86 0x78;
  W4 0xaf 0xf3 0x81 0xca; W4 0x68 0xc4 0x3e 0xb9; W4 0x24 0x34 0x2c 0x38; W4 0xa3 0x40 0x5f 0xc2;
  W4 0x1d 0xc3 0x72 0x16; W4 0xe2 0x25 0x0c 0xbc; W4 0x3c 0x49 0x8b 0x28; W4 0x0d 0x95 0x41 0xff;
  W4 0xa8 0x01 0x71 0x39; W4 0x0c 0xb3 0xde 0x08; W4 0xb4 0xe4 0x9c 0xd8; W4 0x56 0xc1 0x90 0x64;
  W4 0xcb 0x84 0x61 0x7b; W4 0x32 0xb6 0x70 0xd5; W4 0x6c 0x5c 0x74 0x48; W4 0xb8 0x57 0x42 0xd0
].

Definition S5 : list Z := [
  0x52; 0x09; 0x6a; 0xd5;
  0x30; 0x36; 0xa5; 0x38;
  0xbf; 0x40; 0xa3; 0x9e;
  0x81; 0xf3; 0xd7; 0xfb;
  0x7c; 0xe3; 0x39; 0x82;
  0x9b; 0x2f; 0xff; 0x87;
  0x34; 0x8e; 0x43; 0x44;
  0xc4; 0xde; 0xe9; 0xcb;
  0x54; 0x7b; 0x94; 0x32;
  0xa6; 0xc2; 0x23; 0x3d;
  0xee; 0x4c; 0x95; 0x0b;
  0x42; 0xfa; 0xc3; 0x4e;
  0x08; 0x2e; 0xa1; 0x66;
  0x28; 0xd9; 0x24; 0xb2;
  0x76; 0x5b; 0xa2; 0x49;
  0x6d; 0x8b; 0xd1; 0x25;
  0x72; 0xf8; 0xf6; 0x64;
  0x86; 0x68; 0x98; 0x16;
  0xd4; 0xa4; 0x5c; 0xcc;
  0x5d; 0x65; 0xb6; 0x92;
  0x6c; 0x70; 0x48; 0x50;
  0xfd; 0xed; 0xb9; 0xda;
  0x5e; 0x15; 0x46; 0x57;
  0xa7; 0x8d; 0x9d; 0x84;
  0x90; 0xd8; 0xab; 0x00;
  0x8c; 0xbc; 0xd3; 0x0a;
  0xf7; 0xe4; 0x58; 0x05;
  0xb8; 0xb3; 0x45; 0x06;
  0xd0; 0x2c; 0x1e; 0x8f;
  0xca; 0x3f; 0x0f; 0x02;
  0xc1; 0xaf; 0xbd; 0x03;
  0x01; 0x13; 0x8a; 0x6b;
  0x3a; 0x91; 0x11; 0x41;
  0x4f; 0x67; 0xdc; 0xea;
  0x97; 0xf2; 0xcf; 0xce;
  0xf0; 0xb4; 0xe6; 0x73;
  0x96; 0xac; 0x74; 0x22;
  0xe7; 0xad; 0x35; 0x85;
  0xe2; 0xf9; 0x37; 0xe8;
  0x1c; 0x75; 0xdf; 0x6e;
  0x47; 0xf1; 0x1a; 0x71;
  0x1d; 0x29; 0xc5; 0x89;
  0x6f; 0xb7; 0x62; 0x0e;
  0xaa; 0x18; 0xbe; 0x1b;
  0xfc; 0x56; 0x3e; 0x4b;
  0xc6; 0xd2; 0x79; 0x20;
  0x9a; 0xdb; 0xc0; 0xfe;
  0x78; 0xcd; 0x5a; 0xf4;
  0x1f; 0xdd; 0xa8; 0x33;
  0x88; 0x07; 0xc7; 0x31;
  0xb1; 0x12; 0x10; 0x59;
  0x27; 0x80; 0xec; 0x5f;
  0x60; 0x51; 0x7f; 0xa9;
  0x19; 0xb5; 0x4a; 0x0d;
  0x2d; 0xe5; 0x7a; 0x9f;
  0x93; 0xc9; 0x9c; 0xef;
  0xa0; 0xe0; 0x3b; 0x4d;
  0xae; 0x2a; 0xf5; 0xb0;
  0xc8; 0xeb; 0xbb; 0x3c;
  0x83; 0x53; 0x99; 0x61;
  0x17; 0x2b; 0x04; 0x7e;
  0xba; 0x77; 0xd6; 0x26;
  0xe1; 0x69; 0x14; 0x63;
  0x55; 0x21; 0x0c; 0x7d
].

Definition U1 : list word4 := [
  W4 0x00 0x00 0x00 0x00; W4 0x0e 0x09 0x0d 0x0b; W4 0x1c 0x12 0x1a 0x16; W4 0x12 0x1b 0x17 0x1d;
  W4 0x38 0x24 0x34 0x2c; W4 0x36 0x2d 0x39 0x27; W4 0x24 0x36 0x2e 0x3a; W4 0x2a 0x3f 0x23 0x31;
  W4 0x70 0x48 0x68 0x58; W4 0x7e 0x41 0x65 0x53; W4 0x6c 0x5a 0x72 0x4e; W4 0x62 0x53 0x7f 0x45;
  W4 0x48 0x6c 0x5c 0x74; W4 0x46 0x65 0x51 0x7f; W4 0x54 0x7e 0x46 0x62; W4 0x5a 0x77 0x4b 0x69;
  W4 0xe0 0x90 0xd0 0xb0; W4 0xee 0x99 0xdd 0xbb; W4 0xfc 0x82 0xca 0xa6; W4 0xf2 0x8b 0xc7 0xad;
  W4 0xd8 0xb4 0xe4 0x9c; W4 0xd6 0xbd 0xe9 0x97; W4 0xc4 0xa6 0xfe 0x8a; W4 0xca 0xaf 0xf3 0x81;
  W4 0x90 0xd8 0xb8 0xe8; W4 0x9e 0xd1 0xb5 0xe3; W4 0x8c 0xca 0xa2 0xfe; W4 0x82 0xc3 0xaf 0xf5;
  W4 0xa8 0xfc 0x8c 0xc4; W4 0xa6 0xf5 0x81 0xcf; W4 0xb4 0xee 0x96 0xd2; W4 0xba 0xe7 0x9b 0xd9;
  W4 0xdb 0x3b 0xbb 0x7b; W4 0xd5 0x32 0xb6 0x70; W4 0xc7 0x29 0xa1 0x6d; W4 0xc9 0x20 0xac 0x66;
  W4 0xe3 0x1f 0x8f 0x57; W4 0xed 0x16 0x82 0x5c; W4 0xff 0x0d 0x95 0x41; W4 0xf1 0x04 0x98 0x4a;
  W4 0xab 0x73 0xd3 0x23; W4 0xa5 0x7a 0xde 0x28; W4 0xb7 0x61 0xc9 0x35; W4 0xb9 0x68 0xc4 0x3e;
  W4 0x93 0x57 0xe7 0x0f; W4 0x9d 0x5e 0xea 0x04; W4 0x8f 0x45 0xfd 0x19; W4 0x81 0x4c 0xf0 0x12;
  W4 0x3b 0xab 0x6b 0xcb; W4 0x35 0xa2 0x66 0xc0; W4 0x27 0xb9 0x71 0xdd; W4 0x29 0xb0 0x7c 0xd6;
  W4 0x03 0x8f 0x5f 0xe7; W4 0x0d 0x86 0x52 0xec; W4 0x1f 0x9d 0x45 0xf1; W4 0x11 0x94 0x48 0xfa;
  W4 0x4b 0xe3 0x03 0x93; W4 0x45 0xea 0x0e 0x98; W4 0x57 0xf1 0x19 0x85; W4 0x59 0xf8 0x14 0x8e;
  W4 0x73 0xc7 0x37 0xbf; W4 0x7d 0xce 0x3a 0xb4; W4 0x6f 0xd5 0x2d 0xa9; W4 0x61 0xdc 0x20 0xa2;
  W4 0xad 0x76 0x6d 0xf6; W4 0xa3 0x7f 0x60 0xfd; W4 0xb1 0x64 0x77 0xe0; W4 0xbf 0x6d 0x7a 0xeb;
  W4 0x95 0x52 0x59 0xda; W4 0x9b 0x5b 0x54 0xd1; W4 0x89 0x40 0x43 0xcc; W4 0x87 0x49 0x4e 0xc7;
  W4 0xdd 0x3e 0x05 0xae; W4 0xd3 0x37 0x08 0xa5; W4 0xc1 0x2c 0x1f 0xb8; W4 0xcf 0x25 0x12 0xb3;
  W4 0xe5 0x1a 0x31 0x82; W4 0xeb 0x13 0x3c 0x89; W4 0xf9 0x08 0x2b 0x94; W4 0xf7 0x01 0x26 0x9f;
  W4 0x4d 0xe6 0xbd 0x46; W4 0x43 0xef 0xb0 0x4d; W4 0x51 0xf4 0xa7 0x50; W4 0x5f 0xfd 0xaa 0x5b;
  W4 0x75 0xc2 0x89 0x6a; W4 0x7b 0xcb 0x84 0x61; W4 0x69 0xd0 0x93 0x7c; W4 0x67 0xd9 0x9e 0x77;
  W4 0x3d 0xae 0xd5 0x1e; W4 0x33 0xa7 0xd8 0x15; W4 0x21 0xbc 0xcf 0x08; W4 0x2f 0xb5 0xc2 0x03;
  W4 0x05 0x8a 0xe1 0x32; W4 0x0b 0x83 0xec 0x39; W4 0x19 0x98 0xfb 0x24; W4 0x17 0x91 0xf6 0x2f;
  W4 0x76 0x4d 0xd6 0x8d; W4 0x78 0x44 0xdb 0x86; W4 0x6a 0x5f 0xcc 0x9b; W4 0x64 0x56 0xc1 0x90;
  W4 0x4e 0x69 0xe2 0xa1; W4 0x40 0x60 0xef 0xaa; W4 0x52 0x7b 0xf8 0xb7; W4 0x5c 0x72 0xf5 0xbc;
  W4 0x06 0x05 0xbe 0xd5; W4 0x08 0x0c 0xb3 0xde; W4 0x1a 0x17 0xa4 0xc3; W4 0x14 0x1e 0xa9 0xc8;
  W4 0x3e 0x21 0x8a 0xf9; W4 0x30 0x28 0x87 0xf2; W4 0x22 0x33 0x90 0xef; W4 0x2c 0x3a 0x9d 0xe4;
  W4 0x96 0xdd 0x06 0x3d; W4 0x98 0xd4 0x0b 0x36; W4 0x8a 0xcf 0x1c 0x2b; W4 0x84 0xc6 0x11 0x20;
  W4 0xae 0xf9 0x32 0x11; W4 0xa0 0xf0 0x3f 0x1a; W4 0xb2 0xeb 0x28 0x07; W4 0xbc 0xe2 0x25 0x0c;
  W4 0xe6 0x95 0x6e 0x65; W4 0xe8 0x9c 0x63 0x6e; W4 0xfa 0x87 0x74 0x73; W4 0xf4 0x8e 0x79 0x78;
  W4 0xde 0xb1 0x5a 0x49; W4 0xd0 0xb8 0x57 0x42; W4 0xc2 0xa3 0x40 0x5f; W4 0xcc 0xaa 0x4d 0x54;
  W4 0x41 0xec 0xda 0xf7; W4 0x4f 0xe5 0xd7 0xfc; W4 0x5d 0xfe 0xc0 0xe1; W4 0x53 0xf7 0xcd 0xea;
  W4 0x79 0xc8 0xee 0xdb; W4 0x77 0xc1 0xe3 0xd0; W4 0x65 0xda 0xf4 0xcd; W4 0x6b 0xd3 0xf9 0xc6;
  W4 0x31 0xa4 0xb2 0xaf; W4 0x3f 0xad 0xbf 0xa4; W4 0x2d 0xb6 0xa8 0xb9; W4 0x23 0xbf 0xa5 0xb2;
  W4 0x09 0x80 0x86 0x83; W4 0x07 0x89 0x8b 0x88; W4 0x15 0x92 0x9c 0x95; W4 0x1b 0x9b 0x91 0x9e;
  W4 0xa1 0x7c 0x0a 0x47; W4 0xaf 0x75 0x07 0x4c; W4 0xbd 0x6e 0x10 0x51; W4 0xb3 0x67 0x1d 0x5a;
  W4 0x99 0x58 0x3e 0x6b; W4 0x97 0x51 0x33 0x60; W4 0x85 0x4a 0x24 0x7d; W4 0x8b 0x43 0x29 0x76;
  W4 0xd1 0x34 0x62 0x1f; W4 0xdf 0x3d 0x6f 0x14; W4 0xcd 0x26 0x78 0x09; W4 0xc3 0x2f 0x75 0x02;
  W4 0xe9 0x10 0x56 0x33; W4 0xe7 0x19 0x5b 0x38; W4 0xf5 0x02 0x4c 0x25; W4 0xfb 0x0b 0x41 0x2e;
  W4 0x9a 0xd7 0x61 0x8c; W4 0x94 0xde 0x6c 0x87; W4 0x86 0xc5 0x7b 0x9a; W4 0x88 0xcc 0x76 0x91;
  W4 0xa2 0xf3 0x55 0xa0; W4 0xac 0xfa 0x58 0xab; W4 0xbe 0xe1 0x4f 0xb6; W4 0xb0 0xe8 0x42 0xbd;
  W4 0xea 0x9f 0x09 0xd4; W4 0xe4 0x96 0x04 0xdf; W4 0xf6 0x8d 0x13 0xc2; W4 0xf8 0x84 0x1e 0xc9;
  W4 0xd2 0xbb 0x3d 0xf8; W4 0xdc 0xb2 0x30 0xf3; W4 0xce 0xa9 0x27 0xee; W4 0xc0 0xa0 0x2a 0xe5;
  W4 0x7a 0x47 0xb1 0x3c; W4 0x74 0x4e 0xbc 0x37; W4 0x66 0x55 0xab 0x2a; W4 0x68 0x5c 0xa6 0x21;
  W4 0x42 0x63 0x85 0x10; W4 0x4c 0x6a 0x88 0x1b; W4 0x5e 0x71 0x9f 0x06; W4 0x50 0x78 0x92 0x0d;
  W4 0x0a 0x0f 0xd9 0x64; W4 0x04 0x06 0xd4 0x6f; W4 0x16 0x1d 0xc3 0x72; W4 0x18 0x14 0xce 0x79;
  W4 0x32 0x2b 0xed 0x48; W4 0x3c 0x22 0xe0 0x43; W4 0x2e 0x39 0xf7 0x5e; W4 0x20 0x30 0xfa 0x55;
  W4 0xec 0x9a 0xb7 0x01; W4 0xe2 0x93 0xba 0x0a; W4 0xf0 0x88 0xad 0x17; W4 0xfe 0x81 0xa0 0x1c;
  W4 0xd4 0xbe 0x83 0x2d; W4 0xda 0xb7 0x8e 0x26; W4 0xc8 0xac 0x99 0x3b; W4 0xc6 0xa5 0x94 0x30;
  W4 0x9c 0xd2 0xdf 0x59; W4 0x92 0xdb 0xd2 0x52; W4 0x80 0xc0 0xc5 0x4f; W4 0x8e 0xc9 0xc8 0x44;
  W4 0xa4 0xf6 0xeb 0x75; W4 0xaa 0xff 0xe6 0x7e; W4 0xb8 0xe4 0xf1 0x63; W4 0xb6 0xed 0xfc 0x68;
  W4 0x0c 0x0a 0x67 0xb1; W4 0x02 0x03 0x6a 0xba; W4 0x10 0x18 0x7d 0xa7; W4 0x1e 0x11 0x70 0xac;
  W4 0x34 0x2e 0x53 0x9d; W4 0x3a 0x27 0x5e 0x96; W4 0x28 0x3c 0x49 0x8b; W4 0x26 0x35 0x44 0x80;
  W4 0x7c 0x42 0x0f 0xe9; W4 0x72 0x4b 0x02 0xe2; W4 0x60 0x50 0x15 0xff; W4 0x6e 0x59 0x18 0xf4;
  W4 0x44 0x66 0x3b 0xc5; W4 0x4a 0x6f 0x36 0xce; W4 0x58 0x74 0x21 0xd3; W4 0x56 0x7d 0x2c 0xd8;
  W4 0x37 0xa1 0x0c 0x7a; W4 0x39 0xa8 0x01 0x71; W4 0x2b 0xb3 0x16 0x6c; W4 0x25 0xba 0x1b 0x67;
  W4 0x0f 0x85 0x38 0x56; W4 0x01 0x8c 0x35 0x5d; W4 0x13 0x97 0x22 0x40; W4 0x1d 0x9e 0x2f 0x4b;
  W4 0x47 0xe9 0x64 0x22; W4 0x49 0xe0 0x69 0x29; W4 0x5b 0xfb 0x7e 0x34; W4 0x55 0xf2 0x73 0x3f;
  W4 0x7f 0xcd 0x50 0x0e; W4 0x71 0xc4 0x5d 0x05; W4 0x63 0xdf 0x4a 0x18; W4 0x6d 0xd6 0x47 0x13;
  W4 0xd7 0x31 0xdc 0xca; W4 0xd9 0x38 0xd1 0xc1; W4 0xcb 0x23 0xc6 0xdc; W4 0xc5 0x2a 0xcb 0xd7;
  W4 0xef 0x15 0xe8 0xe6; W4 0xe1 0x1c 0xe5 0xed; W4 0xf3 0x07 0xf2 0xf0; W4 0xfd 0x0e 0xff 0xfb;
  W4 0xa7 0x79 0xb4 0x92; W4 0xa9 0x70 0xb9 0x99; W4 0xbb 0x6b 0xae 0x84; W4 0xb5 0x62 0xa3 0x8f;
  W4 0x9f 0x5d 0x80 0xbe; W4 0x91 0x54 0x8d 0xb5; W4 0x83 0x4f 0x9a 0xa8; W4 0x8d 0x46 0x97 0xa3
].

Definition U2 : list word4 := [
  W4 0x00 0x00 0x00 0x00; W4 0x0b 0x0e 0x09 0x0d; W4 0x16 0x1c 0x12 0x1a; W4 0x1d 0x12 0x1b 0x17;
  W4 0x2c 0x38 0x24 0x34; W4 0x27 0x36 0x2d 0x39; W4 0x3a 0x24 0x36 0x2e; W4 0x31 0x2a 0x3f 0x23;
  W4 0x58 0x70 0x48 0x68; W4 0x53 0x7e 0x41 0x65; W4 0x4e 0x6c 0x5a 0x72; W4 0x45 0x62 0x53 0x7f;
  W4 0x74 0x48 0x6c 0x5c; W4 0x7f 0x46 0x65 0x51; W4 0x62 0x54 0x7e 0x46; W4 0x69 0x5a 0x77 0x4b;
  W4 0xb0 0xe0 0x90 0xd0; W4 0xbb 0xee 0x99 0xdd; W4 0xa6 0xfc 0x82 0xca; W4 0xad 0xf2 0x8b 0xc7;
  W4 0x9c 0xd8 0xb4 0xe4; W4 0x97 0xd6 0xbd 0xe9; W4 0x8a 0xc4 0xa6 0xfe; W4 0x81 0xca 0xaf 0xf3;
  W4 0xe8 0x90 0xd8 0xb8; W4 0xe3 0x9e 0xd1 0xb5; W4 0xfe 0x8c 0xca 0xa2; W4 0xf5 0x82 0xc3 0xaf;
  W4 0xc4 0xa8 0xfc 0x8c; W4 0xcf 0xa6 0xf5 0x81; W4 0xd2 0xb4 0xee 0x96; W4 0xd9 0xba 0xe7 0x9b;
  W4 0x7b 0xdb 0x3b 0xbb; W4 0x70 0xd5 0x32 0xb6; W4 0x6d 0xc7 0x29 0xa1; W4 0x66 0xc9 0x20 0xac;
  W4 0x57 0xe3 0x1f 0x8f; W4 0x5c 0xed 0x16 0x82; W4 0x41 0xff 0x0d 0x95; W4 0x4a 0xf1 0x04 0x98;
  W4 0x23 0xab 0x73 0xd3; W4 0x28 0xa5 0x7a 0xde; W4 0x35 0xb7 0x61 0xc9; W4 0x3e 0xb9 0x68 0xc4;
  W4 0x0f 0x93 0x57 0xe7; W4 0x04 0x9d 0x5e 0xea; W4 0x19 0x8f 0x45 0xfd; W4 0x12 0x81 0x4c 0xf0;
  W4 0xcb 0x3b 0xab 0x6b; W4 0xc0 0x35 0xa2 0x66; W4 0xdd 0x27 0xb9 0x71; W4 0xd6 0x29 0xb0 0x7c;
  W4 0xe7 0x03 0x8f 0x5f; W4 0xec 0x0d 0x86 0x52; W4 0xf1 0x1f 0x9d 0x45; W4 0xfa 0x11 0x94 0x48;
  W4 0x93 0x4b 0xe3 0x03; W4 0x98 0x45 0xea 0x0e; W4 0x85 0x57 0xf1 0x19; W4 0x8e 0x59 0xf8 0x14;
  W4 0xbf 0x73 0xc7 0x37; W4 0xb4 0x7d 0xce 0x3a; W4 0xa9 0x6f 0xd5 0x2d; W4 0xa2 0x61 0xdc 0x20;
  W4 0xf6 0xad 0x76 0x6d; W4 0xfd 0xa3 0x7f 0x60; W4 0xe0 0xb1 0x64 0x77; W4 0xeb 0xbf 0x6d 0x7a;
  W4 0xda 0x95 0x52 0x59; W4 0xd1 0x9b 0x5b 0x54; W4 0xcc 0x89 0x40 0x43; W4 0xc7 0x87 0x49 0x4e;
  W4 0xae 0xdd 0x3e 0x05; W4 0xa5 0xd3 0x37 0x08; W4 0xb8 0xc1 0x2c 0x1f; W4 0xb3 0xcf 0x25 0x12;
  W4 0x82 0xe5 0x1a 0x31; W4 0x89 0xeb 0x13 0x3c; W4 0x94 0xf9 0x08 0x2b; W4 0x9f 0xf7 0x01 0x26;
  W4 0x46 0x4d 0xe6 0xbd; W4 0x4d 0x43 0xef 0xb0; W4 0x50 0x51 0xf4 0xa7; W4 0x5b 0x5f 0xfd 0xaa;
  W4 0x6a 0x75 0xc2 0x89; W4 0x61 0x7b 0xcb 0x84; W4 0x7c 0x69 0xd0 0x93; W4 0x77 0x67 0xd9 0x9e;
  W4 0x1e 0x3d 0xae 0xd5; W4 0x15 0x33 0xa7 0xd8; W4 0x08 0x21 0xbc 0xcf; W4 0x03 0x2f 0xb5 0xc2;
  W4 0x32 0x05 0x8a 0xe1; W4 0x39 0x0b 0x83 0xec; W4 0x24 0x19 0x98 0xfb; W4 0x2f 0x17 0x91 0xf6;
  W4 0x8d 0x76 0x4d 0xd6; W4 0x86 0x78 0x44 0xdb; W4 0x9b 0x6a 0x5f 0xcc; W4 0x90 0x64 0x56 0xc1;
  W4 0xa1 0x4e 0x69 0xe2; W4 0xaa 0x40 0x60 0xef; W4 0xb7 0x52 0x7b 0xf8; W4 0xbc 0x5c 0x72 0xf5;
  W4 0xd5 0x06 0x05 0xbe; W4 0xde 0x08 0x0c 0xb3; W4 0xc3 0x1a 0x17 0xa4; W4 0xc8 0x14 0x1e 0xa9;
  W4 0xf9 0x3e 0x21 0x8a; W4 0xf2 0x30 0x28 0x87; W4 0xef 0x22 0x33 0x90; W4 0xe4 0x2c 0x3a 0x9d;
  W4 0x3d 0x96 0xdd 0x06; W4 0x36 0x98 0xd4 0x0b; W4 0x2b 0x8a 0xcf 0x1c; W4 0x20 0x84 0xc6 0x11;
  W4 0x11 0xae 0xf9 0x32; W4 0x1a 0xa0 0xf0 0x3f; W4 0x07 0xb2 0xeb 0x28; W4 0x0c 0xbc 0xe2 0x25;
  W4 0x65 0xe6 0x95 0x6e; W4 0x6e 0xe8 0x9c 0x63; W4 0x73 0xfa 0x87 0x74; W4 0x78 0xf4 0x8e 0x79;
  W4 0x49 0xde 0xb1 0x5a; W4 0x42 0xd0 0xb8 0x57; W4 0x5f 0xc2 0xa3 0x40; W4 0x54 0xcc 0xaa 0x4d;
  W4 0xf7 0x41 0xec 0xda; W4 0xfc 0x4f 0xe5 0xd7; W4 0xe1 0x5d 0xfe 0xc0; W4 0xea 0x53 0xf7 0xcd;
  W4 0xdb 0x79 0xc8 0xee; W4 0xd0 0x77 0xc1 0xe3; W4 0xcd 0x65 0xda 0xf4; W4 0xc6 0x6b 0xd3 0xf9;
  W4 0xaf 0x31 0xa4 0xb2; W4 0xa4 0x3f 0xad 0xbf; W4 0xb9 0x2d 0xb6 0xa8; W4 0xb2 0x23 0xbf 0xa5;
  W4 0x83 0x09 0x80 0x86; W4 0x88 0x07 0x89 0x8b; W4 0x95 0x15 0x92 0x9c; W4 0x9e 0x1b 0x9b 0x91;
  W4 0x47 0xa1 0x7c 0x0a; W4 0x4c 0xaf 0x75 0x07; W4 0x51 0xbd 0x6e 0x10; W4 0x5a 0xb3 0x67 0x1d;
  W4 0x6b 0x99 0x58 0x3e; W4 0x60 0x97 0x51 0x33; W4 0x7d 0x85 0x4a 0x24; W4 0x76 0x8b 0x43 0x29;
  W4 0x1f 0xd1 0x34 0x62; W4 0x14 0xdf 0x3d 0x6f; W4 0x09 0xcd 0x26 0x78; W4 0x02 0xc3 0x2f 0x75;
  W4 0x33 0xe9 0x10 0x56; W4 0x38 0xe7 0x19 0x5b; W4 0x25 0xf5 0x02 0x4c; W4 0x2e 0xfb 0x0b 0x41;
  W4 0x8c 0x9a 0xd7 0x61; W4 0x87 0x94 0xde 0x6c; W4 0x9a 0x86 0xc5 0x7b; W4 0x91 0x88 0xcc 0x76;
  W4 0xa0 0xa2 0xf3 0x55; W4 0xab 0xac 0xfa 0x58; W4 0xb6 0xbe 0xe1 0x4f; W4 0xbd 0xb0 0xe8 0x42;
  W4 0xd4 0xea 0x9f 0x09; W4 0xdf 0xe4 0x96 0x04; W4 0xc2 0xf6 0x8d 0x13; W4 0xc9 0xf8 0x84 0x1e;
  W4 0xf8 0xd2 0xbb 0x3d; W4 0xf3 0xdc 0xb2 0x30; W4 0xee 0xce 0xa9 0x27; W4 0xe5 0xc0 0xa0 0x2a;
  W4 0x3c 0x7a 0x47 0xb1; W4 0x37 0x74 0x4e 0xbc; W4 0x2a 0x66 0x55 0xab; W4 0x21 0x68 0x5c 0xa6;
  W4 0x10 0x42 0x63 0x85; W4 0x1b 0x4c 0x6a 0x88; W4 0x06 0x5e 0x71 0x9f; W4 0x0d 0x50 0x78 0x92;
  W4 0x64 0x0a 0x0f 0xd9; W4 0x6f 0x04 0x06 0xd4; W4 0x72 0x16 0x1d 0xc3; W4 0x79 0x18 0x14 0xce;
  W4 0x48 0x32 0x2b 0xed; W4 0x43 0x3c 0x22 0xe0; W4 0x5e 0x2e 0x39 0xf7; W4 0x55 0x20 0x30 0xfa;
  W4 0x01 0xec 0x9a 0xb7; W4 0x0a 0xe2 0x93 0xba; W4 0x17 0xf0 0x88 0xad; W4 0x1c 0xfe 0x81 0xa0;
  W4 0x2d 0xd4 0xbe 0x83; W4 0x26 0xda 0xb7 0x8e; W4 0x3b 0xc8 0xac 0x99; W4 0x30 0xc6 0xa5 0x94;
  W4 0x59 0x9c 0xd2 0xdf; W4 0x52 0x92 0xdb 0xd2; W4 0x4f 0x80 0xc0 0xc5; W4 0x44 0x8e 0xc9 0xc8;
  W4 0x75 0xa4 0xf6 0xeb; W4 0x7e 0xaa 0xff 0xe6; W4 0x63 0xb8 0xe4 0xf1; W4 0x68 0xb6 0xed 0xfc;
  W4 0xb1 0x0c 0x0a 0x67; W4 0xba 0x02 0x03 0x6a; W4 0xa7 0x10 0x18 0x7d; W4 0xac 0x1e 0x11 0x70;
  W4 0x9d 0x34 0x2e 0x53; W4 0x96 0x3a 0x27 0x5e; W4 0x8b 0x28 0x3c 0x49; W4 0x80 0x26 0x35 0x44;
  W4 0xe9 0x7c 0x42 0x0f; W4 0xe2 0x72 0x4b 0x02; W4 0xff 0x60 0x50 0x15; W4 0xf4 0x6e 0x59 0x18;
  W4 0xc5 0x44 0x66 0x3b; W4 0xce 0x4a 0x6f 0x36; W4 0xd3 0x58 0x74 0x21; W4 0xd8 0x56 0x7d 0x2c;
  W4 0x7a 0x37 0xa1 0x0c; W4 0x71 0x39 0xa8 0x01; W4 0x6c 0x2b 0xb3 0x16; W4 0x67 0x25 0xba 0x1b;
  W4 0x56 0x0f 0x85 0x38; W4 0x5d 0x01 0x8c 0x35; W4 0x40 0x13 0x97 0x22; W4 0x4b 0x1d 0x9e 0x2f;
  W4 0x22 0x47 0xe9 0x64; W4 0x29 0x49 0xe0 0x69; W4 0x34 0x5b 0xfb 0x7e; W4 0x3f 0x55 0xf2 0x73;
  W4 0x0e 0x7f 0xcd 0x50; W4 0x05 0x71 0xc4 0x5d; W4 0x18 0x63 0xdf 0x4a; W4 0x13 0x6d 0xd6 0x47;
  W4 0xca 0xd7 0x31 0xdc; W4 0xc1 0xd9 0x38 0xd1; W4 0xdc 0xcb 0x23 0xc6; W4 0xd7 0xc5 0x2a 0xcb;
  W4 0xe6 0xef 0x15 0xe8; W4 0xed 0xe1 0x1c 0xe5; W4 0xf0 0xf3 0x07 0xf2; W4 0xfb 0xfd 0x0e 0xff;
  W4 0x92 0xa7 0x79 0xb4; W4 0x99 0xa9 0x70 0xb9; W4 0x84 0xbb 0x6b 0xae; W4 0x8f 0xb5 0x62 0xa3;
  W4 0xbe 0x9f 0x5d 0x80; W4 0xb5 0x91 0x54 0x8d; W4 0xa8 0x83 0x4f 0x9a; W4 0xa3 0x8d 0x46 0x97
].

Definition U3 : list word4 := [
  W4 0x00 0x00 0x00 0x00; W4 0x0d 0x0b 0x0e 0x09; W4 0x1a 0x16 0x1c 0x12; W4 0x17 0x1d 0x12 0x1b;
  W4 0x34 0x2c 0x38 0x24; W4 0x39 0x27 0x36 0x2d; W4 0x2e 0x3a 0x24 0x36; W4 0x23 0x31 0x2a 0x3f;
  W4 0x68 0x58 0x70 0x48; W4 0x65 0x53 0x7e 0x41; W4 0x72 0x4e 0x6c 0x5a; W4 0x7f 0x45 0x62 0x53;
  W4 0x5c 0x74 0x48 0x6c; W4 0x51 0x7f 0x46 0x65; W4 0x46 0x62 0x54 0x7e; W4 0x4b 0x69 0x5a 0x77;
  W4 0xd0 0xb0 0xe0 0x90; W4 0xdd 0xbb 0xee 0x99; W4 0xca 0xa6 0xfc 0x82; W4 0xc7 0xad 0xf2 0x8b;
  W4 0xe4 0x9c 0xd8 0xb4; W4 0xe9 0x97 0xd6 0xbd; W4 0xfe 0x8a 0xc4 0xa6; W4 0xf3 0x81 0xca 0xaf;
  W4 0xb8 0xe8 0x90 0xd8; W4 0xb5 0xe3 0x9e 0xd1; W4 0xa2 0xfe 0x8c 0xca; W4 0xaf 0xf5 0x82 0xc3;
  W4 0x8c 0xc4 0xa8 0xfc; W4 0x81 0xcf 0xa6 0xf5; W4 0x96 0xd2 0xb4 0xee; W4 0x9b 0xd9 0xba 0xe7;
  W4 0xbb 0x7b 0xdb 0x3b; W4 0xb6 0x70 0xd5 0x32; W4 0xa1 0x6d 0xc7 0x29; W4 0xac 0x66 0xc9 0x20;
  W4 0x8f 0x57 0xe3 0x1f; W4 0x82 0x5c 0xed 0x16; W4 0x95 0x41 0xff 0x0d; W4 0x98 0x4a 0xf1 0x04;
  W4 0xd3 0x23 0xab 0x73; W4 0xde 0x28 0xa5 0x7a; W4 0xc9 0x35 0xb7 0x61; W4 0xc4 0x3e 0xb9 0x68;
  W4 0xe7 0x0f 0x93 0x57; W4 0xea 0x04 0x9d 0x5e; W4 0xfd 0x19 0x8f 0x45; W4 0xf0 0x12 0x81 0x4c;
  W4 0x6b 0xcb 0x3b 0xab; W4 0x66 0xc0 0x35 0xa2; W4 0x71 0xdd 0x27 0xb9; W4 0x7c 0xd6 0x29 0xb0;
  W4 0x5f 0xe7 0x03 0x8f; W4 0x52 0xec 0x0d 0x86; W4 0x45 0xf1 0x1f 0x9d; W4 0x48 0xfa 0x11 0x94;
  W4 0x03 0x93 0x4b 0xe3; W4 0x0e 0x98 0x45 0xea; W4 0x19 0x85 0x57 0xf1; W4 0x14 0x8e 0x59 0xf8;
  W4 0x37 0xbf 0x73 0xc7; W4 0x3a 0xb4 0x7d 0xce; W4 0x2d 0xa9 0x6f 0xd5; W4 0x20 0xa2 0x61 0xdc;
  W4 0x6d 0xf6 0xad 0x76; W4 0x60 0xfd 0xa3 0x7f; W4 0x77 0xe0 0xb1 0x64; W4 0x7a 0xeb 0xbf 0x6d;
  W4 0x59 0xda 0x95 0x52; W4 0x54 0xd1 0x9b 0x5b; W4 0x43 0xcc 0x89 0x40; W4 0x4e 0xc7 0x87 0x49;
  W4 0x05 0xae 0xdd 0x3e; W4 0x08 0xa5 0xd3 0x37; W4 0x1f 0xb8 0xc1 0x2c; W4 0x12 0xb3 0xcf 0x25;
  W4 0x31 0x82 0xe5 0x1a; W4 0x3c 0x89 0xeb 0x13; W4 0x2b 0x94 0xf9 0x08; W4 0x26 0x9f 0xf7 0x01;
  W4 0xbd 0x46 0x4d 0xe6; W4 0xb0 0x4d 0x43 0xef; W4 0xa7 0x50 0x51 0xf4; W4 0xaa 0x5b 0x5f 0xfd;
  W4 0x89 0x6a 0x75 0xc2; W4 0x84 0x61 0x7b 0xcb; W4 0x93 0x7c 0x69 0xd0; W4 0x9e 0x77 0x67 0xd9;
  W4 0xd5 0x1e 0x3d 0xae; W4 0xd8 0x15 0x33 0xa7; W4 0xcf 0x08 0x21 0xbc; W4 0xc2 0x03 0x2f 0xb5;
  W4 0xe1 0x32 0x05 0x8a; W4 0xec 0x39 0x0b 0x83; W4 0xfb 0x24 0x19 0x98; W4 0xf6 0x2f 0x17 0x91;
  W4 0xd6 0x8d 0x76 0x4d; W4 0xdb 0x86 0x78 0x44; W4 0xcc 0x9b 0x6a 0x5f; W4 0xc1 0x90 0x64 0x56;
  W4 0xe2 0xa1 0x4e 0x69; W4 0xef 0xaa 0x40 0x60; W4 0xf8 0xb7 0x52 0x7b; W4 0xf5 0xbc 0x5c 0x72;
  W4 0xbe 0xd5 0x06 0x05; W4 0xb3 0xde 0x08 0x0c; W4 0xa4 0xc3 0x1a 0x17; W4 0xa9 0xc8 0x14 0x1e;
  W4 0x8a 0xf9 0x3e 0x21; W4 0x87 0xf2 0x30 0x28; W4 0x90 0xef 0x22 0x33; W4 0x9d 0xe4 0x2c 0x3a;
  W4 0x06 0x3d 0x96 0xdd; W4 0x0b 0x36 0x98 0xd4; W4 0x1c 0x2b 0x8a 0xcf; W4 0x11 0x20 0x84 0xc6;
  W4 0x32 0x11 0xae 0xf9; W4 0x3f 0x1a 0xa0 0xf0; W4 0x28 0x07 0xb2 0xeb; W4 0x25 0x0c 0xbc 0xe2;
  W4 0x6e 0x65 0xe6 0x95; W4 0x63 0x6e 0xe8 0x9c; W4 0x74 0x73 0xfa 0x87; W4 0x79 0x78 0xf4 0x8e;
  W4 0x5a 0x49 0xde 0xb1; W4 0x57 0x42 0xd0 0xb8; W4 0x40 0x5f 0xc2 0xa3; W4 0x4d 0x54 0xcc 0xaa;
  W4 0xda 0xf7 0x41 0xec; W4 0xd7 0xfc 0x4f 0xe5; W4 0xc0 0xe1 0x5d 0xfe; W4 0xcd 0xea 0x53 0xf7;
  W4 0xee 0xdb 0x79 0xc8; W4 0xe3 0xd0 0x77 0xc1; W4 0xf4 0xcd 0x65 0xda; W4 0xf9 0xc6 0x6b 0xd3;
  W4 0xb2 0xaf 0x31 0xa4; W4 0xbf 0xa4 0x3f 0xad; W4 0xa8 0xb9 0x2d 0xb6; W4 0xa5 0xb2 0x23 0xbf;
  W4 0x86 0x83 0x09 0x80; W4 0x8b 0x88 0x07 0x89; W4 0x9c 0x95 0x15 0x92; W4 0x91 0x9e 0x1b 0x9b;
  W4 0x0a 0x47 0xa1 0x7c; W4 0x07 0x4c 0xaf 0x75; W4 0x10 0x51 0xbd 0x6e; W4 0x1d 0x5a 0xb3 0x67;
  W4 0x3e 0x6b 0x99 0x58; W4 0x33 0x60 0x97 0x51; W4 0x24 0x7d 0x85 0x4a; W4 0x29 0x76 0x8b 0x43;
  W4 0x62 0x1f 0xd1 0x34; W4 0x6f 0x14 0xdf 0x3d; W4 0x78 0x09 0xcd 0x26; W4 0x75 0x02 0xc3 0x2f;
  W4 0x56 0x33 0xe9 0x10; W4 0x5b 0x38 0xe7 0x19; W4 0x4c 0x25 0xf5 0x02; W4 0x41 0x2e 0xfb 0x0b;
  W4 0x61 0x8c 0x9a 0xd7; W4 0x6c 0x87 0x94 0xde; W4 0x7b 0x9a 0x86 0xc5; W4 0x76 0x91 0x88 0xcc;
  W4 0x55 0xa0 0xa2 0xf3; W4 0x58 0xab 0xac 0xfa; W4 0x4f 0xb6 0xbe 0xe1; W4 0x42 0xbd 0xb0 0xe8;
  W4 0x09 0xd4 0xea 0x9f; W4 0x04 0xdf 0xe4 0x96; W4 0x13 0xc2 0xf6 0x8d; W4 0x1e 0xc9 0xf8 0x84;
  W4 0x3d 0xf8 0xd2 0xbb; W4 0x30 0xf3 0xdc 0xb2; W4 0x27 0xee 0xce 0xa9; W4 0x2a 0xe5 0xc0 0xa0;
  W4 0xb1 0x3c 0x7a 0x47; W4 0xbc 0x37 0x74 0x4e; W4 0xab 0x2a 0x66 0x55; W4 0xa6 0x21 0x68 0x5c;
  W4 0x85 0x10 0x42 0x63; W4 0x88 0x1b 0x4c 0x6a; W4 0x9f 0x06 0x5e 0x71; W4 0x92 0x0d 0x50 0x78;
  W4 0xd9 0x64 0x0a 0x0f; W4 0xd4 0x6f 0x04 0x06; W4 0xc3 0x72 0x16 0x1d; W4 0xce 0x79 0x18 0x14;
  W4 0xed 0x48 0x32 0x2b; W4 0xe0 0x43 0x3c 0x22; W4 0xf7 0x5e 0x2e 0x39; W4 0xfa 0x55 0x20 0x30;
  W4 0xb7 0x01 0xec 0x9a; W4 0xba 0x0a 0xe2 0x93; W4 0xad 0x17 0xf0 0x88; W4 0xa0 0x1c 0xfe 0x81;
  W4 0x83 0x2d 0xd4 0xbe; W4 0x8e 0x26 0xda 0xb7; W4 0x99 0x3b 0xc8 0xac; W4 0x94 0x30 0xc6 0xa5;
  W4 0xdf 0x59 0x9c 0xd2; W4 0xd2 0x52 0x92 0xdb; W4 0xc5 0x4f 0x80 0xc0; W4 0xc8 0x44 0x8e 0xc9;
  W4 0xeb 0x75 0xa4 0xf6; W4 0xe6 0x7e 0xaa 0xff; W4 0xf1 0x63 0xb8 0xe4; W4 0xfc 0x68 0xb6 0xed;
  W4 0x67 0xb1 0x0c 0x0a; W4 0x6a 0xba 0x02 0x03; W4 0x7d 0xa7 0x10 0x18; W4 0x70 0xac 0x1e 0x11;
  W4 0x53 0x9d 0x34 0x2e; W4 0x5e 0x96 0x3a 0x27; W4 0x49 0x8b 0x28 0x3c; W4 0x44 0x80 0x26 0x35;
  W4 0x0f 0xe9 0x7c 0x42; W4 0x02 0xe2 0x72 0x4b; W4 0x15 0xff 0x60 0x50; W4 0x18 0xf4 0x6e 0x59;
  W4 0x3b 0xc5 0x44 0x66; W4 0x36 0xce 0x4a 0x6f; W4 0x21 0xd3 0x58 0x74; W4 0x2c 0xd8 0x56 0x7d;
  W4 0x0c 0x7a 0x37 0xa1; W4 0x01 0x71 0x39 0xa8; W4 0x16 0x6c 0x2b 0xb3; W4 0x1b 0x67 0x25 0xba;
  W4 0x38 0x56 0x0f 0x85; W4 0x35 0x5d 0x01 0x8c; W4 0x22 0x40 0x13 0x97; W4 0x2f 0x4b 0x1d 0x9e;
  W4 0x64 0x22 0x47 0xe9; W4 0x69 0x29 0x49 0xe0; W4 0x7e 0x34 0x5b 0xfb; W4 0x73 0x3f 0x55 0xf2;
  W4 0x50 0x0e 0x7f 0xcd; W4 0x5d 0x05 0x71 0xc4; W4 0x4a 0x18 0x63 0xdf; W4 0x47 0x13 0x6d 0xd6;
  W4 0xdc 0xca 0xd7 0x31; W4 0xd1 0xc1 0xd9 0x38; W4 0xc6 0xdc 0xcb 0x23; W4 0xcb 0xd7 0xc5 0x2a;
  W4 0xe8 0xe6 0xef 0x15; W4 0xe5 0xed 0xe1 0x1c; W4 0xf2 0xf0 0xf3 0x07; W4 0xff 0xfb 0xfd 0x0e;
  W4 0xb4 0x92 0xa7 0x79; W4 0xb9 0x99 0xa9 0x70; W4 0xae 0x84 0xbb 0x6b; W4 0xa3 0x8f 0xb5 0x62;
  W4 0x80 0xbe 0x9f 0x5d; W4 0x8d 0xb5 0x91 0x54; W4 0x9a 0xa8 0x83 0x4f; W4 0x97 0xa3 0x8d 0x46
].

Definition U4 : list word4 := [
  W4 0x00 0x00 0x00 0x00; W4 0x09 0x0d 0x0b 0x0e; W4 0x12 0x1a 0x16 0x1c; W4 0x1b 0x17 0x1d 0x12;
  W4 0x24 0x34 0x2c 0x38; W4 0x2d 0x39 0x27 0x36; W4 0x36 0x2e 0x3a 0x24; W4 0x3f 0x23 0x31 0x2a;
  W4 0x48 0x68 0x58 0x70; W4 0x41 0x65 0x53 0x7e; W4 0x5a 0x72 0x4e 0x6c; W4 0x53 0x7f 0x45 0x62;
  W4 0x6c 0x5c 0x74 0x48; W4 0x65 0x51 0x7f 0x46; W4 0x7e 0x46 0x62 0x54; W4 0x77 0x4b 0x69 0x5a;
  W4 0x90 0xd0 0xb0 0xe0; W4 0x99 0xdd 0xbb 0xee; W4 0x82 0xca 0xa6 0xfc; W4 0x8b 0xc7 0xad 0xf2;
  W4 0xb4 0xe4 0x9c 0xd8; W4 0xbd 0xe9 0x97 0xd6; W4 0xa6 0xfe 0x8a 0xc4; W4 0xaf 0xf3 0x81 0xca;
  W4 0xd8 0xb8 0xe8 0x90; W4 0xd1 0xb5 0xe3 0x9e; W4 0xca 0xa2 0xfe 0x8c; W4 0xc3 0xaf 0xf5 0x82;
  W4 0xfc 0x8c 0xc4 0xa8; W4 0xf5 0x81 0xcf 0xa6; W4 0xee 0x96 0xd2 0xb4; W4 0xe7 0x9b 0xd9 0xba;
  W4 0x3b 0xbb 0x7b 0xdb; W4 0x32 0xb6 0x70 0xd5; W4 0x29 0xa1 0x6d 0xc7; W4 0x20 0xac 0x66 0xc9;
  W4 0x1f 0x8f 0x57 0xe3; W4 0x16 0x82 0x5c 0xed; W4 0x0d 0x95 0x41 0xff; W4 0x04 0x98 0x4a 0xf1;
  W4 0x73 0xd3 0x23 0xab; W4 0x7a 0xde 0x28 0xa5; W4 0x61 0xc9 0x35 0xb7; W4 0x68 0xc4 0x3e 0xb9;
  W4 0x57 0xe7 0x0f 0x93; W4 0x5e 0xea 0x04 0x9d; W4 0x45 0xfd 0x19 0x8f; W4 0x4c 0xf0 0x12 0x81;
  W4 0xab 0x6b 0xcb 0x3b; W4 0xa2 0x66 0xc0 0x35; W4 0xb9 0x71 0xdd 0x27; W4 0xb0 0x7c 0xd6 0x29;
  W4 0x8f 0x5f 0xe7 0x03; W4 0x86 0x52 0xec 0x0d; W4 0x9d 0x45 0xf1 0x1f; W4 0x94 0x48 0xfa 0x11;
  W4 0xe3 0x03 0x93 0x4b; W4 0xea 0x0e 0x98 0x45; W4 0xf1 0x19 0x85 0x57; W4 0xf8 0x14 0x8e 0x59;
  W4 0xc7 0x37 0xbf 0x73; W4 0xce 0x3a 0xb4 0x7d; W4 0xd5 0x2d 0xa9 0x6f; W4 0xdc 0x20 0xa2 0x61;
  W4 0x76 0x6d 0xf6 0xad; W4 0x7f 0x60 0xfd 0xa3; W4 0x64 0x77 0xe0 0xb1; W4 0x6d 0x7a 0xeb 0xbf;
  W4 0x52 0x59 0xda 0x95; W4 0x5b 0x54 0xd1 0x9b; W4 0x40 0x43 0xcc 0x89; W4 0x49 0x4e 0xc7 0x87;
  W4 0x3e 0x05 0xae 0xdd; W4 0x37 0x08 0xa5 0xd3; W4 0x2c 0x1f 0xb8 0xc1; W4 0x25 0x12 0xb3 0xcf;
  W4 0x1a 0x31 0x82 0xe5; W4 0x13 0x3c 0x89 0xeb; W4 0x08 0x2b 0x94 0xf9; W4 0x01 0x26 0x9f 0xf7;
  W4 0xe6 0xbd 0x46 0x4d; W4 0xef 0xb0 0x4d 0x43; W4 0xf4 0xa7 0x50 0x51; W4 0xfd 0xaa 0x5b 0x5f;
  W4 0xc2 0x89 0x6a 0x75; W4 0xcb 0x84 0x61 0x7b; W4 0xd0 0x93 0x7c 0x69; W4 0xd9 0x9e 0x77 0x67;
  W4 0xae 0xd5 0x1e 0x3d; W4 0xa7 0xd8 0x15 0x33; W4 0xbc 0xcf 0x08 0x21; W4 0xb5 0xc2 0x03 0x2f;
  W4 0x8a 0xe1 0x32 0x05; W4 0x83 0xec 0x39 0x0b; W4 0x98 0xfb 0x24 0x19; W4 0x91 0xf6 0x2f 0x17;
  W4 0x4d 0xd6 0x8d 0x76; W4 0x44 0xdb 0x86 0x78; W4 0x5f 0xcc 0x9b 0x6a; W4 0x56 0xc1 0x90 0x64;
  W4 0x69 0xe2 0xa1 0x4e; W4 0x60 0xef 0xaa 0x40; W4 0x7b 0xf8 0xb7 0x52; W4 0x72 0xf5 0xbc 0x5c;
  W4 0x05 0xbe 0xd5 0x06; W4 0x0c 0xb3 0xde 0x08; W4 0x17 0xa4 0xc3 0x1a; W4 0x1e 0xa9 0xc8 0x14;
  W4 0x21 0x8a 0xf9 0x3e; W4 0x28 0x87 0xf2 0x30; W4 0x33 0x90 0xef 0x22; W4 0x3a 0x9d 0xe4 0x2c;
  W4 0xdd 0x06 0x3d 0x96; W4 0xd4 0x0b 0x36 0x98; W4 0xcf 0x1c 0x2b 0x8a; W4 0xc6 0x11 0x20 0x84;
  W4 0xf9 0x32 0x11 0xae; W4 0xf0 0x3f 0x1a 0xa0; W4 0xeb 0x28 0x07 0xb2; W4 0xe2 0x25 0x0c 0xbc;
  W4 0x95 0x6e 0x65 0xe6; W4 0x9c 0x63 0x6e 0xe8; W4 0x87 0x74 0x73 0xfa; W4 0x8e 0x79 0x78 0xf4;
  W4 0xb1 0x5a 0x49 0xde; W4 0xb8 0x57 0x42 0xd0; W4 0xa3 0x40 0x5f 0xc2; W4 0xaa 0x4d 0x54 0xcc;
  W4 0xec 0xda 0xf7 0x41; W4 0xe5 0xd7 0xfc 0x4f; W4 0xfe 0xc0 0xe1 0x5d; W4 0xf7 0xcd 0xea 0x53;
  W4 0xc8 0xee 0xdb 0x79; W4 0xc1 0xe3 0xd0 0x77; W4 0xda 0xf4 0xcd 0x65; W4 0xd3 0xf9 0xc6 0x6b;
  W4 0xa4 0xb2 0xaf 0x31; W4 0xad 0xbf 0xa4 0x3f; W4 0xb6 0xa8 0xb9 0x2d; W4 0xbf 0xa5 0xb2 0x23;
  W4 0x80 0x86 0x83 0x09; W4 0x89 0x8b 0x88 0x07; W4 0x92 0x9c 0x95 0x15; W4 0x9b 0x91 0x9e 0x1b;
  W4 0x7c 0x0a 0x47 0xa1; W4 0x75 0x07 0x4c 0xaf; W4 0x6e 0x10 0x51 0xbd; W4 0x67 0x1d 0x5a 0xb3;
  W4 0x58 0x3e 0x6b 0x99; W4 0x51 0x33 0x60 0x97; W4 0x4a 0x24 0x7d 0x85; W4 0x43 0x29 0x76 0x8b;
  W4 0x34 0x62 0x1f 0xd1; W4 0x3d 0x6f 0x14 0xdf; W4 0x26 0x78 0x09 0xcd; W4 0x2f 0x75 0x02 0xc3;
  W4 0x10 0x56 0x33 0xe9; W4 0x19 0x5b 0x38 0xe7; W4 0x02 0x4c 0x25 0xf5; W4 0x0b 0x41 0x2e 0xfb;
  W4 0xd7 0x61 0x8c 0x9a; W4 0xde 0x6c 0x87 0x94; W4 0xc5 0x7b 0x9a 0x86; W4 0xcc 0x76 0x91 0x88;
  W4 0xf3 0x55 0xa0 0xa2; W4 0xfa 0x58 0xab 0xac; W4 0xe1 0x4f 0xb6 0xbe; W4 0xe8 0x42 0xbd 0xb0;
  W4 0x9f 0x09 0xd4 0xea; W4 0x96 0x04 0xdf 0xe4; W4 0x8d 0x13 0xc2 0xf6; W4 0x84 0x1e 0xc9 0xf8;
  W4 0xbb 0x3d 0xf8 0xd2; W4 0xb2 0x30 0xf3 0xdc; W4 0xa9 0x27 0xee 0xce; W4 0xa0 0x2a 0xe5 0xc0;
  W4 0x47 0xb1 0x3c 0x7a; W4 0x4e 0xbc 0x37 0x74; W4 0x55 0xab 0x2a 0x66; W4 0x5c 0xa6 0x21 0x68;
  W4 0x63 0x85 0x10 0x42; W4 0x6a 0x88 0x1b 0x4c; W4 0x71 0x9f 0x06 0x5e; W4 0x78 0x92 0x0d 0x50;
  W4 0x0f 0xd9 0x64 0x0a; W4 0x06 0xd4 0x6f 0x04; W4 0x1d 0xc3 0x72 0x16; W4 0x14 0xce 0x79 0x18;
  W4 0x2b 0xed 0x48 0x32; W4 0x22 0xe0 0x43 0x3c; W4 0x39 0xf7 0x5e 0x2e; W4 0x30 0xfa 0x55 0x20;
  W4 0x9a 0xb7 0x01 0xec; W4 0x93 0xba 0x0a 0xe2; W4 0x88 0xad 0x17 0xf0; W4 0x81 0xa0 0x1c 0xfe;
  W4 0xbe 0x83 0x2d 0xd4; W4 0xb7 0x8e 0x26 0xda; W4 0xac 0x99 0x3b 0xc8; W4 0xa5 0x94 0x30 0xc6;
  W4 0xd2 0xdf 0x59 0x9c; W4 0xdb 0xd2 0x52 0x92; W4 0xc0 0xc5 0x4f 0x80; W4 0xc9 0xc8 0x44 0x8e;
  W4 0xf6 0xeb 0x75 0xa4; W4 0xff 0xe6 0x7e 0xaa; W4 0xe4 0xf1 0x63 0xb8; W4 0xed 0xfc 0x68 0xb6;
  W4 0x0a 0x67 0xb1 0x0c; W4 0x03 0x6a 0xba 0x02; W4 0x18 0x7d 0xa7 0x10; W4 0x11 0x70 0xac 0x1e;
  W4 0x2e 0x53 0x9d 0x34; W4 0x27 0x5e 0x96 0x3a; W4 0x3c 0x49 0x8b 0x28; W4 0x35 0x44 0x80 0x26;
  W4 0x42 0x0f 0xe9 0x7c; W4 0x4b 0x02 0xe2 0x72; W4 0x50 0x15 0xff 0x60; W4 0x59 0x18 0xf4 0x6e;
  W4 0x66 0x3b 0xc5 0x44; W4 0x6f 0x36 0xce 0x4a; W4 0x74 0x21 0xd3 0x58; W4 0x7d 0x2c 0xd8 0x56;
  W4 0xa1 0x0c 0x7a 0x37; W4 0xa8 0x01 0x71 0x39; W4 0xb3 0x16 0x6c 0x2b; W4 0xba 0x1b 0x67 0x25;
  W4 0x85 0x38 0x56 0x0f; W4 0x8c 0x35 0x5d 0x01; W4 0x97 0x22 0x40 0x13; W4 0x9e 0x2f 0x4b 0x1d;
  W4 0xe9 0x64 0x22 0x47; W4 0xe0 0x69 0x29 0x49; W4 0xfb 0x7e 0x34 0x5b; W4 0xf2 0x73 0x3f 0x55;
  W4 0xcd 0x50 0x0e 0x7f; W4 0xc4 0x5d 0x05 0x71; W4 0xdf 0x4a 0x18 0x63; W4 0xd6 0x47 0x13 0x6d;
  W4 0x31 0xdc 0xca 0xd7; W4 0x38 0xd1 0xc1 0xd9; W4 0x23 0xc6 0xdc 0xcb; W4 0x2a 0xcb 0xd7 0xc5;
  W4 0x15 0xe8 0xe6 0xef; W4 0x1c 0xe5 0xed 0xe1; W4 0x07 0xf2 0xf0 0xf3; W4 0x0e 0xff 0xfb 0xfd;
  W4 0x79 0xb4 0x92 0xa7; W4 0x70 0xb9 0x99 0xa9; W4 0x6b 0xae 0x84 0xbb; W4 0x62 0xa3 0x8f 0xb5;
  W4 0x5d 0x80 0xbe 0x9f; W4 0x54 0x8d 0xb5 0x91; W4 0x4f 0x9a 0xa8 0x83; W4 0x46 0x97 0xa3 0x8d
].

Definition rcon : list Z := [
  0x01; 0x02; 0x04; 0x08; 0x10; 0x20;
  0x40; 0x80; 0x1b; 0x36; 0x6c; 0xd8;
  0xab; 0x4d; 0x9a; 0x2f; 0x5e; 0xbc;
  0x63; 0xc6; 0x97; 0x35; 0x6a; 0xd4;
  0xb3; 0x7d; 0xfa; 0xef; 0xc5; 0x91
].
