(* ===== verification/Rijndael.v ===== *)
(** * rijndael.c: the Rijndael cipher object and its modes of operation

    [Record Rijndael] is the C struct. The cipher works on byte memory: a
    memory is a list of bytes and a pointer is an index, so that the calls of
    codec.c, where input and output are the same buffer, are modelled with
    their aliasing. Every API function returns the C result code with the new
    memory. *)
From S2P Require Import Prelude RijndaelTables.
Local Open Scope Z_scope.

(** ** Words and blocks *)

(** [UINT8 temp[4][4]] or [UINT8 a[16]]: four words in memory order. *)
Record block := B4 { b_0 : word4; b_1 : word4; b_2 : word4; b_3 : word4 }.

Definition w_zero : word4 := W4 0 0 0 0.

(** [*((UINT32* )a) ^ *((UINT32* )b)]: exclusive or of four bytes, the same for
    either byte order of the machine. *)
Definition wxor (a b : word4) : word4 :=
  W4 (Z.lxor (w_0 a) (w_0 b)) (Z.lxor (w_1 a) (w_1 b))
     (Z.lxor (w_2 a) (w_2 b)) (Z.lxor (w_3 a) (w_3 b)).

Definition bxor (a b : block) : block :=
  B4 (wxor (b_0 a) (b_0 b)) (wxor (b_1 a) (b_1 b))
     (wxor (b_2 a) (b_2 b)) (wxor (b_3 a) (b_3 b)).

Infix "⊕w" := wxor (at level 50, left associativity) : sqlc_scope.
Infix "⊕b" := bxor (at level 50, left associativity) : sqlc_scope.
Local Open Scope sqlc_scope.

(** Table lookups [T1[x]] and [S[x]] (the table [S] is called [Sbox] here). *)
Definition tw (T : list word4) (x : Z) : word4 := nth (Z.to_nat x) T w_zero.
Definition tb (T : list Z) (x : Z) : Z := nth (Z.to_nat x) T 0.

Definition word_bytes (w : word4) : list Z := [w_0 w; w_1 w; w_2 w; w_3 w].
Definition block_bytes (b : block) : list Z :=
  word_bytes (b_0 b) ++ word_bytes (b_1 b) ++ word_bytes (b_2 b) ++ word_bytes (b_3 b).

(** The 16 bytes (or 4 bytes) at address [p]. *)
Definition load4 (mem : list Z) (p : nat) : word4 :=
  W4 (nth p mem 0) (nth (p + 1) mem 0) (nth (p + 2) mem 0) (nth (p + 3) mem 0).
Definition load16 (mem : list Z) (p : nat) : block :=
  B4 (load4 mem p) (load4 mem (p + 4)) (load4 mem (p + 8)) (load4 mem (p + 12)).
Definition store16 (mem : list Z) (p : nat) (b : block) : list Z :=
  list_inserts p (block_bytes b) mem.

(** ** Constants of rijndael.h *)

Definition RIJNDAEL_SUCCESS := 0.
Definition RIJNDAEL_UNSUPPORTED_MODE := -1.
Definition RIJNDAEL_UNSUPPORTED_DIRECTION := -2.
Definition RIJNDAEL_UNSUPPORTED_KEY_LENGTH := -3.
Definition RIJNDAEL_BAD_KEY := -4.
Definition RIJNDAEL_NOT_INITIALIZED := -5.
Definition RIJNDAEL_BAD_DIRECTION := -6.
Definition RIJNDAEL_CORRUPTED_DATA := -7.

Definition RIJNDAEL_Direction_Encrypt := 0.
Definition RIJNDAEL_Direction_Decrypt := 1.

Definition RIJNDAEL_Direction_Mode_ECB := 0.
Definition RIJNDAEL_Direction_Mode_CBC := 1.
Definition RIJNDAEL_Direction_Mode_CFB1 := 2.

Definition RIJNDAEL_Direction_KeyLength_Key16Bytes := 0.
Definition RIJNDAEL_Direction_KeyLength_Key24Bytes := 1.
Definition RIJNDAEL_Direction_KeyLength_Key32Bytes := 2.

Definition RIJNDAEL_State_Valid := 0.
Definition RIJNDAEL_State_Invalid := 1.

Definition MAX_IV_SIZE : nat := 16.
Definition MAX_KEY_COLUMNS : nat := 8.
Definition MAX_ROUNDS : nat := 14.

(** [struct _Rijndael]. The expanded key [m_expandedKey[r][t]] is the word
    [4 * r + t] of a list of [4 * (_MAX_ROUNDS + 1)] words, its layout in
    memory. *)
Record Rijndael := mkRijndael {
  m_state : Z;
  m_mode : Z;
  m_direction : Z;
  m_initVector : block;
  m_uRounds : nat;
  m_expandedKey : list word4
}.

Definition set_state (rj : Rijndael) (s : Z) : Rijndael :=
  mkRijndael s (m_mode rj) (m_direction rj) (m_initVector rj) (m_uRounds rj)
    (m_expandedKey rj).
Definition set_mode (rj : Rijndael) (m : Z) : Rijndael :=
  mkRijndael (m_state rj) m (m_direction rj) (m_initVector rj) (m_uRounds rj)
    (m_expandedKey rj).
Definition set_direction (rj : Rijndael) (d : Z) : Rijndael :=
  mkRijndael (m_state rj) (m_mode rj) d (m_initVector rj) (m_uRounds rj)
    (m_expandedKey rj).
Definition set_initVector (rj : Rijndael) (iv : block) : Rijndael :=
  mkRijndael (m_state rj) (m_mode rj) (m_direction rj) iv (m_uRounds rj)
    (m_expandedKey rj).
Definition set_uRounds (rj : Rijndael) (r : nat) : Rijndael :=
  mkRijndael (m_state rj) (m_mode rj) (m_direction rj) (m_initVector rj) r
    (m_expandedKey rj).
Definition set_expandedKey (rj : Rijndael) (ek : list word4) : Rijndael :=
  mkRijndael (m_state rj) (m_mode rj) (m_direction rj) (m_initVector rj)
    (m_uRounds rj) ek.

(** ** Key schedule *)

Definition kw (ek : list word4) (i : nat) : word4 := nth i ek w_zero.

(** The loop [for(;(j < uKeyColumns) && (t < 4); j++, t++)] that copies words of
    [tempKey] into [m_expandedKey[r][t]]; it returns [j], [t] and the array. *)
Fixpoint copy_words (fuel uKeyColumns : nat) (tempKey : list word4)
    (j r t : nat) (ek : list word4) : nat * nat * list word4 :=
  match fuel with
  | O => (j, t, ek)
  | S fuel' =>
      if decide (j < uKeyColumns ∧ t < 4)%nat
      then copy_words fuel' uKeyColumns tempKey (S j) r (S t)
             (<[(4 * r + t)%nat := kw tempKey j]> ek)
      else (j, t, ek)
  end.

(** The loop [for(j = 0;(j < uKeyColumns) && (r <= m_uRounds); )] around it, which
    moves to the next round key when four words are filled. *)
Fixpoint copy_key (fuel uKeyColumns uRounds : nat) (tempKey : list word4)
    (j r t : nat) (ek : list word4) : nat * nat * list word4 :=
  match fuel with
  | O => (r, t, ek)
  | S fuel' =>
      if decide (j < uKeyColumns ∧ r ≤ uRounds)%nat
      then
        let '(j, t, ek) := copy_words 4 uKeyColumns tempKey j r t ek in
        if (t =? 4)%nat
        then copy_key fuel' uKeyColumns uRounds tempKey j (S r) 0 ek
        else copy_key fuel' uKeyColumns uRounds tempKey j r t ek
      else (r, t, ek)
  end.

(** [tempKey[j] ^= tempKey[j-1]], for [n] values of [j] from [j] on. *)
Definition xor_prev (n j : nat) (tempKey : list word4) : list word4 :=
  for_up (λ j tempKey, <[j := kw tempKey j ⊕w kw tempKey (j - 1)]> tempKey) n j tempKey.

(** One pass of the body of [while(r <= m_uRounds)] over [tempKey]. *)
Definition next_tempKey (uKeyColumns : nat) (rc : Z) (tempKey : list word4)
    : list word4 :=
  let last := kw tempKey (uKeyColumns - 1) in
  let t0 := kw tempKey 0 in
  let tempKey := <[0%nat :=
    W4 (Z.lxor (Z.lxor (w_0 t0) (tb Sbox (w_1 last))) rc)
       (Z.lxor (w_1 t0) (tb Sbox (w_2 last)))
       (Z.lxor (w_2 t0) (tb Sbox (w_3 last)))
       (Z.lxor (w_3 t0) (tb Sbox (w_0 last)))]> tempKey in
  if negb (uKeyColumns =? 8)%nat
  then xor_prev (uKeyColumns - 1) 1 tempKey
  else
    let h := (uKeyColumns / 2)%nat in
    let tempKey := xor_prev (h - 1) 1 tempKey in
    let p := kw tempKey (h - 1) in
    let q := kw tempKey h in
    let tempKey := <[h :=
      W4 (Z.lxor (w_0 q) (tb Sbox (w_0 p))) (Z.lxor (w_1 q) (tb Sbox (w_1 p)))
         (Z.lxor (w_2 q) (tb Sbox (w_2 p))) (Z.lxor (w_3 q) (tb Sbox (w_3 p)))]> tempKey in
    xor_prev (uKeyColumns - (h + 1)) (h + 1) tempKey.

(** The loop [while(r <= m_uRounds)] itself. *)
Fixpoint sched_rounds (fuel uKeyColumns uRounds rconpointer : nat)
    (tempKey : list word4) (r t : nat) (ek : list word4) : list word4 :=
  match fuel with
  | O => ek
  | S fuel' =>
      if (r <=? uRounds)%nat
      then
        let tempKey := next_tempKey uKeyColumns (nth rconpointer rcon 0) tempKey in
        let '(r, t, ek) := copy_key (S uKeyColumns) uKeyColumns uRounds tempKey 0 r t ek in
        sched_rounds fuel' uKeyColumns uRounds (S rconpointer) tempKey r t ek
      else ek
  end.

(** [RijndaelKeySched]: the words of the key are copied to [tempKey], then to
    the first round keys, then the schedule is run. *)
Definition RijndaelKeySched (rj : Rijndael) (key : list word4) : Rijndael :=
  let uKeyColumns := (m_uRounds rj - 6)%nat in
  let tempKey := take uKeyColumns key ++ replicate (MAX_KEY_COLUMNS - uKeyColumns) w_zero in
  let '(r, t, ek) := copy_key (S uKeyColumns) uKeyColumns (m_uRounds rj) tempKey 0 0 0
                       (m_expandedKey rj) in
  set_expandedKey rj
    (sched_rounds (S (m_uRounds rj)) uKeyColumns (m_uRounds rj) 0 tempKey r t ek).

(** [U1[w[0]] ^ U2[w[1]] ^ U3[w[2]] ^ U4[w[3]]]. *)
Definition dec_key_word (w : word4) : word4 :=
  tw U1 (w_0 w) ⊕w tw U2 (w_1 w) ⊕w tw U3 (w_2 w) ⊕w tw U4 (w_3 w).

(** The four words of round [r]. *)
Definition enc_to_dec_round (r : nat) (ek : list word4) : list word4 :=
  let ek := <[(4 * r)%nat := dec_key_word (kw ek (4 * r))]> ek in
  let ek := <[(4 * r + 1)%nat := dec_key_word (kw ek (4 * r + 1))]> ek in
  let ek := <[(4 * r + 2)%nat := dec_key_word (kw ek (4 * r + 2))]> ek in
  <[(4 * r + 3)%nat := dec_key_word (kw ek (4 * r + 3))]> ek.

(** [for(r = 1; r < m_uRounds; r++)]. *)
Definition RijndaelKeyEncToDec (rj : Rijndael) : Rijndael :=
  set_expandedKey rj (for_up enc_to_dec_round (m_uRounds rj - 1) 1 (m_expandedKey rj)).

(** ** One block *)

Definition round_key (ek : list word4) (r : nat) : block :=
  B4 (kw ek (4 * r)) (kw ek (4 * r + 1)) (kw ek (4 * r + 2)) (kw ek (4 * r + 3)).

(** The table lookups of a full encryption round. *)
Definition enc_round (temp : block) : block :=
  B4 (tw T1 (w_0 (b_0 temp)) ⊕w tw T2 (w_1 (b_1 temp))
        ⊕w tw T3 (w_2 (b_2 temp)) ⊕w tw T4 (w_3 (b_3 temp)))
     (tw T1 (w_0 (b_1 temp)) ⊕w tw T2 (w_1 (b_2 temp))
        ⊕w tw T3 (w_2 (b_3 temp)) ⊕w tw T4 (w_3 (b_0 temp)))
     (tw T1 (w_0 (b_2 temp)) ⊕w tw T2 (w_1 (b_3 temp))
        ⊕w tw T3 (w_2 (b_0 temp)) ⊕w tw T4 (w_3 (b_1 temp)))
     (tw T1 (w_0 (b_3 temp)) ⊕w tw T2 (w_1 (b_0 temp))
        ⊕w tw T3 (w_2 (b_1 temp)) ⊕w tw T4 (w_3 (b_2 temp))).

(** [T1[x][1]]: the S-box value kept in the second byte of [T1]. *)
Definition t1_1 (x : Z) : Z := w_1 (tw T1 x).

(** The last encryption round, without the final key addition. *)
Definition enc_last (temp : block) : block :=
  B4 (W4 (t1_1 (w_0 (b_0 temp))) (t1_1 (w_1 (b_1 temp)))
         (t1_1 (w_2 (b_2 temp))) (t1_1 (w_3 (b_3 temp))))
     (W4 (t1_1 (w_0 (b_1 temp))) (t1_1 (w_1 (b_2 temp)))
         (t1_1 (w_2 (b_3 temp))) (t1_1 (w_3 (b_0 temp))))
     (W4 (t1_1 (w_0 (b_2 temp))) (t1_1 (w_1 (b_3 temp)))
         (t1_1 (w_2 (b_0 temp))) (t1_1 (w_3 (b_1 temp))))
     (W4 (t1_1 (w_0 (b_3 temp))) (t1_1 (w_1 (b_0 temp)))
         (t1_1 (w_2 (b_1 temp))) (t1_1 (w_3 (b_2 temp)))).

(** [for(r = 1; r < m_uRounds-1; r++)]: [n] rounds, from round key 1 on. *)
Definition enc_rounds (n : nat) (ek : list word4) (b : block) : block :=
  for_up (λ r b, enc_round (b ⊕b round_key ek r)) n 1 b.

Definition RijndaelEncrypt (rj : Rijndael) (a : block) : block :=
  let ek := m_expandedKey rj in
  let R := m_uRounds rj in
  let b := enc_round (a ⊕b round_key ek 0) in
  let b := enc_rounds (R - 2) ek b in
  let b := enc_last (b ⊕b round_key ek (R - 1)) in
  b ⊕b round_key ek R.

(** The table lookups of a full decryption round. *)
Definition dec_round (temp : block) : block :=
  B4 (tw T5 (w_0 (b_0 temp)) ⊕w tw T6 (w_1 (b_3 temp))
        ⊕w tw T7 (w_2 (b_2 temp)) ⊕w tw T8 (w_3 (b_1 temp)))
     (tw T5 (w_0 (b_1 temp)) ⊕w tw T6 (w_1 (b_0 temp))
        ⊕w tw T7 (w_2 (b_3 temp)) ⊕w tw T8 (w_3 (b_2 temp)))
     (tw T5 (w_0 (b_2 temp)) ⊕w tw T6 (w_1 (b_1 temp))
        ⊕w tw T7 (w_2 (b_0 temp)) ⊕w tw T8 (w_3 (b_3 temp)))
     (tw T5 (w_0 (b_3 temp)) ⊕w tw T6 (w_1 (b_2 temp))
        ⊕w tw T7 (w_2 (b_1 temp)) ⊕w tw T8 (w_3 (b_0 temp))).

Definition dec_last (temp : block) : block :=
  B4 (W4 (tb S5 (w_0 (b_0 temp))) (tb S5 (w_1 (b_3 temp)))
         (tb S5 (w_2 (b_2 temp))) (tb S5 (w_3 (b_1 temp))))
     (W4 (tb S5 (w_0 (b_1 temp))) (tb S5 (w_1 (b_0 temp)))
         (tb S5 (w_2 (b_3 temp))) (tb S5 (w_3 (b_2 temp))))
     (W4 (tb S5 (w_0 (b_2 temp))) (tb S5 (w_1 (b_1 temp)))
         (tb S5 (w_2 (b_0 temp))) (tb S5 (w_3 (b_3 temp))))
     (W4 (tb S5 (w_0 (b_3 temp))) (tb S5 (w_1 (b_2 temp)))
         (tb S5 (w_2 (b_1 temp))) (tb S5 (w_3 (b_0 temp)))).

(** [for(r = m_uRounds-1; r > 1; r--)]: the rounds with keys [n + 1, .., 2]. *)
Definition dec_rounds (n : nat) (ek : list word4) (b : block) : block :=
  for_down (λ r b, dec_round (b ⊕b round_key ek r)) n 2 b.

Definition RijndaelDecrypt (rj : Rijndael) (a : block) : block :=
  let ek := m_expandedKey rj in
  let R := m_uRounds rj in
  let b := dec_round (a ⊕b round_key ek R) in
  let b := dec_rounds (R - 2) ek b in
  let b := dec_last (b ⊕b round_key ek 1) in
  b ⊕b round_key ek 0.
