(* ===== verification/RijndaelSpec.v ===== *)
(** * FIPS-197: the abstract specification of the block cipher

    The Advanced Encryption Standard written from its definition: arithmetic in
    GF(2^8), the S-box as an inverse followed by an affine map, the four round
    transformations, the cipher and the key expansion. Nothing here uses the
    tables of rijndael.c; RijndaelCipher.v proves that the table code implements
    it. *)
From S2P Require Import Prelude RijndaelTables Rijndael.
Local Open Scope Z_scope.
Local Open Scope sqlc_scope.

(** ** GF(2^8), modulo x^8 + x^4 + x^3 + x + 1 *)

Definition xtime (x : Z) : Z :=
  Z.lxor (Z.land (2 * x) 255) (if Z.testbit x 7 then 0x1b else 0).

(** [gmul_n n c x]: the product of the low [n] bits of [c] with [x]. *)
Fixpoint gmul_n (n : nat) (c x : Z) : Z :=
  match n with
  | O => 0
  | S n' => Z.lxor (if Z.odd c then x else 0) (gmul_n n' (Z.div2 c) (xtime x))
  end.

Definition gmul (c x : Z) : Z := gmul_n 8 c x.

(** [x ^ 254], the inverse of [x], and 0 for 0. *)
Definition ginv (x : Z) : Z :=
  let x2 := gmul x x in
  let x3 := gmul x2 x in
  let x6 := gmul x3 x3 in
  let x7 := gmul x6 x in
  let x14 := gmul x7 x7 in
  let x15 := gmul x14 x in
  let x30 := gmul x15 x15 in
  let x31 := gmul x30 x in
  let x62 := gmul x31 x31 in
  let x63 := gmul x62 x in
  let x126 := gmul x63 x63 in
  let x127 := gmul x126 x in
  gmul x127 x127.

Definition rotl8 (x n : Z) : Z :=
  Z.lor (Z.land (Z.shiftl x n) 255) (Z.shiftr x (8 - n)).

Definition sbox (x : Z) : Z :=
  let y := ginv x in
  Z.lxor (Z.lxor (Z.lxor (Z.lxor (Z.lxor y (rotl8 y 1)) (rotl8 y 2)) (rotl8 y 3)) (rotl8 y 4))
    0x63.

(** ** Round transformations *)

Definition word_map (f : Z → Z) (w : word4) : word4 :=
  W4 (f (w_0 w)) (f (w_1 w)) (f (w_2 w)) (f (w_3 w)).

Definition block_map (f : word4 → word4) (b : block) : block :=
  B4 (f (b_0 b)) (f (b_1 b)) (f (b_2 b)) (f (b_3 b)).

Definition SubBytes (b : block) : block := block_map (word_map sbox) b.

(** Row [r] of the state, the bytes [w_r], moves [r] columns to the left. *)
Definition ShiftRows (b : block) : block :=
  B4 (W4 (w_0 (b_0 b)) (w_1 (b_1 b)) (w_2 (b_2 b)) (w_3 (b_3 b)))
     (W4 (w_0 (b_1 b)) (w_1 (b_2 b)) (w_2 (b_3 b)) (w_3 (b_0 b)))
     (W4 (w_0 (b_2 b)) (w_1 (b_3 b)) (w_2 (b_0 b)) (w_3 (b_1 b)))
     (W4 (w_0 (b_3 b)) (w_1 (b_0 b)) (w_2 (b_1 b)) (w_3 (b_2 b))).

Definition InvShiftRows (b : block) : block :=
  B4 (W4 (w_0 (b_0 b)) (w_1 (b_3 b)) (w_2 (b_2 b)) (w_3 (b_1 b)))
     (W4 (w_0 (b_1 b)) (w_1 (b_0 b)) (w_2 (b_3 b)) (w_3 (b_2 b)))
     (W4 (w_0 (b_2 b)) (w_1 (b_1 b)) (w_2 (b_0 b)) (w_3 (b_3 b)))
     (W4 (w_0 (b_3 b)) (w_1 (b_2 b)) (w_2 (b_1 b)) (w_3 (b_0 b))).

(** A column multiplied by the circulant matrix with first column
    [(a0, a1, a2, a3)]. *)
Definition circ (a0 a1 a2 a3 : Z) (c : word4) : word4 :=
  W4 (gmul a0 (w_0 c)) (gmul a1 (w_0 c)) (gmul a2 (w_0 c)) (gmul a3 (w_0 c))
  ⊕w W4 (gmul a3 (w_1 c)) (gmul a0 (w_1 c)) (gmul a1 (w_1 c)) (gmul a2 (w_1 c))
  ⊕w W4 (gmul a2 (w_2 c)) (gmul a3 (w_2 c)) (gmul a0 (w_2 c)) (gmul a1 (w_2 c))
  ⊕w W4 (gmul a1 (w_3 c)) (gmul a2 (w_3 c)) (gmul a3 (w_3 c)) (gmul a0 (w_3 c)).

Definition mix_column : word4 → word4 := circ 2 1 1 3.
Definition inv_mix_column : word4 → word4 := circ 14 9 13 11.

Definition MixColumns : block → block := block_map mix_column.
Definition InvMixColumns : block → block := block_map inv_mix_column.

(** ** The cipher: [Cipher(in, out, w)] with [R] rounds *)

Definition spec_rounds (n : nat) (w : list word4) (st : block) : block :=
  for_up (λ r st, MixColumns (ShiftRows (SubBytes st)) ⊕b round_key w r) n 1 st.

Definition Cipher (R : nat) (w : list word4) (st : block) : block :=
  let st := st ⊕b round_key w 0 in
  let st := spec_rounds (R - 1) w st in
  ShiftRows (SubBytes st) ⊕b round_key w R.

(** ** The key expansion *)

Definition SubWord : word4 → word4 := word_map sbox.
Definition RotWord (w : word4) : word4 := W4 (w_1 w) (w_2 w) (w_3 w) (w_0 w).

(** [x ^ (i - 1)] in GF(2^8), for [i] from 1 on. *)
Definition Rcon (i : nat) : word4 := W4 (Nat.iter (i - 1) xtime 1) 0 0 0.

(** The word [w[i]] from the words before it. *)
Definition expand_word (Nk i : nat) (w : list word4) : word4 :=
  let temp := kw w (i - 1) in
  let temp :=
    if (i mod Nk =? 0)%nat then SubWord (RotWord temp) ⊕w Rcon (i / Nk)
    else if (6 <? Nk)%nat && (i mod Nk =? 4)%nat then SubWord temp
    else temp in
  kw w (i - Nk) ⊕w temp.

(** [n] further words. *)
Fixpoint expand (Nk n : nat) (w : list word4) : list word4 :=
  match n with
  | O => w
  | S n' => expand Nk n' (w ++ [expand_word Nk (length w) w])
  end.

Definition KeyExpansion (Nk R : nat) (key : list word4) : list word4 :=
  expand Nk (4 * (R + 1) - Nk) (take Nk key).
