(* ===== verification/RijndaelApi.v ===== *)
(** * rijndael.c: initialisation and the block, padding and CFB modes

    The functions of the API section of rijndael.c, on byte memory. A pointer
    that the source tests against 0 is an [option nat]. A result is the C return
    value with the memory after the call (and the cipher object, where the call
    changes it). *)
From S2P Require Import Prelude RijndaelTables Rijndael.
Local Open Scope Z_scope.
Local Open Scope sqlc_scope.

(** ** Initialisation *)

Definition RijndaelCreate (rj : Rijndael) : Rijndael := set_state rj RIJNDAEL_State_Invalid.

Definition RijndaelInvalidate (rj : Rijndael) : Rijndael := set_state rj RIJNDAEL_State_Invalid.

Definition zero_iv : block := B4 w_zero w_zero w_zero w_zero.

(** The key length in bytes and the number of rounds of a [keyLen] constant. *)
Definition key_params (keyLen : Z) : option (nat * nat) :=
  if keyLen =? RIJNDAEL_Direction_KeyLength_Key16Bytes then Some (16, 10)%nat
  else if keyLen =? RIJNDAEL_Direction_KeyLength_Key24Bytes then Some (24, 12)%nat
  else if keyLen =? RIJNDAEL_Direction_KeyLength_Key32Bytes then Some (32, 14)%nat
  else None.

(** [keyMatrix[i >> 2][i & 3] = key[i]] for [i < uKeyLenInBytes]: the first
    [n] words of the key. *)
Definition key_matrix (key : list Z) (n : nat) : list word4 :=
  (λ i, load4 key (4 * i)) <$> seq 0 n.

Definition RijndaelInit (rj : Rijndael) (mode dir : Z) (key : option (list Z))
    (keyLen : Z) (initVector : option (list Z)) : Z * Rijndael :=
  let rj := set_state rj RIJNDAEL_State_Invalid in
  if negb (mode =? RIJNDAEL_Direction_Mode_CBC)
     && negb (mode =? RIJNDAEL_Direction_Mode_ECB)
     && negb (mode =? RIJNDAEL_Direction_Mode_CFB1)
  then (RIJNDAEL_UNSUPPORTED_MODE, rj) else
  let rj := set_mode rj mode in
  if negb (dir =? RIJNDAEL_Direction_Encrypt) && negb (dir =? RIJNDAEL_Direction_Decrypt)
  then (RIJNDAEL_UNSUPPORTED_DIRECTION, rj) else
  let rj := set_direction rj dir in
  let rj := set_initVector rj
    match initVector with Some iv => load16 iv 0 | None => zero_iv end in
  match key_params keyLen with
  | None => (RIJNDAEL_UNSUPPORTED_KEY_LENGTH, rj)
  | Some (uKeyLenInBytes, uRounds) =>
      let rj := set_uRounds rj uRounds in
      match key with
      | None => (RIJNDAEL_BAD_KEY, rj)
      | Some key =>
          let rj := RijndaelKeySched rj (key_matrix key (uKeyLenInBytes / 4)) in
          let rj := if m_direction rj =? RIJNDAEL_Direction_Decrypt
                    then RijndaelKeyEncToDec rj else rj in
          (RIJNDAEL_SUCCESS, set_state rj RIJNDAEL_State_Valid)
      end
  end.

(** ** Whole blocks *)

(** The ECB loop, [n] blocks, with the block function [f]. *)
Fixpoint ecb_loop (f : block → block) (n : nat) (mem : list Z)
    (input outBuffer : nat) : list Z :=
  match n with
  | O => mem
  | S n' => ecb_loop f n' (store16 mem outBuffer (f (load16 mem input)))
              (input + 16) (outBuffer + 16)
  end.

(** The loop of CBC encryption after its first block: the previous block of
    ciphertext is read back from the output. *)
Fixpoint cbc_enc_loop (rj : Rijndael) (n : nat) (mem : list Z)
    (input outBuffer : nat) : list Z :=
  match n with
  | O => mem
  | S n' =>
      let block := load16 mem outBuffer ⊕b load16 mem input in
      let outBuffer := (outBuffer + 16)%nat in
      cbc_enc_loop rj n' (store16 mem outBuffer (RijndaelEncrypt rj block))
        (input + 16) outBuffer
  end.

(** The loop of CBC decryption: [iv] is read from the input before the output is
    written, so that the two may be one buffer. *)
Fixpoint cbc_dec_loop (rj : Rijndael) (n : nat) (iv : block) (mem : list Z)
    (input outBuffer : nat) : list Z :=
  match n with
  | O => mem
  | S n' =>
      let block := RijndaelDecrypt rj (load16 mem input) ⊕b iv in
      let iv := load16 mem input in
      cbc_dec_loop rj n' iv (store16 mem outBuffer block) (input + 16) (outBuffer + 16)
  end.

(** One bit to the left through the 16 bytes of [iv]; [bit] enters at the right. *)
Fixpoint shl_bytes (l : list Z) (bit : Z) : list Z :=
  match l with
  | [] => []
  | [x] => [u8 (Z.lor (Z.shiftl x 1) bit)]
  | x :: ((y :: _) as l') => u8 (Z.lor (Z.shiftl x 1) (Z.shiftr y 7)) :: shl_bytes l' bit
  end.

Definition shl_iv (iv : block) (bit : Z) : block := load16 (shl_bytes (block_bytes iv) bit) 0.

(** [outBuffer[k/8] ^= (block[0] & 0x80) >> (k & 7)]. *)
Definition xor_bit (mem : list Z) (outBuffer k : nat) (block : block) : list Z :=
  let p := (outBuffer + k / 8)%nat in
  <[p := Z.lxor (nth p mem 0)
           (Z.shiftr (Z.land (w_0 (b_0 block)) 0x80) (Z.of_nat (k mod 8)))]> mem.

(** [(buf[k/8] >> (7-(k&7))) & 1]. *)
Definition get_bit (mem : list Z) (buf k : nat) : Z :=
  Z.land (Z.shiftr (nth (buf + k / 8) mem 0) (7 - Z.of_nat (k mod 8))) 1.

(** The loops [for(k = 0; k < 128; k++)] of CFB1, [n] bits from bit [k] on. The
    buffers do not advance with [i] in the source. *)
Fixpoint cfb1_enc_bits (rj : Rijndael) (n k : nat) (iv : block) (mem : list Z)
    (outBuffer : nat) : block * list Z :=
  match n with
  | O => (iv, mem)
  | S n' =>
      let block := RijndaelEncrypt rj iv in
      let mem := xor_bit mem outBuffer k block in
      cfb1_enc_bits rj n' (S k) (shl_iv iv (get_bit mem outBuffer k)) mem outBuffer
  end.

Fixpoint cfb1_dec_bits (rj : Rijndael) (n k : nat) (iv : block) (mem : list Z)
    (input outBuffer : nat) : block * list Z :=
  match n with
  | O => (iv, mem)
  | S n' =>
      let block := RijndaelEncrypt rj iv in
      let iv := shl_iv iv (get_bit mem input k) in
      cfb1_dec_bits rj n' (S k) iv (xor_bit mem outBuffer k block) input outBuffer
  end.

(** [for(i = numBlocks; i > 0; i--)] around the bit loops. *)
Fixpoint cfb1_enc_loop (rj : Rijndael) (n : nat) (iv : block) (mem : list Z)
    (outBuffer : nat) : list Z :=
  match n with
  | O => mem
  | S n' => let '(iv, mem) := cfb1_enc_bits rj 128 0 iv mem outBuffer in
            cfb1_enc_loop rj n' iv mem outBuffer
  end.

Fixpoint cfb1_dec_loop (rj : Rijndael) (n : nat) (iv : block) (mem : list Z)
    (input outBuffer : nat) : list Z :=
  match n with
  | O => mem
  | S n' => let '(iv, mem) := cfb1_dec_bits rj 128 0 iv mem input outBuffer in
            cfb1_dec_loop rj n' iv mem input outBuffer
  end.

Definition RijndaelBlockEncrypt (rj : Rijndael) (mem : list Z) (input : option nat)
    (inputLen : Z) (outBuffer : nat) : Z * list Z :=
  if negb (m_state rj =? RIJNDAEL_State_Valid) then (RIJNDAEL_NOT_INITIALIZED, mem) else
  if negb (m_direction rj =? RIJNDAEL_Direction_Encrypt)
  then (RIJNDAEL_BAD_DIRECTION, mem) else
  match input with
  | None => (0, mem)
  | Some input =>
      if inputLen <=? 0 then (0, mem) else
      let numBlocks := Z.to_nat (inputLen / 128) in
      let ok := (128 * Z.of_nat numBlocks) in
      if m_mode rj =? RIJNDAEL_Direction_Mode_ECB
      then (ok, ecb_loop (RijndaelEncrypt rj) numBlocks mem input outBuffer)
      else if m_mode rj =? RIJNDAEL_Direction_Mode_CBC
      then
        let block := m_initVector rj ⊕b load16 mem input in
        let mem := store16 mem outBuffer (RijndaelEncrypt rj block) in
        (ok, cbc_enc_loop rj (numBlocks - 1) mem (input + 16) outBuffer)
      else if m_mode rj =? RIJNDAEL_Direction_Mode_CFB1
      then (ok, cfb1_enc_loop rj numBlocks (m_initVector rj) mem outBuffer)
      else (-1, mem)
  end.

Definition RijndaelBlockDecrypt (rj : Rijndael) (mem : list Z) (input : option nat)
    (inputLen : Z) (outBuffer : nat) : Z * list Z :=
  if negb (m_state rj =? RIJNDAEL_State_Valid) then (RIJNDAEL_NOT_INITIALIZED, mem) else
  if negb (m_mode rj =? RIJNDAEL_Direction_Mode_CFB1)
     && (m_direction rj =? RIJNDAEL_Direction_Encrypt)
  then (RIJNDAEL_BAD_DIRECTION, mem) else
  match input with
  | None => (0, mem)
  | Some input =>
      if inputLen <=? 0 then (0, mem) else
      let numBlocks := Z.to_nat (inputLen / 128) in
      let ok := (128 * Z.of_nat numBlocks) in
      if m_mode rj =? RIJNDAEL_Direction_Mode_ECB
      then (ok, ecb_loop (RijndaelDecrypt rj) numBlocks mem input outBuffer)
      else if m_mode rj =? RIJNDAEL_Direction_Mode_CBC
      then (ok, cbc_dec_loop rj numBlocks (m_initVector rj) mem input outBuffer)
      else if m_mode rj =? RIJNDAEL_Direction_Mode_CFB1
      then (ok, cfb1_dec_loop rj numBlocks (m_initVector rj) mem input outBuffer)
      else (-1, mem)
  end.

(** ** Padding *)

(** The pointer [iv] of the padding functions: [m_initVector] until the first
    block is written, then the previous block of the output. *)
Definition read_iv (rj : Rijndael) (mem : list Z) (iv : option nat) : block :=
  match iv with None => m_initVector rj | Some p => load16 mem p end.

(** The CBC loop of [RijndaelPadEncrypt]; it returns the three pointers it moves. *)
Fixpoint pad_cbc_enc_loop (rj : Rijndael) (n : nat) (iv : option nat) (mem : list Z)
    (input outBuffer : nat) : option nat * list Z :=
  match n with
  | O => (iv, mem)
  | S n' =>
      let block := load16 mem input ⊕b read_iv rj mem iv in
      let mem := store16 mem outBuffer (RijndaelEncrypt rj block) in
      pad_cbc_enc_loop rj n' (Some outBuffer) mem (input + 16) (outBuffer + 16)
  end.

(** The last block before padding: [m] bytes of the input, then [padLen]. *)
Definition pad_block (mem : list Z) (input m : nat) (padLen : Z) : list Z :=
  take m (drop input mem) ++ replicate (16 - m) padLen.

(** [inputOctets] is an [int], and so is what is returned: [16*(numBlocks + 1)]
    overflows from [2^31 - 16] octets on, which C leaves undefined and which wraps
    here. *)
Definition RijndaelPadEncrypt (rj : Rijndael) (mem : list Z) (input : option nat)
    (inputOctets : Z) (outBuffer : nat) : Z * list Z :=
  if negb (m_state rj =? RIJNDAEL_State_Valid) then (RIJNDAEL_NOT_INITIALIZED, mem) else
  if negb (m_direction rj =? RIJNDAEL_Direction_Encrypt)
  then (RIJNDAEL_NOT_INITIALIZED, mem) else
  match input with
  | None => (0, mem)
  | Some input =>
      if inputOctets <=? 0 then (0, mem) else
      let numBlocks := Z.to_nat (inputOctets / 16) in
      let padLen := 16 - (inputOctets - 16 * Z.of_nat numBlocks) in
      let m := Z.to_nat (16 - padLen) in
      let ok := s32 (16 * (Z.of_nat numBlocks + 1)) in
      let input' := (input + 16 * numBlocks)%nat in
      let out' := (outBuffer + 16 * numBlocks)%nat in
      if m_mode rj =? RIJNDAEL_Direction_Mode_ECB
      then
        let mem := ecb_loop (RijndaelEncrypt rj) numBlocks mem input outBuffer in
        let block := load16 (pad_block mem input' m padLen) 0 in
        (ok, store16 mem out' (RijndaelEncrypt rj block))
      else if m_mode rj =? RIJNDAEL_Direction_Mode_CBC
      then
        let '(iv, mem) := pad_cbc_enc_loop rj numBlocks None mem input outBuffer in
        let block := load16 (pad_block mem input' m padLen) 0 ⊕b read_iv rj mem iv in
        (ok, store16 mem out' (RijndaelEncrypt rj block))
      else (-1, mem)
  end.

(** [for(i = 16 - padLen; i < 16; i++) if (block[i] != padLen) return ...]. *)
Definition padding_ok (block : list Z) (padLen : Z) : bool :=
  forallb (λ x, x =? padLen) (drop (Z.to_nat (16 - padLen)) block).

(** The CBC loop of [RijndaelPadDecrypt] over all blocks but the last; it returns
    [iv] as well. *)
Fixpoint pad_cbc_dec_loop (rj : Rijndael) (n : nat) (iv : block) (mem : list Z)
    (input outBuffer : nat) : block * list Z :=
  match n with
  | O => (iv, mem)
  | S n' =>
      let block := RijndaelDecrypt rj (load16 mem input) ⊕b iv in
      let iv := load16 mem input in
      pad_cbc_dec_loop rj n' iv (store16 mem outBuffer block) (input + 16) (outBuffer + 16)
  end.

Definition RijndaelPadDecrypt (rj : Rijndael) (mem : list Z) (input : option nat)
    (inputOctets : Z) (outBuffer : nat) : Z * list Z :=
  if negb (m_state rj =? RIJNDAEL_State_Valid) then (RIJNDAEL_NOT_INITIALIZED, mem) else
  if negb (m_direction rj =? RIJNDAEL_Direction_Decrypt)
  then (RIJNDAEL_BAD_DIRECTION, mem) else
  match input with
  | None => (0, mem)
  | Some input =>
      if inputOctets <=? 0 then (0, mem) else
      if negb (inputOctets `mod` 16 =? 0) then (RIJNDAEL_CORRUPTED_DATA, mem) else
      let numBlocks := Z.to_nat (inputOctets / 16) in
      let input' := (input + 16 * (numBlocks - 1))%nat in
      let out' := (outBuffer + 16 * (numBlocks - 1))%nat in
      if m_mode rj =? RIJNDAEL_Direction_Mode_ECB
      then
        let mem := ecb_loop (RijndaelDecrypt rj) (numBlocks - 1) mem input outBuffer in
        let block := block_bytes (RijndaelDecrypt rj (load16 mem input')) in
        let padLen := nth 15 block 0 in
        if 16 <=? padLen then (RIJNDAEL_CORRUPTED_DATA, mem) else
        if negb (padding_ok block padLen) then (RIJNDAEL_CORRUPTED_DATA, mem) else
        (16 * Z.of_nat numBlocks - padLen,
         list_inserts out' (take (Z.to_nat (16 - padLen)) block) mem)
      else if m_mode rj =? RIJNDAEL_Direction_Mode_CBC
      then
        let '(iv, mem) :=
          pad_cbc_dec_loop rj (numBlocks - 1) (m_initVector rj) mem input outBuffer in
        let block := block_bytes (RijndaelDecrypt rj (load16 mem input') ⊕b iv) in
        let padLen := nth 15 block 0 in
        if (padLen <=? 0) || (16 <? padLen) then (RIJNDAEL_CORRUPTED_DATA, mem) else
        if negb (padding_ok block padLen) then (RIJNDAEL_CORRUPTED_DATA, mem) else
        (16 * Z.of_nat numBlocks - padLen,
         list_inserts out' (take (Z.to_nat (16 - padLen)) block) mem)
      else (-1, mem)
  end.
