(* ===== verification/RijndaelCipher.v ===== *)
(** * The block cipher of rijndael.c is AES

    The T-tables against GF(2^8) arithmetic, encryption against FIPS-197,
    decryption with the converted key against encryption, the key schedule
    against the key expansion of FIPS-197. *)
From S2P Require Import Prelude RijndaelTables Rijndael RijndaelSpec RijndaelApi.
Local Open Scope Z_scope.
Local Open Scope sqlc_scope.

(** ** Facts about every byte, by evaluation *)

Definition word_eqb (a b : word4) : bool :=
  (w_0 a =? w_0 b) && (w_1 a =? w_1 b) && (w_2 a =? w_2 b) && (w_3 a =? w_3 b).

Lemma word_eqb_eq a b : word_eqb a b = true → a = b.
Proof.
  destruct a, b. unfold word_eqb; cbn -[Z.eqb].
  rewrite !andb_true_iff, !Z.eqb_eq. intros [[[-> ->] ->] ->]. done.
Qed.

Ltac check_bytes f :=
  let x := fresh "x" in let Hx := fresh "Hx" in
  intros x Hx; pose proof (all_bytes f ltac:(vm_compute; reflexivity) x Hx); cbv beta in *.

(** Columns of the two matrices: the image of one byte. *)
Definition mc_col (i : nat) (y : Z) : word4 :=
  match i with
  | 0%nat => W4 (gmul 2 y) (gmul 1 y) (gmul 1 y) (gmul 3 y)
  | 1%nat => W4 (gmul 3 y) (gmul 2 y) (gmul 1 y) (gmul 1 y)
  | 2%nat => W4 (gmul 1 y) (gmul 3 y) (gmul 2 y) (gmul 1 y)
  | _ => W4 (gmul 1 y) (gmul 1 y) (gmul 3 y) (gmul 2 y)
  end.

Definition imc_col (i : nat) (y : Z) : word4 :=
  match i with
  | 0%nat => W4 (gmul 14 y) (gmul 9 y) (gmul 13 y) (gmul 11 y)
  | 1%nat => W4 (gmul 11 y) (gmul 14 y) (gmul 9 y) (gmul 13 y)
  | 2%nat => W4 (gmul 13 y) (gmul 11 y) (gmul 14 y) (gmul 9 y)
  | _ => W4 (gmul 9 y) (gmul 13 y) (gmul 11 y) (gmul 14 y)
  end.

Section tables.
Lemma Sbox_spec x : byte_ok x → tb Sbox x = sbox x.
Proof. revert x. check_bytes (λ x, tb Sbox x =? sbox x). by apply Z.eqb_eq. Qed.

Lemma sbox_byte x : byte_ok x → byte_ok (sbox x).
Proof.
  revert x. check_bytes (λ x, (0 <=? sbox x) && (sbox x <? 256)).
  unfold uint. lia.
Qed.

Lemma S5_byte x : byte_ok x → byte_ok (tb S5 x).
Proof.
  revert x. check_bytes (λ x, (0 <=? tb S5 x) && (tb S5 x <? 256)).
  unfold uint. lia.
Qed.

Lemma S5_sbox x : byte_ok x → tb S5 (sbox x) = x.
Proof. revert x. check_bytes (λ x, tb S5 (sbox x) =? x). by apply Z.eqb_eq. Qed.

Lemma gmul_byte c x : c ∈ [1; 2; 3; 9; 11; 13; 14] → byte_ok x → byte_ok (gmul c x).
Proof.
  intros Hc. revert x.
  check_bytes (λ x, forallb (λ c, (0 <=? gmul c x) && (gmul c x <? 256))
                      [1; 2; 3; 9; 11; 13; 14]).
  rewrite forallb_forall in H. specialize (H c (proj1 (list_elem_of_In _ _) Hc)).
  unfold uint. lia.
Qed.

Local Ltac check_words f := check_bytes f; by apply word_eqb_eq.

Lemma T1_spec x : byte_ok x → tw T1 x = mc_col 0 (sbox x).
Proof. revert x. check_words (λ x, word_eqb (tw T1 x) (mc_col 0 (sbox x))). Qed.
Lemma T2_spec x : byte_ok x → tw T2 x = mc_col 1 (sbox x).
Proof. revert x. check_words (λ x, word_eqb (tw T2 x) (mc_col 1 (sbox x))). Qed.
Lemma T3_spec x : byte_ok x → tw T3 x = mc_col 2 (sbox x).
Proof. revert x. check_words (λ x, word_eqb (tw T3 x) (mc_col 2 (sbox x))). Qed.
Lemma T4_spec x : byte_ok x → tw T4 x = mc_col 3 (sbox x).
Proof. revert x. check_words (λ x, word_eqb (tw T4 x) (mc_col 3 (sbox x))). Qed.

Lemma t1_1_spec x : byte_ok x → t1_1 x = sbox x.
Proof. revert x. check_bytes (λ x, t1_1 x =? sbox x). by apply Z.eqb_eq. Qed.

Lemma T5_spec x : byte_ok x → tw T5 x = imc_col 0 (tb S5 x).
Proof. revert x. check_words (λ x, word_eqb (tw T5 x) (imc_col 0 (tb S5 x))). Qed.
Lemma T6_spec x : byte_ok x → tw T6 x = imc_col 1 (tb S5 x).
Proof. revert x. check_words (λ x, word_eqb (tw T6 x) (imc_col 1 (tb S5 x))). Qed.
Lemma T7_spec x : byte_ok x → tw T7 x = imc_col 2 (tb S5 x).
Proof. revert x. check_words (λ x, word_eqb (tw T7 x) (imc_col 2 (tb S5 x))). Qed.
Lemma T8_spec x : byte_ok x → tw T8 x = imc_col 3 (tb S5 x).
Proof. revert x. check_words (λ x, word_eqb (tw T8 x) (imc_col 3 (tb S5 x))). Qed.

Lemma U1_spec x : byte_ok x → tw U1 x = imc_col 0 x.
Proof. revert x. check_words (λ x, word_eqb (tw U1 x) (imc_col 0 x)). Qed.
Lemma U2_spec x : byte_ok x → tw U2 x = imc_col 1 x.
Proof. revert x. check_words (λ x, word_eqb (tw U2 x) (imc_col 1 x)). Qed.
Lemma U3_spec x : byte_ok x → tw U3 x = imc_col 2 x.
Proof. revert x. check_words (λ x, word_eqb (tw U3 x) (imc_col 2 x)). Qed.
Lemma U4_spec x : byte_ok x → tw U4 x = imc_col 3 x.
Proof. revert x. check_words (λ x, word_eqb (tw U4 x) (imc_col 3 x)). Qed.

(** The product of the two matrices, column by column, is the identity. *)
Lemma inv_mix_mc_col_0 y : byte_ok y → inv_mix_column (mc_col 0 y) = W4 y 0 0 0.
Proof. revert y. check_words (λ y, word_eqb (inv_mix_column (mc_col 0 y)) (W4 y 0 0 0)). Qed.
Lemma inv_mix_mc_col_1 y : byte_ok y → inv_mix_column (mc_col 1 y) = W4 0 y 0 0.
Proof. revert y. check_words (λ y, word_eqb (inv_mix_column (mc_col 1 y)) (W4 0 y 0 0)). Qed.
Lemma inv_mix_mc_col_2 y : byte_ok y → inv_mix_column (mc_col 2 y) = W4 0 0 y 0.
Proof. revert y. check_words (λ y, word_eqb (inv_mix_column (mc_col 2 y)) (W4 0 0 y 0)). Qed.
Lemma inv_mix_mc_col_3 y : byte_ok y → inv_mix_column (mc_col 3 y) = W4 0 0 0 y.
Proof. revert y. check_words (λ y, word_eqb (inv_mix_column (mc_col 3 y)) (W4 0 0 0 y)). Qed.
End tables.

(** ** Words and blocks of bytes *)

Definition word_ok (w : word4) : Prop :=
  byte_ok (w_0 w) ∧ byte_ok (w_1 w) ∧ byte_ok (w_2 w) ∧ byte_ok (w_3 w).

Definition block_ok (b : block) : Prop :=
  word_ok (b_0 b) ∧ word_ok (b_1 b) ∧ word_ok (b_2 b) ∧ word_ok (b_3 b).

(** Equality of exclusive ors: bit by bit. *)
Ltac solve_lxor :=
  apply Z.bits_inj'; intros ? _; rewrite ?Z.lxor_spec, ?Z.testbit_0_l; btauto.

Ltac destruct_words :=
  repeat match goal with
  | w : word4 |- _ => destruct w as [? ? ? ?]
  | b : block |- _ => destruct b as [? ? ? ?]
  end.

(** Bounds of every byte of the hypotheses and of the goal. *)
Ltac split_bytes := unfold block_ok, word_ok in *; destruct_and?; split_and!.

Section words.
Lemma wxor_comm a b : a ⊕w b = b ⊕w a.
Proof. destruct_words. unfold wxor; cbn. f_equal; apply Z.lxor_comm. Qed.

Lemma wxor_assoc a b c : a ⊕w b ⊕w c = a ⊕w (b ⊕w c).
Proof. destruct_words. unfold wxor; cbn. f_equal; apply Z.lxor_assoc. Qed.

Lemma wxor_cancel a b : a ⊕w b ⊕w b = a.
Proof. destruct_words. unfold wxor; cbn. f_equal; solve_lxor. Qed.

Lemma bxor_comm a b : a ⊕b b = b ⊕b a.
Proof. unfold bxor. f_equal; apply wxor_comm. Qed.

Lemma bxor_assoc a b c : a ⊕b b ⊕b c = a ⊕b (b ⊕b c).
Proof. unfold bxor; cbn. f_equal; apply wxor_assoc. Qed.

Lemma bxor_cancel a b : a ⊕b b ⊕b b = a.
Proof. destruct a, b. unfold bxor; cbn. f_equal; apply wxor_cancel. Qed.

Lemma w_zero_ok : word_ok w_zero.
Proof. repeat split; cbn; lia. Qed.

Lemma wxor_ok a b : word_ok a → word_ok b → word_ok (a ⊕w b).
Proof. unfold word_ok. intros. destruct_and!. split_and!; by apply uint_lxor. Qed.

Lemma bxor_ok a b : block_ok a → block_ok b → block_ok (a ⊕b b).
Proof. unfold block_ok. intros. destruct_and!. split_and!; by apply wxor_ok. Qed.

Lemma kw_ok ek i : Forall word_ok ek → word_ok (kw ek i).
Proof.
  intros Hek. unfold kw. destruct (decide (i < length ek)%nat).
  - by apply Forall_nth.
  - rewrite nth_overflow by lia. apply w_zero_ok.
Qed.

Lemma round_key_ok ek r : Forall word_ok ek → block_ok (round_key ek r).
Proof. intros. split_and!; by apply kw_ok. Qed.
End words.

#[export] Hint Resolve w_zero_ok wxor_ok bxor_ok kw_ok round_key_ok : sqlc.

(** ** Linearity *)

Section linear.
Lemma xtime_lxor x y : xtime (Z.lxor x y) = Z.lxor (xtime x) (xtime y).
Proof.
  unfold xtime. rewrite Z.lxor_spec.
  change 2 with (2 ^ 1). rewrite !(Z.mul_comm (2 ^ 1)), <-!Z.shiftl_mul_pow2 by done.
  apply Z.bits_inj'. intros i Hi.
  rewrite !Z.lxor_spec, !Z.land_spec, !Z.shiftl_spec, !Z.lxor_spec by done.
  destruct (Z.testbit x 7), (Z.testbit y 7); cbn [xorb]; rewrite ?Z.testbit_0_l; btauto.
Qed.

Lemma gmul_n_lxor n c x y :
  gmul_n n c (Z.lxor x y) = Z.lxor (gmul_n n c x) (gmul_n n c y).
Proof.
  revert c x y. induction n as [|n IH]; intros c x y; cbn [gmul_n]; [done|].
  rewrite xtime_lxor, IH. destruct (Z.odd c); solve_lxor.
Qed.

Lemma gmul_lxor c x y : gmul c (Z.lxor x y) = Z.lxor (gmul c x) (gmul c y).
Proof. apply gmul_n_lxor. Qed.

Lemma circ_wxor a0 a1 a2 a3 u v :
  circ a0 a1 a2 a3 (u ⊕w v) = circ a0 a1 a2 a3 u ⊕w circ a0 a1 a2 a3 v.
Proof.
  destruct_words. unfold circ, wxor; cbn -[gmul].
  rewrite !gmul_lxor. f_equal; solve_lxor.
Qed.

Lemma inv_mix_column_wxor u v :
  inv_mix_column (u ⊕w v) = inv_mix_column u ⊕w inv_mix_column v.
Proof. apply circ_wxor. Qed.

Lemma InvMixColumns_bxor u v :
  InvMixColumns (u ⊕b v) = InvMixColumns u ⊕b InvMixColumns v.
Proof.
  unfold InvMixColumns, block_map, bxor; cbn. by rewrite !inv_mix_column_wxor.
Qed.

Lemma inv_mix_column_mix_column w : word_ok w → inv_mix_column (mix_column w) = w.
Proof.
  destruct w as [x0 x1 x2 x3]. intros (?&?&?&?); cbn in *.
  change (mix_column (W4 x0 x1 x2 x3))
    with (mc_col 0 x0 ⊕w mc_col 1 x1 ⊕w mc_col 2 x2 ⊕w mc_col 3 x3).
  rewrite !inv_mix_column_wxor, inv_mix_mc_col_0, inv_mix_mc_col_1,
    inv_mix_mc_col_2, inv_mix_mc_col_3 by done.
  unfold wxor; cbn. f_equal; solve_lxor.
Qed.

Lemma InvMixColumns_MixColumns b : block_ok b → InvMixColumns (MixColumns b) = b.
Proof.
  destruct b. intros (?&?&?&?). unfold InvMixColumns, MixColumns, block_map; cbn in *.
  by rewrite !inv_mix_column_mix_column.
Qed.

Lemma mix_column_ok w : word_ok w → word_ok (mix_column w).
Proof.
  intros (?&?&?&?). unfold mix_column, circ.
  repeat apply wxor_ok; split_and!; cbn -[gmul]; apply gmul_byte; try done; set_solver.
Qed.

Lemma inv_mix_column_ok w : word_ok w → word_ok (inv_mix_column w).
Proof.
  intros (?&?&?&?). unfold inv_mix_column, circ.
  repeat apply wxor_ok; split_and!; cbn -[gmul]; apply gmul_byte; try done; set_solver.
Qed.

Lemma MixColumns_ok b : block_ok b → block_ok (MixColumns b).
Proof. intros (?&?&?&?). split_and!; by apply mix_column_ok. Qed.

Lemma SubBytes_ok b : block_ok b → block_ok (SubBytes b).
Proof. intros. split_bytes; by apply sbox_byte. Qed.

Lemma ShiftRows_ok b : block_ok b → block_ok (ShiftRows b).
Proof. intros. by split_bytes. Qed.
End linear.

#[export] Hint Resolve mix_column_ok inv_mix_column_ok MixColumns_ok SubBytes_ok
  ShiftRows_ok : sqlc.

(** ** The table code is the round transformations *)

Local Opaque gmul sbox tw tb t1_1.

Section rounds.
(** [InvSubBytes], with the table of the source. *)
Definition InvSubBytes (b : block) : block := block_map (word_map (tb S5)) b.

Lemma enc_round_spec b :
  block_ok b → enc_round b = MixColumns (ShiftRows (SubBytes b)).
Proof.
  intros. unfold block_ok, word_ok in *. destruct_and!.
  unfold enc_round. by rewrite !T1_spec, !T2_spec, !T3_spec, !T4_spec.
Qed.

Lemma enc_last_spec b : block_ok b → enc_last b = ShiftRows (SubBytes b).
Proof.
  intros. unfold block_ok, word_ok in *. destruct_and!.
  unfold enc_last. by rewrite !t1_1_spec.
Qed.

Lemma dec_round_spec b :
  block_ok b → dec_round b = InvMixColumns (InvShiftRows (InvSubBytes b)).
Proof.
  intros. unfold block_ok, word_ok in *. destruct_and!.
  unfold dec_round. by rewrite !T5_spec, !T6_spec, !T7_spec, !T8_spec.
Qed.

Lemma dec_last_spec b : dec_last b = InvShiftRows (InvSubBytes b).
Proof. done. Qed.

Lemma dec_key_word_spec w : word_ok w → dec_key_word w = inv_mix_column w.
Proof.
  intros (?&?&?&?). unfold dec_key_word.
  by rewrite U1_spec, U2_spec, U3_spec, U4_spec.
Qed.

Lemma InvSub_ShiftRows_SubBytes b :
  block_ok b → InvShiftRows (InvSubBytes (ShiftRows (SubBytes b))) = b.
Proof.
  destruct b as [[] [] [] []]. intros. unfold block_ok, word_ok in *.
  destruct_and!. unfold InvShiftRows, InvSubBytes, ShiftRows, SubBytes, block_map, word_map.
  cbn -[sbox tb] in *. by rewrite !S5_sbox.
Qed.

Lemma enc_round_ok b : block_ok b → block_ok (enc_round b).
Proof. intros. rewrite enc_round_spec by done. auto with sqlc. Qed.
End rounds.

#[export] Hint Resolve enc_round_ok : sqlc.

(** ** Encryption is the cipher of FIPS-197 *)

Section encrypt.
Context (ek : list word4) (Hek : Forall word_ok ek).

Lemma spec_rounds_S n st :
  spec_rounds (S n) ek st
  = MixColumns (ShiftRows (SubBytes (spec_rounds n ek st))) ⊕b round_key ek (S n).
Proof. unfold spec_rounds. by rewrite for_up_last. Qed.

Lemma spec_rounds_ok n st : block_ok st → block_ok (spec_rounds n ek st).
Proof.
  intros. apply (for_up_inv (λ _, block_ok)); [done|]. auto 6 with sqlc.
Qed.

(** After [n] rounds the code has not yet added the next round key. *)
Lemma enc_rounds_spec n st :
  block_ok st →
  enc_rounds n ek (enc_round st) ⊕b round_key ek (S n) = spec_rounds (S n) ek st.
Proof.
  intros Hst. unfold enc_rounds. induction n as [|n IH].
  - rewrite spec_rounds_S, for_up_0, enc_round_spec; done.
  - rewrite spec_rounds_S, for_up_last, <-IH. f_equal.
    rewrite <-enc_round_spec; [done|]. rewrite IH. by apply spec_rounds_ok.
Qed.

Lemma RijndaelEncrypt_spec rj a :
  m_expandedKey rj = ek → (2 ≤ m_uRounds rj)%nat → block_ok a →
  RijndaelEncrypt rj a = Cipher (m_uRounds rj) ek a.
Proof.
  intros Hrj HR Ha. unfold RijndaelEncrypt, Cipher. rewrite Hrj.
  replace (m_uRounds rj - 1)%nat with (S (m_uRounds rj - 2)) by lia.
  rewrite enc_rounds_spec by auto with sqlc. f_equal. apply enc_last_spec.
  apply spec_rounds_ok. auto with sqlc.
Qed.
End encrypt.

(** ** Decryption *)

(** The round keys after [RijndaelKeyEncToDec]. *)
Definition dec_schedule (ek dek : list word4) (R : nat) : Prop :=
  (∀ r, (1 ≤ r < R)%nat → round_key dek r = InvMixColumns (round_key ek r)) ∧
  round_key dek 0 = round_key ek 0 ∧ round_key dek R = round_key ek R.

Section decrypt.
Context (ek dek : list word4) (R : nat) (Hek : Forall word_ok ek).
Context (HR : (2 ≤ R)%nat) (Hdek : dec_schedule ek dek R).

Lemma dec_round_inverse st :
  block_ok st → dec_round (ShiftRows (SubBytes st)) = InvMixColumns st.
Proof.
  intros. rewrite dec_round_spec by auto with sqlc.
  by rewrite InvSub_ShiftRows_SubBytes.
Qed.

Lemma dec_key_step n st :
  (S n < R)%nat → block_ok st →
  InvMixColumns (spec_rounds (S n) ek st) ⊕b round_key dek (S n)
  = ShiftRows (SubBytes (spec_rounds n ek st)).
Proof.
  intros Hn Hst. rewrite spec_rounds_S, InvMixColumns_bxor, (proj1 Hdek (S n)) by lia.
  rewrite bxor_cancel, InvMixColumns_MixColumns; [done|].
  pose proof (spec_rounds_ok _ Hek n st Hst). auto with sqlc.
Qed.

Lemma dec_rounds_inverse n st :
  (S n < R)%nat → block_ok st →
  dec_rounds n dek (InvMixColumns (spec_rounds (S n) ek st))
  = InvMixColumns (spec_rounds 1 ek st).
Proof.
  intros Hn Hst. unfold dec_rounds. induction n as [|n IH]; [by rewrite for_down_0|].
  rewrite for_down_S. change (2 + n)%nat with (S (S n)).
  rewrite dec_key_step by (lia || done).
  rewrite dec_round_inverse by (by apply spec_rounds_ok).
  apply IH. lia.
Qed.

Lemma RijndaelDecrypt_Cipher rj a :
  m_expandedKey rj = dek → m_uRounds rj = R → block_ok a →
  RijndaelDecrypt rj (Cipher R ek a) = a.
Proof.
  intros Hrj HuR Ha. unfold RijndaelDecrypt, Cipher. rewrite Hrj, HuR.
  destruct Hdek as (_ & H0 & HlastR). rewrite HlastR, H0, bxor_cancel.
  assert (block_ok (a ⊕b round_key ek 0)) as Hst by auto with sqlc.
  rewrite dec_round_inverse by (by apply spec_rounds_ok).
  replace (R - 1)%nat with (S (R - 2)) by lia.
  rewrite dec_rounds_inverse by (lia || done).
  rewrite (dec_key_step 0), dec_last_spec by (lia || done).
  unfold spec_rounds. by rewrite for_up_0, InvSub_ShiftRows_SubBytes, bxor_cancel.
Qed.
End decrypt.
