(* ===== verification/RijndaelKey.v ===== *)
(** * The key schedule of rijndael.c is the key expansion of FIPS-197

    The three nested loops of [RijndaelKeySched] against the recurrence of the
    standard, for 16, 24 and 32 byte keys, and [RijndaelKeyEncToDec]. *)
From S2P Require Import Prelude RijndaelTables Rijndael RijndaelSpec RijndaelApi RijndaelCipher.
Local Open Scope Z_scope.
Local Open Scope sqlc_scope.

Local Opaque gmul sbox tw tb t1_1.

Lemma kw_insert_eq ek i w : (i < length ek)%nat → kw (<[i:=w]> ek) i = w.
Proof. apply nth_insert_eq. Qed.

Lemma kw_insert_ne ek i j w : i ≠ j → kw (<[i:=w]> ek) j = kw ek j.
Proof. apply nth_insert_ne. Qed.

(** ** The words of the expansion *)

Section expansion.
Context (Nk : nat) (key : list word4).
Context (HNk : (0 < Nk)%nat) (Hkey : length key = Nk).

Lemma length_expand n w : length (expand Nk n w) = (length w + n)%nat.
Proof.
  revert w. induction n as [|n IH]; intros w; cbn [expand]; [lia|].
  rewrite IH, length_app. cbn. lia.
Qed.

Lemma kw_app_l w v i : (i < length w)%nat → kw (w ++ v) i = kw w i.
Proof. apply app_nth1. Qed.

Lemma kw_expand_l n w i : (i < length w)%nat → kw (expand Nk n w) i = kw w i.
Proof.
  revert w. induction n as [|n IH]; intros w Hi; cbn [expand]; [done|].
  rewrite IH by (rewrite length_app; lia). by apply kw_app_l.
Qed.

(** The infinite sequence of words. *)
Definition W (i : nat) : word4 := kw (expand Nk (S i) key) i.

Lemma expand_app n m w : expand Nk (n + m) w = expand Nk m (expand Nk n w).
Proof. revert w. induction n as [|n IH]; intros w; cbn [expand Nat.add]; auto. Qed.

Lemma kw_expand_W n i : (i < Nk + n)%nat → kw (expand Nk n key) i = W i.
Proof.
  intros Hi. unfold W. destruct (decide (n ≤ S i)%nat).
  - replace (S i) with (n + (S i - n))%nat by lia. rewrite expand_app.
    symmetry. apply kw_expand_l. rewrite length_expand. lia.
  - replace n with (S i + (n - S i))%nat by lia. rewrite expand_app.
    apply kw_expand_l. rewrite length_expand. lia.
Qed.

Lemma W_key i : (i < Nk)%nat → W i = kw key i.
Proof. intros. apply kw_expand_l. lia. Qed.

Lemma W_rec i :
  (Nk ≤ i)%nat →
  W i = W (i - Nk) ⊕w
    (if (i mod Nk =? 0)%nat then SubWord (RotWord (W (i - 1))) ⊕w Rcon (i / Nk)
     else if (6 <? Nk)%nat && (i mod Nk =? 4)%nat then SubWord (W (i - 1)) else W (i - 1)).
Proof.
  intros Hi. rewrite <-(kw_expand_W (i - Nk + 1) i) by lia.
  rewrite expand_app. cbn [expand].
  set (w := expand Nk (i - Nk) key).
  assert (length w = i) as Hw by (unfold w; rewrite length_expand; lia).
  unfold kw at 1. rewrite Hw, app_nth2, Hw, Nat.sub_diag by lia. cbn [nth].
  unfold expand_word. subst w.
  rewrite !kw_expand_W by lia. done.
Qed.

Lemma Rcon_ok i : word_ok (Rcon i).
Proof.
  assert (∀ n, byte_ok (Nat.iter n xtime 1)) as Hit.
  { induction n as [|n IH]; [done|]. rewrite Nat.iter_succ.
    revert IH. generalize (Nat.iter n xtime 1). intros x [Hx _]. unfold xtime.
    apply uint_lxor; [done| |destruct (Z.testbit _ _); done].
    apply (uint_land_r 8); [done|lia|done]. }
  unfold word_ok, Rcon; cbn -[Nat.iter]. by split_and!.
Qed.

Lemma SubWord_ok w : word_ok w → word_ok (SubWord w).
Proof. intros. split_bytes; by apply sbox_byte. Qed.

Lemma W_ok i : Forall word_ok key → word_ok (W i).
Proof.
  intros Hok. induction i as [i IH] using lt_wf_ind.
  destruct (decide (i < Nk)%nat) as [Hi|Hi].
  - rewrite W_key by done. auto with sqlc.
  - rewrite W_rec by lia. apply wxor_ok; [apply IH; lia|].
    destruct (_ =? 0)%nat; [apply wxor_ok; [|apply Rcon_ok]|destruct (_ && _)];
      try apply SubWord_ok; try (apply IH; lia).
    destruct (IH (i - 1)%nat ltac:(lia)) as (?&?&?&?). by split_and!.
Qed.

Lemma kw_KeyExpansion R i :
  (Nk ≤ 4 * (R + 1))%nat → (i < 4 * (R + 1))%nat → kw (KeyExpansion Nk R key) i = W i.
Proof.
  intros. unfold KeyExpansion. rewrite firstn_all2 by lia. apply kw_expand_W. lia.
Qed.
End expansion.

(** ** One pass over [tempKey] *)

Lemma rcon_spec i : (i < 30)%nat → Rcon (S i) = W4 (nth i rcon 0) 0 0 0.
Proof.
  intros Hi. assert (forallb (λ i, word_eqb (Rcon (S i)) (W4 (nth i rcon 0) 0 0 0)) (seq 0 30) = true)
    as Hall by (vm_compute; reflexivity).
  rewrite forallb_forall in Hall. apply word_eqb_eq, Hall, in_seq. lia.
Qed.

(** The byte assignments of the source as operations on words. *)
Lemma sub_word_column u v :
  word_ok v →
  W4 (Z.lxor (w_0 u) (tb Sbox (w_0 v))) (Z.lxor (w_1 u) (tb Sbox (w_1 v)))
     (Z.lxor (w_2 u) (tb Sbox (w_2 v))) (Z.lxor (w_3 u) (tb Sbox (w_3 v)))
  = u ⊕w SubWord v.
Proof. intros (?&?&?&?). unfold wxor, SubWord, word_map; cbn. by rewrite !Sbox_spec. Qed.

Lemma rot_word_column u v rc :
  word_ok v →
  W4 (Z.lxor (Z.lxor (w_0 u) (tb Sbox (w_1 v))) rc) (Z.lxor (w_1 u) (tb Sbox (w_2 v)))
     (Z.lxor (w_2 u) (tb Sbox (w_3 v))) (Z.lxor (w_3 u) (tb Sbox (w_0 v)))
  = u ⊕w (SubWord (RotWord v) ⊕w W4 rc 0 0 0).
Proof.
  intros (?&?&?&?). unfold wxor, SubWord, RotWord, word_map; cbn.
  rewrite !Sbox_spec, !Z.lxor_0_r by done. f_equal. apply Z.lxor_assoc.
Qed.

Section schedule.
Context (Nk R : nat) (key : list word4).
Context (HNk : Nk = 4%nat ∨ Nk = 6%nat ∨ Nk = 8%nat) (Hkey : length key = Nk).
Context (Hok : Forall word_ok key).
Abbreviation W := (W Nk key).

Lemma Wok i : word_ok (W i).
Proof. apply W_ok; (done || lia). Qed.

(** [tempKey] holds the words [s * Nk .. s * Nk + Nk - 1]; up to column [j] it
    already holds the next [Nk] words. *)
Definition stage (s j : nat) (tk : list word4) : Prop :=
  length tk = 8%nat ∧
  (∀ i, (i < j)%nat → kw tk i = W (S s * Nk + i)) ∧
  (∀ i, (j ≤ i < Nk)%nat → kw tk i = W (s * Nk + i)).

Lemma stage_next s tk : stage s Nk tk → stage (S s) 0 tk.
Proof.
  intros (Hlen & Hlo & _). split_and!; [done|lia|].
  intros i Hi. apply Hlo. lia.
Qed.

Lemma stage_insert s j tk w :
  stage s j tk → (j < Nk)%nat → w = W (S s * Nk + j) → stage s (S j) (<[j:=w]> tk).
Proof.
  intros (Hlen & Hlo & Hhi) Hj ->. split_and!.
  - by rewrite length_insert.
  - intros i Hi. destruct (decide (i = j)) as [->|].
    + apply kw_insert_eq. lia.
    + rewrite kw_insert_ne by done. apply Hlo. lia.
  - intros i Hi. rewrite kw_insert_ne by lia. apply Hhi. lia.
Qed.

Lemma mod_column s j : (j < Nk)%nat → ((S s * Nk + j) mod Nk)%nat = j.
Proof.
  intros. rewrite Nat.add_comm, Nat.Div0.mod_add. by apply Nat.mod_small.
Qed.

Lemma xor_prev_stage n j s tk :
  stage s j tk → (0 < j)%nat → (j + n ≤ Nk)%nat →
  (∀ i, (j ≤ i < j + n)%nat → (6 <? Nk)%nat && (i =? 4)%nat = false) →
  stage s (j + n) (xor_prev n j tk).
Proof.
  intros Hst Hj Hn Hno4. apply for_up_inv with (I := λ i, stage s i); [done|].
  intros i a Hi Ha. apply stage_insert; [done|lia|].
  destruct Ha as (_ & Hlo & Hhi). rewrite Hhi, Hlo by lia.
  rewrite (W_rec Nk key ltac:(lia) Hkey (S s * Nk + i)) by lia.
  rewrite mod_column, Hno4 by lia. rewrite (proj2 (Nat.eqb_neq i 0)) by lia.
  f_equal; f_equal; lia.
Qed.

Lemma next_tempKey_stage s tk :
  stage s 0 tk → (s < 30)%nat →
  stage (S s) 0 (next_tempKey Nk (nth s rcon 0) tk).
Proof.
  intros Hst Hs. apply stage_next. unfold next_tempKey.
  set (t0 := W4 _ _ _ _).
  assert (stage s 1 (<[0%nat:=t0]> tk)) as H1.
  { apply stage_insert; [done|lia|].
    rewrite (W_rec Nk key ltac:(lia) Hkey) by lia.
    rewrite mod_column by lia. cbn [Nat.eqb].
    replace ((S s * Nk + 0) / Nk)%nat with (S s)
      by (rewrite Nat.add_0_r, Nat.div_mul; lia).
    rewrite rcon_spec by done.
    destruct Hst as (_ & _ & Hhi). subst t0. rewrite !Hhi by lia.
    replace (S s * Nk + 0 - Nk)%nat with (s * Nk + 0)%nat by lia.
    replace (S s * Nk + 0 - 1)%nat with (s * Nk + (Nk - 1))%nat by lia.
    apply rot_word_column, Wok. }
  destruct (Nk =? 8)%nat eqn:E8; cbn [negb].
  2: { apply Nat.eqb_neq in E8. 
       assert (stage s (1 + (Nk - 1)) (xor_prev (Nk - 1) 1 (<[0%nat:=t0]> tk))) as Hx.
       { apply xor_prev_stage; [done|lia..|]. intros. apply andb_false_iff.
         left. apply Nat.ltb_ge. lia. }
       by replace (1 + (Nk - 1))%nat with Nk in Hx by lia. }
  apply Nat.eqb_eq in E8. rewrite E8. cbn [Nat.div Nat.divmod fst Nat.sub].
  assert (stage s 4 (xor_prev 3 1 (<[0%nat:=t0]> tk))) as H4.
  { apply (xor_prev_stage 3 1); [done|lia..|]. intros i Hi. rewrite (proj2 (Nat.eqb_neq i 4)) by lia.
    apply andb_false_r. }
  set (tk4 := xor_prev 3 1 _) in *. set (t4 := W4 _ _ _ _).
  assert (stage s (5 + 3) (xor_prev 3 5 (<[4%nat:=t4]> tk4))) as Hx; [|exact Hx].
  apply xor_prev_stage; [|lia..|].
  - apply stage_insert; [done|lia|].
    rewrite (W_rec Nk key ltac:(lia) Hkey) by lia. rewrite mod_column by lia.
    rewrite E8. cbn [Nat.eqb Nat.ltb Nat.leb andb]. destruct H4 as (_ & Hlo & Hhi).
    subst t4. rewrite Hhi, Hlo, E8 by lia.
    replace (S s * 8 + 4 - 8)%nat with (s * 8 + 4)%nat by lia.
    replace (S s * 8 + 4 - 1)%nat with (S s * 8 + 3)%nat by lia.
    apply sub_word_column. rewrite <-E8 at 1. apply Wok.
  - intros i Hi. rewrite (proj2 (Nat.eqb_neq i 4)) by lia. apply andb_false_r.
Qed.
End schedule.

(** ** Copying the words *)

Section copy.
Context (Nk R : nat) (key : list word4).
Context (HNk : Nk = 4%nat ∨ Nk = 6%nat ∨ Nk = 8%nat) (HR : (R ≤ MAX_ROUNDS)%nat).
Context (Hkey : length key = Nk) (Hok : Forall word_ok key).
Abbreviation W := (W Nk key).

(** [m_expandedKey] with its first [p] words computed. *)
Definition filled (p : nat) (ek : list word4) : Prop :=
  length ek = 60%nat ∧ Forall word_ok ek ∧ ∀ i, (i < p)%nat → kw ek i = W i.

Lemma filled_insert p ek w :
  filled p ek → (p < 60)%nat → w = W p → filled (S p) (<[p:=w]> ek).
Proof.
  intros (Hlen & Hek & Hp) Hlt ->. split_and!.
  - by rewrite length_insert.
  - apply Forall_insert; [done|]. by apply Wok.
  - intros i Hi. destruct (decide (i = p)) as [->|].
    + apply kw_insert_eq. lia.
    + rewrite kw_insert_ne by done. apply Hp. lia.
Qed.

Lemma copy_words_spec fuel s tk j r t ek j' t' ek' :
  stage Nk key s 0 tk → (s * Nk + j = 4 * r + t)%nat → filled (4 * r + t) ek →
  (r ≤ MAX_ROUNDS)%nat → (j ≤ Nk)%nat → (t ≤ 4)%nat → (4 - t ≤ fuel)%nat →
  copy_words fuel Nk tk j r t ek = (j', t', ek') →
  (s * Nk + j' = 4 * r + t')%nat ∧ filled (4 * r + t') ek' ∧
  (j ≤ j' ≤ Nk)%nat ∧ (t' ≤ 4)%nat ∧ (j' = Nk ∨ t' = 4%nat) ∧
  ((j < Nk)%nat → (t < 4)%nat → (j < j')%nat).
Proof.
  unfold MAX_ROUNDS. revert j t ek. induction fuel as [|fuel IH]; intros j t ek; cbn [copy_words].
  - intros ??????? [= <- <- <-]. split_and!; auto with lia.
  - intros Hst Hpos Hfill Hr Hj Ht Hfuel. case_decide as Hc.
    2: { intros [= <- <- <-]. split_and!; auto with lia. }
    intros Hcopy. apply IH in Hcopy; try done; try lia.
    + destruct_and!. split_and!; auto with lia.
    + rewrite Nat.add_succ_r. apply filled_insert; [done|lia|].
      destruct Hst as (_ & _ & Hhi). rewrite Hhi by lia. f_equal. lia.
Qed.

Lemma copy_key_spec fuel s tk j r t ek r' t' ek' :
  stage Nk key s 0 tk → (s * Nk + j = 4 * r + t)%nat → filled (4 * r + t) ek →
  (r ≤ R + 1)%nat → (r = R + 1 → t = 0)%nat → (j ≤ Nk)%nat → (t < 4)%nat →
  (Nk - j < fuel)%nat →
  copy_key fuel Nk R tk j r t ek = (r', t', ek') →
  filled (4 * r' + t') ek' ∧ (t' < 4)%nat ∧ (r' ≤ R + 1)%nat ∧ (r' = R + 1 → t' = 0)%nat ∧
  (4 * r' + t' = s * Nk + Nk ∨ r' = R + 1)%nat.
Proof.
  revert j r t ek. induction fuel as [|fuel IH]; intros j r t ek; cbn [copy_key].
  - lia.
  - intros Hst Hpos Hfill Hr Hrt Hj Ht Hfuel. case_decide as Hc.
    2: { intros [= <- <- <-]. split_and!; auto with lia. }
    destruct (copy_words 4 Nk tk j r t ek) as [[j1 t1] ek1] eqn:Hcw.
    apply copy_words_spec with (s := s) in Hcw; try (done || lia).
    destruct Hcw as (Hpos1 & Hfill1 & Hj1 & Ht1 & Hend & Hlt).
    specialize (Hlt ltac:(lia) ltac:(lia)).
    destruct (Nat.eqb_spec t1 4) as [->|Hne]; intros Hck;
      apply IH in Hck; try (done || lia).
    by replace (4 * S r + 0)%nat with (4 * r + 4)%nat by lia.
Qed.

Lemma sched_rounds_spec fuel s tk r t ek :
  stage Nk key s 0 tk → filled (4 * r + t) ek → (t < 4)%nat → (r ≤ R + 1)%nat →
  (r = R + 1 → t = 0)%nat → (4 * r + t = s * Nk + Nk ∨ r = R + 1)%nat →
  (S R - r ≤ fuel)%nat → (R < r + 30 - s)%nat →
  filled (4 * (R + 1)) (sched_rounds fuel Nk R s tk r t ek).
Proof.
  revert s tk r t ek. induction fuel as [|fuel IH];
    intros s tk r t ek Hst Hfill Ht Hr Hrt Hpos Hfuel Hs; cbn [sched_rounds].
  - assert (r = R + 1)%nat as -> by lia. by rewrite Hrt, Nat.add_0_r in Hfill by lia.
  - destruct (Nat.leb_spec r R) as [Hle|Hgt].
    2: { assert (r = R + 1)%nat as -> by lia. by rewrite Hrt, Nat.add_0_r in Hfill by lia. }
    apply (next_tempKey_stage Nk key HNk Hkey Hok) in Hst; [|lia].
    set (tk' := next_tempKey _ _ _) in *.
    destruct (copy_key (S Nk) Nk R tk' 0 r t ek) as [[r1 t1] ek1] eqn:Hck.
    apply copy_key_spec with (s := S s) in Hck; try (done || lia).
    destruct Hck as (Hfill1 & Ht1 & Hr1 & Hrt1 & Hpos1).
    apply IH; try (done || lia).
Qed.
End copy.

(** ** The two functions of rijndael.c *)

(** The sizes of the C arrays and the width of their elements. *)
Definition rijndael_wf (rj : Rijndael) : Prop :=
  length (m_expandedKey rj) = (4 * (MAX_ROUNDS + 1))%nat ∧
  Forall word_ok (m_expandedKey rj) ∧ block_ok (m_initVector rj).

Lemma RijndaelKeySched_spec rj key Nk :
  rijndael_wf rj → (Nk = 4 ∨ Nk = 6 ∨ Nk = 8)%nat → m_uRounds rj = (Nk + 6)%nat →
  length key = Nk → Forall word_ok key →
  filled Nk key (4 * (m_uRounds rj + 1)) (m_expandedKey (RijndaelKeySched rj key)).
Proof.
  intros (Hlen & Hek & _) HNk HR Hkey Hok. unfold RijndaelKeySched. rewrite HR.
  replace (Nk + 6 - 6)%nat with Nk by lia. rewrite firstn_all2 by lia.
  set (tk := key ++ _).
  assert (stage Nk key 0 0 tk) as Hst.
  { split_and!; [|lia|].
    - unfold tk. rewrite length_app, length_replicate. unfold MAX_KEY_COLUMNS. lia.
    - intros i Hi. unfold tk. rewrite kw_app_l by lia. by rewrite W_key by lia. }
  destruct (copy_key (S Nk) Nk (Nk + 6) tk 0 0 0 (m_expandedKey rj)) as [[r t] ek] eqn:Hck.
  apply (copy_key_spec Nk (Nk + 6) key) with (s := 0%nat) in Hck;
    try (done || unfold MAX_ROUNDS in *; lia).
  2: { split_and!; [done..|lia]. }
  destruct Hck as (Hfill & Ht & Hr & Hrt & Hpos). cbn [set_expandedKey m_expandedKey].
  apply sched_rounds_spec; try (done || unfold MAX_ROUNDS; lia).
Qed.

Lemma enc_to_dec_round_spec r ek i :
  (4 * r + 3 < length ek)%nat →
  kw (enc_to_dec_round r ek) i
  = if decide (4 * r ≤ i < 4 * S r)%nat then dec_key_word (kw ek i) else kw ek i.
Proof.
  intros Hr. unfold enc_to_dec_round.
  assert (∀ l j x, length l = length ek → (j ≤ 4 * r + 3)%nat →
    kw (<[j:=x]> l) i = if decide (i = j) then x else kw l i) as Hins.
  { intros l j x Hl Hj. case_decide as Hij; [subst j; apply kw_insert_eq; lia|].
    by apply kw_insert_ne. }
  rewrite !Hins by (rewrite ?length_insert; lia).
  rewrite !(kw_insert_ne _ _ (4 * r + 1)) by lia.
  rewrite !(kw_insert_ne _ _ (4 * r + 2)) by lia.
  rewrite !(kw_insert_ne _ _ (4 * r + 3)) by lia.
  repeat (case_decide; subst; try lia); done.
Qed.

Lemma length_enc_to_dec_round r ek : length (enc_to_dec_round r ek) = length ek.
Proof. unfold enc_to_dec_round. by rewrite !length_insert. Qed.

Lemma enc_to_dec_rounds_spec n ek :
  (4 * S n ≤ length ek)%nat →
  length (for_up enc_to_dec_round n 1 ek) = length ek ∧
  ∀ i, kw (for_up enc_to_dec_round n 1 ek) i
       = if decide (4 ≤ i < 4 * S n)%nat then dec_key_word (kw ek i) else kw ek i.
Proof.
  intros Hn.
  refine (for_up_inv (λ r l, length l = length ek ∧ ∀ i,
    kw l i = if decide (4 ≤ i < 4 * r)%nat then dec_key_word (kw ek i) else kw ek i)
    enc_to_dec_round n 1 ek _ _).
  - split; [done|]. intros i. rewrite decide_False by lia. done.
  - intros r l Hr [Hlen Hl]. rewrite length_enc_to_dec_round. split; [done|].
    intros i. rewrite enc_to_dec_round_spec by lia. rewrite !Hl.
    repeat (case_decide; try lia); done.
Qed.

Lemma RijndaelKeyEncToDec_spec rj :
  rijndael_wf rj → (1 ≤ m_uRounds rj ≤ MAX_ROUNDS)%nat →
  rijndael_wf (RijndaelKeyEncToDec rj) ∧
  dec_schedule (m_expandedKey rj) (m_expandedKey (RijndaelKeyEncToDec rj)) (m_uRounds rj).
Proof.
  unfold MAX_ROUNDS. intros (Hlen & Hek & Hiv) HR. unfold RijndaelKeyEncToDec.
  cbn [m_expandedKey set_expandedKey].
  destruct (enc_to_dec_rounds_spec (m_uRounds rj - 1) (m_expandedKey rj)) as [Hl Hkw];
    [unfold MAX_ROUNDS in *; lia|].
  split.
  - split_and!; cbn; [by rewrite Hl| |done].
    apply (Forall_nth _ w_zero). intros i Hi.
    change (word_ok (kw (for_up enc_to_dec_round (m_uRounds rj - 1) 1 (m_expandedKey rj)) i)).
    rewrite Hkw. case_decide; [|auto with sqlc].
    rewrite dec_key_word_spec by auto with sqlc. auto with sqlc.
  - split_and!.
    + intros r Hr. unfold round_key, InvMixColumns, block_map; cbn -[Nat.mul].
      by rewrite !Hkw, !decide_True, !dec_key_word_spec by (lia || auto with sqlc).
    + unfold round_key. by rewrite !Hkw, !decide_False by lia.
    + unfold round_key. by rewrite !Hkw, !decide_False by lia.
Qed.
