(* ===== verification/RijndaelBlock.v ===== *)
(** * An initialised cipher object is AES, and blocks in memory

    What [RijndaelInit] gives for a key, on all its branches; encryption with it
    is the cipher of FIPS-197 with the expanded key, and decryption with the
    object initialised for the other direction inverts it. The class
    [BlockCipher] is the interface that the modes of operation rely on. Then
    reading and writing 16-byte blocks of a byte memory, and the textbook ECB and
    CBC modes on lists of blocks, against which RijndaelModes.v checks the pointer
    loops of rijndael.c. *)
From S2P Require Import Prelude RijndaelTables Rijndael RijndaelSpec RijndaelApi RijndaelCipher RijndaelKey.
Local Open Scope Z_scope.
Local Open Scope sqlc_scope.

Local Opaque gmul sbox tw tb t1_1.

(** What a block cipher promises to the modes: two permutations of blocks of
    bytes, the second undoing the first. *)
Class BlockCipher (E D : block → block) : Prop := {
  cipher_ok b : block_ok b → block_ok (E b);
  cipher_inverse b : block_ok b → D (E b) = b
}.

(** ** Blocks and memory *)

Section memory.
Implicit Types (mem key : list Z) (p i : nat).

Lemma nth_byte_ok mem i : bytes_ok mem → byte_ok (nth i mem 0).
Proof.
  intros Hmem. destruct (decide (i < length mem)%nat).
  - by apply Forall_nth.
  - by rewrite nth_overflow by lia.
Qed.

Lemma load4_ok mem p : bytes_ok mem → word_ok (load4 mem p).
Proof. intros. split_bytes; by apply nth_byte_ok. Qed.

Lemma load16_ok mem p : bytes_ok mem → block_ok (load16 mem p).
Proof. intros. unfold block_ok. split_and!; by apply load4_ok. Qed.

Lemma key_matrix_ok key n : bytes_ok key → Forall word_ok (key_matrix key n).
Proof. intros. apply Forall_fmap, Forall_true. intros. by apply load4_ok. Qed.

Lemma length_key_matrix key n : length (key_matrix key n) = n.
Proof. unfold key_matrix. by rewrite length_fmap, length_seq. Qed.
End memory.

#[export] Hint Resolve nth_byte_ok load4_ok load16_ok key_matrix_ok : sqlc.

(** ** Initialisation *)

Definition valid_mode (mode : Z) : Prop :=
  mode = RIJNDAEL_Direction_Mode_CBC ∨ mode = RIJNDAEL_Direction_Mode_ECB
  ∨ mode = RIJNDAEL_Direction_Mode_CFB1.

Definition valid_dir (dir : Z) : Prop :=
  dir = RIJNDAEL_Direction_Encrypt ∨ dir = RIJNDAEL_Direction_Decrypt.

Lemma valid_mode_test mode :
  valid_mode mode →
  negb (mode =? RIJNDAEL_Direction_Mode_CBC) && negb (mode =? RIJNDAEL_Direction_Mode_ECB)
  && negb (mode =? RIJNDAEL_Direction_Mode_CFB1) = false.
Proof. intros [-> | [-> | ->]]; reflexivity. Qed.

Lemma valid_dir_test dir :
  valid_dir dir →
  negb (dir =? RIJNDAEL_Direction_Encrypt) && negb (dir =? RIJNDAEL_Direction_Decrypt) = false.
Proof. intros [-> | ->]; reflexivity. Qed.

(** The IV block that [RijndaelInit] stores. *)
Definition init_iv (iv : option (list Z)) : block :=
  match iv with Some iv => load16 iv 0 | None => zero_iv end.

Lemma key_params_spec keyLen n R :
  key_params keyLen = Some (n, R) →
  ∃ Nk, n = (4 * Nk)%nat ∧ R = (Nk + 6)%nat ∧ (Nk = 4 ∨ Nk = 6 ∨ Nk = 8)%nat.
Proof.
  unfold key_params. repeat (destruct (_ =? _); [intros [= <- <-]; eauto 10|]); [..|done].
  - exists 4%nat. lia.
  - exists 6%nat. lia.
  - exists 8%nat. lia.
Qed.

(** The object that a successful initialisation leaves. *)
Record initialised (rj : Rijndael) (mode dir : Z) (R : nat) (iv : option (list Z))
    (w : list word4) : Prop := {
  init_state : m_state rj = RIJNDAEL_State_Valid;
  init_mode : m_mode rj = mode;
  init_dir : m_direction rj = dir;
  init_rounds : m_uRounds rj = R;
  init_vector : m_initVector rj = init_iv iv;
  init_wf : rijndael_wf rj;
  init_enc : dir = RIJNDAEL_Direction_Encrypt →
    ∀ r, (r ≤ R)%nat → round_key (m_expandedKey rj) r = round_key w r;
  init_dec : dir = RIJNDAEL_Direction_Decrypt → dec_schedule w (m_expandedKey rj) R
}.

Lemma round_key_KeyExpansion Nk R key ek r :
  (Nk = 4 ∨ Nk = 6 ∨ Nk = 8)%nat → R = (Nk + 6)%nat → length key = Nk →
  filled Nk key (4 * (R + 1)) ek → (r ≤ R)%nat →
  round_key ek r = round_key (KeyExpansion Nk R key) r.
Proof.
  intros HNk HR Hkey (_ & _ & Hek) Hr. unfold round_key.
  rewrite !kw_KeyExpansion by lia. by rewrite !Hek by lia.
Qed.

Lemma RijndaelInit_spec rj mode dir key keyLen iv Nk R :
  rijndael_wf rj → valid_mode mode → valid_dir dir →
  key_params keyLen = Some (4 * Nk, R)%nat → bytes_ok key →
  (∀ v, iv = Some v → bytes_ok v) →
  ∃ rj', RijndaelInit rj mode dir (Some key) keyLen iv = (RIJNDAEL_SUCCESS, rj') ∧
    initialised rj' mode dir R iv (KeyExpansion Nk R (key_matrix key Nk)).
Proof.
  intros (Hlen & Hek & Hiv0) Hmode Hdir Hkp Hkey Hiv.
  destruct (key_params_spec _ _ _ Hkp) as (Nk' & Heq & HR & HNk).
  assert (Nk' = Nk) as -> by lia.
  unfold RijndaelInit. rewrite Hkp.
  rewrite (valid_mode_test mode), (valid_dir_test dir) by done.
  replace (4 * Nk / 4)%nat with Nk by (rewrite Nat.mul_comm, Nat.div_mul; lia).
  set (rj0 := set_uRounds _ R).
  assert (rijndael_wf rj0) as Hwf0.
  { split_and!; [done..|]. cbn. destruct iv; [by apply load16_ok; auto|].
    by split_bytes. }
  pose proof (RijndaelKeySched_spec rj0 (key_matrix key Nk) Nk Hwf0 HNk HR
    (length_key_matrix _ _) (key_matrix_ok _ _ Hkey)) as Hfill.
  set (rj1 := RijndaelKeySched rj0 _) in *.
  assert (rijndael_wf rj1 ∧ m_uRounds rj1 = R ∧ m_direction rj1 = dir ∧ m_mode rj1 = mode
          ∧ m_initVector rj1 = init_iv iv) as (Hwf1 & HR1 & Hd1 & Hm1 & Hv1).
  { unfold rj1, RijndaelKeySched. destruct (copy_key _ _ _ _ _ _ _ _) as [[? ?] ?] eqn:Hck.
    cbn. split_and!; try done. unfold rj1, RijndaelKeySched in Hfill.
    rewrite Hck in Hfill. destruct Hfill as (? & ? & _), Hwf0 as (_ & _ & ?).
    by split_and!. }
  cbn [m_uRounds set_uRounds] in Hfill.
  assert (∀ r, (r ≤ R)%nat → round_key (m_expandedKey rj1) r
    = round_key (KeyExpansion Nk R (key_matrix key Nk)) r) as Hrk.
  { intros r Hr. apply round_key_KeyExpansion; try done. apply length_key_matrix. }
  rewrite Hd1. eexists. split; [reflexivity|].
  destruct (RijndaelKeyEncToDec_spec rj1 Hwf1) as [Hwf2 Hsched].
  { rewrite HR1. unfold MAX_ROUNDS. lia. }
  destruct (Z.eqb_spec dir RIJNDAEL_Direction_Decrypt) as [Hdd|Hdd]; constructor;
    cbn [set_state m_state m_mode m_direction m_initVector m_uRounds m_expandedKey]; try done.
  - intros ->. discriminate Hdd.
  - intros _. rewrite HR1 in Hsched. destruct Hsched as (H1 & H0 & HRR).
    split_and!; [|by rewrite H0, Hrk by lia|by rewrite HRR, Hrk by lia].
    intros r Hr. by rewrite H1, Hrk by lia.
Qed.

(** ** The cipher of an initialised object *)

Lemma Cipher_ext R w w' a :
  (1 ≤ R)%nat → (∀ r, (r ≤ R)%nat → round_key w r = round_key w' r) → Cipher R w a = Cipher R w' a.
Proof.
  intros HR Hw. unfold Cipher, spec_rounds. rewrite !Hw by lia.
  f_equal. do 2 f_equal. apply for_up_ext. intros r st Hr. by rewrite Hw by lia.
Qed.

Lemma initialised_encrypt rj mode R iv w a :
  initialised rj mode RIJNDAEL_Direction_Encrypt R iv w → (2 ≤ R)%nat → block_ok a →
  RijndaelEncrypt rj a = Cipher R w a.
Proof.
  intros Hi HR Ha. destruct (init_wf _ _ _ _ _ _ Hi) as (_ & Hek & _).
  rewrite (RijndaelEncrypt_spec _ Hek) by (done || by rewrite (init_rounds _ _ _ _ _ _ Hi)).
  rewrite (init_rounds _ _ _ _ _ _ Hi). apply Cipher_ext; [lia|].
  by apply (init_enc _ _ _ _ _ _ Hi).
Qed.

Lemma Cipher_ok R w a : Forall word_ok w → block_ok a → block_ok (Cipher R w a).
Proof.
  intros Hw Ha. unfold Cipher. apply bxor_ok; [|auto with sqlc].
  apply ShiftRows_ok, SubBytes_ok, spec_rounds_ok; auto with sqlc.
Qed.

Lemma KeyExpansion_ok Nk R key :
  (Nk = 4 ∨ Nk = 6 ∨ Nk = 8)%nat → length key = Nk → Forall word_ok key →
  (Nk ≤ 4 * (R + 1))%nat → Forall word_ok (KeyExpansion Nk R key).
Proof.
  intros HNk Hlen Hkey HR. apply (Forall_nth _ w_zero). intros i Hi.
  assert (length (KeyExpansion Nk R key) = 4 * (R + 1))%nat as HlenE.
  { unfold KeyExpansion. rewrite (length_expand Nk key), firstn_all2 by lia. lia. }
  change (word_ok (kw (KeyExpansion Nk R key) i)).
  rewrite kw_KeyExpansion by lia. apply W_ok; (done || lia).
Qed.

(** Two objects initialised with one key, one for each direction. *)
Lemma initialised_BlockCipher re rd me md R ive ivd w :
  initialised re me RIJNDAEL_Direction_Encrypt R ive w →
  initialised rd md RIJNDAEL_Direction_Decrypt R ivd w →
  (2 ≤ R)%nat → Forall word_ok w →
  BlockCipher (RijndaelEncrypt re) (RijndaelDecrypt rd).
Proof.
  intros He Hd HR Hw. split; intros a Ha.
  - rewrite (initialised_encrypt _ _ _ _ _ _ He) by done. by apply Cipher_ok.
  - rewrite (initialised_encrypt _ _ _ _ _ _ He) by done.
    apply (RijndaelDecrypt_Cipher w (m_expandedKey rd) R); try done.
    + by apply (init_dec _ _ _ _ _ _ Hd).
    + apply (init_rounds _ _ _ _ _ _ Hd).
Qed.

(** ** Opened objects *)

(** [rj'] is what a successful [RijndaelInit] made of some object. *)
Definition opened (mode dir : Z) (key : list Z) (keyLen : Z) (iv : option (list Z))
    (rj' : Rijndael) : Prop :=
  ∃ rj, rijndael_wf rj ∧
    RijndaelInit rj mode dir (Some key) keyLen iv = (RIJNDAEL_SUCCESS, rj').

(** A key (and an initialisation vector, when there is one) made of bytes. *)
Definition key_ok (key : list Z) (iv : option (list Z)) : Prop :=
  bytes_ok key ∧ ∀ v, iv = Some v → bytes_ok v.

(** A successful call had a mode, a direction and a key length the library
    supports. *)
Lemma opened_inv mode dir key keyLen iv rj :
  opened mode dir key keyLen iv rj → key_ok key iv →
  ∃ Nk R, key_params keyLen = Some (4 * Nk, R)%nat ∧ R = (Nk + 6)%nat ∧
    (Nk = 4 ∨ Nk = 6 ∨ Nk = 8)%nat ∧ valid_mode mode ∧ valid_dir dir ∧
    initialised rj mode dir R iv (KeyExpansion Nk R (key_matrix key Nk)).
Proof.
  intros (rj0 & Hwf & Hinit) [Hkey Hiv].
  destruct (key_params keyLen) as [[n R]|] eqn:Hkp.
  2: { unfold RijndaelInit in Hinit. rewrite Hkp in Hinit. by repeat case_match. }
  destruct (key_params_spec _ _ _ Hkp) as (Nk & -> & HR & HNk).
  assert (valid_mode mode ∧ valid_dir dir) as [Hm Hd].
  { unfold RijndaelInit in Hinit.
    destruct (negb (mode =? RIJNDAEL_Direction_Mode_CBC) && _ && _) eqn:Em; [done|].
    destruct (negb (dir =? RIJNDAEL_Direction_Encrypt) && _) eqn:Ed; [done|].
    unfold valid_mode, valid_dir. lia. }
  destruct (RijndaelInit_spec rj0 mode dir key keyLen iv Nk R) as (rj2 & Heq & Hi); try done.
  rewrite Hinit in Heq. injection Heq as <-. eauto 10.
Qed.

(** Two objects opened with one key, one for each direction. *)
Lemma opened_BlockCipher me md key keyLen ive ivd re rd :
  opened me RIJNDAEL_Direction_Encrypt key keyLen ive re →
  opened md RIJNDAEL_Direction_Decrypt key keyLen ivd rd →
  key_ok key ive → key_ok key ivd →
  BlockCipher (RijndaelEncrypt re) (RijndaelDecrypt rd).
Proof.
  intros Hoe Hod Hke Hkd.
  destruct (opened_inv _ _ _ _ _ _ Hoe Hke) as (Nk & R & Hkp & HR & HNk & _ & _ & He).
  destruct (opened_inv _ _ _ _ _ _ Hod Hkd) as (Nk' & R' & Hkp' & HR' & _ & _ & _ & Hd).
  rewrite Hkp in Hkp'. assert (Nk' = Nk) as -> by (injection Hkp'; lia).
  assert (R' = R) as -> by lia.
  apply (initialised_BlockCipher _ _ _ _ _ _ _ _ He Hd); [lia|].
  apply KeyExpansion_ok; [done|apply length_key_matrix|apply key_matrix_ok, (proj1 Hke)|lia].
Qed.

(** ** Properties *)

(** C3: for every mode, key length and key, an object opened for encryption
    computes the AES of FIPS-197: [RijndaelEncrypt] (T-tables) equals the
    [Cipher] of the standard (GF(2^8) arithmetic) with the key expansion of the
    standard, for every block. *)
Theorem RijndaelEncrypt_is_AES mode key keyLen iv Nk R rj a :
  opened mode RIJNDAEL_Direction_Encrypt key keyLen iv rj → key_ok key iv →
  key_params keyLen = Some (4 * Nk, R)%nat → block_ok a →
  RijndaelEncrypt rj a = Cipher R (KeyExpansion Nk R (key_matrix key Nk)) a.
Proof.
  intros Ho Hk Hkp Ha.
  destruct (opened_inv _ _ _ _ _ _ Ho Hk) as (Nk' & R' & Hkp' & HR & HNk & _ & _ & Hi).
  rewrite Hkp in Hkp'. assert (Nk' = Nk) as -> by (injection Hkp'; lia).
  assert (R' = R) as -> by (injection Hkp'; lia).
  apply (initialised_encrypt _ _ _ _ _ _ Hi); [lia|done].
Qed.

(** decryption inverts encryption: an object opened for decryption with the
    same key recovers every block, for every key length. *)
Theorem RijndaelDecrypt_RijndaelEncrypt me md key keyLen ive ivd re rd a :
  opened me RIJNDAEL_Direction_Encrypt key keyLen ive re →
  opened md RIJNDAEL_Direction_Decrypt key keyLen ivd rd →
  key_ok key ive → key_ok key ivd → block_ok a →
  RijndaelDecrypt rd (RijndaelEncrypt re a) = a.
Proof.
  intros Hoe Hod Hke Hkd.
  apply (opened_BlockCipher _ _ _ _ _ _ _ _ Hoe Hod Hke Hkd).
Qed.

Local Open Scope sqlc_scope.

Implicit Types (mem : list Z) (p q : nat) (b : block) (bs : list block).

Lemma length_block_bytes b : length (block_bytes b) = 16%nat.
Proof. done. Qed.

Lemma block_bytes_ok b : block_ok b → bytes_ok (block_bytes b).
Proof.
  unfold block_ok, word_ok. intros. destruct_and!. unfold block_bytes, word_bytes; cbn.
  repeat (apply Forall_cons_2; [done|]). constructor.
Qed.

Lemma load16_block_bytes b : load16 (block_bytes b) 0 = b.
Proof. by destruct b as [[] [] [] []]. Qed.

Lemma block_bytes_load16 mem p :
  (p + 16 ≤ length mem)%nat → block_bytes (load16 mem p) = take 16 (drop p mem).
Proof.
  intros Hp. apply (nth_ext _ _ 0 0).
  - rewrite length_take, length_drop, length_block_bytes. lia.
  - intros i Hi. rewrite length_block_bytes in Hi.
    rewrite nth_firstn, nth_skipn. rewrite (proj2 (Nat.ltb_lt i 16)) by done.
    do 16 (destruct i as [|i]; [cbn; f_equal; lia|]). lia.
Qed.

Lemma nth_list_inserts (l k : list Z) p i :
  nth i (list_inserts p k l) 0
  = if decide (p ≤ i < p + length k ∧ i < length l)%nat then nth (i - p) k 0 else nth i l 0.
Proof.
  rewrite !nth_lookup. case_decide as Hi.
  - by rewrite list_lookup_inserts by lia.
  - destruct (decide (i < p)%nat); [by rewrite list_lookup_inserts_lt|].
    destruct (decide (p + length k ≤ i)%nat); [by rewrite list_lookup_inserts_ge|].
    rewrite !lookup_ge_None_2; [done|lia|]. rewrite length_inserts. lia.
Qed.

Lemma length_store16 mem p b : length (store16 mem p b) = length mem.
Proof. apply length_inserts. Qed.

Lemma nth_store16_ne mem p b i :
  (i < p ∨ p + 16 ≤ i)%nat → nth i (store16 mem p b) 0 = nth i mem 0.
Proof.
  intros Hi. unfold store16. rewrite nth_list_inserts, decide_False; [done|].
  rewrite length_block_bytes. lia.
Qed.

Lemma bytes_ok_inserts (l k : list Z) p : bytes_ok l → bytes_ok k → bytes_ok (list_inserts p k l).
Proof.
  intros Hl Hk. apply (Forall_nth _ 0). intros i Hi. rewrite nth_list_inserts.
  case_decide; by apply nth_byte_ok.
Qed.

Lemma store16_ok mem p b : bytes_ok mem → block_ok b → bytes_ok (store16 mem p b).
Proof. intros. apply bytes_ok_inserts; [done|]. by apply block_bytes_ok. Qed.

Lemma load16_ext mem mem' p :
  (∀ i, (p ≤ i < p + 16)%nat → nth i mem 0 = nth i mem' 0) → load16 mem p = load16 mem' p.
Proof. intros H. unfold load16, load4. by rewrite !H by lia. Qed.

Lemma load16_store16_eq mem p b : (p + 16 ≤ length mem)%nat → load16 (store16 mem p b) p = b.
Proof.
  intros Hp. rewrite <-(load16_block_bytes b) at 2.
  unfold load16, load4. unfold store16. rewrite !nth_list_inserts, length_block_bytes.
  rewrite !decide_True by lia. by rewrite <-!Nat.add_assoc, !Nat.add_sub', Nat.sub_diag.
Qed.

Lemma load16_store16_ne mem p q b :
  (p + 16 ≤ q ∨ q + 16 ≤ p)%nat → load16 (store16 mem p b) q = load16 mem q.
Proof. intros Hpq. apply load16_ext. intros i Hi. apply nth_store16_ne. lia. Qed.

(** ** Lists of blocks *)

Fixpoint blocks_at mem p (n : nat) : list block :=
  match n with
  | O => []
  | S n' => load16 mem p :: blocks_at mem (p + 16) n'
  end.

Fixpoint store_blocks mem p bs : list Z :=
  match bs with
  | [] => mem
  | b :: bs' => store_blocks (store16 mem p b) (p + 16) bs'
  end.

Lemma length_blocks_at mem p n : length (blocks_at mem p n) = n.
Proof. revert p. induction n; intros; cbn; auto. Qed.

Lemma length_store_blocks mem p bs : length (store_blocks mem p bs) = length mem.
Proof.
  revert mem p. induction bs as [|b bs IH]; intros; cbn [store_blocks]; [done|].
  by rewrite IH, length_store16.
Qed.

Lemma blocks_at_ok mem p n : bytes_ok mem → Forall block_ok (blocks_at mem p n).
Proof. intros. revert p. induction n; intros; cbn [blocks_at]; constructor; auto with sqlc. Qed.

Lemma store_blocks_ok mem p bs :
  bytes_ok mem → Forall block_ok bs → bytes_ok (store_blocks mem p bs).
Proof.
  intros Hmem Hbs. revert mem p Hmem. induction Hbs; intros; cbn [store_blocks]; auto using store16_ok.
Qed.

Lemma blocks_at_ext mem mem' p n :
  (∀ i, (p ≤ i < p + 16 * n)%nat → nth i mem 0 = nth i mem' 0) →
  blocks_at mem p n = blocks_at mem' p n.
Proof.
  revert p. induction n as [|n IH]; intros p H; cbn [blocks_at]; [done|]. f_equal.
  - apply load16_ext. intros. apply H. lia.
  - apply IH. intros. apply H. lia.
Qed.

Lemma nth_store_blocks_ne mem p bs i :
  (i < p ∨ p + 16 * length bs ≤ i)%nat → nth i (store_blocks mem p bs) 0 = nth i mem 0.
Proof.
  revert mem p. induction bs as [|b bs IH]; intros mem p Hi; cbn [store_blocks length] in *; [done|].
  rewrite IH by lia. apply nth_store16_ne. lia.
Qed.

Lemma blocks_at_store_blocks mem p bs :
  (p + 16 * length bs ≤ length mem)%nat → blocks_at (store_blocks mem p bs) p (length bs) = bs.
Proof.
  revert mem p. induction bs as [|b bs IH]; intros mem p Hp; cbn [store_blocks blocks_at length] in *; [done|]. f_equal.
  - rewrite <-(load16_store16_eq mem p b) at 2 by lia. apply load16_ext.
    intros. apply nth_store_blocks_ne. lia.
  - apply IH. rewrite length_store16. lia.
Qed.

Lemma blocks_at_app mem p n m :
  blocks_at mem p (n + m) = blocks_at mem p n ++ blocks_at mem (p + 16 * n) m.
Proof.
  revert p. induction n as [|n IH]; intros p; cbn [blocks_at Nat.add app].
  - by rewrite Nat.mul_0_r, Nat.add_0_r.
  - rewrite IH. do 3 f_equal. lia.
Qed.

Lemma store_blocks_app mem p bs bs' :
  store_blocks mem p (bs ++ bs') = store_blocks (store_blocks mem p bs) (p + 16 * length bs) bs'.
Proof.
  revert mem p. induction bs as [|b bs IH]; intros mem p; cbn [store_blocks app length].
  - by rewrite Nat.mul_0_r, Nat.add_0_r.
  - rewrite IH. f_equal. lia.
Qed.

(** Two memories of one length with the same bytes. *)
Lemma mem_ext mem mem' :
  length mem = length mem' → (∀ i, nth i mem 0 = nth i mem' 0) → mem = mem'.
Proof. intros Hlen H. apply (nth_ext _ _ 0 0); auto. Qed.

(** Writing back what was there, over anything written since. *)
Lemma store_blocks_restore mem mem' p n :
  length mem' = length mem → (p + 16 * n ≤ length mem)%nat →
  (∀ i, (i < p ∨ p + 16 * n ≤ i)%nat → nth i mem' 0 = nth i mem 0) →
  store_blocks mem' p (blocks_at mem p n) = mem.
Proof.
  revert mem' p. induction n as [|n IH]; intros mem' p Hlen Hp H; cbn [blocks_at store_blocks].
  - apply mem_ext; [done|]. intros. apply H. lia.
  - apply IH; [by rewrite length_store16|lia|].
    intros i Hi. destruct (decide (i < p ∨ p + 16 ≤ i)%nat) as [Hout|Hin].
    + rewrite nth_store16_ne by done. apply H. lia.
    + unfold store16. rewrite nth_list_inserts, length_block_bytes, decide_True by lia.
      rewrite block_bytes_load16 by lia. rewrite nth_firstn, nth_skipn.
      rewrite (proj2 (Nat.ltb_lt (i - p) 16)) by lia. f_equal. lia.
Qed.

(** ** The modes of operation *)

Section modes.
Context (E D : block → block).

(** Cipher block chaining: each ciphertext block is the vector of the next. *)
Fixpoint cbc_encrypt (iv : block) bs : list block :=
  match bs with
  | [] => []
  | b :: bs' => let c := E (iv ⊕b b) in c :: cbc_encrypt c bs'
  end.

Fixpoint cbc_decrypt (iv : block) bs : list block :=
  match bs with
  | [] => []
  | c :: bs' => (D c ⊕b iv) :: cbc_decrypt c bs'
  end.

Lemma length_cbc_encrypt iv bs : length (cbc_encrypt iv bs) = length bs.
Proof. revert iv. induction bs; intros; cbn; auto. Qed.

Lemma length_cbc_decrypt iv bs : length (cbc_decrypt iv bs) = length bs.
Proof. revert iv. induction bs; intros; cbn; auto. Qed.

Lemma cbc_encrypt_app iv bs bs' :
  cbc_encrypt iv (bs ++ bs')
  = cbc_encrypt iv bs ++ cbc_encrypt (List.last (cbc_encrypt iv bs) iv) bs'.
Proof.
  revert iv. induction bs as [|b bs IH]; intros iv; cbn [app cbc_encrypt]; [done|].
  by rewrite IH, last_cons_eq.
Qed.

Context `{!BlockCipher E D}.

Lemma cbc_encrypt_ok iv bs :
  block_ok iv → Forall block_ok bs → Forall block_ok (cbc_encrypt iv bs).
Proof.
  intros Hiv Hbs. revert iv Hiv. induction Hbs as [|b bs Hb Hbs IH]; intros iv Hiv;
    cbn; constructor; [|apply IH]; apply cipher_ok; auto with sqlc.
Qed.

Lemma cbc_decrypt_encrypt iv bs :
  block_ok iv → Forall block_ok bs → cbc_decrypt iv (cbc_encrypt iv bs) = bs.
Proof.
  intros Hiv Hbs. revert iv Hiv. induction Hbs as [|b bs Hb Hbs IH]; intros iv Hiv; cbn; [done|].
  rewrite cipher_inverse by auto with sqlc.
  rewrite (bxor_comm iv b), bxor_cancel. f_equal.
  apply IH. apply cipher_ok. auto with sqlc.
Qed.

Lemma ecb_decrypt_encrypt bs : Forall block_ok bs → D <$> (E <$> bs) = bs.
Proof. induction 1; cbn; [done|]. rewrite cipher_inverse by done. by f_equal. Qed.
End modes.
