(* ===== verification/RijndaelModes.v ===== *)
(** * The modes of operation of rijndael.c

    The pointer loops of the block and padding functions against the textbook
    modes, with input and output in one buffer or in two; round trips; the
    error codes; what the CFB1 and the ECB padding code really do; and at the end
    the test vectors of FIPS-197 (appendix C) computed by the model, with the
    theorems on the cipher and its modes applied to them. *)
From S2P Require Import Prelude RijndaelTables Rijndael RijndaelSpec RijndaelApi RijndaelCipher RijndaelKey RijndaelBlock.
Local Open Scope Z_scope.
Local Open Scope sqlc_scope.

Local Opaque gmul sbox tw tb t1_1.

Implicit Types (mem : list Z) (p q : nat) (bs : list block).

(** Input and output regions of [n] blocks that the functions support: the same
    region, or two that do not overlap. *)
Definition compat (input outBuffer n : nat) : Prop :=
  (input = outBuffer ∨ input + 16 * n ≤ outBuffer ∨ outBuffer + 16 * n ≤ input)%nat.

Lemma compat_S input outBuffer n :
  compat input outBuffer (S n) → compat (input + 16) (outBuffer + 16) n.
Proof. unfold compat. lia. Qed.

(** A write of one block leaves the input that is still to be read. *)
Lemma blocks_at_store16 mem input outBuffer n b :
  compat input outBuffer (S n) →
  blocks_at (store16 mem outBuffer b) (input + 16) n = blocks_at mem (input + 16) n.
Proof.
  intros Hc. apply blocks_at_ext. intros i Hi. apply nth_store16_ne. unfold compat in Hc. lia.
Qed.

(** ** The loops *)

Section loops.
Context (rj : Rijndael).

Lemma ecb_loop_spec f n mem input outBuffer :
  compat input outBuffer n →
  ecb_loop f n mem input outBuffer
  = store_blocks mem outBuffer (f <$> blocks_at mem input n).
Proof.
  revert mem input outBuffer. induction n as [|n IH]; intros mem input outBuffer Hc; [done|].
  cbn [ecb_loop blocks_at]. rewrite fmap_cons. cbn [store_blocks].
  by rewrite IH, blocks_at_store16 by eauto using compat_S.
Qed.

Lemma cbc_enc_loop_spec n mem input outBuffer :
  compat input (outBuffer + 16) n → (outBuffer + 16 + 16 * n ≤ length mem)%nat →
  cbc_enc_loop rj n mem input outBuffer
  = store_blocks mem (outBuffer + 16)
      (cbc_encrypt (RijndaelEncrypt rj) (load16 mem outBuffer) (blocks_at mem input n)).
Proof.
  revert mem input outBuffer. induction n as [|n IH]; intros mem input outBuffer Hc Hlen; [done|].
  cbn [cbc_enc_loop blocks_at cbc_encrypt store_blocks].
  rewrite IH by (rewrite ?length_store16; eauto using compat_S || lia).
  rewrite blocks_at_store16, load16_store16_eq by (done || lia). done.
Qed.

Lemma cbc_dec_loop_spec n iv mem input outBuffer :
  compat input outBuffer n →
  cbc_dec_loop rj n iv mem input outBuffer
  = store_blocks mem outBuffer (cbc_decrypt (RijndaelDecrypt rj) iv (blocks_at mem input n)).
Proof.
  revert iv mem input outBuffer. induction n as [|n IH]; intros iv mem input outBuffer Hc; [done|].
  cbn [cbc_dec_loop blocks_at cbc_decrypt store_blocks].
  by rewrite IH, blocks_at_store16 by eauto using compat_S.
Qed.

Lemma pad_cbc_enc_loop_spec n iv mem input outBuffer :
  compat input outBuffer n → (outBuffer + 16 * n ≤ length mem)%nat →
  let cs := cbc_encrypt (RijndaelEncrypt rj) (read_iv rj mem iv) (blocks_at mem input n) in
  ∃ iv', pad_cbc_enc_loop rj n iv mem input outBuffer
         = (iv', store_blocks mem outBuffer cs) ∧
    read_iv rj (store_blocks mem outBuffer cs) iv' = List.last cs (read_iv rj mem iv).
Proof.
  revert iv mem input outBuffer.
  induction n as [|n IH]; intros iv mem input outBuffer Hc Hlen; [by exists iv|].
  cbn [pad_cbc_enc_loop blocks_at cbc_encrypt store_blocks]. rewrite bxor_comm.
  set (c := RijndaelEncrypt rj _).
  destruct (IH (Some outBuffer) (store16 mem outBuffer c) (input + 16)%nat (outBuffer + 16)%nat)
    as (iv' & Heq & Hiv); [eauto using compat_S|rewrite length_store16; lia|].
  cbn [read_iv] in Heq, Hiv. rewrite load16_store16_eq, blocks_at_store16 in Heq, Hiv by (done || lia).
  exists iv'. split; [done|]. by rewrite Hiv, last_cons_eq.
Qed.

Lemma pad_cbc_dec_loop_spec n iv mem input outBuffer :
  pad_cbc_dec_loop rj n iv mem input outBuffer
  = (match n with O => iv | S _ => fst (pad_cbc_dec_loop rj n iv mem input outBuffer) end,
     cbc_dec_loop rj n iv mem input outBuffer).
Proof.
  revert iv mem input outBuffer. induction n as [|n IH]; intros iv mem input outBuffer; [done|].
  cbn [pad_cbc_dec_loop cbc_dec_loop]. rewrite IH. done.
Qed.

Lemma pad_cbc_dec_loop_iv n iv mem input outBuffer :
  compat input outBuffer n →
  fst (pad_cbc_dec_loop rj n iv mem input outBuffer) = List.last (blocks_at mem input n) iv.
Proof.
  revert iv mem input outBuffer. induction n as [|n IH]; intros iv mem input outBuffer Hc; [done|].
  cbn [pad_cbc_dec_loop blocks_at]. rewrite IH by eauto using compat_S.
  by rewrite blocks_at_store16, last_cons_eq by done.
Qed.
End loops.

(** ** Whole calls *)

Section calls.
Context (key : list Z) (keyLen : Z) (iv : option (list Z)).
Context (Hkey : key_ok key iv).

Lemma opened_fields mode dir rj :
  opened mode dir key keyLen iv rj →
  m_state rj = RIJNDAEL_State_Valid ∧ m_mode rj = mode ∧ m_direction rj = dir ∧
  m_initVector rj = init_iv iv ∧ block_ok (init_iv iv).
Proof.
  intros Ho. destruct (opened_inv _ _ _ _ _ _ Ho Hkey) as (Nk & R & _ & _ & _ & _ & _ & Hi).
  destruct Hi as [Hst Hm Hd _ Hv (_ & _ & Hiv) _ _]. by rewrite Hv in Hiv.
Qed.

(** What the two block functions write, as the textbook modes. *)
Definition mode_encrypt (E : block → block) (mode : Z) bs : list block :=
  if mode =? RIJNDAEL_Direction_Mode_ECB then E <$> bs else cbc_encrypt E (init_iv iv) bs.
Definition mode_decrypt (D : block → block) (mode : Z) bs : list block :=
  if mode =? RIJNDAEL_Direction_Mode_ECB then D <$> bs else cbc_decrypt D (init_iv iv) bs.

Definition block_mode (mode : Z) : Prop :=
  mode = RIJNDAEL_Direction_Mode_ECB ∨ mode = RIJNDAEL_Direction_Mode_CBC.

Lemma RijndaelBlockEncrypt_spec mode rj mem input inputLen outBuffer :
  opened mode RIJNDAEL_Direction_Encrypt key keyLen iv rj → block_mode mode →
  128 ≤ inputLen →
  let n := Z.to_nat (inputLen / 128) in
  compat input outBuffer n → (outBuffer + 16 * n ≤ length mem)%nat →
  RijndaelBlockEncrypt rj mem (Some input) inputLen outBuffer
  = (128 * Z.of_nat n,
     store_blocks mem outBuffer (mode_encrypt (RijndaelEncrypt rj) mode (blocks_at mem input n))).
Proof.
  intros Ho Hmode Hlen n Hc Hout. destruct (opened_fields _ _ _ Ho) as (Hst & Hm & Hd & Hiv & _).
  unfold RijndaelBlockEncrypt. rewrite Hst, Hd, Hm, Hiv, Z.eqb_refl.
  rewrite (proj2 (Z.leb_gt inputLen 0)) by lia. cbn [negb]. fold n. unfold mode_encrypt.
  destruct Hmode as [-> | ->]; f_equal; cbn [Z.eqb].
  - by apply ecb_loop_spec.
  - assert (∃ n', n = S n') as [n' ->].
    { exists (n - 1)%nat. assert (1 ≤ inputLen / 128) by (apply Z.div_le_lower_bound; lia). lia. }
    change (RIJNDAEL_Direction_Mode_CBC =? RIJNDAEL_Direction_Mode_ECB) with false. cbn iota.
    rewrite Nat.sub_succ, Nat.sub_0_r. cbn [blocks_at cbc_encrypt store_blocks].
    rewrite cbc_enc_loop_spec by (rewrite ?length_store16; lia || by apply compat_S).
    by rewrite load16_store16_eq, blocks_at_store16 by (done || lia).
Qed.

Lemma RijndaelBlockDecrypt_spec mode rj mem input inputLen outBuffer :
  opened mode RIJNDAEL_Direction_Decrypt key keyLen iv rj → block_mode mode →
  0 < inputLen →
  let n := Z.to_nat (inputLen / 128) in
  compat input outBuffer n →
  RijndaelBlockDecrypt rj mem (Some input) inputLen outBuffer
  = (128 * Z.of_nat n,
     store_blocks mem outBuffer (mode_decrypt (RijndaelDecrypt rj) mode (blocks_at mem input n))).
Proof.
  intros Ho Hmode Hlen n Hc. destruct (opened_fields _ _ _ Ho) as (Hst & Hm & Hd & Hiv & _).
  unfold RijndaelBlockDecrypt. rewrite Hst, Hd, Hm, Hiv, Z.eqb_refl, andb_false_r.
  rewrite (proj2 (Z.leb_gt inputLen 0)) by lia. cbn [negb]. fold n. unfold mode_decrypt.
  destruct Hmode as [-> | ->]; f_equal; cbn [Z.eqb].
  - by apply ecb_loop_spec.
  - by apply cbc_dec_loop_spec.
Qed.
End calls.

Lemma mode_decrypt_encrypt iv E D `{!BlockCipher E D} mode bs :
  block_ok (init_iv iv) → Forall block_ok bs →
  mode_decrypt iv D mode (mode_encrypt iv E mode bs) = bs.
Proof.
  intros. unfold mode_decrypt, mode_encrypt.
  destruct (_ =? _); [by apply ecb_decrypt_encrypt|by apply cbc_decrypt_encrypt].
Qed.

Lemma length_mode_encrypt iv E mode bs : length (mode_encrypt iv E mode bs) = length bs.
Proof.
  unfold mode_encrypt. destruct (_ =? _); [by rewrite length_fmap|apply length_cbc_encrypt].
Qed.

(** ** Padding *)

Section pad.
Context (key : list Z) (keyLen : Z) (iv : option (list Z)).
Context (Hkey : key_ok key iv).

(** [n] whole blocks and a padded last block with [m] bytes of the input. *)
Definition padded_blocks mem p (n m : nat) : list block :=
  blocks_at mem p n ++ [load16 (pad_block mem (p + 16 * n) m (16 - Z.of_nat m)) 0].

Lemma pad_block_ext mem mem' p m v :
  length mem = length mem' → (p + m ≤ length mem)%nat →
  (∀ i, (p ≤ i < p + m)%nat → nth i mem 0 = nth i mem' 0) →
  pad_block mem p m v = pad_block mem' p m v.
Proof.
  intros Hlen Hp H. unfold pad_block. f_equal. apply (nth_ext _ _ 0 0).
  - rewrite !length_take, !length_drop. lia.
  - rewrite length_take, length_drop. intros i Hi.
    rewrite !nth_firstn, !nth_skipn. rewrite (proj2 (Nat.ltb_lt i m)) by lia. apply H. lia.
Qed.

(** The C computations of the block count and the padding length. *)
Lemma pad_sizes (n m : nat) :
  (m < 16)%nat →
  let octets := 16 * Z.of_nat n + Z.of_nat m in
  Z.to_nat (octets / 16) = n ∧
  16 - (octets - 16 * Z.of_nat (Z.to_nat (octets / 16))) = 16 - Z.of_nat m ∧
  Z.to_nat (16 - (16 - Z.of_nat m)) = m.
Proof.
  intros Hm octets. assert (octets / 16 = Z.of_nat n) as ->.
  { unfold octets. rewrite Z.mul_comm, Z.div_add_l, Z.div_small by lia. lia. }
  rewrite Nat2Z.id. unfold octets. lia.
Qed.

Lemma RijndaelPadEncrypt_spec mode rj mem input n m outBuffer :
  opened mode RIJNDAEL_Direction_Encrypt key keyLen iv rj → block_mode mode →
  (m < 16)%nat → (0 < n + m)%nat → 16 * (Z.of_nat n + 1) < 2 ^ 31 → compat input outBuffer (S n) →
  (input + 16 * n + m ≤ length mem)%nat → (outBuffer + 16 * S n ≤ length mem)%nat →
  RijndaelPadEncrypt rj mem (Some input) (16 * Z.of_nat n + Z.of_nat m) outBuffer
  = (16 * (Z.of_nat n + 1),
     store_blocks mem outBuffer
       (mode_encrypt iv (RijndaelEncrypt rj) mode (padded_blocks mem input n m))).
Proof.
  intros Ho Hmode Hm Hnm Hmax Hc Hin Hout.
  destruct (opened_fields key keyLen iv Hkey _ _ _ Ho) as (Hst & Hmd & Hd & Hiv & _).
  destruct (pad_sizes n m Hm) as (Hn & Hp & Hmm).
  assert (s32 (16 * (Z.of_nat n + 1)) = 16 * (Z.of_nat n + 1)) as Hok.
  { unfold s32, wrap. rewrite Z.mod_small by lia. lia. }
  unfold RijndaelPadEncrypt. rewrite Hp, Hn, Hmm, Hst, Hd, Hmd, Hok.
  rewrite !Z.eqb_refl, (proj2 (Z.leb_gt _ 0)) by lia. cbn [negb].
  assert (compat input outBuffer n) as Hc' by (unfold compat in *; lia).
  unfold mode_encrypt, padded_blocks.
  assert (∀ cs, length cs = n →
    pad_block (store_blocks mem outBuffer cs) (input + 16 * n) m (16 - Z.of_nat m)
    = pad_block mem (input + 16 * n) m (16 - Z.of_nat m)) as Hpad.
  { intros cs Hcs. apply pad_block_ext; rewrite ?length_store_blocks; try (done || lia).
    intros i Hi. apply nth_store_blocks_ne. unfold compat in Hc. lia. }
  destruct Hmode as [-> | ->].
  - change (RIJNDAEL_Direction_Mode_ECB =? RIJNDAEL_Direction_Mode_ECB) with true. cbn iota.
    rewrite ecb_loop_spec, Hpad by (done || rewrite ?length_fmap; apply length_blocks_at).
    rewrite fmap_app, store_blocks_app, length_fmap, length_blocks_at. done.
  - change (RIJNDAEL_Direction_Mode_CBC =? RIJNDAEL_Direction_Mode_ECB) with false. cbn iota.
    change (RIJNDAEL_Direction_Mode_CBC =? RIJNDAEL_Direction_Mode_CBC) with true. cbn iota.
    destruct (pad_cbc_enc_loop_spec rj n None mem input outBuffer Hc') as (iv' & -> & Hlast); [lia|].
    rewrite Hlast. cbn [read_iv]. rewrite Hiv.
    rewrite Hpad by (rewrite length_cbc_encrypt; apply length_blocks_at).
    rewrite cbc_encrypt_app, store_blocks_app, length_cbc_encrypt, length_blocks_at.
    cbn [cbc_encrypt store_blocks]. by rewrite bxor_comm.
Qed.

Lemma cbc_decrypt_app (D : block → block) v bs bs' :
  cbc_decrypt D v (bs ++ bs') = cbc_decrypt D v bs ++ cbc_decrypt D (List.last bs v) bs'.
Proof.
  revert v. induction bs as [|b bs IH]; intros v; cbn [app cbc_decrypt]; [done|].
  by rewrite IH, last_cons_eq.
Qed.

(** The test on the last byte that each mode makes. *)
Definition bad_padLen (mode padLen : Z) : bool :=
  if mode =? RIJNDAEL_Direction_Mode_ECB then 16 <=? padLen
  else (padLen <=? 0) || (16 <? padLen).

Lemma RijndaelPadDecrypt_spec mode rj mem input n outBuffer ds last :
  opened mode RIJNDAEL_Direction_Decrypt key keyLen iv rj → block_mode mode →
  compat input outBuffer (S n) → length ds = n →
  mode_decrypt iv (RijndaelDecrypt rj) mode (blocks_at mem input (S n)) = ds ++ [last] →
  let mem' := store_blocks mem outBuffer ds in
  let padLen := nth 15 (block_bytes last) 0 in
  RijndaelPadDecrypt rj mem (Some input) (16 * (Z.of_nat n + 1)) outBuffer
  = if bad_padLen mode padLen || negb (padding_ok (block_bytes last) padLen)
    then (RIJNDAEL_CORRUPTED_DATA, mem')
    else (16 * (Z.of_nat n + 1) - padLen,
          list_inserts (outBuffer + 16 * n)
            (take (Z.to_nat (16 - padLen)) (block_bytes last)) mem').
Proof.
  intros Ho Hmode Hc Hds Hdec.
  destruct (opened_fields key keyLen iv Hkey _ _ _ Ho) as (Hst & Hmd & Hd & Hiv & _).
  assert (compat input outBuffer n) as Hc' by (unfold compat in *; lia).
  unfold RijndaelPadDecrypt. rewrite Hst, Hd, Hmd, !Z.eqb_refl.
  rewrite (proj2 (Z.leb_gt _ 0)) by lia. rewrite (Z.mul_comm 16), Z.mod_mul, Z.eqb_refl by lia.
  rewrite Z.div_mul by lia. replace (Z.to_nat (Z.of_nat n + 1)) with (S n) by lia.
  cbn [negb]. rewrite Nat.sub_succ, Nat.sub_0_r.
  replace (16 * Z.of_nat (S n)) with ((Z.of_nat n + 1) * 16) by lia.
  replace (S n) with (n + 1)%nat in Hdec by lia. rewrite blocks_at_app in Hdec.
  cbn [blocks_at] in Hdec. unfold mode_decrypt in Hdec. unfold bad_padLen.
  assert (load16 (store_blocks mem outBuffer ds) (input + 16 * n) = load16 mem (input + 16 * n)) as Hrd.
  { apply load16_ext. intros i Hi. apply nth_store_blocks_ne. unfold compat in Hc. lia. }
  revert Hdec Hrd. generalize (input + 16 * n)%nat. intros last_p Hdec Hrd.
  destruct Hmode as [-> | ->].
  - change (RIJNDAEL_Direction_Mode_ECB =? RIJNDAEL_Direction_Mode_ECB) with true in *.
    cbn iota in *. rewrite fmap_app, list_fmap_singleton in Hdec.
    apply app_inj_2 in Hdec as [Hds' Hlast]; [|done]. injection Hlast as Hlast.
    rewrite ecb_loop_spec, Hds', Hrd, Hlast by done.
    destruct (16 <=? _), (padding_ok _ _); done.
  - change (RIJNDAEL_Direction_Mode_CBC =? RIJNDAEL_Direction_Mode_ECB) with false in *.
    cbn iota in *. change (RIJNDAEL_Direction_Mode_CBC =? RIJNDAEL_Direction_Mode_CBC) with true.
    cbn iota. rewrite cbc_decrypt_app in Hdec.
    apply app_inj_2 in Hdec as [Hds' Hlast]; [|done]. cbn [cbc_decrypt] in Hlast. injection Hlast as Hlast.
    rewrite (surjective_pairing (pad_cbc_dec_loop _ _ _ _ _ _)).
    rewrite pad_cbc_dec_loop_iv, pad_cbc_dec_loop_spec by done. cbn [snd].
    rewrite cbc_dec_loop_spec, Hiv, Hds', Hrd, Hlast by done.
    destruct (_ || _), (padding_ok _ _); done.
Qed.
End pad.

(** ** CFB1 *)

Section cfb1.
Context (rj : Rijndael).

(** The bit loops change the 16 bytes at [outBuffer] and no others. *)
Lemma cfb1_enc_bits_frame n k iv mem outBuffer i :
  (k + n ≤ 128)%nat → (i < outBuffer ∨ outBuffer + 16 ≤ i)%nat →
  let mem' := snd (cfb1_enc_bits rj n k iv mem outBuffer) in
  length mem' = length mem ∧ nth i mem' 0 = nth i mem 0.
Proof.
  revert k iv mem. induction n as [|n IH]; intros k iv mem Hk Hi; [done|].
  cbn [cfb1_enc_bits]. edestruct (IH (S k)) as [Hlen Hnth]; [lia|done|].
  cbn zeta in Hlen, Hnth |- *. rewrite Hlen, Hnth. unfold xor_bit.
  rewrite length_insert. split; [done|]. apply nth_insert_ne.
  assert (k / 8 < 16)%nat by (apply Nat.Div0.div_lt_upper_bound; lia). lia.
Qed.

Lemma cfb1_enc_loop_frame n iv mem outBuffer i :
  (i < outBuffer ∨ outBuffer + 16 ≤ i)%nat →
  length (cfb1_enc_loop rj n iv mem outBuffer) = length mem ∧
  nth i (cfb1_enc_loop rj n iv mem outBuffer) 0 = nth i mem 0.
Proof.
  intros Hi. revert iv mem. induction n as [|n IH]; intros iv mem; [done|].
  cbn [cfb1_enc_loop].
  pose proof (cfb1_enc_bits_frame 128 0 iv mem outBuffer i ltac:(lia) Hi) as [Hlen Hnth].
  destruct (cfb1_enc_bits rj 128 0 iv mem outBuffer) as [iv' mem']. cbn in Hlen, Hnth.
  destruct (IH iv' mem') as [-> ->]. done.
Qed.
End cfb1.

(** ** Properties *)

(** Cipher block chaining with pointwise equal ciphers. *)
Lemma mode_encrypt_ext iv E E' mode bs :
  (∀ b, block_ok b → E b = E' b ∧ block_ok (E b)) → block_ok (init_iv iv) →
  Forall block_ok bs → mode_encrypt iv E mode bs = mode_encrypt iv E' mode bs.
Proof.
  intros HE Hiv Hbs. unfold mode_encrypt. destruct (_ =? _).
  - apply list_fmap_ext. intros i b Hb. by eapply HE, (Forall_lookup_1 _ _ _ _ Hbs Hb).
  - revert Hiv. generalize (init_iv iv). induction Hbs as [|b bs Hb Hbs IH];
      intros v Hv; cbn; [done|].
    destruct (HE (v ⊕b b)) as [<- Hok]; [auto with sqlc|]. f_equal. by apply IH.
Qed.

(** The modes over an opened object are the modes over the AES of FIPS-197. *)
Lemma mode_encrypt_AES mode key keyLen iv Nk R rj bs :
  opened mode RIJNDAEL_Direction_Encrypt key keyLen iv rj → key_ok key iv →
  key_params keyLen = Some (4 * Nk, R)%nat → Forall block_ok bs →
  mode_encrypt iv (RijndaelEncrypt rj) mode bs
  = mode_encrypt iv (Cipher R (KeyExpansion Nk R (key_matrix key Nk))) mode bs.
Proof.
  intros Ho Hk Hkp Hbs.
  destruct (opened_fields key keyLen iv Hk _ _ _ Ho) as (_ & _ & _ & _ & Hiv).
  destruct (opened_inv _ _ _ _ _ _ Ho Hk) as (Nk' & R' & Hkp' & HR & HNk & _ & _ & Hi).
  rewrite Hkp in Hkp'. assert (Nk' = Nk) as -> by (injection Hkp'; lia).
  assert (R' = R) as -> by (injection Hkp'; lia).
  apply mode_encrypt_ext; [|done|done].
  intros b Hb. rewrite (initialised_encrypt _ _ _ _ _ _ Hi) by (lia || done).
  split; [done|]. apply Cipher_ok; [|done]. apply KeyExpansion_ok;
    [done|apply length_key_matrix|apply key_matrix_ok, (proj1 Hk)|lia].
Qed.

(** on a buffer of whole blocks or more, [RijndaelBlockEncrypt] in ECB or CBC
    mode writes the textbook mode over the AES of FIPS-197 of the input blocks,
    whether input and output are one buffer or two; it returns the number of
    bits of the whole blocks and leaves every other byte alone. *)
Theorem RijndaelBlockEncrypt_is_AES mode key keyLen iv Nk R rj mem input inputLen outBuffer :
  opened mode RIJNDAEL_Direction_Encrypt key keyLen iv rj → key_ok key iv →
  key_params keyLen = Some (4 * Nk, R)%nat → block_mode mode → bytes_ok mem →
  128 ≤ inputLen → compat input outBuffer (Z.to_nat (inputLen / 128)) →
  (outBuffer + 16 * Z.to_nat (inputLen / 128) ≤ length mem)%nat →
  RijndaelBlockEncrypt rj mem (Some input) inputLen outBuffer
  = (128 * (inputLen / 128),
     store_blocks mem outBuffer
       (mode_encrypt iv (Cipher R (KeyExpansion Nk R (key_matrix key Nk))) mode
          (blocks_at mem input (Z.to_nat (inputLen / 128))))).
Proof.
  intros Ho Hk Hkp Hmode Hmem Hlen Hc Hout.
  rewrite (RijndaelBlockEncrypt_spec key keyLen iv Hk mode) by done.
  rewrite Z2Nat.id by (apply Z.div_pos; lia). do 2 f_equal.
  apply (mode_encrypt_AES _ key keyLen); try done. by apply blocks_at_ok.
Qed.

(** decrypting in place what was encrypted in place, in ECB or CBC mode with
    one key and one initialisation vector, restores the whole memory; both calls
    return the number of bits of the whole blocks. *)
Theorem RijndaelBlock_roundtrip mode key keyLen iv re rd mem p inputLen :
  opened mode RIJNDAEL_Direction_Encrypt key keyLen iv re →
  opened mode RIJNDAEL_Direction_Decrypt key keyLen iv rd →
  key_ok key iv → block_mode mode → bytes_ok mem → 128 ≤ inputLen →
  (p + 16 * Z.to_nat (inputLen / 128) ≤ length mem)%nat →
  ∃ mem', RijndaelBlockEncrypt re mem (Some p) inputLen p = (128 * (inputLen / 128), mem') ∧
    RijndaelBlockDecrypt rd mem' (Some p) inputLen p = (128 * (inputLen / 128), mem).
Proof.
  intros Hoe Hod Hk Hmode Hmem Hlen Hp.
  assert (compat p p (Z.to_nat (inputLen / 128))) as Hc by (left; done).
  destruct (opened_fields key keyLen iv Hk _ _ _ Hoe) as (_ & _ & _ & _ & Hiv).
  pose proof (opened_BlockCipher _ _ _ _ _ _ _ _ Hoe Hod Hk Hk) as Hcipher.
  assert (0 ≤ inputLen / 128) by (apply Z.div_pos; lia).
  eexists. rewrite (RijndaelBlockEncrypt_spec key keyLen iv Hk mode) by done.
  rewrite (RijndaelBlockDecrypt_spec key keyLen iv Hk mode) by (done || lia).
  rewrite Z2Nat.id by done. split; [done|]. f_equal.
  set (n := Z.to_nat (inputLen / 128)) in *.
  set (cs := mode_encrypt _ _ _ _).
  assert (length cs = n) as Hcs by (unfold cs; rewrite length_mode_encrypt; apply length_blocks_at).
  replace n with (length cs) at 1. rewrite blocks_at_store_blocks by lia.
  unfold cs at 2. rewrite mode_decrypt_encrypt by (done || by apply blocks_at_ok).
  apply store_blocks_restore; [apply length_store_blocks|done|].
  intros i Hi. apply nth_store_blocks_ne. lia.
Qed.

(** The plaintext of a padded message: its bytes, then [16 - m] bytes of value
    [16 - m]. *)
Lemma pad_last_block mem p m :
  (m < 16)%nat → (p + m ≤ length mem)%nat → bytes_ok mem →
  let last := load16 (pad_block mem p m (16 - Z.of_nat m)) 0 in
  block_bytes last = take m (drop p mem) ++ replicate (16 - m) (16 - Z.of_nat m) ∧
  nth 15 (block_bytes last) 0 = 16 - Z.of_nat m ∧
  padding_ok (block_bytes last) (16 - Z.of_nat m) = true ∧
  take (Z.to_nat (16 - (16 - Z.of_nat m))) (block_bytes last) = take m (drop p mem) ∧
  block_ok last.
Proof.
  intros Hm Hp Hmem last. subst last.
  assert (length (take m (drop p mem)) = m) as Hl by (rewrite length_take, length_drop; lia).
  assert (length (pad_block mem p m (16 - Z.of_nat m)) = 16%nat) as Hl16.
  { unfold pad_block. rewrite length_app, length_replicate. lia. }
  rewrite block_bytes_load16 by lia. rewrite drop_0, firstn_all2 by lia.
  unfold pad_block. split_and!; [done| | | |].
  - rewrite app_nth2, Hl by lia. apply nth_lookup_Some, lookup_replicate_2. lia.
  - unfold padding_ok. replace (Z.to_nat (16 - (16 - Z.of_nat m))) with m by lia.
    rewrite drop_app_length' by lia. apply forallb_forall.
    intros x [-> _]%list_elem_of_In%elem_of_replicate. lia.
  - replace (Z.to_nat (16 - (16 - Z.of_nat m))) with m by lia. apply take_app_length'. lia.
  - apply load16_ok. unfold pad_block. apply Forall_app. split.
    + by apply Forall_take, Forall_drop.
    + apply Forall_replicate. unfold uint. lia.
Qed.

Lemma take_drop_nth mem p m i : (i < m)%nat → nth i (take m (drop p mem)) 0 = nth (p + i) mem 0.
Proof. intros. by rewrite nth_firstn, nth_skipn, (proj2 (Nat.ltb_lt i m)). Qed.

(** The blocks at [p] hold the bytes at [p]. *)
Lemma nth_store_blocks_blocks_at mem mem' input outBuffer n i :
  (outBuffer + 16 * n ≤ length mem')%nat → (input + 16 * n ≤ length mem)%nat → (i < 16 * n)%nat →
  nth (outBuffer + i) (store_blocks mem' outBuffer (blocks_at mem input n)) 0 = nth (input + i) mem 0.
Proof.
  revert mem' input outBuffer i. induction n as [|n IH]; intros mem' input outBuffer i Hout Hin Hi; [lia|].
  cbn [blocks_at store_blocks]. destruct (decide (i < 16)%nat) as [Hlt|Hge].
  - rewrite nth_store_blocks_ne by lia. unfold store16. rewrite nth_list_inserts, length_block_bytes.
    rewrite decide_True by lia. rewrite block_bytes_load16, take_drop_nth by lia. f_equal. lia.
  - replace (outBuffer + i)%nat with (outBuffer + 16 + (i - 16))%nat by lia.
    rewrite IH by (rewrite ?length_store16; lia). f_equal. lia.
Qed.

Section pad_roundtrip.
Context (mode : Z) (key : list Z) (keyLen : Z) (iv : option (list Z)) (re rd : Rijndael).
Context (Hoe : opened mode RIJNDAEL_Direction_Encrypt key keyLen iv re).
Context (Hod : opened mode RIJNDAEL_Direction_Decrypt key keyLen iv rd).
Context (Hk : key_ok key iv) (Hmode : block_mode mode).

Lemma pad_roundtrip mem input n m outBuffer :
  bytes_ok mem → (m < 16)%nat → (0 < n + m)%nat → 16 * (Z.of_nat n + 1) < 2 ^ 31 → compat input outBuffer (S n) →
  (input + 16 * n + m ≤ length mem)%nat → (outBuffer + 16 * S n ≤ length mem)%nat →
  ∃ mem' mem'',
    RijndaelPadEncrypt re mem (Some input) (16 * Z.of_nat n + Z.of_nat m) outBuffer
    = (16 * (Z.of_nat n + 1), mem') ∧
    RijndaelPadDecrypt rd mem' (Some outBuffer) (16 * (Z.of_nat n + 1)) outBuffer
    = (if bad_padLen mode (16 - Z.of_nat m) then RIJNDAEL_CORRUPTED_DATA
       else 16 * Z.of_nat n + Z.of_nat m, mem'') ∧
    ∀ i, (i < 16 * n + if bad_padLen mode (16 - Z.of_nat m) then 0 else m)%nat →
      nth (outBuffer + i) mem'' 0 = nth (input + i) mem 0.
Proof.
  intros Hmem Hm Hnm Hmax Hc Hin Hout.
  destruct (opened_fields key keyLen iv Hk _ _ _ Hoe) as (_ & _ & _ & _ & Hiv).
  pose proof (opened_BlockCipher _ _ _ _ _ _ _ _ Hoe Hod Hk Hk) as Hcipher.
  destruct (pad_last_block mem (input + 16 * n) m Hm Hin Hmem)
    as (Hbytes & Hpl & Hpad & Htake & Hlast).
  set (last := load16 (pad_block _ _ _ _) 0) in *.
  set (mem' := store_blocks mem outBuffer (mode_encrypt iv (RijndaelEncrypt re) mode
                 (padded_blocks mem input n m))).
  assert (length (padded_blocks mem input n m) = S n) as Hlpb.
  { unfold padded_blocks. rewrite length_app, length_blocks_at. cbn. lia. }
  assert (Forall block_ok (padded_blocks mem input n m)) as Hpbok.
  { apply Forall_app. split; [by apply blocks_at_ok|]. by constructor. }
  exists mem'.
  rewrite (RijndaelPadDecrypt_spec key keyLen iv Hk mode rd mem' outBuffer n outBuffer
             (blocks_at mem input n) last); try done.
  2: by left.
  2: by apply length_blocks_at.
  2: { unfold mem'. replace (S n) with (length (mode_encrypt iv (RijndaelEncrypt re) mode
         (padded_blocks mem input n m))) at 1 by (by rewrite length_mode_encrypt, Hlpb).
       rewrite blocks_at_store_blocks by (rewrite length_mode_encrypt, Hlpb; lia).
       by apply mode_decrypt_encrypt. }
  rewrite Hpl, Hpad, Htake, orb_false_r.
  rewrite (RijndaelPadEncrypt_spec key keyLen iv Hk mode) by done.
  assert (length mem' = length mem) as Hlm by apply length_store_blocks.
  destruct (bad_padLen mode (16 - Z.of_nat m)).
  - eexists. split_and!; [done|done|]. intros i Hi.
    rewrite nth_store_blocks_blocks_at by lia. done.
  - eexists. split_and!; [done|f_equal; lia|]. intros i Hi. rewrite nth_list_inserts.
    rewrite length_take, length_drop, length_store_blocks, Hlm.
    case_decide as Hd.
    + rewrite take_drop_nth by lia. f_equal. lia.
    + rewrite nth_store_blocks_blocks_at by lia. done.
Qed.
End pad_roundtrip.

(** Splitting a byte count the way the C code does. *)
Lemma octets_split octets :
  0 < octets →
  ∃ n m, octets = 16 * Z.of_nat n + Z.of_nat m ∧ (m < 16)%nat ∧ (0 < n + m)%nat ∧
    octets / 16 = Z.of_nat n ∧ octets `mod` 16 = Z.of_nat m.
Proof.
  intros Ho. exists (Z.to_nat (octets / 16)), (Z.to_nat (octets `mod` 16)).
  pose proof (Z.div_mod octets 16). pose proof (Z.mod_pos_bound octets 16).
  pose proof (Z.div_pos octets 16). rewrite !Z2Nat.id by lia. lia.
Qed.

(** C30: in CBC mode a message of any positive length below [2^31 - 16], from where on
    the [int] that is returned overflows, survives padding: the padded
    ciphertext decrypts in place to the message, and [RijndaelPadDecrypt] returns
    its length. *)
Theorem RijndaelPad_CBC_roundtrip key keyLen iv re rd mem input octets outBuffer :
  opened RIJNDAEL_Direction_Mode_CBC RIJNDAEL_Direction_Encrypt key keyLen iv re →
  opened RIJNDAEL_Direction_Mode_CBC RIJNDAEL_Direction_Decrypt key keyLen iv rd →
  key_ok key iv → bytes_ok mem → 0 < octets < 2 ^ 31 - 16 →
  compat input outBuffer (S (Z.to_nat (octets / 16))) →
  Z.of_nat input + octets ≤ Z.of_nat (length mem) →
  Z.of_nat outBuffer + 16 * (octets / 16 + 1) ≤ Z.of_nat (length mem) →
  ∃ mem' mem'',
    RijndaelPadEncrypt re mem (Some input) octets outBuffer = (16 * (octets / 16 + 1), mem') ∧
    RijndaelPadDecrypt rd mem' (Some outBuffer) (16 * (octets / 16 + 1)) outBuffer
    = (octets, mem'') ∧
    ∀ i, (i < Z.to_nat octets)%nat → nth (outBuffer + i) mem'' 0 = nth (input + i) mem 0.
Proof.
  intros Hoe Hod Hk Hmem Ho Hc Hin Hout.
  destruct (octets_split octets (proj1 Ho)) as (n & m & Heq & Hm & Hnm & Hdiv & Hmod).
  rewrite Hdiv in *. rewrite Nat2Z.id in Hc.
  destruct (pad_roundtrip _ key keyLen iv re rd Hoe Hod Hk (or_intror eq_refl)
    mem input n m outBuffer) as (mem' & mem'' & He & Hd & Hi); [done..|lia|done|lia|lia|].
  assert (bad_padLen RIJNDAEL_Direction_Mode_CBC (16 - Z.of_nat m) = false) as Hb.
  { unfold bad_padLen. change (_ =? _) with false. cbn iota. lia. }
  rewrite Hb in *. rewrite <-Heq in *. exists mem', mem''. split_and!; [done..|].
  intros i Hlt. apply Hi. lia.
Qed.

(** in ECB mode the padding is not removed when the message fills its blocks:
    [RijndaelPadEncrypt] appends a block of 16s, and [RijndaelPadDecrypt] rejects
    that block as corrupted data because its test is [padLen >= 16]. For every
    other length the message comes back. *)
Theorem RijndaelPad_ECB_roundtrip key keyLen iv re rd mem input octets outBuffer :
  opened RIJNDAEL_Direction_Mode_ECB RIJNDAEL_Direction_Encrypt key keyLen iv re →
  opened RIJNDAEL_Direction_Mode_ECB RIJNDAEL_Direction_Decrypt key keyLen iv rd →
  key_ok key iv → bytes_ok mem → 0 < octets < 2 ^ 31 - 16 →
  compat input outBuffer (S (Z.to_nat (octets / 16))) →
  Z.of_nat input + octets ≤ Z.of_nat (length mem) →
  Z.of_nat outBuffer + 16 * (octets / 16 + 1) ≤ Z.of_nat (length mem) →
  ∃ mem' mem'',
    RijndaelPadEncrypt re mem (Some input) octets outBuffer = (16 * (octets / 16 + 1), mem') ∧
    RijndaelPadDecrypt rd mem' (Some outBuffer) (16 * (octets / 16 + 1)) outBuffer
    = (if octets `mod` 16 =? 0 then RIJNDAEL_CORRUPTED_DATA else octets, mem'') ∧
    ∀ i, (i < Z.to_nat octets)%nat → nth (outBuffer + i) mem'' 0 = nth (input + i) mem 0.
Proof.
  intros Hoe Hod Hk Hmem Ho Hc Hin Hout.
  destruct (octets_split octets (proj1 Ho)) as (n & m & Heq & Hm & Hnm & Hdiv & Hmod).
  rewrite Hdiv in *. rewrite Nat2Z.id in Hc.
  destruct (pad_roundtrip _ key keyLen iv re rd Hoe Hod Hk (or_introl eq_refl)
    mem input n m outBuffer) as (mem' & mem'' & He & Hd & Hi); [done..|lia|done|lia|lia|].
  assert (bad_padLen RIJNDAEL_Direction_Mode_ECB (16 - Z.of_nat m) = (octets `mod` 16 =? 0)) as Hb.
  { unfold bad_padLen. change (RIJNDAEL_Direction_Mode_ECB =? _) with true. cbn iota. lia. }
  rewrite Hb in *. rewrite <-Heq in *. exists mem', mem''. split_and!; [done..|].
  intros i Hlt. apply Hi. destruct (Z.eqb_spec (octets `mod` 16) 0); lia.
Qed.

(** a call of [RijndaelInit] that reports an error leaves the object unusable:
    the four cipher functions then refuse it with [RIJNDAEL_NOT_INITIALIZED] and
    touch no memory. The call fails exactly for an unknown mode, direction or
    key length or a null key, checked in this order. *)
Theorem RijndaelInit_error rj mode dir key keyLen iv code rj' :
  RijndaelInit rj mode dir key keyLen iv = (code, rj') →
  (code =
     if negb (bool_decide (mode = 0 ∨ mode = 1 ∨ mode = 2)) then RIJNDAEL_UNSUPPORTED_MODE
     else if negb (bool_decide (dir = 0 ∨ dir = 1)) then RIJNDAEL_UNSUPPORTED_DIRECTION
     else if negb (bool_decide (keyLen = 0 ∨ keyLen = 1 ∨ keyLen = 2))
     then RIJNDAEL_UNSUPPORTED_KEY_LENGTH
     else match key with None => RIJNDAEL_BAD_KEY | Some _ => RIJNDAEL_SUCCESS end) ∧
  (code ≠ RIJNDAEL_SUCCESS → ∀ mem input n outBuffer,
     RijndaelBlockEncrypt rj' mem input n outBuffer = (RIJNDAEL_NOT_INITIALIZED, mem) ∧
     RijndaelBlockDecrypt rj' mem input n outBuffer = (RIJNDAEL_NOT_INITIALIZED, mem) ∧
     RijndaelPadEncrypt rj' mem input n outBuffer = (RIJNDAEL_NOT_INITIALIZED, mem) ∧
     RijndaelPadDecrypt rj' mem input n outBuffer = (RIJNDAEL_NOT_INITIALIZED, mem)).
Proof.
  intros Hinit.
  assert (code ≠ RIJNDAEL_SUCCESS → m_state rj' = RIJNDAEL_State_Invalid) as Hst.
  { revert Hinit. unfold RijndaelInit. repeat case_match; by intros [= <- <-]. }
  split.
  - revert Hinit. unfold RijndaelInit.
    destruct (negb (mode =? RIJNDAEL_Direction_Mode_CBC) && _ && _) eqn:Em.
    { intros [= <- _]. rewrite (bool_decide_false (mode = _ ∨ _)); [done|].
      unfold RIJNDAEL_Direction_Mode_CBC, RIJNDAEL_Direction_Mode_ECB, RIJNDAEL_Direction_Mode_CFB1 in Em. lia. }
    rewrite (bool_decide_true (mode = _ ∨ _))
      by (unfold RIJNDAEL_Direction_Mode_CBC, RIJNDAEL_Direction_Mode_ECB, RIJNDAEL_Direction_Mode_CFB1 in Em; lia).
    destruct (negb (dir =? RIJNDAEL_Direction_Encrypt) && _) eqn:Ed.
    { intros [= <- _]. rewrite (bool_decide_false (dir = _ ∨ _)); [done|].
      unfold RIJNDAEL_Direction_Encrypt, RIJNDAEL_Direction_Decrypt in Ed. lia. }
    rewrite (bool_decide_true (dir = _ ∨ _))
      by (unfold RIJNDAEL_Direction_Encrypt, RIJNDAEL_Direction_Decrypt in Ed; lia).
    unfold key_params, RIJNDAEL_Direction_KeyLength_Key16Bytes,
      RIJNDAEL_Direction_KeyLength_Key24Bytes, RIJNDAEL_Direction_KeyLength_Key32Bytes.
    destruct (Z.eqb_spec keyLen 0) as [->|]; [destruct key; by intros [= <- _]|].
    destruct (Z.eqb_spec keyLen 1) as [->|]; [destruct key; by intros [= <- _]|].
    destruct (Z.eqb_spec keyLen 2) as [->|]; [destruct key; by intros [= <- _]|].
    intros [= <- _]. rewrite bool_decide_false; [done|]. lia.
  - intros Hc mem input n outBuffer. specialize (Hst Hc).
    unfold RijndaelBlockEncrypt, RijndaelBlockDecrypt, RijndaelPadEncrypt, RijndaelPadDecrypt.
    by rewrite Hst.
Qed.

(** in CFB1 mode [RijndaelBlockEncrypt] reports the bits of all whole blocks
    but only ever writes the first 16 bytes of the output, and never reads the
    input: the result is the same for every input pointer. *)
Theorem RijndaelBlockEncrypt_CFB1_frame key keyLen iv rj mem input inputLen outBuffer :
  opened RIJNDAEL_Direction_Mode_CFB1 RIJNDAEL_Direction_Encrypt key keyLen iv rj →
  key_ok key iv → 0 < inputLen →
  ∃ mem', RijndaelBlockEncrypt rj mem (Some input) inputLen outBuffer
          = (128 * (inputLen / 128), mem') ∧ length mem' = length mem ∧
    (∀ i, (i < outBuffer ∨ outBuffer + 16 ≤ i)%nat → nth i mem' 0 = nth i mem 0) ∧
    ∀ input', RijndaelBlockEncrypt rj mem (Some input') inputLen outBuffer
              = RijndaelBlockEncrypt rj mem (Some input) inputLen outBuffer.
Proof.
  intros Ho Hk Hlen.
  destruct (opened_fields key keyLen iv Hk _ _ _ Ho) as (Hst & Hm & Hd & _ & _).
  assert (0 ≤ inputLen / 128) by (apply Z.div_pos; lia).
  unfold RijndaelBlockEncrypt. rewrite Hst, Hm, Hd. cbn [negb Z.eqb].
  rewrite (proj2 (Z.leb_gt inputLen 0)), Z2Nat.id by lia.
  eexists. split_and!; [done| | |done].
  - by destruct (cfb1_enc_loop_frame rj (Z.to_nat (inputLen / 128)) (m_initVector rj) mem
      outBuffer (outBuffer + 16) ltac:(lia)).
  - intros i Hi. by apply cfb1_enc_loop_frame.
Qed.


(** An object as the stack of the caller may hold it. *)
Definition blank : Rijndael := mkRijndael 77 5 9 zero_iv 3 (replicate 60 w_zero).

Lemma blank_wf : rijndael_wf blank.
Proof. split_and!; [done|apply Forall_replicate; by split_bytes|by split_bytes]. Qed.

Lemma opened_intro mode dir key keyLen iv :
  fst (RijndaelInit blank mode dir (Some key) keyLen iv) = RIJNDAEL_SUCCESS →
  opened mode dir key keyLen iv (snd (RijndaelInit blank mode dir (Some key) keyLen iv)).
Proof.
  intros Hs. exists blank. split; [apply blank_wf|].
  rewrite <-Hs. apply surjective_pairing.
Qed.

Definition fips_key (n : nat) : list Z := seqZ 0 (Z.of_nat n).
Definition fips_block : block :=
  load16 [0x00;0x11;0x22;0x33;0x44;0x55;0x66;0x77;0x88;0x99;0xaa;0xbb;0xcc;0xdd;0xee;0xff] 0.
Definition fips_mem : list Z := seqZ 100 80.

Lemma bytes_ok_dec l : forallb (λ x, (0 <=? x) && (x <? 256)) l = true → bytes_ok l.
Proof.
  intros H. apply Forall_forall. intros x Hx%list_elem_of_In.
  rewrite forallb_forall in H. specialize (H x Hx). unfold uint. lia.
Qed.

Lemma block_ok_dec b : forallb (λ x, (0 <=? x) && (x <? 256)) (block_bytes b) = true → block_ok b.
Proof.
  intros H%bytes_ok_dec. destruct b as [[] [] [] []]. unfold block_bytes, word_bytes in H.
  cbn in H. rewrite !Forall_cons in H. split_bytes; tauto.
Qed.

Lemma key_ok_dec key iv :
  forallb (λ x, (0 <=? x) && (x <? 256)) (key ++ default [] iv) = true → key_ok key iv.
Proof.
  intros H%bytes_ok_dec. apply Forall_app in H as [Hk Hi].
  split; [done|]. intros v ->. done.
Qed.

(** Objects opened by [RijndaelInit] for key length [kl] (of [n] bytes). *)
Definition obj (mode dir kl : Z) (n : nat) : Rijndael :=
  snd (RijndaelInit blank mode dir (Some (fips_key n)) kl (Some fips_mem)).

Ltac conc := first [ apply opened_intro; vm_compute; reflexivity
                   | apply key_ok_dec; vm_compute; reflexivity
                   | apply block_ok_dec; vm_compute; reflexivity
                   | apply bytes_ok_dec; vm_compute; reflexivity
                   | done
                   | vm_compute; reflexivity
                   | vm_compute; lia ].

(** FIPS-197, C.1 to C.3. *)
Example fips_128 : block_bytes (RijndaelEncrypt (obj 0 0 0 16) fips_block)
  = [0x69;0xc4;0xe0;0xd8;0x6a;0x7b;0x04;0x30;0xd8;0xcd;0xb7;0x80;0x70;0xb4;0xc5;0x5a].
Proof. vm_compute. reflexivity. Qed.
Example fips_192 : block_bytes (RijndaelEncrypt (obj 0 0 1 24) fips_block)
  = [0xdd;0xa9;0x7c;0xa4;0x86;0x4c;0xdf;0xe0;0x6e;0xaf;0x70;0xa0;0xec;0x0d;0x71;0x91].
Proof. vm_compute. reflexivity. Qed.
Example fips_256 : block_bytes (RijndaelEncrypt (obj 0 0 2 32) fips_block)
  = [0x8e;0xa2;0xb7;0xca;0x51;0x67;0x45;0xbf;0xea;0xfc;0x49;0x90;0x4b;0x49;0x60;0x89].
Proof. vm_compute. reflexivity. Qed.

Lemma RijndaelEncrypt_is_AES_witness :
  RijndaelEncrypt (obj 0 0 2 32) fips_block
  = Cipher 14 (KeyExpansion 8 14 (key_matrix (fips_key 32) 8)) fips_block.
Proof. apply (RijndaelEncrypt_is_AES 0 (fips_key 32) 2 (Some fips_mem)); conc. Defined.

Lemma RijndaelDecrypt_RijndaelEncrypt_witness :
  RijndaelDecrypt (obj 1 1 1 24) (RijndaelEncrypt (obj 0 0 1 24) fips_block) = fips_block.
Proof.
  apply (RijndaelDecrypt_RijndaelEncrypt 0 1 (fips_key 24) 1 (Some fips_mem) (Some fips_mem)); conc.
Defined.

Lemma RijndaelBlock_roundtrip_witness :
  ∃ mem', RijndaelBlockEncrypt (obj 1 0 0 16) fips_mem (Some 3%nat) 300 3 = (256, mem') ∧
    RijndaelBlockDecrypt (obj 1 1 0 16) mem' (Some 3%nat) 300 3 = (256, fips_mem).
Proof.
  apply (RijndaelBlock_roundtrip 1 (fips_key 16) 0 (Some fips_mem)); conc || (right; done).
Defined.

Lemma RijndaelBlockEncrypt_is_AES_witness :
  RijndaelBlockEncrypt (obj 1 0 0 16) fips_mem (Some 3%nat) 300 40
  = (256, store_blocks fips_mem 40
       (mode_encrypt (Some fips_mem) (Cipher 10 (KeyExpansion 4 10 (key_matrix (fips_key 16) 4))) 1
          (blocks_at fips_mem 3 2))).
Proof.
  apply (RijndaelBlockEncrypt_is_AES 1 (fips_key 16) 0 (Some fips_mem) 4 10 _ fips_mem 3 300 40);
    conc || (right; done).
Defined.

(** Padding 35 bytes to three blocks, and 32 bytes to three blocks. *)
Lemma RijndaelPad_CBC_roundtrip_witness :
  ∃ mem' mem'',
    RijndaelPadEncrypt (obj 1 0 0 16) fips_mem (Some 7%nat) 35 7 = (48, mem') ∧
    RijndaelPadDecrypt (obj 1 1 0 16) mem' (Some 7%nat) 48 7 = (35, mem'') ∧
    ∀ i, (i < 35)%nat → nth (7 + i) mem'' 0 = nth (7 + i) fips_mem 0.
Proof.
  apply (RijndaelPad_CBC_roundtrip (fips_key 16) 0 (Some fips_mem) _ _ fips_mem 7 35 7);
    conc || (left; done).
Defined.

Lemma RijndaelPad_ECB_roundtrip_witness :
  ∃ mem' mem'',
    RijndaelPadEncrypt (obj 0 0 0 16) fips_mem (Some 7%nat) 32 7 = (48, mem') ∧
    RijndaelPadDecrypt (obj 0 1 0 16) mem' (Some 7%nat) 48 7 = (RIJNDAEL_CORRUPTED_DATA, mem'') ∧
    ∀ i, (i < 32)%nat → nth (7 + i) mem'' 0 = nth (7 + i) fips_mem 0.
Proof.
  apply (RijndaelPad_ECB_roundtrip (fips_key 16) 0 (Some fips_mem) _ _ fips_mem 7 32 7);
    conc || (left; done).
Defined.

Lemma RijndaelInit_error_witness :
  RijndaelBlockEncrypt (snd (RijndaelInit blank 1 0 (Some (fips_key 16)) 3 None))
    fips_mem (Some 3%nat) 256 3 = (RIJNDAEL_NOT_INITIALIZED, fips_mem).
Proof.
  apply (RijndaelInit_error blank 1 0 (Some (fips_key 16)) 3 None RIJNDAEL_UNSUPPORTED_KEY_LENGTH);
    [reflexivity|done].
Defined.

Lemma RijndaelBlockEncrypt_CFB1_frame_witness :
  ∃ mem', RijndaelBlockEncrypt (obj 2 0 0 16) fips_mem (Some 7%nat) 384 30 = (384, mem') ∧
    length mem' = 80%nat ∧
    (∀ i, (i < 30 ∨ 46 ≤ i)%nat → nth i mem' 0 = nth i fips_mem 0) ∧
    ∀ input', RijndaelBlockEncrypt (obj 2 0 0 16) fips_mem (Some input') 384 30
              = RijndaelBlockEncrypt (obj 2 0 0 16) fips_mem (Some 7%nat) 384 30.
Proof.
  apply (RijndaelBlockEncrypt_CFB1_frame (fips_key 16) 0 (Some fips_mem) _ fips_mem 7 384 30); conc.
Defined.
