(* ===== verification/Varint.v ===== *)
(** * Variable-length integers and four-byte integers

    The model of [putVarint64], [sqlite3PutVarint], [sqlite3GetVarint],
    [sqlite3GetVarint32], [sqlite3VarintLen], [sqlite3Get4byte] and
    [sqlite3Put4byte] of sqlite3.c, and of the macros [getVarint32] and
    [putVarint32]: the integers of a database file.

    A pointer [p] is the list of the bytes from [p] to the end of its buffer;
    reading or writing past the end is [None]. *)
From S2P Require Import Prelude Words.
Local Open Scope Z_scope.

(** [p[i] = v]. *)
Definition poke (p : list Z) (i : nat) (v : Z) : option (list Z) :=
  if (i <? length p)%nat then Some (<[i:=v]> p) else None.

(** ** Writing *)

(** [for(i=7; i>=0; i--){ p[i] = (u8)((v & 0x7f) | 0x80); v >>= 7; }], for the
    [n] iterations from [i = n-1] down. *)
Fixpoint putVarint64_nine (n : nat) (p : list Z) (v : Z) : option (list Z) :=
  match n with
  | O => Some p
  | S i =>
    p ← poke p i (u8 (Z.lor (Z.land v 0x7f) 0x80));
    putVarint64_nine i p (Z.shiftr v 7)
  end.

(** [do{ buf[n++] = (u8)((v & 0x7f) | 0x80); v >>= 7; }while( v!=0 )]: [buf] is
    the part of [u8 buf[10]] that has been written, so [n] is its length; a
    write past the tenth byte is [None], and [fuel] bounds the iterations. *)
Fixpoint putVarint64_collect (fuel : nat) (buf : list Z) (v : Z) : option (list Z) :=
  match fuel with
  | O => None
  | S fuel =>
    if (10 <=? length buf)%nat then None
    else
      let buf := buf ++ [u8 (Z.lor (Z.land v 0x7f) 0x80)] in
      let v := Z.shiftr v 7 in
      if v =? 0 then Some buf else putVarint64_collect fuel buf v
  end.

(** [for(i=0, j=n-1; j>=0; j--, i++) p[i] = buf[j]], from a given [i] on, with
    [n = j+1] iterations left. *)
Fixpoint putVarint64_copy (n i : nat) (p buf : list Z) : option (list Z) :=
  match n with
  | O => Some p
  | S j => x ← buf !! j; p ← poke p i x; putVarint64_copy j (S i) p buf
  end.

(** The bytes of the buffer and the number of bytes written. *)
Definition putVarint64 (p : list Z) (v : Z) : option (list Z * Z) :=
  if negb (Z.land v (Z.shiftl 0xff000000 32) =? 0) then
    p ← poke p 8 (u8 v);
    p ← putVarint64_nine 8 p (Z.shiftr v 8);
    Some (p, 9)
  else
    buf ← putVarint64_collect 10 [] v;
    let n := length buf in
    b0 ← buf !! 0%nat;
    let buf := <[0%nat := Z.land b0 0x7f]> buf in
    p ← putVarint64_copy n 0 p buf;
    Some (p, Z.of_nat n).

Definition sqlite3PutVarint (p : list Z) (v : Z) : option (list Z * Z) :=
  if v <=? 0x7f then
    p ← poke p 0 (u8 (Z.land v 0x7f));
    Some (p, 1)
  else if v <=? 0x3fff then
    p ← poke p 0 (u8 (Z.lor (Z.land (Z.shiftr v 7) 0x7f) 0x80));
    p ← poke p 1 (u8 (Z.land v 0x7f));
    Some (p, 2)
  else putVarint64 p v.

(** The macro, on an argument of type [int] or [u32]. *)
Definition putVarint32 (p : list Z) (v : Z) : option (list Z * Z) :=
  if u32 v <? 0x80 then
    p ← poke p 0 (u8 v);
    Some (p, 1)
  else '(p, n) ← sqlite3PutVarint p (u64 v); Some (p, u8 n).

(** ** Reading *)

Definition SLOT_2_0 : Z := 0x001fc07f.
Definition SLOT_4_2_0 : Z := 0xf01fc07f.

(** The number of bytes read and the value. *)
Definition sqlite3GetVarint (p : list Z) : option (Z * Z) :=
  a ← p !! 0%nat;
  if Z.land a 0x80 =? 0 then Some (1, a) else
  b ← p !! 1%nat;
  if Z.land b 0x80 =? 0 then
    let a := Z.land a 0x7f in
    let a := u32 (Z.shiftl a 7) in
    let a := Z.lor a b in
    Some (2, a)
  else
  let a := u32 (Z.shiftl a 14) in
  p2 ← p !! 2%nat;
  let a := Z.lor a p2 in
  if Z.land a 0x80 =? 0 then
    let a := Z.land a SLOT_2_0 in
    let b := Z.land b 0x7f in
    let b := u32 (Z.shiftl b 7) in
    let a := Z.lor a b in
    Some (3, a)
  else
  let a := Z.land a SLOT_2_0 in
  let b := u32 (Z.shiftl b 14) in
  p3 ← p !! 3%nat;
  let b := Z.lor b p3 in
  if Z.land b 0x80 =? 0 then
    let b := Z.land b SLOT_2_0 in
    let a := u32 (Z.shiftl a 7) in
    let a := Z.lor a b in
    Some (4, a)
  else
  let b := Z.land b SLOT_2_0 in
  let s := a in
  let a := u32 (Z.shiftl a 14) in
  p4 ← p !! 4%nat;
  let a := Z.lor a p4 in
  if Z.land a 0x80 =? 0 then
    let b := u32 (Z.shiftl b 7) in
    let a := Z.lor a b in
    let s := Z.shiftr s 18 in
    Some (5, Z.lor (u64 (Z.shiftl s 32)) a)
  else
  let s := u32 (Z.shiftl s 7) in
  let s := Z.lor s b in
  let b := u32 (Z.shiftl b 14) in
  p5 ← p !! 5%nat;
  let b := Z.lor b p5 in
  if Z.land b 0x80 =? 0 then
    let a := Z.land a SLOT_2_0 in
    let a := u32 (Z.shiftl a 7) in
    let a := Z.lor a b in
    let s := Z.shiftr s 18 in
    Some (6, Z.lor (u64 (Z.shiftl s 32)) a)
  else
  let a := u32 (Z.shiftl a 14) in
  p6 ← p !! 6%nat;
  let a := Z.lor a p6 in
  if Z.land a 0x80 =? 0 then
    let a := Z.land a SLOT_4_2_0 in
    let b := Z.land b SLOT_2_0 in
    let b := u32 (Z.shiftl b 7) in
    let a := Z.lor a b in
    let s := Z.shiftr s 11 in
    Some (7, Z.lor (u64 (Z.shiftl s 32)) a)
  else
  let a := Z.land a SLOT_2_0 in
  let b := u32 (Z.shiftl b 14) in
  p7 ← p !! 7%nat;
  let b := Z.lor b p7 in
  if Z.land b 0x80 =? 0 then
    let b := Z.land b SLOT_4_2_0 in
    let a := u32 (Z.shiftl a 7) in
    let a := Z.lor a b in
    let s := Z.shiftr s 4 in
    Some (8, Z.lor (u64 (Z.shiftl s 32)) a)
  else
  let a := u32 (Z.shiftl a 15) in
  p8 ← p !! 8%nat;
  let a := Z.lor a p8 in
  let b := Z.land b SLOT_2_0 in
  let b := u32 (Z.shiftl b 8) in
  let a := Z.lor a b in
  let s := u32 (Z.shiftl s 4) in
  b ← p !! (8 - 4)%nat;
  let b := Z.land b 0x7f in
  let b := Z.shiftr b 3 in
  let s := Z.lor s b in
  Some (9, Z.lor (u64 (Z.shiftl s 32)) a).

Definition SQLITE_MAX_U32 : Z := 0xffffffff.

(** The function, compiled with the macro [getVarint32] defined: the one-byte
    case is the macro's. *)
Definition sqlite3GetVarint32 (p : list Z) : option (Z * Z) :=
  a ← p !! 0%nat;
  b ← p !! 1%nat;
  if Z.land b 0x80 =? 0 then
    let a := Z.land a 0x7f in
    let a := u32 (Z.shiftl a 7) in
    Some (2, Z.lor a b)
  else
  let a := u32 (Z.shiftl a 14) in
  p2 ← p !! 2%nat;
  let a := Z.lor a p2 in
  if Z.land a 0x80 =? 0 then
    let a := Z.land a (Z.lor (Z.shiftl 0x7f 14) 0x7f) in
    let b := Z.land b 0x7f in
    let b := u32 (Z.shiftl b 7) in
    Some (3, Z.lor a b)
  else
  '(n, v64) ← sqlite3GetVarint p;
  Some (n, if negb (Z.land v64 SQLITE_MAX_U32 =? v64) then 0xffffffff else u32 v64).

Definition getVarint32 (p : list Z) : option (Z * Z) :=
  a ← p !! 0%nat;
  if a <? 0x80 then Some (1, a) else sqlite3GetVarint32 p.

(** ** Length *)

(** [for(i=1; (v >>= 7)!=0; i++)], [fuel] iterations at most. *)
Fixpoint sqlite3VarintLen_loop (fuel : nat) (i v : Z) : option Z :=
  match fuel with
  | O => None
  | S fuel =>
    let v := Z.shiftr v 7 in
    if v =? 0 then Some i else sqlite3VarintLen_loop fuel (i + 1) v
  end.

Definition sqlite3VarintLen (v : Z) : option Z := sqlite3VarintLen_loop 10 1 v.

(** ** Four-byte integers *)

(** Which of the variants of the code is compiled in: the intrinsic that
    reverses the bytes of a word is used on a little-endian machine if the
    compiler has it. *)
Definition bswap32 (w : Z) : Z := le_word (rev (le_bytes 4 w)).

Section fourbyte.
Context `{Machine} (has_bswap : bool).

Definition sqlite3Get4byte (p : list Z) : option Z :=
  if negb little_endian then
    if (4 <=? length p)%nat then Some (native_word (take 4 p)) else None
  else if has_bswap then
    if (4 <=? length p)%nat then Some (bswap32 (native_word (take 4 p))) else None
  else
    p0 ← p !! 0%nat; p1 ← p !! 1%nat; p2 ← p !! 2%nat; p3 ← p !! 3%nat;
    Some (Z.lor (Z.lor (Z.lor (u32 (Z.shiftl p0 24)) (Z.shiftl p1 16)) (Z.shiftl p2 8)) p3).

Definition sqlite3Put4byte (p : list Z) (v : Z) : option (list Z) :=
  if negb little_endian then
    if (4 <=? length p)%nat then Some (native_bytes v ++ drop 4 p) else None
  else if has_bswap then
    if (4 <=? length p)%nat then Some (native_bytes (bswap32 v) ++ drop 4 p) else None
  else
    p ← poke p 0 (u8 (Z.shiftr v 24));
    p ← poke p 1 (u8 (Z.shiftr v 16));
    p ← poke p 2 (u8 (Z.shiftr v 8));
    poke p 3 (u8 v).
End fourbyte.

Section examples.
Example put_1 : sqlite3PutVarint [9; 9; 9] 127 = Some ([127; 9; 9], 1).
Proof. reflexivity. Qed.
Example put_2 : sqlite3PutVarint [9; 9; 9] 128 = Some ([129; 0; 9], 2).
Proof. reflexivity. Qed.
Example put_3 : sqlite3PutVarint [9; 9; 9] 16384 = Some ([129; 128; 0], 3).
Proof. reflexivity. Qed.
Example put_9 :
  sqlite3PutVarint (replicate 9 0) (2 ^ 64 - 1) = Some (replicate 9 255, 9).
Proof. reflexivity. Qed.
Example put_short : sqlite3PutVarint [9; 9] 16384 = None.
Proof. reflexivity. Qed.
Example get_9 : sqlite3GetVarint (replicate 9 255) = Some (9, 2 ^ 64 - 1).
Proof. reflexivity. Qed.
Example get_5 : sqlite3GetVarint [0x8f; 0xff; 0xff; 0xff; 0x7f] = Some (5, 2 ^ 32 - 1).
Proof. reflexivity. Qed.
Example get32_5 : getVarint32 [0x90; 0x80; 0x80; 0x80; 0x00] = Some (5, 2 ^ 32 - 1).
Proof. reflexivity. Qed.
End examples.
