(* ===== verification/VarintProofs.v ===== *)
(** * Varint: proofs

    The encoders and decoders of variable-length integers compute the format of
    a database file; round trips and lengths. *)
From S2P Require Import Prelude Words Bits Varint.
Local Open Scope Z_scope.

(** ** The format *)

(** Seven bits of each byte, most significant first, while the eighth bit is
    set; all eight bits of the ninth byte. [k] more bytes may have the flag. *)
Fixpoint varint_read (k : nat) (n acc : Z) (p : list Z) : option (Z * Z) :=
  match p with
  | [] => None
  | b :: p =>
    match k with
    | O => Some (n + 1, acc * 256 + b)
    | S k =>
      if b <? 128 then Some (n + 1, acc * 128 + b)
      else varint_read k (n + 1) (acc * 128 + (b - 128)) p
    end
  end.

Definition varint_decode (p : list Z) : option (Z * Z) := varint_read 8 0 0 p.

(** [n] digits in base 128, least significant first. *)
Fixpoint digits (n : nat) (v : Z) : list Z :=
  match n with
  | O => []
  | S n => v `mod` 128 :: digits n (v / 128)
  end.

(** The digits with the flag set on all. *)
Definition flagged (n : nat) (v : Z) : list Z := rev ((λ d, d + 128) <$> digits n v).

(** The number of base-128 digits, and of bytes of the encoding. *)
Definition ndigits (v : Z) : nat := Z.to_nat (Z.log2 v / 7 + 1).
Definition varint_size (v : Z) : nat := Nat.min 9 (ndigits v).

Definition varint_encode (v : Z) : list Z :=
  if v <? 2 ^ 56 then flagged (ndigits v - 1) (v / 128) ++ [v `mod` 128]
  else flagged 8 (v / 256) ++ [v `mod` 256].

(** ** Decoding: the same loop on bits *)

Section decode.
Implicit Types (p : list Z) (a b v n : Z).

Lemma flag_test b : uint 8 b → (Z.land b 0x80 =? 0) = (b <? 128).
Proof.
  intros Hb. apply eqb_true_iff.
  apply (all_bytes (λ b, Bool.eqb (Z.land b 0x80 =? 0) (b <? 128)) eq_refl b Hb).
Qed.

Lemma digit_bits b : uint 8 b → 128 ≤ b → b - 128 = Z.land b 0x7f.
Proof.
  intros Hb ?. change 0x7f with (Z.ones 7). rewrite Z.land_ones by lia. unfold uint in Hb.
  apply Z.mod_unique_pos with 1; lia.
Qed.

(** [varint_read] as it is written with shifts and masks. *)
Lemma varint_read_flag k n a b p :
  uint 8 b →
  varint_read (S k) n a (b :: p) =
    if Z.land b 0x80 =? 0 then Some (n + 1, Z.lor (Z.shiftl a 7) b)
    else varint_read k (n + 1) (Z.lor (Z.shiftl a 7) (Z.land b 0x7f)) p.
Proof.
  intros Hb. cbn [varint_read]. rewrite flag_test by done. unfold uint in Hb.
  destruct (Z.ltb_spec b 128) as [Hlt|Hge].
  - rewrite lor_shiftl_add by lia. done.
  - rewrite <-digit_bits, lor_shiftl_add by (done || lia). done.
Qed.

Lemma varint_read_flag_0 k n b p :
  uint 8 b →
  varint_read (S k) n 0 (b :: p) =
    if Z.land b 0x80 =? 0 then Some (n + 1, b) else varint_read k (n + 1) (Z.land b 0x7f) p.
Proof. intros Hb. rewrite varint_read_flag by done. by rewrite Z.shiftl_0_l, !Z.lor_0_l. Qed.

Lemma varint_read_last n a b p :
  uint 8 b → varint_read 0 n a (b :: p) = Some (n + 1, Z.lor (Z.shiftl a 8) b).
Proof. intros Hb. cbn [varint_read]. by rewrite lor_shiftl_add by (done || lia). Qed.
End decode.

Lemma Some_pair_eq {A B} (a a' : A) (b b' : B) : a = a' → b = b' → Some (a, b) = Some (a', b').
Proof. by intros -> ->. Qed.

(** The code and the reference read one more byte, the last of [bs]; the
    flag the code tests in its accumulator is the flag of that byte. *)
Ltac varint_read_step lem :=
  match goal with
  | |- _ = varint_read _ _ _ ?p =>
    let b := fresh "b" in
    destruct p as [|b p]; [reflexivity|];
    match goal with
    | Hp : bytes_ok (b :: p) |- _ =>
      pose proof (Forall_inv Hp); apply Forall_inv_tail in Hp; rewrite lem by assumption
    end
  end;
  cbn [lookup list_lookup mbind option_bind].

Ltac varint_flag bs low :=
  match goal with
  | |- (if Z.land ?a _ =? 0 then _ else _) = (if Z.land ?b _ =? 0 then _ else _) =>
    tryif constr_eq a b then idtac
    else (assert (Z.land a 0x80 = Z.land b 0x80) as -> by bits bs low);
    destruct (Z.land b 0x80 =? 0) eqn:?
  end.

Ltac varint_value bs low :=
  apply Some_pair_eq; [reflexivity|]; bits bs low.

Ltac varint_case bs last :=
  assert (bytes_ok bs) by (repeat (constructor; [assumption|]); constructor);
  varint_flag bs (@nil nat);
  [ match goal with H : (Z.land ?b 0x80 =? 0) = true |- _ =>
      rewrite flag_test in H by assumption; apply Z.ltb_lt in H end;
    assert (Forall (λ j, nth j bs 0 < 128) [last]) by (constructor; [assumption|constructor]);
    varint_value bs [last] | ].

Lemma getVarint_spec p : bytes_ok p → sqlite3GetVarint p = varint_decode p.
Proof.
  intros Hp. unfold varint_decode, sqlite3GetVarint, SLOT_2_0, SLOT_4_2_0. cbv zeta.
  varint_read_step varint_read_flag_0.
  destruct (Z.land b 0x80 =? 0) eqn:F0; [done|].
  varint_read_step varint_read_flag. varint_case [b; b0] 1%nat.
  varint_read_step varint_read_flag. varint_case [b; b0; b1] 2%nat.
  varint_read_step varint_read_flag. varint_case [b; b0; b1; b2] 3%nat.
  varint_read_step varint_read_flag. varint_case [b; b0; b1; b2; b3] 4%nat.
  varint_read_step varint_read_flag. varint_case [b; b0; b1; b2; b3; b4] 5%nat.
  varint_read_step varint_read_flag. varint_case [b; b0; b1; b2; b3; b4; b5] 6%nat.
  varint_read_step varint_read_flag. varint_case [b; b0; b1; b2; b3; b4; b5; b6] 7%nat.
  varint_read_step varint_read_last.
  assert (bytes_ok [b; b0; b1; b2; b3; b4; b5; b6; b7])
    by (repeat (constructor; [assumption|]); constructor).
  varint_value [b; b0; b1; b2; b3; b4; b5; b6; b7] (@nil nat).
Qed.

(** The bytes read lie in the buffer, and the value fits in 64 bits. *)
Lemma varint_read_bounds k n a p w :
  bytes_ok p → 0 ≤ w → uint w a →
  match varint_read k n a p with
  | Some (n', v) => n < n' ≤ n + Z.of_nat (length p) ∧ n' ≤ n + Z.of_nat (S k)
                    ∧ uint (w + 7 * Z.of_nat k + 8) v
  | None => True
  end.
Proof.
  intros Hp Hw. revert n a p w Hp Hw. induction k as [|k IH]; intros n a p w Hp Hw [Ha0 Ha].
  - destruct p as [|b p]; [done|]. apply Forall_inv in Hp. cbn [varint_read length]. unfold uint in *.
    split_and!; [lia..|]. rewrite Z.mul_0_r, Z.add_0_r, Z.pow_add_r by lia. lia.
  - destruct p as [|b p]; [done|]. pose proof (Forall_inv Hp) as Hb. apply Forall_inv_tail in Hp.
    cbn [varint_read length]. unfold uint in Hb. destruct (Z.ltb_spec b 128).
    + split_and!; [lia..|]. apply uint_mono with (w + 7); [|lia].
      unfold uint. rewrite Z.pow_add_r by lia. lia.
    + assert (uint (w + 7) (a * 128 + (b - 128))) as Ha'.
      { unfold uint. rewrite Z.pow_add_r by lia. lia. }
      specialize (IH (n + 1) _ p (w + 7) Hp ltac:(lia) Ha').
      destruct (varint_read k _ _ p) as [[n' v]|]; [|done]. destruct IH as (? & ? & ?).
      split_and!; [lia..|]. by replace (w + 7 * Z.of_nat (S k) + 8) with (w + 7 + 7 * Z.of_nat k + 8) by lia.
Qed.

Lemma varint_decode_bounds p n v :
  bytes_ok p → varint_decode p = Some (n, v) → 1 ≤ n ≤ 9 ∧ n ≤ Z.of_nat (length p) ∧ uint 64 v.
Proof.
  intros Hp Hd. pose proof (varint_read_bounds 8 0 0 p 0 Hp ltac:(lia) ltac:(split; done)) as Hb.
  unfold varint_decode in Hd. rewrite Hd in Hb. destruct Hb as (? & ? & ?). split_and!; [lia..|done].
Qed.

(** ** The 32-bit reader: the same bytes, the value saturated *)

Lemma saturate_u32 v :
  0 ≤ v → (if negb (Z.land v SQLITE_MAX_U32 =? v) then 0xffffffff else u32 v) = Z.min v SQLITE_MAX_U32.
Proof.
  intros Hv. change SQLITE_MAX_U32 with (Z.ones 32). rewrite Z.land_ones by lia.
  pose proof (Z.mod_pos_bound v (2 ^ 32)). unfold u32, wrap. rewrite Z.ones_equiv.
  destruct (Z.eqb_spec (v `mod` 2 ^ 32) v) as [E|E]; cbn [negb]; [lia|].
  destruct (decide (v < 2 ^ 32)); [by rewrite Z.mod_small in E by lia|lia].
Qed.

Lemma saturate_small v : uint 32 v → Z.min v SQLITE_MAX_U32 = v.
Proof. intros [_ Hv]. apply Z.min_l. unfold SQLITE_MAX_U32. lia. Qed.

Lemma getVarint32_spec p :
  bytes_ok p →
  getVarint32 p = '(n, v) ← varint_decode p; Some (n, Z.min v SQLITE_MAX_U32).
Proof.
  intros Hp.
  assert (∀ b, uint 8 b → uint 32 b) as H8 by (intros b Hb; by apply (uint_mono 8)).
  assert ((n64 ← sqlite3GetVarint p;
           let '(n, v64) := n64 in
           Some (n, if negb (Z.land v64 SQLITE_MAX_U32 =? v64) then 0xffffffff else u32 v64))
          = '(n, v) ← varint_decode p; Some (n, Z.min v SQLITE_MAX_U32)) as Hlong.
  { rewrite getVarint_spec by done. destruct (varint_decode p) as [[n v]|] eqn:E; [|done].
    cbn [mbind option_bind]. apply varint_decode_bounds in E as (_ & _ & [Hv _]); [|done].
    by rewrite saturate_u32. }
  unfold getVarint32, sqlite3GetVarint32. rewrite Hlong.
  rewrite <-getVarint_spec by done. unfold sqlite3GetVarint. clear Hlong.
  destruct p as [|a p]; [done|]. pose proof (Forall_inv Hp) as Ha. apply Forall_inv_tail in Hp.
  cbn [lookup list_lookup mbind option_bind]. rewrite (flag_test a) by done.
  destruct (a <? 128); cbn [mbind option_bind]; [by rewrite saturate_small by auto|].
  destruct p as [|b p]; [done|]. pose proof (Forall_inv Hp) as Hb. apply Forall_inv_tail in Hp.
  cbn [lookup list_lookup mbind option_bind].
  destruct (Z.land b 0x80 =? 0).
  { cbn [mbind option_bind]. rewrite saturate_small; [done|]. auto with sqlc. }
  destruct p as [|c p]; [done|]. cbn [lookup list_lookup mbind option_bind].
  destruct (Z.land (Z.lor _ c) 0x80 =? 0) eqn:E; [|done].
  cbn [mbind option_bind]. rewrite saturate_small; [done|].
  apply uint_lor; [done| |auto with sqlc]. apply uint_land_r; [done| |split; done].
  apply Z.lor_nonneg. split; [by apply wrap_uint|]. by apply Forall_inv in Hp as [? _].
Qed.

(** ** Encoding *)

Section encode.
Implicit Types (p buf : list Z) (v : Z).

Lemma flag_byte v : u8 (Z.lor (Z.land v 0x7f) 0x80) = v `mod` 128 + 128.
Proof.
  change 0x7f with (Z.ones 7). rewrite Z.land_ones by lia. change (2 ^ 7) with 128.
  pose proof (Z.mod_pos_bound v 128 ltac:(lia)) as Hr. set (r := v `mod` 128) in *. clearbody r.
  assert (byte_ok r) as Hb by (unfold uint; lia).
  pose proof (all_bytes (λ r, (128 <=? r) || (u8 (Z.lor r 0x80) =? r + 128)) eq_refl r Hb) as Hc.
  cbv beta in Hc. apply orb_true_iff in Hc as [?|?%Z.eqb_eq]; [lia|done].
Qed.

Lemma flagged_S n v : flagged (S n) v = flagged n (v / 128) ++ [v `mod` 128 + 128].
Proof. reflexivity. Qed.

Lemma length_digits n v : length (digits n v) = n.
Proof. revert v. induction n as [|n IH]; intros v; cbn; [done|]. by rewrite IH. Qed.

Lemma length_flagged n v : length (flagged n v) = n.
Proof. unfold flagged. by rewrite length_rev, length_fmap, length_digits. Qed.

Lemma poke_lt p i x : (i < length p)%nat → poke p i x = Some (<[i:=x]> p).
Proof. intros Hi. unfold poke. by destruct (Nat.ltb_spec i (length p)); [|lia]. Qed.

Lemma poke_ge p i x : (length p ≤ i)%nat → poke p i x = None.
Proof. intros Hi. unfold poke. by destruct (Nat.ltb_spec i (length p)); [lia|]. Qed.

Lemma insert_drop p i x : (i < length p)%nat → drop i (<[i:=x]> p) = x :: drop (S i) p.
Proof.
  intros Hi. rewrite insert_take_drop by done. rewrite drop_app_ge; rewrite length_take, Nat.min_l by lia; [|lia].
  by rewrite Nat.sub_diag.
Qed.

Lemma putVarint64_nine_spec n p v :
  (n ≤ length p)%nat → putVarint64_nine n p v = Some (flagged n v ++ drop n p).
Proof.
  revert p v. induction n as [|n IH]; intros p v Hn; [done|]. cbn [putVarint64_nine].
  rewrite poke_lt by lia. cbn [mbind option_bind]. rewrite IH by (rewrite length_insert; lia).
  rewrite flag_byte, insert_drop, flagged_S by lia.
  rewrite Z.shiftr_div_pow2 by lia. by rewrite <-app_assoc.
Qed.

(** The number of digits. *)
Lemma ndigits_pos v : (1 ≤ ndigits v)%nat.
Proof. unfold ndigits. pose proof (Z.div_pos (Z.log2 v) 7 (Z.log2_nonneg v) ltac:(lia)). lia. Qed.

Lemma ndigits_small v : 0 ≤ v < 128 → ndigits v = 1%nat.
Proof.
  intros Hv. unfold ndigits. rewrite Z.div_small; [done|]. split; [apply Z.log2_nonneg|].
  destruct (decide (v = 0)) as [->|]; [done|]. apply Z.log2_lt_pow2; lia.
Qed.

Lemma ndigits_shiftr v : 128 ≤ v → ndigits v = S (ndigits (Z.shiftr v 7)).
Proof.
  intros Hv. unfold ndigits. assert (7 ≤ Z.log2 v) by (apply Z.log2_le_pow2; lia).
  rewrite Z.log2_shiftr, Z.max_r by lia.
  replace (Z.log2 v) with (Z.log2 v - 7 + 1 * 7) at 1 by lia. rewrite Z.div_add by done.
  pose proof (Z.div_pos (Z.log2 v - 7) 7 ltac:(lia) ltac:(lia)). lia.
Qed.

Lemma shiftr_zero v : 0 ≤ v → (Z.shiftr v 7 =? 0) = (v <? 128).
Proof.
  intros Hv. rewrite Z.shiftr_div_pow2 by lia. change (2 ^ 7) with 128.
  destruct (Z.ltb_spec v 128); [rewrite Z.div_small by lia; done|].
  apply Z.eqb_neq. pose proof (Z.div_str_pos v 128). lia.
Qed.

Lemma ndigits_le v k : 0 ≤ v < 2 ^ (7 * Z.of_nat k) → (1 ≤ k)%nat → (ndigits v ≤ k)%nat.
Proof.
  intros [Hv0 Hv] Hk. unfold ndigits. destruct (decide (v = 0)) as [->|]; [exact Hk|].
  apply Z.log2_lt_pow2 in Hv; [|lia]. pose proof (Z.div_lt_upper_bound (Z.log2 v) 7 (Z.of_nat k) ltac:(lia) Hv). lia.
Qed.

Lemma ndigits_ge v k : 2 ^ (7 * Z.of_nat k) ≤ v → (k < ndigits v)%nat.
Proof.
  intros Hv. unfold ndigits. pose proof (Z.pow_pos_nonneg 2 (7 * Z.of_nat k)).
  apply Z.log2_le_pow2 in Hv; [|lia]. pose proof (Z.div_le_lower_bound (Z.log2 v) 7 (Z.of_nat k) ltac:(lia) Hv). lia.
Qed.

Lemma putVarint64_collect_spec fuel buf v :
  0 ≤ v → (ndigits v ≤ fuel)%nat → (length buf + ndigits v ≤ 10)%nat →
  putVarint64_collect fuel buf v = Some (buf ++ ((λ d, d + 128) <$> digits (ndigits v) v)).
Proof.
  revert buf v. induction fuel as [|fuel IH]; intros buf v Hv Hf Hl; [pose proof (ndigits_pos v); lia|].
  pose proof (ndigits_pos v). cbn [putVarint64_collect].
  destruct (Nat.leb_spec 10 (length buf)); [lia|]. cbv zeta. rewrite shiftr_zero, flag_byte by done.
  destruct (Z.ltb_spec v 128).
  - by rewrite ndigits_small by lia.
  - rewrite ndigits_shiftr in * by done. assert (0 ≤ Z.shiftr v 7) by (by apply Z.shiftr_nonneg).
    rewrite IH by (rewrite ?length_app; cbn [length]; lia). rewrite <-app_assoc.
    cbn [digits]. by rewrite Z.shiftr_div_pow2 by lia.
Qed.

Lemma putVarint64_copy_spec n i p buf :
  (n ≤ length buf)%nat →
  putVarint64_copy n i p buf =
    if (i + n <=? length p)%nat then Some (take i p ++ rev (take n buf) ++ drop (i + n) p)
    else if (n =? 0)%nat then Some p else None.
Proof.
  revert i p. induction n as [|n IH]; intros i p Hn; cbn [putVarint64_copy].
  - rewrite Nat.add_0_r, firstn_0. cbn [rev app]. rewrite take_drop. by case_match.
  - destruct (lookup_lt_is_Some_2 buf n) as [x Hx]; [lia|]. rewrite Hx. cbn [mbind option_bind].
    destruct (decide (i < length p)%nat) as [Hi|Hi].
    + rewrite poke_lt by done. cbn [mbind option_bind]. rewrite IH, length_insert by lia.
      rewrite Nat.add_succ_comm. destruct (Nat.leb_spec (i + S n) (length p)) as [Hle|Hgt].
      * f_equal. rewrite (take_S_r buf n x) by done. rewrite rev_app_distr. cbn [rev app].
        rewrite (take_S_r _ i x) by (by apply list_lookup_insert_eq).
        rewrite take_insert_ge, drop_insert_lt, <-app_assoc by lia. done.
      * destruct n; [lia|done].
    + rewrite poke_ge by lia. destruct (Nat.leb_spec (i + S n) (length p)); [lia|done].
Qed.

Lemma length_encode v : uint 64 v → length (varint_encode v) = varint_size v.
Proof.
  intros [Hv0 Hv]. unfold varint_encode, varint_size. pose proof (ndigits_pos v).
  destruct (Z.ltb_spec v (2 ^ 56)) as [Hlt|Hge]; rewrite length_app, length_flagged; cbn [length].
  - pose proof (ndigits_le v 8 ltac:(lia) ltac:(lia)). lia.
  - pose proof (ndigits_ge v 8 ltac:(lia)). lia.
Qed.

Lemma flagged_ok n v : bytes_ok (flagged n v).
Proof.
  revert v. induction n as [|n IH]; intros v; [constructor|]. rewrite flagged_S.
  apply Forall_app. split; [apply IH|]. constructor; [|constructor].
  pose proof (Z.mod_pos_bound v 128 ltac:(lia)). unfold uint. lia.
Qed.

Lemma varint_encode_ok v : bytes_ok (varint_encode v).
Proof.
  unfold varint_encode. pose proof (Z.mod_pos_bound v 128 ltac:(lia)).
  pose proof (Z.mod_pos_bound v 256 ltac:(lia)).
  case_match; (apply Forall_app; split; [apply flagged_ok|]);
    (constructor; [unfold uint; lia|constructor]).
Qed.

Lemma encode_digits v :
  v < 2 ^ 56 → varint_encode v = rev (v `mod` 128 :: ((λ d, d + 128) <$> digits (ndigits v - 1) (v / 128))).
Proof. intros Hv. unfold varint_encode. by destruct (Z.ltb_spec v (2 ^ 56)); [|lia]. Qed.

Lemma land_128 v : Z.land (v `mod` 128 + 128) 0x7f = v `mod` 128.
Proof.
  change 0x7f with (Z.ones 7). rewrite Z.land_ones by lia.
  rewrite <-(Z.mul_1_l 128) at 2. rewrite Z.mod_add by done. by apply Z.mod_mod.
Qed.

(** The test of the top byte of a 64-bit integer. *)
Lemma top_byte v :
  uint 64 v → (Z.land v (Z.shiftl 0xff000000 32) =? 0) = (v <? 2 ^ 56).
Proof.
  intros Hv. change (Z.shiftl 0xff000000 32) with (Z.shiftl (Z.ones 8) 56).
  assert (Z.land v (Z.shiftl (Z.ones 8) 56) = Z.shiftl (Z.shiftr v 56) 56) as ->.
  { apply Z.bits_inj'. intros i Hi. rewrite Z.land_spec, !Z.shiftl_spec by done.
    destruct (decide (i < 56)); [by rewrite !(Z.testbit_neg_r _ (i - 56)), andb_false_r by lia|].
    rewrite Z.shiftr_spec, Z.sub_add by lia. destruct (decide (i < 64)).
    - by rewrite Z.ones_spec_low, andb_true_r by lia.
    - apply uint_bits in Hv as [_ Hv]; [|done]. by rewrite Hv by lia. }
  destruct Hv as [Hv0 Hv]. rewrite Z.shiftl_mul_pow2, Z.shiftr_div_pow2 by lia.
  destruct (Z.ltb_spec v (2 ^ 56)); [by rewrite Z.div_small by lia|].
  apply Z.eqb_neq. pose proof (Z.div_str_pos v (2 ^ 56)). lia.
Qed.

Lemma putVarint64_spec p v :
  uint 64 v →
  putVarint64 p v =
    if (varint_size v <=? length p)%nat
    then Some (varint_encode v ++ drop (varint_size v) p, Z.of_nat (varint_size v)) else None.
Proof.
  intros Hv. unfold putVarint64. rewrite top_byte by done. destruct Hv as [Hv0 Hv].
  pose proof (ndigits_pos v). destruct (Z.ltb_spec v (2 ^ 56)) as [Hlt|Hge]; cbn [negb].
  - pose proof (ndigits_le v 8 ltac:(lia) ltac:(lia)).
    rewrite putVarint64_collect_spec by (cbn [length]; lia). cbn [mbind option_bind app].
    assert (varint_size v = ndigits v) as -> by (unfold varint_size; lia).
    rewrite encode_digits by done.
    destruct (ndigits v) as [|n]; [lia|]. cbn [digits fmap list_fmap lookup list_lookup mbind option_bind].
    cbn [insert list_insert length]. rewrite land_128, length_fmap, length_digits.
    replace (S n - 1)%nat with n by lia. cbv zeta.
    rewrite putVarint64_copy_spec by (cbn [length]; rewrite length_fmap, length_digits; lia).
    cbn [Nat.add]. destruct (Nat.leb_spec (S n) (length p)); [|done].
    cbn [mbind option_bind take app]. rewrite (take_ge _ n); [done|].
    rewrite length_fmap, length_digits. lia.
  - pose proof (ndigits_ge v 8 ltac:(lia)).
    assert (varint_size v = 9%nat) as -> by (unfold varint_size; lia).
    unfold varint_encode. destruct (Z.ltb_spec v (2 ^ 56)); [lia|].
    destruct (Nat.leb_spec 9 (length p)); [|by rewrite poke_ge by lia].
    rewrite poke_lt by lia. cbn [mbind option_bind].
    rewrite putVarint64_nine_spec by (rewrite length_insert; lia). cbn [mbind option_bind].
    rewrite insert_drop, Z.shiftr_div_pow2, <-app_assoc by lia. done.
Qed.

Lemma putVarint_spec p v :
  uint 64 v →
  sqlite3PutVarint p v =
    if (varint_size v <=? length p)%nat
    then Some (varint_encode v ++ drop (varint_size v) p, Z.of_nat (varint_size v)) else None.
Proof.
  intros Hv. unfold sqlite3PutVarint. rewrite putVarint64_spec by done. destruct Hv as [Hv0 Hv].
  assert (∀ w, 0 ≤ w < 128 → u8 (Z.land w 0x7f) = w) as H7.
  { intros w Hw. change 0x7f with (Z.ones 7). rewrite Z.land_ones, Z.mod_small by lia.
    apply wrap_small. unfold uint. lia. }
  destruct (Z.leb_spec v 0x7f).
  { unfold varint_size. rewrite encode_digits, ndigits_small, H7, Z.mod_small by lia.
    destruct p as [|x p]; reflexivity. }
  destruct (Z.leb_spec v 0x3fff); [|done].
  assert (ndigits v = 2%nat) as Hn.
  { pose proof (ndigits_le v 2 ltac:(lia) ltac:(lia)). pose proof (ndigits_ge v 1 ltac:(lia)). lia. }
  unfold varint_size. rewrite encode_digits, Hn by lia. rewrite flag_byte.
  rewrite Z.shiftr_div_pow2 by lia. cbn [Nat.min Nat.sub digits fmap list_fmap rev app].
  assert (u8 (Z.land v 0x7f) = v `mod` 128) as ->.
  { change 0x7f with (Z.ones 7). rewrite Z.land_ones by lia. apply wrap_small.
    pose proof (Z.mod_pos_bound v 128 ltac:(lia)). unfold uint. lia. }
  destruct p as [|x [|y p]]; reflexivity.
Qed.

(** ** Round trip *)

Lemma varint_read_flagged k m n a v rest :
  varint_read (k + m) n a (flagged k v ++ rest) =
    varint_read m (n + Z.of_nat k) (a * 128 ^ Z.of_nat k + v `mod` 128 ^ Z.of_nat k) rest.
Proof.
  revert m n a v rest. induction k as [|k IH]; intros m n a v rest.
  - cbn [flagged digits fmap list_fmap rev app Nat.add]. rewrite Z.mod_1_r, Z.mul_1_r, !Z.add_0_r. done.
  - rewrite flagged_S, <-app_assoc. cbn [Nat.add]. rewrite <-Nat.add_succ_r, IH. cbn [app varint_read].
    pose proof (Z.mod_pos_bound v 128 ltac:(lia)). destruct (Z.ltb_spec (v `mod` 128 + 128) 128); [lia|].
    f_equal; [lia|]. rewrite Nat2Z.inj_succ, Z.pow_succ_r by lia.
    rewrite Z.rem_mul_r by lia. lia.
Qed.

Lemma varint_decode_encode v rest :
  uint 64 v → varint_decode (varint_encode v ++ rest) = Some (Z.of_nat (varint_size v), v).
Proof.
  intros [Hv0 Hv]. unfold varint_decode, varint_encode, varint_size. pose proof (ndigits_pos v).
  destruct (Z.ltb_spec v (2 ^ 56)) as [Hlt|Hge]; rewrite <-app_assoc.
  - pose proof (ndigits_le v 8 ltac:(lia) ltac:(lia)). rewrite Nat.min_r by lia.
    destruct (ndigits v) as [|n] eqn:En; [lia|]. replace (S n - 1)%nat with n by lia.
    replace 8%nat with (n + S (7 - n))%nat by lia. rewrite varint_read_flagged.
    cbn [app varint_read]. pose proof (Z.mod_pos_bound v 128 ltac:(lia)).
    destruct (Z.ltb_spec (v `mod` 128) 128); [|lia]. apply Some_pair_eq; [lia|].
    rewrite Z.mul_0_l, Z.add_0_l.
    rewrite (Z.mod_small (v / 128)); [pose proof (Z.div_mod v 128); lia|].
    split; [by apply Z.div_pos|]. apply Z.div_lt_upper_bound; [lia|].
    rewrite <-Z.pow_succ_r, <-Nat2Z.inj_succ by lia.
    change 128 with (2 ^ 7). rewrite <-Z.pow_mul_r by lia.
    destruct (Z.lt_ge_cases v (2 ^ (7 * Z.of_nat (S n)))) as [|Hge]; [done|].
    apply ndigits_ge in Hge. lia.
  - pose proof (ndigits_ge v 8 ltac:(lia)). rewrite Nat.min_l by lia.
    change 8%nat with (8 + 0)%nat at 1. rewrite varint_read_flagged. cbn [app varint_read].
    apply Some_pair_eq; [done|]. rewrite Z.mul_0_l, Z.add_0_l.
    rewrite (Z.mod_small (v / 256)); [pose proof (Z.div_mod v 256); lia|].
    split; [by apply Z.div_pos|]. apply Z.div_lt_upper_bound; lia.
Qed.

(** ** Length *)

Lemma varintLen_loop_spec fuel i v :
  0 ≤ v → (ndigits v ≤ fuel)%nat →
  sqlite3VarintLen_loop fuel i v = Some (i + Z.of_nat (ndigits v) - 1).
Proof.
  revert i v. induction fuel as [|fuel IH]; intros i v Hv Hf; [pose proof (ndigits_pos v); lia|].
  cbn [sqlite3VarintLen_loop]. cbv zeta. rewrite shiftr_zero by done. destruct (Z.ltb_spec v 128).
  - rewrite ndigits_small by lia. f_equal. lia.
  - rewrite ndigits_shiftr in * by done. rewrite IH by (try apply Z.shiftr_nonneg; lia).
    f_equal. lia.
Qed.

Lemma varintLen_spec v : uint 64 v → sqlite3VarintLen v = Some (Z.of_nat (ndigits v)).
Proof.
  intros [Hv0 Hv]. unfold sqlite3VarintLen. rewrite varintLen_loop_spec; [|done|].
  - f_equal. lia.
  - apply ndigits_le; lia.
Qed.
End encode.

(** ** Four-byte integers *)

Section fourbyte.
Context `{Machine} (has_bswap : bool).

Lemma bswap32_le p : bytes_ok p → length p = 4%nat → bswap32 (le_word p) = be_word p.
Proof. intros Hp Hl. unfold bswap32, be_word. by rewrite <-Hl, le_bytes_word. Qed.

Lemma le_bytes_bswap32 v : le_bytes 4 (bswap32 v) = be_bytes 4 v.
Proof.
  unfold bswap32, be_bytes. rewrite <-(length_le_bytes 4 v) at 1. rewrite <-length_rev.
  apply le_bytes_word, Forall_rev, le_bytes_ok.
Qed.

Lemma get4byte_spec p :
  bytes_ok p →
  sqlite3Get4byte has_bswap p = if (4 <=? length p)%nat then Some (be_word (take 4 p)) else None.
Proof.
  intros Hp. unfold sqlite3Get4byte, native_word.
  destruct (Nat.leb_spec 4 (length p)) as [Hl|Hl].
  - assert (length (take 4 p) = 4%nat) as Ht by (rewrite length_take; lia).
    destruct little_endian; cbn [negb]; [|done].
    destruct has_bswap; [by rewrite bswap32_le by (try apply Forall_take; done)|].
    destruct p as [|b0 [|b1 [|b2 [|b3 p]]]]; cbn [length] in Hl; [lia..|].
    cbn [lookup list_lookup mbind option_bind take]. f_equal.
    inversion_clear Hp as [|? ? H0 Hp1]. inversion_clear Hp1 as [|? ? H1 Hp2].
    inversion_clear Hp2 as [|? ? H2 Hp3]. inversion_clear Hp3 as [|? ? H3 Hp4]. unfold uint in *.
    unfold u32. rewrite wrap_small
      by (unfold uint; rewrite Z.shiftl_mul_pow2 by lia; lia).
    replace (Z.shiftl b0 24) with (Z.shiftl (Z.shiftl b0 8) 16) by (by rewrite Z.shiftl_shiftl).
    rewrite <-Z.shiftl_lor, (lor_shiftl_add 8 b0 b1) by lia.
    replace (Z.shiftl (b0 * 2 ^ 8 + b1) 16) with (Z.shiftl (Z.shiftl (b0 * 2 ^ 8 + b1) 8) 8)
      by (by rewrite Z.shiftl_shiftl).
    rewrite <-Z.shiftl_lor, !lor_shiftl_add by lia. rewrite firstn_O. unfold be_word. cbn [rev app le_word]. change (2 ^ 8) with 256. lia.
  - destruct (negb little_endian); [done|]. destruct has_bswap; [done|].
    destruct p as [|b0 [|b1 [|b2 [|b3 p]]]]; cbn [length] in Hl; [done..|lia].
Qed.

Lemma put4byte_spec p v :
  uint 32 v →
  sqlite3Put4byte has_bswap p v =
    if (4 <=? length p)%nat then Some (be_bytes 4 v ++ drop 4 p) else None.
Proof.
  intros Hv. unfold sqlite3Put4byte, native_bytes.
  destruct little_endian; cbn [negb]; [|done].
  destruct has_bswap; [by rewrite le_bytes_bswap32|].
  rewrite !Z.shiftr_div_pow2 by lia.
  destruct p as [|b0 [|b1 [|b2 [|b3 p]]]]; [reflexivity..|].
  cbn [length Nat.leb]. unfold poke. cbn [length Nat.ltb Nat.leb insert list_insert mbind option_bind].
  unfold be_bytes. cbn [le_bytes rev app drop]. rewrite !Z.div_div by lia. reflexivity.
Qed.
End fourbyte.


(** C32: [sqlite3GetVarint] and [getVarint32] against the format. For every
    buffer, including one that ends too early, [sqlite3GetVarint], unrolled
    over two 32-bit accumulators, reads the bytes and returns the 64-bit value
    that the digit-by-digit decoder of the format does; [getVarint32] reads the
    same bytes and returns the value, saturated at 0xffffffff; and what they
    return is between one and nine bytes of the buffer and a 64-bit value. *)
Theorem sqlite3GetVarint_is_format p :
  bytes_ok p →
  sqlite3GetVarint p = varint_decode p ∧
  getVarint32 p = ('(n, v) ← sqlite3GetVarint p; Some (n, Z.min v 0xffffffff)) ∧
  (∀ n v, sqlite3GetVarint p = Some (n, v) → 1 ≤ n ≤ 9 ∧ n ≤ Z.of_nat (length p) ∧ uint 64 v).
Proof.
  intros Hp. rewrite getVarint32_spec, getVarint_spec by done.
  split_and!; [done..|]. intros n v. by apply varint_decode_bounds.
Qed.

Lemma sqlite3GetVarint_is_format_witness :
  sqlite3GetVarint [0x81; 0xff; 0x03; 7] = Some (3, 32643) ∧
  sqlite3GetVarint [0x81; 0xff; 0x03; 7] = varint_decode [0x81; 0xff; 0x03; 7].
Proof.
  split; [reflexivity|].
  apply (sqlite3GetVarint_is_format [0x81; 0xff; 0x03; 7]).
  repeat (constructor; [unfold uint; lia|]). constructor.
Defined.

(** C33: [sqlite3PutVarint] and the round trip. On a buffer of [varint_size v]
    bytes or more, one byte for each seven bits of [v] and nine at most,
    [sqlite3PutVarint] overwrites exactly the first [varint_size v] bytes with
    the encoding of [v] and returns their number; it never writes another byte,
    so on a shorter buffer and only there it runs out of it. What it wrote,
    followed by anything, [sqlite3GetVarint] reads back as [v], and
    [getVarint32] as [v] if it fits in 32 bits, with the same length. *)
Theorem sqlite3PutVarint_GetVarint p v rest :
  uint 64 v →
  sqlite3PutVarint p v =
    (if (varint_size v <=? length p)%nat
     then Some (varint_encode v ++ drop (varint_size v) p, Z.of_nat (varint_size v)) else None) ∧
  length (varint_encode v) = varint_size v ∧ (1 ≤ varint_size v ≤ 9)%nat ∧
  (bytes_ok rest →
   sqlite3GetVarint (varint_encode v ++ rest) = Some (Z.of_nat (varint_size v), v) ∧
   getVarint32 (varint_encode v ++ rest) = Some (Z.of_nat (varint_size v), Z.min v 0xffffffff)).
Proof.
  intros Hv. split_and!; [by apply putVarint_spec|by apply length_encode|..].
  1, 2: pose proof (ndigits_pos v); unfold varint_size; lia.
  intros Hr. assert (bytes_ok (varint_encode v ++ rest)).
  { apply Forall_app. split; [by apply varint_encode_ok|done]. }
  by rewrite getVarint32_spec, getVarint_spec, varint_decode_encode.
Qed.

Lemma sqlite3PutVarint_GetVarint_witness :
  sqlite3PutVarint [0; 0; 0; 0; 0; 0] (2 ^ 32 + 5) = Some ([0x90; 0x80; 0x80; 0x80; 0x05; 0], 5) ∧
  sqlite3GetVarint ([0x90; 0x80; 0x80; 0x80; 0x05] ++ [77]) = Some (5, 2 ^ 32 + 5) ∧
  getVarint32 ([0x90; 0x80; 0x80; 0x80; 0x05] ++ [77]) = Some (5, 0xffffffff).
Proof.
  split; [reflexivity|].
  apply (sqlite3PutVarint_GetVarint [0; 0; 0; 0; 0; 0] (2 ^ 32 + 5) [77]).
  - unfold uint. lia.
  - constructor; [unfold uint; lia|constructor].
Defined.

(** C39: [sqlite3VarintLen]. The loop ends within ten iterations, and for a
    value below 2^63 its result is the number of bytes [sqlite3PutVarint]
    writes; from 2^63 on it is ten, while the encoding has nine bytes. *)
Theorem sqlite3VarintLen_bounds v :
  uint 64 v →
  sqlite3VarintLen v = Some (if v <? 2 ^ 63 then Z.of_nat (varint_size v) else 10) ∧
  (2 ^ 63 ≤ v → varint_size v = 9%nat).
Proof.
  intros Hv. rewrite varintLen_spec by done. destruct Hv as [Hv0 Hv]. unfold varint_size.
  pose proof (ndigits_le v 10 ltac:(lia) ltac:(lia)).
  destruct (Z.ltb_spec v (2 ^ 63)).
  - pose proof (ndigits_le v 9 ltac:(lia) ltac:(lia)). split; [f_equal|]; lia.
  - pose proof (ndigits_ge v 9 ltac:(lia)). split; [f_equal|]; lia.
Qed.

Lemma sqlite3VarintLen_bounds_witness :
  sqlite3VarintLen (2 ^ 63) = Some 10 ∧ varint_size (2 ^ 63) = 9%nat.
Proof.
  destruct (sqlite3VarintLen_bounds (2 ^ 63)) as [H1 H2]; [unfold uint; lia|].
  split; [exact H1|]. apply H2. lia.
Defined.

(** [sqlite3Put4byte] and [sqlite3Get4byte]. On a big-endian machine, on a
    little-endian one with a byte-swapping intrinsic and on one without, the
    functions write and read the four bytes of the integer most significant
    first, and nothing else; so a file written by one machine is read by
    another. *)
Theorem sqlite3Get4byte_Put4byte (M M' : Machine) (bswap bswap' : bool) p v :
  uint 32 v → bytes_ok p → (4 ≤ length p)%nat →
  @sqlite3Put4byte M bswap p v = Some (be_bytes 4 v ++ drop 4 p) ∧
  @sqlite3Get4byte M' bswap' (be_bytes 4 v ++ drop 4 p) = Some v.
Proof.
  intros Hv Hp Hl. split.
  - rewrite put4byte_spec by done. by destruct (Nat.leb_spec 4 (length p)); [|lia].
  - rewrite get4byte_spec by (apply Forall_app; split; [apply be_bytes_ok|by apply Forall_drop]).
    destruct (Nat.leb_spec 4 (length (be_bytes 4 v ++ drop 4 p))) as [_|Hlt].
    + rewrite (take_app_length' (be_bytes 4 v)) by (by rewrite length_be_bytes). rewrite be_word_bytes.
      by rewrite Z.mod_small.
    + rewrite length_app, length_be_bytes in Hlt. lia.
Qed.

Lemma sqlite3Get4byte_Put4byte_witness :
  @sqlite3Put4byte {| little_endian := true; sizeof_ptr := 8 |} true [0; 0; 0; 0; 9] 0x01020304
    = Some [1; 2; 3; 4; 9] ∧
  @sqlite3Get4byte {| little_endian := false; sizeof_ptr := 4 |} false [1; 2; 3; 4; 9]
    = Some 0x01020304.
Proof.
  apply (sqlite3Get4byte_Put4byte {| little_endian := true; sizeof_ptr := 8 |}
           {| little_endian := false; sizeof_ptr := 4 |} true false [0; 0; 0; 0; 9] 0x01020304).
  - unfold uint. lia.
  - repeat (constructor; [unfold uint; lia|]). constructor.
  - cbn [length]. lia.
Defined.
