(* ===== verification/Ctype.v ===== *)
(** * Character classes and C strings

    The character classes of sqlite3.c and the functions of the C library that
    the tokenizers call. *)
From S2P Require Import Prelude.
From stdpp Require Import strings.
From Stdlib Require Import Ascii.
Local Open Scope Z_scope.

Definition sqlite3UpperToLower : list Z := concat
  [[0; 1; 2; 3; 4; 5; 6; 7; 8; 9; 10; 11; 12; 13; 14; 15; 16; 17];
   [18; 19; 20; 21; 22; 23; 24; 25; 26; 27; 28; 29; 30; 31; 32; 33; 34; 35];
   [36; 37; 38; 39; 40; 41; 42; 43; 44; 45; 46; 47; 48; 49; 50; 51; 52; 53];
   [54; 55; 56; 57; 58; 59; 60; 61; 62; 63; 64; 97; 98; 99; 100; 101; 102; 103];
   [104; 105; 106; 107; 108; 109; 110; 111; 112; 113; 114; 115; 116; 117; 118; 119; 120; 121];
   [122; 91; 92; 93; 94; 95; 96; 97; 98; 99; 100; 101; 102; 103; 104; 105; 106; 107];
   [108; 109; 110; 111; 112; 113; 114; 115; 116; 117; 118; 119; 120; 121; 122; 123; 124; 125];
   [126; 127; 128; 129; 130; 131; 132; 133; 134; 135; 136; 137; 138; 139; 140; 141; 142; 143];
   [144; 145; 146; 147; 148; 149; 150; 151; 152; 153; 154; 155; 156; 157; 158; 159; 160; 161];
   [162; 163; 164; 165; 166; 167; 168; 169; 170; 171; 172; 173; 174; 175; 176; 177; 178; 179];
   [180; 181; 182; 183; 184; 185; 186; 187; 188; 189; 190; 191; 192; 193; 194; 195; 196; 197];
   [198; 199; 200; 201; 202; 203; 204; 205; 206; 207; 208; 209; 210; 211; 212; 213; 214; 215];
   [216; 217; 218; 219; 220; 221; 222; 223; 224; 225; 226; 227; 228; 229; 230; 231; 232; 233];
   [234; 235; 236; 237; 238; 239; 240; 241; 242; 243; 244; 245; 246; 247; 248; 249; 250; 251];
   [252; 253; 254; 255]].

Definition sqlite3CtypeMap : list Z := concat
  [[0x00; 0x00; 0x00; 0x00; 0x00; 0x00; 0x00; 0x00];
   [0x00; 0x01; 0x01; 0x01; 0x01; 0x01; 0x00; 0x00];
   [0x00; 0x00; 0x00; 0x00; 0x00; 0x00; 0x00; 0x00];
   [0x00; 0x00; 0x00; 0x00; 0x00; 0x00; 0x00; 0x00];
   [0x01; 0x00; 0x80; 0x00; 0x40; 0x00; 0x00; 0x80];
   [0x00; 0x00; 0x00; 0x00; 0x00; 0x00; 0x00; 0x00];
   [0x0c; 0x0c; 0x0c; 0x0c; 0x0c; 0x0c; 0x0c; 0x0c];
   [0x0c; 0x0c; 0x00; 0x00; 0x00; 0x00; 0x00; 0x00];
   [0x00; 0x0a; 0x0a; 0x0a; 0x0a; 0x0a; 0x0a; 0x02];
   [0x02; 0x02; 0x02; 0x02; 0x02; 0x02; 0x02; 0x02];
   [0x02; 0x02; 0x02; 0x02; 0x02; 0x02; 0x02; 0x02];
   [0x02; 0x02; 0x02; 0x80; 0x00; 0x00; 0x00; 0x40];
   [0x80; 0x2a; 0x2a; 0x2a; 0x2a; 0x2a; 0x2a; 0x22];
   [0x22; 0x22; 0x22; 0x22; 0x22; 0x22; 0x22; 0x22];
   [0x22; 0x22; 0x22; 0x22; 0x22; 0x22; 0x22; 0x22];
   [0x22; 0x22; 0x22; 0x00; 0x00; 0x00; 0x00; 0x00];
   [0x40; 0x40; 0x40; 0x40; 0x40; 0x40; 0x40; 0x40];
   [0x40; 0x40; 0x40; 0x40; 0x40; 0x40; 0x40; 0x40];
   [0x40; 0x40; 0x40; 0x40; 0x40; 0x40; 0x40; 0x40];
   [0x40; 0x40; 0x40; 0x40; 0x40; 0x40; 0x40; 0x40];
   [0x40; 0x40; 0x40; 0x40; 0x40; 0x40; 0x40; 0x40];
   [0x40; 0x40; 0x40; 0x40; 0x40; 0x40; 0x40; 0x40];
   [0x40; 0x40; 0x40; 0x40; 0x40; 0x40; 0x40; 0x40];
   [0x40; 0x40; 0x40; 0x40; 0x40; 0x40; 0x40; 0x40];
   [0x40; 0x40; 0x40; 0x40; 0x40; 0x40; 0x40; 0x40];
   [0x40; 0x40; 0x40; 0x40; 0x40; 0x40; 0x40; 0x40];
   [0x40; 0x40; 0x40; 0x40; 0x40; 0x40; 0x40; 0x40];
   [0x40; 0x40; 0x40; 0x40; 0x40; 0x40; 0x40; 0x40];
   [0x40; 0x40; 0x40; 0x40; 0x40; 0x40; 0x40; 0x40];
   [0x40; 0x40; 0x40; 0x40; 0x40; 0x40; 0x40; 0x40];
   [0x40; 0x40; 0x40; 0x40; 0x40; 0x40; 0x40; 0x40];
   [0x40; 0x40; 0x40; 0x40; 0x40; 0x40; 0x40; 0x40]].

(** The macros convert their argument to [unsigned char] to index a table. *)
Definition sqlite3Toupper (x : Z) : Z :=
  Z.land x (Z.lnot (Z.land (nth (Z.to_nat (u8 x)) sqlite3CtypeMap 0) 0x20)).
Definition sqlite3Isspace (x : Z) : bool := negb (Z.land (nth (Z.to_nat (u8 x)) sqlite3CtypeMap 0) 0x01 =? 0).
Definition sqlite3Isalnum (x : Z) : bool := negb (Z.land (nth (Z.to_nat (u8 x)) sqlite3CtypeMap 0) 0x06 =? 0).
Definition sqlite3Isalpha (x : Z) : bool := negb (Z.land (nth (Z.to_nat (u8 x)) sqlite3CtypeMap 0) 0x02 =? 0).
Definition sqlite3Isdigit (x : Z) : bool := negb (Z.land (nth (Z.to_nat (u8 x)) sqlite3CtypeMap 0) 0x04 =? 0).
Definition sqlite3Isxdigit (x : Z) : bool := negb (Z.land (nth (Z.to_nat (u8 x)) sqlite3CtypeMap 0) 0x08 =? 0).
Definition sqlite3Tolower (x : Z) : Z := nth (Z.to_nat (u8 x)) sqlite3UpperToLower 0.
Definition sqlite3Isquote (x : Z) : bool := negb (Z.land (nth (Z.to_nat (u8 x)) sqlite3CtypeMap 0) 0x80 =? 0).

(** ** What the tables hold *)

(** The ASCII conversions and classes. *)
Definition ascii_lower (c : Z) : Z := if (65 <=? c) && (c <=? 90) then c + 32 else c.
Definition ascii_upper (c : Z) : Z := if (97 <=? c) && (c <=? 122) then c - 32 else c.
Definition ascii_space (c : Z) : bool := (c =? 32) || ((9 <=? c) && (c <=? 13)).
Definition ascii_digit (c : Z) : bool := (48 <=? c) && (c <=? 57).

Section ctype.
Implicit Types c : Z.

Lemma sqlite3Tolower_ascii c : byte_ok c → sqlite3Tolower c = ascii_lower c.
Proof.
  intros Hc. apply Z.eqb_eq.
  by apply (all_bytes (λ c, sqlite3Tolower c =? ascii_lower c) eq_refl c Hc).
Qed.

Lemma sqlite3Toupper_ascii c : byte_ok c → sqlite3Toupper c = ascii_upper c.
Proof.
  intros Hc. apply Z.eqb_eq.
  by apply (all_bytes (λ c, sqlite3Toupper c =? ascii_upper c) eq_refl c Hc).
Qed.

Lemma sqlite3Isspace_ascii c : byte_ok c → sqlite3Isspace c = ascii_space c.
Proof.
  intros Hc. apply eqb_true_iff.
  by apply (all_bytes (λ c, Bool.eqb (sqlite3Isspace c) (ascii_space c)) eq_refl c Hc).
Qed.

Lemma sqlite3Isdigit_ascii c : byte_ok c → sqlite3Isdigit c = ascii_digit c.
Proof.
  intros Hc. apply eqb_true_iff.
  by apply (all_bytes (λ c, Bool.eqb (sqlite3Isdigit c) (ascii_digit c)) eq_refl c Hc).
Qed.

(** Two characters that agree up to case are one of the two cases of the
    other. *)
Lemma ascii_same_case c d :
  ascii_lower c = ascii_lower d ↔ d = ascii_lower c ∨ d = ascii_upper c.
Proof.
  unfold ascii_lower, ascii_upper.
  repeat match goal with |- context [(?a <=? ?b) && (?c <=? ?d)] =>
    destruct (Z.leb_spec a b), (Z.leb_spec c d); cbn [andb] end; lia.
Qed.
End ctype.


(** The bytes of a literal. *)
Definition bytes (x : string) : list Z := (λ a, Z.of_nat (nat_of_ascii a)) <$> String.list_ascii_of_string x.

Definition tolower (c : Z) : Z := if (65 <=? c) && (c <=? 90) then c + 32 else c.

Fixpoint strlen (z : list Z) : option Z :=
  match z with
  | [] => None
  | b :: z => if b =? 0 then Some 0 else Z.succ <$> strlen z
  end.

(** [!strncasecmp(z, x, strlen(x))], for [x] without NUL: whether the string at
    [z] starts with [x], up to case. *)
Fixpoint starts_case (z x : list Z) {struct x} : option bool :=
  match x with
  | [] => Some true
  | a :: x =>
    match z with
    | [] => None
    | b :: z => if tolower b =? tolower a then starts_case z x else Some false
    end
  end.

(** Whether the string at [z] starts with [x], a string without NUL. *)
Fixpoint starts_with (z x : list Z) {struct x} : option bool :=
  match x with
  | [] => Some true
  | a :: x =>
    match z with
    | [] => None
    | b :: z => if b =? a then starts_with z x else Some false
    end
  end.

(** [strstr(z, x)], for [x] without NUL: the offset of the first occurrence. *)
Fixpoint strstr (z x : list Z) : option (option Z) :=
  match starts_with z x, z with
  | Some true, _ => Some (Some 0)
  | Some false, b :: z => if b =? 0 then Some None else option_map (option_map Z.succ) (strstr z x)
  | _, _ => None
  end.
