(* ===== verification/Integers.v ===== *)
(** * Integers as text, checked arithmetic, logarithms and hexadecimal

    The functions of util.c (in sqlite3.c) that convert text to integers, add,
    subtract and multiply 64-bit integers with a check for overflow, and estimate
    logarithms; those that convert hexadecimal text to bytes, and the part of
    sqlite3_open that reads a key from the name of the file.

    A signed operation that overflows and a read outside a buffer are [None].
    Characters are bytes; whether the type char is signed makes no difference. *)
From S2P Require Import Prelude Ctype.
Local Open Scope Z_scope.

(** ** 64-bit integers *)

Definition LARGEST_INT64 : Z := Z.lor 0xffffffff (Z.shiftl 0x7fffffff 32).
Definition SMALLEST_INT64 : Z := -1 - LARGEST_INT64.

(** The result of a signed operation on 64 bits. *)
Definition i64 (x : Z) : option Z := if (SMALLEST_INT64 <=? x) && (x <=? LARGEST_INT64) then Some x else None.

(** Division truncates. *)
Definition div64 (a b : Z) : option Z := if b =? 0 then None else i64 (Z.quot a b).

(** The functions return the result code and [*pA]. *)
Definition sqlite3AddInt64 (iA iB : Z) : option (Z * Z) :=
  over ← (if 0 <=? iB then
            if 0 <? iA then d ← i64 (LARGEST_INT64 - iA); Some (d <? iB) else Some false
          else
            if iA <? 0 then s ← i64 (iA + LARGEST_INT64); d ← i64 (- s); b ← i64 (iB + 1); Some (b <? d) else Some false);
  if over : bool then Some (1, iA) else r ← i64 (iA + iB); Some (0, r).

Definition sqlite3SubInt64 (iA iB : Z) : option (Z * Z) :=
  if iB =? SMALLEST_INT64 then
    if 0 <=? iA then Some (1, iA) else r ← i64 (iA - iB); Some (0, r)
  else b ← i64 (- iB); sqlite3AddInt64 iA b.

(** The checks of [sqlite3MulInt64]: whether it returns 1. *)
Definition mul_overflows (iA iB : Z) : option bool :=
  if 0 <? iB then
    q ← div64 LARGEST_INT64 iB;
    if q <? iA then Some true else q ← div64 SMALLEST_INT64 iB; Some (iA <? q)
  else if iB <? 0 then
    if 0 <? iA then q ← div64 SMALLEST_INT64 iA; Some (iB <? q)
    else if iA <? 0 then
      if iB =? SMALLEST_INT64 then Some true
      else if iA =? SMALLEST_INT64 then Some true
      else a ← i64 (- iA); b ← i64 (- iB); q ← div64 LARGEST_INT64 b; Some (q <? a)
    else Some false
  else Some false.

Definition sqlite3MulInt64 (iA iB : Z) : option (Z * Z) :=
  over ← mul_overflows iA iB;
  if over : bool then Some (1, iA) else r ← i64 (iA * iB); Some (0, r).

Definition sqlite3AbsInt32 (x : Z) : Z := if 0 <=? x then x else if x =? - 2 ^ 31 then 0x7fffffff else - x.

(** ** Decimal text *)

Definition SQLITE_UTF8 : Z := 1.

(** [z[i]]. *)
Definition char_at (z : list Z) (i : Z) : option Z := if i <? 0 then None else z !! Z.to_nat i.

(** The loop of [compare2pow63] over the first 18 digits, from [i] on. *)
Definition pow63 : list Z := [57;50;50;51;51;55;50;48;51;54;56;53;52;55;55;53;56;48].
Fixpoint compare_loop (digits : list Z) (z : list Z) (k incr : Z) : option Z :=
  match digits with
  | [] => Some 0
  | d :: digits => x ← char_at z k; let c := (x - d) * 10 in if c =? 0 then compare_loop digits z (k + incr) incr else Some c
  end.
Definition compare2pow63 (z : list Z) (zNum incr : Z) : option Z :=
  c ← compare_loop pow63 z zNum incr;
  if c =? 0 then x ← char_at z (zNum + 18 * incr); Some (x - 56) else Some c.

(** [for(i=3-enc; i<length && zNum[i]==0; i+=2)]: the index [i] where it ends.
    Loops over the text have the number of its bytes plus one as fuel. *)
Fixpoint high_bytes (n : nat) (z : list Z) (i length : Z) : option Z :=
  match n with
  | O => None
  | S n => if i <? length then c ← char_at z i; if c =? 0 then high_bytes n z (i + 2) length else Some i else Some i
  end.

(** [while( zNum<zEnd && p(zNum[0]) ) zNum += incr]. *)
Fixpoint skip_while (n : nat) (p : Z → bool) (z : list Z) (zNum zEnd incr : Z) : option Z :=
  match n with
  | O => None
  | S n => if zNum <? zEnd then c ← char_at z zNum; if p c then skip_while n p z (zNum + incr) zEnd incr else Some zNum else Some zNum
  end.

(** The loop over the digits: [u], and where it ends. *)
Fixpoint digit_loop (n : nat) (z : list Z) (zNum zEnd incr u : Z) : option (Z * Z) :=
  match n with
  | O => None
  | S n =>
    if zNum <? zEnd then
      c ← char_at z zNum;
      if (48 <=? c) && (c <=? 57) then digit_loop n z (zNum + incr) zEnd incr (u64 (u * 10 + c - 48)) else Some (u, zNum)
    else Some (u, zNum)
  end.

(** [*pNum]. *)
Definition atoi_value (u : Z) (neg : bool) : Z :=
  if LARGEST_INT64 <? u then (if neg then SMALLEST_INT64 else LARGEST_INT64) else if neg then - u else u.

(** The text from [zNum] on: the result code and [*pNum]. *)
Definition atoi_scan (fuel : nat) (z : list Z) (incr : Z) (nonNum : bool) (zEnd zNum : Z) : option (Z * Z) :=
  zNum ← skip_while fuel sqlite3Isspace z zNum zEnd incr;
  '(neg, zNum) ← (
    if zNum <? zEnd then
      c ← char_at z zNum;
      Some (if c =? 45 then (true, zNum + incr) else if c =? 43 then (false, zNum + incr) else (false, zNum))
    else Some (false, zNum));
  let zStart := zNum in
  zNum ← skip_while fuel (λ c, c =? 48) z zNum zEnd incr;
  '(u, e) ← digit_loop fuel z zNum zEnd incr 0;
  let i := e - zNum in
  let num := atoi_value u neg in
  if (e <? zEnd) || ((i =? 0) && (zStart =? zNum)) || (19 * incr <? i) || nonNum then Some (1, num)
  else if i <? 19 * incr then Some (0, num)
  else
    c ← compare2pow63 z zNum incr;
    Some (if c <? 0 then 0 else if 0 <? c then 1 else if neg then 0 else 2, num).

Definition sqlite3Atoi64 (z : list Z) (length enc : Z) : option (Z * Z) :=
  let fuel := S (List.length z) in
  '(incr, nonNum, zEnd, zNum) ← (
    if enc =? SQLITE_UTF8 then Some (1, false, length, 0)
    else i ← high_bytes fuel z (3 - enc) length; Some (2, i <? length, Z.lxor i 1, Z.land enc 1));
  atoi_scan fuel z incr nonNum zEnd zNum.

(** ** Hexadecimal text *)

Definition sqlite3HexToInt (h : Z) : Z := Z.land (h + 9 * Z.land 1 (Z.shiftr h 6)) 0xf.

(** The loop over hexadecimal digits, at most [max] of them: [u] of [w] bits, and
    the index where it ends. *)
Fixpoint hex_loop (n max : nat) (w : Z) (z : list Z) (k u : Z) : option (Z * Z) :=
  match n with
  | O => None
  | S n =>
    c ← char_at z k;
    if sqlite3Isxdigit c then
      match max with O => Some (u, k) | S max => hex_loop n max w z (k + 1) (wrap w (u * 16 + sqlite3HexToInt c)) end
    else Some (u, k)
  end.

(** [while( z[i]=='0' ) i++]. *)
Fixpoint skip_zeros (n : nat) (z : list Z) (i : Z) : option Z :=
  match n with O => None | S n => c ← char_at z i; if c =? 48 then skip_zeros n z (i + 1) else Some i end.

(** [z[0]=='0' && (z[1]=='x' || z[1]=='X')]. *)
Definition hex_prefix (z : list Z) : option bool :=
  c0 ← char_at z 0;
  if c0 =? 48 then c1 ← char_at z 1; Some ((c1 =? 120) || (c1 =? 88)) else Some false.

(** [memcpy] to a signed integer of [w] bits. *)
Definition to_signed (w u : Z) : Z := if u <? 2 ^ (w - 1) then u else u - 2 ^ w.

Definition sqlite3DecOrHexToI64 (z : list Z) : option (Z * Z) :=
  let fuel := S (List.length z) in
  hex ← hex_prefix z;
  if hex : bool then
    i ← skip_zeros fuel z 2;
    '(u, k) ← hex_loop fuel fuel 64 z i 0;
    c ← char_at z k;
    Some (if (c =? 0) && (k - i <=? 16) then 0 else 1, to_signed 64 u)
  else
    n ← strlen z; sqlite3Atoi64 z (Z.land 0x3fffffff n) SQLITE_UTF8.

(** The loop over at most [i] more digits: [v], and how many are left. *)
Fixpoint int32_loop (i : nat) (z : list Z) (k v : Z) : option (Z * nat) :=
  match i with
  | O => Some (v, O)
  | S i' =>
    x ← char_at z k;
    let c := x - 48 in
    if (0 <=? c) && (c <=? 9) then v ← i64 (v * 10 + c); int32_loop i' z (k + 1) v else Some (v, i)
  end.

(** What it returns, and the value if it is written. *)
Definition sqlite3GetInt32 (z : list Z) : option (Z * option Z) :=
  let fuel := S (List.length z) in
  c0 ← char_at z 0;
  hex ← (if (c0 =? 45) || (c0 =? 43) then Some false else
           hex ← hex_prefix z; if hex : bool then c2 ← char_at z 2; Some (sqlite3Isxdigit c2) else Some false);
  if hex : bool then
    i ← skip_zeros fuel z 2;
    '(u, k) ← hex_loop fuel 8 32 z i 0;
    c ← (if Z.land u 0x80000000 =? 0 then char_at z k else Some 0);
    if (Z.land u 0x80000000 =? 0) && negb (sqlite3Isxdigit c) then Some (1, Some (to_signed 32 u)) else Some (0, None)
  else
    let neg := c0 =? 45 in
    k ← skip_zeros fuel z (if (c0 =? 45) || (c0 =? 43) then 1 else 0);
    '(v, rest) ← int32_loop 11 z k 0;
    if 10 <? 11 - Z.of_nat rest then Some (0, None)
    else
      d ← i64 (v - (if neg then 1 else 0));
      if 2147483647 <? d then Some (0, None)
      else Some (1, Some (if neg then - v else v)).

(** The pointer may be null. *)
Definition sqlite3Atoi (z : option (list Z)) : option Z :=
  match z with None => Some 0 | Some z => '(_, x) ← sqlite3GetInt32 z; Some (default 0 x) end.

(** The bytes of the blob without the zero behind them, for the [n] characters at
    the start of [z], of which the last is the quote; nothing if the allocation
    fails. *)
Fixpoint blob_loop (k : nat) (z : list Z) (i n : Z) : option (list Z) :=
  match k with
  | O => None
  | S k =>
    if i <? n then
      h ← char_at z i; l ← char_at z (i + 1);
      rest ← blob_loop k z (i + 2) n;
      Some (u8 (Z.lor (Z.shiftl (sqlite3HexToInt h) 4) (sqlite3HexToInt l)) :: rest)
    else Some []
  end.
Definition sqlite3HexToBlob (alloc : bool) (z : list Z) (n : Z) : option (option (list Z)) :=
  if alloc then b ← blob_loop (S (List.length z)) z 0 (n - 1); Some (Some b) else Some None.

(** The loop that reads the key from the name of a file, at most [n] more digits
    from [i] on: the bytes of the key that are written. *)
Fixpoint hexkey_loop (n : nat) (z : list Z) (i iByte : Z) : option (list Z) :=
  match n with
  | O => Some []
  | S n =>
    c ← char_at z i;
    if sqlite3Isxdigit c then
      let iByte := u8 (Z.shiftl iByte 4 + sqlite3HexToInt c) in
      rest ← hexkey_loop n z (i + 1) iByte;
      Some (if Z.odd i then iByte :: rest else rest)
    else Some []
  end.
Definition hexkey (zHexKey : list Z) : option (list Z) := hexkey_loop 80 zHexKey 0 0.

(** ** Logarithms *)

(** The loops of [sqlite3LogEst]; each shifts at least one of 64 bits. *)
Fixpoint up_loop (n : nat) (x y : Z) : option (Z * Z) :=
  match n with O => None | S n => if x <? 8 then up_loop n (u64 (Z.shiftl x 1)) (y - 10) else Some (x, y) end.
Fixpoint down_loop (n : nat) (bound s d x y : Z) : option (Z * Z) :=
  match n with O => None | S n => if bound <? x then down_loop n bound s d (Z.shiftr x s) (y + d) else Some (x, y) end.

Definition log_table : list Z := [0; 2; 3; 5; 6; 7; 8; 9].
Definition sqlite3LogEst (x : Z) : option Z :=
  if x <? 2 then Some 0
  else
    '(x, y) ← (
      if x <? 8 then up_loop 65 x 40
      else '(x, y) ← down_loop 65 255 4 40 x 40; down_loop 65 15 1 10 x y);
    a ← char_at log_table (Z.land x 7); Some (a + y - 10).

Definition add_table : list Z :=
  [10; 10; 9; 9; 8; 8; 7; 7; 7; 6; 6; 6; 5; 5; 5; 4; 4; 4; 4; 3; 3; 3; 3; 3; 3; 2; 2; 2; 2; 2; 2; 2].
Definition sqlite3LogEstAdd (a b : Z) : option Z :=
  if b <=? a then
    if b + 49 <? a then Some a else if b + 31 <? a then Some (a + 1) else x ← char_at add_table (a - b); Some (a + x)
  else
    if a + 49 <? b then Some b else if a + 31 <? b then Some (b + 1) else x ← char_at add_table (b - a); Some (b + x).
