(* ===== verification/IntegersProps.v ===== *)
(** * Integers: proofs and properties

    Checked arithmetic never overflows and is right; text is converted to the
    integer that it denotes, in each encoding; logarithms are close; and
    hexadecimal text is read back. *)
From S2P Require Import Prelude Ctype Integers.
From stdpp Require Import strings.
Local Open Scope Z_scope.

(** ** Checked arithmetic *)

Definition int64 (x : Z) : Prop := - 2 ^ 63 ≤ x < 2 ^ 63.
#[global] Instance int64_dec x : Decision (int64 x).
Proof. unfold int64. apply _. Defined.

(** The result that the functions promise for an operation with the exact result
    [r] on [*pA], which holds [a]. *)
Definition checked (a r : Z) : Z * Z := if decide (int64 r) then (0, r) else (1, a).

Lemma largest_spec : LARGEST_INT64 = 2 ^ 63 - 1.
Proof. done. Qed.

Lemma smallest_spec : SMALLEST_INT64 = - 2 ^ 63.
Proof. done. Qed.

Lemma i64_spec x : int64 x → i64 x = Some x.
Proof.
  unfold int64, i64. rewrite largest_spec, smallest_spec. intros Hx.
  destruct (Z.leb_spec (- 2 ^ 63) x); [|lia]. destruct (Z.leb_spec x (2 ^ 63 - 1)); [done|lia].
Qed.

Lemma checked_in a r : int64 r → checked a r = (0, r).
Proof. intros Hr. unfold checked. by rewrite decide_True. Qed.

Lemma checked_out a r : ¬ int64 r → checked a r = (1, a).
Proof. intros Hr. unfold checked. by rewrite decide_False. Qed.

Ltac in_range := unfold int64 in *; lia.

Lemma add_spec a b : int64 a → int64 b → sqlite3AddInt64 a b = Some (checked a (a + b)).
Proof.
  intros Ha Hb. unfold sqlite3AddInt64. rewrite largest_spec. destruct (Z.leb_spec 0 b).
  - destruct (Z.ltb_spec 0 a).
    + rewrite (i64_spec (_ - a)) by in_range. cbn [mbind option_bind]. destruct (Z.ltb_spec (2 ^ 63 - 1 - a) b); [by rewrite checked_out by in_range|].
      by rewrite i64_spec, checked_in by in_range.
    + cbn [mbind option_bind]. by rewrite i64_spec, checked_in by in_range.
  - destruct (Z.ltb_spec a 0).
    + rewrite (i64_spec (a + (2 ^ 63 - 1))) by in_range. cbn [mbind option_bind]. rewrite (i64_spec (- _)) by in_range. cbn [mbind option_bind]. rewrite (i64_spec (b + 1)) by in_range. cbn [mbind option_bind].
      destruct (Z.ltb_spec (b + 1) (- (a + (2 ^ 63 - 1)))); [by rewrite checked_out by in_range|]. by rewrite i64_spec, checked_in by in_range.
    + cbn [mbind option_bind]. by rewrite i64_spec, checked_in by in_range.
Qed.

Lemma sub_spec a b : int64 a → int64 b → sqlite3SubInt64 a b = Some (checked a (a - b)).
Proof.
  intros Ha Hb. unfold sqlite3SubInt64. rewrite smallest_spec. destruct (Z.eqb_spec b (- 2 ^ 63)) as [->|Hne].
  - destruct (Z.leb_spec 0 a); [by rewrite checked_out by in_range|]. by rewrite i64_spec, checked_in by in_range.
  - rewrite (i64_spec (- b)) by in_range. cbn [mbind option_bind]. rewrite add_spec by in_range. by rewrite Z.add_opp_r.
Qed.

(** Division of 2^63 - 1, and of 2^63, by a positive number bounds a product. *)
Lemma quot_bound m b x : 0 ≤ m → 0 < b → Z.quot m b < x ↔ m < x * b.
Proof.
  intros Hm Hb. rewrite Z.quot_div_nonneg by lia. pose proof (Z.div_mod m b ltac:(lia)). pose proof (Z.mod_pos_bound m b Hb). nia.
Qed.

Lemma quot_range m b : 0 ≤ m → 0 < b → 0 ≤ Z.quot m b ≤ m.
Proof.
  intros Hm Hb. rewrite Z.quot_div_nonneg by lia. pose proof (Z.div_mod m b ltac:(lia)). pose proof (Z.mod_pos_bound m b Hb). nia.
Qed.

Lemma div64_pos m b : 0 ≤ m < 2 ^ 63 → 0 < b → div64 m b = Some (Z.quot m b).
Proof.
  intros Hm Hb. unfold div64. destruct (Z.eqb_spec b 0); [lia|]. pose proof (quot_range m b). apply i64_spec. in_range.
Qed.

Lemma div64_neg m b : 0 ≤ m ≤ 2 ^ 63 → 0 < b → div64 (- m) b = Some (- Z.quot m b).
Proof.
  intros Hm Hb. unfold div64. destruct (Z.eqb_spec b 0); [lia|]. rewrite Z.quot_opp_l by lia.
  pose proof (quot_range m b). apply i64_spec. in_range.
Qed.

Lemma mul_overflows_spec a b : int64 a → int64 b → mul_overflows a b = Some (bool_decide (¬ int64 (a * b))).
Proof.
  intros Ha Hb. unfold mul_overflows. rewrite largest_spec, smallest_spec.
  assert (∀ x m n : Z, 0 ≤ m → 0 < n → Z.quot m n < x ↔ m < x * n) as Hq by (intros; by apply quot_bound).
  assert (∀ c : bool, (c = true ↔ ¬ int64 (a * b)) → Some c = Some (bool_decide (¬ int64 (a * b)))) as Hc.
  { intros c Hc. f_equal. case_bool_decide; destruct c; try done; [by apply Hc|by destruct (proj1 Hc eq_refl)]. }
  destruct (Z.ltb_spec 0 b).
  - rewrite (div64_pos (2 ^ 63 - 1) b) by in_range. cbn [mbind option_bind]. pose proof (Hq a (2 ^ 63 - 1) b ltac:(lia) ltac:(lia)) as Hu.
    destruct (Z.ltb_spec (Z.quot (2 ^ 63 - 1) b) a).
    + apply Hc. split; [in_range|done].
    + rewrite (div64_neg (2 ^ 63) b) by in_range. cbn [mbind option_bind]. apply Hc. rewrite Z.ltb_lt.
      pose proof (Hq (- a) (2 ^ 63) b ltac:(lia) ltac:(lia)) as Hl. rewrite Z.mul_opp_l in Hl. unfold int64. clear Hc Hq. lia.
  - destruct (Z.ltb_spec b 0); [|apply Hc; split; [done|]; replace (a * b) with 0 by (replace b with 0 by lia; lia); intros []; in_range]. destruct (Z.ltb_spec 0 a).
    + rewrite (div64_neg (2 ^ 63) a) by in_range. cbn [mbind option_bind]. apply Hc. rewrite Z.ltb_lt.
      pose proof (Hq (- b) (2 ^ 63) a ltac:(lia) ltac:(lia)) as Hl. assert (a * b <= 0) by nia. replace (- b * a) with (- (a * b)) in Hl by lia. unfold int64. lia.
    + destruct (Z.ltb_spec a 0); [|apply Hc; split; [done|]; replace (a * b) with 0 by (replace a with 0 by lia; lia); intros []; in_range].
      destruct (Z.eqb_spec b (- 2 ^ 63)); [apply Hc; unfold int64 in *; split; [nia|done]|].
      destruct (Z.eqb_spec a (- 2 ^ 63)); [apply Hc; unfold int64 in *; split; [nia|done]|].
      rewrite (i64_spec (- a)), (i64_spec (- b)) by in_range. cbn [mbind option_bind].
      rewrite (div64_pos (2 ^ 63 - 1) (- b)) by in_range. cbn [mbind option_bind]. apply Hc. rewrite Z.ltb_lt.
      pose proof (Hq (- a) (2 ^ 63 - 1) (- b) ltac:(lia) ltac:(lia)) as Hl. assert (0 <= a * b) by nia. rewrite Z.mul_opp_opp in Hl. unfold int64. lia.
Qed.

Lemma mul_spec a b : int64 a → int64 b → sqlite3MulInt64 a b = Some (checked a (a * b)).
Proof.
  intros Ha Hb. unfold sqlite3MulInt64. rewrite mul_overflows_spec by done. cbn [mbind option_bind]. case_bool_decide as E; [by rewrite checked_out|].
  by rewrite i64_spec, checked_in.
Qed.

(** C22: Adding, subtracting and multiplying 64-bit integers gives the exact result
    and 0 if it is a 64-bit integer, and otherwise 1 with the operand unchanged; no
    signed operation on the way overflows. *)
Theorem checked_arithmetic (a b : Z) : int64 a → int64 b →
  sqlite3AddInt64 a b = Some (checked a (a + b)) ∧ sqlite3SubInt64 a b = Some (checked a (a - b)) ∧
  sqlite3MulInt64 a b = Some (checked a (a * b)).
Proof. intros Ha Hb. split; [by apply add_spec|]. split; [by apply sub_spec|by apply mul_spec]. Qed.

Lemma checked_arithmetic_witness :
  sqlite3AddInt64 (2 ^ 63 - 1) (- 2 ^ 63) = Some (0, -1) ∧ sqlite3SubInt64 (2 ^ 63 - 1) (- 2 ^ 63) = Some (1, 2 ^ 63 - 1) ∧
  sqlite3MulInt64 (2 ^ 63 - 1) (- 2 ^ 63) = Some (1, 2 ^ 63 - 1).
Proof. exact (checked_arithmetic (2 ^ 63 - 1) (- 2 ^ 63) ltac:(unfold int64; lia) ltac:(unfold int64; lia)). Defined.

Lemma sqlite3AbsInt32_spec x : int32 x → sqlite3AbsInt32 x = Z.min (Z.abs x) (2 ^ 31 - 1).
Proof.
  unfold int32, sqlite3AbsInt32. intros Hx. destruct (Z.leb_spec 0 x); [lia|]. destruct (Z.eqb_spec x (- 2 ^ 31)) as [->|]; [done|lia].
Qed.

(** ** Logarithms *)

Lemma char_at_lt z i : 0 ≤ i < Z.of_nat (length z) → char_at z i = Some (nth (Z.to_nat i) z 0).
Proof.
  intros Hi. unfold char_at. destruct (Z.ltb_spec i 0); [lia|].
  destruct (nth_lookup_or_length z (Z.to_nat i) 0) as [E|?]; [done|lia].
Qed.

(** The loops shift [x] to the right by [k] bits and add ten for each. *)
Lemma down_loop_spec (n : nat) bound s x y :
  1 ≤ s → 8 * 2 ^ s - 1 ≤ bound → 8 ≤ x < 2 ^ Z.of_nat n →
  ∃ k, 0 ≤ k ∧ down_loop n bound s (10 * s) x y = Some (Z.shiftr x k, y + 10 * k) ∧ 8 ≤ Z.shiftr x k ≤ bound.
Proof.
  intros Hs Hb. revert x y. induction n as [|n IH]; intros x y Hx; [cbn in Hx; lia|]. cbn [down_loop]. destruct (Z.ltb_spec bound x).
  - pose proof (Z.pow_pos_nonneg 2 s). assert (8 ≤ Z.shiftr x s < 2 ^ Z.of_nat n) as Hx'.
    { rewrite Z.shiftr_div_pow2 by lia. split; [apply Z.div_le_lower_bound; lia|]. apply Z.div_lt_upper_bound; [lia|].
      rewrite Nat2Z.inj_succ, Z.pow_succ_r in Hx by lia. pose proof (Z.pow_le_mono_r 2 1 s). nia. }
    destruct (IH _ (y + 10 * s) Hx') as (k & Hk & -> & Hr). exists (s + k). rewrite Z.shiftr_shiftr in Hr |- * by lia.
    split; [lia|]. split; [f_equal; f_equal; lia|done].
  - exists 0. rewrite Z.shiftr_0_r. split; [done|]. split; [f_equal; f_equal; lia|lia].
Qed.

(** The entry for the leading bits [m]. *)
Definition log_entry (m : Z) : Z := nth (Z.to_nat (m - 8)) log_table 0.

(** The three bits behind the leading one decide. *)
Lemma sqlite3LogEst_spec x : 8 ≤ x < 2 ^ 64 →
  ∃ k m, 0 ≤ k ∧ 8 ≤ m < 16 ∧ m * 2 ^ k ≤ x < (m + 1) * 2 ^ k ∧ sqlite3LogEst x = Some (log_entry m + 30 + 10 * k).
Proof.
  intros Hx. unfold sqlite3LogEst. destruct (Z.ltb_spec x 2); [lia|]. destruct (Z.ltb_spec x 8); [lia|].
  destruct (down_loop_spec 65 255 4 x 40) as (k & Hk & E & Hr); [lia|done|lia|]. change (10 * 4) with 40 in E. rewrite E. cbn [mbind option_bind].
  destruct (down_loop_spec 65 15 1 (Z.shiftr x k) (40 + 10 * k)) as (k' & Hk' & E' & Hr'); [lia|done|lia|]. change (10 * 1) with 10 in E'. rewrite E'.
  cbn [mbind option_bind]. rewrite Z.shiftr_shiftr in Hr' |- * by lia. set (m := Z.shiftr x (k + k')) in *.
  assert (Z.land m 7 = m - 8) as ->.
  { change 7 with (Z.ones 3). rewrite Z.land_ones by lia. symmetry. apply (Z.mod_unique_pos _ _ 1); lia. }
  rewrite char_at_lt by (cbn; lia). cbn [mbind option_bind]. exists (k + k'), m. split; [lia|]. split; [lia|]. split; [|unfold log_entry; f_equal; lia].
  unfold m. rewrite Z.shiftr_div_pow2 by lia. pose proof (Z.pow_pos_nonneg 2 (k + k')).
  pose proof (Z.div_mod x (2 ^ (k + k')) ltac:(lia)). pose proof (Z.mod_pos_bound x (2 ^ (k + k')) ltac:(lia)). nia.
Qed.

(** A property of the numbers of a range, by evaluation. *)
Lemma all_range (lo n : Z) (f : Z → bool) : forallb f (seqZ lo n) = true → ∀ x, lo ≤ x < lo + n → f x = true.
Proof. intros Hf x Hx. rewrite forallb_forall in Hf. apply Hf, list_elem_of_In, elem_of_seqZ. lia. Qed.

Lemma log_table_close m : 8 ≤ m < 16 → 0 ≤ log_entry m ≤ 9 ∧ 2 ^ (log_entry m + 29) ≤ m ^ 10 ∧ (m + 1) ^ 10 ≤ 2 ^ (log_entry m + 32).
Proof.
  intros Hm. pose proof (all_range 8 8 (λ m, (0 <=? log_entry m) && (log_entry m <=? 9) && (2 ^ (log_entry m + 29) <=? m ^ 10) &&
    ((m + 1) ^ 10 <=? 2 ^ (log_entry m + 32))) ltac:(by vm_compute) m Hm) as H. rewrite !andb_true_iff, !Z.leb_le in H. tauto.
Qed.

Lemma log_table_mono m m' : 8 ≤ m ≤ m' → m' < 16 → log_entry m ≤ log_entry m'.
Proof.
  intros Hm Hm'. pose proof (all_range 8 8 (λ m, forallb (λ m', (m' <? m) || (log_entry m <=? log_entry m')) (seqZ 8 8)) ltac:(by vm_compute) m ltac:(lia)) as H.
  pose proof (all_range 8 8 _ H m' ltac:(lia)) as H'. cbn beta in H'. rewrite orb_true_iff, Z.ltb_lt, Z.leb_le in H'. lia.
Qed.

(** The estimates of numbers below 8. *)
Definition small_entry (x : Z) : Z := default (-1) (sqlite3LogEst x).

Lemma small_log x : 1 ≤ x < 8 →
  sqlite3LogEst x = Some (small_entry x) ∧ 0 ≤ small_entry x < 30 ∧ 2 ^ (small_entry x - 1) ≤ x ^ 10 < 2 ^ (small_entry x + 2).
Proof.
  intros Hx. pose proof (all_range 1 7 (λ x, (0 <=? small_entry x) && (small_entry x <? 30) && (2 ^ (small_entry x - 1) <=? x ^ 10) &&
    (x ^ 10 <? 2 ^ (small_entry x + 2))) ltac:(by vm_compute) x Hx) as H. rewrite !andb_true_iff, !Z.leb_le, !Z.ltb_lt in H. destruct H as (((H1 & H2) & H3) & H4).
  split; [|done]. unfold small_entry in *. destruct (sqlite3LogEst x); [done|]. cbn in H1. lia.
Qed.

Lemma small_log_mono x y : 1 ≤ x ≤ y → y < 8 → small_entry x ≤ small_entry y.
Proof.
  intros Hx Hy. pose proof (all_range 1 7 (λ x, forallb (λ y, (y <? x) || (small_entry x <=? small_entry y)) (seqZ 1 7)) ltac:(by vm_compute) x ltac:(lia)) as H.
  pose proof (all_range 1 7 _ H y ltac:(lia)) as H'. cbn beta in H'. rewrite orb_true_iff, Z.ltb_lt, Z.leb_le in H'. lia.
Qed.

(** Ten times the logarithm of a number with leading bits [m] and [k] bits behind. *)
Lemma log_close x k m a : 0 ≤ k → 0 ≤ m → m * 2 ^ k ≤ x < (m + 1) * 2 ^ k → 2 ^ (a + 29) ≤ m ^ 10 → (m + 1) ^ 10 ≤ 2 ^ (a + 32) → 0 ≤ a →
  2 ^ (a + 30 + 10 * k - 1) ≤ x ^ 10 < 2 ^ (a + 30 + 10 * k + 2).
Proof.
  intros Hk Hm [Hl Hu] Ha Hb Ha0. pose proof (Z.pow_pos_nonneg 2 k).
  replace (a + 30 + 10 * k - 1) with ((a + 29) + k * 10) by lia. replace (a + 30 + 10 * k + 2) with ((a + 32) + k * 10) by lia.
  rewrite (Z.pow_add_r 2 (a + 29)), (Z.pow_add_r 2 (a + 32)), !Z.pow_mul_r by lia. pose proof (Z.pow_pos_nonneg (2 ^ k) 10). split.
  - trans ((m * 2 ^ k) ^ 10); [rewrite Z.pow_mul_l; apply Z.mul_le_mono_nonneg_r; [lia|done]|]. apply Z.pow_le_mono_l. nia.
  - apply Z.lt_le_trans with (((m + 1) * 2 ^ k) ^ 10); [apply Z.pow_lt_mono_l; nia|]. rewrite Z.pow_mul_l.
    apply Z.mul_le_mono_nonneg_r; [lia|done].
Qed.

(** C34: The estimate of a logarithm is within two of ten times the logarithm to the
    base 2, and a larger number never has a smaller estimate. *)
Theorem sqlite3LogEst_close (x y : Z) : 1 ≤ x ≤ y → y < 2 ^ 64 →
  ∃ l l', sqlite3LogEst x = Some l ∧ sqlite3LogEst y = Some l' ∧ 0 ≤ l ≤ l' ∧ 2 ^ (l - 1) ≤ x ^ 10 < 2 ^ (l + 2).
Proof.
  intros Hx Hy. destruct (Z.lt_ge_cases x 8) as [Hx8|Hx8].
  - destruct (small_log x) as (E & Hl & Hc); [lia|]. destruct (Z.lt_ge_cases y 8) as [Hy8|Hy8].
    + destruct (small_log y) as (E' & _); [lia|]. pose proof (small_log_mono x y Hx Hy8). eexists _, _. split; [exact E|]. split; [exact E'|]. split; [lia|done].
    + destruct (sqlite3LogEst_spec y) as (k & m & Hk & Hm & _ & E'); [lia|]. destruct (log_table_close m Hm) as (Ha & _).
      eexists _, _. split; [exact E|]. split; [exact E'|]. split; [lia|done].
  - destruct (sqlite3LogEst_spec x) as (k & m & Hk & Hm & Hb & E); [lia|]. destruct (sqlite3LogEst_spec y) as (k' & m' & Hk' & Hm' & Hb' & E'); [lia|].
    destruct (log_table_close m Hm) as (Ha & Hl & Hu). destruct (log_table_close m' Hm') as (Ha' & _).
    eexists _, _. split; [exact E|]. split; [exact E'|]. split; [|apply (log_close x k m); lia].
    assert (k ≤ k') as Hkk.
    { apply Z.nlt_ge. intros Hlt. pose proof (Z.pow_le_mono_r 2 (k' + 1) k). rewrite Z.pow_add_r in * by lia. change (2 ^ 1) with 2 in *.
      pose proof (Z.pow_pos_nonneg 2 k'). nia. }
    destruct (Z.eq_dec k k') as [<-|Hne]; [|lia]. assert (m ≤ m') by (pose proof (Z.pow_pos_nonneg 2 k); nia).
    pose proof (log_table_mono m m'). lia.
Qed.

Lemma sqlite3LogEst_close_witness :
  ∃ l l', sqlite3LogEst 1000 = Some l ∧ sqlite3LogEst (2 ^ 64 - 1) = Some l' ∧ 0 ≤ l ≤ l' ∧ 2 ^ (l - 1) ≤ 1000 ^ 10 < 2 ^ (l + 2).
Proof. apply (sqlite3LogEst_close 1000 (2 ^ 64 - 1)); lia. Defined.

Lemma sqlite3LogEstAdd_spec a b : ∃ x, 0 ≤ x ≤ 10 ∧ sqlite3LogEstAdd a b = Some (Z.max a b + x) ∧ sqlite3LogEstAdd b a = Some (Z.max a b + x) ∧
  (x = 0 ↔ 49 < Z.abs (a - b)).
Proof.
  assert (∀ d, 0 ≤ d < 32 → 0 < nth (Z.to_nat d) add_table 0 ≤ 10) as Ht.
  { intros d Hd. pose proof (all_range 0 32 (λ d, (0 <? nth (Z.to_nat d) add_table 0) && (nth (Z.to_nat d) add_table 0 <=? 10)) ltac:(by vm_compute) d Hd) as H.
    rewrite andb_true_iff, Z.ltb_lt, Z.leb_le in H. done. }
  assert (∀ p q, q ≤ p → ∃ x, 0 ≤ x ≤ 10 ∧ sqlite3LogEstAdd p q = Some (p + x) ∧ sqlite3LogEstAdd q p = Some (p + x) ∧ (x = 0 ↔ 49 < p - q)) as Hw.
  { intros p q Hpq. unfold sqlite3LogEstAdd. destruct (Z.leb_spec q p); [|lia].
    assert (∀ (X Y : option Z), (p = q → X = Y) → (if p <=? q then X else Y) = Y) as Hle by (intros X Y HXY; destruct (Z.leb_spec p q); [apply HXY; lia|done]).
    rewrite Hle by (intros ->; done). destruct (Z.ltb_spec (q + 49) p); [exists 0; rewrite Z.add_0_r; split_and!; done || lia|].
    destruct (Z.ltb_spec (q + 31) p); [exists 1; split_and!; done || lia|]. rewrite char_at_lt by (cbn; lia). cbn [mbind option_bind].
    pose proof (Ht (p - q)). eexists. split; [|split; [done|split; [done|]]]; lia. }
  destruct (Z.le_ge_cases b a) as [Hle|Hle].
  - destruct (Hw a b Hle) as (x & Hx & E1 & E2 & H0). exists x. rewrite Z.max_l by lia. split_and!; try done; lia.
  - destruct (Hw b a Hle) as (x & Hx & E1 & E2 & H0). exists x. rewrite Z.max_r by lia. split_and!; try done; lia.
Qed.

(** ** Hexadecimal text *)

(** The digit of a number below 16, in upper or lower case, and the digits of
    bytes. *)
Definition hex_digit (upper : bool) (v : Z) : Z := if v <? 10 then 48 + v else if upper then 55 + v else 87 + v.
Definition hex_text (upper : bool) (bs : list Z) : list Z := bs ≫= λ b, [hex_digit upper (b / 16); hex_digit upper (b mod 16)].

Lemma hex_digit_spec upper v : 0 ≤ v < 16 → sqlite3Isxdigit (hex_digit upper v) = true ∧ sqlite3HexToInt (hex_digit upper v) = v.
Proof.
  intros Hv. pose proof (all_range 0 16 (λ v, sqlite3Isxdigit (hex_digit upper v) && (sqlite3HexToInt (hex_digit upper v) =? v))) as H.
  specialize (H ltac:(destruct upper; by vm_compute) v Hv). rewrite andb_true_iff, Z.eqb_eq in H. done.
Qed.

Lemma char_at_app l c r : char_at (l ++ c :: r) (Z.of_nat (length l)) = Some c.
Proof. unfold char_at. destruct (Z.ltb_spec (Z.of_nat (length l)) 0); [lia|]. rewrite Nat2Z.id. by rewrite lookup_app_r, Nat.sub_diag by lia. Qed.

Lemma char_at_app2 l c c' r : char_at (l ++ c :: c' :: r) (Z.of_nat (length l) + 1) = Some c'.
Proof.
  pose proof (char_at_app (l ++ [c]) c' r) as E. rewrite <-app_assoc, length_app, Nat2Z.inj_add in E. exact E.
Qed.

Lemma hex_byte b : byte_ok b → 0 ≤ b / 16 < 16 ∧ 0 ≤ b mod 16 < 16 ∧ b = b / 16 * 16 + b mod 16.
Proof.
  unfold uint. intros Hb. pose proof (Z.div_mod b 16 ltac:(lia)). pose proof (Z.mod_pos_bound b 16 ltac:(lia)).
  split; [|lia]. split; [apply Z.div_pos; lia|apply Z.div_lt_upper_bound; lia].
Qed.

Lemma u8_shl_or h l : 0 ≤ h < 16 → 0 ≤ l < 16 → u8 (Z.lor (Z.shiftl h 4) l) = h * 16 + l.
Proof.
  intros Hh Hl.
  pose proof (all_range 0 16 (λ h, forallb (λ l, u8 (Z.lor (Z.shiftl h 4) l) =? h * 16 + l) (seqZ 0 16)) ltac:(by vm_compute) h Hh) as H.
  by apply Z.eqb_eq, (all_range 0 16 _ H l Hl).
Qed.

Lemma blob_loop_spec upper bs : Forall byte_ok bs → ∀ k l r, (length bs < k)%nat →
  blob_loop k (l ++ hex_text upper bs ++ r) (Z.of_nat (length l)) (Z.of_nat (length l) + 2 * Z.of_nat (length bs)) = Some bs.
Proof.
  induction 1 as [|b bs Hb _ IH]; intros k l r Hk; (destruct k as [|k]; [cbn in Hk; lia|]); cbn [blob_loop length].
  - destruct (Z.ltb_spec (Z.of_nat (length l)) (Z.of_nat (length l) + 2 * Z.of_nat 0)); [lia|done].
  - destruct (Z.ltb_spec (Z.of_nat (length l)) (Z.of_nat (length l) + 2 * Z.of_nat (S (length bs)))); [|lia].
    destruct (hex_byte b Hb) as (Hh & Hl & Eb). destruct (hex_digit_spec upper _ Hh) as [_ E1]. destruct (hex_digit_spec upper _ Hl) as [_ E2].
    change (hex_text upper (b :: bs)) with (hex_digit upper (b / 16) :: hex_digit upper (b mod 16) :: hex_text upper bs). cbn [app].
    rewrite char_at_app, char_at_app2. cbn [mbind option_bind]. rewrite E1, E2, u8_shl_or, <-Eb by done.
    specialize (IH k (l ++ [hex_digit upper (b / 16); hex_digit upper (b mod 16)]) r ltac:(cbn in Hk; lia)).
    rewrite length_app, Nat2Z.inj_add, <-app_assoc in IH. cbn [app length] in IH. change (Z.of_nat 2) with 2 in IH.
    replace (Z.of_nat (length l) + 2 * Z.of_nat (S (length bs))) with (Z.of_nat (length l) + 2 + 2 * Z.of_nat (length bs)) by lia.
    by rewrite IH.
Qed.

Lemma length_hex_text upper bs : length (hex_text upper bs) = (2 * length bs)%nat.
Proof.
  induction bs as [|b bs IH]; [done|].
  change (hex_text upper (b :: bs)) with (hex_digit upper (b / 16) :: hex_digit upper (b mod 16) :: hex_text upper bs). cbn [length]. lia.
Qed.

Lemma hexkey_loop_spec upper bs : Forall byte_ok bs → ∀ n l c r iByte, (2 * length bs ≤ n)%nat → Nat.even (length l) = true →
  sqlite3Isxdigit c = false ∨ n = (2 * length bs)%nat →
  hexkey_loop n (l ++ hex_text upper bs ++ c :: r) (Z.of_nat (length l)) iByte = Some bs.
Proof.
  induction 1 as [|b bs Hb _ IH]; intros n l c r iByte Hn Hev Hc.
  - destruct n as [|n]; [done|]. cbn [hexkey_loop hex_text mbind list_bind app]. rewrite char_at_app. cbn [mbind option_bind].
    destruct Hc as [->|?]; [done|cbn in *; lia].
  - destruct n as [|[|n]]; [cbn in Hn; lia..|]. cbn [hexkey_loop].
    destruct (hex_byte b Hb) as (Hh & Hl & Eb). destruct (hex_digit_spec upper _ Hh) as [X1 E1]. destruct (hex_digit_spec upper _ Hl) as [X2 E2].
    change (hex_text upper (b :: bs)) with (hex_digit upper (b / 16) :: hex_digit upper (b mod 16) :: hex_text upper bs). cbn [app].
    rewrite char_at_app, char_at_app2. cbn [mbind option_bind]. rewrite X1, X2, E1, E2.
    assert (u8 (Z.shiftl (u8 (Z.shiftl iByte 4 + b / 16)) 4 + b mod 16) = b) as ->.
    { unfold u8, wrap. rewrite !Z.shiftl_mul_pow2 by lia. change (2 ^ 4) with 16. change (2 ^ 8) with 256.
      assert (((iByte * 16 + b / 16) mod 256 * 16 + b mod 16) mod 256 = b) as E; [|exact E].
      pose proof (Z.div_mod (iByte * 16 + b / 16) 256 ltac:(lia)) as E. pose proof (Z.mod_pos_bound (iByte * 16 + b / 16) 256 ltac:(lia)).
      set (x := (iByte * 16 + b / 16) mod 256) in *. set (y := (iByte * 16 + b / 16) / 256) in *.
      symmetry. apply (Z.mod_unique_pos _ _ (iByte - 16 * y)); [unfold uint in Hb; lia|]. lia. }
    specialize (IH n (l ++ [hex_digit upper (b / 16); hex_digit upper (b mod 16)]) c r b ltac:(cbn in Hn; lia)).
    rewrite length_app, Nat2Z.inj_add, <-app_assoc in IH. cbn [app length] in IH. change (Z.of_nat 2) with 2 in IH.
    replace (Z.of_nat (length l) + 1 + 1) with (Z.of_nat (length l) + 2) by lia.
    rewrite IH; [|by rewrite Nat.even_add, Hev|destruct Hc; [by left|right; cbn in *; lia]]. cbn [mbind option_bind].
    assert (Z.odd (Z.of_nat (length l)) = false) as Hodd.
    { rewrite <-Z.negb_even, negb_false_iff. apply Z.even_spec. apply Nat.even_spec in Hev as [m Hm]. exists (Z.of_nat m). lia. }
    by rewrite Z.odd_add, Hodd.
Qed.

(** Bytes written as hexadecimal digits in either case are read back, by
    sqlite3HexToBlob from the text before the quote, and as a key of at most 40
    bytes from the name of a file, where the digits end with the first character
    that is none. *)
Theorem hex_roundtrip (upper : bool) (bs more : list Z) (c : Z) : Forall byte_ok bs →
  sqlite3HexToBlob true (hex_text upper bs ++ c :: more) (2 * Z.of_nat (length bs) + 1) = Some (Some bs) ∧
  ((length bs ≤ 40)%nat → sqlite3Isxdigit c = false ∨ length bs = 40%nat → hexkey (hex_text upper bs ++ c :: more) = Some bs).
Proof.
  intros Hb. split.
  - unfold sqlite3HexToBlob. pose proof (blob_loop_spec upper bs Hb (S (length (hex_text upper bs ++ c :: more))) [] (c :: more)) as E.
    rewrite Z.add_simpl_r. cbn [app length] in E. change (Z.of_nat 0) with 0 in E. rewrite Z.add_0_l in E. rewrite E; [done|]. rewrite length_app, length_hex_text. lia.
  - intros Hl Hc. apply (hexkey_loop_spec upper bs Hb 80 [] c more 0); [lia|done|]. destruct Hc as [?|E]; [by left|right; by rewrite E].
Qed.

Lemma hex_roundtrip_witness : sqlite3HexToBlob true (bytes "0AfF'") 5 = Some (Some [10; 255]) ∧ hexkey (bytes "DeadBeef" ++ [0]) = Some [222; 173; 190; 239] ∧
  hexkey (hex_text false [222; 173; 190; 239] ++ [0]) = Some [222; 173; 190; 239].
Proof.
  split; [reflexivity|]. split; [reflexivity|]. apply (hex_roundtrip false [222; 173; 190; 239] [] 0); [|cbn; lia|left; reflexivity].
  do 4 (constructor; [unfold uint; lia|]). constructor.
Defined.

(** ** Decimal text: the specification *)

(** The length of the longest start of [l] in [p]. *)
Fixpoint run (p : Z → bool) (l : list Z) : nat := match l with x :: l => if p x then S (run p l) else O | [] => O end.

Definition decimal_from (v : Z) (l : list Z) : Z := foldl (λ v c, v * 10 + (c - 48)) v l.
Abbreviation decimal := (decimal_from 0).

Definition sign_of (t : list Z) : bool * list Z :=
  match t with c :: r => if c =? 45 then (true, r) else if c =? 43 then (false, r) else (false, t) | [] => (false, t) end.

(** The integer that a text denotes: white space, a sign and digits. *)
Definition int_text (t : list Z) : option Z :=
  let '(neg, t) := sign_of (drop (run ascii_space t) t) in
  if forallb ascii_digit t && negb (bool_decide (t = [])) then Some (if neg then - decimal t else decimal t) else None.

(** The bytes of a text in an encoding, of characters of one code unit. *)
Definition text_bytes (enc : Z) (t : list Z) : list Z :=
  if enc =? SQLITE_UTF8 then t else t ≫= λ u, if enc =? 2 then [u mod 256; u / 256] else [u / 256; u mod 256].

(** The result code and [*pNum] for a text that denotes [v], or no integer. *)
Definition atoi_result (v : option Z) (rc num : Z) : Prop :=
  match v with
  | Some v => if decide (int64 v) then rc = 0 ∧ num = v else if decide (v = 2 ^ 63) then rc = 2 ∧ num = 2 ^ 63 - 1 else rc = 1
  | None => rc = 1
  end.

Section run.
Implicit Types (p : Z → bool) (l : list Z).

Lemma run_le p l : (run p l ≤ length l)%nat.
Proof. induction l as [|x l IH]; cbn; [done|]. destruct (p x); lia. Qed.

Lemma run_all p l : run p l = length l ↔ forallb p l = true.
Proof.
  induction l as [|x l IH]; [done|]. cbn. destruct (p x); cbn; [rewrite <-IH; lia|split; [lia|done]].
Qed.

Lemma run_take p l : forallb p (take (run p l) l) = true.
Proof. induction l as [|x l IH]; [done|]. cbn. destruct (p x) eqn:E; [|done]. cbn. by rewrite E. Qed.

Lemma run_ext p q l : Forall (λ x, p x = q x) l → run p l = run q l.
Proof. induction 1 as [|x l Hx _ IH]; [done|]. cbn. by rewrite Hx, IH. Qed.

Lemma run_stop p l x l' : drop (run p l) l = x :: l' → p x = false.
Proof. induction l as [|y l IH]; [done|]. cbn. destruct (p y) eqn:E; [exact IH|]. intros Hl. cbn in Hl. by injection Hl as <- <-. Qed.
End run.

Lemma decimal_from_spec l v : Forall (λ c, 0 ≤ c - 48 ≤ 9) l → decimal_from v l = v * 10 ^ Z.of_nat (length l) + decimal l ∧ 0 ≤ decimal l < 10 ^ Z.of_nat (length l).
Proof.
  revert v. induction l as [|c l IH]; intros v Hl; [cbn; lia|]. inversion_clear Hl as [|?? Hc Hl'].
  assert (∀ v, decimal_from v (c :: l) = decimal_from (v * 10 + (c - 48)) l) as E by done. rewrite !E.
  destruct (IH (v * 10 + (c - 48)) Hl') as [-> Hr]. destruct (IH (0 * 10 + (c - 48)) Hl') as [-> _].
  cbn [length]. rewrite Nat2Z.inj_succ, Z.pow_succ_r by lia. nia.
Qed.

Lemma ascii_digits l : forallb ascii_digit l = true → Forall (λ c, 0 ≤ c - 48 ≤ 9) l.
Proof.
  intros Hl. apply Forall_forall. intros c Hc. rewrite forallb_forall in Hl. apply list_elem_of_In, Hl in Hc.
  unfold ascii_digit in Hc. rewrite andb_true_iff, !Z.leb_le in Hc. lia.
Qed.

Lemma decimal_bound l : forallb ascii_digit l = true → 0 ≤ decimal l < 10 ^ Z.of_nat (length l).
Proof. intros Hl. by apply (decimal_from_spec l 0), ascii_digits. Qed.

(** Zeros in front do not count, and without them the number of digits bounds the
    value from below. *)
Lemma decimal_zeros l : decimal l = decimal (drop (run (λ c, c =? 48) l) l).
Proof. induction l as [|c l IH]; [done|]. cbn [run]. destruct (Z.eqb_spec c 48) as [->|]; [exact IH|done]. Qed.

Lemma decimal_long l : forallb ascii_digit l = true → (19 < length (drop (run (λ c, (c =? 48)%Z) l) l))%nat → 10 ^ 19 ≤ decimal l.
Proof.
  intros Hl Hlen. rewrite decimal_zeros. destruct (drop (run _ l) l) as [|c r] eqn:E; [cbn in Hlen; lia|].
  pose proof (run_stop _ _ _ _ E) as Hc. apply Z.eqb_neq in Hc. assert (forallb ascii_digit (c :: r) = true) as Hd.
  { rewrite <-E. rewrite <-(take_drop (run (λ c, c =? 48) l) l), forallb_app in Hl. by apply andb_true_iff in Hl as [_ ?]. }
  pose proof (ascii_digits _ Hd) as Hf. inversion_clear Hf as [|?? Hc' Hr]. change (decimal (c :: r)) with (decimal_from (0 * 10 + (c - 48)) r).
  destruct (decimal_from_spec r (0 * 10 + (c - 48)) Hr) as [-> Hb]. pose proof (Z.pow_le_mono_r 10 19 (Z.of_nat (length r))). cbn [length] in Hlen. nia.
Qed.

Lemma digits_drop_zeros l : forallb ascii_digit l = forallb ascii_digit (drop (run (λ c, c =? 48) l) l).
Proof. induction l as [|c l IH]; [done|]. cbn [run]. destruct (Z.eqb_spec c 48) as [->|]; [exact IH|done]. Qed.

(** What denotes an integer has only characters of one byte. *)
Lemma int_text_small t : int_text t ≠ None → Forall (λ u, u < 256) t.
Proof.
  unfold int_text. intros H. rewrite <-(take_drop (run ascii_space t) t). apply Forall_app_2.
  { apply Forall_forall. intros c Hc. pose proof (run_take ascii_space t) as Hs. rewrite forallb_forall in Hs. apply list_elem_of_In, Hs in Hc.
    unfold ascii_space in Hc. rewrite orb_true_iff, andb_true_iff, Z.eqb_eq, !Z.leb_le in Hc. lia. }
  set (r := drop _ t) in *. assert (∃ pre, r = pre ++ (sign_of r).2 ∧ Forall (λ u, u < 256) pre) as (pre & E & Hpre).
  { unfold sign_of. destruct r as [|c r]; [by exists []|].
    destruct (Z.eqb_spec c 45) as [->|]; [exists [45]; split; [done|by repeat constructor]|].
    destruct (Z.eqb_spec c 43) as [->|]; [exists [43]; split; [done|by repeat constructor]|by exists []]. }
  rewrite E. apply Forall_app_2; [done|]. destruct (sign_of r) as [neg d]. cbn [snd].
  destruct (forallb ascii_digit d) eqn:Ed; [|done]. eapply Forall_impl; [exact (ascii_digits d Ed)|]. cbn. lia.
Qed.

(** ** Decimal text: the loops *)

Section view.
(** The characters [w] in the buffer, one every [incr] bytes from [base] on. *)
Context (z : list Z) (base incr : Z) (w : list Z).
Hypothesis Hincr : 1 ≤ incr.
Hypothesis Hview : ∀ (j : nat) x, w !! j = Some x → char_at z (base + Z.of_nat j * incr) = Some x.

Definition pos (j : nat) : Z := base + Z.of_nat j * incr.
Definition zEnd : Z := pos (length w).

Lemma view_cons j x l : drop j w = x :: l → char_at z (pos j) = Some x ∧ drop (S j) w = l ∧ pos j < zEnd ∧ pos j + incr = pos (S j).
Proof.
  intros Hl. assert (w !! j = Some x) as Hx by (rewrite <-(Nat.add_0_r j), <-lookup_drop, Hl; done).
  split; [by apply Hview|]. split; [|split].
  - rewrite <-Nat.add_1_r, <-drop_drop, Hl. done.
  - apply lookup_lt_Some in Hx. unfold zEnd, pos. nia.
  - unfold pos. lia.
Qed.

Lemma view_nil j : (j ≤ length w)%nat → drop j w = [] → pos j = zEnd.
Proof. intros Hj Hl. apply (f_equal length) in Hl. rewrite length_drop in Hl. cbn in Hl. unfold zEnd. f_equal. lia. Qed.

Lemma skip_while_spec p n j : (j ≤ length w)%nat → (length w - j < n)%nat →
  skip_while n p z (pos j) zEnd incr = Some (pos (j + run p (drop j w))).
Proof.
  revert j. induction n as [|n IH]; intros j Hj Hn; [lia|]. cbn [skip_while]. destruct (drop j w) as [|x l] eqn:Hl.
  - rewrite (view_nil j) by done. cbn [run]. destruct (Z.ltb_spec zEnd zEnd); [lia|]. rewrite Nat.add_0_r. by rewrite (view_nil j).
  - destruct (view_cons j x l Hl) as (E & Hl' & Hlt & Ep). destruct (Z.ltb_spec (pos j) zEnd); [|lia]. rewrite E. cbn [mbind option_bind run].
    destruct (p x); [|by rewrite Nat.add_0_r]. assert (j < length w)%nat by (apply (f_equal length) in Hl; rewrite length_drop in Hl; cbn in Hl; lia).
    rewrite Ep, IH, Hl' by lia. f_equal. f_equal. lia.
Qed.

Lemma digit_loop_spec n j u : (j ≤ length w)%nat → (length w - j < n)%nat →
  let l := drop j w in let k := run ascii_digit l in
  digit_loop n z (pos j) zEnd incr (u64 u) = Some (u64 (decimal_from u (take k l)), pos (j + k)).
Proof.
  revert j u. induction n as [|n IH]; intros j u Hj Hn; [lia|]. cbn zeta. cbn [digit_loop]. destruct (drop j w) as [|x l] eqn:Hl.
  - rewrite (view_nil j) by done. cbn [run]. destruct (Z.ltb_spec zEnd zEnd); [lia|]. rewrite Nat.add_0_r. by rewrite (view_nil j).
  - destruct (view_cons j x l Hl) as (E & Hl' & Hlt & Ep). destruct (Z.ltb_spec (pos j) zEnd); [|lia]. rewrite E. cbn [mbind option_bind run].
    change ((48 <=? x) && (x <=? 57)) with (ascii_digit x). destruct (ascii_digit x); [|by rewrite Nat.add_0_r].
    assert (j < length w)%nat by (apply (f_equal length) in Hl; rewrite length_drop in Hl; cbn in Hl; lia).
    replace (u64 (u64 u * 10 + x - 48)) with (u64 (u * 10 + (x - 48))).
    2: { unfold u64, wrap. rewrite <-(Z.add_sub_assoc _ x), (Z.add_mod (u mod 2 ^ 64 * 10)), Z.mul_mod_idemp_l, <-Z.add_mod by done. done. }
    rewrite Ep, IH, Hl' by lia. cbn [take]. f_equal. f_equal. f_equal. lia.
Qed.

(** The comparison with 2^63, of which the last digit is 8. *)
Lemma compare_loop_spec digits j (ds : list Z) : take (length digits) (drop j w) = ds → length ds = length digits →
  Forall (λ c, 0 ≤ c - 48 ≤ 9) ds → Forall (λ c, 0 ≤ c - 48 ≤ 9) digits →
  ∃ c, compare_loop digits z (pos j) incr = Some c ∧ (c = 0 ↔ ds = digits) ∧ (c < 0 ↔ decimal ds < decimal digits) ∧ (0 < c ↔ decimal digits < decimal ds).
Proof.
  revert j ds. induction digits as [|d digits IH]; intros j ds Hds Hlen Hd Hd'.
  { exists 0. destruct ds; [|done]. split_and!; done || lia. }
  destruct ds as [|x ds]; [done|]. destruct (drop j w) as [|x' l] eqn:Hl; [done|]. cbn [take length] in Hds. injection Hds as -> Hds.
  destruct (view_cons j x l Hl) as (E & Hl' & _ & Ep). cbn [compare_loop]. rewrite E. cbn [mbind option_bind].
  inversion_clear Hd as [|?? Hx Hd1]. inversion_clear Hd' as [|?? Hx' Hd1'].
  change (decimal (x :: ds)) with (decimal_from (0 * 10 + (x - 48)) ds). change (decimal (d :: digits)) with (decimal_from (0 * 10 + (d - 48)) digits).
  destruct (decimal_from_spec ds (0 * 10 + (x - 48)) Hd1) as [-> Hb]. destruct (decimal_from_spec digits (0 * 10 + (d - 48)) Hd1') as [-> Hb'].
  injection Hlen as Hlen. rewrite Hlen in *. destruct (Z.eqb_spec ((x - d) * 10) 0).
  - assert (x = d) as -> by lia. rewrite Ep. destruct (IH (S j) ds) as (c & -> & H0 & Hc & Hc'); [by rewrite Hl'|done..|].
    exists c. split; [done|]. split; [|split; lia]. rewrite H0. split; [by intros ->|by intros [= ->]].
  - eexists. split; [done|]. split; [split; [lia|intros [= ? _]; lia]|]. split; split; intros ?; nia.
Qed.

Lemma compare2pow63_spec j ds : take 19 (drop j w) = ds → length ds = 19%nat → forallb ascii_digit ds = true →
  ∃ c, compare2pow63 z (pos j) incr = Some c ∧ (c = 0 ↔ decimal ds = 2 ^ 63) ∧ (c < 0 ↔ decimal ds < 2 ^ 63).
Proof.
  intros Hds Hlen Hd%ascii_digits.
  assert (∃ l x, ds = l ++ [x] ∧ length l = 18%nat) as (l & x & -> & Hl).
  { destruct ds as [|y ds'] using rev_ind; [done|]. rewrite length_app in Hlen. cbn in Hlen. eexists _, _. split; [done|lia]. }
  apply Forall_app in Hd as [Hd Hx]. inversion_clear Hx as [|?? Hx' _]. unfold compare2pow63.
  destruct (compare_loop_spec pow63 j l) as (c & -> & H0 & Hc & Hc'); [|done|done|by repeat constructor|].
  { rewrite <-(take_app_length' l [x] 18) by done. rewrite <-Hds, take_take. done. }
  cbn [mbind option_bind]. unfold decimal_from in *. rewrite foldl_app. cbn [foldl]. fold (decimal_from 0 l) in *. fold (decimal_from 0 pow63) in *.
  assert (decimal pow63 = 922337203685477580) as Ep by done.
  destruct (Z.eqb_spec c 0) as [->|Hne].
  - assert (l = pow63) as -> by (by apply H0). assert (w !! (j + 18)%nat = Some x) as Hx.
    { rewrite <-lookup_drop, <-(lookup_take_lt _ 19) by lia. by rewrite Hds. }
    replace (pos j + 18 * incr) with (pos (j + 18)) by (unfold pos; lia). unfold pos. rewrite (Hview _ _ Hx). cbn [mbind option_bind]. eexists. split; [done|]. rewrite Ep. lia.
  - exists c. split; [done|]. rewrite Ep in Hc, Hc'. lia.
Qed.

(** The sign. *)
Lemma sign_spec j : (j ≤ length w)%nat → ∃ k, (k ≤ length w)%nat ∧ drop k w = (sign_of (drop j w)).2 ∧
  (if pos j <? zEnd then
     c ← char_at z (pos j);
     Some (if c =? 45 then (true, pos j + incr) else if c =? 43 then (false, pos j + incr) else (false, pos j))
   else Some (false, pos j)) = Some ((sign_of (drop j w)).1, pos k).
Proof.
  intros Hj. destruct (drop j w) as [|c r] eqn:Hl.
  - exists j. split; [done|]. split; [done|]. rewrite (view_nil j) by done. by destruct (Z.ltb_spec zEnd zEnd); [lia|].
  - destruct (view_cons j c r Hl) as (E & Hl' & Hlt & Ep). destruct (Z.ltb_spec (pos j) zEnd); [|lia]. rewrite E, Ep. cbn [mbind option_bind sign_of].
    assert (j < length w)%nat by (apply (f_equal length) in Hl; rewrite length_drop in Hl; cbn in Hl; lia).
    destruct (c =? 45); [by exists (S j)|]. destruct (c =? 43); [by exists (S j)|by exists j].
Qed.

Lemma pos_inj j k : pos j = pos k ↔ j = k.
Proof. unfold pos. split; [nia|by intros ->]. Qed.

Lemma pos_lt j k : pos j < pos k ↔ (j < k)%nat.
Proof. unfold pos. nia. Qed.

(** The result code and the value for the digits behind the zeros. *)
Lemma digits_result (neg : bool) j d : drop j w = d → forallb ascii_digit d = true → (length d ≤ 19)%nat →
  let num := atoi_value (u64 (decimal d)) neg in
  ∃ rc, (if Z.of_nat (length d) * incr <? 19 * incr then Some (0, num)
    else c ← compare2pow63 z (pos j) incr; Some (if c <? 0 then 0 else if 0 <? c then 1 else if neg then 0 else 2, num)) = Some (rc, num) ∧
    atoi_result (Some (if neg then - decimal d else decimal d)) rc num.
Proof.
  intros Hd Hdig Hlen num. pose proof (decimal_bound d Hdig) as Hb. pose proof (Z.pow_le_mono_r 10 (Z.of_nat (length d)) 19 ltac:(lia) ltac:(lia)).
  assert (u64 (decimal d) = decimal d) as Eu by (apply (wrap_small 64); unfold uint; lia). unfold num. rewrite Eu. unfold atoi_value. rewrite largest_spec, smallest_spec.
  assert (∀ rc, (decimal d < 2 ^ 63 → rc = 0) → (decimal d = 2 ^ 63 → rc = if neg then 0 else 2) → (2 ^ 63 < decimal d → rc = 1) →
    atoi_result (Some (if neg then - decimal d else decimal d)) rc
      (if 2 ^ 63 - 1 <? decimal d then if neg then - 2 ^ 63 else 2 ^ 63 - 1 else if neg then - decimal d else decimal d)) as Hres.
  { intros rc H1 H2 H3. unfold atoi_result. destruct (decide (int64 _)) as [Hin|Hout]; unfold int64 in *.
    - destruct (Z.ltb_spec (2 ^ 63 - 1) (decimal d)), neg; lia.
    - destruct (decide _) as [E|Hne]; destruct neg; try lia. destruct (Z.ltb_spec (2 ^ 63 - 1) (decimal d)); lia. }
  destruct (Z.ltb_spec (Z.of_nat (length d) * incr) (19 * incr)).
  - pose proof (Z.pow_le_mono_r 10 (Z.of_nat (length d)) 18 ltac:(lia) ltac:(nia)). eexists. split; [done|]. apply Hres; lia.
  - assert (length d = 19%nat) as El by nia. destruct (compare2pow63_spec j d) as (c & -> & Hc0 & Hc); [by rewrite Hd, take_ge by lia|done|done|].
    cbn [mbind option_bind]. eexists. split; [done|]. apply Hres; intros Hd1; destruct (Z.ltb_spec c 0), (Z.ltb_spec 0 c); lia || done.
Qed.

Lemma atoi_scan_spec fuel (nonNum : bool) : Forall byte_ok w → (length w < fuel)%nat →
  ∃ rc num, atoi_scan fuel z incr nonNum zEnd base = Some (rc, num) ∧ if nonNum then rc = 1 else atoi_result (int_text w) rc num.
Proof.
  intros Hw Hfuel. unfold atoi_scan, int_text. pose proof (skip_while_spec sqlite3Isspace fuel 0 ltac:(lia) ltac:(lia)) as E.
  rewrite drop_0, (run_ext _ ascii_space) in E by (eapply Forall_impl; [exact Hw|intros c; apply sqlite3Isspace_ascii]).
  replace (pos 0) with base in E by (unfold pos; lia). rewrite E. cbn [mbind option_bind Nat.add]. set (s := run ascii_space w) in *.
  assert (s ≤ length w)%nat as Hs by apply run_le. destruct (sign_spec s Hs) as (j & Hj & Ej & Es). rewrite Es. cbn [mbind option_bind]. clear E Es.
  destruct (sign_of (drop s w)) as [neg t]. cbn [fst snd] in Ej. rewrite (skip_while_spec (λ c, c =? 48) fuel j), Ej by lia. cbn [mbind option_bind].
  pose proof (digits_drop_zeros t) as Hdig. pose proof (decimal_zeros t) as Hdec. pose proof (decimal_long t) as Hlong.
  set (k := run (λ c, c =? 48) t) in *. assert (k ≤ length t)%nat as Hk by apply run_le. pose proof (f_equal length Ej) as Elen. rewrite length_drop in Elen.
  pose proof (digit_loop_spec fuel (j + k) 0 ltac:(lia) ltac:(lia)) as E. change (u64 0) with 0 in E. rewrite E. clear E. cbn [mbind option_bind]. cbv zeta.
  rewrite <-drop_drop, Ej. set (d := drop k t) in *. set (n := run ascii_digit d) in *. assert (n ≤ length d)%nat as Hn by apply run_le.
  assert (length d = length w - (j + k))%nat as Ed by (unfold d; rewrite length_drop; lia).
  replace (pos (j + k + n) - pos (j + k)) with (Z.of_nat n * incr) by (unfold pos; lia).
  set (num := atoi_value (u64 (decimal_from 0 (take n d))) neg). cbv zeta. destruct nonNum; [rewrite orb_true_r; by eexists _, _|]. rewrite orb_false_r.
  destruct (Z.ltb_spec (pos (j + k + n)) zEnd) as [Hlt|Hge].
  { cbn [orb]. apply pos_lt in Hlt. rewrite Hdig. destruct (forallb ascii_digit d) eqn:Ef; [apply run_all in Ef; unfold n in *; lia|]. by eexists _, _. }
  assert (n = length d) as En by (apply Z.le_ngt in Hge; change zEnd with (pos (length w)) in Hge; rewrite pos_lt in Hge; lia). rewrite Hdig, (proj1 (run_all ascii_digit d) En).
  destruct (bool_decide_reflect (t = [])) as [Et|Ht]; cbn [andb orb negb].
  { assert (length t = 0%nat) by (by rewrite Et). assert (k = 0%nat ∧ n = 0%nat) as [-> ->] by lia. rewrite Nat.add_0_r. change (Z.of_nat 0 * incr =? 0) with true.
    rewrite Z.eqb_refl. by eexists _, _. }
  assert ((Z.of_nat n * incr =? 0) && (pos j =? pos (j + k)) = false) as ->.
  { destruct (Z.eqb_spec (pos j) (pos (j + k))) as [E%pos_inj|]; [|apply andb_false_r]. destruct t; [done|]. cbn [length] in *.
    destruct (Z.eqb_spec (Z.of_nat n * incr) 0); [nia|done]. }
  cbn [orb]. destruct (Z.ltb_spec (19 * incr) (Z.of_nat n * incr)).
  - eexists 1, _. split; [done|]. assert (10 ^ 19 ≤ decimal t) by (apply Hlong; [rewrite Hdig; by apply run_all|nia]). unfold atoi_result.
    destruct (decide (int64 _)) as [Hi|_]; [unfold int64 in Hi; destruct neg; lia|]. destruct (decide _); [destruct neg; lia|done].
  - unfold num. rewrite En, firstn_all. rewrite Hdec, En in *.
    destruct (digits_result neg (j + k) d) as (rc & E & Hr); [by rewrite <-drop_drop, Ej|by apply run_all|nia|]. eexists rc, _. split; [exact E|exact Hr].
Qed.
End view.

(** ** Decimal text in UTF-16 *)

Lemma lxor_1 a : Z.lxor (2 * a) 1 = 2 * a + 1 ∧ Z.lxor (2 * a + 1) 1 = 2 * a.
Proof.
  assert (2 * a + 1 = Z.lxor (2 * a) 1) as E.
  { apply Z.add_nocarry_lxor. change 1 with (Z.ones 1). rewrite Z.land_ones, Z.mul_comm by lia. by apply Z.mod_mul. }
  split; [done|]. by rewrite E, Z.lxor_assoc, Z.lxor_nilpotent, Z.lxor_0_r.
Qed.

Section utf16.
Context (enc : Z) (Henc : enc = 2 ∨ enc = 3) (t more : list Z) (Ht : Forall (uint 16) t).

Definition units (l : list Z) : list Z := l ≫= λ u, if enc =? 2 then [u mod 256; u / 256] else [u / 256; u mod 256].

Lemma units_app l l' : units (l ++ l') = units l ++ units l'.
Proof. apply bind_app. Qed.

Lemma length_units l : length (units l) = (2 * length l)%nat.
Proof. induction l as [|u l IH]; [done|]. change (u :: l) with ([u] ++ l). rewrite units_app, !length_app, IH. unfold units. cbn. destruct (enc =? 2); cbn; lia. Qed.

(** The two bytes of a unit. *)
Lemma units_at (j : nat) u : t !! j = Some u →
  char_at (units t ++ more) (3 - enc + 2 * Z.of_nat j) = Some (u / 256) ∧
  char_at (units t ++ more) (Z.land enc 1 + Z.of_nat j * 2) = Some (u mod 256).
Proof.
  intros Hu. rewrite <-(take_drop_middle t j u Hu), units_app, <-app_assoc. change (u :: drop (S j) t) with ([u] ++ drop (S j) t). rewrite units_app.
  assert (Z.of_nat (length (units (take j t))) = 2 * Z.of_nat j) as El.
  { rewrite length_units, length_take_le by (apply lookup_lt_Some in Hu; lia). lia. }
  replace (units [u]) with (if enc =? 2 then [u mod 256; u / 256] else [u / 256; u mod 256]) by (unfold units; cbn; by rewrite app_nil_r).
  destruct Henc as [-> | ->]; cbn [Z.eqb Pos.eqb app].
  - replace (3 - 2 + 2 * Z.of_nat j) with (Z.of_nat (length (units (take j t))) + 1) by lia. change (Z.land 2 1) with 0.
    replace (0 + Z.of_nat j * 2) with (Z.of_nat (length (units (take j t)))) by lia. split; [apply char_at_app2|apply char_at_app].
  - replace (3 - 3 + 2 * Z.of_nat j) with (Z.of_nat (length (units (take j t)))) by lia. change (Z.land 3 1) with 1.
    replace (1 + Z.of_nat j * 2) with (Z.of_nat (length (units (take j t))) + 1) by lia. split; [apply char_at_app|apply char_at_app2].
Qed.

Lemma high_bytes_spec n j : (j ≤ length t)%nat → (length t - j < n)%nat →
  high_bytes n (units t ++ more) (3 - enc + 2 * Z.of_nat j) (2 * Z.of_nat (length t)) =
  Some (3 - enc + 2 * Z.of_nat (j + run (λ u, u <? 256) (drop j t))).
Proof.
  revert j. induction n as [|n IH]; intros j Hj Hn; [lia|]. cbn [high_bytes]. destruct (drop j t) as [|u l] eqn:Hl.
  - apply (f_equal length) in Hl. rewrite length_drop in Hl. cbn in Hl. destruct (Z.ltb_spec (3 - enc + 2 * Z.of_nat j) (2 * Z.of_nat (length t))); [lia|].
    cbn [run]. by rewrite Nat.add_0_r.
  - assert (t !! j = Some u) as Hu by (rewrite <-(Nat.add_0_r j), <-lookup_drop, Hl; done). pose proof (lookup_lt_Some _ _ _ Hu) as Hlt.
    destruct (Z.ltb_spec (3 - enc + 2 * Z.of_nat j) (2 * Z.of_nat (length t))); [|lia]. rewrite (proj1 (units_at j u Hu)). cbn [mbind option_bind run].
    pose proof (Forall_lookup_1 _ _ _ _ Ht Hu) as Hu16. unfold uint in Hu16. destruct (Z.ltb_spec u 256).
    + rewrite Z.div_small by lia. cbn [Z.eqb]. replace (3 - enc + 2 * Z.of_nat j + 2) with (3 - enc + 2 * Z.of_nat (S j)) by lia.
      rewrite IH by lia. assert (drop (S j) t = l) as -> by (rewrite <-Nat.add_1_r, <-drop_drop, Hl; done). f_equal. lia.
    + destruct (Z.eqb_spec (u / 256) 0) as [E|]; [apply Z.div_small_iff in E; lia|]. by rewrite Nat.add_0_r.
Qed.

Lemma atoi_utf16 : ∃ rc num, sqlite3Atoi64 (units t ++ more) (2 * Z.of_nat (length t)) enc = Some (rc, num) ∧ atoi_result (int_text t) rc num.
Proof.
  unfold sqlite3Atoi64. destruct (Z.eqb_spec enc SQLITE_UTF8) as [E|_]; [unfold SQLITE_UTF8 in E; lia|].
  set (fuel := S (length (units t ++ more))). assert (length t < fuel)%nat as Hfuel by (unfold fuel; rewrite length_app, length_units; lia).
  pose proof (high_bytes_spec fuel 0 ltac:(lia) ltac:(lia)) as E. rewrite drop_0 in E. change (2 * Z.of_nat 0) with 0 in E. rewrite Z.add_0_r in E. rewrite E.
  cbn [mbind option_bind Nat.add]. clear E. set (m := run (λ u, u <? 256) t). assert (m ≤ length t)%nat as Hm by apply run_le.
  pose proof (run_take (λ u, u <? 256) t) as Hsmall. fold m in Hsmall. rewrite forallb_forall in Hsmall.
  assert (Forall byte_ok (take m t)) as Hb.
  { apply Forall_forall. intros u Hu. pose proof (proj1 (Forall_forall _ _) (Forall_take _ m _ Ht) u Hu) as Hu16. apply list_elem_of_In, Hsmall, Z.ltb_lt in Hu.
    unfold uint in *. lia. }
  assert (Z.lxor (3 - enc + 2 * Z.of_nat m) 1 = zEnd (Z.land enc 1) 2 (take m t)) as ->.
  { unfold zEnd, pos. rewrite length_take_le by done. destruct (lxor_1 (Z.of_nat m)) as [E1 E2]. destruct Henc as [-> | ->].
    - replace (3 - 2 + 2 * Z.of_nat m) with (2 * Z.of_nat m + 1) by lia. rewrite E2. change (Z.land 2 1) with 0. lia.
    - replace (3 - 3 + 2 * Z.of_nat m) with (2 * Z.of_nat m) by lia. rewrite E1. change (Z.land 3 1) with 1. lia. }
  destruct (atoi_scan_spec (units t ++ more) (Z.land enc 1) 2 (take m t) ltac:(lia)) with (fuel := fuel)
    (nonNum := 3 - enc + 2 * Z.of_nat m <? 2 * Z.of_nat (length t)) as (rc & num & -> & Hr); [|done|rewrite length_take; lia|].
  { intros j x Hx. pose proof (proj1 (Forall_forall _ _) Hb x (list_elem_of_lookup_2 _ _ _ Hx)) as Hx8. unfold uint in Hx8.
    assert (t !! j = Some x) as Hx'. { pose proof (lookup_lt_Some _ _ _ Hx) as Hj. rewrite length_take in Hj. by rewrite lookup_take_lt in Hx by lia. }
    rewrite (proj2 (units_at j x Hx')). by rewrite Z.mod_small by lia. }
  eexists rc, num. split; [done|]. destruct (Z.ltb_spec (3 - enc + 2 * Z.of_nat m) (2 * Z.of_nat (length t))).
  - assert (m < length t)%nat as Hlt by lia. destruct (int_text t) as [v|] eqn:Ev; [|exact Hr]. exfalso.
    assert (m = length t); [|lia]. apply run_all, forallb_forall. intros u Hu. apply list_elem_of_In in Hu. apply Z.ltb_lt.
    by apply (proj1 (Forall_forall _ _) (int_text_small t ltac:(by rewrite Ev)) u).
  - by rewrite take_ge in Hr by lia.
Qed.
End utf16.

(** C21: A text in any of the three encodings, of characters with one code unit, is
    converted to the integer it denotes: white space, a sign and digits. The result
    is 0 with that integer if it has 64 bits, 2 for 2^63, and 1 if it is larger or
    the text is something else; nothing behind the text is read. *)
Theorem sqlite3Atoi64_decides (enc : Z) (t more : list Z) : 1 ≤ enc ≤ 3 → Forall (uint (if enc =? 1 then 8 else 16)) t →
  ∃ rc num, sqlite3Atoi64 (text_bytes enc t ++ more) (Z.of_nat (length (text_bytes enc t))) enc = Some (rc, num) ∧ atoi_result (int_text t) rc num.
Proof.
  intros He Ht. destruct (Z.eqb_spec enc 1) as [->|Hne].
  - change (text_bytes 1 t) with t. unfold sqlite3Atoi64. change (1 =? SQLITE_UTF8) with true. cbn [mbind option_bind].
    destruct (atoi_scan_spec (t ++ more) 0 1 t ltac:(lia)) with (fuel := S (length (t ++ more))) (nonNum := false) as (rc & num & E & Hr);
      [|done|rewrite length_app; lia|].
    { intros j x Hx. unfold char_at. destruct (Z.ltb_spec (0 + Z.of_nat j * 1) 0); [lia|]. replace (Z.to_nat (0 + Z.of_nat j * 1)) with j by lia.
      by apply lookup_app_l_Some. }
    unfold zEnd, pos in E. rewrite Z.add_0_l, Z.mul_1_r in E. by exists rc, num.
  - assert (text_bytes enc t = units enc t) as ->. { unfold text_bytes. by destruct (Z.eqb_spec enc SQLITE_UTF8). }
    rewrite length_units, Nat2Z.inj_mul. apply atoi_utf16; [lia|done].
Qed.

Lemma small_units t : forallb (λ u, (0 <=? u) && (u <? 256)) t = true → Forall (uint 16) t.
Proof.
  intros Hf. apply Forall_forall. intros u Hu. rewrite forallb_forall in Hf. apply list_elem_of_In, Hf in Hu.
  rewrite andb_true_iff, Z.leb_le, Z.ltb_lt in Hu. unfold uint. lia.
Qed.

Lemma sqlite3Atoi64_decides_witness :
  (∃ rc num, sqlite3Atoi64 (text_bytes 2 (bytes "  -9223372036854775808") ++ [1]) 44 2 = Some (rc, num) ∧ rc = 0 ∧ num = - 2 ^ 63) ∧
  sqlite3Atoi64 (bytes "9223372036854775808") 19 1 = Some (2, 2 ^ 63 - 1).
Proof.
  split; [|reflexivity]. destruct (sqlite3Atoi64_decides 2 (bytes "  -9223372036854775808") [1]) as (rc & num & E & Hr); [lia| |].
  - apply small_units. vm_compute. reflexivity.
  - exists rc, num. split; [exact E|]. exact Hr.
Defined.

(** A text of twenty digits or more: the value is taken modulo 2^64 before it is
    compared with the largest integer, so that what is stored need not be the
    integer nearest to the text. *)
Example atoi_wraps : sqlite3Atoi64 (bytes "99999999999999999999") 20 1 = Some (1, 7766279631452241919).
Proof. reflexivity. Qed.

(** Hexadecimal text without a digit is taken as 0. *)
Example hex_without_digit : sqlite3DecOrHexToI64 (bytes "0x" ++ [0]) = Some (0, 0).
Proof. reflexivity. Qed.

(** ** 32-bit integers *)

Section int32.
Context (c : Z) (more : list Z) (Hc : ascii_digit c = false).

Lemma skip_zeros_spec ds n l : (length ds < n)%nat →
  skip_zeros n (l ++ ds ++ c :: more) (Z.of_nat (length l)) = Some (Z.of_nat (length l + run (λ x, x =? 48) ds)).
Proof.
  revert n l. induction ds as [|d ds IH]; intros n l Hn; (destruct n as [|n]; [cbn in Hn; lia|]); cbn [skip_zeros app run]; rewrite char_at_app; cbn [mbind option_bind].
  - assert (c =? 48 = false) as -> by (apply Z.eqb_neq; intros ->; done). by rewrite Nat.add_0_r.
  - destruct (Z.eqb_spec d 48) as [->|]; [|by rewrite Nat.add_0_r]. specialize (IH n (l ++ [48]) ltac:(cbn in Hn; lia)).
    rewrite <-app_assoc, length_app in IH. cbn [app length] in IH. rewrite Nat2Z.inj_add in IH. change (Z.of_nat 1) with 1 in IH. rewrite IH. f_equal. lia.
Qed.

Lemma int32_loop_spec ds i l v (k : Z) : forallb ascii_digit ds = true → 0 ≤ v < 10 ^ k → 0 ≤ k → k + Z.of_nat i ≤ 18 →
  int32_loop i (l ++ ds ++ c :: more) (Z.of_nat (length l)) v = Some (decimal_from v (take i ds), (i - length ds)%nat).
Proof.
  revert i l v k. induction ds as [|d ds IH]; intros i l v k Hd Hv Hk Hi; (destruct i as [|i]; [done|]); cbn [int32_loop app]; rewrite char_at_app; cbn [mbind option_bind].
  - unfold ascii_digit in Hc. rewrite andb_false_iff, !Z.leb_gt in Hc. by destruct (Z.leb_spec 0 (c - 48)), (Z.leb_spec (c - 48) 9); [lia|..].
  - cbn [forallb] in Hd. apply andb_true_iff in Hd as [Hd1 Hd]. unfold ascii_digit in Hd1. rewrite andb_true_iff, !Z.leb_le in Hd1.
    destruct (Z.leb_spec 0 (d - 48)), (Z.leb_spec (d - 48) 9); cbn [andb]; try lia.
    assert (0 ≤ v * 10 + (d - 48) < 10 ^ (k + 1)) as Hv' by (rewrite Z.pow_add_r by lia; change (10 ^ 1) with 10; lia).
    pose proof (Z.pow_le_mono_r 10 (k + 1) 18). rewrite i64_spec by (unfold int64; lia). cbn [mbind option_bind].
    specialize (IH i (l ++ [d]) (v * 10 + (d - 48)) (k + 1) Hd Hv' ltac:(lia) ltac:(lia)).
    rewrite <-app_assoc, length_app in IH. cbn [app length] in IH. rewrite Nat2Z.inj_add in IH. change (Z.of_nat 1) with 1 in IH. by rewrite IH.
Qed.
End int32.

(** A sign, or none, and digits: what follows is ignored if it is not x or X, and
    the value is written if it has 32 bits. *)
Theorem sqlite3GetInt32_spec (sign ds more : list Z) (c : Z) :
  sign = [] ∨ sign = [43] ∨ sign = [45] → ds ≠ [] → forallb ascii_digit ds = true → ascii_digit c = false → c ≠ 120 → c ≠ 88 →
  let v := if bool_decide (sign = [45]) then - decimal ds else decimal ds in
  sqlite3GetInt32 (sign ++ ds ++ c :: more) = Some (if decide (int32 v) then (1, Some v) else (0, None)).
Proof.
  intros Hs Hne Hds Hc Hx HX v. unfold sqlite3GetInt32. set (z := sign ++ ds ++ c :: more). set (fuel := S (length z)).
  assert (∃ c0, char_at z 0 = Some c0 ∧ ((c0 =? 45) || (c0 =? 43) = negb (bool_decide (sign = []))) ∧ (c0 =? 45) = bool_decide (sign = [45])
    ∧ (sign = [] → hex_prefix z = Some false)) as (c0 & -> & Hsg & Hneg & Hhex).
  { destruct Hs as [-> | [-> | ->]]; [|by exists 43|by exists 45]. destruct ds as [|d ds]; [done|]. exists d. split; [done|].
    pose proof (ascii_digits _ Hds) as Hf. inversion_clear Hf as [|?? Hd Hf']. split; [destruct (Z.eqb_spec d 45), (Z.eqb_spec d 43); done || lia|].
    split; [destruct (Z.eqb_spec d 45); done || lia|]. intros _. unfold hex_prefix. change (char_at z 0) with (Some d). cbn [mbind option_bind].
    destruct (d =? 48); [|done]. destruct ds as [|d2 ds].
    - change (char_at z 1) with (Some c). cbn [mbind option_bind]. by rewrite (proj2 (Z.eqb_neq c 120) Hx), (proj2 (Z.eqb_neq c 88) HX).
    - inversion_clear Hf' as [|?? Hd2 _]. change (char_at z 1) with (Some d2). cbn [mbind option_bind].
      by destruct (Z.eqb_spec d2 120), (Z.eqb_spec d2 88); [lia..|]. }
  cbn [mbind option_bind]. rewrite Hsg, Hneg.
  assert ((if negb (bool_decide (sign = [])) then Some false else
    hex ← hex_prefix z; if hex : bool then c2 ← char_at z 2; Some (sqlite3Isxdigit c2) else Some false) = Some false) as ->.
  { destruct (bool_decide_reflect (sign = [])) as [E|E]; cbn [negb]; [|reflexivity]. rewrite (Hhex E). reflexivity. }
  cbn [mbind option_bind]. replace (if negb (bool_decide (sign = [])) then 1 else 0) with (Z.of_nat (length sign)) by (by destruct Hs as [-> | [-> | ->]]).
  pose proof (skip_zeros_spec c more Hc ds fuel sign ltac:(unfold fuel, z; rewrite !length_app; lia)) as E. fold z in E. rewrite E. clear E. cbn [mbind option_bind].
  set (k := run (λ x, x =? 48) ds). pose proof (run_le (λ x, x =? 48) ds) as Hk. fold k in Hk. pose proof (digits_drop_zeros ds) as Hdz. pose proof (decimal_zeros ds) as Hdec.
  pose proof (decimal_bound ds Hds) as Hb. fold k in Hdz, Hdec. set (d := drop k ds) in *. rewrite Hds in Hdz. symmetry in Hdz.
  assert (int32_loop 11 z (Z.of_nat (length sign + k)) 0 = Some (decimal (take 11 d), (11 - length d)%nat)) as ->.
  { pose proof (int32_loop_spec c more Hc d 11 (sign ++ take k ds) 0 0 Hdz ltac:(lia) ltac:(lia) ltac:(lia)) as E.
    rewrite length_app, length_take_le in E by done. assert ((sign ++ take k ds) ++ d ++ c :: more = z) as Ez; [|rewrite Ez in E; exact E].
    unfold z, d. rewrite <-!app_assoc. f_equal. by rewrite app_assoc, take_drop. }
  cbn [mbind option_bind].
  destruct (Z.ltb_spec 10 (11 - Z.of_nat (11 - length d))).
  - assert (10 ^ 10 ≤ decimal ds).
    { rewrite Hdec. destruct d as [|x r] eqn:Ed; [cbn in *; lia|]. pose proof (run_stop (λ x, x =? 48) ds x r Ed) as Hx0. apply Z.eqb_neq in Hx0.
      pose proof (ascii_digits _ Hdz) as Hf. inversion_clear Hf as [|?? Hxr Hr]. change (decimal (x :: r)) with (decimal_from (0 * 10 + (x - 48)) r).
      destruct (decimal_from_spec r (0 * 10 + (x - 48)) Hr) as [-> Hb']. pose proof (Z.pow_le_mono_r 10 10 (Z.of_nat (length r))). cbn [length] in *. nia. }
    destruct (decide (int32 v)) as [Hi|]; [|done]. unfold int32, v in Hi. destruct (bool_decide _); lia.
  - rewrite take_ge by lia. rewrite <-Hdec. pose proof (decimal_bound d Hdz). pose proof (Z.pow_le_mono_r 10 (Z.of_nat (length d)) 10 ltac:(lia) ltac:(lia)).
    rewrite i64_spec by (unfold int64; destruct (bool_decide _); lia). cbn [mbind option_bind]. fold v.
    destruct (Z.ltb_spec 2147483647 (decimal ds - (if bool_decide (sign = [45]) then 1 else 0))), (decide (int32 v)) as [Hi|Hi]; try done;
      unfold int32, v in Hi; destruct (bool_decide _); lia.
Qed.

(** ** Hexadecimal integers *)

Definition hex_value (vs : list Z) : Z := foldl (λ u v, u * 16 + v) 0 vs.

Lemma hex_value_bound vs : Forall (λ v, 0 ≤ v < 16) vs → 0 ≤ hex_value vs < 16 ^ Z.of_nat (length vs).
Proof.
  unfold hex_value. assert (∀ u n, 0 ≤ u < 16 ^ n → 0 ≤ n → Forall (λ v, 0 ≤ v < 16) vs → 0 ≤ foldl (λ u v, u * 16 + v) u vs < 16 ^ (n + Z.of_nat (length vs))) as H.
  { induction vs as [|v vs IH]; intros u n Hu Hn Hv; [cbn; by rewrite Z.add_0_r|]. inversion_clear Hv as [|?? Hv1 Hv2].
    replace (n + Z.of_nat (length (v :: vs))) with (n + 1 + Z.of_nat (length vs)) by (cbn [length]; lia). apply (IH (u * 16 + v) (n + 1)); [|lia|done].
    rewrite Z.pow_add_r by lia. change (16 ^ 1) with 16. lia. }
  intros Hv. apply (H 0 0); [lia|lia|done].
Qed.

Lemma hex_loop_spec upper vs c more w n max l u : 0 ≤ w → Forall (λ v, 0 ≤ v < 16) vs → sqlite3Isxdigit c = false →
  (length vs < n)%nat → (length vs ≤ max)%nat →
  hex_loop n max w (l ++ (hex_digit upper <$> vs) ++ c :: more) (Z.of_nat (length l)) (wrap w u) =
    Some (wrap w (foldl (λ u v, u * 16 + v) u vs), Z.of_nat (length l + length vs)).
Proof.
  intros Hw Hvs Hc. revert n max l u. induction Hvs as [|v vs Hv _ IH]; intros n max l u Hn Hm; (destruct n as [|n]; [lia|]); cbn [hex_loop fmap list_fmap app];
    rewrite char_at_app; cbn [mbind option_bind].
  - rewrite Hc. by rewrite Nat.add_0_r.
  - destruct (hex_digit_spec upper v Hv) as [-> ->]. cbn [length] in *. destruct max as [|max]; [lia|].
    replace (wrap w (wrap w u * 16 + v)) with (wrap w (u * 16 + v)).
    2: { unfold wrap. pose proof (Z.pow_pos_nonneg 2 w). rewrite (Z.add_mod (u mod 2 ^ w * 16)), Z.mul_mod_idemp_l, <-Z.add_mod by lia. done. }
    specialize (IH n max (l ++ [hex_digit upper v]) (u * 16 + v) ltac:(lia) ltac:(lia)).
    rewrite <-app_assoc, length_app in IH. cbn [app length] in IH. rewrite Nat2Z.inj_add in IH. change (Z.of_nat 1) with 1 in IH. rewrite IH. cbn [foldl].
    f_equal. f_equal. lia.
Qed.

Lemma hex_zeros upper vs n l c more : Forall (λ v, 0 ≤ v < 16) vs → c ≠ 48 → (length vs < n)%nat →
  skip_zeros n (l ++ (hex_digit upper <$> vs) ++ c :: more) (Z.of_nat (length l)) = Some (Z.of_nat (length l + run (λ v, v =? 0) vs)).
Proof.
  intros Hvs Hc. revert n l. induction Hvs as [|v vs Hv _ IH]; intros n l Hn; (destruct n as [|n]; [lia|]); cbn [skip_zeros fmap list_fmap app run];
    rewrite char_at_app; cbn [mbind option_bind].
  - destruct (Z.eqb_spec c 48); [done|]. by rewrite Nat.add_0_r.
  - assert ((hex_digit upper v =? 48) = (v =? 0)) as ->.
    { unfold hex_digit. destruct (Z.ltb_spec v 10), upper, (Z.eqb_spec v 0); apply Z.eqb_eq || apply Z.eqb_neq; lia. }
    destruct (v =? 0); [|by rewrite Nat.add_0_r]. specialize (IH n (l ++ [hex_digit upper v]) ltac:(cbn in Hn; lia)).
    rewrite <-app_assoc, length_app in IH. cbn [app length] in IH. rewrite Nat2Z.inj_add in IH. change (Z.of_nat 1) with 1 in IH. rewrite IH. f_equal. lia.
Qed.

(** A hexadecimal literal: the low 64 bits as a signed integer, and 0 if there are
    no others. *)
Theorem sqlite3DecOrHexToI64_hex (upper : bool) (x : Z) (vs more : list Z) : x = 120 ∨ x = 88 → Forall (λ v, 0 ≤ v < 16) vs →
  ∃ rc, sqlite3DecOrHexToI64 (48 :: x :: (hex_digit upper <$> vs) ++ 0 :: more) = Some (rc, to_signed 64 (u64 (hex_value vs))) ∧
    (rc = 0 → u64 (hex_value vs) = hex_value vs) ∧ (rc = 0 ∨ rc = 1 ∧ 2 ^ 64 ≤ hex_value vs).
Proof.
  intros Hx Hvs. unfold sqlite3DecOrHexToI64. set (z := 48 :: x :: _). set (fuel := S (length z)).
  assert (hex_prefix z = Some true) as -> by (destruct Hx as [-> | ->]; done). cbn [mbind option_bind].
  set (k := run (λ v, v =? 0) vs). pose proof (run_le (λ v, v =? 0) vs) as Hk. fold k in Hk.
  assert (length vs < fuel)%nat as Hf by (unfold fuel, z; cbn [length]; rewrite length_app, length_fmap; lia).
  pose proof (hex_zeros upper vs fuel [48; x] 0 more Hvs ltac:(done) Hf) as E. change (Z.of_nat (length [48; x])) with 2 in E.
  change ([48; x] ++ _) with z in E. rewrite E. cbn [mbind option_bind]. clear E. fold k.
  pose proof (hex_loop_spec upper (drop k vs) 0 more 64 fuel fuel ([48; x] ++ (hex_digit upper <$> take k vs)) 0 ltac:(lia) (Forall_drop _ _ _ Hvs) eq_refl
    ltac:(rewrite length_drop; lia) ltac:(rewrite length_drop; lia)) as E.
  assert (([48; x] ++ (hex_digit upper <$> take k vs)) ++ (hex_digit upper <$> drop k vs) ++ 0 :: more = z) as Ez.
  { rewrite <-app_assoc, (app_assoc (_ <$> take k vs)), <-fmap_app, take_drop. done. }
  rewrite Ez, length_app, length_fmap, length_take_le, length_drop in E by done. change (length [48; x]) with 2%nat in *. change (wrap 64 0) with 0 in E.
  rewrite E. cbn [mbind option_bind]. clear E.
  assert (foldl (λ u v, u * 16 + v) 0 (drop k vs) = hex_value vs) as ->.
  { unfold hex_value, k. clear. induction vs as [|v vs IH]; [done|]. cbn [run]. destruct (Z.eqb_spec v 0) as [->|]; [exact IH|done]. }
  assert (char_at z (Z.of_nat (2 + k + (length vs - k))) = Some 0) as ->.
  { replace (2 + k + (length vs - k))%nat with (length ([48; x] ++ (hex_digit upper <$> vs))) by (rewrite length_app, length_fmap; cbn [length]; lia).
    exact (char_at_app ([48; x] ++ (hex_digit upper <$> vs)) 0 more). }
  cbn [mbind option_bind Z.eqb andb]. eexists. split; [done|].
  assert (hex_value vs = hex_value (drop k vs)) as Ed.
  { unfold k. clear. induction vs as [|v vs IH]; [done|]. cbn [run]. destruct (Z.eqb_spec v 0) as [->|]; [exact IH|done]. }
  pose proof (hex_value_bound _ (Forall_drop _ k _ Hvs)) as Hb. rewrite <-Ed, length_drop in Hb.
  destruct (Z.leb_spec (Z.of_nat (2 + k + (length vs - k)) - Z.of_nat (2 + k)) 16).
  - pose proof (Z.pow_le_mono_r 16 (Z.of_nat (length vs - k)) 16). split; [|by left]. intros _. apply (wrap_small 64). unfold uint. change (2 ^ 64) with (16 ^ 16). lia.
  - split; [done|right]. split; [done|]. rewrite Ed. destruct (drop k vs) as [|v r] eqn:Er; [apply (f_equal length) in Er; rewrite length_drop in Er; cbn in Er; lia|].
    pose proof (run_stop (λ v, v =? 0) vs v r Er) as Hv0. apply Z.eqb_neq in Hv0.
    pose proof (Forall_drop _ k _ Hvs) as Hd. rewrite Er in Hd. inversion_clear Hd as [|?? Hv Hr].
    assert (∀ u, 0 ≤ u → u * 16 ^ Z.of_nat (length r) ≤ foldl (λ u v, u * 16 + v) u r) as Hge.
    { clear - Hr. induction Hr as [|y r Hy _ IH]; intros u Hu; [cbn; lia|]. cbn [foldl length]. rewrite Nat2Z.inj_succ, Z.pow_succ_r by lia.
      specialize (IH (u * 16 + y) ltac:(lia)). pose proof (Z.pow_pos_nonneg 16 (Z.of_nat (length r))). nia. }
    specialize (Hge (0 * 16 + v) ltac:(lia)). change (hex_value (v :: r)) with (foldl (λ u v, u * 16 + v) (0 * 16 + v) r).
    apply (f_equal length) in Er. rewrite length_drop in Er. cbn [length] in Er. pose proof (Z.pow_le_mono_r 16 16 (Z.of_nat (length r))).
    change (2 ^ 64) with (16 ^ 16). nia.
Qed.
