(* ===== verification/Utf8.v ===== *)
(** * UTF-8 and UTF-16

    The model of the character routines of sqlite3.c: the macros that write
    and read a character in UTF-8 and in both byte orders of UTF-16,
    [sqlite3Utf8Read], [SQLITE_SKIP_UTF8], [sqlite3Utf8CharLen] and
    [sqlite3Utf16ByteLen].

    A pointer into a string is the list of the bytes from there to the end of
    the buffer; reading past the end is [None]. The writers return the bytes
    they write. *)
From S2P Require Import Prelude.
Local Open Scope Z_scope.

(** ** UTF-8 *)

Definition sqlite3Utf8Trans1 : list Z := concat
  [[0x00; 0x01; 0x02; 0x03; 0x04; 0x05; 0x06; 0x07];
   [0x08; 0x09; 0x0a; 0x0b; 0x0c; 0x0d; 0x0e; 0x0f];
   [0x10; 0x11; 0x12; 0x13; 0x14; 0x15; 0x16; 0x17];
   [0x18; 0x19; 0x1a; 0x1b; 0x1c; 0x1d; 0x1e; 0x1f];
   [0x00; 0x01; 0x02; 0x03; 0x04; 0x05; 0x06; 0x07];
   [0x08; 0x09; 0x0a; 0x0b; 0x0c; 0x0d; 0x0e; 0x0f];
   [0x00; 0x01; 0x02; 0x03; 0x04; 0x05; 0x06; 0x07];
   [0x00; 0x01; 0x02; 0x03; 0x00; 0x01; 0x00; 0x00]].

Definition WRITE_UTF8 (c : Z) : list Z :=
  if c <? 0x80 then [u8 (Z.land c 0xFF)]
  else if c <? 0x800 then
    [u8 (0xC0 + u8 (Z.land (Z.shiftr c 6) 0x1F)); u8 (0x80 + u8 (Z.land c 0x3F))]
  else if c <? 0x10000 then
    [u8 (0xE0 + u8 (Z.land (Z.shiftr c 12) 0x0F)); u8 (0x80 + u8 (Z.land (Z.shiftr c 6) 0x3F));
     u8 (0x80 + u8 (Z.land c 0x3F))]
  else
    [u8 (0xF0 + u8 (Z.land (Z.shiftr c 18) 0x07)); u8 (0x80 + u8 (Z.land (Z.shiftr c 12) 0x3F));
     u8 (0x80 + u8 (Z.land (Z.shiftr c 6) 0x3F)); u8 (0x80 + u8 (Z.land c 0x3F))].

(** [while( ( *z & 0xc0)==0x80 ) c = (c<<6) + (0x3f & *(z++))]. *)
Fixpoint utf8_continue (c : Z) (z : list Z) : option (Z * list Z) :=
  match z with
  | [] => None
  | b :: z' =>
    if Z.land b 0xc0 =? 0x80 then utf8_continue (u32 (u32 (Z.shiftl c 6) + Z.land 0x3f b)) z'
    else Some (c, z)
  end.

(** The character and the pointer to the next one. *)
Definition sqlite3Utf8Read (z : list Z) : option (Z * list Z) :=
  match z with
  | [] => None
  | c :: z =>
    if 0xc0 <=? c then
      '(c, z) ← utf8_continue (nth (Z.to_nat (c - 0xc0)) sqlite3Utf8Trans1 0) z;
      Some (if (c <? 0x80) || (Z.land c 0xFFFFF800 =? 0xD800) || (Z.land c 0xFFFFFFFE =? 0xFFFE)
            then 0xFFFD else c, z)
    else Some (c, z)
  end.

(** The macro of the pattern matcher. *)
Definition Utf8Read (z : list Z) : option (Z * list Z) :=
  match z with
  | [] => None
  | a :: z' => if a <? 0x80 then Some (a, z') else sqlite3Utf8Read z
  end.

(** [while( ( *z & 0xc0)==0x80 ) z++]. *)
Fixpoint utf8_skip_continue (z : list Z) : option (list Z) :=
  match z with
  | [] => None
  | b :: z' => if Z.land b 0xc0 =? 0x80 then utf8_skip_continue z' else Some z
  end.

Definition SQLITE_SKIP_UTF8 (z : list Z) : option (list Z) :=
  match z with
  | [] => None
  | b :: z => if 0xc0 <=? b then utf8_skip_continue z else Some z
  end.

(** [while( *z!=0 && z<zTerm ){ SQLITE_SKIP_UTF8(z); r++; }]: the address of
    [z] is [length zIn - length z] bytes past [zIn]; [zTerm] is [None] when it is
    the largest address. *)
Fixpoint charlen_loop (fuel : nat) (zIn : list Z) (zTerm : option Z) (z : list Z) (r : Z) : option Z :=
  match fuel with
  | O => None
  | S fuel =>
    b ← head z;
    if negb (b =? 0) && match zTerm with
                        | Some n => Z.of_nat (length zIn - length z) <? n
                        | None => true
                        end
    then z ← SQLITE_SKIP_UTF8 z; charlen_loop fuel zIn zTerm z (r + 1)
    else Some r
  end.

Definition sqlite3Utf8CharLen (zIn : list Z) (nByte : Z) : option Z :=
  charlen_loop (S (length zIn)) zIn (if 0 <=? nByte then Some nByte else None) zIn 0.

(** ** UTF-16 *)

Definition WRITE_UTF16LE (c : Z) : list Z :=
  if c <=? 0xFFFF then [u8 (Z.land c 0x00FF); u8 (Z.land (Z.shiftr c 8) 0x00FF)]
  else
    [u8 (Z.land (Z.shiftr c 10) 0x003F + Z.land (Z.shiftr (c - 0x10000) 10) 0x00C0);
     u8 (0x00D8 + Z.land (Z.shiftr (c - 0x10000) 18) 0x03);
     u8 (Z.land c 0x00FF); u8 (0x00DC + Z.land (Z.shiftr c 8) 0x03)].

Definition WRITE_UTF16BE (c : Z) : list Z :=
  if c <=? 0xFFFF then [u8 (Z.land (Z.shiftr c 8) 0x00FF); u8 (Z.land c 0x00FF)]
  else
    [u8 (0x00D8 + Z.land (Z.shiftr (c - 0x10000) 18) 0x03);
     u8 (Z.land (Z.shiftr c 10) 0x003F + Z.land (Z.shiftr (c - 0x10000) 10) 0x00C0);
     u8 (0x00DC + Z.land (Z.shiftr c 8) 0x03); u8 (Z.land c 0x00FF)].

(** The value of a surrogate pair. *)
Definition utf16_pair (c c2 : Z) : Z :=
  Z.land c2 0x03FF + Z.shiftl (Z.land c 0x003F) 10 + Z.shiftl (Z.land c 0x03C0 + 0x0040) 10.

(** [TERM] is an expression in the pointer, evaluated after the first unit. *)
Definition READ_UTF16LE (TERM : list Z → bool) (z : list Z) : option (Z * list Z) :=
  match z with
  | b0 :: b1 :: z =>
    let c := b0 + Z.shiftl b1 8 in
    if (0xD800 <=? c) && (c <? 0xE000) && TERM z then
      match z with
      | b2 :: b3 :: z => Some (utf16_pair c (b2 + Z.shiftl b3 8), z)
      | _ => None
      end
    else Some (c, z)
  | _ => None
  end.

Definition READ_UTF16BE (TERM : list Z → bool) (z : list Z) : option (Z * list Z) :=
  match z with
  | b0 :: b1 :: z =>
    let c := Z.shiftl b0 8 + b1 in
    if (0xD800 <=? c) && (c <? 0xE000) && TERM z then
      match z with
      | b2 :: b3 :: z => Some (utf16_pair c (Z.shiftl b2 8 + b3), z)
      | _ => None
      end
    else Some (c, z)
  | _ => None
  end.

(** [while( n<nChar ){ READ_UTF16(z, 1, c); n++; }], for the [nChar - n]
    iterations left. *)
Fixpoint utf16_advance (read : list Z → option (Z * list Z)) (n : nat) (z : list Z) : option (list Z) :=
  match n with
  | O => Some z
  | S n => '(_, z) ← read z; utf16_advance read n z
  end.

Definition sqlite3Utf16ByteLen (native_BE : bool) (zIn : list Z) (nChar : Z) : option Z :=
  z ← utf16_advance (if native_BE then READ_UTF16BE (λ _, true) else READ_UTF16LE (λ _, true))
        (Z.to_nat nChar) zIn;
  Some (Z.of_nat (length zIn - length z)).
