(* ===== verification/Utf8Proofs.v ===== *)
(** * UTF-8 and UTF-16: proofs

    What the readers and writers do on every character, round trips, and reading
    of arbitrary bytes. *)
From S2P Require Import Prelude Words Utf8.
Local Open Scope Z_scope.

(** ** Reading one character *)

Section read.
Implicit Types (z : list Z) (b c : Z).

(** A byte that continues a character. *)
Definition continues (b : Z) : bool := Z.land b 0xc0 =? 0x80.

Lemma continues_range b : byte_ok b → continues b = (0x80 <=? b) && (b <? 0xc0).
Proof.
  intros Hb. apply eqb_true_iff.
  apply (all_bytes (λ b, Bool.eqb (continues b) ((0x80 <=? b) && (b <? 0xc0))) eq_refl b Hb).
Qed.

Lemma land_3f x : Z.land x 0x3F = x `mod` 64.
Proof. change 0x3F with (Z.ones 6). by rewrite Z.land_ones by lia. Qed.

Lemma cont_byte x : u8 (0x80 + u8 (Z.land x 0x3F)) = 0x80 + x `mod` 64.
Proof.
  rewrite land_3f. pose proof (Z.mod_pos_bound x 64 ltac:(lia)). rewrite !u8_small by (rewrite ?u8_small; lia). done.
Qed.

(** One continuation byte. *)
Lemma utf8_continue_byte c x z :
  0 ≤ c < 2 ^ 26 → 0 ≤ x < 64 → utf8_continue c (0x80 + x :: z) = utf8_continue (c * 64 + x) z.
Proof.
  intros Hc Hx. cbn [utf8_continue].
  pose proof (continues_range (0x80 + x) ltac:(unfold uint; lia)) as E. unfold continues in E. rewrite E.
  destruct (Z.leb_spec 0x80 (0x80 + x)); [|lia]. destruct (Z.ltb_spec (0x80 + x) 0xc0); [|lia]. cbn [andb].
  rewrite Z.land_comm, land_3f. rewrite Z.shiftl_mul_pow2 by lia.
  replace (0x80 + x) with (x + 2 * 64) by lia. rewrite Z.mod_add, (Z.mod_small x) by lia.
  unfold u32. rewrite (wrap_small 32 (c * 2 ^ 6)) by (unfold uint; lia).
  rewrite wrap_small by (unfold uint; lia). done.
Qed.

Lemma utf8_continue_stop c z : head z = None ∨ (∃ b z', z = b :: z' ∧ continues b = false) →
  utf8_continue c z = match z with [] => None | _ => Some (c, z) end.
Proof.
  intros [Hz|(b & z' & -> & Hb)]; [by destruct z|]. cbn [utf8_continue]. unfold continues in Hb. by rewrite Hb.
Qed.

(** What the reader makes of a value. *)
Definition utf8_fix (c : Z) : Z :=
  if (c <? 0x80) || (Z.land c 0xFFFFF800 =? 0xD800) || (Z.land c 0xFFFFFFFE =? 0xFFFE) then 0xFFFD else c.

Lemma mask_shift c n w : 0 ≤ n ≤ w → 0 ≤ c < 2 ^ w → Z.land c (2 ^ w - 2 ^ n) = c / 2 ^ n * 2 ^ n.
Proof.
  intros Hn Hc. assert (2 ^ w - 2 ^ n = Z.shiftl (Z.ones (w - n)) n) as ->.
  { rewrite Z.shiftl_mul_pow2, Z.ones_equiv, <-Z.sub_1_r, Z.mul_sub_distr_r, <-Z.pow_add_r by lia.
    replace (w - n + n) with w by lia. lia. }
  rewrite <-Z.shiftl_mul_pow2, <-Z.shiftr_div_pow2 by lia. apply Z.bits_inj'. intros i Hi.
  rewrite Z.land_spec, !Z.shiftl_spec by done. destruct (decide (i < n)).
  - by rewrite !(Z.testbit_neg_r _ (i - n)), andb_false_r by lia.
  - rewrite Z.shiftr_spec, Z.sub_add by lia. destruct (decide (i < w)).
    + by rewrite Z.ones_spec_low, andb_true_r by lia.
    + apply uint_bits in Hc as [_ Hc]; [|lia]. by rewrite Hc by lia.
Qed.

Lemma utf8_fix_range c :
  uint 32 c →
  utf8_fix c =
    if (c <? 0x80) || ((0xD800 <=? c) && (c <? 0xE000)) || ((0xFFFE <=? c) && (c <? 0x10000))
    then 0xFFFD else c.
Proof.
  intros Hc. unfold utf8_fix.
  change 0xFFFFF800 with (2 ^ 32 - 2 ^ 11). change 0xFFFFFFFE with (2 ^ 32 - 2 ^ 1).
  rewrite !mask_shift by (done || lia).
  assert ((c / 2 ^ 11 * 2 ^ 11 =? 0xD800) = (0xD800 <=? c) && (c <? 0xE000)) as ->.
  { pose proof (Z.div_mod c (2 ^ 11)). pose proof (Z.mod_pos_bound c (2 ^ 11)).
    destruct (Z.eqb_spec (c / 2 ^ 11 * 2 ^ 11) 0xD800), (Z.leb_spec 0xD800 c), (Z.ltb_spec c 0xE000); try done; lia. }
  assert ((c / 2 ^ 1 * 2 ^ 1 =? 0xFFFE) = (0xFFFE <=? c) && (c <? 0x10000)) as ->.
  { pose proof (Z.div_mod c (2 ^ 1)). pose proof (Z.mod_pos_bound c (2 ^ 1)).
    destruct (Z.eqb_spec (c / 2 ^ 1 * 2 ^ 1) 0xFFFE), (Z.leb_spec 0xFFFE c), (Z.ltb_spec c 0x10000); try done; lia. }
  done.
Qed.

Lemma utf8_continue_uint c z r z' :
  uint 32 c → utf8_continue c z = Some (r, z') → uint 32 r.
Proof.
  revert c. induction z as [|b z IH]; intros c Hc; cbn [utf8_continue]; [done|].
  case_match; [apply IH; by apply wrap_uint|]. by intros [= <- <-].
Qed.

(** The lead byte: the bits it holds. *)
Lemma utf8_lead b :
  byte_ok b → 0xc0 ≤ b →
  nth (Z.to_nat (b - 0xc0)) sqlite3Utf8Trans1 0 =
    if b <? 0xE0 then b - 0xC0 else if b <? 0xF0 then b - 0xE0
    else if b <? 0xF8 then b - 0xF0 else if b <? 0xFC then b - 0xF8
    else if b =? 0xFD then 1 else 0.
Proof.
  intros Hb Hc.
  pose proof (all_bytes (λ b, (b <? 0xc0) || (nth (Z.to_nat (b - 0xc0)) sqlite3Utf8Trans1 0 =?
    if b <? 0xE0 then b - 0xC0 else if b <? 0xF0 then b - 0xE0
    else if b <? 0xF8 then b - 0xF0 else if b <? 0xFC then b - 0xF8
    else if b =? 0xFD then 1 else 0)) eq_refl b Hb) as E.
  cbv beta in E. apply orb_true_iff in E as [?|?%Z.eqb_eq]; [lia|done].
Qed.

Lemma utf8_read_lead b z :
  0xc0 ≤ b →
  sqlite3Utf8Read (b :: z) =
    ('(c, z) ← utf8_continue (nth (Z.to_nat (b - 0xc0)) sqlite3Utf8Trans1 0) z; Some (utf8_fix c, z)).
Proof. intros Hb. unfold sqlite3Utf8Read. by destruct (Z.leb_spec 0xc0 b); [|lia]. Qed.

Lemma utf8_read_small b z : b < 0xc0 → sqlite3Utf8Read (b :: z) = Some (b, z).
Proof. intros Hb. unfold sqlite3Utf8Read. by destruct (Z.leb_spec 0xc0 b); [lia|]. Qed.

Lemma Utf8Read_eq z : Utf8Read z = sqlite3Utf8Read z.
Proof.
  destruct z as [|a z]; [done|]. cbn [Utf8Read]. destruct (Z.ltb_spec a 0x80); [|done].
  by rewrite utf8_read_small by lia.
Qed.

(** ** Writing one *)

(** The next byte does not continue a character. *)
Definition starts (z : list Z) : Prop := match z with [] => False | b :: _ => continues b = false end.

Lemma utf8_continue_starts c z : starts z → utf8_continue c z = Some (c, z).
Proof. destruct z as [|b z]; [done|]. cbn [starts utf8_continue]. unfold continues. by intros ->. Qed.

Lemma WRITE_UTF8_eq c :
  0 ≤ c < 0x200000 →
  WRITE_UTF8 c =
    if c <? 0x80 then [c]
    else if c <? 0x800 then [0xC0 + c / 64; 0x80 + c `mod` 64]
    else if c <? 0x10000 then [0xE0 + c / 4096; 0x80 + (c / 64) `mod` 64; 0x80 + c `mod` 64]
    else [0xF0 + c / 262144; 0x80 + (c / 4096) `mod` 64; 0x80 + (c / 64) `mod` 64; 0x80 + c `mod` 64].
Proof.
  intros Hc. unfold WRITE_UTF8. rewrite !cont_byte, !Z.shiftr_div_pow2 by lia.
  change 0xFF with (Z.ones 8). change 0x1F with (Z.ones 5). change 0x0F with (Z.ones 4).
  change 0x07 with (Z.ones 3). rewrite !Z.land_ones by lia.
  change (2 ^ 6) with 64. change (2 ^ 12) with 4096. change (2 ^ 18) with 262144.
  change (2 ^ 8) with 256. change (2 ^ 5) with 32. change (2 ^ 4) with 16. change (2 ^ 3) with 8.
  destruct (Z.ltb_spec c 0x80); [|destruct (Z.ltb_spec c 0x800); [|destruct (Z.ltb_spec c 0x10000)]].
  - rewrite Z.mod_small, u8_small by lia. done.
  - assert (0 ≤ c / 64 < 32) by (split; [apply Z.div_pos|apply Z.div_lt_upper_bound]; lia).
    rewrite (Z.mod_small (c / 64)), (u8_small (c / 64)), u8_small by lia. done.
  - assert (0 ≤ c / 4096 < 16) by (split; [apply Z.div_pos|apply Z.div_lt_upper_bound]; lia).
    rewrite (Z.mod_small (c / 4096)), (u8_small (c / 4096)), u8_small by lia. done.
  - assert (0 ≤ c / 262144 < 8) by (split; [apply Z.div_pos|apply Z.div_lt_upper_bound]; lia).
    rewrite (Z.mod_small (c / 262144)), (u8_small (c / 262144)), u8_small by lia. done.
Qed.

Lemma mod_div_64 c : c / 64 * 64 + c `mod` 64 = c.
Proof. pose proof (Z.div_mod c 64). lia. Qed.

Lemma utf8_read_write c rest :
  0 ≤ c < 0x200000 → starts rest →
  sqlite3Utf8Read (WRITE_UTF8 c ++ rest) = Some (if c <? 0x80 then c else utf8_fix c, rest).
Proof.
  intros Hc Hr. rewrite WRITE_UTF8_eq by done.
  pose proof (Z.mod_pos_bound c 64 ltac:(lia)).
  pose proof (Z.mod_pos_bound (c / 64) 64 ltac:(lia)).
  pose proof (Z.mod_pos_bound (c / 4096) 64 ltac:(lia)).
  pose proof (mod_div_64 c) as E1. pose proof (mod_div_64 (c / 64)) as E2.
  pose proof (mod_div_64 (c / 4096)) as E3.
  rewrite Z.div_div in E2, E3 by lia. change (64 * 64) with 4096 in E2. change (4096 * 64) with 262144 in E3.
  destruct (Z.ltb_spec c 0x80); [cbn [app]; by rewrite utf8_read_small by lia|].
  destruct (Z.ltb_spec c 0x800); [|destruct (Z.ltb_spec c 0x10000)]; cbn [app].
  - assert (2 ≤ c / 64 < 32) by (split; [apply Z.div_le_lower_bound|apply Z.div_lt_upper_bound]; lia).
    rewrite utf8_read_lead, utf8_lead by (unfold uint; lia).
    destruct (Z.ltb_spec (0xC0 + c / 64) 0xE0); [|lia].
    rewrite utf8_continue_byte, utf8_continue_starts by (done || lia).
    cbn [mbind option_bind]. do 3 f_equal. lia.
  - assert (0 ≤ c / 4096 < 16) by (split; [apply Z.div_pos|apply Z.div_lt_upper_bound]; lia).
    rewrite utf8_read_lead, utf8_lead by (unfold uint; lia).
    destruct (Z.ltb_spec (0xE0 + c / 4096) 0xE0); [lia|].
    destruct (Z.ltb_spec (0xE0 + c / 4096) 0xF0); [|lia].
    rewrite !utf8_continue_byte, utf8_continue_starts by (done || lia).
    cbn [mbind option_bind]. do 3 f_equal. lia.
  - assert (0 ≤ c / 262144 < 8) by (split; [apply Z.div_pos|apply Z.div_lt_upper_bound]; lia).
    rewrite utf8_read_lead, utf8_lead by (unfold uint; lia).
    destruct (Z.ltb_spec (0xF0 + c / 262144) 0xE0); [lia|].
    destruct (Z.ltb_spec (0xF0 + c / 262144) 0xF0); [lia|].
    destruct (Z.ltb_spec (0xF0 + c / 262144) 0xF8); [|lia].
    rewrite !utf8_continue_byte, utf8_continue_starts by (done || lia).
    cbn [mbind option_bind]. do 3 f_equal. lia.
Qed.

Lemma length_WRITE_UTF8 c : (1 ≤ length (WRITE_UTF8 c) ≤ 4)%nat.
Proof. unfold WRITE_UTF8. repeat case_match; cbn [length]; lia. Qed.
End read.

(** ** UTF-16 *)

Section utf16.
Implicit Types (z : list Z) (c h l : Z).

(** The high surrogate of a supplementary character [0x10000 + 1024 h + l]. *)
Lemma utf16_high h :
  0 ≤ h < 1024 →
  let b0 := u8 (Z.land (h + 64) 0x003F + Z.land h 0x00C0) in
  let b1 := u8 (0x00D8 + Z.land (Z.shiftr h 8) 0x03) in
  b0 + b1 * 256 = 0xD800 + h ∧
  Z.shiftl (Z.land (0xD800 + h) 0x003F) 10 + Z.shiftl (Z.land (0xD800 + h) 0x03C0 + 0x0040) 10 = (h + 64) * 1024.
Proof.
  intros Hh.
  assert (forallb (λ h,
    (u8 (Z.land (h + 64) 0x003F + Z.land h 0x00C0) + u8 (0x00D8 + Z.land (Z.shiftr h 8) 0x03) * 256 =? 0xD800 + h) &&
    (Z.shiftl (Z.land (0xD800 + h) 0x003F) 10 + Z.shiftl (Z.land (0xD800 + h) 0x03C0 + 0x0040) 10 =? (h + 64) * 1024))
    (seqZ 0 1024) = true) as Hall by (vm_compute; reflexivity).
  rewrite forallb_forall in Hall. specialize (Hall h).
  rewrite andb_true_iff, !Z.eqb_eq in Hall. apply Hall. apply list_elem_of_In, elem_of_seqZ. lia.
Qed.

Lemma utf16_split c :
  0x10000 ≤ c < 0x110000 →
  ∃ h l, 0 ≤ h < 1024 ∧ 0 ≤ l < 1024 ∧ c = (h + 64) * 1024 + l ∧
    Z.shiftr c 10 = h + 64 ∧ Z.shiftr (c - 0x10000) 10 = h ∧
    Z.shiftr (c - 0x10000) 18 = Z.shiftr h 8 ∧
    u8 (Z.land c 0x00FF) = l `mod` 256 ∧ u8 (0x00DC + Z.land (Z.shiftr c 8) 0x03) = 0xDC + l / 256.
Proof.
  intros Hc. exists (c / 1024 - 64), (c `mod` 1024).
  pose proof (Z.div_mod c 1024 ltac:(lia)). pose proof (Z.mod_pos_bound c 1024 ltac:(lia)).
  assert (∃ h, c / 1024 = h + 64) as [h Eh] by (exists (c / 1024 - 64); lia). rewrite Eh in *.
  replace (h + 64 - 64) with h by lia.
  set (l := c `mod` 1024) in *. clearbody l. assert (0 ≤ h < 1024) by lia.
  pose proof (Z.mod_pos_bound l 256 ltac:(lia)). pose proof (Z.div_mod l 256 ltac:(lia)).
  rewrite !Z.shiftr_div_pow2 by lia. change (2 ^ 10) with 1024. change (2 ^ 18) with (1024 * 256).
  change (2 ^ 8) with 256. rewrite <-Z.div_div by lia.
  change 0x00FF with (Z.ones 8). change 0x03 with (Z.ones 2). rewrite !Z.land_ones by lia.
  change (2 ^ 8) with 256. change (2 ^ 2) with 4.
  split_and!; try lia.
  - symmetry. apply (Z.div_unique_pos _ _ _ l); lia.
  - f_equal. symmetry. apply (Z.div_unique_pos _ _ _ l); lia.
  - rewrite u8_small by (apply Z.mod_pos_bound; lia).
    symmetry. apply (Z.mod_unique_pos _ _ ((h + 64) * 4 + l / 256)); lia.
  - assert ((c / 256) `mod` 4 = l / 256) as ->; [|apply u8_small; lia].
    symmetry. apply (Z.mod_unique_pos _ _ (h + 64)); [lia|].
    symmetry. apply (Z.div_unique_pos _ _ _ (l `mod` 256)); lia.
Qed.

Lemma utf16_low l : 0 ≤ l < 1024 → Z.land (l `mod` 256 + (0xDC + l / 256) * 256) 0x03FF = l.
Proof.
  intros Hl. change 0x03FF with (Z.ones 10). rewrite Z.land_ones by lia.
  pose proof (Z.div_mod l 256 ltac:(lia)). symmetry. apply (Z.mod_unique_pos _ _ 55); lia.
Qed.

(** A character of the basic plane. *)
Lemma utf16_basic c :
  0 ≤ c ≤ 0xFFFF → u8 (Z.land c 0x00FF) + Z.shiftl (u8 (Z.land (Z.shiftr c 8) 0x00FF)) 8 = c.
Proof.
  intros Hc. rewrite Z.shiftr_div_pow2, Z.shiftl_mul_pow2 by lia.
  change 0x00FF with (Z.ones 8). rewrite !Z.land_ones by lia. change (2 ^ 8) with 256.
  rewrite !u8_small by (apply Z.mod_pos_bound; lia).
  rewrite (Z.mod_small (c / 256)); [pose proof (Z.div_mod c 256); lia|].
  split; [apply Z.div_pos|apply Z.div_lt_upper_bound]; lia.
Qed.

Definition scalar (c : Z) : Prop := 0 ≤ c < 0x110000 ∧ ¬ (0xD800 ≤ c < 0xE000).

Lemma utf16_read_write c z :
  scalar c →
  READ_UTF16LE (λ _, true) (WRITE_UTF16LE c ++ z) = Some (c, z) ∧
  READ_UTF16BE (λ _, true) (WRITE_UTF16BE c ++ z) = Some (c, z).
Proof.
  intros [Hc Hs]. unfold WRITE_UTF16LE, WRITE_UTF16BE.
  destruct (Z.leb_spec c 0xFFFF) as [Hle|Hgt]; cbn [app READ_UTF16LE READ_UTF16BE].
  - rewrite (Z.add_comm (Z.shiftl _ 8)), utf16_basic by lia.
    destruct (Z.leb_spec 0xD800 c), (Z.ltb_spec c 0xE000); cbn [andb]; done || lia.
  - destruct (utf16_split c) as (h & l & Hh & Hl & Hcl & -> & -> & -> & -> & ->); [lia|].
    destruct (utf16_high h Hh) as [E1 E2]. cbv zeta in E1.
    rewrite !Z.shiftl_mul_pow2 by lia. change (2 ^ 8) with 256.
    rewrite (Z.add_comm (_ * 256)), E1.
    destruct (Z.leb_spec 0xD800 (0xD800 + h)); [|lia]. destruct (Z.ltb_spec (0xD800 + h) 0xE000); [|lia].
    cbn [andb]. rewrite !(Z.add_comm ((0xDC + _) * 256)). unfold utf16_pair.
    rewrite utf16_low by done. rewrite <-Z.add_assoc, E2. split; do 2 f_equal; lia.
Qed.

Lemma length_WRITE_UTF16 c :
  length (WRITE_UTF16LE c) = length (WRITE_UTF16BE c) ∧ (1 ≤ length (WRITE_UTF16LE c) ≤ 4)%nat.
Proof. unfold WRITE_UTF16LE, WRITE_UTF16BE. case_match; cbn [length]; lia. Qed.
End utf16.

(** ** Strings *)

(** A NUL-terminated string of bytes, possibly followed by other bytes. *)
Definition cstr (z : list Z) : Prop := bytes_ok z ∧ 0 ∈ z.

(** The characters of a string, up to the terminator. *)
Fixpoint chars_upto (n : nat) (z : list Z) : list Z :=
  match n, sqlite3Utf8Read z with
  | S n, Some (c, z') => if c =? 0 then [] else c :: chars_upto n z'
  | _, _ => []
  end.

Definition chars (z : list Z) : list Z := chars_upto (length z) z.

Section strings.
Implicit Types (z : list Z) (c b : Z).

Lemma utf8_continue_skip c z :
  utf8_continue c z ≫= (λ r, Some r.2) = utf8_skip_continue z.
Proof.
  revert c. induction z as [|b z IH]; intros c; cbn [utf8_continue utf8_skip_continue]; [done|].
  case_match; [apply IH|done].
Qed.

(** Reading and skipping a character move to the same place. *)
Lemma SKIP_read z : SQLITE_SKIP_UTF8 z = r ← sqlite3Utf8Read z; Some r.2.
Proof.
  destruct z as [|b z]; [done|]. cbn [SQLITE_SKIP_UTF8 sqlite3Utf8Read].
  destruct (0xc0 <=? b); [|done]. rewrite <-(utf8_continue_skip (nth (Z.to_nat (b - 0xc0)) sqlite3Utf8Trans1 0)).
  by destruct (utf8_continue _ z) as [[r z']|].
Qed.

Lemma skip_continue_cstr z :
  bytes_ok z → 0 ∈ z → ∃ z', utf8_skip_continue z = Some z' ∧ cstr z' ∧ (length z' ≤ length z)%nat ∧ starts z'.
Proof.
  induction z as [|b z IH]; intros Hb H0; [by apply elem_of_nil in H0|]. cbn [utf8_skip_continue].
  pose proof (Forall_inv Hb). change (Z.land b 0xc0 =? 0x80) with (continues b).
  destruct (continues b) eqn:E.
  - destruct IH as (z' & ? & ? & ? & ?).
    + by apply Forall_inv_tail in Hb.
    + apply elem_of_cons in H0 as [<-|?]; [by rewrite continues_range in E|done].
    + exists z'. split_and!; try done. cbn [length]. lia.
  - exists (b :: z). split_and!; done.
Qed.

Lemma cstr_read z :
  cstr z →
  (∃ z', z = 0 :: z') ∨
  (∃ b z' c, z = b :: z' ∧ b ≠ 0 ∧ sqlite3Utf8Read z = Some (c, z') ∧ c = b ∧ b < 0xc0 ∧ cstr z') ∨
  (∃ b z' z0 c, z = b :: z0 ∧ 0xc0 ≤ b ∧ sqlite3Utf8Read z = Some (c, z') ∧ 0x80 ≤ c ∧ cstr z' ∧
                (length z' ≤ length z0)%nat ∧ starts z').
Proof.
  intros [Hb H0]. destruct z as [|b z]; [by apply elem_of_nil in H0|].
  destruct (decide (b = 0)) as [->|Hne]; [left; eauto|]. right.
  apply elem_of_cons in H0 as [?|H0]; [done|]. pose proof (Forall_inv Hb) as Hb0.
  apply Forall_inv_tail in Hb. destruct (decide (b < 0xc0)) as [Hlt|Hge].
  - left. exists b, z, b. rewrite utf8_read_small by done. done.
  - right. destruct (skip_continue_cstr z Hb H0) as (z' & Hs & ? & ? & ?).
    rewrite <-(utf8_continue_skip (nth (Z.to_nat (b - 0xc0)) sqlite3Utf8Trans1 0)) in Hs.
    rewrite utf8_read_lead by lia.
    destruct (utf8_continue _ z) as [[r z'']|] eqn:E; [|done]. cbn in Hs. injection Hs as ->.
    exists b, z', z, (utf8_fix r). split_and!; try done; try lia.
    apply utf8_continue_uint in E.
    + rewrite utf8_fix_range by done. 
      destruct (Z.ltb_spec r 0x80); cbn [orb]; [lia|]. case_match; lia.
    + rewrite utf8_lead by (done || lia). unfold uint in *.
      repeat case_match; lia.
Qed.
Lemma chars_upto_fuel n m z :
  cstr z → (length z ≤ n)%nat → (length z ≤ m)%nat → chars_upto n z = chars_upto m z.
Proof.
  revert m z. induction n as [|n IH]; intros m z Hz Hn Hm.
  { destruct z; [by destruct Hz as [_ []%elem_of_nil]|]. cbn [length] in Hn. lia. }
  destruct m as [|m].
  { destruct z; [by destruct Hz as [_ []%elem_of_nil]|]. cbn [length] in Hm. lia. }
  cbn [chars_upto].
  destruct (cstr_read z Hz) as [(z' & ->)|[(b & z' & c & -> & ? & -> & -> & ? & ?)|(b & z' & z0 & c & -> & ? & -> & ? & ? & ? & ?)]].
  - done.
  - cbn [length] in *. rewrite (IH m) by (done || lia). done.
  - cbn [length] in *. rewrite (IH m) by (done || lia). done.
Qed.

Lemma chars_nil z : chars (0 :: z) = [].
Proof. done. Qed.

Lemma chars_cons z c z' :
  cstr z → sqlite3Utf8Read z = Some (c, z') → c ≠ 0 → chars z = c :: chars z'.
Proof.
  intros Hz Hr Hc. unfold chars.
  destruct (cstr_read z Hz) as [(z0 & ->)|[(b & z0 & c' & -> & ? & Hr' & -> & ? & ?)|(b & z0 & z1 & c' & -> & ? & Hr' & ? & ? & ? & ?)]].
  - rewrite utf8_read_small in Hr by lia. by injection Hr as <- <-.
  - rewrite Hr in Hr'. injection Hr' as <- <-. cbn [length chars_upto]. rewrite Hr.
    by destruct (Z.eqb_spec c 0).
  - rewrite Hr in Hr'. injection Hr' as <- <-. cbn [length chars_upto]. rewrite Hr.
    destruct (Z.eqb_spec c 0); [done|]. f_equal. by apply chars_upto_fuel.
Qed.

(** The bytes read are a prefix, and what several bytes can give. *)
Lemma utf8_continue_suffix c z c' z' : utf8_continue c z = Some (c', z') → ∃ used, z = used ++ z'.
Proof.
  revert c. induction z as [|b z IH]; intros c; cbn [utf8_continue]; [done|].
  case_match; [intros [used ->]%IH; by exists (b :: used)|]. intros [= <- <-]. by exists [].
Qed.

Lemma utf8_read_suffix z c z' : sqlite3Utf8Read z = Some (c, z') → ∃ used, z = used ++ z' ∧ used ≠ [].
Proof.
  destruct z as [|b z]; cbn [sqlite3Utf8Read]; [done|]. case_match; [|intros [= _ <-]; by exists [b]].
  destruct (utf8_continue _ z) as [[c' z0]|] eqn:E; [|done]. cbn [mbind option_bind]. intros [= _ <-].
  apply utf8_continue_suffix in E as [used ->]. by exists (b :: used).
Qed.

Lemma utf8_read_range b z c z' :
  byte_ok b → 0xc0 ≤ b → sqlite3Utf8Read (b :: z) = Some (c, z') →
  ¬ (0xD800 ≤ c < 0xE000) ∧ ¬ (0xFFFE ≤ c < 0x10000).
Proof.
  intros Hb Hge. rewrite utf8_read_lead by done.
  destruct (utf8_continue _ z) as [[r z0]|] eqn:E; [|done]. cbn [mbind option_bind]. intros [= <- _].
  apply utf8_continue_uint in E.
  - rewrite utf8_fix_range by done. 
    destruct (Z.ltb_spec r 0x80), (Z.leb_spec 0xD800 r), (Z.ltb_spec r 0xE000), (Z.leb_spec 0xFFFE r),
      (Z.ltb_spec r 0x10000); cbn [orb andb]; lia.
  - rewrite utf8_lead by done. unfold uint in *. repeat case_match; lia.
Qed.

(** The cases of reading a string, with what they do to its characters. *)
Lemma cstr_chars z :
  cstr z →
  (∃ z', z = 0 :: z' ∧ chars z = []) ∨
  (∃ b z0 c z', z = b :: z0 ∧ b ≠ 0 ∧ sqlite3Utf8Read z = Some (c, z') ∧ c ≠ 0 ∧ cstr z' ∧
    (length z' ≤ length z0)%nat ∧ chars z = c :: chars z' ∧
    (b < 0x80 ∧ c = b ∧ z' = z0 ∨ 0x80 ≤ b ∧ 0x80 ≤ c)).
Proof.
  intros Hz. destruct (cstr_read z Hz) as [(z' & ->)|[(b & z' & c & -> & ? & Hr & -> & ? & ?)|(b & z' & z0 & c & -> & ? & Hr & ? & ? & ? & ?)]].
  - left. eauto.
  - right. exists b, z', b, z'. split_and!; try done; [by apply chars_cons|].
    destruct (decide (b < 0x80)); [by left|right; lia].
  - right. exists b, z0, c, z'. split_and!; try done; try lia. apply chars_cons; done || lia.
Qed.

(** A string of written characters. *)
Lemma starts_WRITE_UTF8 c z : 0 ≤ c < 0x200000 → starts (WRITE_UTF8 c ++ z).
Proof.
  intros Hc. rewrite WRITE_UTF8_eq by done.
  destruct (Z.ltb_spec c 0x80); [|destruct (Z.ltb_spec c 0x800); [|destruct (Z.ltb_spec c 0x10000)]];
    cbn [app starts].
  - rewrite continues_range by (unfold uint; lia). destruct (Z.leb_spec 0x80 c); [lia|done].
  - assert (0 ≤ c / 64 < 32) by (split; [apply Z.div_pos|apply Z.div_lt_upper_bound]; lia).
    rewrite continues_range by (unfold uint; lia).
    destruct (Z.ltb_spec (0xC0 + c / 64) 0xC0); [lia|by rewrite andb_false_r].
  - assert (0 ≤ c / 4096 < 16) by (split; [apply Z.div_pos|apply Z.div_lt_upper_bound]; lia).
    rewrite continues_range by (unfold uint; lia).
    destruct (Z.ltb_spec (0xE0 + c / 4096) 0xC0); [lia|by rewrite andb_false_r].
  - assert (0 ≤ c / 262144 < 8) by (split; [apply Z.div_pos|apply Z.div_lt_upper_bound]; lia).
    rewrite continues_range by (unfold uint; lia).
    destruct (Z.ltb_spec (0xF0 + c / 262144) 0xC0); [lia|by rewrite andb_false_r].
Qed.

(** A written character is a byte that starts one and bytes that continue it. *)
Lemma WRITE_UTF8_group c :
  0 ≤ c < 0x200000 →
  ∃ b l, WRITE_UTF8 c = b :: l ∧ Forall (λ x, continues x = true) l.
Proof.
  intros Hc. rewrite WRITE_UTF8_eq by done.
  pose proof (Z.mod_pos_bound c 64 ltac:(lia)).
  pose proof (Z.mod_pos_bound (c / 64) 64 ltac:(lia)).
  pose proof (Z.mod_pos_bound (c / 4096) 64 ltac:(lia)).
  assert (∀ x, 0 ≤ x < 64 → continues (0x80 + x) = true) as Hcont.
  { intros x Hx. rewrite continues_range by (unfold uint; lia).
    destruct (Z.leb_spec 0x80 (0x80 + x)), (Z.ltb_spec (0x80 + x) 0xc0); done || lia. }
  repeat case_match; eexists _, _; (split; [done|]); repeat constructor; by apply Hcont.
Qed.

Lemma WRITE_UTF8_ok c : bytes_ok (WRITE_UTF8 c).
Proof.
  unfold WRITE_UTF8. repeat case_match; repeat (constructor; [by apply wrap_uint|]); constructor.
Qed.

(** Characters that the reader leaves alone. *)
Definition clean (c : Z) : Prop := 0 < c < 0x110000 ∧ ¬ (0xD800 ≤ c < 0xE000) ∧ ¬ (0xFFFE ≤ c < 0x10000).

Lemma clean_fix c : clean c → (if c <? 0x80 then c else utf8_fix c) = c.
Proof.
  intros (Hc & Hs & Hn). destruct (Z.ltb_spec c 0x80) as [|Hge]; [done|].
  rewrite utf8_fix_range by (unfold uint; lia).
  destruct (Z.ltb_spec c 0x80); [lia|].
  destruct (Z.leb_spec 0xD800 c), (Z.ltb_spec c 0xE000), (Z.leb_spec 0xFFFE c), (Z.ltb_spec c 0x10000);
    cbn [orb andb]; done || lia.
Qed.

Lemma cstr_written cs rest : bytes_ok rest → cstr (concat (WRITE_UTF8 <$> cs) ++ 0 :: rest).
Proof.
  intros Hr. split; [|set_solver]. apply Forall_app.
  split; [|by constructor]. apply concat_bytes_ok, WRITE_UTF8_ok.
Qed.

Lemma chars_written cs rest :
  Forall clean cs → bytes_ok rest → chars (concat (WRITE_UTF8 <$> cs) ++ 0 :: rest) = cs.
Proof.
  intros Hcs Hr. induction Hcs as [|c cs Hc Hcs IH]; [apply chars_nil|].
  rewrite fmap_cons. cbn [concat]. rewrite <-app_assoc.
  assert (bytes_ok (0 :: rest)) by (by constructor).
  assert (starts (concat (WRITE_UTF8 <$> cs) ++ 0 :: rest)) as Hst.
  { destruct cs as [|c' cs]; [done|]. rewrite fmap_cons. cbn [concat]. rewrite <-app_assoc.
    apply starts_WRITE_UTF8. apply Forall_inv in Hcs as [? _]. lia. }
  rewrite (chars_cons _ c (concat (WRITE_UTF8 <$> cs) ++ 0 :: rest)).
  - by rewrite IH.
  - split; [|set_solver]. apply Forall_app. split; [apply WRITE_UTF8_ok|].
    by apply (cstr_written cs rest).
  - destruct Hc as [? Hc]. rewrite utf8_read_write by (done || lia). by rewrite clean_fix.
  - destruct Hc as [? Hc]. lia.
Qed.

(** [sqlite3Utf8CharLen] without a bound counts the characters. *)
Lemma charlen_loop_spec fuel zIn z r :
  cstr z → (length z < fuel)%nat → charlen_loop fuel zIn None z r = Some (r + Z.of_nat (length (chars z))).
Proof.
  revert z r. induction fuel as [|fuel IH]; intros z r Hz Hf; [lia|]. cbn [charlen_loop].
  destruct (cstr_chars z Hz) as [(z' & -> & ->)|(b & z0 & c & z' & -> & Hb & Hr & ? & Hz' & ? & -> & _)].
  - cbn. f_equal. lia.
  - cbn [head mbind option_bind]. destruct (Z.eqb_spec b 0); [done|]. cbn [negb andb].
    rewrite SKIP_read, Hr. cbn [mbind option_bind snd length] in *. rewrite IH by (done || lia). f_equal. lia.
Qed.

Lemma charlen_spec z n : cstr z → n < 0 → sqlite3Utf8CharLen z n = Some (Z.of_nat (length (chars z))).
Proof.
  intros Hz Hn. unfold sqlite3Utf8CharLen. destruct (Z.leb_spec 0 n); [lia|].
  rewrite charlen_loop_spec by (done || lia). done.
Qed.
End strings.


(** C35: the assertions of [sqlite3UtfSelfTest], for every character and in
    front of any bytes. A character below 0x110000 is written in UTF-8 in one
    to four bytes, and [sqlite3Utf8Read] reads back these bytes and no others,
    as 0xfffd if it is a surrogate or one of the two non-characters 0xfffe and
    0xffff; every character but the surrogates is written in UTF-16 in two or
    four bytes that both readers read back. In UTF-8 the bytes that follow must
    not continue a character, as the terminator does not. *)
Theorem sqlite3UtfSelfTest_holds i rest :
  0 ≤ i < 0x00110000 → starts rest →
  (1 ≤ length (WRITE_UTF8 i) ≤ 4)%nat ∧
  sqlite3Utf8Read (WRITE_UTF8 i ++ rest) =
    Some (if (0xD800 <=? i) && (i <=? 0xDFFF) || (Z.land i 0xFFFFFFFE =? 0xFFFE) then 0xFFFD else i, rest) ∧
  (¬ (0xD800 ≤ i < 0xE000) →
   (1 ≤ length (WRITE_UTF16LE i) ≤ 4)%nat ∧ (1 ≤ length (WRITE_UTF16BE i) ≤ 4)%nat ∧
   READ_UTF16LE (λ _, true) (WRITE_UTF16LE i ++ rest) = Some (i, rest) ∧
   READ_UTF16BE (λ _, true) (WRITE_UTF16BE i ++ rest) = Some (i, rest)).
Proof.
  intros Hi Hr. split; [apply length_WRITE_UTF8|]. split.
  - rewrite utf8_read_write by (done || lia). do 2 f_equal.
    change 0xFFFFFFFE with (2 ^ 32 - 2 ^ 1). rewrite mask_shift by (done || lia). change (2 ^ 1) with 2.
    pose proof (Z.div_mod i 2 ltac:(lia)). pose proof (Z.mod_pos_bound i 2 ltac:(lia)).
    rewrite utf8_fix_range by (unfold uint; lia).
    destruct (Z.ltb_spec i 0x80); cbn [orb].
    + destruct (Z.leb_spec 0xD800 i); [lia|]. destruct (Z.eqb_spec (i / 2 * 2) 0xFFFE); [lia|done].
    + destruct (Z.leb_spec 0xD800 i), (Z.ltb_spec i 0xE000), (Z.leb_spec i 0xDFFF), (Z.leb_spec 0xFFFE i),
        (Z.ltb_spec i 0x10000), (Z.eqb_spec (i / 2 * 2) 0xFFFE); cbn [andb orb]; done || lia.
  - intros Hs. destruct (length_WRITE_UTF16 i) as [<- ?].
    destruct (utf16_read_write i rest) as [? ?]; [done|]. done.
Qed.

Lemma sqlite3UtfSelfTest_holds_witness :
  sqlite3Utf8Read (WRITE_UTF8 0x1F600 ++ [0]) = Some (0x1F600, [0]) ∧
  sqlite3Utf8Read (WRITE_UTF8 0xD800 ++ [0]) = Some (0xFFFD, [0]) ∧
  READ_UTF16LE (λ _, true) (WRITE_UTF16LE 0x1F600 ++ [0]) = Some (0x1F600, [0]).
Proof.
  destruct (sqlite3UtfSelfTest_holds 0x1F600 [0]) as (_ & H1 & H2); [lia|reflexivity|].
  destruct (sqlite3UtfSelfTest_holds 0xD800 [0]) as (_ & H3 & _); [lia|reflexivity|].
  split_and!; [exact H1|exact H3|apply H2; lia].
Defined.

(** [sqlite3Utf8Read] on any NUL-terminated bytes, well-formed or not. It
    reads at least one byte and never one after the terminator; it returns
    the terminator only where it is, an ASCII character only for the byte that
    is this character, and never a surrogate, 0xfffe or 0xffff for more than
    one byte. So an encoding that is too long cannot hide an ASCII character.
    [SQLITE_SKIP_UTF8] moves to the same place, and [sqlite3Utf8CharLen] counts
    the characters read, and ends. *)
Theorem sqlite3Utf8Read_safe b z :
  cstr (b :: z) →
  (∃ c z', sqlite3Utf8Read (b :: z) = Some (c, z') ∧ SQLITE_SKIP_UTF8 (b :: z) = Some z' ∧
     (∃ used, b :: z = used ++ z' ∧ used ≠ []) ∧ (c ≠ 0 → cstr z') ∧ (c = 0 ↔ b = 0) ∧
     (c < 0x80 → c = b ∧ z' = z) ∧
     (0xc0 ≤ b → 0x80 ≤ c ∧ ¬ (0xD800 ≤ c < 0xE000) ∧ ¬ (0xFFFE ≤ c < 0x10000))) ∧
  sqlite3Utf8CharLen (b :: z) (-1) = Some (Z.of_nat (length (chars (b :: z)))).
Proof.
  intros Hz. split; [|by apply charlen_spec].
  assert (∃ c z', sqlite3Utf8Read (b :: z) = Some (c, z')) as (c & z' & Hr).
  { destruct (cstr_read _ Hz) as [(? & [= -> ->])|[(? & ? & ? & _ & _ & -> & _)|(? & ? & ? & ? & _ & _ & -> & _)]]; eauto. }
  exists c, z'. split; [done|]. rewrite SKIP_read, Hr. cbn [mbind option_bind snd]. split; [done|].
  split; [by apply utf8_read_suffix in Hr|].
  destruct (decide (b < 0xc0)) as [Hb|Hb].
  - rewrite utf8_read_small in Hr by done. injection Hr as <- <-. split_and!; try done; [|lia].
    intros Hne. destruct Hz as [Hok [?|Hin]%elem_of_cons]; [done|]. split; [by apply Forall_inv_tail in Hok|done].
  - destruct (cstr_read _ Hz) as [(? & [= -> ->])|[(? & ? & ? & [= <- <-] & ? & Hr' & ? & ? & ?)|(? & ? & ? & ? & [= <- <-] & ? & Hr' & ? & Hz' & _)]]; [lia|lia|].
    rewrite Hr in Hr'. injection Hr' as <- <-. split_and!; try done; [lia|lia|].
    intros _. split; [done|]. apply (utf8_read_range b z c z'); [|lia|done].
    destruct Hz as [Hok _]. by apply Forall_inv in Hok.
Qed.

Lemma sqlite3Utf8Read_safe_witness :
  (∃ c z', sqlite3Utf8Read [0xC0; 0xAF; 0x41; 0] = Some (c, z') ∧ 0x80 ≤ c) ∧
  sqlite3Utf8CharLen [0xC0; 0xAF; 0x41; 0] (-1) = Some 2.
Proof.
  assert (cstr [0xC0; 0xAF; 0x41; 0]) as Hz.
  { split; [|by apply (bool_decide_unpack _)].
    repeat (constructor; [unfold uint; lia|]). constructor. }
  destruct (sqlite3Utf8Read_safe 0xC0 [0xAF; 0x41; 0] Hz) as [(c & z' & Hr & _ & _ & _ & _ & _ & H) Hlen].
  split; [exists c, z'; split; [exact Hr|apply H; lia]|exact Hlen].
Defined.

(** strings. The characters read from the UTF-8 encodings of a sequence of
    characters, up to the terminator, are the sequence, whatever follows. *)
Theorem chars_WRITE_UTF8 cs rest :
  Forall clean cs → bytes_ok rest →
  chars (concat (WRITE_UTF8 <$> cs) ++ 0 :: rest) = cs ∧
  sqlite3Utf8CharLen (concat (WRITE_UTF8 <$> cs) ++ 0 :: rest) (-1) = Some (Z.of_nat (length cs)).
Proof.
  intros Hcs Hr. rewrite charlen_spec; [|by apply cstr_written|done].
  by rewrite chars_written.
Qed.

Lemma chars_WRITE_UTF8_witness :
  chars (concat (WRITE_UTF8 <$> [0x47; 0xFC; 0x20AC; 0x1F600]) ++ 0 :: [0xFF]) = [0x47; 0xFC; 0x20AC; 0x1F600] ∧
  sqlite3Utf8CharLen (concat (WRITE_UTF8 <$> [0x47; 0xFC; 0x20AC; 0x1F600]) ++ 0 :: [0xFF]) (-1) = Some 4.
Proof.
  apply (chars_WRITE_UTF8 [0x47; 0xFC; 0x20AC; 0x1F600] [0xFF]).
  - repeat (constructor; [unfold clean; lia|]). constructor.
  - constructor; [unfold uint; lia|constructor].
Defined.
