(* ===== verification/Like.v ===== *)
(** * LIKE and GLOB

    The model of [struct compareInfo], [patternCompare], [sqlite3_strglob],
    [sqlite3_strlike] and [likeFunc] of sqlite3.c.

    A pointer into the pattern or the string is the list of the bytes from
    there to the end of its buffer, so two pointers into one buffer are equal
    when the lists are. A read past the end and a loop that exhausts its fuel
    are [None]. Each inner loop has a function of its own; the ones that call
    [patternCompare] again take that call as the argument [rec]. *)
From S2P Require Import Prelude Ctype Utf8.
From stdpp Require Import strings.
Local Open Scope Z_scope.

Record compareInfo := {
  matchAll : Z;    (* "*" or "%" *)
  matchOne : Z;    (* "?" or "_" *)
  matchSet : Z;    (* "[" or 0 *)
  noCase : bool    (* true to ignore case differences *)
}.

Definition globInfo : compareInfo :=
  {| matchAll := 42; matchOne := 63; matchSet := 91; noCase := false |}.
Definition likeInfoNorm : compareInfo :=
  {| matchAll := 37; matchOne := 95; matchSet := 0; noCase := true |}.
Definition likeInfoAlt : compareInfo :=
  {| matchAll := 37; matchOne := 95; matchSet := 0; noCase := false |}.

Section patternCompare.
Context (pInfo : compareInfo) (matchOther : Z).

(** [while( (c=Utf8Read(zPattern))==matchAll || c==matchOne ) ...]: [None] for
    the return of 0, or the character, the pointers before and after it in the
    pattern, and the pointer in the string. *)
Fixpoint skip_stars (fuel : nat) (zPattern zString : list Z)
    : option (option (Z * list Z * list Z * list Z)) :=
  match fuel with
  | O => None
  | S fuel =>
    '(c, zNext) ← Utf8Read zPattern;
    if (c =? matchAll pInfo) || (c =? matchOne pInfo) then
      if c =? matchOne pInfo then
        '(c2, zString) ← sqlite3Utf8Read zString;
        if c2 =? 0 then Some None else skip_stars fuel zNext zString
      else skip_stars fuel zNext zString
    else Some (Some (c, zPattern, zNext, zString))
  end.

(** [while( *zString && patternCompare(...)==0 ) SQLITE_SKIP_UTF8(zString)]
    and [return *zString!=0]. *)
Fixpoint search_set (fuel : nat) (rec : list Z → option bool) (zString : list Z) : option bool :=
  match fuel with
  | O => None
  | S fuel =>
    x ← head zString;
    if x =? 0 then Some false
    else
      b ← rec zString;
      if (b : bool) then Some true
      else zString ← SQLITE_SKIP_UTF8 zString; search_set fuel rec zString
  end.

(** [while( (c2 = *(zString++))!=0 ) ...; return 0]. *)
Fixpoint search_byte (rec : list Z → option bool) (c cx : Z) (zString : list Z) : option bool :=
  match zString with
  | [] => None
  | c2 :: zString =>
    if c2 =? 0 then Some false
    else if negb (c2 =? c) && negb (c2 =? cx) then search_byte rec c cx zString
    else
      b ← rec zString;
      if (b : bool) then Some true else search_byte rec c cx zString
  end.

(** [while( (c2 = Utf8Read(zString))!=0 ) ...; return 0]. *)
Fixpoint search_char (fuel : nat) (rec : list Z → option bool) (c : Z) (zString : list Z) : option bool :=
  match fuel with
  | O => None
  | S fuel =>
    '(c2, zString) ← Utf8Read zString;
    if c2 =? 0 then Some false
    else if negb (c2 =? c) then search_char fuel rec c zString
    else
      b ← rec zString;
      if (b : bool) then Some true else search_char fuel rec c zString
  end.

(** The search for a given character [c]. *)
Definition search_from (rec : list Z → option bool) (c : Z) (zString : list Z) : option bool :=
  if c <=? 0x80 then
    if noCase pInfo
    then search_byte rec (sqlite3Tolower c) (sqlite3Toupper c) zString
    else search_byte rec c c zString
  else search_char (S (length zString)) rec c zString.

(** [while( c2 && c2!=']' ) ...], with the character [c] of the string: the
    last character read, [seen] and the pointer into the pattern. *)
Fixpoint set_loop (fuel : nat) (c : Z) (zPattern : list Z) (c2 prior_c : Z) (seen : bool)
    : option (Z * bool * list Z) :=
  match fuel with
  | O => None
  | S fuel =>
    if negb (c2 =? 0) && negb (c2 =? 93) then
      range ← (if c2 =? 45
               then p0 ← head zPattern; Some (negb (p0 =? 93) && negb (p0 =? 0) && (0 <? prior_c))
               else Some false);
      '(zPattern, prior_c, seen) ←
        (if (range : bool) then
           '(c2, zPattern) ← sqlite3Utf8Read zPattern;
           Some (zPattern, 0, seen || (prior_c <=? c) && (c <=? c2))
         else Some (zPattern, c2, seen || (c =? c2)));
      '(c2, zPattern) ← sqlite3Utf8Read zPattern;
      set_loop fuel c zPattern c2 prior_c seen
    else Some (c2, seen, zPattern)
  end.

(** The match of a [...] in the pattern: [None] for the return of 0, or the
    pointers after the set and after the character. *)
Definition match_set (zPattern zString : list Z) : option (option (list Z * list Z)) :=
  '(c, zString) ← sqlite3Utf8Read zString;
  if c =? 0 then Some None else
  '(c2, zPattern) ← sqlite3Utf8Read zPattern;
  '(invert, c2, zPattern) ←
    (if c2 =? 94 then '(c2, zPattern) ← sqlite3Utf8Read zPattern; Some (true, c2, zPattern)
     else Some (false, c2, zPattern));
  '(seen, c2, zPattern) ←
    (if c2 =? 93 then '(c2, zPattern) ← sqlite3Utf8Read zPattern; Some (c =? 93, c2, zPattern)
     else Some (false, c2, zPattern));
  '(c2, seen, zPattern) ← set_loop (S (S (length zPattern))) c zPattern c2 0 seen;
  if (c2 =? 0) || negb (xorb seen invert) then Some None else Some (Some (zPattern, zString)).

(** The comparison of the character [c] of the pattern, whose successor is
    [zPattern], with the next one of the string; [rec] is the next iteration. *)
Definition compare_char (rec : option (list Z) → list Z → list Z → option bool) (c : Z)
    (zEscaped : option (list Z)) (zPattern zString : list Z) : option bool :=
  '(c2, zString) ← Utf8Read zString;
  if c =? c2 then rec zEscaped zPattern zString
  else if noCase pInfo && (sqlite3Tolower c =? sqlite3Tolower c2) && (c <? 0x80) && (c2 <? 0x80)
  then rec zEscaped zPattern zString
  else if (c =? matchOne pInfo) && negb (bool_decide (Some zPattern = zEscaped)) && negb (c2 =? 0)
  then rec zEscaped zPattern zString
  else Some false.

(** The loop of [patternCompare]. *)
Fixpoint pattern_loop (fuel : nat) (zEscaped : option (list Z)) (zPattern zString : list Z) : option bool :=
  match fuel with
  | O => None
  | S fuel =>
    '(c, zNext) ← Utf8Read zPattern;
    if c =? 0 then s0 ← head zString; Some (s0 =? 0)
    else if c =? matchAll pInfo then
      r ← skip_stars (S (length zNext)) zNext zString;
      match r with
      | None => Some false
      | Some (c, zBefore, zNext, zString) =>
        if c =? 0 then Some true
        else if c =? matchOther then
          if matchSet pInfo =? 0 then
            '(c, zNext) ← sqlite3Utf8Read zNext;
            if c =? 0 then Some false
            else search_from (pattern_loop fuel None zNext) c zString
          else
            (* &zPattern[-1] is the '[' just read *)
            search_set (S (length zString)) (pattern_loop fuel None zBefore) zString
        else search_from (pattern_loop fuel None zNext) c zString
      end
    else if c =? matchOther then
      if matchSet pInfo =? 0 then
        '(c, zNext) ← sqlite3Utf8Read zNext;
        if c =? 0 then Some false else compare_char (pattern_loop fuel) c (Some zNext) zNext zString
      else
        r ← match_set zNext zString;
        match r with
        | None => Some false
        | Some (zPattern, zString) => pattern_loop fuel zEscaped zPattern zString
        end
    else compare_char (pattern_loop fuel) c zEscaped zNext zString
  end.

End patternCompare.

Definition patternCompare (zPattern zString : list Z) (pInfo : compareInfo) (matchOther : Z) : option bool :=
  pattern_loop pInfo matchOther (S (length zPattern)) None zPattern zString.

(** Zero for a match. *)
Definition sqlite3_strglob (zGlobPattern zString : list Z) : option bool :=
  negb <$> patternCompare zGlobPattern zString globInfo 91.

Definition sqlite3_strlike (zPattern zStr : list Z) (esc : Z) : option bool :=
  negb <$> patternCompare zPattern zStr likeInfoNorm esc.

(** ** The SQL functions

    A value is the text that [sqlite3_value_text] returns, or [None] for a null
    pointer, and the length that [sqlite3_value_bytes] returns. *)
Record sqlite3_value := { value_text : option (list Z); value_bytes : Z }.

Inductive sql_result :=
  | ResultNone
  | ResultError (msg : string)
  | ResultInt (b : bool).

(** [argv2] is the third argument, if there is one; [limit] is
    [db->aLimit[SQLITE_LIMIT_LIKE_PATTERN_LENGTH]]. *)
Definition likeFunc (pInfo : compareInfo) (limit : Z) (argv0 argv1 : sqlite3_value)
    (argv2 : option sqlite3_value) : option sql_result :=
  let zB := value_text argv0 in
  let zA := value_text argv1 in
  let nPat := value_bytes argv0 in
  if limit <? nPat then Some (ResultError "LIKE or GLOB pattern too complex"%string) else
  (* inl: return; inr: the escape character *)
  escape ←
    match argv2 with
    | Some arg =>
      match value_text arg with
      | None => Some (inl ResultNone)
      | Some zEsc =>
        n ← sqlite3Utf8CharLen zEsc (-1);
        if negb (n =? 1) then Some (inl (ResultError "ESCAPE expression must be a single character"%string))
        else '(escape, _) ← sqlite3Utf8Read zEsc; Some (inr escape)
      end
    | None => Some (inr (matchSet pInfo))
    end;
  match escape with
  | inl result => Some result
  | inr escape =>
    match zA, zB with
    | Some zA, Some zB => b ← patternCompare zB zA pInfo escape; Some (ResultInt b)
    | _, _ => Some ResultNone
    end
  end.
