(* ===== verification/LikeSpec.v ===== *)
(** * LIKE and GLOB: the pattern language

    A pattern is a sequence of tokens, read from its characters; which strings
    of characters a sequence of tokens matches is an inductive relation. *)
From S2P Require Import Prelude Ctype Utf8 Like.
Local Open Scope Z_scope.

(** ** Tokens *)

Inductive tok :=
  | TAny                                            (* any sequence of characters *)
  | TOne                                            (* any character *)
  | TChar (c : Z)                                   (* the character, up to case *)
  | TSet (invert : bool) (items : list (Z * Z))     (* a character in one of the ranges, or in none *)
  | TBad.                                           (* an incomplete set or escape: nothing *)

(** The items of a set up to the closing bracket. [prior] is the character
    that may start a range, or 0. *)
Fixpoint set_items (cs : list Z) (prior : Z) : option (list (Z * Z) * list Z) :=
  match cs with
  | [] => None
  | c :: cs =>
    if c =? 93 then Some ([], cs)
    else
      match cs with
      | hi :: cs' =>
        if (c =? 45) && negb (hi =? 93) && (0 <? prior)
        then '(items, rest) ← set_items cs' 0; Some ((prior, hi) :: items, rest)
        else '(items, rest) ← set_items cs c; Some ((c, c) :: items, rest)
      | [] => None
      end
  end.

(** The rest of the characters after [x], if they start with it. *)
Definition strip (x : Z) (cs : list Z) : bool * list Z :=
  match cs with
  | c :: cs' => if c =? x then (true, cs') else (false, cs)
  | [] => (false, [])
  end.

(** A set after its opening bracket: whether it is inverted, its items, the
    characters after it. A closing bracket that comes first is an item. *)
Definition set_token (cs : list Z) : option (bool * list (Z * Z) * list Z) :=
  let '(invert, cs) := strip 94 cs in
  let '(closing, cs) := strip 93 cs in
  '(items, rest) ← set_items cs 0;
  Some (invert, if closing then (93, 93) :: items else items, rest).

Section language.
Context (pInfo : compareInfo) (matchOther : Z).

Fixpoint tokens_upto (n : nat) (cs : list Z) : list tok :=
  match n, cs with
  | S n, c :: cs =>
    if c =? matchAll pInfo then TAny :: tokens_upto n cs
    else if c =? matchOther then
      if matchSet pInfo =? 0 then
        match cs with
        | [] => [TBad]
        | c :: cs => TChar c :: tokens_upto n cs
        end
      else
        match set_token cs with
        | Some (invert, items, cs) => TSet invert items :: tokens_upto n cs
        | None => [TBad]
        end
    else if c =? matchOne pInfo then TOne :: tokens_upto n cs
    else TChar c :: tokens_upto n cs
  | _, _ => []
  end.

Definition tokens (cs : list Z) : list tok := tokens_upto (length cs) cs.

(** ** Matching *)

(** The same character, up to the case of ASCII letters where the comparison
    ignores case. *)
Definition char_eq (c d : Z) : Prop :=
  c = d ∨ noCase pInfo = true ∧ c < 0x80 ∧ d < 0x80 ∧ ascii_lower c = ascii_lower d.

Definition in_items (c : Z) (items : list (Z * Z)) : bool :=
  existsb (λ i, (i.1 <=? c) && (c <=? i.2)) items.

Inductive matches : list tok → list Z → Prop :=
  | matches_nil : matches [] []
  | matches_any_none ts s : matches ts s → matches (TAny :: ts) s
  | matches_any_some ts c s : matches (TAny :: ts) s → matches (TAny :: ts) (c :: s)
  | matches_one ts c s : matches ts s → matches (TOne :: ts) (c :: s)
  | matches_char ts c d s : char_eq c d → matches ts s → matches (TChar c :: ts) (d :: s)
  | matches_set ts invert items c s :
      in_items c items = negb invert → matches ts s → matches (TSet invert items :: ts) (c :: s).
End language.

(** The parameters with which the pattern matcher is called: the special
    characters are distinct ASCII characters, and [matchOther] is the bracket or
    an escape character (0 for none). *)
Definition info_ok (pInfo : compareInfo) (matchOther : Z) : Prop :=
  0 < matchAll pInfo < 0x80 ∧ 0 < matchOne pInfo < 0x80 ∧ matchAll pInfo ≠ matchOne pInfo ∧
  (matchSet pInfo = 0 ∨ matchOther = 91).

(** ** The language *)

Section matches.
Context (pInfo : compareInfo).
Implicit Types (ts : list tok) (s : list Z).
Local Abbreviation matches := (matches pInfo).

Lemma matches_any ts s : matches (TAny :: ts) s ↔ ∃ s1 s2, s = s1 ++ s2 ∧ matches ts s2.
Proof.
  split.
  - intros H. remember (TAny :: ts) as ts' eqn:E. revert ts E.
    induction H; intros ts' [= ->] || intros ts' [=].
    + by exists [], s.
    + destruct (IHmatches ts' eq_refl) as (s1 & s2 & -> & ?). by exists (c :: s1), s2.
  - intros (s1 & s2 & -> & H). induction s1; cbn [app]; by constructor.
Qed.

Lemma matches_any_end s : matches [TAny] s.
Proof. apply matches_any. exists s, []. rewrite app_nil_r. split; [done|constructor]. Qed.

Lemma matches_any_any ts s : matches (TAny :: TAny :: ts) s ↔ matches (TAny :: ts) s.
Proof.
  rewrite (matches_any (TAny :: ts)). split.
  - intros (s1 & s2 & -> & (s3 & s4 & -> & ?)%matches_any). apply matches_any.
    exists (s1 ++ s3), s4. by rewrite app_assoc.
  - intros ?. by exists [], s.
Qed.

Lemma matches_any_one ts s :
  matches (TAny :: TOne :: ts) s ↔ ∃ c s', s = c :: s' ∧ matches (TAny :: ts) s'.
Proof.
  setoid_rewrite matches_any. split.
  - intros (s1 & s2 & -> & H). inversion_clear H as [| | |? c s ?| |].
    destruct s1 as [|d s1]; cbn [app]; [by eexists _, _; split; [done|]; exists [], s|].
    eexists _, _. split; [done|]. exists (s1 ++ [c]), s. by rewrite <-app_assoc.
  - intros (c & s' & -> & (s1 & s2 & -> & ?)).
    destruct (decide (s1 = [])) as [->|Hne]; [exists [], (c :: s2); split; [done|by constructor]|].
    destruct (exists_last Hne) as (s3 & d & ->).
    exists (c :: s3), (d :: s2). cbn [app]. rewrite <-app_assoc. split; [done|]. by constructor.
Qed.

Lemma matches_nil_l s : matches [] s ↔ s = [].
Proof. split; [by inversion 1|intros ->; constructor]. Qed.

Lemma matches_one_l ts s : matches (TOne :: ts) s ↔ ∃ c s', s = c :: s' ∧ matches ts s'.
Proof. split; [inversion 1; eauto|intros (? & ? & -> & ?); by constructor]. Qed.

Lemma matches_char_l ts c s :
  matches (TChar c :: ts) s ↔ ∃ d s', s = d :: s' ∧ char_eq pInfo c d ∧ matches ts s'.
Proof. split; [inversion 1; eauto 10|intros (? & ? & -> & ? & ?); by constructor]. Qed.

Lemma matches_set_l ts invert items s :
  matches (TSet invert items :: ts) s ↔
  ∃ c s', s = c :: s' ∧ in_items c items = negb invert ∧ matches ts s'.
Proof. split; [inversion 1; eauto 10|intros (? & ? & -> & ? & ?); by constructor]. Qed.

Lemma matches_bad ts s : ¬ matches (TBad :: ts) s.
Proof. inversion 1. Qed.

Lemma matches_any_bad s : ¬ matches [TAny; TBad] s.
Proof. intros (? & ? & ? & []%matches_bad)%matches_any. Qed.
End matches.

(** ** Tokens of a pattern *)

Section tokens.
Context (pInfo : compareInfo) (matchOther : Z).
Implicit Types (cs : list Z) (c : Z).

(** The characters after the items are a proper suffix. *)
Lemma set_items_suffix cs prior items rest :
  set_items cs prior = Some (items, rest) → ∃ c pre, cs = c :: pre ++ rest.
Proof.
  remember (length cs) as n eqn:En. revert cs prior items rest En.
  induction (lt_wf n) as [n _ IH]. intros [|c cs] prior items rest ->; cbn [set_items]; [done|].
  destruct (c =? 93); [intros [= <- <-]; by exists c, []|].
  destruct cs as [|hi cs]; [done|].
  destruct (_ && _ && _).
  - destruct (set_items cs 0) as [[it r]|] eqn:E; [|done]. intros [= <- <-].
    apply (IH (length cs)) in E as (c' & pre & ->); [|cbn [length]; lia|done]. by exists c, (hi :: c' :: pre).
  - destruct (set_items (hi :: cs) c) as [[it r]|] eqn:E; [|done]. intros [= <- <-].
    apply (IH (length (hi :: cs))) in E as (c' & pre & ->); [|cbn [length]; lia|done]. by exists c, (c' :: pre).
Qed.

Lemma strip_suffix x cs : ∃ pre, cs = pre ++ (strip x cs).2.
Proof. destruct cs as [|c cs]; cbn [strip]; [by exists []|]. destruct (c =? x); [by exists [c]|by exists []]. Qed.

Lemma set_token_suffix cs invert items rest :
  set_token cs = Some (invert, items, rest) → ∃ pre c pre', cs = pre ++ c :: pre' ++ rest.
Proof.
  unfold set_token. destruct (strip_suffix 94 cs) as [pre1 E1]. destruct (strip 94 cs) as [i cs1].
  destruct (strip_suffix 93 cs1) as [pre2 E2]. destruct (strip 93 cs1) as [cl cs2]. cbn [snd] in *.
  destruct (set_items cs2 0) as [[it r]|] eqn:E; [|done]. intros [= _ _ <-].
  apply set_items_suffix in E as (c & pre3 & ->). subst. exists (pre1 ++ pre2), c, pre3. by rewrite <-app_assoc.
Qed.

Lemma set_token_length cs invert items rest :
  set_token cs = Some (invert, items, rest) → (length rest < length cs)%nat.
Proof. intros (? & ? & ? & ->)%set_token_suffix. rewrite length_app. cbn [length]. rewrite length_app. lia. Qed.

Lemma set_token_in cs invert items rest x :
  set_token cs = Some (invert, items, rest) → x ∈ rest → x ∈ cs.
Proof. intros (? & ? & ? & ->)%set_token_suffix. set_solver. Qed.

Lemma tokens_upto_fuel n m cs :
  (length cs ≤ n)%nat → (length cs ≤ m)%nat →
  tokens_upto pInfo matchOther n cs = tokens_upto pInfo matchOther m cs.
Proof.
  revert m cs. induction n as [|n IH]; intros m [|c cs] Hn Hm; cbn [length] in *;
    [by destruct m|lia|by destruct m|]. destruct m as [|m]; [lia|]. cbn [tokens_upto].
  rewrite !(IH m cs) by lia. repeat case_match; try done; subst; cbn [length] in *; f_equal; apply IH;
    try match goal with H : set_token _ = Some _ |- _ => apply set_token_length in H end; lia.
Qed.

(** The equation of [tokens]. *)
Lemma tokens_cons c cs :
  tokens pInfo matchOther (c :: cs) =
    if c =? matchAll pInfo then TAny :: tokens pInfo matchOther cs
    else if c =? matchOther then
      if matchSet pInfo =? 0 then
        match cs with
        | [] => [TBad]
        | c :: cs => TChar c :: tokens pInfo matchOther cs
        end
      else
        match set_token cs with
        | Some (invert, items, cs) => TSet invert items :: tokens pInfo matchOther cs
        | None => [TBad]
        end
    else if c =? matchOne pInfo then TOne :: tokens pInfo matchOther cs
    else TChar c :: tokens pInfo matchOther cs.
Proof.
  unfold tokens at 1. cbn [length tokens_upto]. unfold tokens.
  repeat case_match; try done; subst; f_equal; apply tokens_upto_fuel; cbn [length];
    try match goal with H : set_token _ = Some _ |- _ => apply set_token_length in H end; lia.
Qed.
End tokens.
