(* ===== verification/LikeProofs.v ===== *)
(** * LIKE and GLOB: proofs and properties

    Every loop of [patternCompare] ends within its buffers, and the search the
    code performs decides the matching relation on the characters of the
    pattern and the string; what [patternCompare] and the SQL functions built on
    it guarantee, and the two corners in which they do not do what they are
    meant to. *)
From S2P Require Import Prelude Ctype Utf8 Utf8Proofs Like LikeSpec.
From stdpp Require Import strings.
Local Open Scope Z_scope.

(** ** Reading from a string *)

Section reading.
Implicit Types (z : list Z) (c b : Z).

Lemma read_cases z :
  cstr z →
  (∃ z', sqlite3Utf8Read z = Some (0, z') ∧ chars z = []) ∨
  (∃ c z', sqlite3Utf8Read z = Some (c, z') ∧ c ≠ 0 ∧ cstr z' ∧ (length z' < length z)%nat ∧
           chars z = c :: chars z').
Proof.
  intros Hz. destruct (cstr_chars z Hz) as [(z' & -> & Hc)|(b & z0 & c & z' & -> & ? & ? & ? & ? & ? & ? & _)].
  - left. exists z'. by rewrite utf8_read_small by lia.
  - right. exists c, z'. split_and!; try done. cbn [length]. lia.
Qed.

(** The first byte of a string and its first character. *)
Lemma head_cases z :
  cstr z →
  ∃ b, head z = Some b ∧ (b =? 0) = match chars z with [] => true | _ => false end ∧
       ∀ x, 0 < x < 0x80 → (b =? x) = match chars z with [] => false | c :: _ => c =? x end.
Proof.
  intros Hz. destruct (cstr_chars z Hz) as [(z' & -> & ->)|(b & z0 & c & z' & -> & ? & ? & ? & ? & ? & -> & Hbc)].
  - exists 0. split_and!; try done. intros x Hx. destruct (Z.eqb_spec 0 x); [lia|done].
  - exists b. split_and!; [done|by apply Z.eqb_neq|]. intros x Hx.
    destruct Hbc as [(? & -> & ?)|[? ?]]; [done|].
    destruct (Z.eqb_spec b x), (Z.eqb_spec c x); done || lia.
Qed.

Lemma read_shorter z c z' : sqlite3Utf8Read z = Some (c, z') → (length z' < length z)%nat.
Proof.
  assert (∀ z c c' z', utf8_continue c z = Some (c', z') → (length z' ≤ length z)%nat) as Hcont.
  { clear. intros z. induction z as [|b z IH]; intros c c' z'; cbn [utf8_continue]; [done|].
    case_match; [intros ?%IH; cbn; lia|]. by intros [= <- <-]. }
  destruct z as [|b z]; cbn [sqlite3Utf8Read]; [done|]. destruct (0xc0 <=? b); [|intros [= <- <-]; cbn; lia].
  destruct (utf8_continue _ z) as [[c' z0]|] eqn:E; [|done]. cbn [mbind option_bind].
  intros [= _ <-]. apply Hcont in E. cbn [length]. lia.
Qed.

Lemma read_pos z c z' : cstr z → sqlite3Utf8Read z = Some (c, z') → 0 ≤ c.
Proof.
  intros Hz Hr.
  destruct (cstr_chars z Hz) as [(z0 & -> & Hc)|(b & z0 & c' & z1 & -> & ? & Hr' & ? & ? & ? & ? & Hbc)].
  - rewrite utf8_read_small in Hr by lia. by injection Hr as <- <-.
  - rewrite Hr in Hr'. injection Hr' as <- <-. destruct Hz as [Hb _]. apply Forall_inv in Hb as [? _].
    destruct Hbc as [(? & -> & _)|[_ ?]]; lia.
Qed.

Lemma cstr_length z : cstr z → (0 < length z)%nat.
Proof. destruct z; [by intros [_ []%elem_of_nil]|cbn [length]; lia]. Qed.

Lemma cstr_tail b z : cstr (b :: z) → b ≠ 0 → cstr z.
Proof.
  intros [Hb [?|Hz]%elem_of_cons] Hne; [done|]. split; [by apply Forall_inv_tail in Hb|done].
Qed.

Lemma chars_ascii b z : cstr (b :: z) → 0 < b < 0x80 → chars (b :: z) = b :: chars z.
Proof. intros Hz Hb. apply chars_cons; [done| |lia]. apply utf8_read_small. lia. Qed.
End reading.

(** ** The searches *)

Section searches.
Context (rec : list Z → option bool) (P : list Z → Prop).
Implicit Types (z s : list Z) (c : Z).

Definition rec_total : Prop := ∀ z, cstr z → is_Some (rec z).
Definition rec_sound : Prop := ∀ z b, cstr z → rec z = Some b → (b = true ↔ P (chars z)).

Lemma search_set_total fuel z :
  rec_total → cstr z → (length z < fuel)%nat → is_Some (search_set fuel rec z).
Proof.
  intros Hrec. revert z. induction fuel as [|fuel IH]; intros z Hz Hf; [lia|]. cbn [search_set].
  destruct (head_cases z Hz) as (b & -> & Hb & _). cbn [mbind option_bind].
  destruct (b =? 0); [by eexists|]. destruct (Hrec z Hz) as [r ->]. cbn [mbind option_bind].
  destruct r; [by eexists|]. rewrite SKIP_read.
  destruct (read_cases z Hz) as [(z' & ? & Hc)|(c & z' & -> & ? & ? & ? & Hc)]; [by rewrite Hc in Hb|].
  cbn [mbind option_bind snd]. apply IH; [done|lia].
Qed.

Lemma search_set_sound fuel z b :
  rec_sound → cstr z → search_set fuel rec z = Some b →
  b = true ↔ ∃ s1 s2, chars z = s1 ++ s2 ∧ s2 ≠ [] ∧ P s2.
Proof.
  intros Hrec. revert z. induction fuel as [|fuel IH]; intros z Hz; cbn [search_set]; [done|].
  destruct (head_cases z Hz) as (x & -> & Hb & _). cbn [mbind option_bind]. rewrite Hb.
  destruct (read_cases z Hz) as [(z' & ? & Hc)|(c & z' & Hr & ? & Hz' & ? & Hc)]; rewrite Hc.
  - intros [= <-]. split; [done|]. by intros ([|] & [|] & ? & ? & ?).
  - destruct (rec z) as [r|] eqn:Er; [|done]. cbn [mbind option_bind].
    apply Hrec in Er; [|done]. rewrite Hc in Er. destruct r.
    + intros [= <-]. split; [intros _|done]. exists [], (c :: chars z'). naive_solver.
    + rewrite SKIP_read, Hr. cbn [mbind option_bind snd]. intros Hs. rewrite (IH z') by done. split.
      * intros (s1 & s2 & -> & ?). by exists (c :: s1), s2.
      * intros ([|x' s1] & s2 & E & ? & ?); cbn [app] in E; [|naive_solver].
        exfalso. subst s2. naive_solver.
Qed.

Lemma search_char_total fuel c z :
  rec_total → cstr z → (length z < fuel)%nat → is_Some (search_char fuel rec c z).
Proof.
  intros Hrec. revert z. induction fuel as [|fuel IH]; intros z Hz Hf; [lia|]. cbn [search_char].
  rewrite Utf8Read_eq.
  destruct (read_cases z Hz) as [(z' & -> & Hc)|(c2 & z' & -> & ? & ? & ? & Hc)]; cbn [mbind option_bind]; [by eexists|].
  destruct (Z.eqb_spec c2 0); [done|]. destruct (negb (c2 =? c)); [apply IH; [done|lia]|].
  destruct (Hrec z') as [r ->]; [done|]. cbn [mbind option_bind]. destruct r; [by eexists|].
  apply IH; [done|lia].
Qed.

(** What a search for a character must find: [Q] is the test of a character. *)
Definition found (Q : Z → Prop) s : Prop := ∃ s1 d s2, s = s1 ++ d :: s2 ∧ Q d ∧ P s2.

Lemma found_nil Q : ¬ found Q [].
Proof. by intros ([|] & ? & ? & ? & ?). Qed.

Lemma found_cons Q d s : found Q (d :: s) ↔ Q d ∧ P s ∨ found Q s.
Proof.
  split.
  - intros ([|x s1] & e & s2 & [= -> ->] & ? & ?); [by left|]. right. by exists s1, e, s2.
  - intros [[? ?]|(s1 & e & s2 & -> & ? & ?)]; [by exists [], d, s|by exists (d :: s1), e, s2].
Qed.

Lemma search_char_sound fuel c z b :
  rec_sound → cstr z → search_char fuel rec c z = Some b → b = true ↔ found (λ d, d = c) (chars z).
Proof.
  intros Hrec. revert z. induction fuel as [|fuel IH]; intros z Hz; cbn [search_char]; [done|].
  rewrite Utf8Read_eq.
  destruct (read_cases z Hz) as [(z' & -> & Hc)|(c2 & z' & -> & ? & ? & ? & Hc)]; cbn [mbind option_bind]; rewrite Hc.
  - intros [= <-]. split; [done|]. by intros ?%found_nil.
  - rewrite found_cons. destruct (Z.eqb_spec c2 0); [done|]. destruct (Z.eqb_spec c2 c) as [->|Hne]; cbn [negb].
    + destruct (rec z') as [r|] eqn:Er; [|done]. cbn [mbind option_bind]. apply Hrec in Er; [|done].
      destruct r; [intros [= <-]; naive_solver|]. intros Hs. rewrite (IH z') by done. naive_solver.
    + intros Hs. rewrite (IH z') by done. naive_solver.
Qed.

Lemma search_byte_total c cx z : rec_total → cstr z → is_Some (search_byte rec c cx z).
Proof.
  intros Hrec. induction z as [|b z IH]; intros Hz; [by destruct Hz as [_ []%elem_of_nil]|].
  cbn [search_byte]. destruct (Z.eqb_spec b 0); [by eexists|]. apply cstr_tail in Hz; [|done].
  destruct (_ && _); [by apply IH|]. destruct (Hrec z Hz) as [r ->]. cbn [mbind option_bind].
  destruct r; [by eexists|by apply IH].
Qed.

(** The search by bytes passes over the bytes that continue a character. *)
Lemma search_byte_skip c cx z z' :
  c < 0x80 → cx < 0x80 → bytes_ok z → utf8_skip_continue z = Some z' →
  search_byte rec c cx z = search_byte rec c cx z'.
Proof.
  intros Hc Hcx. induction z as [|b z IH]; intros Hb; cbn [utf8_skip_continue]; [done|].
  pose proof (Forall_inv Hb) as Hb0. apply Forall_inv_tail in Hb.
  change (Z.land b 0xc0 =? 0x80) with (continues b). rewrite continues_range by done.
  destruct (Z.leb_spec 0x80 b); [|by intros [= <-]]. destruct (Z.ltb_spec b 0xc0); [|by intros [= <-]].
  cbn [andb]. intros Hs. rewrite <-IH by done. cbn [search_byte].
  destruct (Z.eqb_spec b 0), (Z.eqb_spec b c), (Z.eqb_spec b cx); try lia. done.
Qed.

Lemma search_byte_sound c cx z b :
  rec_sound → c < 0x80 → cx < 0x80 → cstr z → search_byte rec c cx z = Some b →
  b = true ↔ found (λ d, d = c ∨ d = cx) (chars z).
Proof.
  intros Hrec Hc Hcx. remember (length z) as n eqn:En. revert z En.
  induction (lt_wf n) as [n _ IH]. intros z -> Hz.
  destruct (cstr_chars z Hz) as [(z' & -> & ->)|(x & z0 & d & z' & -> & Hx & Hr & Hd & Hz' & ? & -> & Hxd)];
    cbn [search_byte].
  { intros [= <-]. split; [done|]. by intros ?%found_nil. }
  destruct (Z.eqb_spec x 0); [done|]. rewrite found_cons.
  destruct Hxd as [(? & -> & ->)|[Hx80 Hd80]].
  - specialize (IH (length z0) ltac:(cbn [length]; lia) z0 eq_refl Hz').
    destruct (Z.eqb_spec x c) as [E1|E1], (Z.eqb_spec x cx) as [E2|E2]; cbn [negb andb];
      [..|intros Hs; rewrite IH by done; naive_solver].
    all: destruct (rec z0) as [r|] eqn:Er; [|done]; cbn [mbind option_bind]; apply Hrec in Er; [|done];
      destruct r; [intros [= <-]; naive_solver|]; intros Hs; rewrite IH by done; naive_solver.
  - destruct (Z.eqb_spec x c), (Z.eqb_spec x cx); cbn [negb andb]; try lia.
    intros Hs. destruct (SKIP_read (x :: z0)).
    assert (search_byte rec c cx z' = Some b) as Hs'.
    { pose proof (SKIP_read (x :: z0)) as Hsk. rewrite Hr in Hsk. cbn [mbind option_bind snd SQLITE_SKIP_UTF8] in Hsk.
      destruct (0xc0 <=? x); [|by injection Hsk as <-].
      rewrite <-(search_byte_skip c cx z0 z'); [done..| |done]. destruct Hz as [Hz _].
      by apply Forall_inv_tail in Hz. }
    rewrite (IH (length z')) by (done || cbn [length]; lia). naive_solver lia.
Qed.
End searches.

(** ** The character that follows the wildcard *)

Section search_from.
Context (pInfo : compareInfo) (rec : list Z → option bool) (P : list Z → Prop).

Lemma search_from_total c z : rec_total rec → cstr z → is_Some (search_from pInfo rec c z).
Proof.
  intros Hrec Hz. unfold search_from. destruct (c <=? 0x80).
  - destruct (noCase pInfo); by apply search_byte_total.
  - apply search_char_total; done || lia.
Qed.

Lemma found_ext (Q Q' : Z → Prop) s : (∀ d, Q d ↔ Q' d) → found P Q s ↔ found P Q' s.
Proof.
  intros HQ. split; intros (s1 & d & s2 & ? & ? & ?); exists s1, d, s2; split_and!; try done; by apply HQ.
Qed.

Lemma search_from_sound c z b :
  rec_sound rec P → 0 < c → c ≠ 0x80 → cstr z → search_from pInfo rec c z = Some b →
  b = true ↔ found P (char_eq pInfo c) (chars z).
Proof.
  intros Hrec Hc0 Hc Hz. unfold search_from, char_eq. destruct (Z.leb_spec c 0x80).
  - assert (byte_ok c) by (unfold uint; lia). destruct (noCase pInfo).
    + rewrite sqlite3Tolower_ascii, sqlite3Toupper_ascii by done. intros Hs.
      assert (ascii_lower c < 0x80 ∧ ascii_upper c < 0x80) as [Hl Hu]
        by (unfold ascii_lower, ascii_upper; repeat case_match; lia).
      rewrite (search_byte_sound rec P _ _ z b Hrec Hl Hu Hz Hs). apply found_ext. intros d.
      rewrite <-ascii_same_case. split; [|intros [->|]; naive_solver].
      intros E. destruct (decide (d < 0x80)) as [Hd|Hd]; [right; split_and!; done || lia|].
      left. assert (ascii_lower d = d) as Ed by (unfold ascii_lower; repeat case_match; lia). lia.
    + intros Hs. assert (c < 0x80) as Hlt by lia.
      rewrite (search_byte_sound rec P _ _ z b Hrec Hlt Hlt Hz Hs). apply found_ext. naive_solver.
  - intros Hs. rewrite (search_char_sound rec P _ _ z b Hrec Hz Hs). apply found_ext.
    intros d. split; [by left|]. intros [?|(? & ? & ?)]; [done|lia].
Qed.

End search_from.

Lemma found_matches pInfo ts c s :
  found (matches pInfo ts) (char_eq pInfo c) s ↔ matches pInfo (TAny :: TChar c :: ts) s.
Proof.
  rewrite matches_any. unfold found. setoid_rewrite matches_char_l. naive_solver.
Qed.

(** ** The wildcards *)

Section patterns.
Context (pInfo : compareInfo) (matchOther : Z).
Hypothesis Hinfo : info_ok pInfo matchOther.
Implicit Types (zPattern zString : list Z).
Local Abbreviation matches := (matches pInfo).
Local Abbreviation tokens := (tokens pInfo matchOther).

Lemma skip_stars_spec fuel zPattern zString :
  cstr zPattern → cstr zString → (length zPattern < fuel)%nat →
  ∃ r, skip_stars pInfo fuel zPattern zString = Some r ∧
    match r with
    | None =>
      matchOther ≠ matchOne pInfo → ¬ matches (TAny :: tokens (chars zPattern)) (chars zString)
    | Some (c, zBefore, zNext, zString') =>
      cstr zBefore ∧ sqlite3Utf8Read zBefore = Some (c, zNext) ∧ cstr zString' ∧
      (length zBefore ≤ length zPattern)%nat ∧ c ≠ matchAll pInfo ∧ c ≠ matchOne pInfo ∧
      (∀ x, x ∈ chars zBefore → x ∈ chars zPattern) ∧
      (matchOther ≠ matchOne pInfo →
       matches (TAny :: tokens (chars zPattern)) (chars zString) ↔
       matches (TAny :: tokens (chars zBefore)) (chars zString'))
    end.
Proof.
  destruct Hinfo as (Hall & Hone & Hneq & _).
  revert zPattern zString. induction fuel as [|fuel IH]; intros zP zS HP HS Hf; [lia|].
  cbn [skip_stars]. rewrite Utf8Read_eq.
  destruct (read_cases zP HP) as [(z' & Hr & Hc)|(c & zN & Hr & ? & HN & ? & Hc)]; rewrite Hr; cbn [mbind option_bind].
  { destruct (Z.eqb_spec 0 (matchAll pInfo)), (Z.eqb_spec 0 (matchOne pInfo)); try lia. cbn [orb].
    eexists. split; [done|]. split_and!; done || lia. }
  destruct (Z.eqb_spec c (matchOne pInfo)) as [->|Hne1].
  - rewrite orb_true_r.
    destruct (read_cases zS HS) as [(s' & Hrs & Hcs)|(d & s' & Hrs & ? & HS' & ? & Hcs)];
      rewrite Hrs; cbn [mbind option_bind].
    + eexists. split; [done|]. cbn beta iota. intros Hoth. rewrite Hc, Hcs, tokens_cons.
      destruct (Z.eqb_spec (matchOne pInfo) (matchAll pInfo)); [lia|].
      destruct (Z.eqb_spec (matchOne pInfo) matchOther); [lia|]. rewrite Z.eqb_refl.
      by intros (? & ? & ? & _)%matches_any_one.
    + destruct (Z.eqb_spec d 0); [done|].
      destruct (IH zN s') as (r & -> & Hr'); [done..|lia|]. eexists. split; [done|].
      assert (matchOther ≠ matchOne pInfo →
        matches (TAny :: tokens (chars zP)) (chars zS) ↔ matches (TAny :: tokens (chars zN)) (chars s')) as Hstep.
      { intros Hoth. rewrite Hc, Hcs, tokens_cons.
        destruct (Z.eqb_spec (matchOne pInfo) (matchAll pInfo)); [lia|].
        destruct (Z.eqb_spec (matchOne pInfo) matchOther); [lia|]. rewrite Z.eqb_refl.
        rewrite matches_any_one. naive_solver. }
      destruct r as [[[[c zB] zN'] zS']|]; cbn beta iota in *.
      * destruct Hr' as (? & ? & ? & ? & ? & ? & Hin & Hiff). split_and!; try done; [lia| |].
        -- rewrite Hc. intros x ?%Hin. by right.
        -- intros Hoth. by rewrite Hstep, Hiff.
      * intros Hoth. rewrite Hstep by done. auto.
  - rewrite orb_false_r. destruct (Z.eqb_spec c (matchAll pInfo)) as [->|Hne2].
    + destruct (IH zN zS) as (r & -> & Hr'); [done..|lia|]. eexists. split; [done|].
      assert (matches (TAny :: tokens (chars zP)) (chars zS) ↔ matches (TAny :: tokens (chars zN)) (chars zS)) as Hstep.
      { rewrite Hc, tokens_cons, Z.eqb_refl. apply matches_any_any. }
      destruct r as [[[[c zB] zN'] zS']|]; cbn beta iota in *.
      * destruct Hr' as (? & ? & ? & ? & ? & ? & Hin & Hiff). split_and!; try done; [lia| |].
        -- rewrite Hc. intros x ?%Hin. by right.
        -- intros Hoth. by rewrite Hstep, Hiff.
      * intros Hoth. rewrite Hstep. auto.
    + eexists. split; [done|]. split_and!; done.
Qed.

(** ** Sets *)

Lemma in_items_cons c i items : in_items c (i :: items) = (i.1 <=? c) && (c <=? i.2) || in_items c items.
Proof. reflexivity. Qed.

Lemma single_item c d : (c =? d) = (d <=? c) && (c <=? d).
Proof. destruct (Z.eqb_spec c d), (Z.leb_spec d c), (Z.leb_spec c d); done || lia. Qed.

(** The characters from [c2], already read, on. *)
Definition read_chars (c2 : Z) (zPattern : list Z) : list Z := if c2 =? 0 then [] else c2 :: chars zPattern.

Lemma read_chars_read zPattern :
  cstr zPattern → ∃ c2 z', sqlite3Utf8Read zPattern = Some (c2, z') ∧ read_chars c2 z' = chars zPattern ∧
    (c2 ≠ 0 → cstr z') ∧ (length z' < length zPattern)%nat.
Proof.
  intros Hz. destruct (read_cases zPattern Hz) as [(z' & Hr & ->)|(c & z' & Hr & ? & ? & ? & ->)]; rewrite Hr.
  - exists 0, z'. split_and!; try done. by apply read_shorter in Hr.
  - exists c, z'. unfold read_chars. by destruct (Z.eqb_spec c 0).
Qed.

Lemma set_loop_spec fuel c zPattern c2 prior seen :
  (c2 ≠ 0 → cstr zPattern ∧ (length zPattern < fuel)%nat) → (0 < fuel)%nat →
  ∃ c2' seen' z', set_loop fuel c zPattern c2 prior seen = Some (c2', seen', z') ∧
    match set_items (read_chars c2 zPattern) prior with
    | None => c2' = 0
    | Some (items, rest) =>
      c2' ≠ 0 ∧ cstr z' ∧ (length z' ≤ length zPattern)%nat ∧ chars z' = rest ∧ seen' = seen || in_items c items
    end.
Proof.
  revert zPattern c2 prior seen. induction fuel as [|fuel IH]; intros zP c2 prior seen HP Hf; [lia|].
  cbn [set_loop]. unfold read_chars at 1. destruct (Z.eqb_spec c2 0) as [->|H0].
  { cbn [negb andb set_items]. by eexists _, _, _. }
  destruct HP as [HP HPf]; [done|]. pose proof (cstr_length zP HP). cbn [set_items]. destruct (Z.eqb_spec c2 93) as [->|H93].
  { cbn [negb andb]. eexists _, _, _. split; [done|]. cbn. by rewrite orb_false_r. }
  cbn [negb andb].
  assert (∃ range, (if c2 =? 45
            then p0 ← head zP; Some (negb (p0 =? 93) && negb (p0 =? 0) && (0 <? prior))
            else Some false) = Some range ∧
          range = match chars zP with hi :: _ => (c2 =? 45) && negb (hi =? 93) && (0 <? prior) | [] => false end)
    as (range & -> & Erange).
  { destruct (Z.eqb_spec c2 45); [|by eexists; split; [done|]; case_match].
    destruct (head_cases zP HP) as (p0 & -> & E0 & E93). cbn [mbind option_bind].
    eexists. split; [done|]. rewrite E0, E93 by lia.
    case_match; [done|]. cbn [negb andb]. by rewrite andb_true_r. }
  cbn [mbind option_bind].
  destruct (read_cases zP HP) as [(z' & Hr & Hc)|(hi & zP' & Hr & Hhi & HP' & ? & Hc)]; rewrite Hc in *.
  - subst range. cbn [mbind option_bind]. rewrite Hr. cbn [mbind option_bind].
    destruct (IH z' 0 c2 (seen || (c =? c2))) as (c2' & seen' & z'' & -> & Hs); [done|lia|].
    eexists _, _, _. split; [done|]. exact Hs.
  - destruct range; rewrite <-Erange; cbn [mbind option_bind]; rewrite Hr; cbn [mbind option_bind].
    + destruct (read_chars_read zP' HP') as (c3 & z3 & -> & Hc3 & Hz3 & Hl3). cbn [mbind option_bind].
      destruct (IH z3 c3 0 (seen || (prior <=? c) && (c <=? hi))) as (c2' & seen' & z'' & -> & Hs).
      { intros ?. split; [auto|lia]. }
      { lia. }
      eexists _, _, _. split; [done|]. rewrite Hc3 in Hs.
      destruct (set_items (chars zP') 0) as [[items rest]|]; cbn [mbind option_bind] in *; [|done].
      destruct Hs as (? & ? & ? & ? & ->). split_and!; try done; [lia|].
      rewrite in_items_cons. cbn [fst snd]. by rewrite orb_assoc.
    + destruct (IH zP' hi c2 (seen || (c =? c2))) as (c2' & seen' & z'' & -> & Hs).
      { intros _. split; [done|lia]. }
      { lia. }
      eexists _, _, _. split; [done|]. unfold read_chars in Hs. destruct (Z.eqb_spec hi 0); [done|].
      destruct (set_items (hi :: chars zP') c2) as [[items rest]|]; cbn [mbind option_bind]; [|done].
      destruct Hs as (? & ? & ? & ? & ->). split_and!; try done; [lia|].
      rewrite in_items_cons. cbn [fst snd]. by rewrite single_item, orb_assoc.
Qed.

Lemma strip_read x c2 zPattern :
  0 < x → (c2 ≠ 0 → cstr zPattern) →
  ∃ c3 z', (if c2 =? x then '(c, z) ← sqlite3Utf8Read zPattern; Some (true, c, z) else Some (false, c2, zPattern))
    = Some ((strip x (read_chars c2 zPattern)).1, c3, z') ∧
    read_chars c3 z' = (strip x (read_chars c2 zPattern)).2 ∧
    (length z' ≤ length zPattern)%nat ∧ (c3 ≠ 0 → cstr z').
Proof.
  intros Hx Hz. destruct (decide (c2 = 0)) as [->|Hc2].
  - destruct (Z.eqb_spec 0 x); [lia|]. by exists 0, zPattern.
  - assert (read_chars c2 zPattern = c2 :: chars zPattern) as ->
      by (unfold read_chars; by destruct (Z.eqb_spec c2 0)).
    cbn [strip]. destruct (Z.eqb_spec c2 x) as [->|Hne].
    + destruct (read_chars_read zPattern) as (c3 & z' & -> & ? & ? & ?); [auto|].
      exists c3, z'. cbn [mbind option_bind fst snd]. split_and!; try done. lia.
    + exists c2, zPattern. unfold read_chars. destruct (Z.eqb_spec c2 0); [done|].
      cbn [fst snd]. split_and!; try done; auto.
Qed.

(** The match of a set: it fails on the empty string, on an incomplete set
    and on a character the set does not hold. *)
Lemma match_set_spec zPattern zString :
  cstr zPattern → cstr zString →
  ∃ r, match_set zPattern zString = Some r ∧
    match r with
    | None =>
      match set_token (chars zPattern), chars zString with
      | Some (invert, items, _), c :: _ => in_items c items = invert
      | _, _ => True
      end
    | Some (zP', zS') =>
      cstr zP' ∧ cstr zS' ∧ (length zP' < length zPattern)%nat ∧
      ∃ c invert items, chars zString = c :: chars zS' ∧
        set_token (chars zPattern) = Some (invert, items, chars zP') ∧ in_items c items = negb invert
    end.
Proof.
  intros HP HS. unfold match_set.
  destruct (read_cases zString HS) as [(s' & Hr & Hc)|(c & s' & Hr & Hc0 & HS' & ? & Hc)];
    rewrite Hr, Hc; cbn [mbind option_bind].
  { eexists. split; [done|]. cbn beta iota. by destruct (set_token _) as [[[]]|]. }
  destruct (Z.eqb_spec c 0); [done|].
  destruct (read_chars_read zPattern HP) as (c2 & z2 & -> & Hc2 & Hz2 & Hl2). cbn [mbind option_bind].
  destruct (strip_read 94 c2 z2) as (c3 & z3 & E3 & Hc3 & Hl3 & Hz3); [lia|auto|].
  rewrite Hc2 in E3, Hc3. rewrite E3. cbn [mbind option_bind].
  destruct (strip_read 93 c3 z3) as (c4 & z4 & E4 & Hc4 & Hl4 & Hz4); [lia|auto|].
  rewrite Hc3 in E4, Hc4. unfold set_token.
  destruct (strip 94 (chars zPattern)) as [invert cs3] eqn:Es3. cbn [fst snd] in *.
  destruct (strip 93 cs3) as [closing cs4] eqn:Es4. cbn [fst snd] in *.
  assert ((if c3 =? 93 then '(c2, z) ← sqlite3Utf8Read z3; Some (c =? 93, c2, z) else Some (false, c3, z3))
          = Some (closing && (c =? 93), c4, z4)) as ->.
  { destruct (c3 =? 93).
    - destruct (sqlite3Utf8Read z3) as [[? ?]|]; cbn [mbind option_bind] in *; [|done]. by injection E4 as <- -> ->.
    - by injection E4 as <- -> ->. }
  cbn [mbind option_bind].
  destruct (set_loop_spec (S (S (length z4))) c z4 c4 0 (closing && (c =? 93))) as (c5 & seen & z5 & -> & Hs);
    [intros ?; split; [auto|lia]|lia|].
  rewrite Hc4 in Hs. cbn [mbind option_bind].
  destruct (set_items cs4 0) as [[items rest]|]; cbn [mbind option_bind].
  2:{ subst c5. rewrite orb_true_l. by eexists. }
  destruct Hs as (H5 & ? & ? & <- & ->). destruct (Z.eqb_spec c5 0); [done|]. cbn [orb].
  set (items' := if closing then (93, 93) :: items else items).
  assert (closing && (c =? 93) || in_items c items = in_items c items') as ->.
  { unfold items'. destruct closing; [|done]. rewrite in_items_cons. cbn [fst snd]. by rewrite single_item. }
  destruct (in_items c items') eqn:Ei, invert; cbn [negb xorb].
  all: eexists; split; [done|]; cbn beta iota; rewrite ?Ei; try done.
  all: split_and!; [done..|lia|]; eexists _, _, _; split_and!; try done; by rewrite Ei.
Qed.
(** ** Termination *)

Lemma compare_char_total rec c zEscaped zPattern zString :
  (∀ e z, cstr z → is_Some (rec e zPattern z)) → 0 < c → cstr zString →
  is_Some (compare_char pInfo rec c zEscaped zPattern zString).
Proof.
  intros Hrec Hc HS. unfold compare_char. rewrite Utf8Read_eq.
  destruct (read_cases zString HS) as [(s' & -> & _)|(d & s' & -> & ? & HS' & _)]; cbn [mbind option_bind].
  - destruct (Z.eqb_spec c 0); [lia|]. change (0 =? 0) with true. cbn [negb]. rewrite andb_false_r.
    destruct (noCase pInfo && _ && _ && _) eqn:E; [|by eexists]. exfalso.
    rewrite !andb_true_iff in E. destruct E as [[[_ E] Hlt] _]. apply Z.ltb_lt in Hlt. apply Z.eqb_eq in E.
    rewrite !sqlite3Tolower_ascii in E by (unfold uint; lia). unfold ascii_lower in E.
    repeat case_match; lia.
  - repeat case_match; auto; by eexists.
Qed.

Lemma pattern_loop_total fuel zEscaped zPattern zString :
  cstr zPattern → cstr zString → (length zPattern < fuel)%nat →
  is_Some (pattern_loop pInfo matchOther fuel zEscaped zPattern zString).
Proof.
  revert zEscaped zPattern zString. induction fuel as [|fuel IH]; intros zE zP zS HP HS Hf; [lia|].
  cbn [pattern_loop]. rewrite Utf8Read_eq.
  destruct (read_cases zP HP) as [(z' & Hr & Hc)|(c & zN & Hr & Hc0 & HN & ? & Hc)];
    rewrite Hr; cbn [mbind option_bind].
  { destruct (head_cases zS HS) as (b & -> & _). by eexists. }
  assert (0 < c) by (apply read_pos in Hr; [lia|done]).
  assert (∀ e z, cstr z → is_Some (pattern_loop pInfo matchOther fuel e zN z)) as Hnext
    by (intros; apply IH; done || lia).
  destruct (Z.eqb_spec c 0); [done|]. destruct (c =? matchAll pInfo).
  - destruct (skip_stars_spec (S (length zN)) zN zS) as (r & -> & Hskip); [done..|lia|]. cbn [mbind option_bind].
    destruct r as [[[[c' zB] zN'] zS']|]; [|by eexists].
    destruct Hskip as (HB & Hr' & HS' & HlB & _). destruct (Z.eqb_spec c' 0); [by eexists|].
    destruct (read_cases zB HB) as [(? & ? & _)|(c'' & z'' & ? & _ & HN' & ? & _)]; simplify_eq.
    assert (∀ z, length z < fuel → cstr z → rec_total (pattern_loop pInfo matchOther fuel None z))%nat as Hrec
      by (intros z Hlz Hz s' Hs'; apply IH; done || lia).
    destruct (c' =? matchOther); [destruct (matchSet pInfo =? 0)|].
    + destruct (read_cases zN' HN') as [(? & -> & _)|(c3 & z3 & -> & ? & ? & ? & _)]; cbn [mbind option_bind];
        [by eexists|]. destruct (Z.eqb_spec c3 0); [done|].
      apply search_from_total; [|done]. apply Hrec; done || lia.
    + apply search_set_total; [|done|lia]. apply Hrec; done || lia.
    + apply search_from_total; [|done]. apply Hrec; done || lia.
  - destruct (c =? matchOther); [destruct (matchSet pInfo =? 0)|].
    + destruct (read_cases zN HN) as [(? & -> & _)|(c3 & z3 & Hr3 & ? & ? & ? & _)];
        [by eexists|]. rewrite Hr3. cbn [mbind option_bind]. destruct (Z.eqb_spec c3 0); [done|].
      apply compare_char_total; [|apply read_pos in Hr3; [lia|done]|done]. intros; apply IH; done || lia.
    + destruct (match_set_spec zN zS) as (r & -> & Hset); [done..|]. cbn [mbind option_bind].
      destruct r as [[zP' zS']|]; [|by eexists]. destruct Hset as (? & ? & ? & _). apply IH; done || lia.
    + by apply compare_char_total.
Qed.

(** ** Soundness *)

(** The token that the character [c] is: an escaped wildcard is a literal. *)
Definition char_tok (c : Z) (escaped : bool) : tok :=
  if (c =? matchOne pInfo) && negb escaped then TOne else TChar c.

Lemma compare_char_sound rec ts c zEscaped zPattern zString b :
  (∀ z b, cstr z → rec zEscaped zPattern z = Some b → b = true ↔ matches ts (chars z)) →
  0 < c → cstr zString →
  compare_char pInfo rec c zEscaped zPattern zString = Some b →
  b = true ↔ matches (char_tok c (bool_decide (Some zPattern = zEscaped)) :: ts) (chars zString).
Proof.
  intros Hrec Hc HS. unfold compare_char, char_tok. rewrite Utf8Read_eq.
  set (esc := bool_decide (Some zPattern = zEscaped)). clearbody esc.
  destruct (read_cases zString HS) as [(s' & -> & ->)|(d & s' & Hr & Hd & HS' & _ & ->)].
  - cbn [mbind option_bind]. destruct (Z.eqb_spec c 0); [lia|].
    assert ((sqlite3Tolower c =? sqlite3Tolower 0) = true → c < 0x80 → False) as Hlow.
    { intros E%Z.eqb_eq Hlt. rewrite !sqlite3Tolower_ascii in E by (unfold uint; lia).
      unfold ascii_lower in E. repeat case_match; lia. }
    destruct (noCase pInfo && _ && _ && _) eqn:E; [exfalso|].
    { rewrite !andb_true_iff in E. destruct E as [[[_ E] Hlt%Z.ltb_lt] _]. auto. }
    change (0 =? 0) with true. cbn [negb]. rewrite andb_false_r. intros [= <-].
    split; [done|]. case_match; inversion 1.
  - rewrite Hr. cbn [mbind option_bind]. apply read_pos in Hr; [|done].
    destruct (Z.eqb_spec d 0); [done|]. cbn [negb]. rewrite andb_true_r.
    assert (∀ r, rec zEscaped zPattern s' = Some r → r = true ↔ matches ts (chars s')) as Hs'
      by (intros; by apply Hrec).
    assert ((noCase pInfo && (sqlite3Tolower c =? sqlite3Tolower d) && (c <? 0x80) && (d <? 0x80)) = true
            ↔ noCase pInfo = true ∧ c < 0x80 ∧ d < 0x80 ∧ ascii_lower c = ascii_lower d) as Hcase.
    { rewrite !andb_true_iff, Z.eqb_eq, !Z.ltb_lt. split.
      - intros [[[? E] ?] ?]. rewrite !sqlite3Tolower_ascii in E by (unfold uint; lia). done.
      - intros (? & ? & ? & ?). rewrite !sqlite3Tolower_ascii by (unfold uint; lia). done. }
    destruct ((c =? matchOne pInfo) && negb esc) eqn:Etok.
    + rewrite matches_one_l. intros Hb.
      assert (rec zEscaped zPattern s' = Some b) as Hb' by (by destruct (c =? d), (noCase pInfo && _ && _ && _)).
      rewrite (Hs' b Hb'). naive_solver.
    + rewrite matches_char_l. unfold char_eq. destruct (Z.eqb_spec c d) as [->|Hne].
      { intros Hb. rewrite (Hs' b Hb). naive_solver. }
      destruct (noCase pInfo && _ && _ && _) eqn:E.
      { intros Hb. rewrite (Hs' b Hb). destruct Hcase as [Hcase _]. specialize (Hcase eq_refl). naive_solver. }
      intros [= <-]. split; [done|]. intros (d' & s0 & [= <- <-] & [?|Hlow] & _); [done|].
      by apply Hcase in Hlow.
Qed.

(** After the wildcard: [rec] is the call of [patternCompare] on a shorter
    pattern. *)
Lemma star_sound rec zPattern zString b :
  matchOther ≠ matchOne pInfo → cstr zPattern → cstr zString → 0x80 ∉ chars zPattern →
  (∀ z z' b, cstr z → (length z ≤ length zPattern)%nat → 0x80 ∉ chars z → cstr z' →
     rec z z' = Some b → b = true ↔ matches (tokens (chars z)) (chars z')) →
  (r ← skip_stars pInfo (S (length zPattern)) zPattern zString;
   match r with
   | None => Some false
   | Some (c, zBefore, zNext, zString) =>
     if c =? 0 then Some true
     else if c =? matchOther then
       if matchSet pInfo =? 0 then
         '(c, zNext) ← sqlite3Utf8Read zNext;
         if c =? 0 then Some false else search_from pInfo (rec zNext) c zString
       else search_set (S (length zString)) (rec zBefore) zString
     else search_from pInfo (rec zNext) c zString
   end) = Some b →
  b = true ↔ matches (TAny :: tokens (chars zPattern)) (chars zString).
Proof.
  intros Hoth HP HS H80 Hrec.
  destruct (skip_stars_spec (S (length zPattern)) zPattern zString) as (r & -> & Hskip); [done..|lia|].
  cbn [mbind option_bind].
  destruct r as [[[[c zB] zN] zS']|]; cycle 1.
  { intros [= <-]. split; [done|]. intros ?. by apply Hskip in Hoth. }
  destruct Hskip as (HB & Hr & HS' & HlB & Hall & Hone & Hin & Hiff). rewrite Hiff by done.
  assert (0x80 ∉ chars zB) as H80B by auto.
  assert (∀ z, cstr z → (length z ≤ length zPattern)%nat → 0x80 ∉ chars z →
    rec_sound (rec z) (matches (tokens (chars z)))) as Hrec' by (intros z ? ? ? z' b' ?; by apply Hrec).
  destruct (read_cases zB HB) as [(? & ? & Hc)|(c' & z'' & ? & Hc0 & HN & ? & Hc)]; simplify_eq.
  { rewrite Z.eqb_refl. intros [= <-]. split; [intros _|done]. rewrite Hc. apply matches_any_end. }
  destruct (Z.eqb_spec c 0); [done|]. apply read_pos in Hr as ?; [|done].
  assert (c ≠ 0x80 ∧ 0x80 ∉ chars zN) as [Hc80 H80N].
  { rewrite Hc in H80B. apply not_elem_of_cons in H80B as [??]. done. }
  rewrite Hc, tokens_cons.
  destruct (Z.eqb_spec c (matchAll pInfo)); [done|]. destruct (Z.eqb_spec c (matchOne pInfo)); [done|].
  destruct (Z.eqb_spec c matchOther) as [->|Hnoth].
  - destruct (matchSet pInfo =? 0) eqn:Eset.
    + destruct (read_cases zN HN) as [(? & Hr3 & Hc3)|(c3 & z3 & Hr3 & ? & HN3 & ? & Hc3)];
        rewrite Hr3, Hc3; cbn [mbind option_bind].
      { intros [= <-]. split; [done|]. by intros ?%matches_any_bad. }
      destruct (Z.eqb_spec c3 0); [done|]. apply read_pos in Hr3; [|done]. rewrite Hc3 in H80N.
      apply not_elem_of_cons in H80N as [? H80N].
      intros Hb. rewrite <-found_matches.
      apply (search_from_sound pInfo (rec z3) _ c3 zS' b); try done; [|lia]. apply Hrec'; done || lia.
    + intros Hb.
      pose proof (search_set_sound (rec zB) _ _ zS' b (Hrec' zB HB HlB H80B) HS' Hb) as E.
      rewrite Hc, tokens_cons, Z.eqb_refl, Eset in E. destruct (Z.eqb_spec matchOther (matchAll pInfo)); [done|].
      rewrite E, matches_any. split; intros (s1 & s2 & Hs); exists s1, s2; [naive_solver|].
      destruct Hs as [-> Hm]. split_and!; [done| |done]. intros ->.
      destruct (set_token (chars zN)) as [[[invert items] cs]|]; inversion Hm.
  - intros Hb. rewrite <-found_matches.
    apply (search_from_sound pInfo (rec zN) _ c zS' b); try done; [|lia]. apply Hrec'; done || lia.
Qed.

Lemma pattern_loop_sound fuel zEscaped zPattern zString b :
  matchOther ≠ matchOne pInfo → cstr zPattern → cstr zString → 0x80 ∉ chars zPattern →
  (∀ z, zEscaped = Some z → (length zPattern ≤ length z)%nat) →
  pattern_loop pInfo matchOther fuel zEscaped zPattern zString = Some b →
  b = true ↔ matches (tokens (chars zPattern)) (chars zString).
Proof.
  intros Hoth. revert zEscaped zPattern zString b.
  induction fuel as [|fuel IH]; intros zE zP zS b HP HS H80 HE; [done|].
  cbn [pattern_loop]. rewrite Utf8Read_eq.
  destruct (read_cases zP HP) as [(z' & Hr & Hc)|(c & zN & Hr & Hc0 & HN & Hl & Hc)];
    rewrite Hr, Hc; cbn [mbind option_bind].
  { destruct (head_cases zS HS) as (x & -> & Hx & _). cbn [mbind option_bind].
    intros [= <-]. rewrite Hx. change (tokens []) with (@nil tok). rewrite matches_nil_l. by destruct (chars zS). }
  assert (0 < c) by (apply read_pos in Hr; [lia|done]).
  rewrite Hc in H80. apply not_elem_of_cons in H80 as [Hc80 H80].
  assert (∀ z, zE = Some z → length zN ≤ length z)%nat as HE' by (intros z ?%HE; lia).
  assert (bool_decide (Some zN = zE) = false) as Hesc.
  { apply bool_decide_eq_false. intros E. symmetry in E. apply HE in E. lia. }
  assert (∀ z z' b, cstr z → (length z ≤ length zP)%nat → 0x80 ∉ chars z → cstr z' →
    pattern_loop pInfo matchOther fuel None z z' = Some b → b = true ↔ matches (tokens (chars z)) (chars z')) as Hrec.
  { intros z z' b' ? ? ? ? ?. by apply (IH None). }
  destruct (Z.eqb_spec c 0); [done|]. rewrite tokens_cons. destruct (Z.eqb_spec c (matchAll pInfo)) as [->|Hall].
  - apply star_sound; [done..|]. intros z z' b' ? ?. apply Hrec; [done|lia].
  - destruct (Z.eqb_spec c matchOther) as [->|Hnoth].
    + destruct (matchSet pInfo =? 0).
      * destruct (read_cases zN HN) as [(? & Hr3 & Hc3)|(c3 & z3 & Hr3 & ? & HN3 & ? & Hc3)];
          rewrite Hr3, Hc3; cbn [mbind option_bind].
        { intros [= <-]. split; [done|]. by intros ?%matches_bad. }
        destruct (Z.eqb_spec c3 0); [done|]. apply read_pos in Hr3; [|done]. rewrite Hc3 in H80.
        apply not_elem_of_cons in H80 as [_ H80]. intros Hb.
        rewrite (compare_char_sound (pattern_loop pInfo matchOther fuel) (tokens (chars z3)) c3 (Some z3) z3 zS b);
          [|..|lia|done|done].
        -- rewrite bool_decide_eq_true_2 by done. unfold char_tok. by rewrite andb_false_r.
        -- intros. apply (IH (Some z3)); try done. by intros ? [= <-].
      * destruct (match_set_spec zN zS) as (r & -> & Hset); [done..|]. cbn [mbind option_bind].
        destruct r as [[zP' zS']|].
        -- destruct Hset as (? & ? & ? & d & invert & items & HcS & Hset & Hin). rewrite HcS, Hset.
           intros Hb. rewrite (IH zE zP' zS' b); try done.
           ++ rewrite matches_set_l. naive_solver.
           ++ intros ?. apply H80. by eapply set_token_in.
           ++ intros z ?%HE'. lia.
        -- intros [= <-]. split; [done|].
           destruct (set_token (chars zN)) as [[[invert items] cs]|]; [|by intros ?%matches_bad].
           intros (d & s' & HcS & Hin & _)%matches_set_l. rewrite HcS, Hin in Hset. by destruct invert.
    + intros Hb. rewrite (compare_char_sound (pattern_loop pInfo matchOther fuel) (tokens (chars zN)) c zE zN zS b); try done.
      * rewrite Hesc. unfold char_tok. cbn [negb]. rewrite andb_true_r. by case_match.
      * intros. by apply (IH zE).
Qed.
End patterns.


(** The characters of an ASCII literal, as a NUL-terminated string. *)
Definition text (s : string) : list Z := ((λ a, Z.of_nat (Ascii.nat_of_ascii a)) <$> String.list_ascii_of_string s) ++ [0].

Definition cstr_b (z : list Z) : bool := forallb (λ b, (0 <=? b) && (b <? 256)) z && existsb (Z.eqb 0) z.

Lemma cstr_check z : cstr_b z = true → cstr z.
Proof.
  intros [Hb H0]%andb_true_iff. split.
  - apply Forall_forall. intros x Hx. rewrite forallb_forall in Hb.
    specialize (Hb x ltac:(by apply list_elem_of_In)). unfold uint. lia.
  - apply existsb_exists in H0 as (x & Hx & ->%Z.eqb_eq). by apply list_elem_of_In.
Qed.

Section examples.
Example glob_1 : patternCompare (text "a*c?[x-z]") (text "abbbcqy") globInfo 91 = Some true.
Proof. reflexivity. Qed.
Example glob_2 : patternCompare (text "*[^x-z]") (text "abbbcqy") globInfo 91 = Some false.
Proof. reflexivity. Qed.
Example glob_3 : patternCompare (text "[]-]") (text "-") globInfo 91 = Some true.
Proof. reflexivity. Qed.
Example like_1 : patternCompare (text "%B\_%") (text "aab_") likeInfoNorm 92 = Some true.
Proof. reflexivity. Qed.
Example like_2 : patternCompare (text "%B\_%") (text "aabc") likeInfoNorm 92 = Some false.
Proof. reflexivity. Qed.
End examples.

Lemma patternCompare_spec pInfo matchOther zPattern zString :
  info_ok pInfo matchOther → cstr zPattern → cstr zString →
  ∃ b, patternCompare zPattern zString pInfo matchOther = Some b ∧
    (matchOther ≠ matchOne pInfo → 0x80 ∉ chars zPattern →
     b = true ↔ matches pInfo (tokens pInfo matchOther (chars zPattern)) (chars zString)).
Proof.
  intros Hinfo HP HS. unfold patternCompare.
  destruct (pattern_loop_total pInfo matchOther Hinfo (S (length zPattern)) None zPattern zString)
    as [b Hb]; [done..|lia|].
  exists b. split; [done|]. intros Hoth H80.
  by apply (pattern_loop_sound pInfo matchOther Hinfo (S (length zPattern)) None).
Qed.

(** C23: [patternCompare] decides the pattern language. On NUL-terminated
    strings of any bytes it returns, reading no byte after the terminators and
    with a number of nested calls that the length of the pattern bounds. If the
    escape character is not the wildcard for one character, and the pattern does
    not hold the character 0x80, the result is true exactly if the characters of
    the string match the tokens of the pattern: the recursive search over bytes,
    with its two special loops, is the declarative relation. With either
    exception the code departs from the language ([patternCompare_departs]). *)
Theorem patternCompare_decides pInfo matchOther zPattern zString :
  info_ok pInfo matchOther → cstr zPattern → cstr zString →
  ∃ b, patternCompare zPattern zString pInfo matchOther = Some b ∧
    (matchOther ≠ matchOne pInfo → 0x80 ∉ chars zPattern →
     b = true ↔ matches pInfo (tokens pInfo matchOther (chars zPattern)) (chars zString)).
Proof. apply patternCompare_spec. Qed.

Lemma patternCompare_decides_witness :
  matches globInfo [TAny; TChar 98; TSet true [(97, 97); (97, 99)]] [97; 98; 100].
Proof.
  destruct (patternCompare_decides globInfo 91 (text "*b[^a-c]") (text "abd")) as (b & Hb & Hiff).
  - split_and!; cbn; lia.
  - by apply cstr_check.
  - by apply cstr_check.
  - vm_compute in Hb. injection Hb as <-. apply Hiff; [cbn; lia|by apply (bool_decide_unpack _)|reflexivity].
Defined.

(** What the functions return when they come to compare. *)
Definition like_answer (pInfo : compareInfo) (esc : Z) (zA zB : option (list Z)) (r : sql_result) : Prop :=
  match zA, zB with
  | Some zA, Some zB =>
    ∃ b, r = ResultInt b ∧
      (esc ≠ matchOne pInfo → 0x80 ∉ chars zB →
       b = true ↔ matches pInfo (tokens pInfo esc (chars zB)) (chars zA))
  | _, _ => r = ResultNone
  end.

Definition value_ok (v : sqlite3_value) : Prop := match value_text v with Some z => cstr z | None => True end.

(** The calls that the library registers: LIKE with two or three arguments,
    with or without case, GLOB with two. *)
Definition like_call (pInfo : compareInfo) (argv2 : option sqlite3_value) : Prop :=
  pInfo = likeInfoNorm ∨ pInfo = likeInfoAlt ∨ pInfo = globInfo ∧ argv2 = None.

(** [likeFunc], on every branch. The SQL functions always return: an error
    for a pattern longer than the limit; nothing for an escape that is NULL;
    an error for an escape that is not exactly one character; nothing if the
    pattern or the string is NULL; and otherwise an integer that tells whether
    the string matches the pattern, with the given escape character, or with
    no escape character for LIKE and the bracket for GLOB. *)
Theorem likeFunc_spec pInfo limit argv0 argv1 argv2 :
  like_call pInfo argv2 → value_ok argv0 → value_ok argv1 →
  match argv2 with Some v => value_ok v | None => True end →
  ∃ r, likeFunc pInfo limit argv0 argv1 argv2 = Some r ∧
    if limit <? value_bytes argv0 then r = ResultError "LIKE or GLOB pattern too complex"
    else match argv2 with
    | None => like_answer pInfo (matchSet pInfo) (value_text argv1) (value_text argv0) r
    | Some v =>
      match value_text v with
      | None => r = ResultNone
      | Some zEsc =>
        match chars zEsc with
        | [esc] => like_answer pInfo esc (value_text argv1) (value_text argv0) r
        | _ => r = ResultError "ESCAPE expression must be a single character"
        end
      end
    end.
Proof.
  intros Hcall H0 H1 H2. unfold likeFunc. destruct (limit <? value_bytes argv0); [by eexists|].
  assert (∀ esc, info_ok pInfo esc →
    ∃ r, (match value_text argv1, value_text argv0 with
          | Some zA, Some zB => b ← patternCompare zB zA pInfo esc; Some (ResultInt b)
          | _, _ => Some ResultNone
          end) = Some r ∧ like_answer pInfo esc (value_text argv1) (value_text argv0) r) as Hanswer.
  { intros esc Hesc. unfold like_answer, value_ok in *.
    destruct (value_text argv1) as [zA|]; [|by eexists]. destruct (value_text argv0) as [zB|]; [|by eexists].
    destruct (patternCompare_spec pInfo esc zB zA) as (b & -> & Hb); [done..|]. cbn [mbind option_bind]. eauto. }
  destruct argv2 as [v|].
  - assert (∀ esc, info_ok pInfo esc) as Hok.
    { intros esc. destruct Hcall as [->|[->|[-> ?]]]; [| |done]; split_and!; cbn; auto with lia. }
    unfold value_ok in H2. destruct (value_text v) as [zEsc|]; [|by eexists].
    rewrite charlen_spec by done. cbn [mbind option_bind].
    destruct (read_cases zEsc H2) as [(? & Hr & ->)|(esc & z' & Hr & ? & Hz' & ? & ->)]; [by eexists|].
    destruct (chars z') as [|c cs]; cbn [length].
    + change (Z.of_nat 1 =? 1) with true. cbn [negb]. rewrite Hr. cbn [mbind option_bind].
      apply Hanswer, Hok.
    + destruct (Z.eqb_spec (Z.of_nat (S (S (length cs)))) 1); [lia|]. by eexists.
  - cbn [mbind option_bind]. apply Hanswer.
    destruct Hcall as [->|[->|[-> _]]]; split_and!; cbn; auto with lia.
Qed.

Lemma likeFunc_spec_witness :
  ∃ r, likeFunc likeInfoNorm 50000 {| value_text := Some (text "10!%%"); value_bytes := 5 |}
         {| value_text := Some (text "10% off"); value_bytes := 7 |}
         (Some {| value_text := Some (text "!"); value_bytes := 1 |}) = Some r ∧
    ∃ b, r = ResultInt b ∧
      (33 ≠ 95 → 0x80 ∉ chars (text "10!%%") →
       b = true ↔ matches likeInfoNorm [TChar 49; TChar 48; TChar 37; TAny] (chars (text "10% off"))).
Proof.
  apply (likeFunc_spec likeInfoNorm 50000 {| value_text := Some (text "10!%%"); value_bytes := 5 |}
         {| value_text := Some (text "10% off"); value_bytes := 7 |}
         (Some {| value_text := Some (text "!"); value_bytes := 1 |})).
  - by left.
  - by apply cstr_check.
  - by apply cstr_check.
  - by apply cstr_check.
Defined.

(** ** Where the code departs from the language *)

(** the two departures. The search for a character 0x80 after a wildcard
    looks for the byte 0x80, which also ends other characters, so a pattern that
    ends in U+0080 matches a string that ends in U+00C0. With the escape
    character '_', the skipping of wildcards takes it for the wildcard, so '%__'
    matches a string that does not end in '_', while 'a__' does not match 'abc'. *)
Theorem patternCompare_departs :
  (patternCompare (42 :: WRITE_UTF8 0x80 ++ [0]) (WRITE_UTF8 0xC0 ++ [0]) globInfo 91 = Some true ∧
   ¬ matches globInfo (tokens globInfo 91 (chars (42 :: WRITE_UTF8 0x80 ++ [0]))) (chars (WRITE_UTF8 0xC0 ++ [0]))) ∧
  (patternCompare (text "%__") (text "abc") likeInfoNorm 95 = Some true ∧
   patternCompare (text "a__") (text "abc") likeInfoNorm 95 = Some false ∧
   ¬ matches likeInfoNorm (tokens likeInfoNorm 95 (chars (text "%__"))) (chars (text "abc"))).
Proof.
  split_and!; try reflexivity.
  - change (tokens globInfo 91 _) with [TAny; TChar 0x80]. change (chars (WRITE_UTF8 0xC0 ++ [0])) with [0xC0].
    intros (s1 & d & s2 & E & Hd & Hm)%found_matches.
    destruct s1 as [|? [|]]; [|done..]. injection E as <- <-.
    destruct Hd as [?|(? & ? & ? & _)]; [done|lia].
  - change (tokens likeInfoNorm 95 (chars (text "%__"))) with [TAny; TChar 95].
    change (chars (text "abc")) with [97; 98; 99].
    intros (s1 & d & s2 & E & Hd & Hm)%found_matches. apply matches_nil_l in Hm as ->.
    destruct s1 as [|? [|? [|? [|]]]]; try done. injection E as <- <- <-.
    destruct Hd as [?|(? & ? & ? & ?)]; done.
Qed.
