(* ===== verification/CharTokenizer.v ===== *)
(** * character_tokenizer.c: one token for each character

    The model of the full-text tokenizer that splits a text into its UTF-8
    characters. The text [pInput] is the list of the bytes of its buffer, a
    null pointer is [None]; the token that the cursor owns is the list of the
    bytes of its allocation. Each allocation may fail: a boolean argument says
    whether it succeeds. A read out of the buffer and a loop that exhausts its
    fuel are [None]. *)
From S2P Require Import Prelude Ctype.
Local Open Scope Z_scope.

Definition SQLITE_DONE : Z := 101.

Record character_tokenizer_cursor := mkCursor {
  pInput : option (list Z);     (* input we are tokenizing *)
  nBytes : Z;                   (* size of the input *)
  iPosition : Z;                (* current position in pInput *)
  iToken : Z;                   (* index of next token to be returned *)
  pToken : option (list Z)      (* storage for current token *)
}.

(** The variables of the caller that [characterNext] sets. *)
Record token_out := mkOut {
  ppToken : list Z;
  pnBytes : Z;
  piStartOffset : Z;
  piEndOffset : Z;
  piPosition : Z
}.

(** ** The module *)

(** The result code and the tokenizer, a zeroed object without fields of its
    own, if it was created. *)
Definition characterCreate (malloc_ok : bool) : Z * option unit :=
  if malloc_ok then (SQLITE_OK, Some tt) else (SQLITE_NOMEM, None).

Definition characterDestroy (pTokenizer : unit) : Z := SQLITE_OK.

(** The length of a text fits an int: SQLite limits texts to SQLITE_MAX_LENGTH,
    10^9 bytes, so that the cast of strlen is the identity. *)
Definition characterOpen (malloc_ok : bool) (input : option (list Z)) (nBytes : Z)
    : option (Z * option character_tokenizer_cursor) :=
  nBytes ← match input with
           | None => Some 0
           | Some z => if nBytes <? 0 then strlen z else Some nBytes
           end;
  if negb malloc_ok then Some (SQLITE_NOMEM, None)
  else Some (SQLITE_OK, Some (mkCursor input nBytes 0 0 None)).

(** The token, if there is one, and the cursor are freed. *)
Definition characterClose (c : character_tokenizer_cursor) : Z := SQLITE_OK.

(** [while( c->iPosition < c->nBytes ) ...]: the position and the length. *)
Fixpoint next_loop (fuel : nat) (z : list Z) (nBytes pos len : Z) : option (Z * Z) :=
  match fuel with
  | O => None
  | S fuel =>
    if pos <? nBytes then
      byte ← z !! Z.to_nat pos;
      if (Z.land byte 0x80 =? 0) || (Z.land byte 0xc0 =? 0xc0) then Some (pos, len)
      else next_loop fuel z nBytes (pos + 1) (len + 1)
    else Some (pos, len)
  end.

(** [memcpy] of [n] bytes at position [pos] of the text. *)
Definition copy_token (z : list Z) (pos n : Z) : option (list Z) :=
  if (Z.to_nat pos + Z.to_nat n <=? length z)%nat then Some (take (Z.to_nat n) (drop (Z.to_nat pos) z)) else None.

Definition lower_ascii (b : Z) : Z := if b <? 0x80 then tolower b else b.

(** The result code, the cursor and the variables of the caller. The
    terminating zero byte of the token is not part of [pToken]. *)
Definition characterNext (malloc_ok : bool) (c : character_tokenizer_cursor) (out : token_out)
    : option (Z * character_tokenizer_cursor * token_out) :=
  (* the token of the last call is freed *)
  let c := mkCursor (pInput c) (nBytes c) (iPosition c) (iToken c) None in
  if nBytes c <=? iPosition c then Some (SQLITE_DONE, c, out)
  else
    z ← pInput c;
    let start := iPosition c in
    let out := mkOut (ppToken out) (pnBytes out) start (piEndOffset out) (piPosition out) in
    '(pos, len) ← next_loop (S (Z.to_nat (nBytes c))) z (nBytes c) (start + 1) 1;
    let c := mkCursor (pInput c) (nBytes c) pos (iToken c) None in
    if negb malloc_ok then Some (SQLITE_NOMEM, c, out)
    else
      token ← copy_token z start len;
      let token := lower_ascii <$> token in
      Some (SQLITE_OK,
            mkCursor (pInput c) (nBytes c) (iPosition c) (iToken c + 1) (Some token),
            mkOut token len (piStartOffset out) (piStartOffset out + len) (iToken c)).
