(* ===== verification/CharTokenizerProps.v ===== *)
(** * character_tokenizer.c: the tokens of a text

    Calling [characterNext] until it is done cuts the text into its characters,
    each byte in exactly one token; for UTF-8 text the tokens are the
    encodings of its characters in lower case. *)
From S2P Require Import Prelude Words Ctype Utf8 Utf8Proofs CharTokenizer.
Local Open Scope Z_scope.

(** ** Characters of a text *)

(** The bytes of a text grouped by characters: a byte that continues a
    character belongs to the group of the byte before it. *)
Fixpoint groups (l : list Z) : list (list Z) :=
  match l with
  | [] => []
  | b :: l =>
    match groups l with
    | (b' :: g) :: gs => if continues b' then (b :: b' :: g) :: gs else [b] :: (b' :: g) :: gs
    | _ => [[b]]
    end
  end.

(** What [characterNext] reports for the groups from byte [start] on, the first
    of which is token number [pos]. *)
Fixpoint tokens_of (gs : list (list Z)) (start pos : Z) : list token_out :=
  match gs with
  | [] => []
  | g :: gs =>
    let n := Z.of_nat (length g) in
    mkOut (lower_ascii <$> g) n start (start + n) pos :: tokens_of gs (start + n) (pos + 1)
  end.

(** The calls of [characterNext] up to the one that returns SQLITE_DONE. *)
Fixpoint tokenize (calls : nat) (c : character_tokenizer_cursor) (out : token_out) : option (list token_out) :=
  match calls with
  | O => None
  | S calls =>
    '(rc, c, out) ← characterNext true c out;
    if rc =? SQLITE_DONE then Some [] else cons out <$> tokenize calls c out
  end.

(** The number of bytes that continue a character at the front of a text. *)
Fixpoint cont_prefix (l : list Z) : nat :=
  match l with
  | b :: l => if continues b then S (cont_prefix l) else O
  | [] => O
  end.

Section groups.
Implicit Types (l z : list Z) (b : Z).

Lemma groups_nonempty b l : ∃ g gs, groups (b :: l) = (b :: g) :: gs.
Proof.
  cbn [groups]. destruct (groups l) as [|[|b' g] gs]; [by exists [], []|by exists [], []|].
  destruct (continues b'); eauto.
Qed.

Lemma groups_cons b b' l :
  groups (b :: b' :: l) =
    match groups (b' :: l) with
    | g :: gs => if continues b' then (b :: g) :: gs else [b] :: g :: gs
    | [] => [[b]]
    end.
Proof. destruct (groups_nonempty b' l) as (g & gs & E). rewrite E. cbn [groups] in E |- *. by rewrite E. Qed.

Lemma groups_concat l : concat (groups l) = l.
Proof.
  induction l as [|b [|b' l] IH]; [done|done|]. rewrite groups_cons.
  destruct (groups_nonempty b' l) as (g & gs & E). rewrite E in IH |- *.
  destruct (continues b'); cbn [concat app] in *; by rewrite IH.
Qed.

(** The first group: the first byte and the bytes that continue it. *)
Lemma groups_first b l : groups (b :: l) = (b :: take (cont_prefix l) l) :: groups (drop (cont_prefix l) l).
Proof.
  revert b. induction l as [|b' l IH]; intros b; [done|].
  rewrite groups_cons, IH. cbn [cont_prefix]. destruct (continues b'); [done|].
  rewrite firstn_0. cbn [drop]. by rewrite IH.
Qed.

Lemma cont_prefix_le l : (cont_prefix l ≤ length l)%nat.
Proof. induction l as [|b l IH]; cbn [cont_prefix length]; [done|]. case_match; lia. Qed.

(** ** One call *)

Lemma next_test b : byte_ok b → (Z.land b 0x80 =? 0) || (Z.land b 0xc0 =? 0xc0) = negb (continues b).
Proof.
  intros Hb. apply eqb_true_iff.
  apply (all_bytes (λ b, Bool.eqb ((Z.land b 0x80 =? 0) || (Z.land b 0xc0 =? 0xc0)) (negb (continues b))) eq_refl b Hb).
Qed.

Lemma next_loop_spec fuel z n pos len :
  bytes_ok z → 0 ≤ pos ≤ n → n ≤ Z.of_nat (length z) → (Z.to_nat (n - pos) < fuel)%nat →
  let k := Z.of_nat (cont_prefix (drop (Z.to_nat pos) (take (Z.to_nat n) z))) in
  next_loop fuel z n pos len = Some (pos + k, len + k) ∧ pos + k ≤ n.
Proof.
  intros Hz Hpos Hn. revert pos len Hpos. induction fuel as [|fuel IH]; intros pos len Hpos Hf; [lia|].
  cbv zeta. cbn [next_loop]. destruct (Z.ltb_spec pos n).
  - destruct (lookup_lt_is_Some_2 z (Z.to_nat pos)) as [b Hb]; [lia|]. rewrite Hb. cbn [mbind option_bind].
    assert (byte_ok b) as Hok by (by eapply Forall_lookup_1). rewrite next_test by done.
    assert (drop (Z.to_nat pos) (take (Z.to_nat n) z) = b :: drop (Z.to_nat (pos + 1)) (take (Z.to_nat n) z)) as ->.
    { replace (Z.to_nat (pos + 1)) with (S (Z.to_nat pos)) by lia. apply drop_S.
      rewrite lookup_take_lt by lia. done. }
    cbn [cont_prefix]. destruct (continues b); cbn [negb].
    + destruct (IH (pos + 1) (len + 1)) as [-> ?]; [lia|lia|]. rewrite Nat2Z.inj_succ.
      split; [do 2 f_equal; lia|lia].
    + rewrite !Z.add_0_r. split; [done|lia].
  - rewrite drop_ge by (rewrite length_take; lia). cbn [cont_prefix]. rewrite !Z.add_0_r. split; [done|lia].
Qed.

(** A cursor at [pos] of the first [n] bytes of a text, before token [tok]. *)
Definition at_position (c : character_tokenizer_cursor) (z : list Z) (n pos tok : Z) : Prop :=
  pInput c = Some z ∧ nBytes c = n ∧ iPosition c = pos ∧ iToken c = tok.

Lemma characterNext_token c z n pos tok out b l :
  bytes_ok z → 0 ≤ pos → n ≤ Z.of_nat (length z) → at_position c z n pos tok →
  drop (Z.to_nat pos) (take (Z.to_nat n) z) = b :: l →
  let g := b :: take (cont_prefix l) l in
  let e := pos + Z.of_nat (length g) in
  ∃ c', characterNext true c out = Some (SQLITE_OK, c', mkOut (lower_ascii <$> g) (Z.of_nat (length g)) pos e tok) ∧
    at_position c' z n e (tok + 1) ∧ e ≤ n ∧
    drop (Z.to_nat e) (take (Z.to_nat n) z) = drop (cont_prefix l) l ∧ pToken c' = Some (lower_ascii <$> g).
Proof.
  intros Hz Hpos Hn (Hin & Hnb & Hip & Hit) Hd g e.
  pose proof (f_equal length Hd) as Hlen. rewrite length_drop, length_take in Hlen. cbn [length] in Hlen.
  assert (pos < n) by lia. unfold characterNext. cbn [pInput nBytes iPosition iToken].
  rewrite Hnb, Hip, Hin, Hit. destruct (Z.leb_spec n pos); [lia|]. cbn [mbind option_bind].
  assert (drop (Z.to_nat (pos + 1)) (take (Z.to_nat n) z) = l) as Hd1.
  { replace (Z.to_nat (pos + 1)) with (Z.to_nat pos + 1)%nat by lia. by rewrite <-drop_drop, Hd. }
  destruct (next_loop_spec (S (Z.to_nat n)) z n (pos + 1) 1) as [-> Hle]; [done|lia|done|lia|].
  rewrite Hd1 in *. cbn [mbind option_bind negb].
  pose proof (cont_prefix_le l) as Hcl.
  assert (Z.of_nat (length g) = 1 + Z.of_nat (cont_prefix l)) as Hg.
  { unfold g. cbn [length]. rewrite length_take. lia. }
  assert (copy_token z pos (1 + Z.of_nat (cont_prefix l)) = Some g) as ->.
  { unfold copy_token. destruct (Nat.leb_spec (Z.to_nat pos + Z.to_nat (1 + Z.of_nat (cont_prefix l))) (length z)); [|lia].
    f_equal. replace (Z.to_nat (1 + Z.of_nat (cont_prefix l))) with (S (cont_prefix l)) by lia.
    transitivity (take (S (cont_prefix l)) (drop (Z.to_nat pos) (take (Z.to_nat n) z))); [|by rewrite Hd].
    rewrite skipn_firstn_comm, take_take. f_equal. lia. }
  cbn [mbind option_bind piStartOffset iPosition]. eexists. rewrite Hg. unfold e. rewrite Hg.
  split; [done|]. unfold at_position. split_and!; cbn [pInput nBytes iPosition iToken pToken]; try done; try lia.
  replace (Z.to_nat (pos + (1 + Z.of_nat (cont_prefix l)))) with (Z.to_nat (pos + 1) + cont_prefix l)%nat by lia.
  by rewrite <-drop_drop, Hd1.
Qed.

Lemma characterNext_done ok c z n pos tok out :
  at_position c z n pos tok → n ≤ pos →
  ∃ c', characterNext ok c out = Some (SQLITE_DONE, c', out) ∧ at_position c' z n pos tok ∧ pToken c' = None.
Proof.
  intros (Hin & Hnb & Hip & Hit) Hle. unfold characterNext. cbn [nBytes iPosition]. rewrite Hnb, Hip.
  destruct (Z.leb_spec n pos); [|lia]. eexists. split; [done|]. by rewrite Hin, Hit.
Qed.

Lemma tokenize_spec calls c z n pos tok out :
  bytes_ok z → 0 ≤ pos ≤ n → n ≤ Z.of_nat (length z) → at_position c z n pos tok →
  (Z.to_nat (n - pos) < calls)%nat →
  tokenize calls c out = Some (tokens_of (groups (drop (Z.to_nat pos) (take (Z.to_nat n) z))) pos tok).
Proof.
  intros Hz Hpos Hn. revert c pos tok out Hpos. induction calls as [|calls IH]; intros c pos tok out Hpos Hc Hcalls; [lia|].
  cbn [tokenize]. destruct (drop (Z.to_nat pos) (take (Z.to_nat n) z)) as [|b l] eqn:Hd.
  - assert (n ≤ pos).
    { apply (f_equal length) in Hd. rewrite length_drop, length_take in Hd. cbn [length] in Hd. lia. }
    by destruct (characterNext_done true c z n pos tok out Hc) as (c' & -> & _).
  - destruct (characterNext_token c z n pos tok out b l Hz ltac:(lia) Hn Hc Hd) as (c' & -> & Hc' & He & Hd' & _).
    cbn [mbind option_bind]. change (SQLITE_OK =? SQLITE_DONE) with false. cbv iota.
    assert (0 < Z.of_nat (length (b :: take (cont_prefix l) l))) by (cbn [length]; lia).
    rewrite groups_first. cbn [tokens_of].
    rewrite (IH _ (pos + Z.of_nat (length (b :: take (cont_prefix l) l))) (tok + 1)); [by rewrite Hd'|lia|done|lia].
Qed.
End groups.

(** ** UTF-8 text *)

Section utf8.
Implicit Types (c : Z) (cs : list Z).

Lemma cont_prefix_app l z :
  Forall (λ x, continues x = true) l → (z = [] ∨ starts z) → cont_prefix (l ++ z) = length l.
Proof.
  intros Hl Hz. induction Hl as [|b l Hb Hl IH]; cbn [app cont_prefix length].
  - destruct Hz as [->|Hz]; [done|]. destruct z as [|b z]; [done|]. cbn [starts cont_prefix] in *. by rewrite Hz.
  - by rewrite Hb, IH.
Qed.

Lemma groups_written cs : Forall clean cs → groups (concat (WRITE_UTF8 <$> cs)) = WRITE_UTF8 <$> cs.
Proof.
  induction 1 as [|c cs Hc Hcs IH]; [done|]. rewrite fmap_cons. cbn [concat].
  destruct (WRITE_UTF8_group c) as (b & l & E & Hl); [destruct Hc; lia|]. rewrite E. cbn [app].
  rewrite groups_first, cont_prefix_app; [|done|].
  - by rewrite take_app_length, drop_app_length, IH.
  - destruct Hcs as [|c' cs Hc' _]; [by left|right]. rewrite fmap_cons. cbn [concat].
    apply starts_WRITE_UTF8. destruct Hc'. lia.
Qed.

Lemma lower_ascii_spec b : lower_ascii b = if b <? 0x80 then ascii_lower b else b.
Proof. reflexivity. Qed.

(** Lower case, byte by byte or character by character. *)
Lemma lower_WRITE_UTF8 c : 0 ≤ c < 0x200000 → lower_ascii <$> WRITE_UTF8 c = WRITE_UTF8 (ascii_lower c).
Proof.
  intros Hc. destruct (Z.ltb_spec c 0x80) as [Hlt|Hge].
  - assert (0 ≤ ascii_lower c < 0x80) by (unfold ascii_lower; case_match; lia).
    rewrite !WRITE_UTF8_eq by lia. destruct (Z.ltb_spec c 0x80); [|lia].
    destruct (Z.ltb_spec (ascii_lower c) 0x80); [|lia]. cbn [fmap list_fmap]. rewrite lower_ascii_spec.
    by destruct (Z.ltb_spec c 0x80); [|lia].
  - assert (ascii_lower c = c) as ->.
    { unfold ascii_lower. destruct (Z.leb_spec 65 c), (Z.leb_spec c 90); cbn [andb]; done || lia. }
    assert (Forall (λ b, 0x80 ≤ b) (WRITE_UTF8 c)) as Hb.
    { rewrite WRITE_UTF8_eq by done. destruct (Z.ltb_spec c 0x80); [lia|].
      pose proof (Z.mod_pos_bound c 64 ltac:(lia)). pose proof (Z.mod_pos_bound (c / 64) 64 ltac:(lia)).
      pose proof (Z.mod_pos_bound (c / 4096) 64 ltac:(lia)).
      pose proof (Z.div_pos c 64). pose proof (Z.div_pos c 4096). pose proof (Z.div_pos c 262144).
      repeat case_match; repeat (constructor; [lia|]); constructor. }
    clear -Hb. induction Hb as [|b l Hb _ IH]; [done|]. rewrite fmap_cons, IH, lower_ascii_spec.
    by destruct (Z.ltb_spec b 0x80); [lia|].
Qed.
End utf8.

(** ** The properties *)

Section props.
Implicit Types (z : list Z) (n : Z).

Lemma tokens_texts gs start pos : ppToken <$> tokens_of gs start pos = (λ g, lower_ascii <$> g) <$> gs.
Proof.
  revert start pos. induction gs as [|g gs IH]; intros start pos; [done|].
  cbn [tokens_of]. by rewrite !fmap_cons, IH.
Qed.

Lemma tokens_positions gs start pos :
  piPosition <$> tokens_of gs start pos = seqZ pos (Z.of_nat (length gs)).
Proof.
  revert start pos. induction gs as [|g gs IH]; intros start pos; [done|].
  cbn [tokens_of length]. rewrite fmap_cons, IH, (seqZ_cons pos) by lia.
  cbn [piPosition]. do 2 f_equal; lia.
Qed.

(** The call whose allocation fails. *)
Lemma characterNext_nomem c out c' out1 :
  characterNext true c out = Some (SQLITE_OK, c', out1) →
  ∃ c'' out', characterNext false c out = Some (SQLITE_NOMEM, c'', out') ∧
    pInput c'' = pInput c' ∧ nBytes c'' = nBytes c' ∧ iPosition c'' = iPosition c' ∧ iToken c'' = iToken c ∧
    pToken c'' = None.
Proof.
  unfold characterNext. cbn [pInput nBytes iPosition iToken]. destruct (nBytes c <=? iPosition c); [done|].
  destruct (pInput c) as [z|]; [|done]. cbn [mbind option_bind].
  destruct (next_loop _ z _ _ _) as [[pos len]|]; [|done]. cbn [mbind option_bind negb].
  destruct (copy_token z (iPosition c) len) as [t|]; [|done]. cbn [mbind option_bind].
  intros [= <- <-]. by eexists _, _.
Qed.

(** The number of bytes that [characterOpen] takes for [nBytes]. *)
Definition open_size (z : list Z) (n n' : Z) : Prop := if n <? 0 then strlen z = Some n' else n' = n.

Lemma strlen_spec z n : strlen z = Some n → 0 ≤ n ≤ Z.of_nat (length z).
Proof.
  revert n. induction z as [|b z IH]; intros n; cbn [strlen length]; [done|].
  case_match; [intros [= <-]; lia|]. destruct (strlen z) as [m|]; [|done]. intros [= <-].
  specialize (IH m eq_refl). lia.
Qed.

Lemma characterNext_open z n n' out :
  bytes_ok z → open_size z n n' → n' ≤ Z.of_nat (length z) →
  ∃ c, characterOpen true (Some z) n = Some (SQLITE_OK, Some c) ∧
    tokenize (S (Z.to_nat n')) c out = Some (tokens_of (groups (take (Z.to_nat n') z)) 0 0).
Proof.
  intros Hz Hn Hle. unfold characterOpen, open_size in *.
  assert ((if n <? 0 then strlen z else Some n) = Some n' ∧ 0 ≤ n') as [-> Hn0].
  { destruct (Z.ltb_spec n 0); [|by rewrite Hn; split; [|lia]]. split; [done|]. by apply strlen_spec in Hn as [? _]. }
  cbn [mbind option_bind negb]. eexists. split; [done|].
  by rewrite (tokenize_spec _ _ z n' 0 0) by (done || lia).
Qed.

Lemma strlen_app l rest : Forall (λ b, b ≠ 0) l → strlen (l ++ 0 :: rest) = Some (Z.of_nat (length l)).
Proof.
  induction 1 as [|b l Hb Hl IH]; [done|]. cbn [app strlen length].
  destruct (Z.eqb_spec b 0); [done|]. rewrite IH. cbn. f_equal. lia.
Qed.

Lemma written_nonzero cs : Forall clean cs → Forall (λ b, b ≠ 0) (concat (WRITE_UTF8 <$> cs)).
Proof.
  induction 1 as [|c cs [Hc _] Hcs IH]; [constructor|]. rewrite fmap_cons. cbn [concat].
  apply Forall_app. split; [|done]. rewrite WRITE_UTF8_eq by lia.
  pose proof (Z.mod_pos_bound c 64 ltac:(lia)). pose proof (Z.mod_pos_bound (c / 64) 64 ltac:(lia)).
  pose proof (Z.mod_pos_bound (c / 4096) 64 ltac:(lia)).
  pose proof (Z.div_pos c 64). pose proof (Z.div_pos c 4096). pose proof (Z.div_pos c 262144).
  repeat case_match; repeat (constructor; [lia|]); constructor.
Qed.

(** C36: the tokens of a text. On any bytes, [characterOpen] succeeds, and calling
    [characterNext] returns SQLITE_DONE after one call for each token at most:
    the tokens are the groups of bytes that form a character, in order, in lower
    case, each with its length, the offsets of its first byte and of the byte
    after it, and its number. The groups are the text cut in pieces, so every
    byte is in exactly one token. *)
Theorem characterNext_tokenizes z n n' out :
  bytes_ok z → open_size z n n' → n' ≤ Z.of_nat (length z) →
  ∃ c, characterOpen true (Some z) n = Some (SQLITE_OK, Some c) ∧
    tokenize (S (Z.to_nat n')) c out = Some (tokens_of (groups (take (Z.to_nat n') z)) 0 0) ∧
    concat (groups (take (Z.to_nat n') z)) = take (Z.to_nat n') z.
Proof.
  intros Hz Hn Hle. destruct (characterNext_open z n n' out Hz Hn Hle) as (c & ? & ?).
  exists c. split_and!; [done..|apply groups_concat].
Qed.

Lemma characterNext_tokenizes_witness :
  ∃ c, characterOpen true (Some [65; 0xC3; 0xBC; 0x80; 66; 67]) 5 = Some (SQLITE_OK, Some c) ∧
    tokenize 6 c (mkOut [] 0 0 0 0) =
      Some [mkOut [97] 1 0 1 0; mkOut [0xC3; 0xBC; 0x80] 3 1 4 1; mkOut [98] 1 4 5 2] ∧
    concat (groups [65; 0xC3; 0xBC; 0x80; 66]) = [65; 0xC3; 0xBC; 0x80; 66].
Proof.
  apply (characterNext_tokenizes [65; 0xC3; 0xBC; 0x80; 66; 67] 5 5 (mkOut [] 0 0 0 0)).
  - repeat (constructor; [unfold uint; lia|]). constructor.
  - reflexivity.
  - cbn. lia.
Defined.

(** the tokens of UTF-8 text. For the encoding of a sequence of characters,
    with its length or, if it is NUL-terminated, with a negative length, the
    tokens are the encodings of the characters, one for each, in lower case
    where they are ASCII letters. *)
Theorem characterNext_utf8 cs rest n out :
  Forall clean cs → bytes_ok rest →
  let text := concat (WRITE_UTF8 <$> cs) in
  n = Z.of_nat (length text) ∨ n < 0 ∧ head rest = Some 0 →
  ∃ c toks, characterOpen true (Some (text ++ rest)) n = Some (SQLITE_OK, Some c) ∧
    tokenize (S (length text)) c out = Some toks ∧
    ppToken <$> toks = (λ c, WRITE_UTF8 (ascii_lower c)) <$> cs ∧
    piPosition <$> toks = seqZ 0 (Z.of_nat (length cs)).
Proof.
  intros Hcs Hr text Hn.
  assert (bytes_ok (text ++ rest)) as Hz.
  { apply Forall_app. split; [|done]. apply concat_bytes_ok, WRITE_UTF8_ok. }
  assert (open_size (text ++ rest) n (Z.of_nat (length text))) as Hsize.
  { unfold open_size. destruct Hn as [->|[Hn Hhead]].
    - destruct (Z.ltb_spec (Z.of_nat (length text)) 0); [lia|done].
    - destruct (Z.ltb_spec n 0); [|lia]. destruct rest as [|b rest]; [done|]. injection Hhead as ->.
      apply strlen_app. unfold text. by apply written_nonzero. }
  destruct (characterNext_open (text ++ rest) n (Z.of_nat (length text)) out Hz Hsize) as (c & Ho & Ht);
    [rewrite length_app; lia|].
  rewrite Nat2Z.id, take_app_length in Ht. unfold text in Ht at 2. rewrite groups_written in Ht by done.
  exists c. eexists. split_and!; [done..| |].
  - rewrite tokens_texts. clear -Hcs. induction Hcs as [|x cs [Hx _] Hcs IH]; [done|].
    rewrite !fmap_cons, IH, lower_WRITE_UTF8 by lia. done.
  - by rewrite tokens_positions, length_fmap.
Qed.

Lemma characterNext_utf8_witness :
  ∃ c toks, characterOpen true (Some ([0x41; 0xC3; 0xBC; 0x5A] ++ [0])) (-1) = Some (SQLITE_OK, Some c) ∧
    tokenize 5 c (mkOut [] 0 0 0 0) = Some toks ∧
    ppToken <$> toks = [[0x61]; [0xC3; 0xBC]; [0x7A]] ∧ piPosition <$> toks = [0; 1; 2].
Proof.
  apply (characterNext_utf8 [0x41; 0xFC; 0x5A] [0] (-1) (mkOut [] 0 0 0 0)).
  - repeat (constructor; [unfold clean; lia|]). constructor.
  - constructor; [unfold uint; lia|constructor].
  - right. split; [lia|reflexivity].
Defined.

(** [characterNext] on every branch, for a cursor within its text. It frees
    the token of the last call; at the end of the text it returns SQLITE_DONE
    and changes nothing else; otherwise it moves past the next group, and either
    returns it, or SQLITE_NOMEM when its copy cannot be allocated. After
    SQLITE_NOMEM the cursor has moved all the same, so that the next call skips
    the character, without a gap in the numbers of the tokens. *)
Theorem characterNext_branches malloc_ok c z n pos tok out :
  bytes_ok z → 0 ≤ pos ≤ n → n ≤ Z.of_nat (length z) → at_position c z n pos tok →
  ∃ rc c' out', characterNext malloc_ok c out = Some (rc, c', out') ∧
    match groups (drop (Z.to_nat pos) (take (Z.to_nat n) z)) with
    | [] => rc = SQLITE_DONE ∧ out' = out ∧ at_position c' z n pos tok ∧ pToken c' = None
    | g :: gs =>
      let e := pos + Z.of_nat (length g) in
      pos < e ≤ n ∧ groups (drop (Z.to_nat e) (take (Z.to_nat n) z)) = gs ∧
      if malloc_ok
      then rc = SQLITE_OK ∧ out' = mkOut (lower_ascii <$> g) (Z.of_nat (length g)) pos e tok ∧
           at_position c' z n e (tok + 1) ∧ pToken c' = Some (lower_ascii <$> g)
      else rc = SQLITE_NOMEM ∧ at_position c' z n e tok ∧ pToken c' = None
    end.
Proof.
  intros Hz Hpos Hn Hc. destruct (drop (Z.to_nat pos) (take (Z.to_nat n) z)) as [|b l] eqn:Hd.
  - assert (n ≤ pos).
    { apply (f_equal length) in Hd. rewrite length_drop, length_take in Hd. cbn [length] in Hd. lia. }
    destruct (characterNext_done malloc_ok c z n pos tok out Hc) as (c' & -> & ? & ?); [done|]. by eexists _, _, _.
  - destruct (characterNext_token c z n pos tok out b l Hz ltac:(lia) Hn Hc Hd) as (c' & Hnext & Hc' & He & Hd' & Ht).
    rewrite groups_first. cbv zeta. rewrite Hd'.
    assert (0 < Z.of_nat (length (b :: take (cont_prefix l) l))) by (cbn [length]; lia).
    destruct malloc_ok; [by eexists _, _, _; split_and!; try done; lia|].
    destruct (characterNext_nomem c out _ _ Hnext) as (c'' & out' & -> & Hin & Hnb & Hip & Hit & Hpt).
    eexists _, _, _. split; [done|]. destruct Hc' as (? & ? & ? & _). destruct Hc as (_ & _ & _ & <-).
    split_and!; try done; try lia. unfold at_position. split_and!; congruence.
Qed.

Lemma characterNext_branches_witness :
  ∃ rc c' out', characterNext false (mkCursor (Some [65; 66]) 2 0 0 None) (mkOut [] 0 0 0 0) = Some (rc, c', out') ∧
    0 < 1 ≤ 2 ∧ groups [66] = [[66]] ∧ rc = SQLITE_NOMEM ∧ at_position c' [65; 66] 2 1 0 ∧ pToken c' = None.
Proof.
  apply (characterNext_branches false (mkCursor (Some [65; 66]) 2 0 0 None) [65; 66] 2 0 0 (mkOut [] 0 0 0 0)).
  - repeat (constructor; [unfold uint; lia|]). constructor.
  - lia.
  - cbn. lia.
  - done.
Defined.
End props.
