(* ===== verification/Unicode.v ===== *)
(** * fts3_html_tokenizer.c: classes and folding of characters

    The tables of the HTML tokenizer and the functions that search them: which
    characters are letters or digits, which are diacritics, and the folding of
    a character to lower case and to its base letter. The three binary searches
    are the same loop, [table_search]. *)
From S2P Require Import Prelude.
Local Open Scope Z_scope.

(** ** Diacritics *)

(** Nonzero for a diacritic. *)
Definition sqlite3FtsUnicodeIsdiacritic (c : Z) : Z :=
  let mask0 := 0x08029FDF in
  let mask1 := 0x000361F8 in
  if (c <? 768) || (817 <? c) then 0
  else if c <? 768 + 32 then Z.land mask0 (Z.shiftl 1 (c - 768))
  else Z.land mask1 (Z.shiftl 1 (c - 768 - 32)).

(** ** Binary search *)

(** The loop [while (iHi >= iLo) ...], for the test [key >= a[iTest]]: [iRes]. *)
Fixpoint table_search (fuel : nat) (test : Z → bool) (iLo iHi iRes : Z) : option Z :=
  match fuel with
  | O => None
  | S fuel =>
    if iLo <=? iHi then
      let iTest := (iHi + iLo) / 2 in
      if test iTest then table_search fuel test (iTest + 1) iHi iTest
      else table_search fuel test iLo (iTest - 1) iRes
    else Some iRes
  end.

(** ** Letters and digits *)

(** A range of characters that are not letters or digits: the first in the 22
    high bits, their number in the 10 low bits. *)
Definition alnum_aEntry : list Z := concat
  [[0x00000030; 0x0000E807; 0x00016C06; 0x0001EC2F; 0x0002AC07; 0x0002D001; 0x0002D803; 0x0002EC01];
   [0x0002FC01; 0x00035C01; 0x0003DC01; 0x000B0804; 0x000B480E; 0x000B9407; 0x000BB401; 0x000BBC81];
   [0x000DD401; 0x000DF801; 0x000E1002; 0x000E1C01; 0x000FD801; 0x00120808; 0x00156806; 0x00162402];
   [0x00163C01; 0x00164437; 0x0017CC02; 0x00180005; 0x00181816; 0x00187802; 0x00192C15; 0x0019A804];
   [0x0019C001; 0x001B5001; 0x001B580F; 0x001B9C07; 0x001BF402; 0x001C000E; 0x001C3C01; 0x001C4401];
   [0x001CC01B; 0x001E980B; 0x001FAC09; 0x001FD804; 0x00205804; 0x00206C09; 0x00209403; 0x0020A405];
   [0x0020C00F; 0x00216403; 0x00217801; 0x0023901B; 0x00240004; 0x0024E803; 0x0024F812; 0x00254407];
   [0x00258804; 0x0025C001; 0x00260403; 0x0026F001; 0x0026F807; 0x00271C02; 0x00272C03; 0x00275C01];
   [0x00278802; 0x0027C802; 0x0027E802; 0x00280403; 0x0028F001; 0x0028F805; 0x00291C02; 0x00292C03];
   [0x00294401; 0x0029C002; 0x0029D401; 0x002A0403; 0x002AF001; 0x002AF808; 0x002B1C03; 0x002B2C03];
   [0x002B8802; 0x002BC002; 0x002C0403; 0x002CF001; 0x002CF807; 0x002D1C02; 0x002D2C03; 0x002D5802];
   [0x002D8802; 0x002DC001; 0x002E0801; 0x002EF805; 0x002F1803; 0x002F2804; 0x002F5C01; 0x002FCC08];
   [0x00300403; 0x0030F807; 0x00311803; 0x00312804; 0x00315402; 0x00318802; 0x0031FC01; 0x00320802];
   [0x0032F001; 0x0032F807; 0x00331803; 0x00332804; 0x00335402; 0x00338802; 0x00340802; 0x0034F807];
   [0x00351803; 0x00352804; 0x00355C01; 0x00358802; 0x0035E401; 0x00360802; 0x00372801; 0x00373C06];
   [0x00375801; 0x00376008; 0x0037C803; 0x0038C401; 0x0038D007; 0x0038FC01; 0x00391C09; 0x00396802];
   [0x003AC401; 0x003AD006; 0x003AEC02; 0x003B2006; 0x003C041F; 0x003CD00C; 0x003DC417; 0x003E340B];
   [0x003E6424; 0x003EF80F; 0x003F380D; 0x0040AC14; 0x00412806; 0x00415804; 0x00417803; 0x00418803];
   [0x00419C07; 0x0041C404; 0x0042080C; 0x00423C01; 0x00426806; 0x0043EC01; 0x004D740C; 0x004E400A];
   [0x00500001; 0x0059B402; 0x005A0001; 0x005A6C02; 0x005BAC03; 0x005C4803; 0x005CC805; 0x005D4802];
   [0x005DC802; 0x005ED023; 0x005F6004; 0x005F7401; 0x0060000F; 0x0062A401; 0x0064800C; 0x0064C00C];
   [0x00650001; 0x00651002; 0x0066C011; 0x00672002; 0x00677822; 0x00685C05; 0x00687802; 0x0069540A];
   [0x0069801D; 0x0069FC01; 0x006A8007; 0x006AA006; 0x006C0005; 0x006CD011; 0x006D6823; 0x006E0003];
   [0x006E840D; 0x006F980E; 0x006FF004; 0x00709014; 0x0070EC05; 0x0071F802; 0x00730008; 0x00734019];
   [0x0073B401; 0x0073C803; 0x00770027; 0x0077F004; 0x007EF401; 0x007EFC03; 0x007F3403; 0x007F7403];
   [0x007FB403; 0x007FF402; 0x00800065; 0x0081A806; 0x0081E805; 0x00822805; 0x0082801A; 0x00834021];
   [0x00840002; 0x00840C04; 0x00842002; 0x00845001; 0x00845803; 0x00847806; 0x00849401; 0x00849C01];
   [0x0084A401; 0x0084B801; 0x0084E802; 0x00850005; 0x00852804; 0x00853C01; 0x00864264; 0x00900027];
   [0x0091000B; 0x0092704E; 0x00940200; 0x009C0475; 0x009E53B9; 0x00AD400A; 0x00B39406; 0x00B3BC03];
   [0x00B3E404; 0x00B3F802; 0x00B5C001; 0x00B5FC01; 0x00B7804F; 0x00B8C00C; 0x00BA001A; 0x00BA6C59];
   [0x00BC00D6; 0x00BFC00C; 0x00C00005; 0x00C02019; 0x00C0A807; 0x00C0D802; 0x00C0F403; 0x00C26404];
   [0x00C28001; 0x00C3EC01; 0x00C64002; 0x00C6580A; 0x00C70024; 0x00C8001F; 0x00C8A81E; 0x00C94001];
   [0x00C98020; 0x00CA2827; 0x00CB003F; 0x00CC0100; 0x01370040; 0x02924037; 0x0293F802; 0x02983403];
   [0x0299BC10; 0x029A7C01; 0x029BC008; 0x029C0017; 0x029C8002; 0x029E2402; 0x02A00801; 0x02A01801];
   [0x02A02C01; 0x02A08C09; 0x02A0D804; 0x02A1D004; 0x02A20002; 0x02A2D011; 0x02A33802; 0x02A38012];
   [0x02A3E003; 0x02A4980A; 0x02A51C0D; 0x02A57C01; 0x02A60004; 0x02A6CC1B; 0x02A77802; 0x02A8A40E];
   [0x02A90C01; 0x02A93002; 0x02A97004; 0x02A9DC03; 0x02A9EC01; 0x02AAC001; 0x02AAC803; 0x02AADC02];
   [0x02AAF802; 0x02AB0401; 0x02AB7802; 0x02ABAC07; 0x02ABD402; 0x02AF8C0B; 0x03600001; 0x036DFC02];
   [0x036FFC02; 0x037FFC01; 0x03EC7801; 0x03ECA401; 0x03EEC810; 0x03F4F802; 0x03F7F002; 0x03F8001A];
   [0x03F88007; 0x03F8C023; 0x03F95013; 0x03F9A004; 0x03FBFC01; 0x03FC040F; 0x03FC6807; 0x03FCEC06];
   [0x03FD6C0B; 0x03FF8007; 0x03FFA007; 0x03FFE405; 0x04040003; 0x0404DC09; 0x0405E411; 0x0406400C];
   [0x0407402E; 0x040E7C01; 0x040F4001; 0x04215C01; 0x04247C01; 0x0424FC01; 0x04280403; 0x04281402];
   [0x04283004; 0x0428E003; 0x0428FC01; 0x04294009; 0x0429FC01; 0x042CE407; 0x04400003; 0x0440E016];
   [0x04420003; 0x0442C012; 0x04440003; 0x04449C0E; 0x04450004; 0x04460003; 0x0446CC0E; 0x04471404];
   [0x045AAC0D; 0x0491C004; 0x05BD442E; 0x05BE3C04; 0x074000F6; 0x07440027; 0x0744A4B5; 0x07480046];
   [0x074C0057; 0x075B0401; 0x075B6C01; 0x075BEC01; 0x075C5401; 0x075CD401; 0x075D3C01; 0x075DBC01];
   [0x075E2401; 0x075EA401; 0x075F0C01; 0x07BBC002; 0x07C0002C; 0x07C0C064; 0x07C2800F; 0x07C2C40E];
   [0x07C3040F; 0x07C3440F; 0x07C4401F; 0x07C4C03C; 0x07C5C02B; 0x07C7981D; 0x07C8402B; 0x07C90009];
   [0x07C94002; 0x07CC0021; 0x07CCC006; 0x07CCDC46; 0x07CE0014; 0x07CE8025; 0x07CF1805; 0x07CF8011];
   [0x07D0003F; 0x07D10001; 0x07D108B6; 0x07D3E404; 0x07D4003E; 0x07D50004; 0x07D54018; 0x07D7EC46];
   [0x07D9140B; 0x07DA0046; 0x07DC0074; 0x38000401; 0x38008060; 0x380400F0]].

Definition alnum_aAscii : list Z := [0xFFFFFFFF; 0xFC00FFFF; 0xF8000001; 0xF8000001].

Definition sqlite3FtsUnicodeIsalnum (c : Z) : option Z :=
  if c <? 128 then
    a ← alnum_aAscii !! Z.to_nat (Z.shiftr c 5);
    Some (Z.b2z (Z.land a (Z.shiftl 1 (Z.land c 0x1F)) =? 0))
  else if c <? Z.shiftl 1 22 then
    let key := Z.lor (u32 (Z.shiftl c 10)) 0x3FF in
    let n := Z.of_nat (length alnum_aEntry) in
    iRes ← table_search (S (length alnum_aEntry)) (λ i, nth (Z.to_nat i) alnum_aEntry 0 <=? key) 0 (n - 1) 0;
    x ← alnum_aEntry !! Z.to_nat iRes;
    Some (Z.b2z (Z.shiftr x 10 + Z.land x 0x3FF <=? c))
  else Some 1.

(** ** Letters with diacritics *)

Definition aDia : list Z := concat
  [[0; 1797; 1848; 1859; 1891; 1928; 1940; 1995; 2024; 2040; 2060; 2110];
   [2168; 2206; 2264; 2286; 2344; 2383; 2472; 2488; 2516; 2596; 2668; 2732];
   [2782; 2842; 2894; 2954; 2984; 3000; 3028; 3336; 3456; 3696; 3712; 3728];
   [3744; 3896; 3912; 3928; 3968; 4008; 4040; 4106; 4138; 4170; 4202; 4234];
   [4266; 4296; 4312; 4344; 4408; 4424; 4472; 4504; 6148; 6198; 6264; 6280];
   [6360; 6429; 6505; 6529; 61448; 61468; 61534; 61592; 61642; 61688; 61704; 61726];
   [61784; 61800; 61836; 61880; 61914; 61948; 61998; 62122; 62154; 62200; 62218; 62302];
   [62364; 62442; 62478; 62536; 62554; 62584; 62604; 62640; 62648; 62656; 62664; 62730];
   [62924; 63050; 63082; 63274; 63390]].

Definition aChar : list Z := concat
  [[0; 97; 99; 101; 105; 110; 111; 117; 121; 121; 97; 99; 100; 101; 101; 103];
   [104; 105; 106; 107; 108; 110; 111; 114; 115; 116; 117; 117; 119; 121; 122; 111];
   [117; 97; 105; 111; 117; 103; 107; 111; 106; 103; 110; 97; 101; 105; 111; 114];
   [117; 115; 116; 104; 97; 101; 111; 121; 0; 0; 0; 0; 0; 0; 0; 0];
   [97; 98; 100; 100; 101; 102; 103; 104; 104; 105; 107; 108; 108; 109; 110; 112];
   [114; 114; 115; 116; 117; 118; 119; 119; 120; 121; 122; 104; 116; 119; 121; 97];
   [101; 105; 111; 117; 121]].

Definition remove_diacritic (c : Z) : option Z :=
  let key := Z.lor (u32 (Z.shiftl c 3)) 7 in
  let n := Z.of_nat (length aDia) in
  iRes ← table_search (S (length aDia)) (λ i, nth (Z.to_nat i) aDia 0 <=? key) 0 (n - 1) 0;
  x ← aDia !! Z.to_nat iRes;
  y ← aChar !! Z.to_nat iRes;
  Some (if Z.shiftr x 3 + Z.land x 7 <? c then c else y).

(** ** Folding to lower case *)

Record TableEntry := entry { iCode : Z; flags : Z; nRange : Z }.

Definition fold_aEntry : list TableEntry := concat
  [[entry 65 14 26; entry 181 64 1; entry 192 14 23; entry 216 14 7; entry 256 1 48];
   [entry 306 1 6; entry 313 1 16; entry 330 1 46; entry 376 116 1; entry 377 1 6];
   [entry 383 104 1; entry 385 50 1; entry 386 1 4; entry 390 44 1; entry 391 0 1];
   [entry 393 42 2; entry 395 0 1; entry 398 32 1; entry 399 38 1; entry 400 40 1];
   [entry 401 0 1; entry 403 42 1; entry 404 46 1; entry 406 52 1; entry 407 48 1];
   [entry 408 0 1; entry 412 52 1; entry 413 54 1; entry 415 56 1; entry 416 1 6];
   [entry 422 60 1; entry 423 0 1; entry 425 60 1; entry 428 0 1; entry 430 60 1];
   [entry 431 0 1; entry 433 58 2; entry 435 1 4; entry 439 62 1; entry 440 0 1];
   [entry 444 0 1; entry 452 2 1; entry 453 0 1; entry 455 2 1; entry 456 0 1];
   [entry 458 2 1; entry 459 1 18; entry 478 1 18; entry 497 2 1; entry 498 1 4];
   [entry 502 122 1; entry 503 134 1; entry 504 1 40; entry 544 110 1; entry 546 1 18];
   [entry 570 70 1; entry 571 0 1; entry 573 108 1; entry 574 68 1; entry 577 0 1];
   [entry 579 106 1; entry 580 28 1; entry 581 30 1; entry 582 1 10; entry 837 36 1];
   [entry 880 1 4; entry 886 0 1; entry 902 18 1; entry 904 16 3; entry 908 26 1];
   [entry 910 24 2; entry 913 14 17; entry 931 14 9; entry 962 0 1; entry 975 4 1];
   [entry 976 140 1; entry 977 142 1; entry 981 146 1; entry 982 144 1; entry 984 1 24];
   [entry 1008 136 1; entry 1009 138 1; entry 1012 130 1; entry 1013 128 1; entry 1015 0 1];
   [entry 1017 152 1; entry 1018 0 1; entry 1021 110 3; entry 1024 34 16; entry 1040 14 32];
   [entry 1120 1 34; entry 1162 1 54; entry 1216 6 1; entry 1217 1 14; entry 1232 1 88];
   [entry 1329 22 38; entry 4256 66 38; entry 4295 66 1; entry 4301 66 1; entry 7680 1 150];
   [entry 7835 132 1; entry 7838 96 1; entry 7840 1 96; entry 7944 150 8; entry 7960 150 6];
   [entry 7976 150 8; entry 7992 150 8; entry 8008 150 6; entry 8025 151 8; entry 8040 150 8];
   [entry 8072 150 8; entry 8088 150 8; entry 8104 150 8; entry 8120 150 2; entry 8122 126 2];
   [entry 8124 148 1; entry 8126 100 1; entry 8136 124 4; entry 8140 148 1; entry 8152 150 2];
   [entry 8154 120 2; entry 8168 150 2; entry 8170 118 2; entry 8172 152 1; entry 8184 112 2];
   [entry 8186 114 2; entry 8188 148 1; entry 8486 98 1; entry 8490 92 1; entry 8491 94 1];
   [entry 8498 12 1; entry 8544 8 16; entry 8579 0 1; entry 9398 10 26; entry 11264 22 47];
   [entry 11360 0 1; entry 11362 88 1; entry 11363 102 1; entry 11364 90 1; entry 11367 1 6];
   [entry 11373 84 1; entry 11374 86 1; entry 11375 80 1; entry 11376 82 1; entry 11378 0 1];
   [entry 11381 0 1; entry 11390 78 2; entry 11392 1 100; entry 11499 1 4; entry 11506 0 1];
   [entry 42560 1 46; entry 42624 1 24; entry 42786 1 14; entry 42802 1 62; entry 42873 1 4];
   [entry 42877 76 1; entry 42878 1 10; entry 42891 0 1; entry 42893 74 1; entry 42896 1 4];
   [entry 42912 1 10; entry 42922 72 1; entry 65313 14 26]].

Definition aiOff : list Z := concat
  [[1; 2; 8; 15; 16; 26; 28; 32; 37; 38; 40; 48];
   [63; 64; 69; 71; 79; 80; 116; 202; 203; 205; 206; 207];
   [209; 210; 211; 213; 214; 217; 218; 219; 775; 7264; 10792; 10795];
   [23228; 23256; 30204; 54721; 54753; 54754; 54756; 54787; 54793; 54809; 57153; 57274];
   [57921; 58019; 58363; 61722; 65268; 65341; 65373; 65406; 65408; 65410; 65415; 65424];
   [65436; 65439; 65450; 65462; 65472; 65476; 65478; 65480; 65482; 65488; 65506; 65511];
   [65514; 65521; 65527; 65528; 65529]].

(** The rule of the table that applies to [c], if one does. *)
Definition fold_rule (c : Z) : option Z :=
  let n := Z.of_nat (length fold_aEntry) in
  iRes ← table_search (S (length fold_aEntry))
           (λ i, iCode (nth (Z.to_nat i) fold_aEntry (entry 0 0 0)) <=? c) 0 (n - 1) (-1);
  if 0 <=? iRes then
    p ← fold_aEntry !! Z.to_nat iRes;
    if (c <? iCode p + nRange p) && (Z.land (Z.land 0x01 (flags p)) (Z.lxor (iCode p) c) =? 0) then
      off ← aiOff !! Z.to_nat (Z.shiftr (flags p) 1);
      Some (Z.land (c + off) 0x0000FFFF)
    else Some c
  else Some c.

Definition sqlite3FtsUnicodeFold (c : Z) (bRemoveDiacritic : bool) : option Z :=
  if c <? 128 then Some (if (65 <=? c) && (c <=? 90) then c + (97 - 65) else c)
  else if c <? 65536 then
    ret ← fold_rule c;
    if bRemoveDiacritic then remove_diacritic ret else Some ret
  else if (66560 <=? c) && (c <? 66600) then Some (c + 40)
  else Some c.
