(* ===== verification/UnicodeProofs.v ===== *)
(** * fts3_html_tokenizer.c: classes and folding, the lemmas

    The binary search finds the last entry that passes its test; the tables are
    in order; so the functions on characters are what a search through the
    whole table would give. *)
From S2P Require Import Prelude Unicode.
Local Open Scope Z_scope.

(** ** Tables in order *)

Section pairwise.
Context {A : Type} (r : A → A → bool).

(** Every entry is related to the next. *)
Fixpoint pairwise (l : list A) : bool :=
  match l with
  | x :: l => match l with y :: _ => r x y | [] => true end && pairwise l
  | [] => true
  end.

Lemma pairwise_lookup l i j x y :
  (∀ a b c, r a b → r b c → r a c) → pairwise l → (i < j)%nat → l !! i = Some x → l !! j = Some y → r x y.
Proof.
  intros Htrans. revert i j x. induction l as [|a l IH]; intros i j x Hl Hij Hi Hj; [done|].
  cbn [pairwise] in Hl. apply andb_prop_elim in Hl as [Ha Hl].
  destruct j as [|j]; [lia|]. destruct l as [|b l]; [done|]. destruct i as [|i].
  - injection Hi as ->. destruct j as [|j]; [by injection Hj as <-|].
    apply (Htrans _ b); [done|]. by apply (IH 0%nat (S j) b Hl); [lia|..].
  - apply (IH i j x Hl); [lia|done|done].
Qed.
End pairwise.

(** ** Binary search *)

Lemma table_search_spec fuel test iLo iHi iRes n r0 :
  0 ≤ iLo ≤ iHi + 1 → iHi < n → (Z.to_nat (iHi - iLo + 1) < fuel)%nat →
  (∀ i j, 0 ≤ i ≤ j → j < n → test j = true → test i = true) →
  (∀ i, 0 ≤ i < iLo → test i = true) → (∀ i, iHi < i < n → test i = false) →
  iRes = (if iLo =? 0 then r0 else iLo - 1) →
  ∃ k, 0 ≤ k ≤ n ∧ (∀ i, 0 ≤ i < k → test i = true) ∧ (∀ i, k ≤ i < n → test i = false) ∧
    table_search fuel test iLo iHi iRes = Some (if k =? 0 then r0 else k - 1).
Proof.
  revert iLo iHi iRes. induction fuel as [|fuel IH]; intros iLo iHi iRes HLo HHi Hf Hmono Hbelow Habove Hres; [lia|].
  cbn [table_search]. destruct (Z.leb_spec iLo iHi).
  - pose proof (Z.div_mod (iHi + iLo) 2 ltac:(lia)). pose proof (Z.mod_pos_bound (iHi + iLo) 2 ltac:(lia)).
    set (iTest := (iHi + iLo) / 2) in *. destruct (test iTest) eqn:Ht.
    + apply IH; [lia|lia|lia|done| |done|].
      * intros i Hi. apply (Hmono i iTest); [lia|lia|done].
      * destruct (Z.eqb_spec (iTest + 1) 0); lia.
    + apply IH; [lia|lia|lia|done|done| |done].
      intros i Hi. destruct (test i) eqn:Hti; [|done]. rewrite <-Ht. symmetry. apply (Hmono iTest i); [lia|lia|done].
  - exists iLo. split_and!; [lia|lia|done|intros i Hi; apply Habove; lia|by subst].
Qed.

(** On a table whose keys ascend, the search from the whole table finds the last
    key that is not above [key]. *)
Lemma table_search_keys {A} (table : list A) (d : A) (first : A → Z) key r0 :
  pairwise (λ x y, first x <? first y) table →
  ∃ k, (k ≤ length table)%nat ∧
    (∀ i x, table !! i = Some x → (i < k)%nat ↔ first x ≤ key) ∧
    table_search (S (length table)) (λ i, first (nth (Z.to_nat i) table d) <=? key) 0 (Z.of_nat (length table) - 1) r0 =
      Some (if (k =? 0)%nat then r0 else Z.of_nat k - 1).
Proof.
  intros Hasc. set (test := λ i : Z, first (nth (Z.to_nat i) table d) <=? key).
  assert (Hlook : ∀ i x, table !! i = Some x → test (Z.of_nat i) = (first x <=? key)).
  { intros i x Hx. unfold test. rewrite Nat2Z.id. by rewrite (nth_lookup_Some _ _ _ _ Hx). }
  assert (Hmono : ∀ i j, 0 ≤ i ≤ j → j < Z.of_nat (length table) → test j = true → test i = true).
  { intros i j Hij Hj. destruct (decide (i = j)) as [->|]; [done|].
    destruct (lookup_lt_is_Some_2 table (Z.to_nat i)) as [x Hx]; [lia|].
    destruct (lookup_lt_is_Some_2 table (Z.to_nat j)) as [y Hy]; [lia|].
    pose proof (Hlook _ _ Hx) as Hxi. pose proof (Hlook _ _ Hy) as Hyj. rewrite !Z2Nat.id in * by lia.
    rewrite Hxi, Hyj, !Z.leb_le. intros.
    assert (first x <? first y) as Hlt; [|apply Is_true_true, Z.ltb_lt in Hlt; lia].
    apply (pairwise_lookup (λ x y, first x <? first y) table (Z.to_nat i) (Z.to_nat j)); [|done|lia|done|done].
    intros a b c. rewrite !Is_true_true, !Z.ltb_lt. lia. }
  destruct (table_search_spec (S (length table)) test 0 (Z.of_nat (length table) - 1) r0 (Z.of_nat (length table)) r0)
    as (k & Hk & Hbelow & Habove & ->); [lia|lia|lia|done|lia|lia|done|].
  exists (Z.to_nat k). split; [lia|]. split.
  - intros i x Hx. rewrite <-Z.leb_le, <-(Hlook _ _ Hx). pose proof (lookup_lt_Some _ _ _ Hx). split.
    + intros. apply Hbelow. lia.
    + intros Ht. destruct (decide (k ≤ Z.of_nat i)); [|lia]. rewrite Habove in Ht by lia. done.
  - f_equal. destruct (Z.eqb_spec k 0), (Nat.eqb_spec (Z.to_nat k) 0); lia.
Qed.

(** ** Letters and digits *)

Definition range_first (x : Z) : Z := Z.shiftr x 10.
Definition range_end (x : Z) : Z := Z.shiftr x 10 + Z.land x 0x3FF.

Lemma range_first_le x key : x ≤ Z.lor (Z.shiftl key 10) 0x3FF ↔ range_first x ≤ key.
Proof.
  unfold range_first. rewrite Z.shiftr_div_pow2 by lia.
  assert (Z.lor (Z.shiftl key 10) 0x3FF = key * 1024 + 1023) as ->.
  { rewrite Z.shiftl_mul_pow2 by lia. change 1023 with (Z.ones 10). change (2 ^ 10) with 1024.
    rewrite <-Z.add_lor_land. rewrite (Z.land_ones _ 10) by lia. change (2 ^ 10) with 1024.
    rewrite Z.mod_mul by lia. change (Z.ones 10) with 1023. lia. }
  change (2 ^ 10) with 1024. pose proof (Z.div_mod x 1024 ltac:(lia)). pose proof (Z.mod_pos_bound x 1024 ltac:(lia)). lia.
Qed.

Lemma alnum_ascending : pairwise (λ x y, x <? y) alnum_aEntry.
Proof. apply Is_true_true. vm_compute. reflexivity. Qed.

Lemma alnum_disjoint : pairwise (λ x y, range_end x <=? range_first y) alnum_aEntry.
Proof. apply Is_true_true. vm_compute. reflexivity. Qed.

Lemma range_first_end x : range_first x ≤ range_end x.
Proof. unfold range_first, range_end. pose proof (Z.land_nonneg x 0x3FF). lia. Qed.

Lemma alnum_first_0 : alnum_aEntry !! 0%nat = Some 0x30.
Proof. reflexivity. Qed.

(** The search in the table of ranges. *)
Lemma sqlite3FtsUnicodeIsalnum_search c :
  128 ≤ c < 2 ^ 22 →
  ∃ a, sqlite3FtsUnicodeIsalnum c = Some (Z.b2z a) ∧
    (a = false ↔ ∃ x, x ∈ alnum_aEntry ∧ range_first x ≤ c < range_end x).
Proof.
  intros Hc. unfold sqlite3FtsUnicodeIsalnum. change (Z.shiftl 1 22) with (2 ^ 22).
  destruct (Z.ltb_spec c 128); [lia|]. destruct (Z.ltb_spec c (2 ^ 22)); [|lia].
  unfold u32. rewrite wrap_small by (unfold uint; rewrite Z.shiftl_mul_pow2 by lia; lia).
  destruct (table_search_keys alnum_aEntry 0 (λ x, x) (Z.lor (Z.shiftl c 10) 0x3FF) 0 alnum_ascending) as (k & Hk & Hin & ->).
  assert (0 < k)%nat as Hk0 by (apply (Hin 0%nat _ alnum_first_0), range_first_le; change (range_first 0x30) with 0; lia).
  destruct (Nat.eqb_spec k 0); [lia|]. cbn [mbind option_bind].
  destruct (lookup_lt_is_Some_2 alnum_aEntry (k - 1)) as [x Hx]; [lia|].
  replace (Z.to_nat (Z.of_nat k - 1)) with (k - 1)%nat by lia. rewrite Hx. cbn [mbind option_bind].
  fold (range_end x). eexists. split; [done|].
  assert (range_first x ≤ c) as Hfx by (apply range_first_le, (Hin _ _ Hx); lia).
  rewrite Z.leb_gt. split.
  - intros Hlt. exists x. split; [by eapply list_elem_of_lookup_2|lia].
  - intros (y & [j Hj]%list_elem_of_lookup & Hy). pose proof (proj2 (Hin _ _ Hj) (proj2 (range_first_le y c) ltac:(lia))) as Hjk.
    destruct (decide (j = (k - 1)%nat)) as [->|]; [by simplify_eq; lia|].
    assert (range_end y <=? range_first x) as Hyx.
    { apply (pairwise_lookup (λ x y, range_end x <=? range_first y) alnum_aEntry j (k - 1));
        [|exact alnum_disjoint|lia|done|done].
      intros a b d. rewrite !Is_true_true, !Z.leb_le. pose proof (range_first_end b). lia. }
    rewrite Is_true_true, Z.leb_le in Hyx. lia.
Qed.

(** The function is total, and its result is 0 or 1. *)
Lemma sqlite3FtsUnicodeIsalnum_total c : ∃ a, sqlite3FtsUnicodeIsalnum c = Some (Z.b2z a).
Proof.
  unfold sqlite3FtsUnicodeIsalnum at 1. destruct (Z.ltb_spec c 128).
  - destruct (lookup_lt_is_Some_2 alnum_aAscii (Z.to_nat (Z.shiftr c 5))) as [x ->]; [|by eexists].
    rewrite Z.shiftr_div_pow2 by lia. change (length alnum_aAscii) with 4%nat.
    assert (c / 2 ^ 5 < 4) by (apply Z.div_lt_upper_bound; lia). lia.
  - destruct (Z.ltb_spec c (Z.shiftl 1 22)); [|by exists true].
    destruct (sqlite3FtsUnicodeIsalnum_search c) as (a & Ha & _); [change (2 ^ 22) with (Z.shiftl 1 22); lia|].
    exists a. rewrite <-Ha. unfold sqlite3FtsUnicodeIsalnum. destruct (Z.ltb_spec c 128); [lia|].
    by destruct (Z.ltb_spec c (Z.shiftl 1 22)); [|lia].
Qed.

(** ** Folding *)

Lemma fold_ascending : pairwise (λ x y, iCode x <? iCode y) fold_aEntry.
Proof. apply Is_true_true. vm_compute. reflexivity. Qed.

Lemma dia_ascending : pairwise (λ x y, x <? y) aDia.
Proof. apply Is_true_true. vm_compute. reflexivity. Qed.

(** The indices into [aiOff] exist. *)
Lemma fold_offsets p : p ∈ fold_aEntry → is_Some (aiOff !! Z.to_nat (Z.shiftr (flags p) 1)).
Proof.
  assert (forallb (λ p, (Z.to_nat (Z.shiftr (flags p) 1) <? length aiOff)%nat) fold_aEntry = true) as Hall
    by (vm_compute; reflexivity).
  rewrite forallb_forall in Hall. intros Hp%list_elem_of_In. apply lookup_lt_is_Some_2.
  apply Nat.ltb_lt, Hall, Hp.
Qed.

(** A rule changes a character of its range only. *)
Lemma fold_rule_spec c :
  0 ≤ c → ∃ x, fold_rule c = Some x ∧ 0 ≤ x ∧
    (x = c ∨ ∃ p, p ∈ fold_aEntry ∧ iCode p ≤ c < iCode p + nRange p).
Proof.
  intros Hc. unfold fold_rule.
  destruct (table_search_keys fold_aEntry (entry 0 0 0) iCode c (-1) fold_ascending) as (k & Hk & Hin & ->).
  cbn [mbind option_bind]. destruct (Nat.eqb_spec k 0); [by exists c; auto|].
  destruct (Z.leb_spec 0 (Z.of_nat k - 1)); [|lia].
  destruct (lookup_lt_is_Some_2 fold_aEntry (k - 1)) as [p Hp]; [lia|].
  replace (Z.to_nat (Z.of_nat k - 1)) with (k - 1)%nat by lia. rewrite Hp. cbn [mbind option_bind].
  pose proof (list_elem_of_lookup_2 _ _ _ Hp) as Hpin.
  pose proof (proj1 (Hin _ _ Hp) ltac:(lia)).
  destruct (Z.ltb_spec c (iCode p + nRange p)); cbn [andb]; [|by exists c; auto].
  case_match; [|by exists c; auto].
  destruct (fold_offsets p Hpin) as [off ->]. cbn [mbind option_bind]. eexists. split; [done|].
  split; [apply Z.land_nonneg; lia|]. right. by exists p.
Qed.

Definition dia_first (x : Z) : Z := Z.shiftr x 3.

Lemma dia_first_le x key : x ≤ Z.lor (Z.shiftl key 3) 7 ↔ dia_first x ≤ key.
Proof.
  unfold dia_first. rewrite Z.shiftr_div_pow2 by lia.
  assert (Z.lor (Z.shiftl key 3) 7 = key * 8 + 7) as ->.
  { rewrite Z.shiftl_mul_pow2 by lia. change 7 with (Z.ones 3). change (2 ^ 3) with 8.
    rewrite <-Z.add_lor_land. rewrite (Z.land_ones _ 3) by lia. change (2 ^ 3) with 8.
    rewrite Z.mod_mul by lia. change (Z.ones 3) with 7. lia. }
  change (2 ^ 3) with 8. pose proof (Z.div_mod x 8 ltac:(lia)). pose proof (Z.mod_pos_bound x 8 ltac:(lia)). lia.
Qed.

Lemma aChar_nonneg i y : aChar !! i = Some y → 0 ≤ y.
Proof.
  assert (forallb (λ y, 0 <=? y) aChar = true) as Hall by reflexivity.
  rewrite forallb_forall in Hall. intros Hy%list_elem_of_lookup_2%list_elem_of_In. by apply Z.leb_le, Hall.
Qed.

(** Only a character of one of the ranges of [aDia] is changed. *)
Lemma remove_diacritic_spec c :
  0 ≤ c < 2 ^ 29 → ∃ x, remove_diacritic c = Some x ∧ 0 ≤ x ∧
    (x = c ∨ ∃ y, y ∈ aDia ∧ dia_first y ≤ c ≤ dia_first y + Z.land y 7).
Proof.
  intros Hc. unfold remove_diacritic. unfold u32.
  rewrite wrap_small by (unfold uint; rewrite Z.shiftl_mul_pow2 by lia; lia).
  destruct (table_search_keys aDia 0 (λ x, x) (Z.lor (Z.shiftl c 3) 7) 0 dia_ascending) as (k & Hk & Hin & ->).
  assert (0 < k)%nat as Hk0.
  { apply (Hin 0%nat 0 eq_refl), dia_first_le. change (dia_first 0) with 0. lia. }
  destruct (Nat.eqb_spec k 0); [lia|]. cbn [mbind option_bind].
  destruct (lookup_lt_is_Some_2 aDia (k - 1)) as [x Hx]; [lia|].
  destruct (lookup_lt_is_Some_2 aChar (k - 1)) as [y Hy]; [change (length aChar) with (length aDia); lia|].
  replace (Z.to_nat (Z.of_nat k - 1)) with (k - 1)%nat by lia. rewrite Hx, Hy. cbn [mbind option_bind].
  fold (dia_first x). eexists. split; [done|].
  pose proof (proj1 (dia_first_le x c) (proj1 (Hin _ _ Hx) ltac:(lia))).
  destruct (Z.ltb_spec (dia_first x + Z.land x 7) c); [by split; [lia|left]|].
  split; [by eapply aChar_nonneg|]. right. exists x. split; [by eapply list_elem_of_lookup_2|lia].
Qed.

Lemma sqlite3FtsUnicodeFold_total c b : 0 ≤ c → ∃ x, sqlite3FtsUnicodeFold c b = Some x ∧ 0 ≤ x.
Proof.
  intros Hc. unfold sqlite3FtsUnicodeFold. destruct (Z.ltb_spec c 128).
  - eexists. split; [done|]. case_match; lia.
  - destruct (Z.ltb_spec c 65536).
    + destruct (fold_rule_spec c Hc) as (x & Hx & Hx0 & _). rewrite Hx. cbn [mbind option_bind].
      destruct b; [|by exists x].
      assert (x < 2 ^ 29) as Hlt.
      { unfold fold_rule in Hx. revert Hx. destruct (table_search _ _ _ _ _) as [i|]; [|done]. cbn [mbind option_bind].
        case_match; [|by intros [= <-]; lia].
        destruct (fold_aEntry !! _) as [p|]; [|done]. cbn [mbind option_bind].
        case_match; [|by intros [= <-]; lia].
        destruct (aiOff !! _) as [off|]; [|done]. cbn [mbind option_bind]. intros [= <-].
        change 0x0000FFFF with (Z.ones 16). rewrite Z.land_ones by lia.
        pose proof (Z.mod_pos_bound (c + off) (2 ^ 16) ltac:(lia)). lia. }
      destruct (remove_diacritic_spec x) as (y & Hy & Hy0 & _); [lia|]. by exists y.
    + case_match; eexists; (split; [done|]); lia.
Qed.

(** ** Folding twice *)

(** The characters of the ranges of both tables: no other one changes below
    65536. *)
Definition folded_codes : list Z :=
  concat ((λ p, seqZ (iCode p) (nRange p)) <$> fold_aEntry) ++
  concat ((λ y, seqZ (dia_first y) (Z.land y 7 + 1)) <$> aDia).

Definition fold_twice (b : bool) (c : Z) : bool :=
  bool_decide ((x ← sqlite3FtsUnicodeFold c b; sqlite3FtsUnicodeFold x b) = sqlite3FtsUnicodeFold c b).

Lemma folded_codes_twice : forallb (λ c, fold_twice true c && fold_twice false c) folded_codes = true.
Proof. vm_compute. reflexivity. Qed.

Lemma seqZ_member c a n : a ≤ c < a + n → c ∈ seqZ a n.
Proof. intros. apply elem_of_seqZ. lia. Qed.

Lemma fold_unchanged c b :
  128 ≤ c < 65536 → c ∉ folded_codes → sqlite3FtsUnicodeFold c b = Some c.
Proof.
  intros Hc Hnot. unfold folded_codes in Hnot. apply not_elem_of_app in Hnot as [Hfold Hdia].
  unfold sqlite3FtsUnicodeFold. destruct (Z.ltb_spec c 128); [lia|]. destruct (Z.ltb_spec c 65536); [|lia].
  destruct (fold_rule_spec c) as (x & -> & _ & [->|(p & Hp & Hr)]); [lia| |].
  - cbn [mbind option_bind]. destruct b; [|done].
    destruct (remove_diacritic_spec c) as (x & -> & _ & [->|(y & Hy & Hr)]); [lia|done|].
    destruct Hdia. apply list_elem_of_In, in_concat. eexists. rewrite <-!list_elem_of_In.
    split; [by apply (list_elem_of_fmap_2 _ _ _ Hy)|]. apply seqZ_member. lia.
  - destruct Hfold. apply list_elem_of_In, in_concat. eexists. rewrite <-!list_elem_of_In.
    split; [by apply (list_elem_of_fmap_2 _ _ _ Hp)|]. by apply seqZ_member.
Qed.

Lemma fold_twice_all c b x : 0 ≤ c → sqlite3FtsUnicodeFold c b = Some x → sqlite3FtsUnicodeFold x b = Some x.
Proof.
  intros Hc Hx. destruct (Z.ltb_spec c 128).
  { unfold sqlite3FtsUnicodeFold in Hx. destruct (Z.ltb_spec c 128); [|lia]. revert Hx.
    destruct ((65 <=? c) && (c <=? 90)) eqn:E; intros [= <-]; unfold sqlite3FtsUnicodeFold.
    - apply andb_true_iff in E as [?%Z.leb_le ?%Z.leb_le]. destruct (Z.ltb_spec (c + (97 - 65)) 128); [|lia].
      destruct (Z.leb_spec (c + (97 - 65)) 90); [lia|]. by rewrite andb_false_r.
    - destruct (Z.ltb_spec c 128); [|lia]. by rewrite E. }
  destruct (Z.ltb_spec c 65536).
  - destruct (decide (c ∈ folded_codes)) as [Hin|Hin].
    + pose proof folded_codes_twice as Hall. rewrite forallb_forall in Hall.
      specialize (Hall c (proj1 (list_elem_of_In _ _) Hin)). apply andb_true_iff in Hall as [Ht Hf].
      unfold fold_twice in Ht, Hf. destruct b.
      * rewrite Hx in Ht. cbn [mbind option_bind] in Ht. by apply bool_decide_eq_true in Ht.
      * rewrite Hx in Hf. cbn [mbind option_bind] in Hf. by apply bool_decide_eq_true in Hf.
    + rewrite (fold_unchanged c b) in Hx by (done || lia). injection Hx as <-. by apply fold_unchanged.
  - unfold sqlite3FtsUnicodeFold in Hx. destruct (Z.ltb_spec c 128); [lia|]. destruct (Z.ltb_spec c 65536); [lia|].
    revert Hx. destruct ((66560 <=? c) && (c <? 66600)) eqn:E; intros [= <-]; unfold sqlite3FtsUnicodeFold.
    + apply andb_true_iff in E as [?%Z.leb_le ?%Z.ltb_lt].
      destruct (Z.ltb_spec (c + 40) 128); [lia|]. destruct (Z.ltb_spec (c + 40) 65536); [lia|].
      destruct (Z.ltb_spec (c + 40) 66600); [lia|]. by rewrite andb_false_r.
    + destruct (Z.ltb_spec c 128); [lia|]. destruct (Z.ltb_spec c 65536); [lia|]. by rewrite E.
Qed.
