(* ===== verification/HtmlTokenizer.v ===== *)
(** * fts3_html_tokenizer.c: the tokenizer

    The model of the full-text tokenizer for HTML: the exceptions to the classes
    of characters that its arguments ask for, the cursor, and [unicodeNext],
    which skips markup between tokens and ruby annotations inside them, and
    folds the characters of a token.

    The text is the list of the bytes of its buffer and a pointer into it is an
    offset; reading out of the buffer is [None], as is a loop that exhausts its
    fuel. The buffer of the token is the list of its [nAlloc] bytes; the bytes
    that [sqlite3_realloc] adds are whatever its memory holds, an argument. The
    stemmer is the Snowball library, a parameter. *)
From S2P Require Import Prelude Ctype Utf8 CharTokenizer Unicode.
From stdpp Require Import strings.
Local Open Scope Z_scope.

(** ** Reading the text *)

Definition peek (buf : list Z) (z : Z) : option Z := if 0 <=? z then buf !! Z.to_nat z else None.

(** [while( zIn!=zTerm && ( *zIn & 0xc0)==0x80 ) c = (c<<6) + (0x3f & *(zIn++))]. *)
Fixpoint read_continue (fuel : nat) (buf : list Z) (zTerm z c : Z) : option (Z * Z) :=
  match fuel with
  | O => None
  | S fuel =>
    if z =? zTerm then Some (c, z)
    else
      b ← peek buf z;
      if Z.land b 0xc0 =? 0x80 then read_continue fuel buf zTerm (z + 1) (s32 (s32 (Z.shiftl c 6) + Z.land 0x3f b))
      else Some (c, z)
  end.

(** The character and the offset of the next one. *)
Definition READ_UTF8 (buf : list Z) (zTerm z : Z) : option (Z * Z) :=
  c ← peek buf z;
  let z := z + 1 in
  if 0xc0 <=? c then
    '(c, z) ← read_continue (S (length buf)) buf zTerm z (nth (Z.to_nat (c - 0xc0)) sqlite3Utf8Trans1 0);
    Some (if (c <? 0x80) || (Z.land (u32 c) 0xFFFFF800 =? 0xD800) || (Z.land (u32 c) 0xFFFFFFFE =? 0xFFFE)
          then 0xFFFD else c, z)
  else Some (c, z).

(** ** Exceptions *)

Record unicode_tokenizer := mkTokenizer {
  bRemoveDiacritic : bool;
  aiException : list Z;         (* of length nException *)
  locale : option (list Z)
}.

(** Whether a character is made an exception. *)
Definition exceptional (bAlnum : Z) (c : Z) : option bool :=
  a ← sqlite3FtsUnicodeIsalnum c;
  Some (negb (a =? bAlnum) && (sqlite3FtsUnicodeIsdiacritic c =? 0)).

(** The first loop: [nEntry]. *)
Fixpoint count_exceptions (fuel : nat) (bAlnum : Z) (buf : list Z) (zTerm z : Z) (nEntry : Z) : option Z :=
  match fuel with
  | O => None
  | S fuel =>
    if z <? zTerm then
      '(c, z) ← READ_UTF8 buf zTerm z;
      x ← exceptional bAlnum c;
      count_exceptions fuel bAlnum buf zTerm z (if (x : bool) then nEntry + 1 else nEntry)
    else Some nEntry
  end.

(** [for (i = 0; i < nNew && aNew[i] < iCode; i++)]. *)
Fixpoint insert_index (aNew : list Z) (c : Z) : nat :=
  match aNew with
  | x :: aNew => if x <? c then S (insert_index aNew c) else O
  | [] => O
  end.

Definition insert_code (aNew : list Z) (c : Z) : list Z :=
  let i := insert_index aNew c in take i aNew ++ c :: drop i aNew.

(** The second loop: [aNew]. *)
Fixpoint insert_exceptions (fuel : nat) (bAlnum : Z) (buf : list Z) (zTerm z : Z) (aNew : list Z) : option (list Z) :=
  match fuel with
  | O => None
  | S fuel =>
    if z <? zTerm then
      '(c, z) ← READ_UTF8 buf zTerm z;
      x ← exceptional bAlnum c;
      insert_exceptions fuel bAlnum buf zTerm z (if (x : bool) then insert_code aNew c else aNew)
    else Some aNew
  end.

(** On the characters from [zIn] to [zIn + nIn] of [buf]. *)
Definition unicodeAddExceptions (realloc_ok : bool) (p : unicode_tokenizer) (bAlnum : Z) (buf : list Z) (zIn nIn : Z)
    : option (Z * unicode_tokenizer) :=
  let zTerm := zIn + nIn in
  let fuel := S (Z.to_nat nIn) in
  nEntry ← count_exceptions fuel bAlnum buf zTerm zIn 0;
  if nEntry =? 0 then Some (SQLITE_OK, p)
  else if negb realloc_ok then Some (SQLITE_NOMEM, p)
  else
    aNew ← insert_exceptions fuel bAlnum buf zTerm zIn (aiException p);
    Some (SQLITE_OK, mkTokenizer (bRemoveDiacritic p) aNew (locale p)).

(** The loop [while (iHi >= iLo) ...]. *)
Fixpoint exception_search (fuel : nat) (a : list Z) (c iLo iHi : Z) : option Z :=
  match fuel with
  | O => None
  | S fuel =>
    if iLo <=? iHi then
      let iTest := (iHi + iLo) / 2 in
      x ← a !! Z.to_nat iTest;
      if c =? x then Some 1
      else if x <? c then exception_search fuel a c (iTest + 1) iHi
      else exception_search fuel a c iLo (iTest - 1)
    else Some 0
  end.

Definition unicodeIsException (p : unicode_tokenizer) (c : Z) : option Z :=
  let a := aiException p in
  if (0 <? length a)%nat then exception_search (S (length a)) a c 0 (Z.of_nat (length a) - 1) else Some 0.

Definition unicodeIsAlnum (p : unicode_tokenizer) (c : Z) : option Z :=
  a ← sqlite3FtsUnicodeIsalnum c;
  x ← unicodeIsException p c;
  Some (Z.lxor a x).

(** ** The module *)

(** One argument, a string without NUL. *)
Definition create_argument (realloc_ok : bool) (z : list Z) (p : unicode_tokenizer) : option (Z * unicode_tokenizer) :=
  let n := Z.of_nat (length z) in
  if bool_decide (z = bytes "remove_diacritics=1") then Some (SQLITE_OK, mkTokenizer true (aiException p) (locale p))
  else if bool_decide (z = bytes "remove_diacritics=0") then Some (SQLITE_OK, mkTokenizer false (aiException p) (locale p))
  else if (11 <=? n) && bool_decide (take 11 z = bytes "tokenchars=") then
    unicodeAddExceptions realloc_ok p 1 (z ++ [0]) 11 (n - 11)
  else if (11 <=? n) && bool_decide (take 11 z = bytes "separators=") then
    unicodeAddExceptions realloc_ok p 0 (z ++ [0]) 11 (n - 11)
  else if 0 <? n then Some (SQLITE_OK, mkTokenizer (bRemoveDiacritic p) (aiException p) (Some z))
  else Some (SQLITE_ERROR, p).

(** [for (i = 0; rc == SQLITE_OK && i < nArg; i++)]. *)
Fixpoint create_loop (realloc_ok : nat → bool) (i : nat) (azArg : list (list Z)) (p : unicode_tokenizer)
    : option (Z * unicode_tokenizer) :=
  match azArg with
  | [] => Some (SQLITE_OK, p)
  | z :: azArg =>
    '(rc, p) ← create_argument (realloc_ok i) z p;
    if rc =? SQLITE_OK then create_loop realloc_ok (S i) azArg p else Some (rc, p)
  end.

(** [realloc_ok] says for each argument whether memory for its exceptions is
    there; the copy of a locale, whose allocation the code does not test, is
    assumed to succeed. *)
Definition unicodeCreate (malloc_ok : bool) (realloc_ok : nat → bool) (azArg : list (list Z))
    : option (Z * option unicode_tokenizer) :=
  if negb malloc_ok then Some (SQLITE_NOMEM, None)
  else
    '(rc, pNew) ← create_loop realloc_ok 0 azArg (mkTokenizer true [] None);
    Some (rc, if rc =? SQLITE_OK then Some pNew else None).

(** The array of exceptions and the tokenizer are freed; the copy of the locale
    is not. *)
Definition unicodeDestroy (pTokenizer : option unicode_tokenizer) : Z := SQLITE_OK.

(** ** Markup *)

Definition ignore_tags : list (list Z * list Z) :=
  [(bytes "sup class=" ++ [34] ++ bytes "marker" ++ [34], bytes "sup"); (bytes "head", bytes "head");
   (bytes "footer class=" ++ [34] ++ bytes "study-notes" ++ [34], bytes "footer");
   (bytes "footer class=" ++ [34] ++ bytes "notes" ++ [34], bytes "footer")].

Definition nonbreaking_tags : list (list Z) := [bytes "ruby"].
Definition nonbreaking_ignore_tags : list (list Z) := [bytes "rp"; bytes "rt"].

(** [!strncasecmp(z, tag, strlen(tag))] and [strstr(z, tagEnd)], as offsets. *)
Definition tag_at (buf : list Z) (z : Z) (tag : list Z) : option bool := starts_case (drop (Z.to_nat z) buf) tag.
Definition find_tag (buf : list Z) (z : Z) (tagEnd : list Z) : option (option Z) :=
  option_map (option_map (Z.add z)) (strstr (drop (Z.to_nat z) buf) tagEnd).

(** [while (z != zTerm && z[0] != '>') z++]. *)
Fixpoint skip_to_gt (fuel : nat) (buf : list Z) (zTerm z : Z) : option Z :=
  match fuel with
  | O => None
  | S fuel =>
    if z =? zTerm then Some z
    else b ← peek buf z; if b =? 62 then Some z else skip_to_gt fuel buf zTerm (z + 1)
  end.

(** The loop over the elements whose content is ignored: [z] and [ignoredTag]. *)
Fixpoint skip_ignored (tags : list (list Z * list Z)) (buf : list Z) (z : Z) (ignored : bool) : option (Z * bool) :=
  match tags with
  | [] => Some (z, ignored)
  | (opening, closing) :: tags =>
    m ← tag_at buf z opening;
    if (m : bool) then
      let z := z + Z.of_nat (length opening) in
      _ ← peek buf z;
      found ← find_tag buf z (closing ++ [62]);
      match found with
      | Some f => let z := f + Z.of_nat (length closing) in _ ← peek buf z; Some (z, true)
      | None => skip_ignored tags buf z true
      end
    else skip_ignored tags buf z ignored
  end.

(** From the [<] at [z] to the end of the markup between tokens. *)
Definition skip_markup (buf : list Z) (zTerm z : Z) : option Z :=
  let z := z + 1 in
  b ← peek buf z;
  z ← (if b =? 47 then Some z
       else
         '(z, ignored) ← skip_ignored ignore_tags buf z false;
         if (ignored : bool) then Some z
         else '(z, _) ← skip_ignored ((λ t, (t, t)) <$> nonbreaking_ignore_tags) buf z false; Some z);
  skip_to_gt (S (length buf)) buf zTerm z.

(** Inside a token: the loop over [nonbreaking_tags], which starts [off] bytes
    after [z]; [z] and [ignoring_tag]. *)
Fixpoint skip_tag (off : Z) (tags : list (list Z)) (buf : list Z) (zTerm z : Z) (ignoring : bool) : option (Z * bool) :=
  match tags with
  | [] => Some (z, ignoring)
  | tag :: tags =>
    m ← tag_at buf (z + off) tag;
    if (m : bool) then
      let z := z + off + Z.of_nat (length tag) in
      _ ← peek buf z;
      z ← skip_to_gt (S (length buf)) buf zTerm z;
      _ ← peek buf z;
      skip_tag off tags buf zTerm (z + 1) true
    else skip_tag off tags buf zTerm z ignoring
  end.

(** The loop over [nonbreaking_ignore_tags]. *)
Fixpoint skip_element (tags : list (list Z)) (buf : list Z) (zTerm z : Z) (ignoring : bool) : option (Z * bool) :=
  match tags with
  | [] => Some (z, ignoring)
  | tag :: tags =>
    m ← tag_at buf (z + 1) tag;
    if (m : bool) then
      let z := z + 1 + Z.of_nat (length tag) in
      _ ← peek buf z;
      found ← find_tag buf z (tag ++ [62]);
      match found with
      | Some f =>
        let z := f + Z.of_nat (length tag) in
        _ ← peek buf z;
        z ← skip_to_gt (S (length buf)) buf zTerm z;
        _ ← peek buf z;
        Some (z + 1, true)
      | None => skip_element tags buf zTerm z true
      end
    else skip_element tags buf zTerm z ignoring
  end.

(** [while (z[0] == '<') ...]: past the ruby markup at [z]. *)
Fixpoint skip_nonbreaking (fuel : nat) (buf : list Z) (zTerm z : Z) : option Z :=
  match fuel with
  | O => None
  | S fuel =>
    b ← peek buf z;
    if b =? 60 then
      b ← peek buf (z + 1);
      if b =? 47 then
        '(z, ignoring) ← skip_tag 2 nonbreaking_tags buf zTerm z false;
        if (ignoring : bool) then skip_nonbreaking fuel buf zTerm z else Some z
      else
        '(z, ignoring) ← skip_element nonbreaking_ignore_tags buf zTerm z false;
        if (ignoring : bool) then skip_nonbreaking fuel buf zTerm z
        else
          '(z, ignoring) ← skip_tag 1 nonbreaking_tags buf zTerm z false;
          if (ignoring : bool) then skip_nonbreaking fuel buf zTerm z else Some z
    else Some z
  end.

(** ** The cursor *)

Section cursor.
Context {sb_stemmer : Type}.

(** [sb_stemmer_new] for a locale, and [sb_stemmer_stem]: the NUL-terminated
    stem, or a null pointer. *)
Context (sb_stemmer_new : list Z → option sb_stemmer) (sb_stemmer_stem : sb_stemmer → list Z → option (list Z)).

Record unicode_cursor := mkUCursor {
  aInput : list Z;              (* Input text being tokenized *)
  nInput : Z;                   (* Size of aInput[] in bytes *)
  iOff : Z;                     (* Current offset within aInput[] *)
  uToken : Z;                   (* Index of next token to be returned *)
  zToken : list Z;              (* storage for current token *)
  nAlloc : Z;                   (* space allocated at zToken *)
  stemmer : option sb_stemmer   (* Snowball stemmer *)
}.

(** The failure of the allocation is an access to a null pointer. The length of a
    text fits an int: SQLite limits texts to SQLITE_MAX_LENGTH, 10^9 bytes, so that
    the cast of strlen is the identity. *)
Definition unicodeOpen (malloc_ok : bool) (ut : unicode_tokenizer) (input : option (list Z)) (nInput : Z)
    : option (Z * unicode_cursor) :=
  if negb malloc_ok then None
  else
    n ← match input with
        | None => Some 0
        | Some z => if nInput <? 0 then strlen z else Some nInput
        end;
    let st := match locale ut with Some l => sb_stemmer_new l | None => None end in
    Some (SQLITE_OK, mkUCursor (default [] input) n 0 0 [] 0 st).

(** The token, the stemmer and the cursor are freed. *)
Definition unicodeClose (pCursor : unicode_cursor) : Z := SQLITE_OK.

(** *** The start of a token *)

(** [while (z < zTerm) ...]: [z], [zStart] and [iCode]. *)
Fixpoint scan_loop (fuel : nat) (p : unicode_tokenizer) (buf : list Z) (zTerm z zStart c : Z) : option (Z * Z * Z) :=
  match fuel with
  | O => None
  | S fuel =>
    if z <? zTerm then
      b ← peek buf z;
      z ← (if b =? 60 then skip_markup buf zTerm z else Some z);
      '(c, z) ← READ_UTF8 buf zTerm z;
      a ← unicodeIsAlnum p c;
      if a =? 0 then scan_loop fuel p buf zTerm z z c else Some (z, zStart, c)
    else Some (z, zStart, c)
  end.

(** *** The characters of a token *)

(** The variables of the loop: the token, its size, [zOut], [zEnd] and [z]. *)
Record token_state := mkTok { tk : list Z; tk_alloc : Z; zOut : Z; zEnd : Z; tk_z : Z }.

Definition write_bytes (t : list Z) (pos : Z) (l : list Z) : option (list Z) :=
  if (Z.to_nat pos + length l <=? length t)%nat
  then Some (take (Z.to_nat pos) t ++ l ++ drop (Z.to_nat pos + length l) t) else None.

(** [do { ... } while (...)]: inl when memory runs out, with the token and its
    size; inr at the end of the token. [realloc] gives the 64 bytes that are
    added to an allocation of the given size, if they are there. *)
Fixpoint token_loop (fuel : nat) (realloc : Z → option (list Z)) (p : unicode_tokenizer) (buf : list Z) (zTerm : Z)
    (t : list Z) (nAlloc zOut z c : Z) : option (list Z * Z + token_state) :=
  match fuel with
  | O => None
  | S fuel =>
    match (if nAlloc - 4 <=? zOut then l ← realloc nAlloc; Some (t ++ l, nAlloc + 64) else Some (t, nAlloc)) with
    | None => Some (inl (t, nAlloc))
    | Some (t, nAlloc) =>
      iOut ← sqlite3FtsUnicodeFold c (bRemoveDiacritic p);
      let w := if iOut =? 0 then [] else WRITE_UTF8 iOut in
      t ← write_bytes t zOut w;
      let zOut := zOut + Z.of_nat (length w) in
      let zEnd := z in
      if zTerm <=? z then Some (inr (mkTok t nAlloc zOut zEnd z))
      else
        z ← skip_nonbreaking (S (length buf)) buf zTerm z;
        b ← peek buf z;
        if b =? 60 then Some (inr (mkTok t nAlloc zOut zEnd z))
        else
          '(c, z) ← READ_UTF8 buf zTerm z;
          a ← unicodeIsAlnum p c;
          if negb (a =? 0) || negb (sqlite3FtsUnicodeIsdiacritic c =? 0)
          then token_loop fuel realloc p buf zTerm t nAlloc zOut z c
          else Some (inr (mkTok t nAlloc zOut zEnd z))
    end
  end.

(** [int overflow = strlen(zOut); ...]: a NUL is written where the first one
    after the token is preceded by other bytes. *)
Definition terminate_token (t : list Z) (zOut : Z) : option (list Z) :=
  overflow ← strlen (drop (Z.to_nat zOut) t);
  if 0 <? overflow then n ← strlen t; write_bytes t (n - overflow) [0] else Some t.

(** *** A call *)

Definition set_token (c : unicode_cursor) (t : list Z) (n : Z) : unicode_cursor :=
  mkUCursor (aInput c) (nInput c) (iOff c) (uToken c) t n (stemmer c).

(** The result code, the cursor and, with SQLITE_OK, the variables of the
    caller: the token, its size, where it starts and ends, and its number. *)
Definition unicodeNext (realloc : Z → option (list Z)) (p : unicode_tokenizer) (pCsr : unicode_cursor)
    : option (Z * unicode_cursor * option token_out) :=
  let buf := aInput pCsr in
  let zTerm := nInput pCsr in
  '(z, zStart, c) ← scan_loop (S (Z.to_nat zTerm)) p buf zTerm (iOff pCsr) (iOff pCsr) 0;
  if zTerm <=? zStart then Some (SQLITE_DONE, pCsr, None)
  else
    r ← token_loop (S (length buf)) realloc p buf zTerm (zToken pCsr) (nAlloc pCsr) 0 z c;
    match r with
    | inl (t, n) => Some (SQLITE_NOMEM, set_token pCsr t n, None)
    | inr s =>
      t ← terminate_token (tk s) (zOut s);
      let token := take (Z.to_nat (zOut s)) t in
      tok ← match stemmer pCsr with
            | Some st =>
              match sb_stemmer_stem st token with
              | Some x => n ← strlen x; Some (take (Z.to_nat n) x)
              | None => Some token
              end
            | None => Some token
            end;
      Some (SQLITE_OK, mkUCursor buf zTerm (tk_z s) (uToken pCsr + 1) t (tk_alloc s) (stemmer pCsr),
            Some (mkOut tok (Z.of_nat (length tok)) zStart (zEnd s) (uToken pCsr)))
    end.
End cursor.
