(* ===== verification/HtmlText.v ===== *)
(** * HTML tokenizer: texts and what their tokens are

    The characters of a text as the tokenizer reads them, and the specification:
    the pieces of a text and the token of each. *)
From S2P Require Import Prelude Words Ctype Utf8 Utf8Proofs CharTokenizer Unicode UnicodeProofs HtmlTokenizer.
From stdpp Require Import strings sorting.
From stdpp Require Import strings.
Local Open Scope Z_scope.

(** ** Offsets *)

Section peek.
Implicit Types (pre l buf : list Z) (z : Z).

(** [l] is what the buffer holds from [z] on. *)
Definition at_offset (buf : list Z) (z : Z) (l : list Z) : Prop := 0 ≤ z ∧ drop (Z.to_nat z) buf = l.

Lemma at_offset_app buf z l l' : at_offset buf z (l ++ l') → at_offset buf (z + Z.of_nat (length l)) l'.
Proof.
  intros [Hz Hd]. split; [lia|].
  replace (Z.to_nat (z + Z.of_nat (length l))) with (Z.to_nat z + length l)%nat by lia.
  by rewrite <-drop_drop, Hd, drop_app_length.
Qed.

Lemma at_offset_cons buf z b l : at_offset buf z (b :: l) → at_offset buf (z + 1) l.
Proof. apply (at_offset_app buf z [b]). Qed.

Lemma at_offset_peek buf z b l : at_offset buf z (b :: l) → peek buf z = Some b.
Proof.
  intros [Hz Hd]. unfold peek. destruct (Z.leb_spec 0 z); [|lia].
  rewrite <-(Nat.add_0_r (Z.to_nat z)), <-lookup_drop, Hd. done.
Qed.

Lemma at_offset_length buf z l : at_offset buf z l → (length l ≤ length buf)%nat.
Proof. intros [Hz <-]. rewrite length_drop. lia. Qed.

Lemma at_offset_intro pre l : at_offset (pre ++ l) (Z.of_nat (length pre)) l.
Proof. split; [lia|]. by rewrite Nat2Z.id, drop_app_length. Qed.

(** ** Characters *)

Lemma read_continue_spec fuel buf zTerm z c l rest c' :
  at_offset buf z (l ++ rest) → starts rest → Forall (λ b, byte_ok b ∧ continues b = true) l →
  0 ≤ c → (c + 1) * 64 ^ Z.of_nat (length l) ≤ 2 ^ 31 → z + Z.of_nat (length l) ≤ zTerm →
  (length l < fuel)%nat → utf8_continue c (l ++ rest) = Some (c', rest) →
  read_continue fuel buf zTerm z c = Some (c', z + Z.of_nat (length l)) ∧ 0 ≤ c' < 2 ^ 31.
Proof.
  intros Hat Hst Hl. revert fuel z c Hat. induction Hl as [|b l [Hok Hb] Hl IH]; intros fuel z c Hat Hc Hsmall Hz Hf Hu.
  - cbn [app length] in *. rewrite utf8_continue_starts in Hu by done. injection Hu as <-.
    rewrite Z.add_0_r. split; [|lia]. destruct fuel as [|fuel]; [lia|]. cbn [read_continue].
    destruct (Z.eqb_spec z zTerm); [done|]. destruct rest as [|b rest]; [done|].
    rewrite (at_offset_peek _ _ _ _ Hat). cbn [mbind option_bind]. cbn [starts] in Hst. unfold continues in Hst.
    by rewrite Hst.
  - cbn [app length] in *. destruct fuel as [|fuel]; [lia|]. cbn [read_continue].
    destruct (Z.eqb_spec z zTerm); [lia|]. rewrite (at_offset_peek _ _ _ _ Hat). cbn [mbind option_bind].
    pose proof Hb as Hb'. unfold continues in Hb'. rewrite Hb'.
    rewrite continues_range in Hb by done. apply andb_true_iff in Hb as [?%Z.leb_le ?%Z.ltb_lt].
    replace b with (0x80 + (b - 0x80)) in Hu |- * by lia.
    rewrite Nat2Z.inj_succ, Z.pow_succ_r in Hsmall by lia.
    assert (0 < 64 ^ Z.of_nat (length l)) by (apply Z.pow_pos_nonneg; lia).
    assert (c < 2 ^ 25) by nia.
    rewrite utf8_continue_byte in Hu by lia.
    assert (s32 (s32 (Z.shiftl c 6) + Z.land 0x3f (0x80 + (b - 0x80))) = c * 64 + (b - 0x80)) as ->.
    { rewrite Z.land_comm, land_3f, Z.shiftl_mul_pow2 by lia.
      replace (0x80 + (b - 0x80)) with (b - 0x80 + 2 * 64) by lia. rewrite Z.mod_add, (Z.mod_small (b - 0x80)) by lia.
      assert (∀ x, - 2 ^ 31 ≤ x < 2 ^ 31 → s32 x = x) as Hs.
      { intros x Hx. unfold s32. rewrite wrap_small by (unfold uint; lia). lia. }
      rewrite (Hs (c * 2 ^ 6)) by lia. rewrite Hs by lia. lia. }
    destruct (IH fuel (z + 1) (c * 64 + (b - 0x80))) as [-> ?]; [by eapply at_offset_cons|lia|nia|lia|lia|done|].
    split; [do 2 f_equal; lia|done].
Qed.

Lemma READ_UTF8_written buf zTerm z c rest :
  clean c → at_offset buf z (WRITE_UTF8 c ++ rest) → starts rest → z + Z.of_nat (length (WRITE_UTF8 c)) ≤ zTerm →
  READ_UTF8 buf zTerm z = Some (c, z + Z.of_nat (length (WRITE_UTF8 c))).
Proof.
  intros Hc Hat Hst Hz. pose proof Hc as [Hrange _].
  pose proof (utf8_read_write c rest ltac:(lia) Hst) as Hr. rewrite clean_fix in Hr by done.
  destruct (WRITE_UTF8_group c ltac:(lia)) as (b & l & E & Hl). pose proof (length_WRITE_UTF8 c) as Hlen.
  pose proof (WRITE_UTF8_ok c) as Hok. rewrite E in *. cbn [app length] in *.
  apply Forall_cons in Hok as [Hb Hok].
  unfold READ_UTF8. rewrite (at_offset_peek _ _ _ _ Hat). cbn [mbind option_bind]. cbn [sqlite3Utf8Read] in Hr.
  destruct (Z.leb_spec 0xc0 b).
  - set (lead := nth (Z.to_nat (b - 0xc0)) sqlite3Utf8Trans1 0) in *.
    destruct (utf8_continue lead (l ++ rest)) as [[c' rest']|] eqn:Hu; [|done]. cbn [mbind option_bind] in Hr.
    injection Hr as Hc' ->.
    assert (0 ≤ lead < 64) as Hlead.
    { apply (Forall_nth_lt (λ x, 0 ≤ x < 64) sqlite3Utf8Trans1).
      - apply Forall_forall. intros x Hx. assert (forallb (λ x, (0 <=? x) && (x <? 64)) sqlite3Utf8Trans1 = true) as Hall by reflexivity.
        rewrite forallb_forall in Hall. apply list_elem_of_In, Hall in Hx. apply andb_true_iff in Hx as [?%Z.leb_le ?%Z.ltb_lt]. lia.
      - change (length sqlite3Utf8Trans1) with 64%nat. unfold uint in Hb. lia. }
    assert ((lead + 1) * 64 ^ Z.of_nat (length l) ≤ 2 ^ 31).
    { assert (64 ^ Z.of_nat (length l) ≤ 64 ^ 3) by (apply Z.pow_le_mono_r; lia). nia. }
    destruct (read_continue_spec (S (length buf)) buf zTerm (z + 1) lead l rest c') as [-> Hc31];
      [by eapply at_offset_cons|done| |lia|done|lia| |done|].
    { apply Forall_forall. intros x Hx. split; [by eapply Forall_forall in Hok|by eapply Forall_forall in Hl]. }
    { apply at_offset_length in Hat. cbn [length] in Hat. rewrite length_app in Hat. lia. }
    cbn [mbind option_bind]. unfold u32. rewrite wrap_small by (unfold uint; lia). rewrite Hc'. do 2 f_equal. lia.
  - injection Hr as -> Hrest. destruct l as [|x l]; [|apply (f_equal length) in Hrest; rewrite length_app in Hrest; cbn [length] in Hrest; lia].
    done.
Qed.

(** Single bytes are read as they are. *)
Lemma READ_UTF8_byte buf zTerm z b l : at_offset buf z (b :: l) → b < 0xc0 → READ_UTF8 buf zTerm z = Some (b, z + 1).
Proof.
  intros Hat Hb. unfold READ_UTF8. rewrite (at_offset_peek _ _ _ _ Hat). cbn [mbind option_bind].
  destruct (Z.leb_spec 0xc0 b); [lia|done].
Qed.
End peek.

(** ** Classes as booleans *)

Definition alnum (c : Z) : bool := match sqlite3FtsUnicodeIsalnum c with Some a => negb (a =? 0) | None => false end.
Definition diacritic (c : Z) : bool := negb (sqlite3FtsUnicodeIsdiacritic c =? 0).

Lemma alnum_eq c : sqlite3FtsUnicodeIsalnum c = Some (Z.b2z (alnum c)).
Proof. unfold alnum. destruct (sqlite3FtsUnicodeIsalnum_total c) as [a ->]. by destruct a. Qed.

(** Whether [c] is made an exception by [tokenchars=] (true) or [separators=]. *)
Definition flips (b : bool) (c : Z) : bool := negb (Bool.eqb (alnum c) b) && negb (diacritic c).

Lemma exceptional_eq b c : exceptional (Z.b2z b) c = Some (flips b c).
Proof.
  unfold exceptional, flips, diacritic. rewrite alnum_eq. cbn [mbind option_bind]. rewrite negb_involutive.
  by destruct (alnum c), b.
Qed.

(** ** The array of exceptions *)

Section exceptions.
Implicit Types (a : list Z) (c : Z).

Abbreviation sorted := (StronglySorted Z.le).

Lemma insert_code_cons x a c : insert_code (x :: a) c = if x <? c then x :: insert_code a c else c :: x :: a.
Proof. unfold insert_code. cbn [insert_index]. by destruct (x <? c). Qed.

Lemma insert_code_perm a c : insert_code a c ≡ₚ c :: a.
Proof. unfold insert_code. cbv zeta. by rewrite <-Permutation_middle, take_drop. Qed.

Lemma insert_code_sorted a c : sorted a → sorted (insert_code a c).
Proof.
  induction 1 as [|x a Ha IH Hx]; [by repeat constructor|]. rewrite insert_code_cons. destruct (Z.ltb_spec x c).
  - constructor; [done|]. rewrite insert_code_perm. by constructor; [lia|].
  - constructor; [by constructor|]. constructor; [done|]. eapply Forall_impl; [done|]. simpl. lia.
Qed.

Lemma sorted_lookup a i j x y : sorted a → (i ≤ j)%nat → a !! i = Some x → a !! j = Some y → x ≤ y.
Proof.
  intros Ha. revert i j. induction Ha as [|z a Ha IH Hz]; intros i j Hij Hi Hj; [done|].
  destruct i as [|i], j as [|j]; cbn [lookup list_lookup] in *; simplify_eq; [done| |lia|].
  - by eapply Forall_lookup_1 in Hz.
  - by apply (IH i j); [lia|..].
Qed.

Lemma exception_search_spec fuel a c iLo iHi :
  sorted a → 0 ≤ iLo ≤ iHi + 1 → iHi < Z.of_nat (length a) → (Z.to_nat (iHi - iLo + 1) < fuel)%nat →
  (∀ i x, a !! i = Some x → Z.of_nat i < iLo → x < c) → (∀ i x, a !! i = Some x → iHi < Z.of_nat i → c < x) →
  exception_search fuel a c iLo iHi = Some (Z.b2z (bool_decide (c ∈ a))).
Proof.
  intros Ha. revert iLo iHi. induction fuel as [|fuel IH]; intros iLo iHi HLo HHi Hf Hbelow Habove; [lia|].
  cbn [exception_search]. destruct (Z.leb_spec iLo iHi).
  - pose proof (Z.div_mod (iHi + iLo) 2 ltac:(lia)). pose proof (Z.mod_pos_bound (iHi + iLo) 2 ltac:(lia)).
    set (iTest := (iHi + iLo) / 2) in *.
    destruct (lookup_lt_is_Some_2 a (Z.to_nat iTest)) as [x Hx]; [lia|]. rewrite Hx. cbn [mbind option_bind].
    destruct (Z.eqb_spec c x) as [->|Hne].
    { rewrite bool_decide_true; [done|]. by eapply list_elem_of_lookup_2. }
    destruct (Z.ltb_spec x c); apply IH; try lia; intros i y Hy Hi.
    + destruct (decide (Z.of_nat i < iLo)); [by apply (Hbelow i)|].
      pose proof (sorted_lookup a i (Z.to_nat iTest) y x Ha ltac:(lia) Hy Hx). lia.
    + by apply (Habove i).
    + by apply (Hbelow i).
    + destruct (decide (iHi < Z.of_nat i)); [by apply (Habove i)|].
      pose proof (sorted_lookup a (Z.to_nat iTest) i x y Ha ltac:(lia) Hx Hy). lia.
  - rewrite bool_decide_false; [done|]. intros [i Hi]%list_elem_of_lookup.
    destruct (decide (Z.of_nat i < iLo)); [specialize (Hbelow i c Hi); lia|specialize (Habove i c Hi); lia].
Qed.

(** ** A tokenizer *)

(** The array is sorted; it holds neither diacritics nor NUL. *)
Definition tokenizer_ok (p : unicode_tokenizer) : Prop := sorted (aiException p) ∧ 0 ∉ aiException p.

Definition token_char (p : unicode_tokenizer) (c : Z) : bool := xorb (alnum c) (bool_decide (c ∈ aiException p)).

Lemma unicodeIsException_eq p c :
  tokenizer_ok p → unicodeIsException p c = Some (Z.b2z (bool_decide (c ∈ aiException p))).
Proof.
  intros [Hs _]. unfold unicodeIsException. destruct (Nat.ltb_spec 0 (length (aiException p))) as [Hlt|Hle].
  - apply exception_search_spec; [done|lia|lia|lia| |]; intros i x Hx Hi; [lia|].
    apply lookup_lt_Some in Hx. lia.
  - destruct (aiException p); [done|]. cbn [length] in Hle. lia.
Qed.

Lemma unicodeIsAlnum_eq p c : tokenizer_ok p → unicodeIsAlnum p c = Some (Z.b2z (token_char p c)).
Proof.
  intros Hp. unfold unicodeIsAlnum, token_char. rewrite alnum_eq, unicodeIsException_eq by done.
  cbn [mbind option_bind]. by destruct (alnum c), (bool_decide _).
Qed.

(** ** The loops over the characters of an argument *)

Abbreviation written cs := (concat (WRITE_UTF8 <$> cs)).

Lemma written_cons (c : Z) cs : written (c :: cs) = WRITE_UTF8 c ++ written cs.
Proof. reflexivity. Qed.

Lemma starts_written cs rest : Forall clean cs → starts (written cs ++ 0 :: rest).
Proof.
  intros Hcs. destruct Hcs as [|c cs [Hc _] Hcs]; [done|]. rewrite written_cons, <-app_assoc.
  apply starts_WRITE_UTF8. lia.
Qed.

Lemma length_written cs : (length cs ≤ length (written cs))%nat.
Proof.
  induction cs as [|c cs IH]; [done|]. rewrite written_cons, length_app.
  pose proof (length_WRITE_UTF8 c). cbn [length]. lia.
Qed.

Section loops.
Context (buf : list Z) (rest : list Z) (zTerm : Z).

Lemma read_first z c cs :
  Forall clean (c :: cs) → at_offset buf z (written (c :: cs) ++ 0 :: rest) →
  zTerm = z + Z.of_nat (length (written (c :: cs))) →
  let z' := z + Z.of_nat (length (WRITE_UTF8 c)) in
  z < zTerm ∧ READ_UTF8 buf zTerm z = Some (c, z') ∧ at_offset buf z' (written cs ++ 0 :: rest) ∧
  zTerm = z' + Z.of_nat (length (written cs)).
Proof.
  intros [Hc Hcs]%Forall_cons Hat Hz. rewrite written_cons, <-app_assoc in Hat.
  rewrite written_cons, length_app in Hz. pose proof (length_WRITE_UTF8 c). cbv zeta.
  split; [lia|]. split; [|split; [by apply at_offset_app|lia]].
  apply (READ_UTF8_written buf zTerm z c (written cs ++ 0 :: rest)); [done|done|by apply starts_written|lia].
Qed.

Lemma count_exceptions_written fuel b z cs n :
  Forall clean cs → at_offset buf z (written cs ++ 0 :: rest) → zTerm = z + Z.of_nat (length (written cs)) →
  (length cs < fuel)%nat →
  count_exceptions fuel (Z.b2z b) buf zTerm z n = Some (n + Z.of_nat (length (List.filter (flips b) cs))).
Proof.
  intros Hcs. revert fuel z n. induction cs as [|c cs IH]; intros fuel z n Hat Hz Hf; (destruct fuel as [|fuel]; [cbn [length] in Hf; lia|]);
    cbn [count_exceptions].
  - cbn [fmap list_fmap concat length] in Hz. destruct (Z.ltb_spec z zTerm); [lia|]. cbn. f_equal. lia.
  - destruct (read_first z c cs Hcs Hat Hz) as (Hlt & -> & Hat' & Hz').
    destruct (Z.ltb_spec z zTerm); [|lia]. cbn [mbind option_bind]. rewrite exceptional_eq. cbn [mbind option_bind].
    apply Forall_cons in Hcs as [_ Hcs]. cbn [length] in Hf. rewrite IH by (done || lia). cbn [List.filter].
    destruct (flips b c); cbn [length]; f_equal; lia.
Qed.

Lemma insert_exceptions_written fuel b z cs a :
  Forall clean cs → at_offset buf z (written cs ++ 0 :: rest) → zTerm = z + Z.of_nat (length (written cs)) →
  (length cs < fuel)%nat →
  insert_exceptions fuel (Z.b2z b) buf zTerm z a = Some (foldl insert_code a (List.filter (flips b) cs)).
Proof.
  intros Hcs. revert fuel z a. induction cs as [|c cs IH]; intros fuel z a Hat Hz Hf; (destruct fuel as [|fuel]; [cbn [length] in Hf; lia|]);
    cbn [insert_exceptions].
  - cbn [fmap list_fmap concat length] in Hz. destruct (Z.ltb_spec z zTerm); [lia|]. done.
  - destruct (read_first z c cs Hcs Hat Hz) as (Hlt & -> & Hat' & Hz').
    destruct (Z.ltb_spec z zTerm); [|lia]. cbn [mbind option_bind]. rewrite exceptional_eq. cbn [mbind option_bind].
    apply Forall_cons in Hcs as [_ Hcs]. cbn [length] in Hf. rewrite IH by (done || lia). cbn [List.filter].
    by destruct (flips b c).
Qed.
End loops.

Lemma unicodeAddExceptions_written p b buf zIn cs rest :
  Forall clean cs → at_offset buf zIn (written cs ++ 0 :: rest) →
  unicodeAddExceptions true p (Z.b2z b) buf zIn (Z.of_nat (length (written cs))) =
    Some (SQLITE_OK, mkTokenizer (bRemoveDiacritic p) (foldl insert_code (aiException p) (List.filter (flips b) cs)) (locale p)).
Proof.
  intros Hcs Hat. unfold unicodeAddExceptions. pose proof (length_written cs).
  rewrite (count_exceptions_written buf rest _ _ b zIn cs) by (done || lia). cbn [mbind option_bind].
  destruct (Z.eqb_spec (0 + Z.of_nat (length (List.filter (flips b) cs))) 0) as [E|E].
  - destruct (List.filter (flips b) cs) as [|? ?]; [|cbn [length] in E; lia]. by destruct p.
  - cbn [negb]. rewrite (insert_exceptions_written buf rest _ _ b zIn cs) by (done || lia). done.
Qed.

Lemma fold_insert_perm a l : foldl insert_code a l ≡ₚ l ++ a.
Proof.
  revert a. induction l as [|c l IH]; intros a; [done|]. cbn [foldl]. rewrite IH, insert_code_perm.
  by rewrite <-Permutation_middle.
Qed.

Lemma fold_insert_sorted a l : sorted a → sorted (foldl insert_code a l).
Proof. revert a. induction l as [|c l IH]; intros a Ha; [done|]. cbn [foldl]. by apply IH, insert_code_sorted. Qed.
End exceptions.


(** ** Items *)

Inductive item :=
  | Char (c : Z)
  | Markup (w : list Z)
  | Ruby (w : list Z).

Definition item_bytes (x : item) : list Z :=
  match x with Char c => WRITE_UTF8 c | Markup w | Ruby w => w end.

Definition text_of (xs : list item) : list Z := concat (item_bytes <$> xs).

(** The same bytes up to case. *)
Definition same_case (l l' : list Z) : Prop := tolower <$> l = tolower <$> l'.

(** [l] starts with [tag], up to case. *)
Definition names (tag l : list Z) : Prop := ∃ t l', l = t ++ l' ∧ same_case t tag.

(** Bytes of a text, and of the inside of a tag. *)
Definition text_byte (b : Z) : Prop := byte_ok b ∧ b ≠ 0.
Definition tag_byte (b : Z) : Prop := text_byte b ∧ b ≠ 62.

(** [pat] occurs in [inner ++ pat] at its end only. *)
Definition first_at_end (inner pat : list Z) : Prop :=
  ∀ k, (k < length inner)%nat → ¬ pat `prefix_of` drop k (inner ++ pat).

(** Markup inside a token: the tags of a ruby element, and the elements rp and
    rt with what they contain. *)
Inductive ruby_markup : list Z → Prop :=
  | ruby_tag slash name attrs :
    slash = [] ∨ slash = [47] → same_case name (bytes "ruby") → Forall tag_byte attrs →
    ruby_markup (60 :: slash ++ name ++ attrs ++ [62])
  | ruby_element name inner tag :
    tag ∈ nonbreaking_ignore_tags → same_case name tag → Forall text_byte inner →
    first_at_end inner (tag ++ [62]) →
    ruby_markup (60 :: name ++ inner ++ tag ++ [62]).

(** Markup between tokens: a tag of no special element, or an element whose
    content is ignored. *)
Inductive plain_markup : list Z → Prop :=
  | closing_tag name :
    Forall tag_byte name → ¬ names (bytes "ruby") name →
    plain_markup (60 :: 47 :: name ++ [62])
  | other_tag body :
    Forall tag_byte body → head body ≠ Some 47 →
    (∀ tag, tag ∈ ignore_tags.*1 ++ nonbreaking_ignore_tags ++ nonbreaking_tags → ¬ names tag body) →
    plain_markup (60 :: body ++ [62])
  | ignored_element name opening inner closing :
    (opening, closing) ∈ ignore_tags → same_case name opening → Forall text_byte inner →
    first_at_end inner (closing ++ [62]) →
    plain_markup (60 :: name ++ inner ++ closing ++ [62]).

Definition item_ok (x : item) : Prop :=
  match x with
  | Char c => clean c ∧ c ≠ 60
  | Markup w => plain_markup w
  | Ruby w => ruby_markup w
  end.

(** ** Tokens *)

Section tokens.
Context (p : unicode_tokenizer).

Definition item_size (x : item) : Z := Z.of_nat (length (item_bytes x)).

(** The bytes that a character adds to a token. *)
Definition folded (c : Z) : list Z :=
  match sqlite3FtsUnicodeFold c (bRemoveDiacritic p) with
  | Some x => if x =? 0 then [] else WRITE_UTF8 x
  | None => []
  end.

(** The first token character: where it is, what follows it, and where. *)
Fixpoint html_scan (xs : list item) (pos : Z) : option (Z * Z * list item * Z) :=
  match xs with
  | [] => None
  | x :: xs =>
    match x with
    | Char c => if token_char p c then Some (pos, c, xs, pos + item_size x) else html_scan xs (pos + item_size x)
    | _ => html_scan xs (pos + item_size x)
    end
  end.

(** The rest of a token that has the bytes [acc] and ends at [e] so far: its
    bytes, its end, what follows it, and where. A character that is not part of
    the token is consumed with it. *)
Fixpoint html_collect (xs : list item) (pos e : Z) (acc : list Z) : list Z * Z * list item * Z :=
  match xs with
  | [] => (acc, e, [], pos)
  | x :: xs' =>
    let pos' := pos + item_size x in
    match x with
    | Ruby _ => html_collect xs' pos' e acc
    | Markup _ => (acc, e, xs, pos)
    | Char c =>
      if token_char p c || diacritic c then html_collect xs' pos' pos' (acc ++ folded c) else (acc, e, xs', pos')
    end
  end.

(** The tokens of a text of fewer than [n] items. *)
Fixpoint html_tokens (n : nat) (stem : list Z → list Z) (xs : list item) (pos num : Z) : list token_out :=
  match n with
  | O => []
  | S n =>
    match html_scan xs pos with
    | None => []
    | Some (start, c, xs, q) =>
      let '(acc, e, xs, q) := html_collect xs q q (folded c) in
      mkOut (stem acc) (Z.of_nat (length (stem acc))) start e num :: html_tokens n stem xs q (num + 1)
    end
  end.
End tokens.
