(* ===== verification/HtmlCreate.v ===== *)
(** * fts3_html_tokenizer.c: creating a tokenizer

    What the arguments of a tokenizer ask for, and that [unicodeCreate] does
    it. *)
From S2P Require Import Prelude Ctype Utf8 Utf8Proofs Unicode UnicodeProofs HtmlTokenizer HtmlText.
From stdpp Require Import strings sorting.
Local Open Scope Z_scope.

(** ** Arguments *)

Inductive argument :=
  | RemoveDiacritics (b : bool)
  | TokenChars (cs : list Z)
  | Separators (cs : list Z)
  | Locale (l : list Z).

Definition argument_bytes (x : argument) : list Z :=
  match x with
  | RemoveDiacritics true => bytes "remove_diacritics=1"
  | RemoveDiacritics false => bytes "remove_diacritics=0"
  | TokenChars cs => bytes "tokenchars=" ++ concat (WRITE_UTF8 <$> cs)
  | Separators cs => bytes "separators=" ++ concat (WRITE_UTF8 <$> cs)
  | Locale l => l
  end.

(** Characters that UTF-8 can express, and a locale that does not look like one
    of the other arguments. *)
Definition argument_ok (x : argument) : Prop :=
  match x with
  | RemoveDiacritics _ => True
  | TokenChars cs | Separators cs => Forall clean cs
  | Locale l =>
    l ≠ [] ∧ l ≠ bytes "remove_diacritics=1" ∧ l ≠ bytes "remove_diacritics=0" ∧
    take 11 l ≠ bytes "tokenchars=" ∧ take 11 l ≠ bytes "separators="
  end.

(** The last setting counts. *)
Definition set_remove (b : bool) (x : argument) : bool := match x with RemoveDiacritics b => b | _ => b end.
Definition set_locale (l : option (list Z)) (x : argument) : option (list Z) := match x with Locale l => Some l | _ => l end.

(** Whether an argument names [c] as a token character, or as a separator. *)
Definition admits (c : Z) (x : argument) : bool := match x with TokenChars cs => bool_decide (c ∈ cs) | _ => false end.
Definition separates (c : Z) (x : argument) : bool := match x with Separators cs => bool_decide (c ∈ cs) | _ => false end.

(** The token characters that a list of arguments asks for: diacritics stay
    what they are, a letter or digit is one unless it is named as a separator,
    another character is one if it is named as a token character. *)
Definition wanted (xs : list argument) (c : Z) : bool :=
  if diacritic c then alnum c
  else if alnum c then negb (existsb (separates c) xs) else existsb (admits c) xs.

Section create.
Implicit Types (p : unicode_tokenizer) (xs : list argument) (c : Z).

(** The exceptions that an argument adds. *)
Definition argument_flips (x : argument) : list Z :=
  match x with
  | TokenChars cs => List.filter (flips true) cs
  | Separators cs => List.filter (flips false) cs
  | _ => []
  end.

Definition apply_argument p (x : argument) : unicode_tokenizer :=
  mkTokenizer (set_remove (bRemoveDiacritic p) x) (foldl insert_code (aiException p) (argument_flips x)) (set_locale (locale p) x).

Lemma add_prefixed b (name : string) cs p :
  length (bytes name) = 11%nat → Forall clean cs →
  unicodeAddExceptions true p (Z.b2z b) ((bytes name ++ concat (WRITE_UTF8 <$> cs)) ++ [0]) 11
    (Z.of_nat (length (bytes name ++ concat (WRITE_UTF8 <$> cs))) - 11) =
  Some (SQLITE_OK, mkTokenizer (bRemoveDiacritic p) (foldl insert_code (aiException p) (List.filter (flips b) cs)) (locale p)).
Proof.
  intros Hn Hcs. rewrite <-app_assoc, length_app, Hn.
  replace (Z.of_nat (11 + length (concat (WRITE_UTF8 <$> cs))) - 11) with (Z.of_nat (length (concat (WRITE_UTF8 <$> cs)))) by lia.
  apply (unicodeAddExceptions_written p b _ 11 cs []); [done|].
  replace 11 with (Z.of_nat (length (bytes name))) by lia. apply at_offset_intro.
Qed.

Lemma create_argument_spec x p :
  argument_ok x → create_argument true (argument_bytes x) p = Some (SQLITE_OK, apply_argument p x).
Proof.
  intros Hx. unfold create_argument. destruct x as [[]|cs|cs|l]; cbn [argument_bytes argument_ok] in *; cbv zeta.
  - reflexivity.
  - reflexivity.
  - rewrite !(bool_decide_false (_ ++ _ = _)) by (intros E%(f_equal head); discriminate).
    rewrite (take_app_length' (bytes "tokenchars=")) by reflexivity. rewrite bool_decide_true by done.
    rewrite length_app. destruct (Z.leb_spec 11 (Z.of_nat (length (bytes "tokenchars=") + length (concat (WRITE_UTF8 <$> cs)))));
      [|change (length (bytes "tokenchars=")) with 11%nat in *; lia].
    cbn [andb]. rewrite <-length_app. by apply (add_prefixed true).
  - rewrite !(bool_decide_false (_ ++ _ = _)) by (intros E%(f_equal head); discriminate).
    rewrite !(take_app_length' (bytes "separators=")) by reflexivity.
    rewrite (bool_decide_false (_ = bytes "tokenchars=")) by (vm_compute; discriminate). rewrite andb_false_r.
    rewrite bool_decide_true by done.
    rewrite length_app. destruct (Z.leb_spec 11 (Z.of_nat (length (bytes "separators=") + length (concat (WRITE_UTF8 <$> cs)))));
      [|change (length (bytes "separators=")) with 11%nat in *; lia].
    cbn [andb]. rewrite <-length_app. by apply (add_prefixed false).
  - destruct Hx as (Hne & H1 & H2 & H3 & H4). rewrite !bool_decide_false by done. rewrite !andb_false_r.
    destruct (Z.ltb_spec 0 (Z.of_nat (length l))); [done|]. destruct l; [done|cbn [length] in *; lia].
Qed.

Lemma create_loop_spec xs rest i p :
  Forall argument_ok xs →
  create_loop (λ _, true) i ((argument_bytes <$> xs) ++ rest) p =
    create_loop (λ _, true) (i + length xs) rest (foldl apply_argument p xs).
Proof.
  intros Hxs. revert i p. induction Hxs as [|x xs Hx _ IH]; intros i p; cbn [length].
  - by rewrite Nat.add_0_r.
  - cbn [fmap list_fmap app create_loop]. rewrite create_argument_spec by done. cbn [mbind option_bind].
    change (SQLITE_OK =? SQLITE_OK) with true. cbn iota. rewrite IH. cbn [foldl]. f_equal. lia.
Qed.

Lemma apply_exceptions xs p c :
  c ∈ aiException (foldl apply_argument p xs) ↔ c ∈ aiException p ∨ ∃ x, x ∈ xs ∧ c ∈ argument_flips x.
Proof.
  revert p. induction xs as [|x xs IH]; intros p; cbn [foldl]; [set_solver|].
  rewrite IH. cbn [apply_argument aiException]. rewrite fold_insert_perm. set_solver.
Qed.

Lemma argument_flips_elem x c :
  c ∈ argument_flips x ↔ diacritic c = false ∧ (if alnum c then separates c x else admits c x) = true.
Proof.
  destruct x as [b|cs|cs|l]; cbn [argument_flips separates admits]; rewrite ?list_elem_of_In, ?filter_In, <-?list_elem_of_In;
    unfold flips; rewrite ?andb_true_iff, ?negb_true_iff, ?bool_decide_eq_true;
    destruct (alnum c); cbn [Bool.eqb]; rewrite ?bool_decide_eq_true; set_solver.
Qed.

Lemma apply_ok xs p :
  Forall argument_ok xs → tokenizer_ok p → tokenizer_ok (foldl apply_argument p xs).
Proof.
  intros Hxs. revert p. induction Hxs as [|x xs Hx _ IH]; intros p [Hs H0]; [done|]. cbn [foldl]. apply IH.
  split; cbn [apply_argument aiException]; [by apply fold_insert_sorted|].
  rewrite fold_insert_perm, elem_of_app. intros [Hin|]; [|done].
  apply argument_flips_elem in Hin as [_ Hin].
  assert (∀ cs, Forall clean cs → 0 ∉ cs) as Hclean.
  { intros cs Hcs H. rewrite Forall_forall in Hcs. destruct (Hcs 0 H) as [? _]. lia. }
  destruct x as [b|cs|cs|l]; cbn [separates admits argument_ok] in *; destruct (alnum 0); try done;
    apply bool_decide_eq_true in Hin; by apply (Hclean cs).
Qed.

Lemma apply_settings xs p :
  bRemoveDiacritic (foldl apply_argument p xs) = foldl set_remove (bRemoveDiacritic p) xs ∧
  locale (foldl apply_argument p xs) = foldl set_locale (locale p) xs.
Proof. revert p. induction xs as [|x xs IH]; intros p; [done|]. apply (IH (apply_argument p x)). Qed.

Lemma token_char_wanted xs c b l : token_char (foldl apply_argument (mkTokenizer b [] l) xs) c = wanted xs c.
Proof.
  unfold token_char, wanted. set (P := bool_decide _).
  assert (P = true ↔ diacritic c = false ∧ ∃ x, x ∈ xs ∧ (if alnum c then separates c x else admits c x) = true) as HP.
  { unfold P. rewrite bool_decide_eq_true, apply_exceptions. cbn [aiException].
    setoid_rewrite argument_flips_elem. set_solver. }
  destruct (diacritic c).
  { destruct P; [by destruct HP as [[? _] _]|by rewrite xorb_false_r]. }
  assert (P = existsb (λ x, if alnum c then separates c x else admits c x) xs) as ->.
  { apply eq_true_iff_eq. rewrite HP, existsb_exists. setoid_rewrite list_elem_of_In. set_solver. }
  by destruct (alnum c), (existsb _ xs).
Qed.

(** [unicodeCreate] makes a tokenizer with the settings its arguments ask
    for, whose token characters are those that [tokenchars=] and [separators=]
    name; its array of exceptions is sorted, so that the binary search finds
    every exception. An empty argument is an error, whatever follows. *)
Theorem unicodeCreate_spec xs :
  Forall argument_ok xs →
  (∃ p, unicodeCreate true (λ _, true) (argument_bytes <$> xs) = Some (SQLITE_OK, Some p) ∧
    tokenizer_ok p ∧
    bRemoveDiacritic p = foldl set_remove true xs ∧ locale p = foldl set_locale None xs ∧
    ∀ c, unicodeIsAlnum p c = Some (Z.b2z (wanted xs c))) ∧
  ∀ more, unicodeCreate true (λ _, true) ((argument_bytes <$> xs) ++ [] :: more) = Some (SQLITE_ERROR, None).
Proof.
  intros Hxs. set (p0 := mkTokenizer true [] None). split.
  - assert (tokenizer_ok (foldl apply_argument p0 xs)) as Hok.
    { apply apply_ok; [done|]. split; [constructor|by apply not_elem_of_nil]. }
    exists (foldl apply_argument p0 xs). split.
    + unfold unicodeCreate. cbn [negb]. rewrite <-(app_nil_r (argument_bytes <$> xs)), create_loop_spec by done. done.
    + destruct (apply_settings xs p0) as [-> ->]. split; [done|]. split; [done|]. split; [done|].
      intros c. rewrite unicodeIsAlnum_eq by done. unfold p0. by rewrite token_char_wanted.
  - intros more. unfold unicodeCreate. cbn [negb]. rewrite create_loop_spec by done. cbn [create_loop].
    reflexivity.
Qed.

Lemma unicodeCreate_spec_witness :
  let xs := [TokenChars [45; 64]; Separators [120]; RemoveDiacritics false] in
  (∃ p, unicodeCreate true (λ _, true) (argument_bytes <$> xs) = Some (SQLITE_OK, Some p) ∧
    tokenizer_ok p ∧
    bRemoveDiacritic p = false ∧ locale p = None ∧
    ∀ c, unicodeIsAlnum p c = Some (Z.b2z (wanted xs c))) ∧
  ∀ more, unicodeCreate true (λ _, true) ((argument_bytes <$> xs) ++ [] :: more) = Some (SQLITE_ERROR, None).
Proof.
  apply (unicodeCreate_spec [TokenChars [45; 64]; Separators [120]; RemoveDiacritics false]).
  assert (∀ c, 0 < c < 0x80 → clean c) as Hclean by (intros c Hc; unfold clean; lia).
  repeat (constructor; [repeat (constructor; [apply Hclean; lia|]); constructor|]). constructor.
Defined.
End create.
