(* ===== verification/HtmlMarkup.v ===== *)
(** * fts3_html_tokenizer.c: skipping markup

    What the loops of [unicodeNext] over markup do at an item of a text: between
    tokens they skip it up to its last byte; inside a token they skip ruby
    markup and stop at any other. *)
From S2P Require Import Prelude Ctype Utf8 Utf8Proofs CharTokenizer Unicode UnicodeProofs HtmlTokenizer HtmlText.
From stdpp Require Import strings.
Local Open Scope Z_scope.

(** ** String functions *)

Section strings.
Implicit Types (l t tag pat inner body : list Z).

Lemma starts_case_ext l l' tag : same_case l l' → starts_case l tag = starts_case l' tag.
Proof.
  unfold same_case. revert l l'. induction tag as [|a tag IH]; intros l l' H; [done|].
  destruct l as [|b l], l' as [|b' l']; try done. injection H as Hb Hl. cbn [starts_case]. rewrite Hb.
  case_match; [by apply IH|done].
Qed.

Lemma starts_case_app t l tag tag' : same_case t tag' → starts_case (t ++ l) tag = starts_case (tag' ++ l) tag.
Proof. intros H. apply starts_case_ext. unfold same_case in *. by rewrite !fmap_app, H. Qed.

Lemma starts_case_refl tag l : starts_case (tag ++ l) tag = Some true.
Proof. induction tag as [|a tag IH]; [done|]. cbn [app starts_case]. by rewrite Z.eqb_refl. Qed.

Lemma names_nil body : names [] body.
Proof. by exists [], body. Qed.

Lemma names_cons a tag b body : names (a :: tag) (b :: body) ↔ tolower b = tolower a ∧ names tag body.
Proof.
  split.
  - intros (t & l' & E & Hs). destruct t as [|b' t]; [done|]. injection E as <- ->. injection Hs as Hb Hs.
    split; [done|]. by exists t, l'.
  - intros [Hb (t & l' & -> & Hs)]. exists (b :: t), l'. split; [done|]. unfold same_case in *.
    by rewrite !fmap_cons, Hb, Hs.
Qed.

Lemma names_not_nil a tag : ¬ names (a :: tag) [].
Proof. intros (t & l' & E & Hs). by destruct t. Qed.

(** Inside a tag the comparison with a name ends before its [>]. *)
Lemma starts_case_tag tag body l :
  Forall (λ a, tolower a ≠ 62) tag →
  ∃ m, starts_case (body ++ 62 :: l) tag = Some m ∧ (m = true ↔ names tag body).
Proof.
  intros Htag. revert body. induction Htag as [|a tag Ha _ IH]; intros body.
  - exists true. split; [done|]. split; [|done]. intros. apply names_nil.
  - destruct body as [|b body]; cbn [app starts_case].
    + exists false. change (tolower 62) with 62. destruct (Z.eqb_spec 62 (tolower a)); [congruence|].
      split; [done|]. split; [done|]. by intros ?%names_not_nil.
    + destruct (Z.eqb_spec (tolower b) (tolower a)) as [E|E].
      * destruct (IH body) as (m & -> & Hm). exists m. split; [done|]. rewrite names_cons. tauto.
      * exists false. split; [done|]. split; [done|]. by intros [? _]%names_cons.
Qed.

Lemma starts_case_not tag body l :
  Forall (λ a, tolower a ≠ 62) tag → ¬ names tag body → starts_case (body ++ 62 :: l) tag = Some false.
Proof. intros Ht Hn. destruct (starts_case_tag tag body l Ht) as ([] & -> & Hm); [|done]. destruct Hn. by apply Hm. Qed.

Lemma starts_with_prefix l x :
  (length x ≤ length l)%nat → ∃ m, starts_with l x = Some m ∧ (m = true ↔ x `prefix_of` l).
Proof.
  revert l. induction x as [|a x IH]; intros l Hl.
  - exists true. split; [done|]. split; [|done]. intros. apply prefix_nil.
  - destruct l as [|b l]; cbn [length] in Hl; [lia|]. cbn [starts_with]. destruct (Z.eqb_spec b a) as [->|E].
    + destruct (IH l) as (m & -> & Hm); [lia|]. exists m. split; [done|]. rewrite Hm. split; [apply prefix_cons|apply prefix_cons_inv_2].
    + exists false. split; [done|]. split; [done|]. intros ?%prefix_cons_inv_1. congruence.
Qed.

Lemma prefix_app_short pat l l' : pat `prefix_of` l ++ l' → (length pat ≤ length l)%nat → pat `prefix_of` l.
Proof.
  revert l. induction pat as [|a pat IH]; intros l Hp Hlen; [apply prefix_nil|].
  destruct l as [|b l]; cbn [length] in Hlen; [lia|]. cbn [app] in Hp.
  rewrite (prefix_cons_inv_1 _ _ _ _ Hp) in *. apply prefix_cons, IH; [by eapply prefix_cons_inv_2|lia].
Qed.

Lemma strstr_first inner pat l :
  Forall text_byte inner → pat ≠ [] → first_at_end inner pat →
  strstr (inner ++ pat ++ l) pat = Some (Some (Z.of_nat (length inner))).
Proof.
  intros Hin Hpat. induction Hin as [|b inner [_ Hb] Hin IH]; intros Hfirst.
  - cbn [app]. destruct (starts_with_prefix (pat ++ l) pat) as (m & Hm & Hp); [rewrite length_app; lia|].
    assert (m = true) as -> by apply Hp, prefix_app_r, reflexivity. destruct (pat ++ l) eqn:E; [by destruct pat|].
    cbn [strstr]. by rewrite Hm.
  - cbn [app strstr]. destruct (starts_with_prefix (b :: inner ++ pat ++ l) pat) as (m & -> & Hp);
      [cbn [length]; rewrite !length_app; lia|].
    destruct m.
    + exfalso. apply (Hfirst 0%nat); [cbn [length]; lia|]. destruct Hp as [Hp _]. specialize (Hp eq_refl).
      change (b :: inner ++ pat ++ l) with ((b :: inner) ++ pat ++ l) in Hp. rewrite app_assoc in Hp.
      cbn [drop]. apply (prefix_app_short _ _ _ Hp). cbn [app length]. rewrite length_app. lia.
    + destruct (Z.eqb_spec b 0); [done|]. rewrite IH.
      * cbn [option_map length]. do 2 f_equal. lia.
      * intros k Hk. apply (Hfirst (S k)). cbn [length]. lia.
Qed.
End strings.

(** ** The tags of the source *)

Definition no_gt (l : list Z) : Prop := Forall (λ b, b ≠ 62) l.

Lemma tag_bytes_no_gt l : Forall tag_byte l → no_gt l.
Proof. intros H. eapply Forall_impl; [done|]. by intros b []. Qed.

Lemma same_case_length t t' : same_case t t' → length t = length t'.
Proof. intros H. apply (f_equal length) in H. by rewrite !length_fmap in H. Qed.

Lemma same_case_Forall (P : Z → Prop) t t' :
  same_case t t' → Forall (λ a, ∀ b, tolower b = tolower a → P b) t' → Forall P t.
Proof.
  intros Hs Ht. revert t Hs. induction Ht as [|a t' Ha _ IH]; intros t Hs; destruct t as [|b t]; try done.
  injection Hs as Hb Hs. constructor; [by apply Ha|by apply IH].
Qed.

(** A byte that is [a] in lower case. *)
Lemma tolower_62 a b : tolower b = tolower a → tolower a ≠ 62 → b ≠ 62.
Proof. intros E Ha ->. by rewrite <-E in Ha. Qed.

Lemma tolower_47 a b : tolower b = tolower a → tolower a ≠ 47 → b ≠ 47.
Proof. intros E Ha ->. by rewrite <-E in Ha. Qed.

Ltac each_tag := repeat match goal with H : _ ∈ ?l |- _ => let l' := eval vm_compute in l in progress change l with l' in H end;
  repeat match goal with H : ?x ∈ ?a :: ?l |- _ => apply elem_of_cons in H as [H|H]; [simplify_eq|] end;
  try match goal with H : _ ∈ [] |- _ => by apply not_elem_of_nil in H end.

Definition all_tags : list (list Z) := ignore_tags.*1 ++ nonbreaking_ignore_tags ++ nonbreaking_tags.

Lemma tags_no_gt tag : tag ∈ all_tags → Forall (λ a, tolower a ≠ 62 ∧ tolower a ≠ 47) tag.
Proof. intros H. unfold all_tags in H. each_tag; repeat (constructor; [by vm_compute|]); constructor. Qed.

(** Two tags are told apart within either of them. *)
Lemma ruby_not_ignored tag l :
  tag ∈ ignore_tags.*1 ++ nonbreaking_ignore_tags → starts_case (bytes "ruby" ++ l) tag = Some false.
Proof. intros H. each_tag; reflexivity. Qed.

Lemma element_not_ignored tag tag' l :
  tag ∈ nonbreaking_ignore_tags → tag' ∈ ignore_tags.*1 → starts_case (tag ++ l) tag' = Some false.
Proof. intros H H'. each_tag; reflexivity. Qed.

Lemma ignored_not_element opening tag l :
  opening ∈ ignore_tags.*1 → tag ∈ nonbreaking_ignore_tags ++ nonbreaking_tags →
  starts_case (opening ++ l) tag = Some false.
Proof. intros H H'. each_tag; reflexivity. Qed.

Lemma ignore_tags_split opening closing :
  (opening, closing) ∈ ignore_tags →
  ∃ tags1 tags2, ignore_tags = tags1 ++ (opening, closing) :: tags2 ∧
    ∀ o l, o ∈ tags1.*1 → starts_case (opening ++ l) o = Some false.
Proof.
  intros H. apply elem_of_cons in H as [[= -> ->]|H]; [exists [], (drop 1 ignore_tags)|
    apply elem_of_cons in H as [[= -> ->]|H]; [exists (take 1 ignore_tags), (drop 2 ignore_tags)|
    apply elem_of_cons in H as [[= -> ->]|H]; [exists (take 2 ignore_tags), (drop 3 ignore_tags)|
    apply elem_of_cons in H as [[= -> ->]|H]; [exists (take 3 ignore_tags), (drop 4 ignore_tags)|by apply not_elem_of_nil in H]]]];
    (split; [reflexivity|]); intros o l Ho; each_tag; reflexivity.
Qed.

Lemma element_tags_split tag :
  tag ∈ nonbreaking_ignore_tags →
  ∃ tags1 tags2, nonbreaking_ignore_tags = tags1 ++ tag :: tags2 ∧
    ∀ o l, o ∈ tags1 → starts_case (tag ++ l) o = Some false.
Proof.
  intros H. apply elem_of_cons in H as [->|H]; [exists [], (drop 1 nonbreaking_ignore_tags)|
    apply elem_of_cons in H as [->|H]; [exists (take 1 nonbreaking_ignore_tags), []|by apply not_elem_of_nil in H]];
    (split; [reflexivity|]); intros o l Ho; each_tag; reflexivity.
Qed.

(** ** The loops *)

Section skip.
Context (buf : list Z) (zTerm : Z).
Implicit Types (z : Z) (l inner name body : list Z).

Lemma at_offset_peek_some z l b l' : at_offset buf z (l ++ b :: l') → is_Some (peek buf z).
Proof. destruct l as [|x l]; intros H; rewrite (at_offset_peek _ _ _ _ H); by eexists. Qed.

Lemma tag_at_eq z l tag : at_offset buf z l → tag_at buf z tag = starts_case l tag.
Proof. intros [_ <-]. done. Qed.

Lemma find_tag_first z inner pat l :
  at_offset buf z (inner ++ pat ++ l) → Forall text_byte inner → pat ≠ [] → first_at_end inner pat →
  find_tag buf z pat = Some (Some (z + Z.of_nat (length inner))).
Proof. intros [_ Hd] **. unfold find_tag. by rewrite Hd, strstr_first. Qed.

Lemma skip_to_gt_spec fuel z body l :
  at_offset buf z (body ++ 62 :: l) → no_gt body → z + Z.of_nat (length body) < zTerm → (length body < fuel)%nat →
  skip_to_gt fuel buf zTerm z = Some (z + Z.of_nat (length body)).
Proof.
  intros Hat Hb. revert z fuel Hat. induction Hb as [|b body Hb Hbody IH]; intros z fuel Hat Hz Hf;
    (destruct fuel as [|fuel]; [cbn [length] in Hf; lia|]); cbn [length app] in *; cbn [skip_to_gt];
    (destruct (Z.eqb_spec z zTerm); [lia|]); rewrite (at_offset_peek _ _ _ _ Hat); cbn [mbind option_bind].
  - f_equal. lia.
  - destruct (Z.eqb_spec b 62); [done|]. rewrite IH; [f_equal; lia|by eapply at_offset_cons|lia|lia].
Qed.

Lemma skip_to_gt_buf z body l :
  at_offset buf z (body ++ 62 :: l) → no_gt body → z + Z.of_nat (length body) < zTerm →
  skip_to_gt (S (length buf)) buf zTerm z = Some (z + Z.of_nat (length body)).
Proof.
  intros Hat Hb Hz. apply (skip_to_gt_spec _ _ _ l); [done|done|done|].
  apply at_offset_length in Hat. rewrite length_app in Hat. lia.
Qed.

Lemma skip_ignored_skip tags1 tags2 z b :
  (∀ o, o ∈ tags1.*1 → tag_at buf z o = Some false) → skip_ignored (tags1 ++ tags2) buf z b = skip_ignored tags2 buf z b.
Proof.
  induction tags1 as [|[o c] tags1 IH]; intros Ho; [done|]. cbn [app skip_ignored].
  rewrite (Ho o) by (rewrite fmap_cons; set_solver). cbn [mbind option_bind]. apply IH. intros o' Ho'. apply Ho.
  rewrite fmap_cons. set_solver.
Qed.

Lemma skip_ignored_none tags z b :
  (∀ o, o ∈ tags.*1 → tag_at buf z o = Some false) → skip_ignored tags buf z b = Some (z, b).
Proof. intros Ho. rewrite <-(app_nil_r tags). by rewrite skip_ignored_skip. Qed.

Lemma skip_ignored_hit tags opening closing z b name inner l :
  at_offset buf z (name ++ inner ++ closing ++ 62 :: l) → same_case name opening → Forall text_byte inner →
  first_at_end inner (closing ++ [62]) →
  let z' := z + Z.of_nat (length name) + Z.of_nat (length inner) + Z.of_nat (length closing) in
  skip_ignored ((opening, closing) :: tags) buf z b = Some (z', true) ∧ at_offset buf z' (62 :: l).
Proof.
  intros Hat Hs Hin Hfirst. cbv zeta. cbn [skip_ignored]. rewrite (tag_at_eq _ _ _ Hat).
  rewrite (starts_case_app _ _ _ _ Hs), starts_case_refl. cbn [mbind option_bind].
  rewrite <-(same_case_length _ _ Hs). apply at_offset_app in Hat as H1.
  destruct (at_offset_peek_some (z + Z.of_nat (length name)) (inner ++ closing) 62 l) as [x ->]; [by rewrite <-app_assoc|].
  cbn [mbind option_bind].
  rewrite (find_tag_first _ inner (closing ++ [62]) l); [|by rewrite <-app_assoc|done|by destruct closing|done].
  cbn [mbind option_bind]. apply at_offset_app in H1 as H2. apply at_offset_app in H2 as H3.
  rewrite (at_offset_peek _ _ _ _ H3). cbn [mbind option_bind]. done.
Qed.

(** *** Between tokens *)

(** A tag in which no element with ignored content starts. *)
Lemma skip_markup_tag z body l :
  at_offset buf z (60 :: body ++ 62 :: l) → no_gt body → z + Z.of_nat (length body) + 2 ≤ zTerm →
  (head body = Some 47 ∨
   ∀ tag, tag ∈ ignore_tags.*1 ++ nonbreaking_ignore_tags → starts_case (body ++ 62 :: l) tag = Some false) →
  skip_markup buf zTerm z = Some (z + Z.of_nat (length body) + 1).
Proof.
  intros Hat Hb Hz Hcase. apply at_offset_cons in Hat. unfold skip_markup.
  assert (skip_to_gt (S (length buf)) buf zTerm (z + 1) = Some (z + Z.of_nat (length body) + 1)) as Hgt.
  { rewrite (skip_to_gt_buf _ body l); [f_equal; lia|done|done|lia]. }
  destruct (at_offset_peek_some (z + 1) body 62 l Hat) as [b Hpeek]. rewrite Hpeek. cbn [mbind option_bind].
  destruct (Z.eqb_spec b 47) as [->|Hne]; cbn [mbind option_bind]; [done|].
  destruct Hcase as [Hh|Htags].
  { destruct body as [|b' body]; [done|]. injection Hh as ->. rewrite (at_offset_peek _ _ _ _ Hat) in Hpeek. congruence. }
  rewrite skip_ignored_none; [|intros o Ho; rewrite (tag_at_eq _ _ _ Hat); apply Htags; set_solver].
  cbn [mbind option_bind]. rewrite skip_ignored_none; [done|].
  intros o Ho. rewrite (tag_at_eq _ _ _ Hat). apply Htags. rewrite <-list_fmap_compose in Ho.
  rewrite list_fmap_id in Ho by done. set_solver.
Qed.

(** An element whose end is found. *)
Lemma skip_markup_found z z' b l :
  peek buf (z + 1) = Some b → b ≠ 47 →
  (skip_ignored ignore_tags buf (z + 1) false = Some (z', true) ∨
   skip_ignored ignore_tags buf (z + 1) false = Some (z + 1, false) ∧
   skip_ignored ((λ t, (t, t)) <$> nonbreaking_ignore_tags) buf (z + 1) false = Some (z', true)) →
  at_offset buf z' (62 :: l) → z' < zTerm → skip_markup buf zTerm z = Some z'.
Proof.
  intros Hpeek Hb Hskip Hat Hz. unfold skip_markup. rewrite Hpeek. cbn [mbind option_bind].
  destruct (Z.eqb_spec b 47); [done|].
  pose proof (skip_to_gt_buf z' [] l Hat (Forall_nil_2 _) ltac:(cbn [length]; lia)) as Hgt. cbn [length] in Hgt.
  rewrite Z.add_0_r in Hgt.
  destruct Hskip as [->|[-> Hnb]]; cbn [mbind option_bind]; [exact Hgt|]. rewrite Hnb. exact Hgt.
Qed.

Lemma same_case_head name tag a tag' :
  same_case name tag → tag = a :: tag' → tolower a ≠ 47 → ∃ b name', name = b :: name' ∧ b ≠ 47.
Proof.
  intros Hs -> Ha. destruct name as [|b name]; [done|]. injection Hs as Hb _. exists b, name. split; [done|].
  by eapply tolower_47.
Qed.

Lemma all_tags_head tag : tag ∈ all_tags → ∃ a tag', tag = a :: tag' ∧ tolower a ≠ 47.
Proof.
  intros H. pose proof (tags_no_gt tag H) as Hne. unfold all_tags in H.
  destruct Hne as [|a tag' [_ Ha] _]; [each_tag|]. by exists a, tag'.
Qed.

(** An element of the first list. *)
Lemma skip_markup_ignored z opening closing name inner l :
  at_offset buf z (60 :: name ++ inner ++ closing ++ 62 :: l) → (opening, closing) ∈ ignore_tags →
  same_case name opening → Forall text_byte inner → first_at_end inner (closing ++ [62]) →
  let z' := z + 1 + Z.of_nat (length name) + Z.of_nat (length inner) + Z.of_nat (length closing) in
  z' < zTerm → skip_markup buf zTerm z = Some z'.
Proof.
  intros Hat Hin Hs Hinner Hfirst z' Hz'. apply at_offset_cons in Hat.
  destruct (all_tags_head opening) as (a & o' & Ho & Ha).
  { unfold all_tags. apply elem_of_app. left. apply (list_elem_of_fmap_2 fst _ _ Hin). }
  destruct (same_case_head _ _ _ _ Hs Ho Ha) as (b & name' & -> & Hb).
  destruct (ignore_tags_split _ _ Hin) as (tags1 & tags2 & Htags & Hnot).
  destruct (skip_ignored_hit tags2 opening closing (z + 1) false (b :: name') inner l Hat Hs Hinner Hfirst) as [Hhit Hend].
  apply (skip_markup_found z z' b l); [by eapply at_offset_peek|done| |exact Hend|done].
  left. rewrite Htags, skip_ignored_skip; [exact Hhit|].
  intros o Hin'. rewrite (tag_at_eq _ _ _ Hat). rewrite (starts_case_app _ _ _ _ Hs). by apply Hnot.
Qed.

(** An rp or rt element. *)
Lemma skip_markup_rp z tag name inner l :
  at_offset buf z (60 :: name ++ inner ++ tag ++ 62 :: l) → tag ∈ nonbreaking_ignore_tags →
  same_case name tag → Forall text_byte inner → first_at_end inner (tag ++ [62]) →
  let z' := z + 1 + Z.of_nat (length name) + Z.of_nat (length inner) + Z.of_nat (length tag) in
  z' < zTerm → skip_markup buf zTerm z = Some z'.
Proof.
  intros Hat Hin Hs Hinner Hfirst z' Hz'. apply at_offset_cons in Hat.
  destruct (all_tags_head tag) as (a & o' & Ho & Ha); [unfold all_tags; set_solver|].
  destruct (same_case_head _ _ _ _ Hs Ho Ha) as (b & name' & -> & Hb).
  destruct (element_tags_split _ Hin) as (tags1 & tags2 & Htags & Hnot).
  destruct (skip_ignored_hit ((λ t, (t, t)) <$> tags2) tag tag (z + 1) false (b :: name') inner l Hat Hs Hinner Hfirst)
    as [Hhit Hend].
  apply (skip_markup_found z z' b l); [by eapply at_offset_peek|done| |exact Hend|done].
  right. split.
  - apply skip_ignored_none. intros o Hin'. rewrite (tag_at_eq _ _ _ Hat), (starts_case_app _ _ _ _ Hs).
    by apply element_not_ignored.
  - rewrite Htags, fmap_app, fmap_cons, skip_ignored_skip; [exact Hhit|].
    intros o Hin'. rewrite <-list_fmap_compose, list_fmap_id in Hin' by done.
    rewrite (tag_at_eq _ _ _ Hat). rewrite (starts_case_app _ _ _ _ Hs). by apply Hnot.
Qed.

Lemma ruby_name name : same_case name (bytes "ruby") → no_gt name ∧ ∃ b name', name = b :: name' ∧ b ≠ 47.
Proof.
  intros Hs. destruct (all_tags_head (bytes "ruby")) as (a & t' & E & Ha); [unfold all_tags; set_solver|].
  split; [|by eapply same_case_head]. apply (same_case_Forall _ _ _ Hs).
  eapply Forall_impl; [apply (tags_no_gt (bytes "ruby")); unfold all_tags; set_solver|].
  simpl. intros x [Hx _] y Hy. by eapply tolower_62.
Qed.

(** Between tokens every item of markup is skipped up to its last byte. *)
Lemma skip_markup_item z w l :
  plain_markup w ∨ ruby_markup w → at_offset buf z (w ++ l) → z + Z.of_nat (length w) ≤ zTerm →
  skip_markup buf zTerm z = Some (z + Z.of_nat (length w) - 1) ∧
  at_offset buf (z + Z.of_nat (length w) - 1) (62 :: l) ∧ head w = Some 60.
Proof.
  intros Hw Hat Hz.
  assert (∃ w', w = 60 :: w' ++ [62]) as (w' & E).
  { destruct Hw as [[name ? ?|body ? ? ?|name o inner c ? ? ? ?]|[slash name attrs ? ? ?|name inner tag ? ? ? ?]].
    - by exists (47 :: name).
    - by exists body.
    - exists (name ++ inner ++ c). by rewrite <-!app_assoc.
    - exists (slash ++ name ++ attrs). by rewrite <-!app_assoc.
    - exists (name ++ inner ++ tag). by rewrite <-!app_assoc. }
  split; [|split; [|by rewrite E]].
  2:{ rewrite E in Hat |- *. cbn [app] in Hat. rewrite <-app_assoc in Hat. apply at_offset_cons, at_offset_app in Hat.
      cbn [length]. rewrite length_app. cbn [length].
      by replace (z + Z.of_nat (S (length w' + 1)) - 1) with (z + 1 + Z.of_nat (length w')) by lia. }
  clear E w'. revert Hat Hz. destruct Hw as [[name Hname Hr|body Hbody Hh Hno|name o inner c Hin Hs Hinner Hf]|
      [slash name attrs Hsl Hs Hattrs|name inner tag Hin Hs Hinner Hf]]; intros Hat Hz;
    cbn [app] in Hat; rewrite <-?app_assoc in Hat; cbn [app length] in *; rewrite ?length_app in *; cbn [length] in *.
  - change (60 :: 47 :: name ++ 62 :: l) with (60 :: (47 :: name) ++ 62 :: l) in Hat.
    rewrite (skip_markup_tag z (47 :: name) l Hat); [|constructor; [done|by apply tag_bytes_no_gt]| |by left];
      cbn [length]; [f_equal; lia|lia].
  - rewrite (skip_markup_tag z body l Hat); [f_equal; lia|by apply tag_bytes_no_gt|lia|right].
    intros tag Htag. apply starts_case_not; [|apply Hno; set_solver].
    eapply Forall_impl; [apply tags_no_gt; unfold all_tags; set_solver|]. by intros ? [].
  - rewrite (skip_markup_ignored z o c name inner l) by (done || lia). f_equal. lia.
  - destruct (ruby_name name Hs) as [Hgt (b & name' & -> & Hb)].
    rewrite app_assoc, app_assoc in Hat. rewrite (skip_markup_tag z ((slash ++ b :: name') ++ attrs) l Hat).
    + f_equal. rewrite !length_app. lia.
    + apply Forall_app; split; [apply Forall_app; split; [|done]|by apply tag_bytes_no_gt].
      destruct Hsl as [-> | ->]; repeat constructor; lia.
    + rewrite !length_app. lia.
    + destruct Hsl as [-> | ->]; [right|by left]. intros tag Htag. cbn [app].
      change (b :: (name' ++ attrs) ++ 62 :: l) with ((b :: name' ++ attrs) ++ 62 :: l).
      change (b :: name' ++ attrs) with ((b :: name') ++ attrs). rewrite <-app_assoc.
      rewrite (starts_case_app _ _ _ _ Hs). by apply ruby_not_ignored.
  - rewrite (skip_markup_rp z tag name inner l) by (done || lia). f_equal. lia.
Qed.
(** *** Inside a token *)

Lemma skip_element_none z b tags :
  (∀ o, o ∈ tags → tag_at buf (z + 1) o = Some false) → skip_element tags buf zTerm z b = Some (z, b).
Proof.
  induction tags as [|t tags IH]; intros Ho; [done|]. cbn [skip_element]. rewrite (Ho t) by set_solver.
  cbn [mbind option_bind]. apply IH. set_solver.
Qed.

Lemma skip_element_hit tags1 tags2 z b tag name inner l :
  at_offset buf (z + 1) (name ++ inner ++ tag ++ 62 :: l) → same_case name tag → Forall text_byte inner →
  first_at_end inner (tag ++ [62]) → (∀ o, o ∈ tags1 → tag_at buf (z + 1) o = Some false) →
  let z' := z + 1 + Z.of_nat (length name) + Z.of_nat (length inner) + Z.of_nat (length tag) in
  z' < zTerm → skip_element (tags1 ++ tag :: tags2) buf zTerm z b = Some (z' + 1, true).
Proof.
  intros Hat Hs Hin Hfirst Ho z' Hz'. induction tags1 as [|t tags1 IH].
  2:{ cbn [app skip_element]. rewrite (Ho t) by set_solver. cbn [mbind option_bind]. apply IH. set_solver. }
  cbn [app skip_element]. rewrite (tag_at_eq _ _ _ Hat), (starts_case_app _ _ _ _ Hs), starts_case_refl.
  cbn [mbind option_bind]. rewrite <-(same_case_length _ _ Hs). apply at_offset_app in Hat as H1.
  destruct (at_offset_peek_some (z + 1 + Z.of_nat (length name)) (inner ++ tag) 62 l) as [x ->]; [by rewrite <-app_assoc|].
  cbn [mbind option_bind].
  rewrite (find_tag_first _ inner (tag ++ [62]) l); [|by rewrite <-app_assoc|done|by destruct tag|done].
  cbn [mbind option_bind]. apply at_offset_app in H1 as H2. apply at_offset_app in H2 as H3.
  subst z'. rewrite <-(same_case_length _ _ Hs) in H3, Hz'.
  pose proof (skip_to_gt_buf _ [] l H3 (Forall_nil_2 _) ltac:(cbn [length]; lia)) as Hgt. cbn [length] in Hgt.
  rewrite Z.add_0_r in Hgt. rewrite (at_offset_peek _ _ _ _ H3). cbn [mbind option_bind]. rewrite Hgt.
  cbn [mbind option_bind]. rewrite (at_offset_peek _ _ _ _ H3).
  by rewrite (same_case_length _ _ Hs).
Qed.

Lemma skip_tag_none off z b : tag_at buf (z + off) (bytes "ruby") = Some false → skip_tag off nonbreaking_tags buf zTerm z b = Some (z, b).
Proof. intros H. cbn [nonbreaking_tags skip_tag]. by rewrite H. Qed.

Lemma skip_tag_hit off z b name attrs l :
  at_offset buf (z + off) (name ++ attrs ++ 62 :: l) → same_case name (bytes "ruby") → no_gt attrs →
  let z' := z + off + Z.of_nat (length name) + Z.of_nat (length attrs) in
  z' < zTerm → skip_tag off nonbreaking_tags buf zTerm z b = Some (z' + 1, true).
Proof.
  intros Hat Hs Hgt z' Hz'. cbn [nonbreaking_tags skip_tag].
  rewrite (tag_at_eq _ _ _ Hat), (starts_case_app _ _ _ _ Hs), starts_case_refl. cbn [mbind option_bind].
  rewrite <-(same_case_length _ _ Hs). apply at_offset_app in Hat as H1.
  destruct (at_offset_peek_some _ _ _ _ H1) as [x ->]. cbn [mbind option_bind].
  rewrite (skip_to_gt_buf _ attrs l) by (done || lia). cbn [mbind option_bind]. apply at_offset_app in H1 as H2.
  rewrite (at_offset_peek _ _ _ _ H2). done.
Qed.

Lemma skip_nonbreaking_ruby fuel z w l :
  ruby_markup w → at_offset buf z (w ++ l) → z + Z.of_nat (length w) ≤ zTerm →
  skip_nonbreaking (S fuel) buf zTerm z = skip_nonbreaking fuel buf zTerm (z + Z.of_nat (length w)).
Proof.
  intros Hw. destruct Hw as [slash name attrs Hsl Hs Hattrs|name inner tag Hin Hs Hinner Hf]; intros Hat Hz;
    cbn [app] in Hat; rewrite <-?app_assoc in Hat; cbn [app length] in *; rewrite ?length_app in *; cbn [length] in *;
    cbn [skip_nonbreaking]; rewrite (at_offset_peek _ _ _ _ Hat); cbn [mbind option_bind];
    change (60 =? 60) with true; cbn iota; apply at_offset_cons in Hat.
  - destruct (ruby_name name Hs) as [Hgt (b & name' & E & Hb)]. destruct Hsl as [-> | ->]; cbn [app length] in *.
    + rewrite E in Hat. rewrite (at_offset_peek _ _ _ _ Hat). cbn [mbind option_bind].
      destruct (Z.eqb_spec b 47); [done|]. change (b :: name' ++ ?r) with ((b :: name') ++ r) in Hat.
      rewrite <-E in Hat. rewrite skip_element_none.
      2:{ intros o Ho. rewrite (tag_at_eq _ _ _ Hat), (starts_case_app _ _ _ _ Hs). apply ruby_not_ignored. set_solver. }
      cbn [mbind option_bind]. rewrite (skip_tag_hit 1 z false name attrs l) by (done || lia || by apply tag_bytes_no_gt).
      cbn [mbind option_bind]. f_equal. lia.
    + rewrite (at_offset_peek _ _ _ _ Hat). cbn [mbind option_bind]. change (47 =? 47) with true. cbn iota.
      apply at_offset_cons in Hat. replace (z + 1 + 1) with (z + 2) in Hat by lia.
      rewrite (skip_tag_hit 2 z false name attrs l) by (done || lia || by apply tag_bytes_no_gt).
      cbn [mbind option_bind]. f_equal. lia.
  - destruct (all_tags_head tag) as (a & o' & Ho & Ha); [unfold all_tags; set_solver|].
    destruct (same_case_head _ _ _ _ Hs Ho Ha) as (b & name' & E & Hb).
    assert (peek buf (z + 1) = Some b) as -> by (rewrite E in Hat; by eapply at_offset_peek).
    cbn [mbind option_bind]. destruct (Z.eqb_spec b 47); [done|].
    destruct (element_tags_split _ Hin) as (tags1 & tags2 & Htags & Hnot). rewrite Htags.
    rewrite (skip_element_hit tags1 tags2 z false tag name inner l); [cbn [mbind option_bind]; f_equal; lia|done|done|done|done| |lia].
    intros o Hin'. rewrite (tag_at_eq _ _ _ Hat), (starts_case_app _ _ _ _ Hs). by apply Hnot.
Qed.

Lemma skip_nonbreaking_markup fuel z w l :
  plain_markup w → at_offset buf z (w ++ l) → skip_nonbreaking (S fuel) buf zTerm z = Some z ∧ peek buf z = Some 60.
Proof.
  assert (∀ b body, at_offset buf (z + 1) body → peek buf z = Some 60 → peek buf (z + 1) = Some b → b ≠ 47 →
    (∀ o, o ∈ nonbreaking_ignore_tags ++ nonbreaking_tags → starts_case body o = Some false) →
    skip_nonbreaking (S fuel) buf zTerm z = Some z) as Hopen.
  { intros b body Hat Hpeek Hpeek' Hb Hno. cbn [skip_nonbreaking]. rewrite Hpeek. cbn [mbind option_bind].
    change (60 =? 60) with true. cbn iota. rewrite Hpeek'. cbn [mbind option_bind]. destruct (Z.eqb_spec b 47); [done|].
    rewrite skip_element_none; [|intros o Ho; rewrite (tag_at_eq _ _ _ Hat); apply Hno; set_solver]. cbn [mbind option_bind].
    rewrite skip_tag_none; [done|]. rewrite (tag_at_eq _ _ _ Hat). apply Hno. set_solver. }
  intros Hw. destruct Hw as [name Hname Hr|body Hbody Hh Hno|name o inner c Hin Hs Hinner Hf]; intros Hat;
    cbn [app] in Hat; rewrite <-?app_assoc in Hat; cbn [app] in Hat; (split; [|by eapply at_offset_peek]);
    pose proof (at_offset_peek _ _ _ _ Hat) as Hpeek; apply at_offset_cons in Hat.
  - cbn [skip_nonbreaking]. rewrite Hpeek. cbn [mbind option_bind]. change (60 =? 60) with true. cbn iota.
    rewrite (at_offset_peek _ _ _ _ Hat). cbn [mbind option_bind]. change (47 =? 47) with true. cbn iota.
    apply at_offset_cons in Hat. replace (z + 1 + 1) with (z + 2) in Hat by lia.
    rewrite skip_tag_none; [done|]. rewrite (tag_at_eq _ _ _ Hat). apply starts_case_not; [|done].
    eapply Forall_impl; [apply (tags_no_gt (bytes "ruby")); unfold all_tags; set_solver|]. by intros ? [].
  - destruct (at_offset_peek_some _ _ _ _ Hat) as [b Hb]. apply (Hopen b (body ++ 62 :: l)); [done|done|done| |].
    + intros ->. destruct body as [|b' body]; rewrite (at_offset_peek _ _ _ _ Hat) in Hb; [done|]. by simplify_eq.
    + intros tag Htag. apply starts_case_not; [|apply Hno; set_solver].
      eapply Forall_impl; [apply tags_no_gt; unfold all_tags; set_solver|]. by intros ? [].
  - assert (o ∈ ignore_tags.*1) as Ho by (apply (list_elem_of_fmap_2 fst _ _ Hin)).
    destruct (all_tags_head o) as (a & o' & Ho' & Ha); [unfold all_tags; set_solver|].
    destruct (same_case_head _ _ _ _ Hs Ho' Ha) as (b & name' & E & Hb).
    apply (Hopen b (name ++ inner ++ c ++ 62 :: l)); [done|done| |done|].
    + rewrite E in Hat. by eapply at_offset_peek.
    + intros tag Htag. rewrite (starts_case_app _ _ _ _ Hs). by apply ignored_not_element.
Qed.

Lemma skip_nonbreaking_other fuel z b : peek buf z = Some b → b ≠ 60 → skip_nonbreaking (S fuel) buf zTerm z = Some z.
Proof. intros H Hb. cbn [skip_nonbreaking]. rewrite H. cbn [mbind option_bind]. by destruct (Z.eqb_spec b 60). Qed.
End skip.
