(* ===== verification/HtmlProofs.v ===== *)
(** * fts3_html_tokenizer.c: one call

    The scan for the start of a token, the loop over its characters and the
    memory of the token, for a text given by its items. *)
From S2P Require Import Prelude Words Ctype Utf8 Utf8Proofs CharTokenizer Unicode UnicodeProofs HtmlTokenizer HtmlText HtmlMarkup.
From stdpp Require Import strings sorting.
Local Open Scope Z_scope.

(** ** The memory of a token *)

Section memory.
Implicit Types (t acc w l : list Z) (n : Z).

(** What [sqlite3_realloc] adds is 64 bytes. Their contents are what the memory
    held; whether the last one is 0 is the premise [zl] of what follows. *)
Definition realloc_64 (realloc : Z → option (list Z)) : Prop := ∀ n l, realloc n = Some l → length l = 64%nat.

(** Memory never runs out, and the last byte of it is 0: so it is when the memory
    is fresh from the system, but C does not promise it. *)
Definition realloc_ok (realloc : Z → option (list Z)) : Prop :=
  ∀ n, ∃ l, realloc n = Some l ∧ length l = 64%nat ∧ last l = Some 0.

Context (zl : Prop).

(** The buffer has the size that is recorded, and its last byte is 0. *)
Definition token_memory (t : list Z) (n : Z) : Prop :=
  Z.of_nat (length t) = n ∧ (zl → t = [] ∨ last t = Some 0).

Definition realloc_gives (realloc : Z → option (list Z)) : Prop :=
  realloc_64 realloc ∧ (zl → realloc_ok realloc).

Lemma write_bytes_spec t pos w :
  0 ≤ pos → pos + Z.of_nat (length w) < Z.of_nat (length t) → (zl → last t = Some 0) →
  ∃ t', write_bytes t pos w = Some t' ∧ length t' = length t ∧ (zl → last t' = Some 0) ∧
    take (Z.to_nat pos + length w) t' = take (Z.to_nat pos) t ++ w.
Proof.
  intros Hpos Hlen Hlast. unfold write_bytes.
  destruct (Nat.leb_spec (Z.to_nat pos + length w) (length t)); [|lia]. eexists. split; [done|].
  assert (length (take (Z.to_nat pos) t) = Z.to_nat pos) as Ht by (rewrite length_take; lia).
  split; [|split].
  - rewrite !length_app, length_drop, Ht. lia.
  - intros Hzl. specialize (Hlast Hzl).
    assert (drop (Z.to_nat pos + length w) t ≠ []) as Hd.
    { intros E. apply (f_equal length) in E. rewrite length_drop in E. cbn [length] in E. lia. }
    rewrite <-(take_drop (Z.to_nat pos + length w) t), last_app in Hlast. rewrite !last_app.
    destruct (last (drop (Z.to_nat pos + length w) t)) eqn:E; [by simplify_eq|].
    by apply last_None in E.
  - rewrite app_assoc, take_app_le by (rewrite length_app; lia). apply take_ge. rewrite length_app. lia.
Qed.

(** The buffer after it has grown, if it has to. *)
Lemma token_grow realloc t n acc :
  realloc_gives realloc → token_memory t n → take (length acc) t = acc →
  match (if n - 4 <=? Z.of_nat (length acc) then l ← realloc n; Some (t ++ l, n + 64) else Some (t, n)) with
  | Some (t', n') =>
      token_memory t' n' ∧ take (length acc) t' = acc ∧ Z.of_nat (length acc) + 4 < n' ∧ (zl → last t' = Some 0)
  | None => realloc n = None
  end.
Proof.
  intros [H64 Hre] [Hn Hlast] Hacc. pose proof (f_equal length Hacc) as Hle. rewrite length_take in Hle.
  destruct (Z.leb_spec (n - 4) (Z.of_nat (length acc))).
  - destruct (realloc n) as [l|] eqn:El; [|done]. cbn [mbind option_bind]. pose proof (H64 _ _ El) as Hl.
    assert (zl → last (t ++ l) = Some 0).
    { intros Hzl. destruct (Hre Hzl n) as (l' & El' & _ & Hl0). rewrite El in El'. injection El' as <-.
      by rewrite last_app, Hl0. }
    split_and!; [split; [rewrite length_app; lia|by right; auto]|by rewrite take_app_le by lia|lia|done].
  - split_and!; [done|done|lia|]. intros Hzl. destruct (Hlast Hzl) as [->|]; [|done]. cbn [length] in *. lia.
Qed.

Lemma strlen_first_zero l :
  match strlen l with Some n => 0 ≤ n < Z.of_nat (length l) | None => 0 ∉ l end.
Proof.
  induction l as [|b l IH]; cbn [strlen]; [apply not_elem_of_nil|].
  destruct (Z.eqb_spec b 0) as [->|Hb]; [cbn [length]; lia|].
  destruct (strlen l) as [n|]; cbn [length mbind option_bind fmap option_fmap option_map]; [lia|].
  apply not_elem_of_cons. by split.
Qed.

Lemma strlen_app_nonzero acc l n : Forall (λ b, b ≠ 0) acc → strlen l = Some n → strlen (acc ++ l) = Some (Z.of_nat (length acc) + n).
Proof.
  intros Hacc Hl. induction Hacc as [|b acc Hb _ IH]; [done|]. cbn [app strlen length].
  destruct (Z.eqb_spec b 0); [done|]. rewrite IH. cbn. f_equal. lia.
Qed.

(** The terminating zero is written after the token, if it is not there; if there
    is no zero anywhere after the token, its length cannot be read. *)
Lemma terminate_token_spec t n acc :
  token_memory t n → take (length acc) t = acc → Z.of_nat (length acc) < n → Forall (λ b, b ≠ 0) acc →
  match terminate_token t (Z.of_nat (length acc)) with
  | Some t' => token_memory t' n ∧ take (length acc) t' = acc
  | None => 0 ∉ drop (length acc) t ∧ ¬ zl
  end.
Proof.
  intros [Hn Hlast] Hacc Hlt Hnz. unfold terminate_token. rewrite Nat2Z.id.
  assert (zl → last t = Some 0) as Hl0 by (intros Hzl; destruct (Hlast Hzl) as [->|]; [cbn [length] in *; lia|done]).
  assert (t = acc ++ drop (length acc) t) as Et by (rewrite <-Hacc at 1; by rewrite take_drop).
  pose proof (strlen_first_zero (drop (length acc) t)) as Hk0.
  destruct (strlen (drop (length acc) t)) as [k|] eqn:Hk; cbn [mbind option_bind].
  2: { split; [done|]. intros Hzl. specialize (Hl0 Hzl). rewrite Et, last_app in Hl0.
       destruct (last (drop (length acc) t)) as [x|] eqn:E.
       - injection Hl0 as ->. apply Hk0. apply last_Some in E as [l ->]. set_solver.
       - apply last_None, (f_equal length) in E. rewrite length_drop in E. cbn [length] in E. lia. }
  destruct (Z.ltb_spec 0 k); [|by split; [split; [|intros Hzl; right; auto]|]].
  pose proof (strlen_app_nonzero _ _ _ Hnz Hk) as Hst. rewrite <-Et in Hst. rewrite Hst. cbn [mbind option_bind].
  replace (Z.of_nat (length acc) + k - k) with (Z.of_nat (length acc)) by lia.
  rewrite length_drop in Hk0.
  destruct (write_bytes_spec t (Z.of_nat (length acc)) [0]) as (t' & -> & Hlen & Hlast' & Htake);
    [lia|cbn [length]; lia|done|].
  split; [split; [by rewrite Hlen|intros Hzl; right; auto]|].
  rewrite Nat2Z.id in Htake. apply (f_equal (take (length acc))) in Htake. rewrite take_take in Htake.
  rewrite Nat.min_l in Htake by lia. rewrite Htake, Hacc. by rewrite take_app_length.
Qed.
End memory.

(** ** Items in the buffer *)

Section call.
Context (p : unicode_tokenizer) (Hp : tokenizer_ok p) (Hgt : 62 ∉ aiException p).
Context (buf rest : list Z) (zTerm : Z).
Implicit Types (xs : list item) (z pos e : Z) (acc : list Z).

(** The items [xs] are what the buffer holds from [z] to the end of the text. *)
Definition items_at (z : Z) (xs : list item) : Prop :=
  Forall item_ok xs ∧ at_offset buf z (text_of xs ++ 0 :: rest) ∧ zTerm = z + Z.of_nat (length (text_of xs)).

Lemma text_of_cons x xs : text_of (x :: xs) = item_bytes x ++ text_of xs.
Proof. reflexivity. Qed.

Lemma item_size_pos x : item_ok x → 0 < item_size x.
Proof.
  intros Hx. unfold item_size. destruct x as [c|w|w]; cbn [item_bytes item_ok] in *.
  - pose proof (length_WRITE_UTF8 c). lia.
  - destruct Hx; cbn [length]; lia.
  - destruct Hx; cbn [length]; lia.
Qed.

Lemma items_at_cons z x xs :
  items_at z (x :: xs) →
  item_ok x ∧ items_at (z + item_size x) xs ∧ at_offset buf z (item_bytes x ++ text_of xs ++ 0 :: rest) ∧
  z + item_size x ≤ zTerm ∧ z < zTerm.
Proof.
  intros ([Hx Hxs]%Forall_cons & Hat & Hz). pose proof (item_size_pos x Hx).
  rewrite text_of_cons in *. rewrite <-app_assoc in Hat. rewrite length_app in Hz. unfold item_size in *.
  split_and!; [done| |done|lia|lia]. split_and!; [done|by apply at_offset_app|lia].
Qed.

Lemma items_at_nil z : items_at z [] → z = zTerm ∧ peek buf z = Some 0.
Proof. intros (_ & Hat & Hz). cbn [text_of fmap list_fmap concat length app] in *. split; [lia|by eapply at_offset_peek]. Qed.

Lemma items_at_length z xs : items_at z xs → (length xs ≤ length (text_of xs))%nat.
Proof.
  intros (Hxs & _). induction Hxs as [|x xs Hx _ IH]; [done|]. rewrite text_of_cons, length_app.
  pose proof (item_size_pos x Hx) as Hs. unfold item_size in Hs. cbn [length]. lia.
Qed.

Lemma starts_items xs : Forall item_ok xs → starts (text_of xs ++ 0 :: rest).
Proof.
  intros Hxs. destruct Hxs as [|x xs Hx _]; [done|]. rewrite text_of_cons, <-app_assoc.
  destruct x as [c|w|w]; cbn [item_bytes item_ok] in *.
  - destruct Hx as [[Hc _] _]. apply starts_WRITE_UTF8. lia.
  - by destruct Hx.
  - by destruct Hx.
Qed.

(** Reading the character at the front. *)
Lemma read_char z c xs : items_at z (Char c :: xs) → READ_UTF8 buf zTerm z = Some (c, z + item_size (Char c)).
Proof.
  intros H. destruct (items_at_cons _ _ _ H) as ([Hc _] & (Hxs & _) & Hat & Hle & _).
  apply (READ_UTF8_written buf zTerm z c (text_of xs ++ 0 :: rest)); [done|done|by apply starts_items|done].
Qed.

(** Its first byte is not [<]. *)
Lemma peek_char z c xs : items_at z (Char c :: xs) → ∃ b, peek buf z = Some b ∧ b ≠ 60.
Proof.
  intros H. destruct (items_at_cons _ _ _ H) as ([[Hc _] Hne] & _ & Hat & _). cbn [item_bytes] in Hat.
  rewrite WRITE_UTF8_eq in Hat by lia.
  destruct (Z.ltb_spec c 0x80); [eexists; split; [by eapply at_offset_peek|done]|].
  assert (0 ≤ c / 64) by (apply Z.div_pos; lia). assert (0 ≤ c / 4096) by (apply Z.div_pos; lia).
  assert (0 ≤ c / 262144) by (apply Z.div_pos; lia).
  repeat case_match; (eexists; split; [by eapply at_offset_peek|lia]).
Qed.

Lemma token_char_0 : token_char p 0 = false.
Proof. unfold token_char. rewrite bool_decide_false by apply Hp. reflexivity. Qed.

Lemma token_char_gt : token_char p 62 = false.
Proof. unfold token_char. rewrite bool_decide_false by done. reflexivity. Qed.

(** ** The start of a token *)

Lemma scan_loop_spec fuel z xs c :
  items_at z xs → (length xs < fuel)%nat →
  match html_scan p xs z with
  | Some (start, c', xs', q) =>
    scan_loop fuel p buf zTerm z z c = Some (q, start, c') ∧ start < zTerm ∧ items_at q xs' ∧
    token_char p c' = true ∧ clean c' ∧ (length xs' < length xs)%nat
  | None => ∃ c', scan_loop fuel p buf zTerm z z c = Some (zTerm, zTerm, c')
  end.
Proof.
  revert z c xs. induction fuel as [|fuel IH]; intros z c xs Hxs Hf; [lia|].
  destruct xs as [|x xs].
  - apply items_at_nil in Hxs as [-> _]. exists c. cbn [scan_loop]. by destruct (Z.ltb_spec zTerm zTerm); [lia|].
  - destruct (items_at_cons _ _ _ Hxs) as (Hx & Hxs' & Hat & Hle & Hlt). cbn [length] in Hf.
    cbn [scan_loop]. destruct (Z.ltb_spec z zTerm); [|lia].
    assert (x = Char (match x with Char c => c | _ => 0 end) ∨
            ∃ w, item_bytes x = w ∧ (plain_markup w ∨ ruby_markup w) ∧ html_scan p (x :: xs) z = html_scan p xs (z + item_size x)) as [E|(w & Ew & Hw & ->)].
    { destruct x as [c'|w|w]; [by left|right; exists w..]; split_and!; try done; [by left|by right]. }
    + destruct x as [c'|w|w]; [|done..]. destruct (peek_char _ _ _ Hxs) as (b & -> & Hb). cbn [mbind option_bind].
      destruct (Z.eqb_spec b 60); [done|]. cbn [mbind option_bind]. rewrite (read_char _ _ _ Hxs). cbn [mbind option_bind].
      rewrite unicodeIsAlnum_eq by done. cbn [mbind option_bind html_scan].
      destruct (token_char p c') eqn:Htok; cbn [Z.b2z].
      * change (1 =? 0) with false. cbn iota. destruct Hx. split_and!; [done|lia|done|done|done|cbn [length]; lia].
      * change (0 =? 0) with true. cbn iota. specialize (IH (z + item_size (Char c')) c' xs Hxs' ltac:(lia)).
        destruct (html_scan p xs _) as [[[[start d] xs'] q]|]; [|done].
        destruct IH as (? & ? & ? & ? & ? & ?). split_and!; try done. cbn [length]. lia.
    + rewrite Ew in Hat. unfold item_size in *. rewrite Ew in *.
      destruct (skip_markup_item buf zTerm z w _ Hw Hat Hle) as (Hskip & Hend & Hhead).
      assert (peek buf z = Some 60) as ->.
      { destruct w as [|b w]; [done|]. injection Hhead as ->. by eapply at_offset_peek. }
      cbn [mbind option_bind]. change (60 =? 60) with true. cbn iota. rewrite Hskip. cbn [mbind option_bind].
      rewrite (READ_UTF8_byte _ _ _ _ _ Hend) by lia. cbn [mbind option_bind].
      rewrite unicodeIsAlnum_eq, token_char_gt by done. cbn [mbind option_bind Z.b2z]. change (0 =? 0) with true. cbn iota.
      replace (z + Z.of_nat (length w) - 1 + 1) with (z + Z.of_nat (length w)) by lia.
      specialize (IH (z + Z.of_nat (length w)) 62 xs Hxs' ltac:(lia)).
      destruct (html_scan p xs _) as [[[[start d] xs'] q]|]; [|done].
      destruct IH as (? & ? & ? & ? & ? & ?). split_and!; try done. cbn [length]. lia.
Qed.
(** ** The characters of a token *)

(** The items after the ruby markup at the front, and where they are. *)
Fixpoint drop_rubies (xs : list item) (z : Z) : list item * Z :=
  match xs with
  | Ruby w :: xs' => drop_rubies xs' (z + item_size (Ruby w))
  | _ => (xs, z)
  end.

Lemma html_collect_rubies xs z e acc :
  html_collect p xs z e acc = let '(xs', z') := drop_rubies xs z in html_collect p xs' z' e acc.
Proof.
  revert z. induction xs as [|[c|w|w] xs IH]; intros z; try done. cbn [html_collect drop_rubies]. apply IH.
Qed.

Lemma skip_nonbreaking_items fuel xs z :
  items_at z xs → (length xs < fuel)%nat →
  let '(xs', z') := drop_rubies xs z in
  skip_nonbreaking fuel buf zTerm z = Some z' ∧ items_at z' xs' ∧ (length xs' ≤ length xs)%nat ∧
  match xs' with
  | [] => peek buf z' = Some 0
  | Char _ :: _ => ∃ b, peek buf z' = Some b ∧ b ≠ 60
  | Markup _ :: _ => peek buf z' = Some 60
  | Ruby _ :: _ => False
  end.
Proof.
  revert z xs. induction fuel as [|fuel IH]; intros z xs Hxs Hf; [lia|].
  destruct xs as [|[c|w|w] xs]; cbn [drop_rubies].
  - destruct (items_at_nil _ Hxs) as [_ Hpeek]. by rewrite (skip_nonbreaking_other _ _ _ _ _ Hpeek).
  - destruct (peek_char _ _ _ Hxs) as (b & Hpeek & Hb). rewrite (skip_nonbreaking_other _ _ _ _ _ Hpeek Hb).
    split_and!; [done|done|done|by exists b].
  - destruct (items_at_cons _ _ _ Hxs) as (Hx & _ & Hat & _).
    destruct (skip_nonbreaking_markup buf zTerm fuel z w _ Hx Hat) as [-> Hpeek]. done.
  - destruct (items_at_cons _ _ _ Hxs) as (Hx & Hxs' & Hat & Hle & _).
    rewrite (skip_nonbreaking_ruby buf zTerm fuel z w _ Hx Hat Hle). cbn [length] in Hf.
    specialize (IH _ _ Hxs' ltac:(lia)). change (z + item_size (Ruby w)) with (z + Z.of_nat (length w)) in *.
    destruct (drop_rubies xs (z + Z.of_nat (length w))) as [xs' z']. destruct IH as (? & ? & ? & ?).
    split_and!; try done. cbn [length]. lia.
Qed.

Lemma WRITE_UTF8_nonzero c : 0 < c → Forall (λ b, b ≠ 0) (WRITE_UTF8 c).
Proof.
  intros Hc.
  assert (∀ k m y n, m = Z.ones n → 0 ≤ n → 0 < k → k + 2 ^ n ≤ 256 → u8 (k + u8 (Z.land y m)) ≠ 0) as Hbyte.
  { intros k m y n -> Hn Hk Hkm. rewrite Z.land_ones by done.
    pose proof (Z.mod_pos_bound y (2 ^ n) ltac:(apply Z.pow_pos_nonneg; lia)). rewrite !u8_small by (rewrite ?u8_small; lia). lia. }
  unfold WRITE_UTF8. destruct (Z.ltb_spec c 0x80).
  { constructor; [|constructor]. change 0xFF with (Z.ones 8). rewrite Z.land_ones, Z.mod_small, u8_small by lia. lia. }
  repeat case_match; repeat constructor;
    first [by apply (Hbyte _ _ _ 6)|by apply (Hbyte _ _ _ 5)|by apply (Hbyte _ _ _ 4)|by apply (Hbyte _ _ _ 3)].
Qed.

Lemma folded_eq c :
  0 ≤ c → ∃ x, sqlite3FtsUnicodeFold c (bRemoveDiacritic p) = Some x ∧
    folded p c = (if x =? 0 then [] else WRITE_UTF8 x) ∧ (length (folded p c) ≤ 4)%nat ∧ Forall (λ b, b ≠ 0) (folded p c).
Proof.
  intros Hc. destruct (sqlite3FtsUnicodeFold_total c (bRemoveDiacritic p) Hc) as (x & Hx & Hx0). exists x.
  unfold folded. rewrite Hx. destruct (Z.eqb_spec x 0); [split_and!; [done|done|cbn; lia|constructor]|].
  pose proof (length_WRITE_UTF8 x). split_and!; [done|done|lia|apply WRITE_UTF8_nonzero; lia].
Qed.

Section loop.
Context (zl : Prop) (realloc : Z → option (list Z)) (Hre : realloc_gives zl realloc).

Lemma token_loop_spec fuel xs z c t n acc :
  items_at z xs → (length xs < fuel)%nat → 0 ≤ c → token_memory zl t n → take (length acc) t = acc →
  Forall (λ b, b ≠ 0) acc →
  let '(acc', e', xs', q) := html_collect p xs z z (acc ++ folded p c) in
  (∃ t' n' q', token_loop fuel realloc p buf zTerm t n (Z.of_nat (length acc)) z c =
      Some (inr (mkTok t' n' (Z.of_nat (length acc')) e' q')) ∧
    token_memory zl t' n' ∧ take (length acc') t' = acc' ∧ Z.of_nat (length acc') < n' ∧ Forall (λ b, b ≠ 0) acc' ∧
    items_at q xs' ∧ (length xs' ≤ length xs)%nat ∧ (q' = q ∨ xs' = [] ∧ zTerm ≤ q')) ∨
  ∃ t' n' n'', token_loop fuel realloc p buf zTerm t n (Z.of_nat (length acc)) z c = Some (inl (t', n')) ∧
    realloc n'' = None.
Proof.
  revert xs z c t n acc. induction fuel as [|fuel IH]; intros xs z c t n acc Hxs Hf Hc Hmem Hacc Hnz; [lia|].
  cbn [token_loop]. pose proof (token_grow zl realloc t n acc Hre Hmem Hacc) as Hgrow.
  destruct (if n - 4 <=? Z.of_nat (length acc) then _ else _) as [[t1 n1]|].
  2: { destruct (html_collect p xs z z (acc ++ folded p c)) as [[[acc' e'] xs'] q]. right. eauto. }
  destruct Hgrow as (Hmem1 & Hacc1 & Hn1 & Hlast1).
  destruct (folded_eq c Hc) as (x & -> & Hfold & Hflen & Hfnz). cbn [mbind option_bind]. rewrite <-Hfold.
  destruct (write_bytes_spec zl t1 (Z.of_nat (length acc)) (folded p c)) as (t2 & -> & Hlen2 & Hlast2 & Htake2);
    [lia|destruct Hmem1; lia|done|]. cbn [mbind option_bind].
  rewrite Nat2Z.id, Hacc1, <-length_app in Htake2.
  assert (token_memory zl t2 n1) as Hmem2 by (split; [destruct Hmem1; lia|by right; auto]).
  rewrite <-Nat2Z.inj_add, <-length_app.
  set (acc2 := acc ++ folded p c) in *.
  assert (Forall (λ b, b ≠ 0) acc2) as Hnz2 by by apply Forall_app.
  assert (Z.of_nat (length acc2) < n1) as Hlt2 by (unfold acc2; rewrite length_app; lia).
  destruct (Z.leb_spec zTerm z) as [Hend|Hlt].
  { destruct xs as [|x' xs]; [|by apply items_at_cons in Hxs as (_ & _ & _ & _ & ?); lia]. cbn [html_collect].
    left. exists t2, n1, z. split_and!; try done. by left. }
  pose proof (items_at_length _ _ Hxs) as Hlen. pose proof Hxs as (_ & Hat & _).
  apply at_offset_length in Hat. rewrite length_app in Hat.
  pose proof (skip_nonbreaking_items (S (length buf)) xs z Hxs ltac:(lia)) as Hskip. rewrite html_collect_rubies.
  destruct (drop_rubies xs z) as [xs1 z1]. destruct Hskip as (-> & Hxs1 & Hle1 & Hpeek). cbn [mbind option_bind].
  destruct xs1 as [|[c1|w1|w1] xs1]; [| | |done]; cbn [html_collect].
  - left. rewrite Hpeek. cbn [mbind option_bind]. change (0 =? 60) with false. cbn iota.
    destruct Hxs1 as (Hok & Hat1 & Hz1) eqn:E. cbn [text_of fmap list_fmap concat app] in Hat1.
    rewrite (READ_UTF8_byte _ _ _ _ _ Hat1) by lia. cbn [mbind option_bind]. rewrite unicodeIsAlnum_eq by done.
    rewrite token_char_0. cbn [mbind option_bind Z.b2z]. change (negb (0 =? 0) || negb (sqlite3FtsUnicodeIsdiacritic 0 =? 0)) with false.
    cbn iota. exists t2, n1, (z1 + 1). split_and!; try done. right. split; [done|]. cbn [text_of fmap list_fmap concat length] in Hz1. lia.
  - destruct Hpeek as (b & -> & Hb). cbn [mbind option_bind]. destruct (Z.eqb_spec b 60); [done|].
    rewrite (read_char _ _ _ Hxs1). cbn [mbind option_bind]. rewrite unicodeIsAlnum_eq by done. cbn [mbind option_bind].
    destruct (items_at_cons _ _ _ Hxs1) as ([Hc1 _] & Hxs2 & _). cbn [length] in Hle1.
    assert (negb (Z.b2z (token_char p c1) =? 0) = token_char p c1) as -> by (by destruct (token_char p c1)).
    fold (diacritic c1). destruct (token_char p c1 || diacritic c1).
    + specialize (IH xs1 (z1 + item_size (Char c1)) c1 t2 n1 acc2 Hxs2 ltac:(lia) ltac:(destruct Hc1; lia) Hmem2 Htake2 Hnz2).
      destruct (html_collect p xs1 _ _ _) as [[[acc' e'] xs'] q]. destruct IH as [(t' & n' & q' & -> & ? & ? & ? & ? & ? & ? & ?)|IH]; [left|by right].
      exists t', n', q'. split_and!; try done. lia.
    + left. exists t2, n1, (z1 + item_size (Char c1)). split_and!; try done; [lia|by left].
  - left. rewrite Hpeek. cbn [mbind option_bind]. change (60 =? 60) with true. cbn iota.
    exists t2, n1, z1. split_and!; try done. by left.
Qed.
End loop.
End call.
