(* ===== verification/HtmlProps.v ===== *)
(** * fts3_html_tokenizer.c: the tokens of a text

    Calling [unicodeNext] until it is done gives the tokens of the items of a
    text; folding a character twice is folding it once; and the inputs on which
    the code leaves its buffers. *)
From S2P Require Import Prelude Ctype Utf8 Utf8Proofs CharTokenizer CharTokenizerProps Unicode UnicodeProofs HtmlTokenizer HtmlText HtmlMarkup HtmlProofs.
From stdpp Require Import strings sorting.
Local Open Scope Z_scope.

Section run.
Context {sb_stemmer : Type}.
Context (sb_stemmer_new : list Z → option sb_stemmer) (sb_stemmer_stem : sb_stemmer → list Z → option (list Z)).

(** The library returns strings that end in NUL. *)
Definition stems_terminated : Prop := ∀ s x y, sb_stemmer_stem s x = Some y → is_Some (strlen y).

(** What the caller gets for the bytes of a token. *)
Definition stem_of (st : option sb_stemmer) (token : list Z) : list Z :=
  match st with
  | Some s =>
    match sb_stemmer_stem s token with
    | Some x => match strlen x with Some n => take (Z.to_nat n) x | None => [] end
    | None => token
    end
  | None => token
  end.

(** How a run of calls ends: with SQLITE_DONE, with another result code, in a call
    from that cursor that leaves its memory, or because all calls are made. *)
Inductive stop := StopDone | StopCode (rc : Z) | StopMemory (c : @unicode_cursor sb_stemmer) | StopCalls.

(** The tokens of the calls of [unicodeNext] up to the one that ends the run. *)
Fixpoint html_run (calls : nat) (realloc : Z → option (list Z)) (p : unicode_tokenizer) (c : unicode_cursor)
    : list token_out * stop :=
  match calls with
  | O => ([], StopCalls)
  | S calls =>
    match unicodeNext sb_stemmer_stem realloc p c with
    | None => ([], StopMemory c)
    | Some (rc, c, Some o) => let '(out, s) := html_run calls realloc p c in (o :: out, s)
    | Some (rc, c, None) => ([], if rc =? SQLITE_DONE then StopDone else StopCode rc)
    end
  end.

(** The call from [c] reads the text, both its loops come to their ends, and no
    byte of the memory after the token is 0: [strlen(zOut)] leaves that memory. *)
Definition strlen_overruns (realloc : Z → option (list Z)) (p : unicode_tokenizer)
    (c : @unicode_cursor sb_stemmer) : Prop :=
  ∃ z zStart ch s,
    scan_loop (S (Z.to_nat (nInput c))) p (aInput c) (nInput c) (iOff c) (iOff c) 0 = Some (z, zStart, ch) ∧
    zStart < nInput c ∧
    token_loop (S (length (aInput c))) realloc p (aInput c) (nInput c) (zToken c) (nAlloc c) 0 z ch = Some (inr s) ∧
    0 ∉ drop (Z.to_nat (zOut s)) (tk s).

Section items.
Context (p : unicode_tokenizer) (Hp : tokenizer_ok p) (Hgt : 62 ∉ aiException p).
Context (zl : Prop) (realloc : Z → option (list Z)) (Hre : realloc_gives zl realloc) (Hstem : stems_terminated).
Context (buf rest : list Z) (zTerm : Z) (st : option sb_stemmer).

(** The cursor is at the items [xs], at offset [z]; the next token has number
    [num]. *)
Definition cursor_at (c : unicode_cursor) (xs : list item) (z num : Z) : Prop :=
  aInput c = buf ∧ nInput c = zTerm ∧ uToken c = num ∧ stemmer c = st ∧ token_memory zl (zToken c) (nAlloc c) ∧
  items_at buf rest zTerm z xs ∧ (iOff c = z ∨ xs = [] ∧ zTerm ≤ iOff c).

Lemma unicodeNext_items c xs z num :
  cursor_at c xs z num →
  match html_scan p xs z with
  | None => unicodeNext sb_stemmer_stem realloc p c = Some (SQLITE_DONE, c, None)
  | Some (start, ch, xs1, q1) =>
    let '(acc, e, xs2, q2) := html_collect p xs1 q1 q1 (folded p ch) in
    let tok := stem_of st acc in
    ((∃ c', unicodeNext sb_stemmer_stem realloc p c =
        Some (SQLITE_OK, c', Some (mkOut tok (Z.of_nat (length tok)) start e num)) ∧
      (length xs2 < length xs)%nat ∧ cursor_at c' xs2 q2 (num + 1)) ∨
     (∃ c' n, unicodeNext sb_stemmer_stem realloc p c = Some (SQLITE_NOMEM, c', None) ∧ realloc n = None) ∨
     (unicodeNext sb_stemmer_stem realloc p c = None ∧ strlen_overruns realloc p c ∧ ¬ zl))
  end.
Proof.
  intros (Hbuf & Hterm & Hnum & Hst & Hmem & Hxs & Hoff). unfold unicodeNext, strlen_overruns. rewrite Hbuf, Hterm, Hnum, Hst.
  destruct Hoff as [-> | [-> Hoff]].
  2:{ cbn [html_scan scan_loop]. destruct (Z.ltb_spec (iOff c) zTerm); [lia|]. cbn [mbind option_bind].
      by destruct (Z.leb_spec zTerm (iOff c)); [|lia]. }
  pose proof Hxs as (_ & Hat & Hz). pose proof (items_at_length _ _ _ _ _ Hxs) as Hlen.
  pose proof (at_offset_length _ _ _ Hat) as Hblen. rewrite length_app in Hblen. destruct Hat as [Hz0 _].
  pose proof (scan_loop_spec p Hp Hgt buf rest zTerm (S (Z.to_nat zTerm)) z xs 0 Hxs ltac:(lia)) as Hscan.
  destruct (html_scan p xs z) as [[[[start ch] xs1] q1]|].
  - destruct Hscan as (Hscan & Hstart & Hxs1 & _ & [Hch _] & Hl1). rewrite Hscan. cbn [mbind option_bind].
    destruct (Z.leb_spec zTerm start); [lia|].
    pose proof (items_at_length _ _ _ _ _ Hxs1) as Hlen1.
    pose proof (token_loop_spec p Hp buf rest zTerm zl realloc Hre (S (length buf)) xs1 q1 ch (zToken c) (nAlloc c) [] Hxs1
      ltac:(lia) ltac:(lia) Hmem eq_refl (Forall_nil_2 _)) as Hloop. cbn [app] in Hloop.
    change (Z.of_nat (length [])) with 0 in Hloop.
    destruct (html_collect p xs1 q1 q1 (folded p ch)) as [[[acc e] xs2] q2]. cbv zeta.
    destruct Hloop as [(t & n & q & Hloop & Ht & Htake & Hlt & Hnz & Hxs2 & Hl2 & Hq)|(t & n & n' & Hloop & Hnone)]; rewrite Hloop; cbn [mbind option_bind tk zOut zEnd tk_z tk_alloc].
    + pose proof (terminate_token_spec zl t n acc Ht Htake Hlt Hnz) as Hterm'.
      destruct (terminate_token t (Z.of_nat (length acc))) as [t'|]; cbn [mbind option_bind].
      2: { right. right. split; [done|]. split; [|by apply Hterm']. eexists _, _, _, _.
           split; [reflexivity|]. split; [done|]. split; [exact Hloop|]. cbn [zOut tk]. rewrite Nat2Z.id. apply Hterm'. }
      destruct Hterm' as [Ht' Htake']. left.
      rewrite Nat2Z.id, Htake'.
      assert (match st with
        | Some s => match sb_stemmer_stem s acc with
                    | Some x => n ← strlen x; Some (take (Z.to_nat n) x) | None => Some acc end
        | None => Some acc end = Some (stem_of st acc)) as ->.
      { unfold stem_of. destruct st as [s|]; [|done]. destruct (sb_stemmer_stem s acc) as [x|] eqn:E; [|done].
        by destruct (Hstem _ _ _ E) as [k ->]. }
      cbn [mbind option_bind]. eexists. split; [reflexivity|]. split; [lia|]. by split_and!.
    + right. left. eexists _, _. done.
  - destruct Hscan as (c' & ->). cbn [mbind option_bind]. by destruct (Z.leb_spec zTerm zTerm); [|lia].
Qed.

(** A run gives the tokens of the items up to where it ends. *)
Lemma html_run_items calls n c xs z num :
  cursor_at c xs z num → (length xs < calls)%nat → (length xs < n)%nat →
  ∃ k s, html_run calls realloc p c = (take k (html_tokens p n (stem_of st) xs z num), s) ∧
    match s with
    | StopDone => k = length (html_tokens p n (stem_of st) xs z num)
    | StopCode rc => rc = SQLITE_NOMEM ∧ ∃ n, realloc n = None
    | StopMemory c' => strlen_overruns realloc p c' ∧ ¬ zl
    | StopCalls => False
    end.
Proof.
  revert n c xs z num. induction calls as [|calls IH]; intros n c xs z num Hc Hcalls Hn; [lia|].
  destruct n as [|n]; [lia|]. cbn [html_run html_tokens]. pose proof (unicodeNext_items c xs z num Hc) as Hnext.
  destruct (html_scan p xs z) as [[[[start ch] xs1] q1]|].
  - destruct (html_collect p xs1 q1 q1 (folded p ch)) as [[[acc e] xs2] q2].
    destruct Hnext as [(c' & -> & Hl & Hc') | [(c' & n' & -> & Hno) | (-> & Hover & Hzl)]].
    + destruct (IH n c' xs2 q2 (num + 1) Hc') as (k & s & -> & Hs); [lia..|].
      exists (S k), s. split; [done|]. destruct s; try done. cbn [length]. by f_equal.
    + exists 0%nat, (StopCode SQLITE_NOMEM). split; [done|]. split; [done|]. by exists n'.
    + by exists 0%nat, (StopMemory c).
  - rewrite Hnext. by exists 0%nat, StopDone.
Qed.
End items.

Lemma text_nonzero xs : Forall item_ok xs → Forall (λ b, b ≠ 0) (text_of xs).
Proof.
  assert (∀ l, Forall text_byte l → Forall (λ b, b ≠ 0) l) as Htext.
  { intros l H. eapply Forall_impl; [done|]. by intros b []. }
  assert (∀ l, Forall tag_byte l → Forall (λ b, b ≠ 0) l) as Htag.
  { intros l H. eapply Forall_impl; [done|]. by intros b [[] _]. }
  assert (∀ name t, same_case name t → Forall (λ a, tolower a ≠ 0) t → Forall (λ b, b ≠ 0) name) as Hname.
  { intros name t Hs Ht. apply (same_case_Forall _ _ _ Hs). eapply Forall_impl; [exact Ht|].
    simpl. intros a Ha b E ->. by rewrite <-E in Ha. }
  assert (∀ t, t ∈ all_tags ++ ignore_tags.*2 → Forall (λ a, tolower a ≠ 0) t ∧ Forall (λ a, a ≠ 0) t) as Hall.
  { intros t Ht. unfold all_tags in Ht. each_tag; (split; repeat (constructor; [by vm_compute|]); constructor). }
  induction 1 as [|x xs Hx _ IH]; [constructor|]. rewrite text_of_cons. apply Forall_app. split; [|done].
  destruct x as [c|w|w]; cbn [item_ok item_bytes] in *.
  - apply WRITE_UTF8_nonzero. destruct Hx as [[]]. lia.
  - destruct Hx as [name ? ?|body ? ? ?|name o inner c Hin ? ? ?]; (constructor; [done|]).
    + constructor; [done|]. apply Forall_app. split; [by apply Htag|by repeat constructor].
    + apply Forall_app. split; [by apply Htag|by repeat constructor].
    + apply Forall_app. split; [|apply Forall_app; split; [by apply Htext|apply Forall_app; split]].
      * eapply Hname; [done|]. apply Hall. unfold all_tags. rewrite !elem_of_app.
        left. left. apply (list_elem_of_fmap_2 fst _ _ Hin).
      * apply Hall. rewrite elem_of_app. right. apply (list_elem_of_fmap_2 snd _ _ Hin).
      * by repeat constructor.
  - destruct Hx as [slash name attrs Hsl ? ?|name inner tag Hin ? ? ?]; (constructor; [done|]).
    + apply Forall_app. split; [destruct Hsl as [-> | ->]; by repeat constructor|].
      apply Forall_app. split; [eapply Hname; [done|]; apply Hall, elem_of_app; left; unfold all_tags; set_solver|].
      apply Forall_app. split; [by apply Htag|by repeat constructor].
    + apply Forall_app. split; [eapply Hname; [done|]; apply Hall, elem_of_app; left; unfold all_tags; set_solver|].
      apply Forall_app. split; [by apply Htext|]. apply Forall_app.
      split; [apply Hall, elem_of_app; left; unfold all_tags; set_solver|by repeat constructor].
Qed.

(** C11: For a text made of UTF-8 characters, tags, elements whose content is
    ignored and ruby markup, and whatever the memory holds that
    [sqlite3_realloc] returns, the calls of [unicodeNext] give the tokens of the
    text, in order: the runs of token characters and diacritics, folded and
    stemmed, with ruby markup skipped inside a run and other markup ending it,
    each with the offsets of its first and after its last character. The run ends
    with SQLITE_DONE after all of them; it can only end earlier with
    SQLITE_NOMEM, when memory runs out, or in a call that read the text without
    leaving it and its terminating NUL, but has a token in memory that holds no
    zero byte after it, where [strlen] runs past the allocation. It does not end
    early if memory never runs out and its last byte is 0 when it is allocated. *)
Theorem unicodeNext_tokenizes p realloc xs rest n :
  tokenizer_ok p → 62 ∉ aiException p → realloc_64 realloc → stems_terminated →
  Forall item_ok xs → n = Z.of_nat (length (text_of xs)) ∨ n < 0 →
  let st := match locale p with Some l => sb_stemmer_new l | None => None end in
  let tokens := html_tokens p (S (length xs)) (stem_of st) xs 0 0 in
  ∃ c k s, unicodeOpen sb_stemmer_new true p (Some (text_of xs ++ 0 :: rest)) n = Some (SQLITE_OK, c) ∧
    html_run (S (length xs)) realloc p c = (take k tokens, s) ∧
    match s with
    | StopDone => k = length tokens
    | StopCode rc => rc = SQLITE_NOMEM ∧ ∃ n, realloc n = None
    | StopMemory c' => strlen_overruns realloc p c'
    | StopCalls => False
    end ∧
    (realloc_ok realloc → s = StopDone).
Proof.
  intros Hp Hgt Hre Hstem Hxs Hn st tokens. unfold unicodeOpen. cbn [negb].
  assert ((if n <? 0 then strlen (text_of xs ++ 0 :: rest) else Some n) = Some (Z.of_nat (length (text_of xs)))) as ->.
  { destruct (Z.ltb_spec n 0) as [|Hge]; [|destruct Hn as [->|]; [done|lia]].
    rewrite (strlen_app_nonzero _ (0 :: rest) 0) by (by apply text_nonzero || done). f_equal. lia. }
  cbn [mbind option_bind default]. fold st.
  set (c := mkUCursor (text_of xs ++ 0 :: rest) (Z.of_nat (length (text_of xs))) 0 0 [] 0 st). exists c.
  edestruct (html_run_items p Hp Hgt (realloc_ok realloc) realloc (conj Hre (λ H, H)) Hstem (text_of xs ++ 0 :: rest) rest
    (Z.of_nat (length (text_of xs))) st (S (length xs)) (S (length xs)) c xs 0 0) as (k & s & Hrun & Hs).
  - unfold cursor_at, items_at, token_memory, c. cbn [aInput nInput uToken stemmer zToken nAlloc iOff].
    split_and!; try done; try lia; by left.
  - lia.
  - lia.
  - exists k, s. split; [reflexivity|]. split; [exact Hrun|]. split; [by destruct s as [| |? |]; [| |destruct Hs|]|].
    intros Hok. destruct s as [|rc|c'|]; [done| |by destruct Hs|done].
    destruct Hs as [_ [n' Hn']]. destruct (Hok n') as (l & Hl & _). congruence.
Qed.
End run.

(** ** Concrete texts *)

(** Memory as it comes from the system, and a library without stemmers. *)
Definition zeroed (n : Z) : option (list Z) := Some (replicate 64 0).
Definition no_stemmer (l : list Z) : option unit := None.
Definition no_stem (s : unit) (x : list Z) : option (list Z) := None.

Definition plain_tokenizer : unicode_tokenizer := mkTokenizer true [] None.

(** "H<b>i</b> <ruby>A<rt>x</rt></ruby>B" *)
Definition example_items : list item :=
  [Char 72; Markup (60 :: [98] ++ [62]); Char 105; Markup (60 :: 47 :: [98] ++ [62]); Char 32;
   Ruby (60 :: [] ++ bytes "ruby" ++ [] ++ [62]); Char 65;
   Ruby (60 :: bytes "rt" ++ bytes ">x</" ++ bytes "rt" ++ [62]);
   Ruby (60 :: [47] ++ bytes "ruby" ++ [] ++ [62]); Char 66].

Lemma text_bytes_b l : forallb (λ b, (0 <? b) && (b <? 256)) l = true → Forall text_byte l.
Proof.
  rewrite forallb_forall. intros H. apply Forall_forall. intros b Hb%list_elem_of_In%H.
  apply andb_true_iff in Hb as [?%Z.ltb_lt ?%Z.ltb_lt]. unfold text_byte, uint. lia.
Qed.

Lemma example_items_ok : Forall item_ok example_items.
Proof.
  assert (∀ c, 60 < c < 0x80 ∨ c = 32 → item_ok (Char c)) as Hc.
  { intros c Hc. split; [unfold clean|]; lia. }
  assert (∀ b, 62 < b < 0x80 ∨ b = 47 → tag_byte b) as Hb.
  { intros b Hb. unfold tag_byte, text_byte, uint. lia. }
  assert (∀ tag, names tag [98] → ∃ t l, [98] = t ++ l ∧ same_case t tag) as Hn by (intros tag H; exact H).
  assert (∀ a b l, ¬ names (a :: b :: l) [98]) as Hlong.
  { intros a b l (t & l' & E & Hs). destruct t as [|x [|y t]]; done. }
  repeat (apply Forall_cons; split); try (apply Hc; lia); [..|constructor]; cbn [item_ok].
  - apply other_tag; [by repeat constructor; apply Hb; lia|done|].
    intros tag Htag. change (tag ∈ all_tags) in Htag. unfold all_tags in Htag. each_tag; apply Hlong.
  - apply (closing_tag [98]); [by repeat constructor; apply Hb; lia|apply Hlong].
  - apply ruby_tag; [by left|done|constructor].
  - apply (ruby_element (bytes "rt") (bytes ">x</") (bytes "rt")); [set_solver|done|by apply text_bytes_b|].
    intros k Hk. cbn in Hk. destruct k as [|[|[|[|k]]]]; [..|lia]; vm_compute; intros [l ?]; discriminate.
  - apply (ruby_tag [47]); [by right|done|constructor].
Qed.

Lemma unicodeNext_tokenizes_witness :
  ∃ c, unicodeOpen no_stemmer true plain_tokenizer (Some (text_of example_items ++ [0])) (-1) = Some (SQLITE_OK, c) ∧
    html_run no_stem 11 zeroed plain_tokenizer c =
      ([mkOut [104] 1 0 1 0; mkOut [105] 1 4 5 1; mkOut [97; 98] 2 16 35 2], StopDone).
Proof.
  destruct (unicodeNext_tokenizes no_stemmer no_stem plain_tokenizer zeroed example_items [] (-1))
    as (c & k & s & Hopen & Hrun & Hs & Hok).
  - split; [constructor|apply not_elem_of_nil].
  - apply not_elem_of_nil.
  - by intros n l [= <-].
  - intros s x y [=].
  - apply example_items_ok.
  - right. lia.
  - exists c. split; [exact Hopen|]. assert (s = StopDone) as ->.
    { apply Hok. intros n. by exists (replicate 64 0). }
    cbn iota in Hs. subst k. rewrite firstn_all in Hrun. exact Hrun.
Defined.

(** The text "a" and memory that is full of ones: the run ends in the first call. *)
Example strlen_overruns_ex :
  (snd <$> (c ← unicodeOpen no_stemmer true plain_tokenizer (Some [97; 0]) (-1);
            Some (html_run no_stem 2 (λ _, Some (replicate 64 255)) plain_tokenizer (snd c))))
  = Some (StopMemory (mkUCursor [97; 0] 1 0 0 [] 0 None)).
Proof. vm_compute. reflexivity. Qed.

(** ** Folding *)

(** The folding of characters is idempotent: a token of a query, folded once
    more, still matches the token of the text. *)
Theorem sqlite3FtsUnicodeFold_idempotent c b x :
  0 ≤ c → sqlite3FtsUnicodeFold c b = Some x → sqlite3FtsUnicodeFold x b = Some x.
Proof. apply fold_twice_all. Qed.

Lemma sqlite3FtsUnicodeFold_idempotent_witness : sqlite3FtsUnicodeFold 101 true = Some 101.
Proof. apply (sqlite3FtsUnicodeFold_idempotent 0xC9 true 101); [lia|vm_compute; reflexivity]. Defined.

(** ** Where the code leaves its memory *)

(** Three inputs make the tokenizer leave its memory. A ruby tag that does
    not end, inside a token, makes it read past the text and its terminating
    NUL. A token in memory without a zero byte makes [strlen] run past the
    allocation, as the token is not terminated before it is measured. A failure
    to allocate the cursor makes [unicodeOpen] read a field of a null pointer. *)
Theorem unicode_memory_errors :
  (let text := bytes "a<ruby" in
   ∃ c, unicodeOpen no_stemmer true plain_tokenizer (Some (text ++ [0])) (-1) = Some (SQLITE_OK, c) ∧
     unicodeNext no_stem zeroed plain_tokenizer c = None) ∧
  (∃ c, unicodeOpen no_stemmer true plain_tokenizer (Some [97; 0]) (-1) = Some (SQLITE_OK, c) ∧
     unicodeNext no_stem (λ _, Some (replicate 64 255)) plain_tokenizer c = None) ∧
  ∀ input n, unicodeOpen no_stemmer false plain_tokenizer input n = None.
Proof.
  split; [|split; [|done]].
  - eexists. split; [reflexivity|]. vm_compute. reflexivity.
  - eexists. split; [reflexivity|]. vm_compute. reflexivity.
Qed.
