(* ===== verification/Regex.v ===== *)
(** * regex.c: the REGEXP function and its cache

    The model of [regexp] and [sqlite3_regex_init]: a cache of sixteen compiled
    expressions, the most recently used first, and the lock that guards the
    compilation.

    PCRE is a parameter: compiling and studying an expression, and executing
    what they give. C strings are values without NUL; what [strdup],
    [pcre_compile] and [pcre_study] allocate are blocks of a heap, and freeing
    or using a block that is not there is [None]. *)
From S2P Require Import Prelude.
From stdpp Require Import gmap strings.
Local Open Scope Z_scope.

Section regex.
Context {pcre pcre_extra : Type}.

(** [pcre_compile]: the expression, or the error message and its offset;
    [pcre_study]: additional data, or a null pointer; [pcre_exec]: the number
    of matches, or a negative error number. *)
Context (pcre_compile : string → pcre + string * Z) (pcre_study : pcre → option pcre_extra)
        (pcre_exec : pcre → option pcre_extra → string → Z).

(** ** Data *)

Inductive block :=
  | BStr (s : string)
  | BPcre (p : pcre)
  | BExtra (e : pcre_extra).

Abbreviation heap := (gmap positive block).

Record cache_entry := mkEntry {
  s : option positive;
  p : option positive;
  e : option positive
}.

Definition null_entry : cache_entry := mkEntry None None None.

Definition CACHE_SIZE : nat := 16.

(** The cache of a connection, the heap, and the lock, which all connections
    share. *)
Record state := mkState { cache : list cache_entry; memory : heap; mylock : bool }.

Inductive regex_error :=
  | NoRegexp
  | NoString
  | CompileError (re err : string) (pos : Z)
  | StrdupError.

Inductive regex_result :=
  | RError (err : regex_error)
  | RInt (b : bool).

(** A call that returns, or waits for a lock that is held. *)
Inductive outcome :=
  | Returns (r : regex_result) (st : state)
  | Blocks.

(** ** Memory *)

Definition malloc (b : block) (h : heap) : positive * heap :=
  let a := fresh (dom h : gset positive) in (a, <[a := b]> h).

Definition free (a : option positive) (h : heap) : option heap :=
  match a with
  | None => Some h
  | Some a => match h !! a with Some _ => Some (delete a h) | None => None end
  end.

Definition load_str (a : positive) (h : heap) : option string :=
  match h !! a with Some (BStr x) => Some x | _ => None end.
Definition load_pcre (a : positive) (h : heap) : option pcre :=
  match h !! a with Some (BPcre x) => Some x | _ => None end.
Definition load_extra (a : option positive) (h : heap) : option (option pcre_extra) :=
  match a with
  | None => Some None
  | Some a => match h !! a with Some (BExtra x) => Some (Some x) | _ => None end
  end.

(** ** The cache *)

(** [for (i = 0; i < CACHE_SIZE && cache[i].s; i++) if (strcmp(re, cache[i].s) == 0) ...]:
    [found] and [i]. *)
Fixpoint cache_search (re : string) (h : heap) (l : list cache_entry) (i : nat) : option (bool * nat) :=
  match l with
  | [] => Some (false, i)
  | c :: l =>
    match s c with
    | None => Some (false, i)
    | Some a => x ← load_str a h; if bool_decide (re = x) then Some (true, i) else cache_search re h l (S i)
    end
  end.

(** [memmove(cache + 1, cache, i * sizeof(cache_entry)); cache[0] = c]. *)
Definition to_front (c : cache_entry) (i : nat) (l : list cache_entry) : list cache_entry :=
  c :: take i l ++ drop (S i) l.

(** The part of [regexp] for an expression that is not in the cache: inl for a
    return, inr for the new cache and heap. [None] is an error of memory. *)
Definition cache_miss (strdup_ok : bool) (re : string) (st : state) : option (outcome + state) :=
  if mylock st then Some (inl Blocks)
  else
    match pcre_compile re with
    | inr (err, pos) => Some (inl (Returns (RError (CompileError re err pos)) (mkState (cache st) (memory st) true)))
    | inl x =>
      let '(cp, h) := malloc (BPcre x) (memory st) in
      let '(ce, h) := match pcre_study x with
                      | Some y => let '(a, h) := malloc (BExtra y) h in (Some a, h)
                      | None => (None, h)
                      end in
      if negb strdup_ok then
        h ← free (Some cp) h;
        h ← free ce h;
        Some (inl (Returns (RError StrdupError) (mkState (cache st) h true)))
      else
        let '(cs, h) := malloc (BStr re) h in
        let i := (CACHE_SIZE - 1)%nat in
        last ← cache st !! i;
        h ← match s last with
            | Some _ => h ← free (s last) h; h ← free (p last) h; free (e last) h
            | None => Some h
            end;
        Some (inr (mkState (to_front (mkEntry (Some cs) (Some cp) ce) i (cache st)) h false))
    end.

(** [regexp], on the texts of its two arguments. *)
Definition regexp (strdup_ok : bool) (re str : option string) (st : state) : option outcome :=
  match re with
  | None => Some (Returns (RError NoRegexp) st)
  | Some re =>
    match str with
    | None => Some (Returns (RError NoString) st)
    | Some str =>
      '(found, i) ← cache_search re (memory st) (cache st) 0;
      st' ← (if (found : bool) then
               c ← cache st !! i;
               Some (inr (if (0 <? i)%nat then mkState (to_front c i (cache st)) (memory st) (mylock st) else st))
             else cache_miss strdup_ok re st);
      match st' with
      | inl out => Some out
      | inr st =>
        c ← head (cache st);
        a ← p c;
        x ← load_pcre a (memory st);
        y ← load_extra (e c) (memory st);
        Some (Returns (RInt (0 <=? pcre_exec x y str)) st)
      end
    end
  end.

(** [sqlite3_regex_init]: the result and the cache that it registers; the lock
    is made, unlocked, the first time only. *)
Definition sqlite3_regex_init (calloc_ok : bool) : Z * option (list cache_entry) :=
  if calloc_ok then (0, Some (replicate CACHE_SIZE null_entry)) else (1, None).
End regex.
