(* ===== verification/RegexProps.v ===== *)
(** * regex.c: what REGEXP answers, and its lock

    The cache refines a list of at most sixteen expressions, the most recently
    used first; its heap holds their blocks and nothing else. A call answers
    what PCRE answers, whatever the cache holds; but the two error returns
    under the lock leave it held. *)
From S2P Require Import Prelude Regex.
From stdpp Require Import gmap strings.
Local Open Scope Z_scope.

Section props.
Context {pcre pcre_extra : Type}.
Context (pcre_compile : string → pcre + string * Z) (pcre_study : pcre → option pcre_extra)
        (pcre_exec : pcre → option pcre_extra → string → Z).

Abbreviation block := (@Regex.block pcre pcre_extra).
Abbreviation heap := (gmap positive (@Regex.block pcre pcre_extra)).
Abbreviation state := (@Regex.state pcre pcre_extra).
Abbreviation outcome := (@Regex.outcome pcre pcre_extra).
Abbreviation regexp := (Regex.regexp pcre_compile pcre_study pcre_exec).
Abbreviation cache_miss := (Regex.cache_miss pcre_compile pcre_study).

(** ** Ownership of blocks *)

(** The heap consists of the blocks of a list. *)
Definition owns (h : heap) (l : list (positive * block)) : Prop := map_to_list h ≡ₚ l.

#[local] Instance owns_proper h : Proper ((≡ₚ) ==> iff) (owns h).
Proof. intros l l' Hl. unfold owns. by rewrite Hl. Qed.

Lemma owns_lookup h l a b : owns h l → (a, b) ∈ l → h !! a = Some b.
Proof. unfold owns. intros Hh Hin. apply elem_of_map_to_list. by rewrite Hh. Qed.

Lemma owns_free h l a b : owns h ((a, b) :: l) → free (Some a) h = Some (delete a h) ∧ owns (delete a h) l.
Proof.
  intros Hh. assert (h !! a = Some b) as E by (eapply owns_lookup; [done|set_solver]).
  unfold free. rewrite E. split; [done|]. unfold owns in *.
  apply (Permutation_cons_inv (a := (a, b))). rewrite <-Hh. by apply map_to_list_delete.
Qed.

Lemma owns_malloc h l b : owns h l → ∃ a h', malloc b h = (a, h') ∧ owns h' ((a, b) :: l).
Proof.
  intros Hh. eexists _, _. split; [reflexivity|]. unfold owns in *. rewrite map_to_list_insert; [by rewrite Hh|].
  apply not_elem_of_dom. apply is_fresh.
Qed.

(** ** The cache *)

(** An expression in the cache, with its blocks. *)
Record cached := mkCached {
  key : string;
  compiled : pcre;
  at_s : positive;
  at_p : positive;
  extra : option (positive * pcre_extra)
}.

Definition extra_blocks (x : option (positive * pcre_extra)) : list (positive * block) :=
  match x with Some (a, y) => [(a, BExtra y)] | None => [] end.
Definition blocks_of (k : cached) : list (positive * block) :=
  (at_s k, BStr (key k)) :: (at_p k, BPcre (compiled k)) :: extra_blocks (extra k).
Definition entry_of (k : cached) : cache_entry := mkEntry (Some (at_s k)) (Some (at_p k)) (fst <$> extra k).

Definition cached_ok (k : cached) : Prop :=
  pcre_compile (key k) = inl (compiled k) ∧ pcre_study (compiled k) = snd <$> extra k.

Definition cache_of (ks : list cached) : list cache_entry :=
  (entry_of <$> ks) ++ replicate (CACHE_SIZE - length ks) null_entry.

(** The cache holds the expressions [keys], and the lock is held or not. *)
Definition cache_inv (st : state) (keys : list string) (lock : bool) : Prop :=
  ∃ ks, cache st = cache_of ks ∧ (length ks ≤ CACHE_SIZE)%nat ∧ owns (memory st) (ks ≫= blocks_of) ∧
    Forall cached_ok ks ∧ key <$> ks = keys ∧ NoDup keys ∧ mylock st = lock.

(** ** The specification: a list of expressions, and a lock *)

(** The expressions after one is used. *)
Definition lru (re : string) (keys : list string) : list string :=
  take CACHE_SIZE (re :: filter (λ x, x ≠ re) keys).

(** What PCRE answers. *)
Definition answer (re str : string) : regex_result :=
  match pcre_compile re with
  | inl x => RInt (0 <=? pcre_exec x (pcre_study x) str)
  | inr (err, pos) => RError (CompileError re err pos)
  end.

(** A call: what it returns, unless it blocks, the expressions and the lock. *)
Definition lru_step (strdup_ok : bool) (re str : option string) (keys : list string) (lock : bool)
    : option (regex_result * list string * bool) :=
  match re, str with
  | None, _ => Some (RError NoRegexp, keys, lock)
  | _, None => Some (RError NoString, keys, lock)
  | Some re, Some str =>
    if bool_decide (re ∈ keys) then Some (answer re str, lru re keys, lock)
    else if lock then None
    else match pcre_compile re with
         | inr _ => Some (answer re str, keys, true)
         | inl _ => if strdup_ok then Some (answer re str, lru re keys, false) else Some (RError StrdupError, keys, true)
         end
  end.

(** ** The search *)

Lemma cache_search_spec re (h : heap) n ks i :
  Forall (λ k, h !! at_s k = Some (BStr (key k))) ks →
  cache_search re h ((entry_of <$> ks) ++ replicate n null_entry) i =
    Some (match list_find (λ k, key k = re) ks with
          | Some (j, _) => (true, i + j)%nat
          | None => (false, i + length ks)%nat
          end).
Proof.
  intros Hks. revert i. induction Hks as [|k ks Hk _ IH]; intros i.
  - destruct n; cbn [fmap list_fmap app replicate cache_search null_entry s list_find length]; by rewrite Nat.add_0_r.
  - rewrite fmap_cons. cbn [app cache_search entry_of s]. unfold load_str. rewrite Hk.
    cbn [mbind option_bind list_find]. destruct (decide (key k = re)) as [E|E].
    + rewrite bool_decide_true by done. by rewrite Nat.add_0_r.
    + rewrite bool_decide_false by done. rewrite IH. cbn [length].
      destruct (list_find _ ks) as [[j k']|]; cbn [fmap option_fmap option_map prod_map]; do 2 f_equal; simpl; lia.
Qed.

Lemma cached_at_s (h : heap) ks : owns h (ks ≫= blocks_of) → Forall (λ k, h !! at_s k = Some (BStr (key k))) ks.
Proof.
  intros Hh. apply Forall_forall. intros k Hk. eapply owns_lookup; [done|].
  apply list_elem_of_bind. exists k. split; [set_solver|done].
Qed.

Lemma cache_of_lookup ks j k : ks !! j = Some k → cache_of ks !! j = Some (entry_of k).
Proof.
  intros Hj. unfold cache_of. rewrite lookup_app_l; [by rewrite list_lookup_fmap, Hj|].
  rewrite length_fmap. by eapply lookup_lt_Some.
Qed.

Lemma cache_of_front ks1 k ks2 :
  to_front (entry_of k) (length ks1) (cache_of (ks1 ++ k :: ks2)) = cache_of (k :: ks1 ++ ks2).
Proof.
  unfold to_front, cache_of. rewrite !fmap_app, !fmap_cons, <-!app_assoc. cbn [length].
  rewrite take_app_length' by (by rewrite length_fmap).
  replace (S (length ks1)) with (length (entry_of <$> ks1) + 1)%nat by (rewrite length_fmap; lia).
  rewrite drop_app_add. cbn [app drop]. rewrite fmap_app, <-!app_assoc, !length_app. cbn [length].
  by rewrite Nat.add_succ_r.
Qed.

(** Pushing an entry in front of a cache drops the last one. *)
Lemma cache_of_push ks k :
  (length ks ≤ CACHE_SIZE)%nat →
  to_front (entry_of k) (CACHE_SIZE - 1) (cache_of ks) = cache_of (k :: take (CACHE_SIZE - 1) ks).
Proof.
  unfold CACHE_SIZE. cbn [Nat.sub]. intros Hks. unfold to_front, cache_of. cbn [fmap list_fmap app length].
  rewrite drop_ge, app_nil_r by (rewrite length_app, length_fmap, length_replicate; unfold CACHE_SIZE; lia).
  f_equal. rewrite take_app, length_fmap, take_replicate, fmap_take, length_take. do 3 f_equal. unfold CACHE_SIZE. lia.
Qed.

(** Freeing the blocks of an expression. *)
Lemma free_entry (h : heap) k l :
  owns h (blocks_of k ++ l) →
  ∃ h', (h ← free (Some (at_s k)) h; h ← free (Some (at_p k)) h; free (fst <$> extra k) h) = Some h' ∧ owns h' l.
Proof.
  unfold blocks_of. cbn [app]. intros Hh.
  apply owns_free in Hh as [-> Hh]. cbn [mbind option_bind].
  apply owns_free in Hh as [-> Hh]. cbn [mbind option_bind].
  destruct (extra k) as [[a y]|]; cbn [extra_blocks fmap option_fmap option_map fst app] in *.
  - apply owns_free in Hh as [-> Hh]. eauto.
  - eauto.
Qed.

(** Making room for an entry frees the blocks of the last one, if there is one. *)
Lemma evict_last (h : heap) ks l :
  (length ks ≤ CACHE_SIZE)%nat → owns h (l ++ ks ≫= blocks_of) →
  ∃ last h', cache_of ks !! (CACHE_SIZE - 1)%nat = Some last ∧
    match s last with
    | Some _ => h ← free (s last) h; h ← free (p last) h; free (e last) h
    | None => Some h
    end = Some h' ∧
    owns h' (l ++ take (CACHE_SIZE - 1) ks ≫= blocks_of).
Proof.
  unfold CACHE_SIZE. cbn [Nat.sub]. intros Hks Hh. destruct (decide (length ks = 16)%nat) as [E|E].
  - destruct (lookup_lt_is_Some_2 ks 15) as [k Hk]; [lia|].
    exists (entry_of k). rewrite <-(take_drop_middle ks 15 k Hk) in Hh.
    rewrite (drop_ge ks) in Hh by lia. rewrite bind_app in Hh. cbn [mbind list_bind] in Hh. rewrite app_nil_r in Hh.
    rewrite (Permutation_app_comm _ (blocks_of k)), Permutation_app_swap_app in Hh.
    destruct (free_entry h k _ Hh) as (h' & Hf & Hh'). exists h'. split; [by apply cache_of_lookup|].
    split; [exact Hf|done].
  - exists null_entry, h. split; [|split; [done|by rewrite take_ge by lia]].
    unfold cache_of. rewrite lookup_app_r by (rewrite length_fmap; lia). apply lookup_replicate_2.
    rewrite length_fmap. unfold CACHE_SIZE. lia.
Qed.

(** ** The list of expressions *)

Lemma filter_absent (re : string) (l : list string) : re ∉ l → filter (λ x, x ≠ re) l = l.
Proof.
  induction l as [|x l IH]; [done|]. intros Hre. apply not_elem_of_cons in Hre as [Hx Hl].
  rewrite filter_cons_True by (by intros ->). by rewrite IH.
Qed.

Lemma lru_hit re l1 l2 :
  NoDup (l1 ++ re :: l2) → (length (l1 ++ re :: l2) ≤ CACHE_SIZE)%nat → lru re (l1 ++ re :: l2) = re :: l1 ++ l2.
Proof.
  intros Hnd Hlen. apply NoDup_app in Hnd as (_ & H1 & Hnd). apply NoDup_cons in Hnd as [H2 _].
  unfold lru. rewrite filter_app, filter_cons_False by (intros []; done).
  rewrite !filter_absent; [|done|set_solver]. apply take_ge. rewrite length_app in Hlen. cbn [length] in *.
  rewrite length_app. lia.
Qed.

Lemma lru_miss re (l : list string) : re ∉ l → lru re l = re :: take (CACHE_SIZE - 1) l.
Proof.
  intros Hl. unfold lru. by rewrite filter_absent.
Qed.

(** The end of [regexp]: executing the first expression of the cache. *)
Definition exec_front (str : string) (st : state) : option outcome :=
  c ← head (cache st);
  a ← p c;
  x ← load_pcre a (memory st);
  y ← load_extra (e c) (memory st);
  Some (Returns (RInt (0 <=? pcre_exec x y str)) st).

Lemma exec_front_spec str st re keys lock :
  cache_inv st (re :: keys) lock → exec_front str st = Some (Returns (answer re str) st).
Proof.
  intros (ks & Hc & _ & Hh & Hok & Hk & _). destruct ks as [|k ks]; [done|]. injection Hk as Hk _.
  apply Forall_cons in Hok as [[Hcomp Hst] _]. unfold exec_front. rewrite Hc. cbn [cache_of fmap list_fmap app head mbind option_bind].
  cbn [entry_of p mbind option_bind e]. cbn [mbind list_bind] in Hh. unfold load_pcre.
  rewrite (owns_lookup _ _ (at_p k) (BPcre (compiled k)) Hh) by set_solver. cbn [mbind option_bind].
  unfold answer. rewrite <-Hk, Hcomp, Hst. unfold blocks_of in Hh.
  destruct (extra k) as [[a y]|]; cbn [fmap option_fmap option_map fst snd load_extra]; [|done].
  rewrite (owns_lookup _ _ a (BExtra y) Hh) by set_solver. done.
Qed.

(** ** A call *)

(** [st] after a call that finds [re], or that adds it. *)
Lemma cache_hit st ks1 k ks2 keys lock :
  cache_inv st keys lock → cache st = cache_of (ks1 ++ k :: ks2) → keys = key <$> ks1 ++ k :: ks2 →
  Forall cached_ok (ks1 ++ k :: ks2) → owns (memory st) ((ks1 ++ k :: ks2) ≫= blocks_of) →
  (length (ks1 ++ k :: ks2) ≤ CACHE_SIZE)%nat →
  cache_inv (mkState (to_front (entry_of k) (length ks1) (cache st)) (memory st) (mylock st)) (lru (key k) keys) lock.
Proof.
  intros (_ & _ & _ & _ & _ & _ & Hnd & Hl) Hc -> Hok Hh Hlen.
  exists (k :: ks1 ++ ks2). cbn [cache memory mylock]. rewrite Hc, cache_of_front.
  assert (k :: ks1 ++ ks2 ≡ₚ ks1 ++ k :: ks2) as Hp by apply Permutation_middle.
  assert (lru (key k) (key <$> ks1 ++ k :: ks2) = key <$> k :: ks1 ++ ks2) as ->.
  { rewrite fmap_cons, !fmap_app, fmap_cons in *. apply lru_hit; [done|].
    by rewrite <-fmap_cons, <-fmap_app, length_fmap. }
  split_and!; try done.
  - by rewrite Hp.
  - by rewrite Hp.
  - by rewrite Hp.
  - by rewrite Hp.
Qed.

Lemma cache_miss_spec (strdup_ok : bool) re st keys :
  cache_inv st keys false → re ∉ keys →
  match pcre_compile re with
  | inr (err, pos) =>
    cache_miss strdup_ok re st =
      Some (inl (Returns (RError (CompileError re err pos)) (mkState (cache st) (memory st) true)))
  | inl x =>
    if strdup_ok then ∃ st', cache_miss strdup_ok re st = Some (inr st') ∧ cache_inv st' (lru re keys) false
    else ∃ st', cache_miss strdup_ok re st = Some (inl (Returns (RError StrdupError) st')) ∧ cache_inv st' keys true
  end.
Proof.
  intros (ks & Hc & Hlen & Hh & Hok & <- & Hnd & Hl) Hre. unfold Regex.cache_miss. rewrite Hl.
  destruct (pcre_compile re) as [x|[err pos]] eqn:Hx; [|done].
  destruct (owns_malloc _ _ (BPcre x) Hh) as (ap & h1 & -> & H1).
  assert (∃ (ex : option (positive * pcre_extra)) (h2 : heap), match pcre_study x with
    | Some y => let '(a, h) := malloc (BExtra y) h1 in (Some a, h) | None => (None, h1) end = (fst <$> ex, h2) ∧
    pcre_study x = snd <$> ex ∧ owns h2 (extra_blocks ex ++ (ap, BPcre x) :: ks ≫= blocks_of)) as (ex & h2 & -> & Hex & H2).
  { destruct (pcre_study x) as [y|].
    - destruct (owns_malloc _ _ (BExtra y) H1) as (ae & h2 & -> & H2). by exists (Some (ae, y)), h2.
    - by exists None, h1. }
  destruct strdup_ok; cbn [negb].
  - destruct (owns_malloc _ _ (BStr re) H2) as (as' & h3 & -> & H3). cbv zeta.
    pose (k := mkCached re x as' ap ex).
    assert (owns h3 (blocks_of k ++ ks ≫= blocks_of)) as H3'.
    { revert H3. apply owns_proper. unfold blocks_of, k. cbn [at_s at_p key compiled extra app].
      by rewrite Permutation_middle. }
    destruct (evict_last h3 ks _ Hlen H3') as (last & h4 & Hlast & Hfree & H4).
    rewrite Hc, Hlast. cbn [mbind option_bind]. rewrite Hfree. cbn [mbind option_bind].
    eexists. split; [reflexivity|]. exists (k :: take (CACHE_SIZE - 1) ks). cbn [cache memory mylock].
    rewrite lru_miss by done.
    split_and!; try done.
    + exact (cache_of_push ks k Hlen).
    + cbn [length]. rewrite length_take. unfold CACHE_SIZE. lia.
    + constructor; [by split|]. by apply Forall_take.
    + by rewrite fmap_cons, fmap_take.
    + rewrite <-(take_drop (CACHE_SIZE - 1) (key <$> ks)) in Hre, Hnd.
      apply NoDup_app in Hnd as (Hnd & _ & _). constructor; [set_solver|done].
  - rewrite (Permutation_app_comm (extra_blocks ex)) in H2. cbn [app] in H2.
    apply owns_free in H2 as [-> H2]. cbn [mbind option_bind].
    assert (∃ h3, free (fst <$> ex) (delete ap h2) = Some h3 ∧ owns h3 (ks ≫= blocks_of)) as (h3 & -> & H3).
    { rewrite Permutation_app_comm in H2. destruct ex as [[a y]|]; cbn [extra_blocks fmap option_fmap option_map fst app] in *.
      - apply owns_free in H2 as [-> H2]. eauto.
      - eauto. }
    eexists. split; [reflexivity|]. exists ks. by split_and!.
Qed.

(** A call of [regexp] and its specification. *)
Lemma regexp_step strdup_ok re str st keys lock :
  cache_inv st keys lock →
  match lru_step strdup_ok re str keys lock with
  | None => regexp strdup_ok re str st = Some Blocks
  | Some (r, keys', lock') => ∃ st', regexp strdup_ok re str st = Some (Returns r st') ∧ cache_inv st' keys' lock'
  end.
Proof.
  intros Hst. unfold lru_step, Regex.regexp. destruct re as [re|]; [|eauto]. destruct str as [str|]; [|eauto].
  pose proof Hst as (ks & Hc & Hlen & Hh & Hok & Hk & Hnd & Hl).
  pose proof (cache_search_spec re (memory st) (CACHE_SIZE - length ks) ks 0 (cached_at_s _ _ Hh)) as Hsearch.
  fold (cache_of ks) in Hsearch. rewrite <-Hc in Hsearch. rewrite Hsearch. clear Hsearch.
  destruct (list_find (λ k, key k = re) ks) as [[j k]|] eqn:Hfind; cbn [mbind option_bind].
  - apply list_find_Some in Hfind as (Hj & <- & _). rewrite bool_decide_true
      by (subst keys; eapply list_elem_of_fmap_2, list_elem_of_lookup_2; done).
    cbn [Nat.add]. rewrite Hc, (cache_of_lookup _ _ _ Hj). cbn [mbind option_bind].
    pose proof (take_drop_middle ks j k Hj) as Hks.
    assert (length (take j ks) = j) as Htl by (rewrite length_take; apply lookup_lt_Some in Hj; lia).
    pose proof (cache_hit st (take j ks) k (drop (S j) ks) keys lock Hst) as Hhit.
    rewrite Hks, Htl in Hhit. specialize (Hhit Hc (eq_sym Hk) Hok Hh Hlen).
    eexists (mkState (to_front (entry_of k) j (cache st)) (memory st) (mylock st)). split; [|done].
    assert ((if (0 <? j)%nat then mkState (to_front (entry_of k) j (cache_of ks)) (memory st) (mylock st) else st)
      = mkState (to_front (entry_of k) j (cache st)) (memory st) (mylock st)) as ->.
    { destruct (Nat.ltb_spec 0 j); [by rewrite <-Hc|]. assert (j = 0)%nat as -> by lia.
      destruct st as [ca me lo]. cbn [cache memory mylock] in *. f_equal. unfold to_front. rewrite Hc.
      destruct ks as [|k' ks]; [done|]. injection Hj as ->. done. }
    refine (exec_front_spec str _ (key k) _ lock Hhit).
  - apply list_find_None in Hfind.
    assert (re ∉ keys) as Hre.
    { subst keys. rewrite list_elem_of_fmap. intros (k & -> & Hin). by eapply Forall_forall in Hfind. }
    rewrite bool_decide_false by done. destruct lock.
    + unfold Regex.cache_miss. rewrite Hl. done.
    + pose proof (cache_miss_spec strdup_ok re st keys Hst Hre) as Hm.
      destruct (pcre_compile re) as [x|[err pos]] eqn:Hx.
      * destruct strdup_ok.
        -- destruct Hm as (st' & -> & Hst'). cbn [mbind option_bind]. exists st'. split; [|done].
           rewrite lru_miss in Hst' by done. exact (exec_front_spec str st' re _ false Hst').
        -- destruct Hm as (st' & -> & Hst'). eauto.
      * rewrite Hm. unfold answer. rewrite Hx. eexists. split; [done|]. by exists ks.
Qed.

(** ** Sequences of calls *)

(** Whether [strdup] succeeds, the expression and the string. *)
Abbreviation call := (bool * option string * option string)%type.

(** The results of the calls up to one that blocks, and the state after the
    last, if none blocks. *)
Fixpoint regexp_run (calls : list call) (st : state) : option (list regex_result * option state) :=
  match calls with
  | [] => Some ([], Some st)
  | (ok, re, str) :: calls =>
    out ← regexp ok re str st;
    match out with
    | Blocks => Some ([], None)
    | Returns r st => '(rs, st') ← regexp_run calls st; Some (r :: rs, st')
    end
  end.

Fixpoint lru_run (calls : list call) (keys : list string) (lock : bool) : list regex_result * option (list string * bool) :=
  match calls with
  | [] => ([], Some (keys, lock))
  | (ok, re, str) :: calls =>
    match lru_step ok re str keys lock with
    | None => ([], None)
    | Some (r, keys, lock) => let '(rs, end_) := lru_run calls keys lock in (r :: rs, end_)
    end
  end.

Definition ends_in (end_ : option (list string * bool)) (st : option state) : Prop :=
  match end_, st with
  | None, None => True
  | Some (keys, lock), Some st => cache_inv st keys lock
  | _, _ => False
  end.

Lemma regexp_run_step calls st keys lock :
  cache_inv st keys lock →
  ∃ st', regexp_run calls st = Some ((lru_run calls keys lock).1, st') ∧ ends_in (lru_run calls keys lock).2 st'.
Proof.
  revert st keys lock. induction calls as [|[[ok re] str] calls IH]; intros st keys lock Hst; [by exists (Some st)|].
  cbn [regexp_run lru_run]. pose proof (regexp_step ok re str st keys lock Hst) as Hstep.
  destruct (lru_step ok re str keys lock) as [[[r keys'] lock']|].
  - destruct Hstep as (st1 & -> & Hst1). cbn [mbind option_bind].
    destruct (IH st1 keys' lock' Hst1) as (st' & -> & Hend). cbn [mbind option_bind].
    destruct (lru_run calls keys' lock') as [rs end_]. by exists st'.
  - rewrite Hstep. by exists None.
Qed.

(** The state after the first call of [sqlite3_regex_init]. *)
Definition init_state : state := mkState (default [] (sqlite3_regex_init true).2) ∅ false.

Lemma init_inv : cache_inv init_state [] false.
Proof.
  exists []. split_and!; try done; [cbn; lia|by constructor..].
Qed.

(** A cache holds at most three blocks for each of its sixteen entries. *)
Lemma cache_inv_size st keys lock :
  cache_inv st keys lock → (length keys ≤ CACHE_SIZE)%nat ∧ (size (memory st) ≤ 3 * length keys)%nat.
Proof.
  intros (ks & _ & Hlen & Hh & _ & <- & _). rewrite length_fmap. split; [done|].
  rewrite <-length_map_to_list, Hh. clear. induction ks as [|k ks IH]; [done|].
  change (length (blocks_of k ++ ks ≫= blocks_of) ≤ 3 * S (length ks))%nat. rewrite length_app.
  assert (length (blocks_of k) ≤ 3)%nat; [|lia].
  unfold blocks_of. destruct (extra k) as [[??]|]; cbn [extra_blocks length]; lia.
Qed.

(** A call that no error stops. *)
Definition call_ok (c : call) : Prop :=
  let '(ok, re, str) := c in
  ok = true ∧ is_Some str ∧ ∃ re' x, re = Some re' ∧ pcre_compile re' = inl x.

Definition call_answer (c : call) : regex_result :=
  match c with
  | (_, Some re, Some str) => answer re str
  | (_, None, _) => RError NoRegexp
  | _ => RError NoString
  end.

Definition call_keys (keys : list string) (c : call) : list string :=
  match c with (_, Some re, Some _) => lru re keys | _ => keys end.

Lemma lru_step_ok ok re str keys :
  call_ok (ok, re, str) →
  lru_step ok re str keys false = Some (call_answer (ok, re, str), call_keys keys (ok, re, str), false).
Proof.
  intros (-> & [str' ->] & re' & x & -> & Hx). cbn [lru_step call_answer call_keys]. rewrite Hx.
  by case_bool_decide.
Qed.

Lemma lru_run_ok calls keys :
  Forall call_ok calls → lru_run calls keys false = (call_answer <$> calls, Some (foldl call_keys keys calls, false)).
Proof.
  intros Hcalls. revert keys. induction Hcalls as [|[[ok re] str] calls Hc _ IH]; intros keys; [done|].
  cbn [lru_run]. rewrite lru_step_ok by done. rewrite IH. done.
Qed.

(** Once the lock is held, the calls for the expressions of the cache leave it
    held and the cache a permutation of what it was. *)
Lemma lru_run_locked calls keys keys' lock rs :
  NoDup keys → (length keys ≤ CACHE_SIZE)%nat →
  lru_run calls keys true = (rs, Some (keys', lock)) → lock = true ∧ keys' ≡ₚ keys.
Proof.
  revert keys rs. induction calls as [|[[ok re] str] calls IH]; intros keys rs Hnd Hlen Hrun.
  { by simplify_eq/=. }
  cbn [lru_run] in Hrun. destruct (lru_step ok re str keys true) as [[[r keys1] lock1]|] eqn:Hs; [|done].
  assert (lock1 = true ∧ keys1 ≡ₚ keys) as [-> Hp].
  { unfold lru_step in Hs. destruct re as [re|], str as [str|]; try (by simplify_eq).
    case_bool_decide as Hin; [|done]. simplify_eq. split; [done|].
    apply list_elem_of_split in Hin as (l1 & l2 & ->). rewrite lru_hit by done. apply Permutation_middle. }
  destruct (lru_run calls keys1 true) as [rs1 end1] eqn:Hrun1. simplify_eq.
  destruct (IH keys1 rs1) as [-> Hp1]; [by rewrite Hp|by rewrite Hp|done|]. by rewrite Hp1.
Qed.

(** ** Properties *)

(** C31: From the cache that [sqlite3_regex_init] makes, any sequence of calls of
    REGEXP answers what the list of the sixteen expressions used last and the
    lock of the specification answer, without an access to freed memory, and
    blocks where they block; the heap holds the blocks of these expressions and
    nothing else. *)
Theorem regexp_refines calls :
  ∃ st, regexp_run calls init_state = Some ((lru_run calls [] false).1, st) ∧ ends_in (lru_run calls [] false).2 st.
Proof. apply regexp_run_step, init_inv. Qed.

(** The cache does not show: as long as the expressions compile and memory
    lasts, every call of a sequence of calls returns, with the answer of PCRE
    for its own expression and string; the cache then holds the expressions
    used last, at most sixteen, in at most three blocks each, and the lock is
    free. *)
Theorem regexp_cache_transparent calls :
  Forall call_ok calls →
  ∃ st keys, regexp_run calls init_state = Some (call_answer <$> calls, Some st) ∧
    keys = foldl call_keys [] calls ∧ cache_inv st keys false ∧
    (length keys ≤ 16)%nat ∧ (size (memory st) ≤ 3 * length keys)%nat.
Proof.
  intros Hcalls. destruct (regexp_run_step calls _ _ _ init_inv) as (st & Hrun & Hend).
  rewrite lru_run_ok in Hrun, Hend by done. destruct st as [st|]; [|done].
  destruct (cache_inv_size _ _ _ Hend). by exists st, (foldl call_keys [] calls).
Qed.

(** An expression that does not compile, or a failure of [strdup], returns
    its error with the lock held: after any further calls, a call with an
    expression that the cache did not hold then waits for the lock for ever. *)
Theorem regexp_lock_leak st keys ok re str calls re' str' ok' :
  cache_inv st keys false → re ∉ keys → re' ∉ keys → (∀ x, pcre_compile re = inl x → ok = false) →
  ∃ err st1, regexp ok (Some re) (Some str) st = Some (Returns (RError err) st1) ∧ mylock st1 = true ∧
    ∀ rs st2, regexp_run calls st1 = Some (rs, Some st2) → regexp ok' (Some re') (Some str') st2 = Some Blocks.
Proof.
  intros Hst Hre Hre' Hfail. pose proof (cache_inv_size _ _ _ Hst) as [Hlen _].
  assert (NoDup keys) as Hnd by (by destruct Hst as (? & _ & _ & _ & _ & _ & ? & _)).
  assert (∃ err, lru_step ok (Some re) (Some str) keys false = Some (RError err, keys, true)) as [err Hs].
  { unfold lru_step, answer. rewrite bool_decide_false by done.
    destruct (pcre_compile re) as [x|[err pos]]; [rewrite (Hfail x eq_refl); by exists StrdupError|eauto]. }
  pose proof (regexp_step ok (Some re) (Some str) st keys false Hst) as Hstep. rewrite Hs in Hstep.
  destruct Hstep as (st1 & Hcall & Hst1). exists err, st1. split; [done|]. split; [by destruct Hst1 as (? & ?); tauto|].
  intros rs st2 Hrun. destruct (regexp_run_step calls _ _ _ Hst1) as (st2' & Hrun' & Hend). rewrite Hrun in Hrun'.
  destruct (lru_run calls keys true) as [rs' [[keys2 lock2]|]] eqn:Hl; simplify_eq/=; [|done].
  apply lru_run_locked in Hl as [-> Hp]; [|done|done].
  pose proof (regexp_step ok' (Some re') (Some str') st2 keys2 true Hend) as Hstep. cbn [lru_step] in Hstep.
  rewrite bool_decide_false in Hstep by (by rewrite Hp). done.
Qed.
End props.

(** ** A concrete matcher

    The expressions are the strings that they match; an open parenthesis is an
    error. *)

Definition literal_compile (re : string) : string + string * Z :=
  if bool_decide (re = "("%string) then inr ("missing )"%string, 1) else inl re.
Definition literal_study (x : string) : option string := Some x.
Definition literal_exec (x : string) (_ : option string) (str : string) : Z := if bool_decide (x = str) then 1 else -1.

Lemma regexp_cache_transparent_witness :
  ∃ st keys,
    regexp_run literal_compile literal_study literal_exec
      [(true, Some "a", Some "a"); (true, Some "b", Some "a"); (true, Some "a", Some "b")]%string init_state =
      Some ([RInt true; RInt false; RInt false], Some st) ∧
    keys = ["a"; "b"]%string ∧ cache_inv literal_compile literal_study st keys false ∧
    (length keys ≤ 16)%nat ∧ (size (memory st) ≤ 3 * length keys)%nat.
Proof.
  apply (regexp_cache_transparent literal_compile literal_study literal_exec
    [(true, Some "a", Some "a"); (true, Some "b", Some "a"); (true, Some "a", Some "b")]%string).
  repeat (constructor; [split; [done|split; [by eexists|by eexists _, _]]|]). constructor.
Defined.

Lemma regexp_lock_leak_witness :
  ∃ err st1,
    regexp literal_compile literal_study literal_exec true (Some "("%string) (Some "a"%string) init_state =
      Some (Returns (RError err) st1) ∧ mylock st1 = true ∧
    ∀ rs st2, regexp_run literal_compile literal_study literal_exec [] st1 = Some (rs, Some st2) →
      regexp literal_compile literal_study literal_exec true (Some "a"%string) (Some "a"%string) st2 = Some Blocks.
Proof.
  apply (regexp_lock_leak literal_compile literal_study literal_exec init_state [] true "(" "a" [] "a" "a" true).
  - apply init_inv.
  - apply not_elem_of_nil.
  - apply not_elem_of_nil.
  - intros x. vm_compute. discriminate.
Defined.
