(* ===== verification/Bitvec.v ===== *)
(** * Bitvec: sets of page numbers

    The model of [struct Bitvec] and of its operations in sqlite3.c: a set of
    integers between 1 and a given size, kept as a bitmap, as a hash table with
    linear probing, or as an array of smaller sets.

    An object owns the objects it points to, so it is modelled as a tree. The
    union is one of its three members; the code always reads the member that
    [iSize] and [iDivisor] select, and reading another one is [None], as are an
    index that is out of range and a loop that exhausts its fuel. A zeroed
    union is a zeroed bitmap or table, whichever [iSize] selects.

    A union of null pointers is a union of zero bytes, and can be read as an
    empty hash table.

    The list [o] holds the outcomes of the next allocations; when it is empty
    they succeed. *)
From S2P Require Import Prelude Words.
Local Open Scope Z_scope.

Section bitvec.
Context `{Machine}.

(** ** Constants *)

Definition BITVEC_SZ : Z := 512.
Definition BITVEC_USIZE : Z := (BITVEC_SZ - 3 * 4) / Z.of_nat sizeof_ptr * Z.of_nat sizeof_ptr.
Definition BITVEC_SZELEM : Z := 8.
Definition BITVEC_NELEM : Z := BITVEC_USIZE / 1.
Definition BITVEC_NBIT : Z := BITVEC_NELEM * BITVEC_SZELEM.
Definition BITVEC_NINT : Z := BITVEC_USIZE / 4.
Definition BITVEC_MXHASH : Z := BITVEC_NINT / 2.
Definition BITVEC_HASH (X : Z) : Z := (X * 1) `mod` BITVEC_NINT.
Definition BITVEC_NPTR : Z := BITVEC_USIZE / Z.of_nat sizeof_ptr.

(** ** Data *)

Inductive Bitvec := mkBitvec (size set divisor : Z) (un : bitvec_union)
with bitvec_union :=
  | aBitmap (l : list Z)
  | aHash (l : list Z)
  | apSub (l : list (option Bitvec)).

Definition iSize (p : Bitvec) : Z := match p with mkBitvec size _ _ _ => size end.
Definition nSet (p : Bitvec) : Z := match p with mkBitvec _ set _ _ => set end.
Definition iDivisor (p : Bitvec) : Z := match p with mkBitvec _ _ divisor _ => divisor end.
Definition u (p : Bitvec) : bitvec_union := match p with mkBitvec _ _ _ un => un end.

Definition bitmap_of (x : bitvec_union) : option (list Z) := match x with aBitmap l => Some l | _ => None end.
Definition hash_of (x : bitvec_union) : option (list Z) :=
  match x with
  | aHash l => Some l
  | apSub l =>
    if forallb (λ sub : option Bitvec, match sub with None => true | _ => false end) l
    then Some (replicate (Z.to_nat BITVEC_NINT) 0) else None
  | _ => None
  end.
Definition subs_of (x : bitvec_union) : option (list (option Bitvec)) := match x with apSub l => Some l | _ => None end.

(** ** Allocation *)

Definition alloc (o : list bool) : bool * list bool :=
  match o with
  | [] => (true, [])
  | b :: o => (b, o)
  end.

Definition new_bitvec (size : Z) : Bitvec :=
  mkBitvec size 0 0
    (if size <=? BITVEC_NBIT then aBitmap (replicate (Z.to_nat BITVEC_NELEM) 0)
     else aHash (replicate (Z.to_nat BITVEC_NINT) 0)).

Definition sqlite3BitvecCreate (size : Z) (o : list bool) : option Bitvec * list bool :=
  let '(ok, o) := alloc o in (if ok then Some (new_bitvec size) else None, o).

(** ** Test *)

(** [while( aHash[h] ){ if( aHash[h]==i ) return 1; h = (h+1) % BITVEC_NINT; }
    return 0]. *)
Fixpoint test_probe (fuel : nat) (l : list Z) (h i : Z) : option bool :=
  match fuel with
  | O => None
  | S fuel =>
    x ← l !! Z.to_nat h;
    if x =? 0 then Some false
    else if x =? i then Some true
    else test_probe fuel l ((h + 1) `mod` BITVEC_NINT) i
  end.

(** The function after [i--] and the test of the range. *)
Fixpoint bitvec_test_loop (fuel : nat) (p : Bitvec) (i : Z) : option bool :=
  match fuel with
  | O => None
  | S fuel =>
    if negb (iDivisor p =? 0) then
      let bin := i / iDivisor p in
      let i := i `mod` iDivisor p in
      subs ← subs_of (u p);
      sub ← subs !! Z.to_nat bin;
      match sub with
      | None => Some false
      | Some q => bitvec_test_loop fuel q i
      end
    else if iSize p <=? BITVEC_NBIT then
      l ← bitmap_of (u p);
      x ← l !! Z.to_nat (i / BITVEC_SZELEM);
      Some (negb (Z.land x (Z.shiftl 1 (Z.land i (BITVEC_SZELEM - 1))) =? 0))
    else
      l ← hash_of (u p);
      test_probe (Z.to_nat BITVEC_NINT) l (BITVEC_HASH i) (u32 (i + 1))
  end.

(** The depth of the tree for any 32-bit size is below this. *)
Definition bitvec_fuel : nat := 5.

Definition sqlite3BitvecTestNotNull (p : Bitvec) (i : Z) : option bool :=
  let i := u32 (i - 1) in
  if iSize p <=? i then Some false else bitvec_test_loop bitvec_fuel p i.

Definition sqlite3BitvecTest (p : option Bitvec) (i : Z) : option bool :=
  match p with
  | None => Some false
  | Some p => sqlite3BitvecTestNotNull p i
  end.

(** ** Set *)

(** [do{ if( aHash[h]==i ) return SQLITE_OK; h++; if( h>=BITVEC_NINT ) h = 0;
    }while( aHash[h] )]: [None] if the value is found, or the free slot. *)
Fixpoint set_probe (fuel : nat) (l : list Z) (h i : Z) : option (option Z) :=
  match fuel with
  | O => None
  | S fuel =>
    x ← l !! Z.to_nat h;
    if x =? i then Some None
    else
      let h := u32 (h + 1) in
      let h := if BITVEC_NINT <=? h then 0 else h in
      y ← l !! Z.to_nat h;
      if y =? 0 then Some (Some h) else set_probe fuel l h i
  end.

(** [for(j=0; j<BITVEC_NINT; j++) if( aiValues[j] ) rc |= sqlite3BitvecSet(...)]. *)
Fixpoint set_all (set : Bitvec → Z → list bool → option (Z * Bitvec * list bool))
    (aiValues : list Z) (rc : Z) (p : Bitvec) (o : list bool) : option (Z * Bitvec * list bool) :=
  match aiValues with
  | [] => Some (rc, p, o)
  | v :: aiValues =>
    if v =? 0 then set_all set aiValues rc p o
    else '(rc', p, o) ← set p v o; set_all set aiValues (Z.lor rc rc') p o
  end.

(** The function after [i--]: [set fuel p i o]. A step down the tree and the
    recursive calls of the rehashing use the fuel. *)
Fixpoint bitvec_set_loop (fuel : nat) (p : Bitvec) (i : Z) (o : list bool) : option (Z * Bitvec * list bool) :=
  match fuel with
  | O => None
  | S fuel =>
    if (BITVEC_NBIT <? iSize p) && negb (iDivisor p =? 0) then
      let bin := i / iDivisor p in
      let i := i `mod` iDivisor p in
      subs ← subs_of (u p);
      sub ← subs !! Z.to_nat bin;
      let '(sub, o) := match sub with
                       | None => sqlite3BitvecCreate (iDivisor p) o
                       | Some q => (Some q, o)
                       end in
      match sub with
      | None => Some (SQLITE_NOMEM, p, o)
      | Some q =>
        '(rc, q, o) ← bitvec_set_loop fuel q i o;
        Some (rc, mkBitvec (iSize p) (nSet p) (iDivisor p) (apSub (<[Z.to_nat bin := Some q]> subs)), o)
      end
    else if iSize p <=? BITVEC_NBIT then
      l ← bitmap_of (u p);
      x ← l !! Z.to_nat (i / BITVEC_SZELEM);
      let x := u8 (Z.lor x (Z.shiftl 1 (Z.land i (BITVEC_SZELEM - 1)))) in
      Some (SQLITE_OK, mkBitvec (iSize p) (nSet p) (iDivisor p)
                         (aBitmap (<[Z.to_nat (i / BITVEC_SZELEM) := x]> l)), o)
    else
      l ← hash_of (u p);
      let h := BITVEC_HASH i in
      let i := u32 (i + 1) in
      (* bitvec_set_end *)
      let set_end (h : Z) :=
        Some (SQLITE_OK, mkBitvec (iSize p) (u32 (nSet p + 1)) (iDivisor p) (aHash (<[Z.to_nat h := i]> l)), o) in
      (* bitvec_set_rehash *)
      let rehash (h : Z) :=
        if BITVEC_MXHASH <=? nSet p then
          let '(ok, o) := alloc o in
          if negb ok then Some (SQLITE_NOMEM, p, o)
          else
            let p := mkBitvec (iSize p) (nSet p) (u32 (iSize p + BITVEC_NPTR - 1) / BITVEC_NPTR)
                       (apSub (replicate (Z.to_nat BITVEC_NPTR) None)) in
            let set p v o := bitvec_set_loop fuel p (u32 (v - 1)) o in
            '(rc, p, o) ← set p i o;
            set_all set l rc p o
        else set_end h in
      x ← l !! Z.to_nat h;
      if x =? 0 then
        if nSet p <? BITVEC_NINT - 1 then set_end h else rehash h
      else
        r ← set_probe (Z.to_nat BITVEC_NINT) l h i;
        match r with
        | None => Some (SQLITE_OK, p, o)
        | Some h => rehash h
        end
  end.

Definition sqlite3BitvecSet (p : option Bitvec) (i : Z) (o : list bool)
    : option (Z * option Bitvec * list bool) :=
  match p with
  | None => Some (SQLITE_OK, None, o)
  | Some p => '(rc, p, o) ← bitvec_set_loop (2 * bitvec_fuel) p (u32 (i - 1)) o; Some (rc, Some p, o)
  end.

(** ** Clear *)

(** [while( aHash[h] ){ h++; if( h>=BITVEC_NINT ) h = 0; }]. *)
Fixpoint free_slot (fuel : nat) (l : list Z) (h : Z) : option Z :=
  match fuel with
  | O => None
  | S fuel =>
    x ← l !! Z.to_nat h;
    if x =? 0 then Some h
    else
      let h := u32 (h + 1) in
      free_slot fuel l (if BITVEC_NINT <=? h then 0 else h)
  end.

(** The values of the old table but [i] (after [i+1]) put into the new one. *)
Fixpoint clear_rebuild (aiValues : list Z) (i n : Z) (l : list Z) : option (Z * list Z) :=
  match aiValues with
  | [] => Some (n, l)
  | v :: aiValues =>
    if negb (v =? 0) && negb (v =? i) then
      h ← free_slot (Z.to_nat BITVEC_NINT) l (BITVEC_HASH (u32 (v - 1)));
      clear_rebuild aiValues i (u32 (n + 1)) (<[Z.to_nat h := v]> l)
    else clear_rebuild aiValues i n l
  end.

Fixpoint bitvec_clear_loop (fuel : nat) (p : Bitvec) (i : Z) : option Bitvec :=
  match fuel with
  | O => None
  | S fuel =>
    if negb (iDivisor p =? 0) then
      let bin := i / iDivisor p in
      let i := i `mod` iDivisor p in
      subs ← subs_of (u p);
      sub ← subs !! Z.to_nat bin;
      match sub with
      | None => Some p
      | Some q =>
        q ← bitvec_clear_loop fuel q i;
        Some (mkBitvec (iSize p) (nSet p) (iDivisor p) (apSub (<[Z.to_nat bin := Some q]> subs)))
      end
    else if iSize p <=? BITVEC_NBIT then
      l ← bitmap_of (u p);
      x ← l !! Z.to_nat (i / BITVEC_SZELEM);
      let x := u8 (Z.land x (Z.lnot (Z.shiftl 1 (Z.land i (BITVEC_SZELEM - 1))))) in
      Some (mkBitvec (iSize p) (nSet p) (iDivisor p) (aBitmap (<[Z.to_nat (i / BITVEC_SZELEM) := x]> l)))
    else
      l ← hash_of (u p);
      '(n, l) ← clear_rebuild l (u32 (i + 1)) 0 (replicate (Z.to_nat BITVEC_NINT) 0);
      Some (mkBitvec (iSize p) n (iDivisor p) (aHash l))
  end.

Definition sqlite3BitvecClear (p : option Bitvec) (i : Z) : option (option Bitvec) :=
  match p with
  | None => Some None
  | Some p => Some <$> bitvec_clear_loop bitvec_fuel p (u32 (i - 1))
  end.

(** ** Destroy *)

(** The number of objects that [sqlite3BitvecDestroy] frees. *)
Fixpoint sqlite3BitvecDestroy (fuel : nat) (p : option Bitvec) : option nat :=
  match fuel, p with
  | O, _ => None
  | _, None => Some O
  | S fuel, Some p =>
    if negb (iDivisor p =? 0) then
      subs ← subs_of (u p);
      n ← foldr (λ sub n, k ← sqlite3BitvecDestroy fuel sub; (Nat.add k) <$> n) (Some O) subs;
      Some (S n)
    else Some 1%nat
  end.

Definition sqlite3BitvecSize (p : Bitvec) : Z := iSize p.
End bitvec.
