(* ===== verification/BitvecHash.v ===== *)
(** * Bitvec: the hash table

    Linear probing in the table of a [Bitvec]: the invariant of the table, and
    what the three probing loops find. *)
From S2P Require Import Prelude Words Bitvec.
Local Open Scope Z_scope.

(** A pointer has four or eight bytes. *)
Class PtrSize `{Machine} := sizeof_ptr_ok : sizeof_ptr = 4%nat ∨ sizeof_ptr = 8%nat.

Section constants.
Context `{PtrSize}.

Lemma bitvec_consts :
  BITVEC_NELEM = 500 ∧ BITVEC_NBIT = 4000 ∧ BITVEC_NINT = 125 ∧ BITVEC_MXHASH = 62 ∧ BITVEC_NPTR = 125 ∨
  BITVEC_NELEM = 496 ∧ BITVEC_NBIT = 3968 ∧ BITVEC_NINT = 124 ∧ BITVEC_MXHASH = 62 ∧ BITVEC_NPTR = 62.
Proof.
  unfold BITVEC_NBIT, BITVEC_NELEM, BITVEC_MXHASH, BITVEC_NINT, BITVEC_NPTR, BITVEC_USIZE.
  destruct sizeof_ptr_ok as [->| ->]; [left|right]; split_and!; reflexivity.
Qed.

Lemma NINT_range : 100 < BITVEC_NINT < 200.
Proof. destruct bitvec_consts as [(? & ? & ? & ? & ?)|(? & ? & ? & ? & ?)]; lia. Qed.
End constants.

#[global] Opaque BITVEC_NELEM BITVEC_NBIT BITVEC_NINT BITVEC_MXHASH BITVEC_NPTR.

Section hash.
Context `{PtrSize}.
Implicit Types (l : list Z) (h k v x : Z).
Local Abbreviation N := BITVEC_NINT.

(** ** Slots *)

(** The slot [k] steps after [h]. *)
Definition pos (h k : Z) : Z := (h + k) `mod` N.

Definition slot (l : list Z) (h : Z) : Z := nth (Z.to_nat h) l 0.

Definition table (l : list Z) : Prop := Z.of_nat (length l) = N.

Lemma pos_range h k : 0 ≤ pos h k < N.
Proof. apply Z.mod_pos_bound. pose proof NINT_range. lia. Qed.

Lemma pos_0 h : 0 ≤ h < N → pos h 0 = h.
Proof. intros. unfold pos. rewrite Z.add_0_r. by apply Z.mod_small. Qed.

Lemma pos_next h k : (pos h k + 1) `mod` N = pos h (k + 1).
Proof. unfold pos. rewrite Zplus_mod_idemp_l. f_equal. lia. Qed.

Lemma pos_wrap h k : (let h' := u32 (pos h k + 1) in if N <=? h' then 0 else h') = pos h (k + 1).
Proof.
  cbv zeta. pose proof (pos_range h k). pose proof NINT_range.
  unfold u32. rewrite wrap_small by (unfold uint; lia). rewrite <-pos_next.
  destruct (Z.leb_spec N (pos h k + 1)); [|by rewrite Z.mod_small by lia].
  replace (pos h k + 1) with N by lia. by rewrite Z.mod_same by lia.
Qed.

Lemma lookup_slot l h : table l → 0 ≤ h < N → l !! Z.to_nat h = Some (slot l h).
Proof.
  intros Hl Hh. unfold slot. destruct (lookup_lt_is_Some_2 l (Z.to_nat h)) as [x Hx]; [unfold table in Hl; lia|].
  by rewrite Hx, (nth_lookup_Some _ _ _ _ Hx).
Qed.

Lemma slot_insert l h v h' :
  table l → 0 ≤ h < N → 0 ≤ h' < N → slot (<[Z.to_nat h := v]> l) h' = if h' =? h then v else slot l h'.
Proof.
  intros Hl ? ?. unfold slot, table in *. destruct (Z.eqb_spec h' h) as [->|].
  - apply nth_insert_eq. lia.
  - apply nth_insert_ne. lia.
Qed.

(** Every slot is some steps after any other one. *)
Lemma pos_reach h h' : 0 ≤ h < N → 0 ≤ h' < N → ∃ k, 0 ≤ k < N ∧ pos h k = h'.
Proof.
  intros. exists ((h' - h) `mod` N). split; [apply Z.mod_pos_bound; lia|].
  unfold pos. rewrite Zplus_mod_idemp_r. rewrite Z.mod_small by lia. lia.
Qed.

(** ** The number of values *)

Definition count (l : list Z) : Z := Z.of_nat (length (filter (λ v, v ≠ 0) l)).

Lemma count_nonneg l : 0 ≤ count l.
Proof. unfold count. lia. Qed.

Lemma count_replicate n : count (replicate n 0) = 0.
Proof. unfold count. induction n as [|n IH]; [done|]. cbn [replicate]. by rewrite filter_cons_False by (intros []; done). Qed.

Lemma count_cons v l : count (v :: l) = (if v =? 0 then 0 else 1) + count l.
Proof.
  unfold count. destruct (Z.eqb_spec v 0) as [->|].
  - by rewrite filter_cons_False by (intros []; done).
  - rewrite filter_cons_True by done. cbn [length]. lia.
Qed.

Lemma count_length l : count l ≤ Z.of_nat (length l).
Proof. unfold count. pose proof (length_filter (λ v, v ≠ 0) l). lia. Qed.

(** A table that is not full has a free slot. *)
Lemma count_free l : count l < Z.of_nat (length l) → ∃ m : nat, l !! m = Some 0.
Proof.
  induction l as [|v l IH]; [by intros Hc|]. rewrite count_cons. cbn [length].
  destruct (Z.eqb_spec v 0) as [->|]; [by exists 0%nat|]. intros. destruct IH as [m Hm]; [lia|]. by exists (S m).
Qed.

Lemma count_insert l m v : l !! m = Some 0 → v ≠ 0 → count (<[m := v]> l) = count l + 1.
Proof.
  revert m. induction l as [|x l IH]; intros [|m]; cbn [lookup list_lookup]; try done.
  - intros [= ->] Hv. change (<[0%nat := v]> (0 :: l)) with (v :: l). rewrite !count_cons.
    destruct (Z.eqb_spec v 0); [done|]. change (0 =? 0) with true. cbv iota. lia.
  - intros Hm Hv. change (<[S m := v]> (x :: l)) with (x :: <[m := v]> l).
    rewrite !count_cons, IH by done. lia.
Qed.

(** ** The invariant *)

(** The slots before a value, from the one its hash selects, are taken. *)
Definition hash_ok (l : list Z) : Prop :=
  table l ∧
  ∀ h, 0 ≤ h < N → slot l h ≠ 0 →
    ∃ k, 0 ≤ k < N ∧ pos (BITVEC_HASH (slot l h - 1)) k = h ∧
      ∀ k', 0 ≤ k' < k → slot l (pos (BITVEC_HASH (slot l h - 1)) k') ≠ 0.

Lemma HASH_range v : 0 ≤ BITVEC_HASH v < N.
Proof. unfold BITVEC_HASH. apply Z.mod_pos_bound. pose proof NINT_range. lia. Qed.

Lemma elem_slot l v : table l → v ∈ l ↔ ∃ h, 0 ≤ h < N ∧ slot l h = v.
Proof.
  intros Hl. rewrite list_elem_of_lookup. split.
  - intros [m Hm]. apply lookup_lt_Some in Hm as Hlt. exists (Z.of_nat m). unfold table in Hl.
    split; [lia|]. unfold slot. rewrite Nat2Z.id. by apply nth_lookup_Some.
  - intros (h & Hh & <-). exists (Z.to_nat h). by apply lookup_slot.
Qed.

Lemma hash_ok_empty : hash_ok (replicate (Z.to_nat N) 0).
Proof.
  pose proof NINT_range. split; [unfold table; rewrite length_replicate; lia|].
  intros h ? Hs. destruct Hs. unfold slot. apply nth_lookup_Some. apply lookup_replicate_2. lia.
Qed.

(** A value that is not met up to a free slot is not in the table. *)
Lemma not_in_table l v k :
  hash_ok l → v ≠ 0 → 0 ≤ k → slot l (pos (BITVEC_HASH (v - 1)) k) = 0 →
  (∀ k', 0 ≤ k' < k → slot l (pos (BITVEC_HASH (v - 1)) k') ≠ v) → v ∉ l.
Proof.
  intros [Hl Hok] Hv Hk Hfree Hnot (h & Hh & Hs)%elem_slot; [|done].
  destruct (Hok h Hh) as (k1 & Hk1 & Hpos & Hbefore); [by rewrite Hs|]. rewrite Hs in *.
  destruct (decide (k1 < k)) as [Hlt|Hge]; [apply (Hnot k1); [lia|by rewrite Hpos]|].
  destruct (decide (k < k1)) as [Hlt|]; [by apply (Hbefore k); [lia|]|].
  replace k1 with k in * by lia. congruence.
Qed.

(** Writing a value into the first free slot. *)
Lemma hash_ok_insert l v k :
  hash_ok l → v ≠ 0 → 0 ≤ k < N → slot l (pos (BITVEC_HASH (v - 1)) k) = 0 →
  (∀ k', 0 ≤ k' < k → slot l (pos (BITVEC_HASH (v - 1)) k') ≠ 0) →
  hash_ok (<[Z.to_nat (pos (BITVEC_HASH (v - 1)) k) := v]> l).
Proof.
  intros [Hl Hok] Hv Hk Hfree Hbefore. set (f := pos (BITVEC_HASH (v - 1)) k) in *.
  assert (0 ≤ f < N) as Hf by apply pos_range.
  split; [unfold table in *; by rewrite length_insert|].
  intros h Hh. rewrite slot_insert by done. destruct (Z.eqb_spec h f) as [->|Hne].
  - intros _. exists k. split_and!; [lia..|done|]. intros k' Hk'.
    rewrite slot_insert by (done || apply pos_range). case_match; [done|]. by apply Hbefore.
  - intros Hs. destruct (Hok h Hh Hs) as (k1 & ? & ? & Hb). exists k1. split_and!; [lia..|done|].
    intros k' Hk'. rewrite slot_insert by (done || apply pos_range). case_match; [done|]. by apply Hb.
Qed.

Lemma elem_insert l m v x : l !! m = Some 0 → x ≠ 0 → x ∈ <[m := v]> l ↔ x = v ∨ x ∈ l.
Proof.
  intros Hm Hx. rewrite !list_elem_of_lookup. split.
  - intros [n Hn]. apply list_lookup_insert_Some in Hn as [(_ & -> & _)|[_ ?]]; [by left|right; eauto].
  - intros [->|[n Hn]]; [exists m; apply list_lookup_insert_eq; by eapply lookup_lt_Some|].
    exists n. rewrite list_lookup_insert_ne; [done|]. naive_solver.
Qed.

(** ** The probing loops *)

(** A free slot [e] steps away bounds the loops. *)
Lemma test_probe_spec l h v e k fuel :
  table l → v ≠ 0 → 0 ≤ k ≤ e → slot l (pos h e) = 0 → (Z.to_nat (e - k) < fuel)%nat →
  (∀ k', 0 ≤ k' < k → slot l (pos h k') ≠ v) →
  (test_probe fuel l (pos h k) v = Some true ∧ v ∈ l) ∨
  (test_probe fuel l (pos h k) v = Some false ∧
   ∃ k2, 0 ≤ k2 ∧ slot l (pos h k2) = 0 ∧ ∀ k', 0 ≤ k' < k2 → slot l (pos h k') ≠ v).
Proof.
  intros Hl Hv Hk He. revert k Hk. induction fuel as [|fuel IH]; intros k Hk Hf Hnot; [lia|].
  cbn [test_probe]. rewrite lookup_slot by (done || apply pos_range). cbn [mbind option_bind].
  destruct (Z.eqb_spec (slot l (pos h k)) 0) as [E0|E0]; [right; split; [done|]; exists k; split_and!; done || lia|].
  destruct (Z.eqb_spec (slot l (pos h k)) v) as [<-|Hne].
  - left. split; [done|]. apply elem_slot; [done|]. exists (pos h k). split; [apply pos_range|done].
  - rewrite pos_next. destruct (decide (k = e)) as [->|]; [done|]. apply IH; [lia|lia|].
    intros k' Hk'. destruct (decide (k' = k)) as [->|]; [done|]. apply Hnot. lia.
Qed.

Lemma set_probe_spec l h v e k fuel :
  table l → 0 ≤ k ≤ e → e < N → slot l (pos h e) = 0 → (Z.to_nat (e - k) < fuel)%nat →
  (∀ k', 0 ≤ k' ≤ k → slot l (pos h k') ≠ 0) → (∀ k', 0 ≤ k' < k → slot l (pos h k') ≠ v) →
  (set_probe fuel l (pos h k) v = Some None ∧ v ∈ l) ∨
  (∃ k2, set_probe fuel l (pos h k) v = Some (Some (pos h k2)) ∧ 0 ≤ k2 < N ∧ slot l (pos h k2) = 0 ∧
     ∀ k', 0 ≤ k' < k2 → slot l (pos h k') ≠ 0 ∧ slot l (pos h k') ≠ v).
Proof.
  intros Hl Hk HeN He. revert k Hk. induction fuel as [|fuel IH]; intros k Hk Hf Hnz Hnot; [lia|].
  assert (k ≠ e) by (intros ->; by apply (Hnz e)).
  cbn [set_probe]. pose proof (pos_wrap h k) as Hw. cbv zeta in Hw |- *. rewrite Hw.
  rewrite (lookup_slot l (pos h k)) by (done || apply pos_range). cbn [mbind option_bind].
  destruct (Z.eqb_spec (slot l (pos h k)) v) as [Hv|Hne].
  - left. split; [done|]. apply elem_slot; [done|]. exists (pos h k). split; [apply pos_range|done].
  - rewrite lookup_slot by (done || apply pos_range). cbn [mbind option_bind].
    assert (∀ k', 0 ≤ k' < k + 1 → slot l (pos h k') ≠ v) as Hnot'.
    { intros k' Hk'. destruct (decide (k' = k)) as [->|]; [done|]. apply Hnot. lia. }
    destruct (Z.eqb_spec (slot l (pos h (k + 1))) 0) as [E0|E0].
    + right. exists (k + 1). split_and!; [done|lia|lia|done|].
      intros k' Hk'. split; [apply Hnz; lia|auto].
    + apply IH; [lia|lia| |done]. intros k' Hk'. destruct (decide (k' = k + 1)) as [->|]; [done|]. apply Hnz. lia.
Qed.

Lemma free_slot_spec l h e k fuel :
  table l → 0 ≤ k ≤ e → e < N → slot l (pos h e) = 0 → (Z.to_nat (e - k) < fuel)%nat →
  (∀ k', 0 ≤ k' < k → slot l (pos h k') ≠ 0) →
  ∃ k2, free_slot fuel l (pos h k) = Some (pos h k2) ∧ 0 ≤ k2 < N ∧ slot l (pos h k2) = 0 ∧
    ∀ k', 0 ≤ k' < k2 → slot l (pos h k') ≠ 0.
Proof.
  intros Hl Hk HeN He. revert k Hk. induction fuel as [|fuel IH]; intros k Hk Hf Hnz; [lia|].
  cbn [free_slot]. rewrite lookup_slot by (done || apply pos_range). cbn [mbind option_bind].
  destruct (Z.eqb_spec (slot l (pos h k)) 0) as [E0|E0]; [exists k; split_and!; done || lia|].
  pose proof (pos_wrap h k) as Hw. cbv zeta in Hw |- *. rewrite Hw.
  assert (k ≠ e) by congruence. apply IH; [lia|lia|].
  intros k' Hk'. destruct (decide (k' = k)) as [->|]; [done|]. apply Hnz. lia.
Qed.

(** A free slot as seen from any slot. *)
Lemma free_reach l h :
  table l → count l < N → 0 ≤ h < N → ∃ e, 0 ≤ e < N ∧ slot l (pos h e) = 0.
Proof.
  intros Hl Hc Hh. destruct (count_free l) as [m Hm]; [by rewrite Hl|].
  apply lookup_lt_Some in Hm as Hlt. unfold table in Hl.
  destruct (pos_reach h (Z.of_nat m)) as (e & ? & He); [done|lia|].
  exists e. split; [done|]. rewrite He. unfold slot. rewrite Nat2Z.id. by apply nth_lookup_Some.
Qed.

Lemma test_probe_table l v :
  hash_ok l → count l < N → v ≠ 0 →
  test_probe (Z.to_nat N) l (BITVEC_HASH (v - 1)) v = Some (bool_decide (v ∈ l)).
Proof.
  intros Hok Hc Hv. pose proof (HASH_range (v - 1)) as Hh. pose proof (proj1 Hok) as Hl.
  destruct (free_reach l _ Hl Hc Hh) as (e & ? & He).
  rewrite <-(pos_0 (BITVEC_HASH (v - 1)) Hh) at 1.
  destruct (test_probe_spec l (BITVEC_HASH (v - 1)) v e 0 (Z.to_nat N)) as [[-> ?]|[-> (k2 & ? & ? & ?)]];
    [done|done|lia|done|lia|lia|by rewrite bool_decide_eq_true_2|].
  rewrite bool_decide_eq_false_2; [done|]. by eapply not_in_table.
Qed.
End hash.
