(* ===== verification/BitvecProofs.v ===== *)
(** * Bitvec: proofs

    The invariant of a Bitvec and the set it stands for, testing and clearing,
    and setting with its changes of representation. *)
From S2P Require Import Prelude Words Bitvec BitvecHash.
Local Open Scope Z_scope.

Section bitvec.
Context `{PtrSize}.
Implicit Types (p q : Bitvec) (l : list Z) (i j : Z).
Local Abbreviation N := BITVEC_NINT.

(** ** Sizes *)

(** [k] levels of division reduce the size to that of a bitmap. *)
Definition fits (k : nat) (s : Z) : Prop := s ≤ BITVEC_NBIT * BITVEC_NPTR ^ Z.of_nat k.

(** Sizes for which the division that rounds up does not overflow. *)
Definition size_ok (s : Z) : Prop := 0 ≤ s ≤ 2 ^ 32 - BITVEC_NPTR.

Definition divisor_of (s : Z) : Z := u32 (s + BITVEC_NPTR - 1) / BITVEC_NPTR.

Lemma NPTR_range : 60 < BITVEC_NPTR < 130.
Proof. destruct bitvec_consts as [(? & ? & ? & ? & ?)|(? & ? & ? & ? & ?)]; lia. Qed.

Lemma NBIT_range : 3900 < BITVEC_NBIT < 4100 ∧ BITVEC_NBIT = BITVEC_NELEM * 8.
Proof. destruct bitvec_consts as [(? & ? & ? & ? & ?)|(? & ? & ? & ? & ?)]; lia. Qed.

Lemma fits_0 s : fits 0 s → s ≤ BITVEC_NBIT.
Proof. unfold fits. lia. Qed.

Lemma fits_4 s : size_ok s → fits 4 s.
Proof.
  unfold fits, size_ok. destruct bitvec_consts as [(_ & -> & _ & _ & ->)|(_ & -> & _ & _ & ->)];
    change (Z.of_nat 4) with 4; lia.
Qed.

Lemma divisor_ceil s : size_ok s → divisor_of s = (s + BITVEC_NPTR - 1) / BITVEC_NPTR.
Proof.
  unfold size_ok, divisor_of. pose proof NPTR_range. intros. unfold u32.
  by rewrite wrap_small by (unfold uint; lia).
Qed.

Lemma divisor_bounds s :
  size_ok s → BITVEC_NBIT < s →
  0 < divisor_of s ∧ s ≤ divisor_of s * BITVEC_NPTR ∧ size_ok (divisor_of s) ∧
  ∀ k, fits (S k) s → fits k (divisor_of s).
Proof.
  intros Hs Hn. rewrite divisor_ceil by done. pose proof NPTR_range. pose proof NBIT_range.
  set (d := (s + BITVEC_NPTR - 1) / BITVEC_NPTR).
  assert (BITVEC_NPTR * d ≤ s + BITVEC_NPTR - 1) by (apply Z.mul_div_le; lia).
  assert (s + BITVEC_NPTR - 1 < BITVEC_NPTR * (d + 1)).
  { pose proof (Z.mul_succ_div_gt (s + BITVEC_NPTR - 1) BITVEC_NPTR). unfold d. lia. }
  clearbody d. assert (0 < d) by nia. unfold size_ok in *. split_and!; try nia.
  unfold fits. intros k. rewrite Nat2Z.inj_succ, Z.pow_succ_r by lia. intros Hf.
  set (m := BITVEC_NBIT * BITVEC_NPTR ^ Z.of_nat k) in *.
  assert (s ≤ BITVEC_NPTR * m) by (unfold m; lia). clearbody m. nia.
Qed.

(** The position of an element in the array of subsets. *)
Lemma bin_range s i :
  size_ok s → BITVEC_NBIT < s → 0 ≤ i < s →
  0 ≤ i / divisor_of s < BITVEC_NPTR ∧ 0 ≤ i `mod` divisor_of s < divisor_of s.
Proof.
  intros Hs Hn Hi. destruct (divisor_bounds s Hs Hn) as (? & ? & _). split.
  - split; [apply Z.div_pos; lia|]. apply Z.div_lt_upper_bound; lia.
  - apply Z.mod_pos_bound. lia.
Qed.

(** ** The invariant *)

Inductive wf : nat → Bitvec → Prop :=
  | wf_bitmap k s n l :
      0 ≤ s ≤ BITVEC_NBIT → Z.of_nat (length l) = BITVEC_NELEM → bytes_ok l →
      wf k (mkBitvec s n 0 (aBitmap l))
  | wf_hash k s n l :
      BITVEC_NBIT < s → size_ok s → fits k s → hash_ok l → n = count l → n < N →
      Forall (λ v, 0 ≤ v ≤ s) l →
      wf k (mkBitvec s n 0 (aHash l))
  | wf_sub k s n subs :
      BITVEC_NBIT < s → size_ok s → fits (S k) s → Z.of_nat (length subs) = BITVEC_NPTR →
      (∀ b q, subs !! b = Some (Some q) → wf k q) →
      (∀ b q, subs !! b = Some (Some q) → iSize q = divisor_of s) →
      wf (S k) (mkBitvec s n (divisor_of s) (apSub subs)).

Lemma wf_size k p : wf k p → size_ok (iSize p).
Proof.
  pose proof NBIT_range. pose proof NPTR_range.
  destruct 1; cbn [iSize]; [unfold size_ok; lia|done..].
Qed.

Lemma wf_new k s : size_ok s → fits k s → wf k (new_bitvec s).
Proof.
  intros Hs Hf. pose proof NBIT_range as [? ?]. pose proof NINT_range.
  unfold new_bitvec. destruct (Z.leb_spec s BITVEC_NBIT); constructor; try done.
  - unfold size_ok in Hs. lia.
  - rewrite length_replicate. lia.
  - apply Forall_replicate. unfold uint. lia.
  - apply hash_ok_empty.
  - by rewrite count_replicate.
  - lia.
  - apply Forall_replicate. unfold size_ok in Hs. lia.
Qed.

(** ** Membership *)

(** [member p i]: the test finds the element [i], counted from 0. *)
Definition member (p : Bitvec) (i : Z) : Prop := ∃ fuel, bitvec_test_loop fuel p i = Some true.

Lemma bitvec_test_loop_mono fuel fuel' p i b :
  bitvec_test_loop fuel p i = Some b → (fuel ≤ fuel')%nat → bitvec_test_loop fuel' p i = Some b.
Proof.
  revert fuel' p i. induction fuel as [|fuel IH]; intros [|fuel'] p i Ht Hle; [done..|lia|].
  cbn [bitvec_test_loop] in *. destruct (negb _); [|done].
  destruct (subs_of (u p)) as [subs|]; [|done]. cbn [mbind option_bind] in *.
  destruct (subs !! _) as [[q|]|]; [|done..]. cbn [mbind option_bind] in *. apply IH; [done|lia].
Qed.

Lemma bitvec_test_loop_member fuel p i b : bitvec_test_loop fuel p i = Some b → b = true ↔ member p i.
Proof.
  intros Ht. split; [intros ->; by exists fuel|]. intros [fuel' Ht'].
  apply (bitvec_test_loop_mono _ (fuel + fuel')) in Ht, Ht'; [|lia..]. congruence.
Qed.

(** The bit of an element in a bitmap. *)
Definition bit_of (l : list Z) (i : Z) : bool := Z.testbit (nth (Z.to_nat (i / 8)) l 0) (i `mod` 8).

Lemma bit_test x i :
  0 ≤ i → negb (Z.land x (Z.shiftl 1 (Z.land i (BITVEC_SZELEM - 1))) =? 0) = Z.testbit x (i `mod` 8).
Proof.
  intros Hi. change (BITVEC_SZELEM - 1) with (Z.ones 3). rewrite Z.land_ones by lia. change (2 ^ 3) with 8.
  pose proof (Z.mod_pos_bound i 8 ltac:(lia)). set (r := i `mod` 8) in *. clearbody r.
  rewrite Z.shiftl_1_l. destruct (Z.testbit x r) eqn:E.
  - apply negb_true_iff, Z.eqb_neq. intros E0. apply (f_equal (λ y, Z.testbit y r)) in E0.
    rewrite Z.land_spec, Z.pow2_bits_true, E, Z.bits_0 in E0 by lia. done.
  - apply negb_false_iff, Z.eqb_eq. apply Z.bits_inj'. intros n Hn.
    rewrite Z.land_spec, Z.bits_0. destruct (decide (n = r)) as [->|]; [by rewrite E|].
    by rewrite Z.pow2_bits_false, andb_false_r.
Qed.

Section bitmap.
Context (s n : Z) (l : list Z).
Hypotheses (Hs : 0 ≤ s ≤ BITVEC_NBIT) (Hl : Z.of_nat (length l) = BITVEC_NELEM).

Lemma bitmap_index i : 0 ≤ i < s → (Z.to_nat (i / 8) < length l)%nat.
Proof.
  intros Hi. pose proof NBIT_range as [_ ?].
  assert (0 ≤ i / 8 < BITVEC_NELEM) by (split; [apply Z.div_pos|apply Z.div_lt_upper_bound]; lia). lia.
Qed.

Lemma bitmap_lookup i : 0 ≤ i < s → l !! Z.to_nat (i / BITVEC_SZELEM) = Some (nth (Z.to_nat (i / 8)) l 0).
Proof.
  intros Hi. destruct (lookup_lt_is_Some_2 l (Z.to_nat (i / 8)) (bitmap_index i Hi)) as [x Hx].
  change BITVEC_SZELEM with 8. by rewrite Hx, (nth_lookup_Some _ _ _ _ Hx).
Qed.

Lemma test_bitmap fuel i :
  0 ≤ i < s → bitvec_test_loop (S fuel) (mkBitvec s n 0 (aBitmap l)) i = Some (bit_of l i).
Proof.
  intros Hi. cbn [bitvec_test_loop iDivisor iSize u bitmap_of]. change (negb (0 =? 0)) with false. cbv iota.
  destruct (Z.leb_spec s BITVEC_NBIT); [|lia]. cbn [mbind option_bind].
  rewrite bitmap_lookup by done. cbn [mbind option_bind]. f_equal. apply bit_test. lia.
Qed.

Lemma member_bitmap i : 0 ≤ i < s → member (mkBitvec s n 0 (aBitmap l)) i ↔ bit_of l i = true.
Proof. intros Hi. symmetry. apply (bitvec_test_loop_member 1). by apply test_bitmap. Qed.
End bitmap.

Section hashed.
Context (s n : Z) (l : list Z).
Hypotheses (Hb : BITVEC_NBIT < s) (Hs : size_ok s) (Hl : hash_ok l) (Hn : count l < N).

Lemma next_value i : 0 ≤ i < s → u32 (i + 1) = i + 1 ∧ BITVEC_HASH i = BITVEC_HASH (i + 1 - 1).
Proof.
  intros Hi. unfold size_ok in Hs. pose proof NPTR_range. split; [|f_equal; lia].
  unfold u32. apply wrap_small. unfold uint. lia.
Qed.

Lemma test_hash fuel i :
  0 ≤ i < s → bitvec_test_loop (S fuel) (mkBitvec s n 0 (aHash l)) i = Some (bool_decide (i + 1 ∈ l)).
Proof.
  intros Hi. cbn [bitvec_test_loop iDivisor iSize u hash_of]. change (negb (0 =? 0)) with false. cbv iota.
  destruct (Z.leb_spec s BITVEC_NBIT); [lia|]. cbn [mbind option_bind].
  destruct (next_value i Hi) as [-> ->]. apply test_probe_table; [done|done|lia].
Qed.

Lemma member_hash i : 0 ≤ i < s → member (mkBitvec s n 0 (aHash l)) i ↔ i + 1 ∈ l.
Proof.
  intros Hi. rewrite <-(bitvec_test_loop_member 1 _ _ _ (test_hash 0 i Hi)). apply bool_decide_eq_true.
Qed.
End hashed.

Lemma divisor_test s : BITVEC_NBIT < s → size_ok s → (divisor_of s =? 0) = false.
Proof. intros Hb Hs. apply Z.eqb_neq. destruct (divisor_bounds s Hs Hb) as (? & _). lia. Qed.

Section divided.
Context (s n : Z) (subs : list (option Bitvec)).
Hypotheses (Hb : BITVEC_NBIT < s) (Hs : size_ok s) (Hl : Z.of_nat (length subs) = BITVEC_NPTR).

Lemma divided_entry i : 0 ≤ i < s → is_Some (subs !! Z.to_nat (i / divisor_of s)).
Proof. intros Hi. apply lookup_lt_is_Some_2. destruct (bin_range s i Hs Hb Hi) as [? _]. lia. Qed.

Lemma test_sub fuel i sub :
  subs !! Z.to_nat (i / divisor_of s) = Some sub →
  bitvec_test_loop (S fuel) (mkBitvec s n (divisor_of s) (apSub subs)) i =
    match sub with None => Some false | Some q => bitvec_test_loop fuel q (i `mod` divisor_of s) end.
Proof.
  intros Hi. cbn [bitvec_test_loop iDivisor u subs_of]. rewrite divisor_test by done. cbn [negb mbind option_bind].
  rewrite Hi. done.
Qed.

Lemma member_sub i sub :
  subs !! Z.to_nat (i / divisor_of s) = Some sub →
  member (mkBitvec s n (divisor_of s) (apSub subs)) i ↔
  match sub with None => False | Some q => member q (i `mod` divisor_of s) end.
Proof.
  intros Hi. split.
  - intros [[|fuel] Ht]; [done|]. rewrite (test_sub _ _ _ Hi) in Ht. destruct sub; [by exists fuel|done].
  - destruct sub as [q|]; [|done]. intros [fuel Ht]. exists (S fuel). by rewrite (test_sub _ _ _ Hi).
Qed.
End divided.

Lemma wf_test k p i fuel :
  wf k p → 0 ≤ i < iSize p → (k < fuel)%nat → is_Some (bitvec_test_loop fuel p i).
Proof.
  revert p i fuel. induction k as [|k IH]; intros p i [|fuel] Hp Hi Hf; [lia| |lia|].
  - inversion Hp; subst; cbn [iSize] in Hi.
    + rewrite test_bitmap by done. by eexists.
    + rewrite test_hash by (done || lia). by eexists.
  - inversion Hp as [| |? s n subs Hb Hs ? Hl Hsubs Hsizes]; subst; cbn [iSize] in Hi.
    + rewrite test_bitmap by done. by eexists.
    + rewrite test_hash by (done || lia). by eexists.
    + destruct (divided_entry s subs Hb Hs Hl i Hi) as [sub Hsub]. rewrite (test_sub s n subs Hb Hs _ _ _ Hsub).
      destruct sub as [q|]; [|by eexists]. apply IH; [by eapply Hsubs| |lia]. rewrite (Hsizes _ _ Hsub). by destruct (bin_range s i Hs Hb Hi).
Qed.

Lemma member_new s i : size_ok s → 0 ≤ i < s → ¬ member (new_bitvec s) i.
Proof.
  intros Hs Hi. pose proof NBIT_range as [? ?]. pose proof NINT_range.
  unfold new_bitvec. destruct (Z.leb_spec s BITVEC_NBIT).
  - rewrite member_bitmap; [|lia|rewrite length_replicate; lia|done].
    unfold bit_of. rewrite (nth_lookup_Some _ _ 0 0); [by rewrite Z.bits_0|].
    apply lookup_replicate_2. rewrite <-(length_replicate (Z.to_nat BITVEC_NELEM) 0).
    apply (bitmap_index s); [lia|rewrite length_replicate; lia|done].
  - rewrite member_hash; [|lia|done|apply hash_ok_empty|rewrite count_replicate; lia|done].
    intros Hin. apply elem_of_replicate in Hin as [? _]. lia.
Qed.
End bitvec.


Section set.
Context `{PtrSize}.
Implicit Types (p q : Bitvec) (l : list Z) (i j : Z) (o : list bool).
Local Abbreviation N := BITVEC_NINT.

Definition succeeds (o : list bool) : Prop := Forall (λ b, b = true) o.

(** What setting [i] does to the object, and what its result code means. *)
Definition set_post (k : nat) (p : Bitvec) (i : Z) (o : list bool) (r : Z * Bitvec * list bool) : Prop :=
  let '(rc, p', o') := r in
  wf k p' ∧ iSize p' = iSize p ∧ (rc = SQLITE_OK ∨ rc = SQLITE_NOMEM) ∧
  (iDivisor p ≠ 0 → iDivisor p' ≠ 0) ∧
  (∀ j, 0 ≤ j < iSize p → member p' j → j = i ∨ member p j) ∧
  (rc = SQLITE_OK → ∀ j, 0 ≤ j < iSize p → j = i ∨ member p j → member p' j) ∧
  (succeeds o → rc = SQLITE_OK ∧ succeeds o').

Lemma set_post_fail k p i o o' :
  wf k p → ¬ succeeds o → set_post k p i o (SQLITE_NOMEM, p, o').
Proof. intros Hp Ho. split_and!; try done; auto. Qed.

Lemma set_post_same k p i o : wf k p → member p i → set_post k p i o (SQLITE_OK, p, o).
Proof. intros Hp Hi. split_and!; try done; auto. by intros _ j _ [->|]. Qed.

Lemma alloc_succeeds o : succeeds o → ∃ o', alloc o = (true, o') ∧ succeeds o'.
Proof. intros Ho. destruct Ho as [|b o ->]; cbn [alloc]; eexists; split; try done. constructor. Qed.

(** ** Bitmaps *)

Lemma bit_same i j : 0 ≤ i → 0 ≤ j → i / 8 = j / 8 → i `mod` 8 = j `mod` 8 → i = j.
Proof. intros. pose proof (Z.div_mod i 8). pose proof (Z.div_mod j 8). lia. Qed.

(** Changing the bit of [i] of its byte changes no other bit. *)
Lemma bit_of_insert (l : list Z) s x i j b :
  0 ≤ s ≤ BITVEC_NBIT → Z.of_nat (length l) = BITVEC_NELEM → 0 ≤ i < s → 0 ≤ j < s →
  (∀ n, 0 ≤ n < 8 → Z.testbit x n = if n =? i `mod` 8 then b else Z.testbit (nth (Z.to_nat (i / 8)) l 0) n) →
  bit_of (<[Z.to_nat (i / BITVEC_SZELEM) := x]> l) j = if j =? i then b else bit_of l j.
Proof.
  intros Hs Hl Hi Hj Hx. change BITVEC_SZELEM with 8. unfold bit_of.
  pose proof (Z.mod_pos_bound j 8 ltac:(lia)).
  destruct (decide (j / 8 = i / 8)) as [Hd|Hd].
  - rewrite Hd, nth_insert_eq by (by eapply bitmap_index). rewrite Hx by done.
    destruct (Z.eqb_spec (j `mod` 8) (i `mod` 8)), (Z.eqb_spec j i) as [Hji|Hji]; try done; subst; try done.
    destruct Hji. by apply bit_same; lia.
  - rewrite nth_insert_ne.
    + destruct (Z.eqb_spec j i); [by subst|done].
    + pose proof (Z.div_pos i 8). pose proof (Z.div_pos j 8). lia.
Qed.

Lemma set_bit x i n :
  byte_ok x → 0 ≤ i → 0 ≤ n < 8 →
  Z.testbit (u8 (Z.lor x (Z.shiftl 1 (Z.land i (BITVEC_SZELEM - 1))))) n =
    if n =? i `mod` 8 then true else Z.testbit x n.
Proof.
  intros Hx Hi Hn. change (BITVEC_SZELEM - 1) with (Z.ones 3). rewrite Z.land_ones by lia. change (2 ^ 3) with 8.
  pose proof (Z.mod_pos_bound i 8 ltac:(lia)).
  unfold u8, wrap. rewrite Z.mod_pow2_bits_low, Z.lor_spec, Z.shiftl_1_l by lia.
  rewrite Z.pow2_bits_eqb by lia. rewrite (Z.eqb_sym n). case_match; [by rewrite orb_true_r|by rewrite orb_false_r].
Qed.

Lemma clear_bit x i n :
  byte_ok x → 0 ≤ i → 0 ≤ n < 8 →
  Z.testbit (u8 (Z.land x (Z.lnot (Z.shiftl 1 (Z.land i (BITVEC_SZELEM - 1)))))) n =
    if n =? i `mod` 8 then false else Z.testbit x n.
Proof.
  intros Hx Hi Hn. change (BITVEC_SZELEM - 1) with (Z.ones 3). rewrite Z.land_ones by lia. change (2 ^ 3) with 8.
  pose proof (Z.mod_pos_bound i 8 ltac:(lia)).
  unfold u8, wrap. rewrite Z.mod_pow2_bits_low, Z.land_spec, Z.lnot_spec, Z.shiftl_1_l by lia.
  rewrite Z.pow2_bits_eqb by lia. rewrite (Z.eqb_sym n). case_match; [by rewrite andb_false_r|by rewrite andb_true_r].
Qed.

(** The byte of an element. *)
Lemma bitmap_byte s l i :
  0 ≤ s ≤ BITVEC_NBIT → Z.of_nat (length l) = BITVEC_NELEM → bytes_ok l → 0 ≤ i < s →
  byte_ok (nth (Z.to_nat (i / 8)) l 0).
Proof. intros Hs Hl Hok Hi. apply Forall_nth_lt; [done|]. by eapply bitmap_index. Qed.

Lemma wf_bitmap_insert k s n l i x :
  0 ≤ s ≤ BITVEC_NBIT → Z.of_nat (length l) = BITVEC_NELEM → bytes_ok l →
  wf k (mkBitvec s n 0 (aBitmap (<[Z.to_nat (i / BITVEC_SZELEM) := u8 x]> l))).
Proof.
  intros. constructor; [done|by rewrite length_insert|]. apply Forall_insert; [done|]. by apply wrap_uint.
Qed.

Lemma set_bitmap k fuel s n l i o :
  0 ≤ s ≤ BITVEC_NBIT → Z.of_nat (length l) = BITVEC_NELEM → bytes_ok l → 0 ≤ i < s →
  ∃ r, bitvec_set_loop (S fuel) (mkBitvec s n 0 (aBitmap l)) i o = Some r ∧
       set_post k (mkBitvec s n 0 (aBitmap l)) i o r.
Proof.
  intros Hs Hl Hok Hi. cbn [bitvec_set_loop iSize iDivisor nSet u bitmap_of].
  change (negb (0 =? 0)) with false. rewrite andb_false_r.
  destruct (Z.leb_spec s BITVEC_NBIT); [|lia]. cbn [mbind option_bind].
  rewrite (bitmap_lookup s) by done. cbn [mbind option_bind]. eexists. split; [done|].
  pose proof (bitmap_byte s l i Hs Hl Hok Hi) as Hbyte.
  split_and!; cbn [iSize iDivisor]; try done; [by apply wf_bitmap_insert|by left|..].
  all: intros; rewrite ?member_bitmap in * by (rewrite ?length_insert; done).
  all: rewrite (bit_of_insert l s _ i _ true) in * by (done || intros; apply set_bit; done || lia).
  - match goal with H : context [?a =? ?b] |- _ => destruct (Z.eqb_spec a b) end; auto.
  - match goal with |- context [?a =? ?b] => destruct (Z.eqb_spec a b) end; naive_solver.
Qed.

(** ** Hash tables *)

Lemma set_end_post k s l f i o :
  BITVEC_NBIT < s → size_ok s → fits k s → hash_ok l → count l < N - 1 → Forall (λ v, 0 ≤ v ≤ s) l → 0 ≤ i < s →
  0 ≤ f < N → slot l (pos (BITVEC_HASH i) f) = 0 → (∀ f', 0 ≤ f' < f → slot l (pos (BITVEC_HASH i) f') ≠ 0) →
  set_post k (mkBitvec s (count l) 0 (aHash l)) i o
    (SQLITE_OK, mkBitvec s (u32 (count l + 1)) 0 (aHash (<[Z.to_nat (pos (BITVEC_HASH i) f) := i + 1]> l)), o).
Proof.
  intros Hb Hs Hf Hok Hc Hv Hi Hfr Hfree Hbefore. pose proof (count_nonneg l). pose proof NINT_range.
  assert (l !! Z.to_nat (pos (BITVEC_HASH i) f) = Some 0) as Hlook.
  { rewrite lookup_slot by (apply Hok || apply pos_range). by rewrite Hfree. }
  set (l' := <[Z.to_nat (pos (BITVEC_HASH i) f) := i + 1]> l).
  assert (count l' = count l + 1) as Hc' by (apply count_insert; done || lia).
  assert (u32 (count l + 1) = count l') as ->.
  { rewrite Hc'. unfold u32. apply wrap_small. unfold uint. lia. }
  assert (hash_ok l') as Hok'.
  { destruct (next_value s Hs i Hi) as [_ E]. unfold l'. rewrite E in *. apply hash_ok_insert; done || lia. }
  assert (∀ j, 0 ≤ j < s → member (mkBitvec s (count l') 0 (aHash l')) j ↔ j = i ∨ member (mkBitvec s (count l) 0 (aHash l)) j) as Hm.
  { intros j Hj. rewrite !member_hash by (done || lia). unfold l'. rewrite elem_insert by (done || lia).
    assert (j + 1 = i + 1 ↔ j = i) as -> by lia. done. }
  split_and!; cbn [iSize]; try done.
  - constructor; try done; [lia|]. unfold l'. apply Forall_insert; [done|lia].
  - by left.
  - intros j Hj ?. by apply Hm.
  - intros _ j Hj ?. by apply Hm.
Qed.

(** ** The calls of the rehashing *)

Lemma lor_codes rc rc' :
  rc = SQLITE_OK ∨ rc = SQLITE_NOMEM → rc' = SQLITE_OK ∨ rc' = SQLITE_NOMEM →
  (Z.lor rc rc' = SQLITE_OK ∨ Z.lor rc rc' = SQLITE_NOMEM) ∧
  (Z.lor rc rc' = SQLITE_OK ↔ rc = SQLITE_OK ∧ rc' = SQLITE_OK).
Proof. unfold SQLITE_OK, SQLITE_NOMEM. intros [->| ->] [->| ->]; cbn; naive_solver. Qed.

Lemma set_all_spec k s (set : Bitvec → Z → list bool → option (Z * Bitvec * list bool)) vs rc p o :
  (∀ p v o, wf k p → iSize p = s → iDivisor p ≠ 0 → 1 ≤ v ≤ s →
     ∃ r, set p v o = Some r ∧ set_post k p (v - 1) o r) →
  Forall (λ v, 0 ≤ v ≤ s) vs → wf k p → iSize p = s → iDivisor p ≠ 0 → rc = SQLITE_OK ∨ rc = SQLITE_NOMEM →
  ∃ rc' p' o', set_all set vs rc p o = Some (rc', p', o') ∧
    wf k p' ∧ iSize p' = s ∧ iDivisor p' ≠ 0 ∧ (rc' = SQLITE_OK ∨ rc' = SQLITE_NOMEM) ∧
    (∀ j, 0 ≤ j < s → member p' j → j + 1 ∈ vs ∨ member p j) ∧
    (rc' = SQLITE_OK → rc = SQLITE_OK ∧ ∀ j, 0 ≤ j < s → j + 1 ∈ vs ∨ member p j → member p' j) ∧
    (rc = SQLITE_OK → succeeds o → rc' = SQLITE_OK ∧ succeeds o').
Proof.
  intros Hset. revert rc p o. induction vs as [|v vs IH]; intros rc p o Hvs Hp Hs Hd Hrc; cbn [set_all].
  { eexists _, _, _. split; [done|]. split_and!; try done; auto. intros. split; [done|]. intros j _ [?%elem_of_nil|]; done. }
  apply Forall_cons in Hvs as [Hv Hvs]. destruct (Z.eqb_spec v 0) as [->|Hv0].
  - destruct (IH rc p o) as (rc' & p' & o' & -> & ? & ? & ? & ? & Hsub & Hsup & ?); try done.
    eexists _, _, _. split; [done|]. split_and!; try done.
    + intros j Hj Hm. destruct (Hsub j Hj Hm); [left; by right|by right].
    + intros Hok. destruct (Hsup Hok) as [? Hsup']. split; [done|].
      intros j Hj [[?|?]%elem_of_cons|?]; [lia|auto..].
  - destruct (Hset p v o) as ([[rc1 p1] o1] & -> & Hp1 & Hs1 & Hrc1 & Hd1 & Hsub1 & Hsup1 & Ho1); [done..|lia|].
    cbn [mbind option_bind]. rewrite Hs in *. destruct (lor_codes rc rc1 Hrc Hrc1) as [Hlor Hlor0].
    destruct (IH (Z.lor rc rc1) p1 o1) as (rc' & p' & o' & -> & ? & ? & ? & ? & Hsub & Hsup & Ho); auto.
    eexists _, _, _. split; [done|]. split_and!; try done.
    + intros j Hj Hm. destruct (Hsub j Hj Hm) as [?|Hm1]; [left; by right|].
      destruct (Hsub1 j Hj Hm1) as [->|?]; [left; apply elem_of_cons; left; lia|by right].
    + intros Hok. destruct (Hsup Hok) as [[? Hok1]%Hlor0 Hsup']. split; [done|].
      intros j Hj [[?|?]%elem_of_cons|?]; apply Hsup'; auto; right; apply Hsup1; auto. left. lia.
    + intros Hok Hsucc. destruct (Ho1 Hsucc). apply Ho; [|done]. by apply Hlor0.
Qed.
(** ** Arrays of subsets *)

Definition set_total (k : nat) : Prop := ∀ fuel q i o,
  wf k q → 0 ≤ i < iSize q → (2 * k + 2 ≤ fuel)%nat →
  ∃ r, bitvec_set_loop fuel q i o = Some r ∧ set_post k q i o r.

(** The elements in one subset. *)
Lemma same_bin s i j :
  size_ok s → BITVEC_NBIT < s → 0 ≤ i < s → 0 ≤ j < s →
  Z.to_nat (j / divisor_of s) = Z.to_nat (i / divisor_of s) →
  j `mod` divisor_of s = i `mod` divisor_of s ↔ j = i.
Proof.
  intros Hs Hb Hi Hj Hbin. destruct (divisor_bounds s Hs Hb) as (? & _).
  destruct (bin_range s i Hs Hb Hi) as [? _]. destruct (bin_range s j Hs Hb Hj) as [? _].
  split; [|by intros ->]. intros Hm.
  rewrite (Z.div_mod i (divisor_of s)), (Z.div_mod j (divisor_of s)) by lia.
  rewrite Hm. do 2 f_equal. lia.
Qed.

(** Replacing a subset. *)
Lemma wf_sub_insert k s n subs b q :
  wf (S k) (mkBitvec s n (divisor_of s) (apSub subs)) → wf k q → iSize q = divisor_of s →
  wf (S k) (mkBitvec s n (divisor_of s) (apSub (<[b := Some q]> subs))).
Proof.
  intros Hwf Hq Hqs. inversion Hwf as [| |? ? ? ? ? ? ? ? Hsubs Hsizes]; subst.
  constructor; try done; [by rewrite length_insert|..].
  all: intros b' q' [(_ & [= ->] & _)|[_ ?]]%list_lookup_insert_Some; [done|by eauto].
Qed.

Lemma member_sub_insert s n subs i q j :
  size_ok s → BITVEC_NBIT < s → Z.of_nat (length subs) = BITVEC_NPTR → 0 ≤ i < s → 0 ≤ j < s →
  member (mkBitvec s n (divisor_of s) (apSub (<[Z.to_nat (i / divisor_of s) := Some q]> subs))) j ↔
  if decide (Z.to_nat (j / divisor_of s) = Z.to_nat (i / divisor_of s))
  then member q (j `mod` divisor_of s)
  else member (mkBitvec s n (divisor_of s) (apSub subs)) j.
Proof.
  intros Hs Hb Hl Hi Hj. destruct (bin_range s i Hs Hb Hi) as [? _].
  case_decide as Hbin.
  - apply (member_sub s n _ Hb Hs j (Some q)). rewrite Hbin. apply list_lookup_insert_eq. lia.
  - destruct (divided_entry s subs Hb Hs Hl j Hj) as [sub Hsub].
    rewrite (member_sub s n subs Hb Hs j sub Hsub). apply member_sub; [done..|].
    by rewrite list_lookup_insert_ne.
Qed.

Lemma set_sub k fuel s n subs i o :
  set_total k → wf (S k) (mkBitvec s n (divisor_of s) (apSub subs)) → 0 ≤ i < s → (2 * k + 3 ≤ fuel)%nat →
  ∃ r, bitvec_set_loop fuel (mkBitvec s n (divisor_of s) (apSub subs)) i o = Some r ∧
       set_post (S k) (mkBitvec s n (divisor_of s) (apSub subs)) i o r.
Proof.
  intros IH Hwf Hi Hf. inversion Hwf as [| |? ? ? ? Hb Hs Hfits Hl Hsubs Hsizes]; subst.
  destruct fuel as [|fuel]; [lia|]. cbn [bitvec_set_loop iSize iDivisor nSet u subs_of].
  rewrite (divisor_test s Hb Hs). destruct (Z.ltb_spec BITVEC_NBIT s); [|lia].
  cbn [negb andb mbind option_bind]. destruct (divided_entry s subs Hb Hs Hl i Hi) as [sub Hsub].
  rewrite Hsub. cbn [mbind option_bind].
  destruct (divisor_bounds s Hs Hb) as (Hd & _ & Hds & Hdf). destruct (bin_range s i Hs Hb Hi) as [_ Him].
  (* the subset, created if it was missing *)
  assert (∀ q o1, wf k q → iSize q = divisor_of s → (succeeds o → succeeds o1) →
    (∀ j, 0 ≤ j < s → Z.to_nat (j / divisor_of s) = Z.to_nat (i / divisor_of s) →
       member q (j `mod` divisor_of s) ↔ member (mkBitvec s n (divisor_of s) (apSub subs)) j) →
    ∃ r, ('(rc, q, o) ← bitvec_set_loop fuel q (i `mod` divisor_of s) o1;
          Some (rc, mkBitvec s n (divisor_of s) (apSub (<[Z.to_nat (i / divisor_of s) := Some q]> subs)), o)) = Some r ∧
      set_post (S k) (mkBitvec s n (divisor_of s) (apSub subs)) i o r) as Hset.
  { intros q o1 Hq Hqs Ho1 Hmem.
    destruct (IH fuel q (i `mod` divisor_of s) o1) as ([[rc q'] o'] & -> & Hq' & Hqs' & Hrc & _ & Hsub' & Hsup' & Ho');
      [done|lia|lia|]. cbn [mbind option_bind]. eexists. split; [done|]. rewrite Hqs in *.
    assert (∀ j, 0 ≤ j < s → 0 ≤ j `mod` divisor_of s < divisor_of s) as Hmod
      by (intros j Hj; by destruct (bin_range s j Hs Hb Hj)).
    split_and!; cbn [iSize iDivisor]; try done.
    - apply wf_sub_insert; [done..|congruence].
    - intros j Hj. rewrite member_sub_insert by done. case_decide as Hbin; [|by right].
      intros [?|?]%Hsub'; [left; by apply (same_bin s)|right; by apply Hmem|by apply Hmod].
    - intros Hok j Hj Hm. rewrite member_sub_insert by done. case_decide as Hbin.
      + apply Hsup'; [done|by apply Hmod|]. destruct Hm as [->|Hm]; [by left|right; by apply Hmem].
      + by destruct Hm as [->|Hm].
    - auto. }
  destruct sub as [q|].
  - apply Hset; [by eauto..|done|]. intros j Hj Hbin. symmetry.
    apply (member_sub s n subs Hb Hs j (Some q)). by rewrite Hbin.
  - unfold sqlite3BitvecCreate. destruct (alloc o) as [ok o1] eqn:Ea. destruct ok.
    + apply Hset; [by apply wf_new; auto|done|..].
      * intros (o2 & E & ?)%alloc_succeeds. congruence.
      * intros j Hj Hbin. rewrite (member_sub s n subs Hb Hs j None) by (by rewrite Hbin).
        split; [|done]. apply member_new; [done|]. by destruct (bin_range s j Hs Hb Hj).
    + eexists. split; [done|]. apply set_post_fail; [done|].
      intros (o2 & E & ?)%alloc_succeeds. congruence.
Qed.

(** ** The whole *)

Lemma rehash_post k fuel s l i o :
  set_total k → BITVEC_NBIT < s → size_ok s → fits (S k) s → hash_ok l → count l < N →
  Forall (λ v, 0 ≤ v ≤ s) l → 0 ≤ i < s → (2 * k + 3 ≤ fuel)%nat →
  ∃ r,
    (let '(ok, o) := alloc o in
     if negb ok then Some (SQLITE_NOMEM, mkBitvec s (count l) 0 (aHash l), o)
     else
       let p := mkBitvec s (count l) (u32 (s + BITVEC_NPTR - 1) / BITVEC_NPTR)
                  (apSub (replicate (Z.to_nat BITVEC_NPTR) None)) in
       let set p v o := bitvec_set_loop fuel p (u32 (v - 1)) o in
       '(rc, p, o) ← set p (i + 1) o;
       set_all set l rc p o) = Some r ∧
    set_post (S k) (mkBitvec s (count l) 0 (aHash l)) i o r.
Proof.
  intros IH Hb Hs Hf Hok Hc Hv Hi Hfuel. pose proof NPTR_range.
  assert (wf (S k) (mkBitvec s (count l) 0 (aHash l))) as Hwf by (by constructor).
  destruct (alloc o) as [ok o1] eqn:Ea. destruct ok; cbn [negb]; cycle 1.
  { eexists. split; [done|]. apply set_post_fail; [done|]. intros (o2 & E & ?)%alloc_succeeds. congruence. }
  cbv zeta. fold (divisor_of s).
  set (p0 := mkBitvec s (count l) (divisor_of s) (apSub (replicate (Z.to_nat BITVEC_NPTR) None))).
  destruct (divisor_bounds s Hs Hb) as (Hd & _).
  assert (wf (S k) p0) as Hp0.
  { constructor; try done; [rewrite length_replicate; lia|..]; by intros b q [? _]%lookup_replicate. }
  assert (∀ p v o, wf (S k) p → iSize p = s → iDivisor p ≠ 0 → 1 ≤ v ≤ s →
    ∃ r, bitvec_set_loop fuel p (u32 (v - 1)) o = Some r ∧ set_post (S k) p (v - 1) o r) as Hset.
  { intros p v o0 Hp Hps Hpd Hvr. assert (u32 (v - 1) = v - 1) as ->.
    { unfold u32. apply wrap_small. unfold uint, size_ok in *. lia. }
    inversion Hp; subst; cbn [iSize iDivisor] in *; [done..|]. subst. apply set_sub; done || lia. }
  assert (∀ j, 0 ≤ j < s → ¬ member p0 j) as Hempty.
  { intros j Hj. unfold p0. destruct (bin_range s j Hs Hb Hj) as [? _].
    rewrite (member_sub s _ _ Hb Hs j None); [tauto|]. apply lookup_replicate_2. lia. }
  destruct (Hset p0 (i + 1) o1) as ([[rc p1] o2] & -> & Hp1 & Hs1 & Hrc1 & Hd1 & Hsub1 & Hsup1 & Ho1);
    [done|done|cbn [iDivisor p0]; lia|lia|]. cbn [mbind option_bind].
  replace (i + 1 - 1) with i in * by lia.
  assert (iDivisor p1 ≠ 0) by (apply Hd1; cbn [iDivisor p0]; lia).
  destruct (set_all_spec (S k) s (λ p v o, bitvec_set_loop fuel p (u32 (v - 1)) o) l rc p1 o2)
    as (rc' & p' & o' & -> & ? & Hs' & ? & ? & Hsub & Hsup & Ho); try done.
  eexists. split; [done|]. split_and!; cbn [iSize iDivisor]; try done.
  - intros j Hj Hm. rewrite member_hash by done. destruct (Hsub j Hj Hm) as [?|Hm1]; [by right|left].
    destruct (Hsub1 j Hj Hm1) as [|[]%Hempty]; done.
  - intros Hrc' j Hj Hm. rewrite member_hash in Hm by done. destruct (Hsup Hrc') as [-> Hsup']. apply Hsup'; [done|].
    destruct Hm as [->|?]; [|by left]. right. apply Hsup1; [done|done|by left].
  - intros (o3 & E & Ho3)%alloc_succeeds. rewrite Ea in E. injection E as ->.
    destruct (Ho1 Ho3) as [-> ?]. by apply Ho.
Qed.

Lemma set_hash k fuel s l i o :
  set_total k → wf (S k) (mkBitvec s (count l) 0 (aHash l)) → 0 ≤ i < s → (2 * k + 4 ≤ fuel)%nat →
  ∃ r, bitvec_set_loop fuel (mkBitvec s (count l) 0 (aHash l)) i o = Some r ∧
       set_post (S k) (mkBitvec s (count l) 0 (aHash l)) i o r.
Proof.
  intros IH Hwf Hi Hf. inversion Hwf as [|? ? ? ? Hb Hs Hfits Hok _ Hc Hv|]; subst.
  destruct fuel as [|fuel]; [lia|]. cbn [bitvec_set_loop iSize iDivisor nSet u hash_of].
  change (negb (0 =? 0)) with false. rewrite andb_false_r. destruct (Z.leb_spec s BITVEC_NBIT); [lia|].
  cbn [mbind option_bind]. destruct (next_value s Hs i Hi) as [-> EH].
  pose proof (HASH_range i) as Hh. pose proof (proj1 Hok) as Hl. pose proof NINT_range.
  assert (BITVEC_MXHASH < N) by (destruct bitvec_consts as [(? & ? & -> & -> & ?)|(? & ? & -> & -> & ?)]; lia).
  rewrite lookup_slot by done. cbn [mbind option_bind].
  assert (2 * k + 3 ≤ fuel)%nat as Hf' by lia.
  pose proof (rehash_post k fuel s l i o IH Hb Hs Hfits Hok Hc Hv Hi Hf') as Hre.
  destruct (Z.eqb_spec (slot l (BITVEC_HASH i)) 0) as [E0|E0].
  - destruct (Z.ltb_spec (count l) (N - 1)).
    + eexists. split; [done|].
      pose proof (set_end_post (S k) s l 0 i o) as Hend. rewrite pos_0 in Hend by done.
      apply Hend; try done; [lia|intros; lia].
    + destruct (Z.leb_spec BITVEC_MXHASH (count l)); [exact Hre|lia].
  - destruct (free_reach l (BITVEC_HASH i) Hl Hc Hh) as (e & He & Hfree).
    pose proof (set_probe_spec l (BITVEC_HASH i) (i + 1) e 0 (Z.to_nat N)) as Hprobe.
    rewrite pos_0 in Hprobe by done.
    destruct Hprobe as [[-> Hin]|(f & -> & Hfr & Hf0 & Hbefore)]; try done; try lia.
    + intros k' Hk'. replace k' with 0 by lia. by rewrite pos_0.
    + cbn [mbind option_bind]. eexists. split; [done|]. apply set_post_same; [done|].
      by apply member_hash.
    + cbn [mbind option_bind]. destruct (Z.leb_spec BITVEC_MXHASH (count l)); [exact Hre|].
      eexists. split; [done|]. apply set_end_post; try done; [lia|]. intros f' Hf''. by apply Hbefore.
Qed.

Lemma bitvec_set_loop_spec k : set_total k.
Proof.
  induction k as [|k IH]; intros fuel p i o Hp Hi Hf.
  - inversion Hp; subst; cbn [iSize] in Hi.
    + destruct fuel as [|fuel]; [lia|]. by apply set_bitmap.
    + match goal with H : fits 0 _ |- _ => apply fits_0 in H end. lia.
  - inversion Hp; subst; cbn [iSize] in Hi.
    + destruct fuel as [|fuel]; [lia|]. by apply set_bitmap.
    + apply set_hash; done || lia.
    + apply set_sub; done || lia.
Qed.
End set.

Section clear.
Context `{PtrSize}.
Implicit Types (p q : Bitvec) (l : list Z) (i j : Z).
Local Abbreviation N := BITVEC_NINT.

(** ** Clearing *)

Definition clear_post (k : nat) (p : Bitvec) (i : Z) (p' : Bitvec) : Prop :=
  wf k p' ∧ iSize p' = iSize p ∧ ∀ j, 0 ≤ j < iSize p → member p' j ↔ member p j ∧ j ≠ i.

Lemma clear_rebuild_spec s vs v0 l :
  size_ok s → Forall (λ v, 0 ≤ v ≤ s) vs → hash_ok l → Forall (λ v, 0 ≤ v ≤ s) l → count l + count vs < N →
  ∃ l', clear_rebuild vs v0 (count l) l = Some (count l', l') ∧ hash_ok l' ∧
    Forall (λ v, 0 ≤ v ≤ s) l' ∧ count l' ≤ count l + count vs ∧
    ∀ x, x ≠ 0 → x ∈ l' ↔ x ∈ l ∨ x ∈ vs ∧ x ≠ v0.
Proof.
  intros Hs. revert l. induction vs as [|v vs IH]; intros l Hvs Hok Hv Hc; cbn [clear_rebuild].
  { exists l. rewrite Z.add_0_r. split_and!; try done. intros x _. split; [by left|]. by intros [?|[[]%elem_of_nil _]]. }
  apply Forall_cons in Hvs as [Hvr Hvs]. rewrite count_cons in Hc.
  pose proof (count_nonneg vs). pose proof (count_nonneg l). pose proof NINT_range. pose proof NPTR_range.
  destruct (Z.eqb_spec v 0) as [->|Hv0]; cbn [negb andb].
  - destruct (IH l) as (l' & -> & ? & ? & ? & Hmem); try done. exists l'. rewrite count_cons.
    split_and!; try done; try lia. intros x Hx. rewrite Hmem by done. set_solver.
  - destruct (Z.eqb_spec v v0) as [->|Hne]; cbn [negb].
    + destruct (IH l) as (l' & -> & ? & ? & ? & Hmem); try done; [lia|]. exists l'. rewrite count_cons.
      split_and!; try done; [destruct (Z.eqb_spec v0 0); lia|]. intros x Hx. rewrite Hmem by done. set_solver.
    + assert (u32 (v - 1) = v - 1) as ->.
      { unfold u32. apply wrap_small. unfold uint, size_ok in *. lia. }
      pose proof (HASH_range (v - 1)) as Hh.
      destruct (free_reach l (BITVEC_HASH (v - 1)) (proj1 Hok)) as (e & He & Hfree); [lia|done|].
      destruct (free_slot_spec l (BITVEC_HASH (v - 1)) e 0 (Z.to_nat N)) as (f & Hf & Hfr & Hf0 & Hbefore);
        [apply Hok|lia|lia|done|lia|lia|].
      rewrite pos_0 in Hf by done. rewrite Hf. cbn [mbind option_bind].
      set (l1 := <[Z.to_nat (pos (BITVEC_HASH (v - 1)) f) := v]> l).
      assert (l !! Z.to_nat (pos (BITVEC_HASH (v - 1)) f) = Some 0) as Hlook.
      { rewrite lookup_slot by (apply Hok || apply pos_range). by rewrite Hf0. }
      assert (count l1 = count l + 1) as Hc1 by (by apply count_insert).
      assert (u32 (count l + 1) = count l1) as ->.
      { rewrite Hc1. unfold u32. apply wrap_small. unfold uint. lia. }
      destruct (IH l1) as (l' & -> & ? & ? & ? & Hmem); try done.
      * by apply hash_ok_insert.
      * by apply Forall_insert.
      * lia.
      * exists l'. rewrite count_cons. destruct (Z.eqb_spec v 0); [done|].
        split_and!; try done; [lia|]. intros x Hx. rewrite Hmem by done. unfold l1.
        rewrite elem_insert by done. set_solver.
Qed.

Lemma bitvec_clear_loop_spec k fuel p i :
  wf k p → 0 ≤ i < iSize p → (k < fuel)%nat → ∃ p', bitvec_clear_loop fuel p i = Some p' ∧ clear_post k p i p'.
Proof.
  revert fuel p i. induction k as [k IH] using lt_wf_ind. intros fuel p i Hp Hi Hf.
  destruct fuel as [|fuel]; [lia|]. cbn [bitvec_clear_loop].
  inversion Hp as [? s n l Hs Hl Hok|? s n l Hb Hs Hfits Hok Hn Hc Hv|k' s n subs Hb Hs Hfits Hl Hsubs Hsizes]; subst;
    cbn [iSize iDivisor nSet u bitmap_of hash_of subs_of] in *.
  - change (negb (0 =? 0)) with false. cbv iota. destruct (Z.leb_spec s BITVEC_NBIT); [|lia].
    cbn [mbind option_bind]. rewrite (bitmap_lookup s) by done. cbn [mbind option_bind].
    eexists. split; [done|]. pose proof (bitmap_byte s l i Hs Hl Hok Hi) as Hbyte.
    split_and!; [by apply wf_bitmap_insert|done|]. cbn [iSize]. intros j Hj.
    rewrite !member_bitmap by (rewrite ?length_insert; done).
    rewrite (bit_of_insert l s _ i _ false) by (done || intros; apply clear_bit; done || lia).
    destruct (Z.eqb_spec j i); naive_solver.
  - change (negb (0 =? 0)) with false. cbv iota. destruct (Z.leb_spec s BITVEC_NBIT); [lia|].
    cbn [mbind option_bind]. destruct (next_value s Hs i Hi) as [-> _]. pose proof NINT_range.
    destruct (clear_rebuild_spec s l (i + 1) (replicate (Z.to_nat N) 0)) as (l' & E & ? & ? & Hc' & Hmem); try done.
    + apply hash_ok_empty.
    + apply Forall_replicate. unfold size_ok in Hs. lia.
    + by rewrite count_replicate.
    + rewrite count_replicate in *. rewrite E. cbn [mbind option_bind]. eexists. split; [done|].
      split_and!; [constructor; done || lia|done|]. cbn [iSize]. intros j Hj.
      rewrite !member_hash by (done || lia). rewrite Hmem by lia.
      assert (¬ j + 1 ∈ replicate (Z.to_nat N) 0) by (intros [? _]%elem_of_replicate; lia).
      naive_solver lia.
  - rewrite (divisor_test s Hb Hs). cbn [negb mbind option_bind].
    destruct (divided_entry s subs Hb Hs Hl i Hi) as [sub Hsub]. rewrite Hsub. cbn [mbind option_bind].
    destruct (bin_range s i Hs Hb Hi) as [_ Him]. destruct sub as [q|].
    + pose proof (Hsizes _ _ Hsub) as Hqs.
      destruct (IH k' ltac:(lia) fuel q (i `mod` divisor_of s)) as (q' & -> & Hq' & Hqs' & Hmem);
        [by eapply Hsubs|lia|lia|]. cbn [mbind option_bind]. eexists. split; [done|].
      split_and!; [apply wf_sub_insert; [done..|congruence]|done|]. cbn [iSize]. intros j Hj.
      rewrite member_sub_insert by done. destruct (bin_range s j Hs Hb Hj) as [_ Hjm].
      case_decide as Hbin.
      * rewrite Hmem by lia. rewrite (member_sub s n subs Hb Hs j (Some q)) by (by rewrite Hbin).
        by rewrite (same_bin s i j Hs Hb Hi Hj Hbin).
      * split; [intros ?; split; [done|by intros ->]|by intros [? _]].
    + eexists. split; [done|]. split_and!; [done..|]. cbn [iSize]. intros j Hj. split; [|by intros [? _]].
      intros Hm. split; [done|]. intros ->. by apply (member_sub s n subs Hb Hs i None Hsub) in Hm.
Qed.
End clear.
