(* ===== verification/BitvecProps.v ===== *)
(** * Bitvec: the properties

    A [Bitvec] is a finite set: every program of operations returns what it
    would on a set; what a failed allocation can do; and the sizes for which
    the division of the table overflows. *)
From S2P Require Import Prelude Words Bitvec BitvecHash BitvecProofs.
From stdpp Require Import gmap.
Local Open Scope Z_scope.

(** The two sizes of a pointer. *)
Definition machine64 : Machine := {| little_endian := true; sizeof_ptr := 8 |}.
#[export] Instance machine64_ptr : @PtrSize machine64 := or_intror eq_refl.

Section props.
Context `{PtrSize}.
Implicit Types (p : Bitvec) (i : Z) (o : list bool) (S : gset Z).

(** The object holds the set: the invariant, and the test of every integer of
    32 bits. *)
Definition is_set (p : Bitvec) (S : gset Z) : Prop :=
  wf 4 p ∧ ∀ i, uint 32 i → sqlite3BitvecTest (Some p) i = Some (bool_decide (i ∈ S)).

Lemma u32_pred i : 1 ≤ i → uint 32 i → u32 (i - 1) = i - 1.
Proof. unfold uint. intros. unfold u32. apply wrap_small. unfold uint. lia. Qed.

Lemma size_32 p : wf 4 p → iSize p < 2 ^ 32.
Proof. intros Hp%wf_size. unfold size_ok in Hp. pose proof NPTR_range. lia. Qed.

Lemma test_range p i :
  wf 4 p → uint 32 i → ¬ (1 ≤ i ≤ iSize p) → sqlite3BitvecTest (Some p) i = Some false.
Proof.
  intros Hp Hi Hr. pose proof (size_32 p Hp). unfold sqlite3BitvecTest, sqlite3BitvecTestNotNull.
  destruct (Z.leb_spec (iSize p) (u32 (i - 1))) as [|Hlt]; [done|]. exfalso.
  destruct (decide (i = 0)) as [->|]; [|unfold uint in *; rewrite u32_pred in Hlt by (unfold uint; lia); lia].
  change (u32 (0 - 1)) with (2 ^ 32 - 1) in Hlt. lia.
Qed.

Lemma test_member p i :
  wf 4 p → 1 ≤ i ≤ iSize p →
  ∃ b, sqlite3BitvecTest (Some p) i = Some b ∧ (b = true ↔ member p (i - 1)).
Proof.
  intros Hp Hi. pose proof (size_32 p Hp). unfold sqlite3BitvecTest, sqlite3BitvecTestNotNull.
  rewrite u32_pred by (unfold uint; lia). destruct (Z.leb_spec (iSize p) (i - 1)); [lia|].
  destruct (wf_test 4 p (i - 1) bitvec_fuel) as [b Hb]; [done|lia|unfold bitvec_fuel; lia|].
  exists b. split; [done|]. by apply (bitvec_test_loop_member bitvec_fuel).
Qed.

Lemma is_set_member p S i : is_set p S → 1 ≤ i ≤ iSize p → member p (i - 1) ↔ i ∈ S.
Proof.
  intros [Hp Hs] Hi. pose proof (size_32 p Hp). destruct (test_member p i Hp Hi) as (b & Hb & <-).
  rewrite Hs in Hb by (unfold uint; lia). injection Hb as <-. apply bool_decide_eq_true.
Qed.

Lemma is_set_range p S i : is_set p S → uint 32 i → i ∈ S → 1 ≤ i ≤ iSize p.
Proof.
  intros [Hp Hs] Hi HiS. destruct (decide (1 ≤ i ≤ iSize p)) as [|Hr]; [done|].
  pose proof (test_range p i Hp Hi Hr) as Ht. rewrite Hs in Ht by done. injection Ht as Ht.
  by apply bool_decide_eq_false in Ht.
Qed.

Lemma is_set_intro p S :
  wf 4 p → (∀ i, uint 32 i → i ∈ S → 1 ≤ i ≤ iSize p) →
  (∀ i, 1 ≤ i ≤ iSize p → member p (i - 1) ↔ i ∈ S) → is_set p S.
Proof.
  intros Hp Hr Hm. split; [done|]. intros i Hi. destruct (decide (1 ≤ i ≤ iSize p)) as [Hin|Hout].
  - destruct (test_member p i Hp Hin) as (b & -> & Hb). rewrite Hm in Hb by done. f_equal.
    apply eq_true_iff_eq. by rewrite bool_decide_eq_true.
  - rewrite test_range by done. rewrite bool_decide_eq_false_2; [done|]. eauto.
Qed.

Lemma create_is_set size : size_ok size → is_set (new_bitvec size) ∅.
Proof.
  intros Hs. apply is_set_intro; [apply wf_new, fits_4; done|set_solver|].
  intros i Hi. split; [|set_solver]. intros Hm. exfalso. revert Hm. apply member_new; [done|]. cbn [iSize new_bitvec] in Hi. lia.
Qed.

(** ** Each operation *)

Lemma set_is_set p S i o :
  is_set p S → 1 ≤ i ≤ iSize p →
  ∃ rc p' S' o', sqlite3BitvecSet (Some p) i o = Some (rc, Some p', o') ∧
    is_set p' S' ∧ iSize p' = iSize p ∧
    (rc = SQLITE_OK ∧ S' = {[i]} ∪ S ∨ rc = SQLITE_NOMEM ∧ S' ⊆ {[i]} ∪ S ∧ ¬ succeeds o) ∧
    (succeeds o → succeeds o').
Proof.
  intros HS Hi. pose proof (proj1 HS) as Hp. pose proof (size_32 p Hp).
  unfold sqlite3BitvecSet. rewrite u32_pred by (unfold uint; lia).
  destruct (bitvec_set_loop_spec 4 (2 * bitvec_fuel)%nat p (i - 1) o)
    as ([[rc p'] o'] & -> & Hp' & Hs' & Hrc & _ & Hsub & Hsup & Ho); [done|lia|unfold bitvec_fuel; lia|].
  cbn [mbind option_bind].
  assert (∀ j, 1 ≤ j ≤ iSize p → member p' (j - 1) → j ∈ {[i]} ∪ S) as Hin.
  { intros j Hj Hm. destruct (Hsub (j - 1)) as [?|Hm']; [lia|done|assert (j = i) as -> by lia; set_solver|].
    apply is_set_member with (S := S) in Hm'; [set_solver|done..]. }
  assert (∀ j, uint 32 j → j ∈ {[i]} ∪ S → 1 ≤ j ≤ iSize p) as Hran.
  { intros j Hj [->%elem_of_singleton|]%elem_of_union; [done|by eapply is_set_range]. }
  destruct Hrc as [->| ->].
  - eexists _, _, ({[i]} ∪ S), _. split; [done|]. split_and!; [|done|by left|by intros [_ ?]%Ho].
    apply is_set_intro; [done|by rewrite Hs'|]. rewrite Hs'. intros j Hj. split; [by apply Hin|].
    intros [->%elem_of_singleton|Hj']%elem_of_union; (apply Hsup; [done|lia|]); [by left|right].
    by apply (is_set_member p S).
  - set (S' := filter (λ j, sqlite3BitvecTest (Some p') j = Some true) ({[i]} ∪ S)).
    eexists _, _, S', _. split; [done|]. split_and!; [|done| |by intros [_ ?]%Ho].
    + apply is_set_intro; [done|intros j ? [_ ?]%elem_of_filter; rewrite Hs'; by apply Hran|].
      rewrite Hs'. intros j Hj. unfold S'. rewrite elem_of_filter.
      destruct (test_member p' j) as (b & -> & Hb); [done|by rewrite Hs'|].
      split; [intros Hm; split; [f_equal; by apply Hb|by apply Hin]|]. intros [[= ->] _]. by apply Hb.
    + right. split_and!; [done|unfold S'; set_solver|]. by intros [? _]%Ho.
Qed.

Lemma clear_is_set p S i :
  is_set p S → 1 ≤ i ≤ iSize p →
  ∃ p', sqlite3BitvecClear (Some p) i = Some (Some p') ∧ is_set p' (S ∖ {[i]}) ∧ iSize p' = iSize p.
Proof.
  intros HS Hi. pose proof (proj1 HS) as Hp. pose proof (size_32 p Hp).
  unfold sqlite3BitvecClear. rewrite u32_pred by (unfold uint; lia).
  destruct (bitvec_clear_loop_spec 4 bitvec_fuel p (i - 1)) as (p' & -> & Hp' & Hs' & Hm);
    [done|lia|unfold bitvec_fuel; lia|].
  exists p'. split; [done|]. split; [|done]. apply is_set_intro; [done|..].
  - intros j Hj [? _]%elem_of_difference. rewrite Hs'. by eapply is_set_range.
  - rewrite Hs'. intros j Hj. rewrite Hm, (is_set_member p S) by (done || lia).
    rewrite elem_of_difference, elem_of_singleton. split; intros [? Hne]; (split; [done|]); intros E; apply Hne; lia.
Qed.

(** [sqlite3BitvecSet], with every outcome of the allocations. On a set of
    any size up to 2^32 less the number of subsets, and an element in range, it
    returns after a bounded number of steps, within its arrays, and keeps the
    invariant of the tree. The result is SQLITE_OK if no allocation fails, and
    then the element is added and nothing else changes; it is SQLITE_NOMEM only
    if one fails, and then no other element is added, but elements may be lost,
    as when the table was being divided. *)
Theorem sqlite3BitvecSet_spec p S i o :
  is_set p S → 1 ≤ i ≤ iSize p →
  ∃ rc p' S' o', sqlite3BitvecSet (Some p) i o = Some (rc, Some p', o') ∧
    is_set p' S' ∧ iSize p' = iSize p ∧
    (rc = SQLITE_OK ∧ S' = {[i]} ∪ S ∨ rc = SQLITE_NOMEM ∧ S' ⊆ {[i]} ∪ S ∧ ¬ succeeds o).
Proof.
  intros HS Hi. destruct (set_is_set p S i o HS Hi) as (rc & p' & S' & o' & ? & ? & ? & ? & _). eauto 10.
Qed.

(** ** Programs *)

Inductive bitvec_op :=
  | OSet (i : Z)
  | OClear (i : Z)
  | OTest (i : Z).

(** The results of a program: the result codes of [sqlite3BitvecSet], 0 for
    [sqlite3BitvecClear], what [sqlite3BitvecTest] returns. *)
Fixpoint run_bitvec (ops : list bitvec_op) (p : option Bitvec) (o : list bool) : option (list Z) :=
  match ops with
  | [] => Some []
  | OSet i :: ops => '(rc, p, o) ← sqlite3BitvecSet p i o; cons rc <$> run_bitvec ops p o
  | OClear i :: ops => p ← sqlite3BitvecClear p i; cons 0 <$> run_bitvec ops p o
  | OTest i :: ops => b ← sqlite3BitvecTest p i; cons (Z.b2z b) <$> run_bitvec ops p o
  end.

Fixpoint run_gset (ops : list bitvec_op) (S : gset Z) : list Z :=
  match ops with
  | [] => []
  | OSet i :: ops => 0 :: run_gset ops ({[i]} ∪ S)
  | OClear i :: ops => 0 :: run_gset ops (S ∖ {[i]})
  | OTest i :: ops => Z.b2z (bool_decide (i ∈ S)) :: run_gset ops S
  end.

(** What the callers must ensure. *)
Definition op_ok (size : Z) (op : bitvec_op) : Prop :=
  match op with
  | OSet i | OClear i => 1 ≤ i ≤ size
  | OTest i => uint 32 i
  end.

Lemma run_bitvec_spec ops p S o :
  is_set p S → Forall (op_ok (iSize p)) ops → succeeds o → run_bitvec ops (Some p) o = Some (run_gset ops S).
Proof.
  revert p S o. induction ops as [|op ops IH]; intros p S o HS Hops Ho; [done|].
  apply Forall_cons in Hops as [Hop Hops]. destruct op as [i|i|i]; cbn [run_bitvec run_gset op_ok] in *.
  - destruct (set_is_set p S i o HS Hop) as (rc & p' & S' & o' & -> & HS' & Hs' & Hrc & Ho').
    cbn [mbind option_bind]. destruct Hrc as [[-> ->]|(_ & _ & [])]; [|done].
    rewrite (IH p' _ o' HS'); [done|by rewrite Hs'|auto].
  - destruct (clear_is_set p S i HS Hop) as (p' & -> & HS' & Hs'). cbn [mbind option_bind].
    rewrite (IH p' _ o HS'); [done|by rewrite Hs'|done].
  - rewrite (proj2 HS i Hop). cbn [mbind option_bind]. by rewrite (IH p S o).
Qed.

(** C12: a [Bitvec] is a set. From [sqlite3BitvecCreate] on, every program of
    settings, clearings and tests, on elements in range and with allocations
    that succeed, returns what it would on a finite set, through all changes of
    representation: the bitmap, the hash table and its division into subsets.
    In particular every loop and recursion ends, and no index is out of range. *)
Theorem bitvec_is_set size ops o (pp : option Bitvec) o' :
  size_ok size → Forall (op_ok size) ops → succeeds o →
  sqlite3BitvecCreate size o = (pp, o') → run_bitvec ops pp o' = Some (run_gset ops ∅).
Proof.
  intros Hs Hops Ho. unfold sqlite3BitvecCreate.
  destruct (alloc_succeeds o Ho) as (o1 & -> & ?). intros [= <- <-].
  apply run_bitvec_spec; [by apply create_is_set|done..].
Qed.
End props.

(** ** Sizes that overflow *)

(** [sqlite3BitvecSet] of the elements in turn, without failing allocations. *)
Fixpoint set_seq `{Machine} (elems : list Z) (p : option Bitvec) : option (option Bitvec) :=
  match elems with
  | [] => Some p
  | i :: elems => '(_, p, _) ← sqlite3BitvecSet p i []; set_seq elems p
  end.

(** A full table whose new divisor is 0 is divided for ever: the count is not
    reset, so the empty table that replaces it is taken for full again. *)
Lemma bitvec_set_loop_diverges `{PtrSize} fuel s x l i :
  BITVEC_NBIT < s → u32 (s + BITVEC_NPTR - 1) < BITVEC_NPTR → uint 32 s → 0 ≤ i < s →
  hash_of x = Some l → table l → slot l (BITVEC_HASH i) = 0 →
  bitvec_set_loop fuel (mkBitvec s (BITVEC_NINT - 1) 0 x) i [] = None.
Proof.
  intros Hb Hw Hs. pose proof NINT_range. pose proof NPTR_range.
  revert x l i. induction fuel as [|fuel IH]; intros x l i Hi Hx Hl Hslot; [done|].
  cbn [bitvec_set_loop iSize iDivisor nSet u].
  change (negb (0 =? 0)) with false. rewrite andb_false_r. destruct (Z.leb_spec s BITVEC_NBIT); [lia|].
  rewrite Hx. cbn [mbind option_bind]. rewrite lookup_slot, Hslot by (done || apply HASH_range).
  cbn [mbind option_bind]. change (0 =? 0) with true. cbv iota zeta.
  destruct (Z.ltb_spec (BITVEC_NINT - 1) (BITVEC_NINT - 1)); [lia|].
  destruct (Z.leb_spec BITVEC_MXHASH (BITVEC_NINT - 1)) as [_|Hc].
  2:{ destruct bitvec_consts as [(_ & _ & E1 & E2 & _)|(_ & _ & E1 & E2 & _)]; rewrite E1, E2 in Hc; lia. }
  cbn [alloc negb]. rewrite Z.div_small by (split; [apply wrap_uint; lia|done]).
  assert (u32 (u32 (i + 1) - 1) = i) as ->.
  { unfold uint in Hs. unfold u32, wrap. rewrite Zminus_mod_idemp_l, Z.add_simpl_r. apply Z.mod_small. lia. }
  rewrite (IH _ (replicate (Z.to_nat BITVEC_NINT) 0)); [done|done|..].
  - cbn [hash_of]. assert (∀ k, forallb (λ sub : option Bitvec, match sub with None => true | _ => false end)
      (replicate k None) = true) as -> by (intros k; by induction k). done.
  - apply hash_ok_empty.
  - unfold slot. apply nth_lookup_Some. apply lookup_replicate_2. pose proof (HASH_range i). lia.
Qed.

(** the sizes above the bound. The comment on [iSize] allows every size up
    to 2^32, but the sum that rounds the quotient up overflows 32 bits within
    the number of subsets of 2^32, and the divisor becomes 0. On a set of size
    2^32 - 1 the elements 1 to 123 can be set; setting 124 then divides the
    table without end: no number of recursive calls suffices. *)
Theorem sqlite3BitvecSet_overflow :
  ∃ p, @set_seq machine64 (seqZ 1 123) (Some (@new_bitvec machine64 (2 ^ 32 - 1))) = Some (Some p) ∧
    ∀ fuel, @bitvec_set_loop machine64 fuel p (124 - 1) [] = None.
Proof.
  exists (mkBitvec (2 ^ 32 - 1) 123 0 (aHash (seqZ 1 123 ++ [0]))).
  split; [vm_compute; reflexivity|]. intros fuel.
  assert (123 = @BITVEC_NINT machine64 - 1) as E by (vm_compute; reflexivity).
  rewrite E at 1. apply (bitvec_set_loop_diverges fuel (2 ^ 32 - 1) _ (seqZ 1 123 ++ [0]));
    try (vm_compute; reflexivity); [unfold uint; lia|lia].
Qed.

(** ** Witnesses *)

(** A set of size 10000, which starts as a hash table. *)
Definition ops_ex : list bitvec_op := [OSet 5; OSet 129; OSet 9999; OClear 129; OTest 5; OTest 129; OTest 9999; OTest 0].

Lemma size_ok_ex : @size_ok machine64 10000.
Proof. split; [lia|]. change (@BITVEC_NPTR machine64) with 62. lia. Qed.

Lemma bitvec_is_set_witness :
  @run_bitvec machine64 ops_ex (Some (@new_bitvec machine64 10000)) [] = Some (run_gset ops_ex ∅) ∧
  run_gset ops_ex ∅ = [0; 0; 0; 0; 1; 0; 1; 0].
Proof.
  split; [|reflexivity].
  apply (@bitvec_is_set machine64 _ 10000 ops_ex [] (Some (@new_bitvec machine64 10000)) []).
  - exact size_ok_ex.
  - repeat (constructor; [cbn [op_ok]; unfold uint; lia|]). constructor.
  - constructor.
  - reflexivity.
Defined.

Lemma sqlite3BitvecSet_spec_witness :
  ∃ rc p' S' o', @sqlite3BitvecSet machine64 (Some (@new_bitvec machine64 10000)) 7 [false] = Some (rc, Some p', o') ∧
    @is_set machine64 p' S' ∧ iSize p' = 10000 ∧
    (rc = SQLITE_OK ∧ S' = {[7]} ∪ ∅ ∨ rc = SQLITE_NOMEM ∧ S' ⊆ {[7]} ∪ ∅ ∧ ¬ succeeds [false]).
Proof.
  apply (@sqlite3BitvecSet_spec machine64 _ (@new_bitvec machine64 10000) ∅ 7 [false]).
  - apply create_is_set, size_ok_ex.
  - change (iSize (@new_bitvec machine64 10000)) with 10000. lia.
Defined.
