(* ===== verification/RowSet.v ===== *)
(** * RowSet: sets of rowids

    The model of [struct RowSet] and of its operations in sqlite3.c, on a heap
    of entries: the list of the entries of a batch, merge sort, the conversions
    between sorted lists and balanced trees, the forest of trees that tests
    search, and the extraction of the elements in order.

    A field of an entry that has not been written is [None], and so is the
    result of an operation that reads such a field, follows a null pointer,
    leaves an array or exhausts its fuel. *)
From S2P Require Import Prelude.
From stdpp Require Import gmap.
Local Open Scope Z_scope.

(** ** Data *)

Abbreviation addr := positive.
Abbreviation pointer := (option addr).

Record RowSetEntry := mkEntry {
  v : option Z;
  pRight : option pointer;
  pLeft : option pointer
}.

Abbreviation heap := (gmap addr RowSetEntry).

Definition ROWSET_ALLOCATION_SIZE : Z := 1024.
Definition ROWSET_SORTED : Z := 0x01.
Definition ROWSET_NEXT : Z := 0x02.

(** The list of the chunks, which only serves to free them, is not part of the
    model: freeing them empties the memory. *)
Record RowSet := mkRowSet {
  pEntry : pointer;
  pLast : pointer;
  pForest : pointer;
  nFresh : Z;
  rsFlags : Z;
  iBatch : Z;
  memory : heap
}.

(** ** Memory *)

Definition get_v (h : heap) (p : pointer) : option Z := a ← p; e ← h !! a; v e.
Definition get_right (h : heap) (p : pointer) : option pointer := a ← p; e ← h !! a; pRight e.
Definition get_left (h : heap) (p : pointer) : option pointer := a ← p; e ← h !! a; pLeft e.

Definition set_v (h : heap) (p : pointer) (x : Z) : option heap :=
  a ← p; e ← h !! a; Some (<[a := mkEntry (Some x) (pRight e) (pLeft e)]> h).
Definition set_right (h : heap) (p q : pointer) : option heap :=
  a ← p; e ← h !! a; Some (<[a := mkEntry (v e) (Some q) (pLeft e)]> h).
Definition set_left (h : heap) (p q : pointer) : option heap :=
  a ← p; e ← h !! a; Some (<[a := mkEntry (v e) (pRight e) (Some q)]> h).

(** ** Lists *)

(** [pTail = pTail->pRight = p]: [pTail] is null while it points to the local
    [head], whose field [pRight] is the first component. *)
Definition append_tail (h : heap) (head : pointer) (pTail p : pointer) : option (heap * pointer) :=
  match pTail with
  | None => Some (h, p)
  | Some _ => h ← set_right h pTail p; Some (h, head)
  end.

(** The loop of [rowSetEntryMerge]. *)
Fixpoint merge_loop (fuel : nat) (h : heap) (head pTail pA pB : pointer) : option (heap * pointer) :=
  match fuel with
  | O => None
  | S fuel =>
    x ← get_v h pA;
    y ← get_v h pB;
    if x <=? y then
      '(h, head, pTail) ← (if x <? y then '(h, head) ← append_tail h head pTail pA; Some (h, head, pA)
                           else Some (h, head, pTail));
      pA ← get_right h pA;
      match pA with
      | None => append_tail h head pTail pB
      | Some _ => merge_loop fuel h head pTail pA pB
      end
    else
      '(h, head) ← append_tail h head pTail pB;
      let pTail := pB in
      pB ← get_right h pB;
      match pB with
      | None => append_tail h head pTail pA
      | Some _ => merge_loop fuel h head pTail pA pB
      end
  end.

(** The memory and the merged list. *)
Definition rowSetEntryMerge (h : heap) (pA pB : pointer) : option (heap * pointer) :=
  merge_loop (2 * S (size h)) h None None pA pB.

(** [for(i=0; aBucket[i]; i++) ...; aBucket[i] = pIn]. *)
Fixpoint bucket_insert (h : heap) (aBucket : list pointer) (pIn : pointer) : option (heap * list pointer) :=
  match aBucket with
  | [] => None
  | None :: aBucket => Some (h, pIn :: aBucket)
  | Some b :: aBucket =>
    '(h, pIn) ← rowSetEntryMerge h (Some b) pIn;
    '(h, aBucket) ← bucket_insert h aBucket pIn;
    Some (h, None :: aBucket)
  end.

(** [while( pIn )]. *)
Fixpoint sort_loop (fuel : nat) (h : heap) (aBucket : list pointer) (pIn : pointer) : option (heap * list pointer) :=
  match fuel with
  | O => None
  | S fuel =>
    match pIn with
    | None => Some (h, aBucket)
    | Some _ =>
      pNext ← get_right h pIn;
      h ← set_right h pIn None;
      '(h, aBucket) ← bucket_insert h aBucket pIn;
      sort_loop fuel h aBucket pNext
    end
  end.

(** [for(i=1; i<sizeof(aBucket)/sizeof(aBucket[0]); i++)]. *)
Fixpoint collect_buckets (h : heap) (aBucket : list pointer) (pIn : pointer) : option (heap * pointer) :=
  match aBucket with
  | [] => Some (h, pIn)
  | None :: aBucket => collect_buckets h aBucket pIn
  | Some b :: aBucket =>
    match pIn with
    | Some _ => '(h, pIn) ← rowSetEntryMerge h pIn (Some b); collect_buckets h aBucket pIn
    | None => collect_buckets h aBucket (Some b)
    end
  end.

Definition rowSetEntrySort (h : heap) (pIn : pointer) : option (heap * pointer) :=
  '(h, aBucket) ← sort_loop (S (size h)) h (replicate 40 None) pIn;
  match aBucket with
  | pIn :: aBucket => collect_buckets h aBucket pIn
  | [] => None
  end.

(** ** Trees *)

(** The memory, the first and the last element of the list. *)
Fixpoint tree_to_list (fuel : nat) (h : heap) (pIn : pointer) : option (heap * pointer * pointer) :=
  match fuel with
  | O => None
  | S fuel =>
    pl ← get_left h pIn;
    '(h, ppFirst) ← match pl with
                    | Some _ => '(h, first, p) ← tree_to_list fuel h pl; h ← set_right h p pIn; Some (h, first)
                    | None => Some (h, pIn)
                    end;
    pr ← get_right h pIn;
    match pr with
    | Some _ => '(h, first, ppLast) ← tree_to_list fuel h pr; h ← set_right h pIn first; Some (h, ppFirst, ppLast)
    | None => Some (h, ppFirst, pIn)
    end
  end.

Definition rowSetTreeToList (h : heap) (pIn : pointer) : option (heap * pointer * pointer) :=
  tree_to_list (S (size h)) h pIn.

(** The memory, the root and the rest of the list. *)
Fixpoint rowSetNDeepTree (h : heap) (pList : pointer) (iDepth : nat) : option (heap * pointer * pointer) :=
  match pList with
  | None => Some (h, None, None)
  | Some _ =>
    match iDepth with
    | S (S _ as iDepth) =>
      '(h, pLeft, pList) ← rowSetNDeepTree h pList iDepth;
      match pList with
      | None => Some (h, pLeft, None)
      | Some _ =>
        let p := pList in
        h ← set_left h p pLeft;
        pList ← get_right h p;
        '(h, r, pList) ← rowSetNDeepTree h pList iDepth;
        h ← set_right h p r;
        Some (h, p, pList)
      end
    | _ =>
      let p := pList in
      pList ← get_right h p;
      h ← set_right h p None;
      h ← set_left h p None;
      Some (h, p, pList)
    end
  end.

(** [for(iDepth=1; pList; iDepth++)]. *)
Fixpoint list_to_tree_loop (fuel : nat) (h : heap) (p pList : pointer) (iDepth : nat) : option (heap * pointer) :=
  match fuel with
  | O => None
  | S fuel =>
    match pList with
    | None => Some (h, p)
    | Some _ =>
      let pLeft := p in
      let p := pList in
      pList ← get_right h p;
      h ← set_left h p pLeft;
      '(h, r, pList) ← rowSetNDeepTree h pList iDepth;
      h ← set_right h p r;
      list_to_tree_loop fuel h p pList (S iDepth)
    end
  end.

Definition rowSetListToTree (h : heap) (pList : pointer) : option (heap * pointer) :=
  let p := pList in
  pList ← get_right h p;
  h ← set_right h p None;
  h ← set_left h p None;
  list_to_tree_loop (S (size h)) h p pList 1.

(** ** The set *)

Section rowset.
(** The size of an entry, which depends on that of a pointer. *)
Context (sizeof_entry : Z).

Definition ROWSET_ENTRY_PER_CHUNK : Z := (ROWSET_ALLOCATION_SIZE - 8) / sizeof_entry.

(** [N] is the number of bytes after the object itself. *)
Definition sqlite3RowSetInit (N : Z) : RowSet :=
  mkRowSet None None None (wrap 16 (N / sizeof_entry)) ROWSET_SORTED 0 ∅.

Definition sqlite3RowSetClear (p : RowSet) : RowSet := mkRowSet None None None 0 ROWSET_SORTED (iBatch p) ∅.

(** A null pointer when memory runs out. *)
Definition rowSetEntryAlloc (malloc_ok : bool) (p : RowSet) : RowSet * pointer :=
  if (nFresh p =? 0) && negb malloc_ok then (p, None)
  else
    let n := if nFresh p =? 0 then ROWSET_ENTRY_PER_CHUNK else nFresh p in
    let a := fresh (dom (memory p) : gset addr) in
    (mkRowSet (pEntry p) (pLast p) (pForest p) (n - 1) (rsFlags p) (iBatch p)
       (<[a := mkEntry None None None]> (memory p)), Some a).

Definition sqlite3RowSetInsert (malloc_ok : bool) (p : RowSet) (rowid : Z) : option RowSet :=
  let '(p, pE) := rowSetEntryAlloc malloc_ok p in
  match pE with
  | None => Some p
  | Some _ =>
    h ← set_v (memory p) pE rowid;
    h ← set_right h pE None;
    match pLast p with
    | Some _ =>
      x ← get_v h (pLast p);
      let flags := if rowid <=? x then Z.land (rsFlags p) (Z.lnot ROWSET_SORTED) else rsFlags p in
      h ← set_right h (pLast p) pE;
      Some (mkRowSet (pEntry p) pE (pForest p) (nFresh p) flags (iBatch p) h)
    | None => Some (mkRowSet pE pE (pForest p) (nFresh p) (rsFlags p) (iBatch p) h)
    end
  end.

(** The sorting of the entries, at the first extraction. *)
Definition start_next (p : RowSet) : option RowSet :=
  if Z.land (rsFlags p) ROWSET_NEXT =? 0 then
    '(h, e) ← (if Z.land (rsFlags p) ROWSET_SORTED =? 0 then rowSetEntrySort (memory p) (pEntry p)
               else Some (memory p, pEntry p));
    Some (mkRowSet e (pLast p) (pForest p) (nFresh p) (Z.lor (rsFlags p) (Z.lor ROWSET_SORTED ROWSET_NEXT)) (iBatch p) h)
  else Some p.

(** The element that is extracted, if there is one. *)
Definition sqlite3RowSetNext (p : RowSet) : option (option Z * RowSet) :=
  p ← start_next p;
  match pEntry p with
  | Some _ =>
    x ← get_v (memory p) (pEntry p);
    next ← get_right (memory p) (pEntry p);
    let p' := mkRowSet next (pLast p) (pForest p) (nFresh p) (rsFlags p) (iBatch p) (memory p) in
    Some (Some x, match next with None => sqlite3RowSetClear p' | Some _ => p' end)
  | None => Some (None, p)
  end.

(** The loop over the forest that looks for a place for the list [p]: inl for
    the tree that takes it, inr for the end of the forest, with the last tree
    (null for the field of the set) and the list, into which all trees have
    been merged. *)
Fixpoint forest_loop (fuel : nat) (h : heap) (ppPrevTree pTree p : pointer) : option (heap * (unit + pointer * pointer)) :=
  match fuel with
  | O => None
  | S fuel =>
    match pTree with
    | None => Some (h, inr (ppPrevTree, p))
    | Some _ =>
      l ← get_left h pTree;
      match l with
      | None => '(h, t) ← rowSetListToTree h p; h ← set_left h pTree t; Some (h, inl tt)
      | Some _ =>
        '(h, pAux, pTail) ← rowSetTreeToList h l;
        h ← set_left h pTree None;
        '(h, p) ← rowSetEntryMerge h pAux p;
        next ← get_right h pTree;
        forest_loop fuel h pTree next p
      end
    end
  end.

(** Sorting the entries of a batch into the forest. *)
Definition new_batch (malloc_ok : bool) (s : RowSet) : option RowSet :=
  match pEntry s with
  | None => Some s
  | Some _ =>
    '(h, p) ← (if Z.land (rsFlags s) ROWSET_SORTED =? 0 then rowSetEntrySort (memory s) (pEntry s)
               else Some (memory s, pEntry s));
    '(h, r) ← forest_loop (S (size h)) h None (pForest s) p;
    s ← match r with
        | inl _ => Some (mkRowSet (pEntry s) (pLast s) (pForest s) (nFresh s) (rsFlags s) (iBatch s) h)
        | inr (ppPrevTree, p) =>
          let '(s, pTree) :=
            rowSetEntryAlloc malloc_ok (mkRowSet (pEntry s) (pLast s) (pForest s) (nFresh s) (rsFlags s) (iBatch s) h) in
          '(h, forest) ← match ppPrevTree with
                         | None => Some (memory s, pTree)
                         | Some _ => h ← set_right (memory s) ppPrevTree pTree; Some (h, pForest s)
                         end;
          h ← match pTree with
              | None => Some h
              | Some _ =>
                h ← set_v h pTree 0;
                h ← set_right h pTree None;
                '(h, t) ← rowSetListToTree h p;
                set_left h pTree t
              end;
          Some (mkRowSet (pEntry s) (pLast s) forest (nFresh s) (rsFlags s) (iBatch s) h)
        end;
    Some (mkRowSet None None (pForest s) (nFresh s) (Z.lor (rsFlags s) ROWSET_SORTED) (iBatch s) (memory s))
  end.

(** [while( p ) ...]. *)
Fixpoint tree_search (fuel : nat) (h : heap) (p : pointer) (iRowid : Z) : option bool :=
  match fuel with
  | O => None
  | S fuel =>
    match p with
    | None => Some false
    | Some _ =>
      x ← get_v h p;
      if x <? iRowid then p ← get_right h p; tree_search fuel h p iRowid
      else if iRowid <? x then p ← get_left h p; tree_search fuel h p iRowid
      else Some true
    end
  end.

(** [for(pTree = pRowSet->pForest; pTree; pTree=pTree->pRight)]. *)
Fixpoint forest_search (fuel : nat) (h : heap) (pTree : pointer) (iRowid : Z) : option bool :=
  match fuel with
  | O => None
  | S fuel =>
    match pTree with
    | None => Some false
    | Some _ =>
      p ← get_left h pTree;
      found ← tree_search (S (size h)) h p iRowid;
      if (found : bool) then Some true
      else next ← get_right h pTree; forest_search fuel h next iRowid
    end
  end.

Definition sqlite3RowSetTest (malloc_ok : bool) (s : RowSet) (batch iRowid : Z) : option (bool * RowSet) :=
  s ← (if batch =? iBatch s then Some s
       else
         s ← new_batch malloc_ok s;
         Some (mkRowSet (pEntry s) (pLast s) (pForest s) (nFresh s) (rsFlags s) batch (memory s)));
  found ← forest_search (S (size (memory s))) (memory s) (pForest s) iRowid;
  Some (found, s).
End rowset.
