(* ===== verification/RowSetLists.v ===== *)
(** * RowSet: lists and merge sort

    Lists of entries as sequences of addresses and values; merging two sorted
    lists in place; and the sort by forty buckets, which reaches its last bucket
    only for 2^39 elements. *)
From S2P Require Import Prelude RowSet.
From stdpp Require Import gmap sorting.
Local Open Scope Z_scope.

Abbreviation node := (addr * Z)%type.

(** ** Lists of nodes *)

(** [l'] has some of the nodes of [l] and all their values. *)
Definition derived (l l' : list node) : Prop := (∃ d, l' ++ d ≡ₚ l) ∧ ∀ x, x ∈ l'.*2 ↔ x ∈ l.*2.

(** Strictly ascending values. *)
Definition ascending (l : list node) : Prop := StronglySorted Z.lt l.*2.

Section derived.
Implicit Types (l d : list node).

Lemma derived_perm l l' : l ≡ₚ l' → derived l l'.
Proof. intros H. split; [exists []; by rewrite app_nil_r|]. intros x. by rewrite H. Qed.

Lemma derived_refl l : derived l l.
Proof. by apply derived_perm. Qed.

Lemma derived_trans l1 l2 l3 : derived l1 l2 → derived l2 l3 → derived l1 l3.
Proof.
  intros [[d1 H1] V1] [[d2 H2] V2]. split; [|by intros x; rewrite V2].
  exists (d2 ++ d1). by rewrite app_assoc, H2.
Qed.

Lemma derived_app l1 l1' l2 l2' : derived l1 l1' → derived l2 l2' → derived (l1 ++ l2) (l1' ++ l2').
Proof.
  intros [[d1 H1] V1] [[d2 H2] V2]. split.
  - exists (d1 ++ d2). rewrite <-H1, <-H2. rewrite <-!app_assoc. f_equiv. rewrite !app_assoc. f_equiv. apply Permutation_app_comm.
  - intros x. by rewrite !fmap_app, !elem_of_app, V1, V2.
Qed.

Lemma derived_NoDup l l' : derived l l' → NoDup l.*1 → NoDup l'.*1.
Proof. intros [[d H] _]. rewrite <-H, fmap_app. by intros (? & _)%NoDup_app. Qed.

Lemma derived_addr l l' a : derived l l' → a ∈ l'.*1 → a ∈ l.*1.
Proof. intros [[d H] _] Ha. rewrite <-H, fmap_app. set_solver. Qed.

Lemma derived_length l l' : derived l l' → (length l' ≤ length l)%nat.
Proof. intros [[d H] _]. rewrite <-H, length_app. lia. Qed.

#[global] Instance derived_proper : Proper ((≡ₚ) ==> (≡ₚ) ==> iff) derived.
Proof.
  intros l1 l2 H12 l3 l4 H34. unfold derived. split; intros [[d H] V]; (split; [exists d|intros x]).
  - by rewrite <-H34, H.
  - by rewrite <-H34, <-H12.
  - by rewrite H34, H.
  - by rewrite H34, H12.
Qed.
End derived.

(** ** Segments *)

Section segments.
Implicit Types (h : heap) (p q : pointer) (l : list node) (a : addr).

(** The entries of [l] are linked from [p] to [q]. *)
Fixpoint lseg h p l q : Prop :=
  match l with
  | [] => p = q
  | (a, x) :: l => p = Some a ∧ ∃ left next, h !! a = Some (mkEntry (Some x) (Some next) left) ∧ lseg h next l q
  end.

(** The memory changed at the given addresses only. *)
Definition same_outside h h' (la : list addr) : Prop := ∀ a, a ∉ la → h' !! a = h !! a.

Lemma same_outside_refl h la : same_outside h h la.
Proof. done. Qed.

Lemma same_outside_trans h h1 h2 la la' :
  same_outside h h1 la → same_outside h1 h2 la' → same_outside h h2 (la ++ la').
Proof. intros H1 H2 a Ha. rewrite H2, H1; [done|set_solver..]. Qed.

Lemma same_outside_mono h h' la la' : same_outside h h' la → (∀ a, a ∈ la → a ∈ la') → same_outside h h' la'.
Proof. intros H Hsub a Ha. apply H. set_solver. Qed.

Lemma lseg_frame h h' p l q : lseg h p l q → (∀ a, a ∈ l.*1 → h' !! a = h !! a) → lseg h' p l q.
Proof.
  revert p. induction l as [|[a x] l IH]; intros p; [done|]. intros (-> & left & next & Ha & Hl) Hsame.
  split; [done|]. exists left, next. rewrite Hsame by (csimpl; set_solver). split; [done|]. apply IH; [done|].
  intros b Hb. apply Hsame. csimpl. set_solver.
Qed.

Lemma lseg_outside h h' la p l q : lseg h p l q → same_outside h h' la → (∀ a, a ∈ l.*1 → a ∉ la) → lseg h' p l q.
Proof. intros Hl Hs Hd. apply (lseg_frame h); [done|]. intros a Ha. by apply Hs, Hd. Qed.

Lemma lseg_app h p l1 l2 q : lseg h p (l1 ++ l2) q ↔ ∃ m, lseg h p l1 m ∧ lseg h m l2 q.
Proof.
  revert p. induction l1 as [|[a x] l1 IH]; intros p; cbn [app lseg].
  - split; [by exists p|by intros (m & -> & ?)].
  - setoid_rewrite IH. split.
    + intros (-> & left & next & Ha & m & ? & ?). exists m. split; [|done]. split; [done|]. by exists left, next.
    + intros (m & (-> & left & next & Ha & ?) & ?). split; [done|]. exists left, next. split; [done|]. by exists m.
Qed.

Lemma lseg_null h p l : lseg h p l None → p = None ↔ l = [].
Proof. destruct l as [|[a x] l]; [done|]. by intros (-> & _). Qed.

Lemma lseg_dom h p l q a : lseg h p l q → a ∈ l.*1 → is_Some (h !! a).
Proof.
  revert p. induction l as [|[b x] l IH]; intros p; csimpl; [set_solver|].
  intros (-> & left & next & Hb & Hl) [->|Ha]%elem_of_cons; [by eexists|by eapply IH].
Qed.

Lemma NoDup_size {A} (m : gmap addr A) (la : list addr) :
  NoDup la → (∀ a, a ∈ la → is_Some (m !! a)) → (length la ≤ size m)%nat.
Proof.
  intros Hnd Hin. rewrite <-size_dom, <-(size_list_to_set (C := gset addr) la) by done.
  apply subseteq_size. intros a Ha%elem_of_list_to_set. apply elem_of_dom, Hin, Ha.
Qed.

Lemma lseg_size h p l q : lseg h p l q → NoDup l.*1 → (length l ≤ size h)%nat.
Proof.
  intros Hl Hnd. rewrite <-(length_fmap fst). apply NoDup_size; [done|]. intros a Ha. by eapply lseg_dom.
Qed.

(** Redirecting the last entry of a segment. *)
Lemma lseg_set_last h p l a x q q' :
  lseg h p (l ++ [(a, x)]) q → a ∉ l.*1 →
  ∃ h', set_right h (Some a) q' = Some h' ∧ lseg h' p (l ++ [(a, x)]) q' ∧ same_outside h h' [a].
Proof.
  intros (m & Hl & (-> & left & next & Ha & _))%lseg_app Hnot. unfold set_right. cbn [mbind option_bind].
  rewrite Ha. cbn [mbind option_bind v pLeft]. eexists. split; [done|]. split.
  - apply lseg_app. exists (Some a). split.
    + apply (lseg_frame h); [done|]. intros b Hb. apply lookup_insert_ne. set_solver.
    + split; [done|]. eexists _, _. split; [apply lookup_insert_eq|done].
  - intros b Hb. apply lookup_insert_ne. set_solver.
Qed.
End segments.

(** ** Merging *)

Fixpoint merge_lists (la : list node) : list node → list node :=
  match la with
  | [] => λ lb, lb
  | (a, x) :: la' =>
    fix aux (lb : list node) : list node :=
      match lb with
      | [] => la
      | (b, y) :: lb' =>
        if x <=? y then if x <? y then (a, x) :: merge_lists la' lb else merge_lists la' lb
        else (b, y) :: aux lb'
      end
  end.

Section merge.
Implicit Types (h : heap) (p q : pointer) (l la lb d : list node) (a : addr).

Lemma merge_lists_cons a x la b y lb :
  merge_lists ((a, x) :: la) ((b, y) :: lb) =
    if x <=? y then if x <? y then (a, x) :: merge_lists la ((b, y) :: lb) else merge_lists la ((b, y) :: lb)
    else (b, y) :: merge_lists ((a, x) :: la) lb.
Proof. reflexivity. Qed.

Lemma merge_lists_nil_r la : merge_lists la [] = la.
Proof. by destruct la as [|[a x] la]. Qed.

Lemma merge_lists_derived la lb : derived (la ++ lb) (merge_lists la lb).
Proof.
  revert lb. induction la as [|[a x] la IH]; intros lb; [apply derived_refl|].
  induction lb as [|[b y] lb IHb]; [rewrite merge_lists_nil_r, app_nil_r; apply derived_refl|].
  rewrite merge_lists_cons. destruct (Z.leb_spec x y); [destruct (Z.ltb_spec x y)|].
  - apply (derived_app [(a, x)] [(a, x)]); [apply derived_refl|apply IH].
  - assert (x = y) as <- by lia. destruct (IH ((b, x) :: lb)) as [[d Hd] Hv]. split.
    + exists ((a, x) :: d). by rewrite <-Permutation_middle, Hd.
    + intros z. rewrite Hv. rewrite !fmap_app, !fmap_cons, !elem_of_app. csimpl. set_solver.
  - rewrite <-Permutation_middle. apply (derived_app [(b, y)] [(b, y)]); [apply derived_refl|apply IHb].
Qed.

Lemma merge_lists_ascending la lb : ascending la → ascending lb → ascending (merge_lists la lb).
Proof.
  unfold ascending. revert lb. induction la as [|[a x] la IH]; intros lb Ha Hb; [done|].
  induction lb as [|[b y] lb IHb]; [by rewrite merge_lists_nil_r|].
  rewrite merge_lists_cons. csimpl in *. apply StronglySorted_inv in Ha as [Ha Hxa]. apply StronglySorted_inv in Hb as [Hb Hyb].
  assert (∀ z l, (∀ w, w ∈ l.*2 → z < w) → Forall (Z.lt z) l.*2) as Hall by (intros z l H; by apply Forall_forall).
  rewrite Forall_forall in Hxa, Hyb.
  destruct (Z.leb_spec x y); [destruct (Z.ltb_spec x y)|].
  - csimpl. constructor; [apply IH; [done|by constructor; [|apply Forall_forall]]|]. apply Hall. intros w Hw.
    apply (merge_lists_derived la ((b, y) :: lb)) in Hw. rewrite fmap_app, elem_of_app in Hw. csimpl in Hw.
    destruct Hw as [Hw|[->|Hw]%elem_of_cons]; [by apply Hxa|done|]. specialize (Hyb w Hw). lia.
  - apply IH; [done|]. by constructor; [|apply Forall_forall].
  - csimpl. constructor; [by apply IHb|]. apply Hall. intros w Hw.
    apply (merge_lists_derived ((a, x) :: la) lb) in Hw. rewrite fmap_app, elem_of_app in Hw. csimpl in Hw.
    destruct Hw as [[->|Hw]%elem_of_cons|Hw]; [lia|specialize (Hxa w Hw); lia|by apply Hyb].
Qed.

(** *** In place *)

(** The list built so far: its last entry, whose link is not set yet, is the
    tail. *)
Definition tail_at h (head pTail : pointer) d : Prop :=
  match last d with
  | None => head = None ∧ pTail = None
  | Some (a, _) => pTail = Some a ∧ ∃ q, lseg h head d q
  end.

Lemma append_tail_spec h head pTail d p :
  tail_at h head pTail d → NoDup d.*1 →
  ∃ h' head', append_tail h head pTail p = Some (h', head') ∧ lseg h' head' d p ∧ same_outside h h' d.*1.
Proof.
  unfold tail_at. destruct d as [|n d _] using rev_ind; cbn [last].
  - intros [-> ->] _. by exists h, p.
  - rewrite last_snoc. destruct n as [a x]. intros (-> & q & Hq) Hnd.
    rewrite fmap_app in Hnd. apply NoDup_app in Hnd as (_ & Hd & _).
    destruct (lseg_set_last h head d a x q p Hq) as (h' & Hset & Hl & Hs).
    { intros Ha. apply (Hd a Ha). csimpl. set_solver. }
    cbn [append_tail]. rewrite Hset. cbn [mbind option_bind]. exists h', head. split; [done|]. split; [done|].
    eapply same_outside_mono; [done|]. intros b. rewrite fmap_app. csimpl. set_solver.
Qed.

(** Linking a whole list to the tail. *)
Lemma merge_finish h head pTail d p l :
  tail_at h head pTail d → lseg h p l None → NoDup (d ++ l).*1 →
  ∃ h' head', append_tail h head pTail p = Some (h', head') ∧ lseg h' head' (d ++ l) None ∧ same_outside h h' d.*1.
Proof.
  rewrite fmap_app. intros Ht Hl (Hd & Hdis & _)%NoDup_app.
  destruct (append_tail_spec h head pTail d p Ht Hd) as (h' & head' & -> & Hl' & Hs). exists h', head'.
  split; [done|]. split; [|done]. apply lseg_app. exists p. split; [done|].
  eapply lseg_outside; [done..|]. intros c Hc Hcd. by apply (Hdis c).
Qed.

(** Moving the first entry of one of two lists to the tail. *)
Lemma merge_step h head pTail d a x rest p l :
  tail_at h head pTail d → lseg h (Some a) ((a, x) :: rest) None → lseg h p l None →
  NoDup (d ++ ((a, x) :: rest) ++ l).*1 →
  ∃ h' head' next, append_tail h head pTail (Some a) = Some (h', head') ∧ get_right h' (Some a) = Some next ∧
    tail_at h' head' (Some a) (d ++ [(a, x)]) ∧ lseg h' next rest None ∧ lseg h' p l None ∧
    NoDup ((d ++ [(a, x)]) ++ rest ++ l).*1 ∧ same_outside h h' d.*1.
Proof.
  intros Ht (_ & left & next & Ha & Hrest) Hl Hnd. rewrite <-(app_assoc d).
  pose proof Hnd as Hnd'. rewrite fmap_app in Hnd'. apply NoDup_app in Hnd' as (Hd & Hdis & _).
  destruct (append_tail_spec h head pTail d (Some a) Ht Hd) as (h' & head' & -> & Hl' & Hs).
  assert (∀ c, c ∈ (((a, x) :: rest) ++ l).*1 → c ∉ d.*1) as Hother by (intros c Hc Hcd; by apply (Hdis c)).
  assert (h' !! a = Some (mkEntry (Some x) (Some next) left)) as Ha' by (rewrite Hs; [done|apply Hother; csimpl; set_solver]).
  exists h', head', next. unfold get_right. cbn [mbind option_bind]. rewrite Ha'. cbn [mbind option_bind pRight].
  split_and!; try done.
  - unfold tail_at. rewrite last_snoc. split; [done|]. exists next. apply lseg_app. exists (Some a). split; [done|].
    split; [done|]. by exists left, next.
  - eapply lseg_outside; [done..|]. intros c Hc. apply Hother. rewrite fmap_app. csimpl. set_solver.
  - eapply lseg_outside; [done..|]. intros c Hc. apply Hother. rewrite fmap_app. csimpl. set_solver.
Qed.

Lemma merge_loop_spec fuel h head pTail pA pB d la lb :
  tail_at h head pTail d → lseg h pA la None → lseg h pB lb None → la ≠ [] → lb ≠ [] →
  NoDup (d ++ la ++ lb).*1 → (length la + length lb < fuel)%nat →
  ∃ h' p, merge_loop fuel h head pTail pA pB = Some (h', p) ∧
    lseg h' p (d ++ merge_lists la lb) None ∧ same_outside h h' (d ++ la ++ lb).*1.
Proof.
  revert h head pTail pA pB d la lb. induction fuel as [|fuel IH]; intros h head pTail pA pB d la lb Ht Ha Hb Hna Hnb Hnd Hf; [lia|].
  destruct la as [|[a x] la]; [done|]. destruct lb as [|[b y] lb]; [done|]. clear Hna Hnb.
  pose proof Ha as (-> & lefta & nexta & Hea & Hla). pose proof Hb as (-> & leftb & nextb & Heb & Hlb).
  cbn [merge_loop]. unfold get_v. cbn [mbind option_bind]. rewrite Hea, Heb. cbn [mbind option_bind v].
  rewrite merge_lists_cons. cbn [length] in Hf.
  assert (∀ (l : list node) c n, d ++ n :: l = (d ++ [n]) ++ l ∧ (c ∈ (d ++ [n]).*1 ↔ c ∈ d.*1 ∨ c = n.1)) as Hsnoc.
  { intros l c n. rewrite <-app_assoc, fmap_app. csimpl. split; [done|]. set_solver. }
  destruct (Z.leb_spec x y); [destruct (Z.ltb_spec x y)|].
  - destruct (merge_step h head pTail d a x la (Some b) ((b, y) :: lb) Ht Ha Hb Hnd)
      as (h1 & head1 & next & -> & Hnext & Ht1 & Hla1 & Hb1 & Hnd1 & Hs1).
    cbn [mbind option_bind]. rewrite Hnext. cbn [mbind option_bind].
    rewrite (proj1 (Hsnoc _ a _)). destruct la as [|[a' x'] la]; [rewrite Hla1|pose proof Hla1 as (-> & _)].
    + destruct (merge_finish h1 head1 (Some a) _ (Some b) _ Ht1 Hb1 Hnd1) as (h2 & p & -> & Hl2 & Hs2).
      exists h2, p. split; [done|]. split; [done|]. eapply same_outside_mono; [by eapply same_outside_trans|].
      intros c. rewrite elem_of_app, (proj2 (Hsnoc [] c _)), !fmap_app. csimpl. clear. set_solver.
    + destruct (IH _ _ _ _ _ _ _ _ Ht1 Hla1 Hb1) as (h2 & p & -> & Hl2 & Hs2); [done|done|done|cbn [length] in *; lia|].
      exists h2, p. split; [done|]. split; [done|]. eapply same_outside_mono; [by eapply same_outside_trans|].
      intros c. rewrite !fmap_app. csimpl. clear. set_solver.
  - cbn [mbind option_bind]. unfold get_right. cbn [mbind option_bind]. rewrite Hea. cbn [mbind option_bind pRight].
    assert (NoDup (d ++ la ++ (b, y) :: lb).*1) as Hnd'.
    { revert Hnd. cbn [app]. rewrite <-Permutation_middle. csimpl. by intros [_ ?]%NoDup_cons. }
    destruct la as [|[a' x'] la]; [cbn [lseg] in Hla; subst nexta|pose proof Hla as (-> & _)].
    + destruct (merge_finish h head pTail _ (Some b) _ Ht Hb Hnd') as (h2 & p & -> & Hl2 & Hs2).
      exists h2, p. split; [done|]. split; [done|]. eapply same_outside_mono; [done|].
      intros c. rewrite !fmap_app. csimpl. clear. set_solver.
    + destruct (IH _ _ _ _ _ _ _ _ Ht Hla Hb) as (h2 & p & -> & Hl2 & Hs2); [done|done|done|cbn [length] in *; lia|].
      exists h2, p. split; [done|]. split; [done|]. eapply same_outside_mono; [done|].
      intros c. rewrite !fmap_app. csimpl. clear. set_solver.
  - rewrite (Permutation_app_comm ((a, x) :: la)) in Hnd.
    destruct (merge_step h head pTail d b y lb (Some a) ((a, x) :: la) Ht Hb Ha Hnd)
      as (h1 & head1 & next & -> & Hnext & Ht1 & Hlb1 & Ha1 & Hnd1 & Hs1).
    cbn [mbind option_bind]. rewrite Hnext. cbn [mbind option_bind].
    rewrite (proj1 (Hsnoc _ b _)). destruct lb as [|[b' y'] lb]; [rewrite Hlb1|pose proof Hlb1 as (-> & _)].
    + destruct (merge_finish h1 head1 (Some b) _ (Some a) _ Ht1 Ha1 Hnd1) as (h2 & p & -> & Hl2 & Hs2).
      exists h2, p. split; [done|]. split; [done|]. eapply same_outside_mono; [by eapply same_outside_trans|].
      intros c. rewrite elem_of_app, (proj2 (Hsnoc [] c _)), !fmap_app. csimpl. clear. set_solver.
    + rewrite (Permutation_app_comm _ ((a, x) :: la)) in Hnd1.
      destruct (IH _ _ _ _ _ _ _ _ Ht1 Ha1 Hlb1) as (h2 & p & -> & Hl2 & Hs2); [done|done|done|cbn [length] in *; lia|].
      exists h2, p. split; [done|]. split; [done|]. eapply same_outside_mono; [by eapply same_outside_trans|].
      intros c. rewrite !fmap_app. csimpl. clear. set_solver.
Qed.

Lemma rowSetEntryMerge_spec h pA pB la lb :
  lseg h pA la None → lseg h pB lb None → la ≠ [] → lb ≠ [] → NoDup (la ++ lb).*1 →
  ∃ h' p, rowSetEntryMerge h pA pB = Some (h', p) ∧ lseg h' p (merge_lists la lb) None ∧
    same_outside h h' (la ++ lb).*1.
Proof.
  intros Ha Hb Hna Hnb Hnd. apply (merge_loop_spec (2 * S (size h)) h None None pA pB [] la lb); try done.
  rewrite fmap_app in Hnd. apply NoDup_app in Hnd as (H1 & _ & H2).
  pose proof (lseg_size _ _ _ _ Ha H1). pose proof (lseg_size _ _ _ _ Hb H2). lia.
Qed.
End merge.

(** ** Sorting *)

Section sort.
Implicit Types (h : heap) (p q : pointer) (l : list node) (ls : list (list node)) (bs : list pointer).

(** Every bucket is a sorted list. *)
Definition buckets h bs ls : Prop := Forall2 (λ b l, lseg h b l None ∧ ascending l) bs ls.

(** The buckets that are taken, as the digits of a number. *)
Fixpoint bucket_count bs : Z :=
  match bs with
  | [] => 0
  | b :: bs => match b with Some _ => 1 | None => 0 end + 2 * bucket_count bs
  end.

Lemma bucket_count_bound bs : 0 ≤ bucket_count bs < 2 ^ Z.of_nat (length bs).
Proof.
  induction bs as [|b bs IH]; [done|]. cbn [bucket_count length]. rewrite Nat2Z.inj_succ, Z.pow_succ_r by lia.
  destruct b; lia.
Qed.

Lemma buckets_outside h h' bs ls (la : list addr) :
  buckets h bs ls → same_outside h h' la → (∀ a, a ∈ (concat ls).*1 → a ∉ la) → buckets h' bs ls.
Proof.
  intros Hb Hs. induction Hb as [|b l bs ls [Hl Hasc] _ IH]; intros Hd; [constructor|].
  cbn [concat] in Hd. rewrite fmap_app in Hd. constructor; [|apply IH; intros a Ha; apply Hd; set_solver].
  split; [|done]. eapply lseg_outside; [done..|]. intros a Ha. apply Hd. set_solver.
Qed.

Lemma merge_lists_not_nil la lb : la ≠ [] → lb ≠ [] → merge_lists la lb ≠ [].
Proof.
  intros Ha Hb E. destruct la as [|[a x] la]; [done|]. pose proof (merge_lists_derived ((a, x) :: la) lb) as [_ Hv].
  rewrite E in Hv. specialize (Hv x). rewrite fmap_app in Hv. csimpl in Hv. set_solver.
Qed.

(** What the heap is like after the nodes [l] have become [l']. *)
Definition rebuilt h h' l l' : Prop := derived l l' ∧ same_outside h h' l.*1.

Lemma bucket_insert_spec h bs ls pIn l :
  lseg h pIn l None → ascending l → l ≠ [] → buckets h bs ls → NoDup (l ++ concat ls).*1 →
  bucket_count bs + 1 < 2 ^ Z.of_nat (length bs) →
  ∃ h' bs' ls', bucket_insert h bs pIn = Some (h', bs') ∧ buckets h' bs' ls' ∧
    rebuilt h h' (l ++ concat ls) (concat ls') ∧ bucket_count bs' = bucket_count bs + 1 ∧ length bs' = length bs.
Proof.
  intros Hl Hasc Hne Hbs. revert pIn l h Hl Hasc Hne Hbs. revert ls.
  induction bs as [|b bs IH]; intros ls pIn l h Hl Hasc Hne Hbs Hnd Hc; [cbn in Hc; lia|].
  apply Forall2_cons_inv_l in Hbs as (l0 & ls0 & [Hl0 Hasc0] & Hbs & ->).
  cbn [bucket_insert bucket_count length concat] in *. destruct b as [b|].
  - assert (l0 ≠ []) as Hne0 by (intros ->; done).
    rewrite (app_assoc l), fmap_app in Hnd. apply NoDup_app in Hnd as (Hnd1 & Hdis & Hnd2).
    rewrite (Permutation_app_comm l) in Hnd1.
    destruct (rowSetEntryMerge_spec h (Some b) pIn l0 l Hl0 Hl Hne0 Hne Hnd1) as (h1 & p1 & -> & Hm & Hs1).
    cbn [mbind option_bind].
    assert (∀ a, a ∈ (concat ls0).*1 → a ∉ (l0 ++ l).*1) as Hother.
    { intros a Ha Hin. apply (Hdis a); [|done]. revert Hin. by rewrite (Permutation_app_comm l0). }
    destruct (IH ls0 p1 (merge_lists l0 l) h1) as (h2 & bs' & ls' & -> & Hbs' & [Hder Hs2] & Hcount & Hlen).
    + done.
    + by apply merge_lists_ascending.
    + by apply merge_lists_not_nil.
    + by eapply buckets_outside.
    + rewrite fmap_app. apply NoDup_app. split_and!; [by eapply derived_NoDup; [apply merge_lists_derived|]| |done].
      intros a Ha Hin. apply (Hother a Hin). eapply derived_addr; [apply merge_lists_derived|done].
    + rewrite Nat2Z.inj_succ, Z.pow_succ_r in Hc by lia. lia.
    + cbn [mbind option_bind]. exists h2, (None :: bs'), ([] :: ls'). cbn [bucket_count length concat app].
      split_and!; [done|constructor; [by split; [|constructor]|done]| |lia|lia].
      split.
      * eapply derived_trans; [|exact Hder]. rewrite app_assoc. apply derived_app; [|apply derived_refl].
        rewrite (Permutation_app_comm l). apply merge_lists_derived.
      * eapply same_outside_mono; [by eapply same_outside_trans|]. intros a. rewrite !elem_of_app, !fmap_app, !elem_of_app.
        intros [Ha|[Ha|Ha]]; [tauto| |tauto].
        apply (derived_addr _ _ _ (merge_lists_derived l0 l)) in Ha. rewrite fmap_app in Ha. set_solver.
  - destruct l0 as [|[a x] l0]; [|by destruct Hl0]. cbn [app].
    exists h, (pIn :: bs), (l :: ls0). cbn [bucket_count length concat].
    split_and!; [done|by constructor| |destruct l as [|[a x] l]; [done|destruct Hl as (-> & _); lia]|done].
    split; [apply derived_refl|done].
Qed.

Lemma sort_loop_spec fuel h bs ls p l :
  lseg h p l None → buckets h bs ls → NoDup (l ++ concat ls).*1 → (length l < fuel)%nat →
  bucket_count bs + Z.of_nat (length l) < 2 ^ Z.of_nat (length bs) →
  ∃ h' bs' ls', sort_loop fuel h bs p = Some (h', bs') ∧ buckets h' bs' ls' ∧
    rebuilt h h' (l ++ concat ls) (concat ls') ∧ length bs' = length bs.
Proof.
  revert h bs ls p l. induction fuel as [|fuel IH]; intros h bs ls p l Hl Hbs Hnd Hf Hc; [lia|].
  destruct l as [|[a x] l].
  - cbn [lseg] in Hl. subst p. exists h, bs, ls. split_and!; [done|done|split; [apply derived_refl|done]|done].
  - destruct Hl as (-> & left & next & Ha & Hl). cbn [sort_loop]. unfold get_right. cbn [mbind option_bind].
    rewrite Ha. cbn [mbind option_bind pRight]. unfold set_right. cbn [mbind option_bind]. rewrite Ha. cbn [mbind option_bind v pLeft].
    set (h1 := <[a := _]> h). pose proof Hnd as Hnd0. cbn [app] in Hnd0. csimpl in Hnd0.
    apply NoDup_cons in Hnd0 as [Hna Hnd0].
    assert (same_outside h h1 [a]) as Hs1 by (intros c Hc'; apply lookup_insert_ne; set_solver).
    assert (∀ c, c ∈ (l ++ concat ls).*1 → c ∉ [a]) as Hother by (intros c Hin; set_solver).
    assert (buckets h1 bs ls) as Hbs1.
    { eapply buckets_outside; [done..|]. intros c Hin. apply Hother. rewrite fmap_app. set_solver. }
    assert (lseg h1 next l None) as Hl1.
    { eapply lseg_outside; [done..|]. intros c Hin. apply Hother. rewrite fmap_app. set_solver. }
    destruct (bucket_insert_spec h1 bs ls (Some a) [(a, x)]) as (h2 & bs2 & ls2 & -> & Hbs2 & [Hder Hs2] & Hcount & Hlen).
    + split; [done|]. exists left, None. split; [apply lookup_insert_eq|done].
    + repeat constructor.
    + done.
    + done.
    + revert Hnd. cbn [app]. csimpl. rewrite !fmap_app. intros [? (_ & _ & ?)%NoDup_app]%NoDup_cons.
      constructor; [set_solver|done].
    + cbn [length] in Hc. lia.
    + cbn [mbind option_bind]. cbn [app] in Hder.
      destruct (IH h2 bs2 ls2 next l) as (h3 & bs3 & ls3 & -> & Hbs3 & [Hder3 Hs3] & Hlen3).
      * eapply lseg_outside; [exact Hl1|exact Hs2|]. intros c Hin. csimpl.
        apply not_elem_of_cons. split; [intros ->; apply Hna; rewrite fmap_app; set_solver|].
        rewrite fmap_app in Hnd0. apply NoDup_app in Hnd0 as (_ & Hdis & _). by apply Hdis.
      * done.
      * assert (derived ((a, x) :: l ++ concat ls) (l ++ concat ls2)) as Hd.
        { rewrite Permutation_middle. apply derived_app; [apply derived_refl|done]. }
        by apply (derived_NoDup _ _ Hd).
      * cbn [length] in Hf. lia.
      * rewrite Hcount, Hlen. cbn [length] in Hc. lia.
      * exists h3, bs3, ls3. split_and!; [done|done| |congruence]. split.
        -- cbn [app]. eapply derived_trans; [|exact Hder3]. rewrite Permutation_middle.
           apply derived_app; [apply derived_refl|done].
        -- eapply same_outside_mono; [eapply same_outside_trans; [exact Hs1|by eapply same_outside_trans]|].
           intros c. pose proof (derived_addr _ _ c Hder) as Hx. cbn [app]. csimpl in *. rewrite !fmap_app in *. clear -Hx. set_solver.
Qed.

Lemma collect_buckets_spec h bs ls p l :
  lseg h p l None → ascending l → buckets h bs ls → NoDup (l ++ concat ls).*1 →
  ∃ h' p' l', collect_buckets h bs p = Some (h', p') ∧ lseg h' p' l' None ∧ ascending l' ∧
    rebuilt h h' (l ++ concat ls) l'.
Proof.
  intros Hl Hasc Hbs. revert h p l ls Hl Hasc Hbs. induction bs as [|b bs IH]; intros h p l ls Hl Hasc Hbs Hnd.
  { apply Forall2_nil_inv_l in Hbs as ->. cbn [concat]. rewrite app_nil_r. exists h, p, l.
    split_and!; [done..|split; [apply derived_refl|done]]. }
  apply Forall2_cons_inv_l in Hbs as (l0 & ls0 & [Hl0 Hasc0] & Hbs & ->). cbn [concat collect_buckets] in *.
  destruct b as [b|]; [|destruct l0 as [|[? ?] ?]; [by apply IH|by destruct Hl0]].
  destruct p as [p|].
  2:{ destruct l as [|[? ?] ?]; [|by destruct Hl]. cbn [app] in *. by apply IH. }
  assert (l ≠ [] ∧ l0 ≠ []) as [Hne Hne0] by (split; intros ->; done).
  rewrite (app_assoc l), fmap_app in Hnd. apply NoDup_app in Hnd as (Hnd1 & Hdis & Hnd2).
  destruct (rowSetEntryMerge_spec h (Some p) (Some b) l l0 Hl Hl0 Hne Hne0 Hnd1) as (h1 & p1 & -> & Hm & Hs1).
  cbn [mbind option_bind].
  destruct (IH h1 p1 (merge_lists l l0) ls0) as (h2 & p2 & l2 & -> & Hl2 & Hasc2 & [Hder Hs2]).
  - done.
  - by apply merge_lists_ascending.
  - eapply buckets_outside; [done..|]. intros a Ha Hin. by apply (Hdis a).
  - rewrite fmap_app. apply NoDup_app. split_and!; [by eapply derived_NoDup; [apply merge_lists_derived|]| |done].
    intros a Ha Hin. apply (Hdis a); [|done]. eapply derived_addr; [apply merge_lists_derived|done].
  - exists h2, p2, l2. split_and!; [done..|]. split.
    + eapply derived_trans; [|exact Hder]. rewrite app_assoc. apply derived_app; [apply merge_lists_derived|apply derived_refl].
    + eapply same_outside_mono; [by eapply same_outside_trans|]. intros a. rewrite !elem_of_app, !fmap_app, !elem_of_app.
      intros [Ha|[Ha|Ha]]; [tauto| |tauto].
      apply (derived_addr _ _ _ (merge_lists_derived l l0)) in Ha. rewrite fmap_app in Ha. set_solver.
Qed.

Lemma rowSetEntrySort_spec h p l :
  lseg h p l None → NoDup l.*1 → Z.of_nat (length l) < 2 ^ 40 →
  ∃ h' p' l', rowSetEntrySort h p = Some (h', p') ∧ lseg h' p' l' None ∧ ascending l' ∧ rebuilt h h' l l'.
Proof.
  intros Hl Hnd Hlen. unfold rowSetEntrySort.
  destruct (sort_loop_spec (S (size h)) h (replicate 40 None) (replicate 40 []) p l) as (h1 & bs & ls & -> & Hbs & [Hder Hs] & Hl40).
  - done.
  - unfold buckets. apply Forall2_replicate. by split; [|constructor].
  - change (concat (replicate 40 [])) with (@nil node). by rewrite app_nil_r.
  - pose proof (lseg_size _ _ _ _ Hl Hnd). lia.
  - rewrite length_replicate. change (bucket_count (replicate 40 None)) with 0. lia.
  - cbn [mbind option_bind]. change (concat (replicate 40 [])) with (@nil node) in *. rewrite app_nil_r in *.
    rewrite length_replicate in Hl40. destruct bs as [|b bs]; [done|].
    apply Forall2_cons_inv_l in Hbs as (l0 & ls0 & [Hl0 Hasc0] & Hbs & ->). cbn [concat] in *.
    destruct (collect_buckets_spec h1 bs ls0 b l0 Hl0 Hasc0 Hbs) as (h2 & p2 & l2 & -> & Hl2 & Hasc2 & [Hder2 Hs2]).
    { by eapply derived_NoDup. }
    exists h2, p2, l2. split_and!; [done..|]. split; [by eapply derived_trans|].
    eapply same_outside_mono; [by eapply same_outside_trans|]. intros a. rewrite elem_of_app.
    intros [Ha|Ha]; [done|]. by apply (derived_addr _ _ _ Hder).
Qed.
End sort.
