(* ===== verification/RowSetTrees.v ===== *)
(** * RowSet: trees and the forest

    The conversions between sorted lists and balanced trees, and the list of
    trees that tests search. *)
From S2P Require Import Prelude RowSet RowSetLists.
From stdpp Require Import gmap sorting.
Local Open Scope Z_scope.

Inductive tree :=
  | Leaf
  | Node (l : tree) (a : addr) (x : Z) (r : tree).

Fixpoint inorder (t : tree) : list node :=
  match t with
  | Leaf => []
  | Node l a x r => inorder l ++ (a, x) :: inorder r
  end.

Section trees.
Implicit Types (h : heap) (p q : pointer) (l : list node) (a : addr) (t : tree).

Fixpoint is_tree h p t : Prop :=
  match t with
  | Leaf => p = None
  | Node l a x r =>
    p = Some a ∧ ∃ pl pr, h !! a = Some (mkEntry (Some x) (Some pr) (Some pl)) ∧ is_tree h pl l ∧ is_tree h pr r
  end.

Lemma is_tree_frame h h' p t : is_tree h p t → (∀ a, a ∈ (inorder t).*1 → h' !! a = h !! a) → is_tree h' p t.
Proof.
  revert p. induction t as [|l IHl a x r IHr]; intros p; [done|]. cbn [inorder is_tree].
  intros (-> & pl & pr & Ha & Hl & Hr) Hsame. rewrite fmap_app in Hsame. csimpl in Hsame.
  split; [done|]. exists pl, pr. rewrite Hsame by set_solver.
  split; [done|]. split; [apply IHl|apply IHr]; try done; intros b Hb; apply Hsame; set_solver.
Qed.

Lemma is_tree_outside h h' (la : list addr) p t :
  is_tree h p t → same_outside h h' la → (∀ a, a ∈ (inorder t).*1 → a ∉ la) → is_tree h' p t.
Proof. intros Ht Hs Hd. apply (is_tree_frame h); [done|]. intros a Ha. by apply Hs, Hd. Qed.

Lemma is_tree_dom h p t a : is_tree h p t → a ∈ (inorder t).*1 → is_Some (h !! a).
Proof.
  revert p. induction t as [|l IHl b x r IHr]; intros p; cbn [inorder is_tree]; [set_solver|].
  intros (-> & pl & pr & Hb & Hl & Hr). rewrite fmap_app. csimpl. rewrite elem_of_app, elem_of_cons.
  intros [Ha|[->|Ha]]; [by eapply IHl|by eexists|by eapply IHr].
Qed.

Lemma is_tree_size h p t : is_tree h p t → NoDup (inorder t).*1 → (length (inorder t) ≤ size h)%nat.
Proof.
  intros Ht Hnd. rewrite <-(length_fmap fst). apply NoDup_size; [done|]. intros a Ha. by eapply is_tree_dom.
Qed.

Lemma is_tree_null h p t : is_tree h p t → p = None ↔ t = Leaf.
Proof. destruct t; [done|]. by intros (-> & _). Qed.

(** The disjointness of the parts of a tree. *)
Lemma NoDup_node (tl tr : tree) a x (la lr : list node) :
  la = inorder tl → lr = inorder tr → NoDup (inorder (Node tl a x tr)).*1 →
  NoDup la.*1 ∧ NoDup lr.*1 ∧ a ∉ la.*1 ∧ a ∉ lr.*1 ∧ ∀ b, b ∈ la.*1 → b ∉ lr.*1.
Proof.
  intros -> ->. cbn [inorder]. rewrite fmap_app. csimpl. intros (Hl & Hd & [Ha Hr]%NoDup_cons)%NoDup_app.
  split_and!; [done|done| |done|].
  - intros Hin. apply (Hd a Hin), elem_of_cons. by left.
  - intros b Hb Hb'. apply (Hd b Hb), elem_of_cons. by right.
Qed.

(** ** Searching *)

Lemma tree_search_spec fuel h p t x :
  is_tree h p t → ascending (inorder t) → (length (inorder t) < fuel)%nat →
  tree_search fuel h p x = Some (bool_decide (x ∈ (inorder t).*2)).
Proof.
  revert p t. induction fuel as [|fuel IH]; intros p t Ht Hasc Hf; [lia|]. destruct t as [|l a y r]; cbn [tree_search].
  - cbn [is_tree] in Ht. by subst p.
  - destruct Ht as (-> & pl & pr & Ha & Hl & Hr). unfold get_v, get_right, get_left. cbn [mbind option_bind]. rewrite Ha.
    cbn [mbind option_bind v pRight pLeft]. unfold ascending in Hasc. cbn [inorder] in *.
    rewrite length_app in Hf. cbn [length] in Hf. rewrite fmap_app in Hasc |- *. csimpl in *.
    apply StronglySorted_app in Hasc as (Hlr & Hal & Har). apply StronglySorted_inv in Har as [Har Hyr].
    rewrite Forall_forall in Hyr.
    assert (∀ z, z ∈ (inorder l).*2 → z < y) as Hly by (intros z Hz; apply (Hlr z y Hz); set_solver).
    destruct (Z.ltb_spec y x); [|destruct (Z.ltb_spec x y)].
    + rewrite (IH pr r) by (done || lia). f_equal. apply bool_decide_ext. split; [set_solver|].
      rewrite elem_of_app, elem_of_cons. intros [Hx|[->|Hx]]; [specialize (Hly x Hx); lia|lia|done].
    + rewrite (IH pl l) by (done || lia). f_equal. apply bool_decide_ext. split; [set_solver|].
      rewrite elem_of_app, elem_of_cons. intros [Hx|[->|Hx]]; [done|lia|specialize (Hyr x Hx); lia].
    + rewrite bool_decide_true; [done|]. assert (x = y) as -> by lia. set_solver.
Qed.

(** ** From a tree to a list *)

Lemma tree_to_list_spec fuel h p t :
  is_tree h p t → t ≠ Leaf → NoDup (inorder t).*1 → (length (inorder t) ≤ fuel)%nat →
  ∃ h' first l b y, tree_to_list fuel h p = Some (h', first, Some b) ∧
    lseg h' first (inorder t) None ∧ inorder t = l ++ [(b, y)] ∧ same_outside h h' (inorder t).*1.
Proof.
  revert fuel h p. induction t as [|l IHl a x r IHr]; intros fuel h p Ht Hne Hnd Hf; [done|]. clear Hne.
  destruct (NoDup_node l r a x _ _ eq_refl eq_refl Hnd) as (Hndl & Hndr & Hal & Har & Hlr).
  destruct Ht as (-> & pl & pr & Ha & Hl & Hr). cbn [inorder] in *. rewrite length_app in Hf. cbn [length] in Hf.
  destruct fuel as [|fuel]; [lia|]. cbn [tree_to_list]. unfold get_left. cbn [mbind option_bind]. rewrite Ha.
  cbn [mbind option_bind pLeft].
  assert (∃ h1 first, match pl with
      | Some _ => '(h, first, p) ← tree_to_list fuel h pl; h ← set_right h p (Some a); Some (h, first)
      | None => Some (h, Some a) end = Some (h1, first) ∧
      lseg h1 first (inorder l) (Some a) ∧ same_outside h h1 (inorder l).*1) as (h1 & first & -> & Hl1 & Hs1).
  { destruct pl as [pl|].
    - assert (l ≠ Leaf) as Hlne by (intros ->; done).
      destruct (IHl fuel h (Some pl) Hl Hlne Hndl ltac:(lia)) as (h1 & first & l0 & b & y & -> & Hseg & E & Hs).
      cbn [mbind option_bind]. rewrite E in Hseg, Hndl |- *.
      assert (b ∉ l0.*1) as Hb.
      { rewrite fmap_app in Hndl. apply NoDup_app in Hndl as (_ & Hd & _). intros Hb. apply (Hd b Hb). csimpl. set_solver. }
      destruct (lseg_set_last h1 first l0 b y None (Some a) Hseg Hb) as (h2 & -> & Hseg2 & Hs2).
      cbn [mbind option_bind]. exists h2, first. split; [done|]. split; [done|]. rewrite E in Hs.
      eapply same_outside_mono; [by eapply same_outside_trans|]. intros c. rewrite fmap_app. csimpl. clear. set_solver.
    - assert (l = Leaf) as -> by (by apply (is_tree_null h None l)). by exists h, (Some a). }
  cbn [mbind option_bind]. unfold get_right. cbn [mbind option_bind].
  assert (h1 !! a = Some (mkEntry (Some x) (Some pr) (Some pl))) as Ha1 by (by rewrite Hs1).
  rewrite Ha1. cbn [mbind option_bind pRight].
  assert (is_tree h1 pr r) as Hr1.
  { eapply is_tree_outside; [done..|]. intros b Hb Hbl. by apply (Hlr b). }
  destruct pr as [pr|].
  - assert (r ≠ Leaf) as Hrne by (intros ->; done).
    destruct (IHr fuel h1 (Some pr) Hr1 Hrne Hndr ltac:(lia)) as (h2 & first' & l0 & b & y & -> & Hseg & E & Hs2).
    cbn [mbind option_bind].
    assert (lseg h2 first (inorder l ++ [(a, x)]) (Some pr)) as Hseg2.
    { apply lseg_app. exists (Some a). split; [by eapply lseg_outside|]. split; [done|].
      exists (Some pl), (Some pr). by rewrite Hs2. }
    destruct (lseg_set_last h2 first (inorder l) a x _ first' Hseg2 Hal) as (h3 & -> & Hseg3 & Hs3).
    cbn [mbind option_bind]. exists h3, first, (inorder l ++ (a, x) :: l0), b, y. split; [done|]. split; [|split].
    + change (inorder l ++ (a, x) :: inorder r) with (inorder l ++ [(a, x)] ++ inorder r). rewrite app_assoc. apply lseg_app.
      exists first'. split; [done|]. eapply lseg_outside; [exact Hseg|exact Hs3|]. intros c Hc. set_solver.
    + rewrite E, <-app_assoc. done.
    + eapply same_outside_mono; [eapply same_outside_trans; [exact Hs1|eapply same_outside_trans; [exact Hs2|exact Hs3]]|].
      intros c. rewrite !fmap_app. csimpl. clear. set_solver.
  - assert (r = Leaf) as -> by (by apply (is_tree_null h1 None r)). cbn [inorder].
    exists h1, first, (inorder l), a, x. split; [done|]. split; [|split; [done|]].
    + apply lseg_app. exists (Some a). split; [done|]. split; [done|]. by exists (Some pl), None.
    + eapply same_outside_mono; [done|]. intros c. rewrite fmap_app. clear. set_solver.
Qed.

Lemma rowSetTreeToList_spec h p t :
  is_tree h p t → t ≠ Leaf → NoDup (inorder t).*1 →
  ∃ h' first last, rowSetTreeToList h p = Some (h', first, last) ∧ lseg h' first (inorder t) None ∧
    same_outside h h' (inorder t).*1.
Proof.
  intros Ht Hne Hnd. pose proof (is_tree_size _ _ _ Ht Hnd).
  destruct (tree_to_list_spec (S (size h)) h p t Ht Hne Hnd) as (h' & first & l & b & y & E & Hl & _ & Hs); [lia|].
  by exists h', first, (Some b).
Qed.

(** ** From a list to a tree *)

Lemma set_left_eq h a e q : h !! a = Some e → set_left h (Some a) q = Some (<[a := mkEntry (v e) (pRight e) (Some q)]> h).
Proof. intros Ha. unfold set_left. cbn [mbind option_bind]. by rewrite Ha. Qed.

Lemma set_right_eq h a e q : h !! a = Some e → set_right h (Some a) q = Some (<[a := mkEntry (v e) (Some q) (pLeft e)]> h).
Proof. intros Ha. unfold set_right. cbn [mbind option_bind]. by rewrite Ha. Qed.

Lemma insert_outside h a e : same_outside h (<[a := e]> h) [a].
Proof. intros b Hb. apply lookup_insert_ne. set_solver. Qed.

(** What is taken from the list [l]: the entries of a tree. *)
Definition took h l h' p t q l' : Prop :=
  is_tree h' p t ∧ lseg h' q l' None ∧ l = inorder t ++ l' ∧ same_outside h h' (inorder t).*1.

(** A field is read before or after the other one is written. *)
Lemma get_right_set_left {A} h a e q (k : pointer → heap → option A) :
  h !! a = Some e →
  (next ← get_right h (Some a); h ← set_left h (Some a) q; k next h) =
  (h ← set_left h (Some a) q; next ← get_right h (Some a); k next h).
Proof.
  intros Ha. rewrite (set_left_eq _ _ _ _ Ha). unfold get_right. cbn [mbind option_bind].
  rewrite lookup_insert_eq, Ha. cbn [mbind option_bind pRight]. by destruct (pRight e).
Qed.

(** A tree of the entry at the front, with a given left subtree and what is
    taken next as right subtree. *)
Lemma took_node h p t a x l depth :
  is_tree h p t → lseg h (Some a) ((a, x) :: l) None → NoDup (inorder t ++ (a, x) :: l).*1 →
  (∀ h p, lseg h p l None → NoDup l.*1 → ∃ h' r q t' l', rowSetNDeepTree h p depth = Some (h', r, q) ∧ took h l h' r t' q l') →
  ∃ h' q t' l', (pList ← get_right h (Some a);
      h ← set_left h (Some a) p;
      '(h, r, pList) ← rowSetNDeepTree h pList depth;
      h ← set_right h (Some a) r;
      Some (h, Some a, pList)) = Some (h', Some a, q) ∧
    is_tree h' (Some a) (Node t a x t') ∧ lseg h' q l' None ∧ l = inorder t' ++ l' ∧
    same_outside h h' (inorder t ++ (a, x) :: inorder t').*1.
Proof.
  intros Ht (_ & left & next & Ha & Hl) Hnd Hrec. rewrite fmap_app in Hnd. csimpl in Hnd.
  apply NoDup_app in Hnd as (Hndt & Hdis & [Hal Hndl]%NoDup_cons).
  assert (a ∉ (inorder t).*1) as Hat by (intros Hin; apply (Hdis a Hin); set_solver).
  unfold get_right. cbn [mbind option_bind]. rewrite Ha. cbn [mbind option_bind pRight].
  rewrite (set_left_eq _ _ _ _ Ha). cbn [mbind option_bind v pRight]. set (h1 := <[a := _]> h).
  assert (same_outside h h1 [a]) as Hs1 by apply insert_outside.
  destruct (Hrec h1 next) as (h2 & r & q & t' & l' & -> & Ht' & Hl' & E & Hs2); [|done|].
  { eapply lseg_outside; [done..|]. intros b Hb. set_solver. }
  cbn [mbind option_bind]. rewrite E in Hndl, Hal, Hdis. rewrite fmap_app in Hndl, Hal, Hdis.
  apply NoDup_app in Hndl as (Hndt' & Hdis' & _).
  assert (h2 !! a = Some (mkEntry (Some x) (Some next) (Some p))) as Ha2.
  { rewrite Hs2 by set_solver. apply lookup_insert_eq. }
  rewrite (set_right_eq _ _ _ _ Ha2). cbn [mbind option_bind v pLeft]. set (h3 := <[a := _]> h2).
  assert (same_outside h2 h3 [a]) as Hs3 by apply insert_outside.
  exists h3, q, t', l'. split; [done|]. split; [|split; [|split; [done|]]].
  - split; [done|]. exists p, r. split; [apply lookup_insert_eq|]. split.
    + apply (is_tree_frame h); [done|]. intros b Hb. assert (b ≠ a) by (intros ->; done).
      rewrite Hs3, Hs2, Hs1; [done|set_solver| |set_solver]. intros Hb'. apply (Hdis b Hb). set_solver.
    + eapply is_tree_outside; [exact Ht'|exact Hs3|]. intros b Hb. set_solver.
  - eapply lseg_outside; [exact Hl'|exact Hs3|]. intros b Hb. set_solver.
  - eapply same_outside_mono; [eapply same_outside_trans; [exact Hs1|eapply same_outside_trans; [exact Hs2|exact Hs3]]|].
    intros c. rewrite !fmap_app. csimpl. clear. set_solver.
Qed.

Lemma rowSetNDeepTree_spec depth h p l :
  lseg h p l None → NoDup l.*1 →
  ∃ h' r q t l', rowSetNDeepTree h p depth = Some (h', r, q) ∧ took h l h' r t q l'.
Proof.
  revert h p l. induction depth as [|depth IH]; intros h p l Hl Hnd.
  all: destruct l as [|[a x] l];
    [cbn [lseg] in Hl; subst p; exists h, None, None, Leaf, []; split; [by try destruct depth|by split_and!]|].
  all: assert (rowSetNDeepTree h p 0 = Some (<[a := mkEntry (Some x) (Some None) (Some None)]> h, Some a,
      default None (get_right h p))) as Hone by
    (destruct Hl as (-> & left & next & Ha & Hl); cbn [rowSetNDeepTree]; unfold get_right; cbn [mbind option_bind];
     rewrite Ha; cbn [mbind option_bind pRight default]; rewrite (set_right_eq _ _ _ _ Ha); cbn [mbind option_bind];
     rewrite (set_left_eq _ _ _ _ (lookup_insert_eq _ _ _)); cbn [mbind option_bind v pRight pLeft];
     by rewrite insert_insert_eq).
  all: assert (took h ((a, x) :: l) (<[a := mkEntry (Some x) (Some None) (Some None)]> h) (Some a) (Node Leaf a x Leaf)
      (default None (get_right h p)) l) as Htook by
    (destruct Hl as (-> & left & next & Ha & Hl); unfold get_right; cbn [mbind option_bind]; rewrite Ha;
     cbn [mbind option_bind pRight default]; csimpl in Hnd; apply NoDup_cons in Hnd as [Hal _];
     split_and!; [split; [done|]; exists None, None; split; [apply lookup_insert_eq|done]
       |eapply lseg_outside; [done|apply insert_outside|set_solver]|done|apply insert_outside]).
  - eexists _, _, _, _, _. split; [exact Hone|exact Htook].
  - destruct depth as [|depth]; [eexists _, _, _, _, _; split; [|exact Htook]; destruct p; exact Hone|].
    destruct (IH h p ((a, x) :: l) Hl Hnd) as (h1 & pl & q & t & l1 & E1 & Ht & Hq & El & Hs1).
    change (rowSetNDeepTree h p (S (S depth))) with (match p with
       | None => Some (h, None, None)
       | Some _ => '(h, pLeft, pList) ← rowSetNDeepTree h p (S depth);
         match pList with
         | None => Some (h, pLeft, None)
         | Some _ =>
           h ← set_left h pList pLeft;
           next ← get_right h pList;
           '(h, r, rest) ← rowSetNDeepTree h next (S depth);
           h ← set_right h pList r;
           Some (h, pList, rest)
         end
       end).
    clear Hone Htook. destruct p as [p|]; [|by destruct Hl]. rewrite E1. cbn [mbind option_bind].
    destruct l1 as [|[b y] l1].
    { cbn [lseg] in Hq. subst q. exists h1, pl, None, t, []. split; [done|]. by split_and!. }
    rewrite El in Hnd. destruct Hq as (-> & left & next & Hb & Hq).
    assert (lseg h1 (Some b) ((b, y) :: l1) None) as Hseg by (split; [done|]; by exists left, next).
    destruct (took_node h1 pl t b y l1 (S depth) Ht Hseg Hnd (λ h p, IH h p l1)) as (h2 & q & t' & l' & E2 & Ht' & Hq' & E' & Hs').
    rewrite (get_right_set_left _ _ _ _ _ Hb) in E2. rewrite E2.
    exists h2, (Some b), q, (Node t b y t'), l'. split; [done|]. split; [done|]. split; [done|].
    cbn [inorder]. rewrite El, E', <-app_assoc. split; [done|].
    eapply same_outside_mono; [by eapply same_outside_trans|]. intros c. rewrite !fmap_app. clear. set_solver.
Qed.

Lemma list_to_tree_loop_spec fuel h p t q l depth :
  is_tree h p t → lseg h q l None → NoDup (inorder t ++ l).*1 → (length l < fuel)%nat →
  ∃ h' r t', list_to_tree_loop fuel h p q depth = Some (h', r) ∧ is_tree h' r t' ∧ inorder t' = inorder t ++ l ∧
    same_outside h h' (inorder t ++ l).*1.
Proof.
  revert h p t q l depth. induction fuel as [|fuel IH]; intros h p t q l depth Ht Hl Hnd Hf; [lia|].
  cbn [list_to_tree_loop]. destruct l as [|[a x] l].
  { cbn [lseg] in Hl. subst q. exists h, p, t. by rewrite app_nil_r. }
  destruct (took_node h p t a x l depth) as (h1 & q1 & t1 & l1 & E & Ht1 & Hl1 & -> & Hs1);
    [done|by destruct Hl as (-> & Hl)|done|by intros; apply rowSetNDeepTree_spec|].
  destruct Hl as (-> & left & next & Ha & Hl). unfold get_right in E |- *. cbn [mbind option_bind] in E |- *.
  rewrite Ha in E |- *. cbn [mbind option_bind pRight] in E |- *.
  destruct (set_left h (Some a) p) as [h2|]; [|done]. cbn [mbind option_bind] in E |- *.
  destruct (rowSetNDeepTree h2 next depth) as [[[h3 r] rest]|]; [|done]. cbn [mbind option_bind] in E |- *.
  destruct (set_right h3 (Some a) r) as [h4|]; [|done]. cbn [mbind option_bind] in E |- *.
  injection E as -> ->.
  assert (inorder t ++ (a, x) :: inorder t1 ++ l1 = inorder (Node t a x t1) ++ l1) as El
    by (cbn [inorder]; by rewrite <-app_assoc).
  rewrite El in Hnd |- *. cbn [length] in Hf. rewrite length_app in Hf.
  destruct (IH h1 (Some a) (Node t a x t1) q1 l1 (S depth) Ht1 Hl1 Hnd) as (h5 & r' & t' & -> & Ht' & E' & Hs'); [lia|].
  exists h5, r', t'. split; [done|]. split; [done|]. split; [done|].
  eapply same_outside_mono; [by eapply same_outside_trans|]. intros c. cbn [inorder]. rewrite !fmap_app. clear. set_solver.
Qed.

Lemma rowSetListToTree_spec h p l :
  lseg h p l None → l ≠ [] → NoDup l.*1 →
  ∃ h' r t, rowSetListToTree h p = Some (h', r) ∧ is_tree h' r t ∧ inorder t = l ∧ same_outside h h' l.*1.
Proof.
  intros Hl Hne Hnd. destruct l as [|[a x] l]; [done|]. destruct Hl as (-> & left & next & Ha & Hl). csimpl in Hnd.
  pose proof Hnd as [Hal Hndl]%NoDup_cons. unfold rowSetListToTree, get_right. cbn [mbind option_bind].
  rewrite Ha. cbn [mbind option_bind pRight]. rewrite (set_right_eq _ _ _ _ Ha). cbn [mbind option_bind v pLeft].
  rewrite (set_left_eq _ _ _ _ (lookup_insert_eq _ _ _)). cbn [mbind option_bind v pRight]. rewrite insert_insert_eq.
  set (h1 := <[a := _]> h). assert (same_outside h h1 [a]) as Hs1 by apply insert_outside.
  assert (lseg h1 next l None) as Hl1 by (eapply lseg_outside; [done..|set_solver]).
  destruct (list_to_tree_loop_spec (S (size h1)) h1 (Some a) (Node Leaf a x Leaf) next l 1) as (h2 & r & t & -> & Ht & E & Hs2).
  - split; [done|]. exists None, None. split; [apply lookup_insert_eq|done].
  - done.
  - done.
  - pose proof (lseg_size _ _ _ _ Hl1 Hndl). lia.
  - exists h2, r, t. split; [done|]. split; [done|]. split; [done|].
    eapply same_outside_mono; [by eapply same_outside_trans|]. intros c. cbn [inorder]. rewrite !fmap_app. csimpl. clear. set_solver.
Qed.
End trees.


(** The entries of all trees, in the order of the forest. *)
Fixpoint nodes (f : list (addr * tree)) : list node :=
  match f with
  | [] => []
  | (_, t) :: f => inorder t ++ nodes f
  end.

Section forest.
Implicit Types (h : heap) (p q : pointer) (a : addr) (l : list node) (f : list (addr * tree)).

(** A chain of roots, each with its tree, up to the pointer [q]. *)
Fixpoint is_forest h p f q : Prop :=
  match f with
  | [] => p = q
  | (a, t) :: f =>
    p = Some a ∧
    ∃ x next pl, h !! a = Some (mkEntry x (Some next) (Some pl)) ∧ is_tree h pl t ∧ is_forest h next f q
  end.

Definition all_ascending f : Prop := Forall (λ e, ascending (inorder e.2)) f.

(** The addresses that a forest owns. *)
Definition owned f : list addr := f.*1 ++ (nodes f).*1.

Lemma is_forest_frame h h' p f q : is_forest h p f q → (∀ a, a ∈ owned f → h' !! a = h !! a) → is_forest h' p f q.
Proof.
  unfold owned. revert p. induction f as [|[a t] f IH]; intros p; [done|]. cbn [is_forest nodes].
  intros (-> & x & next & pl & Ha & Ht & Hf) Hsame. rewrite fmap_app in Hsame. csimpl in Hsame.
  split; [done|]. exists x, next, pl. rewrite Hsame by set_solver. split; [done|]. split.
  - eapply is_tree_frame; [done|]. intros b Hb. apply Hsame. set_solver.
  - apply IH; [done|]. intros b Hb. apply Hsame. set_solver.
Qed.

Lemma is_forest_outside h h' (la : list addr) p f q :
  is_forest h p f q → same_outside h h' la → (∀ a, a ∈ owned f → a ∉ la) → is_forest h' p f q.
Proof. intros Hf Hs Hd. apply (is_forest_frame h); [done|]. intros a Ha. by apply Hs, Hd. Qed.

Lemma is_forest_dom h p f q a : is_forest h p f q → a ∈ owned f → is_Some (h !! a).
Proof.
  unfold owned. revert p. induction f as [|[b t] f IH]; intros p; [by intros _ []%elem_of_nil|]. cbn [is_forest nodes].
  intros (-> & x & next & pl & Hb & Ht & Hf) Ha. rewrite fmap_app in Ha. csimpl in Ha.
  apply elem_of_cons in Ha as [->|Ha]; [by eexists|]. rewrite !elem_of_app in Ha. destruct Ha as [Ha|[Ha|Ha]].
  - eapply IH; [done|]. set_solver.
  - by eapply is_tree_dom.
  - eapply IH; [done|]. set_solver.
Qed.

Lemma nodes_app f1 f2 : nodes (f1 ++ f2) = nodes f1 ++ nodes f2.
Proof. induction f1 as [|[a t] f1 IH]; [done|]. cbn [app nodes]. by rewrite IH, app_assoc. Qed.

Lemma is_forest_app h p f1 f2 q : is_forest h p (f1 ++ f2) q ↔ ∃ m, is_forest h p f1 m ∧ is_forest h m f2 q.
Proof.
  revert p. induction f1 as [|[a t] f1 IH]; intros p; cbn [app is_forest].
  - split; [by exists p|by intros (m & -> & ?)].
  - setoid_rewrite IH. split.
    + intros (-> & x & next & pl & Ha & Ht & m & ? & ?). exists m. split; [|done]. split; [done|]. by exists x, next, pl.
    + intros (m & (-> & x & next & pl & Ha & Ht & ?) & ?). split; [done|]. exists x, next, pl. split_and!; [done..|]. by exists m.
Qed.

Lemma is_forest_length h p f q : is_forest h p f q → NoDup f.*1 → (length f ≤ size h)%nat.
Proof.
  intros Hf Hnd. rewrite <-(length_fmap fst). apply NoDup_size; [done|]. intros a Ha.
  eapply is_forest_dom; [done|]. unfold owned. set_solver.
Qed.

(** Redirecting the last root. *)
Lemma is_forest_set_last h p f a t q q' :
  is_forest h p (f ++ [(a, t)]) q → a ∉ owned f → a ∉ (inorder t).*1 →
  ∃ h', set_right h (Some a) q' = Some h' ∧ is_forest h' p (f ++ [(a, t)]) q' ∧ same_outside h h' [a].
Proof.
  intros (m & Hf & (-> & x & next & pl & Ha & Ht & _))%is_forest_app Hnf Hnt. rewrite (set_right_eq _ _ _ _ Ha).
  cbn [v pLeft]. eexists. split; [done|].
  assert (same_outside h (<[a:=mkEntry x (Some q') (Some pl)]> h) [a]) as Hs by apply insert_outside.
  split; [|done]. apply is_forest_app. exists (Some a). split.
  - eapply is_forest_outside; [done..|]. intros b Hb. clear -Hb Hnf. set_solver.
  - split; [done|]. exists x, q', pl. split; [apply lookup_insert_eq|]. split; [|done].
    eapply is_tree_outside; [done..|]. intros b Hb. clear -Hb Hnt. set_solver.
Qed.

(** ** Searching *)

Lemma forest_search_spec fuel h p f x :
  is_forest h p f None → all_ascending f → (length f < fuel)%nat → NoDup (nodes f).*1 →
  forest_search fuel h p x = Some (bool_decide (x ∈ (nodes f).*2)).
Proof.
  intros Hf Hasc. revert fuel p Hf. induction Hasc as [|[a t] f Hat _ IH]; intros fuel p Hf Hlen Hnd;
    (destruct fuel as [|fuel]; [cbn [length] in Hlen; lia|]); cbn [forest_search].
  { cbn [is_forest] in Hf. by subst p. }
  destruct Hf as (-> & y & next & pl & Ha & Ht & Hf). cbn [nodes snd length] in *. rewrite fmap_app in Hnd. rewrite fmap_app.
  apply NoDup_app in Hnd as (Hndt & _ & Hndf).
  unfold get_left, get_right. cbn [mbind option_bind]. rewrite Ha. cbn [mbind option_bind pLeft pRight].
  rewrite (tree_search_spec _ h pl t x Ht Hat).
  2:{ pose proof (is_tree_size _ _ _ Ht Hndt). lia. }
  cbn [mbind option_bind]. destruct (decide (x ∈ (inorder t).*2)) as [Hx|Hx].
  - rewrite !bool_decide_true by set_solver. done.
  - rewrite (bool_decide_false (x ∈ (inorder t).*2)) by done. rewrite (IH fuel next Hf) by (done || lia).
    f_equal. apply bool_decide_ext. rewrite elem_of_app. naive_solver.
Qed.

(** ** A place for a list *)

(** What the loop leaves: the rest [l'] of the list, empty when a tree has
    taken it, and a forest with the same roots. *)
Definition placed h h' p l f prev (res : unit + pointer * pointer) l' f' : Prop :=
  f'.*1 = f.*1 ∧ derived (l ++ nodes f) (l' ++ nodes f') ∧ is_forest h' p f' None ∧ all_ascending f' ∧
  same_outside h h' (f.*1 ++ (l ++ nodes f).*1) ∧
  match res with
  | inl _ => l' = []
  | inr (ppPrevTree, p') =>
    lseg h' p' l' None ∧ ascending l' ∧ l' ≠ [] ∧ nodes f' = [] ∧
    ppPrevTree = match last f.*1 with Some a => Some a | None => prev end
  end.

Lemma last_cons_match {A B} (x : A) (l : list A) (b b' : B) (k : A → B) :
  match last (x :: l) with Some y => k y | None => b end = match last l with Some y => k y | None => k x end.
Proof. rewrite last_cons. by destruct (last l). Qed.

(** The tree of a root is turned into a list and merged. *)
Lemma merge_tree h a y next pl t q l :
  h !! a = Some (mkEntry y (Some next) (Some pl)) → is_tree h pl t → t ≠ Leaf → ascending (inorder t) →
  lseg h q l None → ascending l → l ≠ [] → NoDup (a :: (inorder t ++ l).*1) →
  ∃ h1 aux last h2 h3 p l', rowSetTreeToList h pl = Some (h1, aux, last) ∧ set_left h1 (Some a) None = Some h2 ∧
    rowSetEntryMerge h2 aux q = Some (h3, p) ∧ lseg h3 p l' None ∧ ascending l' ∧ l' ≠ [] ∧
    derived (inorder t ++ l) l' ∧ h3 !! a = Some (mkEntry y (Some next) (Some None)) ∧
    same_outside h h3 (a :: (inorder t ++ l).*1).
Proof.
  intros Ha Ht Hne Hat Hl Hal Hnl [Hnot Hnd]%NoDup_cons. pose proof Hnd as Hnd'. rewrite fmap_app in Hnot, Hnd'.
  apply NoDup_app in Hnd' as (Hndt & Hdis & Hndl).
  destruct (rowSetTreeToList_spec h pl t Ht Hne Hndt) as (h1 & aux & last & E1 & Haux & Hs1).
  assert (h1 !! a = h !! a) as Ha1 by (apply Hs1; clear -Hnot; set_solver). rewrite Ha in Ha1.
  pose proof (set_left_eq _ _ _ None Ha1) as E2. cbn [v pRight] in E2. set (h2 := <[a := _]> h1) in E2.
  assert (same_outside h1 h2 [a]) as Hs2 by apply insert_outside.
  destruct (rowSetEntryMerge_spec h2 aux q (inorder t) l) as (h3 & p & E3 & Hp & Hs3).
  - eapply lseg_outside; [done..|]. intros b Hb. clear -Hb Hnot. set_solver.
  - eapply lseg_outside; [|exact Hs2|intros b Hb; clear -Hb Hnot; set_solver].
    eapply lseg_outside; [done..|]. intros b Hb Hb'. by apply (Hdis b).
  - intros E. destruct t; [done|]. by destruct (app_cons_not_nil _ _ _ (eq_sym E)).
  - done.
  - done.
  - exists h1, aux, last, h2, h3, p, (merge_lists (inorder t) l). split_and!; try done.
    + by apply merge_lists_ascending.
    + apply merge_lists_not_nil; [|done]. intros E. destruct t; [done|]. by destruct (app_cons_not_nil _ _ _ (eq_sym E)).
    + apply merge_lists_derived.
    + rewrite Hs3 by (rewrite fmap_app; done). apply lookup_insert_eq.
    + eapply same_outside_mono; [eapply same_outside_trans; [exact Hs1|eapply same_outside_trans; [exact Hs2|exact Hs3]]|].
      intros c. rewrite !fmap_app. clear. set_solver.
Qed.

Lemma derived_NoDup_app (la : list addr) l l' r :
  derived l l' → NoDup (la ++ (l ++ r).*1) → NoDup (la ++ (l' ++ r).*1).
Proof.
  intros [[d Hd] _]. rewrite <-Hd. rewrite !fmap_app. intros Hnd.
  assert (la ++ (l'.*1 ++ d.*1) ++ r.*1 ≡ₚ d.*1 ++ la ++ l'.*1 ++ r.*1) as E by solve_Permutation.
  rewrite E in Hnd. by apply NoDup_app in Hnd as (_ & _ & Hnd).
Qed.

Lemma placed_cons h h3 h' a y next l t l3 f prev res l' f' :
  placed h3 h' next l3 f (Some a) res l' f' → h3 !! a = Some (mkEntry y (Some next) (Some None)) →
  derived (inorder t ++ l) l3 → same_outside h h3 (a :: (inorder t ++ l).*1) →
  NoDup (a :: f.*1 ++ (l ++ inorder t ++ nodes f).*1) →
  placed h h' (Some a) l ((a, t) :: f) prev res l' ((a, Leaf) :: f').
Proof.
  intros (Hr & Hd & Hf & Hasc & Hs & Hres) Ha Hd3 Hs3 [Hnot Hnd]%NoDup_cons.
  assert (derived (l ++ inorder t ++ nodes f) (l3 ++ nodes f)) as Hd'.
  { rewrite app_assoc, (Permutation_app_comm l). apply derived_app; [done|apply derived_refl]. }
  unfold placed. cbn [nodes inorder app]. csimpl. split; [by rewrite Hr|]. split; [by eapply derived_trans|].
  split; [|split; [by constructor; [constructor|]|split]].
  - split; [done|]. exists y, next, None. split; [|done]. rewrite Hs; [done|]. intros Hin. apply Hnot.
    rewrite elem_of_app in Hin |- *. destruct Hin as [Hin|Hin]; [by left|right]. by eapply derived_addr.
  - eapply same_outside_mono; [by eapply same_outside_trans|]. intros b.
    rewrite (elem_of_cons _ b), !elem_of_app. intros [[->|Hb]%elem_of_cons|[Hb|Hb]].
    + by left.
    + right; right. clear -Hb. rewrite !fmap_app in *. set_solver.
    + by right; left.
    + right; right. by eapply derived_addr.
  - destruct res as [|[pp p']]; [done|]. rewrite last_cons. destruct Hres as (? & ? & ? & ? & ->). split_and!; try done.
    by destruct (last f.*1).
Qed.

Lemma forest_loop_spec fuel h prev p q l f :
  is_forest h p f None → all_ascending f → lseg h q l None → ascending l → l ≠ [] →
  NoDup (f.*1 ++ (l ++ nodes f).*1) → (length f < fuel)%nat →
  ∃ h' res l' f', forest_loop fuel h prev p q = Some (h', res) ∧ placed h h' p l f prev res l' f'.
Proof.
  intros Hf Hasc. revert fuel h prev p q l Hf. induction Hasc as [|[a t] f Hat Hasc IH];
    intros fuel h prev p q l Hf Hl Hal Hne Hnd Hlen; (destruct fuel as [|fuel]; [cbn [length] in Hlen; lia|]); cbn [forest_loop].
  { cbn [is_forest] in Hf. subst p. exists h, (inr (prev, q)), l, []. split; [done|].
    split_and!; [done|apply derived_refl|done|constructor|done..]. }
  destruct Hf as (-> & y & next & pl & Ha & Ht & Hf). cbn [nodes snd length] in *. csimpl in Hnd.
  apply NoDup_cons in Hnd as [Hnot Hnd]. rewrite !fmap_app in Hnot, Hnd.
  unfold get_left at 1. cbn [mbind option_bind]. rewrite Ha. cbn [mbind option_bind pLeft]. destruct pl as [pl|].
  - assert (t ≠ Leaf) as Htne by (intros ->; done).
    destruct (merge_tree h a y next (Some pl) t q l) as (h1 & aux & la & h2 & h3 & p3 & l3 & -> & E2 & E3 & Hl3 & Hal3 & Hne3 & Hd3 & Ha3 & Hs3);
      try done.
    { apply NoDup_cons. rewrite fmap_app. split; [clear -Hnot; set_solver|].
      apply NoDup_app in Hnd as (_ & _ & Hnd). rewrite app_assoc in Hnd. apply NoDup_app in Hnd as (Hnd & _ & _).
      by rewrite Permutation_app_comm. }
    cbn [mbind option_bind]. rewrite E2. cbn [mbind option_bind]. rewrite E3. cbn [mbind option_bind].
    unfold get_right. cbn [mbind option_bind]. rewrite Ha3. cbn [mbind option_bind pRight].
    rewrite <-!fmap_app in Hnot, Hnd.
    assert (NoDup (f.*1 ++ (l3 ++ nodes f).*1)) as Hnd3.
    { eapply derived_NoDup_app; [done|]. by rewrite (Permutation_app_comm (inorder t)), <-app_assoc. }
    destruct (IH fuel h3 (Some a) next p3 l3) as (h' & res & l' & f' & -> & Hpl); try done; [|lia|].
    { eapply is_forest_outside; [done..|]. unfold owned. rewrite !fmap_app in Hnd. apply NoDup_app in Hnd as (_ & Hdis1 & Hnd).
      rewrite app_assoc in Hnd. apply NoDup_app in Hnd as (_ & Hdis2 & _). rewrite !fmap_app in Hnot.
      intros b Hb [->|Hb']%elem_of_cons; [clear -Hb Hnot; set_solver|]. rewrite fmap_app in Hb'.
      apply elem_of_app in Hb as [Hb|Hb]; [apply (Hdis1 b Hb)|apply (Hdis2 b); [|done]]; clear -Hb'; set_solver. }
    exists h', res, l', ((a, Leaf) :: f'). split; [done|]. eapply placed_cons; [done..|]. by apply NoDup_cons.
  - assert (t = Leaf) as -> by (by apply (is_tree_null h None t)). cbn [inorder app] in *.
    rewrite <-!fmap_app in Hnot, Hnd. pose proof Hnd as Hndl. rewrite fmap_app in Hndl.
    apply NoDup_app in Hndl as (_ & Hdis1 & Hndl). pose proof Hndl as (Hndl' & Hdis2 & _)%NoDup_app.
    destruct (rowSetListToTree_spec h q l Hl Hne Hndl') as (h1 & r & t & -> & Hr & Et & Hs1).
    cbn [mbind option_bind]. rewrite fmap_app in Hnot.
    assert (h1 !! a = Some (mkEntry y (Some next) (Some None))) as Ha1 by (rewrite Hs1; [done|clear -Hnot; set_solver]).
    rewrite (set_left_eq _ _ _ _ Ha1). cbn [mbind option_bind v pRight]. set (h2 := <[a := _]> h1).
    assert (same_outside h1 h2 [a]) as Hs2 by apply insert_outside.
    assert (same_outside h h2 (l.*1 ++ [a])) as Hs by (by eapply same_outside_trans).
    exists h2, (inl tt), [], ((a, t) :: f). split; [done|]. unfold placed. cbn [nodes app]. csimpl. rewrite Et.
    split; [done|]. split; [apply derived_refl|]. split; [|split; [by constructor; [cbn [snd]; rewrite Et|]|split; [|done]]].
    + split; [done|]. exists y, next, r. split; [apply lookup_insert_eq|]. split.
      * eapply is_tree_outside; [done..|]. rewrite Et. intros b Hb ->%list_elem_of_singleton. clear -Hb Hnot. set_solver.
      * eapply is_forest_outside; [done..|]. unfold owned. intros b Hb [Hb'|Hb']%elem_of_app; [|apply list_elem_of_singleton in Hb' as ->].
        -- apply elem_of_app in Hb as [Hb|Hb]; [apply (Hdis1 b Hb); clear -Hb'; set_solver|by apply (Hdis2 b)].
        -- clear -Hb Hnot. set_solver.
    + eapply same_outside_mono; [done|]. intros c. rewrite !fmap_app. clear. set_solver.
Qed.
End forest.
