(* ===== verification/RowSetProps.v ===== *)
(** * RowSet: sets of rowids, correctness

    The object is a pair of sets, the entries that are pending and the entries
    of the forest, whatever the order, the duplicates and the batches. *)
From S2P Require Import Prelude RowSet RowSetLists RowSetTrees.
From stdpp Require Import gmap sorting.
Local Open Scope Z_scope.

(** ** The abstract object *)

(** What a rowset stands for: the rowids of the batch that is being inserted,
    those that tests look at, and the number of the batch of the last test. *)
Record sets := mkSets { pending : gset Z; tested : gset Z; last_batch : Z }.

Inductive op :=
  | Insert (malloc_ok : bool) (rowid : Z)
  | Test (malloc_ok : bool) (batch rowid : Z).

Definition malloc_ok (o : op) : bool := match o with Insert b _ | Test b _ _ => b end.

(** A test of a new batch first makes the pending rowids visible. *)
Definition sets_op (s : sets) (o : op) : list bool * sets :=
  match o with
  | Insert _ x => ([], mkSets ({[x]} ∪ pending s) (tested s) (last_batch s))
  | Test _ batch x =>
    let s := if batch =? last_batch s then s else mkSets ∅ (pending s ∪ tested s) batch in
    ([bool_decide (x ∈ tested s)], s)
  end.

Fixpoint sets_answers (s : sets) (os : list op) : list bool :=
  match os with
  | [] => []
  | o :: os => let '(r, s) := sets_op s o in r ++ sets_answers s os
  end.

(** ** The operations in sequence *)

Section run.
Context (sizeof_entry : Z).

Definition rowset_op (s : RowSet) (o : op) : option (list bool * RowSet) :=
  match o with
  | Insert ok x => s ← sqlite3RowSetInsert sizeof_entry ok s x; Some ([], s)
  | Test ok batch x => '(r, s) ← sqlite3RowSetTest sizeof_entry ok s batch x; Some ([r], s)
  end.

Fixpoint rowset_answers (s : RowSet) (os : list op) : option (list bool) :=
  match os with
  | [] => Some []
  | o :: os => '(r, s) ← rowset_op s o; rs ← rowset_answers s os; Some (r ++ rs)
  end.

(** Inserting the rowids in turn. *)
Fixpoint insert_all (s : RowSet) (xs : list Z) : option RowSet :=
  match xs with
  | [] => Some s
  | x :: xs => s ← sqlite3RowSetInsert sizeof_entry true s x; insert_all s xs
  end.

(** The results of [k] extractions. *)
Fixpoint extract (k : nat) (s : RowSet) : option (list (option Z)) :=
  match k with
  | O => Some []
  | S k => '(r, s) ← sqlite3RowSetNext s; rs ← extract k s; Some (r :: rs)
  end.
End run.

(** ** The invariant *)

(** The pending entries are the list [l], the trees the forest [f]; the flag
    says that the list ascends, extraction has not begun. *)
Definition valid (s : RowSet) (l : list node) (f : list (addr * tree)) : Prop :=
  lseg (memory s) (pEntry s) l None ∧ pLast s = fst <$> last l ∧
  (∃ b : bool, rsFlags s = Z.b2z b ∧ (b = true → ascending l)) ∧
  is_forest (memory s) (pForest s) f None ∧ all_ascending f ∧
  NoDup (f.*1 ++ (l ++ nodes f).*1).

Definition same_set (l : list node) (X : gset Z) : Prop := ∀ x, x ∈ l.*2 ↔ x ∈ X.

Lemma same_set_nil : same_set [] ∅.
Proof. intros x. split; [by intros ?%elem_of_nil|set_solver]. Qed.

Section proofs.
Context (sizeof_entry : Z).
Implicit Types (s : RowSet) (l : list node) (f : list (addr * tree)).

Lemma valid_init N : valid (sqlite3RowSetInit sizeof_entry N) [] [].
Proof. split_and!; try done; [by exists true; split; [|constructor]|constructor..]. Qed.

Lemma valid_dom s l f a : valid s l f → a ∈ f.*1 ++ (l ++ nodes f).*1 → is_Some (memory s !! a).
Proof.
  intros (Hl & _ & _ & Hf & _ & _). rewrite fmap_app, !elem_of_app. intros [Ha|[Ha|Ha]].
  - eapply is_forest_dom; [done|]. unfold owned. apply elem_of_app. by left.
  - by eapply lseg_dom.
  - eapply is_forest_dom; [done|]. unfold owned. apply elem_of_app. by right.
Qed.

(** A new entry is different from all others. *)
Lemma rowSetEntryAlloc_spec ok s s' p :
  rowSetEntryAlloc sizeof_entry ok s = (s', p) →
  pEntry s' = pEntry s ∧ pLast s' = pLast s ∧ pForest s' = pForest s ∧ rsFlags s' = rsFlags s ∧ iBatch s' = iBatch s ∧
  match p with
  | None => ok = false ∧ memory s' = memory s
  | Some a => memory s !! a = None ∧ memory s' = <[a := mkEntry None None None]> (memory s)
  end.
Proof.
  unfold rowSetEntryAlloc. destruct ((nFresh s =? 0) && negb ok) eqn:E; intros [= <- <-]; split_and!; try done.
  - destruct ok; [|done]. by rewrite andb_false_r in E.
  - apply not_elem_of_dom, is_fresh.
Qed.

(** *** Insertion *)

Lemma sqlite3RowSetInsert_spec ok s l f x :
  valid s l f →
  ∃ s', sqlite3RowSetInsert sizeof_entry ok s x = Some s' ∧ iBatch s' = iBatch s ∧
    ((ok = false ∧ valid s' l f) ∨ ∃ a, valid s' (l ++ [(a, x)]) f).
Proof.
  intros Hv. unfold sqlite3RowSetInsert. destruct (rowSetEntryAlloc sizeof_entry ok s) as [s1 p] eqn:Ealloc.
  apply rowSetEntryAlloc_spec in Ealloc as (E1 & E2 & E3 & E4 & E5 & Hp). destruct p as [a|].
  2:{ destruct Hp as [-> Em]. exists s1. split; [done|]. split; [done|]. left. split; [done|].
      unfold valid. by rewrite E1, E2, E3, E4, Em. }
  destruct Hp as [Hfresh Em]. rewrite Em, E2. unfold set_v. cbn [mbind option_bind]. rewrite lookup_insert_eq.
  cbn [mbind option_bind pRight pLeft]. rewrite insert_insert_eq, (set_right_eq _ _ _ _ (lookup_insert_eq _ _ _)).
  cbn [mbind option_bind v pLeft]. rewrite insert_insert_eq. set (h1 := <[a := _]> (memory s)).
  assert (∀ b, b ∈ f.*1 ++ (l ++ nodes f).*1 → h1 !! b = memory s !! b ∧ b ≠ a) as Hold.
  { intros b Hb. destruct (valid_dom _ _ _ _ Hv Hb) as [e He]. assert (a ≠ b) by congruence. split; [|done].
    by apply lookup_insert_ne. }
  assert (h1 !! a = Some (mkEntry (Some x) (Some None) None)) as Ha by apply lookup_insert_eq. clearbody h1.
  destruct Hv as (Hl & Hlast & (b & Hb & Hasc) & Hf & Hfasc & Hnd). rewrite Hlast.
  assert (is_forest h1 (pForest s) f None) as Hf1.
  { eapply is_forest_frame; [done|]. unfold owned. intros c Hc. apply Hold. rewrite fmap_app. clear -Hc. set_solver. }
  assert (lseg h1 (pEntry s) l None) as Hl1.
  { eapply lseg_frame; [done|]. intros c Hc. apply Hold. rewrite fmap_app. clear -Hc. set_solver. }
  assert (NoDup (f.*1 ++ ((l ++ [(a, x)]) ++ nodes f).*1)) as Hnd1.
  { assert (f.*1 ++ ((l ++ [(a, x)]) ++ nodes f).*1 ≡ₚ a :: f.*1 ++ (l ++ nodes f).*1) as ->
      by (rewrite !fmap_app; csimpl; solve_Permutation).
    apply NoDup_cons. split; [|done]. intros Hin. by destruct (Hold a Hin). }
  destruct l as [|[c y] l _] using rev_ind.
  - cbn [last fmap option_fmap option_map]. eexists. split; [done|]. split; [done|]. right. exists a.
    cbn [lseg] in Hl. split_and!; cbn; try done.
    + split; [done|]. by exists None, None.
    + exists b. rewrite E4. split; [done|]. intros _. repeat constructor.
    + by rewrite E3.
  - rewrite last_snoc. cbn [fmap option_fmap option_map fst]. apply lseg_app in Hl1 as (m & Hl1 & -> & left & next & Hc & ->).
    unfold get_v. cbn [mbind option_bind]. rewrite Hc. cbn [mbind option_bind v].
    rewrite (set_right_eq _ _ _ _ Hc). cbn [mbind option_bind v pLeft]. set (h2 := <[c := _]> h1).
    assert (same_outside h1 h2 [c]) as Hs by apply insert_outside.
    assert (NoDup ((c :: l.*1) ++ f.*1 ++ (nodes f).*1)) as Hnd2.
    { assert ((c :: l.*1) ++ f.*1 ++ (nodes f).*1 ≡ₚ f.*1 ++ ((l ++ [(c, y)]) ++ nodes f).*1) as ->
        by (rewrite !fmap_app; csimpl; solve_Permutation). done. }
    apply NoDup_app in Hnd2 as ([Hcl _]%NoDup_cons & Hdis & _).
    eexists. split; [done|]. split; [done|]. right. exists a.
    assert (c ≠ a) as Hca by (apply Hold; rewrite !fmap_app; csimpl; clear; set_solver).
    split_and!; cbn [pEntry pLast pForest rsFlags memory]; try done.
    + rewrite E1, <-app_assoc. apply lseg_app. exists (Some c). split.
      * eapply lseg_outside; [done..|]. intros d Hd. clear -Hd Hcl. set_solver.
      * split; [done|]. exists left, (Some a). split; [apply lookup_insert_eq|]. split; [done|]. exists None, None.
        split; [|done]. by rewrite Hs by (clear -Hca; set_solver).
    + by rewrite last_snoc.
    + rewrite E4, Hb. destruct (Z.leb_spec x y).
      * exists false. split; [by destruct b|done].
      * exists b. split; [done|]. intros Hbt. specialize (Hasc Hbt). unfold ascending in *. rewrite fmap_app in *. csimpl in *.
        apply StronglySorted_app in Hasc as (Hly & Hal & _). rewrite fmap_app. csimpl. apply StronglySorted_app_2.
        -- intros z1 z2 Hz1 ->%list_elem_of_singleton. apply elem_of_app in Hz1 as [Hz1| ->%list_elem_of_singleton]; [|done].
           specialize (Hly z1 y Hz1 ltac:(set_solver)). lia.
        -- apply StronglySorted_app_2; [done|done|repeat constructor].
        -- repeat constructor.
    + rewrite E3. eapply is_forest_outside; [done..|]. intros d Hd Hdc. apply (Hdis d); [|done]. clear -Hdc. set_solver.
Qed.
(** *** Extraction and tests begin by sorting *)

Lemma sort_entries s l (b : bool) :
  lseg (memory s) (pEntry s) l None → NoDup l.*1 → Z.of_nat (length l) < 2 ^ 40 →
  rsFlags s = Z.b2z b → (b = true → ascending l) →
  ∃ h p l', (if Z.land (rsFlags s) ROWSET_SORTED =? 0 then rowSetEntrySort (memory s) (pEntry s)
             else Some (memory s, pEntry s)) = Some (h, p) ∧
    lseg h p l' None ∧ ascending l' ∧ rebuilt (memory s) h l l'.
Proof.
  intros Hl Hnd Hlen -> Hb. destruct b.
  - exists (memory s), (pEntry s), l. split; [done|]. split; [done|]. split; [by apply Hb|]. split; [apply derived_refl|done].
  - by apply rowSetEntrySort_spec.
Qed.

(** The end of the forest: all the trees have been merged into the list
    [l], which becomes a tree of its own if there is memory for a root. *)
Lemma new_root ok s prev p l f :
  lseg (memory s) p l None → ascending l → l ≠ [] → nodes f = [] → all_ascending f → is_forest (memory s) (pForest s) f None →
  NoDup (f.*1 ++ l.*1) → prev = last f.*1 →
  ∃ s' f', (let '(s, pTree) := rowSetEntryAlloc sizeof_entry ok s in
    '(h, forest) ← match prev with
                   | None => Some (memory s, pTree)
                   | Some _ => h ← set_right (memory s) prev pTree; Some (h, pForest s)
                   end;
    h ← match pTree with
        | None => Some h
        | Some _ =>
          h ← set_v h pTree 0;
          h ← set_right h pTree None;
          '(h, t) ← rowSetListToTree h p;
          set_left h pTree t
        end;
    Some (mkRowSet (pEntry s) (pLast s) forest (nFresh s) (rsFlags s) (iBatch s) h)) = Some s' ∧
    rsFlags s' = rsFlags s ∧ iBatch s' = iBatch s ∧
    is_forest (memory s') (pForest s') f' None ∧ all_ascending f' ∧ NoDup (owned f') ∧
    (nodes f' = l ∨ (ok = false ∧ nodes f' = [])).
Proof.
  intros Hl Hasc Hne Hnf Hfasc Hf Hnd ->. destruct (rowSetEntryAlloc sizeof_entry ok s) as [s1 pTree] eqn:Ealloc.
  apply rowSetEntryAlloc_spec in Ealloc as (E1 & E2 & E3 & E4 & E5 & Hp). rewrite E1, E2, E3, E4, E5.
  assert (owned f = f.*1) as Eo by (unfold owned; rewrite Hnf; apply app_nil_r).
  assert (NoDup f.*1) as Hndf by (by apply NoDup_app in Hnd as (? & _)).
  assert (∀ h, (∀ a, a ∈ f.*1 ++ l.*1 → h !! a = memory s !! a) → ∃ h' forest,
      (match last f.*1 with
       | None => Some (h, pTree)
       | Some _ => h ← set_right h (last f.*1) pTree; Some (h, pForest s)
       end) = Some (h', forest) ∧ is_forest h' forest f pTree ∧ same_outside h h' f.*1) as Hlink.
  { intros h Hh. assert (is_forest h (pForest s) f None) as Hf1.
    { eapply is_forest_frame; [done|]. rewrite Eo. intros a Ha. apply Hh. clear -Ha. set_solver. }
    destruct f as [|[a t] f0 _] using rev_ind; [by exists h, pTree|]. rewrite fmap_app. csimpl. rewrite last_snoc.
    rewrite nodes_app in Hnf. apply app_eq_nil in Hnf as [Hnf0 Hnt]. cbn [nodes] in Hnt. rewrite app_nil_r in Hnt.
    rewrite fmap_app in Hndf. csimpl in Hndf. apply NoDup_app in Hndf as (_ & Hd & _).
    destruct (is_forest_set_last h (pForest s) f0 a t None pTree Hf1) as (h' & -> & Hf' & Hs').
    - unfold owned. rewrite Hnf0, app_nil_r. intros Hin. apply (Hd a Hin). clear. set_solver.
    - rewrite Hnt. clear. set_solver.
    - exists h', (pForest s). split; [done|]. split; [done|]. eapply same_outside_mono; [done|]. clear. set_solver. }
  assert (NoDup l.*1) as Hndl by (by apply NoDup_app in Hnd as (_ & _ & ?)).
  assert (∀ a, a ∈ f.*1 → a ∉ l.*1) as Hdis by (by apply NoDup_app in Hnd as (_ & ? & _)).
  destruct pTree as [a|].
  - destruct Hp as [Hfresh Em]. rewrite Em.
    assert (a ∉ l.*1) as Hal by (intros Hin; destruct (lseg_dom _ _ _ _ _ Hl Hin); congruence).
    assert (a ∉ f.*1) as Haf.
    { intros Hin. destruct (is_forest_dom _ _ _ _ a Hf) as [e He]; [by rewrite Eo|congruence]. }
    destruct (Hlink (<[a := mkEntry None None None]> (memory s))) as (h1 & forest & -> & Hf1 & Hs1).
    { intros b Hb. apply lookup_insert_ne. clear -Hb Hal Haf. set_solver. }
    cbn [mbind option_bind]. assert (h1 !! a = Some (mkEntry None None None)) as Ha1 by (rewrite Hs1 by done; apply lookup_insert_eq).
    unfold set_v. cbn [mbind option_bind]. rewrite Ha1. cbn [mbind option_bind pRight pLeft].
    rewrite (set_right_eq _ _ _ _ (lookup_insert_eq _ _ _)). cbn [mbind option_bind v pLeft]. rewrite insert_insert_eq.
    set (h2 := <[a := _]> h1). assert (same_outside h1 h2 [a]) as Hs2 by apply insert_outside.
    destruct (rowSetListToTree_spec h2 p l) as (h3 & r & t & -> & Ht & Et & Hs3); [|done..|].
    { eapply lseg_frame; [done|]. intros b Hb. rewrite Hs2 by (clear -Hb Hal; set_solver).
      rewrite Hs1 by (intros Hb'; by apply (Hdis b)). apply lookup_insert_ne. clear -Hb Hal. set_solver. }
    cbn [mbind option_bind].
    assert (h3 !! a = Some (mkEntry (Some 0) (Some None) None)) as Ha3 by (rewrite Hs3 by done; apply lookup_insert_eq).
    rewrite (set_left_eq _ _ _ _ Ha3). cbn [mbind option_bind v pRight]. set (h4 := <[a := _]> h3).
    assert (same_outside h3 h4 [a]) as Hs4 by apply insert_outside.
    eexists _, (f ++ [(a, t)]). split; [done|]. cbn [memory pForest rsFlags iBatch]. split; [done|]. split; [done|].
    split; [|split; [|split]].
    + apply is_forest_app. exists (Some a). split.
      * eapply is_forest_outside; [|exact Hs4|rewrite Eo; clear -Haf; set_solver].
        eapply is_forest_outside; [|exact Hs3|by rewrite Eo].
        eapply is_forest_outside; [done|exact Hs2|rewrite Eo; clear -Haf; set_solver].
      * split; [done|]. exists (Some 0), None, r. split; [apply lookup_insert_eq|]. split; [|done].
        eapply is_tree_outside; [done..|]. rewrite Et. clear -Hal. set_solver.
    + apply Forall_app. split; [done|]. repeat constructor. cbn [snd]. by rewrite Et.
    + unfold owned. rewrite nodes_app, Hnf. cbn [nodes app]. rewrite app_nil_r, Et.
      assert ((f ++ [(a, t)]).*1 ++ l.*1 ≡ₚ a :: f.*1 ++ l.*1) as -> by (rewrite fmap_app; csimpl; solve_Permutation).
      apply NoDup_cons. split; [clear -Hal Haf; set_solver|done].
    + left. rewrite nodes_app, Hnf. cbn [nodes app]. by rewrite app_nil_r.
  - destruct Hp as [-> Em]. rewrite Em. destruct (Hlink (memory s)) as (h1 & forest & -> & Hf1 & Hs1); [done|].
    cbn [mbind option_bind]. eexists _, f. split; [done|]. cbn [memory pForest rsFlags iBatch]. rewrite Eo.
    split_and!; try done. by right.
Qed.
Lemma new_batch_spec ok s l f :
  valid s l f → Z.of_nat (length l) < 2 ^ 40 →
  ∃ s' f', new_batch sizeof_entry ok s = Some s' ∧ iBatch s' = iBatch s ∧ valid s' [] f' ∧
    ((∀ x, x ∈ (nodes f').*2 ↔ x ∈ l.*2 ∨ x ∈ (nodes f).*2) ∨ (ok = false ∧ nodes f' = [])).
Proof.
  intros (Hl & Hlast & (b & Hb & Hasc) & Hf & Hfasc & Hnd) Hlen. unfold new_batch.
  destruct l as [|n l].
  { cbn [lseg] in Hl. assert (valid s [] f) as Hv by (split_and!; try done; by exists b). exists s, f. rewrite Hl.
    split; [done|]. split; [done|]. split; [done|]. left. set_solver. }
  set (l0 := n :: l) in *. assert (l0 ≠ []) as Hne by done. clearbody l0. clear n l.
  assert (is_Some (pEntry s)) as [e He].
  { destruct (pEntry s); [by eexists|]. exfalso. by apply Hne, (lseg_null _ _ _ Hl). }
  pose proof Hnd as Hnd'. rewrite fmap_app in Hnd'. apply NoDup_app in Hnd' as (Hndf & Hd1 & (Hndl & Hd2 & _)%NoDup_app).
  destruct (sort_entries s l0 b Hl Hndl Hlen Hb Hasc) as (h1 & p & l1 & E & Hl1 & Hasc1 & Hder1 & Hs1).
  rewrite E, He. cbn [mbind option_bind].
  assert (is_forest h1 (pForest s) f None) as Hf1.
  { eapply is_forest_outside; [done..|]. intros a [Ha|Ha]%elem_of_app Hal; [apply (Hd1 a Ha)|apply (Hd2 a Hal Ha)].
    clear -Hal. set_solver. }
  assert (l1 ≠ []) as Hne1.
  { intros ->. destruct l0 as [|[a x] l0]; [done|]. destruct Hder1 as [_ Hv]. specialize (Hv x). csimpl in Hv. set_solver. }
  destruct (forest_loop_spec (S (size h1)) h1 None (pForest s) p l1 f) as (h2 & res & l2 & f2 & -> & Hr & Hd & Hf2 & Hfasc2 & Hs2 & Hres);
    try done.
  { by eapply derived_NoDup_app. }
  { pose proof (is_forest_length _ _ _ _ Hf1 Hndf). lia. }
  cbn [mbind option_bind].
  assert (derived (l0 ++ nodes f) (l2 ++ nodes f2)) as Hd02.
  { eapply derived_trans; [|done]. apply derived_app; [done|apply derived_refl]. }
  assert (NoDup (f2.*1 ++ (l2 ++ nodes f2).*1)) as Hnd2.
  { rewrite Hr. pose proof (derived_NoDup_app f.*1 _ _ [] Hd02) as H. rewrite !app_nil_r in H. by apply H. }
  assert (∀ x, x ∈ (l2 ++ nodes f2).*2 ↔ x ∈ l0.*2 ∨ x ∈ (nodes f).*2) as Hvals.
  { intros x. destruct Hd02 as [_ ->]. by rewrite fmap_app, elem_of_app. }
  assert (Z.lor (rsFlags s) ROWSET_SORTED = Z.b2z true) as Hflag by (rewrite Hb; by destruct b).
  destruct res as [[]|[prev p2]].
  - subst l2. cbn [app] in *. eexists _, f2. split; [done|]. split; [done|]. split; [|by left].
    split_and!; try done. exists true. split; [done|]. intros _. constructor.
  - destruct Hres as (Hl2 & Hasc2 & Hne2 & Hn2 & Hprev). rewrite Hn2, app_nil_r in Hnd2, Hvals.
    assert (prev = last f2.*1) as Hprev2 by (rewrite Hr, Hprev; by destruct (last f.*1)).
    destruct (new_root ok (mkRowSet (pEntry s) (pLast s) (pForest s) (nFresh s) (rsFlags s) (iBatch s) h2) prev p2 l2 f2)
      as (s3 & f3 & E3 & Ef & Ei & Hf3 & Hfasc3 & Hnd3 & Hor); try done.
    rewrite He in E3. rewrite E3. cbn [mbind option_bind]. eexists _, f3. split; [done|]. split; [done|]. split.
    + split_and!; try done. exists true. split; [by rewrite Ef|]. intros _. constructor.
    + destruct Hor as [->|?]; [by left|by right].
Qed.

Lemma sqlite3RowSetTest_spec ok s l f batch x :
  valid s l f → Z.of_nat (length l) < 2 ^ 40 →
  ∃ s' l' f', sqlite3RowSetTest sizeof_entry ok s batch x = Some (bool_decide (x ∈ (nodes f').*2), s') ∧
    iBatch s' = batch ∧ valid s' l' f' ∧ (length l' ≤ length l)%nat ∧
    (if batch =? iBatch s then l' = l ∧ f' = f
     else l' = [] ∧ ((∀ x, x ∈ (nodes f').*2 ↔ x ∈ l.*2 ∨ x ∈ (nodes f).*2) ∨ (ok = false ∧ nodes f' = []))).
Proof.
  intros Hv Hlen. unfold sqlite3RowSetTest.
  assert (∀ s l f, valid s l f →
      forest_search (S (size (memory s))) (memory s) (pForest s) x = Some (bool_decide (x ∈ (nodes f).*2))) as Hsearch.
  { intros s0 l0 f0 (_ & _ & _ & Hf & Hfasc & Hnd). rewrite fmap_app in Hnd.
    apply NoDup_app in Hnd as (Hndf & _ & (_ & _ & Hndn)%NoDup_app).
    apply forest_search_spec; try done. pose proof (is_forest_length _ _ _ _ Hf Hndf). lia. }
  destruct (Z.eqb_spec batch (iBatch s)) as [->|Hne].
  - cbn [mbind option_bind]. rewrite (Hsearch _ _ _ Hv). by exists s, l, f.
  - destruct (new_batch_spec ok s l f Hv Hlen) as (s1 & f1 & -> & _ & Hv1 & Hor). cbn [mbind option_bind].
    set (s2 := mkRowSet _ _ _ _ _ _ _). assert (valid s2 [] f1) as Hv2 by done. rewrite (Hsearch _ _ _ Hv2).
    exists s2, [], f1. split_and!; try done. cbn. lia.
Qed.

(** ** Insertions and tests *)

Definition represents s (X : sets) l f : Prop :=
  valid s l f ∧ same_set l (pending X) ∧ same_set (nodes f) (tested X) ∧ iBatch s = last_batch X.

Lemma answers_refine os : ∀ s X l f,
  represents s X l f → Forall (λ o, malloc_ok o = true) os → Z.of_nat (length l + length os) < 2 ^ 40 →
  rowset_answers sizeof_entry s os = Some (sets_answers X os).
Proof.
  induction os as [|o os IH]; intros s X l f (Hv & Hp & Ht & Hb) Hok Hlen; [done|]. cbn [length] in Hlen.
  apply Forall_cons in Hok as [Ho Hok]. destruct o as [ok x|ok batch x]; cbn in Ho; subst ok; cbn [rowset_answers sets_answers].
  - destruct (sqlite3RowSetInsert_spec true s l f x Hv) as (s1 & E & Hb1 & [[? _]|(a & Hv1)]); [done|].
    cbn [rowset_op]. rewrite E. cbn [mbind option_bind sets_op]. rewrite (IH s1 (mkSets ({[x]} ∪ pending X) (tested X) (last_batch X)) (l ++ [(a, x)]) f).
    + done.
    + split_and!; [exact Hv1| |done|by rewrite Hb1]. intros z. rewrite fmap_app. csimpl. specialize (Hp z). clear -Hp. set_solver.
    + done.
    + rewrite length_app. cbn [length]. lia.
  - destruct (sqlite3RowSetTest_spec true s l f batch x Hv) as (s1 & l1 & f1 & E & Hb1 & Hv1 & Hl1 & Hcase); [lia|].
    cbn [rowset_op]. rewrite E. cbn [mbind option_bind sets_op]. rewrite Hb in Hcase.
    destruct (Z.eqb_spec batch (last_batch X)) as [->|Hne].
    + destruct Hcase as [-> ->]. rewrite (IH s1 X l f) by (done || lia). cbn. do 2 f_equal. apply bool_decide_ext, Ht.
    + destruct Hcase as [-> [Hvals|[? _]]]; [|done].
      assert (same_set (nodes f1) (pending X ∪ tested X)) as Hsame by (intros z; rewrite Hvals, (Hp z), (Ht z); set_solver).
      rewrite (IH s1 (mkSets ∅ (pending X ∪ tested X) batch) [] f1).
      * cbn. do 2 f_equal. apply bool_decide_ext, Hsame.
      * split_and!; try done. intros z. cbn. set_solver.
      * done.
      * cbn [length]. lia.
Qed.

(** What is left when memory may run out: no set holds too much. *)
Definition within s (X : sets) l f : Prop :=
  valid s l f ∧ (∀ x, x ∈ l.*2 → x ∈ pending X) ∧ (∀ x, x ∈ (nodes f).*2 → x ∈ tested X) ∧ iBatch s = last_batch X.

Lemma answers_sound os : ∀ s X l f,
  within s X l f → Z.of_nat (length l + length os) < 2 ^ 40 →
  ∃ rs, rowset_answers sizeof_entry s os = Some rs ∧ Forall2 (λ r r' : bool, r = true → r' = true) rs (sets_answers X os).
Proof.
  induction os as [|o os IH]; intros s X l f (Hv & Hp & Ht & Hb) Hlen; [exists []; by split|]. cbn [length] in Hlen.
  destruct o as [ok x|ok batch x]; cbn [rowset_answers sets_answers].
  - destruct (sqlite3RowSetInsert_spec ok s l f x Hv) as (s1 & E & Hb1 & Hcase).
    cbn [rowset_op]. rewrite E. cbn [mbind option_bind sets_op].
    assert (∃ l1, valid s1 l1 f ∧ (length l1 ≤ S (length l))%nat ∧ ∀ z, z ∈ l1.*2 → z ∈ {[x]} ∪ pending X) as (l1 & Hv1 & Hl1 & Hp1).
    { destruct Hcase as [[_ Hv1]|(a & Hv1)]; [exists l|exists (l ++ [(a, x)])]; (split; [done|]).
      - split; [lia|]. intros z Hz. specialize (Hp z Hz). clear -Hp. set_solver.
      - rewrite length_app. split; [cbn; lia|]. intros z. rewrite fmap_app. csimpl. specialize (Hp z). clear -Hp. set_solver. }
    destruct (IH s1 (mkSets ({[x]} ∪ pending X) (tested X) (last_batch X)) l1 f) as (rs & -> & Hrs); [|lia|by exists rs].
    split_and!; try done. by rewrite Hb1.
  - destruct (sqlite3RowSetTest_spec ok s l f batch x Hv) as (s1 & l1 & f1 & E & Hb1 & Hv1 & Hl1 & Hcase); [lia|].
    cbn [rowset_op]. rewrite E. cbn [mbind option_bind sets_op]. rewrite Hb in Hcase.
    destruct (Z.eqb_spec batch (last_batch X)) as [->|Hne].
    + destruct Hcase as [-> ->]. destruct (IH s1 X l f) as (rs & -> & Hrs); [done|lia|]. eexists. split; [done|].
      constructor; [|done]. intros H%bool_decide_eq_true. apply bool_decide_eq_true. by apply Ht.
    + destruct Hcase as [-> Hvals].
      assert (∀ z, z ∈ (nodes f1).*2 → z ∈ pending X ∪ tested X) as Hsub.
      { intros z Hz. destruct Hvals as [Hvals|[_ E1]]; [|rewrite E1 in Hz; by apply elem_of_nil in Hz].
        apply elem_of_union. apply Hvals in Hz as [Hz|Hz]; [left; by apply Hp|right; by apply Ht]. }
      destruct (IH s1 (mkSets ∅ (pending X ∪ tested X) batch) [] f1) as (rs & -> & Hrs); [|cbn [length]; lia|].
      { split_and!; try done. intros z Hz. by apply elem_of_nil in Hz. }
      eexists. split; [done|]. constructor; [|done]. intros H%bool_decide_eq_true. apply bool_decide_eq_true. by apply Hsub.
Qed.

(** ** Extraction *)

Lemma insert_all_spec xs : ∀ s l f,
  valid s l f → ∃ s' l', insert_all sizeof_entry s xs = Some s' ∧ valid s' l' f ∧ l'.*2 = l.*2 ++ xs.
Proof.
  induction xs as [|x xs IH]; intros s l f Hv; cbn [insert_all]; [exists s, l; by rewrite app_nil_r|].
  destruct (sqlite3RowSetInsert_spec true s l f x Hv) as (s1 & -> & _ & [[? _]|(a & Hv1)]); [done|].
  cbn [mbind option_bind]. destruct (IH s1 (l ++ [(a, x)]) f Hv1) as (s' & l' & -> & Hv' & E). exists s', l'.
  split; [done|]. split; [done|]. rewrite E, fmap_app, <-app_assoc. done.
Qed.

(** An object that is being emptied, or that has been. *)
Definition emptying s l : Prop :=
  lseg (memory s) (pEntry s) l None ∧
  (Z.land (rsFlags s) ROWSET_NEXT ≠ 0 ∨ (l = [] ∧ rsFlags s = ROWSET_SORTED)).

Lemma next_started s s1 l :
  start_next s = Some s1 → lseg (memory s1) (pEntry s1) l None → Z.land (rsFlags s1) ROWSET_NEXT ≠ 0 →
  ∃ s', sqlite3RowSetNext s = Some (head l.*2, s') ∧ emptying s' (tail l).
Proof.
  intros E Hl Hflag. unfold sqlite3RowSetNext. rewrite E. cbn [mbind option_bind]. destruct l as [|[a x] l].
  - cbn [lseg] in Hl. rewrite Hl. exists s1. split; [done|]. split; [done|by left].
  - destruct Hl as (-> & left & next & Ha & Hl). unfold get_v, get_right. cbn [mbind option_bind]. rewrite Ha.
    cbn [mbind option_bind v pRight]. eexists. split; [done|]. destruct next as [next|].
    + split; [done|by left].
    + assert (l = []) as -> by (by apply (lseg_null _ _ _ Hl)). split; [done|by right].
Qed.

Lemma next_emptying s l :
  emptying s l → ∃ s', sqlite3RowSetNext s = Some (head l.*2, s') ∧ emptying s' (tail l).
Proof.
  intros [Hl [Hflag|[-> Hflag]]].
  - apply (next_started s s); [|done..]. unfold start_next. by destruct (Z.eqb_spec (Z.land (rsFlags s) ROWSET_NEXT) 0).
  - eapply next_started; [unfold start_next; rewrite Hflag; done|done..].
Qed.

Lemma next_valid s l f :
  valid s l f → Z.of_nat (length l) < 2 ^ 40 →
  ∃ s' l', sqlite3RowSetNext s = Some (head l'.*2, s') ∧ emptying s' (tail l') ∧ ascending l' ∧ derived l l'.
Proof.
  intros (Hl & _ & (b & Hb & Hasc) & _ & _ & Hnd) Hlen. rewrite fmap_app in Hnd.
  apply NoDup_app in Hnd as (_ & _ & (Hndl & _ & _)%NoDup_app).
  destruct (sort_entries s l b Hl Hndl Hlen Hb Hasc) as (h & p & l' & E & Hl' & Hasc' & Hder & _).
  edestruct (next_started s) as (s' & E' & Hem).
  - unfold start_next. rewrite E, Hb. replace (Z.land (Z.b2z b) ROWSET_NEXT =? 0) with true by (by destruct b). done.
  - done.
  - cbn [rsFlags]. by destruct b.
  - by exists s', l'.
Qed.

Lemma extract_emptying k : ∀ s l, emptying s l → extract k s = Some ((λ i, l.*2 !! i) <$> seq 0 k).
Proof.
  induction k as [|k IH]; intros s l Hem; [done|]. destruct (next_emptying s l Hem) as (s' & E & Hem').
  cbn [extract seq fmap list_fmap]. rewrite E. cbn [mbind option_bind]. rewrite (IH s' (tail l) Hem').
  cbn [mbind option_bind]. do 2 f_equal; [by destruct l|]. rewrite <-fmap_S_seq, <-list_fmap_compose.
  apply list_fmap_ext. intros i j _. by destruct l.
Qed.
End proofs.

(** ** Properties *)

(** C18: the answers of any sequence of [sqlite3RowSetInsert] and
    [sqlite3RowSetTest] on a new object are those of the pair of sets: a test
    says whether the rowid was inserted before the first test of the current
    batch, whatever the order of the rowids, the duplicates and the shape of
    the forest. No null pointer is followed, no field is read before it has
    been written and all loops end. *)
Theorem rowset_tests_are_sets (sizeof_entry N : Z) (os : list op)
  (Hmem : Forall (λ o, malloc_ok o = true) os) (Hlen : Z.of_nat (length os) < 2 ^ 40) :
  rowset_answers sizeof_entry (sqlite3RowSetInit sizeof_entry N) os = Some (sets_answers (mkSets ∅ ∅ 0) os).
Proof.
  apply (answers_refine sizeof_entry os _ _ [] []); [|done|done]. split_and!; [apply valid_init|apply same_set_nil..|done].
Qed.

Example rowset_tests_are_sets_witness :
  rowset_answers 24 (sqlite3RowSetInit 24 984)
    [Insert true 7; Insert true 3; Test true 1 3; Insert true 5; Test true 1 5; Test true 2 5; Test true 2 4] =
    Some [true; false; true; false].
Proof.
  rewrite (rowset_tests_are_sets 24 984 _); [vm_compute; reflexivity|repeat constructor|reflexivity].
Defined.

(** when memory runs out, the same sequences still run without error, and a
    test never answers that a rowid is in the set unless it is: elements are
    lost, none is invented. *)
Theorem rowset_out_of_memory (sizeof_entry N : Z) (os : list op) (Hlen : Z.of_nat (length os) < 2 ^ 40) :
  ∃ rs, rowset_answers sizeof_entry (sqlite3RowSetInit sizeof_entry N) os = Some rs ∧
    Forall2 (λ r r' : bool, r = true → r' = true) rs (sets_answers (mkSets ∅ ∅ 0) os).
Proof.
  apply (answers_sound sizeof_entry os _ _ [] []); [|done]. split_and!; [apply valid_init|by intros ? ?%elem_of_nil..|done].
Qed.

Example rowset_out_of_memory_witness :
  let os := [Insert true 7; Insert true 3; Test true 1 3; Insert true 5; Test false 2 3; Test true 2 5] in
  rowset_answers 1000 (sqlite3RowSetInit 1000 0) os = Some [true; false; false] ∧
  ∃ rs, rowset_answers 1000 (sqlite3RowSetInit 1000 0) os = Some rs ∧
    Forall2 (λ r r' : bool, r = true → r' = true) rs (sets_answers (mkSets ∅ ∅ 0) os).
Proof. intros os. split; [vm_compute; reflexivity|]. apply (rowset_out_of_memory 1000 0 os). reflexivity. Defined.

(** C19: after the insertion of [xs], [sqlite3RowSetNext] extracts the rowids in
    strictly ascending order, each once, and then says for ever that there are
    no more. *)
Theorem sqlite3RowSetNext_sorts (sizeof_entry N : Z) (xs : list Z) (Hlen : Z.of_nat (length xs) < 2 ^ 40) :
  ∃ s ys, insert_all sizeof_entry (sqlite3RowSetInit sizeof_entry N) xs = Some s ∧
    StronglySorted Z.lt ys ∧ (∀ x, x ∈ ys ↔ x ∈ xs) ∧ ∀ k, extract k s = Some ((λ i, ys !! i) <$> seq 0 k).
Proof.
  destruct (insert_all_spec sizeof_entry xs _ [] [] (valid_init sizeof_entry N)) as (s & l & E & Hv & Exs).
  destruct (next_valid s l [] Hv) as (s' & l' & E' & Hem & Hasc & [_ Hval]).
  { cbn in Exs. rewrite <-(length_fmap snd), Exs. done. }
  exists s, l'.*2. split; [done|]. split; [done|]. split; [intros x; by rewrite Hval, Exs|].
  intros [|k]; [done|]. cbn [extract seq fmap list_fmap]. rewrite E'. cbn [mbind option_bind].
  rewrite (extract_emptying k s' _ Hem). cbn [mbind option_bind]. do 2 f_equal; [by destruct l'|].
  rewrite <-fmap_S_seq, <-list_fmap_compose. apply list_fmap_ext. intros i j _. by destruct l'.
Qed.

Example sqlite3RowSetNext_sorts_witness :
  ∃ s ys, insert_all 24 (sqlite3RowSetInit 24 984) [5; 9; 5; 1; 3] = Some s ∧
    StronglySorted Z.lt ys ∧ (∀ x, x ∈ ys ↔ x ∈ [5; 9; 5; 1; 3]) ∧ ∀ k, extract k s = Some ((λ i, ys !! i) <$> seq 0 k).
Proof. apply (sqlite3RowSetNext_sorts 24 984). reflexivity. Defined.
