(* ===== verification/BtreeBytes.v ===== *)
(** * Bytes of a page

    Buffers addressed by offsets in Z: the reads and writes of btree.c (in
    sqlite3.c), [None] outside the buffer, with the macros [get2byte],
    [put2byte] and [get2byteNotZero], and lemmas that describe a write by the
    bytes it leaves alone. *)
From S2P Require Import Prelude Words.
Local Open Scope Z_scope.

Abbreviation len l := (Z.of_nat (length l)).

Definition peek (d : list Z) (i : Z) : option Z := if i <? 0 then None else d !! Z.to_nat i.

(** The [n] bytes at [i]. *)
Definition region (d : list Z) (i n : Z) : option (list Z) :=
  if (0 <=? i) && (0 <=? n) && (i + n <=? len d) then Some (take (Z.to_nat n) (drop (Z.to_nat i) d)) else None.

(** Writing the bytes [bs] at [i]. *)
Definition store (d : list Z) (i : Z) (bs : list Z) : option (list Z) :=
  if (0 <=? i) && (i + len bs <=? len d)
  then Some (take (Z.to_nat i) d ++ bs ++ drop (Z.to_nat i + length bs) d) else None.

(** [d[i] = v]. *)
Definition put (d : list Z) (i v : Z) : option (list Z) := store d i [u8 v].

Definition get2byte (d : list Z) (i : Z) : option Z :=
  a ← peek d i; b ← peek d (i + 1); Some (Z.lor (Z.shiftl a 8) b).

Definition put2byte (d : list Z) (p v : Z) : option (list Z) :=
  d ← put d p (Z.shiftr v 8); put d (p + 1) v.

Definition get2byteNotZero (d : list Z) (i : Z) : option Z :=
  x ← get2byte d i; Some (Z.land (x - 1) 0xffff + 1).

(** [memcpy(&d[i], &src[j], n)]; also [memmove], as the bytes are read first. *)
Definition copy (d : list Z) (i : Z) (src : list Z) (j n : Z) : option (list Z) :=
  bs ← region src j n; store d i bs.

(** [memset(&d[i], 0, n)]. *)
Definition zero (d : list Z) (i n : Z) : option (list Z) :=
  if n <? 0 then None else store d i (replicate (Z.to_nat n) 0).

Section bytes.
Implicit Types (d bs src : list Z) (i j n v : Z).

(** ** Reading *)

Lemma peek_Some d i x : peek d i = Some x → 0 ≤ i < len d.
Proof.
  unfold peek. destruct (Z.ltb_spec i 0); [done|]. intros Hx. apply lookup_lt_Some in Hx. lia.
Qed.

Lemma peek_is_Some d i : 0 ≤ i < len d → ∃ x, peek d i = Some x.
Proof.
  intros Hi. unfold peek. destruct (Z.ltb_spec i 0); [lia|]. apply lookup_lt_is_Some. lia.
Qed.

Lemma peek_byte d i x : bytes_ok d → peek d i = Some x → byte_ok x.
Proof.
  intros Hd. unfold peek. destruct (Z.ltb_spec i 0); [done|]. intros Hx. by apply (Forall_lookup_1 _ _ _ _ Hd Hx).
Qed.

Lemma region_spec d i bs :
  region d i (len bs) = Some bs ↔ 0 ≤ i ∧ i + len bs ≤ len d ∧ ∀ j, 0 ≤ j < len bs → peek d (i + j) = peek bs j.
Proof.
  unfold region, peek. split.
  - destruct (Z.leb_spec 0 i); [|done]. destruct (Z.leb_spec 0 (len bs)); [|done].
    destruct (Z.leb_spec (i + len bs) (len d)); [|done]. cbn [andb]. intros [= E]. split; [done|]. split; [done|].
    intros j Hj. destruct (Z.ltb_spec (i + j) 0); [lia|]. destruct (Z.ltb_spec j 0); [lia|].
    rewrite <-E. rewrite lookup_take_lt by lia. rewrite lookup_drop. f_equal. lia.
  - intros (Hi & Hlen & Hj). destruct (Z.leb_spec 0 i); [|lia]. destruct (Z.leb_spec 0 (len bs)); [|lia].
    destruct (Z.leb_spec (i + len bs) (len d)); [|lia]. cbn [andb]. f_equal.
    apply list_eq. intros k. destruct (decide (k < length bs)%nat).
    + rewrite lookup_take_lt by lia. rewrite lookup_drop. specialize (Hj (Z.of_nat k) ltac:(lia)).
      destruct (Z.ltb_spec (i + Z.of_nat k) 0); [lia|]. destruct (Z.ltb_spec (Z.of_nat k) 0); [lia|].
      rewrite Nat2Z.id in Hj. rewrite <-Hj. f_equal. lia.
    + rewrite lookup_take_ge by lia. symmetry. apply lookup_ge_None_2. lia.
Qed.

Lemma region_Some d i n bs : region d i n = Some bs → n = len bs ∧ 0 ≤ i ∧ i + n ≤ len d.
Proof.
  unfold region. destruct (Z.leb_spec 0 i); [|done]. destruct (Z.leb_spec 0 n); [|done].
  destruct (Z.leb_spec (i + n) (len d)); [|done]. cbn [andb]. intros [= <-].
  rewrite length_take, length_drop. lia.
Qed.

Lemma region_is_Some d i n : 0 ≤ i → 0 ≤ n → i + n ≤ len d → ∃ bs, region d i n = Some bs ∧ len bs = n.
Proof.
  intros. unfold region. destruct (Z.leb_spec 0 i); [|lia]. destruct (Z.leb_spec 0 n); [|lia].
  destruct (Z.leb_spec (i + n) (len d)); [|lia]. eexists. split; [done|]. rewrite length_take, length_drop. lia.
Qed.

(** The bytes of a region do not depend on the rest. *)
Lemma region_ext d d' i n : len d' = len d → (∀ j, i ≤ j < i + n → peek d' j = peek d j) → region d' i n = region d i n.
Proof.
  intros Hlen Hj. destruct (decide (0 ≤ i ∧ 0 ≤ n ∧ i + n ≤ len d)) as [(? & ? & ?)|Hn].
  - destruct (region_is_Some d i n) as (bs & E & Hbs); [done..|]. rewrite E. rewrite <-Hbs in E. pose proof E as (_ & _ & Hpk)%region_spec.
    rewrite <-Hbs. apply region_spec. split; [done|]. split; [lia|]. intros j ?. rewrite Hj by lia. by apply Hpk.
  - unfold region. rewrite Hlen. destruct (Z.leb_spec 0 i), (Z.leb_spec 0 n), (Z.leb_spec (i + n) (len d)); cbn [andb]; try done.
    exfalso. apply Hn. done.
Qed.

Lemma get2byte_ext d d' i : peek d' i = peek d i → peek d' (i + 1) = peek d (i + 1) → get2byte d' i = get2byte d i.
Proof. intros H1 H2. unfold get2byte. by rewrite H1, H2. Qed.

Lemma word_lor a b : byte_ok b → Z.lor (Z.shiftl a 8) b = 256 * a + b.
Proof. intros Hb. rewrite lor_shiftl_add by (done || lia). lia. Qed.

Lemma get2byte_range d i x : bytes_ok d → get2byte d i = Some x → 0 ≤ x < 65536 ∧ 0 ≤ i ∧ i + 2 ≤ len d.
Proof.
  intros Hd. unfold get2byte. destruct (peek d i) as [a|] eqn:Ea; [|done]. destruct (peek d (i + 1)) as [b|] eqn:Eb; [|done].
  cbn [mbind option_bind]. pose proof (peek_byte _ _ _ Hd Ea) as Ha. pose proof (peek_byte _ _ _ Hd Eb) as Hb.
  rewrite word_lor by done. intros [= <-]. apply peek_Some in Ea, Eb. unfold uint in *. lia.
Qed.

Lemma get2byte_is_Some d i : 0 ≤ i → i + 2 ≤ len d → ∃ x, get2byte d i = Some x.
Proof.
  intros. unfold get2byte. destruct (peek_is_Some d i) as [a ->]; [lia|]. destruct (peek_is_Some d (i + 1)) as [b ->]; [lia|].
  by eexists.
Qed.

(** ** Writing *)

(** The result [d'] of writing [bs] at [i]. *)
Definition written d i bs d' : Prop :=
  len d' = len d ∧ (∀ j, 0 ≤ j < len bs → peek d' (i + j) = peek bs j) ∧
  ∀ j, j < i ∨ i + len bs ≤ j → peek d' j = peek d j.

Lemma store_spec d i bs : 0 ≤ i → i + len bs ≤ len d → ∃ d', store d i bs = Some d' ∧ written d i bs d'.
Proof.
  intros Hi Hlen. unfold store. destruct (Z.leb_spec 0 i); [|lia]. destruct (Z.leb_spec (i + len bs) (len d)); [|lia].
  cbn [andb]. eexists. split; [done|]. split.
  - rewrite !length_app, length_take, length_drop. lia.
  - split; intros j Hj; unfold peek.
    + destruct (Z.ltb_spec (i + j) 0); [lia|]. destruct (Z.ltb_spec j 0); [lia|].
      rewrite lookup_app_r by (rewrite length_take; lia). rewrite length_take.
      rewrite lookup_app_l by lia. f_equal. lia.
    + destruct (Z.ltb_spec j 0); [done|]. destruct Hj as [Hj|Hj].
      * rewrite lookup_app_l by (rewrite length_take; lia). rewrite lookup_take_lt by lia. done.
      * rewrite lookup_app_r by (rewrite length_take; lia). rewrite length_take.
        rewrite lookup_app_r by lia. rewrite lookup_drop. f_equal. lia.
Qed.

Lemma store_bytes d i bs d' : bytes_ok d → bytes_ok bs → store d i bs = Some d' → bytes_ok d'.
Proof.
  intros Hd Hb. unfold store. destruct (_ && _); [|done]. intros [= <-].
  apply Forall_app. split; [by apply Forall_take|]. apply Forall_app. split; [done|by apply Forall_drop].
Qed.

Lemma store_len d i bs d' : store d i bs = Some d' → len d' = len d ∧ 0 ≤ i ∧ i + len bs ≤ len d.
Proof.
  unfold store. destruct (Z.leb_spec 0 i); [|done]. destruct (Z.leb_spec (i + len bs) (len d)); [|done].
  cbn [andb]. intros [= <-]. rewrite !length_app, length_take, length_drop. lia.
Qed.

Lemma region_written d i bs d' : written d i bs d' → 0 ≤ i → i + len bs ≤ len d → region d' i (len bs) = Some bs.
Proof. intros (Hl & Hw & _) ? ?. apply region_spec. split; [done|]. split; [lia|]. done. Qed.

(** What a write of [n] bytes at [i] gives: a new page of bytes, the same
    elsewhere. *)
Definition changed d i n d' : Prop :=
  bytes_ok d' ∧ len d' = len d ∧ ∀ j, j < i ∨ i + n ≤ j → peek d' j = peek d j.

Lemma store_changed d i bs :
  bytes_ok d → bytes_ok bs → 0 ≤ i → i + len bs ≤ len d →
  ∃ d', store d i bs = Some d' ∧ changed d i (len bs) d' ∧ region d' i (len bs) = Some bs.
Proof.
  intros Hd Hb Hi Hlen. destruct (store_spec d i bs Hi Hlen) as (d' & E & Hw). exists d'. split; [done|]. split.
  - split; [exact (store_bytes _ _ _ _ Hd Hb E)|]. by destruct Hw as (? & _ & ?).
  - by eapply region_written.
Qed.

Lemma u8_byte v : byte_ok (u8 v).
Proof. apply wrap_uint. lia. Qed.

Lemma put_spec d i v :
  bytes_ok d → 0 ≤ i < len d → ∃ d', put d i v = Some d' ∧ changed d i 1 d' ∧ peek d' i = Some (u8 v).
Proof.
  intros Hd Hi. destruct (store_spec d i [u8 v]) as (d' & E & Hw); [lia|cbn; lia|]. exists d'. split; [done|].
  destruct Hw as (Hl & Hw & Ho). split.
  - split; [|by split]. eapply store_bytes; [done| |exact E]. repeat constructor; apply u8_byte.
  - specialize (Hw 0 ltac:(cbn; lia)). by rewrite Z.add_0_r in Hw.
Qed.

Lemma changed_peek d i n d' j : changed d i n d' → j < i ∨ i + n ≤ j → peek d' j = peek d j.
Proof. intros (_ & _ & H). apply H. Qed.

Lemma put2byte_spec d i v :
  bytes_ok d → 0 ≤ v ≤ 65536 → 0 ≤ i → i + 2 ≤ len d →
  ∃ d', put2byte d i v = Some d' ∧ changed d i 2 d' ∧ get2byte d' i = Some (v `mod` 65536).
Proof.
  intros Hd Hv Hi Hlen. unfold put2byte.
  destruct (put_spec d i (Z.shiftr v 8) Hd) as (d1 & E1 & (Hd1 & Hl1 & Ho1) & Hp1); [lia|]. rewrite E1. cbn [mbind option_bind].
  destruct (put_spec d1 (i + 1) v Hd1) as (d2 & E2 & (Hd2 & Hl2 & Ho2) & Hp2); [lia|]. exists d2. split; [done|]. split.
  - split; [done|]. split; [lia|]. intros j Hj. rewrite Ho2 by lia. by rewrite Ho1 by lia.
  - unfold get2byte. rewrite (Ho2 i) by lia. rewrite Hp1, Hp2. cbn [mbind option_bind]. f_equal.
    rewrite word_lor by apply u8_byte. unfold u8, wrap. rewrite Z.shiftr_div_pow2 by lia. change (2 ^ 8) with 256.
    clear -Hv. pose proof (Z.div_mod v 256 ltac:(lia)) as E. pose proof (Z.mod_pos_bound v 256 ltac:(lia)).
    pose proof (Z.div_mod (v / 256) 256 ltac:(lia)) as E'. pose proof (Z.mod_pos_bound (v / 256) 256 ltac:(lia)).
    apply (Z.mod_unique_pos _ _ (v / 256 / 256)); lia.
Qed.

Lemma copy_spec d i src j n bs :
  bytes_ok d → bytes_ok bs → region src j n = Some bs → 0 ≤ i → i + n ≤ len d →
  ∃ d', copy d i src j n = Some d' ∧ changed d i n d' ∧ region d' i n = Some bs.
Proof.
  intros Hd Hb E Hi Hlen. pose proof (region_Some _ _ _ _ E) as (-> & _ & _). unfold copy. rewrite E. cbn [mbind option_bind].
  by apply store_changed.
Qed.

Lemma zero_spec d i n :
  bytes_ok d → 0 ≤ n → 0 ≤ i → i + n ≤ len d →
  ∃ d', zero d i n = Some d' ∧ changed d i n d' ∧ ∀ j, i ≤ j < i + n → peek d' j = Some 0.
Proof.
  intros Hd Hn Hi Hlen. unfold zero. destruct (Z.ltb_spec n 0); [lia|].
  assert (len (replicate (Z.to_nat n) 0) = n) as Hr by (rewrite length_replicate; lia).
  destruct (store_spec d i (replicate (Z.to_nat n) 0)) as (d' & E & Hl & Hw & Ho); [done|lia|]. exists d'. split; [done|].
  rewrite Hr in *. split.
  - split; [|by split]. eapply store_bytes; [done| |exact E]. apply Forall_replicate. apply uint_0. lia.
  - intros j Hj. specialize (Hw (j - i) ltac:(lia)). replace (i + (j - i)) with j in Hw by lia. rewrite Hw.
    unfold peek. destruct (Z.ltb_spec (j - i) 0); [lia|]. apply lookup_replicate_2. lia.
Qed.

Lemma region_bytes d i n bs : bytes_ok d → region d i n = Some bs → bytes_ok bs.
Proof.
  intros Hd. unfold region. destruct (_ && _); [|done]. intros [= <-]. by apply Forall_take, Forall_drop.
Qed.

Lemma get2byteNotZero_spec d i x :
  get2byte d i = Some x → 0 ≤ x < 65536 → get2byteNotZero d i = Some (if x =? 0 then 65536 else x).
Proof.
  intros E Hx. unfold get2byteNotZero. rewrite E. cbn [mbind option_bind]. f_equal. change 0xffff with (Z.ones 16).
  rewrite Z.land_ones by lia. destruct (Z.eqb_spec x 0) as [->|]; [done|]. change (2 ^ 16) with 65536. rewrite Z.mod_small by lia. lia.
Qed.
End bytes.
