(* ===== verification/BtreeCell.v ===== *)
(** * B-tree: pages and cells

    The data of a page of a B-tree, [struct MemPage] and what it uses of [struct
    BtShared], and the routines of btree.c (in sqlite3.c) that find the size of
    a cell and parse it.

    A pointer to a cell is the list of the bytes from there on; reading past the
    end is [None]. *)
From S2P Require Import Prelude Words Varint.
Local Open Scope Z_scope.

(** ** Data *)

Definition PTF_INTKEY : Z := 0x01.
Definition PTF_ZERODATA : Z := 0x02.
Definition PTF_LEAFDATA : Z := 0x04.
Definition PTF_LEAF : Z := 0x08.

(** What pages use of the shared state of the database file; [secure_delete]
    and [cell_size_check] are the flags BTS_SECURE_DELETE and
    SQLITE_CellSizeCk. *)
Record BtShared := mkBtShared {
  pageSize : Z;
  usableSize : Z;
  bt_maxLocal : Z;
  bt_minLocal : Z;
  maxLeaf : Z;
  minLeaf : Z;
  bt_max1bytePayload : Z;
  secure_delete : bool;
  cell_size_check : bool;
  autoVacuum : bool
}.

(** The two methods of a page. *)
Inductive cell_size := CellSizePtr | CellSizePtrNoPayload.
Inductive parse_cell := ParseCellPtr | ParseCellPtrNoPayload | ParseCellPtrIndex.

(** What the flags of a page determine. *)
Record PageKind := mkPageKind {
  intKey : Z;
  intKeyLeaf : Z;
  leaf : Z;
  childPtrSize : Z;
  max1bytePayload : Z;
  maxLocal : Z;
  minLocal : Z;
  xCellSize : cell_size;
  xParseCell : parse_cell
}.

(** [pPayload] is the pointer to the payload, null for a cell without. *)
Record CellInfo := mkCellInfo {
  nKey : Z;
  pPayload : option (list Z);
  nPayload : Z;
  nLocal : Z;
  nSize : Z
}.

(** The limits of a database with the given usable size, from [lockBtree]. *)
Definition payload_limits (pageSize usableSize : Z) (secure_delete cell_size_check autoVacuum : bool) : BtShared :=
  let maxLocal := wrap 16 (u32 (u32 (usableSize - 12) * 64) / 255 - 23) in
  let minLocal := wrap 16 (u32 (u32 (usableSize - 12) * 32) / 255 - 23) in
  mkBtShared pageSize usableSize maxLocal minLocal (wrap 16 (usableSize - 35)) minLocal
    (if 127 <? maxLocal then 127 else u8 maxLocal) secure_delete cell_size_check autoVacuum.

(** ** Flags *)

(** [decodeFlags]: the kind of the page, nothing if it is corrupt. *)
Definition decodeFlags (pBt : BtShared) (flagByte : Z) : option PageKind :=
  let leaf := u8 (Z.shiftr flagByte 3) in
  let flagByte := Z.land flagByte (Z.lnot PTF_LEAF) in
  let childPtrSize := u8 (4 - 4 * leaf) in
  if flagByte =? Z.lor PTF_LEAFDATA PTF_INTKEY then
    Some (mkPageKind 1 (if leaf =? 0 then 0 else 1) leaf childPtrSize (bt_max1bytePayload pBt) (maxLeaf pBt) (minLeaf pBt)
            (if leaf =? 0 then CellSizePtrNoPayload else CellSizePtr)
            (if leaf =? 0 then ParseCellPtrNoPayload else ParseCellPtr))
  else if flagByte =? PTF_ZERODATA then
    Some (mkPageKind 0 0 leaf childPtrSize (bt_max1bytePayload pBt) (bt_maxLocal pBt) (bt_minLocal pBt)
            CellSizePtr ParseCellPtrIndex)
  else None.

(** ** Varints *)

(** The loop [do ... while( *pIter>=0x80 && pIter<pEnd )] and [pIter++]: the
    value and the pointer. [p] is the list of the bytes after [pIter], and [pEnd]
    is [k] bytes after [pIter]. *)
Fixpoint payload_size_loop (k : nat) (nSize : Z) (p : list Z) : option (Z * list Z) :=
  match k with
  | O => None
  | S k =>
    match p with
    | [] => None
    | b :: p =>
      let nSize := Z.lor (u32 (Z.shiftl nSize 7)) (Z.land b 0x7f) in
      if (0x80 <=? b) && (0 <? Z.of_nat k) then payload_size_loop k nSize p else Some (nSize, p)
    end
  end.

(** The inlined reading of the size of the payload. *)
Definition payload_size (p : list Z) : option (Z * list Z) :=
  match p with
  | [] => None
  | b :: p => if 0x80 <=? b then payload_size_loop 8 (Z.land b 0x7f) p else Some (b, p)
  end.

(** The loop [while( *pIter++ & 0x80 && pIter<pEnd )], with [pEnd] [k] bytes
    ahead. *)
Fixpoint skip_varint (k : nat) (p : list Z) : option (list Z) :=
  match k with
  | O => None
  | S k =>
    match p with
    | [] => None
    | b :: p => if negb (Z.land b 0x80 =? 0) && (0 <? Z.of_nat k) then skip_varint k p else Some p
    end
  end.

(** The inlined reading of a 64-bit key, from the second byte on; [k] bytes are
    left before [pEnd]. *)
Fixpoint key_loop (k : nat) (iKey : Z) (p : list Z) : option (Z * list Z) :=
  match p with
  | [] => None
  | b :: p =>
    let iKey := Z.lor (u64 (Z.shiftl iKey 7)) (Z.land b 0x7f) in
    if b <? 0x80 then Some (iKey, p)
    else
      match k with
      | O => None
      | S O => match p with [] => None | b :: p => Some (Z.lor (u64 (Z.shiftl iKey 8)) b, p) end
      | S k => key_loop k iKey p
      end
  end.

Definition cell_key (p : list Z) : option (Z * list Z) :=
  match p with
  | [] => None
  | b :: p => if 0x80 <=? b then key_loop 7 (Z.land b 0x7f) p else Some (b, p)
  end.

Definition s64 (x : Z) : Z := wrap 64 (x + 2 ^ 63) - 2 ^ 63.

(** ** Sizes *)

Section cells.
Context (pBt : BtShared).
Implicit Types (pPage : PageKind) (pCell : list Z).

(** [pIter - pCell]. *)
Definition distance (pIter pCell : list Z) : Z := Z.of_nat (length pCell) - Z.of_nat (length pIter).

(** [&pCell[n]]. *)
Definition advance (pCell : list Z) (n : Z) : option (list Z) :=
  if n <=? Z.of_nat (length pCell) then Some (drop (Z.to_nat n) pCell) else None.

Definition cellSizePtr pPage pCell : option Z :=
  pIter ← advance pCell (childPtrSize pPage);
  '(nSize, pIter) ← payload_size pIter;
  pIter ← (if intKey pPage =? 0 then Some pIter else skip_varint 9 pIter);
  if nSize <=? maxLocal pPage then
    let nSize := u32 (nSize + distance pIter pCell) in
    Some (wrap 16 (if nSize <? 4 then 4 else nSize))
  else
    let nSize := u32 (minLocal pPage + u32 (nSize - minLocal pPage) `mod` u32 (usableSize pBt - 4)) in
    let nSize := if maxLocal pPage <? nSize then minLocal pPage else nSize in
    Some (wrap 16 (nSize + (4 + wrap 16 (distance pIter pCell)))).

Definition cellSizePtrNoPayload pCell : option Z :=
  pIter ← advance pCell 4;
  pIter ← skip_varint 9 pIter;
  Some (wrap 16 (distance pIter pCell)).

(** [pPage->xCellSize(pPage, pCell)]. *)
Definition cellSize pPage pCell : option Z :=
  match xCellSize pPage with
  | CellSizePtr => cellSizePtr pPage pCell
  | CellSizePtrNoPayload => cellSizePtrNoPayload pCell
  end.

(** ** Parsing *)

Definition btreeParseCellAdjustSizeForOverflow pPage pCell (nKey nPayload : Z) (pPayload : list Z) : CellInfo :=
  let surplus := s32 (u32 (minLocal pPage + u32 (nPayload - minLocal pPage) `mod` u32 (usableSize pBt - 4))) in
  let nLocal := if surplus <=? maxLocal pPage then wrap 16 surplus else wrap 16 (minLocal pPage) in
  let nSize := wrap 16 (wrap 16 (distance pPayload pCell + nLocal) + 4) in
  mkCellInfo nKey (Some pPayload) nPayload nLocal nSize.

(** The end of the two functions that parse a cell with payload. *)
Definition finish_parse pPage pCell (nKey nPayload : Z) (pIter : list Z) : CellInfo :=
  if nPayload <=? maxLocal pPage then
    let nSize := wrap 16 (nPayload + wrap 16 (distance pIter pCell)) in
    mkCellInfo nKey (Some pIter) nPayload (wrap 16 nPayload) (if nSize <? 4 then 4 else nSize)
  else btreeParseCellAdjustSizeForOverflow pPage pCell nKey nPayload pIter.

Definition btreeParseCellPtrNoPayload pCell : option CellInfo :=
  p ← advance pCell 4;
  '(n, key) ← sqlite3GetVarint p;
  Some (mkCellInfo (s64 key) None 0 0 (wrap 16 (4 + n))).

Definition btreeParseCellPtr pPage pCell : option CellInfo :=
  '(nPayload, pIter) ← payload_size pCell;
  '(iKey, pIter) ← cell_key pIter;
  Some (finish_parse pPage pCell (s64 iKey) nPayload pIter).

Definition btreeParseCellPtrIndex pPage pCell : option CellInfo :=
  pIter ← advance pCell (childPtrSize pPage);
  '(nPayload, pIter) ← payload_size pIter;
  Some (finish_parse pPage pCell nPayload nPayload pIter).

(** [pPage->xParseCell(pPage, pCell, &info)]. *)
Definition parseCell pPage pCell : option CellInfo :=
  match xParseCell pPage with
  | ParseCellPtr => btreeParseCellPtr pPage pCell
  | ParseCellPtrNoPayload => btreeParseCellPtrNoPayload pCell
  | ParseCellPtrIndex => btreeParseCellPtrIndex pPage pCell
  end.
End cells.
