(* ===== verification/BtreeCellProofs.v ===== *)
(** * B-tree: the sizes of cells

    The inlined readings of varints against the functions they stand for, and
    the size of a cell computed with and without parsing it. *)
From S2P Require Import Prelude Words Bits Varint VarintProofs BtreeCell.
Local Open Scope Z_scope.

(** The limits that [lockBtree] computes, for the page sizes it accepts. *)
Definition limits_ok (pBt : BtShared) : Prop :=
  480 ≤ usableSize pBt ≤ 65536 ∧
  pBt = payload_limits (pageSize pBt) (usableSize pBt) (secure_delete pBt) (cell_size_check pBt) (autoVacuum pBt).

Section varints.
Implicit Types (p q r : list Z) (k : nat) (n v : Z).

Lemma low_bits b : byte_ok b → Z.land b 0x7f = if b <? 128 then b else b - 128.
Proof.
  intros Hb. apply Z.eqb_eq, (all_bytes (λ b, Z.land b 0x7f =? if b <? 128 then b else b - 128) eq_refl b Hb).
Qed.

Lemma low_bits_bound b : byte_ok b → 0 ≤ Z.land b 0x7f < 2 ^ 7.
Proof. intros Hb. rewrite low_bits by done. unfold uint in Hb. destruct (Z.ltb_spec b 128); lia. Qed.

Lemma wrap_shiftl w (k : Z) n : 0 ≤ k ≤ w → wrap w (Z.shiftl n k) = Z.shiftl (wrap (w - k) n) k.
Proof.
  intros Hk. unfold wrap. rewrite !Z.shiftl_mul_pow2 by lia. replace w with (w - k + k) at 1 by lia.
  rewrite Z.pow_add_r by lia. apply Z.mul_mod_distr_r; lia.
Qed.

(** Appending a digit in 32 or 64 bits. *)
Lemma wrap_digit w n b :
  7 ≤ w → byte_ok b → Z.lor (wrap w (Z.shiftl n 7)) (Z.land b 0x7f) = wrap (w - 7) n * 128 + Z.land b 0x7f.
Proof.
  intros Hw Hb. rewrite wrap_shiftl by lia. rewrite lor_shiftl_add; [done|lia|]. by apply low_bits_bound.
Qed.

Lemma wrap_digit_uint w n b : 7 ≤ w → byte_ok b → uint w (wrap (w - 7) n * 128 + Z.land b 0x7f).
Proof.
  intros Hw Hb. pose proof (low_bits_bound b Hb). unfold uint. unfold wrap.
  pose proof (Z.mod_pos_bound n (2 ^ (w - 7))). replace w with (w - 7 + 7) at 3 by lia. rewrite Z.pow_add_r by lia.
  pose proof (Z.pow_pos_nonneg 2 (w - 7)). lia.
Qed.

(** *** The size of the payload *)

(** A reader that consumes a prefix of at most [k] bytes, whatever follows. *)
Definition consumes {A} (f : list Z → option (A * list Z)) (k : nat) p (a : A) q : Prop :=
  ∃ h, p = h ++ q ∧ (1 ≤ length h ≤ k)%nat ∧ ∀ r, f (h ++ r) = Some (a, r).

Lemma payload_size_loop_spec k n p v q :
  bytes_ok p → uint 32 n → payload_size_loop k n p = Some (v, q) → uint 32 v ∧ consumes (payload_size_loop k n) k p v q.
Proof.
  revert n p. induction k as [|k IH]; intros n p Hp Hn E; [done|]. cbn [payload_size_loop] in E. destruct p as [|b p]; [done|].
  apply Forall_cons in Hp as [Hb Hp]. unfold u32 in E. rewrite wrap_digit in E by (done || lia).
  pose proof (wrap_digit_uint 32 n b ltac:(lia) Hb) as Hn'. destruct (_ && _) eqn:Hc.
  - destruct (IH _ _ Hp Hn' E) as (Hv & h & -> & Hh & Hr). split; [done|]. exists (b :: h). split; [done|].
    split; [cbn [length]; lia|]. intros r. cbn [app payload_size_loop]. unfold u32. rewrite wrap_digit by (done || lia).
    by rewrite Hc.
  - injection E as <- <-. split; [done|]. exists [b]. split; [done|]. split; [cbn [length]; lia|].
    intros r. cbn [app payload_size_loop]. unfold u32. rewrite wrap_digit by (done || lia). by rewrite Hc.
Qed.

Lemma payload_size_spec p v q :
  bytes_ok p → payload_size p = Some (v, q) → uint 32 v ∧ consumes payload_size 9 p v q.
Proof.
  intros Hp E. destruct p as [|b p]; [done|]. cbn [payload_size] in E. apply Forall_cons in Hp as [Hb Hp].
  destruct (0x80 <=? b) eqn:Hc.
  - apply payload_size_loop_spec in E as (Hv & h & -> & Hh & Hr); [|done|].
    + split; [done|]. exists (b :: h). split; [done|]. split; [cbn [length]; lia|]. intros r. cbn [app payload_size]. by rewrite Hc.
    + pose proof (low_bits_bound b Hb). unfold uint. lia.
  - injection E as <- <-. split; [by apply (uint_mono 8)|]. exists [b]. split; [done|]. split; [cbn [length]; lia|].
    intros r. cbn [app payload_size]. by rewrite Hc.
Qed.

(** *** Keys *)

Lemma skip_varint_spec k p q :
  skip_varint k p = Some q → ∃ h, p = h ++ q ∧ (1 ≤ length h ≤ k)%nat ∧ ∀ r, skip_varint k (h ++ r) = Some r.
Proof.
  revert p. induction k as [|k IH]; intros p E; [done|]. cbn [skip_varint] in E. destruct p as [|b p]; [done|].
  destruct (_ && _) eqn:Hc.
  - destruct (IH _ E) as (h & -> & Hh & Hr). exists (b :: h). split; [done|]. split; [cbn [length]; lia|].
    intros r. cbn [app skip_varint]. by rewrite Hc.
  - injection E as <-. exists [b]. split; [done|]. split; [cbn [length]; lia|]. intros r. cbn [app skip_varint]. by rewrite Hc.
Qed.

Lemma skip_key_loop k n p : bytes_ok p → skip_varint (S (S k)) p = snd <$> key_loop (S k) n p.
Proof.
  revert n p. induction k as [|k IH]; intros n p Hp; destruct p as [|b p]; try done;
    apply Forall_cons in Hp as [Hb Hp]; change (skip_varint (S (S ?k)) (b :: p)) with
      (if negb (Z.land b 0x80 =? 0) && (0 <? Z.of_nat (S k)) then skip_varint (S k) p else Some p);
    rewrite flag_test by done; cbn [key_loop]; destruct (b <? 128) eqn:E; try done.
  - destruct p as [|b' p]; [done|]. cbn. by rewrite andb_false_r.
  - rewrite (IH (Z.lor (u64 (Z.shiftl n 7)) (Z.land b 127))) by done. done.
Qed.

Lemma skip_varint_key p : bytes_ok p → skip_varint 9 p = snd <$> cell_key p.
Proof.
  intros Hp. destruct p as [|b p]; [done|]. apply Forall_cons in Hp as [Hb Hp].
  change (skip_varint 9 (b :: p)) with (if negb (Z.land b 0x80 =? 0) && (0 <? Z.of_nat 8) then skip_varint 8 p else Some p).
  rewrite flag_test by done. cbn [cell_key]. destruct (Z.ltb_spec b 128), (Z.leb_spec 0x80 b); try lia; [done|].
  by apply skip_key_loop.
Qed.

Lemma key_loop_S k a b p :
  key_loop (S (S k)) a (b :: p) =
    if b <? 0x80 then Some (Z.lor (u64 (Z.shiftl a 7)) (Z.land b 0x7f), p)
    else key_loop (S k) (Z.lor (u64 (Z.shiftl a 7)) (Z.land b 0x7f)) p.
Proof. reflexivity. Qed.

Lemma varint_read_S k n a b p :
  varint_read (S k) n a (b :: p) =
    if b <? 128 then Some (n + 1, a * 128 + b) else varint_read k (n + 1) (a * 128 + (b - 128)) p.
Proof. reflexivity. Qed.

Lemma key_digit k a b :
  byte_ok b → uint (7 * (8 - Z.of_nat (S k))) a → (S k ≤ 7)%nat →
  Z.lor (u64 (Z.shiftl a 7)) (Z.land b 0x7f) = a * 128 + if b <? 128 then b else b - 128.
Proof.
  intros Hb Ha Hk. unfold u64. rewrite wrap_digit, low_bits by (done || lia). rewrite wrap_small; [done|].
  eapply uint_mono; [exact Ha|lia].
Qed.

Lemma key_loop_spec k n a p :
  bytes_ok p → uint (7 * (8 - Z.of_nat (S k))) a → (S k ≤ 7)%nat →
  key_loop (S k) a p = '(m, v) ← varint_read (S k) n a p; Some (v, drop (Z.to_nat (m - n)) p).
Proof.
  revert n a p. induction k as [|k IH]; intros n a p Hp Ha Hk; destruct p as [|b p]; try done;
    apply Forall_cons in Hp as [Hb Hp]; pose proof (key_digit _ a b Hb Ha Hk) as Ed;
    rewrite varint_read_S; [cbn [key_loop]|rewrite key_loop_S]; rewrite Ed; destruct (Z.ltb_spec b 128).
  1,3: cbn [mbind option_bind]; do 2 f_equal; by replace (Z.to_nat (n + 1 - n)) with 1%nat by lia.
  - destruct p as [|b' p]; [done|]. apply Forall_cons in Hp as [Hb' Hp]. cbn [mbind option_bind varint_read].
    replace (Z.to_nat (n + 1 + 1 - n)) with 2%nat by lia. cbn [drop]. do 2 f_equal. unfold u64. rewrite wrap_small.
    + rewrite lor_shiftl_add by (done || lia). lia.
    + unfold uint in *. rewrite Z.shiftl_mul_pow2 by lia. change (7 * (8 - Z.of_nat 1)) with 49 in Ha. lia.
  - rewrite (IH (n + 1)); [|done| |lia].
    + destruct (varint_read (S k) (n + 1) (a * 128 + (b - 128)) p) as [[m v]|] eqn:E; [|done]. cbn [mbind option_bind].
      do 2 f_equal. pose proof (varint_read_bounds (S k) (n + 1) (a * 128 + (b - 128)) p 64 Hp ltac:(lia)) as Hbd.
      rewrite E in Hbd. destruct Hbd as [Hm _].
      { unfold uint in *. pose proof (Z.pow_le_mono_r 2 (7 * (8 - Z.of_nat (S (S k)))) 56 ltac:(lia) ltac:(lia)). lia. }
      replace (Z.to_nat (m - n)) with (S (Z.to_nat (m - (n + 1)))) by lia. done.
    + unfold uint in *. replace (7 * (8 - Z.of_nat (S k))) with (7 * (8 - Z.of_nat (S (S k))) + 7) by lia.
      rewrite Z.pow_add_r by lia. lia.
Qed.

Lemma cell_key_spec p : bytes_ok p → cell_key p = '(n, v) ← sqlite3GetVarint p; Some (v, drop (Z.to_nat n) p).
Proof.
  intros Hp. rewrite getVarint_spec by done. unfold varint_decode. destruct p as [|b p]; [done|].
  apply Forall_cons in Hp as [Hb Hp]. cbn [cell_key]. rewrite varint_read_S, low_bits by done.
  destruct (Z.ltb_spec b 128), (Z.leb_spec 0x80 b); try lia; [done|].
  change (varint_read 7 (0 + 1) (0 * 128 + (b - 128)) p) with (varint_read 7 1 (b - 128) p).
  rewrite (key_loop_spec 6 1) by (done || (unfold uint in *; cbn; lia)).
  destruct (varint_read 7 1 (b - 128) p) as [[m v]|] eqn:E; [|done]. cbn [mbind option_bind]. do 2 f_equal.
  pose proof (varint_read_bounds 7 1 (b - 128) p 64 Hp ltac:(lia)) as Hbd. rewrite E in Hbd.
  destruct Hbd as [Hm _]; [unfold uint in *; lia|]. by replace (Z.to_nat m) with (S (Z.to_nat (m - 1))) by lia.
Qed.


(** *** The size of the payload is a varint modulo 2^32 *)

Lemma payload_loop_varint k n a p m v :
  bytes_ok p → varint_read k n a p = Some (m, v) → m - n ≤ Z.of_nat k →
  payload_size_loop (S k) (u32 a) p = Some (u32 v, drop (Z.to_nat (m - n)) p).
Proof.
  revert n a p. induction k as [|k IH]; intros n a p Hp E Hm.
  { exfalso. destruct p as [|b p]; [done|]. injection E as <- _. lia. }
  destruct p as [|b p]; [done|]. apply Forall_cons in Hp as [Hb Hp]. rewrite varint_read_S in E.
  assert (Z.lor (u32 (Z.shiftl (u32 a) 7)) (Z.land b 0x7f) = u32 (a * 128 + if b <? 128 then b else b - 128)) as Ed.
  { unfold u32 at 1. rewrite wrap_digit by (done || lia). rewrite low_bits by done. unfold u32, wrap.
    set (c := if b <? 128 then b else b - 128). assert (0 ≤ c < 128) as Hc.
    { subst c. unfold uint in Hb. destruct (Z.ltb_spec b 128); lia. }
    apply (Z.mod_unique_pos _ _ (a / 2 ^ 25)).
    - pose proof (Z.mod_pos_bound (a mod 2 ^ 32) (2 ^ (32 - 7)) ltac:(lia)). lia.
    - change (32 - 7) with 25. replace (a mod 2 ^ 32) with (a mod (2 ^ 7 * 2 ^ 25)) by done.
      rewrite (Z.mul_comm (2 ^ 7)), Z.rem_mul_r by lia. rewrite (Z.mul_comm (2 ^ 25)), Z_mod_plus_full, Z.mod_mod by lia.
      pose proof (Z.div_mod a (2 ^ 25)). lia. }
  change (payload_size_loop (S (S k)) (u32 a) (b :: p)) with
    (let n' := Z.lor (u32 (Z.shiftl (u32 a) 7)) (Z.land b 0x7f) in
     if (0x80 <=? b) && (0 <? Z.of_nat (S k)) then payload_size_loop (S k) n' p else Some (n', p)).
  cbv zeta. rewrite Ed. replace (0 <? Z.of_nat (S k)) with true by (symmetry; apply Z.ltb_lt; lia). rewrite andb_true_r.
  destruct (Z.ltb_spec b 128), (Z.leb_spec 0x80 b); try lia.
  - injection E as <- <-. by replace (Z.to_nat (n + 1 - n)) with 1%nat by lia.
  - rewrite (IH (n + 1) _ p Hp E) by lia.
    assert (n + 1 < m).
    { pose proof (varint_read_bounds k (n + 1) 0 p 0 Hp ltac:(lia) ltac:(split; done)) as Hbd.
      assert (∀ k n a a' p, fst <$> varint_read k n a p = fst <$> varint_read k n a' p) as Hfst.
      { clear. intros k. induction k as [|k IH]; intros n a a' [|b p]; try done. cbn [varint_read].
        destruct (b <? 128); [done|]. apply IH. }
      specialize (Hfst k (n + 1) 0 (a * 128 + (b - 128)) p). rewrite E in Hfst.
      destruct (varint_read k (n + 1) 0 p) as [[m' v']|]; [|done]. injection Hfst as ->. lia. }
    by replace (Z.to_nat (m - n)) with (S (Z.to_nat (m - (n + 1)))) by lia.
Qed.
End varints.

(** ** The limits *)

Lemma limits_bounds pBt :
  limits_ok pBt →
  0 ≤ bt_minLocal pBt ≤ bt_maxLocal pBt ∧ bt_maxLocal pBt ≤ usableSize pBt - 35 ∧
  minLeaf pBt = bt_minLocal pBt ∧ maxLeaf pBt = usableSize pBt - 35.
Proof.
  intros [Hu Hp]. rewrite Hp. cbn. set (u := usableSize pBt) in *. clearbody u. clear Hp.
  unfold u32. rewrite (wrap_small 32 (u - 12)) by (unfold uint; lia). rewrite !(wrap_small 32) by (unfold uint; lia).
  pose proof (Z.div_le_mono ((u - 12) * 32) ((u - 12) * 64) 255 ltac:(lia) ltac:(lia)).
  pose proof (Z.div_le_mono (468 * 32) ((u - 12) * 32) 255 ltac:(lia) ltac:(lia)) as Hlow.
  change (468 * 32 / 255) with 58 in Hlow.
  pose proof (Z.div_le_upper_bound ((u - 12) * 64) 255 (u - 12) ltac:(lia) ltac:(lia)).
  rewrite !wrap_small by (unfold uint; lia). lia.
Qed.

(** The kinds of a page and their limits. *)
Definition kind_ok (pBt : BtShared) (pPage : PageKind) : Prop :=
  ∃ flags, byte_ok flags ∧ decodeFlags pBt flags = Some pPage.

Lemma leaf_flag flags :
  byte_ok flags →
  (Z.land flags (Z.lnot PTF_LEAF) =? 5) || (Z.land flags (Z.lnot PTF_LEAF) =? 2) = true →
  u8 (Z.shiftr flags 3) = 0 ∨ u8 (Z.shiftr flags 3) = 1.
Proof.
  intros Hf Hor. pose proof (all_bytes (λ f, implb ((Z.land f (Z.lnot PTF_LEAF) =? 5) || (Z.land f (Z.lnot PTF_LEAF) =? 2))
    ((u8 (Z.shiftr f 3) =? 0) || (u8 (Z.shiftr f 3) =? 1))) eq_refl flags Hf) as H. cbn beta in H. rewrite Hor in H.
  apply orb_true_iff in H as [H|H]; apply Z.eqb_eq in H; tauto.
Qed.

Lemma kind_cases pBt pPage :
  limits_ok pBt → kind_ok pBt pPage →
  0 ≤ minLocal pPage ≤ maxLocal pPage ∧ maxLocal pPage ≤ usableSize pBt - 35 ∧
  ((xCellSize pPage = CellSizePtr ∧ childPtrSize pPage = 0 ∧ intKey pPage = 1 ∧ xParseCell pPage = ParseCellPtr) ∨
   (xCellSize pPage = CellSizePtrNoPayload ∧ childPtrSize pPage = 4 ∧ xParseCell pPage = ParseCellPtrNoPayload) ∨
   (xCellSize pPage = CellSizePtr ∧ (childPtrSize pPage = 0 ∨ childPtrSize pPage = 4) ∧ intKey pPage = 0 ∧
    xParseCell pPage = ParseCellPtrIndex)).
Proof.
  intros Hl (flags & Hf & E). pose proof (limits_bounds pBt Hl) as Hb. unfold decodeFlags in E.
  pose proof (leaf_flag flags Hf) as Hleaf. set (f := Z.land flags (Z.lnot PTF_LEAF)) in *.
  change (Z.lor PTF_LEAFDATA PTF_INTKEY) with 5 in E. change PTF_ZERODATA with 2 in E. clearbody f.
  destruct (f =? 5); [|destruct (f =? 2); [|done]]; cbn [orb] in Hleaf; injection E as <-; cbn;
    destruct (Hleaf eq_refl) as [-> | ->]; cbn; (split; [lia|]; split; [lia|]).
  - right; left. done.
  - left. done.
  - right; right. split; [done|]. split; [by right|done].
  - right; right. split; [done|]. split; [by left|done].
Qed.

(** ** The size of a cell *)

Section sizes.
Context (pBt : BtShared) (pPage : PageKind).
Context (Hlimits : limits_ok pBt) (Hkind : kind_ok pBt pPage).
Implicit Types (pCell p q r : list Z).

(** The size that the header [h] of a cell with a payload of [n] bytes gives. *)
Definition sized (n h : Z) : Z :=
  if n <=? maxLocal pPage then Z.max 4 (n + h)
  else let m := minLocal pPage + (n - minLocal pPage) `mod` (usableSize pBt - 4) in
       (if maxLocal pPage <? m then minLocal pPage else m) + 4 + h.

Lemma overflow_local n :
  uint 32 n → maxLocal pPage < n →
  u32 (minLocal pPage + u32 (n - minLocal pPage) `mod` u32 (usableSize pBt - 4)) =
    minLocal pPage + (n - minLocal pPage) `mod` (usableSize pBt - 4) ∧
  0 ≤ minLocal pPage + (n - minLocal pPage) `mod` (usableSize pBt - 4) < 2 ^ 31.
Proof.
  intros Hn Hm. destruct (kind_cases _ _ Hlimits Hkind) as (Hmin & Hmax & _). destruct Hlimits as [Hu _]. unfold uint in Hn.
  unfold u32. rewrite (wrap_small 32 (n - _)) by (unfold uint; lia). rewrite (wrap_small 32 (usableSize pBt - 4)) by (unfold uint; lia).
  pose proof (Z.mod_pos_bound (n - minLocal pPage) (usableSize pBt - 4) ltac:(lia)).
  rewrite wrap_small by (unfold uint; lia). lia.
Qed.

Lemma sized_bounds n h : 0 ≤ h ≤ 30 → 0 ≤ n → 0 ≤ sized n h < 65536 ∧ h ≤ sized n h ∧ 4 ≤ sized n h.
Proof.
  intros Hh Hn. destruct (kind_cases _ _ Hlimits Hkind) as (Hmin & Hmax & _). destruct Hlimits as [Hu _]. unfold sized.
  destruct (Z.leb_spec n (maxLocal pPage)); [lia|].
  pose proof (Z.mod_pos_bound (n - minLocal pPage) (usableSize pBt - 4) ltac:(lia)). cbv zeta.
  destruct (Z.ltb_spec (maxLocal pPage) (minLocal pPage + (n - minLocal pPage) `mod` (usableSize pBt - 4))); lia.
Qed.

Lemma cellSizePtr_eq n q pCell :
  uint 32 n → 0 ≤ distance q pCell ≤ 30 →
  (if n <=? maxLocal pPage then
    let nSize := u32 (n + distance q pCell) in
    wrap 16 (if nSize <? 4 then 4 else nSize)
  else
    let nSize := u32 (minLocal pPage + u32 (n - minLocal pPage) `mod` u32 (usableSize pBt - 4)) in
    let nSize := if maxLocal pPage <? nSize then minLocal pPage else nSize in
    wrap 16 (nSize + (4 + wrap 16 (distance q pCell)))) = sized n (distance q pCell).
Proof.
  intros Hn Hd. set (h := distance q pCell) in *. clearbody h. pose proof (sized_bounds n h Hd ltac:(unfold uint in Hn; lia)) as (Hb & _).
  destruct (kind_cases _ _ Hlimits Hkind) as (Hmin & Hmax & _). pose proof Hlimits as [Hu _]. unfold sized in *.
  destruct (Z.leb_spec n (maxLocal pPage)).
  - cbv zeta. unfold u32. rewrite (wrap_small 32) by (unfold uint in *; lia).
    destruct (Z.ltb_spec (n + h) 4); rewrite wrap_small by (unfold uint in *; lia); lia.
  - destruct (overflow_local n Hn) as [-> Hm]; [lia|]. cbv zeta in *. rewrite (wrap_small 16 h) by (unfold uint; lia).
    destruct (Z.ltb_spec (maxLocal pPage) (minLocal pPage + (n - minLocal pPage) `mod` (usableSize pBt - 4)));
      rewrite wrap_small by (unfold uint; lia); lia.
Qed.

Lemma finish_parse_nSize nKey n q pCell :
  uint 32 n → 0 ≤ distance q pCell ≤ 30 → nSize (finish_parse pBt pPage pCell nKey n q) = sized n (distance q pCell).
Proof.
  intros Hn Hd. unfold finish_parse, btreeParseCellAdjustSizeForOverflow.
  set (h := distance q pCell) in *. clearbody h. pose proof (sized_bounds n h Hd ltac:(unfold uint in Hn; lia)) as (Hb & _).
  destruct (kind_cases _ _ Hlimits Hkind) as (Hmin & Hmax & _). pose proof Hlimits as [Hu _]. unfold sized in *.
  destruct (Z.leb_spec n (maxLocal pPage)); cbn [nSize].
  - rewrite (wrap_small 16 h) by (unfold uint; lia). rewrite wrap_small by (unfold uint in *; lia).
    destruct (Z.ltb_spec (n + h) 4); lia.
  - destruct (overflow_local n Hn) as [-> Hm]; [lia|]. cbv zeta in *.
    assert (s32 (minLocal pPage + (n - minLocal pPage) `mod` (usableSize pBt - 4)) =
      minLocal pPage + (n - minLocal pPage) `mod` (usableSize pBt - 4)) as ->.
    { unfold s32. rewrite wrap_small by (unfold uint; lia). lia. }
    set (m := minLocal pPage + _) in *. clearbody m.
    assert (∀ l, 0 ≤ l ≤ maxLocal pPage → wrap 16 (wrap 16 (h + wrap 16 l) + 4) = l + 4 + h) as Hw.
    { intros l Hl. rewrite (wrap_small 16 l) by (unfold uint; lia). rewrite (wrap_small 16 (h + l)) by (unfold uint; lia).
      rewrite wrap_small by (unfold uint; lia). lia. }
    destruct (Z.leb_spec m (maxLocal pPage)), (Z.ltb_spec (maxLocal pPage) m); try lia; cbn [nSize]; apply Hw; lia.
Qed.

(** A well-formed result of parsing. *)
Definition cellinfo_ok (k : PageKind) pCell (info : CellInfo) : Prop :=
  uint 32 (nPayload info) ∧ - 2 ^ 63 ≤ nKey info < 2 ^ 63 ∧ 0 ≤ nLocal info ≤ Z.min (nPayload info) (maxLocal k) ∧
  (nLocal info < nPayload info → minLocal k ≤ nLocal info) ∧ 4 ≤ nSize info < 65536 ∧
  match pPayload info with
  | None => nPayload info = 0 ∧ childPtrSize k = 4
  | Some q => ∃ h, pCell = h ++ q ∧ childPtrSize k < Z.of_nat (length h) ≤ 18 ∧
      nSize info = Z.max 4 (Z.of_nat (length h) + nLocal info + if nLocal info <? nPayload info then 4 else 0)
  end.

Lemma s64_range x : - 2 ^ 63 ≤ s64 x < 2 ^ 63.
Proof. unfold s64. pose proof (wrap_uint 64 (x + 2 ^ 63) ltac:(lia)) as H. unfold uint in H. lia. Qed.

Lemma finish_parse_ok nKey n h q :
  uint 32 n → - 2 ^ 63 ≤ nKey < 2 ^ 63 → childPtrSize pPage < Z.of_nat (length h) ≤ 18 →
  cellinfo_ok pPage (h ++ q) (finish_parse pBt pPage (h ++ q) nKey n q).
Proof.
  intros Hn Hkey Hh. assert (distance q (h ++ q) = Z.of_nat (length h)) as Hd by (unfold distance; rewrite length_app; lia).
  pose proof (finish_parse_nSize nKey n q (h ++ q) Hn ltac:(lia)) as Hsz. rewrite Hd in Hsz.
  pose proof (sized_bounds n (Z.of_nat (length h)) ltac:(lia) ltac:(unfold uint in Hn; lia)) as (Hsb & _ & Hsb4).
  destruct (kind_cases _ _ Hlimits Hkind) as (Hmin & Hmax & _). pose proof Hlimits as [Hu _].
  unfold cellinfo_ok. rewrite Hsz. clear Hsz Hd. unfold finish_parse, btreeParseCellAdjustSizeForOverflow, sized in *.
  destruct (Z.leb_spec n (maxLocal pPage)); cbn [nPayload BtreeCell.nKey nLocal pPayload nSize] in *.
  - rewrite wrap_small by (unfold uint in *; lia). rewrite Z.ltb_irrefl. split_and!; try done; try (unfold uint in *; lia).
    exists h. split_and!; try done; lia.
  - destruct (overflow_local n Hn) as [-> Hm]; [lia|]. cbv zeta in *.
    assert (s32 (minLocal pPage + (n - minLocal pPage) `mod` (usableSize pBt - 4)) =
      minLocal pPage + (n - minLocal pPage) `mod` (usableSize pBt - 4)) as ->.
    { unfold s32. rewrite wrap_small by (unfold uint; lia). lia. }
    pose proof (Z.mod_pos_bound (n - minLocal pPage) (usableSize pBt - 4) ltac:(lia)) as Hr. set (r := (n - minLocal pPage) mod _) in *.
    clearbody r. destruct (Z.leb_spec (minLocal pPage + r) (maxLocal pPage)), (Z.ltb_spec (maxLocal pPage) (minLocal pPage + r)); try lia;
      rewrite !wrap_small by (unfold uint; lia); (split_and!; try done; try (unfold uint in *; lia)).
    all: exists h; split_and!; try done; try lia.
    all: match goal with |- context [?l <? ?m] => destruct (Z.ltb_spec l m) end; lia.
Qed.

(** The two ways of computing the size agree on all bytes, also where the cell
    is cut off by the end of the page. *)
Lemma cellSize_parseCell pCell :
  bytes_ok pCell → cellSize pBt pPage pCell = nSize <$> parseCell pBt pPage pCell.
Proof.
  intros Hb. unfold cellSize, parseCell.
  destruct (kind_cases _ _ Hlimits Hkind) as (_ & _ & [(-> & Hc & Hi & ->)|[(-> & Hc & ->)|(-> & Hc & Hi & ->)]]).
  - unfold cellSizePtr, btreeParseCellPtr. rewrite Hc, Hi. cbn [Z.eqb].
    change (advance pCell 0) with (if 0 <=? Z.of_nat (length pCell) then Some pCell else None).
    destruct (Z.leb_spec 0 (Z.of_nat (length pCell))); [|lia]. cbn [mbind option_bind].
    destruct (payload_size pCell) as [[n q]|] eqn:E; [|done]. cbn [mbind option_bind].
    destruct (payload_size_spec _ _ _ Hb E) as (Hn & h & Eh & Hh & _).
    assert (bytes_ok q) as Hq by (rewrite Eh in Hb; by apply Forall_app in Hb as [_ ?]).
    rewrite (skip_varint_key q Hq). destruct (cell_key q) as [[key q']|] eqn:Ek; [|done].
    cbn [fmap option_fmap option_map mbind option_bind snd].
    assert (skip_varint 9 q = Some q') as Hs by (by rewrite skip_varint_key, Ek).
    destruct (skip_varint_spec _ _ _ Hs) as (h' & Eh' & Hh' & _).
    assert (0 ≤ distance q' pCell ≤ 30) as Hd.
    { unfold distance. rewrite Eh, Eh', !length_app. lia. }
    rewrite finish_parse_nSize by done. rewrite <-(cellSizePtr_eq n q' pCell) by done. by destruct (n <=? maxLocal pPage).
  - unfold cellSizePtrNoPayload, btreeParseCellPtrNoPayload. unfold advance.
    destruct (Z.leb_spec 4 (Z.of_nat (length pCell))); [|done]. cbn [mbind option_bind].
    change (Z.to_nat 4) with 4%nat. assert (bytes_ok (drop 4 pCell)) as Hb4 by (by apply Forall_drop).
    rewrite skip_varint_key, cell_key_spec by done. rewrite getVarint_spec by done.
    destruct (varint_decode (drop 4 pCell)) as [[n v]|] eqn:E; [|done].
    cbn [fmap option_fmap option_map mbind option_bind snd nSize]. do 2 f_equal.
    destruct (varint_decode_bounds _ _ _ Hb4 E) as (Hn & Hn' & _). rewrite length_drop in Hn'.
    unfold distance. rewrite !length_drop. lia.
  - unfold cellSizePtr, btreeParseCellPtrIndex. rewrite Hi. cbn [Z.eqb].
    destruct (advance pCell (childPtrSize pPage)) as [p|] eqn:Ea; [|done]. cbn [mbind option_bind].
    assert (p = drop (Z.to_nat (childPtrSize pPage)) pCell ∧ childPtrSize pPage ≤ Z.of_nat (length pCell)) as [-> Hlen].
    { unfold advance in Ea. destruct (Z.leb_spec (childPtrSize pPage) (Z.of_nat (length pCell))); [|done]. by injection Ea as <-. }
    assert (bytes_ok (drop (Z.to_nat (childPtrSize pPage)) pCell)) as Hb' by (by apply Forall_drop).
    destruct (payload_size _) as [[n q]|] eqn:E; [|done]. cbn [mbind option_bind fmap option_fmap option_map].
    destruct (payload_size_spec _ _ _ Hb' E) as (Hn & h & Eh & Hh & _).
    assert (0 ≤ distance q pCell ≤ 30) as Hd.
    { apply (f_equal length) in Eh. rewrite length_drop, length_app in Eh. unfold distance. lia. }
    rewrite finish_parse_nSize by done. rewrite <-(cellSizePtr_eq n q pCell) by done. by destruct (n <=? maxLocal pPage).
Qed.
(** ** Cells *)

Lemma distance_app q p r : distance (q ++ r) (p ++ r) = distance q p.
Proof. unfold distance. rewrite !length_app. lia. Qed.

Lemma advance_Some p n q : advance p n = Some q → ∃ h, p = h ++ q ∧ length h = Z.to_nat n ∧ ∀ r, advance (p ++ r) n = Some (q ++ r).
Proof.
  unfold advance. destruct (Z.leb_spec n (Z.of_nat (length p))); [|done]. intros [= <-].
  exists (take (Z.to_nat n) p). rewrite take_drop, length_take. split; [done|]. split; [lia|]. intros r.
  rewrite length_app. destruct (Z.leb_spec n (Z.of_nat (length p + length r))); [|lia]. rewrite drop_app_le by lia. done.
Qed.

(** A header read from a cell is read from whatever begins with the cell. *)
Lemma cellSize_app c r n :
  bytes_ok c → cellSize pBt pPage c = Some n → cellSize pBt pPage (c ++ r) = Some n ∧ 4 ≤ n < 65536.
Proof.
  intros Hb. unfold cellSize.
  destruct (kind_cases _ _ Hlimits Hkind) as (_ & _ & Hcases). assert (0 ≤ childPtrSize pPage ≤ 4) as Hc by naive_solver lia.
  destruct (xCellSize pPage).
  - unfold cellSizePtr. destruct (advance c (childPtrSize pPage)) as [p|] eqn:Ea; [|done].
    destruct (advance_Some _ _ _ Ea) as (h0 & E0 & Hl0 & Ha). rewrite Ha. cbn [mbind option_bind].
    assert (bytes_ok p) as Hp by (rewrite E0 in Hb; by apply Forall_app in Hb as [_ ?]).
    destruct (payload_size p) as [[m q]|] eqn:E; [|done]. cbn [mbind option_bind].
    destruct (payload_size_spec _ _ _ Hp E) as (Hm & h & Eh & Hh & Hr). rewrite Eh, <-app_assoc, Hr. cbn [mbind option_bind].
    assert (∀ q', (if intKey pPage =? 0 then Some q else skip_varint 9 q) = Some q' →
      (if intKey pPage =? 0 then Some (q ++ r) else skip_varint 9 (q ++ r)) = Some (q' ++ r) ∧ 0 ≤ distance q' c ≤ 30) as Hq.
    { intros q'. destruct (intKey pPage =? 0).
      - intros [= ->]. split; [done|]. unfold distance. rewrite E0, Eh, !length_app. lia.
      - intros Hs. destruct (skip_varint_spec _ _ _ Hs) as (h' & -> & Hh' & Hr'). rewrite <-app_assoc. split; [apply Hr'|].
        unfold distance. rewrite E0, Eh, !length_app. lia. }
    destruct (if intKey pPage =? 0 then Some q else skip_varint 9 q) as [q'|]; [|done].
    destruct (Hq q' eq_refl) as [-> Hd]. cbn [mbind option_bind]. rewrite distance_app.
    pose proof (cellSizePtr_eq m q' c Hm Hd) as Heq. pose proof (sized_bounds m _ Hd ltac:(unfold uint in Hm; lia)) as (? & ? & ?).
    destruct (m <=? maxLocal pPage); cbv zeta in *; rewrite Heq; intros [= <-]; (split; [done|lia]).
  - unfold cellSizePtrNoPayload. destruct (advance c 4) as [p|] eqn:Ea; [|done].
    destruct (advance_Some _ _ _ Ea) as (h0 & E0 & Hl0 & Ha). rewrite Ha. cbn [mbind option_bind].
    destruct (skip_varint 9 p) as [q|] eqn:E; [|done]. destruct (skip_varint_spec _ _ _ E) as (h & Eh & Hh & Hr).
    rewrite Eh, <-app_assoc, Hr. cbn [mbind option_bind]. rewrite distance_app. intros [= <-]. split; [done|].
    unfold distance. rewrite E0, Eh, !length_app. rewrite wrap_small by (unfold uint; lia). lia.
Qed.
(** The child pointer does not matter for the size. *)
Lemma cellSize_child b c :
  childPtrSize pPage = 4 → length b = 4%nat → (4 ≤ length c)%nat → cellSize pBt pPage (b ++ drop 4 c) = cellSize pBt pPage c.
Proof.
  intros Hc Hb Hl. assert (∀ q, distance q (b ++ drop 4 c) = distance q c) as Hd.
  { intros q. unfold distance. rewrite length_app, length_drop. lia. }
  assert (advance (b ++ drop 4 c) 4 = advance c 4) as Ha.
  { unfold advance. rewrite length_app, length_drop. destruct (Z.leb_spec 4 (Z.of_nat (length b + (length c - 4)))); [|lia].
    destruct (Z.leb_spec 4 (Z.of_nat (length c))); [|lia]. change (Z.to_nat 4) with 4%nat.
    rewrite drop_app_ge by lia. by replace (4 - length b)%nat with 0%nat by lia. }
  unfold cellSize, cellSizePtr, cellSizePtrNoPayload. rewrite Hc, Ha. destruct (xCellSize pPage), (advance c 4) as [p|]; try done;
    cbn [mbind option_bind].
  - destruct (payload_size p) as [[n q]|]; [|done]. cbn [mbind option_bind].
    destruct (if intKey pPage =? 0 then Some q else skip_varint 9 q) as [q'|]; [|done]. cbn [mbind option_bind]. by rewrite Hd.
  - destruct (skip_varint 9 p) as [q|]; [|done]. cbn [mbind option_bind]. by rewrite Hd.
Qed.

(** A cell of an interior page has more than its child pointer. *)
Lemma cellSize_header c n : bytes_ok c → cellSize pBt pPage c = Some n → childPtrSize pPage < n.
Proof.
  intros Hb. unfold cellSize.
  destruct (kind_cases _ _ Hlimits Hkind) as (_ & _ & Hcases). assert (0 ≤ childPtrSize pPage ≤ 4) as Hc by naive_solver lia.
  assert (xCellSize pPage = CellSizePtrNoPayload → childPtrSize pPage = 4) as Hc4 by (intros E; rewrite E in Hcases; naive_solver).
  destruct (xCellSize pPage).
  - unfold cellSizePtr. destruct (advance c (childPtrSize pPage)) as [p|] eqn:Ea; [|done].
    destruct (advance_Some _ _ _ Ea) as (h0 & E0 & Hl0 & _). cbn [mbind option_bind].
    assert (bytes_ok p) as Hp by (rewrite E0 in Hb; by apply Forall_app in Hb as [_ ?]).
    destruct (payload_size p) as [[m q]|] eqn:E; [|done]. cbn [mbind option_bind].
    destruct (payload_size_spec _ _ _ Hp E) as (Hm & h & Eh & Hh & _).
    assert (∀ q', (if intKey pPage =? 0 then Some q else skip_varint 9 q) = Some q' → childPtrSize pPage < distance q' c ≤ 30) as Hq.
    { intros q'. destruct (intKey pPage =? 0).
      - intros [= ->]. unfold distance. rewrite E0, Eh, !length_app. lia.
      - intros Hs. destruct (skip_varint_spec _ _ _ Hs) as (h' & -> & Hh' & _). unfold distance. rewrite E0, Eh, !length_app. lia. }
    destruct (if intKey pPage =? 0 then Some q else skip_varint 9 q) as [q'|]; [|done]. cbn [mbind option_bind].
    specialize (Hq q' eq_refl). pose proof (cellSizePtr_eq m q' c Hm ltac:(lia)) as Heq.
    pose proof (sized_bounds m (distance q' c) ltac:(lia) ltac:(unfold uint in Hm; lia)) as (? & ? & ?).
    destruct (m <=? maxLocal pPage); cbv zeta in *; rewrite Heq; intros [= <-]; lia.
  - rewrite Hc4 by done. unfold cellSizePtrNoPayload. destruct (advance c 4) as [p|] eqn:Ea; [|done].
    destruct (advance_Some _ _ _ Ea) as (h0 & E0 & Hl0 & _). cbn [mbind option_bind].
    destruct (skip_varint 9 p) as [q|] eqn:E; [|done]. destruct (skip_varint_spec _ _ _ E) as (h & Eh & Hh & _).
    cbn [mbind option_bind]. intros [= <-]. unfold distance. rewrite E0, Eh, !length_app.
    rewrite wrap_small by (unfold uint; lia). lia.
Qed.
End sizes.
