(* ===== verification/BtreePage.v ===== *)
(** * B-tree: the space of a page

    The routines of btree.c (in sqlite3.c) that manage the bytes of a page: the
    list of free blocks, defragmentation, allocation, the initialisation of a
    page, and the insertion and removal of cells.

    The results are a result code and a page; [None] stands for a read or write
    outside the page or a loop without end. *)
From S2P Require Import Prelude Words Varint BtreeBytes BtreeCell.
Local Open Scope Z_scope.

(** [isInit], [nOverflow] with the arrays of overflow cells, of which the
    contents are kept, and the rest of [struct MemPage]. *)
Record MemPage := mkMemPage {
  isInit : bool;
  kind : PageKind;
  pgno : Z;
  hdrOffset : Z;
  cellOffset : Z;
  nFree : Z;
  nCell : Z;
  maskPage : Z;
  overflow : list (Z * list Z);
  aData : list Z
}.

Section page.
Context (pBt : BtShared).
Implicit Types (pPage : MemPage) (data : list Z).

Definition set_data pPage data : MemPage :=
  mkMemPage (isInit pPage) (kind pPage) (pgno pPage) (hdrOffset pPage) (cellOffset pPage) (nFree pPage) (nCell pPage)
    (maskPage pPage) (overflow pPage) data.
Definition set_nFree pPage (n : Z) : MemPage :=
  mkMemPage (isInit pPage) (kind pPage) (pgno pPage) (hdrOffset pPage) (cellOffset pPage) (wrap 16 n) (nCell pPage)
    (maskPage pPage) (overflow pPage) (aData pPage).
Definition set_nCell pPage (n : Z) : MemPage :=
  mkMemPage (isInit pPage) (kind pPage) (pgno pPage) (hdrOffset pPage) (cellOffset pPage) (nFree pPage) (wrap 16 n)
    (maskPage pPage) (overflow pPage) (aData pPage).
Definition set_overflow pPage (o : list (Z * list Z)) : MemPage :=
  mkMemPage (isInit pPage) (kind pPage) (pgno pPage) (hdrOffset pPage) (cellOffset pPage) (nFree pPage) (nCell pPage)
    (maskPage pPage) o (aData pPage).

(** The macro: the offset of a cell. *)
Definition findCell pPage (i : Z) : option Z :=
  x ← get2byte (aData pPage) (cellOffset pPage + 2 * i);
  Some (Z.land (maskPage pPage) x).

(** ** Defragmentation *)

(** The size of the cell at [src[pc]]. *)
Definition size_at pPage (src : list Z) (pc : Z) : option Z :=
  p ← advance src pc; cellSize pBt (kind pPage) p.

(** [for(i=0; i<nCell; i++)], with [n] iterations left: the result code, the
    data and [cbrk]. [temp] is null or the copy of the cells, [space] what the
    temporary space of the pager holds. *)
Fixpoint defrag_loop (n : nat) pPage (space : list Z) (iCellFirst iCellLast i : Z) data (temp : option (list Z)) (cbrk : Z)
    : option (Z * list Z * Z) :=
  match n with
  | O => Some (SQLITE_OK, data, cbrk)
  | S n =>
    let pAddr := cellOffset pPage + i * 2 in
    pc ← get2byte data pAddr;
    if (pc <? iCellFirst) || (iCellLast <? pc) then Some (SQLITE_CORRUPT, data, cbrk)
    else
      size ← size_at pPage (default data temp) pc;
      let cbrk := cbrk - size in
      if (cbrk <? iCellFirst) || (usableSize pBt <? pc + size) then Some (SQLITE_CORRUPT, data, cbrk)
      else
        data ← put2byte data pAddr cbrk;
        match temp with
        | None =>
          if cbrk =? pc then defrag_loop n pPage space iCellFirst iCellLast (i + 1) data None cbrk
          else
            x ← get2byte data (hdrOffset pPage + 5);
            temp ← copy space x data x (cbrk + size - x);
            data ← copy data cbrk temp pc size;
            defrag_loop n pPage space iCellFirst iCellLast (i + 1) data (Some temp) cbrk
        | Some src =>
          data ← copy data cbrk src pc size;
          defrag_loop n pPage space iCellFirst iCellLast (i + 1) data temp cbrk
        end
  end.

Definition defragmentPage (space : list Z) pPage : option (Z * MemPage) :=
  let hdr := hdrOffset pPage in
  let iCellFirst := cellOffset pPage + 2 * nCell pPage in
  let iCellLast := usableSize pBt - 4 in
  '(rc, data, cbrk) ←
    defrag_loop (Z.to_nat (nCell pPage)) pPage space iCellFirst iCellLast 0 (aData pPage) None (usableSize pBt);
  if negb (rc =? SQLITE_OK) then Some (rc, set_data pPage data)
  else
    data ← put2byte data (hdr + 5) cbrk;
    data ← put data (hdr + 1) 0;
    data ← put data (hdr + 2) 0;
    data ← put data (hdr + 7) 0;
    data ← zero data iCellFirst (cbrk - iCellFirst);
    Some (if negb (cbrk - iCellFirst =? nFree pPage) then SQLITE_CORRUPT else SQLITE_OK, set_data pPage data).

(** ** Allocation *)

(** The loop of [pageFindSlot]: the result code, the data, and the offset of
    the space if there is one. *)
Fixpoint find_slot_loop (fuel : nat) pPage (nByte : Z) data (iAddr pc : Z) : option (Z * list Z * option Z) :=
  match fuel with
  | O => None
  | S fuel =>
    if (usableSize pBt - 4 <? pc) || (pc <? iAddr + 4) then Some (SQLITE_CORRUPT, data, None)
    else
      size ← get2byte data (pc + 2);
      let x := size - nByte in
      if 0 <=? x then
        if (pc <? cellOffset pPage + 2 * nCell pPage) || (usableSize pBt <? size + pc) then Some (SQLITE_CORRUPT, data, None)
        else if x <? 4 then
          frag ← peek data (hdrOffset pPage + 7);
          if 57 <? frag then Some (SQLITE_OK, data, None)
          else
            data ← copy data iAddr data pc 2;
            data ← put data (hdrOffset pPage + 7) (frag + u8 x);
            Some (SQLITE_OK, data, Some (pc + x))
        else
          data ← put2byte data (pc + 2) x;
          Some (SQLITE_OK, data, Some (pc + x))
      else
        next ← get2byte data pc;
        if next =? 0 then Some (SQLITE_OK, data, None) else find_slot_loop fuel pPage nByte data pc next
  end.

Definition pageFindSlot pPage (nByte : Z) : option (Z * MemPage * option Z) :=
  let iAddr := hdrOffset pPage + 1 in
  pc ← get2byte (aData pPage) iAddr;
  '(rc, data, r) ← find_slot_loop (S (Z.to_nat (usableSize pBt))) pPage nByte (aData pPage) iAddr pc;
  Some (rc, set_data pPage data, r).

(** The end of [allocateSpace]: from the gap, after defragmentation if it is
    too small. *)
Definition allocate_gap (space : list Z) pPage (nByte gap top : Z) : option (Z * MemPage * Z) :=
  let hdr := hdrOffset pPage in
  '(rc, pPage, top) ← (if top <? gap + 2 + nByte then
      '(rc, pPage) ← defragmentPage space pPage;
      if negb (rc =? SQLITE_OK) then Some (rc, pPage, top)
      else top ← get2byteNotZero (aData pPage) (hdr + 5); Some (SQLITE_OK, pPage, top)
    else Some (SQLITE_OK, pPage, top));
  if negb (rc =? SQLITE_OK) then Some (rc, pPage, 0)
  else
    let top := top - nByte in
    data ← put2byte (aData pPage) (hdr + 5) top;
    Some (SQLITE_OK, set_data pPage data, top).

(** The result code, the page and the offset of the space. *)
Definition allocateSpace (space : list Z) pPage (nByte : Z) : option (Z * MemPage * Z) :=
  let hdr := hdrOffset pPage in
  let data := aData pPage in
  let gap := cellOffset pPage + 2 * nCell pPage in
  top ← get2byte data (hdr + 5);
  if (top <? gap) && negb ((top =? 0) && (usableSize pBt =? 65536)) then Some (SQLITE_CORRUPT, pPage, 0)
  else
    let top := if top <? gap then 65536 else top in
    d2 ← peek data (hdr + 2);
    d1 ← peek data (hdr + 1);
    '(rc, pPage, slot) ←
      (if (negb (d2 =? 0) || negb (d1 =? 0)) && (gap + 2 <=? top) then pageFindSlot pPage nByte else Some (SQLITE_OK, pPage, None));
    match slot with
    | Some pSpace => Some (SQLITE_OK, pPage, pSpace)
    | None =>
      if negb (rc =? SQLITE_OK) then Some (rc, pPage, 0)
      else allocate_gap space pPage nByte gap top
    end.

(** ** Freeing *)

(** [while( (iFreeBlk = get2byte(&data[iPtr]))<iStart )]: nothing for a corrupt
    list, or [iPtr] and [iFreeBlk]. *)
Fixpoint free_search (fuel : nat) data (iStart iPtr : Z) : option (option (Z * Z)) :=
  match fuel with
  | O => None
  | S fuel =>
    iFreeBlk ← get2byte data iPtr;
    if iFreeBlk <? iStart then
      if iFreeBlk <? iPtr + 4 then
        if iFreeBlk =? 0 then Some (Some (iPtr, iFreeBlk)) else Some None
      else free_search fuel data iStart iFreeBlk
    else Some (Some (iPtr, iFreeBlk))
  end.

(** Coalescing with the next block: [nFrag], [iEnd], [iSize] and [iFreeBlk]. *)
Definition coalesce_next data (iStart iSize iEnd iFreeBlk : Z) : option (option (Z * Z * Z * Z)) :=
  if negb (iFreeBlk =? 0) && (iFreeBlk <=? iEnd + 3) then
    let nFrag := u8 (iFreeBlk - iEnd) in
    if iFreeBlk <? iEnd then Some None
    else
      size ← get2byte data (iFreeBlk + 2);
      let iEnd := u32 (iFreeBlk + size) in
      if usableSize pBt <? iEnd then Some None
      else
        next ← get2byte data iFreeBlk;
        Some (Some (nFrag, iEnd, wrap 16 (iEnd - iStart), next))
  else Some (Some (0, iEnd, iSize, iFreeBlk)).

(** Coalescing with the block before: [nFrag], [iStart] and [iSize]. *)
Definition coalesce_prev data (hdr iPtr nFrag iStart iSize iEnd : Z) : option (option (Z * Z * Z)) :=
  if hdr + 1 <? iPtr then
    size ← get2byte data (iPtr + 2);
    let iPtrEnd := iPtr + size in
    if iStart <=? iPtrEnd + 3 then
      if iStart <? iPtrEnd then Some None
      else Some (Some (u8 (nFrag + (iStart - iPtrEnd)), iPtr, wrap 16 (iEnd - iPtr)))
    else Some (Some (nFrag, iStart, iSize))
  else Some (Some (nFrag, iStart, iSize)).

(** What [freeSpace] finds in the list of free blocks: the data with the count
    of fragments brought down, [iPtr], [iStart], [iSize], [iEnd] and
    [iFreeBlk]. *)
Definition free_coalesce pPage data (iStart iSize : Z) : option (option (list Z * Z * Z * Z * Z * Z)) :=
  let hdr := hdrOffset pPage in
  let iPtr := hdr + 1 in
  let iEnd := u32 (iStart + iSize) in
  d1 ← peek data (iPtr + 1);
  d0 ← peek data iPtr;
  if (d1 =? 0) && (d0 =? 0) then Some (Some (data, iPtr, iStart, iSize, iEnd, 0))
  else
    found ← free_search (S (Z.to_nat (usableSize pBt))) data iStart iPtr;
    match found with
    | None => Some None
    | Some (iPtr, iFreeBlk) =>
      if u32 (usableSize pBt - 4) <? iFreeBlk then Some None
      else
        next ← coalesce_next data iStart iSize iEnd iFreeBlk;
        match next with
        | None => Some None
        | Some (nFrag, iEnd, iSize, iFreeBlk) =>
          prev ← coalesce_prev data hdr iPtr nFrag iStart iSize iEnd;
          match prev with
          | None => Some None
          | Some (nFrag, iStart, iSize) =>
            frag ← peek data (hdr + 7);
            if frag <? nFrag then Some None
            else
              data ← put data (hdr + 7) (frag - nFrag);
              Some (Some (data, iPtr, iStart, iSize, iEnd, iFreeBlk))
          end
        end
    end.

(** The arguments are 16-bit integers. *)
Definition freeSpace pPage (iStart iSize : Z) : option (Z * MemPage) :=
  let hdr := hdrOffset pPage in
  let iOrigSize := iSize in
  data ← (if secure_delete pBt then zero (aData pPage) iStart iSize else Some (aData pPage));
  r ← free_coalesce pPage data iStart iSize;
  match r with
  | None => Some (SQLITE_CORRUPT, set_data pPage data)
  | Some (data, iPtr, iStart, iSize, iEnd, iFreeBlk) =>
    top ← get2byte data (hdr + 5);
    if iStart =? top then
      if negb (iPtr =? hdr + 1) then Some (SQLITE_CORRUPT, set_data pPage data)
      else
        data ← put2byte data (hdr + 1) iFreeBlk;
        data ← put2byte data (hdr + 5) iEnd;
        Some (SQLITE_OK, set_nFree (set_data pPage data) (nFree pPage + iOrigSize))
    else
      data ← put2byte data iPtr iStart;
      data ← put2byte data iStart iFreeBlk;
      data ← put2byte data (iStart + 2) iSize;
      Some (SQLITE_OK, set_nFree (set_data pPage data) (nFree pPage + iOrigSize))
  end.

(** ** Initialisation *)

Definition MX_CELL : Z := (pageSize pBt - 8) / 6.

(** The check of the cells, with [n] iterations left. *)
Fixpoint check_cells (n : nat) (k : PageKind) data (cellOffset iCellFirst iCellLast i : Z) : option bool :=
  match n with
  | O => Some true
  | S n =>
    pc ← get2byte data (cellOffset + i * 2);
    if (pc <? iCellFirst) || (iCellLast <? pc) then Some false
    else
      p ← advance data pc;
      sz ← cellSize pBt k p;
      if usableSize pBt <? pc + sz then Some false else check_cells n k data cellOffset iCellFirst iCellLast (i + 1)
  end.

(** [while( pc>0 )]: nothing for a corrupt list, or the sum of the sizes of the
    free blocks added to [nFree]. *)
Fixpoint sum_free (fuel : nat) data (iCellFirst iCellLast pc nFree : Z) : option (option Z) :=
  match fuel with
  | O => None
  | S fuel =>
    if 0 <? pc then
      if (pc <? iCellFirst) || (iCellLast <? pc) then Some None
      else
        next ← get2byte data pc;
        size ← get2byte data (pc + 2);
        if (0 <? next) && (next <=? pc + size + 3) || (usableSize pBt <? pc + size) then Some None
        else sum_free fuel data iCellFirst iCellLast next (nFree + size)
    else Some (Some nFree)
  end.

(** For flags of no page, the fields that [decodeFlags] has set by then are left
    as they were; the callers drop such a page. *)
Definition btreeInitPage pPage : option (Z * MemPage) :=
  if isInit pPage then Some (SQLITE_OK, pPage)
  else
    let hdr := hdrOffset pPage in
    let data := aData pPage in
    flags ← peek data hdr;
    match decodeFlags pBt flags with
    | None => Some (SQLITE_CORRUPT, pPage)
    | Some k =>
      let cellOffset := wrap 16 (hdr + 8 + childPtrSize k) in
      top ← get2byteNotZero data (hdr + 5);
      nCell ← get2byte data (hdr + 3);
      let pPage := mkMemPage false k (pgno pPage) hdr cellOffset (nFree pPage) nCell (wrap 16 (pageSize pBt - 1)) [] data in
      if MX_CELL <? nCell then Some (SQLITE_CORRUPT, pPage)
      else
        let iCellFirst := cellOffset + 2 * nCell in
        let iCellLast := usableSize pBt - 4 in
        ok ← (if cell_size_check pBt
              then check_cells (Z.to_nat nCell) k data cellOffset iCellFirst (if leaf k =? 0 then iCellLast - 1 else iCellLast) 0
              else Some true);
        if negb (ok : bool) then Some (SQLITE_CORRUPT, pPage)
        else
          pc ← get2byte data (hdr + 1);
          frag ← peek data (hdr + 7);
          r ← sum_free (S (Z.to_nat (usableSize pBt))) data iCellFirst iCellLast pc (frag + top);
          match r with
          | None => Some (SQLITE_CORRUPT, pPage)
          | Some nFree =>
            if usableSize pBt <? nFree then Some (SQLITE_CORRUPT, pPage)
            else
              Some (SQLITE_OK, mkMemPage true k (pgno pPage) hdr cellOffset (wrap 16 (nFree - iCellFirst)) nCell
                                 (maskPage pPage) [] data)
          end
    end.

(** An empty page; the flags are those of a page. *)
Definition zeroPage pPage (flags : Z) : option MemPage :=
  let hdr := hdrOffset pPage in
  data ← (if secure_delete pBt then zero (aData pPage) hdr (usableSize pBt - hdr) else Some (aData pPage));
  data ← put data hdr flags;
  let first := wrap 16 (hdr + if Z.land flags PTF_LEAF =? 0 then 12 else 8) in
  data ← zero data (hdr + 1) 4;
  data ← put data (hdr + 7) 0;
  data ← put2byte data (hdr + 5) (usableSize pBt);
  k ← decodeFlags pBt flags;
  Some (mkMemPage true k (pgno pPage) hdr first (wrap 16 (usableSize pBt - first)) 0 (wrap 16 (pageSize pBt - 1)) [] data).

(** ** Cells *)

(** [*pRC] is an argument and the result. *)
Definition dropCell pPage (idx sz rc : Z) : option (Z * MemPage) :=
  if negb (rc =? SQLITE_OK) then Some (rc, pPage)
  else
    let hdr := hdrOffset pPage in
    let ptr := cellOffset pPage + 2 * idx in
    pc ← get2byte (aData pPage) ptr;
    top ← get2byte (aData pPage) (hdr + 5);
    if (pc <? top) || (usableSize pBt <? u32 (pc + sz)) then Some (SQLITE_CORRUPT, pPage)
    else
      '(rc, pPage) ← freeSpace pPage (wrap 16 pc) (wrap 16 sz);
      if negb (rc =? SQLITE_OK) then Some (rc, pPage)
      else
        let pPage := set_nCell pPage (nCell pPage - 1) in
        if nCell pPage =? 0 then
          data ← zero (aData pPage) (hdr + 1) 4;
          data ← put data (hdr + 7) 0;
          data ← put2byte data (hdr + 5) (usableSize pBt);
          Some (SQLITE_OK, set_nFree (set_data pPage data) (usableSize pBt - hdr - childPtrSize (kind pPage) - 8))
        else
          data ← copy (aData pPage) ptr (aData pPage) (ptr + 2) (2 * (nCell pPage - idx));
          data ← put2byte data (hdr + 3) (nCell pPage);
          Some (SQLITE_OK, set_nFree (set_data pPage data) (nFree pPage + 2)).

Section insert.
Context `{Machine} (has_bswap : bool).

(** [put4byte(&d[p], v)]. *)
Definition put4byte (d : list Z) (p v : Z) : option (list Z) :=
  bs ← region d p 4; bs ← sqlite3Put4byte has_bswap bs v; store d p bs.

(** [ptrmapPutOvflPtr]: the page for which it makes an entry in the pointer
    map; [ptrmapPut] of the entry is left to the caller. *)
Definition ptrmapPutOvflPtr pPage (pCell : list Z) : option (option Z) :=
  info ← parseCell pBt (kind pPage) pCell;
  if nLocal info <? nPayload info then
    p ← advance pCell (nSize info - 4);
    ovfl ← sqlite3Get4byte has_bswap p;
    Some (Some ovfl)
  else Some None.

(** [insertCell] when the cell does not fit. The content of [pTemp], which
    becomes the overflow cell, is that of [pCell]. *)
Definition insert_overflow pPage (i : Z) (pCell : list Z) (iChild : Z) : option MemPage :=
  pCell ← (if iChild =? 0 then Some pCell else put4byte pCell 0 iChild);
  if (length (overflow pPage) <? 5)%nat then Some (set_overflow pPage (overflow pPage ++ [(wrap 16 i, pCell)])) else None.

(** The result code, the page and the entry of the pointer map. [write_rc] is
    the result of [sqlite3PagerWrite], [space] the temporary space of the pager. *)
Definition insertCell (space : list Z) (write_rc : Z) pPage (i : Z) (pCell : list Z) (sz iChild : Z)
    : option (Z * MemPage * option Z) :=
  if negb (length (overflow pPage) =? 0)%nat || (nFree pPage <? sz + 2) then
    pPage ← insert_overflow pPage i pCell iChild;
    Some (SQLITE_OK, pPage, None)
  else if negb (write_rc =? SQLITE_OK) then Some (write_rc, pPage, None)
  else
    '(rc, pPage, idx) ← allocateSpace space pPage sz;
    if negb (rc =? SQLITE_OK) then Some (rc, pPage, None)
    else
      let pPage := set_nFree pPage (nFree pPage - wrap 16 (2 + sz)) in
      data ← copy (aData pPage) idx pCell 0 sz;
      data ← (if iChild =? 0 then Some data else put4byte data idx iChild);
      let pIns := cellOffset pPage + i * 2 in
      data ← copy data (pIns + 2) data pIns (2 * (nCell pPage - i));
      data ← put2byte data pIns idx;
      n4 ← peek data (hdrOffset pPage + 4);
      data ← put data (hdrOffset pPage + 4) (n4 + 1);
      data ← (if u8 (n4 + 1) =? 0 then
                n3 ← peek data (hdrOffset pPage + 3); put data (hdrOffset pPage + 3) (n3 + 1)
              else Some data);
      let pPage := set_nCell (set_data pPage data) (nCell pPage + 1) in
      entry ← (if autoVacuum pBt then ptrmapPutOvflPtr pPage pCell else Some None);
      Some (SQLITE_OK, pPage, entry).
End insert.
End page.
