(* ===== verification/BtreeFree.v ===== *)
(** * B-tree: the layout of a page and its free blocks

    The cells and the free blocks of a page as regions that do not overlap, with
    the bytes between them counted as fragments; the list of free blocks as it is
    stored in the page, and [pageFindSlot]. *)
From S2P Require Import Prelude BtreeBytes BtreeCell BtreePage.
From stdpp Require Import sorting.
Local Open Scope Z_scope.

(** A region is an offset and a size. *)
Abbreviation regions := (list (Z * Z)).

Fixpoint bytes_of (l : regions) : list Z :=
  match l with [] => [] | (a, n) :: l => seqZ a n ++ bytes_of l end.

Fixpoint total (l : regions) : Z :=
  match l with [] => 0 | (_, n) :: l => n + total l end.

(** [frag] bytes of [top .. u) are in no region. *)
Definition layout (l : regions) (top u frag : Z) : Prop :=
  NoDup (bytes_of l) ∧ (∀ i, i ∈ bytes_of l → top ≤ i < u) ∧ Forall (λ r, 4 ≤ r.2) l ∧ total l + frag = u - top.

Section layout.
Implicit Types (l : regions) (a b n m top u frag : Z).

#[export] Instance bytes_of_perm : Proper ((≡ₚ) ==> (≡ₚ)) bytes_of.
Proof.
  intros l l' H. induction H as [|[a n] l l' _ IH|[a n] [b m] l|l1 l2 l3 _ IH1 _ IH2]; cbn [bytes_of].
  - done.
  - by rewrite IH.
  - rewrite !app_assoc. f_equiv. apply Permutation_app_comm.
  - by rewrite IH1.
Qed.

Lemma total_perm l l' : l ≡ₚ l' → total l = total l'.
Proof. intros H. induction H as [|[a n] l l' _ IH|[a n] [b m] l|l1 l2 l3 _ IH1 _ IH2]; cbn [total]; lia. Qed.

Lemma layout_perm_1 l l' top u frag : l ≡ₚ l' → layout l top u frag → layout l' top u frag.
Proof.
  intros H (H1 & H2 & H3 & H4). pose proof (bytes_of_perm _ _ H) as Hb. split; [by rewrite <-Hb|].
  split; [intros i Hi; apply H2; by rewrite Hb|]. split; [by rewrite <-H|]. by rewrite <-(total_perm _ _ H).
Qed.

#[export] Instance layout_perm : Proper ((≡ₚ) ==> eq ==> eq ==> eq ==> iff) layout.
Proof. intros l l' H top _ <- u _ <- frag _ <-. split; by apply layout_perm_1. Qed.

Lemma bytes_of_app l l' : bytes_of (l ++ l') = bytes_of l ++ bytes_of l'.
Proof. induction l as [|[a n] l IH]; [done|]. cbn [app bytes_of]. by rewrite IH, app_assoc. Qed.

Lemma total_app l l' : total (l ++ l') = total l + total l'.
Proof. induction l as [|[a n] l IH]; [done|]. cbn [app total]. lia. Qed.

Lemma elem_of_bytes l i : i ∈ bytes_of l ↔ ∃ a n, (a, n) ∈ l ∧ a ≤ i < a + n.
Proof.
  induction l as [|[a n] l IH]; cbn [bytes_of].
  - split; [by intros ?%elem_of_nil|by intros (? & ? & ?%elem_of_nil & _)].
  - rewrite elem_of_app, IH, elem_of_seqZ. split.
    + intros [?|(b & m & ? & ?)]; [exists a, n|exists b, m]; (split; [|done]); rewrite elem_of_cons; tauto.
    + intros (b & m & [[= <- <-]|?]%elem_of_cons & ?); [by left|right; by exists b, m].
Qed.

Lemma length_bytes l : Forall (λ r, 0 ≤ r.2) l → Z.of_nat (length (bytes_of l)) = total l.
Proof.
  induction 1 as [|[a n] l Hn _ IH]; [done|]. cbn [bytes_of total snd] in *. rewrite length_app, length_seqZ. lia.
Qed.

(** ** Consequences *)

Lemma layout_sizes l top u frag : layout l top u frag → Forall (λ r, 0 ≤ r.2) l.
Proof. intros (_ & _ & H & _). eapply Forall_impl; [exact H|]. intros [a n]; cbn; lia. Qed.

Lemma layout_nonneg l top u frag : layout l top u frag → top ≤ u → 0 ≤ frag.
Proof.
  intros Hl Htu. pose proof (length_bytes l (layout_sizes _ _ _ _ Hl)) as Hlen. destruct Hl as (Hnd & Hin & _ & Ht).
  assert (length (bytes_of l) ≤ length (seqZ top (u - top)))%nat as Hle.
  { apply submseteq_length, NoDup_submseteq; [done|]. intros i Hi. apply elem_of_seqZ. specialize (Hin i Hi). lia. }
  rewrite length_seqZ in Hle. lia.
Qed.

Lemma layout_region l top u frag a n : layout l top u frag → (a, n) ∈ l → top ≤ a ∧ a + n ≤ u ∧ 4 ≤ n.
Proof.
  intros (_ & Hin & H4 & _) Ha. rewrite Forall_forall in H4. specialize (H4 _ Ha). cbn in H4.
  pose proof (Hin a) as H1. pose proof (Hin (a + n - 1)) as H2.
  destruct H1 as [? _]; [apply elem_of_bytes; exists a, n; split; [done|lia]|].
  destruct H2 as [_ ?]; [apply elem_of_bytes; exists a, n; split; [done|lia]|]. lia.
Qed.

(** Some of the regions. *)
Lemma layout_part l l' top u frag : layout (l ++ l') top u frag → layout l top u (frag + total l').
Proof.
  intros (Hnd & Hin & H4 & Htot). rewrite bytes_of_app in Hnd, Hin. rewrite total_app in Htot.
  apply NoDup_app in Hnd as (Hnd & _ & _). apply Forall_app in H4 as [H4 _].
  split; [done|]. split; [intros i Hi; apply Hin, elem_of_app; by left|]. split; [done|lia].
Qed.

(** Two regions do not overlap. *)
Lemma layout_disjoint l top u frag a n b m :
  layout ((a, n) :: l) top u frag → (b, m) ∈ l → a + n ≤ b ∨ b + m ≤ a.
Proof.
  intros (Hnd & _ & H4 & _) Hb. apply Forall_cons in H4 as [Hn H4]. rewrite Forall_forall in H4. specialize (H4 _ Hb).
  cbn in Hn, H4. cbn [bytes_of] in Hnd. apply NoDup_app in Hnd as (_ & Hd & _).
  destruct (Z.le_gt_cases (a + n) b); [by left|]. destruct (Z.le_gt_cases (b + m) a); [by right|]. exfalso.
  apply (Hd (Z.max a b)); [apply elem_of_seqZ; lia|]. apply elem_of_bytes. exists b, m. split; [done|lia].
Qed.

Lemma layout_outside l top u frag a n i :
  layout ((a, n) :: l) top u frag → a ≤ i < a + n → i ∉ bytes_of l.
Proof. intros (Hnd & _) Hi. cbn [bytes_of] in Hnd. apply NoDup_app in Hnd as (_ & Hd & _). apply Hd, elem_of_seqZ. lia. Qed.

(** ** Changes *)

Lemma layout_nil u : layout [] u u 0.
Proof. split; [constructor|]. split; [by intros ? ?%elem_of_nil|]. split; [constructor|cbn; lia]. Qed.

Lemma bytes_one a n : bytes_of [(a, n)] = seqZ a n.
Proof. apply app_nil_r. Qed.

(** The gap in front is unused. *)
Lemma layout_alloc l top u frag n :
  layout l top u frag → 4 ≤ n → top ≤ u → layout ((top - n, n) :: l) (top - n) u frag.
Proof.
  intros (Hnd & Hin & H4 & Ht) Hn Htu. split; [|split; [|split]]; cbn [bytes_of total].
  - apply NoDup_app. split; [apply NoDup_seqZ|]. split; [|done]. intros i Hi%elem_of_seqZ Hi'%Hin. lia.
  - intros i [Hi%elem_of_seqZ|Hi%Hin]%elem_of_app; lia.
  - constructor; [cbn; lia|done].
  - lia.
Qed.

(** The first region is joined to the gap. *)
Lemma layout_front l top u frag n : layout ((top, n) :: l) top u frag → layout l (top + n) u frag.
Proof.
  intros (Hnd & Hin & H4 & Ht). cbn [bytes_of total] in *. apply NoDup_app in Hnd as (_ & Hd & Hnd).
  apply Forall_cons in H4 as [_ H4]. split; [done|]. split; [|split; [done|lia]]. intros i Hi. split; [|apply Hin; set_solver].
  destruct (Z.le_gt_cases (top + n) i); [done|]. exfalso. apply (Hd i); [|done]. apply elem_of_seqZ.
  split; [|lia]. apply (Hin i). set_solver.
Qed.

Lemma seqZ_split a n x : 0 ≤ x ≤ n → seqZ a n = seqZ a x ++ seqZ (a + x) (n - x).
Proof. intros Hx. replace n with (x + (n - x)) at 1 by lia. apply seqZ_app; lia. Qed.

(** A region is cut, or cut down with the rest becoming a fragment. *)
Lemma layout_cut l top u frag a n x :
  layout ((a, n) :: l) top u frag → 4 ≤ x → 4 ≤ n - x → layout ((a + x, n - x) :: (a, x) :: l) top u frag.
Proof.
  intros (Hnd & Hin & H4 & Ht) Hx Hnx. cbn [bytes_of total] in *. rewrite (seqZ_split a n x) in Hnd, Hin by lia.
  rewrite <-app_assoc in Hnd, Hin. apply Forall_cons in H4 as [_ H4]. unfold layout. cbn [bytes_of total].
  assert (seqZ (a + x) (n - x) ++ seqZ a x ++ bytes_of l ≡ₚ seqZ a x ++ seqZ (a + x) (n - x) ++ bytes_of l) as E by solve_Permutation.
  split; [by rewrite E|]. split; [intros i Hi; apply Hin; by rewrite <-E|]. split; [constructor; [cbn; lia|constructor; [cbn; lia|done]]|lia].
Qed.

Lemma layout_shrink l top u frag a n x :
  layout ((a, n) :: l) top u frag → 0 ≤ x → 4 ≤ n - x → layout ((a + x, n - x) :: l) top u (frag + x).
Proof.
  intros (Hnd & Hin & H4 & Ht) Hx Hnx. cbn [bytes_of total] in *. rewrite (seqZ_split a n x) in Hnd, Hin by lia.
  rewrite <-app_assoc in Hnd, Hin. apply Forall_cons in H4 as [_ H4]. unfold layout. cbn [bytes_of total].
  apply NoDup_app in Hnd as (_ & _ & Hnd). split; [done|]. split; [intros i Hi; apply Hin; clear -Hi; set_solver|].
  split; [constructor; [cbn; lia|done]|lia].
Qed.

(** Two regions with at most three bytes between them become one: there is no
    room for another region between them. *)
Lemma layout_join l top u frag a n b m :
  layout ((a, n) :: (b, m) :: l) top u frag → a + n ≤ b ≤ a + n + 3 → top ≤ u →
  layout ((a, b + m - a) :: l) top u (frag - (b - (a + n))) ∧ b - (a + n) ≤ frag.
Proof.
  intros Hl Hgap Htu.
  assert (layout ((a, b + m - a) :: l) top u (frag - (b - (a + n)))) as Hj.
  { pose proof (layout_region _ _ _ _ a n Hl ltac:(set_solver)) as (Ha & _ & Hn).
    pose proof (layout_region _ _ _ _ b m Hl ltac:(set_solver)) as (_ & Hb & Hm). pose proof Hl as (Hnd & Hin & H4 & Ht).
    apply Forall_cons in H4 as [_ [_ H4]%Forall_cons]. cbn [bytes_of total] in *.
    apply NoDup_app in Hnd as (_ & Hda & (_ & Hdb & Hnd)%NoDup_app).
    assert (∀ i, a ≤ i < b + m → i ∉ bytes_of l) as Hout.
    { intros i Hi Hil. destruct (Z.lt_ge_cases i (a + n)) as [|Hge1].
      { apply (Hda i); [apply elem_of_seqZ; lia|]. clear -Hil. set_solver. }
      destruct (Z.lt_ge_cases i b) as [Hlt|Hge2].
      2:{ apply (Hdb i); [apply elem_of_seqZ; lia|done]. }
      apply elem_of_bytes in Hil as (c & k & Hc & Hi'). rewrite Forall_forall in H4. specialize (H4 _ Hc). cbn in H4.
      destruct (Z.le_gt_cases (c + k) b).
      - apply (Hda (a + n - 1)); [apply elem_of_seqZ; lia|]. apply elem_of_app. right. apply elem_of_bytes. exists c, k.
        split; [done|lia].
      - apply (Hdb b); [apply elem_of_seqZ; lia|]. apply elem_of_bytes. exists c, k. split; [done|lia]. }
    split; [|split; [|split]]; cbn [bytes_of total].
    - apply NoDup_app. split; [apply NoDup_seqZ|]. split; [|done]. intros i Hi%elem_of_seqZ. apply Hout. lia.
    - intros i [Hi%elem_of_seqZ|Hi]%elem_of_app; [lia|]. apply Hin. clear -Hi. set_solver.
    - constructor; [cbn; lia|done].
    - lia. }
  split; [done|]. pose proof (layout_nonneg _ _ _ _ Hj Htu). lia.
Qed.
End layout.


Implicit Types (d : list Z) (f l : regions) (a z lo pc sz : Z).

(** ** The list *)

(** The blocks [f], of which the pointer at [a] is to the first and the last
    has the pointer [z]. *)
Fixpoint stored d a f z : Prop :=
  match f with
  | [] => get2byte d a = Some z
  | (pc, sz) :: f => get2byte d a = Some pc ∧ get2byte d (pc + 2) = Some sz ∧ stored d pc f z
  end.

(** Where the last pointer is. *)
Fixpoint end_of a f : Z := match f with [] => a | (pc, _) :: f => end_of pc f end.

(** In ascending order, from [lo] on, with at least four bytes between two
    blocks. *)
Fixpoint ascending lo f : Prop :=
  match f with [] => True | (pc, sz) :: f => lo ≤ pc ∧ 4 ≤ sz ∧ ascending (pc + sz + 4) f end.

Lemma ascending_mono lo lo' f : ascending lo f → lo' ≤ lo → ascending lo' f.
Proof. destruct f as [|[pc sz] f]; cbn [ascending]; [done|]. intros (? & ? & ?) ?. split_and!; [lia|done|done]. Qed.

Lemma ascending_app lo f1 pc sz f2 :
  ascending lo (f1 ++ (pc, sz) :: f2) ↔
  ascending lo f1 ∧ lo ≤ pc ∧ 4 ≤ sz ∧ ascending (pc + sz + 4) f2 ∧ ∀ b m, (b, m) ∈ f1 → b + m + 4 ≤ pc.
Proof.
  revert lo. induction f1 as [|[b m] f1 IH]; intros lo; cbn [app ascending].
  - split; [|tauto]. intros (? & ? & ?). split_and!; try done. by intros ? ? ?%elem_of_nil.
  - rewrite IH. split.
    + intros (Hb & Hm & Hf1 & Hpc & Hsz & Hf2 & Hall). split_and!; try done; [lia|].
      intros b' m' [[= -> ->]|Hin]%elem_of_cons; [lia|by apply Hall].
    + intros ((Hb & Hm & Hf1) & Hlo & Hsz & Hf2 & Hall). split_and!; try done; [apply Hall; by left|].
      intros b' m' Hin. apply Hall. by right.
Qed.

Lemma ascending_in lo f pc sz : ascending lo f → (pc, sz) ∈ f → lo ≤ pc ∧ 4 ≤ sz.
Proof.
  revert lo. induction f as [|[b m] f IH]; intros lo; cbn [ascending]; [by intros _ ?%elem_of_nil|].
  intros (? & ? & Hf) [[= -> ->]|Hin]%elem_of_cons; [done|]. destruct (IH _ Hf Hin). lia.
Qed.

Lemma end_of_cases a f : (f = [] ∧ end_of a f = a) ∨ ∃ f' pc sz, f = f' ++ [(pc, sz)] ∧ end_of a f = pc.
Proof.
  revert a. induction f as [|[pc sz] f IH]; intros a; [by left|]. right. cbn [end_of].
  destruct (IH pc) as [[-> ->]|(f' & pc' & sz' & -> & ->)]; [by exists [], pc, sz|]. by exists ((pc, sz) :: f'), pc', sz'.
Qed.

Lemma end_of_app a f1 pc sz f2 : end_of a (f1 ++ (pc, sz) :: f2) = end_of pc f2.
Proof. revert a. induction f1 as [|[b m] f1 IH]; intros a; [done|]. apply IH. Qed.

Lemma stored_app d a f1 pc sz f2 z :
  stored d a (f1 ++ (pc, sz) :: f2) z ↔ stored d a f1 pc ∧ get2byte d (pc + 2) = Some sz ∧ stored d pc f2 z.
Proof.
  revert a. induction f1 as [|[b m] f1 IH]; intros a; cbn [app stored]; [done|]. rewrite IH. tauto.
Qed.

Lemma stored_end d a f z : stored d a f z → get2byte d (end_of a f) = Some z.
Proof. revert a. induction f as [|[pc sz] f IH]; intros a; [done|]. intros (_ & _ & H). by apply IH. Qed.

(** The bytes that belong to the list: its pointer and the first four of each
    block. *)
Definition in_list a f j : Prop := a ≤ j < a + 2 ∨ ∃ pc sz, (pc, sz) ∈ f ∧ pc ≤ j < pc + 4.

(** Changing what follows the blocks [f1]: only the last pointer of [f1]
    changes. *)
Lemma stored_splice d d' a f1 g p z lo :
  stored d a f1 p → ascending lo f1 → a + 2 ≤ lo →
  (∀ j, in_list a f1 j → j < end_of a f1 ∨ end_of a f1 + 2 ≤ j → peek d' j = peek d j) →
  stored d' (end_of a f1) g z → stored d' a (f1 ++ g) z.
Proof.
  revert a lo. induction f1 as [|[pc sz] f IH]; intros a lo; [done|]. cbn [app stored end_of ascending].
  intros (Ha & Hsz & Hf) (Hlo & H4 & Hasc) Hal Hsame Hg.
  assert (end_of pc f = pc ∨ pc + 4 ≤ end_of pc f) as Hend.
  { destruct (end_of_cases pc f) as [[-> ->]|(f' & pc' & sz' & -> & ->)]; [by left|right].
    pose proof (ascending_in _ _ pc' sz' Hasc ltac:(set_solver)). lia. }
  split; [|split].
  - rewrite <-Ha. apply get2byte_ext; apply Hsame; try (left; lia); lia.
  - rewrite <-Hsz. apply get2byte_ext; apply Hsame; try lia; right; exists pc, sz; (split; [set_solver|lia]).
  - apply (IH pc (pc + sz + 4)); [done|done|lia| |done]. intros j Hj Hj'. apply Hsame; [|done].
    right. destruct Hj as [Hj|(b & m & Hb & Hj)]; [exists pc, sz; split; [set_solver|lia]|exists b, m; split; [set_solver|lia]].
Qed.

(** The same list from another pointer. *)
Lemma stored_move d d' a a' f z :
  stored d a f z → get2byte d' a' = get2byte d a →
  (∀ j pc sz, (pc, sz) ∈ f → pc ≤ j < pc + 4 → peek d' j = peek d j) → stored d' a' f z.
Proof.
  revert a a'. induction f as [|[pc sz] f IH]; intros a a'; cbn [stored]; [by intros <- ->|].
  intros (Ha & Hsz & Hf) Hp Hsame. split; [by rewrite Hp|]. split.
  - rewrite <-Hsz. apply get2byte_ext; apply (Hsame _ pc sz); (set_solver || lia).
  - apply (IH pc); [done| |].
    + apply get2byte_ext; apply (Hsame _ pc sz); (set_solver || lia).
    + intros j b m Hb Hj. apply (Hsame j b m); [set_solver|done].
Qed.

Lemma stored_frame d d' a f z :
  stored d a f z → (∀ j, in_list a f j → peek d' j = peek d j) → stored d' a f z.
Proof.
  revert a. induction f as [|[pc sz] f IH]; intros a; cbn [stored].
  - intros Ha Hsame. rewrite <-Ha. apply get2byte_ext; apply Hsame; left; lia.
  - intros (Ha & Hsz & Hf) Hsame. split; [|split].
    + rewrite <-Ha. apply get2byte_ext; apply Hsame; left; lia.
    + rewrite <-Hsz. apply get2byte_ext; apply Hsame; right; exists pc, sz; (split; [set_solver|lia]).
    + apply IH; [done|]. intros j [Hj|(b & m & Hb & Hj)]; apply Hsame; right; [exists pc, sz|exists b, m]; (split; [set_solver|lia]).
Qed.

Lemma ascending_join lo f1 pc sz f2 : ascending lo (f1 ++ (pc, sz) :: f2) → ascending lo (f1 ++ f2).
Proof.
  revert lo. induction f1 as [|[b m] f1 IH]; intros lo; cbn [app ascending].
  - intros (? & ? & Hf). eapply ascending_mono; [done|lia].
  - intros (? & ? & Hf). split_and!; [done|done|by apply IH].
Qed.

(** The pointer at the start of a region. *)
Lemma region_get2byte d d' i i' bs :
  region d i (len bs) = Some bs → region d' i' (len bs) = Some bs → 2 ≤ len bs → get2byte d i = get2byte d' i'.
Proof.
  intros (_ & _ & H)%region_spec (_ & _ & H')%region_spec Hlen. unfold get2byte.
  pose proof (H 0 ltac:(lia)) as H0. pose proof (H' 0 ltac:(lia)) as H0'. rewrite Z.add_0_r in H0, H0'.
  by rewrite H0, H0', (H 1), (H' 1) by lia.
Qed.

(** ** The invariant *)

Section wf.
Context (hdr u : Z).

(** The cells [l] and the free blocks [f] of a page, with the gap up to [top]
    and [frag] bytes in fragments. *)
Definition wf d l f top frag : Prop :=
  bytes_ok d ∧ u ≤ len d ∧ stored d (hdr + 1) f 0 ∧ ascending (top + 1) f ∧ layout (l ++ f) top u frag ∧
  get2byte d (hdr + 5) = Some (top `mod` 65536) ∧ peek d (hdr + 7) = Some frag ∧ frag ≤ 60 ∧
  hdr + 8 ≤ top ≤ u ∧ 0 ≤ hdr ∧ u ≤ 65536.

(** The bytes outside the regions [l] and the header are the same, and so is
    the count of cells in the header. *)
Definition same_except d d' l : Prop :=
  len d' = len d ∧ ∀ j, j < hdr + 1 ∨ hdr + 3 ≤ j < hdr + 5 ∨ hdr + 8 ≤ j → j ∉ bytes_of l → peek d' j = peek d j.

Lemma wf_perm d l l' f top frag : l ≡ₚ l' → wf d l f top frag → wf d l' f top frag.
Proof. intros H. unfold wf. by rewrite H. Qed.

Lemma wf_free d l f top frag pc sz : wf d l f top frag → (pc, sz) ∈ f → top + 1 ≤ pc ∧ pc + sz ≤ u ∧ 4 ≤ sz.
Proof.
  intros (_ & _ & _ & Hasc & Hlay & _) Hin. destruct (ascending_in _ _ _ _ Hasc Hin).
  destruct (layout_region _ _ _ _ pc sz Hlay) as (? & ? & ?); [set_solver|]. lia.
Qed.

Lemma wf_frag d l f top frag : wf d l f top frag → 0 ≤ frag ≤ 60.
Proof. intros (_ & _ & _ & _ & Hlay & _ & _ & ? & ?). pose proof (layout_nonneg _ _ _ _ Hlay). lia. Qed.

(** Reading in the list. *)
Lemma wf_split d l f1 pc sz f2 top frag :
  wf d l (f1 ++ (pc, sz) :: f2) top frag →
  get2byte d (end_of (hdr + 1) f1) = Some pc ∧ get2byte d (pc + 2) = Some sz ∧
  end_of (hdr + 1) f1 + 4 ≤ pc ∧ top + 1 ≤ pc ∧ pc + sz ≤ u ∧ 4 ≤ sz ∧
  (f1 = [] ∧ end_of (hdr + 1) f1 = hdr + 1 ∨ ∃ f1' m, f1 = f1' ++ [(end_of (hdr + 1) f1, m)]).
Proof.
  intros Hwf. destruct (wf_free _ _ _ _ _ pc sz Hwf) as (? & ? & ?); [set_solver|].
  destruct Hwf as (_ & _ & Hst & Hasc & _ & _ & _ & _ & Htop). apply stored_app in Hst as (Hst1 & Hst2 & _).
  apply ascending_app in Hasc as (Hf1 & _ & _ & _ & Hall). split; [by apply stored_end|]. split; [done|].
  destruct (end_of_cases (hdr + 1) f1) as [[-> ->]|(f' & b & m & -> & ->)].
  - split_and!; try done; [lia|by left].
  - pose proof (Hall b m ltac:(set_solver)). pose proof (ascending_in _ _ b m Hf1 ltac:(set_solver)).
    split_and!; try lia. right. by exists f', m.
Qed.

(** ** Finding a slot *)

(** A block that is taken whole, up to a fragment of at most three bytes. *)
Lemma take_slot d l f1 pc sz f2 top frag x :
  wf d l (f1 ++ (pc, sz) :: f2) top frag → 0 ≤ x < 4 → 4 ≤ sz - x → frag ≤ 57 →
  ∃ d', (data ← copy d (end_of (hdr + 1) f1) d pc 2; put data (hdr + 7) (frag + u8 x)) = Some d' ∧
    wf d' ((pc + x, sz - x) :: l) (f1 ++ f2) top (frag + x) ∧ same_except d d' (f1 ++ (pc, sz) :: f2).
Proof.
  intros Hwf Hx Hsz Hfrag. destruct (wf_split _ _ _ _ _ _ _ _ Hwf) as (Hpc & Hsize & Hend & Htop & Hend' & H4 & Hcase).
  pose proof (wf_frag _ _ _ _ _ Hwf) as Hfr. pose proof Hwf as (Hd & Hlen & Hst & Hasc & Hlay & Ht & Hf & _ & Htu).
  set (e := end_of (hdr + 1) f1) in *.
  assert (hdr + 1 ≤ e) as He.
  { destruct Hcase as [[_ ->]|(f1' & m & E)]; [lia|]. destruct (wf_free _ _ _ _ _ e m Hwf) as (? & _); [rewrite E; set_solver|lia]. }
  destruct (region_is_Some d pc 2) as (bs & Ebs & Hbs); [lia..|].
  destruct (copy_spec d e d pc 2 bs Hd (region_bytes _ _ _ _ Hd Ebs) Ebs) as (d1 & E1 & (Hd1 & Hl1 & Hc1) & Hr1); [lia..|].
  rewrite E1. cbn [mbind option_bind]. rewrite <-Hbs in Ebs, Hr1.
  assert (get2byte d1 e = get2byte d pc) as Hz1 by (by apply (region_get2byte _ _ _ _ _ Hr1 Ebs); lia).
  assert (u8 x = x) as -> by (apply wrap_small; unfold uint; lia).
  destruct (put_spec d1 (hdr + 7) (frag + x) Hd1) as (d2 & E2 & (Hd2 & Hl2 & Hc2) & Hp2); [lia|].
  exists d2. split; [done|].
  assert (∀ j, j < e ∨ e + 2 ≤ j → j ≠ hdr + 7 → peek d2 j = peek d j) as Hsame.
  { intros j Hj Hj7. rewrite Hc2 by lia. by apply Hc1. }
  assert (e = hdr + 1 ∨ top < e) as He1.
  { destruct Hcase as [[_ ?]|(f1' & m & E)]; [by left|right].
    destruct (wf_free _ _ _ _ _ e m Hwf) as (? & _); [rewrite E; set_solver|lia]. }
  pose proof Hasc as (Hasc1 & _ & _ & Hasc2 & Hbefore)%ascending_app. apply stored_app in Hst as (Hst1 & _ & Hst2).
  split; [|split; [lia|]].
  - unfold wf. split_and!; [done|lia| | | | | |lia..].
    + apply (stored_splice d d2 _ f1 f2 pc 0 (top + 1)); [done|done|lia| |].
      * intros j Hj Hje. apply Hsame; [done|]. destruct Hj as [|(b & m & Hb & Hj)]; [lia|].
        destruct (ascending_in _ _ _ _ Hasc1 Hb). lia.
      * apply (stored_move d d2 pc); [done| |].
        -- rewrite <-Hz1. apply get2byte_ext; apply Hc2; lia.
        -- intros j b m Hb Hj. destruct (ascending_in _ _ _ _ Hasc2 Hb). apply Hsame; lia.
    + by apply (ascending_join _ _ pc sz).
    + apply (layout_perm_1 ((pc + x, sz - x) :: l ++ f1 ++ f2)); [by rewrite app_comm_cons|]. apply layout_shrink; [|lia..].
      eapply layout_perm_1; [|exact Hlay]. solve_Permutation.
    + rewrite <-Ht. apply get2byte_ext; apply Hsame; lia.
    + rewrite Hp2. f_equal. apply wrap_small. unfold uint. lia.
  - intros j Hj Hout. apply Hsame; [|lia]. destruct Hcase as [[_ ?]|(f1' & m & E)]; [lia|].
    destruct (Z.lt_ge_cases j e); [by left|right]. destruct (Z.le_gt_cases (e + 2) j); [done|]. exfalso. apply Hout.
    apply elem_of_bytes. exists e, m. split; [rewrite E; set_solver|].
    destruct (wf_free _ _ _ _ _ e m Hwf) as (_ & _ & ?); [rewrite E; set_solver|lia].
Qed.
(** A block of which the end is taken. *)
Lemma cut_slot d l f1 pc sz f2 top frag x :
  wf d l (f1 ++ (pc, sz) :: f2) top frag → 4 ≤ x → 4 ≤ sz - x →
  ∃ d', put2byte d (pc + 2) x = Some d' ∧
    wf d' ((pc + x, sz - x) :: l) (f1 ++ (pc, x) :: f2) top frag ∧ same_except d d' (f1 ++ (pc, sz) :: f2).
Proof.
  intros Hwf Hx Hsz. destruct (wf_split _ _ _ _ _ _ _ _ Hwf) as (Hpc & Hsize & Hend & Htop & Hend' & H4 & Hcase).
  pose proof (wf_frag _ _ _ _ _ Hwf) as Hfr. pose proof Hwf as (Hd & Hlen & Hst & Hasc & Hlay & Ht & Hf & _ & Htu).
  destruct (put2byte_spec d (pc + 2) x Hd) as (d1 & E1 & (Hd1 & Hl1 & Hc1) & Hz1); [lia..|].
  exists d1. split; [done|]. rewrite Z.mod_small in Hz1 by lia. pose proof Hasc as (Hasc1 & _ & _ & Hasc2 & Hbefore)%ascending_app.
  apply stored_app in Hst as (Hst1 & _ & Hst2). split; [|split; [done|]].
  - unfold wf. split_and!; [done|lia| | | | | |lia..].
    + apply stored_app. split; [|split; [done|]].
      * eapply stored_frame; [done|]. intros j [Hj|(b & m & Hb & Hj)]; [apply Hc1; lia|].
        specialize (Hbefore _ _ Hb). destruct (ascending_in _ _ _ _ Hasc1 Hb). apply Hc1. lia.
      * eapply stored_frame; [done|]. intros j [Hj|(b & m & Hb & Hj)]; [apply Hc1; lia|].
        destruct (ascending_in _ _ _ _ Hasc2 Hb). apply Hc1. lia.
    + apply ascending_app. split_and!; try done. eapply ascending_mono; [done|lia].
    + apply (layout_perm_1 ((pc + x, sz - x) :: (pc, x) :: l ++ f1 ++ f2)).
      { cbn [app]. f_equiv. solve_Permutation. }
      apply layout_cut; [|lia..]. eapply layout_perm_1; [|exact Hlay]. solve_Permutation.
    + rewrite <-Ht. apply get2byte_ext; apply Hc1; lia.
    + rewrite Hc1 by lia. done.
  - intros j Hj Hout. apply Hc1. destruct (Z.lt_ge_cases j (pc + 2)); [by left|right].
    destruct (Z.le_gt_cases (pc + 2 + 2) j); [done|]. exfalso. apply Hout. apply elem_of_bytes. exists pc, sz.
    split; [set_solver|lia].
Qed.

Context (pBt : BtShared) (pPage : MemPage).
Context (Hbt : usableSize pBt = u) (Hpage : hdrOffset pPage = hdr).

(** The slot that is found: a region of the size asked for. *)
Definition slot_found d l f top nByte d' (r : option Z) : Prop :=
  match r with
  | None => d' = d
  | Some pSpace => ∃ f' frag', wf d' ((pSpace, nByte) :: l) f' top frag' ∧ same_except d d' f
  end.

Lemma find_slot_loop_spec fuel d l f1 f2 pc sz top frag nByte :
  wf d l (f1 ++ (pc, sz) :: f2) top frag → cellOffset pPage + 2 * nCell pPage ≤ top → 4 ≤ nByte →
  (length f2 < fuel)%nat →
  ∃ d' r, find_slot_loop pBt fuel pPage nByte d (end_of (hdr + 1) f1) pc = Some (SQLITE_OK, d', r) ∧
    slot_found d l (f1 ++ (pc, sz) :: f2) top nByte d' r.
Proof.
  revert f1 f2 pc sz. induction fuel as [|fuel IH]; intros f1 f2 pc sz Hwf Hfirst Hn Hf; [lia|]. cbn [find_slot_loop].
  destruct (wf_split _ _ _ _ _ _ _ _ Hwf) as (Hpc & Hsize & Hend & Htop & Hend' & H4 & Hcase).
  pose proof Hwf as (_ & _ & Hst & _ & _ & _ & Hfrag & _ & _). rewrite Hbt, Hpage.
  destruct (Z.ltb_spec (u - 4) pc); [lia|]. destruct (Z.ltb_spec pc (end_of (hdr + 1) f1 + 4)); [lia|]. cbn [orb].
  rewrite Hsize. cbn [mbind option_bind]. cbv zeta. destruct (Z.leb_spec 0 (sz - nByte)).
  - destruct (Z.ltb_spec pc (cellOffset pPage + 2 * nCell pPage)); [lia|]. destruct (Z.ltb_spec u (sz + pc)); [lia|]. cbn [orb].
    destruct (Z.ltb_spec (sz - nByte) 4).
    + rewrite Hfrag. cbn [mbind option_bind]. destruct (Z.ltb_spec 57 frag); [by exists d, None|].
      destruct (take_slot d l f1 pc sz f2 top frag (sz - nByte) Hwf) as (d' & E & Hwf' & Hsame); [lia..|].
      destruct (copy d (end_of (hdr + 1) f1) d pc 2) as [d1|]; [|done]. cbn [mbind option_bind] in E |- *.
      rewrite E. cbn [mbind option_bind]. eexists d', _. split; [done|]. exists (f1 ++ f2), (frag + (sz - nByte)).
      split; [|done]. by replace (sz - (sz - nByte)) with nByte in Hwf' by lia.
    + destruct (cut_slot d l f1 pc sz f2 top frag (sz - nByte) Hwf) as (d' & E & Hwf' & Hsame); [lia..|].
      rewrite E. cbn [mbind option_bind]. eexists d', _. split; [done|]. exists (f1 ++ (pc, sz - nByte) :: f2), frag.
      split; [|done]. by replace (sz - (sz - nByte)) with nByte in Hwf' by lia.
  - apply stored_app in Hst as (_ & _ & Hst2). destruct f2 as [|[pc' sz'] f2].
    + cbn [stored] in Hst2. rewrite Hst2. cbn [mbind option_bind Z.eqb]. by exists d, None.
    + destruct Hst2 as (Hnext & _). rewrite Hnext. cbn [mbind option_bind].
      assert (f1 ++ (pc, sz) :: (pc', sz') :: f2 = (f1 ++ [(pc, sz)]) ++ (pc', sz') :: f2) as Ef by (by rewrite <-app_assoc).
      rewrite Ef in Hwf |- *. destruct (wf_split _ _ _ _ _ _ _ _ Hwf) as (_ & _ & _ & ? & _).
      destruct (Z.eqb_spec pc' 0); [destruct Hwf as (_ & _ & _ & _ & _ & _ & _ & _ & ?); lia|].
      destruct (IH (f1 ++ [(pc, sz)]) f2 pc' sz') as (d' & r & E & Hr); try done; [cbn [length] in Hf; lia|].
      rewrite end_of_app in E. by exists d', r.
Qed.

(** The blocks are fewer than the bytes. *)
Lemma wf_length d l f top frag : wf d l f top frag → (length f ≤ Z.to_nat u)%nat.
Proof.
  intros (_ & _ & _ & _ & Hlay & _ & _ & _ & ?). pose proof (layout_nonneg _ _ _ _ Hlay ltac:(lia)).
  destruct Hlay as (_ & _ & H4 & Ht). rewrite total_app in Ht. apply Forall_app in H4 as [Hl4 Hf4].
  assert (∀ g : regions, Forall (λ r, 4 ≤ r.2) g → Z.of_nat (length g) ≤ total g) as Hlen.
  { intros g. induction 1 as [|[a n] g Hn _ IH]; [done|]. cbn [length total snd] in *. lia. }
  pose proof (Hlen _ Hl4). pose proof (Hlen _ Hf4). lia.
Qed.

Lemma pageFindSlot_spec l f top frag nByte :
  wf (aData pPage) l f top frag → f ≠ [] → cellOffset pPage + 2 * nCell pPage ≤ top → 4 ≤ nByte →
  ∃ d' r, pageFindSlot pBt pPage nByte = Some (SQLITE_OK, set_data pPage d', r) ∧
    slot_found (aData pPage) l f top nByte d' r.
Proof.
  intros Hwf Hne Hfirst Hn. destruct f as [|[pc sz] f]; [done|]. unfold pageFindSlot. rewrite Hpage, Hbt.
  pose proof Hwf as (_ & _ & (Hpc & _) & _). rewrite Hpc. cbn [mbind option_bind].
  destruct (find_slot_loop_spec (S (Z.to_nat u)) (aData pPage) l [] f pc sz top frag nByte Hwf Hfirst Hn) as (d' & r & E & Hr).
  { pose proof (wf_length _ _ _ _ _ Hwf) as Hlen. cbn [length] in Hlen. lia. }
  change (end_of (hdr + 1) []) with (hdr + 1) in E. rewrite E. cbn [mbind option_bind]. by exists d', r.
Qed.
End wf.
