(* ===== verification/BtreeFreeSpace.v ===== *)
(** * B-tree: freeing

    [freeSpace] on a well-formed page: it finds no corruption, and the region
    becomes free, joined to the free blocks next to it. *)
From S2P Require Import Prelude BtreeBytes BtreeCell BtreePage BtreeFree.
Local Open Scope Z_scope.

Section free.
Context (hdr u : Z).
Implicit Types (d : list Z) (f l : regions).

(** The pointer [z] to the blocks [f], of which the last has a null pointer. *)
Definition list_from d z f : Prop :=
  match f with
  | [] => z = 0
  | (pc, sz) :: f => z = pc ∧ get2byte d (pc + 2) = Some sz ∧ stored d pc f 0
  end.

Lemma stored_list_from d a f : stored d a f 0 ↔ ∃ z, get2byte d a = Some z ∧ list_from d z f.
Proof.
  destruct f as [|[pc sz] f]; cbn [stored list_from].
  - split; [intros H; by exists 0|by intros (z & H & ->)].
  - split; [intros (H1 & H2 & H3); by exists pc|intros (z & H & -> & ? & ?); done].
Qed.

Lemma stored_app_from d a f1 f2 : stored d a (f1 ++ f2) 0 ↔ ∃ z, stored d a f1 z ∧ list_from d z f2.
Proof.
  destruct f2 as [|[pc sz] f2].
  - rewrite app_nil_r. split; [intros H; by exists 0|by intros (z & H & ->)].
  - rewrite stored_app. cbn [list_from]. split; [intros (? & ? & ?); by exists pc|intros (z & ? & -> & ? & ?); done].
Qed.

Lemma list_from_frame d d' z f :
  list_from d z f → (∀ j pc sz, (pc, sz) ∈ f → pc ≤ j < pc + 4 → peek d' j = peek d j) → list_from d' z f.
Proof.
  destruct f as [|[pc sz] f]; cbn [list_from]; [done|]. intros (-> & Hsz & Hf) Hsame. split; [done|]. split.
  - rewrite <-Hsz. apply get2byte_ext; apply (Hsame _ pc sz); (set_solver || lia).
  - eapply stored_frame; [done|]. intros j [Hj|(b & m & Hb & Hj)]; [apply (Hsame _ pc sz); [set_solver|lia]|].
    apply (Hsame _ b m); [set_solver|done].
Qed.

(** ** The search *)

(** The blocks before and after [iStart]. *)
Definition around f iStart f1 f2 : Prop :=
  f = f1 ++ f2 ∧ Forall (λ r, r.1 < iStart) f1 ∧ Forall (λ r, iStart < r.1) f2.

Lemma free_search_spec fuel d l f top frag iStart iSize f1 f2 z :
  wf hdr u d ((iStart, iSize) :: l) f top frag → f = f1 ++ f2 → Forall (λ r, r.1 < iStart) f1 →
  stored d (hdr + 1) f1 z → list_from d z f2 → (length f2 < fuel)%nat →
  ∃ g1 g2 z', free_search fuel d iStart (end_of (hdr + 1) f1) = Some (Some (end_of (hdr + 1) g1, z')) ∧
    around f iStart g1 g2 ∧ stored d (hdr + 1) g1 z' ∧ list_from d z' g2.
Proof.
  revert f1 f2 z. induction fuel as [|fuel IH]; intros f1 f2 z Hwf Ef Hf1 Hst Hfrom Hlen; [lia|]. cbn [free_search].
  pose proof (layout_region _ _ _ _ iStart iSize (proj1 (proj2 (proj2 (proj2 (proj2 Hwf))))) ltac:(set_solver)) as (Htop & _ & HiSize).
  pose proof Hwf as (_ & _ & _ & Hasc & Hlay & _ & _ & _ & Htu).
  rewrite (stored_end _ _ _ _ Hst). cbn [mbind option_bind]. destruct f2 as [|[pc sz] f2].
  - cbn [list_from] in Hfrom. subst z. destruct (Z.ltb_spec 0 iStart); [|lia].
    assert (hdr + 1 ≤ end_of (hdr + 1) f1).
    { destruct (end_of_cases (hdr + 1) f1) as [[_ ->]|(f' & b & m & E & ->)]; [lia|].
      destruct (wf_free _ _ _ _ _ _ _ b m Hwf) as (? & _); [rewrite Ef, E; set_solver|lia]. }
    destruct (Z.ltb_spec 0 (end_of (hdr + 1) f1 + 4)); [|lia]. cbn [Z.eqb]. exists f1, [], 0. split; [done|]. split; [|done].
    split; [done|]. split; [done|constructor].
  - destruct Hfrom as (-> & Hsz & Hf2). rewrite Ef in Hwf. destruct (wf_split _ _ _ _ _ _ _ _ _ _ Hwf) as (_ & _ & Hend & _ & _ & H4 & _).
    assert (pc ≠ iStart).
    { intros ->. rewrite Ef in Hlay. cbn [app] in Hlay.
      destruct (layout_disjoint _ _ _ _ _ _ iStart sz Hlay) as [?|?]; [set_solver|lia..]. }
    destruct (Z.ltb_spec pc iStart).
    + destruct (Z.ltb_spec pc (end_of (hdr + 1) f1 + 4)); [lia|].
      rewrite Ef. assert (f1 ++ (pc, sz) :: f2 = (f1 ++ [(pc, sz)]) ++ f2) as E2 by (by rewrite <-app_assoc). rewrite E2 in *.
      apply stored_list_from in Hf2 as (z' & Hz' & Hfrom).
      destruct (IH (f1 ++ [(pc, sz)]) f2 z') as (g1 & g2 & z2 & E & Har & Hst' & Hfrom'); try done.
      * by rewrite Ef.
      * apply Forall_app. split; [done|]. constructor; [done|constructor].
      * apply stored_app. done.
      * cbn [length] in Hlen. lia.
      * rewrite end_of_app in E. rewrite Ef in Har. by exists g1, g2, z2.
    + exists f1, ((pc, sz) :: f2), pc. split; [done|]. split; [|split; [done|by cbn]]. split; [done|]. split; [done|].
      constructor; [cbn; lia|]. rewrite Ef in Hasc. apply ascending_app in Hasc as (_ & _ & _ & Hasc2 & _).
      apply Forall_forall. intros [b m] Hb. destruct (ascending_in _ _ _ _ Hasc2 Hb). cbn. lia.
Qed.
(** Writes outside the list, the top and the count of fragments. *)
Lemma wf_frame d d' l f top frag :
  wf hdr u d l f top frag → bytes_ok d' → len d' = len d →
  (∀ j, hdr + 1 ≤ j < hdr + 3 ∨ hdr + 5 ≤ j < hdr + 8 ∨ j ∈ bytes_of f → peek d' j = peek d j) → wf hdr u d' l f top frag.
Proof.
  intros Hwf Hd' Hl Hsame. pose proof Hwf as (Hd & Hlen & Hst & Hasc & Hlay & Ht & Hf & Hfr & Hb).
  unfold wf. split_and!; [done|lia| |done|done| | |lia..].
  - eapply stored_frame; [done|]. intros j [Hj|(b & m & Hin & Hj)]; apply Hsame; [lia|]. right; right.
    apply elem_of_bytes. exists b, m. destruct (ascending_in _ _ _ _ Hasc Hin). split; [done|lia].
  - rewrite <-Ht. apply get2byte_ext; apply Hsame; lia.
  - rewrite Hsame by lia. done.
Qed.

Lemma free_list_empty d l f top frag :
  wf hdr u d l f top frag → ∃ x0 x1, peek d (hdr + 1) = Some x0 ∧ peek d (hdr + 1 + 1) = Some x1 ∧
    (f = [] → x1 = 0 ∧ x0 = 0) ∧ (f ≠ [] → (x1 =? 0) && (x0 =? 0) = false).
Proof.
  intros Hwf. pose proof Hwf as (Hd & Hlen & Hst & _ & _ & _ & _ & _ & Hb).
  destruct (peek_is_Some d (hdr + 1)) as [x0 E0]; [lia|]. destruct (peek_is_Some d (hdr + 1 + 1)) as [x1 E1]; [lia|].
  exists x0, x1. split; [done|]. split; [done|].
  assert (get2byte d (hdr + 1) = Some (256 * x0 + x1)) as Eg.
  { unfold get2byte. rewrite E0, E1. cbn [mbind option_bind]. f_equal. apply word_lor. by apply (peek_byte d (hdr + 1 + 1)). }
  pose proof (peek_byte _ _ _ Hd E0) as H0. pose proof (peek_byte _ _ _ Hd E1) as H1. unfold uint in H0, H1.
  split; intros Hf.
  - subst f. cbn [stored] in Hst. rewrite Eg in Hst. injection Hst as Hst. lia.
  - destruct f as [|[pc sz] f]; [done|]. destruct Hst as (Hpc & _). rewrite Eg in Hpc. injection Hpc as Hpc.
    destruct (wf_free _ _ _ _ _ _ _ pc sz Hwf) as (? & _); [set_solver|].
    destruct (Z.eqb_spec x1 0), (Z.eqb_spec x0 0); [lia|done..].
Qed.

(** ** Coalescing *)

Context (pBt : BtShared) (Hbt : usableSize pBt = u).

Lemma coalesce_next_spec d l f1 f2 s n z top frag lo :
  layout ((s, n) :: l ++ f1 ++ f2) top u frag → ascending lo f2 → Forall (λ r, s < r.1) f2 → list_from d z f2 →
  8 ≤ top ≤ u → u ≤ 65536 →
  ∃ nFrag n' z' f2', coalesce_next pBt d s n (s + n) z = Some (Some (nFrag, s + n', n', z')) ∧
    layout ((s, n') :: l ++ f1 ++ f2') top u (frag - nFrag) ∧ list_from d z' f2' ∧ ascending (s + n' + 4) f2' ∧
    0 ≤ nFrag ≤ 3 ∧ nFrag ≤ frag ∧ (∀ r, r ∈ f2' → r ∈ f2).
Proof.
  intros Hlay Hasc Hf2 Hfrom Htop Hu. unfold coalesce_next.
  destruct (layout_region _ _ _ _ s n Hlay) as (Hs & Hsn & Hn); [set_solver|].
  destruct f2 as [|[pc sz] f2].
  { cbn [list_from] in Hfrom. subst z. cbn [Z.eqb negb andb]. exists 0, n, 0, []. split; [done|].
    rewrite Z.sub_0_r. pose proof (layout_nonneg _ _ _ _ Hlay). split_and!; try done; lia. }
  destruct Hfrom as (-> & Hsz & Hf). cbn [ascending] in Hasc. destruct Hasc as (_ & H4 & Hasc).
  apply Forall_cons in Hf2 as [Hpc _]. cbn in Hpc.
  destruct (layout_disjoint _ _ _ _ _ _ pc sz Hlay) as [Hdis|?]; [set_solver| |lia].
  destruct (layout_region _ _ _ _ pc sz Hlay) as (_ & Hpsz & _); [set_solver|].
  destruct (Z.eqb_spec pc 0); [lia|]. cbn [negb andb]. destruct (Z.leb_spec pc (s + n + 3)).
  - destruct (Z.ltb_spec pc (s + n)); [lia|]. rewrite Hsz. cbn [mbind option_bind].
    rewrite (u32_small (pc + sz)) by lia. rewrite Hbt. destruct (Z.ltb_spec u (pc + sz)); [lia|].
    apply stored_list_from in Hf as (z' & Hz' & Hfrom). rewrite Hz'. cbn [mbind option_bind].
    rewrite u8_small, u16_small by lia.
    exists (pc - (s + n)), (pc + sz - s), z', f2. split; [by replace (s + (pc + sz - s)) with (pc + sz) by lia|].
    assert (layout ((s, n) :: (pc, sz) :: l ++ f1 ++ f2) top u frag) as Hlay'.
    { eapply layout_perm_1; [|exact Hlay]. f_equiv. solve_Permutation. }
    destruct (layout_join _ _ _ _ _ _ _ _ Hlay') as [Hj Hle]; [lia..|]. split; [done|]. split; [done|].
    split; [by replace (s + (pc + sz - s) + 4) with (pc + sz + 4) by lia|]. split; [lia|]. split; [done|].
    intros r Hr. by right.
  - exists 0, n, pc, ((pc, sz) :: f2). split; [done|]. rewrite Z.sub_0_r.
    pose proof (layout_nonneg _ _ _ _ Hlay). split_and!; try done; try lia. cbn. split_and!; [lia|done|done].
Qed.

Lemma coalesce_prev_spec d l f1 f2 s n z top frag nFrag :
  layout ((s, n) :: l ++ f1 ++ f2) top u (frag - nFrag) → ascending (top + 1) f1 → Forall (λ r, r.1 < s) f1 →
  stored d (hdr + 1) f1 z → 0 ≤ nFrag ≤ 3 → hdr + 8 ≤ top ≤ u → u ≤ 65536 → 0 ≤ hdr →
  ∃ nFrag' s' n' f1', coalesce_prev d hdr (end_of (hdr + 1) f1) nFrag s n (s + n) = Some (Some (nFrag', s', n')) ∧
    s' + n' = s + n ∧ layout ((s', n') :: l ++ f1' ++ f2) top u (frag - nFrag') ∧ 0 ≤ nFrag' ∧
    ascending (top + 1) f1' ∧ (∀ b m, (b, m) ∈ f1' → b + m + 4 ≤ s') ∧
    (s' = s ∧ f1' = f1 ∨ ∃ m, f1 = f1' ++ [(s', m)]).
Proof.
  intros Hlay Hasc Hf1 Hst HnFrag Htop Hu Hhdr. unfold coalesce_prev.
  destruct (layout_region _ _ _ _ s n Hlay) as (Hs & Hsn & Hn); [set_solver|].
  destruct (end_of_cases (hdr + 1) f1) as [[-> ->]|(f1' & b & m & -> & ->)].
  { destruct (Z.ltb_spec (hdr + 1) (hdr + 1)); [lia|]. exists nFrag, s, n, []. split_and!; try done; try lia.
    - by intros ? ? ?%elem_of_nil.
    - by left. }
  pose proof (ascending_in _ _ b m Hasc ltac:(set_solver)) as [Hb Hm].
  apply stored_app in Hst as (_ & Hm2 & _). apply ascending_app in Hasc as (Hasc1 & _ & _ & _ & Hall).
  assert (Forall (λ r, r.1 < s) f1' ∧ b < s) as [Hf1' Hbs].
  { apply Forall_app in Hf1 as [? [? _]%Forall_cons]. done. }
  destruct (Z.ltb_spec (hdr + 1) b); [|lia]. rewrite Hm2. cbn [mbind option_bind].
  destruct (layout_disjoint _ _ _ _ _ _ b m Hlay) as [?|Hdis]; [set_solver|lia|].
  destruct (Z.leb_spec s (b + m + 3)).
  - destruct (Z.ltb_spec s (b + m)); [lia|]. rewrite u8_small, u16_small by lia.
    exists (nFrag + (s - (b + m))), b, (s + n - b), f1'. split; [done|]. split; [lia|].
    assert (layout ((b, m) :: (s, n) :: l ++ f1' ++ f2) top u (frag - nFrag)) as Hlay'.
    { eapply layout_perm_1; [|exact Hlay]. solve_Permutation. }
    destruct (layout_join _ _ _ _ _ _ _ _ Hlay') as [Hj Hle]; [lia..|].
    split; [by replace (frag - (nFrag + (s - (b + m)))) with (frag - nFrag - (s - (b + m))) by lia|].
    split_and!; try done; [lia|]. right. by exists m.
  - exists nFrag, s, n, (f1' ++ [(b, m)]). split; [done|]. split_and!; try done; try lia.
    + apply ascending_app. split_and!; try done.
    + intros c k [Hin|[= -> ->]%list_elem_of_singleton]%elem_of_app; [|lia]. specialize (Hall _ _ Hin). lia.
    + by left.
Qed.
(** ** Linking *)

(** The region of [n] bytes at [s] has been found between the blocks [f1] and
    [f2]; [z] is the pointer to [f2]. *)
Definition ready d l f1 s n f2 z top frag : Prop :=
  bytes_ok d ∧ u ≤ len d ∧ (∃ p, stored d (hdr + 1) f1 p) ∧ list_from d z f2 ∧
  ascending (top + 1) f1 ∧ (∀ b m, (b, m) ∈ f1 → b + m + 4 ≤ s) ∧ ascending (s + n + 4) f2 ∧
  layout ((s, n) :: l ++ f1 ++ f2) top u frag ∧
  get2byte d (hdr + 5) = Some (top `mod` 65536) ∧ peek d (hdr + 7) = Some frag ∧ frag ≤ 60 ∧
  hdr + 8 ≤ top ≤ u ∧ 0 ≤ hdr ∧ u ≤ 65536.

Lemma list_from_range d l f1 s n f2 z top frag :
  ready d l f1 s n f2 z top frag → 0 ≤ z < 65536.
Proof.
  intros (_ & _ & _ & Hfrom & _ & _ & _ & Hlay & _ & _ & _ & Hb). destruct f2 as [|[pc sz] f2]; cbn [list_from] in Hfrom; [lia|].
  destruct Hfrom as (-> & _). destruct (layout_region _ _ _ _ pc sz Hlay) as (? & ? & ?); [set_solver|lia].
Qed.

(** The region is at the start of the cell content area. *)
Lemma extend_top d l f1 n f2 z top frag :
  ready d l f1 top n f2 z top frag →
  f1 = [] ∧ ∃ d', (data ← put2byte d (hdr + 1) z; put2byte data (hdr + 5) (top + n)) = Some d' ∧
    wf hdr u d' l f2 (top + n) frag ∧
    len d' = len d ∧ ∀ j, j < hdr + 1 ∨ hdr + 3 ≤ j < hdr + 5 ∨ hdr + 7 ≤ j → peek d' j = peek d j.
Proof.
  intros Hr. pose proof (list_from_range _ _ _ _ _ _ _ _ _ Hr) as Hz.
  destruct Hr as (Hd & Hlen & _ & Hfrom & Hasc1 & Hall & Hasc2 & Hlay & Ht & Hf & Hfr & Hb).
  assert (f1 = []) as ->.
  { destruct f1 as [|[b m] f1]; [done|]. specialize (Hall b m ltac:(set_solver)). cbn [ascending] in Hasc1. lia. }
  split; [done|]. destruct (layout_region _ _ _ _ top n Hlay) as (_ & Hn & Hn4); [set_solver|].
  destruct (put2byte_spec d (hdr + 1) z Hd) as (d1 & E1 & (Hd1 & Hl1 & Hc1) & Hp1); [lia..|]. rewrite E1. cbn [mbind option_bind].
  destruct (put2byte_spec d1 (hdr + 5) (top + n) Hd1) as (d2 & E2 & (Hd2 & Hl2 & Hc2) & Hp2); [lia..|]. rewrite E2.
  exists d2. split; [done|]. rewrite Z.mod_small in Hp1 by lia. cbn [app] in Hlay.
  assert (∀ j, j < hdr + 1 ∨ hdr + 3 ≤ j < hdr + 5 ∨ hdr + 7 ≤ j → peek d2 j = peek d j) as Hsame.
  { intros j Hj. rewrite Hc2, Hc1 by lia. done. }
  split; [|split; [lia|done]]. unfold wf. split_and!; [done|lia| | | |done| |lia..].
  - apply stored_list_from. exists z. split.
    + rewrite <-Hp1. apply get2byte_ext; apply Hc2; lia.
    + eapply list_from_frame; [done|]. intros j pc sz Hin Hj. destruct (ascending_in _ _ _ _ Hasc2 Hin). apply Hsame. lia.
  - eapply ascending_mono; [exact Hasc2|lia].
  - by apply layout_front.
  - rewrite Hsame by lia. done.
Qed.

(** The region becomes a block of the list; [iPtr] is the end of [f1] or, if
    the region begins with a block, that block. *)
Lemma link_block d l f1 s n f2 z top frag iPtr :
  ready d l f1 s n f2 z top frag → s ≠ top →
  iPtr = end_of (hdr + 1) f1 ∨ (iPtr = s ∧ stored d (hdr + 1) f1 s) →
  ∃ d', (data ← put2byte d iPtr s; data ← put2byte data s z; put2byte data (s + 2) n) = Some d' ∧
    wf hdr u d' l (f1 ++ (s, n) :: f2) top frag ∧ same_except hdr d d' ((s, 4) :: f1).
Proof.
  intros Hr Hs HiPtr. pose proof (list_from_range _ _ _ _ _ _ _ _ _ Hr) as Hz.
  destruct Hr as (Hd & Hlen & (p & Hst) & Hfrom & Hasc1 & Hall & Hasc2 & Hlay & Ht & Hf & Hfr & Hb).
  destruct (layout_region _ _ _ _ s n Hlay) as (Hts & Hsn & Hn); [set_solver|].
  set (e := end_of (hdr + 1) f1) in *.
  assert ((e = hdr + 1 ∧ f1 = []) ∨ (top < e ∧ e + 8 ≤ s ∧ ∃ m, (e, m) ∈ f1 ∧ 4 ≤ m)) as He.
  { destruct (end_of_cases (hdr + 1) f1) as [[E E']|(f' & b & m & E & E')]; [by left|right].
    unfold e. rewrite E'. assert ((b, m) ∈ f1) as Hin by (rewrite E; set_solver).
    destruct (ascending_in _ _ _ _ Hasc1 Hin). specialize (Hall _ _ Hin). split; [lia|]. split; [lia|]. by exists m. }
  destruct (put2byte_spec d iPtr s Hd) as (d1 & E1 & (Hd1 & Hl1 & Hc1) & Hp1); [lia..|]. rewrite E1. cbn [mbind option_bind].
  destruct (put2byte_spec d1 s z Hd1) as (d2 & E2 & (Hd2 & Hl2 & Hc2) & Hp2); [lia..|]. rewrite E2. cbn [mbind option_bind].
  destruct (put2byte_spec d2 (s + 2) n Hd2) as (d3 & E3 & (Hd3 & Hl3 & Hc3) & Hp3); [lia..|]. rewrite E3.
  exists d3. split; [done|]. rewrite Z.mod_small in Hp1, Hp2, Hp3 by lia.
  assert (∀ j, j < s ∨ s + 4 ≤ j → j < e ∨ e + 2 ≤ j → peek d3 j = peek d j) as Hsame.
  { intros j Hj Hj'. rewrite Hc3, Hc2 by lia. apply Hc1. destruct HiPtr as [->|[-> _]]; [done|lia]. }
  assert (get2byte d3 e = Some s) as Hpe.
  { destruct HiPtr as [->|[-> Hst']].
    - rewrite <-Hp1. apply get2byte_ext; rewrite Hc3, Hc2 by lia; done.
    - rewrite <-(stored_end _ _ _ _ Hst'). apply get2byte_ext; rewrite Hc3, Hc2, Hc1 by lia; done. }
  split; [|split; [lia|]].
  - unfold wf. split_and!; [done|lia| | | | | |lia..].
    + apply (stored_splice d d3 _ f1 ((s, n) :: f2) p 0 (top + 1)); [done|done|lia| |].
      * intros j Hj Hj'. apply Hsame; [|done]. destruct Hj as [|(b & m & Hin & Hj)]; [lia|].
        destruct (ascending_in _ _ _ _ Hasc1 Hin). specialize (Hall _ _ Hin). lia.
      * cbn [stored]. split; [done|]. split; [done|]. apply stored_list_from. exists z. split.
        -- rewrite <-Hp2. apply get2byte_ext; apply Hc3; lia.
        -- eapply list_from_frame; [done|]. intros j pc sz Hin Hj. destruct (ascending_in _ _ _ _ Hasc2 Hin).
           apply Hsame; lia.
    + apply ascending_app. split_and!; try done. lia.
    + eapply layout_perm_1; [|exact Hlay]. solve_Permutation.
    + rewrite <-Ht. apply get2byte_ext; apply Hsame; lia.
    + rewrite Hsame by lia. done.
  - intros j Hj Hout. apply Hsame.
    + destruct (Z.lt_ge_cases j s); [by left|right]. destruct (Z.le_gt_cases (s + 4) j); [done|]. exfalso. apply Hout.
      apply elem_of_bytes. exists s, 4. split; [set_solver|lia].
    + destruct He as [[? _]|(_ & _ & m & Hin & Hm)]; [lia|]. destruct (Z.lt_ge_cases j e); [by left|right].
      destruct (Z.le_gt_cases (e + 2) j); [done|]. exfalso. apply Hout. apply elem_of_bytes. exists e, m. split; [set_solver|lia].
Qed.
(** ** The function *)

Context (pPage : MemPage) (Hpage : hdrOffset pPage = hdr).

Lemma free_coalesce_spec d l f top frag iStart iSize :
  wf hdr u d ((iStart, iSize) :: l) f top frag →
  ∃ d' iPtr s n iEnd z f1 f2 frag', free_coalesce pBt pPage d iStart iSize = Some (Some (d', iPtr, s, n, iEnd, z)) ∧
    iEnd = s + n ∧ ready d' l f1 s n f2 z top frag' ∧
    (iPtr = end_of (hdr + 1) f1 ∨ (iPtr = s ∧ stored d' (hdr + 1) f1 s ∧ top < s)) ∧
    (∀ j, j ≠ hdr + 7 → peek d' j = peek d j) ∧ len d' = len d ∧
    (∀ r, r ∈ f1 → r ∈ f) ∧ (s = iStart ∨ ∃ m, (s, m) ∈ f).
Proof.
  intros Hwf. pose proof Hwf as (Hd & Hlen & Hst & Hasc & Hlay & Ht & Hf & Hfr & Hb).
  pose proof (wf_frag _ _ _ _ _ _ _ Hwf) as Hfrag.
  destruct (layout_region _ _ _ _ iStart iSize Hlay) as (Hs & Hn & Hn4); [set_solver|].
  unfold free_coalesce. rewrite Hpage. cbv zeta. rewrite (u32_small (iStart + iSize)) by lia.
  destruct (free_list_empty _ _ _ _ _ Hwf) as (x0 & x1 & E0 & E1 & Hnil & Hcons). rewrite E1, E0. cbn [mbind option_bind].
  destruct (decide (f = [])) as [->|Hne].
  { destruct (Hnil eq_refl) as [-> ->]. cbn [Z.eqb andb]. exists d, (hdr + 1), iStart, iSize, (iStart + iSize), 0, [], [], frag.
    split; [done|]. split; [done|]. split; [|split_and!; try done; by left].
    unfold ready. split_and!; try done; try lia; [by exists 0|by intros ? ? ?%elem_of_nil]. }
  rewrite (Hcons Hne). apply stored_list_from in Hst as (z0 & Hz0 & Hfrom0).
  destruct (free_search_spec (S (Z.to_nat u)) d l f top frag iStart iSize [] f z0 Hwf eq_refl) as
    (g1 & g2 & z & E & (Ef & Hg1 & Hg2) & Hst1 & Hfrom); [constructor|done|done| |].
  { pose proof (wf_length _ _ _ _ _ _ _ Hwf). lia. }
  rewrite Hbt. change (end_of (hdr + 1) []) with (hdr + 1) in E. rewrite E. cbn [mbind option_bind].
  assert (0 ≤ z ≤ u - 4) as Hz.
  { destruct g2 as [|[pc sz] g2]; cbn [list_from] in Hfrom; [lia|]. destruct Hfrom as (-> & _).
    destruct (wf_free _ _ _ _ _ _ _ pc sz Hwf) as (? & ? & ?); [rewrite Ef; set_solver|lia]. }
  rewrite (u32_small (u - 4)) by lia. destruct (Z.ltb_spec (u - 4) z); [lia|].
  rewrite Ef in Hlay, Hasc. cbn [app] in Hlay.
  assert (ascending (top + 1) g1 ∧ ∃ lo, ascending lo g2) as [Hasc1 [lo Hasc2]].
  { clear -Hasc. destruct g2 as [|[pc sz] g2]; [rewrite app_nil_r in Hasc; split; [done|by exists 0]|].
    apply ascending_app in Hasc as (? & ? & ? & Hg2 & _). split; [done|]. exists pc. by cbn. }
  destruct (coalesce_next_spec d l g1 g2 iStart iSize z top frag lo Hlay Hasc2 Hg2 Hfrom) as
    (nFrag & n' & z' & g2' & E2 & Hlay2 & Hfrom2 & Hasc2' & HnFrag & HnFrag' & Hsub); [lia..|].
  rewrite E2. cbn [mbind option_bind].
  destruct (coalesce_prev_spec d l g1 g2' iStart n' z top frag nFrag Hlay2 Hasc1 Hg1 Hst1) as
    (nFrag2 & s & n & g1' & E3 & Hsn & Hlay3 & HnFrag2 & Hasc1' & Hall & Hor); [lia..|].
  rewrite E3. cbn [mbind option_bind]. rewrite Hf. cbn [mbind option_bind].
  pose proof (layout_nonneg _ _ _ _ Hlay3 ltac:(lia)) as Hnn. destruct (Z.ltb_spec frag nFrag2); [lia|].
  destruct (put_spec d (hdr + 7) (frag - nFrag2) Hd) as (d' & E4 & (Hd' & Hl' & Hc') & Hp'); [lia|].
  rewrite E4. cbn [mbind option_bind]. rewrite u8_small in Hp' by lia.
  assert (∀ j, j ≠ hdr + 7 → peek d' j = peek d j) as Hsame by (intros j Hj; apply Hc'; lia).
  assert (∀ g b m lo, (b, m) ∈ g → ascending lo g → top + 1 ≤ lo → ∀ j, b ≤ j → j ≠ hdr + 7) as Hbig.
  { intros g b m lo' Hin Hg Hlo j Hj. destruct (ascending_in _ _ _ _ Hg Hin). lia. }
  destruct (layout_region _ _ _ _ s n Hlay3) as (Hs3 & _ & Hn3); [set_solver|].
  assert (∀ g p, ascending (top + 1) g → stored d (hdr + 1) g p → stored d' (hdr + 1) g p) as Hframe.
  { intros g p Hg Hgs. eapply stored_frame; [done|]. intros j Hj. apply Hsame.
    destruct Hj as [|(b & m & Hin & Hj)]; [lia|]. eapply Hbig; [done|done|lia|lia]. }
  eexists d', _, s, n, _, z', g1', g2', (frag - nFrag2). split; [done|]. split; [lia|]. split; [|split; [|split_and!; [done|done| |]]].
  - unfold ready. split_and!; try done; try lia.
    + destruct Hor as [[_ ->]|(m & ->)]; [exists z; by apply Hframe|].
      apply stored_app in Hst1 as (Hst1 & _). exists s. by apply Hframe.
    + eapply list_from_frame; [done|]. intros j b m Hin Hj. apply Hsame. destruct (ascending_in _ _ _ _ Hasc2' Hin). lia.
    + by replace (s + n + 4) with (iStart + n' + 4) by lia.
    + rewrite <-Ht. apply get2byte_ext; apply Hsame; lia.
  - destruct Hor as [[_ ->]|(m & ->)]; [by left|]. right. split; [by apply end_of_app|].
    apply stored_app in Hst1 as (Hst1 & _). split; [by apply Hframe|].
    destruct (ascending_in _ _ s m Hasc1); [set_solver|lia].
  - intros r Hr. rewrite Ef. apply elem_of_app. left. destruct Hor as [[_ ->]|(m & ->)]; [done|set_solver].
  - destruct Hor as [[-> _]|(m & ->)]; [by left|right]. exists m. rewrite Ef. set_solver.
Qed.

Lemma freeSpace_spec l f top frag iStart iSize :
  wf hdr u (aData pPage) ((iStart, iSize) :: l) f top frag →
  ∃ d' f' top' frag', freeSpace pBt pPage iStart iSize = Some (SQLITE_OK, set_nFree (set_data pPage d') (nFree pPage + iSize)) ∧
    wf hdr u d' l f' top' frag' ∧ top ≤ top' ∧ same_except hdr (aData pPage) d' ((iStart, iSize) :: f).
Proof.
  intros Hwf. pose proof Hwf as (Hd & Hlen & _ & Hasc & Hlay & _ & _ & _ & Hb).
  destruct (layout_region _ _ _ _ iStart iSize Hlay) as (Hs & Hn & Hn4); [set_solver|].
  assert (∃ d0, (if secure_delete pBt then zero (aData pPage) iStart iSize else Some (aData pPage)) = Some d0 ∧
    wf hdr u d0 ((iStart, iSize) :: l) f top frag ∧ len d0 = len (aData pPage) ∧
    ∀ j, j < iStart ∨ iStart + iSize ≤ j → peek d0 j = peek (aData pPage) j) as (d0 & E0 & Hwf0 & Hl0 & Hsame0).
  { destruct (secure_delete pBt); [|by exists (aData pPage)].
    destruct (zero_spec (aData pPage) iStart iSize Hd) as (d0 & E0 & (Hd0 & Hl0 & Hc0) & _); [lia..|].
    exists d0. split; [done|]. split; [|done]. eapply wf_frame; [done|done|done|]. intros j Hj. apply Hc0.
    destruct (Z.lt_ge_cases j iStart); [by left|right]. destruct (Z.le_gt_cases (iStart + iSize) j); [done|]. exfalso.
    destruct Hj as [|[|Hj]]; [lia..|]. cbn [app] in Hlay.
    apply (layout_outside _ _ _ _ iStart iSize j Hlay); [lia|]. rewrite bytes_of_app. set_solver. }
  unfold freeSpace. rewrite E0. cbn [mbind option_bind].
  destruct (free_coalesce_spec d0 l f top frag iStart iSize Hwf0) as
    (d1 & iPtr & s & n & iEnd & z & f1 & f2 & frag' & E1 & -> & Hr & HiPtr & Hsame1 & Hl1 & Hsub & Hs').
  rewrite E1. cbn [mbind option_bind]. pose proof Hr as (_ & _ & _ & _ & _ & _ & _ & Hlayr & Ht & _).
  rewrite Hpage, Ht. cbn [mbind option_bind].
  destruct (layout_region _ _ _ _ s n Hlayr) as (Hs1 & Hn1 & Hn41); [set_solver|]. rewrite Z.mod_small by lia.
  assert (∀ d' lo, (∀ j, j < hdr + 1 ∨ hdr + 3 ≤ j < hdr + 5 ∨ hdr + 8 ≤ j → j ∉ bytes_of lo → peek d' j = peek d1 j) →
    len d' = len d1 → (∀ i, i ∈ bytes_of lo → i ∈ bytes_of ((iStart, iSize) :: f)) →
    same_except hdr (aData pPage) d' ((iStart, iSize) :: f)) as Hexcept.
  { intros d' lo Hsame Hl Hlo. split; [lia|]. intros j Hj Hout. rewrite Hsame; [|done|by intros ?%Hlo]. rewrite Hsame1 by lia.
    apply Hsame0. destruct (Z.lt_ge_cases j iStart); [by left|right]. destruct (Z.le_gt_cases (iStart + iSize) j); [done|].
    exfalso. apply Hout. cbn [bytes_of]. apply elem_of_app. left. apply elem_of_seqZ. lia. }
  destruct (Z.eqb_spec s top) as [->|Hne].
  - destruct (extend_top _ _ _ _ _ _ _ _ Hr) as (-> & d2 & E2 & Hwf2 & Hl2 & Hsame2).
    assert (iPtr = hdr + 1) as -> by (destruct HiPtr as [->|(_ & _ & ?)]; [done|lia]).
    rewrite Z.eqb_refl. cbn [negb]. destruct (put2byte d1 (hdr + 1) z) as [d3|]; [|done]. cbn [mbind option_bind] in E2 |- *.
    rewrite E2. cbn [mbind option_bind]. exists d2, f2, (top + n), frag'. split; [done|]. split; [done|]. split; [lia|].
    apply (Hexcept d2 []); [|done|by intros ? ?%elem_of_nil]. intros j Hj _. apply Hsame2. lia.
  - destruct (link_block _ _ _ _ _ _ _ _ _ iPtr Hr Hne) as (d2 & E2 & Hwf2 & Hl2 & Hsame2).
    { destruct HiPtr as [->|(-> & ? & _)]; [by left|by right]. }
    destruct (put2byte d1 iPtr s) as [d3|]; [|done]. cbn [mbind option_bind] in E2 |- *.
    destruct (put2byte d3 s z) as [d4|]; [|done]. cbn [mbind option_bind] in E2 |- *.
    rewrite E2. cbn [mbind option_bind]. exists d2, (f1 ++ (s, n) :: f2), top, frag'. split; [done|]. split; [done|]. split; [lia|].
    apply (Hexcept d2 ((s, 4) :: f1)); [done|done|]. intros i (b & m & Hin & Hi)%elem_of_bytes. apply elem_of_bytes.
    apply elem_of_cons in Hin as [[= -> ->]|Hin].
    + destruct Hs' as [->|(m & Hin)]; [exists iStart, iSize; split; [set_solver|lia]|].
      exists s, m. destruct (ascending_in _ _ _ _ Hasc Hin). split; [set_solver|lia].
    + exists b, m. split; [right; by apply Hsub|done].
Qed.
End free.
