(* ===== verification/BtreeAlloc.v ===== *)
(** * B-tree: defragmentation and allocation

    [defragmentPage] keeps the cells and packs them; [allocateSpace] on a page
    with enough free bytes gives a region of its own, from a free block, from the
    gap or after defragmentation. *)
From S2P Require Import Prelude Words BtreeBytes BtreeCell BtreeCellProofs BtreePage BtreeFree BtreeFreeSpace.
Local Open Scope Z_scope.

Section cells.
Implicit Types (d src : list Z) (os : list Z) (cs : list (list Z)) (a o top u : Z).

(** The offsets [os] in the array at [a]. *)
Fixpoint pointers d a os : Prop :=
  match os with [] => True | o :: os => get2byte d a = Some o ∧ pointers d (a + 2) os end.

(** The cells [cs] at the offsets [os]. *)
Definition contents d os cs : Prop := Forall2 (λ o c, region d o (len c) = Some c) os cs.

Definition cell_regions os cs : regions := zip_with (λ o c, (o, len c)) os cs.

(** The bytes of all cells. *)
Fixpoint cells_size cs : Z := match cs with [] => 0 | c :: cs => len c + cells_size cs end.

(** Where defragmentation puts the cells, down from [cbrk]. *)
Fixpoint packed (cbrk : Z) cs : list Z :=
  match cs with [] => [] | c :: cs => (cbrk - len c) :: packed (cbrk - len c) cs end.

Lemma pointers_frame d d' a os :
  pointers d a os → (∀ j, a ≤ j < a + 2 * len os → peek d' j = peek d j) → pointers d' a os.
Proof.
  revert a. induction os as [|o os IH]; intros a; [done|]. cbn [pointers length]. intros [Ho Hos] Hsame. split.
  - rewrite <-Ho. apply get2byte_ext; apply Hsame; lia.
  - apply IH; [done|]. intros j Hj. apply Hsame. lia.
Qed.

Lemma pointers_lookup d a os i o : pointers d a os → os !! i = Some o → get2byte d (a + 2 * Z.of_nat i) = Some o.
Proof.
  revert a i. induction os as [|o' os IH]; intros a i; [done|]. cbn [pointers]. intros [Ho Hos]. destruct i as [|i].
  - intros [= ->]. by rewrite Z.add_0_r.
  - intros Hi. specialize (IH (a + 2) i Hos Hi). rewrite <-IH. f_equal. lia.
Qed.

Lemma pointers_app d a os1 os2 : pointers d a (os1 ++ os2) ↔ pointers d a os1 ∧ pointers d (a + 2 * len os1) os2.
Proof.
  revert a. induction os1 as [|o os1 IH]; intros a; cbn [app pointers length].
  - rewrite Z.add_0_r. tauto.
  - rewrite IH. replace (a + 2 + 2 * len os1) with (a + 2 * Z.of_nat (S (length os1))) by lia. tauto.
Qed.

Lemma pointers_is_Some d a n :
  bytes_ok d → 0 ≤ a → a + 2 * Z.of_nat n ≤ len d → ∃ os, length os = n ∧ pointers d a os.
Proof.
  revert a. induction n as [|n IH]; intros a Hd Ha Hlen; [by exists []|].
  destruct (get2byte_is_Some d a) as [o Ho]; [lia..|]. destruct (IH (a + 2) Hd) as (os & Hl & Hos); [lia..|].
  exists (o :: os). split; [cbn; lia|done].
Qed.

Lemma contents_frame d d' os cs :
  contents d os cs → len d' = len d → (∀ j, j ∈ bytes_of (cell_regions os cs) → peek d' j = peek d j) → contents d' os cs.
Proof.
  intros Hc Hl. induction Hc as [|o c os cs Ho _ IH]; intros Hsame; [constructor|]. cbn [cell_regions zip_with bytes_of] in Hsame.
  constructor; [|apply IH; intros j Hj; apply Hsame; apply elem_of_app; by right].
  rewrite <-Ho. apply region_ext; [done|]. intros j Hj. apply Hsame, elem_of_app. left. apply elem_of_seqZ. lia.
Qed.

Lemma contents_length d os cs : contents d os cs → length os = length cs.
Proof. apply Forall2_length. Qed.

Lemma contents_bytes d os cs : bytes_ok d → contents d os cs → Forall bytes_ok cs.
Proof. intros Hd Hc. induction Hc as [|o c os cs Ho _ IH]; constructor; [by eapply region_bytes|done]. Qed.

Lemma total_regions d os cs : contents d os cs → total (cell_regions os cs) = cells_size cs.
Proof. intros Hc. unfold cell_regions. induction Hc as [|o c os cs _ _ IH]; [done|]. cbn [zip_with total cells_size]. by rewrite IH. Qed.

Lemma cells_size_nonneg cs : 0 ≤ cells_size cs.
Proof. induction cs as [|c cs IH]; [done|]. cbn [cells_size]. lia. Qed.

Lemma cells_size_app cs1 cs2 : cells_size (cs1 ++ cs2) = cells_size cs1 + cells_size cs2.
Proof. induction cs1 as [|c cs1 IH]; [done|]. cbn [app cells_size]. lia. Qed.

Lemma length_packed cbrk cs : length (packed cbrk cs) = length cs.
Proof. revert cbrk. induction cs as [|c cs IH]; intros cbrk; [done|]. cbn. by rewrite IH. Qed.

(** The last region is next to the end. *)
Lemma layout_back l top frag a n : layout ((a, n) :: l) top (a + n) frag → layout l top a frag.
Proof.
  intros (Hnd & Hin & H4 & Ht). cbn [bytes_of total] in *. apply NoDup_app in Hnd as (_ & Hd & Hnd).
  apply Forall_cons in H4 as [_ H4]. split; [done|]. split; [|split; [done|lia]]. intros i Hi.
  assert (top ≤ i < a + n) as [? ?] by (apply Hin, elem_of_app; by right). split; [done|].
  destruct (Z.lt_ge_cases i a); [done|]. exfalso. apply (Hd i); [apply elem_of_seqZ; lia|done].
Qed.

Lemma packed_layout l cbrk u cs :
  layout l cbrk u 0 → Forall (λ c, 4 ≤ len c) cs → cbrk ≤ u →
  layout (cell_regions (packed cbrk cs) cs ++ l) (cbrk - cells_size cs) u 0.
Proof.
  intros Hl H4. revert l cbrk Hl. induction H4 as [|c cs Hc _ IH]; intros l cbrk Hl Hu; cbn [packed cell_regions zip_with cells_size app].
  - by rewrite Z.sub_0_r.
  - pose proof (layout_alloc _ _ _ _ (len c) Hl Hc Hu) as Hl'. specialize (IH _ _ Hl' ltac:(lia)).
    replace (cbrk - (len c + cells_size cs)) with (cbrk - len c - cells_size cs) by lia.
    eapply layout_perm_1; [|exact IH]. unfold cell_regions. solve_Permutation.
Qed.
End cells.

Section defrag.
Context (pBt : BtShared) (pPage : MemPage) (u : Z).
Context (Hlimits : limits_ok pBt) (Hkind : kind_ok pBt (kind pPage)) (Hbt : usableSize pBt = u).
Implicit Types (d space t : list Z) (os : list Z) (cs : list (list Z)).

(** A cell whose size is that of its bytes. *)
Definition cell_ok (c : list Z) : Prop := bytes_ok c ∧ cellSize pBt (kind pPage) c = Some (len c).

Lemma cell_ok_size c : cell_ok c → 4 ≤ len c < 65536.
Proof.
  intros [Hb Hc]. pose proof (cellSize_app pBt (kind pPage) Hlimits Hkind c [] (len c) Hb Hc) as [_ ?]. lia.
Qed.

Lemma region_agree d d' i n bs :
  region d i n = Some bs → i + n ≤ len d' → (∀ j, i ≤ j < i + n → peek d' j = peek d j) → region d' i n = Some bs.
Proof.
  intros Hr Hl Hsame. pose proof (region_Some _ _ _ _ Hr) as (-> & Hi & _). apply region_spec in Hr as (_ & _ & Hp).
  apply region_spec. split; [done|]. split; [done|]. intros j Hj. rewrite Hsame by lia. by apply Hp.
Qed.

Lemma size_at_spec src pc c : region src pc (len c) = Some c → cell_ok c → size_at pBt pPage src pc = Some (len c).
Proof.
  intros Hr [Hb Hc]. unfold size_at, advance. pose proof (region_Some _ _ _ _ Hr) as (_ & Hpc & Hlen).
  destruct (Z.leb_spec pc (len src)); [|lia]. cbn [mbind option_bind].
  assert (drop (Z.to_nat pc) src = c ++ drop (length c) (drop (Z.to_nat pc) src)) as ->.
  { unfold region in Hr. destruct (_ && _); [|done]. injection Hr as Hr. rewrite Nat2Z.id in Hr.
    rewrite <-Hr at 1. by rewrite take_drop. }
  by apply cellSize_app.
Qed.

(** What the loop leaves when it starts with [cbrk] at the [i]-th pointer. *)
Definition defragged d i cbrk cs d' : Prop :=
  bytes_ok d' ∧ len d' = len d ∧ pointers d' (cellOffset pPage + 2 * i) (packed cbrk cs) ∧ contents d' (packed cbrk cs) cs ∧
  ∀ j, (j < cellOffset pPage + 2 * i ∨ cellOffset pPage + 2 * (i + len cs) ≤ j) →
       (j < cbrk - cells_size cs ∨ cbrk ≤ j) → peek d' j = peek d j.

Lemma defragged_nil d i cbrk : bytes_ok d → defragged d i cbrk [] d.
Proof. intros Hd. split_and!; try done. constructor. Qed.

Lemma defragged_cons d d1 d' i cbrk c cs first :
  defragged d1 (i + 1) (cbrk - len c) cs d' → 0 ≤ i → 0 ≤ cellOffset pPage →
  cellOffset pPage + 2 * (i + 1 + len cs) ≤ first → first ≤ cbrk - (len c + cells_size cs) →
  len d1 = len d → cbrk ≤ len d →
  get2byte d1 (cellOffset pPage + 2 * i) = Some (cbrk - len c) → region d1 (cbrk - len c) (len c) = Some c →
  (∀ j, j < cellOffset pPage + 2 * i ∨ cellOffset pPage + 2 * i + 2 ≤ j → j < cbrk - len c ∨ cbrk ≤ j → peek d1 j = peek d j) →
  defragged d i cbrk (c :: cs) d'.
Proof.
  intros (Hd' & Hl' & Hp' & Hc' & Ho') Hi Hco Hfirst Hroom Hl1 Hcb Hg Hr Hsame. pose proof (cells_size_nonneg cs).
  unfold defragged. cbn [packed pointers cells_size length]. split_and!; [done|lia| | | |].
  - rewrite <-Hg. apply get2byte_ext; apply Ho'; lia.
  - by replace (cellOffset pPage + 2 * i + 2) with (cellOffset pPage + 2 * (i + 1)) by lia.
  - constructor; [|done]. eapply region_agree; [exact Hr|lia|]. intros j Hj. apply Ho'; lia.
  - intros j Hj1 Hj2. rewrite Ho' by lia. apply Hsame; lia.
Qed.

(** One iteration, up to the choice of the source. *)
Lemma defrag_loop_S n space first i d temp cbrk pc c :
  bytes_ok d → get2byte d (cellOffset pPage + 2 * i) = Some pc → region (default d temp) pc (len c) = Some c → cell_ok c →
  first ≤ pc → pc + len c ≤ u → first ≤ cbrk - len c → cbrk ≤ 65536 → 0 ≤ cellOffset pPage + 2 * i →
  cellOffset pPage + 2 * i + 2 ≤ first → 0 ≤ first → u ≤ len d →
  ∃ d1, put2byte d (cellOffset pPage + 2 * i) (cbrk - len c) = Some d1 ∧ changed d (cellOffset pPage + 2 * i) 2 d1 ∧
    get2byte d1 (cellOffset pPage + 2 * i) = Some (cbrk - len c) ∧
    defrag_loop pBt (S n) pPage space first (u - 4) i d temp cbrk =
      match temp with
      | None =>
        if cbrk - len c =? pc then defrag_loop pBt n pPage space first (u - 4) (i + 1) d1 None (cbrk - len c)
        else
          x ← get2byte d1 (hdrOffset pPage + 5);
          t ← copy space x d1 x (cbrk - x);
          d2 ← copy d1 (cbrk - len c) t pc (len c);
          defrag_loop pBt n pPage space first (u - 4) (i + 1) d2 (Some t) (cbrk - len c)
      | Some t =>
        d2 ← copy d1 (cbrk - len c) t pc (len c);
        defrag_loop pBt n pPage space first (u - 4) (i + 1) d2 temp (cbrk - len c)
      end.
Proof.
  intros Hd Hpc Hr Hc Hp1 Hp2 Hcb1 Hcb2 Hco Hco2 Hf Hlen. pose proof (cell_ok_size c Hc) as Hsz.
  destruct (put2byte_spec d (cellOffset pPage + 2 * i) (cbrk - len c) Hd) as (d1 & E1 & Hc1 & Hg1); [lia..|].
  exists d1. split; [done|]. split; [done|]. rewrite Z.mod_small in Hg1 by lia. split; [done|].
  cbn [defrag_loop]. rewrite (Z.mul_comm i 2), Hpc. cbn [mbind option_bind].
  destruct (Z.ltb_spec pc first); [lia|]. destruct (Z.ltb_spec (u - 4) pc); [lia|]. cbn [orb].
  rewrite (size_at_spec _ _ c Hr Hc). cbn [mbind option_bind]. rewrite Hbt.
  destruct (Z.ltb_spec (cbrk - len c) first); [lia|]. destruct (Z.ltb_spec u (pc + len c)); [lia|]. cbn [orb].
  rewrite E1. cbn [mbind option_bind]. destruct temp; [done|]. destruct (Z.eqb_spec (cbrk - len c) pc); [done|].
  destruct (get2byte d1 (hdrOffset pPage + 5)) as [x|]; [|done]. cbn [mbind option_bind].
  by replace (cbrk - len c + len c - x) with (cbrk - x) by lia.
Qed.

(** The cells are copied from [t]. *)
Lemma defrag_copied os cs : ∀ space first i d t cbrk,
  bytes_ok d → bytes_ok t → pointers d (cellOffset pPage + 2 * i) os → contents t os cs → Forall cell_ok cs →
  Forall2 (λ o c, first ≤ o ∧ o + len c ≤ u) os cs →
  0 ≤ i → 0 ≤ cellOffset pPage → cellOffset pPage + 2 * (i + len cs) ≤ first → first ≤ cbrk - cells_size cs →
  cbrk ≤ u → u ≤ len d → u ≤ 65536 →
  ∃ d', defrag_loop pBt (length os) pPage space first (u - 4) i d (Some t) cbrk = Some (SQLITE_OK, d', cbrk - cells_size cs) ∧
    defragged d i cbrk cs d'.
Proof.
  intros space first i d t cbrk Hd Ht Hp Hc. revert i d cbrk Hd Hp.
  induction Hc as [|o c os cs Ho Hc IH]; intros i d cbrk Hd Hp Hok Hb Hi Hco Hfirst Hroom Hcb Hlen Hu.
  { exists d. cbn [length defrag_loop cells_size]. rewrite Z.sub_0_r. split; [done|by apply defragged_nil]. }
  cbn [pointers] in Hp. destruct Hp as [Hpo Hp]. apply Forall_cons in Hok as [Hcok Hok].
  apply Forall2_cons in Hb as [[Hb1 Hb2] Hb]. cbn [cells_size length] in *. pose proof (cells_size_nonneg cs).
  destruct (defrag_loop_S (length os) space first i d (Some t) cbrk o c) as (d1 & E1 & (Hd1 & Hl1 & Hs1) & Hg1 & ->);
    [done|done|done|done|lia..|].
  destruct (copy_spec d1 (cbrk - len c) t o (len c) c Hd1 (proj1 Hcok) Ho) as (d2 & E2 & (Hd2 & Hl2 & Hs2) & Hr2); [lia..|].
  rewrite E2. cbn [mbind option_bind].
  destruct (IH (i + 1) d2 (cbrk - len c) Hd2) as (d' & E & Hdef); try done; try lia.
  { eapply pointers_frame; [|intros j Hj; rewrite Hs2, Hs1 by (rewrite (Forall2_length _ _ _ Hc) in Hj; lia); done].
    by replace (cellOffset pPage + 2 * (i + 1)) with (cellOffset pPage + 2 * i + 2) by lia. }
  rewrite E. exists d'. split; [do 2 f_equal; lia|]. eapply (defragged_cons _ d2 _ _ _ _ _ first); try done; try lia.
  - rewrite <-Hg1. apply get2byte_ext; apply Hs2; lia.
  - intros j Hj1 Hj2. rewrite Hs2, Hs1 by lia. done.
Qed.
(** A region before the last one ends before it begins. *)
Lemma layout_bounds os cs d top frag v :
  contents d os cs → layout (cell_regions os cs) top v frag → Forall2 (λ o c, top ≤ o ∧ o + len c ≤ v) os cs.
Proof.
  intros Hc Hl. assert (∀ r, r ∈ cell_regions os cs → top ≤ r.1 ∧ r.1 + r.2 ≤ v) as Hb.
  { intros [a n] Hr. destruct (layout_region _ _ _ _ a n Hl Hr) as (? & ? & _). done. }
  clear Hl. unfold cell_regions in Hb. induction Hc as [|o c os cs _ _ IH]; constructor.
  - apply (Hb (o, len c)). cbn [zip_with]. by left.
  - apply IH. intros r Hr. apply Hb. cbn [zip_with]. by right.
Qed.

(** The loop before the first cell that moves: the cells that have been seen
    are packed already, the others are in front of them. *)
Lemma defrag_in_place os cs : ∀ space first i d cbrk top frag,
  bytes_ok d → bytes_ok space → u ≤ len space →
  pointers d (cellOffset pPage + 2 * i) os → contents d os cs → Forall cell_ok cs →
  layout (cell_regions os cs) top cbrk frag → get2byte d (hdrOffset pPage + 5) = Some (top mod 65536) →
  0 ≤ i → 0 ≤ hdrOffset pPage → hdrOffset pPage + 7 ≤ cellOffset pPage →
  cellOffset pPage + 2 * (i + len cs) ≤ first → first ≤ top ≤ cbrk →
  cbrk ≤ u → u ≤ len d → u ≤ 65536 →
  ∃ d', defrag_loop pBt (length os) pPage space first (u - 4) i d None cbrk = Some (SQLITE_OK, d', cbrk - cells_size cs) ∧
    defragged d i cbrk cs d'.
Proof.
  intros space first i d cbrk top frag Hd Hsp Hspl Hp Hc. revert i d cbrk frag Hd Hp Hc. revert cs.
  induction os as [|o os IH]; intros cs i d cbrk frag Hd Hp Hc Hok Hlay Ht Hi Hhdr Hco Hfirst Htop Hcb Hlen Hu;
    destruct cs as [|c cs]; try by inversion Hc.
  { exists d. cbn [length defrag_loop cells_size]. rewrite Z.sub_0_r. split; [done|by apply defragged_nil]. }
  pose proof (layout_bounds _ _ _ _ _ _ Hc Hlay) as [[Hb1 Hb2] Hb]%Forall2_cons.
  pose proof (total_regions _ _ _ Hc) as Htot. pose proof (layout_nonneg _ _ _ _ Hlay ltac:(lia)) as Hfrag.
  assert (cells_size (c :: cs) + frag = cbrk - top) as Hroom by (destruct Hlay as (_ & _ & _ & H); lia).
  apply Forall2_cons in Hc as [Ho Hc]. cbn [pointers] in Hp. destruct Hp as [Hpo Hp].
  apply Forall_cons in Hok as [Hcok Hok]. cbn [cells_size length] in *. pose proof (cells_size_nonneg cs).
  pose proof (cell_ok_size c Hcok) as Hsz. pose proof (Forall2_length _ _ _ Hc) as Hln.
  destruct (defrag_loop_S (length os) space first i d None cbrk o c) as (d1 & E1 & (Hd1 & Hl1 & Hs1) & Hg1 & ->);
    [done|done|done|done|lia..|].
  assert (contents d1 os cs) as Hc1.
  { eapply contents_frame; [done|done|]. intros j Hj. apply Hs1. cbn [cell_regions zip_with] in Hlay.
    destruct Hlay as (_ & Hin & _). specialize (Hin j). cbn [bytes_of] in Hin. specialize (Hin ltac:(apply elem_of_app; by right)). lia. }
  assert (pointers d1 (cellOffset pPage + 2 * (i + 1)) os) as Hp1.
  { replace (cellOffset pPage + 2 * (i + 1)) with (cellOffset pPage + 2 * i + 2) by lia.
    eapply pointers_frame; [done|]. intros j Hj. apply Hs1. lia. }
  assert (get2byte d1 (hdrOffset pPage + 5) = Some top) as Ht1.
  { rewrite Z.mod_small in Ht by lia. rewrite <-Ht. apply get2byte_ext; apply Hs1; lia. }
  destruct (Z.eqb_spec (cbrk - len c) o) as [Heq|Hne].
  - destruct (IH cs (i + 1) d1 (cbrk - len c) frag Hd1 Hp1 Hc1 Hok) as (d' & E & Hdef); try done; try lia.
    { cbn [cell_regions zip_with] in Hlay. apply (layout_back _ _ _ _ (len c)). rewrite Heq.
      by replace (o + len c) with cbrk by lia. }
    { rewrite Z.mod_small by lia. done. }
    rewrite E. exists d'. split; [do 2 f_equal; lia|]. eapply (defragged_cons _ d1 _ _ _ _ _ first); try done; try lia.
    + rewrite Heq. eapply region_agree; [exact Ho|lia|]. intros j Hj. apply Hs1. lia.
    + intros j Hj1 Hj2. apply Hs1. lia.
  - rewrite Ht1. cbn [mbind option_bind].
    destruct (region_is_Some d1 top (cbrk - top)) as (bs & Ebs & Hbs); [lia..|].
    destruct (copy_spec space top d1 top (cbrk - top) bs Hsp (region_bytes _ _ _ _ Hd1 Ebs) Ebs) as (t & Et & (Htb & Htl & _) & Hrt); [lia..|].
    rewrite Et. cbn [mbind option_bind].
    assert (∀ j, top ≤ j < cbrk → peek t j = peek d1 j) as Hagree.
    { rewrite <-Hbs in Ebs, Hrt. apply region_spec in Ebs as (_ & _ & Hb3). apply region_spec in Hrt as (_ & _ & Hb4).
      intros j Hj. replace j with (top + (j - top)) by lia. rewrite Hb3, Hb4 by lia. done. }
    assert (region t o (len c) = Some c) as Hot.
    { eapply region_agree; [exact Ho|lia|]. intros j Hj. rewrite Hagree, Hs1 by lia. done. }
    assert (contents t os cs) as Hct.
    { clear -Hc1 Hb Hagree Htl Hspl Hcb Hs1 Hl1. induction Hc1 as [|o' c' os cs Ho' _ IH]; constructor.
      - apply Forall2_cons in Hb as [[? ?] _]. eapply region_agree; [exact Ho'|lia|]. intros j Hj. apply Hagree. lia.
      - apply IH. by apply Forall2_cons in Hb as [_ ?]. }
    destruct (copy_spec d1 (cbrk - len c) t o (len c) c Hd1 (proj1 Hcok) Hot) as (d2 & E2 & (Hd2 & Hl2 & Hs2) & Hr2); [lia..|].
    rewrite E2. cbn [mbind option_bind].
    destruct (defrag_copied os cs space first (i + 1) d2 t (cbrk - len c) Hd2 Htb) as (d' & E & Hdef); try done; try lia.
    { eapply pointers_frame; [done|]. intros j Hj. apply Hs2. lia. }
    { eapply Forall2_impl; [exact Hb|]. cbn. intros ? ? [? ?]. lia. }
    rewrite E. exists d'. split; [do 2 f_equal; lia|]. eapply (defragged_cons _ d2 _ _ _ _ _ first); try done; try lia.
    + rewrite <-Hg1. apply get2byte_ext; apply Hs2; lia.
    + intros j Hj1 Hj2. rewrite Hs2, Hs1 by lia. done.
Qed.

(** ** The function *)

(** The page afterwards: no free blocks, no fragments, the same cells. *)
Lemma defragmentPage_spec space os cs f top frag :
  bytes_ok space → u ≤ len space → hdrOffset pPage + 8 ≤ cellOffset pPage →
  wf (hdrOffset pPage) u (aData pPage) (cell_regions os cs) f top frag →
  pointers (aData pPage) (cellOffset pPage) os → contents (aData pPage) os cs → Forall cell_ok cs →
  nCell pPage = len cs → cellOffset pPage + 2 * len cs ≤ top →
  nFree pPage = u - (cellOffset pPage + 2 * len cs) - cells_size cs →
  ∃ d', defragmentPage pBt space pPage = Some (SQLITE_OK, set_data pPage d') ∧
    wf (hdrOffset pPage) u d' (cell_regions (packed u cs) cs) [] (u - cells_size cs) 0 ∧
    pointers d' (cellOffset pPage) (packed u cs) ∧ contents d' (packed u cs) cs ∧
    len d' = len (aData pPage) ∧ ∀ j, j ≤ hdrOffset pPage ∨ hdrOffset pPage + 3 ≤ j < hdrOffset pPage + 5 ∨
      hdrOffset pPage + 8 ≤ j < cellOffset pPage → peek d' j = peek (aData pPage) j.
Proof.
  intros Hsp Hspl Hco Hwf Hp Hc Hok HnCell Hfirst HnFree. pose proof Hwf as (Hd & Hlen & _ & _ & Hlay & Ht & _ & _ & Htu & Hhdr & Hu).
  pose proof (layout_part _ _ _ _ _ Hlay) as Hlay'. set (frag' := frag + total f) in Hlay'.
  pose proof (layout_nonneg _ _ _ _ Hlay' ltac:(lia)) as Hfrag'.
  assert (cells_size cs + frag' = u - top) as Hroom.
  { destruct Hlay' as (_ & _ & _ & H). by rewrite (total_regions _ _ _ Hc) in H. }
  pose proof (cells_size_nonneg cs) as Hcs. pose proof (Forall2_length _ _ _ Hc) as Hln.
  set (hdr := hdrOffset pPage) in *. set (first := cellOffset pPage + 2 * len cs) in *.
  destruct (defrag_in_place os cs space first 0 (aData pPage) u top frag') as (d1 & E1 & Hd1 & Hl1 & Hp1 & Hc1 & Ho1); try done; try lia.
  { by rewrite Z.mul_0_r, Z.add_0_r. }
  rewrite Z.mul_0_r, Z.add_0_r in Hp1, Ho1. unfold defragmentPage. rewrite HnCell, Hbt. fold first hdr.
  rewrite Nat2Z.id, <-Hln.  rewrite E1. cbn [mbind option_bind]. change (negb (SQLITE_OK =? SQLITE_OK)) with false. cbn iota.
  set (cbrk := u - cells_size cs) in *.
  destruct (put2byte_spec d1 (hdr + 5) cbrk Hd1) as (d2 & E2 & (Hd2 & Hl2 & Ho2) & Hg2); [lia..|]. rewrite E2. cbn [mbind option_bind].
  destruct (put_spec d2 (hdr + 1) 0 Hd2) as (d3 & E3 & (Hd3 & Hl3 & Ho3) & Hg3); [lia|]. rewrite E3. cbn [mbind option_bind].
  destruct (put_spec d3 (hdr + 2) 0 Hd3) as (d4 & E4 & (Hd4 & Hl4 & Ho4) & Hg4); [lia|]. rewrite E4. cbn [mbind option_bind].
  destruct (put_spec d4 (hdr + 7) 0 Hd4) as (d5 & E5 & (Hd5 & Hl5 & Ho5) & Hg5); [lia|]. rewrite E5. cbn [mbind option_bind].
  destruct (zero_spec d5 first (cbrk - first) Hd5) as (d6 & E6 & (Hd6 & Hl6 & Ho6) & _); [lia..|]. rewrite E6. cbn [mbind option_bind].
  destruct (Z.eqb_spec (cbrk - first) (nFree pPage)); [|lia]. cbn [negb]. exists d6. split; [done|].
  assert (∀ j, j ≤ hdr ∨ hdr + 3 ≤ j < hdr + 5 ∨ hdr + 8 ≤ j < first ∨ cbrk ≤ j → peek d6 j = peek d1 j) as Hsame.
  { intros j Hj. rewrite Ho6, Ho5, Ho4, Ho3, Ho2 by lia. done. }
  split; [|split; [|split; [|split; [lia|]]]].
  - unfold wf. split_and!; [done|lia| |done| | | |lia..].
    + assert (peek d6 (hdr + 1) = Some 0) as P1 by (rewrite Ho6, Ho5, Ho4 by lia; done).
      assert (peek d6 (hdr + 1 + 1) = Some 0) as P2.
      { replace (hdr + 1 + 1) with (hdr + 2) by lia. rewrite Ho6, Ho5 by lia. done. }
      cbn [stored]. unfold get2byte. by rewrite P1, P2.
    + eapply layout_perm_1; [|apply (packed_layout [] u u cs); [apply layout_nil| |lia]]; [by rewrite !app_nil_r|].
      eapply Forall_impl; [exact Hok|]. intros c Hcok. by apply cell_ok_size.
    + rewrite <-Hg2. apply get2byte_ext; rewrite Ho6, Ho5, Ho4, Ho3 by lia; done.
    + rewrite Ho6 by lia. by rewrite Hg5.
  - eapply pointers_frame; [done|]. intros j Hj. rewrite length_packed in Hj. apply Hsame. lia.
  - eapply contents_frame; [done|lia|]. intros j Hj. apply Hsame. right; right; right.
    pose proof (packed_layout [] u u cs (layout_nil u)) as (_ & Hin & _); [|lia|].
    + eapply Forall_impl; [exact Hok|]. intros c Hcok. by apply cell_ok_size.
    + rewrite app_nil_r in Hin. by apply Hin.
  - intros j Hj. rewrite Hsame by lia. apply Ho1; lia.
Qed.
End defrag.


(** The sizes of the pages of a database. *)
Definition geometry_ok (pBt : BtShared) : Prop :=
  limits_ok pBt ∧ ∃ k, 9 ≤ k ≤ 16 ∧ pageSize pBt = 2 ^ k ∧ usableSize pBt ≤ pageSize pBt.

Section alloc.
Context (pBt : BtShared) (Hgeo : geometry_ok pBt).
Implicit Types (pPage : MemPage) (d : list Z) (os : list Z) (cs : list (list Z)).

Let u : Z := usableSize pBt.

(** The first byte after the array of offsets, for [n] cells. *)
Definition first_free pPage (n : Z) : Z := cellOffset pPage + 2 * n.

(** The bytes that [cs] leaves free. *)
Definition space_left pPage cs : Z := usableSize pBt - first_free pPage (len cs) - cells_size cs.

(** The cells, where they are and what is between them. *)
Definition stores pPage d l os cs f top frag : Prop :=
  wf (hdrOffset pPage) (usableSize pBt) d (l ++ cell_regions os cs) f top frag ∧
  pointers d (cellOffset pPage) os ∧ contents d os cs.

(** The page [pPage] holds the cells [cs]. *)
Definition holds pPage cs : Prop :=
  isInit pPage = true ∧
  (∃ flags, byte_ok flags ∧ decodeFlags pBt flags = Some (kind pPage) ∧ peek (aData pPage) (hdrOffset pPage) = Some flags) ∧
  (hdrOffset pPage = 0 ∨ hdrOffset pPage = 100) ∧ cellOffset pPage = hdrOffset pPage + 8 + childPtrSize (kind pPage) ∧
  nCell pPage = len cs ∧ get2byte (aData pPage) (hdrOffset pPage + 3) = Some (len cs) ∧
  maskPage pPage = pageSize pBt - 1 ∧ overflow pPage = [] ∧ nFree pPage = space_left pPage cs ∧
  Forall (cell_ok pBt pPage) cs ∧
  ∃ os f top frag, stores pPage (aData pPage) [] os cs f top frag ∧ first_free pPage (len cs) ≤ top.

Lemma geometry_limits : limits_ok pBt.
Proof. apply Hgeo. Qed.

Lemma holds_kind pPage cs : holds pPage cs → kind_ok pBt (kind pPage).
Proof. intros (_ & (flags & Hf & E & _) & _). by exists flags. Qed.

Lemma kind_child k : kind_ok pBt k → childPtrSize k = 0 ∨ childPtrSize k = 4.
Proof. intros Hk. destruct (kind_cases pBt k geometry_limits Hk) as (_ & _ & [?|[?|?]]); naive_solver. Qed.

(** The gap gives the bytes before the cell content area. *)
Lemma take_gap hdr d l f top frag n :
  wf hdr u d l f top frag → 4 ≤ n → hdr + 8 ≤ top - n →
  ∃ d', put2byte d (hdr + 5) (top - n) = Some d' ∧ wf hdr u d' ((top - n, n) :: l) f (top - n) frag ∧
    len d' = len d ∧ ∀ j, j < hdr + 5 ∨ hdr + 7 ≤ j → peek d' j = peek d j.
Proof.
  intros Hwf Hn Htop. pose proof Hwf as (Hd & Hlen & Hst & Hasc & Hlay & Ht & Hf & Hfr & Htu & Hhdr & Hu).
  destruct (put2byte_spec d (hdr + 5) (top - n) Hd) as (d' & E & (Hd' & Hl' & Hs') & Hg'); [lia..|].
  exists d'. split; [done|]. split; [|split; [done|intros j Hj; apply Hs'; lia]]. unfold wf. split_and!; [done|lia| | | |done| |lia..].
  - eapply stored_frame; [done|]. intros j [Hj|(b & m & Hin & Hj)]; apply Hs'; [lia|].
    destruct (ascending_in _ _ _ _ Hasc Hin). lia.
  - eapply ascending_mono; [done|lia].
  - cbn [app]. apply layout_alloc; [done|done|lia].
  - rewrite Hs' by lia. done.
Qed.

(** The cells of a page do not change with the bytes outside them. *)
Lemma stores_frame pPage d d' l os cs f top frag l' f' top' frag' :
  stores pPage d l os cs f top frag → wf (hdrOffset pPage) u d' (l' ++ cell_regions os cs) f' top' frag' →
  len d' = len d →
  (∀ j, cellOffset pPage ≤ j < first_free pPage (len cs) ∨ j ∈ bytes_of (cell_regions os cs) → peek d' j = peek d j) →
  stores pPage d' l' os cs f' top' frag'.
Proof.
  intros (_ & Hp & Hc) Hwf' Hl Hsame. split; [done|]. split.
  - eapply pointers_frame; [done|]. intros j Hj. apply Hsame. left. unfold first_free.
    rewrite <-(Forall2_length _ _ _ Hc). done.
  - eapply contents_frame; [done|done|]. intros j Hj. apply Hsame. by right.
Qed.

Lemma stores_bytes pPage d l os cs f top frag j :
  stores pPage d l os cs f top frag → j ∈ bytes_of (cell_regions os cs) → top ≤ j < u ∧ j ∉ bytes_of l ∧ j ∉ bytes_of f.
Proof.
  intros ((_ & _ & _ & _ & Hlay & _) & _) Hj. destruct Hlay as (Hnd & Hin & _). rewrite !bytes_of_app in Hnd, Hin.
  apply NoDup_app in Hnd as (Hnd & Hd & _). apply NoDup_app in Hnd as (_ & Hd' & _).
  split; [apply Hin; rewrite !elem_of_app; tauto|]. split; [intros Hl; by apply (Hd' j)|].
  apply Hd. apply elem_of_app. by right.
Qed.

Lemma space_left_nonneg pPage cs : holds pPage cs → 0 ≤ space_left pPage cs.
Proof.
  intros (_ & _ & _ & _ & _ & _ & _ & _ & _ & _ & os & f & top & frag & ((_ & _ & _ & _ & Hlay & _ & _ & _ & Htu & _) & _ & Hc) & Htop).
  pose proof (layout_nonneg _ _ _ _ Hlay ltac:(lia)) as Hfrag. pose proof (layout_sizes _ _ _ _ Hlay) as [_ Hf]%Forall_app.
  apply length_bytes in Hf. destruct Hlay as (_ & _ & _ & Ht). cbn [app] in Ht. rewrite total_app, (total_regions _ _ _ Hc) in Ht.
  unfold space_left. fold u. lia.
Qed.

(** ** Allocation *)

(** The result of an allocation of [n] bytes: a region [idx] besides the
    cells. *)
Definition allocated pPage cs n (r : option (Z * MemPage * Z)) : Prop :=
  ∃ d' idx os f top frag, r = Some (SQLITE_OK, set_data pPage d', idx) ∧
    stores pPage d' [(idx, n)] os cs f top frag ∧ first_free pPage (len cs) + 2 ≤ top ∧
    len d' = len (aData pPage) ∧ ∀ j, j ≤ hdrOffset pPage ∨ hdrOffset pPage + 3 ≤ j < hdrOffset pPage + 5 ∨
      hdrOffset pPage + 8 ≤ j < cellOffset pPage → peek d' j = peek (aData pPage) j.

Lemma allocate_from_gap pPage d cs os f top frag n :
  stores pPage d [] os cs f top frag → hdrOffset pPage + 8 ≤ cellOffset pPage → 4 ≤ n →
  first_free pPage (len cs) + 2 + n ≤ top →
  ∃ d', put2byte d (hdrOffset pPage + 5) (top - n) = Some d' ∧ stores pPage d' [(top - n, n)] os cs f (top - n) frag ∧
    len d' = len d ∧ ∀ j, j < hdrOffset pPage + 5 ∨ hdrOffset pPage + 7 ≤ j → peek d' j = peek d j.
Proof.
  intros Hs Hco Hn Hroom. pose proof Hs as (Hwf & _). unfold first_free in Hroom.
  destruct (take_gap _ _ _ _ _ _ n Hwf Hn) as (d' & E & Hwf' & Hl' & Hs'); [lia|]. exists d'. split; [done|]. split; [|split; [done|done]].
  eapply stores_frame; [done|done|done|]. intros j Hj. apply Hs'. right.
  destruct Hj as [Hj|Hj]; [lia|]. apply (stores_bytes _ _ _ _ _ _ _ _ _ Hs) in Hj as ([? _] & _).
  destruct Hwf as (_ & _ & _ & _ & _ & _ & _ & _ & ? & _). lia.
Qed.

Lemma allocate_gap_spec space pPage cs os f top frag n :
  holds pPage cs → stores pPage (aData pPage) [] os cs f top frag → first_free pPage (len cs) ≤ top →
  bytes_ok space → u ≤ len space → 4 ≤ n → n + 2 ≤ nFree pPage →
  allocated pPage cs n (allocate_gap pBt space pPage n (first_free pPage (len cs)) top).
Proof.
  intros Hh Hs Hfirst Hsp Hspl Hn Hfree. pose proof (holds_kind _ _ Hh) as Hk. pose proof (kind_child _ Hk) as Hchild.
  destruct Hh as (_ & _ & Hhdr & Hco & HnCell & _ & _ & _ & HnFree & Hok & _).
  assert (hdrOffset pPage + 8 ≤ cellOffset pPage) as Hco8 by lia. unfold allocate_gap.
  destruct (Z.ltb_spec top (first_free pPage (len cs) + 2 + n)).
  - destruct (defragmentPage_spec pBt pPage u geometry_limits Hk eq_refl space os cs f top frag) as (d1 & E1 & Hwf1 & Hp1 & Hc1 & Hl1 & Hs1);
      try done; [apply Hs..|].
    rewrite E1. cbn [mbind option_bind]. change (negb (SQLITE_OK =? SQLITE_OK)) with false. cbn iota. cbn [aData set_data].
    pose proof Hwf1 as (Hd1 & _ & _ & _ & _ & Ht1 & _ & _ & Htu & _ & Hu).
    rewrite (get2byteNotZero_spec _ _ _ Ht1) by (apply Z.mod_pos_bound; lia). cbn [mbind option_bind].
    pose proof (cells_size_nonneg cs) as Hcs. unfold space_left in HnFree.
    assert ((if (u - cells_size cs) mod 65536 =? 0 then 65536 else (u - cells_size cs) mod 65536) = u - cells_size cs) as ->.
    { destruct (decide (u - cells_size cs = 65536)) as [->|]; [done|]. rewrite Z.mod_small by lia.
      destruct (Z.eqb_spec (u - cells_size cs) 0); lia. }
    change (negb (SQLITE_OK =? SQLITE_OK)) with false. cbn iota. cbn [aData set_data].
    destruct (allocate_from_gap pPage d1 cs (packed u cs) [] (u - cells_size cs) 0 n) as (d2 & E2 & Hs2 & Hl2 & Hf2);
      [by split|done|done|fold u in HnFree; lia|].
    rewrite E2. cbn [mbind option_bind]. eexists d2, _, _, _, _, _. split; [done|]. split; [exact Hs2|].
    split; [fold u in HnFree; lia|]. split; [lia|]. intros j Hj. rewrite Hf2 by lia. apply Hs1. lia.
  - change (negb (SQLITE_OK =? SQLITE_OK)) with false. cbn [mbind option_bind]. cbn iota.
    destruct (allocate_from_gap pPage (aData pPage) cs os f top frag n Hs Hco8 Hn) as (d2 & E2 & Hs2 & Hl2 & Hf2); [lia|].
    rewrite E2. cbn [mbind option_bind]. eexists d2, _, _, _, _, _. split; [done|]. split; [exact Hs2|].
    split; [lia|]. split; [done|]. intros j Hj. apply Hf2. lia.
Qed.

Lemma allocateSpace_spec space pPage cs n :
  holds pPage cs → bytes_ok space → u ≤ len space → 4 ≤ n → n + 2 ≤ nFree pPage →
  allocated pPage cs n (allocateSpace pBt space pPage n).
Proof.
  intros Hh Hsp Hspl Hn Hfree. pose proof Hh as (_ & _ & Hhdr & Hco & HnCell & _ & _ & _ & HnFree & Hok & os & f & top & frag & Hs & Hfirst).
  pose proof (kind_child _ (holds_kind _ _ Hh)) as Hchild. pose proof Hs as (Hwf & _).
  pose proof Hwf as (Hd & _ & _ & _ & Hlay & Ht & _ & _ & Htu & _ & Hu).
  unfold allocateSpace. rewrite HnCell, Ht. cbn [mbind option_bind]. change (cellOffset pPage + 2 * len cs) with (first_free pPage (len cs)).
  assert ((top mod 65536 <? first_free pPage (len cs)) && negb ((top mod 65536 =? 0) && (usableSize pBt =? 65536)) = false ∧
    (if top mod 65536 <? first_free pPage (len cs) then 65536 else top mod 65536) = top) as [-> ->].
  { unfold first_free in *. destruct (decide (top = 65536)) as [->|].
    - assert (usableSize pBt = 65536) as -> by lia. change (65536 mod 65536) with 0.
      destruct (Z.ltb_spec 0 (cellOffset pPage + 2 * len cs)); [|lia]. split; reflexivity.
    - rewrite Z.mod_small by lia. destruct (Z.ltb_spec top (cellOffset pPage + 2 * len cs)); [lia|done]. }
  destruct (free_list_empty _ _ _ _ _ _ _ Hwf) as (x0 & x1 & E0 & E1 & Hnil & Hcons).
  replace (hdrOffset pPage + 2) with (hdrOffset pPage + 1 + 1) by lia. rewrite E1, E0. cbn [mbind option_bind].
  assert ((negb (x1 =? 0) || negb (x0 =? 0)) = negb ((x1 =? 0) && (x0 =? 0))) as -> by (by rewrite negb_andb).
  destruct (decide (f = [])) as [->|Hne].
  { destruct (Hnil eq_refl) as [-> ->]. cbn [Z.eqb andb negb mbind option_bind].
    change (negb (SQLITE_OK =? SQLITE_OK)) with false. cbn iota. by apply (allocate_gap_spec space pPage cs os [] top frag n). }
  rewrite (Hcons Hne). cbn [negb andb]. destruct (Z.leb_spec (first_free pPage (len cs) + 2) top).
  2:{ cbn [mbind option_bind]. change (negb (SQLITE_OK =? SQLITE_OK)) with false. cbn iota.
      by apply (allocate_gap_spec space pPage cs os f top frag n). }
  destruct (pageFindSlot_spec (hdrOffset pPage) u pBt pPage eq_refl eq_refl _ _ _ _ n Hwf Hne) as (d' & r & E & Hr); [by rewrite HnCell|done|].
  rewrite E. cbn [mbind option_bind]. destruct r as [pSpace|].
  - destruct Hr as (f' & frag' & Hwf' & Hl' & Hs'). eexists d', pSpace, os, f', top, frag'. split; [done|]. split; [|split; [done|split; [done|]]].
    + eapply stores_frame; [done|done|done|]. intros j Hj. destruct Hj as [Hj|Hj].
      * apply Hs'; [lia|]. intros Hin. destruct Hlay as (_ & Hlin & _). specialize (Hlin j). rewrite bytes_of_app in Hlin.
        specialize (Hlin ltac:(apply elem_of_app; by right)). lia.
      * apply (stores_bytes _ _ _ _ _ _ _ _ _ Hs) in Hj as (? & _ & ?). apply Hs'; [lia|done].
    + intros j Hj. apply Hs'; [lia|]. intros Hin. destruct Hlay as (_ & Hlin & _). specialize (Hlin j). rewrite bytes_of_app in Hlin.
      specialize (Hlin ltac:(apply elem_of_app; by right)). unfold first_free in *. lia.
  - cbn in Hr. subst d'. change (negb (SQLITE_OK =? SQLITE_OK)) with false. cbn iota.
    assert (set_data pPage (aData pPage) = pPage) as -> by (by destruct pPage).
    by apply (allocate_gap_spec space pPage cs os f top frag n).
Qed.
End alloc.
