(* ===== verification/BtreeInsert.v ===== *)
(** * B-tree: operations on a page that holds a list of cells

    [insertCell] and [dropCell]; [zeroPage] gives the empty page, and
    [btreeInitPage] on the bytes of a page that holds a list of cells finds no
    corruption and computes the fields that the page had. *)
From S2P Require Import Prelude Words Varint VarintProofs BtreeBytes BtreeCell BtreeCellProofs BtreePage BtreeFree BtreeFreeSpace BtreeAlloc.
Local Open Scope Z_scope.

(** ** The array of offsets *)

Section pointers.
Implicit Types (d src os : list Z) (a i j n o : Z).

Lemma copy_shift d i src j n :
  bytes_ok d → bytes_ok src → 0 ≤ n → 0 ≤ i → i + n ≤ len d → 0 ≤ j → j + n ≤ len src →
  ∃ d', copy d i src j n = Some d' ∧ changed d i n d' ∧ ∀ k, 0 ≤ k < n → peek d' (i + k) = peek src (j + k).
Proof.
  intros Hd Hs Hn Hi Hil Hj Hjl. destruct (region_is_Some src j n) as (bs & Ebs & Hbs); [done..|].
  destruct (copy_spec d i src j n bs Hd (region_bytes _ _ _ _ Hs Ebs) Ebs) as (d' & E & Hc & Hr); [done..|].
  exists d'. split; [done|]. split; [done|]. rewrite <-Hbs in Ebs, Hr.
  apply region_spec in Ebs as (_ & _ & H1). apply region_spec in Hr as (_ & _ & H2). intros k Hk. rewrite H1, H2 by lia. done.
Qed.

Lemma pointers_shift d d' a a' os :
  pointers d a os → (∀ k, 0 ≤ k < 2 * len os → peek d' (a' + k) = peek d (a + k)) → pointers d' a' os.
Proof.
  revert a a'. induction os as [|o os IH]; intros a a'; [done|]. cbn [pointers length]. intros [Ho Hos] Hsame. split.
  - rewrite <-Ho. pose proof (Hsame 0 ltac:(lia)) as H0. rewrite !Z.add_0_r in H0. unfold get2byte. by rewrite H0, (Hsame 1) by lia.
  - apply (IH (a + 2)); [done|]. intros k Hk. specialize (Hsame (2 + k) ltac:(lia)).
    by rewrite !Z.add_assoc in Hsame.
Qed.

Lemma insert_pointer d a os (i : nat) o :
  bytes_ok d → pointers d a os → (i ≤ length os)%nat → 0 ≤ a → a + 2 * len os + 2 ≤ len d → 0 ≤ o < 65536 →
  ∃ d', (data ← copy d (a + Z.of_nat i * 2 + 2) d (a + Z.of_nat i * 2) (2 * (len os - Z.of_nat i));
         put2byte data (a + Z.of_nat i * 2) o) = Some d' ∧
    changed d a (2 * len os + 2) d' ∧ pointers d' a (take i os ++ o :: drop i os).
Proof.
  intros Hd Hp Hi Ha Hlen Ho.
  destruct (copy_shift d (a + Z.of_nat i * 2 + 2) d (a + Z.of_nat i * 2) (2 * (len os - Z.of_nat i)) Hd Hd) as
    (d1 & E1 & (Hd1 & Hl1 & Hs1) & Hk1); [lia..|]. rewrite E1. cbn [mbind option_bind].
  destruct (put2byte_spec d1 (a + Z.of_nat i * 2) o Hd1) as (d2 & E2 & (Hd2 & Hl2 & Hs2) & Hg2); [lia..|].
  exists d2. split; [done|]. split; [split; [done|split; [lia|intros j Hj; rewrite Hs2, Hs1 by lia; done]]|].
  rewrite Z.mod_small in Hg2 by lia. rewrite <-(take_drop i os) in Hp. apply pointers_app in Hp as [Hp1 Hp2].
  assert (len (take i os) = Z.of_nat i) as Ht by (rewrite length_take; lia). rewrite Ht in Hp2.
  apply pointers_app. split; [|rewrite Ht; cbn [pointers]; split].
  - eapply pointers_frame; [done|]. intros j Hj. rewrite Hs2, Hs1 by lia. done.
  - rewrite <-Hg2. f_equal. lia.
  - eapply pointers_shift; [exact Hp2|]. intros k Hk. rewrite length_drop in Hk. rewrite Hs2 by lia.
    specialize (Hk1 k ltac:(lia)).
    replace (a + 2 * Z.of_nat i + 2 + k) with (a + Z.of_nat i * 2 + 2 + k) by lia. rewrite Hk1. f_equal. lia.
Qed.

Lemma delete_pointer d a os (i : nat) :
  bytes_ok d → pointers d a os → (i < length os)%nat → 0 ≤ a → a + 2 * len os ≤ len d →
  ∃ d', copy d (a + 2 * Z.of_nat i) d (a + 2 * Z.of_nat i + 2) (2 * (len os - 1 - Z.of_nat i)) = Some d' ∧
    changed d a (2 * len os) d' ∧ pointers d' a (delete i os).
Proof.
  intros Hd Hp Hi Ha Hlen.
  destruct (copy_shift d (a + 2 * Z.of_nat i) d (a + 2 * Z.of_nat i + 2) (2 * (len os - 1 - Z.of_nat i)) Hd Hd) as
    (d1 & E1 & (Hd1 & Hl1 & Hs1) & Hk1); [lia..|].
  exists d1. split; [done|]. split; [split; [done|split; [done|intros j Hj; apply Hs1; lia]]|].
  rewrite delete_take_drop. rewrite <-(take_drop (S i) os) in Hp.
  assert (take (S i) os = take i os ++ take 1 (drop i os)) as E by (rewrite take_take_drop; f_equal; lia).
  assert (len (take i os) = Z.of_nat i) as Ht by (rewrite length_take; lia).
  assert (len (take (S i) os) = Z.of_nat i + 1) as HtS by (rewrite length_take; lia).
  apply pointers_app in Hp as [Hp1 Hp2]. rewrite E in Hp1. apply pointers_app in Hp1 as [Hp1 _]. rewrite HtS in Hp2.
  apply pointers_app. split.
  - eapply pointers_frame; [done|]. intros j Hj. apply Hs1. lia.
  - eapply pointers_shift; [exact Hp2|]. intros k Hk. rewrite length_drop in Hk. specialize (Hk1 k ltac:(lia)). rewrite Ht, Hk1.
    f_equal. lia.
Qed.

(** The count of cells, incremented in two bytes. *)
Lemma increment_count d a n :
  bytes_ok d → get2byte d a = Some n → n + 1 < 65536 →
  ∃ x4 d1 d2, peek d (a + 1) = Some x4 ∧ put d (a + 1) (x4 + 1) = Some d1 ∧
    (if u8 (x4 + 1) =? 0 then x3 ← peek d1 a; put d1 a (x3 + 1) else Some d1) = Some d2 ∧
    changed d a 2 d2 ∧ get2byte d2 a = Some (n + 1).
Proof.
  intros Hd Hn Hlt. pose proof (get2byte_range _ _ _ Hd Hn) as (Hn0 & Ha & Hlen). unfold get2byte in Hn.
  destruct (peek d a) as [x3|] eqn:E3; [|done]. destruct (peek d (a + 1)) as [x4|] eqn:E4; [|done].
  cbn [mbind option_bind] in Hn. pose proof (peek_byte _ _ _ Hd E3) as B3. pose proof (peek_byte _ _ _ Hd E4) as B4.
  rewrite word_lor in Hn by done. injection Hn as Hn. unfold uint in B3, B4.
  destruct (put_spec d (a + 1) (x4 + 1) Hd) as (d1 & E1 & (Hd1 & Hl1 & Hs1) & Hp1); [lia|].
  assert (peek d1 a = Some x3) as P3 by (rewrite Hs1 by lia; done).
  exists x4, d1. rewrite P3. cbn [mbind option_bind].
  destruct (decide (x4 = 255)) as [->|Hne].
  - change (u8 (255 + 1)) with 0 in *. destruct (put_spec d1 a (x3 + 1) Hd1) as (d2 & E2 & (Hd2 & Hl2 & Hs2) & Hp2); [lia|].
    exists d2. cbn [Z.eqb]. unfold changed. split_and!; try done; try lia.
    + intros j Hj. rewrite Hs2, Hs1 by lia. done.
    + rewrite u8_small in Hp2 by lia. unfold get2byte. rewrite Hp2, (Hs2 (a + 1)), Hp1 by lia. cbn [mbind option_bind].
      rewrite word_lor by (unfold uint; lia). f_equal. lia.
  - rewrite u8_small in Hp1 |- * by lia. exists d1. destruct (Z.eqb_spec (x4 + 1) 0); [lia|]. unfold changed. split_and!; try done; try lia.
    + intros j Hj. apply Hs1. lia.
    + unfold get2byte. rewrite P3, Hp1. cbn [mbind option_bind]. rewrite word_lor by (unfold uint; lia). f_equal. lia.
Qed.
End pointers.

(** ** Cells *)

Section cells.
Context (pBt : BtShared) (Hgeo : geometry_ok pBt).
Implicit Types (pPage : MemPage) (d : list Z) (os : list Z) (cs : list (list Z)) (c : list Z).

Lemma cell_regions_app os1 os2 cs1 cs2 :
  length os1 = length cs1 → cell_regions (os1 ++ os2) (cs1 ++ cs2) = cell_regions os1 cs1 ++ cell_regions os2 cs2.
Proof. intros H. unfold cell_regions. by apply zip_with_app. Qed.

Lemma contents_app d os1 os2 cs1 cs2 :
  contents d os1 cs1 → contents d os2 cs2 → contents d (os1 ++ os2) (cs1 ++ cs2).
Proof. apply Forall2_app. Qed.

(** A cell and the others. *)
Lemma cells_split d os cs (i : nat) :
  contents d os cs → (i < length cs)%nat →
  ∃ o c, os !! i = Some o ∧ cs !! i = Some c ∧ region d o (len c) = Some c ∧
    cell_regions os cs ≡ₚ (o, len c) :: cell_regions (delete i os) (delete i cs) ∧
    contents d (delete i os) (delete i cs) ∧ cells_size cs = len c + cells_size (delete i cs).
Proof.
  intros Hc Hi. pose proof (Forall2_length _ _ _ Hc) as Hl.
  destruct (lookup_lt_is_Some_2 os i) as [o Ho]; [lia|]. destruct (lookup_lt_is_Some_2 cs i) as [c Hci]; [lia|].
  exists o, c. split; [done|]. split; [done|]. rewrite !delete_take_drop.
  pose proof (take_drop_middle os i o Ho) as Eo. pose proof (take_drop_middle cs i c Hci) as Ec.
  assert (length (take i os) = length (take i cs)) as Ht by (rewrite !length_take; lia). clear Ho Hci Hi Hl.
  revert Eo Ec Ht. generalize (take i os), (drop (S i) os), (take i cs), (drop (S i) cs). intros os1 os2 cs1 cs2 <- <- Ht.
  apply Forall2_app_inv in Hc as [Hc1 Hc2]; [|done]. apply Forall2_cons in Hc2 as [Hr Hc2].
  split; [done|]. split; [|split].
  - rewrite !cell_regions_app by done. cbn [cell_regions zip_with]. solve_Permutation.
  - by apply contents_app.
  - rewrite !cells_size_app. cbn [cells_size]. lia.
Qed.

Definition with_child (iChild : Z) c : list Z := if iChild =? 0 then c else be_bytes 4 iChild ++ drop 4 c.

Lemma with_child_ok pPage iChild c :
  kind_ok pBt (kind pPage) → cell_ok pBt pPage c → iChild = 0 ∨ childPtrSize (kind pPage) = 4 →
  cell_ok pBt pPage (with_child iChild c) ∧ len (with_child iChild c) = len c.
Proof.
  intros Hk Hc Hchild. unfold with_child. destruct (Z.eqb_spec iChild 0) as [->|Hne]; [done|].
  destruct Hchild as [?|H4]; [done|]. pose proof (cell_ok_size pBt pPage (geometry_limits _ Hgeo) Hk c Hc) as Hsz.
  destruct Hc as [Hb Hs]. assert (length (be_bytes 4 iChild) = 4%nat) as Hl by apply length_be_bytes.
  assert (len (be_bytes 4 iChild ++ drop 4 c) = len c) as Hlen by (rewrite length_app, length_drop; lia).
  split; [|done]. split.
  - apply Forall_app. split; [apply be_bytes_ok|by apply Forall_drop].
  - rewrite Hlen, <-Hs. apply cellSize_child; [done|done|lia].
Qed.

(** What inserting and removing cells does not change. *)
Definition same_page pPage pPage' : Prop :=
  isInit pPage' = isInit pPage ∧ kind pPage' = kind pPage ∧ pgno pPage' = pgno pPage ∧ hdrOffset pPage' = hdrOffset pPage ∧
  cellOffset pPage' = cellOffset pPage ∧ maskPage pPage' = maskPage pPage ∧ len (aData pPage') = len (aData pPage).

Lemma same_page_trans p1 p2 p3 : same_page p1 p2 → same_page p2 p3 → same_page p1 p3.
Proof. unfold same_page. intuition congruence. Qed.

Lemma holds_intro pPage pPage' cs cs' os f top frag :
  holds pBt pPage cs → same_page pPage pPage' → overflow pPage' = [] → nCell pPage' = len cs' →
  get2byte (aData pPage') (hdrOffset pPage + 3) = Some (len cs') →
  peek (aData pPage') (hdrOffset pPage) = peek (aData pPage) (hdrOffset pPage) →
  nFree pPage' = space_left pBt pPage cs' → Forall (cell_ok pBt pPage) cs' →
  stores pBt pPage (aData pPage') [] os cs' f top frag → first_free pPage (len cs') ≤ top → holds pBt pPage' cs'.
Proof.
  intros (Hi & (flags & Hfl & Hk & Hpk) & Hh & Hco & _ & _ & Hm & _) (Ei & Ek & Ep & Eh & Ec & Em & _) Hov Hn Hg Hp Hf Hok Hs Htop.
  unfold holds, stores, first_free, space_left, cell_ok, first_free in *. rewrite Ei, Ek, Eh, Ec, Em.
  split_and!; try done.
  - exists flags. by rewrite Hp.
  - by exists os, f, top, frag.
Qed.

(** ** Removing a cell *)

(** An empty list of free blocks and an empty cell content area. *)
Lemma empty_wf hdr u d d1 d2 d' :
  bytes_ok d → 0 ≤ hdr → hdr + 8 ≤ u → u ≤ 65536 → u ≤ len d →
  zero d (hdr + 1) 4 = Some d1 → put d1 (hdr + 7) 0 = Some d2 → put2byte d2 (hdr + 5) u = Some d' →
  wf hdr u d' [] [] u 0 ∧ get2byte d' (hdr + 3) = Some 0 ∧ len d' = len d ∧
  ∀ j, j ≤ hdr ∨ hdr + 8 ≤ j → peek d' j = peek d j.
Proof.
  intros Hd Hh Hhu Hu Hlen E1 E2 E3.
  destruct (zero_spec d (hdr + 1) 4 Hd) as (d1' & E1' & (Hd1 & Hl1 & Hf1) & Hz1); [lia..|]. rewrite E1 in E1'. injection E1' as <-.
  destruct (put_spec d1 (hdr + 7) 0 Hd1) as (d2' & E2' & (Hd2 & Hl2 & Hf2) & Hp2); [lia|]. rewrite E2 in E2'. injection E2' as <-.
  destruct (put2byte_spec d2 (hdr + 5) u Hd2) as (d3' & E3' & (Hd3 & Hl3 & Hf3) & Hp3); [lia..|]. rewrite E3 in E3'. injection E3' as <-.
  assert (∀ j, hdr + 1 ≤ j < hdr + 5 → peek d' j = Some 0) as Hz by (intros j Hj; rewrite Hf3, Hf2 by lia; apply Hz1; lia).
  split; [|split; [|split; [lia|]]].
  - unfold wf. split_and!; [done|lia| |done| |done| |lia..].
    + cbn [stored]. unfold get2byte. by rewrite !Hz by lia.
    + apply layout_nil.
    + rewrite Hf3 by lia. by rewrite Hp2.
  - unfold get2byte. by rewrite !Hz by lia.
  - intros j Hj. rewrite Hf3, Hf2, Hf1 by lia. done.
Qed.

(** Freeing a region beside the cells. *)
Lemma freeSpace_stores pPage idx n os cs f top frag :
  stores pBt pPage (aData pPage) [(idx, n)] os cs f top frag → hdrOffset pPage + 8 ≤ cellOffset pPage →
  first_free pPage (len cs) ≤ top →
  ∃ d f' top' frag', freeSpace pBt pPage idx n = Some (SQLITE_OK, set_nFree (set_data pPage d) (nFree pPage + n)) ∧
    stores pBt pPage d [] os cs f' top' frag' ∧ top ≤ top' ∧ len d = len (aData pPage) ∧
    ∀ j, j ≤ hdrOffset pPage ∨ hdrOffset pPage + 3 ≤ j < hdrOffset pPage + 5 → peek d j = peek (aData pPage) j.
Proof.
  intros Hs Hco Htop. pose proof Hs as (Hwf & Hp & Hc). cbn [app] in Hwf. pose proof Hwf as (_ & _ & _ & _ & Hlay & _ & _ & _ & Htu & _).
  destruct (freeSpace_spec (hdrOffset pPage) (usableSize pBt) pBt eq_refl pPage eq_refl _ _ _ _ _ _ Hwf) as
    (d1 & f1 & top1 & frag1 & E1 & Hwf1 & Htop1 & Hl1 & Hs1).
  assert (∀ j, j < top → j ∉ bytes_of ((idx, n) :: f)) as Hout.
  { intros j Hj Hin. destruct Hlay as (_ & Hb & _). specialize (Hb j). rewrite bytes_of_app in Hb. cbn [bytes_of] in Hb, Hin.
    rewrite elem_of_app in Hin. rewrite !elem_of_app in Hb. specialize (Hb ltac:(tauto)). lia. }
  exists d1, f1, top1, frag1. split; [done|]. split; [|split; [done|split; [done|intros j Hj; apply Hs1; [lia|apply Hout; lia]]]].
  eapply stores_frame; [exact Hs|done|done|]. intros j [Hj|Hj]; apply Hs1; [lia|apply Hout; lia| |].
  - destruct (stores_bytes _ _ _ _ _ _ _ _ _ _ Hs Hj) as (? & _). lia.
  - destruct (stores_bytes _ _ _ _ _ _ _ _ _ _ Hs Hj) as (_ & Hn1 & Hn2). rewrite bytes_one in Hn1. cbn [bytes_of].
    rewrite elem_of_app. tauto.
Qed.

Lemma dropCell_spec pPage cs (i : nat) c :
  holds pBt pPage cs → cs !! i = Some c →
  ∃ pPage', dropCell pBt pPage (Z.of_nat i) (len c) SQLITE_OK = Some (SQLITE_OK, pPage') ∧
    holds pBt pPage' (delete i cs) ∧ same_page pPage pPage'.
Proof.
  intros Hh Hci. pose proof (holds_kind _ _ _ Hh) as Hk. pose proof (kind_child _ Hgeo _ Hk) as Hcps.
  pose proof Hh as (_ & _ & Hhdr & Hco & HnCell & Hcount & _ & Hov & HnFree & Hok & os & f & top & frag & (Hwf & Hp & Hc) & Htop).
  pose proof (lookup_lt_Some _ _ _ Hci) as Hi. pose proof (Forall_lookup_1 _ _ _ _ Hok Hci) as Hcok.
  pose proof (cell_ok_size pBt pPage (geometry_limits _ Hgeo) Hk c Hcok) as Hsz.
  destruct (cells_split _ _ _ _ Hc Hi) as (o & c' & Ho & Hc' & Hr & Hperm & Hcd & Hsize). rewrite Hci in Hc'. injection Hc' as <-.
  cbn [app] in Hwf. pose proof (wf_perm _ _ _ _ _ _ _ _ Hperm Hwf) as Hwf1.
  pose proof Hwf1 as (Hd & Hlen & _ & Hasc & Hlay & Ht & _ & _ & Htu & _ & Hu).
  destruct (layout_region _ _ _ _ o (len c) Hlay) as (Ho1 & Ho2 & _); [by left|].
  pose proof (Forall2_length _ _ _ Hc) as Hln. unfold first_free in Htop.
  unfold dropCell. change (negb (SQLITE_OK =? SQLITE_OK)) with false. cbn iota.
  rewrite (pointers_lookup _ _ _ _ _ Hp Ho). cbn [mbind option_bind]. rewrite Ht. cbn [mbind option_bind].
  rewrite Z.mod_small, u32_small by lia.
  destruct (Z.ltb_spec o top); [lia|]. destruct (Z.ltb_spec (usableSize pBt) (o + len c)); [lia|]. cbn [orb].
  rewrite !(wrap_small 16) by (unfold uint; lia).
  destruct (freeSpace_spec (hdrOffset pPage) (usableSize pBt) pBt eq_refl pPage eq_refl _ _ _ _ _ _ Hwf1) as
    (d1 & f1 & top1 & frag1 & E1 & Hwf2 & Htop1 & Hl2 & Hs1).
  rewrite E1. cbn [mbind option_bind]. change (negb (SQLITE_OK =? SQLITE_OK)) with false. cbn iota.
  set (pPage1 := set_nFree _ _).
  assert (nCell (set_nCell pPage1 (nCell pPage1 - 1)) = len (delete i cs)) as HnCell1.
  { cbn. rewrite length_delete by done. rewrite wrap_small by (unfold uint; lia). lia. }
  rewrite HnCell1. unfold pPage1. cbn [aData set_data set_nFree set_nCell hdrOffset cellOffset nCell nFree kind].
  pose proof (length_delete cs i ltac:(by exists c)) as Hldel.
  pose proof Hwf2 as (Hd1 & _ & _ & _ & Hlay1 & Ht1 & _ & _ & Htu1 & _ & _).
  assert (∀ j, j < top → j ∉ bytes_of ((o, len c) :: f)) as Hout.
  { intros j Hj Hin. destruct Hlay as (_ & Hb & _). specialize (Hb j). rewrite bytes_of_app in Hb. cbn [bytes_of] in Hb, Hin.
    rewrite elem_of_app in Hin. rewrite !elem_of_app in Hb. specialize (Hb ltac:(tauto)). lia. }
  destruct (Z.eqb_spec (len (delete i cs)) 0) as [Hz|Hz].
  - destruct (zero_spec d1 (hdrOffset pPage + 1) 4 Hd1) as (d2 & E2 & (Hd2 & Hl3 & _) & _); [lia..|]. rewrite E2. cbn [mbind option_bind].
    destruct (put_spec d2 (hdrOffset pPage + 7) 0 Hd2) as (d3 & E3 & (Hd3 & Hl4 & _) & _); [lia|]. rewrite E3. cbn [mbind option_bind].
    destruct (put2byte_spec d3 (hdrOffset pPage + 5) (usableSize pBt) Hd3) as (d4 & E4 & (Hd4 & Hl5 & _) & _); [lia..|].
    rewrite E4. cbn [mbind option_bind].
    destruct (empty_wf (hdrOffset pPage) (usableSize pBt) d1 d2 d3 d4 Hd1) as (Hwf4 & Hg4 & _ & Hf4); [lia..|done|done|done|].
    destruct (delete i cs) as [|]; [|done]. eexists. split; [done|]. split.
    2: { unfold same_page. cbn. split_and!; (done || lia). }
    eapply (holds_intro pPage _ cs [] [] [] (usableSize pBt) 0 Hh); cbn; try done.
    + unfold same_page. cbn. split_and!; (done || lia).
    + rewrite Hf4 by lia. apply Hs1; [lia|apply Hout; lia].
    + unfold space_left, first_free. cbn. rewrite wrap_small by (unfold uint; lia). lia.
    + unfold stores. cbn. split; [done|]. split; [done|constructor].
    + unfold first_free. cbn. lia.
  - assert (∀ j, hdrOffset pPage + 8 ≤ j < top → peek d1 j = peek (aData pPage) j) as Hsame by (intros j Hj; apply Hs1; [lia|apply Hout; lia]).
    destruct (delete_pointer d1 (cellOffset pPage) os i Hd1) as (d2 & E2 & (Hd2 & Hl3 & Hf2) & Hp2); [|lia..|].
    { eapply pointers_frame; [exact Hp|]. intros j Hj. apply Hsame. lia. }
    replace (len (delete i cs) - Z.of_nat i) with (len os - 1 - Z.of_nat i) by lia. rewrite E2. cbn [mbind option_bind].
    destruct (put2byte_spec d2 (hdrOffset pPage + 3) (len (delete i cs)) Hd2) as (d3 & E3 & (Hd3 & Hl4 & Hf3) & Hg3); [lia..|].
    rewrite E3. cbn [mbind option_bind]. rewrite Z.mod_small in Hg3 by lia. eexists. split; [done|]. split.
    2: { unfold same_page. cbn. split_and!; (done || lia). }
    assert (∀ j, j < hdrOffset pPage + 3 ∨ hdrOffset pPage + 5 ≤ j < cellOffset pPage ∨ top ≤ j → peek d3 j = peek d1 j) as Hsame3.
    { intros j Hj. rewrite Hf3, Hf2 by lia. done. }
    eapply (holds_intro pPage _ cs (delete i cs) (delete i os) f1 top1 frag1 Hh); cbn.
    + unfold same_page. cbn. split_and!; (done || lia).
    + done.
    + done.
    + done.
    + rewrite Hsame3 by lia. apply Hs1; [lia|apply Hout; lia].
    + pose proof (cells_size_nonneg (delete i cs)). pose proof (space_left_nonneg _ _ _ Hh). unfold space_left, first_free in *.
      rewrite !wrap_small by (rewrite ?wrap_small; unfold uint; lia). lia.
    + by apply Forall_delete.
    + split; [|split].
      * eapply wf_frame; [exact Hwf2|done|lia|]. intros j Hj. apply Hsame3. destruct Hj as [|[|Hj]]; [lia..|].
        destruct Hlay1 as (_ & Hb & _). specialize (Hb j). rewrite bytes_of_app, elem_of_app in Hb. specialize (Hb ltac:(by right)). lia.
      * eapply pointers_frame; [exact Hp2|]. intros j Hj. apply Hf3. lia.
      * eapply contents_frame; [exact Hcd|lia|]. intros j Hj. destruct Hlay as (Hnd & Hb & _). cbn [bytes_of app] in Hnd, Hb.
        specialize (Hb j). rewrite bytes_of_app, !elem_of_app in Hb. specialize (Hb ltac:(tauto)). rewrite Hsame3 by lia.
        apply Hs1; [lia|]. cbn [bytes_of]. rewrite bytes_of_app in Hnd. apply NoDup_app in Hnd as (_ & Hn1 & (_ & Hn2 & _)%NoDup_app).
        rewrite elem_of_app. intros [Hin|Hin]; [|by apply (Hn2 j)]. apply (Hn1 j Hin). apply elem_of_app. by left.
    + unfold first_free. lia.
Qed.

(** ** Inserting a cell *)

Section insert.
Context `{Machine} (has_bswap : bool).

Lemma put4byte_at d p v :
  bytes_ok d → 0 ≤ p → p + 4 ≤ len d → uint 32 v →
  ∃ d', put4byte has_bswap d p v = Some d' ∧ changed d p 4 d' ∧ region d' p 4 = Some (be_bytes 4 v).
Proof.
  intros Hd Hp Hlen Hv. unfold put4byte. destruct (region_is_Some d p 4) as (bs & -> & Hbs); [lia..|]. cbn [mbind option_bind].
  rewrite put4byte_spec by done. destruct (Nat.leb_spec 4 (length bs)); [|lia]. cbn [mbind option_bind].
  rewrite drop_ge, app_nil_r by lia.
  destruct (store_changed d p (be_bytes 4 v) Hd) as (d' & E & Hc & Hr); [apply be_bytes_ok|lia|rewrite length_be_bytes; lia|].
  rewrite length_be_bytes in Hc, Hr. by exists d'.
Qed.

Lemma put4byte_start c v :
  4 ≤ len c → uint 32 v → put4byte has_bswap c 0 v = Some (be_bytes 4 v ++ drop 4 c).
Proof.
  intros Hlen Hv. unfold put4byte, region. change (0 <=? 0) with true. change (0 <=? 4) with true. destruct (Z.leb_spec (0 + 4) (len c)); [|lia]. cbn [andb mbind option_bind].
  rewrite put4byte_spec by done. rewrite length_take, length_drop. destruct (Nat.leb_spec 4 (Z.to_nat 4 `min` (length c - Z.to_nat 0))); [|lia].
  cbn [mbind option_bind]. rewrite drop_ge, app_nil_r by (rewrite length_take, length_drop; lia).
  unfold store. rewrite length_be_bytes. destruct (Z.leb_spec (0 + Z.of_nat 4) (len c)); [|lia]. done.
Qed.

(** The content of the new cell in the page. *)
Lemma write_cell d p c iChild :
  bytes_ok d → bytes_ok c → 4 ≤ len c → 0 ≤ p → p + len c ≤ len d → uint 32 iChild →
  ∃ d', (data ← copy d p c 0 (len c); if iChild =? 0 then Some data else put4byte has_bswap data p iChild) = Some d' ∧
    changed d p (len c) d' ∧ region d' p (len c) = Some (with_child iChild c).
Proof.
  intros Hd Hc H4 Hp Hlen Hv.
  assert (region c 0 (len c) = Some c) as Hr0 by (apply region_spec; split; [done|]; split; [lia|]; intros; by rewrite Z.add_0_l).
  destruct (copy_spec d p c 0 (len c) c Hd Hc Hr0) as (d1 & E1 & (Hd1 & Hl1 & Hs1) & Hr1); [lia..|]. rewrite E1. cbn [mbind option_bind].
  unfold with_child. destruct (Z.eqb_spec iChild 0); [by exists d1|].
  destruct (put4byte_at d1 p iChild Hd1) as (d2 & E2 & (Hd2 & Hl2 & Hs2) & Hr2); [lia|lia|done|]. exists d2. split; [done|].
  split; [split; [done|split; [lia|intros j Hj; rewrite Hs2, Hs1 by lia; done]]|].
  assert (length (be_bytes 4 iChild) = 4%nat) as Hl4 by apply length_be_bytes.
  assert (len (be_bytes 4 iChild ++ drop 4 c) = len c) as Hl by (rewrite length_app, length_drop; lia).
  rewrite <-Hl. apply region_spec. split; [done|]. split; [lia|]. intros j Hj.
  apply region_spec in Hr1 as (_ & _ & Hp1).
  assert (region d2 p (len (be_bytes 4 iChild)) = Some (be_bytes 4 iChild)) as Hr2' by (by rewrite Hl4).
  apply region_spec in Hr2' as (_ & _ & Hp2). unfold peek at 2. destruct (Z.ltb_spec j 0); [lia|].
  destruct (Z.lt_ge_cases j 4).
  - rewrite Hp2 by lia. unfold peek. destruct (Z.ltb_spec j 0); [lia|]. rewrite lookup_app_l by lia. done.
  - rewrite Hs2, Hp1 by lia. unfold peek. destruct (Z.ltb_spec j 0); [lia|]. rewrite lookup_app_r by lia. rewrite lookup_drop. f_equal. lia.
Qed.

(** The entry for the pointer map can be read in the cell. *)
Lemma ptrmap_entry pPage c :
  kind_ok pBt (kind pPage) → cell_ok pBt pPage c → ∃ entry, ptrmapPutOvflPtr pBt has_bswap pPage c = Some entry.
Proof.
  intros Hk Hc. pose proof (cell_ok_size pBt pPage (geometry_limits _ Hgeo) Hk c Hc) as Hsz. destruct Hc as [Hb Hs].
  rewrite (cellSize_parseCell pBt (kind pPage) (geometry_limits _ Hgeo) Hk c Hb) in Hs. unfold ptrmapPutOvflPtr.
  destruct (parseCell pBt (kind pPage) c) as [info|]; [|done]. cbn [fmap option_fmap option_map mbind option_bind] in *.
  injection Hs as Hs. destruct (nLocal info <? nPayload info); [|by exists None]. rewrite Hs. unfold advance.
  destruct (Z.leb_spec (len c - 4) (len c)); [|lia]. cbn [mbind option_bind]. rewrite get4byte_spec by (by apply Forall_drop).
  rewrite length_drop. destruct (Nat.leb_spec 4 (length c - Z.to_nat (len c - 4))); [|lia]. cbn [mbind option_bind]. by eexists.
Qed.

(** A region beside the cells becomes a cell. *)
Lemma stores_insert pPage d d' idx os cs f top frag (i : nat) c :
  stores pBt pPage d [(idx, len c)] os cs f top frag → (i ≤ length os)%nat → bytes_ok d' → len d' = len d →
  hdrOffset pPage + 8 ≤ cellOffset pPage → first_free pPage (len cs) + 2 ≤ top →
  (∀ j, j < hdrOffset pPage + 3 ∨ hdrOffset pPage + 5 ≤ j < cellOffset pPage ∨ first_free pPage (len cs) + 2 ≤ j →
    j < idx ∨ idx + len c ≤ j → peek d' j = peek d j) →
  pointers d' (cellOffset pPage) (take i os ++ idx :: drop i os) → region d' idx (len c) = Some c →
  stores pBt pPage d' [] (take i os ++ idx :: drop i os) (take i cs ++ c :: drop i cs) f top frag.
Proof.
  intros Hs Hi Hd' Hl Hco Hroom Hsame Hp' Hr. pose proof Hs as (Hwf & Hp & Hc).
  pose proof (Forall2_length _ _ _ Hc) as Hln. unfold first_free in *.
  assert ((idx, len c) :: cell_regions os cs ≡ₚ cell_regions (take i os ++ idx :: drop i os) (take i cs ++ c :: drop i cs)) as Hperm.
  { rewrite cell_regions_app by (rewrite !length_take; lia). cbn [cell_regions zip_with].
    rewrite <-(take_drop i os) at 1. rewrite <-(take_drop i cs) at 1.
    rewrite cell_regions_app by (rewrite !length_take; lia). unfold cell_regions. solve_Permutation. }
  pose proof Hwf as (_ & _ & _ & Hasc & Hlay & _ & _ & _ & Htop & _). split; [|split; [done|]].
  - cbn [app] in Hwf |- *. eapply wf_perm; [exact Hperm|]. eapply wf_frame; [exact Hwf|done|done|]. intros j Hj. apply Hsame.
    + destruct Hj as [|[|Hj]]; [lia..|]. right; right. destruct Hlay as (_ & Hin & _).
      specialize (Hin j). rewrite bytes_of_app in Hin. specialize (Hin ltac:(apply elem_of_app; by right)). lia.
    + destruct (layout_region _ _ _ _ idx (len c) Hlay) as (? & _); [by left|]. destruct Hj as [|[|Hj]]; [lia..|].
      destruct (Z.lt_ge_cases j idx); [by left|right]. destruct (Z.le_gt_cases (idx + len c) j); [done|]. exfalso.
      cbn [app] in Hlay. apply (layout_outside _ _ _ _ idx (len c) j Hlay); [lia|]. rewrite bytes_of_app. apply elem_of_app. by right.
  - assert (contents d' os cs) as Hc'.
    { eapply contents_frame; [done|done|]. intros j Hj. pose proof (stores_bytes _ _ _ _ _ _ _ _ _ _ Hs Hj) as (? & Hnin & _).
      apply Hsame; [lia|]. rewrite bytes_one in Hnin. destruct (Z.lt_ge_cases j idx); [by left|right].
      destruct (Z.le_gt_cases (idx + len c) j); [done|]. exfalso. apply Hnin, elem_of_seqZ. lia. }
    rewrite <-(take_drop i os), <-(take_drop i cs) in Hc'. apply Forall2_app_inv in Hc' as [? ?]; [|rewrite !length_take; lia].
    apply contents_app; [done|]. by constructor.
Qed.

(** A page with room for the cell. *)
Lemma insertCell_fits space pPage cs (i : nat) c iChild :
  holds pBt pPage cs → cell_ok pBt pPage c → (i ≤ length cs)%nat → uint 32 iChild →
  iChild = 0 ∨ childPtrSize (kind pPage) = 4 → bytes_ok space → usableSize pBt ≤ len space →
  len c + 2 ≤ nFree pPage →
  ∃ pPage' entry, insertCell pBt has_bswap space SQLITE_OK pPage (Z.of_nat i) c (len c) iChild = Some (SQLITE_OK, pPage', entry) ∧
    holds pBt pPage' (take i cs ++ with_child iChild c :: drop i cs) ∧ same_page pPage pPage'.
Proof.
  intros Hh Hcok Hi Hchild Hcp Hsp Hspl Hroom. pose proof (holds_kind _ _ _ Hh) as Hk.
  pose proof (with_child_ok pPage iChild c Hk Hcok Hcp) as [Hc'ok Hc'len].
  pose proof (cell_ok_size pBt pPage (geometry_limits _ Hgeo) Hk c Hcok) as Hsz. pose proof (kind_child _ Hgeo _ Hk) as Hcps.
  pose proof Hh as (_ & _ & Hhdr & Hco & HnCell & Hcount & _ & Hov & HnFree & Hok & _).
  destruct (allocateSpace_spec pBt Hgeo space pPage cs (len c) Hh Hsp Hspl) as (d1 & idx & os & f & top & frag & E1 & Hs1 & Htop & Hl1 & Hf1); [lia..|].
  pose proof Hs1 as ((Hd1 & Hlen1 & _ & _ & Hlay & _ & _ & _ & Htu & _ & Hu) & Hp1 & Hc1).
  pose proof (Forall2_length _ _ _ Hc1) as Hln. destruct (layout_region _ _ _ _ idx (len c) Hlay) as (Hidx1 & Hidx2 & _); [by left|].
  unfold insertCell. rewrite Hov. cbn [length Nat.eqb negb orb]. destruct (Z.ltb_spec (nFree pPage) (len c + 2)); [lia|].
  change (negb (SQLITE_OK =? SQLITE_OK)) with false. cbn iota. rewrite E1. cbn [mbind option_bind].
  change (negb (SQLITE_OK =? SQLITE_OK)) with false. cbn iota. cbn [aData set_data set_nFree hdrOffset cellOffset nCell nFree kind].
  unfold first_free in Htop.
  destruct (write_cell d1 idx c iChild Hd1 (proj1 Hcok)) as (d2 & E2 & (Hd2 & Hl2 & Hf2) & Hr2); [lia..|done|].
  destruct (copy d1 idx c 0 (len c)) as [d1'|]; [|done]. cbn [mbind option_bind] in E2 |- *. rewrite E2. cbn [mbind option_bind]. clear E2 d1'.
  destruct (insert_pointer d2 (cellOffset pPage) os i idx Hd2) as (d3 & E3 & (Hd3 & Hl3 & Hf3) & Hp3); [|lia..|].
  { eapply pointers_frame; [done|]. intros j Hj. apply Hf2. lia. }
  rewrite Hln, <-HnCell in E3.
  destruct (copy d2 (cellOffset pPage + Z.of_nat i * 2 + 2) d2 (cellOffset pPage + Z.of_nat i * 2) (2 * (nCell pPage - Z.of_nat i))) as [d2'|];
    [|done]. cbn [mbind option_bind] in E3 |- *. rewrite E3. cbn [mbind option_bind]. clear E3 d2'.
  assert (get2byte d3 (hdrOffset pPage + 3) = Some (len cs)) as Hn3.
  { rewrite <-Hcount. apply get2byte_ext; rewrite Hf3, Hf2, Hf1 by lia; done. }
  destruct (increment_count d3 (hdrOffset pPage + 3) (len cs) Hd3 Hn3) as (x4 & d4 & d5 & E4 & E5 & E6 & (Hd5 & Hl5 & Hf5) & Hg5); [lia|].
  replace (hdrOffset pPage + 4) with (hdrOffset pPage + 3 + 1) by lia. rewrite E4. cbn [mbind option_bind]. rewrite E5. cbn [mbind option_bind].
  rewrite E6. cbn [mbind option_bind]. clear E4 E5 E6 x4 d4.
  assert (∀ p, kind p = kind pPage → ∃ entry, (if autoVacuum pBt then ptrmapPutOvflPtr pBt has_bswap p c else Some None) = Some entry) as Hentry.
  { intros p Ep. destruct (autoVacuum pBt); [|by exists None]. apply ptrmap_entry; [by rewrite Ep|]. unfold cell_ok. by rewrite Ep. }
  destruct (Hentry (set_nCell (set_data (set_nFree (set_data pPage d1) (nFree pPage - wrap 16 (2 + len c))) d5) (nCell pPage + 1)) eq_refl)
    as [entry ->]. cbn [mbind option_bind]. eexists _, entry. split; [done|].
  assert (∀ j, j < hdrOffset pPage + 3 ∨ hdrOffset pPage + 5 ≤ j < cellOffset pPage ∨ first_free pPage (len cs) + 2 ≤ j →
    j < idx ∨ idx + len c ≤ j → peek d5 j = peek d1 j) as Hsame.
  { unfold first_free. intros j Hj1 Hj2. rewrite Hf5, Hf3, Hf2 by lia. done. }
  assert (length (take i cs ++ with_child iChild c :: drop i cs) = S (length cs)) as Hlcs.
  { rewrite length_app, length_take, length_cons, length_drop. lia. }
  split; [|unfold same_page; cbn; split_and!; (done || lia)].
  eapply (holds_intro pPage _ cs _ (take i os ++ idx :: drop i os) f top frag Hh); cbn; rewrite ?Hlcs.
  - unfold same_page. cbn. split_and!; (done || lia).
  - done.
  - rewrite HnCell, wrap_small by (unfold uint; lia). lia.
  - rewrite Hg5. f_equal. lia.
  - rewrite Hsame, Hf1 by lia. done.
  - assert (cells_size (take i cs ++ with_child iChild c :: drop i cs) = cells_size cs + len c) as Hsize.
    { rewrite cells_size_app. cbn [cells_size]. rewrite <-(take_drop i cs) at 3. rewrite cells_size_app. lia. }
    pose proof (cells_size_nonneg cs). unfold space_left, first_free in *. rewrite Hlcs, Hsize.
    rewrite !wrap_small by (rewrite ?wrap_small; unfold uint; lia). lia.
  - apply Forall_app. split; [by apply Forall_take|]. constructor; [done|by apply Forall_drop].
  - rewrite <-Hc'len in Hs1, Hsame, Hr2.
    eapply stores_insert; [exact Hs1|lia|done|lia|lia|unfold first_free; lia|exact Hsame| |].
    + eapply pointers_frame; [done|]. intros j Hj. apply Hf5. lia.
    + rewrite <-Hr2. apply region_ext; [lia|]. intros j Hj. rewrite Hf5, Hf3 by lia. done.
  - unfold first_free. lia.
Qed.
End insert.
End cells.


Section init.
Context (pBt : BtShared) (Hgeo : geometry_ok pBt).
Implicit Types (pPage : MemPage) (d : list Z) (os : list Z) (cs : list (list Z)) (f : regions).

Let u : Z := usableSize pBt.

Lemma geometry_sizes : 480 ≤ u ≤ pageSize pBt ∧ pageSize pBt ≤ 65536 ∧ wrap 16 (pageSize pBt - 1) = pageSize pBt - 1.
Proof.
  destruct Hgeo as [[Hu _] (k & Hk & Hp & Hle)]. pose proof (Z.pow_le_mono_r 2 k 16 ltac:(lia) ltac:(lia)).
  change (2 ^ 16) with 65536 in *. unfold u in *. rewrite wrap_small by (unfold uint; lia). lia.
Qed.

(** The masked offset of a cell is its offset. *)
Lemma mask_page x : 0 ≤ x < pageSize pBt → Z.land (pageSize pBt - 1) x = x.
Proof.
  destruct Hgeo as [_ (k & Hk & -> & _)]. intros Hx. rewrite Z.land_comm, Z.sub_1_r, <-Z.ones_equiv, Z.land_ones by lia.
  by apply Z.mod_small.
Qed.

Lemma flags_child flags k :
  byte_ok flags → decodeFlags pBt flags = Some k → childPtrSize k = if Z.land flags PTF_LEAF =? 0 then 4 else 0.
Proof.
  intros Hf. pose proof (all_bytes (λ b, implb ((Z.land b (Z.lnot PTF_LEAF) =? 5) || (Z.land b (Z.lnot PTF_LEAF) =? 2))
    (u8 (4 - 4 * u8 (Z.shiftr b 3)) =? (if Z.land b PTF_LEAF =? 0 then 4 else 0))) eq_refl flags Hf) as H. cbn beta in H.
  unfold decodeFlags. cbv zeta. change (Z.lor PTF_LEAFDATA PTF_INTKEY) with 5. change PTF_ZERODATA with 2.
  destruct (Z.land flags (Z.lnot PTF_LEAF) =? 5) eqn:E5; [|destruct (Z.land flags (Z.lnot PTF_LEAF) =? 2) eqn:E2; [|done]];
    cbn [orb implb] in H; intros [= <-]; cbn [childPtrSize]; by apply Z.eqb_eq.
Qed.

Lemma interior_child flags k : byte_ok flags → decodeFlags pBt flags = Some k → leaf k = 0 → childPtrSize k = 4.
Proof.
  intros _. unfold decodeFlags. destruct (_ =? _); [|destruct (_ =? _); [|done]]; intros [= <-]; cbn; by intros ->.
Qed.

(** ** An empty page *)

Lemma zeroPage_spec pPage flags k :
  bytes_ok (aData pPage) → u ≤ len (aData pPage) → hdrOffset pPage = 0 ∨ hdrOffset pPage = 100 →
  byte_ok flags → decodeFlags pBt flags = Some k →
  ∃ pPage', zeroPage pBt pPage flags = Some pPage' ∧ holds pBt pPage' [] ∧ kind pPage' = k ∧ pgno pPage' = pgno pPage ∧
    hdrOffset pPage' = hdrOffset pPage ∧ len (aData pPage') = len (aData pPage).
Proof.
  intros Hd Hlen Hhdr Hflags Hk. pose proof geometry_sizes as (Hu & Hps & Hmask). pose proof (flags_child flags k Hflags Hk) as Hchild.
  set (hdr := hdrOffset pPage) in *.
  assert (∃ d0, (if secure_delete pBt then zero (aData pPage) hdr (usableSize pBt - hdr) else Some (aData pPage)) = Some d0 ∧
    bytes_ok d0 ∧ len d0 = len (aData pPage)) as (d0 & E0 & Hd0 & Hl0).
  { destruct (secure_delete pBt); [|by exists (aData pPage)].
    destruct (zero_spec (aData pPage) hdr (usableSize pBt - hdr) Hd) as (d0 & E0 & (? & ? & _) & _); [unfold u in *; lia..|]. by exists d0. }
  unfold zeroPage. fold hdr. rewrite E0. cbn [mbind option_bind].
  destruct (put_spec d0 hdr flags Hd0) as (d1 & E1 & (Hd1 & Hl1 & _) & Hp1); [lia|]. rewrite E1. cbn [mbind option_bind].
  destruct (zero_spec d1 (hdr + 1) 4 Hd1) as (d2 & E2 & (Hd2 & Hl2 & _) & _); [lia..|]. rewrite E2. cbn [mbind option_bind].
  destruct (put_spec d2 (hdr + 7) 0 Hd2) as (d3 & E3 & (Hd3 & Hl3 & _) & _); [lia|]. rewrite E3. cbn [mbind option_bind].
  destruct (put2byte_spec d3 (hdr + 5) u Hd3) as (d4 & E4 & (Hd4 & Hl4 & _) & _); [lia..|]. unfold u in E4. rewrite E4. cbn [mbind option_bind].
  destruct (empty_wf hdr u d1 d2 d3 d4 Hd1) as (Hwf & Hg & _ & Hf4); [lia..|done|done|done|].
  rewrite Hk. cbn [mbind option_bind]. eexists. split; [done|]. split; [|cbn; split_and!; (done || lia)].
  assert (wrap 16 (hdr + if Z.land flags PTF_LEAF =? 0 then 12 else 8) = hdr + 8 + childPtrSize k) as Hfirst.
  { rewrite Hchild. destruct (Z.land flags PTF_LEAF =? 0); rewrite wrap_small by (unfold uint; lia); lia. }
  rewrite Hfirst, Hmask.
  assert (childPtrSize k = 0 ∨ childPtrSize k = 4) as Hck by (rewrite Hchild; destruct (_ =? _); lia).
  unfold holds, space_left, first_free, stores. cbn. split_and!; try done.
  - exists flags. split; [done|]. split; [done|]. rewrite Hf4 by lia. rewrite Hp1. f_equal. by apply wrap_small.
  - rewrite wrap_small by (fold u; unfold uint; lia). lia.
  - exists [], [], u, 0. split_and!; [done|done|constructor|fold u; lia].
Qed.

(** ** Opening a page *)

Lemma check_cells_spec d k cellOffset first last os cs n :
  limits_ok pBt → kind_ok pBt k → pointers d (cellOffset + 2 * n) os → contents d os cs →
  Forall (λ c, bytes_ok c ∧ cellSize pBt k c = Some (len c)) cs → u ≤ len d →
  Forall2 (λ o c, first ≤ o ≤ last ∧ o + len c ≤ u) os cs → 0 ≤ first →
  check_cells pBt (length os) k d cellOffset first last n = Some true.
Proof.
  intros Hlim Hk Hp Hc. revert n Hp. induction Hc as [|o c os cs Ho _ IH]; intros n Hp Hok Hlen Hb Hf; [done|].
  cbn [length check_cells pointers] in *. destruct Hp as [Hpo Hp]. apply Forall_cons in Hok as [[Hcb Hcs] Hok].
  apply Forall2_cons in Hb as [[[Hb1 Hb2] Hb3] Hb]. rewrite (Z.mul_comm n 2), Hpo. cbn [mbind option_bind].
  destruct (Z.ltb_spec o first); [lia|]. destruct (Z.ltb_spec last o); [lia|]. cbn [orb]. unfold advance.
  destruct (Z.leb_spec o (len d)); [|lia]. cbn [mbind option_bind].
  assert (∃ r, drop (Z.to_nat o) d = c ++ r) as [r ->].
  { exists (drop (length c) (drop (Z.to_nat o) d)). unfold region in Ho. destruct (_ && _); [|done]. rewrite Nat2Z.id in Ho.
    injection Ho as Ho. rewrite <-Ho at 1. by rewrite take_drop. }
  destruct (cellSize_app pBt k Hlim Hk c r (len c) Hcb Hcs) as [-> _]. cbn [mbind option_bind].
  destruct (Z.ltb_spec (usableSize pBt) (o + len c)); [unfold u in *; lia|]. apply IH; try done.
  by replace (cellOffset + 2 * (n + 1)) with (cellOffset + 2 * n + 2) by lia.
Qed.

(** The first block. *)
Definition head_of f : Z := match f with [] => 0 | (pc, _) :: _ => pc end.

Lemma stored_head d a f : stored d a f 0 → get2byte d a = Some (head_of f).
Proof. destruct f as [|[pc sz] f]; [done|]. by intros [? _]. Qed.

Lemma sum_free_spec d a f first lo n fuel :
  stored d a f 0 → ascending lo f → 0 < lo → first ≤ lo → (∀ pc sz, (pc, sz) ∈ f → pc + sz ≤ u) →
  u - lo < Z.of_nat fuel → (0 < fuel)%nat → sum_free pBt fuel d first (u - 4) (head_of f) n = Some (Some (n + total f)).
Proof.
  revert a lo n fuel. induction f as [|[pc sz] f IH]; intros a lo n fuel Hst Hasc Hlo Hfirst Hb Hfuel Hpos; (destruct fuel as [|fuel]; [lia|]).
  { cbn. by rewrite Z.add_0_r. }
  cbn [stored ascending head_of sum_free total] in *. destruct Hst as (_ & Hsz & Hst). destruct Hasc as (Hpc & H4 & Hasc).
  pose proof (Hb pc sz ltac:(by left)) as Hend. destruct (Z.ltb_spec 0 pc); [|lia].
  destruct (Z.ltb_spec pc first); [lia|]. destruct (Z.ltb_spec (u - 4) pc); [lia|]. cbn [orb].
  rewrite (stored_head _ _ _ Hst), Hsz. cbn [mbind option_bind]. fold u.
  assert ((0 <? head_of f) && (head_of f <=? pc + sz + 3) = false) as ->.
  { destruct f as [|[b m] f]; [done|]. cbn [head_of ascending] in *. destruct (Z.leb_spec b (pc + sz + 3)); [lia|]. apply andb_false_r. }
  destruct (Z.ltb_spec u (pc + sz)); [lia|]. cbn [orb].
  rewrite (IH pc (pc + sz + 4)); [do 2 f_equal; lia|done|done|lia|lia| |lia|lia]. intros b m Hin. apply Hb. by right.
Qed.

(** The fields of a page are those that are computed from its bytes. *)
Lemma btreeInitPage_spec pPage cs q :
  holds pBt pPage cs → isInit q = false → pgno q = pgno pPage → hdrOffset q = hdrOffset pPage → aData q = aData pPage →
  btreeInitPage pBt q = Some (SQLITE_OK, pPage).
Proof.
  intros Hh Hq1 Hq2 Hq3 Hq4. pose proof geometry_sizes as (Hu & Hps & Hmask). pose proof (holds_kind _ _ _ Hh) as Hk.
  pose proof (kind_child _ Hgeo _ Hk) as Hcps. pose proof (space_left_nonneg _ _ _ Hh) as Hnn.
  pose proof Hh as (Hi & (flags & Hfl & Hdec & Hpk) & Hhdr & Hco & HnCell & Hcount & Hm & Hov & HnFree & Hok & os & f & top & frag & (Hwf & Hp & Hc) & Htop).
  pose proof Hwf as (Hd & Hlen & Hst & Hasc & Hlay & Ht & Hf & Hfr & Htu & _ & _). cbn [app] in Hlay.
  pose proof (cells_size_nonneg cs) as Hcs. pose proof (Forall2_length _ _ _ Hc) as Hln.
  assert (4 * len cs ≤ cells_size cs) as H4.
  { clear -Hok Hk Hgeo. induction Hok as [|c cs Hcok _ IH]; [done|]. cbn [cells_size length].
    pose proof (cell_ok_size _ _ (geometry_limits _ Hgeo) Hk _ Hcok). lia. }
  assert (frag + top + total f = u - cells_size cs) as Hsum.
  { destruct Hlay as (_ & _ & _ & H). rewrite total_app, (total_regions _ _ _ Hc) in H. fold u in H. clear -H. lia. }
  unfold btreeInitPage. rewrite Hq1, Hq3, Hq4, Hpk. cbn [mbind option_bind]. rewrite Hdec.
  rewrite (get2byteNotZero_spec _ _ _ Ht) by (apply Z.mod_pos_bound; lia). cbn [mbind option_bind].
  assert ((if top mod 65536 =? 0 then 65536 else top mod 65536) = top) as ->.
  { destruct (decide (top = 65536)) as [->|]; [done|]. fold u in Htu. rewrite Z.mod_small by lia. destruct (Z.eqb_spec top 0); lia. }
  rewrite Hcount. cbn [mbind option_bind]. cbv zeta. rewrite <-Hco. rewrite (wrap_small 16 (cellOffset pPage)) by (unfold uint; lia).
  unfold space_left, first_free in *. fold u in HnFree, Hnn, Htu |- *.
  assert (len cs ≤ MX_CELL pBt) as HMX. { unfold MX_CELL. apply Z.div_le_lower_bound; lia. }
  destruct (Z.ltb_spec (MX_CELL pBt) (len cs)); [lia|].
  assert ((if cell_size_check pBt then check_cells pBt (Z.to_nat (len cs)) (kind pPage) (aData pPage) (cellOffset pPage)
    (cellOffset pPage + 2 * len cs) (if leaf (kind pPage) =? 0 then u - 4 - 1 else u - 4) 0 else Some true) = Some true) as ->.
  { destruct (cell_size_check pBt); [|done]. rewrite Nat2Z.id, <-Hln. eapply check_cells_spec; [apply geometry_limits, Hgeo|done| |exact Hc|exact Hok|fold u in Hlen; lia| |lia].
    { by rewrite Z.mul_0_r, Z.add_0_r. }
    pose proof (layout_bounds _ _ _ _ _ _ Hc (layout_part _ _ _ _ _ Hlay)) as Hb.
    apply Forall2_same_length_lookup_2; [done|]. intros i o c Ho Hci. pose proof (Forall2_lookup_lr _ _ _ _ _ _ Hb Ho Hci) as [Hb1 Hb2].
    cbn beta in Hb1, Hb2. destruct (Forall_lookup_1 _ _ _ _ Hok Hci) as [Hcb Hcz].
    pose proof (cell_ok_size _ _ (geometry_limits _ Hgeo) Hk c (conj Hcb Hcz)).
    pose proof (cellSize_header pBt _ (geometry_limits _ Hgeo) Hk c (len c) Hcb Hcz).
    pose proof (interior_child flags (kind pPage) Hfl Hdec). fold u in Hb2. destruct (Z.eqb_spec (leaf (kind pPage)) 0); lia. }
  cbn [mbind option_bind negb]. rewrite (stored_head _ _ _ Hst), Hf. cbn [mbind option_bind].
  rewrite (sum_free_spec _ (hdrOffset pPage + 1) f _ (top + 1)); [|done|done|lia|lia| |lia|lia].
  2: { intros pc sz Hin. destruct (wf_free _ _ _ _ _ _ _ pc sz Hwf Hin) as (_ & ? & _). done. }
  cbn [mbind option_bind]. destruct (Z.ltb_spec u (frag + top + total f)); [lia|].
  rewrite Hmask, (wrap_small 16) by (unfold uint; lia). do 2 f_equal. destruct pPage; cbn in *. subst. f_equal; try done. lia.
Qed.
End init.
