(* ===== verification/BtreeProps.v ===== *)
(** * B-tree: the properties of pages

    A page as a list of cells with a capacity: the specification that the
    routines of a page implement, and what they guarantee of the bytes. *)
From S2P Require Import Prelude Words Varint VarintProofs BtreeBytes BtreeCell BtreeCellProofs BtreePage BtreeFree BtreeFreeSpace BtreeAlloc BtreeInsert.
Local Open Scope Z_scope.

(** ** The specification *)

Inductive page_op := Insert (i : nat) (c : list Z) (iChild : Z) | Drop (i : nat).

Section spec.
Context (pBt : BtShared) (k : PageKind) (hdr : Z).
Implicit Types (cs : list (list Z)) (c : list Z).

(** The bytes for cells and their offsets. *)
Definition capacity : Z := usableSize pBt - hdr - 8 - childPtrSize k.
Definition used cs : Z := 2 * len cs + cells_size cs.

(** The bytes of one cell of the page. *)
Definition valid_cell c : bool :=
  forallb (λ b, (0 <=? b) && (b <? 256)) c && match cellSize pBt k c with Some n => n =? len c | None => false end.

Definition valid_child (iChild : Z) : bool :=
  (iChild =? 0) || ((childPtrSize k =? 4) && (0 <=? iChild) && (iChild <? 2 ^ 32)).

Definition spec_step cs (op : page_op) : option (list (list Z)) :=
  match op with
  | Insert i c iChild =>
    if (i <=? length cs)%nat && valid_cell c && valid_child iChild && (used cs + len c + 2 <=? capacity)
    then Some (take i cs ++ with_child iChild c :: drop i cs) else None
  | Drop i => if (i <? length cs)%nat then Some (delete i cs) else None
  end.

Fixpoint spec_run cs (ops : list page_op) : option (list (list Z)) :=
  match ops with [] => Some cs | op :: ops => cs ← spec_step cs op; spec_run cs ops end.
End spec.

(** ** Observing and running a page *)

Section page.
Context (pBt : BtShared) `{Machine} (has_bswap : bool).
Implicit Types (pPage : MemPage) (cs : list (list Z)) (c space : list Z).

(** The size of the cell [i], [cellSizePtr(pPage, findCell(pPage, i))]. *)
Definition size_of pPage (i : Z) : option Z :=
  pc ← findCell pPage i; size_at pBt pPage (aData pPage) pc.

Fixpoint read_cells (n : nat) pPage (i : Z) : option (list (list Z)) :=
  match n with
  | O => Some []
  | S n =>
    pc ← findCell pPage i; sz ← size_of pPage i; c ← region (aData pPage) pc sz;
    cs ← read_cells n pPage (i + 1); Some (c :: cs)
  end.

(** The cells of a page, in order. *)
Definition page_cells pPage : option (list (list Z)) := read_cells (Z.to_nat (nCell pPage)) pPage 0.

(** An operation that succeeds; [space] is what the temporary space holds. *)
Definition page_step pPage space (op : page_op) : option MemPage :=
  match op with
  | Insert i c iChild =>
    '(rc, pPage, _) ← insertCell pBt has_bswap space SQLITE_OK pPage (Z.of_nat i) c (len c) iChild;
    if rc =? SQLITE_OK then Some pPage else None
  | Drop i =>
    sz ← size_of pPage (Z.of_nat i); '(rc, pPage) ← dropCell pBt pPage (Z.of_nat i) sz SQLITE_OK;
    if rc =? SQLITE_OK then Some pPage else None
  end.

Fixpoint page_run pPage (ops : list (list Z * page_op)) : option MemPage :=
  match ops with [] => Some pPage | (space, op) :: ops => pPage ← page_step pPage space op; page_run pPage ops end.

(** A page that has been read but not initialised. *)
Definition unread pPage : MemPage :=
  mkMemPage false (mkPageKind 0 0 0 0 0 0 0 CellSizePtr ParseCellPtr) (pgno pPage) (hdrOffset pPage) 0 0 0 0 [] (aData pPage).

Context (Hgeo : geometry_ok pBt).

Lemma valid_cell_ok pPage c : valid_cell pBt (kind pPage) c = true → cell_ok pBt pPage c.
Proof.
  unfold valid_cell. intros [Hb Hc]%andb_prop. split.
  - apply Forall_forall. intros b Hin%list_elem_of_In. apply (proj1 (forallb_forall _ _) Hb) in Hin. unfold uint. lia.
  - destruct (cellSize pBt (kind pPage) c) as [n|]; [|done]. apply Z.eqb_eq in Hc. by subst.
Qed.

(** A page whose cells can be read, with the regions [l] beside them. *)
Definition readable pPage l os cs f top frag : Prop :=
  kind_ok pBt (kind pPage) ∧ maskPage pPage = pageSize pBt - 1 ∧ nCell pPage = len cs ∧ Forall (cell_ok pBt pPage) cs ∧
  stores pBt pPage (aData pPage) l os cs f top frag.

Lemma holds_readable pPage cs : holds pBt pPage cs → ∃ os f top frag, readable pPage [] os cs f top frag.
Proof.
  intros Hh. pose proof (holds_kind _ _ _ Hh) as Hk.
  destruct Hh as (_ & _ & _ & _ & Hn & _ & Hm & _ & _ & Hok & os & f & top & frag & Hs & _). exists os, f, top, frag. by split_and!.
Qed.

(** The cell [i] of a page. *)
Lemma readable_cell pPage l os cs f top frag (i : nat) c :
  readable pPage l os cs f top frag → cs !! i = Some c →
  ∃ o, os !! i = Some o ∧ findCell pPage (Z.of_nat i) = Some o ∧ size_of pPage (Z.of_nat i) = Some (len c) ∧
    region (aData pPage) o (len c) = Some c.
Proof.
  intros (Hk & Hm & _ & Hok & Hwf & Hp & Hc) Hci.
  pose proof (Forall_lookup_1 _ _ _ _ Hok Hci) as Hcok. pose proof (Forall2_length _ _ _ Hc) as Hln.
  destruct (lookup_lt_is_Some_2 os i) as [o Ho]; [apply lookup_lt_Some in Hci; lia|].
  pose proof (Forall2_lookup_lr _ _ _ _ _ _ Hc Ho Hci) as Hr. cbn beta in Hr.
  pose proof Hwf as (_ & Hlen & _ & _ & Hlay & _). rewrite (Permutation_app_comm l), <-app_assoc in Hlay.
  pose proof (Forall2_lookup_lr _ _ _ _ _ _ (layout_bounds _ _ _ _ _ _ Hc (layout_part _ _ _ _ _ Hlay)) Ho Hci) as [Hb1 Hb2].
  cbn beta in Hb1, Hb2. pose proof (cell_ok_size _ _ (geometry_limits _ Hgeo) Hk _ Hcok). pose proof (geometry_sizes _ Hgeo) as (? & ? & _).
  apply region_Some in Hr as Hrb. assert (findCell pPage (Z.of_nat i) = Some o) as Hf.
  { unfold findCell. rewrite (pointers_lookup _ _ _ _ _ Hp Ho). cbn [mbind option_bind]. f_equal.
    rewrite Hm. apply mask_page; [done|lia]. }
  exists o. split; [done|]. split; [done|]. split; [|done]. unfold size_of. rewrite Hf. cbn [mbind option_bind].
  apply (size_at_spec pBt pPage (geometry_limits _ Hgeo) Hk _ _ c Hr Hcok).
Qed.

Lemma readable_cells pPage l os cs f top frag : readable pPage l os cs f top frag → page_cells pPage = Some cs.
Proof.
  intros Hh. assert (nCell pPage = len cs) as Hn by apply Hh. unfold page_cells. rewrite Hn, Nat2Z.id. clear Hn.
  assert (∀ n i, (i + n = length cs)%nat → read_cells n pPage (Z.of_nat i) = Some (drop i cs)) as Hread.
  { induction n as [|n IH]; intros i Hi; cbn [read_cells]; [by rewrite drop_ge by lia|].
    destruct (lookup_lt_is_Some_2 cs i) as [c Hci]; [lia|].
    destruct (readable_cell _ _ _ _ _ _ _ _ _ Hh Hci) as (o & _ & -> & -> & Hr). cbn [mbind option_bind]. rewrite Hr. cbn [mbind option_bind].
    replace (Z.of_nat i + 1) with (Z.of_nat (S i)) by lia. rewrite IH by lia. cbn [mbind option_bind].
    by rewrite <-(drop_S _ _ _ Hci). }
  apply (Hread (length cs) 0%nat). lia.
Qed.

Lemma holds_cells pPage cs : holds pBt pPage cs → page_cells pPage = Some cs.
Proof. intros (os & f & top & frag & Hr)%holds_readable. by eapply readable_cells. Qed.

Definition space_ok space : Prop := bytes_ok space ∧ usableSize pBt ≤ len space.

Lemma page_step_spec pPage cs space op cs' :
  holds pBt pPage cs → space_ok space → spec_step pBt (kind pPage) (hdrOffset pPage) cs op = Some cs' →
  ∃ pPage', page_step pPage space op = Some pPage' ∧ holds pBt pPage' cs' ∧ same_page pPage pPage'.
Proof.
  intros Hh [Hsp Hspl]. pose proof Hh as (_ & _ & _ & Hco & _ & _ & _ & _ & HnFree & _). destruct op as [i c iChild|i]; cbn [spec_step page_step].
  - destruct (_ && _) eqn:E; [|done]. intros [= <-].
    apply andb_prop in E as [[[Hi Hc]%andb_prop Hch]%andb_prop Hroom].
    apply valid_cell_ok in Hc. unfold valid_child in Hch. unfold used, capacity in Hroom. unfold space_left, first_free in HnFree.
    destruct (insertCell_fits pBt Hgeo has_bswap space pPage cs i c iChild Hh Hc) as (p' & entry & -> & Hh' & Hs');
      [by apply Nat.leb_le|unfold uint; lia|lia|done|done|lia|].
    cbn. by exists p'.
  - destruct (Nat.ltb_spec i (length cs)); [|done]. intros [= <-].
    destruct (lookup_lt_is_Some_2 cs i) as [c Hci]; [done|]. destruct (holds_readable _ _ Hh) as (os & f & top & frag & Hrd).
    destruct (readable_cell _ _ _ _ _ _ _ _ _ Hrd Hci) as (o & _ & _ & -> & _). cbn [mbind option_bind].
    destruct (dropCell_spec pBt Hgeo pPage cs i c Hh Hci) as (p' & -> & Hh' & Hs'). cbn. by exists p'.
Qed.

Lemma page_run_spec pPage cs ops cs' :
  holds pBt pPage cs → Forall (λ op, space_ok op.1) ops →
  spec_run pBt (kind pPage) (hdrOffset pPage) cs (ops.*2) = Some cs' →
  ∃ pPage', page_run pPage ops = Some pPage' ∧ holds pBt pPage' cs' ∧ same_page pPage pPage'.
Proof.
  intros Hh Hops. revert pPage cs Hh. induction Hops as [|[space op] ops Hsp _ IH]; intros pPage cs Hh; cbn [fmap list_fmap spec_run page_run snd].
  - intros [= <-]. exists pPage. unfold same_page. by split_and!.
  - destruct (spec_step _ _ _ cs op) as [cs1|] eqn:E; [|done]. cbn [mbind option_bind]. intros Hrun.
    destruct (page_step_spec _ _ space op cs1 Hh Hsp E) as (p1 & -> & Hh1 & Hs1). cbn [mbind option_bind].
    destruct (IH p1 cs1 Hh1) as (p' & -> & Hh' & Hs').
    { destruct Hs1 as (_ & -> & _ & -> & _). done. }
    exists p'. split; [done|]. split; [done|]. by eapply same_page_trans.
Qed.

Lemma new_page_run pPage flags k ops cs :
  bytes_ok (aData pPage) → usableSize pBt ≤ len (aData pPage) → hdrOffset pPage = 0 ∨ hdrOffset pPage = 100 →
  byte_ok flags → decodeFlags pBt flags = Some k → Forall (λ op, space_ok op.1) ops →
  spec_run pBt k (hdrOffset pPage) [] (ops.*2) = Some cs →
  ∃ pPage', (p ← zeroPage pBt pPage flags; page_run p ops) = Some pPage' ∧ holds pBt pPage' cs ∧
    pgno pPage' = pgno pPage ∧ hdrOffset pPage' = hdrOffset pPage ∧ kind pPage' = k.
Proof.
  intros Hd Hlen Hhdr Hf Hk Hops Hrun.
  destruct (zeroPage_spec pBt Hgeo pPage flags k Hd Hlen Hhdr Hf Hk) as (p & -> & Hh & Hkp & Hpg & Hhp & _). cbn [mbind option_bind].
  rewrite <-Hkp, <-Hhp in Hrun. destruct (page_run_spec p [] ops cs Hh Hops Hrun) as (p' & E & Hh' & Hs').
  exists p'. split; [done|]. split; [done|]. destruct Hs' as (_ & -> & -> & -> & _). done.
Qed.
End page.

(** ** The properties *)

Section properties.
Context (pBt : BtShared) `{Machine} (has_bswap : bool).
Implicit Types (pPage : MemPage) (cs : list (list Z)) (c space : list Z).

(** C6: a page is a list of cells. Whatever bytes a page held, after
    [zeroPage] every sequence of insertions and removals that the list of cells
    allows within the capacity of the page succeeds: no call reports corruption
    or leaves the page, defragmentation included; the page then has exactly the
    cells of the list, in order, and its count of free bytes is what they
    leave. *)
Theorem page_refines_list pPage flags k ops cs :
  geometry_ok pBt → bytes_ok (aData pPage) → usableSize pBt ≤ len (aData pPage) → hdrOffset pPage = 0 ∨ hdrOffset pPage = 100 →
  byte_ok flags → decodeFlags pBt flags = Some k → Forall (λ op, space_ok pBt op.1) ops →
  spec_run pBt k (hdrOffset pPage) [] (ops.*2) = Some cs →
  ∃ pPage', (p ← zeroPage pBt pPage flags; page_run pBt has_bswap p ops) = Some pPage' ∧
    page_cells pBt pPage' = Some cs ∧ nCell pPage' = len cs ∧
    nFree pPage' = capacity pBt k (hdrOffset pPage) - used cs.
Proof.
  intros Hgeo Hd Hlen Hhdr Hf Hk Hops Hrun.
  destruct (new_page_run pBt has_bswap Hgeo pPage flags k ops cs) as (p & E & Hh & _ & Hhdr' & Hkp); try done.
  exists p. split; [done|]. split; [by eapply holds_cells|]. destruct Hh as (_ & _ & _ & Hco & -> & _ & _ & _ & -> & _).
  split; [done|]. unfold space_left, first_free, capacity, used. rewrite Hco, Hhdr', Hkp. lia.
Qed.

(** C13: [btreeInitPage] on the bytes that such a sequence leaves computes every
    field that the page had, the count of free bytes from the list of free
    blocks included, and reports no corruption, also when it checks the sizes of
    the cells. *)
Theorem btreeInitPage_reopens pPage flags k ops cs p :
  geometry_ok pBt → bytes_ok (aData pPage) → usableSize pBt ≤ len (aData pPage) → hdrOffset pPage = 0 ∨ hdrOffset pPage = 100 →
  byte_ok flags → decodeFlags pBt flags = Some k → Forall (λ op, space_ok pBt op.1) ops →
  spec_run pBt k (hdrOffset pPage) [] (ops.*2) = Some cs →
  (p ← zeroPage pBt pPage flags; page_run pBt has_bswap p ops) = Some p →
  btreeInitPage pBt (unread p) = Some (SQLITE_OK, p).
Proof.
  intros Hgeo Hd Hlen Hhdr Hf Hk Hops Hrun Hp.
  destruct (new_page_run pBt has_bswap Hgeo pPage flags k ops cs) as (p' & E & Hh & _); try done.
  rewrite Hp in E. injection E as <-. by apply (btreeInitPage_spec pBt Hgeo p cs).
Qed.

(** an insertion that does not take place. Without room the cell, with its
    child, is recorded with its index as an overflow cell and the bytes of the
    page stay as they are, and so it is for every further cell while there are
    overflow cells, room or not; with room, an error of the pager is the result
    and nothing changes. *)
Theorem insertCell_without_room space write_rc pPage cs (i : nat) c iChild l :
  geometry_ok pBt → holds pBt pPage cs → valid_cell pBt (kind pPage) c = true → valid_child (kind pPage) iChild = true →
  (length l < 5)%nat → l ≠ [] ∨ nFree pPage < len c + 2 ∨ write_rc ≠ SQLITE_OK →
  insertCell pBt has_bswap space write_rc (set_overflow pPage l) (Z.of_nat i) c (len c) iChild =
    if decide (l = []) then
      if nFree pPage <? len c + 2 then Some (SQLITE_OK, set_overflow pPage [(wrap 16 (Z.of_nat i), with_child iChild c)], None)
      else Some (write_rc, pPage, None)
    else Some (SQLITE_OK, set_overflow pPage (l ++ [(wrap 16 (Z.of_nat i), with_child iChild c)]), None).
Proof.
  intros Hgeo Hh Hc Hch Hl Hcase. pose proof (holds_kind _ _ _ Hh) as Hk. apply valid_cell_ok in Hc.
  pose proof (cell_ok_size _ _ (geometry_limits _ Hgeo) Hk _ Hc) as Hsz.
  assert (insert_overflow has_bswap (set_overflow pPage l) (Z.of_nat i) c iChild =
    Some (set_overflow pPage (l ++ [(wrap 16 (Z.of_nat i), with_child iChild c)]))) as Hins.
  { unfold insert_overflow, with_child. destruct (Z.eqb_spec iChild 0) as [->|Hne].
    - cbn [mbind option_bind overflow set_overflow]. by destruct (Nat.ltb_spec (length l) 5); [|lia].
    - unfold valid_child in Hch. rewrite put4byte_start by (unfold uint; lia). cbn [mbind option_bind overflow set_overflow].
      by destruct (Nat.ltb_spec (length l) 5); [|lia]. }
  unfold insertCell. rewrite Hins. cbn [mbind option_bind overflow set_overflow nFree].
  destruct (decide (l = [])) as [->|Hne]; [|by destruct l].
  cbn [length Nat.eqb negb orb app]. destruct (Z.ltb_spec (nFree pPage) (len c + 2)); [done|].
  destruct Hcase as [?|[?|Hrc]]; [done|lia|]. destruct (Z.eqb_spec write_rc SQLITE_OK); [done|]. cbn [negb].
  assert (overflow pPage = []) as Hov by apply Hh. do 3 f_equal. destruct pPage. cbn in *. by subst.
Qed.

(** C14: [allocateSpace] on a page with enough free bytes gives a region of
    its own: behind the array of offsets with one more entry, inside the page
    and beside every cell; the cells are still the same, and [freeSpace] of the
    region gives the page with its cells and its free bytes back. *)
Theorem allocateSpace_freeSpace space pPage cs n :
  geometry_ok pBt → space_ok pBt space → holds pBt pPage cs → 4 ≤ n → n + 2 ≤ nFree pPage →
  ∃ pPage' idx, allocateSpace pBt space pPage n = Some (SQLITE_OK, pPage', idx) ∧
    cellOffset pPage + 2 * nCell pPage + 2 ≤ idx ∧ idx + n ≤ usableSize pBt ∧ page_cells pBt pPage' = Some cs ∧
    (∀ (i : nat) c o, cs !! i = Some c → findCell pPage' (Z.of_nat i) = Some o → idx + n ≤ o ∨ o + len c ≤ idx) ∧
    ∃ q, freeSpace pBt (set_nFree pPage' (nFree pPage' - n)) idx n = Some (SQLITE_OK, q) ∧
      page_cells pBt q = Some cs ∧ nFree q = nFree pPage ∧ holds pBt q cs.
Proof.
  intros Hgeo [Hsp Hspl] Hh Hn Hfree.
  destruct (allocateSpace_spec pBt Hgeo space pPage cs n Hh Hsp Hspl Hn Hfree) as (d & idx & os & f & top & frag & E & Hs & Htop & Hl & Hsame).
  pose proof (holds_kind _ _ _ Hh) as Hk.
  pose proof Hh as (_ & _ & _ & _ & HnCell & _ & Hm & _ & _ & Hok & _).
  pose proof Hs as ((Hd & Hlen & _ & _ & Hlay & _) & _). cbn [app] in Hlay.
  destruct (layout_region _ _ _ _ idx n Hlay) as (Hidx & Hend & _); [by left|].
  exists (set_data pPage d), idx. split; [done|]. unfold first_free in Htop.
  split; [rewrite HnCell; lia|]. split; [done|].
  assert (readable pBt (set_data pPage d) [(idx, n)] os cs f top frag) as Hr by (by split_and!).
  split; [by eapply readable_cells|]. split.
  { intros i c o Hci Ho. destruct (readable_cell _ Hgeo _ _ _ _ _ _ _ _ _ Hr Hci) as (o' & Hoi & Ho' & _).
    rewrite Ho in Ho'. injection Ho' as <-. eapply layout_disjoint; [exact Hlay|].
    apply elem_of_app. left. unfold cell_regions. apply (list_elem_of_lookup_2 _ i). by rewrite lookup_zip_with, Hoi, Hci. }
  pose proof Hh as (_ & _ & Hhdr & Hco & _ & Hcount & _ & Hov & HnFree & _). pose proof (kind_child _ Hgeo _ Hk) as Hcps.
  pose proof (space_left_nonneg _ _ _ Hh) as Hnn. pose proof (cells_size_nonneg cs). pose proof (geometry_sizes _ Hgeo).
  unfold space_left, first_free in *.
  destruct (freeSpace_stores pBt (set_nFree (set_data pPage d) (nFree pPage - n)) idx n os cs f top frag Hs) as
    (d' & f' & top' & frag' & E' & Hs' & Htop' & Hl' & Hsame'); [cbn; lia|unfold first_free; cbn; lia|].
  cbn [aData set_nFree set_data hdrOffset] in Hl', Hsame'. cbn [nFree set_data]. cbn [nFree set_nFree] in E'.
  exists (set_nFree (set_data (set_nFree (set_data pPage d) (nFree pPage - n)) d') (wrap 16 (nFree pPage - n) + n)). split; [exact E'|].
  assert (holds pBt (set_nFree (set_data (set_nFree (set_data pPage d) (nFree pPage - n)) d') (wrap 16 (nFree pPage - n) + n)) cs) as Hh'.
  { eapply (holds_intro pBt pPage _ cs cs os f' top' frag' Hh); cbn.
    - unfold same_page. cbn. split_and!; (done || lia).
    - done.
    - done.
    - rewrite <-Hcount. apply get2byte_ext; rewrite Hsame' by lia; apply Hsame; lia.
    - rewrite Hsame' by lia. apply Hsame. lia.
    - rewrite !wrap_small by (rewrite ?wrap_small; unfold uint; lia). unfold space_left, first_free. lia.
    - done.
    - exact Hs'.
    - unfold first_free. lia. }
  split; [by eapply holds_cells|]. split; [cbn; rewrite !wrap_small by (rewrite ?wrap_small; unfold uint; lia); lia|done].
Qed.

(** C27: [defragmentPage] keeps the cells and their order: it packs them
    at the end of the page and leaves no free block and no fragment, so that the
    gap has all the free bytes. *)
Theorem defragmentPage_packs space pPage cs :
  geometry_ok pBt → space_ok pBt space → holds pBt pPage cs →
  ∃ pPage', defragmentPage pBt space pPage = Some (SQLITE_OK, pPage') ∧ page_cells pBt pPage' = Some cs ∧
    get2byte (aData pPage') (hdrOffset pPage + 1) = Some 0 ∧ peek (aData pPage') (hdrOffset pPage + 7) = Some 0 ∧
    get2byteNotZero (aData pPage') (hdrOffset pPage + 5) = Some (cellOffset pPage + 2 * nCell pPage + nFree pPage) ∧
    nFree pPage' = nFree pPage ∧ holds pBt pPage' cs.
Proof.
  intros Hgeo [Hsp Hspl] Hh. pose proof (holds_kind _ _ _ Hh) as Hk. pose proof (kind_child _ Hgeo _ Hk) as Hcps.
  pose proof (space_left_nonneg _ _ _ Hh) as Hnn. pose proof (geometry_sizes _ Hgeo) as (Hu & Hps & _). pose proof (cells_size_nonneg cs).
  pose proof Hh as (_ & _ & Hhdr & Hco & HnCell & Hcount & _ & Hov & HnFree & Hok & os & f & top & frag & (Hwf & Hp & Hc) & Htop).
  unfold space_left, first_free in *. cbn [app] in Hwf.
  destruct (defragmentPage_spec pBt pPage _ (geometry_limits _ Hgeo) Hk eq_refl space os cs f top frag Hsp Hspl) as
    (d & E & Hwf' & Hp' & Hc' & Hl & Hsame); [lia|done|done|done|done|done|lia|lia|].
  exists (set_data pPage d). split; [done|].
  assert (holds pBt (set_data pPage d) cs) as Hh'.
  { eapply (holds_intro pBt pPage _ cs cs _ [] _ 0 Hh); cbn; try done.
    - rewrite <-Hcount. apply get2byte_ext; apply Hsame; lia.
    - apply Hsame. lia.
    - unfold first_free. lia. }
  split; [by eapply holds_cells|]. pose proof Hwf' as (_ & _ & Hst & _ & _ & Ht & Hf & _).
  split; [exact Hst|]. split; [exact Hf|]. split; [|done]. cbn [aData set_data].
  rewrite (get2byteNotZero_spec _ _ _ Ht) by (apply Z.mod_pos_bound; lia). f_equal.
  destruct (decide (usableSize pBt - cells_size cs = 65536)) as [E0|]; [rewrite E0; change (65536 mod 65536 =? 0) with true; cbn iota; lia|]. rewrite Z.mod_small by lia.
  destruct (Z.eqb_spec (usableSize pBt - cells_size cs) 0); lia.
Qed.

(** the two ways of computing the size of a cell, [xCellSize] and
    [xParseCell], agree for every kind of page and on all bytes, also where a
    cell is cut off by the end of the page. *)
Theorem cellSize_is_parsed k pCell :
  geometry_ok pBt → kind_ok pBt k → bytes_ok pCell → cellSize pBt k pCell = nSize <$> parseCell pBt k pCell.
Proof. intros Hgeo Hk. by apply (cellSize_parseCell pBt k (geometry_limits _ Hgeo) Hk). Qed.

(** C37: what [xParseCell] finds is well formed, whatever the bytes: the
    local part of the payload is within the limits of the page, and the size is
    that of the header, of the local payload and, exactly when the payload
    overflows, of the number of the overflow page. *)
Theorem parseCell_well_formed k pCell info :
  geometry_ok pBt → kind_ok pBt k → bytes_ok pCell → parseCell pBt k pCell = Some info → cellinfo_ok k pCell info.
Proof.
  intros Hgeo Hk Hb. pose proof (geometry_limits _ Hgeo) as Hl. unfold parseCell.
  destruct (kind_cases pBt k Hl Hk) as (_ & Hmax & [(_ & Hc & _ & ->)|[(_ & Hc & ->)|(_ & Hc & _ & ->)]]).
  - unfold btreeParseCellPtr. destruct (payload_size pCell) as [[n q]|] eqn:E; [|done]. cbn [mbind option_bind].
    destruct (payload_size_spec _ _ _ Hb E) as (Hn & h & -> & Hh & _). apply Forall_app in Hb as [_ Hq].
    pose proof (skip_varint_key q Hq) as Hs. destruct (cell_key q) as [[key q']|] eqn:Ek; [|done]. cbn [mbind option_bind]. intros [= <-].
    destruct (skip_varint_spec _ _ _ Hs) as (h' & -> & Hh' & _). rewrite app_assoc.
    apply (finish_parse_ok pBt k Hl Hk); [done|apply s64_range|rewrite length_app; lia].
  - unfold btreeParseCellPtrNoPayload, advance. destruct (Z.leb_spec 4 (len pCell)); [|done]. cbn [mbind option_bind].
    assert (bytes_ok (drop (Z.to_nat 4) pCell)) as Hd by (by apply Forall_drop). rewrite getVarint_spec by done.
    destruct (varint_decode _) as [[n v]|] eqn:E; [|done]. cbn [mbind option_bind]. intros [= <-].
    pose proof (varint_decode_bounds _ _ _ Hd E) as (Hn & _). pose proof (kind_cases pBt k Hl Hk) as (? & _).
    unfold cellinfo_ok. cbn. rewrite wrap_small by (unfold uint; lia). pose proof (s64_range v). unfold uint. split_and!; (done || lia).
  - unfold btreeParseCellPtrIndex. destruct (advance pCell (childPtrSize k)) as [p|] eqn:Ea; [|done]. cbn [mbind option_bind].
    destruct (advance_Some _ _ _ Ea) as (h0 & -> & Hh0 & _). apply Forall_app in Hb as [_ Hp].
    destruct (payload_size p) as [[n q]|] eqn:E; [|done]. cbn [mbind option_bind]. intros [= <-].
    destruct (payload_size_spec _ _ _ Hp E) as (Hn & h & -> & Hh & _). rewrite app_assoc.
    apply (finish_parse_ok pBt k Hl Hk); [done|unfold uint in Hn; lia|rewrite length_app; lia].
Qed.

(** The varints that the parsing of a cell reads inline. The key is what
    [sqlite3GetVarint] reads, on all bytes; the size of the payload is what it
    reads modulo 2^32, as long as the varint has at most eight bytes. *)
Lemma inline_varints p :
  bytes_ok p →
  cell_key p = ('(n, v) ← sqlite3GetVarint p; Some (v, drop (Z.to_nat n) p)) ∧
  ∀ n v, sqlite3GetVarint p = Some (n, v) → n ≤ 8 → payload_size p = Some (u32 v, drop (Z.to_nat n) p).
Proof.
  intros Hp. split; [by apply cell_key_spec|]. intros n v E Hn. rewrite getVarint_spec in E by done.
  unfold varint_decode in E. destruct p as [|b p]; [done|]. apply Forall_cons in Hp as [Hb Hp]. cbn [payload_size].
  rewrite varint_read_S in E. rewrite low_bits by done. destruct (Z.ltb_spec b 128), (Z.leb_spec 0x80 b); try lia.
  - injection E as <- <-. unfold u32. rewrite wrap_small by (unfold uint in *; lia). by replace (0 * 128 + b) with b by lia.
  - change (0 + 1) with 1 in E. change (0 * 128 + (b - 128)) with (b - 128) in E.
    pose proof (varint_read_bounds 7 1 (b - 128) p 64 Hp ltac:(lia)) as Hbd. rewrite E in Hbd.
    destruct Hbd as [Hm _]; [unfold uint in *; lia|].
    pose proof (payload_loop_varint 7 1 (b - 128) p n v Hp E ltac:(lia)) as Hloop.
    unfold u32 in Hloop at 1. rewrite wrap_small in Hloop by (unfold uint in *; lia). rewrite Hloop.
    by replace (Z.to_nat n) with (S (Z.to_nat (n - 1))) by lia.
Qed.
End properties.

(** ** Examples *)

Section examples.
Local Abbreviation M := {| little_endian := true; sizeof_ptr := 8 |}.

(** A database with pages of 512 bytes that zeroes what is deleted and checks
    the cells. *)
Definition bt512 : BtShared := payload_limits 512 512 true true true.

Definition raw_page : MemPage :=
  mkMemPage false (mkPageKind 0 0 0 0 0 0 0 CellSizePtr ParseCellPtr) 2 0 0 0 0 0 [] (replicate 512 255).

Definition pager_space : list Z := replicate 512 77.

(** A leaf of a table: a payload of [n] bytes and a key below 128. *)
Definition leaf_cell (n key : Z) : list Z := [n; key] ++ replicate (Z.to_nat n) (16 * key).

Definition in_space (ops : list page_op) : list (list Z * page_op) := (λ op, (pager_space, op)) <$> ops.

(** Removals and insertions that need a free block, coalescing and at last
    defragmentation. *)
Definition ops512 : list page_op :=
  [Insert 0 (leaf_cell 100 1) 0; Insert 1 (leaf_cell 90 2) 0; Insert 2 (leaf_cell 110 3) 0; Insert 0 (leaf_cell 60 4) 0;
   Drop 1; Insert 2 (leaf_cell 70 5) 0; Drop 0; Insert 2 (leaf_cell 96 6) 0; Insert 1 (leaf_cell 100 7) 0].

Definition cells512 : list (list Z) :=
  [leaf_cell 90 2; leaf_cell 100 7; leaf_cell 70 5; leaf_cell 96 6; leaf_cell 110 3].

Definition page512 : MemPage :=
  default raw_page (p ← zeroPage bt512 raw_page 13; page_run bt512 (H := M) true p (in_space ops512)).

Lemma bt512_geometry : geometry_ok bt512.
Proof. split; [split; [cbn; lia|reflexivity]|]. exists 9. cbn. lia. Qed.

Lemma pager_space_ok : space_ok bt512 pager_space.
Proof. split; [apply Forall_replicate; unfold uint; lia|vm_compute; discriminate]. Qed.

Lemma in_space_ok ops : Forall (λ op, space_ok bt512 op.1) (in_space ops).
Proof. apply Forall_fmap, Forall_true. intros op. apply pager_space_ok. Qed.

(** An interior page of an index, the first page of the file. *)
Definition raw_page1 : MemPage :=
  mkMemPage false (mkPageKind 0 0 0 0 0 0 0 CellSizePtr ParseCellPtr) 1 100 0 0 0 0 [] (replicate 512 255).

Definition index_cell (child n : Z) : list Z := [0; 0; 0; child; n] ++ replicate (Z.to_nat n) n.

Definition ops_index : list page_op :=
  [Insert 0 (index_cell 3 90) 0; Insert 1 (index_cell 4 70) 5; Insert 0 (index_cell 6 80) 0; Drop 1; Insert 1 (index_cell 7 88) 513].

Lemma page_refines_list_witness :
  spec_run bt512 (default (kind raw_page) (decodeFlags bt512 13)) 0 [] ops512 = Some cells512 ∧
  ∃ pPage', (p ← zeroPage bt512 raw_page 13; page_run bt512 (H := M) true p (in_space ops512)) = Some pPage' ∧
    page_cells bt512 pPage' = Some cells512 ∧ nCell pPage' = len cells512 ∧
    nFree pPage' = capacity bt512 (default (kind raw_page) (decodeFlags bt512 13)) 0 - used cells512.
Proof.
  split; [vm_compute; reflexivity|].
  apply (page_refines_list bt512 (H := M) true raw_page 13 _ (in_space ops512) cells512).
  - apply bt512_geometry.
  - apply Forall_replicate. unfold uint. lia.
  - vm_compute. discriminate.
  - by left.
  - unfold uint. lia.
  - reflexivity.
  - apply in_space_ok.
  - vm_compute. reflexivity.
Defined.

Lemma btreeInitPage_reopens_witness :
  btreeInitPage bt512 (unread (default raw_page1 (p ← zeroPage bt512 raw_page1 2; page_run bt512 (H := M) true p (in_space ops_index)))) =
  Some (SQLITE_OK, default raw_page1 (p ← zeroPage bt512 raw_page1 2; page_run bt512 (H := M) true p (in_space ops_index))).
Proof.
  apply (btreeInitPage_reopens bt512 (H := M) true raw_page1 2 (default (kind raw_page) (decodeFlags bt512 2)) (in_space ops_index)
    [index_cell 6 80; [0; 0; 2; 1; 88] ++ replicate 88 88; [0; 0; 0; 5; 70] ++ replicate 70 70]).
  - apply bt512_geometry.
  - apply Forall_replicate. unfold uint. lia.
  - vm_compute. discriminate.
  - by right.
  - unfold uint. lia.
  - reflexivity.
  - apply in_space_ok.
  - vm_compute. reflexivity.
  - vm_compute. reflexivity.
Defined.

Lemma page512_holds : holds bt512 page512 cells512.
Proof.
  destruct (new_page_run bt512 (H := M) true bt512_geometry raw_page 13 (default (kind raw_page) (decodeFlags bt512 13))
    (in_space ops512) cells512) as (p & E & Hh & _).
  - apply Forall_replicate. unfold uint. lia.
  - vm_compute. discriminate.
  - by left.
  - unfold uint. lia.
  - reflexivity.
  - apply in_space_ok.
  - vm_compute. reflexivity.
  - unfold page512. by rewrite E.
Qed.

Lemma insertCell_without_room_witness :
  insertCell bt512 (H := M) true pager_space SQLITE_OK (set_overflow page512 []) 2 (leaf_cell 20 9) 22 0 =
    Some (SQLITE_OK, set_overflow page512 [(2, leaf_cell 20 9)], None) ∧
  insertCell bt512 (H := M) true pager_space 10 (set_overflow page512 []) 2 (leaf_cell 5 9) 7 0 = Some (10, page512, None).
Proof.
  split.
  - refine (insertCell_without_room bt512 (H := M) true pager_space SQLITE_OK page512 cells512 2 (leaf_cell 20 9) 0 []
      bt512_geometry page512_holds eq_refl eq_refl _ _); [cbn; lia|right; left; vm_compute; reflexivity].
  - refine (insertCell_without_room bt512 (H := M) true pager_space 10 page512 cells512 2 (leaf_cell 5 9) 0 []
      bt512_geometry page512_holds eq_refl eq_refl _ _); [cbn; lia|right; right; discriminate].
Defined.

Lemma allocateSpace_freeSpace_witness :
  ∃ pPage' idx, allocateSpace bt512 pager_space page512 12 = Some (SQLITE_OK, pPage', idx) ∧ 20 ≤ idx.
Proof.
  destruct (allocateSpace_freeSpace bt512 pager_space page512 cells512 12 bt512_geometry pager_space_ok page512_holds) as
    (p & idx & E & Hidx & _); [lia|vm_compute; discriminate|]. exists p, idx. split; [exact E|]. exact Hidx.
Defined.

Lemma defragmentPage_packs_witness :
  ∃ pPage', defragmentPage bt512 pager_space page512 = Some (SQLITE_OK, pPage') ∧ page_cells bt512 pPage' = Some cells512.
Proof.
  destruct (defragmentPage_packs bt512 pager_space page512 cells512 bt512_geometry pager_space_ok page512_holds) as (p & E & Hc & _).
  exists p. split; [exact E|exact Hc].
Defined.

Lemma leaf_kind_ok : kind_ok bt512 (default (kind raw_page) (decodeFlags bt512 13)).
Proof. exists 13. split; [unfold uint; lia|reflexivity]. Qed.

(** A payload of 1000 bytes with key 5, and a cell that is cut off. *)
Lemma cellSize_is_parsed_witness :
  cellSize bt512 (default (kind raw_page) (decodeFlags bt512 13)) [0x87; 0x68; 5] =
    nSize <$> parseCell bt512 (default (kind raw_page) (decodeFlags bt512 13)) [0x87; 0x68; 5].
Proof.
  apply (cellSize_is_parsed bt512 _ [0x87; 0x68; 5] bt512_geometry leaf_kind_ok). repeat constructor; unfold uint; lia.
Defined.

Lemma parseCell_well_formed_witness :
  cellinfo_ok (default (kind raw_page) (decodeFlags bt512 13)) [0x87; 0x68; 5] (mkCellInfo 5 (Some []) 1000 39 46).
Proof.
  apply (parseCell_well_formed bt512 _ [0x87; 0x68; 5] _ bt512_geometry leaf_kind_ok); [|vm_compute; reflexivity].
  repeat constructor; unfold uint; lia.
Defined.

(** The inlined size of a payload and the routine that a comment says it is: on
    a value of 2^32 and on nine bytes. *)
Example payload_size_wraps : payload_size [0x90; 0x80; 0x80; 0x80; 0] = Some (0, []) ∧ getVarint32 [0x90; 0x80; 0x80; 0x80; 0] = Some (5, 0xffffffff).
Proof. split; reflexivity. Qed.

(** A page without a cell between the fragment at the start of the cell content
    area and its first free block. *)
Definition ops_fragment : list page_op :=
  [Insert 0 (leaf_cell 40 1) 0; Insert 1 (leaf_cell 20 2) 0; Insert 2 (leaf_cell 2 3) 0; Drop 1; Insert 1 (leaf_cell 17 5) 0;
   Drop 2; Drop 1].

Definition page_fragment : MemPage :=
  default raw_page (p ← zeroPage bt512 raw_page 13; page_run bt512 (H := M) true p (in_space ops_fragment)).

Example fragment_before_free_block :
  page_cells bt512 page_fragment = Some [leaf_cell 40 1] ∧ findCell page_fragment 0 = Some 470 ∧
  get2byte (aData page_fragment) 1 = Some 451 ∧ get2byte (aData page_fragment) 5 = Some 448 ∧ peek (aData page_fragment) 7 = Some 3.
Proof. split_and!; vm_compute; reflexivity. Qed.
End examples.
