(* ===== verification/WalIndex.v ===== *)
(** * Write-ahead log: the wal-index

    The index of the write-ahead log of wal.c (in sqlite3.c): its pages, each an
    array of page numbers with a hash table over it, the search for the frame of
    a page, and how a writer appends frames and takes them back.

    A connection is a [Wal], what all connections share a [Shm]. The outcomes of
    the allocations and of the calls that map a page of shared memory are a list
    of result codes, each call taking the next one. *)
From S2P Require Import Prelude.
From stdpp Require Import gmap.
Local Open Scope Z_scope.

(** ** Constants *)

Definition SQLITE_READONLY : Z := 8.
Definition HASHTABLE_NPAGE : Z := 4096.
Definition HASHTABLE_HASH_1 : Z := 383.
Definition HASHTABLE_NSLOT : Z := HASHTABLE_NPAGE * 2.

(** The size of the header in bytes; that is 34 words. *)
Definition WALINDEX_HDR_SIZE : Z := 136.
Definition HASHTABLE_NPAGE_ONE : Z := HASHTABLE_NPAGE - WALINDEX_HDR_SIZE / 4.
Definition WAL_HEAPMEMORY_MODE : Z := 2.
Definition WAL_SHM_RDONLY : Z := 2.
Definition WAL_NREADER : Z := 5.
Definition READMARK_NOT_USED : Z := 0xffffffff.

(** ** Data *)

(** [aSalt] is the eight bytes of the two salt values, which are big-endian in
    memory too. *)
Record WalIndexHdr := mkWalIndexHdr {
  iVersion : Z;
  unused : Z;
  iChange : Z;
  isInit : Z;
  bigEndCksum : Z;
  hdr_szPage : Z;
  mxFrame : Z;
  nPage : Z;
  aFrameCksum : Z * Z;
  aSalt : list Z;
  aCksum : Z * Z
}.

Record WalCkptInfo := mkWalCkptInfo {
  nBackfill : Z;
  aReadMark : list Z;
  nBackfillAttempted : Z
}.

(** A page of the wal-index: its 32-bit words, of which the first page uses the
    first for the header, and the slots of the hash table. *)
Record IndexPage := mkIndexPage { words : list Z; slots : list Z }.

Definition zero_page : IndexPage :=
  mkIndexPage (replicate (Z.to_nat HASHTABLE_NPAGE) 0) (replicate (Z.to_nat HASHTABLE_NSLOT) 0).

(** The shared part: the two copies of the header, the information for
    checkpoints and the pages. *)
Record Shm := mkShm {
  shm_hdr0 : WalIndexHdr;
  shm_hdr1 : WalIndexHdr;
  ckpt : WalCkptInfo;
  pages : gmap Z IndexPage
}.

(** [apWiData] says which pages are mapped. *)
Record Wal := mkWal {
  hdr : WalIndexHdr;
  minFrame : Z;
  readLock : Z;
  writeLock : bool;
  ckptLock : bool;
  exclusiveMode : Z;
  readOnly : Z;
  wal_szPage : Z;
  iReCksum : Z;
  nCkpt : Z;
  truncateOnCommit : bool;
  syncHeader : bool;
  padToSectorBoundary : bool;
  mxWalSize : Z;
  iCallback : Z;
  apWiData : list bool
}.

Definition set_pages (shm : Shm) (p : gmap Z IndexPage) : Shm := mkShm (shm_hdr0 shm) (shm_hdr1 shm) (ckpt shm) p.

Section setters.
Implicit Types (pWal : Wal) (h : WalIndexHdr).

Definition set_hdr pWal (x : WalIndexHdr) : Wal :=
  mkWal x (minFrame pWal) (readLock pWal) (writeLock pWal) (ckptLock pWal) (exclusiveMode pWal) (readOnly pWal)
    (wal_szPage pWal) (iReCksum pWal) (nCkpt pWal) (truncateOnCommit pWal) (syncHeader pWal)
    (padToSectorBoundary pWal) (mxWalSize pWal) (iCallback pWal) (apWiData pWal).
Definition set_minFrame pWal (x : Z) : Wal :=
  mkWal (hdr pWal) x (readLock pWal) (writeLock pWal) (ckptLock pWal) (exclusiveMode pWal) (readOnly pWal)
    (wal_szPage pWal) (iReCksum pWal) (nCkpt pWal) (truncateOnCommit pWal) (syncHeader pWal)
    (padToSectorBoundary pWal) (mxWalSize pWal) (iCallback pWal) (apWiData pWal).
Definition set_readLock pWal (x : Z) : Wal :=
  mkWal (hdr pWal) (minFrame pWal) x (writeLock pWal) (ckptLock pWal) (exclusiveMode pWal) (readOnly pWal)
    (wal_szPage pWal) (iReCksum pWal) (nCkpt pWal) (truncateOnCommit pWal) (syncHeader pWal)
    (padToSectorBoundary pWal) (mxWalSize pWal) (iCallback pWal) (apWiData pWal).
Definition set_writeLock pWal (x : bool) : Wal :=
  mkWal (hdr pWal) (minFrame pWal) (readLock pWal) x (ckptLock pWal) (exclusiveMode pWal) (readOnly pWal)
    (wal_szPage pWal) (iReCksum pWal) (nCkpt pWal) (truncateOnCommit pWal) (syncHeader pWal)
    (padToSectorBoundary pWal) (mxWalSize pWal) (iCallback pWal) (apWiData pWal).
Definition set_ckptLock pWal (x : bool) : Wal :=
  mkWal (hdr pWal) (minFrame pWal) (readLock pWal) (writeLock pWal) x (exclusiveMode pWal) (readOnly pWal)
    (wal_szPage pWal) (iReCksum pWal) (nCkpt pWal) (truncateOnCommit pWal) (syncHeader pWal)
    (padToSectorBoundary pWal) (mxWalSize pWal) (iCallback pWal) (apWiData pWal).
Definition set_exclusiveMode pWal (x : Z) : Wal :=
  mkWal (hdr pWal) (minFrame pWal) (readLock pWal) (writeLock pWal) (ckptLock pWal) x (readOnly pWal) (wal_szPage pWal)
    (iReCksum pWal) (nCkpt pWal) (truncateOnCommit pWal) (syncHeader pWal) (padToSectorBoundary pWal) (mxWalSize pWal)
    (iCallback pWal) (apWiData pWal).
Definition set_readOnly pWal (x : Z) : Wal :=
  mkWal (hdr pWal) (minFrame pWal) (readLock pWal) (writeLock pWal) (ckptLock pWal) (exclusiveMode pWal) x
    (wal_szPage pWal) (iReCksum pWal) (nCkpt pWal) (truncateOnCommit pWal) (syncHeader pWal)
    (padToSectorBoundary pWal) (mxWalSize pWal) (iCallback pWal) (apWiData pWal).
Definition set_wal_szPage pWal (x : Z) : Wal :=
  mkWal (hdr pWal) (minFrame pWal) (readLock pWal) (writeLock pWal) (ckptLock pWal) (exclusiveMode pWal)
    (readOnly pWal) x (iReCksum pWal) (nCkpt pWal) (truncateOnCommit pWal) (syncHeader pWal)
    (padToSectorBoundary pWal) (mxWalSize pWal) (iCallback pWal) (apWiData pWal).
Definition set_iReCksum pWal (x : Z) : Wal :=
  mkWal (hdr pWal) (minFrame pWal) (readLock pWal) (writeLock pWal) (ckptLock pWal) (exclusiveMode pWal)
    (readOnly pWal) (wal_szPage pWal) x (nCkpt pWal) (truncateOnCommit pWal) (syncHeader pWal)
    (padToSectorBoundary pWal) (mxWalSize pWal) (iCallback pWal) (apWiData pWal).
Definition set_nCkpt pWal (x : Z) : Wal :=
  mkWal (hdr pWal) (minFrame pWal) (readLock pWal) (writeLock pWal) (ckptLock pWal) (exclusiveMode pWal)
    (readOnly pWal) (wal_szPage pWal) (iReCksum pWal) x (truncateOnCommit pWal) (syncHeader pWal)
    (padToSectorBoundary pWal) (mxWalSize pWal) (iCallback pWal) (apWiData pWal).
Definition set_truncateOnCommit pWal (x : bool) : Wal :=
  mkWal (hdr pWal) (minFrame pWal) (readLock pWal) (writeLock pWal) (ckptLock pWal) (exclusiveMode pWal)
    (readOnly pWal) (wal_szPage pWal) (iReCksum pWal) (nCkpt pWal) x (syncHeader pWal) (padToSectorBoundary pWal)
    (mxWalSize pWal) (iCallback pWal) (apWiData pWal).
Definition set_mxWalSize pWal (x : Z) : Wal :=
  mkWal (hdr pWal) (minFrame pWal) (readLock pWal) (writeLock pWal) (ckptLock pWal) (exclusiveMode pWal)
    (readOnly pWal) (wal_szPage pWal) (iReCksum pWal) (nCkpt pWal) (truncateOnCommit pWal) (syncHeader pWal)
    (padToSectorBoundary pWal) x (iCallback pWal) (apWiData pWal).
Definition set_iCallback pWal (x : Z) : Wal :=
  mkWal (hdr pWal) (minFrame pWal) (readLock pWal) (writeLock pWal) (ckptLock pWal) (exclusiveMode pWal)
    (readOnly pWal) (wal_szPage pWal) (iReCksum pWal) (nCkpt pWal) (truncateOnCommit pWal) (syncHeader pWal)
    (padToSectorBoundary pWal) (mxWalSize pWal) x (apWiData pWal).
Definition set_apWiData pWal (x : list bool) : Wal :=
  mkWal (hdr pWal) (minFrame pWal) (readLock pWal) (writeLock pWal) (ckptLock pWal) (exclusiveMode pWal)
    (readOnly pWal) (wal_szPage pWal) (iReCksum pWal) (nCkpt pWal) (truncateOnCommit pWal) (syncHeader pWal)
    (padToSectorBoundary pWal) (mxWalSize pWal) (iCallback pWal) x.
Definition set_iVersion h (x : Z) : WalIndexHdr :=
  mkWalIndexHdr x (unused h) (iChange h) (isInit h) (bigEndCksum h) (hdr_szPage h) (mxFrame h) (nPage h)
    (aFrameCksum h) (aSalt h) (aCksum h).
Definition set_iChange h (x : Z) : WalIndexHdr :=
  mkWalIndexHdr (iVersion h) (unused h) x (isInit h) (bigEndCksum h) (hdr_szPage h) (mxFrame h) (nPage h)
    (aFrameCksum h) (aSalt h) (aCksum h).
Definition set_isInit h (x : Z) : WalIndexHdr :=
  mkWalIndexHdr (iVersion h) (unused h) (iChange h) x (bigEndCksum h) (hdr_szPage h) (mxFrame h) (nPage h)
    (aFrameCksum h) (aSalt h) (aCksum h).
Definition set_bigEndCksum h (x : Z) : WalIndexHdr :=
  mkWalIndexHdr (iVersion h) (unused h) (iChange h) (isInit h) x (hdr_szPage h) (mxFrame h) (nPage h) (aFrameCksum h)
    (aSalt h) (aCksum h).
Definition set_hdr_szPage h (x : Z) : WalIndexHdr :=
  mkWalIndexHdr (iVersion h) (unused h) (iChange h) (isInit h) (bigEndCksum h) x (mxFrame h) (nPage h) (aFrameCksum h)
    (aSalt h) (aCksum h).
Definition set_mxFrame h (x : Z) : WalIndexHdr :=
  mkWalIndexHdr (iVersion h) (unused h) (iChange h) (isInit h) (bigEndCksum h) (hdr_szPage h) x (nPage h)
    (aFrameCksum h) (aSalt h) (aCksum h).
Definition set_nPage h (x : Z) : WalIndexHdr :=
  mkWalIndexHdr (iVersion h) (unused h) (iChange h) (isInit h) (bigEndCksum h) (hdr_szPage h) (mxFrame h) x
    (aFrameCksum h) (aSalt h) (aCksum h).
Definition set_aFrameCksum h (x : Z * Z) : WalIndexHdr :=
  mkWalIndexHdr (iVersion h) (unused h) (iChange h) (isInit h) (bigEndCksum h) (hdr_szPage h) (mxFrame h) (nPage h) x
    (aSalt h) (aCksum h).
Definition set_aSalt h (x : list Z) : WalIndexHdr :=
  mkWalIndexHdr (iVersion h) (unused h) (iChange h) (isInit h) (bigEndCksum h) (hdr_szPage h) (mxFrame h) (nPage h)
    (aFrameCksum h) x (aCksum h).
Definition set_aCksum h (x : Z * Z) : WalIndexHdr :=
  mkWalIndexHdr (iVersion h) (unused h) (iChange h) (isInit h) (bigEndCksum h) (hdr_szPage h) (mxFrame h) (nPage h)
    (aFrameCksum h) (aSalt h) x.
End setters.

(** The next outcome; success when none are left. *)
Definition next_rc (o : list Z) : Z * list Z := match o with [] => (SQLITE_OK, []) | rc :: o => (rc, o) end.

(** [l[i]]. *)
Definition get (l : list Z) (i : Z) : option Z := if i <? 0 then None else l !! Z.to_nat i.

(** ** Pages *)

Section index.
Implicit Types (pWal : Wal) (shm : Shm) (o : list Z).

Definition nWiData pWal : Z := Z.of_nat (length (apWiData pWal)).
Definition is_mapped pWal (i : Z) : bool := default false (apWiData pWal !! Z.to_nat i).
Definition map_page pWal (i : Z) : Wal := set_apWiData pWal (<[Z.to_nat i := true]> (apWiData pWal)).

(** The page that the pointer [apWiData[i]] points to, nothing if it is null. *)
Definition page_at pWal shm (i : Z) : option IndexPage := if is_mapped pWal i then pages shm !! i else None.

(** Enlarging the array of pages, the first step of [walIndexPage]. *)
Definition enlarge pWal (iPage : Z) o : Z * Wal * list Z :=
  if nWiData pWal <=? iPage then
    let '(rc, o) := next_rc o in
    if rc =? SQLITE_OK
    then (SQLITE_OK, set_apWiData pWal (apWiData pWal ++ replicate (Z.to_nat (iPage + 1 - nWiData pWal)) false), o)
    else (SQLITE_NOMEM, pWal, o)
  else (SQLITE_OK, pWal, o).

(** The call of [sqlite3OsShmMap], or of [sqlite3MallocZero] if the index is in
    the memory of the connection. [sqlite3OsShmMap] gives zeros for a page that
    it creates, which it does for a writer; for others the pointer to a page
    that does not exist is null. *)
Definition request_page pWal shm (iPage : Z) o : Z * Wal * Shm * list Z :=
  let '(rc, o) := next_rc o in
  if exclusiveMode pWal =? WAL_HEAPMEMORY_MODE then
    if rc =? SQLITE_OK
    then (SQLITE_OK, map_page pWal iPage, set_pages shm (<[iPage := zero_page]> (pages shm)), o)
    else (SQLITE_NOMEM, pWal, shm, o)
  else if (rc =? SQLITE_OK) || (rc =? SQLITE_READONLY) then
    let pWal := if rc =? SQLITE_READONLY then set_readOnly pWal (Z.lor (readOnly pWal) WAL_SHM_RDONLY) else pWal in
    match pages shm !! iPage with
    | Some _ => (SQLITE_OK, map_page pWal iPage, shm, o)
    | None =>
      if writeLock pWal then (SQLITE_OK, map_page pWal iPage, set_pages shm (<[iPage := zero_page]> (pages shm)), o)
      else (SQLITE_OK, pWal, shm, o)
    end
  else (rc, pWal, shm, o).

Definition walIndexPage pWal shm (iPage : Z) o : Z * Wal * Shm * list Z :=
  let '(rc, pWal, o) := enlarge pWal iPage o in
  if negb (rc =? SQLITE_OK) then (rc, pWal, shm, o)
  else if is_mapped pWal iPage then (SQLITE_OK, pWal, shm, o)
  else request_page pWal shm iPage o.

(** ** The hash table *)

Definition walHash (iPage : Z) : Z := Z.land (u32 (iPage * HASHTABLE_HASH_1)) (HASHTABLE_NSLOT - 1).
Definition walNextHash (iPriorHash : Z) : Z := Z.land (iPriorHash + 1) (HASHTABLE_NSLOT - 1).

(** [&aPgno[1]] in the words of page [iHash], and [iZero]. *)
Definition pgno_offset (iHash : Z) : Z := if iHash =? 0 then WALINDEX_HDR_SIZE / 4 else 0.
Definition table_zero (iHash : Z) : Z :=
  if iHash =? 0 then 0 else u32 (HASHTABLE_NPAGE_ONE + (iHash - 1) * HASHTABLE_NPAGE).

(** The pointers that the function returns are the page, with [pgno_offset] and
    [table_zero] of its number. *)
Definition walHashGet pWal shm (iHash : Z) o : Z * Wal * Shm * list Z := walIndexPage pWal shm iHash o.

Definition walFramePage (iFrame : Z) : Z := (iFrame + HASHTABLE_NPAGE - HASHTABLE_NPAGE_ONE - 1) / HASHTABLE_NPAGE.

Definition walFramePgno pWal shm (iFrame : Z) : option Z :=
  let iHash := walFramePage iFrame in
  p ← page_at pWal shm iHash;
  if iHash =? 0 then get (words p) (WALINDEX_HDR_SIZE / 4 + iFrame - 1)
  else get (words p) ((iFrame - 1 - HASHTABLE_NPAGE_ONE) `mod` HASHTABLE_NPAGE).

(** [aPgno[j]]. *)
Definition pgno_get (iHash : Z) (p : IndexPage) (j : Z) : option Z := get (words p) (pgno_offset iHash + j - 1).

(** Setting the words from [aPgno[j]] on to zero. *)
Definition zero_words (iHash : Z) (p : IndexPage) (j : Z) : option (list Z) :=
  let k := pgno_offset iHash + j - 1 in
  if (0 <=? k) && (k <=? Z.of_nat (length (words p)))
  then Some (take (Z.to_nat k) (words p) ++ replicate (length (words p) - Z.to_nat k) 0) else None.

(** The page after [walCleanupHash]. *)
Definition cleanup_page (iHash : Z) (p : IndexPage) (iLimit : Z) : option IndexPage :=
  w ← zero_words iHash p (iLimit + 1);
  Some (mkIndexPage w ((λ v, if iLimit <? v then 0 else v) <$> slots p)).

Definition walCleanupHash pWal shm o : option (Wal * Shm * list Z) :=
  if mxFrame (hdr pWal) =? 0 then Some (pWal, shm, o)
  else
    let iHash := walFramePage (mxFrame (hdr pWal)) in
    let '(_, pWal, shm, o) := walHashGet pWal shm iHash o in
    p ← page_at pWal shm iHash;
    let iLimit := mxFrame (hdr pWal) - table_zero iHash in
    p ← cleanup_page iHash p iLimit;
    Some (pWal, set_pages shm (<[iHash := p]> (pages shm)), o).

(** [for(iKey=...; aHash[iKey]; ...)]: the first free slot, or nothing after
    more than [nCollide] collisions. *)
Fixpoint probe_loop (nCollide : nat) (aHash : list Z) (iKey : Z) : option (option Z) :=
  v ← get aHash iKey;
  if v =? 0 then Some (Some iKey)
  else match nCollide with O => Some None | S n => probe_loop n aHash (walNextHash iKey) end.

(** [aPgno[idx] = iPage]. *)
Definition set_aPgno (iHash : Z) (p : IndexPage) (idx iPage : Z) : IndexPage :=
  mkIndexPage (<[Z.to_nat (pgno_offset iHash + idx - 1) := iPage]> (words p)) (slots p).

(** [aHash[iKey] = (ht_slot)idx]. *)
Definition set_aHash (p : IndexPage) (iKey idx : Z) : IndexPage :=
  mkIndexPage (words p) (<[Z.to_nat iKey := wrap 16 idx]> (slots p)).

(** The last two lines are the two stores, to memory that others share. *)
Definition walIndexAppend pWal shm (iFrame iPage : Z) o : option (Z * Wal * Shm * list Z) :=
  let iHash := walFramePage iFrame in
  let '(rc, pWal, shm, o) := walHashGet pWal shm iHash o in
  if negb (rc =? SQLITE_OK) then Some (rc, pWal, shm, o)
  else
    let idx := iFrame - table_zero iHash in
    p ← page_at pWal shm iHash;
    p ← (if idx =? 1 then
           w ← zero_words iHash p 1; Some (mkIndexPage w (replicate (length (slots p)) 0))
         else Some p);
    let shm := set_pages shm (<[iHash := p]> (pages shm)) in
    v ← pgno_get iHash p idx;
    '(pWal, shm, o) ← (if negb (v =? 0) then walCleanupHash pWal shm o else Some (pWal, shm, o));
    p ← page_at pWal shm iHash;
    found ← probe_loop (Z.to_nat idx) (slots p) (walHash iPage);
    match found with
    | None => Some (SQLITE_CORRUPT, pWal, shm, o)
    | Some iKey =>
      let shm := set_pages shm (<[iHash := set_aPgno iHash p idx iPage]> (pages shm)) in
      p ← page_at pWal shm iHash;
      Some (SQLITE_OK, pWal, set_pages shm (<[iHash := set_aHash p iKey idx]> (pages shm)), o)
    end.

(** ** The search *)

(** The loop over the slots of one table: nothing after more than [nCollide]
    collisions, or the frame. *)
Fixpoint find_loop (nCollide : nat) pWal (iHash : Z) (p : IndexPage) (pgno iKey iRead : Z) : option (option Z) :=
  v ← get (slots p) iKey;
  if v =? 0 then Some (Some iRead)
  else
    let iFrame := u32 (v + table_zero iHash) in
    iRead ← (if (iFrame <=? mxFrame (hdr pWal)) && (minFrame pWal <=? iFrame) then
               q ← pgno_get iHash p v; Some (if q =? pgno then iFrame else iRead)
             else Some iRead);
    match nCollide with O => Some None | S n => find_loop n pWal iHash p pgno (walNextHash iKey) iRead end.

Definition find_table pWal (iHash : Z) (p : IndexPage) (pgno : Z) : option (option Z) :=
  find_loop (Z.to_nat HASHTABLE_NSLOT) pWal iHash p pgno (walHash pgno) 0.

(** The loop over [n] tables, from [iHash] down. [*piRead] is not written if
    there is an error. *)
Fixpoint find_tables (n : nat) pWal shm (pgno iHash : Z) o : option (Z * option Z * Wal * Shm * list Z) :=
  match n with
  | O => Some (SQLITE_OK, Some 0, pWal, shm, o)
  | S n =>
    let '(rc, pWal, shm, o) := walHashGet pWal shm iHash o in
    if negb (rc =? SQLITE_OK) then Some (rc, None, pWal, shm, o)
    else
      p ← page_at pWal shm iHash;
      r ← find_table pWal iHash p pgno;
      match r with
      | None => Some (SQLITE_CORRUPT, None, pWal, shm, o)
      | Some iRead =>
        if iRead =? 0 then find_tables n pWal shm pgno (iHash - 1) o else Some (SQLITE_OK, Some iRead, pWal, shm, o)
      end
  end.

(** The result code and the frame, 0 if the page is not in the log. *)
Definition sqlite3WalFindFrame pWal shm (pgno : Z) o : option (Z * option Z * Wal * Shm * list Z) :=
  let iLast := mxFrame (hdr pWal) in
  if (iLast =? 0) || (readLock pWal =? 0) then Some (SQLITE_OK, Some 0, pWal, shm, o)
  else
    let iMinHash := walFramePage (minFrame pWal) in
    find_tables (Z.to_nat (walFramePage iLast - iMinHash + 1)) pWal shm pgno (walFramePage iLast) o.

(** The linear search that [SQLITE_ENABLE_EXPENSIVE_ASSERT] compares with, of at
    most [n] frames from [iTest] down. *)
Fixpoint linear_search (n : nat) pWal shm (pgno iTest : Z) : option Z :=
  match n with
  | O => Some 0
  | S n =>
    if minFrame pWal <=? iTest then
      q ← walFramePgno pWal shm iTest;
      if q =? pgno then Some iTest else linear_search n pWal shm pgno (iTest - 1)
    else Some 0
  end.

(** ** Taking frames back *)

(** The calls of [xUndo] on the frames from [iFrame] to [iMax], [n] of them. *)
Fixpoint undo_loop {C} (n : nat) (xUndo : C → Z → Z * C) (ctx : C) pWal shm (iFrame : Z) : option (Z * C) :=
  match n with
  | O => Some (SQLITE_OK, ctx)
  | S n =>
    pgno ← walFramePgno pWal shm iFrame;
    let '(rc, ctx) := xUndo ctx pgno in
    if rc =? SQLITE_OK then undo_loop n xUndo ctx pWal shm (iFrame + 1) else Some (rc, ctx)
  end.

Definition sqlite3WalUndo {C} (xUndo : C → Z → Z * C) (ctx : C) pWal shm o : option (Z * C * Wal * Shm * list Z) :=
  if writeLock pWal then
    let iMax := mxFrame (hdr pWal) in
    let pWal := set_hdr pWal (shm_hdr0 shm) in
    '(rc, ctx) ← undo_loop (Z.to_nat (iMax - mxFrame (hdr pWal))) xUndo ctx pWal shm (mxFrame (hdr pWal) + 1);
    '(pWal, shm, o) ← (if negb (iMax =? mxFrame (hdr pWal)) then walCleanupHash pWal shm o else Some (pWal, shm, o));
    Some (rc, ctx, pWal, shm, o)
  else Some (SQLITE_OK, ctx, pWal, shm, o).

(** The four values of [aWalData]. *)
Definition sqlite3WalSavepoint pWal : Z * (Z * Z) * Z := (mxFrame (hdr pWal), aFrameCksum (hdr pWal), nCkpt pWal).

(** The second component is [aWalData] afterwards. *)
Definition sqlite3WalSavepointUndo pWal shm (aWalData : Z * (Z * Z) * Z) o : option (Z * (Z * (Z * Z) * Z) * Wal * Shm * list Z) :=
  let aWalData := if negb (aWalData.2 =? nCkpt pWal) then (0, aWalData.1.2, nCkpt pWal) else aWalData in
  if aWalData.1.1 <? mxFrame (hdr pWal) then
    let pWal := set_hdr pWal (set_aFrameCksum (set_mxFrame (hdr pWal) aWalData.1.1) aWalData.1.2) in
    '(pWal, shm, o) ← walCleanupHash pWal shm o; Some (SQLITE_OK, aWalData, pWal, shm, o)
  else Some (SQLITE_OK, aWalData, pWal, shm, o).
End index.
