(* ===== verification/WalLog.v ===== *)
(** * Write-ahead log: the wal-index as a log

    First the invariant of one page of the wal-index: which entries its hash table
    holds, and that following the slots from the hash of a page number meets only
    older entries before the entry itself. Then the pages together, which hold the
    page numbers of the frames, the log; beyond it is whatever a writer that
    crashed has left behind, a page number without its slot included. [walIndexAppend] adds a frame, [walCleanupHash]
    cuts the log, and [sqlite3WalFindFrame] searches it. *)
From S2P Require Import Prelude WalIndex.
From stdpp Require Import gmap.
Local Open Scope Z_scope.

Abbreviation len l := (Z.of_nat (length l)).

Definition capacity_of (k : Z) : Z := if k =? 0 then HASHTABLE_NPAGE_ONE else HASHTABLE_NPAGE.

(** The slot [d] steps after the hash [h]. *)
Definition slot_at (p : IndexPage) (h d : Z) : option Z := slots p !! Z.to_nat ((h + d) `mod` 8192).

Definition shape (p : IndexPage) : Prop := len (words p) = 4096 ∧ len (slots p) = 8192.

(** The slot of the entry [j] is reached from its hash by older entries. *)
Definition reached (p : IndexPage) (e : list Z) (j : Z) (q : Z) : Prop :=
  ∃ d, 0 ≤ d < 8192 ∧ slot_at p (walHash q) d = Some j ∧
    ∀ d', 0 ≤ d' < d → ∃ v, slot_at p (walHash q) d' = Some v ∧ 1 ≤ v < j.

(** The table [k] has the entries [e], the page numbers of its frames in order. *)
Definition table_ok (k : Z) (p : IndexPage) (e : list Z) : Prop :=
  shape p ∧ len e ≤ capacity_of k ∧ Forall (λ q, 0 < q < 2 ^ 32) e ∧
  (∀ j, 1 ≤ j ≤ capacity_of k → pgno_get k p j = Some (default 0 (e !! Z.to_nat (j - 1)))) ∧
  (∀ s v, slots p !! s = Some v → v = 0 ∨ 1 ≤ v ≤ len e) ∧
  (∀ s s' v, slots p !! s = Some v → slots p !! s' = Some v → v = 0 ∨ s = s') ∧
  ∀ j q, 1 ≤ j → e !! Z.to_nat (j - 1) = Some q → reached p e j q.

(** The table [k] has the entries [e] and perhaps remains of others: words after
    them that have any value, and slots that have any numbers after theirs, each
    at most once. If the word after the entries is zero there are no remains. *)
Definition holds (k : Z) (p : IndexPage) (e : list Z) : Prop :=
  shape p ∧ len e ≤ capacity_of k ∧ Forall (λ q, 0 < q < 2 ^ 32) e ∧
  (∀ j, 1 ≤ j ≤ len e → pgno_get k p j = e !! Z.to_nat (j - 1)) ∧
  (∀ s v, slots p !! s = Some v → 0 ≤ v ≤ capacity_of k) ∧
  (∀ s s' v, slots p !! s = Some v → slots p !! s' = Some v → v = 0 ∨ s = s') ∧
  (∀ j q, 1 ≤ j → e !! Z.to_nat (j - 1) = Some q → reached p e j q) ∧
  (len e < capacity_of k → pgno_get k p (len e + 1) = Some 0 → table_ok k p e).

Section table.
Implicit Types (p : IndexPage) (e : list Z) (h d k j q v : Z).

Lemma capacity_bounds k : 4062 ≤ capacity_of k ≤ 4096.
Proof. unfold capacity_of. change HASHTABLE_NPAGE_ONE with 4062. change HASHTABLE_NPAGE with 4096. destruct (k =? 0); lia. Qed.

Lemma offset_capacity k : pgno_offset k + capacity_of k = 4096 ∧ 0 ≤ pgno_offset k.
Proof.
  unfold capacity_of, pgno_offset. change HASHTABLE_NPAGE_ONE with 4062. change HASHTABLE_NPAGE with 4096.
  change (WALINDEX_HDR_SIZE / 4) with 34. destruct (k =? 0); lia.
Qed.

Lemma walHash_range q : 0 ≤ walHash q < 8192.
Proof. unfold walHash. change (HASHTABLE_NSLOT - 1) with (Z.ones 13). rewrite Z.land_ones by lia. apply Z.mod_pos_bound. lia. Qed.

Lemma walNextHash_step h d : 0 ≤ h → 0 ≤ d → walNextHash ((h + d) mod 8192) = (h + (d + 1)) mod 8192.
Proof.
  intros. unfold walNextHash. change (HASHTABLE_NSLOT - 1) with (Z.ones 13). rewrite Z.land_ones by lia.
  change (2 ^ 13) with 8192. rewrite Zplus_mod_idemp_l. f_equal. lia.
Qed.

Lemma slot_get p h d : get (slots p) ((h + d) mod 8192) = slot_at p h d.
Proof. unfold get, slot_at. pose proof (Z.mod_pos_bound (h + d) 8192 ltac:(lia)). by destruct (Z.ltb_spec ((h + d) mod 8192) 0); [lia|]. Qed.

Lemma slot_is_Some p h d : shape p → ∃ v, slot_at p h d = Some v.
Proof.
  intros [_ Hs]. unfold slot_at. apply lookup_lt_is_Some. pose proof (Z.mod_pos_bound (h + d) 8192 ltac:(lia)). lia.
Qed.

(** Two steps less than a round apart are two slots. *)
Lemma slot_distinct h d d' : 0 ≤ d < 8192 → 0 ≤ d' < 8192 → Z.to_nat ((h + d) mod 8192) = Z.to_nat ((h + d') mod 8192) → d = d'.
Proof.
  intros Hd Hd' E. pose proof (Z.mod_pos_bound (h + d) 8192 ltac:(lia)). pose proof (Z.mod_pos_bound (h + d') 8192 ltac:(lia)).
  assert ((h + d) mod 8192 = (h + d') mod 8192) as E' by lia.
  pose proof (Z.div_mod (h + d) 8192 ltac:(lia)). pose proof (Z.div_mod (h + d') 8192 ltac:(lia)). lia.
Qed.

(** ** The first free slot *)

Definition first_free_at p h (D : Z) : Prop :=
  0 ≤ D < 8192 ∧ slot_at p h D = Some 0 ∧ ∀ d, 0 ≤ d < D → ∃ v, slot_at p h d = Some v ∧ v ≠ 0.

(** Slots with distinct numbers up to [n] leave one free within [n] steps. *)
Lemma free_within p h n : shape p → 0 ≤ n < 8192 →
  (∀ s v, slots p !! s = Some v → 0 ≤ v ≤ n) →
  (∀ s s' v, slots p !! s = Some v → slots p !! s' = Some v → v = 0 ∨ s = s') →
  ∃ D, first_free_at p h D ∧ D ≤ n.
Proof.
  intros Hsh Hn Hval Hinj.
  assert (∀ i : nat, Z.of_nat i ≤ n + 1 → (∃ D, first_free_at p h D ∧ D ≤ n) ∨
    (∀ d, 0 ≤ d < Z.of_nat i → ∃ v, slot_at p h d = Some v ∧ v ≠ 0)) as Hscan.
  { induction i as [|i IH]; intros Hi; [right; lia|]. destruct IH as [?|Hall]; [lia|by left|].
    destruct (slot_is_Some p h (Z.of_nat i) Hsh) as [v Hv]. destruct (decide (v = 0)) as [->|Hne].
    - left. exists (Z.of_nat i). split; [|lia]. split; [lia|]. split; [done|]. intros d Hd. apply Hall. lia.
    - right. intros d Hd. destruct (decide (d = Z.of_nat i)) as [->|]; [by exists v|]. apply Hall. lia. }
  destruct (Hscan (Z.to_nat (n + 1))) as [?|Hall]; [lia|done|]. exfalso.
  set (f := λ d, default 0 (slot_at p h d)). set (l := f <$> seqZ 0 (n + 1)).
  assert (∀ d, 0 ≤ d < n + 1 → slot_at p h d = Some (f d) ∧ 1 ≤ f d ≤ n) as Hf.
  { intros d Hd. destruct (Hall d) as (v & Hv & Hne); [lia|]. unfold f. rewrite Hv. split; [done|]. cbn.
    pose proof (Hval _ _ Hv). lia. }
  assert (length l ≤ length (seqZ 1 n))%nat as Hle.
  { apply submseteq_length, NoDup_submseteq.
    - apply NoDup_fmap_2_strong; [|apply NoDup_seqZ]. intros x y Hx%elem_of_seqZ Hy%elem_of_seqZ E.
      destruct (Hf x) as [Ex Bx]; [lia|]. destruct (Hf y) as [Ey By]; [lia|]. rewrite E in Ex.
      destruct (Hinj _ _ _ Ex Ey) as [?|Es]; [lia|]. apply (slot_distinct h); [lia|lia|exact Es].
    - intros v (d & -> & Hd%elem_of_seqZ)%list_elem_of_fmap. apply elem_of_seqZ. destruct (Hf d); lia. }
  unfold l in Hle. rewrite length_fmap, !length_seqZ in Hle. lia.
Qed.

Lemma first_free_exists k p e h : table_ok k p e → ∃ D, first_free_at p h D ∧ D ≤ len e.
Proof.
  intros (Hsh & Hcap & _ & _ & Hval & Hinj & _). pose proof (capacity_bounds k) as Hc.
  apply free_within; [done|lia| |done]. intros s v Hv. destruct (Hval s v Hv); lia.
Qed.

(** The first entries of a table, the others being remains. *)
Lemma table_holds k p e g : table_ok k p (e ++ g) → holds k p e.
Proof.
  intros Hok. pose proof Hok as (Hsh & Hcap & Hpos & Hget & Hval & Hinj & Hreach). rewrite length_app in *.
  apply Forall_app in Hpos as [Hpe Hpg]. split; [done|]. split; [lia|]. split; [done|]. split; [|split; [|split; [done|split]]].
  - intros j Hj. rewrite Hget, lookup_app_l by lia. destruct (lookup_lt_is_Some_2 e (Z.to_nat (j - 1))) as [v ->]; [lia|done].
  - intros s v Hv. destruct (Hval s v Hv); lia.
  - intros j q Hj Hq. destruct (Hreach j q Hj) as (d & Hd & Hs & Hb); [by apply lookup_app_l_Some|by exists d].
  - intros Hlt E. rewrite Hget, lookup_app_r in E by lia. replace (Z.to_nat (len e + 1 - 1) - length e)%nat with 0%nat in E by lia.
    destruct g as [|q g]; [by rewrite app_nil_r in Hok|]. apply Forall_cons in Hpg as [Hq _]. injection E as E. cbn in E. lia.
Qed.

Lemma table_holds_all k p e : table_ok k p e → holds k p e.
Proof. intros Hok. apply (table_holds k p e []). by rewrite app_nil_r. Qed.

Lemma holds_clean k p e : holds k p e → pgno_get k p (len e + 1) = Some 0 → len e < capacity_of k → table_ok k p e.
Proof. intros (_ & _ & _ & _ & _ & _ & _ & H) E Hlt. by apply H. Qed.

(** A full table has no remains. *)
Lemma holds_full k p e : holds k p e → len e = capacity_of k → table_ok k p e.
Proof.
  intros (Hsh & Hcap & Hpos & Hget & Hval & Hinj & Hreach & _) Hl. split; [done|]. split; [done|]. split; [done|].
  split; [|split; [|by split]].
  - intros j Hj. rewrite Hget by lia. destruct (lookup_lt_is_Some_2 e (Z.to_nat (j - 1))) as [v ->]; [lia|done].
  - intros s v Hv. pose proof (Hval s v Hv). lia.
Qed.

Lemma probe_loop_spec (n : nat) p h d D :
  first_free_at p h D → 0 ≤ h → 0 ≤ d ≤ D → D - d ≤ Z.of_nat n →
  probe_loop n (slots p) ((h + d) mod 8192) = Some (Some ((h + D) mod 8192)).
Proof.
  intros (HD & H0 & Hall) Hh. revert d. induction n as [|n IH]; intros d Hd Hn; cbn [probe_loop]; rewrite slot_get.
  - assert (d = D) as -> by lia. rewrite H0. done.
  - destruct (decide (d = D)) as [->|]; [by rewrite H0|]. destruct (Hall d) as (v & -> & Hv); [lia|].
    cbn [mbind option_bind]. destruct (Z.eqb_spec v 0); [done|]. rewrite walNextHash_step by lia. apply IH; lia.
Qed.

(** ** Words *)

Lemma pgno_get_lookup k p j : 1 ≤ j → pgno_get k p j = words p !! Z.to_nat (pgno_offset k + j - 1).
Proof. intros Hj. pose proof (offset_capacity k) as [_ ?]. unfold pgno_get, get. by destruct (Z.ltb_spec (pgno_offset k + j - 1) 0); [lia|]. Qed.

Lemma zero_words_spec k p j :
  shape p → 1 ≤ j ≤ capacity_of k + 1 →
  ∃ w, zero_words k p j = Some w ∧ len w = 4096 ∧
    ∀ i, 1 ≤ i ≤ capacity_of k → w !! Z.to_nat (pgno_offset k + i - 1) = if i <? j then pgno_get k p i else Some 0.
Proof.
  intros [Hw _] Hj. pose proof (offset_capacity k) as [Hoc Ho]. unfold zero_words. rewrite Hw.
  destruct (Z.leb_spec 0 (pgno_offset k + j - 1)); [|lia]. destruct (Z.leb_spec (pgno_offset k + j - 1) 4096); [|lia].
  cbn [andb]. eexists. split; [done|]. split.
  - rewrite length_app, length_take, length_replicate. lia.
  - intros i Hi. rewrite pgno_get_lookup by lia. destruct (Z.ltb_spec i j).
    + rewrite lookup_app_l by (rewrite length_take; lia). by rewrite lookup_take_lt by lia.
    + rewrite lookup_app_r by (rewrite length_take; lia). rewrite length_take. apply lookup_replicate_2. lia.
Qed.

(** ** The operations *)

(** A table that is set to zero has no entries. *)
Lemma zeroed_ok k p w :
  shape p → zero_words k p 1 = Some w → table_ok k (mkIndexPage w (replicate (length (slots p)) 0)) [].
Proof.
  intros Hsh Hz. pose proof (capacity_bounds k) as Hc. destruct (zero_words_spec k p 1 Hsh) as (w' & E & Hl & Hget); [lia|].
  rewrite Hz in E. injection E as <-. split; [split; [done|]; cbn; rewrite length_replicate; apply Hsh|].
  split; [cbn; lia|]. split; [constructor|]. split; [|split; [|split]].
  - intros j Hj. rewrite pgno_get_lookup by lia. cbn [words]. rewrite Hget by done. destruct (Z.ltb_spec j 1); [lia|done].
  - intros s v Hs. apply lookup_replicate in Hs as [-> _]. by left.
  - intros s s' v Hs _. apply lookup_replicate in Hs as [-> _]. by left.
  - intros j q _ Hq. by rewrite lookup_nil in Hq.
Qed.

Lemma zero_page_ok k : table_ok k zero_page [].
Proof.
  assert (shape zero_page) as Hsh by (split; cbn [words slots zero_page]; rewrite length_replicate; reflexivity).
  pose proof (offset_capacity k) as [Hoc Ho].
  split; [done|]. split; [pose proof (capacity_bounds k); cbn; lia|]. split; [constructor|]. split; [|split; [|split]].
  - intros j Hj. rewrite pgno_get_lookup by lia. rewrite lookup_nil. apply lookup_replicate_2. change HASHTABLE_NPAGE with 4096. lia.
  - intros s v Hs. apply lookup_replicate in Hs as [-> _]. by left.
  - intros s s' v Hs _. apply lookup_replicate in Hs as [-> _]. by left.
  - intros j q _ Hq. by rewrite lookup_nil in Hq.
Qed.

Lemma append_ok k p e q D :
  table_ok k p e → first_free_at p (walHash q) D → len e < capacity_of k → 0 < q < 2 ^ 32 →
  table_ok k (set_aHash (set_aPgno k p (len e + 1) q) ((walHash q + D) mod 8192) (len e + 1)) (e ++ [q]).
Proof.
  unfold set_aHash, set_aPgno. cbn [words slots].
  intros (Hsh & Hcap & Hpos & Hget & Hval & Hinj & Hreach) (HD & H0 & Hall) Hlt Hq.
  pose proof (capacity_bounds k) as Hc. pose proof (offset_capacity k) as [Hoc Ho]. destruct Hsh as [Hw Hs].
  rewrite u16_small by lia. set (s := Z.to_nat ((walHash q + D) mod 8192)).
  assert (Z.of_nat s < 8192) as Hsl by (pose proof (Z.mod_pos_bound (walHash q + D) 8192 ltac:(lia)); lia).
  set (p' := mkIndexPage _ _).
  assert (∀ h d v, slot_at p h d = Some v → v ≠ 0 → slot_at p' h d = Some v) as Hkeep.
  { intros h d v Hv Hne. unfold slot_at in *. cbn [slots p']. rewrite list_lookup_insert_ne; [done|]. intros E.
    rewrite <-E in Hv. unfold slot_at in H0. fold s in H0. rewrite H0 in Hv. congruence. }
  assert (len (e ++ [q]) = len e + 1) as Hlen by (rewrite length_app; cbn; lia).
  split; [split; cbn; by rewrite length_insert|]. split; [lia|]. split; [by apply Forall_app_2; [|constructor]|]. rewrite Hlen.
  split; [|split; [|split]].
  - intros j Hj. rewrite pgno_get_lookup by lia. cbn [words p']. destruct (decide (j = len e + 1)) as [->|Hne].
    + rewrite list_lookup_insert_eq by lia. rewrite lookup_app_r by lia. by replace (Z.to_nat (len e + 1 - 1) - length e)%nat with 0%nat by lia.
    + rewrite list_lookup_insert_ne by lia. rewrite <-pgno_get_lookup, Hget by lia. destruct (Z.lt_ge_cases j (len e + 1)).
      * by rewrite lookup_app_l by lia.
      * rewrite !lookup_ge_None_2; [done|rewrite length_app; cbn; lia|lia].
  - intros i v Hi. cbn [slots p'] in Hi. apply list_lookup_insert_Some in Hi as [(_ & <- & _)|[_ Hi]]; [right; lia|].
    destruct (Hval _ _ Hi); [by left|right; lia].
  - intros i i' v Hi Hi'. cbn [slots p'] in Hi, Hi'.
    apply list_lookup_insert_Some in Hi as [(<- & <- & _)|[Hne Hi]]; apply list_lookup_insert_Some in Hi' as [(<- & E & _)|[Hne' Hi']].
    + by right.
    + destruct (Hval _ _ Hi'); [by left|lia].
    + subst v. destruct (Hval _ _ Hi); [by left|lia].
    + by apply (Hinj _ _ v).
  - intros j q' Hj Hq'. destruct (decide (j = len e + 1)) as [->|Hne].
    + rewrite lookup_app_r in Hq' by lia. replace (Z.to_nat (len e + 1 - 1) - length e)%nat with 0%nat in Hq' by lia. injection Hq' as <-.
      exists D. split; [done|]. split.
      * unfold slot_at. cbn [slots p']. fold s. by rewrite list_lookup_insert_eq by lia.
      * intros d' Hd'. destruct (Hall d' Hd') as (v & Hv & Hv0). exists v. split; [by apply Hkeep|].
        destruct (Hval _ _ Hv); [done|lia].
    + assert (j ≤ len e) by (apply lookup_lt_Some in Hq'; rewrite length_app in Hq'; cbn in Hq'; lia). rewrite lookup_app_l in Hq' by lia.
      destruct (Hreach j q' Hj Hq') as (d & Hd & Hjd & Hbefore). exists d. split; [done|]. split; [apply Hkeep; [done|lia]|].
      intros d' Hd'. destruct (Hbefore d' Hd') as (v & Hv & Hb). exists v. split; [apply Hkeep; [done|lia]|done].
Qed.

(** Between the two stores the old entries are there, with remains. *)
Lemma store_holds k p e q : table_ok k p e → len e < capacity_of k → 0 < q → holds k (set_aPgno k p (len e + 1) q) e.
Proof.
  intros (Hsh & Hcap & Hpos & Hget & Hval & Hinj & Hreach) Hlt Hq. pose proof (capacity_bounds k) as Hc.
  pose proof (offset_capacity k) as [Hoc Ho]. pose proof Hsh as [Hw _]. unfold set_aPgno.
  split; [split; cbn; [by rewrite length_insert|apply Hsh]|]. split; [done|]. split; [done|]. split; [|split; [|split; [done|split; [done|]]]].
  - intros j Hj. rewrite pgno_get_lookup by lia. cbn [words]. rewrite list_lookup_insert_ne by lia. rewrite <-pgno_get_lookup, Hget by lia.
    destruct (lookup_lt_is_Some_2 e (Z.to_nat (j - 1))) as [v ->]; [lia|done].
  - intros s v Hv. destruct (Hval s v Hv); lia.
  - intros _ E. rewrite pgno_get_lookup in E by lia. cbn [words] in E. rewrite list_lookup_insert_eq in E by lia. injection E. lia.
Qed.

(** Removing the entries above [n]. *)
Lemma cleanup_ok k p e n :
  holds k p e → 0 ≤ n ≤ len e →
  ∃ p', cleanup_page k p n = Some p' ∧ table_ok k p' (take (Z.to_nat n) e).
Proof.
  intros (Hsh & Hcap & Hpos & Hget & Hval & Hinj & Hreach & _) Hn. pose proof (capacity_bounds k) as Hc.
  destruct (zero_words_spec k p (n + 1) Hsh) as (w & Ew & Hlw & Hgw); [lia|]. unfold cleanup_page. rewrite Ew. cbn [mbind option_bind].
  eexists. split; [done|]. set (p' := mkIndexPage _ _).
  assert (len (take (Z.to_nat n) e) = n) as Hlen by (rewrite length_take; lia).
  assert (∀ s v, slots p' !! s = Some v → v ≠ 0 → slots p !! s = Some v ∧ v ≤ n) as Hback.
  { intros s v Hs Hv. cbn [slots p'] in Hs. rewrite list_lookup_fmap in Hs. destruct (slots p !! s) as [v'|]; [|done].
    injection Hs as <-. destruct (Z.ltb_spec n v'); [done|]. done. }
  assert (∀ h d v, slot_at p h d = Some v → v ≤ n → slot_at p' h d = Some v) as Hkeep.
  { intros h d v Hv Hle. unfold slot_at in *. cbn [slots p']. rewrite list_lookup_fmap, Hv. cbn. by destruct (Z.ltb_spec n v); [lia|]. }
  split; [split; [done|]; cbn; rewrite length_fmap; apply Hsh|]. split; [lia|]. split; [by apply Forall_take|]. rewrite Hlen.
  split; [|split; [|split]].
  - intros j Hj. rewrite pgno_get_lookup by lia. cbn [words p']. rewrite Hgw by lia. destruct (Z.ltb_spec j (n + 1)).
    + rewrite Hget, lookup_take_lt by lia. destruct (lookup_lt_is_Some_2 e (Z.to_nat (j - 1))) as [v ->]; [lia|done].
    + by rewrite lookup_take_ge by lia.
  - intros s v Hs. destruct (decide (v = 0)); [by left|right]. destruct (Hback _ _ Hs) as [Hs' ?]; [done|].
    pose proof (Hval _ _ Hs'). lia.
  - intros s s' v Hs Hs'. destruct (decide (v = 0)); [by left|]. destruct (Hback _ _ Hs) as [? _]; [done|].
    destruct (Hback _ _ Hs') as [? _]; [done|]. by apply (Hinj _ _ v).
  - intros j q Hj Hq. assert (j ≤ n) by (apply lookup_lt_Some in Hq; rewrite length_take in Hq; lia).
    rewrite lookup_take_lt in Hq by lia. destruct (Hreach j q Hj Hq) as (d & Hd & Hjd & Hbefore). exists d. split; [done|].
    split; [apply Hkeep; [done|lia]|]. intros d' Hd'. destruct (Hbefore d' Hd') as (v & Hv & Hb). exists v. split; [apply Hkeep; [done|lia]|done].
Qed.

(** ** The search in a table *)

(** One less than the number of the first frame of the table [k]. *)
Definition zero_of k : Z := if k =? 0 then 0 else HASHTABLE_NPAGE_ONE + (k - 1) * HASHTABLE_NPAGE.

Lemma zero_of_nonneg k : 0 ≤ k → 0 ≤ zero_of k.
Proof. intros. unfold zero_of. change HASHTABLE_NPAGE_ONE with 4062. change HASHTABLE_NPAGE with 4096. destruct (Z.eqb_spec k 0); lia. Qed.

Lemma table_zero_eq k : 0 ≤ k → zero_of k < 2 ^ 32 → table_zero k = zero_of k.
Proof.
  intros Hk Hz. pose proof (zero_of_nonneg k Hk). unfold table_zero, zero_of in *. destruct (k =? 0); [done|]. by apply u32_small.
Qed.

(** The entry [j] is a frame of the reader for the page [q]. *)
Definition candidate (pWal : Wal) k e q j : Prop :=
  1 ≤ j ∧ e !! Z.to_nat (j - 1) = Some q ∧ minFrame pWal ≤ zero_of k + j ≤ mxFrame (hdr pWal).

(** [r] is the last candidate among the slots before [d]. *)
Definition best (pWal : Wal) k p e q d (r : Z) : Prop :=
  (r = 0 ∧ ∀ d' j, 0 ≤ d' < d → slot_at p (walHash q) d' = Some j → ¬ candidate pWal k e q j) ∨
  ∃ d0 j, 0 ≤ d0 < d ∧ slot_at p (walHash q) d0 = Some j ∧ candidate pWal k e q j ∧ r = zero_of k + j ∧
    ∀ d' j', d0 < d' < d → slot_at p (walHash q) d' = Some j' → ¬ candidate pWal k e q j'.

(** The newest candidate, 0 if there is none. *)
Definition newest (pWal : Wal) k e q (r : Z) : Prop :=
  (r = 0 ∧ ∀ j, ¬ candidate pWal k e q j) ∨
  ∃ j, candidate pWal k e q j ∧ r = zero_of k + j ∧ ∀ j', candidate pWal k e q j' → j' ≤ j.

Lemma best_newest pWal k p e q D r :
  holds k p e → first_free_at p (walHash q) D → best pWal k p e q D r → newest pWal k e q r.
Proof.
  intros (_ & _ & _ & _ & _ & Hinj & Hreach & _) (HD & H0 & _) Hbest.
  assert (∀ j, candidate pWal k e q j → ∃ d, 0 ≤ d < D ∧ slot_at p (walHash q) d = Some j ∧
    ∀ d', 0 ≤ d' < d → ∃ v, slot_at p (walHash q) d' = Some v ∧ 1 ≤ v < j) as Hpos.
  { intros j (Hj & Hq & _). destruct (Hreach j q Hj Hq) as (d & Hd & Hjd & Hbefore). exists d. split; [|done].
    destruct (Z.lt_ge_cases d D); [lia|]. destruct (decide (d = D)) as [->|]; [rewrite H0 in Hjd; injection Hjd as <-; lia|].
    destruct (Hbefore D) as (v & Hv & ?); [lia|]. rewrite H0 in Hv. injection Hv as <-. lia. }
  destruct Hbest as [[-> Hno]|(d0 & j & Hd0 & Hj & Hc & -> & Hno)].
  - left. split; [done|]. intros j Hc. destruct (Hpos j Hc) as (d & Hd & Hjd & _). by apply (Hno d j).
  - right. exists j. split; [done|]. split; [done|]. intros j' Hc'. destruct (Z.le_gt_cases j' j); [done|]. exfalso.
    destruct (Hpos j Hc) as (d & Hd & Hjd & Hbefore). destruct (Hpos j' Hc') as (d' & Hd' & Hjd' & _).
    assert (d0 = d) as ->.
    { destruct Hc as (? & _ & _). destruct (Hinj _ _ _ Hj Hjd) as [?|E]; [lia|]. apply (slot_distinct (walHash q)); [lia|lia|done]. }
    destruct (Z.lt_trichotomy d' d) as [Hlt|[->|Hgt]].
    + destruct (Hbefore d') as (v & Hv & ?); [lia|]. rewrite Hjd' in Hv. injection Hv as <-. lia.
    + rewrite Hjd in Hjd'. injection Hjd' as <-. lia.
    + apply (Hno d' j'); [lia|done|done].
Qed.

Lemma find_loop_best (n : nat) pWal k p e q D d r :
  holds k p e → mxFrame (hdr pWal) ≤ zero_of k + len e ∨ len e = capacity_of k → first_free_at p (walHash q) D → 0 ≤ k → zero_of k + 4096 < 2 ^ 32 →
  0 ≤ d ≤ D → D - d ≤ Z.of_nat n →
  best pWal k p e q d r →
  ∃ r', find_loop n pWal k p q ((walHash q + d) mod 8192) r = Some (Some r') ∧ best pWal k p e q D r'.
Proof.
  intros Hok Hmx (HD & H0 & Hall) Hk Hz. pose proof (walHash_range q) as Hh. pose proof (zero_of_nonneg k Hk) as Hzk.
  pose proof Hok as (Hsh & Hcap & _ & Hget & Hval & _). pose proof (capacity_bounds k) as Hc.
  revert d r. induction n as [|n IH]; intros d r Hd Hn Hbest; cbn [find_loop]; rewrite slot_get.
  - assert (d = D) as -> by lia. rewrite H0. cbn. by exists r.
  - destruct (decide (d = D)) as [->|]; [rewrite H0; cbn; by exists r|]. destruct (Hall d) as (v & Hv & Hne); [lia|]. rewrite Hv.
    cbn [mbind option_bind]. destruct (Z.eqb_spec v 0); [done|]. pose proof (Hval _ _ Hv) as Hvr.
    rewrite table_zero_eq by lia. rewrite u32_small by lia.
    set (cond := (v + zero_of k <=? mxFrame (hdr pWal)) && (minFrame pWal <=? v + zero_of k)).
    set (q' := default 0 (e !! Z.to_nat (v - 1))).
    set (r1 := if cond then if q' =? q then v + zero_of k else r else r).
    assert (cond = true → v ≤ len e) as Hve.
    { unfold cond. intros [?%Z.leb_le _]%andb_true_iff. lia. }
    assert (v ≤ len e → e !! Z.to_nat (v - 1) = Some q') as Hq'.
    { intros Hle. unfold q'. destruct (lookup_lt_is_Some_2 e (Z.to_nat (v - 1))) as [x ->]; [lia|done]. }
    assert ((if cond then q'' ← pgno_get k p v; Some (if q'' =? q then v + zero_of k else r) else Some r) = Some r1) as ->.
    { unfold r1. destruct cond; [|done]. rewrite Hget, Hq' by (lia || (specialize (Hve eq_refl); lia)). done. }
    cbn [mbind option_bind]. rewrite walNextHash_step by lia. apply IH; [lia|lia|].
    assert (candidate pWal k e q v ↔ cond = true ∧ q' = q) as Hcand.
    { unfold candidate. split.
      - intros (_ & E & ?). split; [unfold cond; rewrite andb_true_iff, !Z.leb_le; lia|]. unfold q'. by rewrite E.
      - intros (Hcond & Hqq). rewrite Hq', Hqq by auto. unfold cond in Hcond. rewrite andb_true_iff, !Z.leb_le in Hcond. split_and!; (done || lia). }
    destruct (decide (cond = true ∧ q' = q)) as [Hyes|Hnot].
    + right. exists d, v. split; [lia|]. split; [done|]. split; [by apply Hcand|]. split.
      * unfold r1. destruct Hyes as [-> ->]. rewrite Z.eqb_refl. lia.
      * intros d' j' Hd'. lia.
    + assert (r1 = r) as ->.
      { unfold r1. destruct cond; [|done]. destruct (Z.eqb_spec q' q); [by exfalso; apply Hnot|done]. }
      assert (¬ candidate pWal k e q v) as Hnc by (by rewrite Hcand).
      destruct Hbest as [[-> Hno]|(d0 & j & Hd0 & Hj & Hcj & -> & Hno)].
      * left. split; [done|]. intros d' j Hd' Hj. destruct (decide (d' = d)) as [->|]; [|apply (Hno d'); [lia|done]].
        rewrite Hv in Hj. by injection Hj as <-.
      * right. exists d0, j. split; [lia|]. split; [done|]. split; [done|]. split; [done|].
        intros d' j' Hd' Hj'. destruct (decide (d' = d)) as [->|]; [|apply (Hno d'); [lia|done]].
        rewrite Hv in Hj'. by injection Hj' as <-.
Qed.

Lemma find_table_spec pWal k p e q :
  holds k p e → mxFrame (hdr pWal) ≤ zero_of k + len e ∨ len e = capacity_of k → 0 ≤ k → zero_of k + 4096 < 2 ^ 32 →
  ∃ r, find_table pWal k p q = Some (Some r) ∧ newest pWal k e q r.
Proof.
  intros Hok Hmx Hk Hz. pose proof (walHash_range q) as Hh. pose proof Hok as (Hsh & _ & _ & _ & Hval & Hinj & _). pose proof (capacity_bounds k) as Hc.
  destruct (free_within p (walHash q) (capacity_of k) Hsh) as (D & HD & _); [lia|done|done|].
  destruct (find_loop_best (Z.to_nat HASHTABLE_NSLOT) pWal k p e q D 0 0 Hok Hmx HD Hk Hz) as (r & E & Hr).
  - destruct HD; lia.
  - destruct HD as [? _]. change HASHTABLE_NSLOT with 8192. lia.
  - left. split; [done|]. lia.
  - rewrite Z.add_0_r, Z.mod_small in E by lia. exists r. split; [done|]. by eapply best_newest.
Qed.

End table.


(** The frames of the table [k]. *)
Definition entries (k : Z) (log : list Z) : list Z := take (Z.to_nat (capacity_of k)) (drop (Z.to_nat (zero_of k)) log).

Section log.
Implicit Types (pWal : Wal) (shm : Shm) (o : list Z) (log : list Z) (p : IndexPage) (k q i : Z).

(** The index of the log, with remains of frames that never counted. *)
Definition log_ok shm log : Prop :=
  ∀ k, 0 ≤ k →
    (∀ p, pages shm !! k = Some p → shape p ∧ (entries k log = [] ∨ holds k p (entries k log))) ∧
    (entries k log ≠ [] → is_Some (pages shm !! k)).

(** No such remains in the table of the next frame. *)
Definition tail_clean shm log : Prop :=
  let k := walFramePage (len log + 1) in
  entries k log = [] ∨ ∃ p, pages shm !! k = Some p ∧ table_ok k p (entries k log).

(** A connection maps pages that exist; one that keeps the index in its own
    memory maps all of them. *)
Definition conn_ok pWal shm : Prop :=
  (∀ k, 0 ≤ k → is_mapped pWal k = true → is_Some (pages shm !! k)) ∧
  (exclusiveMode pWal = WAL_HEAPMEMORY_MODE → ∀ k, 0 ≤ k → is_Some (pages shm !! k) → is_mapped pWal k = true).

(** ** Frames and tables *)

Lemma frame_page i :
  1 ≤ i → 0 ≤ walFramePage i ∧ zero_of (walFramePage i) < i ≤ zero_of (walFramePage i) + capacity_of (walFramePage i).
Proof.
  intros Hi. unfold walFramePage, zero_of, capacity_of. change HASHTABLE_NPAGE_ONE with 4062. change HASHTABLE_NPAGE with 4096.
  pose proof (Z.div_mod (i + 4096 - 4062 - 1) 4096 ltac:(lia)). pose proof (Z.mod_pos_bound (i + 4096 - 4062 - 1) 4096 ltac:(lia)).
  set (k := (i + 4096 - 4062 - 1) / 4096) in *. clearbody k. destruct (Z.eqb_spec k 0); lia.
Qed.

Lemma frame_page_unique i k : 0 ≤ k → zero_of k < i ≤ zero_of k + capacity_of k → walFramePage i = k.
Proof.
  intros Hk. unfold walFramePage, zero_of, capacity_of. change HASHTABLE_NPAGE_ONE with 4062. change HASHTABLE_NPAGE with 4096.
  intros Hi. symmetry. destruct (Z.eqb_spec k 0).
  - apply (Z.div_unique _ _ _ (i + 33)); lia.
  - apply (Z.div_unique _ _ _ (i + 33 - k * 4096)); lia.
Qed.

Lemma zero_of_mono k k' : 0 ≤ k < k' → zero_of k + capacity_of k ≤ zero_of k'.
Proof.
  unfold zero_of, capacity_of. change HASHTABLE_NPAGE_ONE with 4062. change HASHTABLE_NPAGE with 4096.
  intros ?. destruct (Z.eqb_spec k 0), (Z.eqb_spec k' 0); lia.
Qed.

Lemma frame_page_mono i j : 0 ≤ i ≤ j → walFramePage i ≤ walFramePage j.
Proof. intros. unfold walFramePage. apply Z.div_le_mono; change HASHTABLE_NPAGE_ONE with 4062; change HASHTABLE_NPAGE with 4096; lia. Qed.

Lemma entries_length k log : 0 ≤ k → len (entries k log) = Z.max 0 (Z.min (capacity_of k) (len log - zero_of k)).
Proof.
  intros Hk. pose proof (zero_of_nonneg k Hk). pose proof (capacity_bounds k). unfold entries. rewrite length_take, length_drop. lia.
Qed.

Lemma entries_lookup k log j :
  0 ≤ k → 1 ≤ j ≤ capacity_of k → entries k log !! Z.to_nat (j - 1) = log !! Z.to_nat (zero_of k + j - 1).
Proof.
  intros Hk Hj. pose proof (zero_of_nonneg k Hk). unfold entries. rewrite lookup_take_lt by lia. rewrite lookup_drop. f_equal. lia.
Qed.

Lemma entries_app k log q :
  0 ≤ k → entries k (log ++ [q]) = if decide (walFramePage (len log + 1) = k) then entries k log ++ [q] else entries k log.
Proof.
  intros Hk. pose proof (zero_of_nonneg k Hk) as Hz. pose proof (capacity_bounds k) as Hc. unfold entries.
  destruct (frame_page (len log + 1)) as (Hk1 & Hlo & Hhi); [lia|]. destruct (decide _) as [<-|Hne].
  - rewrite drop_app_le by lia. rewrite !firstn_all2; [done| |]; rewrite ?length_app, length_drop; cbn [length]; lia.
  - destruct (Z.lt_trichotomy (walFramePage (len log + 1)) k) as [Hlt|[?|Hgt]]; [|done|].
    + pose proof (zero_of_mono _ _ (conj Hk1 Hlt)). rewrite !drop_ge; [done|lia|rewrite length_app; cbn; lia].
    + pose proof (zero_of_mono k _ (conj Hk Hgt)). rewrite drop_app_le by lia. rewrite take_app_le; [done|].
      rewrite length_drop. lia.
Qed.

Lemma entries_take k log n :
  0 ≤ k → 0 ≤ n → entries k (take (Z.to_nat n) log) = take (Z.to_nat (n - zero_of k)) (entries k log).
Proof.
  intros Hk Hn. pose proof (zero_of_nonneg k Hk). unfold entries.
  rewrite skipn_firstn_comm, !take_take, <-Z2Nat.inj_sub by lia. by rewrite Nat.min_comm.
Qed.

(** ** Mapping a page *)

(** What mapping keeps. *)
Definition same_conn pWal pWal' : Prop :=
  hdr pWal' = hdr pWal ∧ minFrame pWal' = minFrame pWal ∧ readLock pWal' = readLock pWal ∧ writeLock pWal' = writeLock pWal ∧
  exclusiveMode pWal' = exclusiveMode pWal ∧ wal_szPage pWal' = wal_szPage pWal ∧ iReCksum pWal' = iReCksum pWal ∧
  set_apWiData (set_readOnly pWal' 0) [] = set_apWiData (set_readOnly pWal 0) [] ∧ (∀ k, 0 ≤ k → is_mapped pWal k = true → is_mapped pWal' k = true).

(** Pages stay as they are; new ones are zero. *)
Definition pages_grow shm shm' : Prop :=
  shm_hdr0 shm' = shm_hdr0 shm ∧ shm_hdr1 shm' = shm_hdr1 shm ∧ ckpt shm' = ckpt shm ∧
  ∀ k, 0 ≤ k → pages shm' !! k = pages shm !! k ∨ (pages shm !! k = None ∧ pages shm' !! k = Some zero_page).

Lemma is_mapped_insert pWal i k :
  0 ≤ i < nWiData pWal → 0 ≤ k → is_mapped (map_page pWal i) k = if decide (k = i) then true else is_mapped pWal k.
Proof.
  intros Hi Hk. unfold is_mapped, map_page, nWiData in *. cbn [apWiData set_apWiData]. destruct (decide (k = i)) as [->|].
  - by rewrite list_lookup_insert_eq by lia.
  - by rewrite list_lookup_insert_ne by lia.
Qed.

Lemma is_mapped_extend pWal n k : 0 ≤ k → is_mapped (set_apWiData pWal (apWiData pWal ++ replicate n false)) k = is_mapped pWal k.
Proof.
  intros Hk. unfold is_mapped. cbn [apWiData set_apWiData]. destruct (decide (Z.to_nat k < length (apWiData pWal))%nat).
  - by rewrite lookup_app_l.
  - rewrite lookup_app_r, (lookup_ge_None_2 (apWiData pWal)) by lia.
    destruct (replicate n false !! _) eqn:E; [|done]. apply lookup_replicate in E as [-> _]. done.
Qed.

Lemma same_conn_refl pWal : same_conn pWal pWal.
Proof. unfold same_conn. by split_and!. Qed.

Lemma same_conn_trans pWal1 pWal2 pWal3 : same_conn pWal1 pWal2 → same_conn pWal2 pWal3 → same_conn pWal1 pWal3.
Proof.
  intros (? & ? & ? & ? & ? & ? & ? & ? & ?) (? & ? & ? & ? & ? & ? & ? & ? & ?). unfold same_conn. split_and!; try congruence. auto.
Qed.

Lemma same_conn_map pWal pWal' i : same_conn pWal pWal' → 0 ≤ i < nWiData pWal' → same_conn pWal (map_page pWal' i).
Proof.
  intros Hs Hi. eapply same_conn_trans; [exact Hs|]. unfold same_conn. split_and!; try done. intros k Hk Em.
  rewrite is_mapped_insert by done. by case_decide.
Qed.

Lemma pages_grow_refl shm : pages_grow shm shm.
Proof. unfold pages_grow. split_and!; auto. Qed.

Lemma pages_grow_new shm i : pages shm !! i = None → pages_grow shm (set_pages shm (<[i := zero_page]> (pages shm))).
Proof.
  intros Hn. unfold pages_grow. cbn. split_and!; [done..|]. intros k _. destruct (decide (k = i)) as [->|].
  - right. by rewrite lookup_insert_eq.
  - left. by rewrite lookup_insert_ne.
Qed.

Lemma enlarge_spec pWal shm i o :
  conn_ok pWal shm → 0 ≤ i →
  ∃ rc pWal' o', enlarge pWal i o = (rc, pWal', o') ∧ conn_ok pWal' shm ∧ same_conn pWal pWal' ∧
    (rc = SQLITE_OK → i < nWiData pWal') ∧ (o = [] → rc = SQLITE_OK ∧ o' = []).
Proof.
  intros [Hm Hheap] Hi. unfold enlarge. destruct (Z.leb_spec (nWiData pWal) i).
  2: { exists SQLITE_OK, pWal, o. repeat split; auto. }
  destruct (next_rc o) as [rc o1] eqn:Eo. destruct (Z.eqb_spec rc SQLITE_OK) as [->|Hne].
  - eexists _, _, o1. split; [done|]. split; [|split; [|split]].
    2: { unfold same_conn. split_and!; try done. intros k Hk Em. by rewrite is_mapped_extend. }
    + split; intros k Hk; [intros E|intros Hk' E]; rewrite is_mapped_extend in * by done; auto.
    + intros _. unfold nWiData in *. cbn. rewrite length_app, length_replicate. lia.
    + intros ->. by injection Eo as <-.
  - eexists SQLITE_NOMEM, pWal, o1. split; [done|]. split; [done|]. split; [apply same_conn_refl|]. split; [done|]. intros ->. by injection Eo as <- <-.
Qed.

(** What a request for the page [i] returns. *)
Definition page_result pWal shm i o (r : Z * Wal * Shm * list Z) : Prop :=
  let '(rc, pWal', shm', o') := r in
  conn_ok pWal' shm' ∧ same_conn pWal pWal' ∧ pages_grow shm shm' ∧ (rc ≠ SQLITE_OK → shm' = shm) ∧
  (rc = SQLITE_OK → page_at pWal' shm' i = pages shm' !! i ∧
    (writeLock pWal = true ∨ exclusiveMode pWal = WAL_HEAPMEMORY_MODE ∨ is_Some (pages shm !! i) → is_Some (pages shm' !! i))) ∧
  (o = [] → rc = SQLITE_OK ∧ o' = []) ∧ (∀ k, k ≠ i → pages shm' !! k = pages shm !! k).

(** The request maps the page, which exists or is new. *)
Lemma mapped_result pWal pWal' shm shm' i o o' :
  conn_ok pWal shm → 0 ≤ i < nWiData pWal → same_conn pWal pWal' → apWiData pWal' = apWiData pWal →
  shm' = shm ∧ is_Some (pages shm !! i) ∨ shm' = set_pages shm (<[i := zero_page]> (pages shm)) ∧ pages shm !! i = None →
  (o = [] → o' = []) → page_result pWal shm i o (SQLITE_OK, map_page pWal' i, shm', o').
Proof.
  intros [Hm Hheap] Hi Hs Hap Hshm Ho.
  assert (∀ k, 0 ≤ k → is_mapped (map_page pWal' i) k = if decide (k = i) then true else is_mapped pWal k) as Hmap.
  { intros k Hk. rewrite <-is_mapped_insert by lia. unfold is_mapped. cbn. by rewrite Hap. }
  assert (is_Some (pages shm' !! i) ∧ (∀ k, k ≠ i → pages shm' !! k = pages shm !! k) ∧ pages_grow shm shm') as (His & Hother & Hgrow).
  { destruct Hshm as [[-> ?]|[-> Hn]]; [split_and!; [done|done|apply pages_grow_refl]|]. split; [cbn; by rewrite lookup_insert_eq|].
    split; [intros k Hk; cbn; by rewrite lookup_insert_ne|by apply pages_grow_new]. }
  split; [split|].
  - intros k Hk. rewrite Hmap by done. destruct (decide (k = i)) as [->|Hne]; [done|]. rewrite Hother by done. by apply Hm.
  - intros Hx k Hk. rewrite Hmap by done. destruct (decide (k = i)) as [->|Hne]; [done|]. rewrite Hother by done. apply Hheap; [|done].
    rewrite <-Hx. symmetry. apply Hs.
  - split; [apply same_conn_map; [done|unfold nWiData in *; rewrite Hap; lia]|]. split; [done|]. split; [done|]. split; [|split; [by split; [|apply Ho]|done]]. intros _.
    unfold page_at. rewrite Hmap, decide_True by (done || lia). done.
Qed.

(** The request maps nothing. *)
Lemma unmapped_result pWal pWal' shm i o rc o' :
  conn_ok pWal shm → 0 ≤ i → same_conn pWal pWal' → apWiData pWal' = apWiData pWal →
  (rc = SQLITE_OK → pages shm !! i = None ∧ writeLock pWal = false ∧ exclusiveMode pWal ≠ WAL_HEAPMEMORY_MODE) →
  (o = [] → rc = SQLITE_OK ∧ o' = []) → page_result pWal shm i o (rc, pWal', shm, o').
Proof.
  intros [Hm Hheap] Hi Hs Hap Hok Ho. assert (∀ k, is_mapped pWal' k = is_mapped pWal k) as Hmap by (intros; unfold is_mapped; by rewrite Hap).
  split; [split|].
  - intros k Hk. rewrite Hmap. by apply Hm.
  - intros Hx k Hk. rewrite Hmap. apply Hheap; [|done]. rewrite <-Hx. symmetry. apply Hs.
  - split; [done|]. split; [apply pages_grow_refl|]. split; [done|]. split; [|by split]. intros Hrc.
    destruct (Hok Hrc) as (Hn & Hw & Hx). unfold page_at. rewrite Hmap, Hn. split; [by destruct (is_mapped pWal i)|].
    intros [E|[E|[? E]]]; congruence.
Qed.

Lemma request_page_spec pWal shm i o :
  conn_ok pWal shm → 0 ≤ i < nWiData pWal → is_mapped pWal i = false → page_result pWal shm i o (request_page pWal shm i o).
Proof.
  intros Hconn Hi Em. unfold request_page. destruct (next_rc o) as [rc o'] eqn:Eo.
  assert (o = [] → rc = SQLITE_OK ∧ o' = []) as Ho by (intros ->; by injection Eo as <- <-).
  destruct (Z.eqb_spec (exclusiveMode pWal) WAL_HEAPMEMORY_MODE) as [Hmode|Hmode].
  - destruct (Z.eqb_spec rc SQLITE_OK) as [->|Hrc].
    + apply mapped_result; try done; [|naive_solver]. right. split; [done|]. destruct (pages shm !! i) eqn:E; [|done]. exfalso.
      rewrite (proj2 Hconn Hmode i) in Em; [done|lia|by rewrite E].
    + apply unmapped_result; try done; [lia|naive_solver].
  - destruct ((rc =? SQLITE_OK) || (rc =? SQLITE_READONLY)) eqn:Erc.
    2: { apply unmapped_result; try done; [lia|by intros ->]. }
    set (pWal2 := if rc =? SQLITE_READONLY then set_readOnly pWal (Z.lor (readOnly pWal) WAL_SHM_RDONLY) else pWal).
    assert (same_conn pWal pWal2 ∧ apWiData pWal2 = apWiData pWal) as [Hs2 Hap] by (unfold pWal2, same_conn; destruct (rc =? SQLITE_READONLY); by split_and!).
    destruct (pages shm !! i) as [p|] eqn:Ep; [|destruct (writeLock pWal2) eqn:Ew].
    + apply mapped_result; try done; [|naive_solver]. left. by rewrite Ep.
    + apply mapped_result; try done; [|naive_solver]. by right.
    + apply unmapped_result; try done; [lia| |naive_solver]. intros _. split; [done|]. split; [|done].
      rewrite <-Ew. symmetry. apply Hs2.
Qed.

Lemma page_result_trans pWal pWal' shm i o o1 r :
  same_conn pWal pWal' → (o = [] → o1 = []) → page_result pWal' shm i o1 r → page_result pWal shm i o r.
Proof.
  destruct r as [[[rc pWal2] shm'] o']. intros Hs Ho (Hc & Hs' & Hg & Hne & Hok & Ho1 & Hk). pose proof Hs as (_ & _ & _ & Hw & Hx & _).
  rewrite Hw, Hx in Hok. split_and!; auto; [|intros ?; by apply Ho1, Ho..]. by eapply same_conn_trans.
Qed.

Lemma walIndexPage_spec pWal shm i o :
  conn_ok pWal shm → 0 ≤ i → page_result pWal shm i o (walIndexPage pWal shm i o).
Proof.
  intros Hconn Hi. unfold walIndexPage.
  destruct (enlarge_spec pWal shm i o Hconn Hi) as (rc & pWal1 & o1 & -> & Hc1 & Hs1 & Hn1 & Ho1).
  destruct (Z.eqb_spec rc SQLITE_OK) as [->|Hne]; cbn [negb].
  - specialize (Hn1 eq_refl). destruct (is_mapped pWal1 i) eqn:Em.
    + split; [done|]. split; [exact Hs1|]. split; [apply pages_grow_refl|]. split_and!; try done. intros _. unfold page_at. rewrite Em.
      split; [done|]. intros _. by apply Hc1.
    + eapply page_result_trans; [exact Hs1| |apply request_page_spec; [done|lia|done]]. intros Ho. by apply Ho1.
  - split; [done|]. split; [exact Hs1|]. split; [apply pages_grow_refl|]. split; [done|]. by split_and!.
Qed.

Lemma page_at_mapped pWal shm i p : page_at pWal shm i = Some p ↔ is_mapped pWal i = true ∧ pages shm !! i = Some p.
Proof. unfold page_at. destruct (is_mapped pWal i); naive_solver. Qed.

Lemma walIndexPage_mapped pWal shm i o : 0 ≤ i → is_mapped pWal i = true → walIndexPage pWal shm i o = (SQLITE_OK, pWal, shm, o).
Proof.
  intros Hi Em. unfold walIndexPage, enlarge. destruct (Z.leb_spec (nWiData pWal) i) as [Hle|_]; [|cbn; by rewrite Em].
  unfold is_mapped, nWiData in *. by rewrite lookup_ge_None_2 in Em by lia.
Qed.

(** A page that exists is found without a change of the shared memory. *)
Lemma page_result_exists pWal shm i o rc pWal' shm' o' :
  page_result pWal shm i o (rc, pWal', shm', o') → 0 ≤ i → is_Some (pages shm !! i) → shm' = shm.
Proof.
  intros (_ & _ & (H0 & H1 & Hc & Hg) & _ & _ & _ & Hk) Hi [p Hp].
  assert (pages shm' = pages shm) as E.
  { apply map_eq. intros k. destruct (decide (k = i)) as [->|Hne]; [|by apply Hk]. destruct (Hg i Hi) as [?|[? _]]; congruence. }
  destruct shm, shm'. cbn in *. congruence.
Qed.

(** ** Logs in memory that changes *)

Lemma log_ok_grow shm shm' log : log_ok shm log → pages_grow shm shm' → log_ok shm' log.
Proof.
  intros Hlog (_ & _ & _ & Hg) k Hk. destruct (Hlog k Hk) as [Hp Hs]. destruct (Hg k Hk) as [->|[Hn Hz]]; [by split|]. rewrite Hz.
  split; [|by intros _; eexists]. intros p [= <-]. split; [apply (zero_page_ok k)|]. left.
  destruct (decide (entries k log = [])); [done|]. destruct Hs as [? ?]; [done|congruence].
Qed.

Lemma tail_clean_grow shm shm' log : tail_clean shm log → pages_grow shm shm' → tail_clean shm' log.
Proof.
  intros [?|(p & Hp & Hok)] (_ & _ & _ & Hg); [by left|]. right. exists p. split; [|done].
  destruct (frame_page (len log + 1)) as [Hk _]; [lia|]. destruct (Hg _ Hk) as [->|[Hn _]]; [done|congruence].
Qed.

Lemma log_ok_table shm log k :
  log_ok shm log → 0 ≤ k → entries k log ≠ [] → ∃ p, pages shm !! k = Some p ∧ holds k p (entries k log).
Proof.
  intros Hlog Hk Hne. destruct (Hlog k Hk) as [Hp Hs]. destruct (Hs Hne) as [p Ep]. destruct (Hp p Ep) as [_ [?|Hh]]; [done|].
  by exists p.
Qed.

Lemma log_ok_set shm log log' k p :
  log_ok shm log → 0 ≤ k → (∀ k', 0 ≤ k' → k' ≠ k → entries k' log' = entries k' log ∨ entries k' log' = []) →
  holds k p (entries k log') → log_ok (set_pages shm (<[k := p]> (pages shm))) log'.
Proof.
  intros Hlog Hk Hother Hp k' Hk'. cbn [pages set_pages]. destruct (decide (k' = k)) as [->|Hne].
  - rewrite lookup_insert_eq. split; [|by intros _; eexists]. intros p' [= <-]. split; [exact (proj1 Hp)|]. right. exact Hp.
  - rewrite lookup_insert_ne by done. destruct (Hlog k' Hk') as [H1 H2]. destruct (Hother k' Hk' Hne) as [->|E]; [by split|].
    rewrite E. split; [|done]. intros p' Hp'. split; [by apply (H1 p')|by left].
Qed.

Lemma conn_ok_set pWal shm k p :
  conn_ok pWal shm → 0 ≤ k → is_Some (pages shm !! k) → conn_ok pWal (set_pages shm (<[k := p]> (pages shm))).
Proof.
  intros [H1 H2] Hk Hs. split; cbn [pages set_pages].
  - intros k' Hk' Em. destruct (decide (k' = k)) as [->|Hne]; [rewrite lookup_insert_eq; by eexists|]. rewrite lookup_insert_ne by done. by apply H1.
  - intros Hx k' Hk'. destruct (decide (k' = k)) as [->|Hne]; [intros _; by apply H2|]. rewrite lookup_insert_ne by done. by apply H2.
Qed.

Lemma set_pages_id shm k p : pages shm !! k = Some p → set_pages shm (<[k := p]> (pages shm)) = shm.
Proof. intros Hp. rewrite insert_id by done. by destruct shm. Qed.

(** The entries of the table of the next frame are all of its frames so far. *)
Lemma tail_entries log :
  let k := walFramePage (len log + 1) in len (entries k log) = len log - zero_of k ∧ len (entries k log) < capacity_of k.
Proof. intros k. destruct (frame_page (len log + 1)) as (Hk & Hlo & Hhi); [lia|]. rewrite entries_length by done. fold k in Hlo, Hhi. lia. Qed.

Lemma small_zero_of log i : 1 ≤ i ≤ len log + 1 → len log + 1 < 2 ^ 31 → zero_of (walFramePage i) + 4096 < 2 ^ 32.
Proof. intros Hi Hl. destruct (frame_page i) as (_ & ? & _); lia. Qed.

Lemma entries_nil k log : len log ≤ zero_of k → entries k log = [].
Proof. intros Hl. unfold entries. rewrite drop_ge by lia. apply take_nil. Qed.

(** Cutting the log inside the table [k] leaves others or empties them. *)
Lemma entries_cut k k' n log :
  0 ≤ k' → k' ≠ k → zero_of k < n ≤ zero_of k + capacity_of k → 0 ≤ k → n ≤ len log →
  entries k' (take (Z.to_nat n) log) = entries k' log ∨ entries k' (take (Z.to_nat n) log) = [].
Proof.
  intros Hk' Hne Hn Hk Hl. pose proof (zero_of_nonneg k' Hk'). destruct (Z.lt_trichotomy k' k) as [Hlt|[?|Hgt]]; [|done|].
  - left. pose proof (zero_of_mono k' k (conj Hk' Hlt)). pose proof (zero_of_nonneg k Hk). rewrite entries_take by lia.
    apply take_ge. pose proof (entries_length k' log Hk'). lia.
  - right. pose proof (zero_of_mono k k' (conj Hk Hgt)). apply entries_nil. rewrite length_take. lia.
Qed.

(** A table with all frames of a log and no remains makes it clean. *)
Lemma tail_clean_set shm log k p :
  0 < len log → walFramePage (len log) = k → table_ok k p (entries k log) → tail_clean (set_pages shm (<[k := p]> (pages shm))) log.
Proof.
  intros Hl Hk Hp. unfold tail_clean. destruct (decide (walFramePage (len log + 1) = k)) as [->|Hne].
  - right. exists p. cbn. by rewrite lookup_insert_eq.
  - left. apply entries_nil. destruct (frame_page (len log)) as (Hk0 & _ & Hhi); [lia|]. rewrite Hk in Hk0, Hhi.
    pose proof (frame_page_mono (len log) (len log + 1)). pose proof (zero_of_mono k (walFramePage (len log + 1))). lia.
Qed.

(** ** Removing frames *)

(** The page of the last frame that remains is found. *)
Lemma walHashGet_known pWal shm k o p :
  conn_ok pWal shm → 0 ≤ k → pages shm !! k = Some p → is_mapped pWal k = true ∨ o = [] →
  ∃ pWal' o', walHashGet pWal shm k o = (SQLITE_OK, pWal', shm, o') ∧ page_at pWal' shm k = Some p ∧
    conn_ok pWal' shm ∧ same_conn pWal pWal' ∧ (o = [] → o' = []) ∧ (is_mapped pWal k = true → pWal' = pWal ∧ o' = o).
Proof.
  intros Hconn Hk Hp Hmap. destruct (is_mapped pWal k) eqn:Em.
  - exists pWal, o. split; [by apply walIndexPage_mapped|]. rewrite page_at_mapped. split_and!; done.
  - destruct Hmap as [?| ->]; [done|]. pose proof (walIndexPage_spec pWal shm k [] Hconn Hk) as Hres. unfold walHashGet.
    destruct (walIndexPage pWal shm k []) as [[[rc pWal'] shm'] o']. pose proof (page_result_exists _ _ _ _ _ _ _ _ Hres Hk) as E.
    destruct Hres as (Hc & Hs & _ & _ & Hok & Ho & _). destruct (Ho eq_refl) as [-> ->]. destruct (Hok eq_refl) as [Hat _].
    assert (shm' = shm) as -> by (apply E; by eexists). exists pWal', []. rewrite Hat. split_and!; done.
Qed.

(** The frames after [mxFrame] are taken back. *)
Lemma walCleanupHash_spec pWal shm o log :
  conn_ok pWal shm → log_ok shm log → 0 ≤ mxFrame (hdr pWal) ≤ len log → len log + 1 < 2 ^ 31 →
  is_mapped pWal (walFramePage (mxFrame (hdr pWal))) = true ∨ o = [] →
  ∃ pWal' shm' o', walCleanupHash pWal shm o = Some (pWal', shm', o') ∧ conn_ok pWal' shm' ∧ same_conn pWal pWal' ∧
    log_ok shm' (take (Z.to_nat (mxFrame (hdr pWal))) log) ∧ tail_clean shm' (take (Z.to_nat (mxFrame (hdr pWal))) log) ∧
    shm_hdr0 shm' = shm_hdr0 shm ∧ (o = [] → o' = []) ∧
    (is_mapped pWal (walFramePage (mxFrame (hdr pWal))) = true → pWal' = pWal ∧ o' = o).
Proof.
  intros Hconn Hlog Hmx Hlen Hmap. unfold walCleanupHash. set (mx := mxFrame (hdr pWal)) in *. destruct (Z.eqb_spec mx 0) as [->|Hne].
  { eexists _, _, _. split; [done|]. split; [done|]. split; [apply same_conn_refl|]. split_and!; try done.
    - intros k Hk. unfold entries. rewrite take_0, drop_nil, take_nil. split; [|done]. intros p Hp.
      destruct (Hlog k Hk) as [H1 _]. split; [by apply H1|by left].
    - left. unfold entries. by rewrite take_0, drop_nil, take_nil. }
  set (k := walFramePage mx) in *. destruct (frame_page mx) as (Hk & Hlo & Hhi); [lia|]. fold k in Hk, Hlo, Hhi.
  assert (zero_of k + 4096 < 2 ^ 32) as Hsmall by (apply (small_zero_of log mx); lia).
  assert (mx - zero_of k ≤ len (entries k log)) as Hel by (rewrite entries_length by done; lia).
  destruct (log_ok_table shm log k Hlog Hk) as (p & Ep & Hok); [destruct (entries k log); [cbn in Hel; lia|done]|].
  destruct (walHashGet_known pWal shm k o p Hconn Hk Ep Hmap) as (pWal' & o' & -> & -> & Hc' & Hs' & Ho & Hid). cbn [mbind option_bind].
  assert (hdr pWal' = hdr pWal) as -> by apply Hs'. fold mx. rewrite table_zero_eq by lia.
  destruct (cleanup_ok k p _ (mx - zero_of k) Hok) as (p' & -> & Hok'); [lia|]. cbn [mbind option_bind].
  rewrite <-entries_take in Hok' by lia.
  assert (len (take (Z.to_nat mx) log) = mx) as Hlt by (rewrite length_take; lia).
  eexists _, _, _. split; [done|]. split; [apply conn_ok_set; [done|done|by eexists]|]. split; [done|]. split; [|split; [|done]].
  - apply (log_ok_set _ log); [done|done| |by apply table_holds_all]. intros k' Hk' Hkk. apply (entries_cut k); lia || done.
  - apply tail_clean_set; [lia|by rewrite Hlt|done].
Qed.

(** ** Appending a frame *)

(** The memory [shm'] is the result of the store to the slot; without it the
    memory has the old log, with remains. *)
Definition last_store shm' log q : Prop :=
  let k := walFramePage (len log + 1) in
  let idx := len log + 1 - zero_of k in
  ∃ shm1 p iKey, log_ok shm1 log ∧ pages shm1 !! k = Some p ∧ pgno_get k p idx = Some q ∧
    shm' = set_pages shm1 (<[k := set_aHash p iKey idx]> (pages shm1)).

(** What appending returns: an error that leaves the log as it is, or the longer
    log. *)
Definition append_result pWal shm log q o (r : Z * Wal * Shm * list Z) : Prop :=
  let '(rc, pWal', shm', o') := r in
  conn_ok pWal' shm' ∧ same_conn pWal pWal' ∧ shm_hdr0 shm' = shm_hdr0 shm ∧
  (rc ≠ SQLITE_OK → log_ok shm' log ∧ pages_grow shm shm') ∧
  (rc = SQLITE_OK → log_ok shm' (log ++ [q]) ∧ tail_clean shm' (log ++ [q]) ∧ is_mapped pWal' (walFramePage (len log + 1)) = true ∧
    last_store shm' log q) ∧
  (o = [] → rc = SQLITE_OK ∧ o' = []).

Definition write_entry (iHash idx iPage : Z) (p : IndexPage) (iKey : Z) : IndexPage := set_aHash (set_aPgno iHash p idx iPage) iKey idx.

(** The probe for a free slot finds one, and the entry is added. *)
Lemma probe_write k p log q :
  let idx := len (entries k log) + 1 in
  walFramePage (len log + 1) = k → table_ok k p (entries k log) → 0 < q < 2 ^ 32 →
  ∃ iKey, probe_loop (Z.to_nat idx) (slots p) (walHash q) = Some (Some iKey) ∧
    table_ok k (write_entry k idx q p iKey) (entries k (log ++ [q])).
Proof.
  intros idx Hk Hp Hq. destruct (first_free_exists k p _ (walHash q) Hp) as (D & HD & Hle). pose proof (walHash_range q) as Hh.
  assert (0 ≤ k) by (rewrite <-Hk; apply frame_page; lia). assert (0 ≤ D) by apply HD.
  pose proof (tail_entries log) as [_ Hlt]. rewrite Hk in Hlt.
  exists ((walHash q + D) mod 8192). split.
  - rewrite <-(probe_loop_spec (Z.to_nat idx) p (walHash q) 0 D HD) by lia. f_equal. rewrite Z.add_0_r, Z.mod_small; lia.
  - rewrite entries_app, decide_True by done. by apply append_ok.
Qed.

(** The table is ready for the entry. *)
Definition ready pWal shm log k p : Prop :=
  page_at pWal shm k = Some p ∧ table_ok k p (entries k log) ∧ log_ok shm log ∧ conn_ok pWal shm.

Lemma write_spec pWal shm log q o k p iKey :
  ready pWal shm log k p → walFramePage (len log + 1) = k → 0 < q →
  table_ok k (write_entry k (len (entries k log) + 1) q p iKey) (entries k (log ++ [q])) →
  append_result pWal shm log q o
    (SQLITE_OK, pWal, set_pages shm (<[k := write_entry k (len (entries k log) + 1) q p iKey]> (pages shm)), o).
Proof.
  intros ([Hm Hp]%page_at_mapped & Hok & Hlog & Hconn) Hk Hq Hw. assert (0 ≤ k) as Hk0 by (rewrite <-Hk; apply frame_page; lia).
  pose proof (tail_entries log) as [Hel Hlt]. rewrite Hk in Hel, Hlt. pose proof (offset_capacity k) as [Hoc Ho]. pose proof (capacity_bounds k) as Hc.
  split; [apply conn_ok_set; [done|done|by eexists]|]. split; [apply same_conn_refl|]. split; [done|]. split; [done|]. split; [|done].
  intros _. split; [|split; [|split; [by rewrite Hk|]]].
  - apply (log_ok_set _ log); [done|done| |by apply table_holds_all]. intros k' Hk' Hne. left. rewrite entries_app by done.
    rewrite decide_False; [done|congruence].
  - apply tail_clean_set; [|rewrite <-Hk; f_equal|done]; rewrite length_app; cbn; lia.
  - unfold last_store. rewrite Hk. exists (set_pages shm (<[k := set_aPgno k p (len (entries k log) + 1) q]> (pages shm))), (set_aPgno k p (len (entries k log) + 1) q), iKey.
    replace (len log + 1 - zero_of k) with (len (entries k log) + 1) by lia. split_and!.
    + apply (log_ok_set _ log); [done|done|by left|]. by apply store_holds.
    + cbn [pages set_pages]. by rewrite lookup_insert_eq.
    + rewrite pgno_get_lookup by lia. cbn [words set_aPgno]. rewrite list_lookup_insert_eq; [done|]. destruct Hok as ([Hwl _] & _). lia.
    + unfold set_pages, write_entry. cbn [pages shm_hdr0 shm_hdr1 ckpt]. by rewrite insert_insert_eq.
Qed.

(** The page of the first frame of a table is set to zero. *)
Lemma zero_ready pWal shm log k p w :
  log_ok shm log → conn_ok pWal shm → page_at pWal shm k = Some p → 0 ≤ k → shape p → entries k log = [] → zero_words k p 1 = Some w →
  ready pWal (set_pages shm (<[k := mkIndexPage w (replicate (length (slots p)) 0)]> (pages shm))) log k
    (mkIndexPage w (replicate (length (slots p)) 0)).
Proof.
  intros Hlog Hconn [Hm Hp]%page_at_mapped Hk Hsh He Hw. assert (table_ok k (mkIndexPage w (replicate (length (slots p)) 0)) []) as Hok by (by apply zeroed_ok).
  split; [apply page_at_mapped; split; [done|]; cbn; by rewrite lookup_insert_eq|]. rewrite He. split; [done|].
  split; [|apply conn_ok_set; [done|done|by eexists]]. apply (log_ok_set _ log); [done|done|by left|rewrite He; by apply table_holds_all].
Qed.

Lemma append_result_trans pWal pWal1 shm shm1 log q o o1 pWal' shm' o' :
  same_conn pWal pWal1 → shm_hdr0 shm1 = shm_hdr0 shm → (o = [] → o1 = []) →
  append_result pWal1 shm1 log q o1 (SQLITE_OK, pWal', shm', o') → append_result pWal shm log q o (SQLITE_OK, pWal', shm', o').
Proof.
  intros Hs Hh Ho (Hc & Hs' & Hh' & _ & Hok & Ho'). split; [done|]. split; [by eapply same_conn_trans|]. split; [congruence|].
  split; [done|]. split; [done|]. intros ?. by apply Ho', Ho.
Qed.

(** The table of the next frame is made ready: a first entry sets it to zero,
    remains of frames that never counted are removed. *)
Definition prepared pWal shm (k idx : Z) (p : IndexPage) o : option (Wal * Shm * list Z) :=
  p ← (if idx =? 1 then
         w ← zero_words k p 1; Some (mkIndexPage w (replicate (length (slots p)) 0))
       else Some p);
  let shm := set_pages shm (<[k := p]> (pages shm)) in
  v ← pgno_get k p idx;
  (if negb (v =? 0) then walCleanupHash pWal shm o else Some (pWal, shm, o)).

(** A word of the table. *)
Lemma next_word k p : shape p → ∀ j, 1 ≤ j ≤ capacity_of k → is_Some (pgno_get k p j).
Proof. intros [Hw _] j Hj. pose proof (offset_capacity k) as [? ?]. rewrite pgno_get_lookup by lia. apply lookup_lt_is_Some. lia. Qed.

Lemma prepared_spec pWal shm log k p o :
  conn_ok pWal shm → log_ok shm log → (tail_clean shm log ∨ mxFrame (hdr pWal) = len log) → walFramePage (len log + 1) = k →
  len log + 1 < 2 ^ 31 → page_at pWal shm k = Some p →
  ∃ p' shm', prepared pWal shm k (len (entries k log) + 1) p o = Some (pWal, shm', o) ∧ ready pWal shm' log k p' ∧ shm_hdr0 shm' = shm_hdr0 shm.
Proof.
  intros Hconn Hlog Hclean Hk Hlen Hat. assert (0 ≤ k) as Hk0 by (rewrite <-Hk; apply frame_page; lia).
  pose proof (capacity_bounds k) as Hc. pose proof (tail_entries log) as [Hel Hlt]. rewrite Hk in Hel, Hlt.
  pose proof Hat as [Hm Hp]%page_at_mapped. destruct (Hlog k Hk0) as [Hpage _]. destruct (Hpage p Hp) as [Hsh Hg]. unfold prepared.
  destruct (Z.eqb_spec (len (entries k log) + 1) 1) as [E1|Hne1].
  - destruct (zero_words_spec k p 1 Hsh) as (w & Hw & _ & Hgw); [lia|]. rewrite Hw, E1. cbn [mbind option_bind].
    rewrite pgno_get_lookup by lia. cbn [words]. rewrite Hgw by lia. cbn [mbind option_bind]. change (negb (0 =? 0)) with false.
    eexists _, _. split; [done|]. split; [|done]. apply zero_ready; try done. destruct (entries k log); [done|cbn in E1; lia].
  - cbn [mbind option_bind]. rewrite set_pages_id by done. destruct Hg as [He|Hg]; [by rewrite He in Hne1|].
    destruct (next_word k p Hsh (len (entries k log) + 1)) as [v Ev]; [lia|]. rewrite Ev.
    cbn [mbind option_bind]. destruct (Z.eqb_spec v 0) as [->|Hne0]; cbn [negb].
    + exists p, shm. split; [done|]. split; [|done]. split; [done|]. split; [apply (holds_clean _ _ _ Hg Ev); lia|done].
    + destruct Hclean as [Hclean|Hmx].
      { exfalso. destruct Hclean as [He|(p' & Hp' & Hok')]; rewrite Hk in *; [by rewrite He in Hne1|]. assert (p' = p) as -> by congruence.
        destruct Hok' as (_ & _ & _ & Hget & _). rewrite Hget, lookup_ge_None_2 in Ev by lia. by injection Ev. }
      assert (walFramePage (mxFrame (hdr pWal)) = k) as Hkm by (rewrite Hmx; apply frame_page_unique; lia).
      destruct (walCleanupHash_spec pWal shm o log) as (pWal' & shm' & o' & -> & Hc' & _ & Hlog' & Hclean' & Hh & _ & Hid); try done; [lia|rewrite Hkm; auto|].
      rewrite Hkm in Hid. destruct (Hid Hm) as [-> ->]. rewrite Hmx, take_ge in Hlog', Hclean' by lia.
      destruct Hclean' as [He|(p' & Hp' & Hok')]; rewrite Hk in *; [by rewrite He in Hne1|]. exists p', shm'. split; [done|]. split; [|done].
      split; [by apply page_at_mapped|]. by split_and!.
Qed.

Lemma walIndexAppend_spec pWal shm log q o :
  conn_ok pWal shm → log_ok shm log → (tail_clean shm log ∨ mxFrame (hdr pWal) = len log) → writeLock pWal = true →
  0 < q < 2 ^ 32 → len log + 1 < 2 ^ 31 →
  ∃ r, walIndexAppend pWal shm (len log + 1) q o = Some r ∧ append_result pWal shm log q o r.
Proof.
  intros Hconn Hlog Hclean Hw Hq Hlen. unfold walIndexAppend. set (k := walFramePage (len log + 1)).
  destruct (frame_page (len log + 1)) as (Hk & Hlo & Hhi); [lia|]. fold k in Hk, Hlo, Hhi. pose proof (capacity_bounds k) as Hc.
  pose proof (walIndexPage_spec pWal shm k o Hconn Hk) as Hres. unfold walHashGet at 1.
  destruct (walIndexPage pWal shm k o) as [[[rc pWal1] shm1] o1]. destruct Hres as (Hc1 & Hs1 & Hg1 & _ & Hok1 & Ho1 & _).
  destruct (Z.eqb_spec rc SQLITE_OK) as [->|Hne]; cbn [negb].
  2: { eexists. split; [done|]. split; [done|]. split; [done|]. split; [apply Hg1|]. split; [|split; [done|]].
       - intros _. split; [by eapply log_ok_grow|done].
       - intros ->. by destruct (Ho1 eq_refl). }
  destruct (Hok1 eq_refl) as [Hat Hex]. destruct Hex as [p Hp]; [by left|]. rewrite Hp in Hat. rewrite Hat. cbn [mbind option_bind].
  pose proof (tail_entries log) as [Hel _]. fold k in Hel. rewrite table_zero_eq by lia.
  replace (len log + 1 - zero_of k) with (len (entries k log) + 1) by lia.
  destruct (prepared_spec pWal1 shm1 log k p o1) as (p' & shm2 & Hprep & Hready & Hh2); try done.
  { by eapply log_ok_grow. }
  { destruct Hclean as [?|<-]; [left; by eapply tail_clean_grow|right]. by destruct Hs1 as [-> _]. }
  unfold prepared in Hprep. destruct (if _ =? 1 then _ else Some p) as [p1|]; [|done]. cbn [mbind option_bind] in Hprep |- *.
  destruct (pgno_get k p1 _) as [v|]; [|done]. cbn [mbind option_bind] in Hprep |- *. rewrite Hprep. cbn [mbind option_bind].
  pose proof Hready as (Hat' & Hok & _). rewrite Hat'. cbn [mbind option_bind].
  destruct (probe_write k p' log q) as (iKey & -> & Hnew); [done..|]. cbn [mbind option_bind].
  unfold page_at at 1. apply page_at_mapped in Hat' as [-> _]. cbn [pages set_pages]. rewrite lookup_insert_eq. cbn [mbind option_bind].
  eexists. split; [done|]. rewrite insert_insert_eq.
  change (set_pages (set_pages shm2 ?x) ?y) with (set_pages shm2 y). fold (write_entry k (len (entries k log) + 1) q p' iKey).
  eapply (append_result_trans pWal pWal1 shm shm2); [done|rewrite Hh2; apply Hg1|intros Ho; by apply Ho1|].
  apply write_spec; (done || lia).
Qed.
End log.
