(* ===== verification/WalFind.v ===== *)
(** * Write-ahead log: the search for a frame

    [sqlite3WalFindFrame] on a log that other connections may have made longer
    finds the newest frame of a page among those of the snapshot of the reader, and
    the linear search finds the same. *)
From S2P Require Import Prelude WalIndex WalLog.
From stdpp Require Import gmap.
Local Open Scope Z_scope.

(** The page number of the frame [i]. *)
Definition frame (log : list Z) (i : Z) : option Z := log !! Z.to_nat (i - 1).

(** [r] is the newest frame of the page [q] from [lo] to [hi], 0 if there is
    none. *)
Definition newest_frame (log : list Z) (q lo hi r : Z) : Prop :=
  (r = 0 ∧ ∀ i, lo ≤ i ≤ hi → frame log i ≠ Some q) ∨
  (lo ≤ r ≤ hi ∧ frame log r = Some q ∧ ∀ i, r < i ≤ hi → frame log i ≠ Some q).

Section find.
Implicit Types (pWal : Wal) (shm : Shm) (o : list Z) (log : list Z) (p : IndexPage) (k q i : Z).

Lemma newest_frame_unique log q lo hi r r' : 1 ≤ lo → newest_frame log q lo hi r → newest_frame log q lo hi r' → r = r'.
Proof.
  intros Hlo [[-> H1]|(Hr & Hq & H1)] [[-> H2]|(Hr' & Hq' & H2)].
  - done.
  - by destruct (H1 r').
  - by destruct (H2 r).
  - destruct (Z.lt_trichotomy r r') as [?|[?|?]]; [by destruct (H1 r'); [lia|]|done|by destruct (H2 r); [lia|]].
Qed.

(** Frames beyond the snapshot do not matter. *)
Lemma newest_frame_app log log' q lo hi r : 1 ≤ lo → hi ≤ len log → newest_frame (log ++ log') q lo hi r ↔ newest_frame log q lo hi r.
Proof.
  intros Hlo Hhi. assert (∀ i, lo ≤ i ≤ hi → frame (log ++ log') i = frame log i) as E by (intros i Hi; unfold frame; by rewrite lookup_app_l by lia).
  unfold newest_frame. split; intros [[-> H]|(Hr & Hq & H)]; [left|right|left|right]; (split; [done|]).
  - intros i Hi. rewrite <-E by done. by apply H.
  - rewrite <-E by lia. split; [done|]. intros i Hi. rewrite <-E by lia. by apply H.
  - intros i Hi. rewrite E by done. by apply H.
  - rewrite E by lia. split; [done|]. intros i Hi. rewrite E by lia. by apply H.
Qed.

(** The candidates of a table are frames of the snapshot. *)
Lemma candidate_frame pWal k log p q j :
  0 ≤ k → holds k p (entries k log) → mxFrame (hdr pWal) ≤ len log → 1 ≤ minFrame pWal →
  candidate pWal k (entries k log) q j ↔
    1 ≤ j ∧ walFramePage (zero_of k + j) = k ∧ frame log (zero_of k + j) = Some q ∧ minFrame pWal ≤ zero_of k + j ≤ mxFrame (hdr pWal).
Proof.
  intros Hk Hok Hmx Hmin. pose proof (zero_of_nonneg k Hk) as Hz. pose proof (entries_length k log Hk) as Hel. unfold candidate, frame. split.
  - intros (Hj & Hq & Hr). assert (j ≤ capacity_of k) as Hjc.
    { apply lookup_lt_Some in Hq. destruct Hok as (_ & Hcap & _). lia. }
    split; [done|]. split; [apply frame_page_unique; lia|]. split; [|done]. rewrite entries_lookup in Hq by lia. exact Hq.
  - intros (Hj & Hp & Hq & Hr). split; [done|]. split; [|done]. destruct (frame_page (zero_of k + j)) as (_ & _ & Hhi); [lia|].
    rewrite Hp in Hhi. rewrite entries_lookup by lia. done.
Qed.

(** ** The tables *)

(** The frames in tables above [k] are of other pages, and these tables are mapped. *)
Definition searched pWal log (mx q k : Z) : Prop :=
  ∀ i, minFrame pWal ≤ i ≤ mx → k < walFramePage i → frame log i ≠ Some q ∧ is_mapped pWal (walFramePage i) = true.

(** What the search returns. *)
Definition find_result pWal shm log q o (r : Z * option Z * Wal * Shm * list Z) : Prop :=
  let '(rc, iRead, pWal', shm', o') := r in
  shm' = shm ∧ conn_ok pWal' shm ∧ same_conn pWal pWal' ∧ (o = [] → rc = SQLITE_OK ∧ o' = []) ∧ (rc ≠ SQLITE_OK → iRead = None) ∧
  (rc = SQLITE_OK → ∃ r, iRead = Some r ∧ newest_frame log q (minFrame pWal) (mxFrame (hdr pWal)) r ∧
    ∀ i, minFrame pWal ≤ i → r ≤ i ≤ mxFrame (hdr pWal) → is_mapped pWal' (walFramePage i) = true).

Lemma newest_step pWal k log p q r :
  0 ≤ k → holds k p (entries k log) → mxFrame (hdr pWal) ≤ len log → 1 ≤ minFrame pWal →
  newest pWal k (entries k log) q r → (∀ i, minFrame pWal ≤ i ≤ mxFrame (hdr pWal) → k < walFramePage i → frame log i ≠ Some q) →
  if r =? 0 then ∀ i, minFrame pWal ≤ i ≤ mxFrame (hdr pWal) → k - 1 < walFramePage i → frame log i ≠ Some q
  else newest_frame log q (minFrame pWal) (mxFrame (hdr pWal)) r ∧ walFramePage r = k.
Proof.
  intros Hk Hok Hmx Hmin Hnew Hup. pose proof (zero_of_nonneg k Hk) as Hz. pose proof (candidate_frame pWal k log p q) as Hcf.
  assert (∀ i, minFrame pWal ≤ i ≤ mxFrame (hdr pWal) → walFramePage i = k → frame log i = Some q →
    candidate pWal k (entries k log) q (i - zero_of k)) as Hcand.
  { intros i Hi Hp Hq. destruct (frame_page i) as (_ & Hlo & _); [lia|]. apply Hcf; try done. replace (zero_of k + (i - zero_of k)) with i by lia.
    rewrite Hp in Hlo. split_and!; (done || lia). }
  destruct Hnew as [[-> Hno]|(j & Hc & -> & Hmax)].
  - rewrite Z.eqb_refl. intros i Hi Hp Hq. destruct (decide (walFramePage i = k)) as [E|]; [by apply (Hno _ (Hcand i Hi E Hq))|].
    apply (Hup i); [lia|lia|done].
  - apply Hcf in Hc as (Hj & Hp & Hq & Hr); try done. destruct (Z.eqb_spec (zero_of k + j) 0); [lia|]. split; [|done]. right. split; [done|].
    split; [done|]. intros i Hi Hqi. pose proof (frame_page_mono (zero_of k + j) i) as Hm. destruct (decide (walFramePage i = k)) as [E|Hne].
    + pose proof (Hmax _ (Hcand i ltac:(lia) E Hqi)). lia.
    + apply (Hup i); [lia|lia|done].
Qed.

Lemma find_result_trans pWal pWal1 shm log q o o1 r :
  same_conn pWal pWal1 → (o = [] → o1 = []) → find_result pWal1 shm log q o1 r → find_result pWal shm log q o r.
Proof.
  destruct r as [[[[rc iRead] pWal'] shm'] o']. intros Hs Ho (-> & Hc & Hs' & Ho' & Herr & Hok). pose proof Hs as (Hh & Hm & _).
  rewrite Hh, Hm in Hok. split_and!; auto; [by eapply same_conn_trans|intros ?; by apply Ho', Ho..].
Qed.

(** Rewriting with it leaves the continuation as it is. *)
Lemma option_bind_some {A B} (f : A → option B) (a : A) : Some a ≫= f = f a.
Proof. done. Qed.

Lemma find_tables_spec (n : nat) : ∀ pWal shm log q k o,
  conn_ok pWal shm → log_ok shm log → mxFrame (hdr pWal) ≤ len log → 1 ≤ minFrame pWal → len log + 1 < 2 ^ 31 →
  Z.of_nat n = Z.max 0 (k - walFramePage (minFrame pWal) + 1) → k ≤ walFramePage (mxFrame (hdr pWal)) → 1 ≤ mxFrame (hdr pWal) →
  searched pWal log (mxFrame (hdr pWal)) q k →
  ∃ r, find_tables n pWal shm q k o = Some r ∧ find_result pWal shm log q o r.
Proof.
  induction n as [|n IH]; intros pWal shm log q k o Hconn Hlog Hmx Hmin Hlen Hn Hkm Hmx1 Hup; cbn [find_tables].
  { eexists. split; [done|]. split; [done|]. split; [done|]. split; [apply same_conn_refl|]. split; [by intros ->|]. split; [done|].
    intros _. exists 0. split; [done|]. assert (∀ i, minFrame pWal ≤ i → k < walFramePage i) as Hk.
    { intros i Hi. pose proof (frame_page_mono (minFrame pWal) i). lia. }
    split; [left; split; [done|]|]; intros i Hi; [|intros Hi'];
      (destruct (Hup i) as [H1 H2]; [lia|apply Hk; lia|done]). }
  destruct (frame_page (minFrame pWal)) as (Hk0 & _); [done|]. assert (0 ≤ k) as Hk by lia. set (mx := mxFrame (hdr pWal)) in *.
  destruct (frame_page mx) as (_ & Hlo & _); [lia|].
  assert (zero_of k < mx) as Hzk.
  { destruct (decide (k = walFramePage mx)) as [->|]; [done|]. pose proof (zero_of_mono k (walFramePage mx)). pose proof (capacity_bounds k). lia. }
  assert (entries k log ≠ []) as Hne.
  { intros E. pose proof (entries_length k log Hk) as Hel. rewrite E in Hel. cbn in Hel. pose proof (capacity_bounds k). lia. }
  destruct (log_ok_table shm log k Hlog Hk Hne) as (p & Hp & Hok).
  pose proof (walIndexPage_spec pWal shm k o Hconn Hk) as Hres. unfold walHashGet.
  destruct (walIndexPage pWal shm k o) as [[[rc pWal1] shm1] o1].
  assert (shm1 = shm) as -> by (eapply page_result_exists; [exact Hres|done|by eexists]).
  destruct Hres as (Hc1 & Hs1 & _ & _ & Hok1 & Ho1 & _). destruct (Z.eqb_spec rc SQLITE_OK) as [->|Hrc]; cbn [negb].
  2: { eexists. split; [done|]. split; [done|]. split; [done|]. split; [exact Hs1|]. split; [done|]. split; [done|]. done. }
  destruct (Hok1 eq_refl) as [Hat _]. rewrite Hp in Hat. rewrite Hat, option_bind_some.
  pose proof Hs1 as (Hh & Hm & _ & _ & _ & _ & _ & _ & Hmono).
  destruct (find_table_spec pWal1 k p _ q Hok) as (r & -> & Hnew); [rewrite Hh, entries_length by done; fold mx; pose proof (capacity_bounds k); lia|done|lia|]. rewrite option_bind_some.
  assert (1 ≤ minFrame pWal1) as Hmin1 by lia. assert (mxFrame (hdr pWal1) = mx) as Hmx' by (by rewrite Hh).
  pose proof (newest_step pWal1 k log p q r Hk Hok ltac:(lia) Hmin1 Hnew) as Hstep. rewrite Hmx' in Hstep.
  rewrite Hm in Hstep. specialize (Hstep (λ i Hi Hpi, proj1 (Hup i Hi Hpi))).
  assert (∀ i, minFrame pWal ≤ i ≤ mx → k - 1 < walFramePage i → is_mapped pWal1 (walFramePage i) = true) as Hmapped.
  { intros i Hi Hpi. destruct (decide (walFramePage i = k)) as [->|]; [by apply page_at_mapped in Hat as [? _]|]. apply Hmono; [lia|]. apply Hup; lia. }
  destruct (Z.eqb_spec r 0) as [->|Hr0].
  - destruct (IH pWal1 shm log q (k - 1) o1) as (r & -> & Hr); try done; [lia|rewrite Hm; lia|rewrite Hh; fold mx; lia|by rewrite Hmx'| |].
    + rewrite Hmx'. intros i Hi Hpi. rewrite Hm in Hi. split; [by apply Hstep|by apply Hmapped].
    + eexists. split; [done|]. eapply find_result_trans; [exact Hs1| |exact Hr]. intros ?. by apply Ho1.
  - destruct Hstep as [Hnew' Hpr]. eexists. split; [done|]. split; [done|]. split; [done|]. split; [exact Hs1|]. split; [intros ?; by apply Ho1|].
    split; [done|]. intros _. exists r. split; [done|]. split; [done|]. intros i Hi Hi'. apply Hmapped; [lia|].
    pose proof (frame_page_mono r i). destruct Hnew' as [[? _]|(? & _)]; lia.
Qed.

Lemma sqlite3WalFindFrame_spec pWal shm log q o :
  conn_ok pWal shm → log_ok shm log → 0 ≤ mxFrame (hdr pWal) ≤ len log → 1 ≤ minFrame pWal → readLock pWal ≠ 0 → len log + 1 < 2 ^ 31 →
  ∃ r, sqlite3WalFindFrame pWal shm q o = Some r ∧
    (mxFrame (hdr pWal) = 0 ∧ r = (SQLITE_OK, Some 0, pWal, shm, o) ∨ 0 < mxFrame (hdr pWal) ∧ find_result pWal shm log q o r).
Proof.
  intros Hconn Hlog Hmx Hmin Hlock Hlen. unfold sqlite3WalFindFrame. destruct (Z.eqb_spec (readLock pWal) 0); [done|].
  destruct (Z.eqb_spec (mxFrame (hdr pWal)) 0) as [E|Hne]; cbn [orb]; [eexists; split; [done|by left]|].
  destruct (find_tables_spec (Z.to_nat (walFramePage (mxFrame (hdr pWal)) - walFramePage (minFrame pWal) + 1)) pWal shm log q
    (walFramePage (mxFrame (hdr pWal))) o) as (r & Hr & Hres); try done; [lia..|lia| |].
  - intros i Hi Hp. pose proof (frame_page_mono i (mxFrame (hdr pWal))). lia.
  - exists r. split; [exact Hr|]. right. split; [lia|done].
Qed.

(** ** The linear search *)

Lemma walFramePgno_spec pWal shm log i :
  log_ok shm log → 1 ≤ i ≤ len log → is_mapped pWal (walFramePage i) = true → walFramePgno pWal shm i = frame log i.
Proof.
  intros Hlog Hi Hm. unfold walFramePgno. set (k := walFramePage i) in *. destruct (frame_page i) as (Hk & Hlo & Hhi); [lia|]. fold k in Hk, Hlo, Hhi.
  pose proof (capacity_bounds k) as Hc. pose proof (entries_length k log Hk) as Hel.
  destruct (log_ok_table shm log k Hlog Hk) as (p & Hp & Hok); [intros E; rewrite E in Hel; cbn in Hel; lia|].
  unfold page_at. rewrite Hm, Hp. cbn [mbind option_bind]. destruct Hok as (_ & _ & _ & Hget & _). specialize (Hget (i - zero_of k) ltac:(lia)).
  rewrite entries_lookup in Hget by lia. replace (zero_of k + (i - zero_of k) - 1) with (i - 1) in Hget by lia.
  destruct (lookup_lt_is_Some_2 log (Z.to_nat (i - 1))) as [q Hq]; [lia|]. unfold frame. rewrite Hq in Hget |- *. rewrite <-Hget.
  unfold pgno_get, pgno_offset, zero_of in *. destruct (Z.eqb_spec k 0) as [->|Hne].
  - f_equal. lia.
  - f_equal. unfold capacity_of in Hhi. destruct (Z.eqb_spec k 0); [done|]. symmetry. apply (Z.mod_unique_pos _ _ (k - 1)); lia.
Qed.

Lemma linear_search_spec (n : nat) pWal shm log q i r :
  log_ok shm log → 1 ≤ minFrame pWal → i ≤ len log → (i < Z.of_nat n ∨ minFrame pWal > i) → newest_frame log q (minFrame pWal) i r →
  (∀ j, minFrame pWal ≤ j → r ≤ j ≤ i → is_mapped pWal (walFramePage j) = true) → linear_search n pWal shm q i = Some r.
Proof.
  intros Hlog Hmin. revert i. induction n as [|n IH]; intros i Hi Hn Hr Hmap; cbn [linear_search].
  - destruct Hr as [[-> _]|(? & _)]; [done|lia].
  - destruct (Z.leb_spec (minFrame pWal) i) as [Hle|Hlt]; [|destruct Hr as [[-> _]|(? & _)]; [done|lia]].
    assert (r ≤ i) as Hri by (destruct Hr as [[-> _]|(? & _)]; lia).
    rewrite (walFramePgno_spec _ _ log) by (done || lia || apply Hmap; lia). unfold frame at 1.
    destruct (lookup_lt_is_Some_2 log (Z.to_nat (i - 1))) as [v Hv]; [lia|]. rewrite Hv. cbn [mbind option_bind].
    destruct (Z.eqb_spec v q) as [->|Hne].
    + destruct Hr as [[-> Hno]|(Hr & Hq & Hno)]; [by destruct (Hno i); [lia|]|]. destruct (decide (r = i)) as [->|]; [done|]. by destruct (Hno i); [lia|].
    + assert (frame log i ≠ Some q) as Hnq by (unfold frame; rewrite Hv; congruence). apply IH; [lia|lia| |intros j Hj Hj'; apply Hmap; lia].
      destruct Hr as [[-> Hno]|(Hr & Hq & Hno)]; [left; split; [done|]; intros j Hj; apply Hno; lia|]. right.
      assert (r ≠ i) by (intros ->; done). split; [lia|]. split; [done|]. intros j Hj. apply Hno. lia.
Qed.

(** ** Undo *)

(** The calls of [xUndo] on a list of page numbers, up to an error. *)
Fixpoint visit {C} (xUndo : C → Z → Z * C) (ctx : C) (l : list Z) : Z * C :=
  match l with
  | [] => (SQLITE_OK, ctx)
  | q :: l => let '(rc, ctx) := xUndo ctx q in if rc =? SQLITE_OK then visit xUndo ctx l else (rc, ctx)
  end.

Lemma undo_loop_spec {C} (xUndo : C → Z → Z * C) (n : nat) pWal shm log ctx i :
  log_ok shm log → 0 ≤ i → i + Z.of_nat n ≤ len log → (∀ j, i < j ≤ i + Z.of_nat n → is_mapped pWal (walFramePage j) = true) →
  undo_loop n xUndo ctx pWal shm (i + 1) = Some (visit xUndo ctx (take n (drop (Z.to_nat i) log))).
Proof.
  intros Hlog. revert ctx i. induction n as [|n IH]; intros ctx i Hi Hn Hmap; cbn [undo_loop]; [by rewrite take_0|].
  rewrite (walFramePgno_spec _ _ log) by (done || lia || apply Hmap; lia). unfold frame. replace (i + 1 - 1) with i by lia.
  destruct (lookup_lt_is_Some_2 log (Z.to_nat i)) as [v Hv]; [lia|]. rewrite Hv. cbn [mbind option_bind].
  rewrite (drop_S _ _ _ Hv). cbn [take visit]. destruct (xUndo ctx v) as [rc ctx']. destruct (rc =? SQLITE_OK); [|done].
  rewrite IH by (lia || intros j Hj; apply Hmap; lia). by replace (Z.to_nat (i + 1)) with (S (Z.to_nat i)) by lia.
Qed.
End find.
