(* ===== verification/WalFile.v ===== *)
(** * Write-ahead log: the file

    The checksums, the frames and the header of the log file of wal.c (in
    sqlite3.c), the header of the wal-index, and recovery: reading the file to
    build the wal-index again.

    The functions run in a monad over a connection, the memory it shares with
    others, its locks, the two files and the outcomes of the calls to the operating
    system. A read or a
    write takes the next outcome; one that fails does not change the file. *)
From S2P Require Import Prelude Words Varint WalIndex.
From stdpp Require Import gmap.
Local Open Scope Z_scope.

(** ** Constants *)

Definition SQLITE_BUSY : Z := 5.
Definition SQLITE_CANTOPEN : Z := 14.
Definition SQLITE_IOERR_SHORT_READ : Z := 522.
Definition WAL_MAX_VERSION : Z := 3007000.
Definition WALINDEX_MAX_VERSION : Z := 3007000.
Definition WAL_FRAME_HDRSIZE : Z := 24.
Definition WAL_HDRSIZE : Z := 32.
Definition WAL_MAGIC : Z := 0x377f0682.
Definition SQLITE_MAX_PAGE_SIZE : Z := 65536.
Definition WAL_WRITE_LOCK : Z := 0.
Definition WAL_ALL_BUT_WRITE : Z := 1.
Definition WAL_CKPT_LOCK : Z := 1.
Definition WAL_RECOVER_LOCK : Z := 2.
Definition WAL_READ_LOCK (i : Z) : Z := 3 + i.
Definition SQLITE_SHM_NLOCK : Z := 8.
Definition walFrameOffset (iFrame szPage : Z) : Z := WAL_HDRSIZE + (iFrame - 1) * (szPage + WAL_FRAME_HDRSIZE).

(** ** The state *)

Inductive lock := Unlocked | Shared | Exclusive.
#[global] Instance lock_eq_dec : EqDecision lock.
Proof. solve_decision. Defined.

(** The locks that the connection holds are a list of [SQLITE_SHM_NLOCK].
    [others] is what other connections do to the shared memory: each call for a
    lock and each memory barrier lets the next of them happen. [theirs] are the
    locks that other connections hold all the time; a lock that one holds only for
    a while shows as an outcome [SQLITE_BUSY]. *)
Record St := mkSt {
  wal : Wal;
  shm : Shm;
  locks : list lock;
  pWalFd : list Z;
  pDbFd : list Z;
  rcs : list Z;
  others : list (Shm → Shm);
  theirs : list lock
}.

Section setters.
Implicit Types s : St.

Definition set_wal s (x : Wal) : St := mkSt x (shm s) (locks s) (pWalFd s) (pDbFd s) (rcs s) (others s) (theirs s).
Definition set_shm s (x : Shm) : St := mkSt (wal s) x (locks s) (pWalFd s) (pDbFd s) (rcs s) (others s) (theirs s).
Definition set_locks s (x : list lock) : St := mkSt (wal s) (shm s) x (pWalFd s) (pDbFd s) (rcs s) (others s) (theirs s).
Definition set_pWalFd s (x : list Z) : St := mkSt (wal s) (shm s) (locks s) x (pDbFd s) (rcs s) (others s) (theirs s).
Definition set_pDbFd s (x : list Z) : St := mkSt (wal s) (shm s) (locks s) (pWalFd s) x (rcs s) (others s) (theirs s).
Definition set_rcs s (x : list Z) : St := mkSt (wal s) (shm s) (locks s) (pWalFd s) (pDbFd s) x (others s) (theirs s).
Definition set_others s (x : list (Shm → Shm)) : St := mkSt (wal s) (shm s) (locks s) (pWalFd s) (pDbFd s) (rcs s) x (theirs s).
End setters.

(** The result [None] is undefined behaviour of C. *)
Definition M (A : Type) : Type := St → option (A * St).
#[global] Instance M_ret : MRet M := λ A a s, Some (a, s).
#[global] Instance M_bind : MBind M := λ A B f m s, match m s with Some (a, s) => f a s | None => None end.

Definition gets {A} (f : St → A) : M A := λ s, Some (f s, s).
Definition modify (f : St → St) : M () := λ s, Some ((), f s).
Definition lift {A} (m : option A) : M A := λ s, match m with Some a => Some (a, s) | None => None end.
Definition with_wal (f : Wal → Wal) : M () := modify (λ s, set_wal s (f (wal s))).
Definition with_shm (f : Shm → Shm) : M () := modify (λ s, set_shm s (f (shm s))).

(** The next outcome. *)
Definition outcome : M Z := λ s, let '(rc, o) := next_rc (rcs s) in Some (rc, set_rcs s o).

(** Other connections act. *)
Definition interfere : M () := λ s,
  match others s with [] => Some ((), s) | f :: fs => Some ((), set_others (set_shm s (f (shm s))) fs) end.

(** Going on unless there is an error. *)
Definition on_ok (rc : Z) (k : M Z) : M Z := if rc =? SQLITE_OK then k else mret rc.

(** A function of the wal-index. *)
Definition index {A} (f : Wal → Shm → list Z → option (A * Wal * Shm * list Z)) : M A := λ s,
  match f (wal s) (shm s) (rcs s) with
  | Some (a, pWal, shm', o) => Some (a, mkSt pWal shm' (locks s) (pWalFd s) (pDbFd s) o (others s) (theirs s))
  | None => None
  end.

Section run.
Context {A B : Type}.
Implicit Types (st : St) (k : A → M B).

Lemma bind_some st st' (m : M A) k a : m st = Some (a, st') → (m ≫= k) st = k a st'.
Proof. intros E. unfold mbind, M_bind. by rewrite E. Qed.

Lemma bind_inv st (m : M A) k r : (m ≫= k) st = Some r → ∃ a st', m st = Some (a, st') ∧ k a st' = Some r.
Proof. unfold mbind, M_bind. destruct (m st) as [[a st']|]; [by exists a, st'|done]. Qed.

Lemma bind_ret st k a : (mret a ≫= k) st = k a st.
Proof. done. Qed.

Lemma bind_gets st k (f : St → A) : (gets f ≫= k) st = k (f st) st.
Proof. done. Qed.

Lemma bind_lift st k a : (lift (Some a) ≫= k) st = k a st.
Proof. done. Qed.

Lemma bind_with_wal st (k : () → M B) f : (with_wal f ≫= k) st = k () (set_wal st (f (wal st))).
Proof. done. Qed.

Lemma bind_with_shm st (k : () → M B) f : (with_shm f ≫= k) st = k () (set_shm st (f (shm st))).
Proof. done. Qed.

Lemma bind_modify st (k : () → M B) f : (modify f ≫= k) st = k () (f st).
Proof. done. Qed.

Lemma bind_outcome st (k : Z → M B) : (outcome ≫= k) st = let '(rc, o) := next_rc (rcs st) in k rc (set_rcs st o).
Proof. unfold mbind, M_bind, outcome. by destruct (next_rc (rcs st)). Qed.

Lemma bind_assoc {C} st (m : M C) (f : C → M A) k : ((m ≫= f) ≫= k) st = (m ≫= λ x, f x ≫= k) st.
Proof. unfold mbind, M_bind. by destruct (m st) as [[??]|]. Qed.
End run.

(** Running the steps whose result is at hand. *)
Ltac run := repeat first
  [rewrite bind_ret|rewrite bind_gets|rewrite bind_lift|rewrite bind_with_wal|rewrite bind_with_shm|rewrite bind_modify|rewrite bind_assoc]; cbn beta iota.

(** ** Files *)

Definition file_size (d : list Z) : Z := Z.of_nat (length d).

(** Writing past the end fills the gap with zeros. *)
Definition file_write (d : list Z) (off : Z) (bs : list Z) : list Z :=
  let d' := d ++ replicate (Z.to_nat off - length d) 0 in
  take (Z.to_nat off) d' ++ bs ++ drop (Z.to_nat off + length bs) d'.

(** A read past the end fills the rest of the buffer with zeros. *)
Definition sqlite3OsRead (fd : St → list Z) (amt off : Z) : M (Z * list Z) :=
  rc ← outcome;
  if rc =? SQLITE_OK then
    d ← gets fd;
    let bs := take (Z.to_nat amt) (drop (Z.to_nat off) d) in
    if off + amt <=? file_size d then mret (SQLITE_OK, bs)
    else mret (SQLITE_IOERR_SHORT_READ, bs ++ replicate (Z.to_nat amt - length bs) 0)
  else mret (rc, replicate (Z.to_nat amt) 0).

(** A call that changes a file. *)
Definition os_update (f : St → St) : M Z := rc ← outcome; on_ok rc (modify f;; mret SQLITE_OK).

Definition sqlite3OsWrite_wal (bs : list Z) (off : Z) : M Z := os_update (λ s, set_pWalFd s (file_write (pWalFd s) off bs)).
Definition sqlite3OsWrite_db (bs : list Z) (off : Z) : M Z := os_update (λ s, set_pDbFd s (file_write (pDbFd s) off bs)).
Definition sqlite3OsSync : M Z := outcome.

(** The size, 0 if there is an error. *)
Definition sqlite3OsFileSize (fd : St → list Z) : M (Z * Z) :=
  rc ← outcome; d ← gets fd; mret (rc, if rc =? SQLITE_OK then file_size d else 0).

(** ** Locks *)

Definition locks_with (idx n : Z) (l : lock) (ls : list lock) : list lock :=
  take (Z.to_nat idx) ls ++ replicate (Z.to_nat n) l ++ drop (Z.to_nat (idx + n)) ls.
Definition set_range (idx n : Z) (l : lock) : M () := modify (λ s, set_locks s (locks_with idx n l (locks s))).

(** Whether a lock is refused to one connection while others hold another. *)
Definition conflicts (l held : lock) : bool :=
  match l, held with _, Unlocked => false | Shared, Shared => false | _, _ => true end.
Definition blocked (idx n : Z) (l : lock) (s : St) : bool :=
  existsb (conflicts l) (take (Z.to_nat n) (drop (Z.to_nat idx) (theirs s))).

(** The call of [sqlite3OsShmLock] to take [n] locks from [idx] on. *)
Definition walLock (idx n : Z) (l : lock) : M Z :=
  pWal ← gets wal;
  if negb (exclusiveMode pWal =? 0) then mret SQLITE_OK
  else
    rc ← outcome; interfere;;
    on_ok rc (busy ← gets (blocked idx n l); if busy : bool then mret SQLITE_BUSY else set_range idx n l;; mret SQLITE_OK).
Definition walUnlock (idx n : Z) : M () :=
  pWal ← gets wal; if negb (exclusiveMode pWal =? 0) then mret () else set_range idx n Unlocked.

(** No locks of others are in the way. *)
Definition all_free (st : St) : Prop := Forall (λ l, l = Unlocked) (theirs st).

Lemma free_blocked idx n l st : all_free st → blocked idx n l st = false.
Proof.
  intros Hf. unfold blocked. assert (Forall (λ l', l' = Unlocked) (take (Z.to_nat n) (drop (Z.to_nat idx) (theirs st)))) as Hf' by (by apply Forall_take, Forall_drop).
  induction Hf' as [|l' ls -> _ IH]; [done|]. cbn [existsb]. by destruct l.
Qed.

Lemma walLock_run idx n l st :
  others st = [] →
  walLock idx n l st =
    if negb (exclusiveMode (wal st) =? 0) then Some (SQLITE_OK, st)
    else let '(rc, o) := next_rc (rcs st) in
      let rc := if rc =? SQLITE_OK then if blocked idx n l st then SQLITE_BUSY else SQLITE_OK else rc in
      if rc =? SQLITE_OK then Some (SQLITE_OK, set_locks (set_rcs st o) (locks_with idx n l (locks st))) else Some (rc, set_rcs st o).
Proof.
  intros Ho. unfold walLock. run. destruct (negb _); [done|]. rewrite bind_outcome. destruct (next_rc (rcs st)) as [rc o].
  rewrite (bind_some _ (set_rcs st o) _ _ ()) by (unfold interfere; cbn; by rewrite Ho). unfold on_ok. destruct (rc =? SQLITE_OK) eqn:E; [|by rewrite E].
  run. change (blocked idx n l (set_rcs st o)) with (blocked idx n l st). by destruct (blocked idx n l st).
Qed.

(** What taking a lock returns. *)
Lemma walLock_result idx n l st :
  others st = [] → ∃ rc ls o, walLock idx n l st = Some (rc, set_locks (set_rcs st o) ls) ∧ (rcs st = [] ∧ all_free st → rc = SQLITE_OK ∧ o = []) ∧
    (exclusiveMode (wal st) = 0 → blocked idx n l st = true → rc ≠ SQLITE_OK).
Proof.
  intros Ho. rewrite walLock_run by done. destruct (Z.eqb_spec (exclusiveMode (wal st)) 0); cbn [negb].
  2: { exists SQLITE_OK, (locks st), (rcs st). split; [by destruct st|]. by split; [intros [? _]|]. }
  destruct (next_rc (rcs st)) as [rc o] eqn:Eo. cbv zeta. set (rc' := if rc =? SQLITE_OK then _ else rc).
  exists rc', (if rc' =? SQLITE_OK then locks_with idx n l (locks st) else locks st), o. split; [|split].
  - destruct (Z.eqb_spec rc' SQLITE_OK) as [->|]; [done|by destruct st].
  - intros [Hr Hf]. rewrite Hr in Eo. injection Eo as <- <-. split; [|done]. subst rc'. by rewrite free_blocked.
  - intros _ Hb. subst rc'. rewrite Hb. by destruct (Z.eqb_spec rc SQLITE_OK).
Qed.

Lemma walUnlock_run idx n st :
  walUnlock idx n st = Some ((), if negb (exclusiveMode (wal st) =? 0) then st else set_locks st (locks_with idx n Unlocked (locks st))).
Proof. unfold walUnlock. run. by destruct (negb _). Qed.

Definition walLockShared (lockIdx : Z) : M Z := walLock lockIdx 1 Shared.
Definition walUnlockShared (lockIdx : Z) : M () := walUnlock lockIdx 1.
Definition walLockExclusive (lockIdx n : Z) : M Z := walLock lockIdx n Exclusive.
Definition walUnlockExclusive (lockIdx n : Z) : M () := walUnlock lockIdx n.

Definition walShmBarrier : M () := pWal ← gets wal; if negb (exclusiveMode pWal =? WAL_HEAPMEMORY_MODE) then interfere else mret ().

Section file.
Context `{Machine} (has_bswap : bool).

(** ** Checksums *)

Definition SQLITE_BIGENDIAN : Z := if little_endian then 0 else 1.

Definition BYTESWAP32 (x : Z) : Z :=
  u32 (Z.shiftl (Z.land x 0x000000FF) 24 + Z.shiftl (Z.land x 0x0000FF00) 8 +
       Z.shiftr (Z.land x 0x00FF0000) 8 + Z.shiftr (Z.land x 0xFF000000) 24).

(** The two loops, on 8 bytes at a time. *)
Fixpoint checksum_loop (nativeCksum : bool) (a : list Z) (s : Z * Z) : Z * Z :=
  match a with
  | b0 :: b1 :: b2 :: b3 :: b4 :: b5 :: b6 :: b7 :: a =>
    let x0 := native_word [b0; b1; b2; b3] in
    let x1 := native_word [b4; b5; b6; b7] in
    let s1 := u32 (fst s + u32 ((if nativeCksum then x0 else BYTESWAP32 x0) + snd s)) in
    let s2 := u32 (snd s + u32 ((if nativeCksum then x1 else BYTESWAP32 x1) + s1)) in
    checksum_loop nativeCksum a (s1, s2)
  | _ => s
  end.

Definition walChecksumBytes (nativeCksum : bool) (a : list Z) (aIn : option (Z * Z)) : Z * Z :=
  checksum_loop nativeCksum a (default (0, 0) aIn).

(** ** Frames *)

(** [sqlite3Get4byte(&a[i])] and [sqlite3Put4byte(&a[i], v)]. *)
Definition get4 (a : list Z) (i : nat) : option Z := sqlite3Get4byte has_bswap (drop i a).
Definition put4 (a : list Z) (i : nat) (v : Z) : option (list Z) :=
  c ← sqlite3Put4byte has_bswap (drop i a) v; Some (take i a ++ c).

(** [memcpy(&a[i], bs, ...)]. *)
Definition put_bytes (a : list Z) (i : nat) (bs : list Z) : list Z := take i a ++ bs ++ drop (i + length bs) a.

(** The frame header in [aFrame], and the connection with the new checksum. *)
Definition walEncodeFrame (pWal : Wal) (iPage nTruncate : Z) (aData aFrame : list Z) : option (list Z * Wal) :=
  let aCksum := aFrameCksum (hdr pWal) in
  aFrame ← put4 aFrame 0 iPage;
  aFrame ← put4 aFrame 4 nTruncate;
  if iReCksum pWal =? 0 then
    let aFrame := put_bytes aFrame 8 (aSalt (hdr pWal)) in
    let nativeCksum := bigEndCksum (hdr pWal) =? SQLITE_BIGENDIAN in
    let aCksum := walChecksumBytes nativeCksum (take 8 aFrame) (Some aCksum) in
    let aCksum := walChecksumBytes nativeCksum (take (Z.to_nat (wal_szPage pWal)) aData) (Some aCksum) in
    aFrame ← put4 aFrame 16 (fst aCksum);
    aFrame ← put4 aFrame 20 (snd aCksum);
    Some (aFrame, set_hdr pWal (set_aFrameCksum (hdr pWal) aCksum))
  else Some (put_bytes aFrame 8 (replicate 16 0), pWal).

(** The page number and the size of a valid frame. *)
Definition walDecodeFrame (pWal : Wal) (aData aFrame : list Z) : option (option (Z * Z) * Wal) :=
  let aCksum := aFrameCksum (hdr pWal) in
  if negb (bool_decide (aSalt (hdr pWal) = take 8 (drop 8 aFrame))) then Some (None, pWal)
  else
    pgno ← get4 aFrame 0;
    if pgno =? 0 then Some (None, pWal)
    else
      let nativeCksum := bigEndCksum (hdr pWal) =? SQLITE_BIGENDIAN in
      let aCksum := walChecksumBytes nativeCksum (take 8 aFrame) (Some aCksum) in
      let aCksum := walChecksumBytes nativeCksum (take (Z.to_nat (wal_szPage pWal)) aData) (Some aCksum) in
      let pWal := set_hdr pWal (set_aFrameCksum (hdr pWal) aCksum) in
      c1 ← get4 aFrame 16;
      c2 ← (if negb (fst aCksum =? c1) then Some 0 else get4 aFrame 20);
      if negb (fst aCksum =? c1) || negb (snd aCksum =? c2) then Some (None, pWal)
      else nTruncate ← get4 aFrame 4; Some (Some (pgno, nTruncate), pWal).

(** ** The header of the wal-index *)

Definition native_bytes2 (w : Z) : list Z := if little_endian then le_bytes 2 w else be_bytes 2 w.

(** The bytes of the header in memory, up to [aCksum]. *)
Definition hdr_bytes (h : WalIndexHdr) : list Z :=
  native_bytes (iVersion h) ++ native_bytes (unused h) ++ native_bytes (iChange h) ++ [isInit h; bigEndCksum h] ++
  native_bytes2 (hdr_szPage h) ++ native_bytes (mxFrame h) ++ native_bytes (nPage h) ++
  native_bytes (fst (aFrameCksum h)) ++ native_bytes (snd (aFrameCksum h)) ++ aSalt h.

Definition set_hdrs (s : Shm) (h0 h1 : WalIndexHdr) : Shm := mkShm h0 h1 (ckpt s) (pages s).
Definition set_ckpt (s : Shm) (c : WalCkptInfo) : Shm := mkShm (shm_hdr0 s) (shm_hdr1 s) c (pages s).

(** [pWal->hdr] with its checksum. *)
Definition sealed (h : WalIndexHdr) : WalIndexHdr :=
  let h := set_iVersion (set_isInit h 1) WALINDEX_MAX_VERSION in
  set_aCksum h (walChecksumBytes true (hdr_bytes h) None).

Definition walIndexWriteHdr : M () :=
  with_wal (λ w, set_hdr w (sealed (hdr w)));;
  h ← gets (λ s, hdr (wal s));
  with_shm (λ m, set_hdrs m (shm_hdr0 m) h);;
  walShmBarrier;;
  with_shm (λ m, set_hdrs m h (shm_hdr1 m)).

Definition zero_hdr : WalIndexHdr := mkWalIndexHdr 0 0 0 0 0 0 0 0 (0, 0) (replicate 8 0) (0, 0).

(** ** Recovery *)

(** [pWal->hdr.szPage], in which 1 stands for 65536. *)
Definition szPage_field (szPage : Z) : Z := wrap 16 (Z.lor (Z.land szPage 0xff00) (Z.shiftr szPage 16)).

(** The loop over the frames, of at most [n]: the result code and the checksum of
    the last commit. *)
Fixpoint recover_loop (n : nat) (szPage nSize iFrame iOffset : Z) (cksum : Z * Z) : M (Z * (Z * Z)) :=
  match n with
  | O => mret (SQLITE_OK, cksum)
  | S n =>
    let szFrame := szPage + WAL_FRAME_HDRSIZE in
    if iOffset + szFrame <=? nSize then
      let iFrame := iFrame + 1 in
      '(rc, aFrame) ← sqlite3OsRead pWalFd szFrame iOffset;
      if negb (rc =? SQLITE_OK) then mret (rc, cksum)
      else
        pWal ← gets wal;
        '(valid, pWal) ← lift (walDecodeFrame pWal (drop (Z.to_nat WAL_FRAME_HDRSIZE) aFrame) aFrame);
        with_wal (λ _, pWal);;
        match valid with
        | None => mret (SQLITE_OK, cksum)
        | Some (pgno, nTruncate) =>
          rc ← index (λ w m o, walIndexAppend w m iFrame pgno o);
          if negb (rc =? SQLITE_OK) then mret (rc, cksum)
          else if negb (nTruncate =? 0) then
            with_wal (λ w, set_hdr w (set_hdr_szPage (set_nPage (set_mxFrame (hdr w) iFrame) nTruncate) (szPage_field szPage)));;
            h ← gets (λ s, hdr (wal s));
            recover_loop n szPage nSize iFrame (iOffset + szFrame) (aFrameCksum h)
          else recover_loop n szPage nSize iFrame (iOffset + szFrame) cksum
        end
    else mret (SQLITE_OK, cksum)
  end.

(** The file has more than a header. The second component is false if the code
    goes to [recovery_error]. *)
Definition recover_file (nSize : Z) : M (Z * bool * (Z * Z)) :=
  '(rc, aBuf) ← sqlite3OsRead pWalFd WAL_HDRSIZE 0;
  if negb (rc =? SQLITE_OK) then mret (rc, false, (0, 0))
  else
    magic ← lift (get4 aBuf 0);
    szPage ← lift (get4 aBuf 8);
    let szPage := s32 szPage in
    if negb (Z.land magic 0xFFFFFFFE =? WAL_MAGIC) || negb (Z.land szPage (szPage - 1) =? 0) ||
       (SQLITE_MAX_PAGE_SIZE <? szPage) || (szPage <? 512)
    then mret (SQLITE_OK, true, (0, 0))
    else
      n ← lift (get4 aBuf 12);
      with_wal (λ w,
        let h := set_aSalt (set_bigEndCksum (hdr w) (u8 (Z.land magic 1))) (take 8 (drop 16 aBuf)) in
        let h := set_aFrameCksum h (walChecksumBytes (bigEndCksum h =? SQLITE_BIGENDIAN) (take 24 aBuf) None) in
        set_hdr (set_nCkpt (set_wal_szPage w szPage) n) h);;
      h ← gets (λ s, hdr (wal s));
      c1 ← lift (get4 aBuf 24);
      c2 ← lift (get4 aBuf 28);
      if negb (fst (aFrameCksum h) =? c1) || negb (snd (aFrameCksum h) =? c2) then mret (SQLITE_OK, true, (0, 0))
      else
        version ← lift (get4 aBuf 4);
        if negb (version =? WAL_MAX_VERSION) then mret (SQLITE_CANTOPEN, true, (0, 0))
        else
          rc ← outcome;
          if negb (rc =? SQLITE_OK) then mret (SQLITE_NOMEM, false, (0, 0))
          else
            '(rc, cksum) ← recover_loop (Z.to_nat nSize) szPage nSize 0 WAL_HDRSIZE (0, 0);
            mret (rc, true, cksum).

(** The code at [finished]. *)
Definition finish_recovery (cks : Z * Z) : M () :=
  with_wal (λ w, set_hdr w (set_aFrameCksum (hdr w) cks));;
  walIndexWriteHdr;;
  h ← gets (λ s, hdr (wal s));
  with_shm (λ m, set_ckpt m (mkWalCkptInfo 0
    ([0; if negb (mxFrame h =? 0) then mxFrame h else READMARK_NOT_USED] ++
     replicate (Z.to_nat (WAL_NREADER - 2)) READMARK_NOT_USED) (mxFrame h))).

(** The code between taking and releasing the locks. *)
Definition recover_locked : M Z :=
  with_wal (λ w, set_hdr w zero_hdr);;
  '(rc, nSize) ← sqlite3OsFileSize pWalFd;
  if negb (rc =? SQLITE_OK) then mret rc
  else
    '(rc, finished, cks) ← (if WAL_HDRSIZE <? nSize then recover_file nSize else mret (SQLITE_OK, true, (0, 0)));
    if finished && (rc =? SQLITE_OK) then finish_recovery cks;; mret rc else mret rc.

Definition walIndexRecover : M Z :=
  pWal ← gets wal;
  let iLock := WAL_ALL_BUT_WRITE + (if ckptLock pWal then 1 else 0) in
  let nLock := SQLITE_SHM_NLOCK - iLock in
  rc ← walLockExclusive iLock nLock;
  on_ok rc (rc ← recover_locked; walUnlockExclusive iLock nLock;; mret rc).
End file.
