(* ===== verification/WalRecover.v ===== *)
(** * Write-ahead log: recovery

    What the file of a log is, apart from the machine that wrote it: frames with a
    chain of checksums over words of one byte order. [walEncodeFrame] writes such
    frames, [walDecodeFrame] accepts nothing else, and [walIndexRecover] builds the
    wal-index of the frames that are there up to the last commit. *)
From S2P Require Import Prelude Words Varint VarintProofs WalIndex WalLog WalFile.
From stdpp Require Import gmap.
Local Open Scope Z_scope.

(** ** The format *)

(** The checksum of the bytes [a], of words with the most significant byte first
    if [be]. *)
Definition word (be : bool) (l : list Z) : Z := if be then be_word l else le_word l.

Fixpoint cksum (be : bool) (a : list Z) (s : Z * Z) : Z * Z :=
  match a with
  | b0 :: b1 :: b2 :: b3 :: b4 :: b5 :: b6 :: b7 :: a =>
    let s1 := u32 (fst s + u32 (word be [b0; b1; b2; b3] + snd s)) in
    let s2 := u32 (snd s + u32 (word be [b4; b5; b6; b7] + s1)) in
    cksum be a (s1, s2)
  | _ => s
  end.

(** A frame: the page number, the size of the database for a commit and 0 for
    other frames, and the page. *)
Record log_frame := mkFrame { f_pgno : Z; f_size : Z; f_data : list Z }.

Definition valid_frame (sz : Z) (f : log_frame) : Prop :=
  0 < f_pgno f < 2 ^ 32 ∧ uint 32 (f_size f) ∧ Z.of_nat (length (f_data f)) = sz ∧ bytes_ok (f_data f).

(** The checksum up to and including a frame. *)
Definition frame_cksum (be : bool) (s : Z * Z) (f : log_frame) : Z * Z :=
  cksum be (f_data f) (cksum be (be_bytes 4 (f_pgno f) ++ be_bytes 4 (f_size f)) s).

Definition frame_header (be : bool) (salt : list Z) (s : Z * Z) (f : log_frame) : list Z :=
  be_bytes 4 (f_pgno f) ++ be_bytes 4 (f_size f) ++ salt ++
  be_bytes 4 (fst (frame_cksum be s f)) ++ be_bytes 4 (snd (frame_cksum be s f)).

Definition frame_bytes (be : bool) (salt : list Z) (s : Z * Z) (f : log_frame) : list Z :=
  frame_header be salt s f ++ f_data f.

Fixpoint frames_bytes (be : bool) (salt : list Z) (s : Z * Z) (fs : list log_frame) : list Z :=
  match fs with
  | [] => []
  | f :: fs => frame_bytes be salt s f ++ frames_bytes be salt (frame_cksum be s f) fs
  end.

(** The header of the file without and with its checksum. *)
Definition file_header0 (be : bool) (sz nCkpt : Z) (salt : list Z) : list Z :=
  be_bytes 4 (Z.lor WAL_MAGIC (Z.b2z be)) ++ be_bytes 4 WAL_MAX_VERSION ++ be_bytes 4 sz ++ be_bytes 4 nCkpt ++ salt.
Definition header_cksum (be : bool) (sz nCkpt : Z) (salt : list Z) : Z * Z := cksum be (file_header0 be sz nCkpt salt) (0, 0).
Definition file_header (be : bool) (sz nCkpt : Z) (salt : list Z) : list Z :=
  let s := header_cksum be sz nCkpt salt in file_header0 be sz nCkpt salt ++ be_bytes 4 (fst s) ++ be_bytes 4 (snd s).

Definition log_bytes (be : bool) (sz nCkpt : Z) (salt : list Z) (fs : list log_frame) : list Z :=
  file_header be sz nCkpt salt ++ frames_bytes be salt (header_cksum be sz nCkpt salt) fs.

(** The bytes [rest] do not start with a valid frame. *)
Definition no_frame (be : bool) (salt : list Z) (s : Z * Z) (sz : Z) (rest : list Z) : Prop :=
  ∀ f rest', valid_frame sz f → rest ≠ frame_bytes be salt s f ++ rest'.

(** The number of frames up to the last commit among [fs], the size of the
    database and the checksum there; [i] frames come before [fs]. *)
Fixpoint committed (be : bool) (s : Z * Z) (i : Z) (fs : list log_frame) (c : Z * Z * (Z * Z)) : Z * Z * (Z * Z) :=
  match fs with
  | [] => c
  | f :: fs =>
    let s := frame_cksum be s f in
    committed be s (i + 1) fs (if f_size f =? 0 then c else (i + 1, f_size f, s))
  end.

Section format.
Implicit Types (be : bool) (salt a : list Z) (s : Z * Z) (f : log_frame) (fs : list log_frame) (sz : Z).

Lemma uint_pair_cksum be a s : uint 32 (fst s) → uint 32 (snd s) → uint 32 (fst (cksum be a s)) ∧ uint 32 (snd (cksum be a s)).
Proof.
  revert s. induction a as [a IH] using (induction_ltof1 _ (@length Z)). unfold ltof in IH. intros s H1 H2.
  do 8 (destruct a as [|? a]; [done|]). cbn [cksum]. apply IH; [cbn; lia|apply wrap_uint; lia..].
Qed.

Lemma frame_cksum_uint be s f : uint 32 (fst s) → uint 32 (snd s) → uint 32 (fst (frame_cksum be s f)) ∧ uint 32 (snd (frame_cksum be s f)).
Proof. intros H1 H2. destruct (uint_pair_cksum be (be_bytes 4 (f_pgno f) ++ be_bytes 4 (f_size f)) s) as [? ?]; [done..|]. by apply uint_pair_cksum. Qed.

Lemma header_cksum_uint be sz nCkpt salt : uint 32 (fst (header_cksum be sz nCkpt salt)) ∧ uint 32 (snd (header_cksum be sz nCkpt salt)).
Proof. apply uint_pair_cksum; apply uint_0; lia. Qed.

Lemma length_frame_header be salt s f : length salt = 8%nat → length (frame_header be salt s f) = 24%nat.
Proof. intros Hs. unfold frame_header. rewrite !length_app, !length_be_bytes, Hs. done. Qed.

Lemma length_frame be salt s f sz : length salt = 8%nat → valid_frame sz f → Z.of_nat (length (frame_bytes be salt s f)) = sz + 24.
Proof. intros Hs (_ & _ & Hl & _). unfold frame_bytes. rewrite length_app, length_frame_header by done. lia. Qed.

Lemma length_file_header be sz nCkpt salt : length salt = 8%nat → length (file_header be sz nCkpt salt) = 32%nat.
Proof. intros Hs. unfold file_header, file_header0. rewrite !length_app, !length_be_bytes, Hs. done. Qed.

Lemma frames_bytes_app be salt s fs fs' :
  frames_bytes be salt s (fs ++ fs') = frames_bytes be salt s fs ++ frames_bytes be salt (foldl (frame_cksum be) s fs) fs'.
Proof. revert s. induction fs as [|f fs IH]; intros s; [done|]. cbn [app frames_bytes foldl]. by rewrite IH, app_assoc. Qed.

Lemma length_frames be salt s fs sz :
  length salt = 8%nat → Forall (valid_frame sz) fs → Z.of_nat (length (frames_bytes be salt s fs)) = Z.of_nat (length fs) * (sz + 24).
Proof.
  intros Hs Hf. revert s. induction Hf as [|f fs Hf _ IH]; intros s; [done|]. cbn [frames_bytes length]. rewrite length_app.
  rewrite Nat2Z.inj_add, (length_frame _ _ _ _ sz) by done. rewrite IH. lia.
Qed.
End format.

Section recover.
Context `{Machine} (has_bswap : bool).
Implicit Types (be : bool) (salt a : list Z) (s : Z * Z) (f : log_frame) (fs : list log_frame) (sz : Z).

(** ** Checksums on any machine *)

Lemma land_byte x n : 0 ≤ n → Z.land x (Z.shiftl 255 n) = Z.shiftl (Z.shiftr x n `mod` 256) n.
Proof.
  intros Hn. change 255 with (Z.ones 8). change 256 with (2 ^ 8). rewrite <-Z.land_ones by lia. rewrite Z.shiftl_land.
  rewrite <-Z.ldiff_ones_r by lia. apply Z.bits_inj'. intros i Hi. rewrite !Z.land_spec, Z.ldiff_spec, Z.shiftl_spec by lia.
  destruct (Z.ltb_spec i n).
  - rewrite (Z.testbit_neg_r _ (i - n)) by lia. by rewrite !andb_false_r.
  - rewrite (Z.ones_spec_high n i) by lia. by rewrite andb_true_r.
Qed.

Lemma BYTESWAP32_spec b0 b1 b2 b3 :
  byte_ok b0 → byte_ok b1 → byte_ok b2 → byte_ok b3 →
  BYTESWAP32 (b0 + 256 * (b1 + 256 * (b2 + 256 * b3))) = b3 + 256 * (b2 + 256 * (b1 + 256 * b0)).
Proof.
  unfold byte_ok, uint. intros H0 H1 H2 H3. unfold BYTESWAP32. set (x := b0 + _).
  change 0x000000FF with (Z.shiftl 255 0). change 0x0000FF00 with (Z.shiftl 255 8). change 0x00FF0000 with (Z.shiftl 255 16).
  change 0xFF000000 with (Z.shiftl 255 24). rewrite !land_byte by lia. rewrite !Z.shiftr_div_pow2, !Z.shiftl_mul_pow2 by lia.
  assert (∀ b y, 0 ≤ b < 256 → (b + 256 * y) / 256 = y ∧ (b + 256 * y) mod 256 = b) as Hdm.
  { intros b y Hb. rewrite (Z.mul_comm 256 y). rewrite Z.div_add, Z.mod_add by lia. rewrite Z.div_small, Z.mod_small; lia. }
  change (2 ^ 0) with 1. rewrite Z.div_1_r. change (2 ^ 8) with 256. change (2 ^ 16) with (256 * 256). change (2 ^ 24) with (256 * 256 * 256).
  rewrite <-!Z.div_div by lia. subst x. repeat (rewrite (proj2 (Hdm _ _ H0)) || rewrite (proj1 (Hdm _ _ H0)) ||
    rewrite (proj2 (Hdm _ _ H1)) || rewrite (proj1 (Hdm _ _ H1)) || rewrite (proj2 (Hdm _ _ H2)) || rewrite (proj1 (Hdm _ _ H2))).
  rewrite Z.mod_small by lia.
  rewrite !Z.mul_assoc, !Z.div_mul by lia. rewrite u32_small; lia.
Qed.

Lemma native_word_be b0 b1 b2 b3 bigEnd :
  byte_ok b0 → byte_ok b1 → byte_ok b2 → byte_ok b3 →
  let x := native_word [b0; b1; b2; b3] in
  (if Z.b2z bigEnd =? SQLITE_BIGENDIAN then x else BYTESWAP32 x) = word bigEnd [b0; b1; b2; b3].
Proof.
  intros H0 H1 H2 H3. unfold native_word, SQLITE_BIGENDIAN, word, be_word.
  destruct little_endian, bigEnd; cbn [Z.b2z Z.eqb rev app le_word]; rewrite ?Z.mul_0_r, ?Z.add_0_r; try done; by apply BYTESWAP32_spec.
Qed.

(** The checksum does not depend on the byte order of the machine. *)
Lemma checksum_loop_spec bigEnd a s : bytes_ok a → checksum_loop (Z.b2z bigEnd =? SQLITE_BIGENDIAN) a s = cksum bigEnd a s.
Proof.
  revert s. induction a as [a IH] using (induction_ltof1 _ (@length Z)). unfold ltof in IH. intros s Ha.
  do 8 (destruct a as [|? a]; [done|]). cbn [checksum_loop cksum].
  repeat match goal with H : bytes_ok (_ :: _) |- _ => apply Forall_cons in H as [? H] end.
  rewrite !native_word_be by done. apply IH; [cbn; lia|done].
Qed.

Lemma walChecksumBytes_spec bigEnd a s : bytes_ok a → walChecksumBytes (Z.b2z bigEnd =? SQLITE_BIGENDIAN) a (Some s) = cksum bigEnd a s.
Proof. apply checksum_loop_spec. Qed.

(** ** Frames *)

Lemma put4_spec a (i : nat) v :
  uint 32 v → (i + 4 ≤ length a)%nat → put4 has_bswap a i v = Some (take i a ++ be_bytes 4 v ++ drop (i + 4) a).
Proof.
  intros Hv Hl. unfold put4. rewrite put4byte_spec by done. rewrite length_drop. destruct (Nat.leb_spec 4 (length a - i)); [|lia].
  cbn [mbind option_bind]. by rewrite drop_drop.
Qed.

Lemma get4_spec a (i : nat) : bytes_ok a → (i + 4 ≤ length a)%nat → get4 has_bswap a i = Some (be_word (take 4 (drop i a))).
Proof.
  intros Ha Hl. unfold get4. rewrite get4byte_spec by by apply Forall_drop. rewrite length_drop. by destruct (Nat.leb_spec 4 (length a - i)); [|lia].
Qed.

(** A field of a buffer. *)
Lemma get4_field (pre post : list Z) v (i : nat) :
  bytes_ok pre → bytes_ok post → uint 32 v → length pre = i → get4 has_bswap (pre ++ be_bytes 4 v ++ post) i = Some v.
Proof.
  intros Hpre Hpost Hv <-. rewrite get4_spec.
  - rewrite drop_app_length. rewrite take_app_le by (by rewrite length_be_bytes). rewrite take_ge by (by rewrite length_be_bytes).
    f_equal. rewrite be_word_bytes. by apply Z.mod_small.
  - apply Forall_app. split; [done|]. apply Forall_app. split; [apply be_bytes_ok|done].
  - rewrite !length_app, length_be_bytes. lia.
Qed.

(** The connection's part of a log: byte order, salt and size of pages. *)
Definition log_conn (pWal : Wal) be salt sz s : Prop :=
  bigEndCksum (hdr pWal) = Z.b2z be ∧ aSalt (hdr pWal) = salt ∧ wal_szPage pWal = sz ∧ aFrameCksum (hdr pWal) = s.

Lemma header_fields be salt s f aFrame c1 c2 :
  length aFrame = 24%nat → length salt = 8%nat →
  let b := take 0 aFrame ++ be_bytes 4 (f_pgno f) ++ drop (0 + 4) aFrame in
  let b := take 4 b ++ be_bytes 4 (f_size f) ++ drop (4 + 4) b in
  let b := put_bytes b 8 salt in
  let b' := take 16 b ++ be_bytes 4 c1 ++ drop (16 + 4) b in
  take 8 b = be_bytes 4 (f_pgno f) ++ be_bytes 4 (f_size f) ∧ length b = 24%nat ∧ length b' = 24%nat ∧
  take 20 b' ++ be_bytes 4 c2 ++ drop (20 + 4) b' = be_bytes 4 (f_pgno f) ++ be_bytes 4 (f_size f) ++ salt ++ be_bytes 4 c1 ++ be_bytes 4 c2.
Proof.
  intros Hl Hs. unfold put_bytes.
  pose proof (length_be_bytes 4 (f_pgno f)) as L1. pose proof (length_be_bytes 4 (f_size f)) as L2. pose proof (length_be_bytes 4 c1) as L3.
  destruct (be_bytes 4 (f_pgno f)) as [|x0 [|x1 [|x2 [|x3 [|]]]]]; try done. destruct (be_bytes 4 (f_size f)) as [|y0 [|y1 [|y2 [|y3 [|]]]]]; try done.
  destruct (be_bytes 4 c1) as [|z0 [|z1 [|z2 [|z3 [|]]]]]; try done.
  do 24 (destruct aFrame as [|? aFrame]; [done|]). destruct aFrame; [|done]. do 8 (destruct salt as [|? salt]; [done|]). destruct salt; [|done].
  done.
Qed.

(** [walEncodeFrame] writes the frame header of the format and moves the checksum
    on. *)
Lemma walEncodeFrame_spec pWal be salt sz s f aFrame :
  log_conn pWal be salt sz s → iReCksum pWal = 0 → length salt = 8%nat → valid_frame sz f → length aFrame = 24%nat →
  uint 32 (fst s) → uint 32 (snd s) →
  walEncodeFrame has_bswap pWal (f_pgno f) (f_size f) (f_data f) aFrame =
    Some (frame_header be salt s f, set_hdr pWal (set_aFrameCksum (hdr pWal) (frame_cksum be s f))).
Proof.
  intros (Hbe & Hsalt & Hsz & Hc) Hre Hls (Hp & Hf & Hd & Hdb) Hla Hs1 Hs2. unfold walEncodeFrame.
  destruct (header_fields be salt s f aFrame (fst (frame_cksum be s f)) (snd (frame_cksum be s f)) Hla Hls) as (E8 & L1 & L2 & E24).
  destruct (frame_cksum_uint be s f Hs1 Hs2) as [Hu1 Hu2]. rewrite put4_spec by (unfold uint; lia). cbn [mbind option_bind].
  rewrite put4_spec by (done || rewrite !length_app, length_be_bytes, length_drop; cbn; lia). cbn [mbind option_bind].
  rewrite Hre, Z.eqb_refl, Hbe, Hsalt, Hsz, Hc. rewrite E8. rewrite take_ge by lia.
  rewrite !walChecksumBytes_spec by (done || (apply Forall_app; split; apply be_bytes_ok)).
  fold (frame_cksum be s f). rewrite put4_spec by (done || rewrite L1; lia). cbn [mbind option_bind].
  rewrite put4_spec by (done || rewrite L2; lia). cbn [mbind option_bind]. do 2 f_equal. exact E24.
Qed.

(** [walDecodeFrame] accepts a frame of the format. *)
Lemma walDecodeFrame_frame pWal be salt sz s f :
  log_conn pWal be salt sz s → length salt = 8%nat → bytes_ok salt → valid_frame sz f → uint 32 (fst s) → uint 32 (snd s) →
  walDecodeFrame has_bswap pWal (f_data f) (frame_bytes be salt s f) =
    Some (Some (f_pgno f, f_size f), set_hdr pWal (set_aFrameCksum (hdr pWal) (frame_cksum be s f))).
Proof.
  intros (Hbe & Hsalt & Hsz & Hc) Hls Hsb (Hp & Hf & Hd & Hdb) Hs1 Hs2. destruct (frame_cksum_uint be s f Hs1 Hs2) as [Hu1 Hu2].
  unfold walDecodeFrame, frame_bytes, frame_header.
  set (B := be_bytes 4). assert (∀ v, length (B v) = 4%nat) as HB by (intros; apply length_be_bytes).
  assert (∀ v, bytes_ok (B v)) as HBb by (intros; apply be_bytes_ok).
  assert (take 8 (drop 8 ((B (f_pgno f) ++ B (f_size f) ++ salt ++ B (fst (frame_cksum be s f)) ++ B (snd (frame_cksum be s f))) ++ f_data f)) = salt) as ->.
  { rewrite <-!app_assoc, (app_assoc (B (f_pgno f))). rewrite drop_app_length' by (rewrite length_app, !HB; done). by rewrite take_app_length'. }
  rewrite Hsalt. rewrite bool_decide_eq_true_2 by done. cbn [negb].
  rewrite <-!app_assoc.
  assert (get4 has_bswap (B (f_pgno f) ++ B (f_size f) ++ salt ++ B (fst (frame_cksum be s f)) ++ B (snd (frame_cksum be s f)) ++ f_data f) 0 = Some (f_pgno f)) as ->.
  { apply (get4_field []); [done| |unfold uint; lia|done]. repeat (apply Forall_app; split; try done). }
  cbn [mbind option_bind]. destruct (Z.eqb_spec (f_pgno f) 0); [lia|].
  rewrite Hbe, Hc, Hsz. rewrite (app_assoc (B (f_pgno f))), take_app_length' by (rewrite length_app, !HB; done). rewrite take_ge by lia.
  rewrite !walChecksumBytes_spec by (try done; apply Forall_app; split; done).
  change (cksum be (f_data f) (cksum be (B (f_pgno f) ++ B (f_size f)) s)) with (frame_cksum be s f).
  assert (get4 has_bswap ((B (f_pgno f) ++ B (f_size f)) ++ salt ++ B (fst (frame_cksum be s f)) ++ B (snd (frame_cksum be s f)) ++ f_data f) 16
    = Some (fst (frame_cksum be s f))) as ->.
  { rewrite (app_assoc _ salt). apply get4_field; [|by apply Forall_app|done|rewrite !length_app, !HB, Hls; done]. repeat (apply Forall_app; split; try done). }
  assert (get4 has_bswap ((B (f_pgno f) ++ B (f_size f)) ++ salt ++ B (fst (frame_cksum be s f)) ++ B (snd (frame_cksum be s f)) ++ f_data f) 20
    = Some (snd (frame_cksum be s f))) as ->.
  { rewrite (app_assoc _ salt), (app_assoc _ (B (fst _))). apply get4_field; [|done|done|rewrite !length_app, !HB, Hls; done]. repeat (apply Forall_app; split; try done). }
  assert (get4 has_bswap ((B (f_pgno f) ++ B (f_size f)) ++ salt ++ B (fst (frame_cksum be s f)) ++ B (snd (frame_cksum be s f)) ++ f_data f) 4
    = Some (f_size f)) as ->.
  { rewrite <-app_assoc. apply get4_field; [apply HBb| |done|apply HB]. repeat (apply Forall_app; split; try done). }
  cbn [mbind option_bind]. rewrite !Z.eqb_refl. cbn [negb orb mbind option_bind]. rewrite Z.eqb_refl. done.
Qed.

Lemma take_4_word (a : list Z) : bytes_ok a → (4 ≤ length a)%nat → be_bytes 4 (be_word (take 4 a)) = take 4 a.
Proof.
  intros Ha Hl. assert (length (take 4 a) = 4%nat) as E by (rewrite length_take; lia). rewrite <-E at 1. apply be_bytes_word. by apply Forall_take.
Qed.

Lemma be_word_take_uint (a : list Z) : bytes_ok a → (4 ≤ length a)%nat → uint 32 (be_word (take 4 a)).
Proof.
  intros Ha Hl. pose proof (be_word_uint (take 4 a) ltac:(by apply Forall_take)) as Hu. rewrite length_take in Hu.
  by replace (4 `min` length a)%nat with 4%nat in Hu by lia.
Qed.

(** The fields of a buffer. *)
Lemma split_frame (a : list Z) :
  (24 ≤ length a)%nat →
  a = take 4 a ++ take 4 (drop 4 a) ++ take 8 (drop 8 a) ++ take 4 (drop 16 a) ++ take 4 (drop 20 a) ++ drop 24 a.
Proof. intros Hl. do 24 (destruct a as [|? a]; [cbn in Hl; lia|]). by cbn. Qed.

(** A frame that is accepted is one of the format. *)
Lemma walDecodeFrame_valid pWal be salt sz s (a : list Z) :
  log_conn pWal be salt sz s → bytes_ok a → Z.of_nat (length a) = sz + 24 → 0 ≤ sz →
  ∃ r c, walDecodeFrame has_bswap pWal (drop 24 a) a = Some (r, set_hdr pWal (set_aFrameCksum (hdr pWal) c)) ∧
    match r with Some (p, n) => ∃ f, valid_frame sz f ∧ a = frame_bytes be salt s f | None => True end.
Proof.
  intros (Hbe & Hsalt & Hsz & Hc) Ha Hl Hsz0. unfold walDecodeFrame.
  assert (pWal = set_hdr pWal (set_aFrameCksum (hdr pWal) s)) as Eid by (rewrite <-Hc; by destruct pWal as [[]]).
  rewrite Hsalt, Hbe, Hc, Hsz. case_bool_decide as Es; cbn [negb]; [|eexists None, s; by rewrite <-Eid].
  rewrite !get4_spec by (done || lia). cbn [mbind option_bind].
  destruct (Z.eqb_spec (be_word (take 4 (drop 0 a))) 0) as [|Hp0]; [eexists None, s; by rewrite <-Eid|]. rewrite drop_0 in Hp0.
  rewrite !walChecksumBytes_spec by (by repeat (apply Forall_take || apply Forall_drop)). rewrite (take_ge (drop 24 a)) by (rewrite length_drop; lia).
  set (c := cksum be (drop 24 a) (cksum be (take 8 a) s)).
  destruct (Z.eqb_spec (fst c) (be_word (take 4 (drop 16 a)))) as [E1|]; cbn [negb orb mbind option_bind]; [|by eexists None, c].
  destruct (Z.eqb_spec (snd c) (be_word (take 4 (drop 20 a)))) as [E2|]; cbn [negb]; [|by eexists None, c].
  eexists (Some _), c. split; [done|]. cbn beta iota. set (f := mkFrame (be_word (take 4 a)) (be_word (take 4 (drop 4 a))) (drop 24 a)). exists f.
  assert (∀ i, (i + 4 ≤ length a)%nat → be_bytes 4 (be_word (take 4 (drop i a))) = take 4 (drop i a)) as Hw.
  { intros i Hi. apply take_4_word; [by apply Forall_drop|rewrite length_drop; lia]. }
  assert (∀ i, (i + 4 ≤ length a)%nat → uint 32 (be_word (take 4 (drop i a)))) as Hu.
  { intros i Hi. apply be_word_take_uint; [by apply Forall_drop|rewrite length_drop; lia]. }
  assert (frame_cksum be s f = c) as Ef.
  { unfold frame_cksum, f, c. cbn [f_data f_pgno f_size]. do 2 f_equal. rewrite (Hw 4%nat) by lia. pose proof (Hw 0%nat) as H0. rewrite drop_0 in H0.
    rewrite H0 by lia. by rewrite take_take_drop. }
  split.
  - pose proof (Hu 0%nat) as H0. rewrite drop_0 in H0. split; [cbn; specialize (H0 ltac:(lia)); unfold uint in H0; lia|].
    split; [apply Hu; lia|]. cbn. split; [rewrite length_drop; lia|by apply Forall_drop].
  - unfold frame_bytes, frame_header. rewrite Ef, E1, E2. cbn [f_pgno f_size f_data f]. rewrite !Hw by lia.
    pose proof (Hw 0%nat) as H0. rewrite drop_0 in H0. rewrite H0 by lia. rewrite Es. rewrite <-!app_assoc. apply split_frame. lia.
Qed.

(** ** The loop *)

(** Everything of a connection but what recovery changes. *)
Definition same_rest (pWal pWal' : Wal) : Prop :=
  set_apWiData (set_readOnly (set_hdr pWal' zero_hdr) 0) [] = set_apWiData (set_readOnly (set_hdr pWal zero_hdr) 0) [].

Lemma same_rest_conn pWal pWal' : same_conn pWal pWal' → same_rest pWal pWal'.
Proof.
  intros (_ & _ & _ & _ & _ & _ & _ & E & _). exact (f_equal (λ w, set_hdr w zero_hdr) E).
Qed.

Lemma same_rest_hdr pWal pWal' h : same_rest pWal pWal' → same_rest pWal (set_hdr pWal' h).
Proof. done. Qed.

Lemma same_rest_trans p1 p2 p3 : same_rest p1 p2 → same_rest p2 p3 → same_rest p1 p3.
Proof. intros H1 H2. exact (eq_trans H2 H1). Qed.

Lemma same_rest_fields pWal pWal' :
  same_rest pWal pWal' → writeLock pWal' = writeLock pWal ∧ ckptLock pWal' = ckptLock pWal ∧ exclusiveMode pWal' = exclusiveMode pWal ∧
    wal_szPage pWal' = wal_szPage pWal ∧ nCkpt pWal' = nCkpt pWal.
Proof.
  intros E. split_and!; [exact (f_equal writeLock E)|exact (f_equal ckptLock E)|exact (f_equal exclusiveMode E)|
    exact (f_equal wal_szPage E)|exact (f_equal nCkpt E)].
Qed.

(** The header after the commit [c]. *)
Definition commit_hdr (h : WalIndexHdr) (sz : Z) (c : Z * Z * (Z * Z)) : WalIndexHdr :=
  if fst (fst c) =? 0 then h
  else set_hdr_szPage (set_nPage (set_mxFrame h (fst (fst c))) (snd (fst c))) (szPage_field sz).

Lemma os_read_inside (fd : St → list Z) amt off st :
  off + amt <= file_size (fd st) → (∀ o, fd (set_rcs st o) = fd st) →
  sqlite3OsRead fd amt off st =
    let '(rc, o) := next_rc (rcs st) in
    Some (if rc =? SQLITE_OK then (SQLITE_OK, take (Z.to_nat amt) (drop (Z.to_nat off) (fd st)))
          else (rc, replicate (Z.to_nat amt) 0), set_rcs st o).
Proof.
  intros Hoff Hfd. unfold sqlite3OsRead, mbind, M_bind, outcome. destruct (next_rc (rcs st)) as [rc o]. destruct (rc =? SQLITE_OK); [|done].
  unfold gets. rewrite Hfd. by destruct (Z.leb_spec (off + amt) (file_size (fd st))); [|lia].
Qed.

(** The state in the loop: the index has the frames [log] so far. *)
Record reading (st : St) be salt sz s (h0 : WalIndexHdr) (c : Z * Z * (Z * Z)) (log : list Z) : Prop := {
  rd_conn : conn_ok (wal st) (shm st);
  rd_log : log_ok (shm st) log;
  rd_clean : tail_clean (shm st) log;
  rd_lock : writeLock (wal st) = true;
  rd_size : wal_szPage (wal st) = sz;
  rd_hdr : hdr (wal st) = set_aFrameCksum (commit_hdr h0 sz c) s
}.

Lemma reading_conn st be salt sz s h0 c log :
  reading st be salt sz s h0 c log → bigEndCksum h0 = Z.b2z be → aSalt h0 = salt → log_conn (wal st) be salt sz s.
Proof. intros [_ _ _ _ Hs Hh] Hbe Hsalt. unfold log_conn. rewrite Hh. unfold commit_hdr. by destruct (fst (fst c) =? 0). Qed.

(** What the loop leaves alone. *)
Definition untouched (st st' : St) : Prop :=
  (locks st', others st') = (locks st, others st) ∧ pWalFd st' = pWalFd st ∧ pDbFd st' = pDbFd st ∧ same_rest (wal st) (wal st') ∧
  shm_hdr0 (shm st') = shm_hdr0 (shm st).

Lemma untouched_refl st : untouched st st.
Proof. by split_and!. Qed.

Lemma untouched_trans st st1 st2 : untouched st st1 → untouched st1 st2 → untouched st st2.
Proof. 
  intros (H1 & H2 & H3 & H4 & H5) (E1 & E2 & E3 & E4 & E5). split_and!; [by rewrite E1|by rewrite E2|by rewrite E3| |by rewrite E5].
  by eapply same_rest_trans.
 Qed.

(** One frame that is not valid, or not complete. *)
Lemma recover_stop (n : nat) be salt sz s h0 c st log off (pre rest : list Z) :
  reading st be salt sz s h0 c log → bigEndCksum h0 = Z.b2z be → aSalt h0 = salt → 0 < sz →
  pWalFd st = pre ++ rest → Z.of_nat (length pre) = off → bytes_ok rest → no_frame be salt s sz rest →
  ∃ rc s' st', recover_loop has_bswap (S n) sz (file_size (pWalFd st)) (len log) off (snd c) st = Some (rc, snd c, st') ∧ untouched st st' ∧
    (rcs st = [] → rc = SQLITE_OK ∧ rcs st' = []) ∧ reading st' be salt sz s' h0 c log.
Proof.
  intros Hrd Hbe Hsalt Hsz Hfile Hoff Hrest Hno. cbn [recover_loop]. change WAL_FRAME_HDRSIZE with 24.
  destruct (Z.leb_spec (off + (sz + 24)) (file_size (pWalFd st))) as [Hle|Hgt].
  2: { eexists SQLITE_OK, s, st. split; [done|]. split; [apply untouched_refl|]. by split. }
  unfold mbind at 1, M_bind. rewrite os_read_inside by done.
  assert (drop (Z.to_nat off) (pWalFd st) = rest) as Hdrop by (rewrite Hfile; apply drop_app_length'; lia).
  destruct (next_rc (rcs st)) as [rc o] eqn:Eo. destruct (Z.eqb_spec rc SQLITE_OK) as [->|Hrc].
  2: { cbn iota beta. destruct (Z.eqb_spec rc SQLITE_OK); [done|]. cbn [negb]. eexists rc, s, _. split; [done|].
       split; [by split_and!|]. split; [intros E; rewrite E in Eo; by injection Eo as <- <-|].
       destruct Hrd. by constructor. }
  cbn iota beta. change (negb (SQLITE_OK =? SQLITE_OK)) with false. cbn iota. run. rewrite Hdrop. unfold file_size in Hle.
  assert (Z.of_nat (length (take (Z.to_nat (sz + 24)) rest)) = sz + 24) as Hlen.
  { rewrite Hfile, length_app in Hle. rewrite length_take. lia. }
  change (Z.to_nat 24) with 24%nat. change (wal (set_rcs st o)) with (wal st).
  destruct (walDecodeFrame_valid (wal st) be salt sz s (take (Z.to_nat (sz + 24)) rest)) as (r & cs & -> & Hr); [|by apply Forall_take|done|lia|].
  { by eapply reading_conn. }
  run.
  destruct r as [[p np]|].
  { destruct Hr as (f & Hf & Ef). exfalso. apply (Hno f (drop (Z.to_nat (sz + 24)) rest) Hf). rewrite <-Ef. by rewrite take_drop. }
  cbn. eexists SQLITE_OK, cs, _. split; [done|]. split; [by split_and!|]. split; [intros E; rewrite E in Eo; by injection Eo as <-|].
  destruct Hrd as [? ? ? ? ? Hh]. split; cbn; try done. rewrite Hh. by unfold set_aFrameCksum.
Qed.

Lemma commit_hdr_again h0 sz c s i n :
  0 < i → set_hdr_szPage (set_nPage (set_mxFrame (set_aFrameCksum (commit_hdr h0 sz c) s) i) n) (szPage_field sz) =
    set_aFrameCksum (commit_hdr h0 sz (i, n, s)) s.
Proof. intros Hi. unfold commit_hdr. cbn [fst snd]. destruct (Z.eqb_spec i 0); [lia|]. by destruct (fst (fst c) =? 0). Qed.

(** What a run of the loop that has read [fs] returns. *)
Definition loop_result be salt sz h0 c log (st : St) (r : option (Z * (Z * Z) * St)) : Prop :=
  ∃ rc cks s' st', r = Some (rc, cks, st') ∧ untouched st st' ∧ (rcs st = [] → rc = SQLITE_OK ∧ rcs st' = []) ∧
    (rc = SQLITE_OK → cks = snd c ∧ reading st' be salt sz s' h0 c log).

Lemma loop_result_step be salt sz h0 c log st st1 r :
  untouched st st1 → (rcs st = [] → rcs st1 = []) → loop_result be salt sz h0 c log st1 r → loop_result be salt sz h0 c log st r.
Proof.
  intros Hu Ho (rc & cks & s' & st' & -> & Hu' & Ho' & Hok). exists rc, cks, s', st'. split; [done|]. split; [by eapply untouched_trans|].
  split; [|done]. intros E. by apply Ho', Ho.
Qed.

Lemma index_untouched st r be salt sz s h0 c log q :
  reading st be salt sz s h0 c log → append_result (wal st) (shm st) log q (rcs st) r →
  let '(rc, pWal', shm', o') := r in
  untouched st (mkSt pWal' shm' (locks st) (pWalFd st) (pDbFd st) o' (others st) (theirs st)) ∧ (rcs st = [] → rc = SQLITE_OK ∧ o' = []) ∧
  (rc = SQLITE_OK → reading (mkSt pWal' shm' (locks st) (pWalFd st) (pDbFd st) o' (others st) (theirs st)) be salt sz s h0 c (log ++ [q])).
Proof.
  destruct r as [[[rc pWal'] shm'] o']. intros [_ _ _ Hw Hs Hh] (Hc & Hconn & Hh0 & _ & Hok & Ho). split; [|split; [done|]].
  - split_and!; try done. by apply same_rest_conn.
  - intros ->. destruct (Hok eq_refl) as (Hlog & Hclean & _). pose proof (same_rest_fields _ _ (same_rest_conn _ _ Hconn)) as (Ew & _ & _ & Es & _).
    split; try done; cbn; [by rewrite Ew|by rewrite Es|]. rewrite <-Hh. apply Hconn.
Qed.

(** The read of a frame that is all there. *)
Lemma read_frame st be salt sz s f off (pre rest : list Z) :
  length salt = 8%nat → valid_frame sz f → pWalFd st = pre ++ frame_bytes be salt s f ++ rest → Z.of_nat (length pre) = off → 0 < sz →
  off + (sz + 24) ≤ file_size (pWalFd st) ∧
  sqlite3OsRead pWalFd (sz + 24) off st =
    let '(rc, o) := next_rc (rcs st) in
    Some (if rc =? SQLITE_OK then (SQLITE_OK, frame_bytes be salt s f) else (rc, replicate (Z.to_nat (sz + 24)) 0), set_rcs st o).
Proof.
  intros Hls Hf Hfile Hoff Hsz. pose proof (length_frame be salt s f sz Hls Hf) as Hlf.
  assert (off + (sz + 24) ≤ file_size (pWalFd st)) as Hle by (unfold file_size; rewrite Hfile, !length_app; lia). split; [done|].
  rewrite os_read_inside by done. destruct (next_rc (rcs st)) as [rc o]. do 4 f_equal. destruct (rc =? SQLITE_OK); [|done].
  rewrite Hfile, drop_app_length' by lia. by rewrite take_app_length' by lia.
Qed.

(** The loop on one valid frame: an error, or the next frame. *)
Lemma recover_frame (n : nat) be salt sz s h0 c st log f off (pre rest : list Z) :
  let c' := if f_size f =? 0 then c else (len log + 1, f_size f, frame_cksum be s f) in
  reading st be salt sz s h0 c log → bigEndCksum h0 = Z.b2z be → aSalt h0 = salt → length salt = 8%nat → bytes_ok salt → 0 < sz →
  valid_frame sz f → uint 32 (fst s) → uint 32 (snd s) → len log + 1 < 2 ^ 31 →
  pWalFd st = pre ++ frame_bytes be salt s f ++ rest → Z.of_nat (length pre) = off →
  ∃ rc st', untouched st st' ∧ (rcs st = [] → rc = SQLITE_OK ∧ rcs st' = []) ∧
    recover_loop has_bswap (S n) sz (file_size (pWalFd st)) (len log) off (snd c) st =
      (if rc =? SQLITE_OK then recover_loop has_bswap n sz (file_size (pWalFd st)) (len log + 1) (off + (sz + 24)) (snd c') st'
       else Some (rc, snd c, st')) ∧
    (rc = SQLITE_OK → reading st' be salt sz (frame_cksum be s f) h0 c' (log ++ [f_pgno f])).
Proof.
  intros c' Hrd Hbe Hsalt Hls Hsb Hsz Hf Hs1 Hs2 Hlog Hfile Hoff. cbn [recover_loop].
  destruct (read_frame st be salt sz s f off pre rest Hls Hf Hfile Hoff Hsz) as [Hle Hread]. set (s1 := frame_cksum be s f) in *.
  change WAL_FRAME_HDRSIZE with 24. destruct (Z.leb_spec (off + (sz + 24)) (file_size (pWalFd st))); [|lia].
  destruct (next_rc (rcs st)) as [rc o] eqn:Eo. assert (rcs st = [] → rc = SQLITE_OK ∧ o = []) as Ho by (intros E; rewrite E in Eo; by injection Eo as <- <-).
  rewrite (bind_some _ _ _ _ _ Hread). destruct (Z.eqb_spec rc SQLITE_OK) as [->|Hrc]; cbn beta iota.
  2: { exists rc, (set_rcs st o). destruct (Z.eqb_spec rc SQLITE_OK); [done|]. by split_and!. }
  change (negb (SQLITE_OK =? SQLITE_OK)) with false. cbn iota. run. change (wal (set_rcs st o)) with (wal st). change (Z.to_nat 24) with 24%nat.
  assert (drop 24 (frame_bytes be salt s f) = f_data f) as -> by (unfold frame_bytes; apply drop_app_length'; by rewrite length_frame_header).
  rewrite (walDecodeFrame_frame (wal st) be salt sz s f) by (done || by eapply reading_conn). run. fold s1.
  set (st1 := set_wal _ _).
  assert (reading st1 be salt sz s1 h0 c log) as Hrd1 by (destruct Hrd as [? ? ? ? ? Hh]; split; try done; cbn; by rewrite Hh).
  pose proof Hf as (Hp & Hfsz & _).
  destruct (walIndexAppend_spec (wal st1) (shm st1) log (f_pgno f) (rcs st1)) as (r & Hr & Hres); [apply Hrd1|apply Hrd1|left; apply Hrd1|apply Hrd1|done|lia|].
  pose proof (index_untouched st1 r be salt sz s1 h0 c log (f_pgno f) Hrd1 Hres) as Hiu. destruct r as [[[rc pWal2] shm2] o2]. destruct Hiu as (Hu2 & Ho2 & Hrd2).
  set (st2 := mkSt pWal2 shm2 (locks st1) (pWalFd st1) (pDbFd st1) o2 (others st1) (theirs st1)) in *.
  assert (untouched st st2) as Hst2 by (eapply untouched_trans; [|exact Hu2]; by split_and!).
  assert (rcs st = [] → rc = SQLITE_OK ∧ rcs st2 = []) as Hrcs by (intros E; apply Ho2; by apply Ho in E as [_ ->]).
  rewrite (bind_some st1 st2 _ _ rc) by (unfold index; by rewrite Hr).
  destruct (Z.eqb_spec rc SQLITE_OK) as [->|Hrc]; cbn [negb].
  2: { exists rc, st2. split; [done|]. split; [done|]. destruct (Z.eqb_spec rc SQLITE_OK); [done|]. by split. }
  specialize (Hrd2 eq_refl). subst c'. destruct (Z.eqb_spec (f_size f) 0) as [E0|Hcommit]; cbn [negb]; [by exists SQLITE_OK, st2|].
  run. set (st3 := set_wal st2 _). exists SQLITE_OK, st3.
  assert (reading st3 be salt sz s1 h0 (len log + 1, f_size f, s1) (log ++ [f_pgno f])) as Hrd3.
  { destruct Hrd2 as [? ? ? ? ? Hh]. split; try done. cbn [st3 wal set_wal hdr set_hdr] in *. rewrite Hh. apply commit_hdr_again. lia. }
  split; [eapply untouched_trans; [exact Hst2|by split_and!]|]. split; [done|]. split; [|done].
  change (SQLITE_OK =? SQLITE_OK) with true. cbn iota. f_equal. by rewrite (rd_hdr _ _ _ _ _ _ _ _ Hrd3).
Qed.

Lemma recover_loop_spec be salt sz h0 rest fs :
  bigEndCksum h0 = Z.b2z be → aSalt h0 = salt → length salt = 8%nat → bytes_ok salt → 0 < sz → bytes_ok rest → Forall (valid_frame sz) fs →
  ∀ (n : nat) st s c log off pre,
  reading st be salt sz s h0 c log → (S (length fs) ≤ n)%nat → uint 32 (fst s) → uint 32 (snd s) → len log + Z.of_nat (length fs) + 1 < 2 ^ 31 →
  pWalFd st = pre ++ frames_bytes be salt s fs ++ rest → Z.of_nat (length pre) = off → no_frame be salt (foldl (frame_cksum be) s fs) sz rest →
  loop_result be salt sz h0 (committed be s (len log) fs c) (log ++ (f_pgno <$> fs)) st
    (recover_loop has_bswap n sz (file_size (pWalFd st)) (len log) off (snd c) st).
Proof.
  intros Hbe Hsalt Hls Hsb Hsz Hrest Hfs. induction Hfs as [|f fs Hf Hfs IH]; intros n st s c log off pre Hrd Hn Hs1 Hs2 Hlog Hfile Hoff Hno.
  { destruct n as [|n]; [lia|]. cbn [frames_bytes app committed fmap list_fmap foldl] in *. rewrite app_nil_r.
    destruct (recover_stop n be salt sz s h0 c st log off pre rest) as (rc & s' & st' & -> & Hu & Ho & Hr); try done. by exists rc, (snd c), s', st'. }
  destruct n as [|n]; [lia|]. cbn [length] in Hn, Hlog. cbn [frames_bytes foldl] in Hfile, Hno. rewrite <-app_assoc in Hfile. cbn [committed fmap list_fmap].
  destruct (recover_frame n be salt sz s h0 c st log f off pre (frames_bytes be salt (frame_cksum be s f) fs ++ rest)) as (rc & st' & Hu & Ho & -> & Hrd');
    try done; [lia|]. destruct (Z.eqb_spec rc SQLITE_OK) as [->|Hrc].
  2: { exists rc, (snd c), s, st'. by split_and!. }
  eapply loop_result_step; [exact Hu|intros E; by apply Ho|]. specialize (Hrd' eq_refl). destruct (frame_cksum_uint be s f Hs1 Hs2) as [Hu1 Hu2].
  pose proof Hu as (_ & Efile & _). rewrite <-Efile in Hfile |- *.
  assert (len (log ++ [f_pgno f]) = len log + 1) as Hlen1 by (rewrite length_app; cbn; lia). rewrite <-Hlen1.
  replace (log ++ f_pgno f :: (f_pgno <$> fs)) with ((log ++ [f_pgno f]) ++ (f_pgno <$> fs)) by by rewrite <-app_assoc.
  apply (IH n st' (frame_cksum be s f) _ _ _ (pre ++ frame_bytes be salt s f)); try done; try lia; [by rewrite Hlen1|by rewrite <-app_assoc|].
  rewrite length_app. pose proof (length_frame be salt s f sz Hls Hf). lia.
Qed.

(** ** The header of the file *)

Definition page_size (sz : Z) : Prop := 512 ≤ sz ≤ 65536 ∧ Z.land sz (sz - 1) = 0.

Lemma magic_spec be :
  let magic := Z.lor WAL_MAGIC (Z.b2z be) in
  uint 32 magic ∧ Z.land magic 0xFFFFFFFE = WAL_MAGIC ∧ u8 (Z.land magic 1) = Z.b2z be.
Proof. destruct be; split_and!; first [reflexivity|split; vm_compute; congruence]. Qed.

Lemma file_header_fields be sz nCkpt salt :
  page_size sz → uint 32 nCkpt → length salt = 8%nat → bytes_ok salt →
  let b := file_header be sz nCkpt salt in
  get4 has_bswap b 0 = Some (Z.lor WAL_MAGIC (Z.b2z be)) ∧ get4 has_bswap b 4 = Some WAL_MAX_VERSION ∧ get4 has_bswap b 8 = Some sz ∧
  get4 has_bswap b 12 = Some nCkpt ∧ take 8 (drop 16 b) = salt ∧ take 24 b = file_header0 be sz nCkpt salt ∧
  get4 has_bswap b 24 = Some (fst (header_cksum be sz nCkpt salt)) ∧ get4 has_bswap b 28 = Some (snd (header_cksum be sz nCkpt salt)).
Proof.
  intros [Hsz _] Hn Hls Hsb. destruct (header_cksum_uint be sz nCkpt salt) as [Hu1 Hu2]. destruct (magic_spec be) as (Hm & _).
  unfold file_header, file_header0. set (B := be_bytes 4). assert (∀ v, length (B v) = 4%nat) as HB by (intros; apply length_be_bytes).
  assert (∀ v, bytes_ok (B v)) as HBb by (intros; apply be_bytes_ok). rewrite <-!app_assoc.
  set (m := Z.lor _ _) in *. set (c1 := fst _) in *. set (c2 := snd _) in *.
  assert (∀ l1 l2, bytes_ok l1 → bytes_ok l2 → bytes_ok (l1 ++ l2)) as Happ by (intros; by apply Forall_app_2).
  split; [apply (get4_field []); [done|auto 10|done|done]|].
  split; [apply get4_field; [done|auto 10|unfold uint, WAL_MAX_VERSION; lia|apply HB]|].
  split; [rewrite (app_assoc (B m)); apply get4_field; [auto|auto 10|unfold uint; lia|rewrite length_app, !HB; done]|].
  split; [rewrite (app_assoc (B m)), (app_assoc (B m ++ _)); apply get4_field; [auto 10|auto 10|done|rewrite !length_app, !HB; done]|].
  split; [|split; [|split]].
  - rewrite (app_assoc (B m)), (app_assoc (B m ++ _)), (app_assoc ((B m ++ _) ++ _)). rewrite drop_app_length' by (rewrite !length_app, !HB; done).
    by rewrite take_app_length'.
  - rewrite (app_assoc (B nCkpt)), (app_assoc (B sz)), (app_assoc (B _) (B sz ++ _)), (app_assoc (B m)). apply take_app_length'.
    by rewrite !length_app, !HB, Hls.
  - rewrite (app_assoc (B nCkpt)), (app_assoc (B sz)), (app_assoc (B _) (B sz ++ _)), (app_assoc (B m)). apply get4_field; [auto 10|auto|done|].
    by rewrite !length_app, !HB, Hls.
  - rewrite (app_assoc salt), (app_assoc (B nCkpt)), (app_assoc (B sz)), (app_assoc (B _) (B sz ++ _)), (app_assoc (B m)).
    rewrite <-(app_nil_r (B c2)). apply get4_field; [auto 10|done|done|]. by rewrite !length_app, !HB, Hls.
Qed.

(** ** The whole recovery *)

(** The header that the connection has before the frames are read. *)
Definition start_hdr be sz nCkpt salt : WalIndexHdr :=
  mkWalIndexHdr 0 0 0 0 (Z.b2z be) 0 0 0 (header_cksum be sz nCkpt salt) salt (0, 0).

(** What the file of a log is. *)
Record log_file be sz nCkpt salt fs (rest d : list Z) : Prop := {
  lf_size : page_size sz;
  lf_nCkpt : uint 32 nCkpt;
  lf_salt : length salt = 8%nat;
  lf_salt_bytes : bytes_ok salt;
  lf_frames : Forall (valid_frame sz) fs;
  lf_rest : bytes_ok rest;
  lf_end : no_frame be salt (foldl (frame_cksum be) (header_cksum be sz nCkpt salt) fs) sz rest;
  lf_bytes : d = log_bytes be sz nCkpt salt fs ++ rest
}.

Definition same_files (st st' : St) : Prop :=
  (locks st', others st') = (locks st, others st) ∧ pWalFd st' = pWalFd st ∧ pDbFd st' = pDbFd st ∧ shm_hdr0 (shm st') = shm_hdr0 (shm st) ∧
  writeLock (wal st') = writeLock (wal st) ∧ ckptLock (wal st') = ckptLock (wal st) ∧ exclusiveMode (wal st') = exclusiveMode (wal st).

Lemma recover_file_spec st be sz nCkpt salt fs rest :
  conn_ok (wal st) (shm st) → log_ok (shm st) [] → writeLock (wal st) = true → hdr (wal st) = zero_hdr →
  log_file be sz nCkpt salt fs rest (pWalFd st) → Z.of_nat (length fs) + 1 < 2 ^ 31 → WAL_HDRSIZE < file_size (pWalFd st) →
  let c := committed be (header_cksum be sz nCkpt salt) 0 fs (0, 0, (0, 0)) in
  ∃ rc b cks st', recover_file has_bswap (file_size (pWalFd st)) st = Some (rc, b, cks, st') ∧ same_files st st' ∧
    (rcs st = [] → rc = SQLITE_OK ∧ b = true ∧ rcs st' = []) ∧
    (rc = SQLITE_OK → b = true ∧ cks = snd c ∧ WalIndex.nCkpt (wal st') = nCkpt ∧
      ∃ s', reading st' be salt sz s' (start_hdr be sz nCkpt salt) c (f_pgno <$> fs)).
Proof.
  intros Hconn Hlog Hw Hh [Hsz Hn Hls Hsb Hfs Hrest Hend Hfile] Hcount Hsize c. unfold recover_file. change WAL_HDRSIZE with 32 in *.
  destruct (file_header_fields be sz nCkpt salt Hsz Hn Hls Hsb) as (E0 & E4 & E8 & E12 & Esalt & E24 & Ec1 & Ec2).
  destruct (magic_spec be) as (_ & Em1 & Em2). destruct (header_cksum_uint be sz nCkpt salt) as [Hs1 Hs2].
  pose proof (length_file_header be sz nCkpt salt Hls) as Hlh. pose proof Hsz as [Hsz1 Hsz2].
  pose proof (os_read_inside pWalFd 32 0 st ltac:(lia) ltac:(done)) as Hread. rewrite drop_0 in Hread.
  assert (take (Z.to_nat 32) (pWalFd st) = file_header be sz nCkpt salt) as Ehd.
  { rewrite Hfile. unfold log_bytes. rewrite <-app_assoc. by apply take_app_length'. }
  rewrite Ehd in Hread. destruct (next_rc (rcs st)) as [rc o] eqn:Eo. rewrite (bind_some _ _ _ _ _ Hread). clear Hread. assert (rcs st = [] → rc = SQLITE_OK ∧ o = []) as Ho by (intros E; rewrite E in Eo; by injection Eo as <- <-).
  destruct (Z.eqb_spec rc SQLITE_OK) as [->|Hrc]; cbn beta iota.
  2: { exists rc, false, (0, 0), (set_rcs st o). destruct (Z.eqb_spec rc SQLITE_OK); [done|]. split; [done|]. split; [by split_and!|]. split; [naive_solver|done]. }
  change (negb (SQLITE_OK =? SQLITE_OK)) with false. cbn iota. rewrite E0, E8, E12. run.
  assert (s32 sz = sz) as -> by (unfold s32, wrap; rewrite Z.mod_small; lia).
  rewrite Em1, Z.eqb_refl, Hsz2. change SQLITE_MAX_PAGE_SIZE with 65536. destruct (Z.ltb_spec 65536 sz); [lia|]. destruct (Z.ltb_spec sz 512); [lia|].
  cbn [negb orb Z.eqb]. run. rewrite Em2, Esalt, E24, Ec1, Ec2. run.
  assert (walChecksumBytes (Z.b2z be =? SQLITE_BIGENDIAN) (file_header0 be sz nCkpt salt) None = header_cksum be sz nCkpt salt) as Eck.
  { apply checksum_loop_spec. unfold file_header0. repeat (apply Forall_app_2; [apply be_bytes_ok|]). done. }
  change (wal (set_rcs st o)) with (wal st). rewrite Hh. cbn [bigEndCksum set_bigEndCksum set_aSalt set_aFrameCksum zero_hdr]. rewrite Eck.
  set (st1 := set_wal _ _). change (aFrameCksum (hdr (wal st1))) with (header_cksum be sz nCkpt salt). rewrite !Z.eqb_refl. cbn [negb orb].
  rewrite E4. run. change (negb (WAL_MAX_VERSION =? WAL_MAX_VERSION)) with false. cbn iota. rewrite bind_outcome. change (rcs st1) with o.
  destruct (next_rc o) as [rc o1] eqn:Eo1. set (st2 := set_rcs st1 o1).
  assert (rcs st = [] → rc = SQLITE_OK ∧ o1 = []) as Ho1 by (intros E; apply Ho in E as [_ ->]; by injection Eo1 as <- <-).
  destruct (Z.eqb_spec rc SQLITE_OK) as [->|Hrc]; cbn [negb].
  2: { exists SQLITE_NOMEM, false, (0, 0), st2. split; [done|]. split; [by split_and!|]. split; [naive_solver|done]. }
  assert (reading st2 be salt sz (header_cksum be sz nCkpt salt) (start_hdr be sz nCkpt salt) (0, 0, (0, 0)) []) as Hrd.
  { split; try done. left. unfold entries. by rewrite drop_nil, take_nil. }
  pose proof (length_frames be salt (header_cksum be sz nCkpt salt) fs sz Hls Hfs) as Hlf. unfold file_size in *.
  assert (Z.of_nat (length (pWalFd st)) = 32 + Z.of_nat (length fs) * (sz + 24) + Z.of_nat (length rest)) as Hlen.
  { rewrite Hfile. unfold log_bytes. rewrite !length_app, Hlh. lia. }
  destruct (recover_loop_spec be salt sz (start_hdr be sz nCkpt salt) rest fs) with (n := Z.to_nat (Z.of_nat (length (pWalFd st)))) (st := st2)
    (s := header_cksum be sz nCkpt salt) (c := (0, 0, (0, 0))) (log := @nil Z) (off := 32) (pre := file_header be sz nCkpt salt)
    as (rc & cks & s' & st' & E & Hu & Ho2 & Hok); try done; try lia.
  { change (pWalFd st2) with (pWalFd st). rewrite Hfile. unfold log_bytes. by rewrite <-app_assoc. }
  rewrite (bind_some _ _ _ _ _ E). exists rc, true, cks, st'. split; [done|]. destruct Hu as (Hu1 & Hu2 & Hu3 & Hu4 & Hu5).
  pose proof (same_rest_fields _ _ Hu4) as (Ew & Eck' & Eex & _ & En). split; [exact (conj Hu1 (conj Hu2 (conj Hu3 (conj Hu5 (conj Ew (conj Eck' Eex))))))|].
  split; [intros Er; destruct Ho2 as [-> ?]; [by apply Ho1|done]|]. intros ->. destruct (Hok eq_refl) as [-> Hrd']. split_and!; try done. by exists s'.
Qed.

(** The state after a recovery of the frames [fs]. *)
Record recovered (st : St) be sz nCkpt salt fs : Prop := {
  rv_conn : conn_ok (wal st) (shm st);
  rv_log : log_ok (shm st) (f_pgno <$> fs);
  rv_commit : (mxFrame (hdr (wal st)), nPage (hdr (wal st)), aFrameCksum (hdr (wal st))) =
    committed be (header_cksum be sz nCkpt salt) 0 fs (0, 0, (0, 0));
  rv_hdr : isInit (hdr (wal st)) = 1 ∧ bigEndCksum (hdr (wal st)) = Z.b2z be ∧ aSalt (hdr (wal st)) = salt ∧
    aCksum (hdr (wal st)) = walChecksumBytes true (hdr_bytes (hdr (wal st))) None;
  rv_shared : shm_hdr0 (shm st) = hdr (wal st) ∧ shm_hdr1 (shm st) = hdr (wal st);
  rv_size : wal_szPage (wal st) = sz ∧ WalIndex.nCkpt (wal st) = nCkpt;
  rv_ckpt : ckpt (shm st) = mkWalCkptInfo 0 ([0; if mxFrame (hdr (wal st)) =? 0 then READMARK_NOT_USED else mxFrame (hdr (wal st))] ++
    replicate 3 READMARK_NOT_USED) (mxFrame (hdr (wal st)))
}.

Lemma finish_spec st be sz nCkpt salt s fs :
  let c := committed be (header_cksum be sz nCkpt salt) 0 fs (0, 0, (0, 0)) in
  reading st be salt sz s (start_hdr be sz nCkpt salt) c (f_pgno <$> fs) → WalIndex.nCkpt (wal st) = nCkpt →
  (fst (fst c) = 0 → snd (fst c) = 0) → others st = [] →
  ∃ st', finish_recovery (snd c) st = Some ((), st') ∧ recovered st' be sz nCkpt salt fs ∧
    locks st' = locks st ∧ pWalFd st' = pWalFd st ∧ pDbFd st' = pDbFd st ∧ rcs st' = rcs st ∧ exclusiveMode (wal st') = exclusiveMode (wal st).
Proof.
  intros c [Hconn Hlog _ _ Hsz Hh] Hn Hc Hoth. unfold finish_recovery, walIndexWriteHdr. run. unfold walShmBarrier. run.
  set (st1 := set_shm _ _). rewrite (bind_some st1 st1 _ _ ()) by (destruct (negb _); [unfold interfere; cbn; by rewrite Hoth|done]).
  run. eexists. split; [done|]. split; [|done].
  destruct c as [[mx np] ck] eqn:Ec. cbn [fst snd] in *.
  split; [exact Hconn|exact Hlog| | | |done|].
  - fold c. rewrite Ec. cbn. rewrite Hh. unfold commit_hdr. cbn [fst snd]. destruct (Z.eqb_spec mx 0) as [->|]; [cbn; by rewrite Hc|done].
  - split; [done|]. cbn. rewrite Hh. unfold commit_hdr. cbn [fst snd]. by destruct (mx =? 0).
  - done.
  - cbn [wal shm ckpt set_shm set_wal set_hdr hdr set_ckpt set_hdrs]. do 3 f_equal. by destruct (_ =? 0).
Qed.

Lemma committed_zero be s i fs c : 0 ≤ i → 0 ≤ fst (fst c) → (fst (fst c) = 0 → snd (fst c) = 0) →
  let c' := committed be s i fs c in 0 ≤ fst (fst c') ∧ (fst (fst c') = 0 → snd (fst c') = 0).
Proof.
  revert s i c. induction fs as [|f fs IH]; intros s i c Hi H1 H2; [done|]. cbn [committed]. apply IH; [lia|..]; destruct (f_size f =? 0); cbn; lia || auto.
Qed.

(** What a run of the recovery returns. *)
Definition recover_result be sz nCkpt salt fs (st : St) (r : option (Z * St)) : Prop :=
  ∃ rc st', r = Some (rc, st') ∧ pWalFd st' = pWalFd st ∧ pDbFd st' = pDbFd st ∧ exclusiveMode (wal st') = exclusiveMode (wal st) ∧
    locks st' = locks st ∧ (rcs st = [] → rc = SQLITE_OK ∧ rcs st' = []) ∧ (rc = SQLITE_OK → recovered st' be sz nCkpt salt fs) ∧
    (rc ≠ SQLITE_OK → shm_hdr0 (shm st') = shm_hdr0 (shm st)).

Lemma recover_locked_spec st be sz nCkpt salt fs rest :
  conn_ok (wal st) (shm st) → log_ok (shm st) [] → writeLock (wal st) = true → others st = [] →
  log_file be sz nCkpt salt fs rest (pWalFd st) → Z.of_nat (length fs) + 1 < 2 ^ 31 → WAL_HDRSIZE < file_size (pWalFd st) →
  recover_result be sz nCkpt salt fs st (recover_locked has_bswap st).
Proof.
  intros Hconn Hlog Hw Hoth Hfile Hcount Hsize. unfold recover_locked. run. unfold sqlite3OsFileSize. run. rewrite bind_outcome.
  set (st1 := set_wal st _). change (rcs st1) with (rcs st). destruct (next_rc (rcs st)) as [rc o] eqn:Eo. run. set (st2 := set_rcs st1 o).
  assert (rcs st = [] → rc = SQLITE_OK ∧ rcs st2 = []) as Ho by (intros E; rewrite E in Eo; by injection Eo as <- <-).
  destruct (Z.eqb_spec rc SQLITE_OK) as [->|Hrc]; cbn [negb]; [|exists rc, st2; by split_and!].
  change (pWalFd st2) with (pWalFd st). destruct (Z.ltb_spec WAL_HDRSIZE (file_size (pWalFd st))); [|lia].
  destruct (recover_file_spec st2 be sz nCkpt salt fs rest) as (rc & b & cks & st3 & E & (Hl & Hf & Hd & Hh & _ & _ & Hx) & Ho3 & Hok); try done.
  rewrite (bind_some _ _ _ _ _ E).
  assert (rcs st = [] → rc = SQLITE_OK ∧ b = true ∧ rcs st3 = []) as Hrcs by (intros Er; by apply Ho3, Ho).
  destruct (Z.eqb_spec rc SQLITE_OK) as [->|Hrc].
  2: { rewrite andb_false_r. exists rc, st3. split_and!; try done; [exact (f_equal fst Hl)|naive_solver]. }
  destruct (Hok eq_refl) as (-> & -> & Hn & s' & Hrd). cbn [andb].
  destruct (finish_spec st3 be sz nCkpt salt s' fs) as (st4 & E4 & Hrec & Hl4 & Hf4 & Hd4 & Hr4 & Hx4); [done|done|by apply committed_zero| |].
  { change (others st3) with (snd (locks st3, others st3)). by rewrite Hl. }
  rewrite (bind_some _ _ _ _ _ E4). exists SQLITE_OK, st4. split; [done|]. split_and!; try done; [by rewrite Hf4, Hf|by rewrite Hd4, Hd|by rewrite Hx4, Hx|rewrite Hl4; exact (f_equal fst Hl)|].
  intros Er. rewrite Hr4. naive_solver.
Qed.

Lemma walIndexRecover_spec st be sz nCkpt salt fs rest :
  conn_ok (wal st) (shm st) → log_ok (shm st) [] → writeLock (wal st) = true → others st = [] →
  log_file be sz nCkpt salt fs rest (pWalFd st) → Z.of_nat (length fs) + 1 < 2 ^ 31 → WAL_HDRSIZE < file_size (pWalFd st) →
  ∃ rc st', walIndexRecover has_bswap st = Some (rc, st') ∧ pWalFd st' = pWalFd st ∧ pDbFd st' = pDbFd st ∧
    (rcs st = [] ∧ all_free st → rc = SQLITE_OK ∧ rcs st' = []) ∧ (rc = SQLITE_OK → recovered st' be sz nCkpt salt fs) ∧
    (rc ≠ SQLITE_OK → shm_hdr0 (shm st') = shm_hdr0 (shm st)).
Proof.
  intros Hconn Hlog Hw Hoth Hfile Hcount Hsize. unfold walIndexRecover. run. set (iLock := WAL_ALL_BUT_WRITE + _). set (nLock := SQLITE_SHM_NLOCK - iLock).
  destruct (walLock_result iLock nLock Exclusive st Hoth) as (rc & l & o & E1 & Ho1 & _). unfold walLockExclusive.
  rewrite (bind_some _ _ _ _ _ E1). unfold on_ok at 1. destruct (Z.eqb_spec rc SQLITE_OK) as [->|Hrc]; [|by eexists rc, _].
  set (st1 := set_locks _ l).
  destruct (recover_locked_spec st1 be sz nCkpt salt fs rest) as (rc & st2 & E2 & Hf2 & Hd2 & Hx2 & Hl2 & Ho2 & Hok2 & Herr2); try done.
  rewrite (bind_some _ _ _ _ _ E2). unfold walUnlockExclusive. rewrite (bind_some _ _ _ _ _ (walUnlock_run _ _ _)).
  eexists rc, _. split; [done|]. assert (∀ st3, st3 = st2 ∨ (∃ l, st3 = set_locks st2 l) → pWalFd st3 = pWalFd st ∧ pDbFd st3 = pDbFd st ∧
    rcs st3 = rcs st2 ∧ (recovered st2 be sz nCkpt salt fs → recovered st3 be sz nCkpt salt fs) ∧ shm_hdr0 (shm st3) = shm_hdr0 (shm st2)) as Hsame.
  { intros st3 [->|[l' ->]]; [done|]. split_and!; try done. intros []. by constructor. }
  destruct (Hsame (if negb (exclusiveMode (wal st2) =? 0) then st2 else set_locks st2 (locks_with iLock nLock Unlocked (locks st2))))
    as (-> & -> & -> & Hrec & ->); [destruct (negb _); eauto|].
  split_and!; try done; [|auto]. intros E. apply Ho2. by apply Ho1 in E as [_ ->].
Qed.
End recover.
