(* ===== verification/WalRead.v ===== *)
(** * Write-ahead log: transactions

    Reading the header of the wal-index, beginning and ending transactions, the
    restart of the log, and [sqlite3WalFrames], which writes pages to the log, of
    wal.c (in sqlite3.c). *)
From S2P Require Import Prelude Words Varint WalIndex WalFile.
From stdpp Require Import gmap.
Local Open Scope Z_scope.

(** ** Constants *)

Definition SQLITE_PROTOCOL : Z := 15.
Definition SQLITE_BUSY_RECOVERY : Z := 261.
Definition SQLITE_BUSY_SNAPSHOT : Z := 517.
Definition SQLITE_READONLY_RECOVERY : Z := 264.
Definition SQLITE_READONLY_CANTLOCK : Z := 520.
Definition WAL_RETRY : Z := -1.
Definition WAL_SYNC_TRANSACTIONS : Z := 0x20.

#[global] Instance WalIndexHdr_eq_dec : EqDecision WalIndexHdr.
Proof. solve_decision. Defined.

(** [pInfo->aReadMark[i]]. *)
Definition read_mark (i : Z) : M Z := m ← gets shm; lift (get (aReadMark (ckpt m)) i).
Definition set_read_mark (i v : Z) : M () :=
  with_shm (λ m, set_ckpt m (mkWalCkptInfo (nBackfill (ckpt m)) (<[Z.to_nat i := v]> (aReadMark (ckpt m))) (nBackfillAttempted (ckpt m)))).

(** [memcmp(walIndexHdr(pWal), &pWal->hdr, sizeof(WalIndexHdr))==0]. *)
Definition hdr_unchanged : M bool := m ← gets shm; pWal ← gets wal; mret (bool_decide (shm_hdr0 m = hdr pWal)).

Definition page_size_of (field : Z) : Z := Z.land field 0xfe00 + Z.shiftl (Z.land field 0x0001) 16.

(** A page of the cache. *)
Record PgHdr := mkPgHdr { pgno : Z; pData : list Z }.

(** What is the same for all frames that a call writes. *)
Record WalWriter := mkWalWriter { iSyncPoint : Z; w_szPage : Z }.

Section read.
Context `{Machine} (has_bswap : bool).

(** ** The header *)

(** Whether the header is bad, and [*pChanged]. *)
Definition walIndexTryHdr (pChanged : bool) : M (bool * bool) :=
  h1 ← gets (λ s, shm_hdr0 (shm s));
  walShmBarrier;;
  h2 ← gets (λ s, shm_hdr1 (shm s));
  if negb (bool_decide (h1 = h2)) then mret (true, pChanged)
  else if isInit h1 =? 0 then mret (true, pChanged)
  else if negb (bool_decide (walChecksumBytes true (hdr_bytes h1) None = aCksum h1)) then mret (true, pChanged)
  else
    pWal ← gets wal;
    if negb (bool_decide (hdr pWal = h1)) then
      with_wal (λ w, set_wal_szPage (set_hdr w h1) (page_size_of (hdr_szPage h1)));; mret (false, true)
    else mret (false, pChanged).

(** The call of [walIndexPage] for the first page: the result code and whether
    the pointer is not null. *)
Definition page0 : M (Z * bool) :=
  rc ← index (λ w m o, Some (walIndexPage w m 0 o));
  pWal ← gets wal; m ← gets shm; mret (rc, match page_at pWal m 0 with Some _ => true | None => false end).

(** The second attempt, with the lock of a writer. *)
Definition read_hdr_locked (pChanged : bool) : M (Z * bool * bool) :=
  with_wal (λ w, set_writeLock w true);;
  '(rc, _) ← page0;
  '(rc, badHdr, pChanged) ← (
    if rc =? SQLITE_OK then
      '(badHdr, pChanged) ← walIndexTryHdr pChanged;
      if badHdr : bool then rc ← walIndexRecover has_bswap; mret (rc, badHdr, true) else mret (rc, badHdr, pChanged)
    else mret (rc, true, pChanged));
  with_wal (λ w, set_writeLock w false);;
  walUnlockExclusive WAL_WRITE_LOCK 1;;
  mret (rc, badHdr, pChanged).

Definition walIndexReadHdr (pChanged : bool) : M (Z * bool) :=
  '(rc, found) ← page0;
  if negb (rc =? SQLITE_OK) then mret (rc, pChanged)
  else
    '(badHdr, pChanged) ← (if found : bool then walIndexTryHdr pChanged else mret (true, pChanged));
    '(rc, badHdr, pChanged) ← (
      if badHdr : bool then
        pWal ← gets wal;
        if negb (Z.land (readOnly pWal) WAL_SHM_RDONLY =? 0) then
          rc ← walLockShared WAL_WRITE_LOCK;
          if rc =? SQLITE_OK then walUnlockShared WAL_WRITE_LOCK;; mret (SQLITE_READONLY_RECOVERY, badHdr, pChanged)
          else mret (rc, badHdr, pChanged)
        else
          rc ← walLockExclusive WAL_WRITE_LOCK 1;
          if rc =? SQLITE_OK then read_hdr_locked pChanged else mret (rc, badHdr, pChanged)
      else mret (rc, badHdr, pChanged));
    pWal ← gets wal;
    mret (if negb badHdr && negb (iVersion (hdr pWal) =? WALINDEX_MAX_VERSION) then SQLITE_CANTOPEN else rc, pChanged).

(** ** Read transactions *)

(** The header is read, and [SQLITE_BUSY] explained. *)
Definition begin_read_hdr (pChanged : bool) : M (Z * bool) :=
  '(rc, pChanged) ← walIndexReadHdr pChanged;
  if rc =? SQLITE_BUSY then
    pWal ← gets wal;
    if negb (is_mapped pWal 0) then mret (WAL_RETRY, pChanged)
    else
      rc ← walLockShared WAL_RECOVER_LOCK;
      if rc =? SQLITE_OK then walUnlockShared WAL_RECOVER_LOCK;; mret (WAL_RETRY, pChanged)
      else mret (if rc =? SQLITE_BUSY then SQLITE_BUSY_RECOVERY else rc, pChanged)
  else mret (rc, pChanged).

(** The attempt to read from the database file alone: a result to return, or the
    result code of the lock to go on with. *)
Definition begin_read_db : M (option Z * Z) :=
  rc ← walLockShared (WAL_READ_LOCK 0);
  walShmBarrier;;
  if rc =? SQLITE_OK then
    same ← hdr_unchanged;
    if negb same then walUnlockShared (WAL_READ_LOCK 0);; mret (Some WAL_RETRY, rc)
    else with_wal (λ w, set_readLock w 0);; mret (Some SQLITE_OK, rc)
  else if negb (rc =? SQLITE_BUSY) then mret (Some rc, rc)
  else mret (None, rc).

(** The loop that looks for the largest mark, [n] of them from [i] on. *)
Fixpoint max_mark (n : nat) (i mxFrame mxReadMark mxI : Z) : M (Z * Z) :=
  match n with
  | O => mret (mxReadMark, mxI)
  | S n =>
    thisMark ← read_mark i;
    if (mxReadMark <=? thisMark) && (thisMark <=? mxFrame) then max_mark n (i + 1) mxFrame thisMark i
    else max_mark n (i + 1) mxFrame mxReadMark mxI
  end.

(** The loop that sets a mark that nobody uses: a result to return, or the last
    result code, the mark and its number. *)
Fixpoint claim_mark (n : nat) (i mxFrame mxReadMark mxI rc : Z) : M (option Z * Z * Z * Z) :=
  match n with
  | O => mret (None, rc, mxReadMark, mxI)
  | S n =>
    rc ← walLockExclusive (WAL_READ_LOCK i) 1;
    if rc =? SQLITE_OK then
      set_read_mark i mxFrame;;
      walUnlockExclusive (WAL_READ_LOCK i) 1;;
      mret (None, rc, mxFrame, i)
    else if negb (rc =? SQLITE_BUSY) then mret (Some rc, rc, mxReadMark, mxI)
    else claim_mark n (i + 1) mxFrame mxReadMark mxI rc
  end.

(** The last part: the lock on the mark, and the check that nothing changed. *)
Definition lock_mark (mxReadMark mxI : Z) : M Z :=
  rc ← walLockShared (WAL_READ_LOCK mxI);
  if negb (rc =? SQLITE_OK) then mret (if rc =? SQLITE_BUSY then WAL_RETRY else rc)
  else
    m ← gets shm;
    with_wal (λ w, set_minFrame w (u32 (nBackfill (ckpt m) + 1)));;
    walShmBarrier;;
    mark ← read_mark mxI;
    same ← hdr_unchanged;
    if negb (mark =? mxReadMark) || negb same then walUnlockShared (WAL_READ_LOCK mxI);; mret WAL_RETRY
    else with_wal (λ w, set_readLock w mxI);; mret rc.

Definition use_wal (rc : Z) : M Z :=
  pWal ← gets wal;
  let mxFrame := mxFrame (hdr pWal) in
  '(mxReadMark, mxI) ← max_mark (Z.to_nat (WAL_NREADER - 1)) 1 mxFrame 0 0;
  '(r, rc, mxReadMark, mxI) ← (
    if (Z.land (readOnly pWal) WAL_SHM_RDONLY =? 0) && ((mxReadMark <? mxFrame) || (mxI =? 0))
    then claim_mark (Z.to_nat (WAL_NREADER - 1)) 1 mxFrame mxReadMark mxI rc
    else mret (None, rc, mxReadMark, mxI));
  match r with
  | Some rc => mret rc
  | None => if mxI =? 0 then mret (if rc =? SQLITE_BUSY then WAL_RETRY else SQLITE_READONLY_CANTLOCK) else lock_mark mxReadMark mxI
  end.

(** The header has been read: the choice of a snapshot and its lock. *)
Definition choose_snapshot (useWal : bool) : M Z :=
  m ← gets shm; pWal ← gets wal;
  '(r, rc) ← (if negb useWal && (nBackfill (ckpt m) =? mxFrame (hdr pWal)) then begin_read_db else mret (None, SQLITE_OK));
  match r with Some rc => mret rc | None => use_wal rc end.

Definition walTryBeginRead (pChanged useWal : bool) (cnt : Z) : M (Z * bool) :=
  if 100 <? cnt then mret (SQLITE_PROTOCOL, pChanged)
  else
    '(rc, pChanged) ← (if negb useWal then begin_read_hdr pChanged else mret (SQLITE_OK, pChanged));
    if negb (rc =? SQLITE_OK) then mret (rc, pChanged) else rc ← choose_snapshot useWal; mret (rc, pChanged).

(** The attempts, of which the last returns [SQLITE_PROTOCOL]. *)
Fixpoint begin_read_loop (n : nat) (pChanged useWal : bool) (cnt : Z) : M (Z * bool) :=
  match n with
  | O => λ _, None
  | S n =>
    '(rc, pChanged) ← walTryBeginRead pChanged useWal (cnt + 1);
    if rc =? WAL_RETRY then begin_read_loop n pChanged useWal (cnt + 1) else mret (rc, pChanged)
  end.

Definition sqlite3WalBeginReadTransaction (pChanged : bool) : M (Z * bool) := begin_read_loop 101 pChanged false 0.

(** ** Write transactions *)

Definition sqlite3WalEndWriteTransaction : M Z :=
  pWal ← gets wal;
  if writeLock pWal then
    walUnlockExclusive WAL_WRITE_LOCK 1;;
    with_wal (λ w, set_truncateOnCommit (set_iReCksum (set_writeLock w false) 0) false);;
    mret SQLITE_OK
  else mret SQLITE_OK.

Definition sqlite3WalEndReadTransaction : M () :=
  sqlite3WalEndWriteTransaction;;
  pWal ← gets wal;
  if 0 <=? readLock pWal then walUnlockShared (WAL_READ_LOCK (readLock pWal));; with_wal (λ w, set_readLock w (-1)) else mret ().

Definition sqlite3WalBeginWriteTransaction : M Z :=
  pWal ← gets wal;
  if negb (readOnly pWal =? 0) then mret SQLITE_READONLY
  else
    rc ← walLockExclusive WAL_WRITE_LOCK 1;
    if negb (rc =? SQLITE_OK) then mret rc
    else
      with_wal (λ w, set_writeLock w true);;
      same ← hdr_unchanged;
      if negb same then
        walUnlockExclusive WAL_WRITE_LOCK 1;;
        with_wal (λ w, set_writeLock w false);;
        mret SQLITE_BUSY_SNAPSHOT
      else mret rc.

(** The page in a frame, of at most [nOut] bytes. *)
Definition sqlite3WalReadFrame (iRead nOut : Z) : M (Z * list Z) :=
  pWal ← gets wal;
  let sz := page_size_of (hdr_szPage (hdr pWal)) in
  sqlite3OsRead pWalFd (if sz <? nOut then sz else nOut) (walFrameOffset iRead sz + WAL_FRAME_HDRSIZE).

Definition sqlite3WalDbsize : M Z := pWal ← gets wal; mret (if 0 <=? readLock pWal then nPage (hdr pWal) else 0).

(** ** The restart of the log *)

(** [salt1] is the bytes that [sqlite3_randomness] returns. *)
Definition walRestartHdr (salt1 : list Z) : M () :=
  pWal ← gets wal;
  let aSalt := aSalt (hdr pWal) in
  salt0 ← lift (get4 has_bswap aSalt 0);
  aSalt ← lift (put4 has_bswap aSalt 0 (u32 (1 + salt0)));
  with_wal (λ w, set_hdr (set_nCkpt w (u32 (nCkpt w + 1))) (set_aSalt (set_mxFrame (hdr w) 0) (put_bytes aSalt 4 salt1)));;
  walIndexWriteHdr;;
  with_shm (λ m, set_ckpt m (mkWalCkptInfo 0
    (take 1 (aReadMark (ckpt m)) ++ [0] ++ replicate (Z.to_nat (WAL_NREADER - 2)) READMARK_NOT_USED) 0)).

Definition walRestartLog (salt1 : list Z) : M Z :=
  pWal ← gets wal;
  if readLock pWal =? 0 then
    m ← gets shm;
    rc ← (if 0 <? nBackfill (ckpt m) then
            rc ← walLockExclusive (WAL_READ_LOCK 1) (WAL_NREADER - 1);
            if rc =? SQLITE_OK then
              walRestartHdr salt1;; walUnlockExclusive (WAL_READ_LOCK 1) (WAL_NREADER - 1);; mret rc
            else mret rc
          else mret SQLITE_OK);
    if negb (rc =? SQLITE_OK) && negb (rc =? SQLITE_BUSY) then mret rc
    else
      walUnlockShared (WAL_READ_LOCK 0);;
      with_wal (λ w, set_readLock w (-1));;
      '(rc, _) ← begin_read_loop 101 false true 0;
      mret rc
  else mret SQLITE_OK.

(** ** Writing frames *)

Definition walWriteToLog (iSyncPoint : Z) (pContent : list Z) (iOffset : Z) : M Z :=
  let iAmt := Z.of_nat (length pContent) in
  if (iOffset <? iSyncPoint) && (iSyncPoint <=? iOffset + iAmt) then
    let iFirstAmt := s32 (iSyncPoint - iOffset) in
    rc ← sqlite3OsWrite_wal (take (Z.to_nat iFirstAmt) pContent) iOffset;
    on_ok rc (
      rc ← sqlite3OsSync;
      if (iAmt - iFirstAmt =? 0) || negb (rc =? SQLITE_OK) then mret rc
      else sqlite3OsWrite_wal (drop (Z.to_nat iFirstAmt) pContent) (iOffset + iFirstAmt))
  else sqlite3OsWrite_wal pContent iOffset.

(** [xCodec] is the callback of the pager, if there is one: it gives the bytes to
    write for a page. *)
Context (xCodec : option (PgHdr → option (list Z))).

Definition sqlite3PagerCodec (pPg : PgHdr) : option (list Z) :=
  match xCodec with None => Some (pData pPg) | Some f => f pPg end.

(** The connection takes the new checksum from [walEncodeFrame]. *)
Definition walWriteOneFrame (w : WalWriter) (pPage : PgHdr) (nTruncate iOffset : Z) : M Z :=
  match sqlite3PagerCodec pPage with
  | None => mret SQLITE_NOMEM
  | Some pData =>
    pWal ← gets wal;
    '(aFrame, pWal) ← lift (walEncodeFrame has_bswap pWal (pgno pPage) nTruncate pData (replicate 24 0));
    with_wal (λ _, pWal);;
    rc ← walWriteToLog (iSyncPoint w) aFrame iOffset;
    on_ok rc (walWriteToLog (iSyncPoint w) (take (Z.to_nat (w_szPage w)) pData) (iOffset + WAL_FRAME_HDRSIZE))
  end.

(** The loop of [walRewriteChecksums] over [n] frames. *)
Fixpoint rewrite_loop (n : nat) (szPage iRead : Z) : M Z :=
  match n with
  | O => mret SQLITE_OK
  | S n =>
    let iOff := walFrameOffset iRead szPage in
    '(rc, aBuf) ← sqlite3OsRead pWalFd (szPage + WAL_FRAME_HDRSIZE) iOff;
    on_ok rc (
      iPgno ← lift (get4 has_bswap aBuf 0);
      nDbSize ← lift (get4 has_bswap aBuf 4);
      pWal ← gets wal;
      '(aFrame, pWal) ← lift (walEncodeFrame has_bswap pWal iPgno nDbSize (drop (Z.to_nat WAL_FRAME_HDRSIZE) aBuf) (replicate 24 0));
      with_wal (λ _, pWal);;
      rc ← sqlite3OsWrite_wal aFrame iOff;
      on_ok rc (rewrite_loop n szPage (iRead + 1)))
  end.

(** The result of a failed read of the checksum is used all the same, but not
    for anything that is written. *)
Definition walRewriteChecksums (iLast : Z) : M Z :=
  rc ← outcome;
  if negb (rc =? SQLITE_OK) then mret SQLITE_NOMEM
  else
    pWal ← gets wal;
    let szPage := wal_szPage pWal in
    let iCksumOff := if iReCksum pWal =? 1 then 24 else walFrameOffset (iReCksum pWal - 1) szPage + 16 in
    '(rc, aBuf) ← sqlite3OsRead pWalFd 8 iCksumOff;
    c1 ← lift (get4 has_bswap aBuf 0);
    c2 ← lift (get4 has_bswap aBuf 4);
    with_wal (λ w, set_iReCksum (set_hdr w (set_aFrameCksum (hdr w) (c1, c2))) 0);;
    on_ok rc (rewrite_loop (Z.to_nat (iLast - iReCksum pWal + 1)) szPage (iReCksum pWal)).

(** Errors are ignored. *)
Definition walLimitSize (nMax : Z) : M () :=
  '(rx, sz) ← sqlite3OsFileSize pWalFd;
  if (rx =? SQLITE_OK) && (nMax <? sz) then os_update (λ s, set_pWalFd s (take (Z.to_nat nMax) (pWalFd s)));; mret () else mret ().

(** The bytes of the header of the file, and their checksum. *)
Definition wal_header (szPage nCkpt : Z) (aSalt : list Z) : option (list Z * (Z * Z)) :=
  a ← put4 has_bswap (replicate 32 0) 0 (Z.lor WAL_MAGIC SQLITE_BIGENDIAN);
  a ← put4 has_bswap a 4 WAL_MAX_VERSION;
  a ← put4 has_bswap a 8 szPage;
  a ← put4 has_bswap a 12 nCkpt;
  let a := put_bytes a 16 aSalt in
  let aCksum := walChecksumBytes true (take 24 a) None in
  a ← put4 has_bswap a 24 (fst aCksum);
  a ← put4 has_bswap a 28 (snd aCksum);
  Some (a, aCksum).

(** The header is written for the first frame. *)
Definition write_wal_header (szPage : Z) (salt : list Z) (sync_flags : Z) : M Z :=
  pWal ← gets wal;
  let aSalt := if nCkpt pWal =? 0 then salt else aSalt (hdr pWal) in
  '(a, aCksum) ← lift (wal_header szPage (nCkpt pWal) aSalt);
  with_wal (λ w, set_truncateOnCommit (set_wal_szPage (set_hdr w
    (set_aFrameCksum (set_bigEndCksum (set_aSalt (hdr w) aSalt) SQLITE_BIGENDIAN) aCksum)) szPage) true);;
  rc ← sqlite3OsWrite_wal a 0;
  on_ok rc (if syncHeader pWal && negb (sync_flags =? 0) then sqlite3OsSync else mret SQLITE_OK).

(** [*piRead] after [sqlite3WalFindFrame], which the caller has set to 0. *)
Definition find_frame (pgno : Z) : M Z :=
  '(_, iRead) ← index (λ w m o, sqlite3WalFindFrame w m pgno o); mret (default 0 iRead).

(** A frame of the transaction is written again with the new content of its
    page: the result code, or nothing if the page has no such frame. *)
Definition overwrite_frame (p : PgHdr) (iFirst szPage : Z) : M (option Z) :=
  iWrite ← find_frame (pgno p);
  if iFirst <=? iWrite then
    with_wal (λ w, if (iReCksum w =? 0) || (iWrite <? iReCksum w) then set_iReCksum w iWrite else w);;
    match sqlite3PagerCodec p with
    | None => mret (Some SQLITE_NOMEM)
    | Some pData =>
      rc ← sqlite3OsWrite_wal (take (Z.to_nat szPage) pData) (walFrameOffset iWrite szPage + WAL_FRAME_HDRSIZE);
      mret (Some rc)
    end
  else mret None.

(** The loop that writes the pages: the result code, the last frame, and for
    each page whether it has a new frame, the flag [PGHDR_WAL_APPEND]. *)
Fixpoint write_pages (pList : list PgHdr) (iFirst iFrame nTruncate : Z) (isCommit : bool) (szPage : Z) : M (Z * Z * list bool) :=
  match pList with
  | [] => mret (SQLITE_OK, iFrame, [])
  | p :: l =>
    let last := match l with [] => true | _ => false end in
    r ← (if negb (iFirst =? 0) && (negb last || negb isCommit) then overwrite_frame p iFirst szPage else mret None);
    match r with
    | Some rc =>
      if negb (rc =? SQLITE_OK) then mret (rc, iFrame, [])
      else '(rc, iFrame, app) ← write_pages l iFirst iFrame nTruncate isCommit szPage; mret (rc, iFrame, false :: app)
    | None =>
      let iFrame := iFrame + 1 in
      let nDbSize := if isCommit && last then nTruncate else 0 in
      rc ← walWriteOneFrame (mkWalWriter 0 szPage) p nDbSize (walFrameOffset iFrame szPage);
      if negb (rc =? SQLITE_OK) then mret (rc, iFrame, [])
      else '(rc, iFrame, app) ← write_pages l iFirst iFrame nTruncate isCommit szPage; mret (rc, iFrame, true :: app)
    end
  end.

(** The copies of the last frame up to the end of a sector, at most [n]: the
    result code and how many. *)
Fixpoint pad_sector (n : nat) (w : WalWriter) (pLast : option PgHdr) (nTruncate iOffset nExtra : Z) : M (Z * Z) :=
  match n with
  | O => mret (SQLITE_OK, nExtra)
  | S n =>
    if iOffset <? iSyncPoint w then
      p ← lift pLast;
      rc ← walWriteOneFrame w p nTruncate iOffset;
      if negb (rc =? SQLITE_OK) then mret (rc, nExtra)
      else pad_sector n w pLast nTruncate (iOffset + w_szPage w + WAL_FRAME_HDRSIZE) (nExtra + 1)
    else mret (SQLITE_OK, nExtra)
  end.

(** The end of a transaction: whether the function returns, as it does if a copy
    cannot be written but not if the file cannot be synced; the result code and
    the number of copies. *)
Definition sync_commit (pLast : option PgHdr) (szPage iFrame nTruncate sectorSize : Z) : M (bool * Z * Z) :=
  pWal ← gets wal;
  let iOffset := walFrameOffset (iFrame + 1) szPage in
  if padToSectorBoundary pWal then
    let iSyncPoint := (iOffset + sectorSize - 1) / sectorSize * sectorSize in
    '(rc, nExtra) ← pad_sector (Z.to_nat (iSyncPoint - iOffset)) (mkWalWriter iSyncPoint szPage) pLast nTruncate iOffset 0;
    if negb (rc =? SQLITE_OK) then mret (true, rc, nExtra)
    else if iSyncPoint =? iOffset then rc ← sqlite3OsSync; mret (false, rc, nExtra)
    else mret (false, rc, nExtra)
  else rc ← sqlite3OsSync; mret (false, rc, 0).

(** The loops that append to the wal-index. *)
Fixpoint append_pages (l : list (PgHdr * bool)) (iFrame : Z) : M (Z * Z) :=
  match l with
  | [] => mret (SQLITE_OK, iFrame)
  | (p, app) :: l =>
    if negb app then append_pages l iFrame
    else
      rc ← index (λ w m o, walIndexAppend w m (iFrame + 1) (pgno p) o);
      if negb (rc =? SQLITE_OK) then mret (rc, iFrame + 1) else append_pages l (iFrame + 1)
  end.

Definition truncate_log (szPage iLast : Z) (isCommit : bool) : M () :=
  pWal ← gets wal;
  if isCommit && truncateOnCommit pWal && (0 <=? mxWalSize pWal) then
    let sz := walFrameOffset (iLast + 1) szPage in
    walLimitSize (if mxWalSize pWal <? sz then sz else mxWalSize pWal);;
    with_wal (λ w, set_truncateOnCommit w false)
  else mret ().

(** The updates of the headers at the end. *)
Definition finish_frames (szPage iFrame nTruncate : Z) (isCommit : bool) : M () :=
  with_wal (λ w, set_hdr w (set_mxFrame (set_hdr_szPage (hdr w) (szPage_field szPage)) iFrame));;
  if isCommit then
    with_wal (λ w, set_hdr w (set_nPage (set_iChange (hdr w) (u32 (iChange (hdr w) + 1))) nTruncate));;
    walIndexWriteHdr;;
    with_wal (λ w, set_iCallback w iFrame)
  else mret ().

(** From the frames on; [sectorSize] is the size of a sector of the file. *)
Definition write_frames (szPage : Z) (pList : list PgHdr) (nTruncate : Z) (isCommit : bool) (sync_flags iFirst sectorSize : Z) : M Z :=
  pWal ← gets wal;
  let mx := mxFrame (hdr pWal) in
  '(rc, iFrame, app) ← write_pages pList iFirst mx nTruncate isCommit szPage;
  on_ok rc (
    pWal ← gets wal;
    rc ← (if isCommit && negb (iReCksum pWal =? 0) then walRewriteChecksums iFrame else mret SQLITE_OK);
    on_ok rc (
      let pLast := last (fst <$> filter (λ x, snd x = true) (zip pList app)) in
      '(out, rc, nExtra) ← (
        if isCommit && negb (Z.land sync_flags WAL_SYNC_TRANSACTIONS =? 0) then sync_commit pLast szPage iFrame nTruncate sectorSize
        else mret (false, SQLITE_OK, 0));
      if out : bool then mret rc
      else
        truncate_log szPage (iFrame + nExtra) isCommit;;
        on_ok rc (
          '(rc, iFrame) ← append_pages (zip pList app ++ match pLast with Some p => replicate (Z.to_nat nExtra) (p, true) | None => [] end) mx;
          on_ok rc (finish_frames szPage iFrame nTruncate isCommit;; mret SQLITE_OK)))).

(** [salt] and [salt1] are what [sqlite3_randomness] returns for the header of the
    file and for a restart. *)
Definition sqlite3WalFrames (szPage : Z) (pList : list PgHdr) (nTruncate : Z) (isCommit : bool)
    (sync_flags sectorSize : Z) (salt salt1 : list Z) : M Z :=
  same ← hdr_unchanged;
  m ← gets shm;
  let iFirst := if negb same then u32 (mxFrame (shm_hdr0 m) + 1) else 0 in
  rc ← walRestartLog salt1;
  on_ok rc (
    pWal ← gets wal;
    rc ← (if mxFrame (hdr pWal) =? 0 then write_wal_header szPage salt sync_flags else mret SQLITE_OK);
    on_ok rc (write_frames szPage pList nTruncate isCommit sync_flags iFirst sectorSize)).
End read.
