(* ===== verification/WalCommit.v ===== *)
(** * Write-ahead log: commits and the locks of transactions

    [sqlite3WalFrames] appends frames of the format to the file and to the
    wal-index, and a commit is in the header that all connections share only when
    everything else is done. [walTryBeginRead], while other connections change the
    shared memory, holds one lock if it succeeds, that of the snapshot, and none
    if it does not. *)
From S2P Require Import Prelude Words Varint VarintProofs WalIndex WalLog WalFile WalRecover WalRead.
From stdpp Require Import gmap.
Local Open Scope Z_scope.

Section commit.
Context `{Machine} (has_bswap : bool) (xCodec : option (PgHdr → option (list Z))).
Implicit Types (be : bool) (salt : list Z) (s : Z * Z) (f : log_frame) (fs : list log_frame) (sz : Z) (st : St) (p : PgHdr).

(** ** Writing to the file *)

Lemma file_write_inside (pre bs rest : list Z) off :
  Z.of_nat (length pre) = off → file_write (pre ++ rest) off bs = pre ++ bs ++ drop (length bs) rest.
Proof.
  intros Hoff. unfold file_write. rewrite length_app. replace (Z.to_nat off - (length pre + length rest))%nat with 0%nat by lia.
  cbn [replicate]. rewrite app_nil_r. rewrite take_app_length' by lia. f_equal. f_equal. rewrite drop_app_ge by lia. f_equal. lia.
Qed.

(** The outcome of a call that writes [bs] to the log at [off]. *)
Lemma write_run bs off st :
  sqlite3OsWrite_wal bs off st =
    let '(rc, o) := next_rc (rcs st) in
    Some (if rc =? SQLITE_OK then (SQLITE_OK, set_pWalFd (set_rcs st o) (file_write (pWalFd st) off bs)) else (rc, set_rcs st o)).
Proof.
  unfold sqlite3OsWrite_wal, os_update. rewrite bind_outcome. destruct (next_rc (rcs st)) as [rc o]. unfold on_ok.
  by destruct (rc =? SQLITE_OK).
Qed.

Lemma next_rc_nil (o o' : list Z) rc : next_rc o = (rc, o') → o = [] → rc = SQLITE_OK ∧ o' = [].
Proof. intros E ->. by injection E as <- <-. Qed.

(** The state after some writes: only the file, the checksum and the outcomes
    have changed. *)
Definition file_only st st' : Prop :=
  shm st' = shm st ∧ locks st' = locks st ∧ pDbFd st' = pDbFd st ∧ others st' = others st ∧
  ∃ c, wal st' = set_hdr (wal st) (set_aFrameCksum (hdr (wal st)) c).

Lemma file_only_refl st : file_only st st.
Proof. split_and!; try done. exists (aFrameCksum (hdr (wal st))). destruct st as [[[]]]. reflexivity. Qed.

Lemma file_only_trans st1 st2 st3 : file_only st1 st2 → file_only st2 st3 → file_only st1 st3.
Proof.
  intros (H1 & H2 & H3 & H4 & c & Hc) (E1 & E2 & E3 & E4 & c' & Hc'). split_and!; [by rewrite E1|by rewrite E2|by rewrite E3|by rewrite E4|].
  exists c'. by rewrite Hc', Hc.
Qed.

(** The frame of a page. *)
Definition frame_of p (size : Z) : log_frame := mkFrame (pgno p) size (default [] (sqlite3PagerCodec xCodec p)).

Definition valid_page (sz : Z) p : Prop :=
  0 < pgno p < 2 ^ 32 ∧ ∃ d, sqlite3PagerCodec xCodec p = Some d ∧ Z.of_nat (length d) = sz ∧ bytes_ok d.

Lemma frame_of_valid sz p size : valid_page sz p → uint 32 size → valid_frame sz (frame_of p size).
Proof. intros (Hp & d & Hd & Hl & Hb) Hs. unfold valid_frame, frame_of. cbn. rewrite Hd. exact (conj Hp (conj Hs (conj Hl Hb))). Qed.

(** [walWriteOneFrame] away from a sync point: an error, or the frame is
    written. *)
Lemma walWriteOneFrame_spec st be salt sz s p size (pre rest : list Z) off :
  log_conn (wal st) be salt sz s → iReCksum (wal st) = 0 → length salt = 8%nat → valid_page sz p → uint 32 size →
  uint 32 (fst s) → uint 32 (snd s) → pWalFd st = pre ++ rest → Z.of_nat (length pre) = off → 0 < sz →
  ∃ rc st', walWriteOneFrame has_bswap xCodec (mkWalWriter 0 sz) p size off st = Some (rc, st') ∧ file_only st st' ∧
    (rcs st = [] → rc = SQLITE_OK ∧ rcs st' = []) ∧
    (rc = SQLITE_OK → log_conn (wal st') be salt sz (frame_cksum be s (frame_of p size)) ∧
      pWalFd st' = pre ++ frame_bytes be salt s (frame_of p size) ++ drop (Z.to_nat (sz + 24)) rest) ∧
    (rc ≠ SQLITE_OK → pWalFd st' = pre ++ rest ∨ pWalFd st' = pre ++ frame_header be salt s (frame_of p size) ++ drop 24 rest).
Proof.
  intros Hconn Hre Hls Hp Hsize Hs1 Hs2 Hfile Hoff Hsz. set (f := frame_of p size). pose proof (frame_of_valid sz p size Hp Hsize) as Hf. fold f in Hf.
  destruct Hp as (Hpg & d & Hd & Hdl & Hdb). unfold walWriteOneFrame. rewrite Hd. run.
  assert (f_data f = d) as Efd by (unfold f, frame_of; cbn; by rewrite Hd).
  pose proof (walEncodeFrame_spec has_bswap (wal st) be salt sz s f (replicate 24 0) Hconn Hre Hls Hf ltac:(done) Hs1 Hs2) as E.
  rewrite Efd in E. cbn [f f_pgno f_size frame_of] in E. rewrite E. run. clear E. unfold walWriteToLog. cbn [iSyncPoint].
  pose proof (length_frame_header be salt s f Hls) as Hlh.
  assert (off <? 0 = false) as -> by (apply Z.ltb_ge; lia). assert (off + WAL_FRAME_HDRSIZE <? 0 = false) as -> by (apply Z.ltb_ge; unfold WAL_FRAME_HDRSIZE; lia).
  cbn [andb]. set (st1 := set_wal st _).
  assert (file_only st st1) as Hfo by (split_and!; try done; by eexists).
  destruct (next_rc (rcs st1)) as [rc o] eqn:Eo. pose proof (write_run (frame_header be salt s f) off st1) as Hw. rewrite Eo in Hw.
  destruct (Z.eqb_spec rc SQLITE_OK) as [->|Hrc]; unfold on_ok; rewrite (bind_some _ _ _ _ _ Hw); clear Hw.
  2: { destruct (Z.eqb_spec rc SQLITE_OK); [done|]. exists rc, (set_rcs st1 o). split; [done|]. split; [done|]. split; [by eapply next_rc_nil|]. split; [done|by left]. }
  change (SQLITE_OK =? SQLITE_OK) with true. cbn iota. rewrite write_run. set (st2 := set_pWalFd (set_rcs st1 o) _).
  change (rcs st2) with o. destruct (next_rc o) as [rc o2] eqn:Eo2.
  assert (rcs st = [] → rc = SQLITE_OK ∧ o2 = []) as Hrcs.
  { intros E. apply (next_rc_nil _ _ _ Eo) in E as [_ ->]. by apply (next_rc_nil _ _ _ Eo2). }
  destruct (Z.eqb_spec rc SQLITE_OK) as [->|Hrc]; eexists _, _; (split; [done|]); (split; [exact Hfo|]); (split; [done|]).
  2: { split; [done|]. intros _. right. cbn [pWalFd set_pWalFd set_rcs st2 st1 set_wal]. rewrite Hfile, file_write_inside by done. by rewrite Hlh. }
  split; [|done]. intros _. split; [by destruct Hconn as (? & ? & ? & ?)|].
  cbn [pWalFd set_pWalFd set_rcs st2 st1 set_wal]. rewrite Hfile, file_write_inside by done.
  rewrite (app_assoc pre). rewrite file_write_inside by (rewrite length_app, Hlh; unfold WAL_FRAME_HDRSIZE; lia).
  cbn [w_szPage]. rewrite take_ge by lia. rewrite drop_drop, Hlh. unfold frame_bytes. rewrite <-!app_assoc, Efd. do 4 f_equal. lia.
Qed.

(** ** The pages of a call *)

(** The frames that a call writes: the last one of a commit has the size. *)
Fixpoint page_frames (pList : list PgHdr) (nTruncate : Z) (isCommit : bool) : list log_frame :=
  match pList with
  | [] => []
  | p :: l => frame_of p (if isCommit && match l with [] => true | _ => false end then nTruncate else 0) :: page_frames l nTruncate isCommit
  end.

Lemma page_frames_valid sz pList n isCommit : Forall (valid_page sz) pList → uint 32 n → Forall (valid_frame sz) (page_frames pList n isCommit).
Proof.
  intros Hp Hn. induction Hp as [|p l Hp _ IH]; [constructor|]. cbn [page_frames]. constructor; [|done]. apply frame_of_valid; [done|].
  destruct (isCommit && _); [done|apply uint_0; lia].
Qed.

Lemma page_frames_pgno pList n isCommit : f_pgno <$> page_frames pList n isCommit = pgno <$> pList.
Proof. induction pList as [|p l IH]; [done|]. cbn [page_frames fmap list_fmap]. by f_equal. Qed.

Lemma page_frames_length pList n isCommit : length (page_frames pList n isCommit) = length pList.
Proof. by rewrite <-(length_fmap f_pgno), page_frames_pgno, length_fmap. Qed.

Lemma walFrameOffset_next i sz : walFrameOffset i sz + (sz + 24) = walFrameOffset (i + 1) sz.
Proof. unfold walFrameOffset, WAL_HDRSIZE, WAL_FRAME_HDRSIZE. lia. Qed.

(** What is in the place of [rest] when the writing of the frames [fs] stops
    somewhere: some frames are written, and of the next one perhaps the header. *)
Definition stopped be salt sz s fs (rest R : list Z) : Prop :=
  ∃ (j : nat) tl, (j < length fs)%nat ∧ R = frames_bytes be salt s (take j fs) ++ tl ∧
    (tl = drop (j * Z.to_nat (sz + 24)) rest ∨
     ∃ f, fs !! j = Some f ∧ tl = frame_header be salt (foldl (frame_cksum be) s (take j fs)) f ++ drop 24 (drop (j * Z.to_nat (sz + 24)) rest)).

Lemma stopped_cons be salt sz s f fs rest R :
  stopped be salt sz (frame_cksum be s f) fs (drop (Z.to_nat (sz + 24)) rest) R → stopped be salt sz s (f :: fs) rest (frame_bytes be salt s f ++ R).
Proof.
  intros (j & tl & Hj & -> & Htl). exists (S j), tl. cbn [length take frames_bytes foldl]. split; [lia|]. split; [by rewrite app_assoc|].
  rewrite drop_drop in Htl. exact Htl.
Qed.

(** When no frame is written again, all pages get a new frame. *)
Lemma write_pages_spec be salt sz n isCommit pList :
  length salt = 8%nat → 0 < sz → uint 32 n → Forall (valid_page sz) pList →
  ∀ st s iFrame (pre rest : list Z),
  log_conn (wal st) be salt sz s → iReCksum (wal st) = 0 → uint 32 (fst s) → uint 32 (snd s) →
  pWalFd st = pre ++ rest → Z.of_nat (length pre) = walFrameOffset (iFrame + 1) sz →
  let fs := page_frames pList n isCommit in
  ∃ rc iF app st', write_pages has_bswap xCodec pList 0 iFrame n isCommit sz st = Some (rc, iF, app, st') ∧ file_only st st' ∧
    (rcs st = [] → rc = SQLITE_OK ∧ rcs st' = []) ∧
    (rc = SQLITE_OK → iF = iFrame + Z.of_nat (length pList) ∧ app = replicate (length pList) true ∧
      log_conn (wal st') be salt sz (foldl (frame_cksum be) s fs) ∧
      pWalFd st' = pre ++ frames_bytes be salt s fs ++ drop (Z.to_nat (Z.of_nat (length pList) * (sz + 24))) rest) ∧
    (rc ≠ SQLITE_OK → ∃ R, pWalFd st' = pre ++ R ∧ stopped be salt sz s fs rest R).
Proof.
  intros Hls Hsz Hn Hp. induction Hp as [|p l Hp Hl IH]; intros st s iFrame pre rest Hconn Hre Hs1 Hs2 Hfile Hoff; cbn [write_pages page_frames].
  { exists SQLITE_OK, iFrame, [], st. split; [done|]. split; [apply file_only_refl|]. split; [done|].
    split; [|done]. intros _. split; [cbn; lia|]. by split_and!. }
  change (0 =? 0) with true. cbn [negb andb]. run.
  set (size := if isCommit && _ then n else 0). assert (uint 32 size) as Hsize by (unfold size; destruct (isCommit && _); [done|apply uint_0; lia]).
  destruct (walWriteOneFrame_spec st be salt sz s p size pre rest (walFrameOffset (iFrame + 1) sz)) as (rc & st1 & E1 & Hf1 & Ho1 & Hok1 & Herr1); try done.
  rewrite (bind_some _ _ _ _ _ E1). destruct (Z.eqb_spec rc SQLITE_OK) as [->|Hrc]; cbn [negb].
  2: { exists rc, (iFrame + 1), [], st1. split_and!; try done. intros _. fold size in Herr1. cbn [length].
       destruct (Herr1 Hrc) as [E|E]; rewrite E; (eexists; split; [done|]); exists 0%nat; eexists; (split; [cbn [length]; lia|]); (split; [done|]); [by left|right].
       by eexists. }
  destruct (Hok1 eq_refl) as [Hconn1 Hfile1]. set (s1 := frame_cksum be s (frame_of p size)) in *.
  destruct (frame_cksum_uint be s (frame_of p size) Hs1 Hs2) as [Hu1 Hu2]. fold s1 in Hu1, Hu2.
  pose proof (frame_of_valid sz p size Hp Hsize) as Hvf. pose proof (length_frame be salt s _ sz Hls Hvf) as Hlf.
  destruct (IH st1 s1 (iFrame + 1) (pre ++ frame_bytes be salt s (frame_of p size)) (drop (Z.to_nat (sz + 24)) rest))
    as (rc & iF & app & st2 & E2 & Hf2 & Ho2 & Hok2 & Herr2); try done.
  { destruct Hf1 as (_ & _ & _ & _ & c & ->). done. }
  { by rewrite <-app_assoc. }
  { rewrite length_app, Nat2Z.inj_add, Hlf, Hoff. apply walFrameOffset_next. }
  rewrite (bind_some _ _ _ _ _ E2). exists rc, iF, (true :: app), st2. split; [done|]. split; [by eapply file_only_trans|].
  split; [intros E; apply Ho2; by apply Ho1 in E as [_ ?]|]. split.
  2: { intros Hrc. destruct (Herr2 Hrc) as (R & -> & HR). exists (frame_bytes be salt s (frame_of p size) ++ R). split; [by rewrite app_assoc|]. by apply stopped_cons. }
  intros Hrc. destruct (Hok2 Hrc) as (-> & -> & Hconn2 & ->).
  split; [cbn [length]; lia|]. split; [done|]. split; [done|]. cbn [frames_bytes foldl]. fold s1. rewrite drop_drop, <-!app_assoc. do 4 f_equal.
  cbn [length]. lia.
Qed.

(** ** The index *)

(** The index and the connection while frames are appended. *)
Definition appending st log : Prop :=
  conn_ok (wal st) (shm st) ∧ log_ok (shm st) log ∧ (tail_clean (shm st) log ∨ mxFrame (hdr (wal st)) = len log) ∧ writeLock (wal st) = true.

Definition index_only st st' : Prop :=
  locks st' = locks st ∧ pWalFd st' = pWalFd st ∧ pDbFd st' = pDbFd st ∧ others st' = others st ∧ same_conn (wal st) (wal st') ∧
  shm_hdr0 (shm st') = shm_hdr0 (shm st).

Lemma index_only_refl st : index_only st st.
Proof. by split_and!. Qed.

Lemma index_only_trans st1 st2 st3 : index_only st1 st2 → index_only st2 st3 → index_only st1 st3.
Proof.
  intros (H1 & H2 & H3 & H4 & H5 & H6) (E1 & E2 & E3 & E4 & E5 & E6).
  split_and!; [by rewrite E1|by rewrite E2|by rewrite E3|by rewrite E4|by eapply same_conn_trans|by rewrite E6].
Qed.

Lemma append_pages_spec pList : Forall (λ p, 0 < pgno p < 2 ^ 32) pList →
  ∀ st log, appending st log → len log + Z.of_nat (length pList) + 1 < 2 ^ 31 →
  ∃ rc iF st', append_pages (zip pList (replicate (length pList) true)) (len log) st = Some (rc, iF, st') ∧ index_only st st' ∧
    (rcs st = [] → rc = SQLITE_OK ∧ rcs st' = []) ∧
    (rc = SQLITE_OK → iF = len log + Z.of_nat (length pList) ∧ appending st' (log ++ (pgno <$> pList))).
Proof.
  intros Hp. induction Hp as [|p l Hp Hl IH]; intros st log Happ Hlen; cbn [zip replicate length zip_with append_pages].
  { exists SQLITE_OK, (len log), st. split; [done|]. split; [apply index_only_refl|]. split; [done|]. intros _. split; [lia|]. by rewrite app_nil_r. }
  cbn [negb]. destruct Happ as (Hc & Hlog & Hclean & Hw).
  destruct (walIndexAppend_spec (wal st) (shm st) log (pgno p) (rcs st)) as (r & Hr & Hres); try done; [cbn [length] in Hlen; lia|].
  destruct r as [[[rc pWal'] shm'] o']. destruct Hres as (Hc' & Hs' & Hh' & _ & Hok & Ho).
  set (st1 := mkSt pWal' shm' (locks st) (pWalFd st) (pDbFd st) o' (others st) (theirs st)).
  assert (index_only st st1) as Hi1 by by split_and!.
  rewrite (bind_some st st1 _ _ rc) by (unfold index; by rewrite Hr).
  destruct (Z.eqb_spec rc SQLITE_OK) as [->|Hrc]; cbn [negb]; [|by exists rc, (len log + 1), st1].
  destruct (Hok eq_refl) as (Hlog' & Hclean' & _). assert (len (log ++ [pgno p]) = len log + 1) as Hl1 by (rewrite length_app; cbn; lia).
  cbn [length] in Hlen. destruct (IH st1 (log ++ [pgno p])) as (rc & iF & st2 & E2 & Hi2 & Ho2 & Hok2); [|lia|].
  { split; [done|]. split; [done|]. split; [by left|]. cbn. rewrite <-Hw. apply Hs'. }
  rewrite Hl1 in E2. exists rc, iF, st2. split; [exact E2|]. split; [by eapply index_only_trans|].
  split; [intros E; apply Ho2; by apply Ho|]. intros Hrc. destruct (Hok2 Hrc) as [-> Happ2]. split; [cbn [length]; lia|].
  cbn [fmap list_fmap]. by rewrite <-app_assoc in Happ2.
Qed.

(** ** A call *)

(** A connection with the write lock whose log is in the file and in the index. *)
Record writing st be sz nCkpt salt fs (rest : list Z) : Prop := {
  wr_conn : conn_ok (wal st) (shm st);
  wr_log : log_ok (shm st) (f_pgno <$> fs);
  wr_lock : writeLock (wal st) = true;
  wr_hdr : log_conn (wal st) be salt sz (foldl (frame_cksum be) (header_cksum be sz nCkpt salt) fs);
  wr_frames : mxFrame (hdr (wal st)) = Z.of_nat (length fs);
  wr_rewrite : iReCksum (wal st) = 0;
  wr_size : page_size sz;
  wr_salt : length salt = 8%nat ∧ bytes_ok salt;
  wr_nCkpt : uint 32 nCkpt;
  wr_valid : Forall (valid_frame sz) fs;
  wr_file : pWalFd st = log_bytes be sz nCkpt salt fs ++ rest;
  wr_rest : bytes_ok rest;
  wr_others : others st = []
}.

(** What the steps of a transaction do not touch. *)
Definition kept (w w' : Wal) : Prop := readLock w' = readLock w ∧ padToSectorBoundary w' = padToSectorBoundary w.

(** Truncation keeps what is before the next frame. *)
Lemma truncate_log_spec st sz iLast isCommit (pre rest : list Z) :
  pWalFd st = pre ++ rest → Z.of_nat (length pre) = walFrameOffset (iLast + 1) sz →
  ∃ st' rest', truncate_log sz iLast isCommit st = Some ((), st') ∧ pWalFd st' = pre ++ rest' ∧ (∃ n, rest' = take n rest) ∧
    shm st' = shm st ∧ locks st' = locks st ∧ pDbFd st' = pDbFd st ∧ others st' = others st ∧ (rcs st = [] → rcs st' = []) ∧
    (wal st' = wal st ∨ wal st' = set_truncateOnCommit (wal st) false).
Proof.
  assert (∃ n, rest = take n rest) as Hid by (exists (length rest); by rewrite take_ge).
  intros Hfile Hpre. unfold truncate_log. run. destruct (isCommit && _ && _).
  2: { exists st, rest. by split_and!; [..|left]. }
  set (nMax := if mxWalSize (wal st) <? _ then _ else _). assert (walFrameOffset (iLast + 1) sz ≤ nMax) as Hmax.
  { unfold nMax. destruct (Z.ltb_spec (mxWalSize (wal st)) (walFrameOffset (iLast + 1) sz)); lia. }
  unfold walLimitSize, sqlite3OsFileSize. run. rewrite bind_outcome. destruct (next_rc (rcs st)) as [rc o] eqn:Eo. run.
  destruct ((rc =? SQLITE_OK) && _).
  2: { run. eexists _, rest. split; [done|]. split_and!; try done; [|by right]. intros E. by apply (next_rc_nil _ _ _ Eo) in E as [_ ->]. }
  unfold os_update. run. rewrite bind_outcome. cbn [rcs set_rcs]. destruct (next_rc o) as [rc2 o2] eqn:Eo2. unfold on_ok.
  assert (rcs st = [] → o2 = []) as Ho2.
  { intros E. apply (next_rc_nil _ _ _ Eo) in E as [_ ->]. by apply (next_rc_nil _ _ _ Eo2). }
  destruct (rc2 =? SQLITE_OK).
  - run. eexists _, (take (Z.to_nat nMax - length pre) rest). split; [done|]. split; [|split_and!; try done; [by eexists|by right]].
    cbn [pWalFd set_wal set_pWalFd set_rcs]. rewrite Hfile. by rewrite take_app_ge by lia.
  - run. eexists _, rest. split; [done|]. split_and!; try done. by right.
Qed.

Lemma length_log be sz nCkpt salt fs :
  length salt = 8%nat → Forall (valid_frame sz) fs →
  Z.of_nat (length (log_bytes be sz nCkpt salt fs)) = walFrameOffset (Z.of_nat (length fs) + 1) sz.
Proof.
  intros Hs Hf. unfold log_bytes. rewrite length_app, length_file_header by done. pose proof (length_frames be salt (header_cksum be sz nCkpt salt) fs sz Hs Hf).
  unfold walFrameOffset, WAL_HDRSIZE, WAL_FRAME_HDRSIZE. lia.
Qed.

Lemma chain_uint be sz nCkpt salt fs :
  let s := foldl (frame_cksum be) (header_cksum be sz nCkpt salt) fs in uint 32 (fst s) ∧ uint 32 (snd s).
Proof.
  intros s. subst s. pose proof (header_cksum_uint be sz nCkpt salt) as Hs. revert Hs. generalize (header_cksum be sz nCkpt salt).
  induction fs as [|f fs IH]; intros s Hs; [exact Hs|]. cbn [foldl]. apply IH, frame_cksum_uint; apply Hs.
Qed.

Lemma log_bytes_app be sz nCkpt salt fs fs' :
  log_bytes be sz nCkpt salt (fs ++ fs') =
    log_bytes be sz nCkpt salt fs ++ frames_bytes be salt (foldl (frame_cksum be) (header_cksum be sz nCkpt salt) fs) fs'.
Proof. unfold log_bytes. by rewrite frames_bytes_app, app_assoc. Qed.

(** The 24 bytes [h] are no commit of the log with the salt: there are fewer, the
    size is zero or the salt is another one. *)
Definition old_header salt (h : list Z) : Prop := length h = 24%nat → take 4 (drop 4 h) = replicate 4 0 ∨ take 8 (drop 8 h) ≠ salt.

(** No place of a frame in [rest] has a commit of the log with the salt. *)
Definition stale salt sz (rest : list Z) : Prop := ∀ i : nat, old_header salt (take 24 (drop (i * Z.to_nat (sz + 24)) rest)).

Lemma stale_drop salt sz rest (m : nat) : stale salt sz rest → stale salt sz (drop (m * Z.to_nat (sz + 24)) rest).
Proof. intros Hs i. rewrite drop_drop. rewrite <- Nat.mul_add_distr_r. apply Hs. Qed.

Lemma stale_take salt sz rest (n : nat) : stale salt sz rest → stale salt sz (take n rest).
Proof.
  intros Hs i Hl. set (k := (i * Z.to_nat (sz + 24))%nat) in *.
  assert (take 24 (drop k (take n rest)) = take (24 `min` (n - k)) (drop k rest)) as E by (by rewrite skipn_firstn_comm, take_take).
  rewrite E in *. rewrite length_take, length_drop in Hl. replace (24 `min` (n - k))%nat with 24%nat by lia. apply Hs.
  rewrite length_take, length_drop. fold k. lia.
Qed.

(** What a call that fails leaves in the file behind the frames [fs]: some of the
    frames [new], and of the next one perhaps the header. *)
Definition left_over be sz nCkpt salt fs (new : list log_frame) (rest F : list Z) : Prop :=
  let s := foldl (frame_cksum be) (header_cksum be sz nCkpt salt) fs in
  ∃ R, F = log_bytes be sz nCkpt salt fs ++ R ∧
    (stopped be salt sz s new rest R ∨ ∃ R', R = frames_bytes be salt s new ++ R' ∧ (stale salt sz rest → stale salt sz R')).

(** The result of a call: the header that all share changes only with a commit
    that is complete. *)
Definition frames_result be sz nCkpt salt fs (new : list log_frame) (rest : list Z) nTruncate (isCommit : bool) st (r : option (Z * St)) : Prop :=
  ∃ rc st', r = Some (rc, st') ∧ locks st' = locks st ∧ pDbFd st' = pDbFd st ∧ (rcs st = [] → rc = SQLITE_OK ∧ rcs st' = []) ∧
    (rc ≠ SQLITE_OK → shm_hdr0 (shm st') = shm_hdr0 (shm st) ∧ (fs ≠ [] → left_over be sz nCkpt salt fs new rest (pWalFd st'))) ∧
    (rc = SQLITE_OK → ∃ rest', writing st' be sz nCkpt salt (fs ++ new) rest' ∧ (stale salt sz rest → stale salt sz rest') ∧ kept (wal st) (wal st') ∧
      if isCommit then nPage (hdr (wal st')) = nTruncate ∧ shm_hdr0 (shm st') = hdr (wal st') ∧ shm_hdr1 (shm st') = hdr (wal st')
      else shm_hdr0 (shm st') = shm_hdr0 (shm st)).

Lemma finish_frames_run st sz iFrame n (isCommit : bool) :
  others st = [] →
  ∃ st', finish_frames sz iFrame n isCommit st = Some ((), st') ∧ locks st' = locks st ∧ pDbFd st' = pDbFd st ∧ pWalFd st' = pWalFd st ∧
    rcs st' = rcs st ∧ others st' = [] ∧ pages (shm st') = pages (shm st) ∧ mxFrame (hdr (wal st')) = iFrame ∧
    (∀ be salt s, log_conn (wal st) be salt sz s → log_conn (wal st') be salt sz s) ∧
    writeLock (wal st') = writeLock (wal st) ∧ iReCksum (wal st') = iReCksum (wal st) ∧ exclusiveMode (wal st') = exclusiveMode (wal st) ∧
    apWiData (wal st') = apWiData (wal st) ∧ kept (wal st) (wal st') ∧
    if isCommit then nPage (hdr (wal st')) = n ∧ shm_hdr0 (shm st') = hdr (wal st') ∧ shm_hdr1 (shm st') = hdr (wal st')
    else shm_hdr0 (shm st') = shm_hdr0 (shm st).
Proof.
  intros Ho. unfold finish_frames. run. destruct isCommit; [|eexists; split; [done|]; by split_and!].
  unfold walIndexWriteHdr. run. unfold walShmBarrier. run. set (st1 := set_shm _ _).
  rewrite (bind_some st1 st1 _ _ ()) by (destruct (negb _); [unfold interfere; cbn; by rewrite Ho|done]). run.
  eexists. split; [done|]. by split_and!.
Qed.

Lemma sync_commit_spec st pLast sz iFrame n sectorSize :
  padToSectorBoundary (wal st) = false →
  ∃ rc o, sync_commit has_bswap xCodec pLast sz iFrame n sectorSize st = Some (false, rc, 0, set_rcs st o) ∧ (rcs st = [] → rc = SQLITE_OK ∧ o = []).
Proof.
  intros Hp. unfold sync_commit. run. rewrite Hp. unfold sqlite3OsSync. rewrite bind_outcome.
  destruct (next_rc (rcs st)) as [rc o] eqn:Eo. exists rc, o. split; [done|]. by apply next_rc_nil.
Qed.

(** The last part of a call: the frames are in the file. *)
Lemma finish_write st be sz nCkpt salt fs rest0 rest pList nTruncate (isCommit : bool) :
  let new := page_frames pList nTruncate isCommit in
  appending st (f_pgno <$> fs) → log_conn (wal st) be salt sz (foldl (frame_cksum be) (header_cksum be sz nCkpt salt) (fs ++ new)) →
  iReCksum (wal st) = 0 → page_size sz → length salt = 8%nat → bytes_ok salt → uint 32 nCkpt → Forall (valid_frame sz) (fs ++ new) →
  pWalFd st = log_bytes be sz nCkpt salt (fs ++ new) ++ rest → bytes_ok rest → others st = [] → Forall (valid_page sz) pList →
  Z.of_nat (length fs) + Z.of_nat (length pList) + 1 < 2 ^ 31 → (stale salt sz rest0 → stale salt sz rest) →
  frames_result be sz nCkpt salt fs new rest0 nTruncate isCommit st
    (('(rc, iFrame) ← append_pages (zip pList (replicate (length pList) true)) (Z.of_nat (length fs));
      on_ok rc (finish_frames sz iFrame nTruncate isCommit;; mret SQLITE_OK)) st).
Proof.
  intros new Happ Hconn Hre Hsz Hls Hsb Hn Hv Hfile Hrest Hoth Hp Hlen Hstale.
  destruct (append_pages_spec pList) with (st := st) (log := f_pgno <$> fs) as (rc & iF & st1 & E1 & (Hl1 & Hf1 & Hd1 & Hoth1 & Hs1 & Hh1) & Ho1 & Hok1);
    [|done|by rewrite length_fmap|].
  { eapply Forall_impl; [exact Hp|]. by intros p [? _]. }
  rewrite length_fmap in E1. rewrite (bind_some _ _ _ _ _ E1). unfold on_ok. destruct (Z.eqb_spec rc SQLITE_OK) as [->|Hrc].
  2: { exists rc, st1. split_and!; try done. intros _. split; [done|]. intros _. rewrite Hf1, Hfile, log_bytes_app, <-app_assoc.
       eexists. split; [done|]. right. by exists rest. }
  destruct (Hok1 eq_refl) as (-> & Hc1 & Hlog1 & _ & Hw1). rewrite length_fmap.
  destruct (finish_frames_run st1 sz (Z.of_nat (length fs) + Z.of_nat (length pList)) nTruncate isCommit) as
    (st2 & E2 & Hl2 & Hd2 & Hf2 & Hr2 & Hoth2 & Hpg2 & Hmx2 & Hconn2 & Hw2 & Hre2 & Hx2 & Hap2 & Hk2 & Hend); [by rewrite Hoth1|].
  rewrite (bind_some _ _ _ _ _ E2). exists SQLITE_OK, st2. split; [done|]. split; [by rewrite Hl2|]. split; [by rewrite Hd2|].
  split; [intros E; split; [done|]; rewrite Hr2; by apply Ho1|]. split; [done|]. intros _. exists rest. split; [|split; [exact Hstale|]].
  - pose proof (same_rest_fields _ _ (same_rest_conn _ _ Hs1)) as (_ & _ & _ & Hz & _). pose proof Hs1 as (Hhdr & _ & _ & _ & _ & _ & Hre1 & _).
    split; try done.
    + split; intros k Hk; [intros E|intros E E']; rewrite ?Hpg2 in *; unfold is_mapped in *; rewrite ?Hap2, ?Hx2 in *; apply Hc1; done.
    + intros k Hk. rewrite Hpg2. rewrite fmap_app. unfold new. rewrite page_frames_pgno. apply Hlog1. done.
    + by rewrite Hw2.
    + apply Hconn2. destruct Hconn as (? & ? & ? & ?). unfold log_conn. by rewrite Hhdr, Hz.
    + rewrite Hmx2. unfold new. rewrite length_app, page_frames_length. lia.
    + by rewrite Hre2, Hre1.
    + by rewrite Hf2, Hf1.
  - split; [|destruct isCommit; [done|]; by rewrite Hend, Hh1]. destruct Hk2 as [Hk2 Hk2']. pose proof Hs1 as (_ & _ & Hlk & _ & _ & _ & _ & Hall & _).
    split; [by rewrite Hk2|]. rewrite Hk2'. exact (f_equal padToSectorBoundary Hall).
Qed.

Lemma write_frames_spec st be sz nCkpt salt fs rest pList nTruncate (isCommit : bool) sync_flags sectorSize :
  writing st be sz nCkpt salt fs rest → Forall (valid_page sz) pList → uint 32 nTruncate →
  Z.of_nat (length fs) + Z.of_nat (length pList) + 1 < 2 ^ 31 →
  padToSectorBoundary (wal st) = false ∨ Z.land sync_flags WAL_SYNC_TRANSACTIONS = 0 →
  frames_result be sz nCkpt salt fs (page_frames pList nTruncate isCommit) rest nTruncate isCommit st
    (write_frames has_bswap xCodec sz pList nTruncate isCommit sync_flags 0 sectorSize st).
Proof.
  intros [Hc Hlog Hw Hconn Hmx Hre Hsz [Hls Hsb] Hn Hv Hfile Hrest Hoth] Hp Hnt Hlen Hpad. unfold write_frames. run. rewrite Hmx.
  assert (0 < sz) as Hsz0 by (destruct Hsz; lia). pose proof (length_log be sz nCkpt salt fs Hls Hv) as Hll.
  destruct (chain_uint be sz nCkpt salt fs) as [Hu1 Hu2]. set (s := foldl (frame_cksum be) (header_cksum be sz nCkpt salt) fs) in *.
  set (new := page_frames pList nTruncate isCommit).
  destruct (write_pages_spec be salt sz nTruncate isCommit pList Hls Hsz0 Hnt Hp st s (Z.of_nat (length fs)) (log_bytes be sz nCkpt salt fs) rest)
    as (rc & iF & app & st1 & E1 & (Hm1 & Hl1 & Hd1 & Hoth1 & c & Hw1) & Ho1 & Hok1 & Herr1); try done.
  fold new in Hok1, Herr1. rewrite (bind_some _ _ _ _ _ E1). unfold on_ok at 1. destruct (Z.eqb_spec rc SQLITE_OK) as [->|Hrc].
  2: { exists rc, st1. split_and!; try done. intros _. split; [by rewrite Hm1|]. intros _. destruct (Herr1 Hrc) as (R & -> & HR). exists R. split; [done|]. by left. }
  destruct (Hok1 eq_refl) as (-> & -> & Hconn1 & Hfile1). run. rewrite Hw1. change (iReCksum (set_hdr _ _)) with (iReCksum (wal st)). rewrite Hre.
  change (negb (0 =? 0)) with false. rewrite andb_false_r. run. unfold on_ok at 1. change (SQLITE_OK =? SQLITE_OK) with true. cbn iota.
  set (pLast := last _).
  assert (∃ rc2 o2, (if isCommit && negb (Z.land sync_flags WAL_SYNC_TRANSACTIONS =? 0)
      then sync_commit has_bswap xCodec pLast sz (Z.of_nat (length fs) + Z.of_nat (length pList)) nTruncate sectorSize else mret (false, SQLITE_OK, 0)) st1
    = Some (false, rc2, 0, set_rcs st1 o2) ∧ (rcs st1 = [] → rc2 = SQLITE_OK ∧ o2 = [])) as (rc2 & o2 & E2 & Ho2).
  { destruct isCommit; cbn [andb]; [|exists SQLITE_OK, (rcs st1); split; [by destruct st1|done]].
    destruct (Z.eqb_spec (Z.land sync_flags WAL_SYNC_TRANSACTIONS) 0) as [E|Hne]; cbn [negb]; [exists SQLITE_OK, (rcs st1); split; [by destruct st1|done]|].
    apply sync_commit_spec. destruct Hpad as [Hpad|?]; [|done]. by rewrite Hw1. }
  rewrite (bind_some _ _ _ _ _ E2).
  set (st2 := set_rcs st1 o2).
  assert (Forall (valid_frame sz) (fs ++ new)) as Hv' by (apply Forall_app_2; [done|by apply page_frames_valid]).
  pose proof (length_log be sz nCkpt salt (fs ++ new) Hls Hv') as Hll'.
  assert (Z.of_nat (length (fs ++ new)) = Z.of_nat (length fs) + Z.of_nat (length pList)) as Hlen'.
  { unfold new. rewrite length_app, page_frames_length. lia. }
  destruct (truncate_log_spec st2 sz (Z.of_nat (length fs) + Z.of_nat (length pList) + 0) isCommit (log_bytes be sz nCkpt salt (fs ++ new))
    (drop (Z.to_nat (Z.of_nat (length pList) * (sz + 24))) rest)) as (st3 & rest3 & E3 & Hf3 & [n3 Hrest3] & Hm3 & Hl3 & Hd3 & Hoth3 & Ho3 & Hw3).
  { change (pWalFd st2) with (pWalFd st1). rewrite Hfile1, log_bytes_app. by rewrite <-app_assoc. }
  { rewrite Hll', Hlen'. f_equal. lia. }
  assert (stale salt sz rest → stale salt sz rest3) as Hstale.
  { intros Hs. rewrite Hrest3. apply stale_take. replace (Z.to_nat (Z.of_nat (length pList) * (sz + 24))) with (length pList * Z.to_nat (sz + 24))%nat by lia. by apply stale_drop. }
  rewrite (bind_some _ _ _ _ _ E3). unfold on_ok at 1. destruct (Z.eqb_spec rc2 SQLITE_OK) as [->|Hrc].
  2: { exists rc2, st3. split_and!; try done; [by rewrite Hl3|by rewrite Hd3|intros E; split; [apply Ho2; by apply Ho1|apply Ho3, Ho2; by apply Ho1]|].
    intros _. split; [rewrite Hm3; change (shm st2) with (shm st1); by rewrite Hm1|]. intros _. rewrite Hf3, log_bytes_app, <-app_assoc.
    eexists. split; [done|]. right. by exists rest3. }
  change (Z.to_nat 0) with 0%nat. cbn [replicate].
  assert (match pLast with Some _ => [] | None => [] end = @nil (PgHdr * bool)) as -> by (by destruct pLast). rewrite app_nil_r.
  destruct (finish_write st3 be sz nCkpt salt fs rest rest3 pList nTruncate isCommit) as (rc & st4 & E4 & Hl4 & Hd4 & Ho4 & Herr & Hok4); try done.
  - unfold appending. rewrite Hm3. change (shm st2) with (shm st1). rewrite Hm1. split_and!; [|done| |].
    + destruct Hw3 as [-> | ->]; change (wal st2) with (wal st1); rewrite Hw1; exact Hc.
    + right. rewrite length_fmap, <-Hmx. destruct Hw3 as [-> | ->]; change (wal st2) with (wal st1); by rewrite Hw1.
    + destruct Hw3 as [-> | ->]; change (wal st2) with (wal st1); by rewrite Hw1.
  - rewrite foldl_app. fold s. destruct Hw3 as [-> | ->]; exact Hconn1.
  - destruct Hw3 as [-> | ->]; change (wal st2) with (wal st1); by rewrite Hw1.
  - rewrite Hrest3. by apply Forall_take, Forall_drop.
  - rewrite Hoth3. change (others st2) with (others st1). by rewrite Hoth1.
  - exists rc, st4. split; [exact E4|]. split; [by rewrite Hl4, Hl3|]. split; [by rewrite Hd4, Hd3|].
    split; [intros E; apply Ho4, Ho3, Ho2; by apply Ho1|]. split.
    + intros Hrc. destruct (Herr Hrc) as [-> Hlo]. split; [|exact Hlo]. rewrite Hm3. change (shm st2) with (shm st1). by rewrite Hm1.
    + intros Hrc. destruct (Hok4 Hrc) as (rest' & Hwr & Hst4 & Hk4 & Hend). exists rest'. split; [exact Hwr|]. split; [exact Hst4|].
      split; [destruct Hk4; destruct Hw3 as [E | E]; rewrite E in *; change (wal st2) with (wal st1) in *; by rewrite Hw1 in *|]. destruct isCommit; [done|].
      rewrite Hend, Hm3. change (shm st2) with (shm st1). by rewrite Hm1.
Qed.

(** ** The header of the file *)

Definition machine_be : bool := negb little_endian.

Lemma bigendian_machine : SQLITE_BIGENDIAN = Z.b2z machine_be.
Proof. unfold SQLITE_BIGENDIAN, machine_be. by destruct little_endian. Qed.

(** The buffer of the header, in which the fields are put one after the other. *)
Lemma header_buffer (b1 b2 b3 b4 b5 b6 salt : list Z) :
  length b1 = 4%nat → length b2 = 4%nat → length b3 = 4%nat → length b4 = 4%nat → length b5 = 4%nat → length b6 = 4%nat → length salt = 8%nat →
  let a := replicate 32 0 in
  let a1 := take 0 a ++ b1 ++ drop (0 + 4) a in
  let a2 := take 4 a1 ++ b2 ++ drop (4 + 4) a1 in
  let a3 := take 8 a2 ++ b3 ++ drop (8 + 4) a2 in
  let a4 := take 12 a3 ++ b4 ++ drop (12 + 4) a3 in
  let a5 := put_bytes a4 16 salt in
  let a6 := take 24 a5 ++ b5 ++ drop (24 + 4) a5 in
  let a7 := take 28 a6 ++ b6 ++ drop (28 + 4) a6 in
  length a1 = 32%nat ∧ length a2 = 32%nat ∧ length a3 = 32%nat ∧ length a5 = 32%nat ∧ length a6 = 32%nat ∧
  take 24 a5 = b1 ++ b2 ++ b3 ++ b4 ++ salt ∧ a7 = (b1 ++ b2 ++ b3 ++ b4 ++ salt) ++ b5 ++ b6.
Proof.
  intros. repeat match goal with H : length ?l = 4%nat |- _ => do 4 (destruct l as [|? l]; [done|]); destruct l; [clear H|done] end.
  do 8 (destruct salt as [|? salt]; [done|]). destruct salt; [|done]. by cbn.
Qed.

Lemma wal_header_spec sz nCkpt salt :
  length salt = 8%nat → bytes_ok salt → page_size sz → uint 32 nCkpt →
  wal_header has_bswap sz nCkpt salt = Some (file_header machine_be sz nCkpt salt, header_cksum machine_be sz nCkpt salt).
Proof.
  intros Hls Hsb Hsz Hn. unfold wal_header. rewrite bigendian_machine. destruct (magic_spec machine_be) as (Hm & _).
  destruct (header_cksum_uint machine_be sz nCkpt salt) as [Hu1 Hu2]. set (c := header_cksum machine_be sz nCkpt salt) in *.
  destruct (header_buffer (be_bytes 4 (Z.lor WAL_MAGIC (Z.b2z machine_be))) (be_bytes 4 WAL_MAX_VERSION) (be_bytes 4 sz) (be_bytes 4 nCkpt)
    (be_bytes 4 (fst c)) (be_bytes 4 (snd c)) salt) as (L1 & L2 & L3 & L5 & L6 & E24 & E32); try done; [apply length_be_bytes..|].
  assert (uint 32 sz) as Hszu by (destruct Hsz; unfold uint; lia).
  rewrite put4_spec by (done || (rewrite length_replicate; lia)). cbn [mbind option_bind].
  rewrite put4_spec by (first [rewrite L1; lia|unfold uint, WAL_MAX_VERSION; lia]). cbn [mbind option_bind].
  rewrite put4_spec by (first [rewrite L2; lia|done]). cbn [mbind option_bind].
  rewrite put4_spec by (first [rewrite L3; lia|done]). cbn [mbind option_bind]. rewrite E24.
  assert (walChecksumBytes true (be_bytes 4 (Z.lor WAL_MAGIC (Z.b2z machine_be)) ++ be_bytes 4 WAL_MAX_VERSION ++ be_bytes 4 sz ++ be_bytes 4 nCkpt ++ salt) None = c) as ->.
  { unfold c, header_cksum. rewrite <-checksum_loop_spec by (unfold file_header0; repeat (apply Forall_app_2; [apply be_bytes_ok|]); done).
    rewrite bigendian_machine, Z.eqb_refl. done. }
  rewrite put4_spec by (first [rewrite L5; lia|done]). cbn [mbind option_bind].
  rewrite put4_spec by (first [rewrite L6; lia|done]). cbn [mbind option_bind]. by rewrite E32.
Qed.

Lemma write_wal_header_spec st sz salt sync_flags :
  let salt' := if WalIndex.nCkpt (wal st) =? 0 then salt else aSalt (hdr (wal st)) in
  let nCkpt := WalIndex.nCkpt (wal st) in
  length salt' = 8%nat → bytes_ok salt' → page_size sz → uint 32 nCkpt →
  ∃ rc st', write_wal_header has_bswap sz salt sync_flags st = Some (rc, st') ∧
    shm st' = shm st ∧ locks st' = locks st ∧ pDbFd st' = pDbFd st ∧ others st' = others st ∧
    wal st' = set_truncateOnCommit (set_wal_szPage (set_hdr (wal st)
      (set_aFrameCksum (set_bigEndCksum (set_aSalt (hdr (wal st)) salt') SQLITE_BIGENDIAN) (header_cksum machine_be sz nCkpt salt'))) sz) true ∧
    (rcs st = [] → rc = SQLITE_OK ∧ rcs st' = []) ∧
    (rc = SQLITE_OK → pWalFd st' = log_bytes machine_be sz nCkpt salt' [] ++ drop 32 (pWalFd st)).
Proof.
  intros salt' nCkpt Hls Hsb Hsz Hn. unfold write_wal_header. run. fold salt' nCkpt. rewrite wal_header_spec by done. run.
  set (st1 := set_wal st _).
  destruct (next_rc (rcs st1)) as [rc o] eqn:Eo. pose proof (write_run (file_header machine_be sz nCkpt salt') 0 st1) as Hw. rewrite Eo in Hw.
  change (pWalFd st1) with ([] ++ pWalFd st) in Hw. rewrite file_write_inside, length_file_header in Hw by done.
  destruct (Z.eqb_spec rc SQLITE_OK) as [->|Hrc]; rewrite (bind_some _ _ _ _ _ Hw); unfold on_ok.
  2: { destruct (Z.eqb_spec rc SQLITE_OK); [done|]. exists rc, (set_rcs st1 o). split_and!; try done. by apply next_rc_nil. }
  change (SQLITE_OK =? SQLITE_OK) with true. cbn iota. set (st2 := set_pWalFd _ _).
  assert (pWalFd st2 = log_bytes machine_be sz nCkpt salt' [] ++ drop 32 (pWalFd st)) as Hf2 by (cbn; unfold log_bytes; by rewrite app_nil_r).
  assert (rcs st = [] → rcs st2 = []) as Hr2 by (intros E; by apply (next_rc_nil _ _ _ Eo) in E as [_ ->]).
  destruct (syncHeader (wal st) && _); [|exists SQLITE_OK, st2; by split_and!; auto].
  unfold sqlite3OsSync, outcome. destruct (next_rc (rcs st2)) as [rc o2] eqn:Eo2. exists rc, (set_rcs st2 o2). split_and!; try done.
  intros E. apply (next_rc_nil _ _ _ Eo2). by apply Hr2.
Qed.

(** A transaction that has written nothing yet calls [sqlite3WalFrames] for a log
    that has frames. *)
Lemma sqlite3WalFrames_next st be sz nCkpt salt fs rest pList nTruncate (isCommit : bool) sync_flags sectorSize salt0 salt1 :
  writing st be sz nCkpt salt fs rest → fs ≠ [] → shm_hdr0 (shm st) = hdr (wal st) → readLock (wal st) ≠ 0 →
  Forall (valid_page sz) pList → uint 32 nTruncate → Z.of_nat (length fs) + Z.of_nat (length pList) + 1 < 2 ^ 31 →
  padToSectorBoundary (wal st) = false ∨ Z.land sync_flags WAL_SYNC_TRANSACTIONS = 0 →
  frames_result be sz nCkpt salt fs (page_frames pList nTruncate isCommit) rest nTruncate isCommit st
    (sqlite3WalFrames has_bswap xCodec sz pList nTruncate isCommit sync_flags sectorSize salt0 salt1 st).
Proof.
  intros Hwr Hne Hhdr Hlock Hp Hn Hlen Hpad. unfold sqlite3WalFrames, hdr_unchanged. run. rewrite bool_decide_eq_true_2 by done. cbn [negb].
  unfold walRestartLog. run. destruct (Z.eqb_spec (readLock (wal st)) 0); [done|]. run. unfold on_ok at 1. change (SQLITE_OK =? SQLITE_OK) with true.
  cbn iota. run. rewrite (wr_frames _ _ _ _ _ _ _ Hwr). destruct (Z.eqb_spec (Z.of_nat (length fs)) 0); [destruct fs; [done|cbn in *; lia]|].
  run. unfold on_ok. change (SQLITE_OK =? SQLITE_OK) with true. cbn iota. by apply (write_frames_spec st be sz nCkpt salt fs rest).
Qed.

(** The first frames of a log: its header is written too. *)
Lemma sqlite3WalFrames_first st sz salt0 pList nTruncate (isCommit : bool) sync_flags sectorSize salt1 :
  let nCkpt := WalIndex.nCkpt (wal st) in
  let salt := if nCkpt =? 0 then salt0 else aSalt (hdr (wal st)) in
  conn_ok (wal st) (shm st) → log_ok (shm st) [] → writeLock (wal st) = true → mxFrame (hdr (wal st)) = 0 → iReCksum (wal st) = 0 →
  page_size sz → length salt = 8%nat → bytes_ok salt → uint 32 nCkpt → others st = [] → bytes_ok (pWalFd st) →
  shm_hdr0 (shm st) = hdr (wal st) → readLock (wal st) ≠ 0 →
  Forall (valid_page sz) pList → uint 32 nTruncate → Z.of_nat (length pList) + 1 < 2 ^ 31 →
  padToSectorBoundary (wal st) = false ∨ Z.land sync_flags WAL_SYNC_TRANSACTIONS = 0 →
  frames_result machine_be sz nCkpt salt [] (page_frames pList nTruncate isCommit) (drop 32 (pWalFd st)) nTruncate isCommit st
    (sqlite3WalFrames has_bswap xCodec sz pList nTruncate isCommit sync_flags sectorSize salt0 salt1 st).
Proof.
  intros nCkpt salt Hc Hlog Hw Hmx Hre Hsz Hls Hsb Hn Hoth Hbytes Hhdr Hlock Hp Hnt Hlen Hpad. unfold sqlite3WalFrames, hdr_unchanged. run.
  rewrite bool_decide_eq_true_2 by done. cbn [negb].
  unfold walRestartLog. run. destruct (Z.eqb_spec (readLock (wal st)) 0); [done|]. run. unfold on_ok at 1. change (SQLITE_OK =? SQLITE_OK) with true.
  cbn iota. run. rewrite Hmx. change (0 =? 0) with true. cbn iota.
  destruct (write_wal_header_spec st sz salt0 sync_flags Hls Hsb Hsz Hn) as (rc & st1 & E1 & Hm1 & Hl1 & Hd1 & Hoth1 & Hw1 & Ho1 & Hok1).
  rewrite (bind_some _ _ _ _ _ E1). unfold on_ok. destruct (Z.eqb_spec rc SQLITE_OK) as [->|Hrc].
  2: { exists rc, st1. split_and!; try done. intros _. split; [by rewrite Hm1|done]. }
  destruct (write_frames_spec st1 machine_be sz nCkpt salt [] (drop 32 (pWalFd st)) pList nTruncate isCommit sync_flags sectorSize)
    as (rc & st2 & E2 & Hl2 & Hd2 & Ho2 & Herr & Hok2); try done.
  - split; rewrite ?Hm1, ?Hw1; try done; [|by apply Hok1|by apply Forall_drop|by rewrite Hoth1]. split_and!; try done. apply bigendian_machine.
  - by rewrite Hw1.
  - exists rc, st2. split; [exact E2|]. split; [by rewrite Hl2|]. split; [by rewrite Hd2|]. split; [intros E; apply Ho2; by apply Ho1|].
    split; [intros Hrc; destruct (Herr Hrc) as [-> _]; split; [by rewrite Hm1|done]|].
    intros Hrc. destruct (Hok2 Hrc) as (rest' & Hwr & Hst & Hk & Hend). exists rest'. split; [exact Hwr|]. split; [exact Hst|]. split; [by rewrite Hw1 in Hk|].
    destruct isCommit; [done|]. by rewrite Hend, Hm1.
Qed.
End commit.


Section begin.
Context `{Machine} (has_bswap : bool).
Implicit Types (st : St) (m : Shm) (i n : Z) (l : lock).

(** All read marks are there, whatever other connections do. *)
Definition marks_ok m : Prop := Z.of_nat (length (aReadMark (ckpt m))) = WAL_NREADER.

Record env_ok st : Prop := {
  env_marks : marks_ok (shm st);
  env_others : Forall (λ f, ∀ m, marks_ok m → marks_ok (f m)) (others st);
  env_locks : Z.of_nat (length (locks st)) = SQLITE_SHM_NLOCK
}.

(** A connection has the locks [ls] in its hands, or none in exclusive mode. *)
Definition held st (ls : list lock) : list lock := if exclusiveMode (wal st) =? 0 then ls else locks st.

(** What a step leaves alone. *)
Definition stays st st' : Prop := pWalFd st' = pWalFd st ∧ pDbFd st' = pDbFd st ∧ exclusiveMode (wal st') = exclusiveMode (wal st) ∧
  hdr (wal st') = hdr (wal st) ∧ readOnly (wal st') = readOnly (wal st).

Lemma stays_trans st1 st2 st3 : stays st1 st2 → stays st2 st3 → stays st1 st3.
Proof. unfold stays. intuition congruence. Qed.

Lemma interfere_run st : env_ok st → ∃ st', interfere st = Some ((), st') ∧ env_ok st' ∧ wal st' = wal st ∧ locks st' = locks st ∧ stays st st'.
Proof.
  intros He. pose proof He as [Hm Ho Hl]. unfold interfere. destruct (others st) as [|f fs] eqn:E; [exists st; by split_and!|].
  apply Forall_cons in Ho as [Hf Ho]. eexists. split; [done|]. split; [|by split_and!]. split; cbn; auto.
Qed.

Lemma locks_with_one i l (ls : list lock) : 0 ≤ i < Z.of_nat (length ls) → locks_with i 1 l ls = <[Z.to_nat i := l]> ls.
Proof.
  intros Hi. unfold locks_with. change (Z.to_nat 1) with 1%nat. cbn [replicate app]. rewrite insert_take_drop by lia. do 3 f_equal. lia.
Qed.

(** One lock: it is taken, or nothing changes. *)
Lemma walLock_one st i l :
  env_ok st → 0 ≤ i < SQLITE_SHM_NLOCK →
  ∃ rc st', walLock i 1 l st = Some (rc, st') ∧ env_ok st' ∧ wal st' = wal st ∧ stays st st' ∧
    locks st' = if rc =? SQLITE_OK then held st (<[Z.to_nat i := l]> (locks st)) else locks st.
Proof.
  intros He Hi. pose proof (env_locks _ He) as Hlen. unfold walLock, held. run. destruct (Z.eqb_spec (exclusiveMode (wal st)) 0); cbn [negb].
  2: { exists SQLITE_OK, st. by split_and!. }
  rewrite bind_outcome. destruct (next_rc (rcs st)) as [rc o].
  destruct (interfere_run (set_rcs st o)) as (st1 & E1 & He1 & Hw1 & Hl1 & Hs1); [by destruct He|].
  rewrite (bind_some _ _ _ _ _ E1). unfold on_ok. destruct (Z.eqb_spec rc SQLITE_OK) as [->|Hrc].
  - run. destruct (blocked i 1 l st1); [by exists SQLITE_BUSY, st1|]. eexists SQLITE_OK, _. split; [done|]. cbn [locks set_locks]. split; [|split; [done|split; [done|]]].
    + destruct He1 as [? ? Hl]. split; try done. cbn [locks set_locks]. rewrite locks_with_one by (change SQLITE_SHM_NLOCK with 8 in *; lia).
      by rewrite length_insert.
    + rewrite Hl1. change (locks (set_rcs st o)) with (locks st). rewrite locks_with_one by (change SQLITE_SHM_NLOCK with 8 in *; lia). done.
  - exists rc, st1. by destruct (Z.eqb_spec rc SQLITE_OK).
Qed.

Lemma walUnlock_one st i :
  env_ok st → 0 ≤ i < SQLITE_SHM_NLOCK →
  ∃ st', walUnlock i 1 st = Some ((), st') ∧ env_ok st' ∧ wal st' = wal st ∧ shm st' = shm st ∧ stays st st' ∧
    locks st' = held st (<[Z.to_nat i := Unlocked]> (locks st)).
Proof.
  intros He Hi. pose proof (env_locks _ He) as Hlen. rewrite walUnlock_run. eexists. split; [done|]. unfold held.
  destruct (Z.eqb_spec (exclusiveMode (wal st)) 0); cbn [negb]; [|by split_and!]. split; [|split_and!; try done].
  - destruct He as [? ? Hl]. split; try done. cbn [locks set_locks]. rewrite locks_with_one by (change SQLITE_SHM_NLOCK with 8 in *; lia).
    by rewrite length_insert.
  - cbn [locks set_locks]. by rewrite locks_with_one by (change SQLITE_SHM_NLOCK with 8 in *; lia).
Qed.

(** ** The marks *)

Lemma get_mark m i : marks_ok m → 0 ≤ i < WAL_NREADER → ∃ v, get (aReadMark (ckpt m)) i = Some v.
Proof. intros Hm Hi. unfold get. destruct (Z.ltb_spec i 0); [lia|]. apply lookup_lt_is_Some_2. unfold marks_ok in Hm. lia. Qed.

Lemma max_mark_spec (n : nat) st mxFrame : marks_ok (shm st) → ∀ i mark mxI, 1 ≤ i → i + Z.of_nat n ≤ WAL_NREADER →
  ∃ mark' mxI', max_mark n i mxFrame mark mxI st = Some (mark', mxI', st) ∧
    (mark' = mark ∧ mxI' = mxI ∨ i ≤ mxI' < WAL_NREADER ∧ mark' ≤ mxFrame).
Proof.
  intros Hm. induction n as [|n IH]; intros i mark mxI Hi Hn; cbn [max_mark]; [exists mark, mxI; by split; [|left]|].
  destruct (get_mark (shm st) i Hm) as [v Hv]; [lia|]. unfold read_mark. run. rewrite Hv. run.
  destruct ((mark <=? v) && (v <=? mxFrame)) eqn:E.
  - apply andb_true_iff in E as [_ E%Z.leb_le]. destruct (IH (i + 1) v i) as (mark' & mxI' & -> & [[-> ->]|?]); [lia|lia|..]; eexists _, _; (split; [done|]); right; lia.
  - destruct (IH (i + 1) mark mxI) as (mark' & mxI' & -> & [?|?]); [lia|lia|..]; eexists _, _; (split; [done|]); [by left|right; lia].
Qed.

Lemma set_read_mark_run st i v :
  env_ok st → ∃ st', set_read_mark i v st = Some ((), st') ∧ env_ok st' ∧ wal st' = wal st ∧ locks st' = locks st ∧ stays st st'.
Proof.
  intros [Hm Ho Hl]. eexists. split; [done|]. split; [|by split_and!]. split; try done. unfold marks_ok in *. cbn. by rewrite length_insert.
Qed.

(** The locks of readers are free. *)
Definition readers_free st : Prop := ∀ i, 0 ≤ i < WAL_NREADER → locks st !! Z.to_nat (WAL_READ_LOCK i) = Some Unlocked.

Lemma relock st i l : readers_free st → 0 ≤ i < WAL_NREADER →
  <[Z.to_nat (WAL_READ_LOCK i) := Unlocked]> (<[Z.to_nat (WAL_READ_LOCK i) := l]> (locks st)) = locks st.
Proof. intros Hf Hi. rewrite list_insert_insert_eq. apply list_insert_id. by apply Hf. Qed.

(** Taking a lock and giving it back. *)
Lemma lock_unlock st st1 st2 i l :
  readers_free st → 0 ≤ i < WAL_NREADER → exclusiveMode (wal st1) = exclusiveMode (wal st) →
  locks st1 = held st (<[Z.to_nat (WAL_READ_LOCK i) := l]> (locks st)) →
  locks st2 = held st1 (<[Z.to_nat (WAL_READ_LOCK i) := Unlocked]> (locks st1)) → locks st2 = locks st.
Proof.
  intros Hf Hi Hx H1 H2. unfold held in *. rewrite Hx in H2. destruct (exclusiveMode (wal st) =? 0); [|congruence]. rewrite H2, H1. by apply relock.
Qed.

Lemma readers_free_eq st st' : readers_free st → locks st' = locks st → readers_free st'.
Proof. intros Hf E i Hi. rewrite E. by apply Hf. Qed.

Lemma claim_mark_spec (n : nat) mxFrame mark mxI : ∀ st i rc,
  env_ok st → readers_free st → 1 ≤ i → i + Z.of_nat n ≤ WAL_NREADER →
  ∃ r rc' mark' mxI' st', claim_mark n i mxFrame mark mxI rc st = Some (r, rc', mark', mxI', st') ∧
    env_ok st' ∧ wal st' = wal st ∧ locks st' = locks st ∧ stays st st' ∧
    match r with Some rc => rc ≠ SQLITE_OK ∧ rc ≠ SQLITE_BUSY
    | None => mark' = mark ∧ mxI' = mxI ∨ 1 ≤ mxI' < WAL_NREADER ∧ mark' = mxFrame end.
Proof.
  induction n as [|n IH]; intros st i rc He Hf Hi Hn; cbn [claim_mark]; [eexists None, rc, mark, mxI, st; split_and!; try done; by left|].
  destruct (walLock_one st (WAL_READ_LOCK i) Exclusive He) as (rc1 & st1 & E1 & He1 & Hw1 & Hs1 & Hl1).
  { unfold WAL_READ_LOCK, SQLITE_SHM_NLOCK, WAL_NREADER in *. lia. }
  unfold walLockExclusive. rewrite (bind_some _ _ _ _ _ E1). destruct (Z.eqb_spec rc1 SQLITE_OK) as [->|Hrc].
  - destruct (set_read_mark_run st1 i mxFrame He1) as (st2 & E2 & He2 & Hw2 & Hl2 & Hs2). rewrite (bind_some _ _ _ _ _ E2).
    destruct (walUnlock_one st2 (WAL_READ_LOCK i) He2) as (st3 & E3 & He3 & Hw3 & _ & Hs3 & Hl3).
    { unfold WAL_READ_LOCK, SQLITE_SHM_NLOCK, WAL_NREADER in *. lia. }
    unfold walUnlockExclusive. rewrite (bind_some _ _ _ _ _ E3). eexists None, SQLITE_OK, mxFrame, i, st3. split; [done|]. split; [done|].
    split; [by rewrite Hw3, Hw2, Hw1|]. split; [|split; [eauto using stays_trans|right; lia]].
    eapply (lock_unlock st st2); [done| |by rewrite Hw2, Hw1|by rewrite Hl2|exact Hl3]. lia.
  - destruct (Z.eqb_spec rc1 SQLITE_BUSY) as [->|Hb]; cbn [negb].
    + destruct (IH st1 (i + 1) SQLITE_BUSY) as (r & rc' & mark' & mxI' & st' & E & He' & Hw' & Hl' & Hs' & Hr); [done|by eapply readers_free_eq|lia|lia|].
      eexists r, rc', mark', mxI', st'. split; [exact E|]. split; [done|]. split; [by rewrite Hw', Hw1|]. split; [by rewrite Hl', Hl1|].
      split; [by eapply stays_trans|exact Hr].
    + eexists (Some rc1), rc1, mark, mxI, st1. by split_and!.
Qed.

(** ** The lock of the snapshot *)

(** The result of an attempt: one lock and the header that all share now, or
    nothing. *)
Definition begin_result st (r : option (Z * St)) : Prop :=
  ∃ rc st', r = Some (rc, st') ∧ env_ok st' ∧ stays st st' ∧
    (rc ≠ SQLITE_OK → locks st' = locks st ∧ readLock (wal st') = readLock (wal st)) ∧
    (rc = SQLITE_OK → ∃ i, 0 ≤ i < WAL_NREADER ∧ readLock (wal st') = i ∧
      locks st' = held st (<[Z.to_nat (WAL_READ_LOCK i) := Shared]> (locks st)) ∧ shm_hdr0 (shm st') = hdr (wal st') ∧
      (0 < i → ∃ mark, get (aReadMark (ckpt (shm st'))) i = Some mark ∧ mark ≤ mxFrame (hdr (wal st')))).

Lemma barrier_run st : env_ok st →
  ∃ st', walShmBarrier st = Some ((), st') ∧ env_ok st' ∧ wal st' = wal st ∧ locks st' = locks st ∧ stays st st'.
Proof. intros He. unfold walShmBarrier. run. destruct (negb _); [by apply interfere_run|]. exists st. by split_and!. Qed.

Lemma lock_mark_spec st mark i :
  env_ok st → readers_free st → 1 ≤ i < WAL_NREADER → mark ≤ mxFrame (hdr (wal st)) → begin_result st (lock_mark mark i st).
Proof.
  intros He Hf Hi Hmark. assert (0 ≤ WAL_READ_LOCK i < SQLITE_SHM_NLOCK) as Hidx by (unfold WAL_READ_LOCK, SQLITE_SHM_NLOCK, WAL_NREADER in *; lia).
  destruct (walLock_one st (WAL_READ_LOCK i) Shared He Hidx) as (rc & st1 & E1 & He1 & Hw1 & Hs1 & Hl1).
  unfold lock_mark, walLockShared. rewrite (bind_some _ _ _ _ _ E1). destruct (Z.eqb_spec rc SQLITE_OK) as [->|Hrc]; cbn [negb].
  2: { eexists _, st1. split; [done|]. split; [done|]. split; [done|]. split; [by rewrite Hw1|]. destruct (rc =? SQLITE_BUSY); [done|by intros ->]. }
  run. set (st2 := set_wal st1 _). assert (env_ok st2) as He2 by by destruct He1. assert (stays st1 st2) as Hs2 by by split_and!.
  destruct (barrier_run st2 He2) as (st3 & E3 & He3 & Hw3 & Hl3 & Hs3). rewrite (bind_some _ _ _ _ _ E3).
  destruct (get_mark (shm st3) i (env_marks _ He3)) as [v Hv]; [lia|]. unfold read_mark, hdr_unchanged. run. rewrite Hv. run.
  assert (stays st st3) as Hs13 by eauto using stays_trans.
  assert (locks st3 = held st (<[Z.to_nat (WAL_READ_LOCK i) := Shared]> (locks st))) as Hl13 by (rewrite Hl3; exact Hl1).
  destruct (negb (v =? mark) || _) eqn:Econd.
  - destruct (walUnlock_one st3 (WAL_READ_LOCK i) He3 Hidx) as (st4 & E4 & He4 & Hw4 & _ & Hs4 & Hl4). unfold walUnlockShared.
    rewrite (bind_some _ _ _ _ _ E4). eexists WAL_RETRY, st4. split; [done|]. split; [done|]. split; [by eapply stays_trans|].
    split; [|done]. intros _. split; [|by rewrite Hw4, Hw3; cbn; rewrite Hw1]. eapply (lock_unlock st st3); [done| |apply Hs13|exact Hl13|exact Hl4]. lia.
  - apply orb_false_iff in Econd as [E5%negb_false_iff%Z.eqb_eq E6%negb_false_iff%bool_decide_eq_true]. subst v.
    eexists SQLITE_OK, _. split; [done|]. split; [by destruct He3|]. split; [exact Hs13|]. split; [done|]. intros _. exists i.
    split; [lia|]. split; [done|]. split; [exact Hl13|]. split; [exact E6|]. intros _. exists mark. split; [exact Hv|].
    cbn. destruct Hs13 as (_ & _ & _ & -> & _). done.
Qed.

Lemma begin_result_step st st1 r :
  stays st st1 → locks st1 = locks st → wal st1 = wal st → begin_result st1 r → begin_result st r.
Proof.
  intros Hs Hl Hw (rc & st' & -> & He & Hs' & Herr & Hok). exists rc, st'. split; [done|]. split; [done|]. split; [by eapply stays_trans|].
  unfold held in *. rewrite Hl, Hw in *. by split.
Qed.

Lemma use_wal_spec st rc : env_ok st → readers_free st → begin_result st (use_wal rc st).
Proof.
  intros He Hf. unfold use_wal. run.
  destruct (max_mark_spec (Z.to_nat (WAL_NREADER - 1)) st (mxFrame (hdr (wal st))) (env_marks _ He) 1 0 0) as (mark & mxI & E1 & Hmax); [lia|done|].
  rewrite (bind_some _ _ _ _ _ E1).
  assert (∃ r rc' mark' mxI' st', (if (Z.land (readOnly (wal st)) WAL_SHM_RDONLY =? 0) && ((mark <? mxFrame (hdr (wal st))) || (mxI =? 0))
      then claim_mark (Z.to_nat (WAL_NREADER - 1)) 1 (mxFrame (hdr (wal st))) mark mxI rc else mret (None, rc, mark, mxI)) st
    = Some (r, rc', mark', mxI', st') ∧ env_ok st' ∧ wal st' = wal st ∧ locks st' = locks st ∧ stays st st' ∧
    match r with Some rc => rc ≠ SQLITE_OK | None => mxI' = 0 ∨ 1 ≤ mxI' < WAL_NREADER ∧ mark' ≤ mxFrame (hdr (wal st)) end)
    as (r & rc' & mark' & mxI' & st' & E2 & He' & Hw' & Hl' & Hs' & Hr).
  { destruct (_ && _).
    - destruct (claim_mark_spec (Z.to_nat (WAL_NREADER - 1)) (mxFrame (hdr (wal st))) mark mxI st 1 rc) as (r & rc' & mark' & mxI' & st' & -> & H1 & H2 & H3 & H4 & Hr); try done.
      exists r, rc', mark', mxI', st'. split_and!; try done. destruct r; [apply Hr|]. destruct Hr as [[-> ->]|[? ->]]; [|right; lia]. destruct Hmax as [[? ?]|[? ?]]; [by left|right; lia].
    - eexists None, rc, mark, mxI, st. split_and!; try done. destruct Hmax as [[? ?]|[? ?]]; [by left|right; lia]. }
  rewrite (bind_some _ _ _ _ _ E2). destruct r as [rc1|].
  { exists rc1, st'. split; [done|]. split; [done|]. split; [done|]. split; [by rewrite Hw'|done]. }
  destruct (Z.eqb_spec mxI' 0) as [->|Hne].
  - eexists _, st'. split; [done|]. split; [done|]. split; [done|]. split; [by rewrite Hw'|]. by destruct (rc' =? SQLITE_BUSY).
  - destruct Hr as [?|[Hi Hm]]; [done|]. eapply begin_result_step; [exact Hs'|exact Hl'|exact Hw'|]. apply lock_mark_spec; [done|by eapply readers_free_eq|done|by rewrite Hw'].
Qed.

Lemma begin_read_db_spec st :
  env_ok st → readers_free st →
  ∃ r rc st', begin_read_db st = Some (r, rc, st') ∧
    match r with
    | Some rc => begin_result st (Some (rc, st'))
    | None => env_ok st' ∧ stays st st' ∧ wal st' = wal st ∧ locks st' = locks st
    end.
Proof.
  intros He Hf. assert (0 ≤ WAL_READ_LOCK 0 < SQLITE_SHM_NLOCK) as Hidx by done.
  destruct (walLock_one st (WAL_READ_LOCK 0) Shared He Hidx) as (rc & st1 & E1 & He1 & Hw1 & Hs1 & Hl1).
  unfold begin_read_db, walLockShared. rewrite (bind_some _ _ _ _ _ E1).
  destruct (barrier_run st1 He1) as (st2 & E2 & He2 & Hw2 & Hl2 & Hs2). rewrite (bind_some _ _ _ _ _ E2).
  assert (stays st st2) as Hs12 by eauto using stays_trans.
  destruct (Z.eqb_spec rc SQLITE_OK) as [->|Hrc].
  - unfold hdr_unchanged. run. assert (locks st2 = held st (<[Z.to_nat (WAL_READ_LOCK 0) := Shared]> (locks st))) as Hl12 by (rewrite Hl2; exact Hl1).
    case_bool_decide as Eh; cbn [negb].
    + run. eexists _, _, _. split; [done|]. eexists SQLITE_OK, _. split; [done|]. split; [by destruct He2|]. split; [exact Hs12|]. split; [done|]. intros _. exists 0.
      split; [done|]. split; [done|]. split; [exact Hl12|]. split; [exact Eh|lia].
    + destruct (walUnlock_one st2 (WAL_READ_LOCK 0) He2 Hidx) as (st3 & E3 & He3 & Hw3 & _ & Hs3 & Hl3). unfold walUnlockShared.
      rewrite (bind_some _ _ _ _ _ E3). eexists _, _, st3. split; [done|]. eexists WAL_RETRY, st3. split; [done|]. split; [done|]. split; [by eapply stays_trans|].
      split; [|done]. intros _. split; [|by rewrite Hw3, Hw2, Hw1]. eapply (lock_unlock st st2); [done|done|apply Hs12|exact Hl12|exact Hl3].
  - assert (locks st2 = locks st) as Hl12 by by rewrite Hl2. destruct (Z.eqb_spec rc SQLITE_BUSY) as [->|Hb]; cbn [negb].
    + eexists None, _, st2. split; [done|]. split_and!; try done. by rewrite Hw2.
    + eexists (Some rc), _, st2. split; [done|]. exists rc, st2. split_and!; try done. intros _. split; [done|]. by rewrite Hw2, Hw1.
Qed.

Lemma choose_snapshot_spec st useWal : env_ok st → readers_free st → begin_result st (choose_snapshot useWal st).
Proof.
  intros He Hf. unfold choose_snapshot. run. destruct (_ && _); [|by apply use_wal_spec].
  destruct (begin_read_db_spec st He Hf) as (r & rc & st1 & E1 & Hr). rewrite (bind_some _ _ _ _ _ E1). destruct r as [rc1|]; [exact Hr|].
  destruct Hr as (He1 & Hs1 & Hw1 & Hl1). eapply begin_result_step; [exact Hs1|exact Hl1|exact Hw1|]. apply use_wal_spec; [done|by eapply readers_free_eq].
Qed.
End begin.
