(* ===== verification/WalSort.v ===== *)
(** * Write-ahead log: the iterator of checkpoints

    [walMerge], [walMergesort], [walIteratorInit] and [walIteratorNext] of wal.c
    (in sqlite3.c): all pages of the log in ascending order, each with its newest
    frame.

    A list of slots is the content of the part of the array that a pointer and a
    length stand for. *)
From S2P Require Import Prelude WalIndex WalLog WalFind.
From stdpp Require Import sorting.
Local Open Scope Z_scope.

(** ** Sorting *)

(** The loop of [walMerge]; each round takes at least one of [n] elements. *)
Fixpoint merge_loop (n : nat) (aContent aLeft aRight : list Z) : option (list Z) :=
  match n with
  | O => Some []
  | S n =>
    match aLeft, aRight with
    | [], [] => Some []
    | _, _ =>
      '(logpage, aLeft, aRight) ← (
        match aLeft, aRight with
        | x :: l, [] => Some (x, l, aRight)
        | x :: l, y :: r => cx ← get aContent x; cy ← get aContent y; Some (if cx <? cy then (x, l, aRight) else (y, aLeft, r))
        | [], y :: r => Some (y, aLeft, r)
        | [], [] => None
        end);
      dbpage ← get aContent logpage;
      aLeft ← (match aLeft with x :: l => cx ← get aContent x; Some (if cx =? dbpage then l else aLeft) | [] => Some [] end);
      out ← merge_loop n aContent aLeft aRight;
      Some (logpage :: out)
    end
  end.

Definition walMerge (aContent aLeft aRight : list Z) : option (list Z) :=
  merge_loop (length aLeft + length aRight) aContent aLeft aRight.

(** [for(iSub=0; iList & (1<<iSub); iSub++)]: the merged list and [iSub]. *)
Fixpoint carry_loop (n : nat) (aContent : list Z) (aSub : list (list Z)) (iList : Z) (iSub : nat) (aMerge : list Z) : option (list Z * nat) :=
  match n with
  | O => None
  | S n =>
    if Z.testbit iList (Z.of_nat iSub) then
      p ← aSub !! iSub; aMerge ← walMerge aContent p aMerge; carry_loop n aContent aSub iList (S iSub) aMerge
    else Some (aMerge, iSub)
  end.

(** The main loop, on [n] elements from [iList] on: the sublists, the last merged
    list and its [iSub]. *)
Fixpoint sort_loop (n : nat) (aContent aList : list Z) (iList : Z) (aSub : list (list Z)) (aMerge : list Z) (iSub : nat)
    : option (list (list Z) * list Z * nat) :=
  match n with
  | O => Some (aSub, aMerge, iSub)
  | S n =>
    x ← get aList iList;
    '(aMerge, iSub) ← carry_loop 14 aContent aSub iList 0 [x];
    sort_loop n aContent aList (iList + 1) (<[iSub := aMerge]> aSub) aMerge iSub
  end.

(** [for(iSub++; iSub<ArraySize(aSub); iSub++)], [n] of them. *)
Fixpoint collect_loop (n : nat) (aContent : list Z) (aSub : list (list Z)) (nList : Z) (iSub : nat) (aMerge : list Z) : option (list Z) :=
  match n with
  | O => Some aMerge
  | S n =>
    aMerge ← (if Z.testbit nList (Z.of_nat iSub) then p ← aSub !! iSub; walMerge aContent p aMerge else Some aMerge);
    collect_loop n aContent aSub nList (S iSub) aMerge
  end.

Definition walMergesort (aContent aList : list Z) : option (list Z) :=
  '(aSub, aMerge, iSub) ← sort_loop (length aList) aContent aList 0 (replicate 13 []) [] 0;
  collect_loop (13 - S iSub) aContent aSub (Z.of_nat (length aList)) (S iSub) aMerge.

(** ** The iterator *)

(** [aPgno] is the page numbers of the segment, and [seg_iZero] the number of the
    frame of the first. *)
Record WalSegment := mkWalSegment { iNext : Z; aIndex : list Z; aPgno : list Z; seg_iZero : Z }.
Record WalIterator := mkWalIterator { iPrior : Z; aSegment : list WalSegment }.

(** The loop over one segment: the segment, [iRet] and [*piFrame]. *)
Fixpoint next_loop (n : nat) (pSegment : WalSegment) (iMin iRet iFrame : Z) : option (WalSegment * Z * Z) :=
  match n with
  | O => Some (pSegment, iRet, iFrame)
  | S n =>
    if iNext pSegment <? Z.of_nat (length (aIndex pSegment)) then
      x ← get (aIndex pSegment) (iNext pSegment);
      iPg ← get (aPgno pSegment) x;
      if iMin <? iPg then
        if iPg <? iRet then Some (pSegment, iPg, seg_iZero pSegment + x) else Some (pSegment, iRet, iFrame)
      else next_loop n (mkWalSegment (iNext pSegment + 1) (aIndex pSegment) (aPgno pSegment) (seg_iZero pSegment)) iMin iRet iFrame
    else Some (pSegment, iRet, iFrame)
  end.

(** The loop over the segments, from the last to the first. *)
Fixpoint next_segments (segs : list WalSegment) (iMin iFrame : Z) : option (list WalSegment * Z * Z) :=
  match segs with
  | [] => Some ([], 0xFFFFFFFF, iFrame)
  | s :: segs =>
    '(segs, iRet, iFrame) ← next_segments segs iMin iFrame;
    '(s, iRet, iFrame) ← next_loop (S (length (aIndex s))) s iMin iRet iFrame;
    Some (s :: segs, iRet, iFrame)
  end.

(** The result, the iterator, [*piPage] and [*piFrame]. *)
Definition walIteratorNext (p : WalIterator) (iFrame : Z) : option (bool * WalIterator * Z * Z) :=
  '(segs, iRet, iFrame) ← next_segments (aSegment p) (iPrior p) iFrame;
  Some (iRet =? 0xFFFFFFFF, mkWalIterator iRet segs, iRet, iFrame).

(** The loop of [walIteratorInit] over [n] pages of the index from [i] on. *)
Fixpoint init_loop (n : nat) (i iLast : Z) (pWal : Wal) (shm : Shm) (o : list Z) (segs : list WalSegment)
    : option (Z * list WalSegment * Wal * Shm * list Z) :=
  match n with
  | O => Some (SQLITE_OK, segs, pWal, shm, o)
  | S n =>
    let '(rc, pWal, shm, o) := walHashGet pWal shm i o in
    if negb (rc =? SQLITE_OK) then Some (rc, segs, pWal, shm, o)
    else
      p ← page_at pWal shm i;
      let iZero := table_zero i in
      let nEntry := match n with O => iLast - iZero | _ => HASHTABLE_NPAGE - pgno_offset i end in
      let aPgno := take (Z.to_nat nEntry) (drop (Z.to_nat (pgno_offset i)) (words p)) in
      aIndex ← walMergesort aPgno (wrap 16 <$> seqZ 0 nEntry);
      init_loop n (i + 1) iLast pWal shm o (segs ++ [mkWalSegment 0 aIndex aPgno (iZero + 1)])
  end.

(** Two allocations, for the iterator and for the buffer of the sort. There is no
    iterator after an error; the code then leaves the address of freed memory in
    its output, which the caller does not look at. The size of the first
    allocation is an int, two bytes for each frame and a little more; that it
    overflows for logs of about 2^30 frames, or 575 gigabytes, is not modelled. *)
Definition walIteratorInit (pWal : Wal) (shm : Shm) (o : list Z) : option (Z * option WalIterator * Wal * Shm * list Z) :=
  let iLast := mxFrame (hdr pWal) in
  let '(rc, o) := next_rc o in
  if negb (rc =? SQLITE_OK) then Some (SQLITE_NOMEM, None, pWal, shm, o)
  else
    let '(rc, o) := next_rc o in
    if negb (rc =? SQLITE_OK) then Some (SQLITE_NOMEM, None, pWal, shm, o)
    else
      '(rc, segs, pWal, shm, o) ← init_loop (Z.to_nat (walFramePage iLast + 1)) 0 iLast pWal shm o [];
      Some (rc, if rc =? SQLITE_OK then Some (mkWalIterator 0 segs) else None, pWal, shm, o).

Example sort_1 : walMergesort [5; 3; 5; 1; 3; 9; 3] (seqZ 0 7) = Some [3; 6; 2; 5].
Proof. reflexivity. Qed.

Section sort.
Context (aContent : list Z).
Implicit Types (l r : list Z) (x y lo mid hi : Z).

(** ** Merging *)

Definition content x : Z := default 0 (aContent !! Z.to_nat x).
Definition in_range x : Prop := 0 ≤ x < Z.of_nat (length aContent).

Lemma get_content x : in_range x → get aContent x = Some (content x).
Proof.
  unfold in_range, get, content. intros Hx. destruct (Z.ltb_spec x 0); [lia|].
  destruct (lookup_lt_is_Some_2 aContent (Z.to_nat x)) as [v ->]; [lia|done].
Qed.

(** Strictly ascending by the content. *)
Definition ascending l : Prop := StronglySorted (λ x y, content x < content y) l.

(** The last places of each content between [lo] and [hi]. *)
Definition last_places lo hi l : Prop :=
  ascending l ∧ ∀ x, x ∈ l ↔ lo ≤ x < hi ∧ ∀ y, x < y < hi → content y ≠ content x.

Lemma ascending_cons x l : ascending (x :: l) ↔ ascending l ∧ ∀ y, y ∈ l → content x < content y.
Proof.
  split.
  - intros [H1 H2]%StronglySorted_inv. split; [done|]. intros y Hy. rewrite Forall_forall in H2. by apply H2.
  - intros [H1 H2]. constructor; [done|]. apply Forall_forall. auto.
Qed.

Lemma last_place lo hi x : lo ≤ x < hi → ∃ z, (lo ≤ z < hi ∧ ∀ y, z < y < hi → content y ≠ content z) ∧ content z = content x.
Proof.
  remember (Z.to_nat (hi - x)) as n eqn:En. revert x En. induction n as [n IH] using lt_wf_ind. intros x En Hx.
  destruct (decide (Exists (λ y, content y = content x) (seqZ (x + 1) (hi - x - 1)))) as [(y & Hy & E)%Exists_exists|Hn].
  - apply elem_of_seqZ in Hy. destruct (IH (Z.to_nat (hi - y))) with (x := y) as (z & Hz & Ez); [lia|done|lia|]. exists z. split; [done|congruence].
  - exists x. split; [|done]. split; [done|]. intros y Hy E. apply Hn, Exists_exists. exists y. split; [apply elem_of_seqZ; lia|done].
Qed.

(** The merge takes everything of the right list, and of the left list what has
    a content that is not in the right one. *)
Definition merged l r out : Prop :=
  ascending out ∧ ∀ x, x ∈ out ↔ x ∈ r ∨ x ∈ l ∧ ∀ y, y ∈ r → content y ≠ content x.

Lemma merged_left x l r out :
  merged l r out → (∀ z, z ∈ l → content x < content z) → (∀ z, z ∈ r → content x < content z) → merged (x :: l) r (x :: out).
Proof.
  intros [Ao Ho] Hl Hr. split.
  - apply ascending_cons. split; [done|]. intros z [Hz | [Hz _]]%Ho; auto.
  - intros z. rewrite !elem_of_cons, Ho. split.
    + intros [-> | [Hz | [Hz Hn]]]; auto. right. split; [by left|]. intros w Hw. specialize (Hr w Hw). lia.
    + intros [Hz | [[-> | Hz] Hn]]; auto.
Qed.

Lemma merged_right y l r out :
  merged l r out → (∀ z, z ∈ l → content y < content z) → (∀ z, z ∈ r → content y < content z) → merged l (y :: r) (y :: out).
Proof.
  intros [Ao Ho] Hl Hr. split.
  - apply ascending_cons. split; [done|]. intros z [Hz | [Hz _]]%Ho; auto.
  - intros z. rewrite !elem_of_cons, Ho. split.
    + intros [-> | [Hz | [Hz Hn]]]; auto. right. split; [done|].
      intros w [-> | Hw]%elem_of_cons; auto. specialize (Hl z Hz). lia.
    + intros [[-> | Hz] | [Hz Hn]]; auto. right. right. split; [done|]. intros w Hw. apply Hn. by right.
Qed.

(** The omitted element of the left list. *)
Lemma merged_omit x y l r out : content x = content y → merged l (y :: r) out → merged (x :: l) (y :: r) out.
Proof.
  intros E [Ao Ho]. split; [done|]. intros z. rewrite Ho, (elem_of_cons l). split.
  - intros [Hz | [Hz Hn]]; auto.
  - intros [Hz | [[-> | Hz] Hn]]; auto. exfalso. apply (Hn y); [by left|done].
Qed.

(** The element after the one taken has another content. *)
Lemma left_kept x l : Forall in_range l → (∀ z, z ∈ l → content x < content z) →
  match l with [] => Some [] | y :: l' => cy ← get aContent y; Some (if cy =? content x then l' else l) end = Some l.
Proof.
  intros Hl Hlt. destruct l as [|z l]; [done|]. apply Forall_cons in Hl as [Hz Hl]. rewrite get_content by done. cbn [mbind option_bind].
  destruct (Z.eqb_spec (content z) (content x)); [|done]. specialize (Hlt z (list_elem_of_here _ _)). lia.
Qed.

Lemma walMerge_loop_spec (n : nat) : ∀ l r,
  (length l + length r ≤ n)%nat → Forall in_range l → Forall in_range r → ascending l → ascending r →
  ∃ out, merge_loop n aContent l r = Some out ∧ merged l r out.
Proof.
  induction n as [|n IH]; intros l r Hn Hl Hr Al Ar; cbn [merge_loop].
  { destruct l, r; cbn in Hn; try lia. exists []. split; [done|]. split; [constructor|]. set_solver. }
  destruct l as [|x l], r as [|y r]; cbn [length] in Hn;
    try (pose proof Hl as [Hx Hl']%Forall_cons; pose proof Al as [Al' Hxl]%ascending_cons);
    try (pose proof Hr as [Hy Hr']%Forall_cons; pose proof Ar as [Ar' Hyr]%ascending_cons).
  - exists []. split; [done|]. split; [constructor|]. set_solver.
  - cbn [mbind option_bind]. rewrite get_content by done. cbn [mbind option_bind].
    destruct (IH [] r) as (out & -> & Ho); [cbn in *; lia|done..|]. eexists. split; [done|]. apply merged_right; [done|set_solver|done].
  - cbn [mbind option_bind]. rewrite get_content by done. cbn [mbind option_bind]. rewrite left_kept by done. cbn [mbind option_bind].
    destruct (IH l []) as (out & -> & Ho); [cbn in *; lia|done..|]. eexists. split; [done|]. apply merged_left; [done|done|set_solver].
  - cbn [mbind option_bind]. rewrite !get_content by done. cbn [mbind option_bind].
    destruct (Z.ltb_spec (content x) (content y)) as [Hlt|Hge]; cbn [mbind option_bind].
    + rewrite get_content by done. cbn [mbind option_bind]. rewrite left_kept by done. cbn [mbind option_bind].
      destruct (IH l (y :: r)) as (out & -> & Ho); [cbn in *; lia|done..|]. eexists. split; [done|]. apply merged_left; [done..|].
      intros z [-> | Hz]%elem_of_cons; [done|]. specialize (Hyr z Hz). lia.
    + rewrite get_content by done. cbn [mbind option_bind]. rewrite get_content by done. cbn [mbind option_bind].
      destruct (Z.eqb_spec (content x) (content y)) as [E|Hne].
      * destruct (IH l r) as (out & -> & Ho); [cbn in *; lia|done..|]. eexists. split; [done|]. apply merged_omit; [done|].
        apply merged_right; [done| |done]. intros z Hz. specialize (Hxl z Hz). lia.
      * destruct (IH (x :: l) r) as (out & -> & Ho); [cbn in *; lia|done..|]. eexists. split; [done|].
        apply merged_right; [done| |done]. intros z [-> | Hz]%elem_of_cons; [lia|]. specialize (Hxl z Hz). lia.
Qed.

(** The last places of two adjacent ranges. *)
Lemma last_places_merge lo mid hi l r out : lo ≤ mid ≤ hi →
  last_places lo mid l → last_places mid hi r → merged l r out → last_places lo hi out.
Proof.
  intros Hm [_ Hl] [_ Hr] [Ao Ho]. split; [done|]. intros x. rewrite Ho, Hl, Hr. split.
  - intros [[? Hn] | [[? Hn] Hn']]; (split; [lia|]); [intros y Hy; apply Hn; lia|]. intros y Hy.
    destruct (Z.lt_ge_cases y mid) as [|Hge]; [apply Hn; lia|].
    (* the last place of the content of y *)
    intros E. destruct (last_place mid hi y) as (z & Hz & Ez); [lia|]. apply (Hn' z); [by apply Hr|]. congruence.
  - intros [Hx Hn]. destruct (Z.lt_ge_cases x mid); [right|left].
    + split; [split; [lia|]; intros y Hy; apply Hn; lia|]. intros y [Hy _]%Hr. apply Hn. lia.
    + split; [lia|]. intros y Hy; apply Hn; lia.
Qed.

Lemma last_places_range lo hi l : 0 ≤ lo → hi ≤ Z.of_nat (length aContent) → last_places lo hi l → Forall in_range l.
Proof. intros Hlo Hhi [_ Hl]. apply Forall_forall. intros x Hx. apply Hl in Hx as [Hx _]. unfold in_range. lia. Qed.

Lemma walMerge_spec lo mid hi l r : 0 ≤ lo ≤ mid → mid ≤ hi ≤ Z.of_nat (length aContent) →
  last_places lo mid l → last_places mid hi r → ∃ out, walMerge aContent l r = Some out ∧ last_places lo hi out.
Proof.
  intros Hlo Hhi Hl Hr. unfold walMerge.
  destruct (walMerge_loop_spec (length l + length r) l r) as (out & E & Ho);
    [lia|eapply last_places_range; [..|done]; lia|eapply last_places_range; [..|done]; lia|apply Hl|apply Hr|].
  exists out. split; [done|]. eapply last_places_merge; [|done..]. lia.
Qed.

Lemma last_places_one x : last_places x (x + 1) [x].
Proof.
  split; [repeat constructor|]. intros y. rewrite list_elem_of_singleton. split; [intros ->; split; [lia|]; intros; lia|intros [? _]; lia].
Qed.

(** ** The bits of the number of elements *)

Lemma mod_bit (k : Z) (b : nat) : k mod 2 ^ (Z.of_nat b + 1) = k mod 2 ^ Z.of_nat b + (if Z.testbit k (Z.of_nat b) then 2 ^ Z.of_nat b else 0).
Proof.
  rewrite Z.pow_add_r, Z.rem_mul_r by lia. change (2 ^ 1) with 2. rewrite <- Z.testbit_spec' by lia.
  destruct (Z.testbit k _); cbn [Z.b2z]; lia.
Qed.

(** Adding one does not carry over a bit that is clear. *)
Lemma mod_succ (k : Z) (b c : nat) : (b < c)%nat → Z.testbit k (Z.of_nat b) = false → (k + 1) mod 2 ^ Z.of_nat c = k mod 2 ^ Z.of_nat c + 1.
Proof.
  intros Hbc Hb. pose proof (Z.mod_pos_bound k (2 ^ Z.of_nat c)). pose proof (Z.div_mod k (2 ^ Z.of_nat c)).
  assert (0 < 2 ^ Z.of_nat c) by (apply Z.pow_pos_nonneg; lia).
  symmetry. apply Z.mod_unique_pos with (k / 2 ^ Z.of_nat c); [|lia]. split; [lia|].
  assert (k mod 2 ^ Z.of_nat c ≠ 2 ^ Z.of_nat c - 1); [|lia]. intros E.
  assert (Z.testbit (k mod 2 ^ Z.of_nat c) (Z.of_nat b) = true) as Ht; [|rewrite Z.mod_pow2_bits_low in Ht by lia; congruence].
  rewrite E, Z.sub_1_r, <- Z.ones_equiv. apply Z.ones_spec_low. lia.
Qed.

(** Where the list of bit [b] starts. *)
Definition place (k : Z) (b : nat) : Z := k - k mod 2 ^ (Z.of_nat b + 1).

(** The sublists after [k] elements: one for each bit of [k]. *)
Definition sublists (k : Z) (aSub : list (list Z)) : Prop :=
  length aSub = 13%nat ∧
  ∀ b : nat, Z.testbit k (Z.of_nat b) = true → ∃ l, aSub !! b = Some l ∧ last_places (place k b) (place k b + 2 ^ Z.of_nat b) l.

Lemma carry_loop_spec (k : Z) aSub : 0 ≤ k < 4096 → k < Z.of_nat (length aContent) → sublists k aSub →
  ∀ (n b : nat) l, (n + b = 14)%nat → k mod 2 ^ Z.of_nat b = 2 ^ Z.of_nat b - 1 → last_places (k + 1 - 2 ^ Z.of_nat b) (k + 1) l →
  ∃ (l' : list Z) (b' : nat), carry_loop n aContent aSub k b l = Some (l', b') ∧ (b' ≤ 12)%nat ∧
    k mod 2 ^ (Z.of_nat b' + 1) = 2 ^ Z.of_nat b' - 1 ∧ last_places (k + 1 - 2 ^ Z.of_nat b') (k + 1) l'.
Proof.
  intros Hk Hlen [_ Hs]. induction n as [|n IH]; intros b l Hn Hb Hl.
  { exfalso. replace b with 14%nat in * by lia. pose proof (Z.mod_small k (2 ^ Z.of_nat 14)). cbn in *. lia. }
  assert (b ≤ 12)%nat as Hb12.
  { destruct (Nat.le_gt_cases b 12) as [|Hgt]; [done|]. assert (2 ^ 13 ≤ 2 ^ Z.of_nat b) by (apply Z.pow_le_mono_r; lia).
    rewrite Z.mod_small in Hb by lia. lia. }
  cbn [carry_loop]. pose proof (mod_bit k b) as Hmb. pose proof (Z.mod_le k (2 ^ Z.of_nat b)) as Hle.
  assert (0 < 2 ^ Z.of_nat b) by (apply Z.pow_pos_nonneg; lia).
  assert (2 ^ (Z.of_nat b + 1) = 2 * 2 ^ Z.of_nat b) as Hp by (rewrite Z.pow_add_r by lia; lia).
  destruct (Z.testbit k (Z.of_nat b)) eqn:Hbit.
  - destruct (Hs b Hbit) as (p & -> & Hpl). cbn [mbind option_bind].
    pose proof (Z.mod_le k (2 ^ (Z.of_nat b + 1))).
    destruct (walMerge_spec (place k b) (place k b + 2 ^ Z.of_nat b) (k + 1) p l) as (out & -> & Ho);
      [unfold place; lia|unfold place; lia|done| |].
    { replace (place k b + 2 ^ Z.of_nat b) with (k + 1 - 2 ^ Z.of_nat b) by (unfold place; lia). done. }
    cbn [mbind option_bind]. apply IH; [lia| |]; replace (Z.of_nat (S b)) with (Z.of_nat b + 1) by lia; [lia|].
    replace (k + 1 - 2 ^ (Z.of_nat b + 1)) with (place k b) by (unfold place; lia). done.
  - exists l, b. split; [done|]. split; [done|]. split; [lia|done].
Qed.

(** One round of the main loop. *)
Lemma sublists_step (k : Z) aSub (b : nat) l : 0 ≤ k → sublists k aSub → (b ≤ 12)%nat →
  k mod 2 ^ (Z.of_nat b + 1) = 2 ^ Z.of_nat b - 1 → last_places (k + 1 - 2 ^ Z.of_nat b) (k + 1) l →
  (k + 1) mod 2 ^ (Z.of_nat b + 1) = 2 ^ Z.of_nat b ∧ sublists (k + 1) (<[b := l]> aSub).
Proof.
  intros Hk [Hlen Hs] Hb Hmod Hl.
  assert (0 < 2 ^ Z.of_nat b) by (apply Z.pow_pos_nonneg; lia).
  assert (2 ^ (Z.of_nat b + 1) = 2 * 2 ^ Z.of_nat b) as Hp by (rewrite Z.pow_add_r by lia; lia).
  assert (Z.testbit k (Z.of_nat b) = false) as Hbit.
  { pose proof (mod_bit k b) as Hmb. pose proof (Z.mod_pos_bound k (2 ^ Z.of_nat b)). destruct (Z.testbit _ _); [lia|done]. }
  assert (∀ c : nat, (b < c)%nat → (k + 1) mod 2 ^ Z.of_nat c = k mod 2 ^ Z.of_nat c + 1) as Hsucc by (intros; by apply (mod_succ k b)).
  assert ((k + 1) mod 2 ^ (Z.of_nat b + 1) = 2 ^ Z.of_nat b) as Hnew.
  { specialize (Hsucc (S b)). replace (Z.of_nat (S b)) with (Z.of_nat b + 1) in Hsucc by lia. lia. }
  split; [done|]. split; [by rewrite length_insert|]. intros c Hc. destruct (Nat.lt_trichotomy c b) as [Hlt|[->|Hgt]].
  - exfalso. rewrite <- (Z.mod_pow2_bits_low (k + 1) (Z.of_nat b + 1)), Hnew, Z.pow2_bits_false in Hc by lia. done.
  - exists l. rewrite list_lookup_insert_eq by lia. split; [done|]. unfold place. rewrite Hnew.
    replace (k + 1 - 2 ^ Z.of_nat b + 2 ^ Z.of_nat b) with (k + 1) by lia. done.
  - rewrite list_lookup_insert_ne by lia.
    pose proof (Hsucc c Hgt) as H1. pose proof (Hsucc (S c) ltac:(lia)) as H2. replace (Z.of_nat (S c)) with (Z.of_nat c + 1) in H2 by lia.
    pose proof (mod_bit k c) as B1. pose proof (mod_bit (k + 1) c) as B2. rewrite Hc in B2. assert (0 < 2 ^ Z.of_nat c) by (apply Z.pow_pos_nonneg; lia).
    destruct (Hs c) as (p & Hp1 & Hp2); [apply not_false_is_true; intros E; rewrite E in B1; lia|]. exists p. split; [done|].
    replace (place (k + 1) c) with (place k c) by (unfold place; lia). done.
Qed.

Lemma get_seqZ (n k : Z) : 0 ≤ k < n → get (seqZ 0 n) k = Some k.
Proof. intros Hk. unfold get. destruct (Z.ltb_spec k 0); [lia|]. rewrite lookup_seqZ_lt by lia. f_equal. lia. Qed.

Lemma walMergesort_loop_spec (N : Z) : 0 < N ≤ 4096 → N ≤ Z.of_nat (length aContent) →
  ∀ (n : nat) (k : Z) aSub l b, k + Z.of_nat n = N → 0 ≤ k → (0 < n)%nat → sublists k aSub →
  ∃ aSub' l' b', sort_loop n aContent (seqZ 0 N) k aSub l b = Some (aSub', l', b') ∧ sublists N aSub' ∧ (b' ≤ 12)%nat ∧
    N mod 2 ^ (Z.of_nat b' + 1) = 2 ^ Z.of_nat b' ∧ last_places (N - 2 ^ Z.of_nat b') N l'.
Proof.
  intros HN Hlen. induction n as [|n IH]; intros k aSub l b Hkn Hk Hn Hs; [lia|].
  cbn [sort_loop]. rewrite get_seqZ by lia. cbn [mbind option_bind].
  destruct (carry_loop_spec k aSub ltac:(lia) ltac:(lia) Hs 14 0 [k]) as (l' & b' & -> & Hb' & Hmod & Hl');
    [lia|rewrite Z.mod_1_r; done| |].
  { change (2 ^ Z.of_nat 0) with 1. replace (k + 1 - 1) with k by lia. apply last_places_one. }
  cbn [mbind option_bind]. destruct (sublists_step k aSub b' l') as [Hnew Hs']; [done..|].
  destruct n as [|n].
  - cbn [sort_loop]. exists (<[b' := l']> aSub), l', b'. replace N with (k + 1) by lia. done.
  - apply IH; [lia|lia|lia|done].
Qed.

Lemma collect_loop_spec (N : Z) aSub : 0 < N ≤ 4096 → N ≤ Z.of_nat (length aContent) → sublists N aSub →
  ∀ (n c : nat) l, (n + c = 13)%nat → last_places (N - N mod 2 ^ Z.of_nat c) N l →
  ∃ l', collect_loop n aContent aSub N c l = Some l' ∧ last_places 0 N l'.
Proof.
  intros HN Hlen [_ Hs]. induction n as [|n IH]; intros c l Hc Hl; cbn [collect_loop].
  { exists l. split; [done|]. replace c with 13%nat in Hl by lia. rewrite Z.mod_small in Hl by (cbn; lia). by rewrite Z.sub_diag in Hl. }
  pose proof (mod_bit N c) as Hmb. assert (0 < 2 ^ Z.of_nat c) by (apply Z.pow_pos_nonneg; lia).
  destruct (Z.testbit N (Z.of_nat c)) eqn:Hbit; cbn [mbind option_bind].
  - destruct (Hs c Hbit) as (p & -> & Hp). cbn [mbind option_bind].
    pose proof (Z.mod_pos_bound N (2 ^ Z.of_nat c)). pose proof (Z.mod_le N (2 ^ (Z.of_nat c + 1)) ltac:(lia) ltac:(apply Z.pow_pos_nonneg; lia)).
    destruct (walMerge_spec (place N c) (place N c + 2 ^ Z.of_nat c) N p l) as (out & -> & Ho); [unfold place; lia|unfold place; lia|done| |].
    { replace (place N c + 2 ^ Z.of_nat c) with (N - N mod 2 ^ Z.of_nat c) by (unfold place; lia). done. }
    cbn [mbind option_bind]. apply IH; [lia|]. replace (Z.of_nat (S c)) with (Z.of_nat c + 1) by lia. done.
  - apply IH; [lia|]. replace (Z.of_nat (S c)) with (Z.of_nat c + 1) by lia. replace (N mod 2 ^ (Z.of_nat c + 1)) with (N mod 2 ^ Z.of_nat c) by lia. done.
Qed.

(** The sort leaves the last place of each content, in the order of the contents. *)
Lemma walMergesort_spec (N : Z) : 0 < N ≤ 4096 → N ≤ Z.of_nat (length aContent) →
  ∃ l, walMergesort aContent (seqZ 0 N) = Some l ∧ last_places 0 N l.
Proof.
  intros HN Hlen. unfold walMergesort. rewrite length_seqZ, Z2Nat.id by lia.
  destruct (walMergesort_loop_spec N HN Hlen (Z.to_nat N) 0 (replicate 13 []) [] 0) as (aSub & l & b & -> & Hs & Hb & Hmod & Hl); [lia|lia|lia| |].
  { split; [done|]. intros b. rewrite Z.bits_0. done. }
  cbn [mbind option_bind]. apply collect_loop_spec; [done..|lia|].
  replace (Z.of_nat (S b)) with (Z.of_nat b + 1) by lia. rewrite Hmod. done.
Qed.
End sort.

(** ** The iterator *)

Section iterator.
Context (log : list Z).
Implicit Types (s : WalSegment) (i q : Z).

(** The segment [i] of an iterator that has returned the pages up to [P]. *)
Record segment_ok (P i : Z) s : Prop := {
  segment_pages : aPgno s = entries i log;
  segment_zero : seg_iZero s = zero_of i + 1;
  segment_sorted : last_places (aPgno s) 0 (len (aPgno s)) (aIndex s);
  segment_next : 0 ≤ iNext s;
  segment_past : ∀ j x, Z.of_nat j < iNext s → aIndex s !! j = Some x → content (aPgno s) x ≤ P }.

Definition skip s : WalSegment := mkWalSegment (iNext s + 1) (aIndex s) (aPgno s) (seg_iZero s).

Lemma segment_skip P i s x : segment_ok P i s → get (aIndex s) (iNext s) = Some x → content (aPgno s) x ≤ P → segment_ok P i (skip s).
Proof.
  intros [H1 H2 H3 H4 H5] Hx HP. split; [done..|cbn; lia|]. cbn. intros j y Hj Hy. destruct (Z.lt_ge_cases (Z.of_nat j) (iNext s)); [eauto|].
  unfold get in Hx. destruct (Z.ltb_spec (iNext s) 0); [done|]. replace (Z.to_nat (iNext s)) with j in Hx by lia. congruence.
Qed.

(** The place [x] of the segment holds the least page after [P]. *)
Definition least_after (P : Z) s (x : Z) : Prop :=
  0 ≤ x < len (aPgno s) ∧ P < content (aPgno s) x ∧ (∀ y, x < y < len (aPgno s) → content (aPgno s) y ≠ content (aPgno s) x) ∧
  ∀ y, 0 ≤ y < len (aPgno s) → P < content (aPgno s) y → content (aPgno s) x ≤ content (aPgno s) y.

Lemma ascending_le aContent l a b x y : ascending aContent l → l !! a = Some x → l !! b = Some y → (a ≤ b)%nat → content aContent x ≤ content aContent y.
Proof.
  intros Hl Ha Hb Hab. destruct (Nat.eq_dec a b) as [->|]; [replace y with x by congruence; lia|].
  assert (content aContent x < content aContent y); [|lia].
  revert a b Ha Hb Hab n. induction l as [|z l IH]; intros a b Ha Hb Hab Hne; [done|]. apply ascending_cons in Hl as [Hl Hlt].
  destruct a, b; cbn in *; [lia| |lia|eapply IH; eauto; lia]. injection Ha as ->. apply Hlt. by eapply list_elem_of_lookup_2.
Qed.

(** Every place has the content of a place of the sorted list. *)
Lemma sorted_covers s y : last_places (aPgno s) 0 (len (aPgno s)) (aIndex s) → 0 ≤ y < len (aPgno s) →
  ∃ b z, aIndex s !! b = Some z ∧ content (aPgno s) z = content (aPgno s) y.
Proof.
  intros [_ Hl] Hy. destruct (last_place (aPgno s) 0 (len (aPgno s)) y Hy) as (z & Hz & E).
  apply Hl, list_elem_of_lookup in Hz as [b Hb]. eauto.
Qed.

Lemma segment_loop_spec P i (n : nat) : ∀ s iRet iFrame,
  segment_ok P i s → len (aIndex s) < iNext s + Z.of_nat n →
  ∃ s', segment_ok P i s' ∧ aPgno s' = aPgno s ∧ seg_iZero s' = seg_iZero s ∧
    ((∀ y, 0 ≤ y < len (aPgno s) → content (aPgno s) y ≤ P) ∧ next_loop n s P iRet iFrame = Some (s', iRet, iFrame) ∨
     ∃ x, least_after P s x ∧
       next_loop n s P iRet iFrame = Some (if content (aPgno s) x <? iRet then (s', content (aPgno s) x, seg_iZero s + x) else (s', iRet, iFrame))).
Proof.
  induction n as [|n IH]; intros s iRet iFrame Hs Hn; cbn [next_loop].
  { exists s. split; [done|]. split_and!; [done..|]. left. split; [|done]. intros y Hy.
    destruct (sorted_covers s y (segment_sorted _ _ _ Hs) Hy) as (b & z & Hb & <-). apply lookup_lt_Some in Hb as Hbl.
    apply (segment_past _ _ _ Hs b); [lia|done]. }
  pose proof (segment_next _ _ _ Hs) as H0. pose proof (segment_sorted _ _ _ Hs) as [Hasc Hlast]. destruct (Z.ltb_spec (iNext s) (len (aIndex s))) as [Hlt|Hge].
  - destruct (lookup_lt_is_Some_2 (aIndex s) (Z.to_nat (iNext s))) as [x Hx]; [lia|].
    assert (get (aIndex s) (iNext s) = Some x) as Hget by (unfold get; destruct (Z.ltb_spec (iNext s) 0); [lia|done]). rewrite Hget. cbn [mbind option_bind].
    assert (x ∈ aIndex s) as [Hxr Hxl]%Hlast by (by eapply list_elem_of_lookup_2).
    rewrite get_content by (unfold in_range; lia). cbn [mbind option_bind]. destruct (Z.ltb_spec P (content (aPgno s) x)) as [HP|HP].
    + exists s. split; [done|]. split_and!; [done..|]. right. exists x. split; [|by destruct (_ <? _)].
      split; [done|]. split; [done|]. split; [done|]. intros y Hy HyP. destruct (sorted_covers s y (segment_sorted _ _ _ Hs) Hy) as (b & z & Hb & E). rewrite <- E in HyP |- *.
      destruct (Z.lt_ge_cases (Z.of_nat b) (iNext s)) as [Hb'|Hb']; [pose proof (segment_past _ _ _ Hs b z Hb' Hb); lia|].
      eapply ascending_le; [done|exact Hx|exact Hb|lia].
    + apply (IH (skip s)); [by eapply segment_skip|cbn; lia].
  - exists s. split; [done|]. split_and!; [done..|]. left. split; [|done]. intros y Hy.
    destruct (sorted_covers s y (segment_sorted _ _ _ Hs) Hy) as (b & z & Hb & <-). apply lookup_lt_Some in Hb as Hbl.
    apply (segment_past _ _ _ Hs b); [lia|done].
Qed.

(** [segs] are the segments of the log from [i] on. *)
Definition segments_ok (P i : Z) (segs : list WalSegment) : Prop :=
  (∀ (j : nat) s, segs !! j = Some s → segment_ok P (i + Z.of_nat j) s) ∧ len log ≤ zero_of (i + Z.of_nat (length segs)) .

(** The least page after [P] of the frames from [lo] on, with its newest frame. *)
Definition next_page (P lo iFrame iRet iFrame' : Z) : Prop :=
  (iRet = 0xFFFFFFFF ∧ iFrame' = iFrame ∧ ∀ f q, lo ≤ f → frame log f = Some q → q ≤ P) ∨
  (P < iRet ∧ newest_frame log iRet lo (len log) iFrame' ∧ 0 < iFrame' ∧ ∀ f q, lo ≤ f → frame log f = Some q → P < q → iRet ≤ q).

(** The frames of a segment. *)
Lemma segment_frame P i s y : 0 ≤ i → segment_ok P i s → 0 ≤ y < len (aPgno s) → frame log (zero_of i + 1 + y) = Some (content (aPgno s) y).
Proof.
  intros Hi [Hp _ _ _ _] Hy. pose proof (capacity_bounds i). pose proof (zero_of_nonneg i Hi). pose proof (entries_length i log Hi) as Hlen.
  rewrite <- Hp in Hlen. unfold frame, content. destruct (lookup_lt_is_Some_2 (aPgno s) (Z.to_nat y)) as [v Hv]; [lia|]. rewrite Hv. cbn.
  rewrite Hp in Hv. replace (Z.to_nat y) with (Z.to_nat (y + 1 - 1)) in Hv by lia. rewrite entries_lookup in Hv by lia. rewrite <- Hv. f_equal. lia.
Qed.

Lemma frame_segment P i s f q : 0 ≤ i → segment_ok P i s → zero_of i < f ≤ zero_of (i + 1) → frame log f = Some q →
  0 ≤ f - zero_of i - 1 < len (aPgno s) ∧ content (aPgno s) (f - zero_of i - 1) = q.
Proof.
  intros Hi Hs Hf Hq. assert (0 ≤ f - zero_of i - 1 < len (aPgno s)) as Hr.
  { rewrite (segment_pages _ _ _ Hs), entries_length by done. unfold frame in Hq. apply lookup_lt_Some in Hq.
    assert (zero_of (i + 1) = zero_of i + capacity_of i); [|lia]. unfold zero_of, capacity_of.
    change HASHTABLE_NPAGE_ONE with 4062. change HASHTABLE_NPAGE with 4096. destruct (Z.eqb_spec i 0), (Z.eqb_spec (i + 1) 0); lia. }
  split; [done|]. pose proof (segment_frame P i s _ Hi Hs Hr) as E. replace (zero_of i + 1 + (f - zero_of i - 1)) with f in E by lia. congruence.
Qed.

Lemma segments_cons P i s segs : segments_ok P i (s :: segs) ↔ segment_ok P i s ∧ segments_ok P (i + 1) segs.
Proof.
  unfold segments_ok. cbn [length]. replace (i + Z.of_nat (S (length segs))) with (i + 1 + Z.of_nat (length segs)) by lia. split.
  - intros [H Hl]. split; [replace i with (i + Z.of_nat 0) by lia; by apply (H 0%nat)|]. split; [|done].
    intros j s' Hj. replace (i + 1 + Z.of_nat j) with (i + Z.of_nat (S j)) by lia. by apply (H (S j)).
  - intros (Hs & H & Hl). split; [|done]. intros [|j] s' Hj; [injection Hj as <-; by replace (i + Z.of_nat 0) with i by lia|].
    replace (i + Z.of_nat (S j)) with (i + 1 + Z.of_nat j) by lia. by apply H.
Qed.

(** The pages of one more segment in front. *)
Lemma next_page_segment P i s iFrame iRet iFrame1 : 0 ≤ i → segment_ok P i s → (∀ f q, frame log f = Some q → q < 0xFFFFFFFF) →
  next_page P (zero_of (i + 1) + 1) iFrame iRet iFrame1 →
  ((∀ y, 0 ≤ y < len (aPgno s) → content (aPgno s) y ≤ P) → next_page P (zero_of i + 1) iFrame iRet iFrame1) ∧
  ∀ x, least_after P s x →
    (content (aPgno s) x < iRet → next_page P (zero_of i + 1) iFrame (content (aPgno s) x) (seg_iZero s + x)) ∧
    (iRet ≤ content (aPgno s) x → next_page P (zero_of i + 1) iFrame iRet iFrame1).
Proof.
  intros Hi Hs Hmax Hnext. pose proof (zero_of_mono i (i + 1) ltac:(lia)) as Hz. pose proof (capacity_bounds i) as Hc. pose proof (zero_of_nonneg i Hi) as Hz0. split.
  - intros Hall. assert (∀ f q, zero_of i + 1 ≤ f ≤ zero_of (i + 1) → frame log f = Some q → q ≤ P) as Hseg.
    { intros f q Hf Hq. destruct (frame_segment P i s f q Hi Hs ltac:(lia) Hq) as [Hr <-]. by apply Hall. }
    destruct Hnext as [(-> & -> & Hno) | (HP & Hnew & Hpos & Hle)]; [left|right].
    + split_and!; [done..|]. intros f q Hf Hq. destruct (Z.le_gt_cases f (zero_of (i + 1))); [apply (Hseg f); [lia|done]|apply (Hno f); [lia|done]].
    + split; [done|]. destruct Hnew as [[? _] | (Hr & Hq & Hn)]; [lia|]. split; [right; split_and!; [lia|lia|done..]|]. split; [done|].
      intros f q Hf Hq' HPq. destruct (Z.le_gt_cases f (zero_of (i + 1))); [specialize (Hseg f q ltac:(lia) Hq'); lia|apply (Hle f); [lia|done..]].
  - intros x (Hx & HPx & Hlast & Hleast).
    assert (∀ f q, zero_of i + 1 ≤ f ≤ zero_of (i + 1) → frame log f = Some q → P < q → content (aPgno s) x ≤ q) as Hseg.
    { intros f q Hf Hq HPq. destruct (frame_segment P i s f q Hi Hs ltac:(lia) Hq) as [Hr <-]. by apply Hleast. }
    pose proof (segment_frame P i s x Hi Hs Hx) as Hfx. rewrite (segment_zero _ _ _ Hs). split.
    + intros Hlt. right. split; [done|]. assert (zero_of i + 1 + x ≤ len log) by (unfold frame in Hfx; apply lookup_lt_Some in Hfx; lia).
      split; [right; split_and!; [lia|lia|done|]|].
      * intros f Hf Hq. destruct (Z.le_gt_cases f (zero_of (i + 1))).
        -- destruct (frame_segment P i s f _ Hi Hs ltac:(lia) Hq) as [Hr E]. apply (Hlast (f - zero_of i - 1)); [lia|done].
        -- destruct Hnext as [(_ & _ & Hno) | (_ & _ & _ & Hle)]; [specialize (Hno f _ ltac:(lia) Hq); lia|specialize (Hle f _ ltac:(lia) Hq HPx); lia].
      * split; [lia|]. intros f q Hf Hq HPq. destruct (Z.le_gt_cases f (zero_of (i + 1))); [apply (Hseg f); [lia|done..]|].
        destruct Hnext as [(-> & _ & Hno) | (_ & _ & _ & Hle)]; [specialize (Hno f _ ltac:(lia) Hq); lia|specialize (Hle f _ ltac:(lia) Hq HPq); lia].
    + intros Hge. destruct Hnext as [(-> & _ & Hno) | (HP & Hnew & Hpos & Hle)]; [specialize (Hmax _ _ Hfx); lia|]. right. split; [done|].
      destruct Hnew as [[? _] | (Hr & Hq & Hn)]; [lia|]. split; [right; split_and!; [lia|lia|done..]|]. split; [done|].
      intros f q Hf Hq' HPq. destruct (Z.le_gt_cases f (zero_of (i + 1))); [specialize (Hseg f q ltac:(lia) Hq' HPq); lia|apply (Hle f); [lia|done..]].
Qed.

Lemma next_segments_spec P iFrame : (∀ f q, frame log f = Some q → q < 0xFFFFFFFF) → ∀ segs i, 0 ≤ i → segments_ok P i segs →
  ∃ segs' iRet iFrame', next_segments segs P iFrame = Some (segs', iRet, iFrame') ∧ segments_ok P i segs' ∧
    next_page P (zero_of i + 1) iFrame iRet iFrame'.
Proof.
  intros Hmax. induction segs as [|s segs IH]; intros i Hi Hs; cbn [next_segments].
  - exists [], 0xFFFFFFFF, iFrame. split; [done|]. split; [done|]. left. split_and!; [done..|]. intros f q Hf Hq. exfalso.
    destruct Hs as [_ Hlen]. cbn in Hlen. rewrite Z.add_0_r in Hlen. unfold frame in Hq. apply lookup_lt_Some in Hq. lia.
  - apply segments_cons in Hs as [Hs Hsegs]. destruct (IH (i + 1) ltac:(lia) Hsegs) as (segs' & iRet & iFrame1 & -> & Hsegs' & Hnext).
    cbn [mbind option_bind].
    destruct (next_page_segment P i s iFrame iRet iFrame1 Hi Hs Hmax Hnext) as [Hnone Hsome].
    destruct (segment_loop_spec P i (S (length (aIndex s))) s iRet iFrame1 Hs) as (s' & Hs' & _ & _ & [[Hall ->] | (x & Hx & ->)]);
      [pose proof (segment_next _ _ _ Hs); lia| |]; cbn [mbind option_bind].
    + exists (s' :: segs'), iRet, iFrame1. split; [done|]. rewrite segments_cons. auto.
    + destruct (Hsome x Hx) as [H1 H2]. destruct (Z.ltb_spec (content (aPgno s) x) iRet) as [Hlt|Hge]; eexists _, _, _; (split; [done|]); rewrite segments_cons; auto.
Qed.

(** After the page [iRet] the segments are past all pages up to it. *)
Lemma segments_weaken P P' i segs : P ≤ P' → segments_ok P i segs → segments_ok P' i segs.
Proof.
  intros HP [H Hl]. split; [|done]. intros j s Hj. destruct (H j s Hj) as [H1 H2 H3 H4 H5]. split; [done..|].
  intros k x Hk Hx. specialize (H5 k x Hk Hx). lia.
Qed.

Definition iterator_ok (p : WalIterator) : Prop := 0 ≤ iPrior p ∧ segments_ok (iPrior p) 0 (aSegment p).

Lemma walIteratorNext_spec (p : WalIterator) iFrame : iterator_ok p → (∀ f q, frame log f = Some q → q < 0xFFFFFFFF) →
  ∃ done p' iPage iFrame', walIteratorNext p iFrame = Some (done, p', iPage, iFrame') ∧ iPrior p' = iPage ∧
    (done = true ∧ (∀ f q, 1 ≤ f → frame log f = Some q → q ≤ iPrior p) ∨
     done = false ∧ iterator_ok p' ∧ iPrior p < iPage ∧ 0 < iFrame' ∧ newest_frame log iPage 1 (len log) iFrame' ∧
       ∀ f q, 1 ≤ f → frame log f = Some q → iPrior p < q → iPage ≤ q).
Proof.
  intros [HP Hs] Hmax. unfold walIteratorNext.
  destruct (next_segments_spec (iPrior p) iFrame Hmax (aSegment p) 0 ltac:(lia) Hs) as (segs & iRet & iFrame' & -> & Hs' & Hnext).
  cbn [mbind option_bind]. exists (iRet =? 0xFFFFFFFF), (mkWalIterator iRet segs), iRet, iFrame'. split; [done|]. split; [done|].
  change (zero_of 0 + 1) with 1 in Hnext. destruct Hnext as [(-> & -> & Hno) | (HPr & Hnew & Hpos & Hle)]; [by left|right].
  assert (iRet < 0xFFFFFFFF) by (destruct Hnew as [[? _] | (_ & Hq & _)]; [lia|by apply (Hmax iFrame')]).
  split; [by apply Z.eqb_neq; lia|]. split; [|done]. split; [cbn; lia|]. cbn. apply (segments_weaken (iPrior p)); [lia|done].
Qed.

(** The frames of the log with a page after [P]. *)
Definition ahead_in (l : list Z) (P : Z) : nat := length (filter (λ q, P < q) l).

Lemma ahead_lt P p r : P < p → frame log r = Some p → (ahead_in log p < ahead_in log P)%nat.
Proof.
  intros HP. unfold frame. intros Hr. apply list_elem_of_lookup_2 in Hr. revert Hr. generalize log. intros l.
  assert (∀ l' : list Z, (ahead_in l' p ≤ ahead_in l' P)%nat) as Hle.
  { unfold ahead_in. induction l' as [|x l' IH]; [done|]. rewrite !filter_cons. destruct (decide (p < x)), (decide (P < x)); cbn [length]; lia. }
  unfold ahead_in in *. induction l as [|x l IH]; intros Hin; [by apply elem_of_nil in Hin|]. rewrite !filter_cons. apply elem_of_cons in Hin as [-> | Hin].
  - rewrite (decide_False (P := x < x)) by lia. rewrite decide_True by lia. cbn [length]. specialize (Hle l). lia.
  - specialize (IH Hin). destruct (decide (p < x)), (decide (P < x)); cbn [length]; lia.
Qed.

(** All pages that the iterator returns, with their frames, in at most [n] calls. *)
Fixpoint iterate (n : nat) (p : WalIterator) (iFrame : Z) : option (list (Z * Z)) :=
  match n with
  | O => None
  | S n =>
    '(stop, p, iPage, iFrame) ← walIteratorNext p iFrame;
    if stop : bool then Some [] else l ← iterate n p iFrame; Some ((iPage, iFrame) :: l)
  end.

Lemma iterate_spec (Hmax : ∀ f q, frame log f = Some q → q < 0xFFFFFFFF) (n : nat) : ∀ (p : WalIterator) iFrame, iterator_ok p → (ahead_in log (iPrior p) < n)%nat →
  ∃ l, iterate n p iFrame = Some l ∧ StronglySorted (λ a b, a.1 < b.1) l ∧
    ∀ q r, (q, r) ∈ l ↔ iPrior p < q ∧ r ≠ 0 ∧ newest_frame log q 1 (len log) r.
Proof.
  induction n as [|n IH]; intros p iFrame Hp Hn; [lia|]. cbn [iterate].
  destruct (walIteratorNext_spec p iFrame Hp Hmax) as (stop & p' & iPage & iFrame' & -> & Ep & Hcase). cbn [mbind option_bind].
  destruct Hcase as [[-> Hend] | (-> & Hp' & Hlt & Hpos & Hnew & Hleast)].
  - exists []. split; [done|]. split; [constructor|]. intros q r. split; [by intros ?%elem_of_nil|]. intros (Hq & Hr & [[? _] | (Hrr & Hfr & _)]); [done|].
    specialize (Hend r q ltac:(lia) Hfr). lia.
  - destruct Hnew as [[? _] | Hnew]; [lia|]. pose proof Hnew as (Hr & Hfr & _).
    pose proof (ahead_lt _ _ _ Hlt Hfr) as Hah. rewrite <- Ep in Hah. destruct (IH p' iFrame' Hp' ltac:(lia)) as (l & -> & Hsort & Hl). cbn [mbind option_bind].
    eexists. split; [done|]. rewrite Ep in Hl. split.
    + constructor; [done|]. apply Forall_forall. intros [q r] Hq. apply Hl in Hq as [Hq _]. exact Hq.
    + intros q r. rewrite elem_of_cons, Hl. split.
      * intros [E | (Hq & Hr' & Hn')]; [injection E as -> ->; split; [done|]; split; [lia|by right]|]. split; [lia|done].
      * intros (Hq & Hr' & Hn'). destruct (Z.eq_dec q iPage) as [->|Hne].
        -- left. f_equal. eapply newest_frame_unique; [|exact Hn'|by right]. lia.
        -- right. split; [|done]. destruct Hn' as [[? _] | (Hrr & Hfr' & _)]; [done|]. specialize (Hleast r q ltac:(lia) Hfr' Hq). lia.
Qed.
End iterator.

(** ** Making an iterator *)

Section init.
Implicit Types (pWal : Wal) (shm : Shm) (o : list Z) (log : list Z) (p : IndexPage) (i : Z).

Lemma small_slots (n : Z) : n ≤ 4096 → wrap 16 <$> seqZ 0 n = seqZ 0 n.
Proof.
  intros Hn. transitivity (id <$> seqZ 0 n); [|apply list_fmap_id]. apply list_fmap_ext. intros j x Hx. apply lookup_seqZ in Hx. unfold wrap. apply Z.mod_small. cbn. lia.
Qed.

(** The page numbers in the words of a page. *)
Lemma page_entries pWal log i p (n : Z) : 0 ≤ i → holds i p (entries i log) → 0 ≤ n ≤ len (entries i log) →
  take (Z.to_nat n) (drop (Z.to_nat (pgno_offset i)) (words p)) = take (Z.to_nat n) (entries i log).
Proof.
  intros Hi (Hsh & Hcap & _ & Hget & _) Hn. apply list_eq. intros j.
  destruct (Nat.lt_ge_cases j (Z.to_nat n)) as [Hj|Hj].
  - rewrite !lookup_take_lt, lookup_drop by done. pose proof (Hget (Z.of_nat j + 1) ltac:(lia)) as E. unfold pgno_get, get in E.
    assert (0 ≤ pgno_offset i) by (unfold pgno_offset; change (WALINDEX_HDR_SIZE / 4) with 34; destruct (_ =? _); lia).
    destruct (Z.ltb_spec (pgno_offset i + (Z.of_nat j + 1) - 1) 0); [lia|].
    replace (Z.to_nat (pgno_offset i + (Z.of_nat j + 1) - 1)) with (Z.to_nat (pgno_offset i) + j)%nat in E by lia. rewrite E.
    replace (Z.to_nat (Z.of_nat j + 1 - 1)) with j by lia. destruct (lookup_lt_is_Some_2 (entries i log) j) as [v Hv]; [lia|].
    done.
  - rewrite !lookup_ge_None_2; [done|rewrite length_take; lia..].
Qed.

(** What the loop returns, with the segments of the first pages. *)
Definition init_result pWal shm log o (r : Z * list WalSegment * Wal * Shm * list Z) : Prop :=
  let '(rc, segs, pWal', shm', o') := r in
  shm' = shm ∧ conn_ok pWal' shm ∧ same_conn pWal pWal' ∧ (o = [] → rc = SQLITE_OK ∧ o' = []) ∧
  (rc = SQLITE_OK → segments_ok log 0 0 segs).

Lemma new_segment pWal shm log (iLast i : Z) p : 0 ≤ i → 1 ≤ iLast ≤ len log → len log + 1 < 2 ^ 31 → zero_of i < iLast →
  holds i p (entries i log) →
  let nEntry := if decide (i = walFramePage iLast) then iLast - table_zero i else HASHTABLE_NPAGE - pgno_offset i in
  let aPgno := take (Z.to_nat nEntry) (drop (Z.to_nat (pgno_offset i)) (words p)) in
  ∃ aIndex, walMergesort aPgno (wrap 16 <$> seqZ 0 nEntry) = Some aIndex ∧
    segment_ok (take (Z.to_nat iLast) log) 0 i (mkWalSegment 0 aIndex aPgno (table_zero i + 1)).
Proof.
  intros Hi HiLast Hlen Hz Hok nEntry aPgno. pose proof (zero_of_nonneg i Hi) as Hz0. pose proof (capacity_bounds i) as Hc.
  assert (table_zero i = zero_of i) as Etz by (apply table_zero_eq; lia). pose proof (entries_length i log Hi) as Hel.
  destruct (frame_page iLast) as (Hk & Hlo & Hhi); [lia|].
  assert (nEntry = Z.min (capacity_of i) (iLast - zero_of i)) as En.
  { unfold nEntry. rewrite Etz. destruct (decide _) as [Ei|Hne]; [rewrite <- Ei in Hhi; lia|].
    assert (HASHTABLE_NPAGE - pgno_offset i = capacity_of i) as ->.
    { unfold pgno_offset, capacity_of. change (WALINDEX_HDR_SIZE / 4) with 34. change HASHTABLE_NPAGE_ONE with 4062. change HASHTABLE_NPAGE with 4096.
      destruct (i =? 0); lia. }
    destruct (Z.lt_ge_cases (zero_of i + capacity_of i) iLast); [lia|]. exfalso. apply Hne. symmetry. apply frame_page_unique; lia. }
  assert (aPgno = entries i (take (Z.to_nat iLast) log)) as Ep.
  { unfold aPgno. rewrite (page_entries pWal log i p) by (done || lia). rewrite entries_take by lia.
    destruct (Z.le_gt_cases (iLast - zero_of i) (capacity_of i)); [f_equal; lia|]. rewrite !take_ge by lia. done. }
  assert (len aPgno = nEntry) as El by (rewrite Ep, entries_length, length_take by done; lia).
  rewrite small_slots by lia. destruct (walMergesort_spec aPgno nEntry) as (l & -> & Hl); [lia|lia|].
  exists l. split; [done|]. split; cbn; [done|lia|by rewrite El|done|lia].
Qed.

Lemma init_loop_spec log (iLast : Z) : 1 ≤ iLast ≤ len log → len log + 1 < 2 ^ 31 → ∀ (n : nat) i pWal shm o segs,
  conn_ok pWal shm → log_ok shm log → 0 ≤ i → i + Z.of_nat n = walFramePage iLast + 1 → Z.of_nat (length segs) = i →
  (∀ (j : nat) s, segs !! j = Some s → segment_ok (take (Z.to_nat iLast) log) 0 (Z.of_nat j) s) →
  ∃ r, init_loop n i iLast pWal shm o segs = Some r ∧ init_result pWal shm (take (Z.to_nat iLast) log) o r.
Proof.
  intros HiLast Hlen. destruct (frame_page iLast) as (Hk & Hlo & Hhi); [lia|].
  induction n as [|n IH]; intros i pWal shm o segs Hconn Hlog Hi Hn Hsegs Hok; cbn [init_loop].
  - eexists. split; [done|]. split_and!; [done|done|apply same_conn_refl|by intros ->|]. intros _. split; [done|].
    rewrite length_take. replace (0 + Z.of_nat (length segs)) with (walFramePage iLast + 1) by lia.
    pose proof (zero_of_mono (walFramePage iLast) (walFramePage iLast + 1)). lia.
  - assert (zero_of i < iLast) as Hz.
    { destruct (Z.eq_dec i (walFramePage iLast)) as [->|]; [lia|]. pose proof (zero_of_mono i (walFramePage iLast)). pose proof (capacity_bounds i). lia. }
    assert (entries i log ≠ []) as Hne.
    { intros E. pose proof (entries_length i log Hi) as Hel. rewrite E in Hel. pose proof (capacity_bounds i). cbn in Hel. lia. }
    destruct (log_ok_table shm log i Hlog Hi Hne) as (p & Hp & Htab).
    pose proof (walIndexPage_spec pWal shm i o Hconn Hi) as Hres. unfold walHashGet. destruct (walIndexPage pWal shm i o) as [[[rc pWal'] shm'] o'].
    pose proof (page_result_exists _ _ _ _ _ _ _ _ Hres Hi) as E. specialize (E ltac:(by eexists)) as ->. destruct Hres as (Hc & Hs & _ & _ & Hrc & Ho & _).
    destruct (Z.eqb_spec rc SQLITE_OK) as [->|Hne']; cbn [negb].
    2: { eexists. split; [done|]. split_and!; try done. }
    destruct (Hrc eq_refl) as [Hat _]. rewrite Hat, Hp. cbn [mbind option_bind].
    destruct (new_segment pWal shm log iLast i p Hi HiLast Hlen Hz Htab) as (aIndex & Hsort & Hseg).
    set (nE := match n with O => iLast - table_zero i | S _ => HASHTABLE_NPAGE - pgno_offset i end).
    replace (if decide (i = walFramePage iLast) then iLast - table_zero i else HASHTABLE_NPAGE - pgno_offset i) with nE in Hsort, Hseg
      by (unfold nE; destruct n; [rewrite decide_True by lia|rewrite decide_False by lia]; done).
    rewrite Hsort. cbn [mbind option_bind].
    destruct (IH (i + 1) pWal' shm o' (segs ++ [mkWalSegment 0 aIndex (take (Z.to_nat nE) (drop (Z.to_nat (pgno_offset i)) (words p))) (table_zero i + 1)]))
      as (r & Hr & Hres); [done|done|lia|lia|rewrite length_app; cbn; lia| |].
    { intros j s [Hj | [Hj Hj']]%lookup_app_Some; [by apply Hok|]. apply list_lookup_singleton_Some in Hj' as [Hj0 <-].
      replace (Z.of_nat j) with i by lia. done. }
    exists r. split; [done|]. destruct r as [[[[rc2 segs2] pWal2] shm2] o2]. destruct Hres as (-> & Hc2 & Hs2 & Ho2 & Hok2).
    split_and!; [done|done|by eapply same_conn_trans| |done]. intros ->. by apply Ho2, Ho.
Qed.

Lemma walIteratorInit_spec pWal shm log o :
  conn_ok pWal shm → log_ok shm log → 1 ≤ mxFrame (hdr pWal) ≤ len log → len log + 1 < 2 ^ 31 →
  ∃ rc pp pWal' o', walIteratorInit pWal shm o = Some (rc, pp, pWal', shm, o') ∧ conn_ok pWal' shm ∧ same_conn pWal pWal' ∧
    (o = [] → rc = SQLITE_OK ∧ o' = []) ∧
    (rc = SQLITE_OK → ∃ p : WalIterator, pp = Some p ∧ iPrior p = 0 ∧ iterator_ok (take (Z.to_nat (mxFrame (hdr pWal))) log) p) ∧
    (rc ≠ SQLITE_OK → pp = None).
Proof.
  intros Hconn Hlog Hmx Hlen. unfold walIteratorInit.
  destruct (next_rc o) as [rc1 o1] eqn:E1. destruct (next_rc o1) as [rc2 o2] eqn:E2.
  destruct (Z.eqb_spec rc1 SQLITE_OK) as [->|H1]; cbn [negb].
  2: { eexists _, _, _, _. split; [done|]. split_and!; try done; first [apply same_conn_refl|intros ->; by injection E1 as <- <-]. }
  destruct (Z.eqb_spec rc2 SQLITE_OK) as [->|H2]; cbn [negb].
  2: { eexists _, _, _, _. split; [done|]. split_and!; try done; first [apply same_conn_refl|intros ->; injection E1 as <-; by injection E2 as <- <-]. }
  destruct (frame_page (mxFrame (hdr pWal))) as (Hk & _ & _); [lia|].
  destruct (init_loop_spec log (mxFrame (hdr pWal)) Hmx Hlen (Z.to_nat (walFramePage (mxFrame (hdr pWal)) + 1)) 0 pWal shm o2 [])
    as ([[[[rc segs] pWal'] shm'] o'] & -> & -> & Hc & Hs & Ho & Hok); [done|done|lia|lia|done|done|].
  rewrite option_bind_some. exists rc, (if rc =? SQLITE_OK then Some (mkWalIterator 0 segs) else None), pWal', o'. split; [done|]. split; [done|]. split; [done|].
  split; [|split].
  - intros ->. injection E1 as <-. injection E2 as <-. by apply Ho.
  - intros ->. eexists. split; [done|]. split; [done|]. split; [done|]. by apply Hok.
  - intros Hne. by destruct (Z.eqb_spec rc SQLITE_OK).
Qed.
End init.
