(* ===== verification/WalCkpt.v ===== *)
(** * Write-ahead log: checkpoints

    [walCheckpoint] and [sqlite3WalCheckpoint] of wal.c (in sqlite3.c), which copy
    pages from the log to the database file, and the functions that open, close and
    configure a connection.

    A busy handler is the list of its answers; it gives up after the last of
    them. *)
From S2P Require Import Prelude Words Varint WalIndex WalFile WalRead WalSort.
From stdpp Require Import gmap.
Local Open Scope Z_scope.

Definition SQLITE_CHECKPOINT_PASSIVE : Z := 0.
Definition SQLITE_CHECKPOINT_FULL : Z := 1.
Definition SQLITE_CHECKPOINT_RESTART : Z := 2.
Definition SQLITE_CHECKPOINT_TRUNCATE : Z := 3.

(** Truncation may make a file longer. *)
Definition file_truncate (d : list Z) (n : Z) : list Z := take (Z.to_nat n) d ++ replicate (Z.to_nat n - length d) 0.

Definition sqlite3OsTruncate_db (n : Z) : M Z := os_update (λ s, set_pDbFd s (file_truncate (pDbFd s) n)).
Definition sqlite3OsTruncate_wal (n : Z) : M Z := os_update (λ s, set_pWalFd s (file_truncate (pWalFd s) n)).

Definition set_nBackfill (v : Z) : M () :=
  with_shm (λ m, set_ckpt m (mkWalCkptInfo v (aReadMark (ckpt m)) (nBackfillAttempted (ckpt m)))).
Definition set_nBackfillAttempted (v : Z) : M () :=
  with_shm (λ m, set_ckpt m (mkWalCkptInfo (nBackfill (ckpt m)) (aReadMark (ckpt m)) v)).

(** The result code and the answers that are left. *)
Fixpoint walBusyLock (xBusy : list bool) (lockIdx n : Z) : M (Z * list bool) :=
  rc ← walLockExclusive lockIdx n;
  match xBusy with
  | b :: l => if rc =? SQLITE_BUSY then if b : bool then walBusyLock l lockIdx n else mret (rc, l) else mret (rc, xBusy)
  | [] => mret (rc, [])
  end.

Definition walPagesize (pWal : Wal) : Z := page_size_of (hdr_szPage (hdr pWal)).

(** The loop that looks for the last frame that is safe to copy, over [n] marks
    from [i] on: whether it goes to the end at an error, the result code, the
    frame and the busy handler. *)
Fixpoint safe_frame (n : nat) (i : Z) (xBusy : list bool) (mxSafeFrame rc : Z) : M (bool * Z * Z * list bool) :=
  match n with
  | O => mret (false, rc, mxSafeFrame, xBusy)
  | S n =>
    y ← read_mark i;
    if y <? mxSafeFrame then
      '(rc, xBusy) ← walBusyLock xBusy (WAL_READ_LOCK i) 1;
      if rc =? SQLITE_OK then
        set_read_mark i (if i =? 1 then mxSafeFrame else READMARK_NOT_USED);;
        walUnlockExclusive (WAL_READ_LOCK i) 1;;
        safe_frame n (i + 1) xBusy mxSafeFrame rc
      else if rc =? SQLITE_BUSY then safe_frame n (i + 1) [] y rc
      else mret (true, rc, mxSafeFrame, xBusy)
    else safe_frame n (i + 1) xBusy mxSafeFrame rc
  end.

(** The loop that copies the pages, at most [n]. *)
Fixpoint backfill_loop (n : nat) (pIter : WalIterator) (iFrame szPage mxPage nBackfill mxSafeFrame : Z) : M Z :=
  match n with
  | O => λ _, None
  | S n =>
    '(stop, pIter, iDbpage, iFrame) ← lift (walIteratorNext pIter iFrame);
    if stop : bool then mret SQLITE_OK
    else if (iFrame <=? nBackfill) || (mxSafeFrame <? iFrame) || (mxPage <? iDbpage) then
      backfill_loop n pIter iFrame szPage mxPage nBackfill mxSafeFrame
    else
      '(rc, zBuf) ← sqlite3OsRead pWalFd szPage (walFrameOffset iFrame szPage + WAL_FRAME_HDRSIZE);
      on_ok rc (
        rc ← sqlite3OsWrite_db zBuf ((iDbpage - 1) * szPage);
        on_ok rc (backfill_loop n pIter iFrame szPage mxPage nBackfill mxSafeFrame))
  end.

(** There is at most one round for each frame, and one that finds the end. The
    size of the database file is only compared with the size it may grow to,
    for a hint. *)
Definition backfill (pIter : WalIterator) (sync_flags szPage mxPage mxSafeFrame : Z) : M Z :=
  m ← gets shm; pWal ← gets wal;
  let nBackfill := nBackfill (ckpt m) in
  set_nBackfillAttempted mxSafeFrame;;
  rc ← (if negb (sync_flags =? 0) then sqlite3OsSync else mret SQLITE_OK);
  rc ← on_ok rc ('(rc, nSize) ← sqlite3OsFileSize pDbFd; mret rc);
  rc ← on_ok rc (backfill_loop (S (Z.to_nat (mxFrame (hdr pWal)))) pIter 0 szPage mxPage nBackfill mxSafeFrame);
  on_ok rc (
    m ← gets shm; pWal ← gets wal;
    rc ← (if mxSafeFrame =? mxFrame (shm_hdr0 m) then
            rc ← sqlite3OsTruncate_db (nPage (hdr pWal) * szPage);
            on_ok rc (if negb (sync_flags =? 0) then sqlite3OsSync else mret SQLITE_OK)
          else mret SQLITE_OK);
    on_ok rc (set_nBackfill mxSafeFrame;; mret SQLITE_OK)).

(** The first part, if there are frames to copy: whether the function returns, the
    result code and the busy handler. *)
Definition checkpoint_frames (xBusy : list bool) (sync_flags szPage : Z) : M (bool * Z * list bool) :=
  '(rc, pp) ← index walIteratorInit;
  if negb (rc =? SQLITE_OK) then mret (true, rc, xBusy)
  else
    pIter ← lift pp;
    pWal ← gets wal;
    let mxPage := nPage (hdr pWal) in
    '(failed, rc, mxSafeFrame, xBusy) ← safe_frame (Z.to_nat (WAL_NREADER - 1)) 1 xBusy (mxFrame (hdr pWal)) SQLITE_OK;
    if failed : bool then mret (true, rc, xBusy)
    else
      m ← gets shm;
      '(rc, xBusy) ← (
        if nBackfill (ckpt m) <? mxSafeFrame then
          '(rc, xBusy) ← walBusyLock xBusy (WAL_READ_LOCK 0) 1;
          if rc =? SQLITE_OK then
            rc ← backfill pIter sync_flags szPage mxPage mxSafeFrame;
            walUnlockExclusive (WAL_READ_LOCK 0) 1;;
            mret (rc, xBusy)
          else mret (rc, xBusy)
        else mret (rc, xBusy));
      mret (false, if rc =? SQLITE_BUSY then SQLITE_OK else rc, xBusy).

Section ckpt.
Context `{Machine} (has_bswap : bool).

(** The last part, for all modes but [SQLITE_CHECKPOINT_PASSIVE]; [salt1] is what
    [sqlite3_randomness] returns. *)
Definition checkpoint_restart (eMode : Z) (xBusy : list bool) (salt1 : list Z) : M Z :=
  m ← gets shm; pWal ← gets wal;
  if nBackfill (ckpt m) <? mxFrame (hdr pWal) then mret SQLITE_BUSY
  else if SQLITE_CHECKPOINT_RESTART <=? eMode then
    '(rc, _) ← walBusyLock xBusy (WAL_READ_LOCK 1) (WAL_NREADER - 1);
    if rc =? SQLITE_OK then
      rc ← (if eMode =? SQLITE_CHECKPOINT_TRUNCATE then walRestartHdr has_bswap salt1;; sqlite3OsTruncate_wal 0 else mret rc);
      walUnlockExclusive (WAL_READ_LOCK 1) (WAL_NREADER - 1);;
      mret rc
    else mret rc
  else mret SQLITE_OK.

Definition walCheckpoint (eMode : Z) (xBusy : list bool) (sync_flags : Z) (salt1 : list Z) : M Z :=
  pWal ← gets wal; m ← gets shm;
  '(out, rc, xBusy) ← (
    if nBackfill (ckpt m) <? mxFrame (hdr pWal) then checkpoint_frames xBusy sync_flags (walPagesize pWal)
    else mret (false, SQLITE_OK, xBusy));
  if (out : bool) || negb (rc =? SQLITE_OK) || (eMode =? SQLITE_CHECKPOINT_PASSIVE) then mret rc
  else checkpoint_restart eMode xBusy salt1.

(** The header is read and the log copied: the result code, [isChanged], and
    [*pnLog] and [*pnCkpt] if they are set. *)
Definition checkpoint_locked (eMode2 : Z) (xBusy2 : list bool) (sync_flags nBuf : Z) (salt1 : list Z) : M (Z * bool * option (Z * Z)) :=
  '(rc, isChanged) ← walIndexReadHdr has_bswap false;
  if negb (rc =? SQLITE_OK) then mret (rc, isChanged, None)
  else
    pWal ← gets wal;
    rc ← (if negb (mxFrame (hdr pWal) =? 0) && negb (walPagesize pWal =? nBuf) then mret SQLITE_CORRUPT
          else walCheckpoint eMode2 xBusy2 sync_flags salt1);
    pWal ← gets wal; m ← gets shm;
    mret (rc, isChanged, if (rc =? SQLITE_OK) || (rc =? SQLITE_BUSY) then Some (mxFrame (hdr pWal), nBackfill (ckpt m)) else None).

Definition sqlite3WalCheckpoint (eMode : Z) (xBusy : list bool) (sync_flags nBuf : Z) (salt1 : list Z) : M (Z * option (Z * Z)) :=
  pWal ← gets wal;
  if negb (readOnly pWal =? 0) then mret (SQLITE_READONLY, None)
  else
    rc ← walLockExclusive WAL_CKPT_LOCK 1;
    if negb (rc =? SQLITE_OK) then mret (rc, None)
    else
      with_wal (λ w, set_ckptLock w true);;
      '(rc, eMode2, xBusy2) ← (
        if negb (eMode =? SQLITE_CHECKPOINT_PASSIVE) then
          '(rc, xBusy2) ← walBusyLock xBusy WAL_WRITE_LOCK 1;
          if rc =? SQLITE_OK then with_wal (λ w, set_writeLock w true);; mret (rc, eMode, xBusy2)
          else if rc =? SQLITE_BUSY then mret (SQLITE_OK, SQLITE_CHECKPOINT_PASSIVE, [])
          else mret (rc, eMode, xBusy2)
        else mret (SQLITE_OK, eMode, xBusy));
      '(rc, isChanged, out) ← (if rc =? SQLITE_OK then checkpoint_locked eMode2 xBusy2 sync_flags nBuf salt1 else mret (rc, false, None));
      with_wal (λ w, if isChanged : bool then set_hdr w zero_hdr else w);;
      sqlite3WalEndWriteTransaction;;
      walUnlockExclusive WAL_CKPT_LOCK 1;;
      with_wal (λ w, set_ckptLock w false);;
      mret (if (rc =? SQLITE_OK) && negb (eMode =? eMode2) then SQLITE_BUSY else rc, out).

(** ** Connections *)

(** [flags] is what [sqlite3OsOpen] sets, [iDC] what
    [sqlite3OsDeviceCharacteristics] returns; nothing if the call fails. *)
Definition sqlite3WalOpen (bNoShm : bool) (mxWalSize flags iDC : Z) (o : list Z) : Z * option Wal * list Z :=
  let '(rc, o) := next_rc o in
  if negb (rc =? SQLITE_OK) then (SQLITE_NOMEM, None, o)
  else
    let '(rc, o) := next_rc o in
    if negb (rc =? SQLITE_OK) then (rc, None, o)
    else
      let readOnly := if negb (Z.land flags 1 =? 0) then 1 else 0 in
      (rc, Some (mkWal zero_hdr 0 (-1) false false (if bNoShm then WAL_HEAPMEMORY_MODE else 0) readOnly 0 0 0 false
        (Z.land iDC 0x400 =? 0) (Z.land iDC 0x1000 =? 0) mxWalSize 0 []), o).

Definition sqlite3WalLimit (iLimit : Z) : M () := with_wal (λ w, set_mxWalSize w iLimit).

(** [bPersist] is the answer to the question whether the file of the log stays.
    Closing releases the connection; what stays is the files. *)
Definition sqlite3WalClose (sync_flags nBuf bPersist : Z) (salt1 : list Z) : M Z :=
  rc ← outcome;
  '(rc, isDelete) ← (
    if rc =? SQLITE_OK then
      with_wal (λ w, if exclusiveMode w =? 0 then set_exclusiveMode w 1 else w);;
      '(rc, _) ← sqlite3WalCheckpoint SQLITE_CHECKPOINT_PASSIVE [] sync_flags nBuf salt1;
      pWal ← gets wal;
      if rc =? SQLITE_OK then
        if negb (bPersist =? 1) then mret (rc, true)
        else if 0 <=? mxWalSize pWal then walLimitSize 0;; mret (rc, false)
        else mret (rc, false)
      else mret (rc, false)
    else mret (rc, false));
  if isDelete : bool then os_update (λ s, set_pWalFd s []);; mret rc else mret rc.

Definition sqlite3WalCallback : M Z := pWal ← gets wal; with_wal (λ w, set_iCallback w 0);; mret (iCallback pWal).

Definition sqlite3WalExclusiveMode (op : Z) : M bool :=
  pWal ← gets wal;
  if op =? 0 then
    if negb (exclusiveMode pWal =? 0) then
      with_wal (λ w, set_exclusiveMode w 0);;
      rc ← walLockShared (WAL_READ_LOCK (readLock pWal));
      with_wal (λ w, if negb (rc =? SQLITE_OK) then set_exclusiveMode w 1 else w);;
      mret (rc =? SQLITE_OK)
    else mret false
  else if 0 <? op then
    walUnlockShared (WAL_READ_LOCK (readLock pWal));;
    with_wal (λ w, set_exclusiveMode w 1);;
    mret true
  else mret (exclusiveMode pWal =? 0).

Definition sqlite3WalHeapMemory : M bool := pWal ← gets wal; mret (exclusiveMode pWal =? WAL_HEAPMEMORY_MODE).
End ckpt.
