(* ===== verification/WalBackfill.v ===== *)
(** * Write-ahead log: what checkpoints do

    The pages of the two files, what a reader sees of them, and the effect of
    [walCheckpoint] on it. *)
From S2P Require Import Prelude Words Varint WalIndex WalLog WalFind WalFile WalRecover WalRead WalCommit WalSort WalCkpt.
From stdpp Require Import gmap.
Local Open Scope Z_scope.

(** ** Pages of files *)

(** The byte [i] of a file, 0 past its end. *)
Definition byte (d : list Z) (i : Z) : Z := default 0 (d !! Z.to_nat i).

Definition db_page (d : list Z) (sz q : Z) : list Z := (λ i, byte d ((q - 1) * sz + i)) <$> seqZ 0 sz.

Section files.
Implicit Types (d bs : list Z) (off i sz q n : Z).

Lemma byte_write d off bs i : 0 ≤ off → 0 ≤ i →
  byte (file_write d off bs) i = if decide (off ≤ i < off + len bs) then byte bs (i - off) else byte d i.
Proof.
  intros Ho Hi. unfold byte, file_write. set (d' := d ++ replicate (Z.to_nat off - length d) 0).
  assert (∀ j, default 0 (d' !! j) = default 0 (d !! j)) as Hd'.
  { intros j. unfold d'. destruct (Nat.lt_ge_cases j (length d)) as [Hj|Hj]; [by rewrite lookup_app_l by lia|].
    rewrite lookup_app_r, (lookup_ge_None_2 d) by lia. destruct (_ !! _) eqn:E; [|done]. by apply lookup_replicate in E as [-> _]. }
  assert (Z.to_nat off ≤ length d')%nat as Hl by (unfold d'; rewrite length_app, length_replicate; lia).
  destruct (decide (off ≤ i < off + len bs)) as [Hin|Hout].
  - rewrite lookup_app_r, length_take by (rewrite length_take; lia). rewrite lookup_app_l by lia. do 2 f_equal. lia.
  - destruct (Z.lt_ge_cases i off) as [Hlt|Hge].
    + rewrite lookup_app_l by (rewrite length_take; lia). rewrite lookup_take_lt by lia. apply Hd'.
    + rewrite lookup_app_r, length_take by (rewrite length_take; lia). rewrite lookup_app_r by lia. rewrite lookup_drop, <- Hd'.
      do 2 f_equal. lia.
Qed.

Lemma byte_truncate d n i : 0 ≤ i → byte (file_truncate d n) i = if decide (i < n) then byte d i else 0.
Proof.
  intros Hi. unfold byte, file_truncate. destruct (Nat.lt_ge_cases (Z.to_nat i) (length (take (Z.to_nat n) d))) as [Hlt|Hge].
  - rewrite lookup_app_l by done. rewrite length_take in Hlt. rewrite lookup_take_lt by lia. by rewrite decide_True by lia.
  - rewrite lookup_app_r by done. rewrite length_take in Hge.
    assert (default 0 (replicate (Z.to_nat n - length d) 0 !! (Z.to_nat i - length (take (Z.to_nat n) d))%nat) = 0) as ->.
    { destruct (_ !! _) eqn:E; [|done]. by apply lookup_replicate in E as [-> _]. }
    destruct (decide (i < n)); [|done]. rewrite (lookup_ge_None_2 d); [done|]. lia.
Qed.

Lemma db_page_ext d d' sz q : (∀ i, (q - 1) * sz ≤ i < q * sz → byte d i = byte d' i) → db_page d sz q = db_page d' sz q.
Proof. intros H. apply list_fmap_ext. intros j i Hi. apply lookup_seqZ in Hi. apply H. lia. Qed.

Lemma db_page_write_same d bs sz q : 1 ≤ q → 0 < sz → len bs = sz → db_page (file_write d ((q - 1) * sz) bs) sz q = bs.
Proof.
  intros Hq Hsz Hl. apply list_eq. intros j. unfold db_page. rewrite list_lookup_fmap.
  destruct (Nat.lt_ge_cases j (Z.to_nat sz)) as [Hj|Hj].
  - rewrite lookup_seqZ_lt by lia. cbn. rewrite byte_write by nia. rewrite decide_True by lia. unfold byte.
    replace (Z.to_nat ((q - 1) * sz + (0 + Z.of_nat j) - (q - 1) * sz)) with j by lia. destruct (lookup_lt_is_Some_2 bs j) as [v Hv]; [lia|]. by rewrite Hv.
  - rewrite lookup_seqZ_ge by lia. symmetry. apply lookup_ge_None_2. lia.
Qed.

Lemma db_page_write_other d bs sz q q' : 1 ≤ q → 1 ≤ q' → q ≠ q' → 0 < sz → len bs = sz →
  db_page (file_write d ((q - 1) * sz) bs) sz q' = db_page d sz q'.
Proof.
  intros Hq Hq' Hne Hsz Hl. apply db_page_ext. intros i Hi. rewrite byte_write by nia. destruct (decide _); [nia|done].
Qed.

Lemma db_page_truncate d sz n q : 1 ≤ q ≤ n → 0 < sz → db_page (file_truncate d (n * sz)) sz q = db_page d sz q.
Proof. intros Hq Hsz. apply db_page_ext. intros i Hi. rewrite byte_truncate by nia. by rewrite decide_True by nia. Qed.

Lemma file_truncate_size d n : 0 ≤ n → file_size (file_truncate d n) = n.
Proof. intros Hn. unfold file_size, file_truncate. rewrite length_app, length_take, length_replicate. lia. Qed.
End files.

(** ** What a reader sees *)

(** The newest frame of the page [q] among the first [n] and from [lo] on, 0 if
    there is none. *)
Fixpoint newest_in (n : nat) (log : list Z) (lo q : Z) : Z :=
  match n with
  | O => 0
  | S n' =>
    let i := Z.of_nat n in
    if lo <=? i then if bool_decide (frame log i = Some q) then i else newest_in n' log lo q else 0
  end.

Lemma newest_in_spec (n : nat) log lo q : 1 ≤ lo → newest_frame log q lo (Z.of_nat n) (newest_in n log lo q).
Proof.
  intros Hlo. induction n as [|n IH]; cbn [newest_in]; [left; split; [done|lia]|].
  destruct (Z.leb_spec lo (Z.of_nat (S n))) as [Hle|Hgt]; [|left; split; [done|lia]]. case_bool_decide as Hf.
  - right. split; [lia|]. split; [done|]. intros i Hi. lia.
  - destruct IH as [[E H] | (Hr & Hq & H)]; [left|right].
    + split; [done|]. intros i Hi. destruct (decide (i = Z.of_nat (S n))) as [->|]; [done|]. apply H. lia.
    + split; [lia|]. split; [done|]. intros i Hi. destruct (decide (i = Z.of_nat (S n))) as [->|]; [done|]. apply H. lia.
Qed.

(** The page of a frame of the log. *)
Definition frame_data (fs : list log_frame) (r : Z) : list Z :=
  match fs !! Z.to_nat (r - 1) with Some f => f_data f | None => [] end.

(** The content of the page [q] for a reader that looks for frames from [lo] to
    [hi], and in the database file [d] otherwise. *)
Definition view (fs : list log_frame) (d : list Z) (sz lo hi q : Z) : list Z :=
  let r := newest_in (Z.to_nat hi) (f_pgno <$> fs) lo q in
  if r =? 0 then db_page d sz q else frame_data fs r.

Section log.
Context (be : bool) (sz nCkpt : Z) (salt : list Z) (fs : list log_frame).
Context (Hsz : 0 < sz) (Hsalt : length salt = 8%nat) (Hfs : Forall (valid_frame sz) fs).

(** The page of a frame is at the place that the code computes. *)
Lemma frame_data_read (rest : list Z) r : 1 ≤ r ≤ Z.of_nat (length fs) →
  let d := log_bytes be sz nCkpt salt fs ++ rest in
  let off := walFrameOffset r sz + WAL_FRAME_HDRSIZE in
  off + sz ≤ file_size d ∧ take (Z.to_nat sz) (drop (Z.to_nat off) d) = frame_data fs r ∧ len (frame_data fs r) = sz.
Proof.
  intros Hr d off. destruct (lookup_lt_is_Some_2 fs (Z.to_nat (r - 1))) as [f Hf]; [lia|]. unfold frame_data. rewrite Hf.
  pose proof (take_drop_middle fs _ _ Hf) as E. set (n := Z.to_nat (r - 1)) in *.
  assert (Forall (valid_frame sz) (take n fs)) as Hpre by by apply Forall_take.
  pose proof (Forall_lookup_1 _ _ _ _ Hfs Hf) as Hvf. pose proof Hvf as (_ & _ & Hlen & _).
  pose proof (length_log be sz nCkpt salt (take n fs) Hsalt Hpre) as Hl. rewrite length_take in Hl.
  replace (Z.of_nat (n `min` length fs) + 1) with r in Hl by lia.
  set (s := foldl (frame_cksum be) (header_cksum be sz nCkpt salt) (take n fs)).
  set (tl := frames_bytes be salt (frame_cksum be s f) (drop (S n) fs)).
  assert (d = (log_bytes be sz nCkpt salt (take n fs) ++ frame_header be salt s f) ++ f_data f ++ tl ++ rest) as ->.
  { unfold d. rewrite <- E at 1. rewrite log_bytes_app. cbn [frames_bytes]. fold s. fold tl. unfold frame_bytes. by rewrite <- !app_assoc. }
  pose proof (length_frame_header be salt s f Hsalt) as Hh.
  assert (Z.of_nat (length (log_bytes be sz nCkpt salt (take n fs) ++ frame_header be salt s f)) = off) as Hoff.
  { rewrite length_app. unfold off, WAL_FRAME_HDRSIZE. lia. }
  unfold file_size. rewrite (length_app (_ ++ _)), (length_app (f_data f)). split; [lia|]. split; [|lia].
  rewrite drop_app_length' by lia. by apply take_app_length'; lia.
Qed.
End log.

(** ** The copying loop *)

Section backfill.
Context (be : bool) (sz nCkpt : Z) (salt : list Z) (fs : list log_frame) (rest : list Z).
Context (Hsz : 0 < sz) (Hsalt : length salt = 8%nat) (Hfs : Forall (valid_frame sz) fs).
Context (Hmax : Forall (λ f, f_pgno f < 0xFFFFFFFF) fs).
Implicit Types (st : St) (d : list Z) (q : Z).

Abbreviation log := (f_pgno <$> fs).

(** The newest of all frames of a page. *)
Definition newest q : Z := newest_in (length fs) log 1 q.

(** The pages after [P] that are to be copied. *)
Definition wanted (nB mx P q : Z) : Prop := P < q ∧ nB < newest q ≤ mx.

(** [d'] is [d] with the wanted pages up to [n] copied, some of them if not [all]. *)
Definition copied (all : bool) (n nB mx P : Z) d d' : Prop := ∀ q, 1 ≤ q ≤ n →
  (wanted nB mx P q ∧ db_page d' sz q = frame_data fs (newest q)) ∨
  ((all = true → ¬ wanted nB mx P q) ∧ db_page d' sz q = db_page d sz q).

(** The pages after [n] stay. *)
Definition kept_beyond (n : Z) d d' : Prop := ∀ q, n < q → db_page d' sz q = db_page d sz q.

(** Only the database file changes. *)
Definition db_only st st' : Prop :=
  wal st' = wal st ∧ shm st' = shm st ∧ pWalFd st' = pWalFd st ∧ others st' = others st ∧ locks st' = locks st.

Lemma newest_spec q : newest_frame log q 1 (len log) (newest q).
Proof. unfold newest. rewrite length_fmap. by apply newest_in_spec. Qed.

Lemma log_max f q : frame log f = Some q → q < 0xFFFFFFFF.
Proof.
  unfold frame. intros Hq. apply list_lookup_fmap_Some in Hq as (x & -> & Hx). exact (Forall_lookup_1 _ _ _ _ Hmax Hx).
Qed.

Abbreviation ahead := (ahead_in log).

Lemma not_wanted nB mx P q : 0 ≤ nB → (∀ f, 1 ≤ f → frame log f ≠ Some q) → ¬ wanted nB mx P q.
Proof. intros HnB Hno [_ Hr]. destruct (newest_spec q) as [[E _] | (Hr' & Hq & _)]; [lia|]. by apply (Hno (newest q)); [lia|]. Qed.

(** One page further. *)
Lemma copied_step all n nB mx P p d d1 d' : 0 ≤ nB → P < p →
  (∀ f q, 1 ≤ f → frame log f = Some q → P < q → p ≤ q) →
  copied all n nB mx p d1 d' →
  (∀ q, 1 ≤ q ≤ n → q ≠ p → db_page d1 sz q = db_page d sz q) →
  (1 ≤ p ≤ n → wanted nB mx P p ∧ db_page d1 sz p = frame_data fs (newest p) ∨ ¬ wanted nB mx P p ∧ db_page d1 sz p = db_page d sz p) →
  copied all n nB mx P d d'.
Proof.
  intros HnB HPp Hleast Hc Hother Hp q Hq. destruct (Hc q Hq) as [[[Hpq Hw] E] | [Hw E]].
  - left. split; [split; [lia|done]|done].
  - destruct (decide (q = p)) as [->|Hne].
    + destruct (Hp Hq) as [[? ?] | [? ?]]; [left|right]; (split; [done|congruence]).
    + right. split; [|by rewrite E, Hother]. intros Hall [HPq Hr]. apply (Hw Hall). split; [|done].
      destruct (newest_spec q) as [[Er _] | (Hr' & Hfq & _)]; [lia|]. specialize (Hleast (newest q) q ltac:(lia) Hfq HPq). lia.
Qed.

Lemma write_db_run bs off st :
  sqlite3OsWrite_db bs off st =
    let '(rc, o) := next_rc (rcs st) in
    Some (if rc =? SQLITE_OK then (SQLITE_OK, set_pDbFd (set_rcs st o) (file_write (pDbFd st) off bs)) else (rc, set_rcs st o)).
Proof. unfold sqlite3OsWrite_db, os_update. rewrite bind_outcome. destruct (next_rc (rcs st)) as [rc o]. unfold on_ok. by destruct (rc =? SQLITE_OK). Qed.

Lemma copied_none (all : bool) n nB mx P d : (all = true → ∀ q, ¬ wanted nB mx P q) → copied all n nB mx P d d.
Proof. intros H q _. right. auto. Qed.

Lemma db_only_trans st1 st2 st3 : db_only st1 st2 → db_only st2 st3 → db_only st1 st3.
Proof. unfold db_only. intros (H1 & H2 & H3 & H4 & H5) (E1 & E2 & E3 & E4 & E5). by rewrite E1, E2, E3, E4, E5. Qed.

(** What a run of the loop returns. *)
Definition loop_ok (n nB mx P : Z) st (r : option (Z * St)) : Prop :=
  ∃ rc st', r = Some (rc, st') ∧ db_only st st' ∧ (rcs st = [] → rc = SQLITE_OK ∧ rcs st' = []) ∧
    copied (rc =? SQLITE_OK) n nB mx P (pDbFd st) (pDbFd st') ∧ kept_beyond n (pDbFd st) (pDbFd st').

Lemma loop_failed n nB mx P st rc o : rc ≠ SQLITE_OK → (rcs st = [] → rc = SQLITE_OK ∧ o = []) → loop_ok n nB mx P st (Some (rc, set_rcs st o)).
Proof.
  intros Hrc Ho. exists rc, (set_rcs st o). split; [done|]. split; [by split_and!|]. split; [done|]. split; [|done]. apply copied_none. intros E.
  by apply Z.eqb_eq in E.
Qed.

Lemma loop_step (n nB mx P p : Z) st st1 r : 0 ≤ nB → P < p → (∀ f q, 1 ≤ f → frame log f = Some q → P < q → p ≤ q) →
  db_only st st1 → (rcs st = [] → rcs st1 = []) →
  (∀ q, 1 ≤ q ≤ n → q ≠ p → db_page (pDbFd st1) sz q = db_page (pDbFd st) sz q) → kept_beyond n (pDbFd st) (pDbFd st1) →
  (1 ≤ p ≤ n → wanted nB mx P p ∧ db_page (pDbFd st1) sz p = frame_data fs (newest p) ∨
    ¬ wanted nB mx P p ∧ db_page (pDbFd st1) sz p = db_page (pDbFd st) sz p) →
  loop_ok n nB mx p st1 r → loop_ok n nB mx P st r.
Proof.
  intros HnB HP Hleast Hd Ho Hother Hb Hp (rc & st' & -> & Hd' & Ho' & Hc & Hb'). exists rc, st'. split; [done|].
  split; [by eapply db_only_trans|]. split; [intros E; by apply Ho', Ho|]. split; [by eapply copied_step|].
  intros q Hq. by rewrite (Hb' q Hq), (Hb q Hq).
Qed.

Lemma backfill_loop_spec (nPg nB mx : Z) : 0 ≤ nPg → 0 ≤ nB → ∀ (n : nat) st pIter iFrame,
  iterator_ok log pIter → (ahead (iPrior pIter) < n)%nat → pWalFd st = log_bytes be sz nCkpt salt fs ++ rest →
  loop_ok nPg nB mx (iPrior pIter) st (backfill_loop n pIter iFrame sz nPg nB mx st).
Proof.
  intros HPg HnB. induction n as [|n IH]; intros st pIter iFrame Hit Hn Hfile; [lia|]. cbn [backfill_loop].
  destruct (walIteratorNext_spec log pIter iFrame Hit log_max) as (stop & it' & p & r & -> & Ep & Hcase). run.
  destruct Hcase as [[-> Hend] | (-> & Hit' & HPp & Hr & Hnew & Hleast)].
  { eexists SQLITE_OK, st. split; [done|]. split; [by split_and!|]. split; [done|]. split; [|done]. apply copied_none. intros _ q.
    intros [HPq Hw]. destruct (newest_spec q) as [[Er _] | (Hr' & Hfq & _)]; [lia|]. specialize (Hend (newest q) q ltac:(lia) Hfq). lia. }
  destruct Hit as [HP0 _].
  assert (r = newest p) as Er by (eapply newest_frame_unique; [|exact Hnew|apply newest_spec]; lia).
  destruct Hnew as [[? _] | (Hrange & Hfr & _)]; [lia|]. rewrite length_fmap in Hrange.
  pose proof (ahead_lt log _ _ _ HPp Hfr) as Hah. rewrite <- Ep in Hah.
  destruct ((r <=? nB) || (mx <? r) || (nPg <? p)) eqn:Eskip.
  - eapply (loop_step _ _ _ _ p st st); try done; [|rewrite <- Ep; apply IH; [done|lia|done]].
    intros Hp. right. split; [|done]. intros [_ Hw]. rewrite <- Er in Hw. lia.
  - destruct (frame_data_read be sz nCkpt salt fs Hsz Hsalt Hfs rest r ltac:(lia)) as (Hin & Hread & Hdl). rewrite <- Hfile in Hin, Hread.
    pose proof (os_read_inside pWalFd sz (walFrameOffset r sz + WAL_FRAME_HDRSIZE) st Hin ltac:(done)) as Hos. rewrite Hread in Hos.
    destruct (next_rc (rcs st)) as [rc o] eqn:Eo. pose proof (next_rc_nil _ _ _ Eo) as Ho. 
    destruct (Z.eqb_spec rc SQLITE_OK) as [->|Hrc]; rewrite (bind_some _ _ _ _ _ Hos); unfold on_ok at 1.
    2: { destruct (Z.eqb_spec rc SQLITE_OK); [done|]. by apply loop_failed. }
    change (SQLITE_OK =? SQLITE_OK) with true. cbn iota.
    pose proof (write_db_run (frame_data fs r) ((p - 1) * sz) (set_rcs st o)) as Hw. cbn [rcs set_rcs] in Hw.
    destruct (next_rc o) as [rc2 o2] eqn:Eo2. pose proof (next_rc_nil _ _ _ Eo2) as Ho2. 
    destruct (Z.eqb_spec rc2 SQLITE_OK) as [->|Hrc2]; rewrite (bind_some _ _ _ _ _ Hw); unfold on_ok.
    2: { destruct (Z.eqb_spec rc2 SQLITE_OK); [done|]. change (set_rcs (set_rcs st o) o2) with (set_rcs st o2). apply loop_failed; [done|].
         intros E. by apply Ho2, Ho. }
    change (SQLITE_OK =? SQLITE_OK) with true. cbn iota. set (st1 := set_pDbFd _ _).
    eapply (loop_step _ _ _ _ p st st1); try done; [intros E; by apply Ho2, Ho| | | |rewrite <- Ep; apply IH; [done|lia|done]].
    + intros q Hq Hne. apply db_page_write_other; [lia|lia|done..].
    + intros q Hq. apply db_page_write_other; [lia|lia|lia|done..].
    + intros Hp. left. split; [split; [done|]; rewrite <- Er; lia|]. rewrite <- Er. apply db_page_write_same; [lia|done..].
Qed.
End backfill.

(** ** Locks of others *)

(** What a checkpoint must leave alone while another connection has the lock of
    the mark [i]: the mark and the log or, if it reads without the log, the
    database file. *)
Record shielded (i v : Z) (w d : list Z) (T : list lock) (st : St) : Prop := {
  sh_theirs : theirs st = T;
  sh_mode : 0 ≤ i → exclusiveMode (wal st) = 0;
  sh_others : others st = [];
  sh_mark : 1 ≤ i → default 0 (aReadMark (ckpt (shm st)) !! Z.to_nat i) = v;
  sh_wal : 1 ≤ i → pWalFd st = w;
  sh_db : i = 0 → pDbFd st = d
}.

(** Another connection has the lock [idx]. *)
Definition held_by_others (T : list lock) (idx : Z) : Prop := ∃ l, T !! Z.to_nat idx = Some l ∧ l ≠ Unlocked.

Section shield.
Context (i v : Z) (w d : list Z) (T : list lock) (Hheld : 0 ≤ i → held_by_others T (WAL_READ_LOCK i)).
Implicit Types (st : St).

Abbreviation shield := (shielded i v w d T).

Lemma walLock_shielded idx n st rc st' : shield st → walLock idx n Exclusive st = Some (rc, st') →
  shield st' ∧ (0 ≤ i → 0 ≤ idx ≤ WAL_READ_LOCK i → WAL_READ_LOCK i < idx + n → rc ≠ SQLITE_OK).
Proof.
  intros Hs E. destruct (walLock_result idx n Exclusive st (sh_others _ _ _ _ _ _ Hs)) as (rc' & ls & o & E' & _ & Hb). rewrite E in E'. injection E' as -> ->.
  split; [by destruct Hs|]. intros Hi Hidx Hn. apply Hb; [by apply (sh_mode _ _ _ _ _ _ Hs)|]. destruct (Hheld Hi) as (l & Hl & Hne).
  unfold blocked. rewrite (sh_theirs _ _ _ _ _ _ Hs). apply existsb_exists. exists l. split; [|by destruct l].
  apply list_elem_of_In, list_elem_of_lookup. exists (Z.to_nat (WAL_READ_LOCK i) - Z.to_nat idx)%nat.
  rewrite lookup_take_lt by lia. rewrite lookup_drop. rewrite <- Hl. f_equal. lia.
Qed.

Lemma walBusyLock_shielded idx n xBusy : ∀ st rc xB st', shield st → walBusyLock xBusy idx n st = Some (rc, xB, st') →
  shield st' ∧ (0 ≤ i → 0 ≤ idx ≤ WAL_READ_LOCK i → WAL_READ_LOCK i < idx + n → rc ≠ SQLITE_OK).
Proof.
  induction xBusy as [|b l IH]; intros st rc xB st' Hs E; cbn [walBusyLock] in E; apply bind_inv in E as (rc1 & st1 & E1 & E);
    destruct (walLock_shielded idx n st rc1 st1 Hs E1) as [Hs1 Hr1]; [by injection E as <- _ <-|].
  destruct (rc1 =? SQLITE_BUSY) eqn:Eb; [destruct b; [by apply (IH st1 _ xB)|]|]; by injection E as <- _ <-.
Qed.

Lemma walUnlock_shielded idx n st a st' : shield st → walUnlock idx n st = Some (a, st') → shield st'.
Proof. intros Hs E. rewrite walUnlock_run in E. injection E as _ <-. destruct (negb _); [done|by destruct Hs]. Qed.

Lemma set_read_mark_shielded j x st a st' : shield st → 0 ≤ j → j ≠ i → set_read_mark j x st = Some (a, st') → shield st'.
Proof.
  intros [H1 H2 H3 H4 H5 H6] Hj Hne E. injection E as _ <-. split; try done. cbn. intros Hi. rewrite list_lookup_insert_ne by lia. by apply H4.
Qed.

Lemma safe_frame_shielded (n : nat) : ∀ j xBusy mx rc st r st', 1 ≤ j → shield st → safe_frame n j xBusy mx rc st = Some (r, st') → shield st'.
Proof.
  induction n as [|n IH]; intros j xBusy mx rc st r st' Hj Hs E; cbn [safe_frame] in E; [by injection E as _ <-|].
  apply bind_inv in E as (y & st1 & E1 & E). assert (st1 = st) as ->.
  { unfold read_mark in E1. rewrite bind_gets in E1. unfold lift in E1. destruct (get _ _); [by injection E1 as _ <-|done]. }
  destruct (y <? mx); [|by apply (IH (j + 1)%Z xBusy mx rc st r); [lia|..]].
  apply bind_inv in E as ([rc1 xB1] & st1 & E2 & E). destruct (walBusyLock_shielded _ _ _ _ _ _ _ Hs E2) as [Hs1 Hr1].
  destruct (Z.eqb_spec rc1 SQLITE_OK) as [->|Hrc].
  - apply bind_inv in E as (a & st2 & E3 & E). apply bind_inv in E as (b & st3 & E4 & E).
    apply (IH (j + 1) xB1 mx SQLITE_OK st3 r st'); [lia| |exact E]. eapply walUnlock_shielded; [|exact E4].
    eapply set_read_mark_shielded; [exact Hs1| | |exact E3]; [lia|]. intros ->. unfold WAL_READ_LOCK in Hr1. by apply Hr1; [lia..|].
  - destruct (rc1 =? SQLITE_BUSY); [eapply (IH (j + 1)); [lia|exact Hs1|exact E]|by injection E as _ <-].
Qed.

(** Functions that only write to the database file. *)
Lemma os_update_shielded (f : St → St) st rc st' : shield st → (∀ st, shield st → shield (f st)) → os_update f st = Some (rc, st') → shield st'.
Proof.
  intros Hs Hf E. unfold os_update in E. rewrite bind_outcome in E. destruct (next_rc (rcs st)) as [rc1 o]. assert (shield (set_rcs st o)) as Hs1 by by destruct Hs.
  unfold on_ok in E. destruct (rc1 =? SQLITE_OK); [|by injection E as _ <-]. injection E as _ <-. by apply Hf.
Qed.

Lemma outcome_shielded st rc st' : shield st → outcome st = Some (rc, st') → shield st'.
Proof. intros Hs E. unfold outcome in E. destruct (next_rc (rcs st)). injection E as _ <-. by destruct Hs. Qed.

Lemma on_ok_shielded rc (m : M Z) st a st' : shield st → on_ok rc m st = Some (a, st') → (∀ st a st', shield st → m st = Some (a, st') → shield st') → shield st'.
Proof. intros Hs E Hm. unfold on_ok in E. destruct (rc =? SQLITE_OK); [by eapply Hm|by injection E as _ <-]. Qed.

Lemma read_shielded (fd : St → list Z) amt off st r st' : shield st → sqlite3OsRead fd amt off st = Some (r, st') → shield st'.
Proof.
  intros Hs E. unfold sqlite3OsRead in E. apply bind_inv in E as (rc & st1 & E1 & E). apply (outcome_shielded _ _ _ Hs) in E1.
  destruct (rc =? SQLITE_OK); [|by injection E as _ <-]. rewrite bind_gets in E. destruct (_ <=? _); by injection E as _ <-.
Qed.

Lemma backfill_loop_shielded (n : nat) : i ≠ 0 → ∀ pIter iFrame sz mxPage nB mx st rc st', shield st →
  backfill_loop n pIter iFrame sz mxPage nB mx st = Some (rc, st') → shield st'.
Proof.
  intros Hi. induction n as [|n IH]; intros pIter iFrame sz mxPage nB mx st rc st' Hs E; [done|]. cbn [backfill_loop] in E.
  apply bind_inv in E as ([[[stop pI] q] f] & st1 & E1 & E). assert (st1 = st) as ->.
  { unfold lift in E1. destruct (walIteratorNext _ _); [by injection E1 as _ <-|done]. }
  destruct stop; [by injection E as _ <-|]. destruct (_ || _ || _); [by eapply IH|].
  apply bind_inv in E as ([rc1 z] & st1 & E2 & E). apply (read_shielded _ _ _ _ _ _ Hs) in E2. eapply on_ok_shielded; [exact E2|exact E|].
  intros st2 a st3 Hs2 E3. apply bind_inv in E3 as (rc2 & st4 & E4 & E3). apply (os_update_shielded _ _ _ _ Hs2) in E4; [|intros st5 Hs5; by destruct Hs5].
  eapply on_ok_shielded; [exact E4|exact E3|]. intros st5 a5 st6 Hs5 E5. by eapply IH.
Qed.

Lemma backfill_shielded pIter sync_flags sz mxPage mx st rc st' : i ≠ 0 → shield st → backfill pIter sync_flags sz mxPage mx st = Some (rc, st') → shield st'.
Proof.
  intros Hi Hs E. unfold backfill in E. rewrite !bind_gets in E.
  assert (∀ st a st', shield st → (if negb (sync_flags =? 0) then sqlite3OsSync else mret SQLITE_OK) st = Some (a, st') → shield st') as Hsync.
  { intros st1 a st2 Hs1 E1. destruct (negb _); [by eapply outcome_shielded|by injection E1 as _ <-]. }
  apply bind_inv in E as (u & st1 & E1 & E). assert (shield st1) as Hs1 by (injection E1 as _ <-; by destruct Hs).
  apply bind_inv in E as (rc2 & st2 & E2 & E). apply (Hsync _ _ _ Hs1) in E2. apply bind_inv in E as (rc3 & st3 & E3 & E).
  assert (shield st3) as Hs3.
  { eapply on_ok_shielded; [exact E2|exact E3|]. intros st4 a st5 Hs4 E4. apply bind_inv in E4 as ([x y] & st6 & E5 & E4). injection E4 as _ <-.
    unfold sqlite3OsFileSize in E5. apply bind_inv in E5 as (x' & st7 & E6 & E5). rewrite bind_gets in E5. injection E5 as _ _ <-. by eapply outcome_shielded. }
  apply bind_inv in E as (rc4 & st4 & E4 & E). assert (shield st4) as Hs4.
  { eapply on_ok_shielded; [exact Hs3|exact E4|]. intros st5 a st6 Hs5 E5. by eapply backfill_loop_shielded. }
  eapply on_ok_shielded; [exact Hs4|exact E|]. intros st5 a st6 Hs5 E5. rewrite !bind_gets in E5. apply bind_inv in E5 as (rc5 & st7 & E6 & E5).
  assert (shield st7) as Hs7.
  { revert E6. destruct (mx =? mxFrame (shm_hdr0 (shm st5))); intros E6; [|by injection E6 as _ <-]. apply bind_inv in E6 as (rc6 & st8 & E7 & E6). apply (os_update_shielded _ _ _ _ Hs5) in E7; [|intros st9 Hs9; by destruct Hs9].
    eapply on_ok_shielded; [exact E7|exact E6|exact Hsync]. }
  eapply on_ok_shielded; [exact Hs7|exact E5|]. intros st8 a8 st9 Hs8 E8. injection E8 as _ <-. by destruct Hs8.
Qed.

(** The copying with its lock. *)
Lemma locked_copy_shielded (xBusy : list bool) pIter sync_flags sz mxPage mx rc0 st rc xB st' : shield st →
  (m ← gets shm;
   if nBackfill (ckpt m) <? mx then
     '(rc, xBusy) ← walBusyLock xBusy (WAL_READ_LOCK 0) 1;
     if rc =? SQLITE_OK then
       rc ← backfill pIter sync_flags sz mxPage mx;
       walUnlockExclusive (WAL_READ_LOCK 0) 1;;
       mret (rc, xBusy)
     else mret (rc, xBusy)
   else mret (rc0, xBusy)) st = Some (rc, xB, st') → shield st'.
Proof.
  intros Hs E. rewrite bind_gets in E. destruct (_ <? _); [|by injection E as _ _ <-]. apply bind_inv in E as ([rc1 xB1] & st1 & E1 & E).
  destruct (walBusyLock_shielded _ _ _ _ _ _ _ Hs E1) as [Hs1 Hr1]. destruct (Z.eqb_spec rc1 SQLITE_OK) as [->|]; [|by injection E as _ _ <-].
  apply bind_inv in E as (rc2 & st2 & E2 & E). apply bind_inv in E as (u & st3 & E3 & E). injection E as _ _ <-.
  eapply walUnlock_shielded; [|exact E3]. eapply backfill_shielded; [|exact Hs1|exact E2]. intros Hi. unfold WAL_READ_LOCK in Hr1. by apply Hr1; [lia..|].
Qed.
End shield.

Section restart.
Context `{Machine} (has_bswap : bool).
Context (i v : Z) (w d : list Z) (T : list lock) (Hheld : 0 ≤ i → held_by_others T (WAL_READ_LOCK i)) (Hi5 : i < WAL_NREADER).

(** With a reader of the log there is no restart; one of the database file does not
    see it. *)
Lemma restart_shielded eMode xBusy salt1 st rc st' : shielded i v w d T st → checkpoint_restart has_bswap eMode xBusy salt1 st = Some (rc, st') → shielded i v w d T st'.
Proof.
  intros Hs E. unfold checkpoint_restart in E. rewrite !bind_gets in E. destruct (_ <? _); [by injection E as _ <-|].
  destruct (SQLITE_CHECKPOINT_RESTART <=? eMode); [|by injection E as _ <-]. apply bind_inv in E as ([rc1 xB1] & st1 & E1 & E).
  destruct (walBusyLock_shielded _ _ _ _ _ Hheld _ _ _ _ _ _ _ Hs E1) as [Hs1 Hr1]. destruct (Z.eqb_spec rc1 SQLITE_OK) as [->|]; [|by injection E as _ <-].
  assert (i < 1) as Hi by (destruct (Z.lt_ge_cases i 1); [done|]; exfalso; unfold WAL_READ_LOCK, WAL_NREADER in *; by apply Hr1; [lia..|]).
  apply bind_inv in E as (rc2 & st2 & E2 & E). apply bind_inv in E as (u & st3 & E3 & E). injection E as _ <-. eapply walUnlock_shielded; [|exact E3].
  destruct (_ =? _); [|by injection E2 as _ <-]. apply bind_inv in E2 as (u2 & st4 & E4 & E2).
  unfold sqlite3OsTruncate_wal in E2. eapply os_update_shielded; [| |exact E2]; [|intros st5 [H1 H2 H3 H4 H5 H6]; split; cbn; auto; intros; lia].
  unfold walRestartHdr in E4. rewrite bind_gets in E4. apply bind_inv in E4 as (x & st5 & E5 & E4). apply bind_inv in E4 as (y & st6 & E6 & E4).
  assert (st5 = st1) as -> by (unfold lift in E5; destruct (get4 _ _ _); [by injection E5 as _ <-|done]).
  assert (st6 = st1) as -> by (unfold lift in E6; destruct (put4 _ _ _ _); [by injection E6 as _ <-|done]).
  rewrite bind_with_wal in E4. apply bind_inv in E4 as (z & st7 & E7 & E4). injection E4 as _ <-. unfold walIndexWriteHdr in E7.
  rewrite bind_with_wal, bind_gets, bind_with_shm in E7. apply bind_inv in E7 as (z2 & st8 & E8 & E7). injection E7 as _ <-.
  destruct Hs1 as [H1 H2 H3 H4 H5 H6]. unfold walShmBarrier in E8. rewrite bind_gets in E8.
  assert (theirs st8 = T ∧ others st8 = [] ∧ pDbFd st8 = pDbFd st1 ∧ exclusiveMode (wal st8) = exclusiveMode (wal st1)) as (Et & Eo & Ed & Ex).
  { destruct (negb _); [|by injection E8 as _ <-]. unfold interfere in E8. cbn in E8. rewrite H3 in E8. by injection E8 as _ <-. }
  split; cbn; [exact Et|intros Hi0; rewrite Ex; by apply H2|exact Eo|intros; lia|intros; lia|intros Hi0; rewrite Ed; by apply H6].
Qed.
End restart.

(** ** Locks and marks *)

Section marks.
Implicit Types (st : St) (xBusy : list bool) (i j mx : Z).

Definition quiet st st' : Prop :=
  wal st' = wal st ∧ shm st' = shm st ∧ pWalFd st' = pWalFd st ∧ pDbFd st' = pDbFd st ∧ others st' = others st.

Lemma quiet_trans st1 st2 st3 : quiet st1 st2 → quiet st2 st3 → quiet st1 st3.
Proof. unfold quiet. intros (H1 & H2 & H3 & H4 & H5) (E1 & E2 & E3 & E4 & E5). by rewrite E1, E2, E3, E4, E5. Qed.

(** No failures are to come and no lock of others is in the way. *)
Definition calm st : Prop := rcs st = [] ∧ all_free st.

Lemma walBusyLock_spec idx n xBusy : ∀ st, others st = [] →
  ∃ rc xB st', walBusyLock xBusy idx n st = Some (rc, xB, st') ∧ quiet st st' ∧ (calm st → rc = SQLITE_OK ∧ calm st').
Proof.
  induction xBusy as [|b l IH]; intros st Ho; cbn [walBusyLock]; unfold walLockExclusive;
    destruct (walLock_result idx n Exclusive st Ho) as (rc & ls & o & E & Hc & _); set (st1 := set_locks (set_rcs st o) ls) in E;
    assert (quiet st st1) as Hq by (by split_and!); assert (calm st → rc = SQLITE_OK ∧ calm st1) as Hr by (intros Hn; destruct (Hc Hn) as [-> ->]; split; [done|by split; [|apply Hn]]);
    rewrite (bind_some _ _ _ _ _ E).
  - eexists _, _, _. split; [done|]. done.
  - destruct (Z.eqb_spec rc SQLITE_BUSY) as [->|]; [|eexists _, _, _; split; [done|]; done].
    destruct b; [|eexists _, _, _; split; [done|]; done].
    destruct (IH st1) as (rc2 & xB & st2 & E2 & Hq2 & Hr2); [done|].
    eexists _, _, _. split; [done|]. split; [by eapply quiet_trans|]. intros Hn. destruct (Hr Hn) as [? _]. done.
Qed.

(** Only the read marks change. *)
Definition marks_only st st' : Prop :=
  wal st' = wal st ∧ (pWalFd st', pDbFd st', others st') = (pWalFd st, pDbFd st, others st) ∧
  (shm_hdr0 (shm st'), shm_hdr1 (shm st'), pages (shm st')) = (shm_hdr0 (shm st), shm_hdr1 (shm st), pages (shm st)) ∧
  nBackfill (ckpt (shm st')) = nBackfill (ckpt (shm st)) ∧ nBackfillAttempted (ckpt (shm st')) = nBackfillAttempted (ckpt (shm st)) ∧
  length (aReadMark (ckpt (shm st'))) = length (aReadMark (ckpt (shm st))).

Lemma marks_only_trans st1 st2 st3 : marks_only st1 st2 → marks_only st2 st3 → marks_only st1 st3.
Proof. unfold marks_only. intros (H1 & H2 & H3 & H4 & H5 & H6) (E1 & E2 & E3 & E4 & E5 & E6). by rewrite E1, E2, E3, E4, E5, E6. Qed.

Lemma quiet_marks st st' : quiet st st' → marks_only st st'.
Proof. intros (H1 & H2 & H3 & H4 & H5). unfold marks_only. by rewrite H1, H2, H3, H4, H5. Qed.

(** The mark [i], if there is one. *)
Definition mark st i : Z := default 0 (aReadMark (ckpt (shm st)) !! Z.to_nat i).

Definition marks_fine st : Prop := length (aReadMark (ckpt (shm st))) = 5%nat ∧ Forall (uint 32) (aReadMark (ckpt (shm st))).

Lemma read_mark_run i st : marks_fine st → 0 ≤ i < 5 → read_mark i st = Some (mark st i, st) ∧ uint 32 (mark st i).
Proof.
  intros [Hl Hu] Hi. unfold read_mark, mark. run. unfold get. destruct (Z.ltb_spec i 0); [lia|].
  destruct (lookup_lt_is_Some_2 (aReadMark (ckpt (shm st))) (Z.to_nat i)) as [v Hv]; [lia|]. rewrite Hv. split; [done|].
  exact (Forall_lookup_1 _ _ _ _ Hu Hv).
Qed.

(** Taking the lock of the mark [i], setting it and releasing the lock. *)
Lemma set_mark_run i v st (k : M (bool * Z * Z * list bool)) : others st = [] → marks_fine st → 0 ≤ i < 5 → uint 32 v →
  ∃ st', (set_read_mark i v;; walUnlockExclusive (WAL_READ_LOCK i) 1;; k) st = k st' ∧ marks_only st st' ∧ (calm st → calm st') ∧ marks_fine st' ∧
    mark st' i = v ∧ ∀ j, 0 ≤ j → j ≠ i → mark st' j = mark st j.
Proof.
  intros Ho [Hl Hu] Hi Hv. unfold set_read_mark, walUnlockExclusive. run. set (st1 := set_shm st _).
  pose proof (walUnlock_run (WAL_READ_LOCK i) 1 st1) as Eu. rewrite (bind_some _ _ _ _ _ Eu). clear Eu. set (st2 := if negb (exclusiveMode (wal st1) =? 0) then st1 else set_locks st1 _). exists st2.
  assert (shm st2 = shm st1 ∧ wal st2 = wal st ∧ (pWalFd st2, pDbFd st2, others st2) = (pWalFd st, pDbFd st, others st) ∧ (calm st → calm st2)) as (E1 & E2 & E3 & E4)
    by (unfold st2; destruct (negb _); done).
  split; [done|]. split; [unfold marks_only; rewrite E1, E2, E3; split_and!; try done; cbn; by rewrite length_insert|]. split; [done|].
  unfold marks_fine, mark. rewrite E1. cbn. rewrite length_insert. split; [split; [done|by apply Forall_insert]|].
  split; [by rewrite list_lookup_insert_eq by lia|]. intros j Hj Hne. by rewrite list_lookup_insert_ne by lia.
Qed.

(** The marks from [i] on are no obstacle for the frame found, which is at most
    [mx]. *)
Lemma safe_frame_spec (n : nat) : ∀ st i xBusy mx rc, others st = [] → marks_fine st → 1 ≤ i → i + Z.of_nat n = 5 → uint 32 mx →
  ∃ (failed : bool) rc' mx' xB st', safe_frame n i xBusy mx rc st = Some (failed, rc', mx', xB, st') ∧ marks_only st st' ∧ marks_fine st' ∧
    (failed = true → rc' ≠ SQLITE_OK) ∧ mx' ≤ mx ∧ uint 32 mx' ∧
    (failed = false → ∀ j, i ≤ j < 5 → mx' ≤ mark st' j) ∧ (∀ j, 0 ≤ j < i → mark st' j = mark st j) ∧
    (calm st → failed = false ∧ mx' = mx ∧ calm st' ∧ (rc = SQLITE_OK → rc' = SQLITE_OK)) ∧
    (rc = SQLITE_OK ∨ rc = SQLITE_BUSY → failed = true ∨ rc' = SQLITE_OK ∨ rc' = SQLITE_BUSY).
Proof.
  induction n as [|n IH]; intros st i xBusy mx rc Ho Hm Hi Hn Hmx; cbn [safe_frame].
  { exists false, rc, mx, xBusy, st. split; [done|]. split; [by apply quiet_marks|]. split; [done|]. split_and!; try done; try lia; naive_solver. }
  destruct (read_mark_run i st Hm ltac:(lia)) as [E Hy]. rewrite (bind_some _ _ _ _ _ E). destruct (Z.ltb_spec (mark st i) mx) as [Hlt|Hge].
  - destruct (walBusyLock_spec (WAL_READ_LOCK i) 1 xBusy st Ho) as (rc1 & xB1 & st1 & E1 & Hq1 & Hr1). rewrite (bind_some _ _ _ _ _ E1).
    pose proof Hq1 as (Hw1 & Hs1 & Hf1 & Hd1 & Ho1). assert (marks_fine st1) as Hm1 by (unfold marks_fine; by rewrite Hs1).
    destruct (Z.eqb_spec rc1 SQLITE_OK) as [->|Hrc1]; [|destruct (Z.eqb_spec rc1 SQLITE_BUSY) as [->|Hrc2]].
    + destruct (set_mark_run i (if i =? 1 then mx else READMARK_NOT_USED) st1 (safe_frame n (i + 1) xB1 mx SQLITE_OK))
        as (st2 & E2 & Hmo2 & Hr2 & Hm2 & Hmi & Hmj); [by rewrite Ho1|done|lia|destruct (i =? 1); [done|by split]|].
      rewrite E2. pose proof (proj1 (proj2 Hmo2)) as Hfiles.
      destruct (IH st2 (i + 1) xB1 mx SQLITE_OK) as (failed & rc' & mx' & xB & st' & -> & Hmo & Hmf & Hfail & Hle & Hu' & Hall & Hbelow & Hok & Hrc');
        [injection Hfiles as _ _ ->; by rewrite Ho1|done|lia|lia|done|].
      exists failed, rc', mx', xB, st'. split; [done|].
      split; [eapply marks_only_trans; [by apply quiet_marks|]; by eapply marks_only_trans|]. split_and!; try done.
      * intros Hf j Hj. destruct (Z.eq_dec j i) as [->|]; [|apply Hall; [done|lia]]. rewrite Hbelow by lia. rewrite Hmi.
        unfold uint in Hu'. destruct (i =? 1); [done|]. unfold READMARK_NOT_USED. lia.
      * intros j Hj. rewrite Hbelow by lia. rewrite Hmj by lia. unfold mark. by rewrite Hs1.
      * intros Hn'. destruct (Hr1 Hn') as [_ Hn1]. destruct (Hok (Hr2 Hn1)) as (-> & -> & Hcalm & Hx). split; [done|]. split; [done|]. split; [exact Hcalm|intros _; by apply Hx].
      * intros _. apply Hrc'. by left.
    + destruct (IH st1 (i + 1) [] (mark st i) SQLITE_BUSY) as (failed & rc' & mx' & xB & st' & -> & Hmo & Hmf & Hfail & Hle & Hu' & Hall & Hbelow & Hok & Hrc');
        [by rewrite Ho1|done|lia|lia|done|].
      exists failed, rc', mx', xB, st'. split; [done|]. split; [eapply marks_only_trans; [by apply quiet_marks|done]|]. split_and!; try done; try lia.
      * intros Hf j Hj. destruct (Z.eq_dec j i) as [->|]; [|apply Hall; [done|lia]]. rewrite Hbelow by lia. unfold mark. rewrite Hs1. exact Hle.
      * intros j Hj. rewrite Hbelow by lia. unfold mark. by rewrite Hs1.
      * intros Hn'. by destruct (Hr1 Hn').
      * intros _. apply Hrc'. by right.
    + exists true, rc1, mx, xB1, st1. split; [done|]. split; [by apply quiet_marks|]. split_and!; try done; try lia.
      * intros j Hj. unfold mark. by rewrite Hs1.
      * intros Hn'. by destruct (Hr1 Hn').
  - destruct (IH st (i + 1) xBusy mx rc) as (failed & rc' & mx' & xB & st' & -> & Hmo & Hmf & Hfail & Hle & Hu' & Hall & Hbelow & Hok & Hrc'); try done; try lia.
    exists failed, rc', mx', xB, st'. split; [done|]. split_and!; try done.
    + intros Hf j Hj. destruct (Z.eq_dec j i) as [->|]; [|apply Hall; [done|lia]]. rewrite Hbelow by lia. lia.
    + intros j Hj. apply Hbelow. lia.
Qed.
End marks.

(** ** The checkpoint *)

Section checkpoint.
Context `{Machine} (has_bswap : bool).
Context (be : bool) (sz nCkpt : Z) (salt : list Z) (fs : list log_frame) (rest : list Z) (more : list Z).
Context (Hpsz : page_size sz) (Hsalt : length salt = 8%nat) (Hfs : Forall (valid_frame sz) fs).
Context (Hmax : Forall (λ f, f_pgno f < 0xFFFFFFFF) fs).
Implicit Types (st : St) (xBusy : list bool).

Abbreviation log := (f_pgno <$> fs).

(** The connection has read the header of a snapshot with the frames [fs]; the
    index may have [more]. *)
Record ckpt_ready st : Prop := {
  cr_conn : conn_ok (wal st) (shm st);
  cr_log : log_ok (shm st) (log ++ more);
  cr_len : len (log ++ more) + 1 < 2 ^ 31;
  cr_mx : mxFrame (hdr (wal st)) = Z.of_nat (length fs);
  cr_size : walPagesize (wal st) = sz;
  cr_pages : 0 ≤ nPage (hdr (wal st));
  cr_salt : length (aSalt (hdr (wal st))) = 8%nat ∧ bytes_ok (aSalt (hdr (wal st)));
  cr_file : pWalFd st = log_bytes be sz nCkpt salt fs ++ rest;
  cr_marks : marks_fine st;
  cr_backfill : 0 ≤ nBackfill (ckpt (shm st)) ≤ Z.of_nat (length fs);
  cr_others : others st = []
}.

(** All that the checkpoint does not change. *)
Definition framed st st' : Prop :=
  same_conn (wal st) (wal st') ∧ (pWalFd st', others st') = (pWalFd st, others st) ∧
  (shm_hdr0 (shm st'), shm_hdr1 (shm st'), pages (shm st')) = (shm_hdr0 (shm st), shm_hdr1 (shm st), pages (shm st)).

Lemma marks_framed st st' : marks_only st st' → framed st st'.
Proof.
  intros (H1 & H2 & H3 & _). injection H2 as E1 E2 E3. unfold framed. rewrite H1, E1, E3, H3. split; [apply same_conn_refl|done].
Qed.

Lemma framed_trans st1 st2 st3 : framed st1 st2 → framed st2 st3 → framed st1 st3.
Proof. intros (H1 & H2 & H3) (E1 & E2 & E3). split; [by eapply same_conn_trans|]. by rewrite E2, E3. Qed.

(** The frames up to [mx] have been copied, or some of them if not [all]. *)
Definition copied_to (mx : Z) (all : bool) st st' : Prop :=
  let nB := nBackfill (ckpt (shm st)) in
  nB ≤ mx ≤ Z.of_nat (length fs) ∧ nBackfill (ckpt (shm st')) = (if all then mx else nB) ∧
  copied sz fs all (nPage (hdr (wal st))) nB mx 0 (pDbFd st) (pDbFd st') ∧
  (pDbFd st' = pDbFd st ∨ nBackfillAttempted (ckpt (shm st')) = mx ∧ ∀ j, 1 ≤ j < 5 → mx ≤ mark st' j) ∧
  (all = true → nB < mx → mx = mxFrame (shm_hdr0 (shm st)) → file_size (pDbFd st') = nPage (hdr (wal st)) * sz) ∧
  (mx ≠ mxFrame (shm_hdr0 (shm st)) → kept_beyond sz (nPage (hdr (wal st))) (pDbFd st) (pDbFd st')).

Lemma copied_to_none st st' : 0 ≤ nBackfill (ckpt (shm st)) ≤ Z.of_nat (length fs) →
  nBackfill (ckpt (shm st')) = nBackfill (ckpt (shm st)) → pDbFd st' = pDbFd st → copied_to (nBackfill (ckpt (shm st))) true st st'.
Proof.
  intros HB E1 E2. unfold copied_to. rewrite E1, E2. split; [lia|]. split; [done|]. split; [|split; [by left|split; [lia|done]]].
  apply copied_none. intros _ q [_ Hq]. lia.
Qed.

Lemma copied_weaken (all all' : bool) n nB mx P d d' : (all' = true → all = true) → copied sz fs all n nB mx P d d' → copied sz fs all' n nB mx P d d'.
Proof. intros Ha Hc q Hq. destruct (Hc q Hq) as [?|[Hn E]]; [by left|right; auto]. Qed.

(** Steps of [backfill] that only have an outcome. *)
Lemma sync_step sync_flags st : ∃ rc o, (if negb (sync_flags =? 0) then sqlite3OsSync else mret SQLITE_OK) st = Some (rc, set_rcs st o) ∧
  (rcs st = [] → rc = SQLITE_OK ∧ o = []).
Proof.
  destruct (negb _).
  - unfold sqlite3OsSync, outcome. destruct (next_rc (rcs st)) as [rc o] eqn:E. exists rc, o. split; [done|]. by apply next_rc_nil.
  - exists SQLITE_OK, (rcs st). split; [|by intros ->]. by destruct st.
Qed.

Lemma os_update_run (f : St → St) st : os_update f st =
  let '(rc, o) := next_rc (rcs st) in Some (if rc =? SQLITE_OK then (SQLITE_OK, f (set_rcs st o)) else (rc, set_rcs st o)).
Proof. unfold os_update. rewrite bind_outcome. destruct (next_rc (rcs st)) as [rc o]. unfold on_ok. by destruct (rc =? SQLITE_OK). Qed.

Lemma truncate_step (b : bool) sync_flags n st : 0 ≤ n →
  ∃ rc st', (if b then rc ← sqlite3OsTruncate_db (n * sz); on_ok rc (if negb (sync_flags =? 0) then sqlite3OsSync else mret SQLITE_OK)
             else mret SQLITE_OK) st = Some (rc, st') ∧
    (wal st', shm st', pWalFd st', others st') = (wal st, shm st, pWalFd st, others st) ∧ (rcs st = [] → rc = SQLITE_OK ∧ rcs st' = []) ∧
    (∀ q, 1 ≤ q ≤ n → db_page (pDbFd st') sz q = db_page (pDbFd st) sz q) ∧ (rc = SQLITE_OK → b = true → file_size (pDbFd st') = n * sz) ∧
    (b = false → pDbFd st' = pDbFd st).
Proof.
  intros Hn. destruct Hpsz as [Hsz _]. destruct b; [|exists SQLITE_OK, st; by split_and!]. unfold sqlite3OsTruncate_db.
  pose proof (os_update_run (λ s, set_pDbFd s (file_truncate (pDbFd s) (n * sz))) st) as E. destruct (next_rc (rcs st)) as [rc o] eqn:Eo.
  pose proof (next_rc_nil _ _ _ Eo) as Ho. destruct (Z.eqb_spec rc SQLITE_OK) as [->|Hrc]; rewrite (bind_some _ _ _ _ _ E); unfold on_ok.
  - change (SQLITE_OK =? SQLITE_OK) with true. cbn iota. set (st1 := set_pDbFd _ _). destruct (sync_step sync_flags st1) as (rc2 & o2 & -> & Ho2).
    exists rc2, (set_rcs st1 o2). split; [done|]. split; [done|]. split; [intros Hr; by apply Ho2, Ho|]. split.
    + intros q Hq. cbn. apply db_page_truncate; lia.
    + split; [|done]. intros _ _. cbn. apply file_truncate_size. lia.
  - destruct (Z.eqb_spec rc SQLITE_OK); [done|]. exists rc, (set_rcs st o). by split_and!.
Qed.

Lemma on_ok_error rc (k : M Z) st : rc ≠ SQLITE_OK → on_ok rc k st = Some (rc, st).
Proof. intros Hrc. unfold on_ok. by destruct (Z.eqb_spec rc SQLITE_OK). Qed.

Lemma size_step st : ∃ rc o, ('(rc, nSize) ← sqlite3OsFileSize pDbFd; mret rc) st = Some (rc, set_rcs st o) ∧
  (rcs st = [] → rc = SQLITE_OK ∧ o = []).
Proof.
  unfold sqlite3OsFileSize. rewrite bind_assoc, bind_outcome. destruct (next_rc (rcs st)) as [rc o] eqn:E. run. exists rc, o.
  split; [done|]. by apply next_rc_nil.
Qed.

(** The two checks before the loop. *)
Lemma before_loop sync_flags st (k : Z → M Z) :
  ∃ rc o, (rc ← (if negb (sync_flags =? 0) then sqlite3OsSync else mret SQLITE_OK);
           rc ← on_ok rc ('(rc, nSize) ← sqlite3OsFileSize pDbFd; mret rc); k rc) st = k rc (set_rcs st o) ∧
    (rcs st = [] → rc = SQLITE_OK ∧ o = []).
Proof.
  destruct (sync_step sync_flags st) as (rc & o & E & Ho). rewrite (bind_some _ _ _ _ _ E). destruct (Z.eq_dec rc SQLITE_OK) as [->|Hrc].
  - destruct (size_step (set_rcs st o)) as (rc2 & o2 & E2 & Ho2).
    assert (on_ok SQLITE_OK ('(rc, nSize) ← sqlite3OsFileSize pDbFd; mret rc) (set_rcs st o) = Some (rc2, set_rcs st o2)) as E3 by exact E2.
    rewrite (bind_some _ _ _ _ _ E3). exists rc2, o2. split; [done|]. intros Hr. by apply Ho2, Ho.
  - rewrite (bind_some _ _ _ _ _ (on_ok_error rc _ _ Hrc)). by exists rc, o.
Qed.

Lemma backfill_spec st st0 pIter sync_flags mx : framed st0 st → others st = [] → pWalFd st = log_bytes be sz nCkpt salt fs ++ rest →
  iterator_ok log pIter → iPrior pIter = 0 → mxFrame (hdr (wal st)) = Z.of_nat (length fs) → 0 ≤ nPage (hdr (wal st)) → 0 ≤ nBackfill (ckpt (shm st)) →
  let nB := nBackfill (ckpt (shm st)) in let n := nPage (hdr (wal st)) in
  ∃ rc st', backfill pIter sync_flags sz n mx st = Some (rc, st') ∧
    framed st0 st' ∧ aReadMark (ckpt (shm st')) = aReadMark (ckpt (shm st)) ∧
    nBackfill (ckpt (shm st')) = (if rc =? SQLITE_OK then mx else nB) ∧ nBackfillAttempted (ckpt (shm st')) = mx ∧
    copied sz fs (rc =? SQLITE_OK) n nB mx 0 (pDbFd st) (pDbFd st') ∧ (rcs st = [] → rc = SQLITE_OK ∧ rcs st' = []) ∧
    (rc = SQLITE_OK → mx = mxFrame (shm_hdr0 (shm st)) → file_size (pDbFd st') = n * sz) ∧
    (mx ≠ mxFrame (shm_hdr0 (shm st)) → kept_beyond sz n (pDbFd st) (pDbFd st')).
Proof.
  intros (Hf1 & Hf2 & Hf3) Ho Hfile Hit Hi0 Hmx Hn HnB nB n. unfold backfill, set_nBackfillAttempted. run. set (st1 := set_shm st _). fold nB.
  destruct (before_loop sync_flags st1 (λ rc, rc ← on_ok rc (backfill_loop (S (Z.to_nat (mxFrame (hdr (wal st))))) pIter 0 sz n nB mx);
    on_ok rc (m ← gets shm; pWal ← gets wal;
      rc ← (if mx =? mxFrame (shm_hdr0 m) then rc ← sqlite3OsTruncate_db (nPage (hdr pWal) * sz);
              on_ok rc (if negb (sync_flags =? 0) then sqlite3OsSync else mret SQLITE_OK) else mret SQLITE_OK);
      on_ok rc (set_nBackfill mx;; mret SQLITE_OK)))) as (rc & o & -> & Hro).
  destruct (Z.eq_dec rc SQLITE_OK) as [->|Hrc].
  2: { rewrite (bind_some _ _ _ _ _ (on_ok_error rc _ _ Hrc)), on_ok_error by done. exists rc, (set_rcs st1 o). split; [done|]. split; [done|].
       split; [done|]. pose proof Hrc as ->%Z.eqb_neq. split_and!; try done. by apply copied_none. }
  change (on_ok SQLITE_OK ?k) with k. set (st2 := set_rcs st1 o). destruct Hpsz as [Hsz _].
  destruct (backfill_loop_spec be sz nCkpt salt fs rest ltac:(lia) Hsalt Hfs Hmax n nB mx Hn HnB (S (Z.to_nat (mxFrame (hdr (wal st))))) st2 pIter 0 Hit)
    as (rc3 & st3 & E3 & (Hw3 & Hs3 & Hf3' & Ho3 & Hl3) & Hr3 & Hc3 & Hb3); [|done|].
  { rewrite Hmx. unfold ahead_in. pose proof (length_filter (λ q, iPrior pIter < q) log) as Hlf. rewrite length_fmap in Hlf. lia. }
  rewrite (bind_some _ _ _ _ _ E3). cbn beta. rewrite Hi0 in Hc3.
  assert (framed st0 st3) as Hf03.
  { unfold framed. rewrite Hw3, Hs3, Hf3', Ho3. split; [exact Hf1|]. split; [exact Hf2|exact Hf3]. }
  destruct (Z.eq_dec rc3 SQLITE_OK) as [->|Hrc3].
  2: { rewrite on_ok_error by done. exists rc3, st3. split; [done|]. split; [done|]. rewrite Hs3. split; [done|].
       pose proof Hrc3 as E%Z.eqb_neq. rewrite E in Hc3 |- *. split_and!; try done. intros Hr. destruct (Hro Hr) as [_ ->]. by apply Hr3. }
  unfold on_ok at 1. change (SQLITE_OK =? SQLITE_OK) with true in *. cbn iota. run. rewrite Hs3. change (shm_hdr0 (shm st2)) with (shm_hdr0 (shm st)).
  rewrite Hw3. change (nPage (hdr (wal st2))) with n.
  destruct (truncate_step (mx =? mxFrame (shm_hdr0 (shm st))) sync_flags n st3 Hn) as (rc4 & st4 & E4 & Heq4 & Hr4 & Hp4 & Hsz4 & Hb4). rewrite (bind_some _ _ _ _ _ E4). cbn beta.
  injection Heq4 as Hw4 Hs4 Hf4 Ho4.
  assert (copied sz fs true n nB mx 0 (pDbFd st) (pDbFd st4)) as Hc4.
  { intros q Hq. destruct (Hc3 q Hq) as [[Hw E] | [Hw E]]; [left|right]; (split; [done|]); by rewrite Hp4. }
  assert (mx ≠ mxFrame (shm_hdr0 (shm st)) → kept_beyond sz n (pDbFd st) (pDbFd st4)) as Hb04.
  { intros Hne%Z.eqb_neq. rewrite (Hb4 Hne). exact Hb3. }
  assert (rcs st = [] → rc4 = SQLITE_OK ∧ rcs st4 = []) as Hr04.
  { intros Hr. destruct (Hro Hr) as [_ Hr2]. destruct (Hr3 Hr2) as [_ Hr3']. by apply Hr4. }
  destruct (Z.eq_dec rc4 SQLITE_OK) as [->|Hrc4].
  - unfold on_ok. change (SQLITE_OK =? SQLITE_OK) with true. cbn iota. unfold set_nBackfill. run. eexists SQLITE_OK, _. split; [done|].
    split; [|split_and!; try done].
    + unfold framed. cbn. rewrite Hw4, Hs4, Hf4, Ho4. apply Hf03.
    + cbn. by rewrite Hs4, Hs3.
    + cbn. by rewrite Hs4, Hs3.
    + intros _ E. apply Hsz4; [done|]. by apply Z.eqb_eq.
  - rewrite on_ok_error by done. exists rc4, st4. split; [done|]. pose proof Hrc4 as ->%Z.eqb_neq. rewrite Hs4, Hs3. split_and!; try done.
    + unfold framed. rewrite Hw4, Hs4, Hf4, Ho4. apply Hf03.
    + by eapply copied_weaken.
Qed.

Lemma framed_quiet st st1 st2 : framed st st1 → quiet st1 st2 → framed st st2.
Proof. intros Hf Hq. eapply framed_trans; [done|]. by apply marks_framed, quiet_marks. Qed.

(** The state in which the frame that is safe has been found. *)
Record found st st1 (mx : Z) : Prop := {
  fd_framed : framed st st1;
  fd_db : pDbFd st1 = pDbFd st;
  fd_backfill : nBackfill (ckpt (shm st1)) = nBackfill (ckpt (shm st));
  fd_marks : ∀ j, 1 ≤ j < 5 → mx ≤ mark st1 j;
  fd_mx : mx ≤ Z.of_nat (length fs)
}.

(** The copying with its lock. *)
Lemma locked_backfill_spec st st1 pIter xBusy sync_flags mx rc0 : ckpt_ready st → found st st1 mx → iterator_ok log pIter → iPrior pIter = 0 →
  let n := nPage (hdr (wal st)) in
  ∃ rc xB st', ((if nBackfill (ckpt (shm st1)) <? mx then
        '(rc, xBusy) ← walBusyLock xBusy (WAL_READ_LOCK 0) 1;
        if rc =? SQLITE_OK then
          rc ← backfill pIter sync_flags sz n mx;
          walUnlockExclusive (WAL_READ_LOCK 0) 1;;
          mret (rc, xBusy)
        else mret (rc, xBusy)
      else mret (rc0, xBusy)) : M (Z * list bool)) st1 = Some (rc, xB, st') ∧ framed st st' ∧
    (calm st1 → rc0 = SQLITE_OK → rc = SQLITE_OK ∧ rcs st' = []) ∧
    ∃ mx' all, copied_to mx' all st st' ∧ (rc = SQLITE_OK → all = true ∧ mx' = Z.max mx (nBackfill (ckpt (shm st)))).
Proof.
  intros Hr [Hf Hd HB Hmk Hmx] Hit Hi0 n. pose proof (cr_backfill _ Hr) as HnB. rewrite HB.
  assert (others st1 = []) as Ho1 by (rewrite <- (cr_others _ Hr); by injection (proj1 (proj2 Hf))).
  destruct (Z.ltb_spec (nBackfill (ckpt (shm st))) mx) as [Hlt|Hge].
  2: { exists rc0, xBusy, st1. split; [done|]. split; [done|]. split; [by intros [Hn _] ->|]. exists (nBackfill (ckpt (shm st))), true.
       split; [by apply copied_to_none|]. intros _. split; [done|lia]. }
  destruct (walBusyLock_spec (WAL_READ_LOCK 0) 1 xBusy st1 Ho1) as (rc & xB & st2 & E2 & Hq2 & Hr2). rewrite (bind_some _ _ _ _ _ E2).
  pose proof Hq2 as (Hw2 & Hs2 & Hf2 & Hd2 & Ho2). pose proof (framed_quiet _ _ _ Hf Hq2) as Hf02.
  destruct (Z.eqb_spec rc SQLITE_OK) as [->|Hrc].
  2: { exists rc, xB, st2. split; [done|]. split; [done|]. split; [intros Hn _; by destruct (Hr2 Hn)|].
       exists (nBackfill (ckpt (shm st))), true. split; [|done]. apply copied_to_none; [done|by rewrite Hs2|by rewrite Hd2]. }
  destruct Hf02 as (Hsc & Hfiles & Hshm). injection Hfiles as Hfile2 Hoth2. injection Hshm as Hh0 Hh1 Hpg.
  assert (hdr (wal st2) = hdr (wal st)) as Hhdr by apply Hsc.
  destruct (backfill_spec st2 st pIter sync_flags mx) as (rc3 & st3 & E3 & Hf3 & Hm3 & HB3 & Hat3 & Hc3 & Hr3 & Hsz3 & Hb3); try done.
  - split; [done|]. by rewrite Hfile2, Hoth2, Hh0, Hh1, Hpg.
  - by rewrite Hoth2, (cr_others _ Hr).
  - by rewrite Hfile2, (cr_file _ Hr).
  - by rewrite Hhdr, (cr_mx _ Hr).
  - by rewrite Hhdr; apply (cr_pages _ Hr).
  - rewrite Hs2, HB. lia.
  - rewrite Hhdr in E3, Hc3, Hsz3, Hb3. fold n in E3, Hc3, Hsz3, Hb3. rewrite (bind_some _ _ _ _ _ E3). unfold walUnlockExclusive.
    pose proof (walUnlock_run (WAL_READ_LOCK 0) 1 st3) as Eu. rewrite (bind_some _ _ _ _ _ Eu). clear Eu.
    set (st4 := if negb (exclusiveMode (wal st3) =? 0) then st3 else set_locks st3 _).
    assert (quiet st3 st4 ∧ rcs st4 = rcs st3) as [Hq4 Hr4] by (unfold st4, quiet; by destruct (negb _)).
    pose proof Hq4 as (Hw4 & Hs4 & Hf4 & Hd4 & Ho4). rewrite Hs2, HB in HB3, Hc3. rewrite Hd2, Hd in Hc3, Hb3.
    eexists rc3, xB, st4. split; [done|]. split; [by eapply framed_quiet|].
    split; [intros Hn _; destruct (Hr2 Hn) as [_ [Hn2 _]]; rewrite Hr4; by apply Hr3|].
    exists mx, (rc3 =? SQLITE_OK). split; [|intros ->; split; [done|lia]]. unfold copied_to. fold n. rewrite Hs4, Hd4. split; [lia|]. split; [done|].
    split; [done|]. split.
    + right. split; [done|]. intros j Hj. unfold mark. rewrite Hs4, Hm3, Hs2. by apply Hmk.
    + split; [intros Hall _ E; apply Hsz3; [by apply Z.eqb_eq|]; by rewrite Hh0|]. rewrite <- Hh0. exact Hb3.
Qed.

Lemma checkpoint_frames_spec st xBusy sync_flags : ckpt_ready st → 1 ≤ Z.of_nat (length fs) →
  ∃ (out : bool) rc xB st', checkpoint_frames xBusy sync_flags sz st = Some (out, rc, xB, st') ∧ framed st st' ∧
    (out = true → rc ≠ SQLITE_OK) ∧ (calm st → out = false ∧ rc = SQLITE_OK ∧ rcs st' = [] ∧ nBackfill (ckpt (shm st')) = Z.of_nat (length fs)) ∧
    ∃ mx all, copied_to mx all st st'.
Proof.
  intros Hr Hlen. pose proof (cr_backfill _ Hr) as HnB. unfold checkpoint_frames.
  destruct (walIteratorInit_spec (wal st) (shm st) (log ++ more) (rcs st)) as (rc & pp & pWal' & o & E & Hconn & Hs & Ho & Hok & Herr);
    [apply Hr|apply Hr|rewrite (cr_mx _ Hr), length_app, length_fmap; lia|apply Hr|].
  rewrite (cr_mx _ Hr) in Hok. replace (take (Z.to_nat (Z.of_nat (length fs))) (log ++ more)) with log in Hok
    by (rewrite take_app_length'; [done|rewrite length_fmap; lia]).
  assert (index walIteratorInit st = Some (rc, pp, mkSt pWal' (shm st) (locks st) (pWalFd st) (pDbFd st) o (others st) (theirs st))) as Ei by (unfold index; by rewrite E).
  rewrite (bind_some _ _ _ _ _ Ei). clear Ei. set (st1 := mkSt _ _ _ _ _ _ _ _).
  assert (calm st → calm st1) as Hcalm by (intros [Hn Hfr]; by destruct (Ho Hn) as [_ ->]).
  assert (framed st st1) as Hf1 by (split; [exact Hs|done]).
  destruct (Z.eqb_spec rc SQLITE_OK) as [->|Hrc]; cbn [negb].
  2: { exists true, rc, xBusy, st1. split; [done|]. split; [done|]. split; [done|]. split; [intros [Hn _]; by destruct (Ho Hn)|].
       exists (nBackfill (ckpt (shm st))), true. by apply copied_to_none. }
  destruct (Hok eq_refl) as (pIter & -> & Hi0 & Hit). run. change (wal st1) with pWal'. assert (hdr pWal' = hdr (wal st)) as Hhdr by apply Hs. rewrite Hhdr, (cr_mx _ Hr).
  assert (len log + len more + 1 < 2 ^ 31) as Hl31 by (pose proof (cr_len _ Hr) as H1; rewrite length_app in H1; lia). rewrite length_fmap in Hl31.
  destruct (safe_frame_spec (Z.to_nat (WAL_NREADER - 1)) st1 1 xBusy (Z.of_nat (length fs)) SQLITE_OK)
    as (failed & rc2 & mx & xB & st2 & E2 & Hmo & Hmf & Hfail & Hle & Hu & Hall & _ & Hn2 & Hrc2); [apply (cr_others _ Hr)|apply (cr_marks _ Hr)|lia|done|unfold uint; lia|].
  rewrite (bind_some _ _ _ _ _ E2). pose proof (framed_trans _ _ _ Hf1 (marks_framed _ _ Hmo)) as Hf2.
  pose proof Hmo as (Hw2 & Hfl2 & _ & HB2 & _). injection Hfl2 as _ Hd2 _. change (ckpt (shm st1)) with (ckpt (shm st)) in HB2. change (pDbFd st1) with (pDbFd st) in Hd2.
  destruct failed.
  { exists true, rc2, xB, st2. split; [done|]. split; [done|]. split; [done|]. split; [intros Hn; by destruct (Hn2 (Hcalm Hn))|].
    exists (nBackfill (ckpt (shm st))), true. by apply copied_to_none. }
  run. destruct (locked_backfill_spec st st2 pIter xB sync_flags mx rc2 Hr) as (rc3 & xB3 & st3 & E3 & Hf3 & Hn3 & mx' & all & Hc3 & Hall3);
    [split; try done; by apply Hall|done|done|].
  rewrite (bind_some _ _ _ _ _ E3). eexists false, _, xB3, st3. split; [done|]. split; [done|]. split; [done|]. split.
  - intros Hn. destruct (Hn2 (Hcalm Hn)) as (_ & -> & Hn2' & Hrc). destruct (Hn3 Hn2' (Hrc eq_refl)) as [-> Hn3'].
    split_and!; try done. destruct (Hall3 eq_refl) as [-> ->]. destruct Hc3 as (_ & -> & _). lia.
  - by exists mx', all.
Qed.

Lemma walRestartHdr_run salt1 st : others st = [] → length (aSalt (hdr (wal st))) = 8%nat → bytes_ok (aSalt (hdr (wal st))) →
  ∃ st', walRestartHdr has_bswap salt1 st = Some ((), st') ∧ (pDbFd st', pWalFd st', rcs st', others st') = (pDbFd st, pWalFd st, rcs st, others st) ∧
    mxFrame (hdr (wal st')) = 0.
Proof.
  intros Ho Hl Hb. unfold walRestartHdr. run. rewrite get4_spec by (done || lia). run. rewrite put4_spec; [|unfold u32, wrap, uint; apply Z.mod_pos_bound; lia|lia].
  run. unfold walIndexWriteHdr. run. unfold walShmBarrier. run. set (st1 := set_shm _ _).
  rewrite (bind_some st1 st1 _ _ ()) by (destruct (negb _); [unfold interfere; cbn; by rewrite Ho|done]). run. eexists. split; [done|]. done.
Qed.

Lemma checkpoint_restart_spec eMode xBusy salt1 st : others st = [] → length (aSalt (hdr (wal st))) = 8%nat → bytes_ok (aSalt (hdr (wal st))) →
  ∃ rc st', checkpoint_restart has_bswap eMode xBusy salt1 st = Some (rc, st') ∧ pDbFd st' = pDbFd st ∧
    (rc = SQLITE_OK → mxFrame (hdr (wal st)) ≤ nBackfill (ckpt (shm st))) ∧
    (calm st → mxFrame (hdr (wal st)) ≤ nBackfill (ckpt (shm st)) → rc = SQLITE_OK) ∧
    (eMode ≠ SQLITE_CHECKPOINT_TRUNCATE → quiet st st') ∧
    (eMode = SQLITE_CHECKPOINT_TRUNCATE → rc = SQLITE_OK → pWalFd st' = [] ∧ mxFrame (hdr (wal st')) = 0).
Proof.
  intros Ho Hl Hb. unfold checkpoint_restart. run. destruct (Z.ltb_spec (nBackfill (ckpt (shm st))) (mxFrame (hdr (wal st)))) as [Hlt|Hge].
  { exists SQLITE_BUSY, st. split; [done|]. split; [done|]. split_and!; try done; lia. }
  destruct (Z.leb_spec SQLITE_CHECKPOINT_RESTART eMode) as [Hm|Hm].
  2: { exists SQLITE_OK, st. split; [done|]. split_and!; try done. intros ->. done. }
  destruct (walBusyLock_spec (WAL_READ_LOCK 1) (WAL_NREADER - 1) xBusy st Ho) as (rc & xB & st1 & E1 & Hq1 & Hr1). rewrite (bind_some _ _ _ _ _ E1).
  pose proof Hq1 as (Hw1 & Hs1 & Hf1 & Hd1 & Ho1). destruct (Z.eqb_spec rc SQLITE_OK) as [->|Hrc].
  2: { exists rc, st1. split; [done|]. split_and!; try done. intros Hn. by destruct (Hr1 Hn). }
  set (unlock := λ st2 : St, if negb (exclusiveMode (wal st2) =? 0) then st2 else set_locks st2 (locks_with (WAL_READ_LOCK 1) (WAL_NREADER - 1) Unlocked (locks st2))).
  assert (∀ st2 (rc2 : Z), (walUnlockExclusive (WAL_READ_LOCK 1) (WAL_NREADER - 1);; mret rc2) st2 = Some (rc2, unlock st2)) as Hul.
  { intros st2 rc2. unfold walUnlockExclusive. pose proof (walUnlock_run (WAL_READ_LOCK 1) (WAL_NREADER - 1) st2) as Eu. by rewrite (bind_some _ _ _ _ _ Eu). }
  assert (∀ st2, quiet st2 (unlock st2)) as Hqu by (intros st2; unfold unlock, quiet; by destruct (negb _)).
  destruct (Z.eqb_spec eMode SQLITE_CHECKPOINT_TRUNCATE) as [->|Hne].
  - destruct (walRestartHdr_run salt1 st1) as (st2 & E2 & Heq2 & Hmx2); [by rewrite Ho1|by rewrite Hw1..|]. injection Heq2 as Hd2 Hf2 Hr2 Ho2.
    rewrite bind_assoc, (bind_some _ _ _ _ _ E2).
    pose proof (os_update_run (λ s, set_pWalFd s (file_truncate (pWalFd s) 0)) st2) as E3. destruct (next_rc (rcs st2)) as [rc o] eqn:Eo.
    pose proof (next_rc_nil _ _ _ Eo) as Hn3. destruct (Z.eqb_spec rc SQLITE_OK) as [->|Hrc]; unfold sqlite3OsTruncate_wal; rewrite (bind_some _ _ _ _ _ E3), Hul;
      (eexists _, _; split; [done|]).
    all: split; [unfold unlock; destruct (negb _); cbn; by rewrite Hd2, Hd1|].
    all: split_and!; try done; try (intros Hn; rewrite Hr2 in Hn3; destruct (Hr1 Hn) as [_ [Hn1 _]]; by destruct (Hn3 Hn1)).
    intros _ _. unfold unlock. destruct (negb _); cbn; by rewrite Hmx2.
  - rewrite bind_ret, Hul. exists SQLITE_OK, (unlock st1). split; [done|]. destruct (Hqu st1) as (_ & _ & _ & -> & _). split_and!; try done.
    intros _. by eapply quiet_trans.
Qed.

Lemma copied_to_quiet mx all st st1 st2 : quiet st1 st2 → copied_to mx all st st1 → copied_to mx all st st2.
Proof. intros (H1 & H2 & H3 & H4 & H5). unfold copied_to, mark. by rewrite H2, H4. Qed.

Lemma ready_aSalt st st' : ckpt_ready st → framed st st' →
  others st' = [] ∧ length (aSalt (hdr (wal st'))) = 8%nat ∧ bytes_ok (aSalt (hdr (wal st'))) ∧ mxFrame (hdr (wal st')) = Z.of_nat (length fs).
Proof.
  intros Hr (Hs & Hf & _). injection Hf as _ ->. assert (hdr (wal st') = hdr (wal st)) as -> by apply Hs.
  split; [apply Hr|]. split; [apply Hr|]. split; [apply Hr|]. apply Hr.
Qed.

(** What another connection that reads relies on. *)
Lemma checkpoint_frames_shielded i v (w d : list Z) T st xBusy sync_flags r st' : ckpt_ready st → 1 ≤ Z.of_nat (length fs) → (0 ≤ i → held_by_others T (WAL_READ_LOCK i)) →
  shielded i v w d T st → checkpoint_frames xBusy sync_flags sz st = Some (r, st') → shielded i v w d T st'.
Proof.
  intros Hr Hlen Hheld Hs E. unfold checkpoint_frames in E.
  destruct (walIteratorInit_spec (wal st) (shm st) (log ++ more) (rcs st)) as (rc & pp & pWal' & o & Ei & _ & Hsc & _);
    [apply Hr|apply Hr|rewrite (cr_mx _ Hr), length_app, length_fmap; lia|apply Hr|].
  apply bind_inv in E as ([rc1 pp1] & st1 & E1 & E). unfold index in E1. rewrite Ei in E1. injection E1 as <- <- <-.
  set (st1 := mkSt pWal' _ _ _ _ _ _ _) in E. assert (shielded i v w d T st1) as Hs1.
  { destruct Hs as [H1 H2 H3 H4 H5 H6]. split; try done. cbn. intros Hi. destruct Hsc as (_ & _ & _ & _ & He & _). rewrite He. by apply H2. }
  destruct (negb (rc =? SQLITE_OK)); [by injection E as _ <-|]. apply bind_inv in E as (pIter & st2 & E2 & E).
  assert (st2 = st1) as -> by (unfold lift in E2; destruct pp; [by injection E2 as _ <-|done]). rewrite bind_gets in E.
  apply bind_inv in E as ([[[failed rc2] mx] xB] & st2 & E3 & E). pose proof (safe_frame_shielded _ _ _ _ _ Hheld _ 1 _ _ _ _ _ _ (Z.le_refl 1) Hs1 E3) as Hs2.
  destruct failed; [by injection E as _ <-|]. rewrite bind_gets in E. apply bind_inv in E as ([rc3 xB3] & st3 & E4 & E). injection E as _ <-.
  eapply (locked_copy_shielded _ _ _ _ _ Hheld); [exact Hs2|]. rewrite bind_gets. exact E4.
Qed.

(** What a run does; [st1] is the state before a restart. *)
Lemma walCheckpoint_spec st eMode xBusy sync_flags salt1 : ckpt_ready st → 1 ≤ Z.of_nat (length fs) →
  ∃ rc st', walCheckpoint has_bswap eMode xBusy sync_flags salt1 st = Some (rc, st') ∧ (calm st → rc = SQLITE_OK) ∧
    ∃ mx all st1, copied_to mx all st st1 ∧ pDbFd st' = pDbFd st1 ∧
      (∀ i v w d T, (0 ≤ i → held_by_others T (WAL_READ_LOCK i)) → i < WAL_NREADER → shielded i v w d T st →
        shielded i v w d T st1 ∧ shielded i v w d T st') ∧
      (eMode ≠ SQLITE_CHECKPOINT_TRUNCATE → framed st st' ∧ copied_to mx all st st') ∧
      (eMode ≠ SQLITE_CHECKPOINT_PASSIVE → rc = SQLITE_OK → nBackfill (ckpt (shm st1)) = Z.of_nat (length fs)) ∧
      (eMode = SQLITE_CHECKPOINT_TRUNCATE → rc = SQLITE_OK → pWalFd st' = [] ∧ mxFrame (hdr (wal st')) = 0).
Proof.
  intros Hr Hlen. pose proof (cr_backfill _ Hr) as HnB. unfold walCheckpoint. run. rewrite (cr_size _ Hr), (cr_mx _ Hr).
  assert (∃ (out : bool) rc xB st1, ((if nBackfill (ckpt (shm st)) <? Z.of_nat (length fs) then checkpoint_frames xBusy sync_flags sz
      else mret (false, SQLITE_OK, xBusy)) : M _) st = Some (out, rc, xB, st1) ∧ framed st st1 ∧ (out = true → rc ≠ SQLITE_OK) ∧
      (calm st → out = false ∧ rc = SQLITE_OK ∧ rcs st1 = [] ∧ nBackfill (ckpt (shm st1)) = Z.of_nat (length fs)) ∧
      (∀ i v w d T, (0 ≤ i → held_by_others T (WAL_READ_LOCK i)) → shielded i v w d T st → shielded i v w d T st1) ∧
      ∃ mx all, copied_to mx all st st1) as (out & rc & xB & st1 & E & Hf & Hout & Hn & Hsh & mx & all & Hc).
  { destruct (Z.ltb_spec (nBackfill (ckpt (shm st))) (Z.of_nat (length fs))) as [Hlt|Hge].
    - destruct (checkpoint_frames_spec st xBusy sync_flags Hr Hlen) as (out & rc & xB & st1 & E & Hf & Hout & Hn & Hc).
      exists out, rc, xB, st1. split_and!; try done. intros i v w d T Hheld Hs. by eapply checkpoint_frames_shielded.
    - exists false, SQLITE_OK, xBusy, st. split; [done|]. split; [split; [apply same_conn_refl|done]|]. split; [done|].
      split; [intros [Hr0 _]; split_and!; try done; lia|]. split; [done|].
    exists (nBackfill (ckpt (shm st))), true. by apply copied_to_none. }
  rewrite (bind_some _ _ _ _ _ E). destruct (ready_aSalt _ _ Hr Hf) as (Ho1 & Hl1 & Hb1 & Hmx1).
  destruct (out || negb (rc =? SQLITE_OK) || (eMode =? SQLITE_CHECKPOINT_PASSIVE)) eqn:Estop.
  - exists rc, st1. split; [done|]. split; [by intros Hr0; destruct (Hn Hr0) as (_ & -> & _)|]. exists mx, all, st1. split_and!; try done.
    + intros i v w d T Hheld _ Hs. by split; apply Hsh.
    + intros Hm ->. exfalso. rewrite Z.eqb_refl in Estop. destruct out; [by apply Hout|]. by apply Z.eqb_eq in Estop.
    + intros -> ->. exfalso. rewrite Z.eqb_refl in Estop. destruct out; [by apply Hout|]. done.
  - apply orb_false_iff in Estop as [Estop Hp]. apply orb_false_iff in Estop as [-> Hrc]. apply negb_false_iff, Z.eqb_eq in Hrc as ->.
    destruct (checkpoint_restart_spec eMode xB salt1 st1 Ho1 Hl1 Hb1) as (rc & st' & E2 & Hd & Hge & Hok & Hnt & Ht). rewrite E2. rewrite Hmx1 in Hge, Hok.
    assert (theirs st1 = theirs st) as Htheirs.
    { apply (sh_theirs (-1) 0 [] [] (theirs st)), Hsh; [lia|]. split; [done|lia|apply (cr_others _ Hr)|lia|lia|lia]. }
    exists rc, st'. split; [done|]. split.
    { intros Hr0. destruct (Hn Hr0) as (_ & _ & Hr1 & HB). apply Hok; [|lia]. split; [done|]. unfold all_free. rewrite Htheirs. apply Hr0. }
    exists mx, all, st1. split; [done|]. split; [done|]. split_and!; try done.
    + intros i v w d T Hheld Hi Hs. pose proof (Hsh _ _ _ _ _ Hheld Hs) as Hs1. split; [done|]. by eapply restart_shielded.
    + intros Hm. specialize (Hnt Hm). split; [by eapply framed_quiet|by eapply copied_to_quiet].
    + intros _ Hrc. specialize (Hge Hrc). destruct Hc as (Hmx & HB & _). rewrite HB in Hge |- *. destruct all; lia.
Qed.

(** ** Views *)

Lemma newest_view lo hi q (r : Z) : 1 ≤ lo → 0 ≤ hi ≤ Z.of_nat (length fs) → newest_frame log q lo hi r → newest_in (Z.to_nat hi) log lo q = r.
Proof.
  intros Hlo Hhi Hr. eapply newest_frame_unique; [exact Hlo| |exact Hr]. rewrite <- (Z2Nat.id hi) at 1 by lia. by apply newest_in_spec.
Qed.

(** The newest of all frames is that of the view if it is in its range. *)
Lemma newest_in_range lo hi q : 1 ≤ lo → lo ≤ newest fs q ≤ hi → hi ≤ Z.of_nat (length fs) → newest_in (Z.to_nat hi) log lo q = newest fs q.
Proof.
  intros Hlo Hr Hhi. apply newest_view; [done|lia|]. destruct (newest_spec fs q) as [[E _] | (Hr' & Hq & Hn)]; [lia|].
  right. split; [done|]. split; [done|]. intros i Hi. apply Hn. rewrite length_fmap. lia.
Qed.

(** A reader that looks from a frame after the newest one finds nothing. *)
Lemma newest_in_none lo hi q : 1 ≤ lo → newest fs q < lo → 0 ≤ hi ≤ Z.of_nat (length fs) → newest_in (Z.to_nat hi) log lo q = 0.
Proof.
  intros Hlo Hr Hhi. apply newest_view; [done|done|]. left. split; [done|]. intros i Hi. destruct (newest_spec fs q) as [[E Hn] | (Hr' & Hq & Hn)];
    apply Hn; rewrite length_fmap; lia.
Qed.

(** Readers that found their snapshot before; they may know [fs'] frames more. *)
Lemma copied_to_view mx all st st' fs' lo hi q : 0 ≤ nBackfill (ckpt (shm st)) → copied_to mx all st st' → 1 ≤ lo ≤ nBackfill (ckpt (shm st)) + 1 →
  (pDbFd st' ≠ pDbFd st → mx ≤ hi) → 1 ≤ q → (q ≤ nPage (hdr (wal st)) ∨ mx ≠ mxFrame (shm_hdr0 (shm st))) →
  view (fs ++ fs') (pDbFd st') sz lo hi q = view (fs ++ fs') (pDbFd st) sz lo hi q.
Proof.
  intros HnB (Hmx & _ & Hc & _ & _ & Hb) Hlo Hhi Hq1 Hq. destruct (decide (pDbFd st' = pDbFd st)) as [->|Hne]; [done|]. specialize (Hhi Hne). unfold view.
  destruct (Z.le_gt_cases q (nPage (hdr (wal st)))) as [Hle|Hgt]; [|rewrite Hb by lia; done].
  destruct (Hc q (conj Hq1 Hle)) as [[[_ Hw] E] | [_ ->]]; [|done].
  pose proof (newest_in_spec (Z.to_nat hi) (f_pgno <$> fs ++ fs') lo q ltac:(lia)) as Hnew. rewrite Z2Nat.id in Hnew by lia.
  destruct (newest_spec fs q) as [[E0 _] | (Hr & Hfq & _)]; [lia|]. destruct Hnew as [[_ Hno] | (Hr' & _)].
  - exfalso. apply (Hno (newest fs q)); [lia|]. rewrite fmap_app. unfold frame in *. rewrite lookup_app_l; [exact Hfq|]. lia.
  - by destruct (Z.eqb_spec (newest_in (Z.to_nat hi) (f_pgno <$> fs ++ fs') lo q) 0); [lia|].
Qed.

(** Readers that come after the checkpoint. *)
Lemma copied_to_new_view mx all st st' q : 0 ≤ nBackfill (ckpt (shm st)) → copied_to mx all st st' → 1 ≤ q ≤ nPage (hdr (wal st)) →
  let n := Z.of_nat (length fs) in
  view fs (pDbFd st') sz (nBackfill (ckpt (shm st')) + 1) n q = view fs (pDbFd st) sz (nBackfill (ckpt (shm st)) + 1) n q.
Proof.
  intros HnB (Hmx & HB' & Hc & _) Hq n. set (nB := nBackfill (ckpt (shm st))) in *. unfold view. rewrite HB'.
  assert (newest fs q ≤ n) as Hle by (destruct (newest_spec fs q) as [[E _] | (Hr & _)]; [lia|rewrite length_fmap in Hr; lia]).
  destruct (Hc q Hq) as [[[_ Hw] E] | [Hn E]].
  - rewrite (newest_in_range (nB + 1)) by lia. destruct all.
    + rewrite newest_in_none by lia. change (0 =? 0) with true. cbn iota. by destruct (Z.eqb_spec (newest fs q) 0); [lia|].
    + rewrite newest_in_range by lia. by destruct (Z.eqb_spec (newest fs q) 0); [lia|].
  - rewrite E. destruct all; [|done]. destruct (Z.le_gt_cases (newest fs q) nB).
    + by rewrite !newest_in_none by lia.
    + destruct (Z.le_gt_cases (newest fs q) mx) as [Hle'|Hgt]; [exfalso; apply Hn; [done|split; lia]|]. by rewrite !newest_in_range by lia.
Qed.
End checkpoint.
