(* ===== verification/WalHistory.v ===== *)
(** * Write-ahead log: histories

    A sequence of transactions that are written to a log; calls of
    [sqlite3WalFrames] write only behind the frames that are committed, whatever
    fails; and recovery finds these frames again, whatever bytes follow them. *)
From S2P Require Import Prelude Words Varint WalIndex WalLog WalFind WalFile WalRecover WalRead WalCommit.
From stdpp Require Import gmap.
Local Open Scope Z_scope.

(** ** Any bytes after a log *)

Section rest.
Context (be : bool) (salt : list Z) (sz : Z) (Hsz : 0 ≤ sz) (Hsalt : length salt = 8%nat).
Implicit Types (s : Z * Z) (rest : list Z).

(** The frame that the bytes start with, if any. *)
Definition first_frame rest : log_frame :=
  mkFrame (be_word (take 4 rest)) (be_word (take 4 (drop 4 rest))) (take (Z.to_nat sz) (drop 24 rest)).

Lemma first_frame_bytes s f rest : valid_frame sz f → first_frame (frame_bytes be salt s f ++ rest) = f.
Proof.
  intros (Hp & Hf & Hd & _). pose proof (length_frame_header be salt s f Hsalt) as Hh. unfold first_frame.
  assert (∀ (tl : list Z) v, take 4 (be_bytes 4 v ++ tl) = be_bytes 4 v) as Htake by (intros tl v; apply take_app_length'; by rewrite length_be_bytes).
  assert (∀ (tl : list Z) v, drop 4 (be_bytes 4 v ++ tl) = tl) as Hdrop by (intros tl v; apply drop_app_length'; by rewrite length_be_bytes).
  assert (take 4 (frame_bytes be salt s f ++ rest) = be_bytes 4 (f_pgno f) ∧ take 4 (drop 4 (frame_bytes be salt s f ++ rest)) = be_bytes 4 (f_size f)) as [-> ->].
  { unfold frame_bytes, frame_header. rewrite <- !app_assoc. by rewrite Hdrop, !Htake. }
  rewrite !be_word_bytes. change (8 * Z.of_nat 4) with 32. rewrite !Z.mod_small by (unfold uint in Hf; lia).
  unfold frame_bytes. rewrite <- app_assoc, drop_app_length' by lia. rewrite take_app_length' by lia. by destruct f.
Qed.

Lemma frame_or_not s rest : bytes_ok rest →
  (∃ f rest', valid_frame sz f ∧ rest = frame_bytes be salt s f ++ rest') ∨ no_frame be salt s sz rest.
Proof.
  intros Hb. set (f := first_frame rest).
  assert (Decision (valid_frame sz f)) as Hdec by (unfold valid_frame, uint; apply _).
  destruct (decide (valid_frame sz f)) as [Hv|Hn]; [destruct (decide (rest = frame_bytes be salt s f ++ drop (Z.to_nat (sz + 24)) rest)) as [E|Hn]|].
  - left. eauto.
  - right. intros f' rest' Hv' E. apply Hn. unfold f. rewrite E. rewrite first_frame_bytes by done. f_equal. symmetry.
    apply drop_app_length'. pose proof (length_frame be salt s f' sz Hsalt Hv'). lia.
  - right. intros f' rest' Hv' E. apply Hn. unfold f. rewrite E. by rewrite first_frame_bytes.
Qed.

(** Frames as long as there are any. *)
Lemma all_frames (n : nat) : ∀ s rest, (length rest ≤ n)%nat → bytes_ok rest →
  ∃ fs rest', Forall (valid_frame sz) fs ∧ rest = frames_bytes be salt s fs ++ rest' ∧ bytes_ok rest' ∧
    no_frame be salt (foldl (frame_cksum be) s fs) sz rest'.
Proof.
  induction n as [|n IH]; intros s rest Hn Hb; (destruct (frame_or_not s rest Hb) as [(f & rest' & Hv & E) | Hno]; [|exists [], rest; split_and!; [constructor|done..]]);
    pose proof (length_frame be salt s f sz Hsalt Hv) as Hl; rewrite E, length_app in Hn; [lia|].
  destruct (IH (frame_cksum be s f) rest') as (fs & r & Hfs & Er & Hr & Hno); [lia|rewrite E in Hb; rewrite Forall_app in Hb; apply Hb|].
  exists (f :: fs), r. split; [by constructor|]. cbn [frames_bytes foldl]. by rewrite E, Er, app_assoc.
Qed.
End rest.

(** ** The last commit *)

Section committed.
Implicit Types (be : bool) (s : Z * Z) (fs : list log_frame) (c : Z * Z * (Z * Z)).

Lemma committed_app be s i fs fs' c :
  committed be s i (fs ++ fs') c = committed be (foldl (frame_cksum be) s fs) (i + len fs) fs' (committed be s i fs c).
Proof.
  revert s i c. induction fs as [|f fs IH]; intros s i c; cbn [app committed foldl length]; [f_equal; lia|]. rewrite IH. f_equal. lia.
Qed.

Lemma committed_mono be s i fs c : fst (fst c) ≤ i → fst (fst c) ≤ fst (fst (committed be s i fs c)) ≤ i + len fs.
Proof.
  revert s i c. induction fs as [|f fs IH]; intros s i c Hc; cbn [committed length]; [lia|].
  destruct (f_size f =? 0); [specialize (IH (frame_cksum be s f) (i + 1) c ltac:(lia))|
    specialize (IH (frame_cksum be s f) (i + 1) (i + 1, f_size f, frame_cksum be s f) ltac:(cbn; lia))]; cbn [fst] in *; lia.
Qed.

Lemma committed_size be s i fs f c : f_size f ≠ 0 → snd (fst (committed be s i (fs ++ [f]) c)) = f_size f.
Proof. intros Hf. rewrite committed_app. cbn [committed]. by destruct (Z.eqb_spec (f_size f) 0). Qed.

(** A frame with a size is a commit. *)
Lemma committed_last be s i fs f c : f_size f ≠ 0 → fst (fst (committed be s i (fs ++ [f]) c)) = i + len fs + 1.
Proof. intros Hf. rewrite committed_app. cbn [committed]. by destruct (Z.eqb_spec (f_size f) 0). Qed.
End committed.

(** ** Transactions *)

Section history.
Context `{Machine} (has_bswap : bool) (xCodec : option (PgHdr → option (list Z))).
Context (sz sync_flags sectorSize : Z) (salt0 salt1 : list Z).
Implicit Types (st : St) (l : list (list PgHdr * Z)).

(** A transaction is its pages and the size of the database after it. *)
Definition valid_transaction (t : list PgHdr * Z) : Prop :=
  fst t ≠ [] ∧ Forall (valid_page xCodec sz) (fst t) ∧ 0 < snd t < 2 ^ 32.

Fixpoint commit_all l : M Z :=
  match l with
  | [] => mret SQLITE_OK
  | (pList, nTruncate) :: l =>
    rc ← sqlite3WalFrames has_bswap xCodec sz pList nTruncate true sync_flags sectorSize salt0 salt1;
    on_ok rc (commit_all l)
  end.

Definition frames_of l : list log_frame := concat ((λ t, page_frames xCodec (fst t) (snd t) true) <$> l).

Lemma frames_of_cons t l : frames_of (t :: l) = page_frames xCodec (fst t) (snd t) true ++ frames_of l.
Proof. done. Qed.

Lemma page_frames_last pList n : pList ≠ [] →
  ∃ fs f, page_frames xCodec pList n true = fs ++ [f] ∧ f_size f = n ∧ Forall (λ f, f_size f = 0) fs.
Proof.
  induction pList as [|p pList IH]; [done|]. intros _. cbn [page_frames]. destruct pList as [|p' pList]; [by exists [], (frame_of xCodec p n)|].
  destruct (IH ltac:(done)) as (fs & f & -> & Hf & Hz). exists (frame_of xCodec p 0 :: fs), f. split; [done|]. split; [done|]. by constructor.
Qed.

(** The size of the database after a history. *)
Definition db_size l : Z := match last l with Some t => snd t | None => 0 end.

(** The last frame of a history is a commit. *)
Lemma frames_of_last l : Forall valid_transaction l → l ≠ [] → ∃ fs f, frames_of l = fs ++ [f] ∧ f_size f ≠ 0 ∧ f_size f = db_size l.
Proof.
  induction 1 as [|t l (Hne & _ & Hn) _ IH]; [done|]. intros _. rewrite frames_of_cons. destruct l as [|t' l].
  - destruct (page_frames_last (fst t) (snd t) Hne) as (fs & f & -> & Hf & _). exists fs, f. cbn. rewrite app_nil_r. split; [done|]. split; [lia|done].
  - destruct (IH ltac:(done)) as (fs & f & -> & Hf & Hd). exists (page_frames xCodec (fst t) (snd t) true ++ fs), f. rewrite app_assoc. split_and!; [done|done|].
    rewrite Hd. done.
Qed.

(** A connection between two transactions. *)
Record between st be nCkpt salt fs rest : Prop := {
  bt_writing : writing st be sz nCkpt salt fs rest;
  bt_shared : shm_hdr0 (shm st) = hdr (wal st);
  bt_lock : readLock (wal st) ≠ 0;
  bt_pad : padToSectorBoundary (wal st) = false ∨ Z.land sync_flags WAL_SYNC_TRANSACTIONS = 0
}.

(** The shared header counts the frames of the first [k] transactions. *)
Definition shared_commits st fs l (k : nat) : Prop := mxFrame (shm_hdr0 (shm st)) = Z.of_nat (length (fs ++ frames_of (take k l))).

Definition history_result st be nCkpt salt fs rest l (r : option (Z * St)) : Prop :=
  ∃ rc st' k, r = Some (rc, st') ∧ (rcs st = [] → rc = SQLITE_OK ∧ rcs st' = []) ∧ shared_commits st' fs l k ∧
    (rc = SQLITE_OK → k = length l ∧ ∃ rest', between st' be nCkpt salt (fs ++ frames_of l) rest' ∧ (stale salt sz rest → stale salt sz rest')) ∧
    (rc ≠ SQLITE_OK → ∃ t, l !! k = Some t ∧ (fs ++ frames_of (take k l) ≠ [] →
      ∃ rest', (stale salt sz rest → stale salt sz rest') ∧
        left_over be sz nCkpt salt (fs ++ frames_of (take k l)) (page_frames xCodec (fst t) (snd t) true) rest' (pWalFd st'))).

(** One transaction and the ones after it. *)
Lemma history_step st be nCkpt salt fs rest pList n l : mxFrame (shm_hdr0 (shm st)) = Z.of_nat (length fs) →
  (padToSectorBoundary (wal st) = false ∨ Z.land sync_flags WAL_SYNC_TRANSACTIONS = 0) → readLock (wal st) ≠ 0 →
  frames_result be sz nCkpt salt fs (page_frames xCodec pList n true) rest n true st
    (sqlite3WalFrames has_bswap xCodec sz pList n true sync_flags sectorSize salt0 salt1 st) →
  (∀ st1 rest1, between st1 be nCkpt salt (fs ++ page_frames xCodec pList n true) rest1 →
    history_result st1 be nCkpt salt (fs ++ page_frames xCodec pList n true) rest1 l (commit_all l st1)) →
  history_result st be nCkpt salt fs rest ((pList, n) :: l) (commit_all ((pList, n) :: l) st).
Proof.
  intros Hmx Hpad Hlock (rc & st1 & E1 & _ & _ & Ho1 & Herr & Hok) Hrest. cbn [commit_all]. rewrite (bind_some _ _ _ _ _ E1). unfold on_ok.
  assert (∀ k, frames_of (take (S k) ((pList, n) :: l)) = page_frames xCodec pList n true ++ frames_of (take k l)) as Etake by done.
  destruct (Z.eqb_spec rc SQLITE_OK) as [->|Hrc].
  - destruct (Hok eq_refl) as (rest' & Hwr & Hst1 & [Hk1 Hk2] & _ & Hsh & _).
    destruct (Hrest st1 rest') as (rc2 & st2 & k & -> & Ho2 & Hsc & Hok2 & Herr2); [split; [done|done|by rewrite Hk1|by rewrite Hk2]|].
    exists rc2, st2, (S k). split; [done|]. split; [intros E; by apply Ho2, Ho1|]. split; [|split].
    + unfold shared_commits in *. by rewrite Etake, app_assoc.
    + intros Hrc. destruct (Hok2 Hrc) as (-> & rest2 & Hbt & Hst2). split; [done|]. exists rest2. rewrite frames_of_cons. cbn [fst snd]. rewrite app_assoc.
      split; [done|]. intros Hs. by apply Hst2, Hst1.
    + intros Hrc. destruct (Herr2 Hrc) as (t & Ht & Hlo). exists t. split; [done|]. rewrite Etake, app_assoc. intros Hne.
      destruct (Hlo Hne) as (rest2 & Hst2 & Hl). exists rest2. split; [|done]. intros Hs. by apply Hst2, Hst1.
  - destruct (Herr Hrc) as [Hsh Hlo]. exists rc, st1, 0%nat. split; [done|]. split; [done|]. cbn [take]. change (frames_of []) with (@nil log_frame).
    unfold shared_commits. cbn [take]. change (frames_of []) with (@nil log_frame). rewrite !app_nil_r. split; [by rewrite Hsh|]. split; [done|].
    intros _. exists (pList, n). split; [done|]. intros Hne. exists rest. split; [done|]. by apply Hlo.
Qed.

Lemma commit_all_next l : Forall valid_transaction l → ∀ st be nCkpt salt fs rest, between st be nCkpt salt fs rest → fs ≠ [] →
  Z.of_nat (length (fs ++ frames_of l)) + 1 < 2 ^ 31 → history_result st be nCkpt salt fs rest l (commit_all l st).
Proof.
  induction 1 as [|[pList n] l (Hne & Hp & Hn) _ IH]; intros st be nCkpt salt fs rest [Hwr Hsh Hlock Hpad] Hfs Hlen.
  - exists SQLITE_OK, st, 0%nat. split; [done|]. split; [done|]. unfold shared_commits. change (frames_of []) with (@nil log_frame). rewrite app_nil_r. split; [rewrite Hsh; apply Hwr|].
    split; [|done]. intros _. split; [done|]. exists rest. rewrite app_nil_r. by split.
  - rewrite frames_of_cons, !length_app, page_frames_length in Hlen. cbn [fst snd] in *.
    apply history_step; [rewrite Hsh; apply Hwr|done|done| |].
    + apply sqlite3WalFrames_next; try done; [unfold uint; lia|lia].
    + intros st1 rest1 Hbt. apply IH; [done|by destruct fs|]. rewrite !length_app, page_frames_length. lia.
Qed.

(** A connection that has the lock of a writer for a log without frames. *)
Record fresh_log st : Prop := {
  fr_conn : conn_ok (wal st) (shm st);
  fr_log : log_ok (shm st) [];
  fr_lock : writeLock (wal st) = true;
  fr_frames : mxFrame (hdr (wal st)) = 0;
  fr_rewrite : iReCksum (wal st) = 0;
  fr_others : others st = [];
  fr_bytes : bytes_ok (pWalFd st);
  fr_shared : shm_hdr0 (shm st) = hdr (wal st);
  fr_read : readLock (wal st) ≠ 0;
  fr_nCkpt : uint 32 (WalIndex.nCkpt (wal st));
  fr_pad : padToSectorBoundary (wal st) = false ∨ Z.land sync_flags WAL_SYNC_TRANSACTIONS = 0
}.

(** The salt of the log. *)
Definition log_salt st : list Z := if WalIndex.nCkpt (wal st) =? 0 then salt0 else aSalt (hdr (wal st)).

Lemma commit_all_fresh l st : Forall valid_transaction l → l ≠ [] → fresh_log st → page_size sz → length (log_salt st) = 8%nat → bytes_ok (log_salt st) →
  Z.of_nat (length (frames_of l)) + 1 < 2 ^ 31 →
  history_result st machine_be (WalIndex.nCkpt (wal st)) (log_salt st) [] (drop 32 (pWalFd st)) l (commit_all l st).
Proof.
  intros Hl Hne [] Hsz Hls Hsb Hlen. destruct Hl as [|[pList n] l (Hpl & Hp & Hn) Hl]; [done|]. rewrite frames_of_cons, length_app, page_frames_length in Hlen.
  cbn [fst snd] in *. apply history_step; [by rewrite fr_shared0|done|done| |].
  - apply sqlite3WalFrames_first; try done; [unfold uint; lia|lia].
  - intros st1 rest1 Hbt. apply commit_all_next; [done|exact Hbt|by destruct pList|]. cbn [app]. rewrite !length_app, page_frames_length. lia.
Qed.
End history.

(** ** Writes behind the committed frames *)

Section keeps.
Context `{Machine} (has_bswap : bool) (xCodec : option (PgHdr → option (list Z))).
Context (sz base : Z) (Hsz : 0 < sz < 2 ^ 31) (Hbase : 1 ≤ base).
Implicit Types (st : St).

(** Where the first frame goes that is not committed. *)
Definition log_end : Z := walFrameOffset (base + 1) sz.

(** The bytes [d] of the committed frames are in the file, and only later frames
    are to get new checksums. *)
Record guarded (d : list Z) st : Prop := {
  gd_file : ∃ rest, pWalFd st = d ++ rest;
  gd_size : wal_szPage (wal st) = sz;
  gd_rewrite : iReCksum (wal st) = 0 ∨ base < iReCksum (wal st);
  gd_salt : length (aSalt (hdr (wal st))) = 8%nat
}.

(** Running [m] keeps them, whatever it returns; [Q] is what is known of the
    result. *)
Definition keeps {A} (d : list Z) (m : M A) (Q : A → St → Prop) : Prop :=
  ∀ st a st', guarded d st → m st = Some (a, st') → guarded d st' ∧ Q a st'.

Context (d : list Z) (Hd : len d = log_end).

Lemma keeps_bind {A B} (m : M A) (k : A → M B) Q R : keeps d m Q → (∀ a, (∃ st, Q a st) → keeps d (k a) R) → keeps d (m ≫= k) R.
Proof.
  intros Hm Hk st b st' Hg E. unfold mbind, M_bind in E. destruct (m st) as [[a st1]|] eqn:Em; [|done]. destruct (Hm st a st1 Hg Em) as [Hg1 HQ].
  apply (Hk a (ex_intro _ st1 HQ) st1 b st' Hg1 E).
Qed.

Lemma keeps_weaken {A} (m : M A) (Q R : A → St → Prop) : (∀ a st, Q a st → R a st) → keeps d m Q → keeps d m R.
Proof. intros HQR Hm st a st' Hg E. destruct (Hm st a st' Hg E). auto. Qed.

Lemma keeps_true {A} (m : M A) Q : keeps d m Q → keeps d m (λ _ _, True).
Proof. by apply keeps_weaken. Qed.

Lemma keeps_ret {A} (a : A) (Q : A → St → Prop) : (∀ st, Q a st) → keeps d (mret a) Q.
Proof. intros HQ st b st' Hg E. injection E as <- <-. auto. Qed.

Lemma keeps_gets {A} (f : St → A) : keeps d (gets f) (λ a st, a = f st ∧ guarded d st).
Proof. intros st a st' Hg E. injection E as <- <-. auto. Qed.

Lemma keeps_lift {A} (m : option A) : keeps d (lift m) (λ a _, m = Some a).
Proof. intros st a st' Hg E. unfold lift in E. destruct m as [b|]; [|done]. by injection E as -> <-. Qed.

Lemma keeps_outcome : keeps d outcome (λ _ _, True).
Proof. intros st a st' Hg E. unfold outcome in E. destruct (next_rc (rcs st)) as [rc o]. injection E as <- <-. split; [by destruct Hg|done]. Qed.

Lemma keeps_on_ok rc (k : M Z) : keeps d k (λ _ _, True) → keeps d (on_ok rc k) (λ _ _, True).
Proof. intros Hk. unfold on_ok. destruct (rc =? SQLITE_OK); [done|]. by apply keeps_ret. Qed.

Lemma keeps_modify (f : St → St) : (∀ st, guarded d st → guarded d (f st)) → keeps d (modify f) (λ _ _, True).
Proof. intros Hf st a st' Hg E. injection E as <- <-. auto. Qed.

Lemma keeps_with_wal (f : Wal → Wal) : (∀ w, wal_szPage (f w) = wal_szPage w ∧ aSalt (hdr (f w)) = aSalt (hdr w)) →
  (∀ w, iReCksum (f w) = iReCksum w ∨ iReCksum (f w) = 0 ∨ base < iReCksum (f w)) → keeps d (with_wal f) (λ _ _, True).
Proof.
  intros Hs Hr. apply keeps_modify. intros st [Hf Hsz' Hre Hsalt]. destruct (Hs (wal st)) as [E1 E2]. split; [done|by cbn; rewrite E1| |by cbn; rewrite E2].
  cbn. destruct (Hr (wal st)) as [-> | ?]; auto.
Qed.

(** A connection that is fine. *)
Definition fine (w : Wal) : Prop := wal_szPage w = sz ∧ (iReCksum w = 0 ∨ base < iReCksum w) ∧ length (aSalt (hdr w)) = 8%nat.

Lemma keeps_set_wal (w : Wal) : fine w → keeps d (with_wal (λ _, w)) (λ _ _, True).
Proof. intros (H1 & H2 & H3). apply keeps_modify. by intros st [Hf _ _ _]. Qed.

Lemma keeps_with_shm (f : Shm → Shm) : keeps d (with_shm f) (λ _ _, True).
Proof. apply keeps_modify. by intros st []. Qed.

Lemma keeps_write bs off : log_end ≤ off → keeps d (sqlite3OsWrite_wal bs off) (λ _ _, True).
Proof.
  intros Hoff. unfold sqlite3OsWrite_wal, os_update. eapply keeps_bind; [apply keeps_outcome|]. intros rc _. apply keeps_on_ok.
  eapply keeps_bind; [apply keeps_modify|intros; by apply keeps_ret].
  intros st [[rest E] Hs Hr Hl]. split; try done. cbn. rewrite E. unfold file_write. rewrite <- app_assoc.
  rewrite take_app_ge by lia. rewrite <- !app_assoc. by eexists.
Qed.

Lemma keeps_read fd amt off : keeps d (sqlite3OsRead fd amt off) (λ _ _, True).
Proof.
  unfold sqlite3OsRead. eapply keeps_bind; [apply keeps_outcome|]. intros rc _. destruct (rc =? SQLITE_OK); [|by apply keeps_ret].
  eapply keeps_bind; [apply keeps_gets|]. intros a _. destruct (_ <=? _); by apply keeps_ret.
Qed.

(** Functions of the wal-index keep what they do not know. *)
Lemma keeps_index {A} (f : Wal → Shm → list Z → option (A * Wal * Shm * list Z)) :
  (∀ w m o a w' m' o', f w m o = Some (a, w', m', o') → hdr w' = hdr w ∧ wal_szPage w' = wal_szPage w ∧ iReCksum w' = iReCksum w) → keeps d (index f) (λ _ _, True).
Proof.
  intros Hf st a st' [Hd' Hs Hr Hl] E. unfold index in E. destruct (f (wal st) (shm st) (rcs st)) as [[[[b w] m] o]|] eqn:Ef; [|done].
  injection E as <- <-. destruct (Hf _ _ _ _ _ _ _ Ef) as (E0 & E1 & E2). split; [|done].
  split; [done|by cbn; rewrite E1|by cbn; rewrite E2|by cbn; rewrite E0].
Qed.

Definition same_fields (w w' : Wal) : Prop := hdr w' = hdr w ∧ wal_szPage w' = wal_szPage w ∧ iReCksum w' = iReCksum w.

Lemma walIndexPage_fields w m i o : let '(_, w', _, _) := walIndexPage w m i o in same_fields w w'.
Proof.
  unfold walIndexPage, enlarge, request_page. destruct (nWiData w <=? i); destruct (next_rc o) as [rc o1].
  - destruct (rc =? SQLITE_OK); cbn [negb]; [|done]. change (SQLITE_OK =? SQLITE_OK) with true. cbn [negb]. cbv iota. destruct (is_mapped _ _); [done|].
    destruct (next_rc o1) as [rc2 o2]. destruct (exclusiveMode _ =? _); [by destruct (rc2 =? SQLITE_OK)|].
    destruct (_ || _); [|done]. destruct (pages m !! i); [by destruct (rc2 =? SQLITE_READONLY)|]. destruct (rc2 =? SQLITE_READONLY); by destruct (writeLock _).
  - change (SQLITE_OK =? SQLITE_OK) with true. cbn [negb]. cbv iota. destruct (is_mapped _ _); [done|].
    destruct (exclusiveMode _ =? _); [by destruct (rc =? SQLITE_OK)|].
    destruct (_ || _); [|done]. destruct (pages m !! i); [by destruct (rc =? SQLITE_READONLY)|]. destruct (rc =? SQLITE_READONLY); by destruct (writeLock _).
Qed.

Lemma walCleanupHash_fields w m o w' m' o' : walCleanupHash w m o = Some (w', m', o') → same_fields w w'.
Proof.
  unfold walCleanupHash, walHashGet. destruct (_ =? 0); [by injection 1 as <- <- <-|].
  pose proof (walIndexPage_fields w m (walFramePage (mxFrame (hdr w))) o) as Hp. destruct (walIndexPage _ _ _ _) as [[[rc w1] m1] o1].
  destruct (page_at w1 m1 _) as [p|]; [|done]. cbn [mbind option_bind]. destruct (cleanup_page _ _ _); [|done]. cbn [mbind option_bind]. by injection 1 as <- <- <-.
Qed.

Lemma walIndexAppend_fields w m i q o rc w' m' o' : walIndexAppend w m i q o = Some (rc, w', m', o') → same_fields w w'.
Proof.
  unfold walIndexAppend, walHashGet. pose proof (walIndexPage_fields w m (walFramePage i) o) as Hp.
  destruct (walIndexPage _ _ _ _) as [[[rc1 w1] m1] o1]. destruct (negb _); [by injection 1 as <- <- <- <-|].
  destruct (page_at w1 m1 _) as [p|]; [|done]. cbn [mbind option_bind].
  match goal with |- context [mbind _ ?x] => destruct x as [p1|]; [|done] end. cbn [mbind option_bind].
  destruct (pgno_get _ _ _) as [v|]; [|done]. cbn [mbind option_bind].
  match goal with |- context [mbind _ ?x] => destruct x as [[[w2 m2] o2]|] eqn:Ec; [|done] end. cbn [mbind option_bind].
  assert (same_fields w w2) as Hw2.
  { destruct (negb _); [|by injection Ec as <- <- <-]. apply walCleanupHash_fields in Ec. unfold same_fields in *. intuition congruence. }
  destruct (page_at w2 m2 _) as [p2|]; [|done]. cbn [mbind option_bind]. destruct (probe_loop _ _ _) as [[iKey|]|]; [| |done]; cbn [mbind option_bind];
    [destruct (page_at w2 _ _); [|done]; cbn [mbind option_bind]|]; intros E; injection E as _ <- _ _; exact Hw2.
Qed.

Lemma find_tables_fields (n : nat) : ∀ w m q k o rc r w' m' o', find_tables n w m q k o = Some (rc, r, w', m', o') → same_fields w w'.
Proof.
  induction n as [|n IH]; intros w m q k o rc r w' m' o'; cbn [find_tables]; [by injection 1 as <- <- <- <- <-|].
  unfold walHashGet. pose proof (walIndexPage_fields w m k o) as Hp. destruct (walIndexPage _ _ _ _) as [[[rc1 w1] m1] o1].
  destruct (negb _); [by injection 1 as <- <- <- <- <-|]. destruct (page_at w1 m1 _) as [p|]; [|done]. rewrite option_bind_some.
  generalize (find_table w1 k p q). intros [[x|]|]; [|rewrite option_bind_some; intros E; injection E as _ _ <- _ _; exact Hp|done]. rewrite option_bind_some.
  destruct (x =? 0); [|intros E; injection E as _ _ <- _ _; exact Hp]. intros E. apply IH in E. unfold same_fields in *. intuition congruence.
Qed.

(** The frame found is one that the connection counts. *)
Lemma find_loop_bound (n : nat) w k p q : ∀ iKey r r', find_loop n w k p q iKey r = Some (Some r') → r ≤ mxFrame (hdr w) → r' ≤ mxFrame (hdr w).
Proof.
  induction n as [|n IH]; intros iKey r r'; cbn [find_loop]; (destruct (get _ iKey) as [v|]; [|done]); cbn [mbind option_bind];
    (destruct (v =? 0); [by injection 1 as <-|]);
    (destruct ((_ <=? mxFrame (hdr w)) && _) eqn:Ec; [destruct (pgno_get k p v) as [x|]; [|done]|]); cbn [mbind option_bind]; try done; intros E Hr.
  - apply (IH _ _ _ E). apply andb_true_iff in Ec as [Ec%Z.leb_le _]. by destruct (x =? q).
  - by apply (IH _ _ _ E).
Qed.

Lemma find_table_bound w k p q r : find_table w k p q = Some (Some r) → 0 ≤ mxFrame (hdr w) → r ≤ mxFrame (hdr w).
Proof. unfold find_table. generalize (Z.to_nat HASHTABLE_NSLOT), (walHash q). intros n iKey. apply find_loop_bound. Qed.

Lemma find_tables_bound (n : nat) : ∀ w m q k o rc r w' m' o', find_tables n w m q k o = Some (rc, Some r, w', m', o') →
  0 ≤ mxFrame (hdr w) → r ≤ mxFrame (hdr w).
Proof.
  induction n as [|n IH]; intros w m q k o rc r w' m' o'; cbn [find_tables]; [by injection 1 as _ <- _ _ _|].
  unfold walHashGet. pose proof (walIndexPage_fields w m k o) as Hp. destruct (walIndexPage _ _ _ _) as [[[rc1 w1] m1] o1].
  destruct Hp as (Hh & _). destruct (negb _); [done|]. destruct (page_at w1 m1 _) as [p|]; [|done]. rewrite option_bind_some.
  destruct (find_table w1 k p q) as [[x|]|] eqn:Ef; [|done|done]. rewrite option_bind_some. intros E H0.
  destruct (x =? 0); [rewrite <- Hh; apply (IH _ _ _ _ _ _ _ _ _ _ E); by rewrite Hh|]. injection E as _ <- _ _ _. rewrite <- Hh. apply (find_table_bound _ _ _ _ _ Ef). by rewrite Hh.
Qed.

Lemma find_frame_bounds q st iWrite st' : find_frame q st = Some (iWrite, st') → 0 ≤ mxFrame (hdr (wal st)) →
  iWrite ≤ mxFrame (hdr (wal st)) ∧ pWalFd st' = pWalFd st ∧ hdr (wal st') = hdr (wal st) ∧ wal_szPage (wal st') = wal_szPage (wal st).
Proof.
  intros E H0. unfold find_frame, mbind, M_bind, index in E. destruct (sqlite3WalFindFrame _ _ _ _) as [[[[[rc r] w] m] o]|] eqn:Ef; [|done].
  injection E as <- <-. cbn [pWalFd wal]. unfold sqlite3WalFindFrame in Ef. destruct (_ || _); [by injection Ef as <- <- <- <- <-|].
  pose proof (find_tables_fields _ _ _ _ _ _ _ _ _ _ _ Ef) as (Hh & Hs & _). split; [|by rewrite Hh]. destruct r as [r|]; [|done].
  by apply find_tables_bound in Ef.
Qed.

(** ** The steps of a call *)

Lemma keeps_append i q : keeps d (index (λ w m o, walIndexAppend w m i q o)) (λ _ _, True).
Proof. apply keeps_index. intros w m o a w' m' o'. apply walIndexAppend_fields. Qed.

Lemma keeps_find q : keeps d (find_frame q) (λ _ _, True).
Proof.
  unfold find_frame. eapply keeps_bind; [apply keeps_index|intros [rc r] _; by apply keeps_ret].
  intros w m o [rc r] w' m' o'. unfold sqlite3WalFindFrame. destruct (_ || _); [by injection 1 as <- <- <- <- <-|]. apply find_tables_fields.
Qed.

Lemma walFrameOffset_mono i j : i ≤ j → walFrameOffset i sz ≤ walFrameOffset j sz.
Proof. intros Hij. unfold walFrameOffset, WAL_FRAME_HDRSIZE. nia. Qed.

Lemma put4_length a (i : nat) v a' : put4 has_bswap a i v = Some a' → (i ≤ length a)%nat → length a' = length a.
Proof.
  unfold put4. destruct (sqlite3Put4byte has_bswap (drop i a) v) as [c|] eqn:E; [|done]. cbn [mbind option_bind]. injection 1 as <-. intros Hi.
  assert (length c = length (drop i a)) as Hc; [|rewrite length_app, length_take, Hc, length_drop; lia]. revert E. unfold sqlite3Put4byte, poke.
  assert (∀ x, length (native_bytes x) = 4%nat) as Hn by (intros x; unfold native_bytes; destruct little_endian; [apply length_le_bytes|apply length_be_bytes]).
  set (b := drop i a). destruct (negb little_endian); [|destruct has_bswap].
  1,2: destruct (Nat.leb_spec 4 (length b)); [|done]; injection 1 as <-; rewrite length_app, Hn, length_drop; lia.
  destruct (_ <? _)%nat; [|done]. cbn [mbind option_bind]. destruct (_ <? _)%nat; [|done]. cbn [mbind option_bind].
  destruct (_ <? _)%nat; [|done]. cbn [mbind option_bind]. destruct (_ <? _)%nat; [|done]. injection 1 as <-. by rewrite !length_insert.
Qed.

(** What [walEncodeFrame] returns. *)
Lemma walEncodeFrame_fields w q n data a a' w' : walEncodeFrame has_bswap w q n data a = Some (a', w') → length a = 24%nat → length (aSalt (hdr w)) = 8%nat →
  length a' = 24%nat ∧ wal_szPage w' = wal_szPage w ∧ iReCksum w' = iReCksum w ∧ aSalt (hdr w') = aSalt (hdr w).
Proof.
  unfold walEncodeFrame. intros E Ha Hs. destruct (put4 has_bswap a 0 q) as [a1|] eqn:E1; [|done]. cbn [mbind option_bind] in E.
  apply put4_length in E1; [|lia]. destruct (put4 has_bswap a1 4 n) as [a2|] eqn:E2; [|done]. cbn [mbind option_bind] in E. apply put4_length in E2; [|lia].
  assert (∀ bs, (length bs ≤ 16)%nat → length (put_bytes a2 8 bs) = 24%nat) as Hp.
  { intros bs Hb. unfold put_bytes. rewrite !length_app, length_take, length_drop. lia. }
  destruct (_ =? 0).
  - destruct (put4 has_bswap (put_bytes a2 8 (aSalt (hdr w))) 16 _) as [a3|] eqn:E3; [|done]. cbn [mbind option_bind] in E.
    apply put4_length in E3; [|rewrite Hp; lia]. destruct (put4 has_bswap a3 20 _) as [a4|] eqn:E4; [|done]. cbn [mbind option_bind] in E.
    rewrite Hp in E3 by lia. apply put4_length in E4; [|lia]. injection E as <- <-. split; [lia|done].
  - injection E as <- <-. split; [by apply Hp|done].
Qed.

Lemma walEncodeFrame_mxFrame w q n data a a' w' : walEncodeFrame has_bswap w q n data a = Some (a', w') → mxFrame (hdr w') = mxFrame (hdr w).
Proof.
  unfold walEncodeFrame. destruct (put4 has_bswap a 0 q); [|done]. cbn [mbind option_bind]. destruct (put4 has_bswap _ 4 n); [|done]. cbn [mbind option_bind].
  destruct (_ =? 0); [|by injection 1 as _ <-]. destruct (put4 has_bswap _ 16 _); [|done]. cbn [mbind option_bind].
  destruct (put4 has_bswap _ 20 _); [|done]. cbn [mbind option_bind]. by injection 1 as _ <-.
Qed.

Lemma keeps_write_to_log sp content off : log_end ≤ off → Z.of_nat (length content) < 2 ^ 31 → keeps d (walWriteToLog sp content off) (λ _ _, True).
Proof.
  intros Hoff Hl. unfold walWriteToLog. destruct (_ && _) eqn:E; [|by apply keeps_write]. apply andb_true_iff in E as [E1%Z.ltb_lt E2%Z.leb_le].
  eapply keeps_bind; [by apply keeps_write|]. intros rc _. apply keeps_on_ok. eapply keeps_bind; [apply keeps_outcome|]. intros rc2 _.
  destruct (_ || _); [by apply keeps_ret|]. apply keeps_write. unfold s32, wrap. rewrite Z.mod_small by lia. lia.
Qed.

Lemma keeps_one_frame w p n off : log_end ≤ off → w_szPage w = sz → keeps d (walWriteOneFrame has_bswap xCodec w p n off) (λ _ _, True).
Proof.
  intros Hoff Hw. unfold walWriteOneFrame. destruct (sqlite3PagerCodec xCodec p) as [data|]; [|by apply keeps_ret].
  eapply keeps_bind; [apply keeps_gets|]. intros pWal (st0 & Ew & [_ Hs0 Hr0 Hl0]). rewrite <- Ew in Hs0, Hr0, Hl0.
  eapply keeps_bind; [apply keeps_lift|]. intros [aFrame pWal'] (_ & E). apply walEncodeFrame_fields in E as (Hla & Es & Er & Esl); [|done|done].
  eapply keeps_bind; [apply keeps_set_wal; unfold fine; by rewrite Es, Er, Esl|]. intros _ _.
  eapply keeps_bind; [apply keeps_write_to_log; [done|lia]|]. intros rc _. apply keeps_on_ok.
  apply keeps_write_to_log; [unfold WAL_FRAME_HDRSIZE; lia|rewrite length_take, Hw; lia].
Qed.

Lemma keeps_rewrite_loop (n : nat) : ∀ iRead, base < iRead → keeps d (rewrite_loop has_bswap n sz iRead) (λ _ _, True).
Proof.
  induction n as [|n IH]; intros iRead Hi; cbn [rewrite_loop]; [by apply keeps_ret|].
  assert (log_end ≤ walFrameOffset iRead sz) as Hoff by (apply walFrameOffset_mono; lia).
  eapply keeps_bind; [apply keeps_read|]. intros [rc a] _. apply keeps_on_ok. eapply keeps_bind; [apply keeps_lift|]. intros q _.
  eapply keeps_bind; [apply keeps_lift|]. intros nd _. eapply keeps_bind; [apply keeps_gets|]. intros pWal (st0 & Ew & [_ Hs0 Hr0 Hl0]). rewrite <- Ew in Hs0, Hr0, Hl0.
  eapply keeps_bind; [apply keeps_lift|]. intros [aFrame pWal'] (_ & E). apply walEncodeFrame_fields in E as (Hla & Es & Er & Esl); [|done|done].
  eapply keeps_bind; [apply keeps_set_wal; unfold fine; by rewrite Es, Er, Esl|]. intros _ _.
  eapply keeps_bind; [by apply keeps_write|]. intros rc2 _. apply keeps_on_ok, IH. lia.
Qed.

(** New checksums, which are only asked for if there are frames to change. *)
Lemma rewrite_checksums_guarded iLast st a st' : guarded d st → iReCksum (wal st) ≠ 0 → walRewriteChecksums has_bswap iLast st = Some (a, st') → guarded d st'.
Proof.
  intros Hg Hne E. unfold walRewriteChecksums in E. rewrite bind_outcome in E. destruct (next_rc (rcs st)) as [rc o].
  assert (guarded d (set_rcs st o)) as Hg1 by by destruct Hg. destruct (negb _); [by injection E as <- <-|].
  rewrite bind_gets in E. change (wal (set_rcs st o)) with (wal st) in E. destruct (gd_rewrite _ _ Hg) as [?|Hre]; [done|]. rewrite (gd_size _ _ Hg) in E.
  revert E. generalize (set_rcs st o), Hg1. intros st1 Hg2 E.
  match type of E with ?m _ = _ => assert (keeps d m (λ _ _, True)) as Hk; [|by apply (Hk st1 a st' Hg2 E)] end.
  eapply keeps_bind; [apply keeps_read|]. intros [rc2 a2] _. eapply keeps_bind; [apply keeps_lift|]. intros c1 _. eapply keeps_bind; [apply keeps_lift|]. intros c2 _.
  eapply keeps_bind; [apply keeps_with_wal; [done|auto]|]. intros _ _. apply keeps_on_ok. by apply keeps_rewrite_loop.
Qed.

Lemma keeps_interfere : keeps d interfere (λ _ _, True).
Proof. intros st a st' [H1 H2 H3 H4] E. unfold interfere in E. by destruct (others st); injection E as <- <-. Qed.

Lemma keeps_write_hdr : keeps d walIndexWriteHdr (λ _ _, True).
Proof.
  unfold walIndexWriteHdr. eapply keeps_bind; [apply keeps_with_wal; [done|auto]|]. intros _ _. eapply keeps_bind; [apply keeps_gets|]. intros h _.
  eapply keeps_bind; [apply keeps_with_shm|]. intros _ _. eapply keeps_bind; [|intros _ _; apply keeps_with_shm].
  unfold walShmBarrier. eapply keeps_bind; [apply keeps_gets|]. intros w _. destruct (negb _); [apply keeps_interfere|by apply keeps_ret].
Qed.

Lemma keeps_overwrite q iFirst : base < iFirst → keeps d (overwrite_frame xCodec q iFirst sz) (λ _ _, True).
Proof.
  intros Hf. unfold overwrite_frame. eapply keeps_bind; [apply keeps_find|]. intros iWrite _. destruct (Z.leb_spec iFirst iWrite) as [Hle|]; [|by apply keeps_ret].
  eapply keeps_bind; [apply keeps_with_wal; intros w; destruct (_ || _); [done|done|cbn; right; right; lia|by left]|]. intros _ _.
  destruct (sqlite3PagerCodec xCodec q); [|by apply keeps_ret]. eapply keeps_bind; [apply keeps_write|intros rc _; by apply keeps_ret].
  unfold log_end. pose proof (walFrameOffset_mono (base + 1) iWrite). unfold WAL_FRAME_HDRSIZE. lia.
Qed.

Lemma keeps_write_pages iFirst n (isCommit : bool) : iFirst = 0 ∨ base < iFirst → ∀ pList iFrame, base ≤ iFrame →
  keeps d (write_pages has_bswap xCodec pList iFirst iFrame n isCommit sz) (λ r _, base ≤ snd (fst r)).
Proof.
  intros Hf. induction pList as [|q l IH]; intros iFrame Hi; cbn [write_pages]; [by apply keeps_ret|].
  eapply (keeps_bind _ _ (λ _ _, True)).
  { match goal with |- keeps _ (if ?b then _ else _) _ => destruct b eqn:E end; [|by apply keeps_ret].
    apply keeps_overwrite. apply andb_true_iff in E as [E _]. apply negb_true_iff, Z.eqb_neq in E. by destruct Hf. }
  intros [rc|] _; [destruct (negb _); [by apply keeps_ret|]; eapply keeps_bind; [by apply IH|]; intros [[rc' iF] app] [st' HQ]; by apply keeps_ret|].
  eapply keeps_bind; [apply keeps_one_frame; [apply walFrameOffset_mono; lia|done]|]. intros rc _.
  destruct (negb _); [apply keeps_ret; intros; cbn; lia|]. eapply keeps_bind; [apply IH; lia|]. intros [[rc' iF] app] [st' HQ]. by apply keeps_ret.
Qed.

Lemma keeps_pad_sector w pLast n : w_szPage w = sz → ∀ (k : nat) off nExtra, log_end ≤ off → 0 ≤ nExtra →
  keeps d (pad_sector has_bswap xCodec k w pLast n off nExtra) (λ r _, 0 ≤ snd r).
Proof.
  intros Hw. induction k as [|k IH]; intros off nExtra Hoff Hn; cbn [pad_sector]; [by apply keeps_ret|]. destruct (_ <? _); [|by apply keeps_ret].
  eapply keeps_bind; [apply keeps_lift|]. intros q _. eapply keeps_bind; [by apply keeps_one_frame|]. intros rc _.
  destruct (negb _); [by apply keeps_ret|]. apply IH; [rewrite Hw; unfold WAL_FRAME_HDRSIZE; lia|lia].
Qed.

Lemma keeps_sync_commit pLast iFrame n sectorSize : base ≤ iFrame → keeps d (sync_commit has_bswap xCodec pLast sz iFrame n sectorSize) (λ r _, 0 ≤ snd r).
Proof.
  intros Hi. unfold sync_commit. eapply keeps_bind; [apply keeps_gets|]. intros w _. destruct (padToSectorBoundary w).
  - eapply keeps_bind; [apply keeps_pad_sector; [done|apply walFrameOffset_mono; lia|lia]|]. intros [rc nExtra] [st' HQ]. cbn in HQ.
    destruct (negb _); [by apply keeps_ret|]. destruct (_ =? _); [|by apply keeps_ret]. eapply keeps_bind; [apply keeps_outcome|].
    intros rc2 _. by apply keeps_ret.
  - eapply keeps_bind; [apply keeps_outcome|]. intros rc2 _. by apply keeps_ret.
Qed.

Lemma keeps_truncate_log iLast (isCommit : bool) : base ≤ iLast → keeps d (truncate_log sz iLast isCommit) (λ _ _, True).
Proof.
  intros Hi. unfold truncate_log. eapply keeps_bind; [apply keeps_gets|]. intros w _. destruct (_ && _); [|by apply keeps_ret].
  set (nMax := if mxWalSize w <? _ then _ else _). assert (log_end ≤ nMax) as Hmax.
  { pose proof (walFrameOffset_mono (base + 1) (iLast + 1)). unfold nMax, log_end.
    destruct (Z.ltb_spec (mxWalSize w) (walFrameOffset (iLast + 1) sz)); lia. }
  eapply (keeps_bind _ _ (λ _ _, True)); [|intros _ _; apply keeps_with_wal; [done|auto]]. unfold walLimitSize. eapply (keeps_bind _ _ (λ _ _, True)); [unfold sqlite3OsFileSize;
    eapply keeps_bind; [apply keeps_outcome|intros rc _; eapply keeps_bind; [apply keeps_gets|intros f _; by apply (keeps_ret _ (λ _ _, True))]]|].
  intros [rc size] _. destruct (_ && _); [|by apply keeps_ret]. eapply (keeps_bind _ _ (λ _ _, True)); [|intros rc2 _; by apply keeps_ret].
  unfold os_update. eapply keeps_bind; [apply keeps_outcome|]. intros rc2 _. apply keeps_on_ok. eapply keeps_bind; [apply keeps_modify|intros _ _; by apply keeps_ret].
  intros st [[rest E] H2 H3 H4]. split; try done. cbn. rewrite E, take_app_ge by lia. by eexists.
Qed.

Lemma keeps_append_pages l : ∀ iFrame, keeps d (append_pages l iFrame) (λ _ _, True).
Proof.
  induction l as [|[q app] l IH]; intros iFrame; cbn [append_pages]; [by apply keeps_ret|]. destruct (negb app); [apply IH|].
  eapply keeps_bind; [apply keeps_append|]. intros rc _. destruct (negb _); [by apply keeps_ret|apply IH].
Qed.

Lemma keeps_finish iFrame n (isCommit : bool) : keeps d (finish_frames sz iFrame n isCommit) (λ _ _, True).
Proof.
  unfold finish_frames. eapply keeps_bind; [apply keeps_with_wal; [done|auto]|]. intros _ _. destruct isCommit; [|by apply keeps_ret].
  eapply keeps_bind; [apply keeps_with_wal; [done|auto]|]. intros _ _. eapply keeps_bind; [apply keeps_write_hdr|]. intros _ _.
  apply keeps_with_wal; [done|auto].
Qed.

(** A call that does not restart the log writes behind the committed frames, in
    whatever state the transaction is and whatever fails. *)
Lemma write_frames_guarded pList n (isCommit : bool) sync_flags iFirst sectorSize st a st' :
  guarded d st → base ≤ mxFrame (hdr (wal st)) → iFirst = 0 ∨ base < iFirst →
  write_frames has_bswap xCodec sz pList n isCommit sync_flags iFirst sectorSize st = Some (a, st') → guarded d st'.
Proof.
  intros Hg Hmx Hf E. unfold write_frames in E. rewrite bind_gets in E.
  unfold mbind at 1, M_bind at 1 in E. destruct (write_pages _ _ _ _ _ _ _ _ _) as [[[[rc iFrame] app] st1]|] eqn:E1; [|done].
  destruct (keeps_write_pages iFirst n isCommit Hf pList _ Hmx _ _ _ Hg E1) as [Hg1 HiF]. cbn in HiF.
  unfold on_ok at 1 in E. destruct (rc =? SQLITE_OK); [|by injection E as <- <-]. rewrite bind_gets in E.
  cbn beta in E. set (rw := if isCommit && negb (iReCksum (wal st1) =? 0) then _ else _) in E. destruct (rw st1) as [[rc2 st2]|] eqn:E2;
    [rewrite (bind_some _ _ _ _ _ E2) in E|unfold mbind, M_bind in E; by rewrite E2 in E].
  assert (guarded d st2) as Hg2.
  { unfold rw in E2. destruct (isCommit && negb (iReCksum (wal st1) =? 0)) eqn:Ec; [|by injection E2 as <- <-].
    apply andb_true_iff in Ec as [_ Ec]. apply negb_true_iff, Z.eqb_neq in Ec. by apply (rewrite_checksums_guarded iFrame st1 rc2). }
  revert E. match goal with |- ?m st2 = _ → _ => assert (keeps d m (λ _ _, True)) as Hk; [|intros E; by apply (Hk st2 a st' Hg2 E)] end.
  apply keeps_on_ok. eapply (keeps_bind _ _ (λ r _, 0 ≤ snd r)).
  { match goal with |- keeps _ (if ?b then _ else _) _ => destruct b end; [by apply keeps_sync_commit|apply keeps_ret; intros; cbn; lia]. }
  intros [[[|] rc3] nExtra] [st3 HQ]; cbn in HQ; [by apply keeps_ret|]. eapply keeps_bind; [apply keeps_truncate_log; lia|]. intros _ _.
  apply keeps_on_ok. eapply keeps_bind; [apply keeps_append_pages|]. intros [rc4 iF4] _. apply keeps_on_ok. eapply keeps_bind; [apply keeps_finish|]. intros _ _. by apply keeps_ret.
Qed.

Lemma sqlite3WalFrames_guarded pList n (isCommit : bool) sync_flags sectorSize salt0 salt1 st a st' :
  guarded d st → base ≤ mxFrame (shm_hdr0 (shm st)) < 2 ^ 32 - 1 → base ≤ mxFrame (hdr (wal st)) → readLock (wal st) ≠ 0 →
  sqlite3WalFrames has_bswap xCodec sz pList n isCommit sync_flags sectorSize salt0 salt1 st = Some (a, st') → guarded d st'.
Proof.
  intros Hg Hb Hmx Hlock. unfold sqlite3WalFrames, hdr_unchanged. run.
  unfold walRestartLog. run. destruct (Z.eqb_spec (readLock (wal st)) 0); [done|]. run. unfold on_ok at 1. change (SQLITE_OK =? SQLITE_OK) with true.
  cbn iota. run. destruct (Z.eqb_spec (mxFrame (hdr (wal st))) 0); [lia|]. run. unfold on_ok. change (SQLITE_OK =? SQLITE_OK) with true. cbn iota.
  apply write_frames_guarded; [done|done|]. destruct (negb _); [right; rewrite u32_small by lia; lia|by left].
Qed.

(** Any number of calls, each by a connection that reads the log and has seen the
    committed frames, in any state of its transaction. *)
Inductive calls : St → St → Prop :=
| calls_none st : calls st st
| calls_frames st pList n isCommit sync_flags sectorSize salt0 salt1 a st1 st2 :
    base ≤ mxFrame (shm_hdr0 (shm st)) < 2 ^ 32 - 1 → base ≤ mxFrame (hdr (wal st)) → readLock (wal st) ≠ 0 →
    sqlite3WalFrames has_bswap xCodec sz pList n isCommit sync_flags sectorSize salt0 salt1 st = Some (a, st1) →
    calls st1 st2 → calls st st2.

Lemma calls_guarded st st' : calls st st' → guarded d st → guarded d st'.
Proof. induction 1 as [|? ? ? ? ? ? ? ? ? ? ? Hb Hmx Hlock E _ IH]; [done|]. intros Hg. apply IH. by eapply sqlite3WalFrames_guarded. Qed.
(** ** Calls that do not commit *)

Context (salt : list Z).

(** The frames up to [i] are in the file, and behind the committed ones there is
    no other commit. *)
Record behind (i : Z) st : Prop := {
  bh_file : ∃ rest, pWalFd st = d ++ rest ∧ stale salt sz rest;
  bh_size : walFrameOffset (i + 1) sz ≤ file_size (pWalFd st);
  bh_salt : length (aSalt (hdr (wal st))) = 8%nat
}.

(** A write of the header of a frame that is no commit, or inside a page. *)
Definition plain_write (bs : list Z) (off : Z) : Prop :=
  ∃ i, base < i ∧ (off = walFrameOffset i sz ∧ length bs = 24%nat ∧ take 4 (drop 4 bs) = replicate 4 0 ∨
    off = walFrameOffset i sz + WAL_FRAME_HDRSIZE ∧ len bs ≤ sz).

Lemma place_write (rest bs : list Z) (o k : nat) : (o ≤ length rest)%nat →
  (k + 24 ≤ o → take 24 (drop k (take o rest ++ bs ++ drop (o + length bs) rest)) = take 24 (drop k rest))%nat ∧
  (o + length bs ≤ k → drop k (take o rest ++ bs ++ drop (o + length bs) rest) = drop k rest)%nat.
Proof.
  intros Ho. split; intros Hk.
  - rewrite drop_app_le by (rewrite length_take; lia). rewrite take_app_le by (rewrite length_drop, length_take; lia).
    rewrite skipn_firstn_comm, take_take. f_equal. lia.
  - rewrite drop_app_ge, length_take by (rewrite length_take; lia). rewrite drop_app_ge by lia. rewrite drop_drop. f_equal. lia.
Qed.

Lemma stale_write (rest bs : list Z) (m o : nat) : (o ≤ length rest)%nat → stale salt sz rest →
  o = (m * Z.to_nat (sz + 24))%nat ∧ length bs = 24%nat ∧ take 4 (drop 4 bs) = replicate 4 0 ∨ o = (m * Z.to_nat (sz + 24) + 24)%nat ∧ len bs ≤ sz →
  stale salt sz (take o rest ++ bs ++ drop (o + length bs) rest).
Proof.
  intros Ho Hs Hcase i. set (W := Z.to_nat (sz + 24)) in *. destruct (place_write rest bs o (i * W) Ho) as [Hlo Hhi].
  destruct (Nat.lt_trichotomy i m) as [Hi|[->|Hi]].
  - assert (i * W + W ≤ m * W)%nat by nia. rewrite Hlo by (destruct Hcase as [(-> & _)|[-> _]]; lia). apply Hs.
  - destruct Hcase as [(-> & Hl & Hz)|[-> _]]; [|rewrite Hlo by lia; apply Hs].
    rewrite drop_app_length' by (rewrite length_take; lia). rewrite take_app_length' by done. intros _. by left.
  - assert (m * W + W ≤ i * W)%nat by nia. rewrite Hhi by (destruct Hcase as [(-> & -> & _)|[-> ?]]; lia). apply Hs.
Qed.

Lemma behind_write i st bs off a st' : sqlite3OsWrite_wal bs off st = Some (a, st') → behind i st → plain_write bs off → off ≤ file_size (pWalFd st) →
  behind i st' ∧ wal st' = wal st ∧ file_size (pWalFd st) ≤ file_size (pWalFd st') ∧ (a = SQLITE_OK → off + len bs ≤ file_size (pWalFd st')).
Proof.
  intros E [(rest & Ef & Hs) Hsize Hsalt] (j & Hj & Hcase) Hoff. rewrite write_run in E. destruct (next_rc (rcs st)) as [rc o].
  destruct (Z.eqb_spec rc SQLITE_OK) as [->|Hrc]; injection E as <- <-; [|split; [split; [by exists rest|done|done]|done]].
  assert (log_end + (j - base - 1) * (sz + 24) = walFrameOffset j sz) as Ej by (unfold log_end, walFrameOffset, WAL_FRAME_HDRSIZE; lia).
  assert (len d ≤ off) as Hdo by (rewrite Hd; assert (0 ≤ (j - base - 1) * (sz + 24)) by nia; destruct Hcase as [(-> & _)|[-> _]]; unfold WAL_FRAME_HDRSIZE; lia).
  unfold file_size in *. cbn [pWalFd set_pWalFd set_rcs wal].
  assert (file_write (pWalFd st) off bs = d ++ take (Z.to_nat off - length d) rest ++ bs ++ drop (Z.to_nat off - length d + length bs) rest) as ->.
  { unfold file_write. rewrite Ef. rewrite Ef in Hoff. replace (Z.to_nat off - length (d ++ rest))%nat with 0%nat by lia. cbn [replicate]. rewrite app_nil_r.
    rewrite take_app_ge by lia. rewrite <- app_assoc, drop_app_ge by lia. do 4 f_equal. lia. }
  rewrite Ef, length_app in Hoff. set (o' := (Z.to_nat off - length d)%nat). assert (o' ≤ length rest)%nat as Ho' by lia.
  assert (Z.of_nat (length (d ++ take o' rest ++ bs ++ drop (o' + length bs) rest)) = Z.max (Z.of_nat (length (pWalFd st))) (off + len bs)) as Hlen.
  { rewrite Ef, !length_app, length_take, length_drop. lia. }
  rewrite Hlen. split; [|split; [done|lia]]. split; [|cbn [pWalFd set_pWalFd set_rcs]; unfold file_size; rewrite Hlen; lia|done].
  eexists. split; [done|]. apply (stale_write _ _ (Z.to_nat (j - base - 1))); [done|done|].
  assert (Z.to_nat (j - base - 1) * Z.to_nat (sz + 24) = Z.to_nat (walFrameOffset j sz - len d))%nat as Em.
  { rewrite <- Z2Nat.inj_mul by lia. f_equal. lia. }
  assert (0 ≤ (j - base - 1) * (sz + 24)) by nia.
  destruct Hcase as [(-> & Hl & Hz)|[-> Hl]]; [left; split; [rewrite Em; lia|done]|right; split; [rewrite Em; unfold WAL_FRAME_HDRSIZE in *; lia|done]].
Qed.

Lemma put4_prefix a (i : nat) v a' (n : nat) : put4 has_bswap a i v = Some a' → (n ≤ i)%nat → (i ≤ length a)%nat → take n a' = take n a.
Proof.
  unfold put4. destruct (sqlite3Put4byte _ _ _) as [c|]; [|done]. cbn [mbind option_bind]. injection 1 as <-. intros Hn Hi.
  rewrite take_app_le by (rewrite length_take; lia). rewrite take_take. f_equal. lia.
Qed.

(** The size in the header that [walEncodeFrame] makes. *)
Lemma walEncodeFrame_size w q data a a' w' : walEncodeFrame has_bswap w q 0 data a = Some (a', w') → length a = 24%nat → 0 < q < 2 ^ 32 →
  length (aSalt (hdr w)) = 8%nat → take 4 (drop 4 a') = replicate 4 0.
Proof.
  intros E Ha Hq Hs. assert (∀ b : list Z, take 8 b = take 8 (be_bytes 4 q ++ replicate 4 0 ++ drop 8 a) → take 4 (drop 4 b) = replicate 4 0) as Hfin.
  { intros b Hb. change (take 4 (drop 4 b)) with (take (8 - 4) (drop 4 b)). rewrite <- skipn_firstn_comm, Hb. done. }
  apply Hfin. unfold walEncodeFrame in E. rewrite put4_spec in E by (unfold uint; lia). cbn [mbind option_bind] in E.
  set (a1 := take 0 a ++ be_bytes 4 q ++ drop (0 + 4) a) in E.
  assert (length a1 = 24%nat) as Hl1 by (unfold a1; rewrite !length_app, length_be_bytes, length_drop, length_take; lia).
  rewrite put4_spec in E by (unfold uint; lia). cbn [mbind option_bind] in E. set (a2 := take 4 a1 ++ be_bytes 4 0 ++ drop (4 + 4) a1) in E.
  assert (length a2 = 24%nat) as Hl2 by (unfold a2; rewrite !length_app, length_be_bytes, length_drop, length_take; lia).
  assert (take 8 a2 = take 8 (be_bytes 4 q ++ replicate 4 0 ++ drop 8 a)) as E2.
  { unfold a2, a1. pose proof (length_be_bytes 4 q) as Hbl.
    destruct (be_bytes 4 q) as [|x0 [|x1 [|x2 [|x3 [|]]]]]; done. }
  assert (∀ bs, (length bs ≤ 16)%nat → length (put_bytes a2 8 bs) = 24%nat ∧ take 8 (put_bytes a2 8 bs) = take 8 a2) as Hp.
  { intros bs Hb. unfold put_bytes. rewrite !length_app, length_take, length_drop. split; [lia|]. rewrite take_app_le by (rewrite length_take; lia).
    by rewrite take_take. }
  destruct (_ =? 0).
  - destruct (Hp (aSalt (hdr w))) as [Hl3 E3]; [lia|].
    destruct (put4 has_bswap (put_bytes a2 8 (aSalt (hdr w))) 16 _) as [a4|] eqn:E4; [|done]. cbn [mbind option_bind] in E.
    pose proof (put4_length _ _ _ _ E4 ltac:(lia)) as Hl4.
    destruct (put4 has_bswap a4 20 _) as [a5|] eqn:E5; [|done]. cbn [mbind option_bind] in E. injection E as <- _.
    rewrite (put4_prefix _ _ _ _ 8 E5), (put4_prefix _ _ _ _ 8 E4) by lia. by rewrite E3.
  - injection E as <- _. rewrite <- E2. apply (Hp (replicate 16 0)). done.
Qed.

Lemma frame_behind i st p a st' : behind i st → base ≤ i → valid_page xCodec sz p →
  walWriteOneFrame has_bswap xCodec (mkWalWriter 0 sz) p 0 (walFrameOffset (i + 1) sz) st = Some (a, st') →
  behind i st' ∧ mxFrame (hdr (wal st')) = mxFrame (hdr (wal st)) ∧ (a = SQLITE_OK → behind (i + 1) st').
Proof.
  intros Hb Hi (Hp & data & Hdata & Hl & _) E. unfold walWriteOneFrame in E. rewrite Hdata, bind_gets in E.
  destruct (walEncodeFrame has_bswap (wal st) (pgno p) 0 data (replicate 24 0)) as [[aFrame w']|] eqn:Ee; [|done]. rewrite bind_lift in E. cbn beta iota in E.
  rewrite bind_with_wal in E. pose proof (bh_salt _ _ Hb) as Hs.
  destruct (walEncodeFrame_fields _ _ _ _ _ _ _ Ee) as (Hla & _ & _ & Hsalt'); [done|done|].
  pose proof (walEncodeFrame_size _ _ _ _ _ _ Ee ltac:(done) Hp Hs) as Hz.
  assert (mxFrame (hdr w') = mxFrame (hdr (wal st))) as Hmx by by eapply walEncodeFrame_mxFrame.
  set (st1 := set_wal st w') in E. assert (behind i st1) as Hb1 by (destruct Hb; split; [done|done|cbn; by rewrite Hsalt']).
  unfold walWriteToLog in E. cbn [iSyncPoint w_szPage] in E. assert (0 ≤ walFrameOffset (i + 1) sz) as Hoff0 by (unfold walFrameOffset, WAL_HDRSIZE, WAL_FRAME_HDRSIZE; nia).
  assert (walFrameOffset (i + 1) sz <? 0 = false) as E1 by lia. assert (walFrameOffset (i + 1) sz + WAL_FRAME_HDRSIZE <? 0 = false) as E2 by (unfold WAL_FRAME_HDRSIZE; lia).
  rewrite E1, E2 in E. cbn [andb] in E. apply bind_inv in E as (rc & st2 & Ew & E).
  destruct (behind_write _ _ _ _ _ _ Ew Hb1) as (Hb2 & Hw2 & Hsz2 & Hok2); [exists (i + 1); split; [lia|by left]|apply Hb1|].
  unfold on_ok in E. destruct (Z.eqb_spec rc SQLITE_OK) as [->|Hrc].
  2: { injection E as <- <-. split; [done|]. split; [by rewrite Hw2|done]. }
  specialize (Hok2 eq_refl). rewrite Hla in Hok2. change (Z.of_nat 24) with WAL_FRAME_HDRSIZE in Hok2.
  destruct (behind_write _ _ _ _ _ _ E Hb2) as (Hb3 & Hw3 & Hsz3 & Hok3);
    [exists (i + 1); split; [lia|right; split; [done|rewrite length_take; lia]]|done|].
  split; [done|]. split; [by rewrite Hw3, Hw2|]. intros Hrc. specialize (Hok3 Hrc). destruct Hb3 as [H1 _ H3]. split; [done| |done].
  rewrite length_take in Hok3. rewrite <- walFrameOffset_next. unfold WAL_FRAME_HDRSIZE in Hok3. lia.
Qed.

Lemma overwrite_behind i st p iFirst a st' : behind i st → base < iFirst → 0 ≤ mxFrame (hdr (wal st)) ≤ i →
  overwrite_frame xCodec p iFirst sz st = Some (a, st') → behind i st' ∧ mxFrame (hdr (wal st')) = mxFrame (hdr (wal st)).
Proof.
  intros Hb Hf Hmx E. unfold overwrite_frame in E. apply bind_inv in E as (iWrite & st1 & Ef & E). destruct (find_frame_bounds _ _ _ _ Ef) as (Hle & Hfd & Hh & _); [lia|].
  assert (behind i st1) as Hb1 by (destruct Hb; split; rewrite ?Hfd, ?Hh; done).
  destruct (Z.leb_spec iFirst iWrite) as [Hge|]; [|injection E as <- <-; by rewrite Hh].
  rewrite bind_with_wal in E. set (st2 := set_wal st1 _) in E. assert (hdr (wal st2) = hdr (wal st1)) as Hh2 by (cbn; by destruct (_ || _)).
  assert (behind i st2) as Hb2 by (destruct Hb1; split; rewrite ?Hh2; done).
  destruct (sqlite3PagerCodec xCodec p) as [data|]; [|injection E as <- <-; by rewrite Hh2, Hh].
  apply bind_inv in E as (rc & st3 & Ew & E). injection E as <- <-.
  destruct (behind_write _ _ _ _ _ _ Ew Hb2) as (Hb3 & -> & _); [| |by rewrite Hh2, Hh].
  - exists iWrite. split; [lia|]. right. split; [done|]. rewrite length_take. lia.
  - pose proof (bh_size _ _ Hb2). pose proof (walFrameOffset_mono (iWrite + 1) (i + 1) ltac:(lia)). pose proof (walFrameOffset_next iWrite sz). unfold WAL_FRAME_HDRSIZE. lia.
Qed.

Lemma pages_behind iFirst n pList : iFirst = 0 ∨ base < iFirst → Forall (valid_page xCodec sz) pList →
  ∀ i st a st', behind i st → base ≤ i → 0 ≤ mxFrame (hdr (wal st)) ≤ i →
  write_pages has_bswap xCodec pList iFirst i n false sz st = Some (a, st') → ∃ j, behind j st'.
Proof.
  intros Hf. induction 1 as [|p l Hp Hl IH]; intros i st a st' Hb Hi Hmx E; cbn [write_pages] in E; [injection E as _ <-; by exists i|].
  rewrite orb_true_r, andb_true_r in E. set (ow := if negb (iFirst =? 0) then _ else _) in E.
  apply bind_inv in E as (r & st1 & Eo & E).
  assert (behind i st1 ∧ mxFrame (hdr (wal st1)) = mxFrame (hdr (wal st))) as [Hb1 Hmx1].
  { unfold ow in Eo. destruct (Z.eqb_spec iFirst 0); cbn [negb] in Eo; [by injection Eo as _ <-|]. eapply overwrite_behind; [exact Hb| |done|exact Eo]. by destruct Hf. }
  destruct r as [rc|].
  - destruct (Z.eqb_spec rc SQLITE_OK) as [->|Hrc]; cbn [negb] in E; [|injection E as _ <-; by exists i].
    apply bind_inv in E as ([[rc' iF] app] & st2 & El & E). injection E as _ <-. eapply IH; [exact Hb1|done|by rewrite Hmx1|exact El].
  - cbn [andb] in E. apply bind_inv in E as (rc & st2 & Ew & E). destruct (frame_behind i st1 p rc st2 Hb1 Hi Hp Ew) as (Hb2 & Hmx2 & Hok).
    destruct (Z.eqb_spec rc SQLITE_OK) as [->|Hrc]; cbn [negb] in E; [|injection E as _ <-; by exists i].
    apply bind_inv in E as ([[rc' iF] app] & st3 & El & E). injection E as _ <-. eapply IH; [by apply Hok|lia|rewrite Hmx2, Hmx1; lia|exact El].
Qed.

Lemma append_pages_file l : ∀ i st a st', append_pages l i st = Some (a, st') → pWalFd st' = pWalFd st.
Proof.
  induction l as [|[q app] l IH]; intros i st a st' E; cbn [append_pages] in E; [by injection E as _ <-|]. destruct (negb app); [by apply IH in E|].
  unfold mbind at 1, M_bind at 1 in E. unfold index in E. destruct (walIndexAppend _ _ _ _ _) as [[[[rc w] m] o]|]; [|done].
  destruct (negb _); [by injection E as _ <-|]. by apply IH in E.
Qed.

(** A call that is no commit leaves no other commit behind the committed frames,
    whatever it returns. *)
Lemma write_frames_stale pList n sync_flags iFirst sectorSize st a st' :
  behind (mxFrame (hdr (wal st))) st → base ≤ mxFrame (hdr (wal st)) → iFirst = 0 ∨ base < iFirst → Forall (valid_page xCodec sz) pList →
  write_frames has_bswap xCodec sz pList n false sync_flags iFirst sectorSize st = Some (a, st') →
  ∃ rest, pWalFd st' = d ++ rest ∧ stale salt sz rest.
Proof.
  intros Hb Hmx Hf Hp E. unfold write_frames in E. rewrite bind_gets in E.
  apply bind_inv in E as ([[rc iFrame] app] & st1 & E1 & E). destruct (pages_behind iFirst n pList Hf Hp _ _ _ _ Hb Hmx ltac:(lia) E1) as (j & [Hfile _ _]).
  assert (pWalFd st' = pWalFd st1) as ->; [|done]. unfold on_ok at 1 in E. destruct (rc =? SQLITE_OK); [|by injection E as _ <-].
  rewrite bind_gets in E. cbn [andb] in E. rewrite bind_ret in E. unfold on_ok at 1 in E. change (SQLITE_OK =? SQLITE_OK) with true in E. cbn iota in E.
  rewrite bind_ret in E. cbn beta iota in E. unfold truncate_log in E. rewrite bind_assoc, bind_gets in E. cbn [andb] in E. rewrite bind_ret in E.
  unfold on_ok at 1 in E. change (SQLITE_OK =? SQLITE_OK) with true in E. cbn iota in E.
  apply bind_inv in E as ([rc2 iF] & st2 & E2 & E). apply append_pages_file in E2. unfold on_ok in E. destruct (rc2 =? SQLITE_OK); [|by injection E as _ <-].
  unfold finish_frames in E. rewrite bind_assoc, bind_with_wal, bind_ret in E. by injection E as _ <-.
Qed.

(** Calls that do not commit; the frames that the connection counts are in the
    file. *)
Inductive uncommitted : St → St → Prop :=
| uncommitted_none st : uncommitted st st
| uncommitted_frames st pList n sync_flags sectorSize salt0 salt1 a st1 st2 :
    base ≤ mxFrame (shm_hdr0 (shm st)) < 2 ^ 32 - 1 → base ≤ mxFrame (hdr (wal st)) → readLock (wal st) ≠ 0 →
    walFrameOffset (mxFrame (hdr (wal st)) + 1) sz ≤ file_size (pWalFd st) → Forall (valid_page xCodec sz) pList →
    sqlite3WalFrames has_bswap xCodec sz pList n false sync_flags sectorSize salt0 salt1 st = Some (a, st1) →
    uncommitted st1 st2 → uncommitted st st2.

Lemma uncommitted_stale st st' : uncommitted st st' → guarded d st →
  (∃ rest, pWalFd st = d ++ rest ∧ stale salt sz rest) → ∃ rest, pWalFd st' = d ++ rest ∧ stale salt sz rest.
Proof.
  induction 1 as [|st pList n sf ss s0 s1 a st1 st2 Hb Hmx Hlock Hsize Hp E _ IH]; [done|]. intros Hg Hs.
  apply IH; [by eapply sqlite3WalFrames_guarded|]. revert E. unfold sqlite3WalFrames, hdr_unchanged. run.
  unfold walRestartLog. run. destruct (Z.eqb_spec (readLock (wal st)) 0); [done|]. run. unfold on_ok at 1. change (SQLITE_OK =? SQLITE_OK) with true.
  cbn iota. run. destruct (Z.eqb_spec (mxFrame (hdr (wal st))) 0); [lia|]. run. unfold on_ok. change (SQLITE_OK =? SQLITE_OK) with true. cbn iota.
  apply write_frames_stale; [by split; [..|apply Hg]|done| |done]. destruct (negb _); [right; rewrite u32_small by lia; lia|by left].
Qed.
End keeps.

(** ** Recovery of any file with a log *)

(** The page numbers and sizes of two frames whose headers start the same bytes. *)
Lemma header_inj be be' salt salt' s s' f f' sz (a b : list Z) : length salt = 8%nat → length salt' = 8%nat → valid_frame sz f → valid_frame sz f' →
  frame_header be salt s f ++ a = frame_header be' salt' s' f' ++ b → f_pgno f = f_pgno f' ∧ f_size f = f_size f'.
Proof.
  intros Hs Hs' (Hp & Hf & _) (Hp' & Hf' & _) E. unfold frame_header in E. rewrite <- !app_assoc in E. unfold uint in *.
  apply app_inj_1 in E as [E1 E]; [|by rewrite !length_be_bytes]. apply app_inj_1 in E as [E2 _]; [|by rewrite !length_be_bytes].
  apply (f_equal be_word) in E1, E2. rewrite !be_word_bytes in E1, E2. change (8 * Z.of_nat 4) with 32 in *.
  rewrite !Z.mod_small in E1, E2 by lia. done.
Qed.

(** Frames where there is no commit have no size. *)
Lemma stale_frames be salt sz fs : 0 ≤ sz → length salt = 8%nat → Forall (valid_frame sz) fs → ∀ s rest,
  stale salt sz (frames_bytes be salt s fs ++ rest) → Forall (λ f, f_size f = 0) fs.
Proof.
  intros Hsz Hls. induction 1 as [|f fs Hf _ IH]; intros s rest Hs; [constructor|]. cbn [frames_bytes] in Hs. rewrite <- app_assoc in Hs.
  pose proof (length_frame be salt s f sz Hls Hf) as Hl. pose proof (length_frame_header be salt s f Hls) as Hh. constructor.
  - specialize (Hs 0%nat). cbn [Nat.mul] in Hs. rewrite drop_0 in Hs. unfold frame_bytes in Hs. rewrite <- app_assoc, take_app_length' in Hs by lia.
    destruct (Hs Hh) as [E|E].
    + unfold frame_header in E. rewrite drop_app_length', take_app_length' in E by by rewrite length_be_bytes. apply (f_equal be_word) in E.
      rewrite be_word_bytes in E. destruct Hf as (_ & Hf & _). unfold uint in Hf. by rewrite Z.mod_small in E.
    + exfalso. apply E. unfold frame_header. rewrite (app_assoc (be_bytes 4 (f_pgno f))), drop_app_length', take_app_length'; [done|done|by rewrite length_app, !length_be_bytes].
  - apply (IH (frame_cksum be s f) rest). apply (stale_drop _ _ _ 1) in Hs. by rewrite drop_app_length' in Hs by lia.
Qed.

Lemma committed_zero_sizes be s i fs c : Forall (λ f, f_size f = 0) fs → committed be s i fs c = c.
Proof. intros Hfs. revert s i. induction Hfs as [|f fs Hf _ IH]; intros s i; [done|]. cbn [committed]. rewrite Hf. apply IH. Qed.

(** The frames of the format that a call which fails has left behind: no commit,
    or its own. *)
Lemma left_over_frames be sz nCkpt salt fs new0 fl rest F :
  0 ≤ sz → length salt = 8%nat → bytes_ok F → Forall (valid_frame sz) (new0 ++ [fl]) → Forall (λ f, f_size f = 0) new0 → stale salt sz rest →
  left_over be sz nCkpt salt fs (new0 ++ [fl]) rest F →
  ∃ all rest', F = log_bytes be sz nCkpt salt (fs ++ all) ++ rest' ∧ Forall (valid_frame sz) all ∧ bytes_ok rest' ∧
    no_frame be salt (foldl (frame_cksum be) (header_cksum be sz nCkpt salt) (fs ++ all)) sz rest' ∧
    (Forall (λ f, f_size f = 0) all ∨
     ∃ g extra, all = new0 ++ g :: extra ∧ f_pgno g = f_pgno fl ∧ f_size g = f_size fl ∧ Forall (λ f, f_size f = 0) extra).
Proof.
  intros Hsz Hls Hb Hv H0 Hst (R & -> & Hcase). set (s := foldl (frame_cksum be) (header_cksum be sz nCkpt salt) fs) in *.
  assert (∀ pre tl, Forall (valid_frame sz) pre → R = frames_bytes be salt s pre ++ tl →
    ∃ extra rest', tl = frames_bytes be salt (foldl (frame_cksum be) s pre) extra ++ rest' ∧ Forall (valid_frame sz) (pre ++ extra) ∧ bytes_ok rest' ∧
      no_frame be salt (foldl (frame_cksum be) (header_cksum be sz nCkpt salt) (fs ++ pre ++ extra)) sz rest' ∧
      log_bytes be sz nCkpt salt fs ++ R = log_bytes be sz nCkpt salt (fs ++ pre ++ extra) ++ rest') as Hsplit.
  { intros pre tl Hpre ->. rewrite !Forall_app in Hb. destruct Hb as (_ & _ & Hb).
    destruct (all_frames be salt sz Hsz Hls (length tl) (foldl (frame_cksum be) s pre) tl) as (extra & rest' & Hve & -> & Hb' & Hno); [done|done|].
    exists extra, rest'. split; [done|]. split; [by apply Forall_app|]. split; [done|]. rewrite app_assoc, !foldl_app. split; [done|].
    rewrite (log_bytes_app _ _ _ _ (fs ++ pre)), log_bytes_app, foldl_app. by rewrite <- !app_assoc. }
  destruct Hcase as [(j & tl & Hj & ER & Htl)|(R' & ER & Hst')].
  - assert (Forall (valid_frame sz) (take j (new0 ++ [fl]))) as Hvj by by apply Forall_take.
    destruct (Hsplit _ _ Hvj ER) as (extra & rest' & Etl & Hve & Hb' & Hno & EF). rewrite length_app in Hj. cbn [length] in Hj.
    assert (Forall (λ f, f_size f = 0) (take j (new0 ++ [fl]))) as Hz by (rewrite take_app_le by lia; by apply Forall_take).
    apply (stale_drop _ _ _ j) in Hst. exists (take j (new0 ++ [fl]) ++ extra), rest'. split; [done|]. split; [done|]. split; [done|]. split; [done|].
    pose proof Hve as [_ Hve']%Forall_app. destruct Htl as [E|(f & Hf & E)].
    + left. apply Forall_app. split; [done|]. eapply stale_frames; [done|done|done|]. rewrite <- Etl, E. exact Hst.
    + destruct extra as [|g extra]; [left; by rewrite app_nil_r|]. apply Forall_cons in Hve' as [Hg Hve'].
      cbn [frames_bytes] in Etl. rewrite E in Etl. pose proof Etl as Eh. unfold frame_bytes in Eh. rewrite <- !app_assoc in Eh.
      pose proof (Forall_lookup_1 _ _ _ _ Hv Hf) as Hvf. apply (header_inj _ _ _ _ _ _ _ _ sz) in Eh as [Ep Es]; [|done..].
      assert (Forall (λ f, f_size f = 0) extra) as Hze.
      { apply (f_equal (drop (Z.to_nat (sz + 24)))) in Etl. pose proof (length_frame be salt (foldl (frame_cksum be) s (take j (new0 ++ [fl]))) g sz Hls Hg) as Hlg.
        pose proof (length_frame_header be salt (foldl (frame_cksum be) s (take j (new0 ++ [fl]))) f Hls) as Hlh.
        rewrite <- (app_assoc (frame_bytes _ _ _ _)), (drop_app_length' (frame_bytes _ _ _ _)) in Etl by lia. rewrite drop_app_ge, Hlh, drop_drop in Etl by lia.
        replace (24 + (Z.to_nat (sz + 24) - 24))%nat with (Z.to_nat (sz + 24)) in Etl by lia.
        eapply stale_frames; [done|done|done|]. rewrite <- Etl. apply (stale_drop _ _ _ 1) in Hst. by rewrite Nat.mul_1_l in Hst. }
      destruct (Nat.lt_ge_cases j (length new0)) as [Hlt|Hge].
      * left. apply Forall_app. split; [done|]. constructor; [|done]. rewrite <- Es. rewrite lookup_app_l in Hf by done. exact (Forall_lookup_1 _ _ _ _ H0 Hf).
      * assert (j = length new0) as -> by lia. right. exists g, extra. rewrite take_app_length. rewrite lookup_app_r, Nat.sub_diag in Hf by lia. injection Hf as <-. done.
  - destruct (Hsplit _ _ Hv ER) as (extra & rest' & Etl & Hve & Hb' & Hno & EF). exists ((new0 ++ [fl]) ++ extra), rest'. split; [done|].
    split; [done|]. split; [done|]. split; [done|]. right. exists fl, extra. rewrite <- app_assoc. split; [done|]. split; [done|]. split; [done|].
    apply Forall_app in Hve as [_ Hve]. eapply stale_frames; [done|done|done|]. rewrite <- Etl. by apply Hst'.
Qed.

(** A connection that recovers the log in the file [F]: it has the lock of a
    writer, nobody else is there, and there is no index yet. *)
Record recovering (F : list Z) (st : St) : Prop := {
  rc_file : pWalFd st = F;
  rc_bytes : bytes_ok F;
  rc_size : file_size F < 2 ^ 40;
  rc_conn : conn_ok (wal st) (shm st);
  rc_log : log_ok (shm st) [];
  rc_lock : writeLock (wal st) = true;
  rc_others : others st = []
}.

Section survive.
Context {m2 : Machine} (has_bswap : bool).
Implicit Types (st : St) (fs : list log_frame).

Lemma recover_log st be sz nCkpt salt fs rest F : recovering F st → log_file be sz nCkpt salt fs rest F → fs ≠ [] →
  ∃ rc st', walIndexRecover has_bswap st = Some (rc, st') ∧ (rcs st = [] ∧ all_free st → rc = SQLITE_OK) ∧
    (rc = SQLITE_OK → log_ok (shm st') (f_pgno <$> fs) ∧
      (mxFrame (hdr (wal st')), nPage (hdr (wal st')), aFrameCksum (hdr (wal st'))) = committed be (header_cksum be sz nCkpt salt) 0 fs (0, 0, (0, 0))).
Proof.
  intros [Ef _ Hsize Hc Hlog Hw Ho] Hlf Hne. subst F. pose proof Hlf as [Hsz Hn Hls Hsb Hv' _ _ Hbytes]. pose proof Hsz as [Hsz1 _].
  pose proof (length_log be sz nCkpt salt _ Hls Hv') as Hll. pose proof (f_equal length Hbytes) as Hlen. rewrite length_app in Hlen.
  unfold walFrameOffset, WAL_HDRSIZE, WAL_FRAME_HDRSIZE, file_size in *.
  assert (1 ≤ Z.of_nat (length fs)) as H1 by (destruct fs; [done|cbn [length]; lia]).
  assert (Z.of_nat (length fs) + 1 < 2 ^ 31) as H31.
  { assert (Z.of_nat (length fs) * 536 ≤ Z.of_nat (length fs) * (sz + 24)) by (apply Z.mul_le_mono_nonneg_l; lia). lia. }
  destruct (walIndexRecover_spec has_bswap st be sz nCkpt salt fs rest Hc Hlog Hw Ho Hlf H31) as (rc & st' & E & _ & _ & Hr & Hok & Herr).
  { unfold file_size, WAL_HDRSIZE. nia. }
  exists rc, st'. split; [done|]. split; [intros Hn0; by apply Hr|]. intros Hrc. destruct (Hok Hrc) as [? ? ? ? ? ? ?]. by split.
Qed.

(** The connection has an index with the frames [fs], a commit of a database of
    [n] pages; behind them it may have frames that do not count. *)
Definition rebuilt st fs (n : Z) : Prop :=
  mxFrame (hdr (wal st)) = len fs ∧ nPage (hdr (wal st)) = n ∧ ∃ extra, log_ok (shm st) ((f_pgno <$> fs) ++ extra).

Section log.
Context (be : bool) (sz nCkpt : Z) (salt : list Z) (fs : list log_frame) (f : log_frame) (F : list Z) (st : St).
Context (Hst : recovering F st) (Hsz : page_size sz) (Hn : uint 32 nCkpt) (Hls : length salt = 8%nat) (Hsb : bytes_ok salt).
Context (Hv : Forall (valid_frame sz) (fs ++ [f])) (Hf : f_size f ≠ 0).

Lemma file_of all rest : F = log_bytes be sz nCkpt salt ((fs ++ [f]) ++ all) ++ rest → Forall (valid_frame sz) all → bytes_ok rest →
  no_frame be salt (foldl (frame_cksum be) (header_cksum be sz nCkpt salt) ((fs ++ [f]) ++ all)) sz rest →
  log_file be sz nCkpt salt ((fs ++ [f]) ++ all) rest F.
Proof. intros E Hva Hr Hno. split; try done. by apply Forall_app. Qed.

(** Whatever follows the frames, of which the last is a commit, they are found
    again. *)
Lemma recover_any rest : F = log_bytes be sz nCkpt salt (fs ++ [f]) ++ rest →
  ∃ rc st', walIndexRecover has_bswap st = Some (rc, st') ∧ (rcs st = [] ∧ all_free st → rc = SQLITE_OK) ∧
    (rc = SQLITE_OK → len (fs ++ [f]) ≤ mxFrame (hdr (wal st')) ∧ (∃ extra, log_ok (shm st') ((f_pgno <$> (fs ++ [f])) ++ extra)) ∧
      (stale salt sz rest → rebuilt st' (fs ++ [f]) (f_size f))).
Proof.
  intros E. pose proof Hsz as [Hsz1 _]. pose proof (rc_bytes _ _ Hst) as Hb. rewrite E, Forall_app in Hb. destruct Hb as [_ Hb].
  destruct (all_frames be salt sz ltac:(lia) Hls (length rest) (foldl (frame_cksum be) (header_cksum be sz nCkpt salt) (fs ++ [f])) rest) as
    (all & rest' & Hva & -> & Hb' & Hno); [done|done|].
  destruct (recover_log st be sz nCkpt salt ((fs ++ [f]) ++ all) rest' F Hst) as (rc & st' & E' & Hr & Hok); [|by destruct fs|].
  { apply file_of; try done; [|by rewrite foldl_app]. rewrite E, (log_bytes_app _ _ _ _ (fs ++ [f])). by rewrite app_assoc. }
  exists rc, st'. split; [done|]. split; [done|]. intros Hrc. destruct (Hok Hrc) as [Hlog Hcm]. rewrite fmap_app in Hlog.
  pose proof (f_equal (λ x, fst (fst x)) Hcm) as Hmx. cbn [fst] in Hmx. rewrite committed_app in Hmx.
  pose proof (committed_last be (header_cksum be sz nCkpt salt) 0 fs f (0, 0, (0, 0)) Hf) as Hlast.
  split; [|split; [by eexists|]].
  - pose proof (committed_mono be (foldl (frame_cksum be) (header_cksum be sz nCkpt salt) (fs ++ [f])) (0 + len (fs ++ [f])) all
      (committed be (header_cksum be sz nCkpt salt) 0 (fs ++ [f]) (0, 0, (0, 0)))) as Hmono.
    rewrite Hlast, length_app in *. cbn [length] in *. lia.
  - intros Hs. assert (Forall (λ f, f_size f = 0) all) as Hz by (eapply stale_frames; [|exact Hls|exact Hva|exact Hs]; lia).
    rewrite committed_app, committed_zero_sizes in Hcm by done. rewrite committed_zero_sizes in Hmx by done.
    split; [|split; [|by eexists]].
    + rewrite Hmx, Hlast, length_app. cbn [length]. lia.
    + apply (f_equal (λ x, snd (fst x))) in Hcm. cbn [fst snd] in Hcm. rewrite Hcm. by apply committed_size.
Qed.

(** What a transaction that failed has left behind is no commit, or its own. *)
Lemma recover_left_over new0 fl rest : Forall (valid_frame sz) (new0 ++ [fl]) → Forall (λ f, f_size f = 0) new0 → f_size fl ≠ 0 → stale salt sz rest →
  left_over be sz nCkpt salt (fs ++ [f]) (new0 ++ [fl]) rest F →
  ∃ rc st', walIndexRecover has_bswap st = Some (rc, st') ∧ (rcs st = [] ∧ all_free st → rc = SQLITE_OK) ∧
    (rc = SQLITE_OK → rebuilt st' (fs ++ [f]) (f_size f) ∨ rebuilt st' ((fs ++ [f]) ++ new0 ++ [fl]) (f_size fl)).
Proof.
  intros Hvn Hz Hfl Hs Hlo. pose proof Hsz as [Hsz1 _].
  destruct (left_over_frames be sz nCkpt salt (fs ++ [f]) new0 fl rest F ltac:(lia) Hls (rc_bytes _ _ Hst) Hvn Hz Hs Hlo) as (all & rest' & E & Hva & Hb' & Hno & Hall).
  destruct (recover_log st be sz nCkpt salt ((fs ++ [f]) ++ all) rest' F Hst) as (rc & st' & E' & Hr & Hok); [by apply file_of|by destruct fs|].
  exists rc, st'. split; [done|]. split; [done|]. intros Hrc. destruct (Hok Hrc) as [Hlog Hcm]. rewrite fmap_app in Hlog.
  pose proof (committed_last be (header_cksum be sz nCkpt salt) 0 fs f (0, 0, (0, 0)) Hf) as Hlast.
  pose proof (committed_size be (header_cksum be sz nCkpt salt) 0 fs f (0, 0, (0, 0)) Hf) as Hsize. rewrite committed_app in Hcm.
  destruct Hall as [Ha|(g & extra & -> & Ep & Es & Hze)]; [left|right].
  - rewrite committed_zero_sizes in Hcm by done. split; [|split; [|by eexists]].
    + apply (f_equal (λ x, fst (fst x))) in Hcm. cbn [fst] in Hcm. rewrite Hcm, Hlast, length_app. cbn [length]. lia.
    + apply (f_equal (λ x, snd (fst x))) in Hcm. cbn [fst snd] in Hcm. by rewrite Hcm.
  - rewrite committed_app, (committed_zero_sizes _ _ _ new0) in Hcm by done. cbn [committed] in Hcm. rewrite Es in Hcm. destruct (Z.eqb_spec (f_size fl) 0); [done|].
    rewrite (committed_zero_sizes _ _ _ extra) in Hcm by done. injection Hcm as Hmx Hnp _. split; [|split; [done|]].
    + rewrite Hmx, !length_app. cbn [length]. lia.
    + exists (f_pgno <$> extra). rewrite !fmap_app, fmap_cons in Hlog. cbn [fmap list_fmap] in Hlog |- *. rewrite !fmap_app. cbn [fmap list_fmap].
      rewrite <- Ep, <- !app_assoc in *. exact Hlog.
Qed.
End log.

(** What a history has left in the file, after further calls. *)
Section after.
Context (m1 : Machine) (b1 : bool) (xCodec : option (PgHdr → option (list Z))) (sz sync_flags : Z).
Context (l : list (list PgHdr * Z)) (st' st'' st : St) (be : bool) (nCkpt : Z) (salt rest : list Z).
Context (Hbt : between sz sync_flags st' be nCkpt salt (frames_of xCodec l) rest) (Hl : Forall (valid_transaction xCodec sz) l) (Hne : l ≠ []).

Lemma history_guarded : guarded sz (len (frames_of xCodec l)) (log_bytes be sz nCkpt salt (frames_of xCodec l)) st' ∧
  1 ≤ len (frames_of xCodec l) ∧ len (log_bytes be sz nCkpt salt (frames_of xCodec l)) = log_end sz (len (frames_of xCodec l)).
Proof.
  destruct Hbt as [[_ _ _ (Hbe & Hsalt & Hsz' & _) _ Hre Hsz [Hls Hsb] Hn Hv Hfile' _ _] _ _ _].
  destruct (frames_of_last xCodec sz l Hl Hne) as (fs & f & Efs & _). split; [split; [by exists rest|done|by left|by rewrite Hsalt]|].
  split; [rewrite Efs, length_app; cbn [length]; lia|]. exact (length_log be sz nCkpt salt (frames_of xCodec l) Hls Hv).
Qed.

Lemma calls_file : @calls m1 b1 xCodec sz (len (frames_of xCodec l)) st' st'' →
  ∃ rest', pWalFd st'' = log_bytes be sz nCkpt salt (frames_of xCodec l) ++ rest'.
Proof.
  intros Hc. destruct history_guarded as (Hg & H1 & Hll). pose proof (wr_size _ _ _ _ _ _ _ (bt_writing _ _ _ _ _ _ _ _ Hbt)) as [Hsz1 _].
  by apply (@calls_guarded m1 b1 xCodec sz _ ltac:(lia) H1 _ Hll _ _ Hc) in Hg as [? _ _ _].
Qed.

Lemma uncommitted_file : @uncommitted m1 b1 xCodec sz (len (frames_of xCodec l)) st' st'' → stale salt sz rest →
  ∃ rest', pWalFd st'' = log_bytes be sz nCkpt salt (frames_of xCodec l) ++ rest' ∧ stale salt sz rest'.
Proof.
  intros Hc Hs. destruct history_guarded as (Hg & H1 & Hll). pose proof (bt_writing _ _ _ _ _ _ _ _ Hbt) as Hwr. pose proof (wr_size _ _ _ _ _ _ _ Hwr) as [Hsz1 _].
  apply (@uncommitted_stale m1 b1 xCodec sz _ ltac:(lia) H1 _ Hll salt _ _ Hc Hg). exists rest. split; [apply Hwr|done].
Qed.

Lemma recover_history rest' : recovering (pWalFd st'') st → pWalFd st'' = log_bytes be sz nCkpt salt (frames_of xCodec l) ++ rest' →
  ∃ rc st1, @walIndexRecover m2 has_bswap st = Some (rc, st1) ∧ (rcs st = [] ∧ all_free st → rc = SQLITE_OK) ∧
    (rc = SQLITE_OK → len (frames_of xCodec l) ≤ mxFrame (hdr (wal st1)) ∧
      (∃ extra, log_ok (shm st1) ((f_pgno <$> frames_of xCodec l) ++ extra)) ∧ (stale salt sz rest' → rebuilt st1 (frames_of xCodec l) (db_size l))).
Proof.
  intros Hst E. destruct (frames_of_last xCodec sz l Hl Hne) as (fs & f & Efs & Hf & <-).
  destruct (bt_writing _ _ _ _ _ _ _ _ Hbt) as [_ _ _ _ _ _ Hsz [Hls Hsb] Hn Hv _ _ _]. rewrite Efs in *.
  by apply (recover_any be sz nCkpt salt fs f (pWalFd st'') st Hst Hsz Hn Hls Hsb Hv Hf rest').
Qed.
End after.

Lemma frames_of_valid (xCodec : option (PgHdr → option (list Z))) sz l : Forall (valid_transaction xCodec sz) l → Forall (valid_frame sz) (frames_of xCodec l).
Proof.
  induction 1 as [|t l (_ & Hp & Hn) _ IH]; [constructor|]. rewrite frames_of_cons. apply Forall_app. split; [|done].
  apply page_frames_valid; [done|unfold uint; lia].
Qed.

(** What is found when the transaction [t] has failed. *)
Lemma failed_recover (xCodec : option (PgHdr → option (list Z))) sz l k t (F : list Z) st be nCkpt salt rest0 :
  Forall (valid_transaction xCodec sz) l → l !! k = Some t → (1 ≤ k)%nat → recovering F st → page_size sz → uint 32 nCkpt → length salt = 8%nat → bytes_ok salt →
  stale salt sz rest0 →
  (frames_of xCodec (take k l) ≠ [] → ∃ rest', (stale salt sz rest0 → stale salt sz rest') ∧
     left_over be sz nCkpt salt (frames_of xCodec (take k l)) (page_frames xCodec (fst t) (snd t) true) rest' F) →
  Forall (valid_frame sz) (frames_of xCodec (take k l)) ∧ (∃ rest', F = log_bytes be sz nCkpt salt (frames_of xCodec (take k l)) ++ rest') ∧
  ∃ rc st', walIndexRecover has_bswap st = Some (rc, st') ∧ (rcs st = [] ∧ all_free st → rc = SQLITE_OK) ∧
    (rc = SQLITE_OK → rebuilt st' (frames_of xCodec (take k l)) (db_size (take k l)) ∨
      rebuilt st' (frames_of xCodec (take (S k) l)) (db_size (take (S k) l))).
Proof.
  intros Hl Ht Hk Hst Hsz Hn Hls Hsb Hs Hlo. pose proof (Forall_lookup_1 _ _ _ _ Hl Ht) as (Hpl & Hp & Hnt).
  assert (Forall (valid_transaction xCodec sz) (take k l)) as Hlk by by apply Forall_take.
  assert (take k l ≠ []) as Hne by (apply lookup_lt_Some in Ht; destruct l; [cbn in Ht; lia|]; by destruct k; [lia|]).
  pose proof (frames_of_valid _ _ _ Hlk) as Hv. split; [done|]. destruct (frames_of_last xCodec sz _ Hlk Hne) as (fs & f & Efs & Hf & Hd).
  destruct Hlo as (rest' & Hs' & Hlo); [rewrite Efs; by destruct fs|]. split; [by destruct Hlo as (R & -> & _); exists R|].
  destruct (page_frames_last xCodec (fst t) (snd t) Hpl) as (new0 & fl & Enew & Hfl & Hz).
  pose proof (page_frames_valid xCodec sz (fst t) (snd t) true Hp ltac:(unfold uint; lia)) as Hvn.
  assert (frames_of xCodec (take (S k) l) = (fs ++ [f]) ++ new0 ++ [fl] ∧ db_size (take (S k) l) = snd t) as [-> ->].
  { rewrite (take_S_r _ _ _ Ht). split; [|unfold db_size; by rewrite last_snoc]. unfold frames_of. rewrite fmap_app, concat_app. fold (frames_of xCodec (take k l)).
    rewrite Efs. cbn [fmap list_fmap concat]. by rewrite app_nil_r, Enew. }
  rewrite Efs, Enew in *. rewrite <- Hd, <- Hfl.
  destruct (recover_left_over be sz nCkpt salt fs f F st Hst Hsz Hn Hls Hsb Hv Hf new0 fl rest' Hvn Hz ltac:(lia) (Hs' Hs) Hlo) as (rc & st' & ? & ? & ?).
  by exists rc, st'.
Qed.
End survive.

