(* ===== verification/WalProps.v ===== *)
(** * Write-ahead log: properties

    The main theorems on the log, each with an example in which its hypotheses
    hold. *)
From S2P Require Import Prelude Words Varint WalIndex WalLog WalFind WalFile WalRecover WalRead WalCommit WalSort WalCkpt WalBackfill WalHistory.
From stdpp Require Import gmap sorting.
Local Open Scope Z_scope.

(** ** Example states *)

Section examples.
Implicit Types (pWal : Wal) (shm : Shm).

Definition wal0 : Wal := mkWal zero_hdr 1 1 true false 0 0 512 0 0 false true false (-1) 0 [].
Definition shm0 : Shm := mkShm zero_hdr zero_hdr (mkWalCkptInfo 0 [0; 0; 0; 0; 0] 0) ∅.

Lemma conn_ok_unmapped pWal shm : apWiData pWal = [] → exclusiveMode pWal = 0 → conn_ok pWal shm.
Proof. intros Ha He. split; [|by rewrite He]. intros k _. unfold is_mapped. by rewrite Ha. Qed.

Lemma log_ok_empty shm : pages shm = ∅ → log_ok shm [].
Proof.
  intros E k Hk. rewrite E, lookup_empty. split; [done|]. unfold entries. by rewrite drop_nil, take_nil.
Qed.

(** The index of a list of pages. *)
Fixpoint index_pages (l : list Z) (i : Z) pWal shm : Wal * Shm :=
  match l with
  | [] => (pWal, shm)
  | q :: l =>
    match walIndexAppend pWal shm i q [] with
    | Some (_, pWal, shm, _) => index_pages l (i + 1) pWal shm
    | None => (pWal, shm)
    end
  end.

Lemma index_pages_ok l : ∀ log pWal shm, conn_ok pWal shm → log_ok shm log → tail_clean shm log → writeLock pWal = true →
  Forall (λ q, 0 < q < 2 ^ 32) l → len (log ++ l) + 1 < 2 ^ 31 →
  let '(pWal', shm') := index_pages l (len log + 1) pWal shm in
  conn_ok pWal' shm' ∧ log_ok shm' (log ++ l) ∧ tail_clean shm' (log ++ l) ∧ same_conn pWal pWal' ∧ shm_hdr0 shm' = shm_hdr0 shm.
Proof.
  induction l as [|q l IH]; intros log pWal shm Hc Hlog Hclean Hw Hq Hlen; cbn [index_pages]; [rewrite app_nil_r; split_and!; try done; apply same_conn_refl|].
  apply Forall_cons in Hq as [Hq Hl]. rewrite length_app in Hlen. cbn [length] in Hlen.
  destruct (walIndexAppend_spec pWal shm log q []) as ([[[rc pWal1] shm1] o1] & E & Hc1 & Hs1 & Hh1 & _ & Hok & Ho); try done; [by left|lia|].
  rewrite E. destruct (Ho eq_refl) as [-> ->]. destruct (Hok eq_refl) as (Hlog1 & Hcl1 & _).
  specialize (IH (log ++ [q]) pWal1 shm1 Hc1 Hlog1 Hcl1). replace (len log + 1 + 1) with (len (log ++ [q]) + 1) by (rewrite length_app; cbn; lia).
  destruct (index_pages l (len (log ++ [q]) + 1) pWal1 shm1) as [pWal2 shm2].
  destruct IH as (Hc2 & Hlog2 & Hcl2 & Hs2 & Hh2); [by rewrite (proj1 (proj2 (proj2 (proj2 Hs1))))|done|rewrite !length_app; cbn [length]; lia|].
  rewrite <- app_assoc in Hlog2, Hcl2. split_and!; try done; [by eapply same_conn_trans|by rewrite Hh2].
Qed.

Definition conn3 : Wal * Shm := index_pages [7; 9; 7] 1 wal0 shm0.
Definition wal3 : Wal := set_hdr (fst conn3) (set_mxFrame zero_hdr 3).

Lemma conn3_ok : conn_ok wal3 (snd conn3) ∧ log_ok (snd conn3) [7; 9; 7] ∧ minFrame wal3 = 1 ∧ readLock wal3 = 1 ∧ writeLock wal3 = true ∧
  shm_hdr0 (snd conn3) = zero_hdr.
Proof.
  pose proof (index_pages_ok [7; 9; 7] [] wal0 shm0) as H. unfold wal3, conn3. cbn [app] in H. change (len [] + 1) with 1 in H.
  destruct (index_pages _ _ _ _) as [pWal shm]. destruct H as (Hc & Hlog & _ & Hs & Hh).
  - by apply conn_ok_unmapped.
  - by apply log_ok_empty.
  - by left.
  - done.
  - repeat constructor; lia.
  - cbn. lia.
  - destruct Hs as (_ & Hm & Hr & Hw & _). split_and!; try done.
Qed.

Lemma conn3_clean : tail_clean (snd conn3) [7; 9; 7].
Proof.
  pose proof (index_pages_ok [7; 9; 7] [] wal0 shm0) as H. unfold conn3. cbn [app] in H. change (len [] + 1) with 1 in H.
  destruct (index_pages _ _ _ _) as [pWal shm]. destruct H as (_ & _ & Hcl & _).
  - by apply conn_ok_unmapped.
  - by apply log_ok_empty.
  - by left.
  - done.
  - repeat constructor; lia.
  - cbn. lia.
  - exact Hcl.
Qed.
End examples.

(** ** The wal-index *)

(** C9: sqlite3WalFindFrame returns the newest frame of the page in the snapshot,
    from minFrame to mxFrame, or 0 if there is none, whatever frames others have
    added since; this is what the linear search of the assertion for
    SQLITE_ENABLE_EXPENSIVE_ASSERT finds. If it fails, *piRead stays as it is, and
    it fails only if a call to the system does. *)
Theorem sqlite3WalFindFrame_finds_newest (pWal : Wal) (shm : Shm) (log : list Z) (q : Z) (o : list Z) :
  conn_ok pWal shm → log_ok shm log → 0 ≤ mxFrame (hdr pWal) ≤ len log → 1 ≤ minFrame pWal → readLock pWal ≠ 0 → len log + 1 < 2 ^ 31 →
  let mx := mxFrame (hdr pWal) in
  let r := newest_in (Z.to_nat mx) log (minFrame pWal) q in
  ∃ rc iRead pWal' o', sqlite3WalFindFrame pWal shm q o = Some (rc, iRead, pWal', shm, o') ∧ (o = [] → rc = SQLITE_OK) ∧
    (rc ≠ SQLITE_OK → iRead = None) ∧
    (rc = SQLITE_OK → iRead = Some r ∧ linear_search (S (Z.to_nat mx)) pWal' shm q mx = Some r).
Proof.
  intros Hc Hlog Hmx Hmin Hlock Hlen mx r.
  pose proof (newest_in_spec (Z.to_nat mx) log (minFrame pWal) q Hmin) as Hnew. rewrite Z2Nat.id in Hnew by (unfold mx; lia). fold r in Hnew.
  destruct (sqlite3WalFindFrame_spec pWal shm log q o Hc Hlog Hmx Hmin Hlock Hlen) as (res & -> & [[E ->] | [Hpos Hres]]).
  - assert (r = 0) as Er by (destruct Hnew as [[? _] | (? & _)]; [done|unfold mx in *; lia]). rewrite Er.
    eexists _, _, _, _. split; [done|]. split; [done|]. split; [done|]. intros _. split; [done|].
    apply (linear_search_spec _ _ _ log); [done|done|unfold mx; lia|right; unfold mx; lia|by rewrite <- Er|unfold mx; intros; lia].
  - destruct res as [[[[rc iRead] pWal'] shm'] o']. destruct Hres as (-> & Hc' & Hs & Ho & Herr & Hok). pose proof Hs as (Hh & Hm & _).
    eexists _, _, _, _. split; [done|]. split; [intros En; by destruct (Ho En)|]. split; [done|]. intros Hrc. destruct (Hok Hrc) as (r' & -> & Hnew' & Hmap).
    assert (r' = r) as -> by (by eapply newest_frame_unique). split; [done|].
    apply (linear_search_spec _ _ _ log); [done|by rewrite Hm|unfold mx; lia|left; unfold mx; lia|by rewrite Hm|]. rewrite Hm. exact Hmap.
Qed.

Lemma sqlite3WalFindFrame_finds_newest_witness :
  ∃ pWal' o', sqlite3WalFindFrame wal3 (snd conn3) 7 [] = Some (SQLITE_OK, Some 3, pWal', snd conn3, o').
Proof.
  destruct conn3_ok as (Hc & Hlog & Hmin & Hlock & _).
  destruct (sqlite3WalFindFrame_finds_newest wal3 (snd conn3) [7; 9; 7] 7 [] Hc Hlog) as (rc & iRead & pWal' & o' & E & Ho & _ & Hok);
    [by split|by rewrite Hmin|by rewrite Hlock|done|].
  destruct (Hok (Ho eq_refl)) as [-> _]. rewrite (Ho eq_refl), Hmin in E. exists pWal', o'. exact E.
Defined.

(** C17: walIndexAppend adds the next frame to the index of a log, whatever a writer
    that crashed while it added frames has left behind it, and reports no corruption:
    a slot is free within the bound on collisions. The index is that of the longer
    log if it succeeds and of the old log if it fails, and it fails only if a call
    to the system does. Its last store is that to the slot: up to there, with the
    page number written already, the memory has the index of the old log, so a
    writer that crashes in between leaves what the next one can remove. *)
Theorem walIndexAppend_adds (pWal : Wal) (shm : Shm) (log : list Z) (q : Z) (o : list Z) :
  conn_ok pWal shm → log_ok shm log → (tail_clean shm log ∨ mxFrame (hdr pWal) = len log) → writeLock pWal = true →
  0 < q < 2 ^ 32 → len log + 1 < 2 ^ 31 →
  ∃ rc pWal' shm' o', walIndexAppend pWal shm (len log + 1) q o = Some (rc, pWal', shm', o') ∧
    conn_ok pWal' shm' ∧ (o = [] → rc = SQLITE_OK) ∧ shm_hdr0 shm' = shm_hdr0 shm ∧
    log_ok shm' (if rc =? SQLITE_OK then log ++ [q] else log) ∧
    (rc = SQLITE_OK → tail_clean shm' (log ++ [q]) ∧
      let k := walFramePage (len log + 1) in
      let idx := len log + 1 - zero_of k in
      ∃ shm1 p iKey, log_ok shm1 log ∧ pages shm1 !! k = Some p ∧ pgno_get k p idx = Some q ∧
        shm' = set_pages shm1 (<[k := set_aHash p iKey idx]> (pages shm1))).
Proof.
  intros Hc Hlog Hclean Hw Hq Hlen. destruct (walIndexAppend_spec pWal shm log q o Hc Hlog Hclean Hw Hq Hlen) as ([[[rc pWal'] shm'] o'] & -> & Hc' & Hs & Hh & Herr & Hok & Ho).
  eexists _, _, _, _. split; [done|]. split; [done|]. split; [intros En; by destruct (Ho En)|]. split; [done|].
  destruct (Z.eqb_spec rc SQLITE_OK) as [->|Hrc]; [|split; [by apply Herr|done]].
  destruct (Hok eq_refl) as (Hl & Ht & _ & Hlast). split; [exact Hl|]. intros _. split; [exact Ht|exact Hlast].
Qed.

(** A writer has crashed after it has written the page number of a fourth frame. *)
Definition torn3 : Shm :=
  let m := snd conn3 in
  match pages m !! 0 with Some p => set_pages m (<[0 := set_aPgno 0 p 4 8]> (pages m)) | None => m end.

Lemma torn3_ok : conn_ok wal3 torn3 ∧ log_ok torn3 [7; 9; 7].
Proof.
  destruct conn3_ok as (Hc & Hlog & _). pose proof conn3_clean as Hcl. unfold tail_clean in Hcl. change (walFramePage (len [7; 9; 7] + 1)) with 0 in Hcl.
  change (entries 0 [7; 9; 7]) with [7; 9; 7] in Hcl. destruct Hcl as [?|(p & Hp & Hok)]; [done|]. unfold torn3. rewrite Hp.
  split; [apply conn_ok_set; [done|done|by eexists]|]. apply (log_ok_set _ [7; 9; 7]); [done|done|by left|]. by apply (store_holds 0 p [7; 9; 7] 8).
Qed.

Lemma walIndexAppend_adds_witness : ∃ pWal' shm' o', walIndexAppend wal3 torn3 4 5 [] = Some (SQLITE_OK, pWal', shm', o') ∧ log_ok shm' [7; 9; 7; 5].
Proof.
  destruct conn3_ok as (_ & _ & _ & _ & Hw & _). destruct torn3_ok as [Hc Hlog].
  destruct (walIndexAppend_adds wal3 torn3 [7; 9; 7] 5 [] Hc Hlog) as (rc & pWal' & shm' & o' & E & _ & Ho & _ & Hlog' & _); [by right|done|lia|done|].
  rewrite (Ho eq_refl) in E, Hlog'. change (len [7; 9; 7] + 1) with 4 in E. exists pWal', shm', o'. split; [exact E|exact Hlog'].
Defined.

(** C26: A rollback calls xUndo for the page of every frame that is not committed,
    in their order and until a call fails, and leaves the index of the frames that
    are committed, without remains if any frames were taken back, and the header
    that all connections share. *)
Theorem sqlite3WalUndo_takes_back {C} (xUndo : C → Z → Z * C) (ctx : C) (pWal : Wal) (shm : Shm) (log : list Z) (o : list Z) :
  let n := mxFrame (shm_hdr0 shm) in
  conn_ok pWal shm → log_ok shm log → writeLock pWal = true → mxFrame (hdr pWal) = len log → 0 ≤ n ≤ len log → len log + 1 < 2 ^ 31 →
  (∀ j, n < j ≤ len log → is_mapped pWal (walFramePage j) = true) → is_mapped pWal (walFramePage n) = true ∨ o = [] →
  ∃ pWal' shm' o', sqlite3WalUndo xUndo ctx pWal shm o =
      Some (fst (visit xUndo ctx (drop (Z.to_nat n) log)), snd (visit xUndo ctx (drop (Z.to_nat n) log)), pWal', shm', o') ∧
    conn_ok pWal' shm' ∧ log_ok shm' (take (Z.to_nat n) log) ∧ (n < len log → tail_clean shm' (take (Z.to_nat n) log)) ∧
    hdr pWal' = shm_hdr0 shm ∧ shm_hdr0 shm' = shm_hdr0 shm.
Proof.
  intros n Hc Hlog Hw Hmx Hn Hlen Hmap Hmap0. unfold sqlite3WalUndo. rewrite Hw, Hmx. cbn [hdr set_hdr]. fold n.
  set (pWal1 := set_hdr pWal (shm_hdr0 shm)). assert (conn_ok pWal1 shm) as Hc1 by exact Hc.
  rewrite (undo_loop_spec xUndo _ pWal1 shm log ctx n) by (done || lia || (intros j Hj; apply Hmap; lia)). rewrite option_bind_some.
  rewrite (take_ge (drop _ _)) by (rewrite length_drop; lia). destruct (visit xUndo ctx _) as [rc ctx'].
  destruct (Z.eqb_spec (len log) n) as [E|Hne]; cbn [negb].
  - eexists _, _, _. split; [done|]. split; [done|]. split; [rewrite take_ge by lia; done|]. split; [intros; lia|done].
  - destruct (walCleanupHash_spec pWal1 shm o log Hc1 Hlog) as (pWal' & shm' & o' & -> & Hc' & Hs & Hlog' & Hcl' & Hh & _); [exact Hn|done|exact Hmap0|].
    rewrite option_bind_some. eexists _, _, _. split; [done|]. split; [done|]. split; [done|]. split; [done|]. split; [|done]. by destruct Hs as [-> _].
Qed.

Lemma sqlite3WalUndo_takes_back_witness :
  ∃ pWal' shm' o', sqlite3WalUndo (λ l q, (SQLITE_OK, l ++ [q])) [] wal3 (snd conn3) [] = Some (SQLITE_OK, [7; 9; 7], pWal', shm', o') ∧ log_ok shm' [].
Proof.
  destruct conn3_ok as (Hc & Hlog & Hmin & Hlock & Hw & Hh).
  destruct (sqlite3WalUndo_takes_back (λ l q, (SQLITE_OK, l ++ [q])) [] wal3 (snd conn3) [7; 9; 7] []) as (pWal' & shm' & o' & E & _ & Hlog' & _);
    [exact Hc|exact Hlog|exact Hw|reflexivity|rewrite Hh; cbn; lia|reflexivity| |right; reflexivity|].
  - intros j Hj. rewrite Hh in Hj. change (0 < j ≤ 3) in Hj. unfold walFramePage. change HASHTABLE_NPAGE with 4096. change HASHTABLE_NPAGE_ONE with 4062.
    replace ((j + 4096 - 4062 - 1) / 4096) with 0 by (symmetry; apply Z.div_small; lia). vm_compute. done.
  - rewrite Hh in E, Hlog'. exists pWal', shm', o'. split; [exact E|exact Hlog'].
Defined.

(** A rollback to a savepoint leaves the frames that the log had then, or none if
    the log has been restarted since, and the values of the savepoint say so. *)
Theorem sqlite3WalSavepointUndo_takes_back (pWal : Wal) (shm : Shm) (log : list Z) (frame : Z) (cksum : Z * Z) (n : Z) (o : list Z) :
  let mx := if n =? nCkpt pWal then frame else 0 in
  conn_ok pWal shm → log_ok shm log → mxFrame (hdr pWal) = len log → 0 ≤ mx ≤ len log → len log + 1 < 2 ^ 31 →
  is_mapped pWal (walFramePage mx) = true ∨ o = [] →
  ∃ pWal' shm' o', sqlite3WalSavepointUndo pWal shm (frame, cksum, n) o = Some (SQLITE_OK, (mx, cksum, nCkpt pWal), pWal', shm', o') ∧
    conn_ok pWal' shm' ∧ log_ok shm' (take (Z.to_nat mx) log) ∧ shm_hdr0 shm' = shm_hdr0 shm ∧ mxFrame (hdr pWal') = mx ∧
    (mx < len log → aFrameCksum (hdr pWal') = cksum).
Proof.
  intros mx Hc Hlog Hmx Hn Hlen Hmap. unfold sqlite3WalSavepointUndo. cbn [fst snd].
  replace (if negb (n =? nCkpt pWal) then (0, cksum, nCkpt pWal) else (frame, cksum, n)) with (mx, cksum, nCkpt pWal)
    by (unfold mx; destruct (Z.eqb_spec n (nCkpt pWal)) as [-> |]; done).
  cbn [fst snd]. rewrite Hmx. destruct (Z.ltb_spec mx (len log)).
  - set (pWal1 := set_hdr pWal _). assert (conn_ok pWal1 shm) as Hc1 by exact Hc.
    destruct (walCleanupHash_spec pWal1 shm o log Hc1 Hlog) as (pWal' & shm' & o' & -> & Hc' & Hs & Hlog' & _ & Hh & _); [done..|].
    rewrite option_bind_some. eexists _, _, _. split; [done|]. split; [done|]. split; [done|]. split; [done|].
    destruct Hs as [-> _]. done.
  - assert (mx = len log) as E by lia. eexists _, _, _. split; [done|]. split; [done|]. split; [|by rewrite E; split_and!; [..|lia]].
    rewrite E, take_ge by lia. done.
Qed.

(** ** The file *)

(** C25: A frame that a machine encodes is decoded by a machine of either byte order
    to its page number and database size, with the same checksum for the frames
    after it; and a buffer that is decoded to a frame is the encoding of one under
    the running checksum. *)
Theorem walDecodeFrame_walEncodeFrame (m1 m2 : Machine) (b1 b2 : bool) (pWal pWal' : Wal) (be : bool) (salt : list Z) (sz : Z) (s : Z * Z) (f : log_frame) :
  log_conn pWal be salt sz s → log_conn pWal' be salt sz s → iReCksum pWal = 0 → length salt = 8%nat → bytes_ok salt →
  valid_frame sz f → uint 32 (fst s) → uint 32 (snd s) →
  ∃ aFrame c, @walEncodeFrame m1 b1 pWal (f_pgno f) (f_size f) (f_data f) (replicate 24 0) = Some (aFrame, set_hdr pWal (set_aFrameCksum (hdr pWal) c)) ∧
    @walDecodeFrame m2 b2 pWal' (f_data f) (aFrame ++ f_data f) = Some (Some (f_pgno f, f_size f), set_hdr pWal' (set_aFrameCksum (hdr pWal') c)) ∧
    ∀ a p n w, bytes_ok a → Z.of_nat (length a) = sz + 24 → @walDecodeFrame m2 b2 pWal' (drop 24 a) a = Some (Some (p, n), w) →
      ∃ f' aFrame' w', valid_frame sz f' ∧ a = aFrame' ++ f_data f' ∧
        @walEncodeFrame m1 b1 pWal (f_pgno f') (f_size f') (f_data f') (replicate 24 0) = Some (aFrame', w').
Proof.
  intros Hc Hc' Hre Hls Hsb Hv Hs1 Hs2. exists (frame_header be salt s f), (frame_cksum be s f).
  split; [by apply (@walEncodeFrame_spec m1 b1 pWal be salt sz s f)|]. split; [by apply (@walDecodeFrame_frame m2 b2 pWal' be salt sz s f)|].
  intros a p n w Ha Hla E. destruct (@walDecodeFrame_valid m2 b2 pWal' be salt sz s a Hc' Ha Hla) as (r & c & Er & Hr); [destruct Hv as (_ & _ & ? & _); lia|].
  rewrite E in Er. injection Er as <- _. destruct Hr as (f' & Hf' & ->). exists f', (frame_header be salt s f'), (set_hdr pWal (set_aFrameCksum (hdr pWal) (frame_cksum be s f'))).
  split; [done|]. split; [done|]. by apply (@walEncodeFrame_spec m1 b1 pWal be salt sz s f').
Qed.

Definition little : Machine := {| little_endian := true; sizeof_ptr := 8 |}.
Definition big : Machine := {| little_endian := false; sizeof_ptr := 4 |}.
Definition salt8 : list Z := [1; 2; 3; 4; 5; 6; 7; 8].
Definition page512 (x : Z) : list Z := replicate 512 x.
Definition frame7 : log_frame := mkFrame 7 9 (page512 65).
Definition conn7 : Wal := set_hdr wal0 (set_bigEndCksum (set_aSalt zero_hdr salt8) 0).

Lemma page512_ok x : 0 ≤ x < 256 → bytes_ok (page512 x) ∧ Z.of_nat (length (page512 x)) = 512.
Proof. intros Hx. split; [by apply Forall_replicate|by unfold page512; rewrite length_replicate]. Qed.

Lemma frame7_valid : valid_frame 512 frame7.
Proof. destruct (page512_ok 65) as [H1 H2]; [lia|]. split; [cbn; lia|]. split; [unfold uint; cbn; lia|]. by split. Qed.

Lemma salt8_ok : length salt8 = 8%nat ∧ bytes_ok salt8.
Proof. split; [done|]. repeat constructor; unfold uint; lia. Qed.

Lemma walDecodeFrame_walEncodeFrame_witness :
  ∃ aFrame c, @walEncodeFrame little true conn7 7 9 (page512 65) (replicate 24 0) = Some (aFrame, set_hdr conn7 (set_aFrameCksum (hdr conn7) c)) ∧
    @walDecodeFrame big false conn7 (page512 65) (aFrame ++ page512 65) = Some (Some (7, 9), set_hdr conn7 (set_aFrameCksum (hdr conn7) c)).
Proof.
  destruct (walDecodeFrame_walEncodeFrame little big true false conn7 conn7 false salt8 512 (0, 0) frame7) as (aFrame & c & E1 & E2 & _);
    [done|done|done|apply salt8_ok|apply salt8_ok|exact frame7_valid|by split|by split|]. exists aFrame, c. by split.
Defined.

(** C10: Recovery of a file with a header and valid frames, on a machine of either
    byte order and whatever follows the frames, builds the index of the frames and a
    header that counts them up to the last commit, with its database size and
    checksum; all connections then share this header. If a call to the system fails
    they keep the old one, and it succeeds if no call fails and no other connection
    holds a lock. *)
Theorem walIndexRecover_to_last_commit `{Machine} (has_bswap : bool) (st : St) (be : bool) (sz nCkpt : Z) (salt : list Z) (fs : list log_frame) (rest : list Z) :
  conn_ok (wal st) (shm st) → log_ok (shm st) [] → writeLock (wal st) = true → others st = [] →
  log_file be sz nCkpt salt fs rest (pWalFd st) → Z.of_nat (length fs) + 1 < 2 ^ 31 → WAL_HDRSIZE < file_size (pWalFd st) →
  ∃ rc st', walIndexRecover has_bswap st = Some (rc, st') ∧ pWalFd st' = pWalFd st ∧ (rcs st = [] ∧ all_free st → rc = SQLITE_OK) ∧
    (rc ≠ SQLITE_OK → shm_hdr0 (shm st') = shm_hdr0 (shm st)) ∧
    (rc = SQLITE_OK → let h := hdr (wal st') in
      (mxFrame h, nPage h, aFrameCksum h) = committed be (header_cksum be sz nCkpt salt) 0 fs (0, 0, (0, 0)) ∧
      log_ok (shm st') (f_pgno <$> fs) ∧ shm_hdr0 (shm st') = h ∧ shm_hdr1 (shm st') = h ∧
      aCksum h = walChecksumBytes true (hdr_bytes h) None ∧ nBackfill (ckpt (shm st')) = 0).
Proof.
  intros Hc Hlog Hw Ho Hf Hlen Hsize.
  destruct (walIndexRecover_spec has_bswap st be sz nCkpt salt fs rest Hc Hlog Hw Ho Hf Hlen Hsize) as (rc & st' & -> & Hfile & _ & Hn & Hok & Herr).
  exists rc, st'. split; [done|]. split; [done|]. split; [intros E; by destruct (Hn E)|]. split; [done|]. intros Hrc. destruct (Hok Hrc) as [_ Hl Hcm (_ & _ & _ & Hck) [Hs0 Hs1] _ Hcp]. cbv zeta.
  split; [done|]. split; [done|]. split; [done|]. split; [done|]. split; [done|]. by rewrite Hcp.
Qed.

(** A file with a commit and a frame after it that is not committed. *)
Definition frame8 : log_frame := mkFrame 8 0 (page512 66).
Definition st_file (d : list Z) : St := mkSt wal0 shm0 (replicate 8 Unlocked) d [] [] [] (replicate 8 Unlocked).
Definition log78 : list Z := log_bytes true 512 0 salt8 [frame7; frame8].

Lemma frame8_valid : valid_frame 512 frame8.
Proof. destruct (page512_ok 66) as [H1 H2]; [lia|]. split; [cbn; lia|]. split; [unfold uint; cbn; lia|]. by split. Qed.

Lemma page_size_512 : page_size 512.
Proof. split; [lia|done]. Qed.

Lemma no_frame_nil be salt s sz : 0 ≤ sz → length salt = 8%nat → no_frame be salt s sz [].
Proof.
  intros Hsz Hls f rest' Hv E. apply (f_equal length) in E. rewrite length_app in E. pose proof (length_frame be salt s f sz Hls Hv). cbn in E. lia.
Qed.

Lemma frames78_valid : Forall (valid_frame 512) [frame7; frame8].
Proof. constructor; [exact frame7_valid|]. constructor; [exact frame8_valid|constructor]. Qed.

Lemma log78_file : log_file true 512 0 salt8 [frame7; frame8] [] log78.
Proof.
  destruct salt8_ok. split; try done; first [exact page_size_512|exact frames78_valid|by apply no_frame_nil|by rewrite app_nil_r].
Qed.

Lemma log78_size : file_size log78 = 1104.
Proof.
  unfold file_size, log78. rewrite (length_log true 512 0 salt8) by (first [apply salt8_ok|exact frames78_valid]). done.
Qed.

Lemma free8 : Forall (λ l, l = Unlocked) (replicate 8 Unlocked).
Proof. by apply Forall_replicate. Qed.

Lemma walIndexRecover_to_last_commit_witness :
  ∃ st', @walIndexRecover little true (st_file log78) = Some (SQLITE_OK, st') ∧ mxFrame (hdr (wal st')) = 1 ∧ nPage (hdr (wal st')) = 9 ∧
    log_ok (shm st') [7; 8].
Proof.
  destruct (@walIndexRecover_to_last_commit little true (st_file log78) true 512 0 salt8 [frame7; frame8] []) as (rc & st' & E & _ & Hn & _ & Hok);
    [by apply conn_ok_unmapped|by apply log_ok_empty|reflexivity|reflexivity|exact log78_file|done|cbn [pWalFd st_file]; rewrite log78_size; done|].
  specialize (Hn (conj eq_refl free8)). subst rc. destruct (Hok eq_refl) as (Hc & Hlog & _). exists st'. split; [exact E|].
  split; [exact (f_equal (λ x, fst (fst x)) Hc)|]. split; [exact (f_equal (λ x, snd (fst x)) Hc)|exact Hlog].
Defined.

(** ** Transactions *)









(** C24: While other connections change the shared memory in any way between the
    steps, a connection that reads the log takes one snapshot or none: if it
    succeeds it holds a shared lock on one read mark and no other new lock, the
    header it has read is still the header all share, and the mark protects no later
    frame than the snapshot; if it fails it holds the locks it held before. *)
Theorem choose_snapshot_locks (st : St) (useWal : bool) : env_ok st → readers_free st →
  ∃ rc st', choose_snapshot useWal st = Some (rc, st') ∧ hdr (wal st') = hdr (wal st) ∧
    (rc ≠ SQLITE_OK → locks st' = locks st ∧ readLock (wal st') = readLock (wal st)) ∧
    (rc = SQLITE_OK → ∃ i, 0 ≤ i < WAL_NREADER ∧ readLock (wal st') = i ∧
      locks st' = (if exclusiveMode (wal st) =? 0 then <[Z.to_nat (WAL_READ_LOCK i) := Shared]> (locks st) else locks st) ∧
      shm_hdr0 (shm st') = hdr (wal st') ∧ (0 < i → ∃ mark, get (aReadMark (ckpt (shm st'))) i = Some mark ∧ mark ≤ mxFrame (hdr (wal st')))).
Proof.
  intros He Hf. destruct (choose_snapshot_spec st useWal He Hf) as (rc & st' & E & _ & (_ & _ & _ & Hh & _) & Herr & Hok).
  exists rc, st'. split; [done|]. split; [done|]. split; [done|]. intros Hrc. destruct (Hok Hrc) as (i & Hi & Hl & Hls & Hrest).
  exists i. split; [done|]. split; [done|]. split; [exact Hls|done].
Qed.

(** Another connection changes the mark 1 in between. *)
Definition st_env : St :=
  mkSt (set_readLock wal0 (-1)) shm0 (replicate 8 Unlocked) [] [] [5; 0; 0]
    [(λ m, set_ckpt m (mkWalCkptInfo 0 [0; 9; 0; 0; 0] 0)); (λ m, m)] (replicate 8 Unlocked).

Lemma choose_snapshot_locks_witness : env_ok st_env ∧ readers_free st_env ∧ ∃ rc st', choose_snapshot true st_env = Some (rc, st').
Proof.
  assert (env_ok st_env) as He.
  { split; [done| |done]. constructor; [done|]. constructor; [done|constructor]. }
  assert (readers_free st_env) as Hf.
  { intros i Hi. unfold WAL_READ_LOCK, WAL_NREADER in *. cbn [locks st_env]. apply lookup_replicate. split; [done|lia]. }
  split; [exact He|]. split; [exact Hf|]. destruct (choose_snapshot_locks st_env true He Hf) as (rc & st' & E & _). by exists rc, st'.
Defined.

(** ** Checkpoints *)

(** C16: The iterator of a snapshot returns every page of its frames once, in
    ascending order, each with its newest frame, and then ends; frames that others
    have added do not matter. *)
Theorem walIterator_enumerates (pWal : Wal) (shm : Shm) (log : list Z) (o : list Z) :
  conn_ok pWal shm → log_ok shm log → 1 ≤ mxFrame (hdr pWal) ≤ len log → len log + 1 < 2 ^ 31 → Forall (λ q, 0 < q < 0xFFFFFFFF) log →
  let n := Z.to_nat (mxFrame (hdr pWal)) in
  ∃ rc pp pWal' o', walIteratorInit pWal shm o = Some (rc, pp, pWal', shm, o') ∧ (o = [] → rc = SQLITE_OK) ∧ (rc ≠ SQLITE_OK → pp = None) ∧
    (rc = SQLITE_OK → ∃ p l, pp = Some p ∧ iterate (S n) p 0 = Some l ∧ StronglySorted (λ a b, a.1 < b.1) l ∧
      ∀ q r, (q, r) ∈ l ↔ r ≠ 0 ∧ newest_in n log 1 q = r).
Proof.
  intros Hc Hlog Hmx Hlen Hpages n. assert (Z.of_nat n = mxFrame (hdr pWal)) as En by (unfold n; lia).
  destruct (walIteratorInit_spec pWal shm log o Hc Hlog Hmx Hlen) as (rc & pp & pWal' & o' & -> & _ & _ & Ho & Hok & Herr).
  exists rc, pp, pWal', o'. split; [done|]. split; [intros E; by destruct (Ho E)|]. split; [done|]. intros Hrc.
  destruct (Hok Hrc) as (p & -> & Hp0 & Hit). fold n in Hit. assert (len (take n log) = Z.of_nat n) as El by (rewrite length_take; lia).
  assert (∀ f q, frame (take n log) f = Some q → 0 < q < 0xFFFFFFFF) as Hin.
  { intros f q Hq. eapply (Forall_lookup_1 _ _ _ _ (Forall_take _ n _ Hpages) Hq). }
  destruct (iterate_spec (take n log) ltac:(intros f q Hq; by apply (Hin f)) (S n) p 0 Hit) as (l & El' & Hsort & Hl).
  { pose proof (length_filter (λ q, iPrior p < q) (take n log)). unfold ahead_in. lia. }
  exists p, l. split; [done|]. split; [done|]. split; [done|]. intros q r. rewrite Hl, El, Hp0.
  rewrite <- (newest_frame_app (take n log) (drop n log)), take_drop by lia. pose proof (newest_in_spec n log 1 q ltac:(lia)) as Hnew. split.
  - intros (_ & Hr & Hn). split; [done|]. by eapply newest_frame_unique.
  - intros [Hr <-]. split; [|done]. destruct Hnew as [[? _] | (Hr' & Hfq & _)]; [done|]. apply (Hin (newest_in n log 1 q)).
    unfold frame in *. by rewrite lookup_take_lt by lia.
Qed.

Lemma walIterator_enumerates_witness : ∃ p pWal' o' l, walIteratorInit wal3 (snd conn3) [] = Some (SQLITE_OK, Some p, pWal', snd conn3, o') ∧
  iterate 4 p 0 = Some l ∧ (9, 2) ∈ l ∧ (7, 3) ∈ l ∧ (7, 1) ∉ l.
Proof.
  destruct conn3_ok as (Hc & Hlog & _).
  destruct (walIterator_enumerates wal3 (snd conn3) [7; 9; 7] [] Hc Hlog) as (rc & pp & pWal' & o' & E & Ho & _ & Hok);
    [by split|reflexivity|repeat constructor; lia|].
  destruct (Hok (Ho eq_refl)) as (p & l & -> & El & _ & Hl). rewrite (Ho eq_refl) in E. exists p, pWal', o', l. split; [exact E|]. split; [exact El|].
  change (Z.to_nat (mxFrame (hdr wal3))) with 3%nat in Hl.
  split; [apply Hl; split; [discriminate|reflexivity]|]. split; [apply Hl; split; [discriminate|reflexivity]|].
  intros Hn. apply Hl in Hn as [_ Hn]. discriminate Hn.
Defined.

(** C5: A checkpoint, in any mode and whatever fails, leaves what the readers that
    hold a lock see of the database. A connection that holds the lock of the mark 0
    reads only the database file, and finds it as it was. One that holds the lock of
    another mark finds the log and its mark as they were, and every page of its
    snapshot: it looks for frames from at most nBackfill + 1 up to its own last
    frame, which is not before its mark; its log may have frames more than the
    checkpoint knows of, and its database may be larger if its snapshot is older
    than the header. A checkpoint that does not cut the log keeps the index as well,
    all marks reach to the last frame that was to be copied if it has written to the
    database file, and a reader that comes later and looks for frames from the new
    nBackfill + 1 sees what it would have seen before. *)
Theorem walCheckpoint_keeps_snapshots `{Machine} (has_bswap : bool) (be : bool) (sz nCkpt : Z) (salt : list Z) (fs : list log_frame) (rest more : list Z)
    (st : St) (eMode : Z) (xBusy : list bool) (sync_flags : Z) (salt1 : list Z) :
  page_size sz → length salt = 8%nat → Forall (valid_frame sz) fs → Forall (λ f, f_pgno f < 0xFFFFFFFF) fs → fs ≠ [] →
  ckpt_ready be sz nCkpt salt fs rest more st →
  let c st := ckpt (shm st) in
  let n := Z.of_nat (length fs) in
  ∃ rc st', walCheckpoint has_bswap eMode xBusy sync_flags salt1 st = Some (rc, st') ∧
    (exclusiveMode (wal st) = 0 → held_by_others (theirs st) (WAL_READ_LOCK 0) → pDbFd st' = pDbFd st) ∧
    (exclusiveMode (wal st) = 0 → ∀ i, 1 ≤ i < WAL_NREADER → held_by_others (theirs st) (WAL_READ_LOCK i) →
      pWalFd st' = pWalFd st ∧ mark st' i = mark st i ∧
      ∀ newer lo hi q, 1 ≤ lo ≤ nBackfill (c st) + 1 → mark st i ≤ hi → 1 ≤ q →
        (q ≤ nPage (hdr (wal st)) ∨ Z.min hi n < mxFrame (shm_hdr0 (shm st))) →
        view (fs ++ newer) (pDbFd st') sz lo hi q = view (fs ++ newer) (pDbFd st) sz lo hi q) ∧
    (eMode ≠ SQLITE_CHECKPOINT_TRUNCATE →
      pWalFd st' = pWalFd st ∧ pages (shm st') = pages (shm st) ∧ nBackfill (c st) ≤ nBackfill (c st') ∧
      (pDbFd st' ≠ pDbFd st → ∀ i, 1 ≤ i < WAL_NREADER → nBackfillAttempted (c st') ≤ mark st' i) ∧
      ∀ q, 1 ≤ q ≤ nPage (hdr (wal st)) →
        view fs (pDbFd st') sz (nBackfill (c st') + 1) n q = view fs (pDbFd st) sz (nBackfill (c st) + 1) n q).
Proof.
  intros Hsz Hls Hv Hmax Hne Hr c n. pose proof (cr_backfill _ _ _ _ _ _ _ _ Hr) as [HnB _]. pose proof (cr_others _ _ _ _ _ _ _ _ Hr) as Ho.
  destruct (walCheckpoint_spec has_bswap be sz nCkpt salt fs rest more Hsz Hls Hv Hmax st eMode xBusy sync_flags salt1 Hr) as
    (rc & st' & -> & _ & mx & all & st1 & Hc1 & Hd1 & Hsh & Hnt & _); [destruct fs; [done|cbn [length]; lia]|].
  exists rc, st'. split; [done|].
  assert (∀ i, exclusiveMode (wal st) = 0 → 0 ≤ i → held_by_others (theirs st) (WAL_READ_LOCK i) → shielded i (mark st i) (pWalFd st) (pDbFd st) (theirs st) st) as Hst by done.
  split; [|split].
  - intros Hx Hheld. destruct (Hsh 0 (mark st 0) (pWalFd st) (pDbFd st) (theirs st)) as [_ Hs]; [done|done|by apply Hst|]. by apply (sh_db _ _ _ _ _ _ Hs).
  - intros Hx i Hi Hheld. destruct (Hsh i (mark st i) (pWalFd st) (pDbFd st) (theirs st)) as [Hs1 Hs]; [done|lia|apply Hst; [done|lia|done]|].
    split; [apply (sh_wal _ _ _ _ _ _ Hs); lia|]. split; [apply (sh_mark _ _ _ _ _ _ Hs); lia|]. intros newer lo hi q Hlo Hhi Hq Hsnap. rewrite Hd1.
    assert (pDbFd st1 ≠ pDbFd st → mx ≤ mark st i) as Hmk.
    { intros Hw. destruct Hc1 as (_ & _ & _ & [?|[_ Hmk]] & _); [done|]. rewrite <- (sh_mark _ _ _ _ _ _ Hs1) by lia. by apply Hmk. }
    destruct (decide (pDbFd st1 = pDbFd st)) as [->|Hw]; [done|]. specialize (Hmk Hw).
    eapply copied_to_view; [exact Hls|exact HnB|exact Hc1|exact Hlo|lia|exact Hq|]. destruct Hsnap as [?|Hold]; [by left|right]. destruct Hc1 as (Hmx & _). lia.
  - intros Hm. destruct (Hnt Hm) as [(_ & Hf & Hshm) Hc]. injection Hf as Hf _. injection Hshm as _ _ Hpg. split; [done|]. split; [done|].
    pose proof Hc as (Hmx & HB & _ & Hd & _). split; [unfold c; rewrite HB; destruct all; lia|].
    split; [intros Hne'; unfold c; destruct Hd as [?|[-> Hmk]]; [done|exact Hmk]|]. intros q Hq. by eapply copied_to_new_view.
Qed.

(** C15: If a checkpoint in a mode other than PASSIVE returns SQLITE_OK, each page of
    the database file is what a reader of the snapshot saw before; if frames have
    been copied and the log has no newer ones, the file has the size of the
    database. TRUNCATE leaves an empty log file and a header without frames. With no
    failure and no lock of others in the way it does return SQLITE_OK. *)
Theorem walCheckpoint_complete `{Machine} (has_bswap : bool) (be : bool) (sz nCkpt : Z) (salt : list Z) (fs : list log_frame) (rest more : list Z)
    (st : St) (eMode : Z) (xBusy : list bool) (sync_flags : Z) (salt1 : list Z) :
  page_size sz → length salt = 8%nat → Forall (valid_frame sz) fs → Forall (λ f, f_pgno f < 0xFFFFFFFF) fs → fs ≠ [] →
  ckpt_ready be sz nCkpt salt fs rest more st → eMode ≠ SQLITE_CHECKPOINT_PASSIVE →
  let n := Z.of_nat (length fs) in
  let nB := nBackfill (ckpt (shm st)) in
  ∃ rc st', walCheckpoint has_bswap eMode xBusy sync_flags salt1 st = Some (rc, st') ∧ (rcs st = [] ∧ all_free st → rc = SQLITE_OK) ∧
    (rc = SQLITE_OK →
      (∀ q, 1 ≤ q ≤ nPage (hdr (wal st)) → db_page (pDbFd st') sz q = view fs (pDbFd st) sz (nB + 1) n q) ∧
      (nB < n → mxFrame (shm_hdr0 (shm st)) = n → file_size (pDbFd st') = nPage (hdr (wal st)) * sz) ∧
      if eMode =? SQLITE_CHECKPOINT_TRUNCATE then pWalFd st' = [] ∧ mxFrame (hdr (wal st')) = 0
      else pWalFd st' = pWalFd st ∧ nBackfill (ckpt (shm st')) = n).
Proof.
  intros Hsz Hls Hv Hmax Hne Hr Hm n nB. pose proof (cr_backfill _ _ _ _ _ _ _ _ Hr) as [HnB _].
  destruct (walCheckpoint_spec has_bswap be sz nCkpt salt fs rest more Hsz Hls Hv Hmax st eMode xBusy sync_flags salt1 Hr) as
    (rc & st' & -> & Ho & mx & all & st1 & Hc & Hd & _ & Hnt & Hfull & Ht); [destruct fs; [done|cbn [length]; lia]|].
  exists rc, st'. split; [done|]. split; [done|]. intros Hrc. specialize (Hfull Hm Hrc). rewrite Hd.
  pose proof Hc as (Hmx & HB & _ & _ & Hsize & _). rewrite Hfull in HB. split; [|split].
  - intros q Hq. trans (view fs (pDbFd st1) sz (nBackfill (ckpt (shm st1)) + 1) n q); [|exact (copied_to_new_view sz salt fs Hls mx all st st1 q HnB Hc Hq)].
    unfold view. rewrite Hfull.
    rewrite (newest_in_none salt fs Hls); [done|lia| |lia].
    destruct (newest_spec fs q) as [[-> _] | (Hr' & _)]; [lia|rewrite length_fmap in Hr'; lia].
  - intros Hlt E. unfold nB, n in *. destruct all; [|lia]. apply Hsize; [done|lia|lia].
  - destruct (Z.eqb_spec eMode SQLITE_CHECKPOINT_TRUNCATE) as [->|Hnt']; [by apply Ht|]. destruct (Hnt Hnt') as [(_ & Hf & _) (_ & HB' & _)].
    injection Hf as -> _. split; [done|]. unfold n. by rewrite HB', HB.
Qed.

(** Three frames of two pages, of which none is copied yet. *)
Definition frames3 : list log_frame := [mkFrame 1 0 (page512 7); mkFrame 2 2 (page512 8); mkFrame 2 2 (page512 9)].
Definition conn122 : Wal * Shm := index_pages [1; 2; 2] 1 wal0 shm0.
Definition hdr3 : WalIndexHdr := set_aSalt (set_nPage (set_mxFrame (set_hdr_szPage zero_hdr 512) 3) 2) salt8.
Definition ckpt_state (marks : list Z) (locks_of_others : list lock) : St :=
  mkSt (set_hdr (fst conn122) hdr3) (mkShm hdr3 hdr3 (mkWalCkptInfo 0 marks 0) (pages (snd conn122)))
    (replicate 8 Unlocked) (log_bytes false 512 0 salt8 frames3) [] [] [] locks_of_others.

(** Nobody reads, or somebody reads the snapshot of the first two frames. *)
Definition st_ckpt : St := ckpt_state [0; 3; 0xffffffff; 0xffffffff; 0xffffffff] (replicate 8 Unlocked).
Definition st_reader : St := ckpt_state [0; 3; 2; 0xffffffff; 0xffffffff] [Unlocked; Unlocked; Unlocked; Unlocked; Unlocked; Shared; Unlocked; Unlocked].

Lemma frames3_valid : Forall (valid_frame 512) frames3 ∧ Forall (λ f, f_pgno f < 0xFFFFFFFF) frames3.
Proof.
  assert (∀ q n x, 0 < q < 2 ^ 32 → uint 32 n → 0 ≤ x < 256 → valid_frame 512 (mkFrame q n (page512 x))) as Hp.
  { intros q n x Hq Hn Hx. destruct (page512_ok x Hx) as [H1 H2]. by split. }
  split.
  - constructor; [apply Hp; unfold uint; lia|]. constructor; [apply Hp; unfold uint; lia|]. constructor; [apply Hp; unfold uint; lia|constructor].
  - constructor; [cbn; lia|]. constructor; [cbn; lia|]. constructor; [cbn; lia|constructor].
Qed.

Lemma ckpt_state_ready marks locks_of_others : length marks = 5%nat → Forall (uint 32) marks →
  ckpt_ready false 512 0 salt8 frames3 [] [] (ckpt_state marks locks_of_others).
Proof.
  intros Hl Hu.
  pose proof (index_pages_ok [1; 2; 2] [] wal0 shm0) as H. cbn [app] in H. change (len [] + 1) with 1 in H. fold conn122 in H.
  destruct conn122 as [pWal shm] eqn:E. destruct H as (Hc & Hlog & _ & Hs & Hh).
  - by apply conn_ok_unmapped.
  - by apply log_ok_empty.
  - by left.
  - reflexivity.
  - constructor; [lia|]. constructor; [lia|]. constructor; [lia|constructor].
  - reflexivity.
  - unfold ckpt_state. rewrite E. cbn [fst snd].
    split; [exact Hc|exact Hlog|reflexivity|reflexivity|reflexivity|cbn; lia|exact salt8_ok|cbn [pWalFd]; by rewrite app_nil_r|by split|cbn; lia|reflexivity].
Qed.

Lemma st_ckpt_ready : ckpt_ready false 512 0 salt8 frames3 [] [] st_ckpt.
Proof. apply ckpt_state_ready; [reflexivity|]. repeat (constructor; [unfold uint; lia|]). constructor. Qed.

Lemma st_reader_ready : ckpt_ready false 512 0 salt8 frames3 [] [] st_reader.
Proof. apply ckpt_state_ready; [reflexivity|]. repeat (constructor; [unfold uint; lia|]). constructor. Qed.

Lemma walCheckpoint_keeps_snapshots_witness : ∃ rc st', @walCheckpoint little true SQLITE_CHECKPOINT_TRUNCATE [] 0 [9; 9; 9; 9] st_reader = Some (rc, st') ∧
  pWalFd st' = pWalFd st_reader ∧ mark st' 2 = 2 ∧ view frames3 (pDbFd st') 512 1 2 2 = page512 8.
Proof.
  destruct (@walCheckpoint_keeps_snapshots little true false 512 0 salt8 frames3 [] [] st_reader SQLITE_CHECKPOINT_TRUNCATE [] 0 [9; 9; 9; 9]) as
    (rc & st' & E & _ & Hread & _);
    [exact page_size_512|exact (proj1 salt8_ok)|exact (proj1 frames3_valid)|exact (proj2 frames3_valid)|discriminate|exact st_reader_ready|].
  destruct (Hread eq_refl 2 ltac:(unfold WAL_NREADER; lia)) as (Hf & Hmk & Hq); [by exists Shared|].
  exists rc, st'. split; [exact E|]. split; [exact Hf|]. split; [exact Hmk|].
  change (mark st_reader 2) with 2 in Hq. exact (Hq [] 1 2 2 ltac:(cbn; lia) ltac:(lia) ltac:(lia) ltac:(left; cbn; lia)).
Defined.

Lemma walCheckpoint_complete_witness : ∃ st', @walCheckpoint little true SQLITE_CHECKPOINT_TRUNCATE [] 0 [9; 9; 9; 9] st_ckpt = Some (SQLITE_OK, st') ∧
  db_page (pDbFd st') 512 2 = page512 9 ∧ file_size (pDbFd st') = 1024 ∧ pWalFd st' = [].
Proof.
  destruct (@walCheckpoint_complete little true false 512 0 salt8 frames3 [] [] st_ckpt SQLITE_CHECKPOINT_TRUNCATE [] 0 [9; 9; 9; 9]) as
    (rc & st' & E & Ho & Hok);
    [exact page_size_512|exact (proj1 salt8_ok)|exact (proj1 frames3_valid)|exact (proj2 frames3_valid)|discriminate|exact st_ckpt_ready|discriminate|].
  assert (rcs st_ckpt = [] ∧ all_free st_ckpt) as Hcalm by (split; [reflexivity|apply Forall_replicate; reflexivity]).
  destruct (Hok (Ho Hcalm)) as (Hq & Hsize & Ht & _). rewrite (Ho Hcalm) in E. exists st'. split; [exact E|].
  split; [exact (Hq 2 ltac:(cbn; lia))|]. split; [exact (Hsize ltac:(cbn; lia) eq_refl)|exact Ht].
Defined.
