(* ===== verification/MD5.v ===== *)
(** * codec.c: MD5

    The MD5 of codec.c as it is written: contexts, the byte order conversions,
    the unrolled transform, update and final. [Section MD5] is over a [Machine],
    since the code reads the input block as an array of [unsigned int]. *)
From S2P Require Import Prelude Words HashBase.
Local Open Scope Z_scope.

(** ** The transform *)

(** The operator [~] of an [unsigned int]. *)
Definition not32 (x : Z) : Z := u32 (Z.lnot x).

Definition F1 (x y z : Z) : Z := Z.lxor z (Z.land x (Z.lxor y z)).
Definition F2 (x y z : Z) : Z := F1 z x y.
Definition F3 (x y z : Z) : Z := Z.lxor (Z.lxor x y) z.
Definition F4 (x y z : Z) : Z := Z.lxor y (Z.lor x (not32 z)).

(** The new value of the variable [w]. *)
Definition MD5STEP (f : Z → Z → Z → Z) (w x y z data s : Z) : Z :=
  let w := u32 (w + (f x y z + data)) in
  let w := Z.lor (u32 (Z.shiftl w s)) (Z.shiftr w (32 - s)) in
  u32 (w + x).

(** [in[i]]. *)
Definition at_ (in_ : list Z) (i : nat) : Z := nth i in_ 0.

(** The four rounds. [in_] is the array of 16 words that the source calls [in]. *)
Definition md5_round1 (in_ : list Z) (a b c d : Z) : Z * Z * Z * Z :=
  let a := MD5STEP F1 a b c d (at_ in_ 0 + 0xd76aa478) 7 in
  let d := MD5STEP F1 d a b c (at_ in_ 1 + 0xe8c7b756) 12 in
  let c := MD5STEP F1 c d a b (at_ in_ 2 + 0x242070db) 17 in
  let b := MD5STEP F1 b c d a (at_ in_ 3 + 0xc1bdceee) 22 in
  let a := MD5STEP F1 a b c d (at_ in_ 4 + 0xf57c0faf) 7 in
  let d := MD5STEP F1 d a b c (at_ in_ 5 + 0x4787c62a) 12 in
  let c := MD5STEP F1 c d a b (at_ in_ 6 + 0xa8304613) 17 in
  let b := MD5STEP F1 b c d a (at_ in_ 7 + 0xfd469501) 22 in
  let a := MD5STEP F1 a b c d (at_ in_ 8 + 0x698098d8) 7 in
  let d := MD5STEP F1 d a b c (at_ in_ 9 + 0x8b44f7af) 12 in
  let c := MD5STEP F1 c d a b (at_ in_ 10 + 0xffff5bb1) 17 in
  let b := MD5STEP F1 b c d a (at_ in_ 11 + 0x895cd7be) 22 in
  let a := MD5STEP F1 a b c d (at_ in_ 12 + 0x6b901122) 7 in
  let d := MD5STEP F1 d a b c (at_ in_ 13 + 0xfd987193) 12 in
  let c := MD5STEP F1 c d a b (at_ in_ 14 + 0xa679438e) 17 in
  let b := MD5STEP F1 b c d a (at_ in_ 15 + 0x49b40821) 22 in
  (a, b, c, d).

Definition md5_round2 (in_ : list Z) (a b c d : Z) : Z * Z * Z * Z :=
  let a := MD5STEP F2 a b c d (at_ in_ 1 + 0xf61e2562) 5 in
  let d := MD5STEP F2 d a b c (at_ in_ 6 + 0xc040b340) 9 in
  let c := MD5STEP F2 c d a b (at_ in_ 11 + 0x265e5a51) 14 in
  let b := MD5STEP F2 b c d a (at_ in_ 0 + 0xe9b6c7aa) 20 in
  let a := MD5STEP F2 a b c d (at_ in_ 5 + 0xd62f105d) 5 in
  let d := MD5STEP F2 d a b c (at_ in_ 10 + 0x02441453) 9 in
  let c := MD5STEP F2 c d a b (at_ in_ 15 + 0xd8a1e681) 14 in
  let b := MD5STEP F2 b c d a (at_ in_ 4 + 0xe7d3fbc8) 20 in
  let a := MD5STEP F2 a b c d (at_ in_ 9 + 0x21e1cde6) 5 in
  let d := MD5STEP F2 d a b c (at_ in_ 14 + 0xc33707d6) 9 in
  let c := MD5STEP F2 c d a b (at_ in_ 3 + 0xf4d50d87) 14 in
  let b := MD5STEP F2 b c d a (at_ in_ 8 + 0x455a14ed) 20 in
  let a := MD5STEP F2 a b c d (at_ in_ 13 + 0xa9e3e905) 5 in
  let d := MD5STEP F2 d a b c (at_ in_ 2 + 0xfcefa3f8) 9 in
  let c := MD5STEP F2 c d a b (at_ in_ 7 + 0x676f02d9) 14 in
  let b := MD5STEP F2 b c d a (at_ in_ 12 + 0x8d2a4c8a) 20 in
  (a, b, c, d).

Definition md5_round3 (in_ : list Z) (a b c d : Z) : Z * Z * Z * Z :=
  let a := MD5STEP F3 a b c d (at_ in_ 5 + 0xfffa3942) 4 in
  let d := MD5STEP F3 d a b c (at_ in_ 8 + 0x8771f681) 11 in
  let c := MD5STEP F3 c d a b (at_ in_ 11 + 0x6d9d6122) 16 in
  let b := MD5STEP F3 b c d a (at_ in_ 14 + 0xfde5380c) 23 in
  let a := MD5STEP F3 a b c d (at_ in_ 1 + 0xa4beea44) 4 in
  let d := MD5STEP F3 d a b c (at_ in_ 4 + 0x4bdecfa9) 11 in
  let c := MD5STEP F3 c d a b (at_ in_ 7 + 0xf6bb4b60) 16 in
  let b := MD5STEP F3 b c d a (at_ in_ 10 + 0xbebfbc70) 23 in
  let a := MD5STEP F3 a b c d (at_ in_ 13 + 0x289b7ec6) 4 in
  let d := MD5STEP F3 d a b c (at_ in_ 0 + 0xeaa127fa) 11 in
  let c := MD5STEP F3 c d a b (at_ in_ 3 + 0xd4ef3085) 16 in
  let b := MD5STEP F3 b c d a (at_ in_ 6 + 0x04881d05) 23 in
  let a := MD5STEP F3 a b c d (at_ in_ 9 + 0xd9d4d039) 4 in
  let d := MD5STEP F3 d a b c (at_ in_ 12 + 0xe6db99e5) 11 in
  let c := MD5STEP F3 c d a b (at_ in_ 15 + 0x1fa27cf8) 16 in
  let b := MD5STEP F3 b c d a (at_ in_ 2 + 0xc4ac5665) 23 in
  (a, b, c, d).

Definition md5_round4 (in_ : list Z) (a b c d : Z) : Z * Z * Z * Z :=
  let a := MD5STEP F4 a b c d (at_ in_ 0 + 0xf4292244) 6 in
  let d := MD5STEP F4 d a b c (at_ in_ 7 + 0x432aff97) 10 in
  let c := MD5STEP F4 c d a b (at_ in_ 14 + 0xab9423a7) 15 in
  let b := MD5STEP F4 b c d a (at_ in_ 5 + 0xfc93a039) 21 in
  let a := MD5STEP F4 a b c d (at_ in_ 12 + 0x655b59c3) 6 in
  let d := MD5STEP F4 d a b c (at_ in_ 3 + 0x8f0ccc92) 10 in
  let c := MD5STEP F4 c d a b (at_ in_ 10 + 0xffeff47d) 15 in
  let b := MD5STEP F4 b c d a (at_ in_ 1 + 0x85845dd1) 21 in
  let a := MD5STEP F4 a b c d (at_ in_ 8 + 0x6fa87e4f) 6 in
  let d := MD5STEP F4 d a b c (at_ in_ 15 + 0xfe2ce6e0) 10 in
  let c := MD5STEP F4 c d a b (at_ in_ 6 + 0xa3014314) 15 in
  let b := MD5STEP F4 b c d a (at_ in_ 13 + 0x4e0811a1) 21 in
  let a := MD5STEP F4 a b c d (at_ in_ 4 + 0xf7537e82) 6 in
  let d := MD5STEP F4 d a b c (at_ in_ 11 + 0xbd3af235) 10 in
  let c := MD5STEP F4 c d a b (at_ in_ 2 + 0x2ad7d2bb) 15 in
  let b := MD5STEP F4 b c d a (at_ in_ 9 + 0xeb86d391) 21 in
  (a, b, c, d).

Definition MD5Transform (buf in_ : list Z) : list Z :=
  let a := nth 0 buf 0 in
  let b := nth 1 buf 0 in
  let c := nth 2 buf 0 in
  let d := nth 3 buf 0 in
  let '(a, b, c, d) := md5_round1 in_ a b c d in
  let '(a, b, c, d) := md5_round2 in_ a b c d in
  let '(a, b, c, d) := md5_round3 in_ a b c d in
  let '(a, b, c, d) := md5_round4 in_ a b c d in
  [u32 (nth 0 buf 0 + a); u32 (nth 1 buf 0 + b); u32 (nth 2 buf 0 + c); u32 (nth 3 buf 0 + d)].

(** ** Contexts *)

(** [struct MD5Context]; [md5_in] is the array [in] of 64 bytes. *)
Record MD5_CTX := mkMD5 {
  md5_buf : list Z;
  md5_bits0 : Z;
  md5_bits1 : Z;
  md5_in : list Z
}.

Section MD5.
Context `{Machine}.

(** The loop of [byteReverse] on a big-endian machine. *)
Fixpoint byteReverse_loop (longs : nat) (buf : list Z) : list Z :=
  match longs with
  | O => buf
  | S longs' =>
      let t := Z.lor (Z.shiftl (Z.lor (Z.shiftl (nth 3 buf 0) 8) (nth 2 buf 0)) 16)
                     (Z.lor (Z.shiftl (nth 1 buf 0) 8) (nth 0 buf 0)) in
      native_bytes t ++ byteReverse_loop longs' (drop 4 buf)
  end.

Definition byteReverse (buf : list Z) (longs : nat) : list Z :=
  if little_endian then buf else byteReverse_loop longs buf.

Definition set_md5_in (ctx : MD5_CTX) (i : list Z) : MD5_CTX :=
  mkMD5 (md5_buf ctx) (md5_bits0 ctx) (md5_bits1 ctx) i.

(** [byteReverse(ctx->in, 16); MD5Transform(ctx->buf, (unsigned int* ) ctx->in)]. *)
Definition transform_in (ctx : MD5_CTX) : MD5_CTX :=
  let i := byteReverse (md5_in ctx) 16 in
  mkMD5 (MD5Transform (md5_buf ctx) (words_of native_word 4 16 i))
    (md5_bits0 ctx) (md5_bits1 ctx) i.

(** [MD5Init] leaves the array [in] of the context as it is. *)
Definition MD5Init (ctx : MD5_CTX) : MD5_CTX :=
  mkMD5 [0x67452301; 0xefcdab89; 0x98badcfe; 0x10325476] 0 0 (md5_in ctx).

(** [while (len >= 64)]; it returns the remaining bytes. *)
Fixpoint md5_chunks (fuel : nat) (ctx : MD5_CTX) (buf : list Z) : MD5_CTX * list Z :=
  match fuel with
  | O => (ctx, buf)
  | S fuel' =>
      if (64 <=? length buf)%nat
      then
        let ctx := transform_in (set_md5_in ctx (memcpy (md5_in ctx) 0 (take 64 buf))) in
        md5_chunks fuel' ctx (drop 64 buf)
      else (ctx, buf)
  end.

(** The new bit count, with the carry from the low to the high word. *)
Definition md5_count (ctx : MD5_CTX) (len : Z) : MD5_CTX :=
  let t := md5_bits0 ctx in
  let bits0 := u32 (t + u32 (Z.shiftl len 3)) in
  let bits1 := if bits0 <? t then u32 (md5_bits1 ctx + 1) else md5_bits1 ctx in
  let bits1 := u32 (bits1 + Z.shiftr len 29) in
  mkMD5 (md5_buf ctx) bits0 bits1 (md5_in ctx).

(** [buf] are the [len] bytes at the pointer [buf]. *)
Definition MD5Update (ctx : MD5_CTX) (buf : list Z) : MD5_CTX :=
  let len := length buf in
  let t := Z.to_nat (Z.land (Z.shiftr (md5_bits0 ctx) 3) 0x3f) in
  let ctx := md5_count ctx (Z.of_nat len) in
  if (t =? 0)%nat
  then
    let '(ctx, buf) := md5_chunks len ctx buf in
    set_md5_in ctx (memcpy (md5_in ctx) 0 buf)
  else if (len <? 64 - t)%nat
  then set_md5_in ctx (memcpy (md5_in ctx) t buf)
  else
    let ctx := transform_in (set_md5_in ctx (memcpy (md5_in ctx) t (take (64 - t) buf))) in
    let '(ctx, buf) := md5_chunks len ctx (drop (64 - t) buf) in
    set_md5_in ctx (memcpy (md5_in ctx) 0 buf).

(** The digest and the context that is left: [memset] clears [sizeof(ctx)] bytes,
    the size of the pointer and not of the structure. *)
Definition MD5Final (ctx : MD5_CTX) : list Z * MD5_CTX :=
  let count := Z.to_nat (Z.land (Z.shiftr (md5_bits0 ctx) 3) 0x3f) in
  let ctx := set_md5_in ctx (<[count := 0x80]> (md5_in ctx)) in
  let p := S count in
  let count := (64 - 1 - count)%nat in
  let ctx :=
    if (count <? 8)%nat
    then
      let ctx := transform_in (set_md5_in ctx (memset (md5_in ctx) p 0 count)) in
      set_md5_in ctx (memset (md5_in ctx) 0 0 56)
    else set_md5_in ctx (memset (md5_in ctx) p 0 (count - 8)) in
  let i := byteReverse (md5_in ctx) 14 in
  let i := memcpy i 56 (native_bytes (md5_bits0 ctx)) in
  let i := memcpy i 60 (native_bytes (md5_bits1 ctx)) in
  let buf := MD5Transform (md5_buf ctx) (words_of native_word 4 16 i) in
  let b := byteReverse (concat (native_bytes <$> buf)) 4 in
  (b, mkMD5 (words_of native_word 4 4 (memset b 0 0 sizeof_ptr))
        (md5_bits0 ctx) (md5_bits1 ctx) i).

(** A context on the stack, before [MD5Init]. *)
Definition md5_stack : MD5_CTX := mkMD5 (replicate 4 0) 0 0 (replicate 64 0).

Definition CodecGetMD5Binary (data : list Z) : list Z :=
  fst (MD5Final (MD5Update (MD5Init md5_stack) data)).
End MD5.
