(* ===== verification/MD5Proofs.v ===== *)
(** * MD5 as RFC 1321 defines it, and the MD5 of codec.c

    First the specification, written from the RFC, by rounds: the functions F, G,
    H and I, the table T of the integer parts of 4294967296 * abs(sin(i)), the
    order of the words and the shifts of each round. Then the unrolled transform
    equals the sixty-four operations of the RFC, the context computes the padded
    iteration for every way of cutting a message into updates, on machines of
    either byte order; and what [MD5Final] leaves in the context. *)
From S2P Require Import Prelude Words HashBase MD5.
Local Open Scope Z_scope.

Module RFC1321.

Definition neg (x : Z) : Z := u32 (Z.lnot x).
Definition F (x y z : Z) : Z := Z.lor (Z.land x y) (Z.land (neg x) z).
Definition G (x y z : Z) : Z := Z.lor (Z.land x z) (Z.land y (neg z)).
Definition H (x y z : Z) : Z := Z.lxor x (Z.lxor y z).
Definition I (x y z : Z) : Z := Z.lxor y (Z.lor x (neg z)).

Definition T : list Z := [
   0xd76aa478; 0xe8c7b756; 0x242070db; 0xc1bdceee; 0xf57c0faf; 0x4787c62a;
   0xa8304613; 0xfd469501; 0x698098d8; 0x8b44f7af; 0xffff5bb1; 0x895cd7be;
   0x6b901122; 0xfd987193; 0xa679438e; 0x49b40821; 0xf61e2562; 0xc040b340;
   0x265e5a51; 0xe9b6c7aa; 0xd62f105d; 0x02441453; 0xd8a1e681; 0xe7d3fbc8;
   0x21e1cde6; 0xc33707d6; 0xf4d50d87; 0x455a14ed; 0xa9e3e905; 0xfcefa3f8;
   0x676f02d9; 0x8d2a4c8a; 0xfffa3942; 0x8771f681; 0x6d9d6122; 0xfde5380c;
   0xa4beea44; 0x4bdecfa9; 0xf6bb4b60; 0xbebfbc70; 0x289b7ec6; 0xeaa127fa;
   0xd4ef3085; 0x04881d05; 0xd9d4d039; 0xe6db99e5; 0x1fa27cf8; 0xc4ac5665;
   0xf4292244; 0x432aff97; 0xab9423a7; 0xfc93a039; 0x655b59c3; 0x8f0ccc92;
   0xffeff47d; 0x85845dd1; 0x6fa87e4f; 0xfe2ce6e0; 0xa3014314; 0x4e0811a1;
   0xf7537e82; 0xbd3af235; 0x2ad7d2bb; 0xeb86d391].

(** Operation [i] (from 0 to 63) belongs to round [i / 16]. *)
Definition func (i : nat) : Z → Z → Z → Z :=
  match (i / 16)%nat with 0%nat => F | 1%nat => G | 2%nat => H | _ => I end.
Definition word_index (i : nat) : nat :=
  (match i / 16 with 0 => i | 1 => 5 * i + 1 | 2 => 3 * i + 5 | _ => 7 * i end mod 16)%nat.
Definition shift (i : nat) : Z :=
  nth (i mod 4) (match (i / 16)%nat with
                 | 0%nat => [7; 12; 17; 22] | 1%nat => [5; 9; 14; 20]
                 | 2%nat => [4; 11; 16; 23] | _ => [6; 10; 15; 21] end) 0.

(** [a = b + ((a + f(b,c,d) + X[k] + T[i]) <<< s)], and the registers rotate. *)
Definition step (X : list Z) (i : nat) (r : Z * Z * Z * Z) : Z * Z * Z * Z :=
  let '(a, b, c, d) := r in
  let sum := u32 (a + func i b c d + nth (word_index i) X 0 + nth i T 0) in
  (d, u32 (b + rotl 32 sum (shift i)), b, c).

(** The transformation of the four words by one block of 64 bytes. *)
Definition compress (st : list Z) (m : list Z) : list Z :=
  let X := words_of le_word 4 16 m in
  let A := nth 0 st 0 in let B := nth 1 st 0 in
  let C := nth 2 st 0 in let D := nth 3 st 0 in
  let '(a, b, c, d) := for_up (step X) 64 0 (A, B, C, D) in
  [u32 (A + a); u32 (B + b); u32 (C + c); u32 (D + d)].

Definition iv : list Z := [0x67452301; 0xefcdab89; 0x98badcfe; 0x10325476].

(** Padding to 56 bytes modulo 64, then the length in bits as 8 bytes. *)
Definition pad (m : list Z) : list Z :=
  md_pad 64 m (le_bytes 8 (8 * Z.of_nat (length m))).

Definition md5 (m : list Z) : list Z :=
  concat (le_bytes 4 <$> absorb compress 64 iv (pad m)).

End RFC1321.


(** ** The transform *)

(** [~x & y] does not depend on the bits of [~x] above those of [y]. *)
Lemma testbit_u32 x i : 0 ≤ i → Z.testbit (u32 x) i = (i <? 32) && Z.testbit x i.
Proof.
  intros Hi. unfold u32, wrap. destruct (Z.ltb_spec i 32).
  - by rewrite Z.mod_pow2_bits_low.
  - by rewrite Z.mod_pow2_bits_high by lia.
Qed.

Lemma uint32_high x i : uint 32 x → 32 ≤ i → Z.testbit x i = false.
Proof. intros [_ Hx]%uint_bits; [|done]. apply Hx. Qed.

Ltac bitwise :=
  apply Z.bits_inj'; let i := fresh "i" in intros i ?;
  repeat first [rewrite Z.lxor_spec | rewrite Z.lor_spec | rewrite Z.land_spec
               | rewrite testbit_u32 by done | rewrite Z.lnot_spec by done];
  destruct (Z.ltb_spec i 32);
  [|repeat match goal with H : uint 32 ?x |- _ =>
      rewrite (uint32_high x i H) by done; clear H end];
  repeat match goal with |- context [Z.testbit ?x i] => destruct (Z.testbit x i) end; reflexivity.

Lemma F1_F x y z : uint 32 z → F1 x y z = RFC1321.F x y z.
Proof. intros. unfold F1, RFC1321.F, RFC1321.neg. bitwise. Qed.

Lemma F2_G x y z : uint 32 y → F2 x y z = RFC1321.G x y z.
Proof. intros. unfold F2, F1, RFC1321.G, RFC1321.neg. bitwise. Qed.

Lemma F3_H x y z : F3 x y z = RFC1321.H x y z.
Proof. apply Z.lxor_assoc. Qed.

Lemma F4_I x y z : F4 x y z = RFC1321.I x y z.
Proof. reflexivity. Qed.

Lemma MD5STEP_ok f w x y z data s : uint 32 (MD5STEP f w x y z data s).
Proof. apply wrap_uint. done. Qed.

(** One operation of the RFC, with the functions of the source. *)
Definition src_func (i : nat) : Z → Z → Z → Z :=
  match (i / 16)%nat with 0%nat => F1 | 1%nat => F2 | 2%nat => F3 | _ => F4 end.

Lemma step_MD5STEP X i a b c d :
  uint 32 c → uint 32 d →
  RFC1321.step X i (a, b, c, d)
  = (d, MD5STEP (src_func i) a b c d
          (at_ X (RFC1321.word_index i) + nth i RFC1321.T 0) (RFC1321.shift i), b, c).
Proof.
  intros Hc Hd. unfold RFC1321.step, MD5STEP, rotl, at_.
  assert (RFC1321.func i b c d = src_func i b c d) as ->.
  { unfold RFC1321.func, src_func.
    destruct (i / 16)%nat as [|[|[|]]]; symmetry; auto using F1_F, F2_G, F3_H, F4_I. }
  cbv zeta. by rewrite (Z.add_comm b), !Z.add_assoc.
Qed.

(** Runs one assignment of the source against one operation of the RFC. *)
Ltac md5_step :=
  match goal with
  | |- (let x := ?e in @?body x) = ?r =>
      let v := fresh x in
      pose (v := e); change (body v = r); cbv beta; rewrite for_up_S;
      match goal with |- context [RFC1321.step ?X ?i (?a, ?b, ?c, ?d)] =>
        replace (RFC1321.step X i (a, b, c, d)) with (d, v, b, c)
          by (symmetry; apply (step_MD5STEP X i a b c d); assumption)
      end;
      assert (uint 32 v) by apply MD5STEP_ok; clearbody v
  end.

Definition regs_ok (r : Z * Z * Z * Z) : Prop :=
  let '(a, b, c, d) := r in uint 32 a ∧ uint 32 b ∧ uint 32 c ∧ uint 32 d.

(** A round of the source is sixteen operations of the RFC. *)
Ltac md5_round round := cbv beta delta [round]; do 16 md5_step; reflexivity.

Lemma md5_round1_spec X a b c d :
  regs_ok (a, b, c, d) →
  md5_round1 X a b c d = for_up (RFC1321.step X) 16 0 (a, b, c, d).
Proof.
  intros (Ha & Hb & Hc & Hd). md5_round md5_round1.
Qed.

Lemma md5_round2_spec X a b c d :
  regs_ok (a, b, c, d) →
  md5_round2 X a b c d = for_up (RFC1321.step X) 16 16 (a, b, c, d).
Proof.
  intros (Ha & Hb & Hc & Hd). md5_round md5_round2.
Qed.

Lemma md5_round3_spec X a b c d :
  regs_ok (a, b, c, d) →
  md5_round3 X a b c d = for_up (RFC1321.step X) 16 32 (a, b, c, d).
Proof.
  intros (Ha & Hb & Hc & Hd). md5_round md5_round3.
Qed.

Lemma md5_round4_spec X a b c d :
  regs_ok (a, b, c, d) →
  md5_round4 X a b c d = for_up (RFC1321.step X) 16 48 (a, b, c, d).
Proof.
  intros (Ha & Hb & Hc & Hd). md5_round md5_round4.
Qed.

Lemma steps_ok X n i r : regs_ok r → regs_ok (for_up (RFC1321.step X) n i r).
Proof.
  intros Hr. apply (for_up_inv (λ _, regs_ok)); [done|].
  intros j [[[a b] c] d] _ (Ha & Hb & Hc & Hd). cbn [RFC1321.step regs_ok].
  split_and!; try done. by apply wrap_uint.
Qed.

Lemma MD5Transform_spec st m :
  length st = 4%nat → Forall (uint 32) st →
  MD5Transform st (words_of le_word 4 16 m) = RFC1321.compress st m.
Proof.
  intros Hlen Hst. destruct st as [|A [|B [|C [|D [|]]]]]; try discriminate Hlen.
  rewrite !Forall_cons in Hst. destruct Hst as (HA & HB & HC & HD & _).
  unfold MD5Transform, RFC1321.compress. cbn [nth]. set (X := words_of _ _ _ _).
  assert (regs_ok (A, B, C, D)) as Hok by done.
  change 64%nat with (16 + (16 + (16 + 16)))%nat. rewrite !for_up_add.
  rewrite md5_round1_spec by done.
  pose proof (steps_ok X 16 0 _ Hok) as Hok1. destruct (for_up _ _ 0 _) as [[[a1 b1] c1] d1].
  rewrite md5_round2_spec by done.
  pose proof (steps_ok X 16 16 _ Hok1) as Hok2.
  change (0 + 16)%nat with 16%nat.
  destruct (for_up _ _ 16 _) as [[[a2 b2] c2] d2].
  rewrite md5_round3_spec by done.
  pose proof (steps_ok X 16 32 _ Hok2) as Hok3.
  change (16 + 16)%nat with 32%nat.
  destruct (for_up _ _ 32 _) as [[[a3 b3] c3] d3].
  rewrite md5_round4_spec by done. reflexivity.
Qed.

(** ** Contexts *)

Definition st_ok (st : list Z) : Prop := length st = 4%nat ∧ Forall (uint 32) st.

Lemma compress_st_ok st b : st_ok (RFC1321.compress st b).
Proof.
  unfold RFC1321.compress. destruct (for_up _ _ _ _) as [[[a b'] c] d].
  split; [done|]. repeat (constructor; [by apply wrap_uint|]). constructor.
Qed.

Lemma iv_ok : st_ok RFC1321.iv.
Proof. split; [done|]. repeat (constructor; [done|]). constructor. Qed.

Lemma length_MD5Transform st X : length (MD5Transform st X) = 4%nat.
Proof.
  unfold MD5Transform. destruct (md5_round1 _ _ _ _ _) as [[[? ?] ?] ?].
  destruct (md5_round2 _ _ _ _ _) as [[[? ?] ?] ?], (md5_round3 _ _ _ _ _) as [[[? ?] ?] ?].
  by destruct (md5_round4 _ _ _ _ _) as [[[? ?] ?] ?].
Qed.

#[local] Opaque RFC1321.compress MD5Transform.

Section md5.
Context `{Machine}.
Implicit Types (ctx : MD5_CTX) (m k l : list Z).

(** On a big-endian machine [byteReverse] swaps; on both, reading words natively
    afterwards reads little-endian words. *)
Lemma byteReverse_word l :
  bytes_ok l → (4 ≤ length l)%nat →
  Z.lor (Z.shiftl (Z.lor (Z.shiftl (nth 3 l 0) 8) (nth 2 l 0)) 16)
        (Z.lor (Z.shiftl (nth 1 l 0) 8) (nth 0 l 0)) = le_word (take 4 l).
Proof.
  intros Hl Hlen. destruct l as [|b0 [|b1 [|b2 [|b3 l]]]]; cbn [length] in Hlen; try lia.
  rewrite !Forall_cons in Hl. destruct Hl as ([] & [] & [] & [] & _).
  change (2 ^ 8) with 256 in *. cbn [nth take le_word].
  rewrite (lor_shiftl_add 8 b3), (lor_shiftl_add 8 b1), lor_shiftl_add by (lia || done).
  rewrite take_0. cbn [le_word]. lia.
Qed.

Lemma byteReverse_spec l n :
  bytes_ok l → (4 * n ≤ length l)%nat →
  words_of native_word 4 n (byteReverse l n) = words_of le_word 4 n l ∧
  length (byteReverse l n) = length l ∧ bytes_ok (byteReverse l n).
Proof.
  unfold byteReverse. destruct little_endian eqn:Hle.
  { intros. split_and!; [|done..]. unfold native_word. by rewrite Hle. }
  revert l. induction n as [|n IH]; intros l Hl Hlen; [done|]. cbn [byteReverse_loop words_of].
  rewrite byteReverse_word by (done || lia).
  destruct (IH (drop 4 l)) as (IH1 & IH2 & IH3); [by apply Forall_drop|rewrite length_drop; lia|].
  set (w := le_word (take 4 l)).
  assert (uint 32 w) as Hw.
  { replace 32 with (8 * Z.of_nat (length (take 4 l))) by (rewrite length_take; lia).
    by apply le_word_uint, Forall_take. }
  rewrite take_app_length', drop_app_length' by (symmetry; apply length_native_bytes).
  rewrite native_word_bytes, IH1, length_app, length_native_bytes, IH2, length_drop by done.
  split_and!; [done|lia|]. apply Forall_app. split; [apply native_bytes_ok|done].
Qed.

Lemma transform_in_spec ctx :
  st_ok (md5_buf ctx) → bytes_ok (md5_in ctx) → length (md5_in ctx) = 64%nat →
  ∃ i, transform_in ctx
       = mkMD5 (RFC1321.compress (md5_buf ctx) (md5_in ctx)) (md5_bits0 ctx) (md5_bits1 ctx) i ∧
    bytes_ok i ∧ length i = 64%nat.
Proof.
  intros [Hlen Hbuf] Hin Hl. destruct (byteReverse_spec (md5_in ctx) 16) as (Hw & Hl' & Hok); [done|lia|].
  eexists. unfold transform_in. rewrite Hw, MD5Transform_spec by done. split; [done|].
  split; [done|lia].
Qed.

Lemma md5_chunks_spec fuel ctx k :
  (length k ≤ fuel)%nat → st_ok (md5_buf ctx) → bytes_ok k →
  bytes_ok (md5_in ctx) → length (md5_in ctx) = 64%nat →
  ∃ i, md5_chunks fuel ctx k
       = (mkMD5 (absorb RFC1321.compress 64 (md5_buf ctx) k) (md5_bits0 ctx) (md5_bits1 ctx) i,
          partial 64 k) ∧
    bytes_ok i ∧ length i = 64%nat.
Proof.
  revert ctx k. induction fuel as [|fuel IH]; intros ctx k Hfuel Hbuf Hk Hin Hlen.
  { assert (k = []) as -> by (destruct k; [done|cbn in Hfuel; lia]). exists (md5_in ctx).
    by destruct ctx. }
  cbn [md5_chunks]. destruct (Nat.leb_spec 64 (length k)) as [Hge|Hlt].
  - rewrite memcpy_all by (rewrite length_take; lia).
    destruct (transform_in_spec (set_md5_in ctx (take 64 k))) as (i & -> & Hi & Hli); [done| | |].
    { by apply Forall_take. } { cbn. rewrite length_take. lia. }
    cbn [md5_buf md5_in md5_bits0 md5_bits1 set_md5_in].
    rewrite (absorb_S _ 64), (partial_S 64) by lia.
    destruct (IH (mkMD5 (RFC1321.compress (md5_buf ctx) (take 64 k)) (md5_bits0 ctx) (md5_bits1 ctx) i)
      (drop 64 k)) as (i' & -> & Hi'); [rewrite length_drop; lia|cbn; apply compress_st_ok|by apply Forall_drop|done|done|].
    by exists i'.
  - exists (md5_in ctx). rewrite absorb_short, partial_short by lia. by destruct ctx.
Qed.

(** The context after absorbing [m]. *)
Record md5_rep (ctx : MD5_CTX) (m : list Z) : Prop := {
  rep_buf : md5_buf ctx = absorb RFC1321.compress 64 RFC1321.iv m;
  rep_count : md5_bits0 ctx + 2 ^ 32 * md5_bits1 ctx = (8 * Z.of_nat (length m)) `mod` 2 ^ 64;
  rep_bits0 : uint 32 (md5_bits0 ctx);
  rep_bits1 : uint 32 (md5_bits1 ctx);
  rep_length : length (md5_in ctx) = 64%nat;
  rep_in : bytes_ok (md5_in ctx);
  rep_msg : bytes_ok m;
  rep_partial : take (length (partial 64 m)) (md5_in ctx) = partial 64 m
}.

Lemma absorb_st_ok st m : st_ok st → st_ok (absorb RFC1321.compress 64 st m).
Proof. intros. apply absorb_inv; [done|]. intros. apply compress_st_ok. Qed.

Lemma rep_st_ok ctx m : md5_rep ctx m → st_ok (md5_buf ctx).
Proof. intros Hr. rewrite (rep_buf _ _ Hr). apply absorb_st_ok, iv_ok. Qed.

Lemma rep_index ctx m :
  md5_rep ctx m →
  Z.to_nat (Z.land (Z.shiftr (md5_bits0 ctx) 3) 0x3f) = length (partial 64 m).
Proof.
  intros Hr. pose proof (rep_count _ _ Hr). pose proof (rep_bits0 _ _ Hr) as [].
  pose proof (rep_bits1 _ _ Hr) as [].
  rewrite length_partial by lia. change 0x3f with (Z.ones 6). rewrite Z.land_ones by done.
  rewrite Z.shiftr_div_pow2 by done.
  apply Nat2Z.inj. rewrite Nat2Z.inj_mod, Z2Nat.id by (apply Z.mod_pos_bound; done).
  change (2 ^ 6) with 64. change (2 ^ 3) with 8. change (Z.of_nat 64) with 64.
  change (2 ^ 32) with 4294967296 in *. change (2 ^ 64) with 18446744073709551616 in *.
  Z.div_mod_to_equations. lia.
Qed.

Lemma md5_count_spec ctx n len :
  md5_bits0 ctx + 2 ^ 32 * md5_bits1 ctx = (8 * n) `mod` 2 ^ 64 →
  uint 32 (md5_bits0 ctx) → uint 32 (md5_bits1 ctx) → 0 ≤ n → uint 32 len →
  let ctx' := md5_count ctx len in
  md5_bits0 ctx' + 2 ^ 32 * md5_bits1 ctx' = (8 * (n + len)) `mod` 2 ^ 64 ∧
  uint 32 (md5_bits0 ctx') ∧ uint 32 (md5_bits1 ctx').
Proof.
  intros Hc [] [] Hn []. cbn. split_and!; [|by apply wrap_uint..].
  rewrite Z.shiftl_mul_pow2, Z.shiftr_div_pow2 by done. unfold u32, wrap.
  change (2 ^ 3) with 8. change (2 ^ 29) with 536870912.
  change (2 ^ 32) with 4294967296 in *. change (2 ^ 64) with 18446744073709551616 in *.
  destruct (Z.ltb_spec ((md5_bits0 ctx + (len * 8) `mod` 4294967296) `mod` 4294967296) (md5_bits0 ctx));
    Z.div_mod_to_equations; lia.
Qed.

(** What an update leaves after its last whole block. *)
Lemma md5_rep_finish m' st k b0 b1 i :
  absorb RFC1321.compress 64 RFC1321.iv m' = absorb RFC1321.compress 64 st k →
  partial 64 m' = partial 64 k →
  b0 + 2 ^ 32 * b1 = (8 * Z.of_nat (length m')) `mod` 2 ^ 64 →
  uint 32 b0 → uint 32 b1 → length i = 64%nat → bytes_ok i → bytes_ok m' → bytes_ok k →
  md5_rep (set_md5_in (mkMD5 (absorb RFC1321.compress 64 st k) b0 b1 i) (memcpy i 0 (partial 64 k))) m'.
Proof.
  intros Ha Hp Hc Hb0 Hb1 Hl Hi Hm' Hk.
  assert (length (partial 64 k) < 64)%nat as Hlt by (apply length_partial_lt; lia).
  constructor; cbn [set_md5_in md5_buf md5_bits0 md5_bits1 md5_in]; try done.
  - by rewrite length_memcpy.
  - apply memcpy_ok; [done|]. by apply Forall_drop.
  - rewrite Hp. apply (take_memcpy_prefix i 0). lia.
Qed.

Lemma partial_ok m : bytes_ok m → bytes_ok (partial 64 m).
Proof. apply Forall_drop. Qed.

Lemma MD5Update_rep ctx m k :
  md5_rep ctx m → bytes_ok k → Z.of_nat (length k) < 2 ^ 32 → md5_rep (MD5Update ctx k) (m ++ k).
Proof.
  intros Hr Hk Hlen. pose proof (rep_st_ok _ _ Hr) as Hst.
  destruct (md5_count_spec ctx (Z.of_nat (length m)) (Z.of_nat (length k))) as (Hc & Hb0 & Hb1);
    [apply Hr..|lia|unfold uint; lia|].
  rewrite <-Nat2Z.inj_add, <-length_app in Hc.
  assert (bytes_ok (m ++ k)) as Hmk by (apply Forall_app; split; [apply Hr|done]).
  unfold MD5Update. rewrite (rep_index _ _ Hr). set (t := length (partial 64 m)).
  assert (t < 64)%nat as Ht by (apply length_partial_lt; lia).
  set (ctx1 := md5_count ctx _) in *.
  assert (md5_buf ctx1 = absorb RFC1321.compress 64 RFC1321.iv m) as Hbuf by apply Hr.
  assert (md5_in ctx1 = md5_in ctx) as Hin by done.
  pose proof (rep_in _ _ Hr) as Hinok. pose proof (rep_length _ _ Hr) as Hinl.
  pose proof (absorb_app RFC1321.compress 64 ltac:(lia) RFC1321.iv m k) as Happ.
  pose proof (partial_app 64 ltac:(lia) m k) as Hpart.
  destruct (Nat.eqb_spec t 0) as [H0|H0]; [|destruct (Nat.ltb_spec (length k) (64 - t)) as [Hlt|Hge]].
  - apply nil_length_inv in H0. rewrite H0 in Happ, Hpart. cbn [app] in *.
    destruct (md5_chunks_spec (length k) ctx1 k) as (i & -> & Hi & Hli); [lia|done| | | |].
    { done. } { by rewrite Hin. } { by rewrite Hin. }
    rewrite Hbuf. apply md5_rep_finish; done.
  - assert (length (partial 64 m ++ k) < 64)%nat as Hs by (rewrite length_app; lia).
    rewrite (absorb_short _ _ _ (partial 64 m ++ k)) in Happ by done.
    rewrite (partial_short 64 (partial 64 m ++ k)) in Hpart by done.
    constructor; cbn [set_md5_in md5_buf md5_bits0 md5_bits1 md5_in]; try done.
    + by rewrite Happ.
    + by rewrite length_memcpy, Hin.
    + by apply memcpy_ok; rewrite ?Hin.
    + rewrite Hpart, length_app. fold t. rewrite Hin.
      rewrite take_memcpy_prefix by lia. f_equal. apply (rep_partial _ _ Hr).
  - assert (memcpy (md5_in ctx1) t (take (64 - t) k) = partial 64 m ++ take (64 - t) k) as ->.
    { rewrite Hin. rewrite memcpy_split by (rewrite length_take; lia).
      rewrite length_take, drop_ge by lia. rewrite app_nil_r. f_equal. apply (rep_partial _ _ Hr). }
    set (b := partial 64 m ++ take (64 - t) k).
    assert (length b = 64%nat) as Hb by (unfold b; rewrite length_app, length_take; lia).
    assert (bytes_ok b) as Hbok.
    { apply Forall_app. split; [apply partial_ok, Hr|by apply Forall_take]. }
    assert (partial 64 m ++ k = b ++ drop (64 - t) k) as Hsplit.
    { unfold b. by rewrite <-app_assoc, take_drop. }
    rewrite Hsplit, (absorb_app_block _ 64 ltac:(lia) _ b) in Happ by done.
    rewrite Hsplit, (partial_app_block 64 ltac:(lia) b) in Hpart by done.
    destruct (transform_in_spec (set_md5_in ctx1 b)) as (i & -> & Hi & Hli); [done..|].
    cbn [set_md5_in md5_buf md5_in md5_bits0 md5_bits1]. rewrite Hbuf.
    destruct (md5_chunks_spec (length k)
      (mkMD5 (RFC1321.compress (absorb RFC1321.compress 64 RFC1321.iv m) b) (md5_bits0 ctx1) (md5_bits1 ctx1) i)
      (drop (64 - t) k)) as (i' & -> & Hi' & Hli');
      [rewrite length_drop; lia|apply compress_st_ok|by apply Forall_drop|done..|].
    apply md5_rep_finish; try done. by apply Forall_drop.
Qed.

Lemma MD5Init_rep ctx :
  length (md5_in ctx) = 64%nat → bytes_ok (md5_in ctx) → md5_rep (MD5Init ctx) [].
Proof. intros. by constructor. Qed.

(** ** The digest *)

Lemma byteReverse_digest st :
  st_ok st → byteReverse (concat (native_bytes <$> st)) 4 = concat (le_bytes 4 <$> st).
Proof.
  intros [Hlen Hst]. unfold byteReverse, native_bytes. destruct little_endian eqn:Hle; [done|].
  change (λ w, be_bytes 4 w) with (be_bytes 4).
  cut (byteReverse_loop (length st) (concat (be_bytes 4 <$> st)) = concat (le_bytes 4 <$> st));
    [by rewrite Hlen|].
  clear Hlen. induction Hst as [|w st Hw Hst IH]; [done|].
  rewrite !fmap_cons. cbn [length concat byteReverse_loop].
  assert (length (be_bytes 4 w) = 4%nat) as Hl by apply length_be_bytes.
  rewrite byteReverse_word.
  2: { apply Forall_app. split; [apply be_bytes_ok|]. apply concat_bytes_ok, be_bytes_ok. }
  2: { rewrite length_app. lia. }
  rewrite take_app_length', drop_app_length', IH by done. f_equal.
  unfold native_bytes. rewrite Hle. unfold be_bytes. rewrite <-(length_le_bytes 4 w) at 1.
  rewrite <-(length_rev (le_bytes 4 w)), le_bytes_word by apply be_bytes_ok.
  apply rev_involutive.
Qed.

(** The last block: the length in bits is stored as two native words after 56
    bytes that are byte-reversed. *)
Lemma final_words ctx i p n :
  bytes_ok i → length i = 64%nat → take 56 i = p →
  md5_bits0 ctx + 2 ^ 32 * md5_bits1 ctx = n `mod` 2 ^ 64 →
  uint 32 (md5_bits0 ctx) → uint 32 (md5_bits1 ctx) →
  words_of native_word 4 16
    (memcpy (memcpy (byteReverse i 14) 56 (native_bytes (md5_bits0 ctx))) 60 (native_bytes (md5_bits1 ctx)))
  = words_of le_word 4 16 (p ++ le_bytes 8 n).
Proof.
  intros Hi Hlen Hp Hn Hb0 Hb1.
  destruct (byteReverse_spec i 14) as (Hw & Hl & Hok); [done|lia|].
  assert (length p = 56%nat) as Hlp by (rewrite <-Hp, length_take; lia).
  set (r := byteReverse i 14) in *.
  assert (memcpy (memcpy r 56 (native_bytes (md5_bits0 ctx))) 60 (native_bytes (md5_bits1 ctx))
    = take 56 r ++ (native_bytes (md5_bits0 ctx) ++ native_bytes (md5_bits1 ctx))) as ->.
  { rewrite memcpy_split by (rewrite length_memcpy, length_native_bytes; lia).
    rewrite drop_ge by (rewrite length_memcpy, length_native_bytes; lia).
    rewrite app_nil_r, app_assoc. f_equal.
    replace 60%nat with (56 + length (native_bytes (md5_bits0 ctx)))%nat at 1
      by (by rewrite length_native_bytes).
    apply take_memcpy_prefix. rewrite length_native_bytes. lia. }
  change 16%nat with (14 + 2)%nat.
  rewrite !words_of_app by (rewrite ?length_take; lia). f_equal.
  - change 56%nat with (4 * 14)%nat. by rewrite words_of_take, Hw, <-Hp, <-words_of_take.
  - change 8%nat with (4 + 4)%nat. rewrite le_bytes_app. change (2 ^ (8 * Z.of_nat 4)) with (2 ^ 32).
    destruct Hb0, Hb1. change (2 ^ 64) with (2 ^ 32 * 2 ^ 32) in Hn. rewrite Z.rem_mul_r in Hn by done.
    assert (n `mod` 2 ^ 32 = md5_bits0 ctx ∧ (n / 2 ^ 32) `mod` 2 ^ 32 = md5_bits1 ctx) as [Hn0 Hn1].
    { pose proof (Z.mod_pos_bound n (2 ^ 32)). pose proof (Z.mod_pos_bound (n / 2 ^ 32) (2 ^ 32)).
      change (2 ^ 32) with 4294967296 in *. lia. }
    cbn [words_of]. rewrite !take_app_length', !drop_app_length'
      by (symmetry; (apply length_native_bytes || apply length_le_bytes)).
    rewrite !(firstn_all2 (n := 4)) by (rewrite ?length_native_bytes, ?length_le_bytes; lia).
    rewrite !native_word_bytes, !le_word_bytes by done.
    change (2 ^ (8 * Z.of_nat 4)) with (2 ^ 32). by rewrite Hn0, Hn1.
Qed.

Lemma MD5Final_rep ctx m : md5_rep ctx m → fst (MD5Final ctx) = RFC1321.md5 m.
Proof.
  intros Hr. unfold MD5Final. rewrite (rep_index _ _ Hr).
  pose proof (rep_st_ok _ _ Hr) as Hst. destruct Hr as [Hbuf Hc Hb0 Hb1 Hl Hi Hm Hp].
  unfold RFC1321.md5, RFC1321.pad.
  rewrite absorb_md_pad by (rewrite ?length_le_bytes; lia). rewrite !length_le_bytes.
  set (L := le_bytes 8 _). set (r := partial 64 m) in *. rewrite <-Hbuf.
  assert (length r < 64)%nat as Hlr by (apply length_partial_lt; lia).
  set (i0 := <[length r := 0x80]> (md5_in ctx)).
  assert (bytes_ok i0) as Hi0 by (by apply bytes_ok_insert).
  assert (length i0 = 64%nat) as Hl0 by (unfold i0; by rewrite length_insert).
  assert (∀ z, (length r + 1 + z ≤ 64)%nat →
    take (length r + 1 + z) (memset i0 (S (length r)) 0 z) = r ++ [0x80] ++ replicate z 0) as Htake.
  { intros z Hz. unfold i0. rewrite take_insert_memset by lia. by rewrite Hp. }
  case_decide as Hfit; destruct (Nat.ltb_spec (64 - 1 - length r) 8) as [Hlt|Hge]; try lia;
    cbn [set_md5_in md5_buf md5_bits0 md5_bits1 md5_in fst].
  - rewrite (final_words ctx _ (r ++ [0x80] ++ replicate (64 - 1 - length r - 8) 0)
      (8 * Z.of_nat (length m))); try done.
    + rewrite MD5Transform_spec by apply Hst. rewrite byteReverse_digest by apply compress_st_ok.
      by rewrite <-!app_assoc.
    + by apply memset_ok.
    + by rewrite length_memset.
    + rewrite <-Htake by lia. f_equal. lia.
  - destruct (transform_in_spec (set_md5_in (set_md5_in ctx i0)
      (memset i0 (S (length r)) 0 (64 - 1 - length r)))) as (i & -> & Hii & Hli); [done| | |].
    { by apply memset_ok. } { cbn [set_md5_in md5_in]. by rewrite length_memset. }
    cbn [set_md5_in md5_buf md5_bits0 md5_bits1 md5_in].
    assert (memset i0 (S (length r)) 0 (64 - 1 - length r)
            = r ++ [0x80] ++ replicate (64 - 1 - length r) 0) as ->.
    { symmetry. rewrite <-Htake by lia. apply firstn_all2. rewrite length_memset. lia. }
    rewrite (final_words ctx _ (replicate 56 0) (8 * Z.of_nat (length m))); try done.
    + rewrite MD5Transform_spec by apply compress_st_ok.
      by rewrite byteReverse_digest by apply compress_st_ok.
    + by apply memset_ok.
    + by rewrite length_memset.
    + apply (take_memcpy_prefix i 0 (replicate 56 0)). rewrite length_replicate. lia.
Qed.

(** MD5 contexts are streaming contexts, for messages of any length. *)
#[export] Instance MD5_StreamHash ctx max_total (Hl : length (md5_in ctx) = 64%nat)
    (Hi : bytes_ok (md5_in ctx)) :
  StreamHash (MD5Init ctx) MD5Update (λ c, fst (MD5Final c)) RFC1321.md5 (2 ^ 32) max_total := {
  absorbed := md5_rep;
  absorbed_init := MD5Init_rep ctx Hl Hi;
  absorbed_update := MD5Update_rep;
  absorbed_final c m Hr _ := MD5Final_rep c m Hr
}.

Lemma CodecGetMD5Binary_spec data :
  bytes_ok data → Z.of_nat (length data) < 2 ^ 32 → CodecGetMD5Binary data = RFC1321.md5 data.
Proof.
  intros Hd Hlen. apply MD5Final_rep. apply (MD5Update_rep _ []); [|done..].
  apply MD5Init_rep; [done|]. by apply Forall_replicate.
Qed.

(** ** Properties *)

(** C20: MD5 of codec.c is the MD5 of RFC 1321: however a message is cut into
    calls of [MD5Update], [MD5Final] returns the RFC's digest of the whole
    message, on machines of either byte order and for messages of any length. *)
Theorem MD5_is_RFC1321 ctx chunks :
  length (md5_in ctx) = 64%nat → bytes_ok (md5_in ctx) →
  Forall (λ k, bytes_ok k ∧ Z.of_nat (length k) < 2 ^ 32) chunks →
  fst (MD5Final (fold_left MD5Update chunks (MD5Init ctx))) = RFC1321.md5 (concat chunks).
Proof.
  intros Hl Hi Hchunks.
  pose proof (MD5_StreamHash ctx (Z.of_nat (length (concat chunks)) + 1) Hl Hi) as Hs.
  apply (stream_digest (H := Hs)); [done|lia].
Qed.

(** [MD5Final] means to clear the context but clears [sizeof(ctx)] bytes, the
    size of a pointer: the last two words of the digest stay in [buf], and on a
    little-endian machine the end of the message stays in [in]. *)
Theorem MD5Final_leaves_digest ctx m :
  md5_rep ctx m → (sizeof_ptr = 4 ∨ sizeof_ptr = 8)%nat → little_endian = true →
  (length m `mod` 64 < 56)%nat →
  let '(digest, ctx') := MD5Final ctx in
  drop 2 (md5_buf ctx') = words_of native_word 4 2 (drop 8 digest) ∧
  take (length m `mod` 64) (md5_in ctx') = partial 64 m.
Proof.
  intros Hr Hptr Hle Hlen.
  pose proof (length_partial 64 ltac:(lia) m) as Hlp. rewrite <-Hlp in Hlen |- *. clear Hlp.
  unfold MD5Final. rewrite (rep_index _ _ Hr). set (r := partial 64 m) in *.
  destruct (Nat.ltb_spec (64 - 1 - length r) 8); [lia|]. unfold byteReverse. rewrite Hle.
  cbn [set_md5_in md5_buf md5_bits0 md5_bits1 md5_in]. set (st := MD5Transform _ _).
  assert (length (concat (native_bytes <$> st)) = 16%nat) as Hl.
  { pose proof (length_MD5Transform (md5_buf ctx) (words_of native_word 4 16
      (memcpy (memcpy (memset (<[length r:=0x80]> (md5_in ctx)) (S (length r)) 0
        (64 - 1 - length r - 8)) 56 (native_bytes (md5_bits0 ctx))) 60
        (native_bytes (md5_bits1 ctx))))) as Hst. fold st in Hst.
    destruct st as [|? [|? [|? [|? [|]]]]]; try discriminate Hst.
    cbn [fmap list_fmap concat]. rewrite !length_app, !length_native_bytes. done. }
  set (b := concat _) in *. split.
  - cbn [words_of drop]. rewrite !drop_drop. cbn [Nat.add].
    assert (drop 8 (memset b 0 0 sizeof_ptr) = drop 8 b) as Hd.
    { pose proof (drop_memcpy b 0 (replicate sizeof_ptr 0)) as Hd.
      rewrite length_replicate in Hd. unfold memset.
      replace 8%nat with (sizeof_ptr + (8 - sizeof_ptr))%nat by lia.
      rewrite <-!drop_drop. f_equal. apply Hd. lia. }
    assert (drop 12 (memset b 0 0 sizeof_ptr) = drop 12 b) as Hd'.
    { change 12%nat with (8 + 4)%nat. by rewrite <-!drop_drop, Hd. }
    by rewrite Hd, Hd'.
  - rewrite !take_memcpy_le by lia. unfold memset.
    change (list_inserts (S (length r)) (replicate _ 0) (<[length r:=128]> (md5_in ctx)))
      with (memcpy (<[length r:=128]> (md5_in ctx)) (S (length r)) (replicate (64 - 1 - length r - 8) 0)).
    rewrite take_memcpy_le by lia. rewrite take_insert_ge by lia. apply (rep_partial _ _ Hr).
Qed.
End md5.
