(* ===== verification/RC4.v ===== *)
(** * codec.c: RC4

    [CodecRC4] on byte memory, so that the calls of codec.c that encrypt a buffer
    in place are covered; the key stream and the permutation it is drawn from. *)
From S2P Require Import Prelude.
Local Open Scope Z_scope.

(** [rc4[j]] for a byte [j]. *)
Definition sel (rc4 : list Z) (j : Z) : Z := nth (Z.to_nat j) rc4 0.

(** [t = rc4[i]; rc4[i] = rc4[j]; rc4[j] = t], where [t] has been read. *)
Definition rc4_swap (rc4 : list Z) (i j t : Z) : list Z :=
  let rc4 := <[Z.to_nat i := sel rc4 j]> rc4 in
  <[Z.to_nat j := t]> rc4.

(** The body of the key loop, on [rc4] and [j]. *)
Definition rc4_key_step (key : list Z) (keylen : nat) (i : nat) (s : list Z * Z) : list Z * Z :=
  let '(rc4, j) := s in
  let t := sel rc4 (Z.of_nat i) in
  let j := (j + t + nth (i mod keylen) key 0) `mod` 256 in
  (rc4_swap rc4 (Z.of_nat i) j t, j).

Definition rc4_setup (key : list Z) (keylen : nat) : list Z :=
  fst (for_up (rc4_key_step key keylen) 256 0 (Z.of_nat <$> seq 0 256, 0)).

(** The body of the text loop, on [a], [b] and [rc4]; it gives the byte [k]. *)
Definition rc4_next (s : Z * Z * list Z) : Z * (Z * Z * list Z) :=
  let '(a, b, rc4) := s in
  let a := (a + 1) `mod` 256 in
  let t := sel rc4 a in
  let b := (b + t) `mod` 256 in
  let rc4 := rc4_swap rc4 a b t in
  (sel rc4 ((sel rc4 a + sel rc4 b) `mod` 256), (a, b, rc4)).

(** [n] turns of the text loop from turn [i] on. *)
Fixpoint rc4_text (n i : nat) (s : Z * Z * list Z) (mem : list Z) (textin textout : nat) : list Z :=
  match n with
  | O => mem
  | S n' =>
      let '(k, s) := rc4_next s in
      rc4_text n' (S i) s (<[(textout + i)%nat := Z.lxor (nth (textin + i) mem 0) k]> mem)
        textin textout
  end.

Definition CodecRC4 (key : list Z) (keylen : nat) (mem : list Z) (textin textlen textout : nat)
    : list Z :=
  rc4_text textlen 0 (0, 0, rc4_setup key keylen) mem textin textout.

(** ** The key stream *)

Fixpoint rc4_stream (n : nat) (s : Z * Z * list Z) : list Z :=
  match n with
  | O => []
  | S n' => let '(k, s) := rc4_next s in k :: rc4_stream n' s
  end.

Definition RC4_keystream (key : list Z) (keylen n : nat) : list Z :=
  rc4_stream n (0, 0, rc4_setup key keylen).

(** [RC4] as a function on texts: exclusive or with the key stream. *)
Definition xor_bytes (l k : list Z) : list Z := zip_with Z.lxor l k.
Definition RC4 (key : list Z) (text : list Z) : list Z :=
  xor_bytes text (RC4_keystream key (length key) (length text)).

(** The array [rc4] is a permutation of the 256 bytes. *)
Definition rc4_ok (rc4 : list Z) : Prop := rc4 ≡ₚ (Z.of_nat <$> seq 0 256).

Section rc4.
Implicit Types (mem key l : list Z) (n i p : nat).

Lemma rc4_ok_length rc4 : rc4_ok rc4 → length rc4 = 256%nat.
Proof. intros Hp. by rewrite (Permutation_length Hp), length_fmap, length_seq. Qed.

Lemma rc4_ok_bytes rc4 : rc4_ok rc4 → bytes_ok rc4.
Proof.
  unfold rc4_ok. intros Hp. rewrite Hp. apply Forall_fmap, Forall_forall.
  intros i [_ Hi]%elem_of_seq. unfold compose, uint. lia.
Qed.

Lemma sel_byte rc4 j : rc4_ok rc4 → byte_ok (sel rc4 j).
Proof.
  intros Hp. unfold sel. destruct (decide (Z.to_nat j < 256)%nat).
  - apply Forall_nth_lt; [by apply rc4_ok_bytes|]. by rewrite rc4_ok_length.
  - rewrite nth_overflow; [done|]. rewrite rc4_ok_length by done. lia.
Qed.

Lemma sel_lookup rc4 j : rc4_ok rc4 → byte_ok j → rc4 !! Z.to_nat j = Some (sel rc4 j).
Proof.
  intros Hp []. unfold sel. change (2 ^ 8) with 256 in *.
  destruct (rc4 !! Z.to_nat j) as [x|] eqn:Hx.
  - by rewrite (nth_lookup_Some _ _ _ _ Hx).
  - apply lookup_ge_None in Hx. rewrite rc4_ok_length in Hx by done. lia.
Qed.

Lemma rc4_swap_ok rc4 (i j : Z) :
  rc4_ok rc4 → byte_ok i → byte_ok j → rc4_ok (rc4_swap rc4 i j (sel rc4 i)).
Proof.
  intros Hp Hi Hj. unfold rc4_ok, rc4_swap. etransitivity; [|exact Hp].
  apply Permutation_insert_swap; by apply sel_lookup.
Qed.

Lemma mod_256_byte x : byte_ok (x `mod` 256).
Proof. unfold uint. apply Z.mod_pos_bound. done. Qed.

Lemma rc4_setup_ok key keylen : rc4_ok (rc4_setup key keylen).
Proof.
  unfold rc4_setup.
  apply (for_up_inv (λ i s, rc4_ok (s.1)) _ 256 0 _); [unfold rc4_ok; cbn [fst]; reflexivity|].
  intros i [rc4 j] Hi Hp. cbn [fst rc4_key_step] in *.
  apply rc4_swap_ok; [done|unfold uint; lia|apply mod_256_byte].
Qed.

(** States of the text loop. *)
Definition rc4_state_ok (s : Z * Z * list Z) : Prop := rc4_ok (s.2).

Lemma rc4_init_ok key keylen : rc4_state_ok (0, 0, rc4_setup key keylen).
Proof. unfold rc4_state_ok. cbn [snd]. apply rc4_setup_ok. Qed.

#[local] Opaque rc4_setup.

Lemma rc4_next_ok s k s' : rc4_state_ok s → rc4_next s = (k, s') → byte_ok k ∧ rc4_state_ok s'.
Proof.
  destruct s as [[a b] rc4]. intros Hp [= <- <-]. unfold rc4_state_ok in *. cbn [snd] in *.
  assert (rc4_ok (rc4_swap rc4 ((a + 1) `mod` 256) ((b + sel rc4 ((a + 1) `mod` 256)) `mod` 256)
    (sel rc4 ((a + 1) `mod` 256)))) as Hok by (apply rc4_swap_ok; auto using mod_256_byte).
  split; [by apply sel_byte|done].
Qed.

Lemma length_rc4_stream n s : length (rc4_stream n s) = n.
Proof.
  revert s. induction n as [|n IH]; intros s; [done|]. cbn [rc4_stream].
  destruct (rc4_next s). cbn. by rewrite IH.
Qed.

Lemma rc4_stream_ok n s : rc4_state_ok s → bytes_ok (rc4_stream n s).
Proof.
  revert s. induction n as [|n IH]; intros s Hs; cbn [rc4_stream]; [constructor|].
  destruct (rc4_next s) as [k s'] eqn:Hn. apply rc4_next_ok in Hn as [Hk Hs']; [|done].
  constructor; auto.
Qed.

(** The text loop adds the key stream to the text. The two buffers are the same
    or do not overlap. *)
Lemma rc4_text_spec n i s mem p q :
  (p = q ∨ p + i + n ≤ q + i ∨ q + i + n ≤ p + i)%nat → (q + i + n ≤ length mem)%nat →
  length (rc4_text n i s mem p q) = length mem ∧
  ∀ j, nth j (rc4_text n i s mem p q) 0
       = if decide (q + i ≤ j < q + i + n)%nat
         then Z.lxor (nth (p + (j - q)) mem 0) (nth (j - q - i) (rc4_stream n s) 0)
         else nth j mem 0.
Proof.
  revert i s mem. induction n as [|n IH]; intros i s mem Hpq Hlen; cbn [rc4_text rc4_stream].
  { split; [done|]. intros j. by rewrite decide_False by lia. }
  destruct (rc4_next s) as [k s']. set (mem' := <[_ := _]> mem).
  destruct (IH (S i) s' mem') as [IHl IHn]; [lia|unfold mem'; rewrite length_insert; lia|].
  split; [by rewrite IHl; apply length_insert|]. intros j. rewrite IHn.
  destruct (decide (j = q + i)%nat) as [->|Hj].
  - rewrite decide_False, decide_True by lia. unfold mem'. rewrite nth_insert_eq by lia.
    replace (q + i - q - i)%nat with 0%nat by lia. cbn [nth]. do 2 f_equal. lia.
  - unfold mem'. case_decide; case_decide; try lia.
    + rewrite nth_insert_ne by lia. f_equal. by replace (j - q - i)%nat with (S (j - q - S i)) by lia.
    + by rewrite nth_insert_ne by lia.
Qed.

Lemma lxor_cancel x k : Z.lxor (Z.lxor x k) k = x.
Proof. by rewrite Z.lxor_assoc, Z.lxor_nilpotent, Z.lxor_0_r. Qed.

(** In place: the bytes of the buffer become their [RC4]. *)
Lemma CodecRC4_in_place key text :
  CodecRC4 key (length key) text 0 (length text) 0 = RC4 key text.
Proof.
  destruct (rc4_text_spec (length text) 0 (0, 0, rc4_setup key (length key)) text 0 0)
    as [Hl Hn]; [by left|lia|].
  apply (nth_ext _ _ 0 0).
  - unfold CodecRC4, RC4, xor_bytes, RC4_keystream.
    rewrite length_zip_with, length_rc4_stream, Hl. lia.
  - intros i Hi. unfold CodecRC4 in *. rewrite Hl in Hi.
    rewrite Hn, decide_True by lia. unfold RC4, xor_bytes, RC4_keystream.
    rewrite Nat.sub_0_r, Nat.add_0_l, Nat.sub_0_r. symmetry. apply nth_lookup_Some.
    rewrite lookup_zip_with.
    destruct (lookup_lt_is_Some_2 text i Hi) as [x Hx].
    destruct (lookup_lt_is_Some_2 (rc4_stream (length text) (0, 0, rc4_setup key (length key))) i)
      as [y Hy]; [by rewrite length_rc4_stream|].
    rewrite Hx, Hy. cbn. by rewrite (nth_lookup_Some _ _ _ _ Hx), (nth_lookup_Some _ _ _ _ Hy).
Qed.

Lemma RC4_length key text : length (RC4 key text) = length text.
Proof.
  unfold RC4, xor_bytes, RC4_keystream. rewrite length_zip_with, length_rc4_stream. lia.
Qed.

Lemma xor_bytes_ok l k : bytes_ok l → bytes_ok k → bytes_ok (xor_bytes l k).
Proof.
  intros Hl. revert k. induction Hl as [|x l Hx Hl IH]; intros k Hk; [constructor|].
  destruct Hk; [constructor|]. cbn. constructor; [by apply uint_lxor|by apply IH].
Qed.

Lemma RC4_ok key text : bytes_ok text → bytes_ok (RC4 key text).
Proof. intros. apply xor_bytes_ok; [done|]. apply rc4_stream_ok, rc4_init_ok. Qed.
End rc4.

(** RC4 is its own inverse: running [CodecRC4] with one key over a region of
    memory and then over its result, in place or from one buffer to another and
    back, restores the text, and no other byte of memory outside the output
    changes. *)
Theorem CodecRC4_involution key keylen mem p q n :
  (p = q ∨ p + n ≤ q ∨ q + n ≤ p)%nat → (p + n ≤ length mem)%nat → (q + n ≤ length mem)%nat →
  CodecRC4 key keylen (CodecRC4 key keylen mem p n q) q n p
  = if decide (p = q) then mem else CodecRC4 key keylen mem p n q.
Proof.
  intros Hpq Hp Hq. unfold CodecRC4. set (s := (_, _, _)).
  destruct (rc4_text_spec n 0 s mem p q) as [Hl1 Hn1]; [lia|lia|].
  destruct (rc4_text_spec n 0 s (rc4_text n 0 s mem p q) q p) as [Hl2 Hn2]; [lia|lia|].
  apply (nth_ext _ _ 0 0); [case_decide; by rewrite Hl2, Hl1|].
  intros j _. rewrite Hn2. destruct (decide (p = q)) as [<-|Heq].
  - rewrite !Hn1. case_decide; [|done]. rewrite decide_True by lia.
    rewrite !Nat.sub_0_r. do 2 replace (p + (j - p))%nat with j by lia. apply lxor_cancel.
  - case_decide; [|done]. rewrite !Hn1, decide_True, decide_False by lia.
    rewrite !Nat.sub_0_r. replace (q + (j - p) - q)%nat with (j - p)%nat by lia.
    rewrite lxor_cancel. f_equal. lia.
Qed.

(** for every key, the array of 256 bytes that [CodecRC4] builds is a
    permutation of the bytes, and stays one while the key stream is drawn, so
    that every index is in range and every byte of the stream is a byte. *)
Theorem rc4_permutation key keylen n :
  rc4_setup key keylen ≡ₚ (Z.of_nat <$> seq 0 256) ∧
  (∀ s, rc4_state_ok s → ∀ k s', rc4_next s = (k, s') → byte_ok k ∧ rc4_state_ok s') ∧
  bytes_ok (RC4_keystream key keylen n).
Proof.
  split_and!; [apply rc4_setup_ok| |].
  - intros s Hs k s' Hn. by apply (rc4_next_ok s).
  - apply rc4_stream_ok, rc4_init_ok.
Qed.
