(* ===== verification/Sha2.v ===== *)
(** * sha2.c: SHA-224, SHA-256, SHA-384 and SHA-512

    The four hash functions of sha2.c as they are written. The C file repeats the
    code for each of them with other constants; here the code is written once
    over the record [sha_alg] of what differs, and each C function is an instance.
    Both forms of the compression loop are modelled, the one that is compiled and
    the one under [UNROLL_LOOPS]. *)
From S2P Require Import Prelude Words HashBase.
Local Open Scope Z_scope.

(** ** Macros *)

Definition SHFR (x n : Z) : Z := Z.shiftr x n.
(** [sizeof(x) << 3] is the width [w]. *)
Definition ROTR (w x n : Z) : Z := Z.lor (Z.shiftr x n) (wrap w (Z.shiftl x (w - n))).
Definition CH (w x y z : Z) : Z := Z.lxor (Z.land x y) (Z.land (wrap w (Z.lnot x)) z).
Definition MAJ (x y z : Z) : Z := Z.lxor (Z.lxor (Z.land x y) (Z.land x z)) (Z.land y z).

Definition SHA256_F1 (x : Z) : Z := Z.lxor (Z.lxor (ROTR 32 x 2) (ROTR 32 x 13)) (ROTR 32 x 22).
Definition SHA256_F2 (x : Z) : Z := Z.lxor (Z.lxor (ROTR 32 x 6) (ROTR 32 x 11)) (ROTR 32 x 25).
Definition SHA256_F3 (x : Z) : Z := Z.lxor (Z.lxor (ROTR 32 x 7) (ROTR 32 x 18)) (SHFR x 3).
Definition SHA256_F4 (x : Z) : Z := Z.lxor (Z.lxor (ROTR 32 x 17) (ROTR 32 x 19)) (SHFR x 10).

Definition SHA512_F1 (x : Z) : Z := Z.lxor (Z.lxor (ROTR 64 x 28) (ROTR 64 x 34)) (ROTR 64 x 39).
Definition SHA512_F2 (x : Z) : Z := Z.lxor (Z.lxor (ROTR 64 x 14) (ROTR 64 x 18)) (ROTR 64 x 41).
Definition SHA512_F3 (x : Z) : Z := Z.lxor (Z.lxor (ROTR 64 x 1) (ROTR 64 x 8)) (SHFR x 7).
Definition SHA512_F4 (x : Z) : Z := Z.lxor (Z.lxor (ROTR 64 x 19) (ROTR 64 x 61)) (SHFR x 6).

(** [UNPACK32] and [PACK32]: big-endian words in memory. *)
Definition UNPACK32 (x : Z) : list Z :=
  [u8 (Z.shiftr x 24); u8 (Z.shiftr x 16); u8 (Z.shiftr x 8); u8 x].
Definition PACK32 (str : list Z) : Z :=
  Z.lor (Z.lor (Z.lor (nth 3 str 0) (Z.shiftl (nth 2 str 0) 8))
               (Z.shiftl (nth 1 str 0) 16)) (Z.shiftl (nth 0 str 0) 24).
Definition UNPACK64 (x : Z) : list Z :=
  [u8 (Z.shiftr x 56); u8 (Z.shiftr x 48); u8 (Z.shiftr x 40); u8 (Z.shiftr x 32);
   u8 (Z.shiftr x 24); u8 (Z.shiftr x 16); u8 (Z.shiftr x 8); u8 x].
Definition PACK64 (str : list Z) : Z :=
  Z.lor (Z.lor (Z.lor (Z.lor (Z.lor (Z.lor (Z.lor (nth 7 str 0) (Z.shiftl (nth 6 str 0) 8))
               (Z.shiftl (nth 5 str 0) 16)) (Z.shiftl (nth 4 str 0) 24))
               (Z.shiftl (nth 3 str 0) 32)) (Z.shiftl (nth 2 str 0) 40))
               (Z.shiftl (nth 1 str 0) 48)) (Z.shiftl (nth 0 str 0) 56).

(** ** Constants *)

Definition sha224_h0 : list Z := [
   0xc1059ed8; 0x367cd507; 0x3070dd17; 0xf70e5939;
   0xffc00b31; 0x68581511; 0x64f98fa7; 0xbefa4fa4].

Definition sha256_h0 : list Z := [
   0x6a09e667; 0xbb67ae85; 0x3c6ef372; 0xa54ff53a;
   0x510e527f; 0x9b05688c; 0x1f83d9ab; 0x5be0cd19].

Definition sha384_h0 : list Z := [
   0xcbbb9d5dc1059ed8; 0x629a292a367cd507; 0x9159015a3070dd17; 0x152fecd8f70e5939;
   0x67332667ffc00b31; 0x8eb44a8768581511; 0xdb0c2e0d64f98fa7; 0x47b5481dbefa4fa4].

Definition sha512_h0 : list Z := [
   0x6a09e667f3bcc908; 0xbb67ae8584caa73b; 0x3c6ef372fe94f82b; 0xa54ff53a5f1d36f1;
   0x510e527fade682d1; 0x9b05688c2b3e6c1f; 0x1f83d9abfb41bd6b; 0x5be0cd19137e2179].

Definition sha256_k : list Z := concat [
  [0x428a2f98; 0x71374491; 0xb5c0fbcf; 0xe9b5dba5];
  [0x3956c25b; 0x59f111f1; 0x923f82a4; 0xab1c5ed5];
  [0xd807aa98; 0x12835b01; 0x243185be; 0x550c7dc3];
  [0x72be5d74; 0x80deb1fe; 0x9bdc06a7; 0xc19bf174];
  [0xe49b69c1; 0xefbe4786; 0x0fc19dc6; 0x240ca1cc];
  [0x2de92c6f; 0x4a7484aa; 0x5cb0a9dc; 0x76f988da];
  [0x983e5152; 0xa831c66d; 0xb00327c8; 0xbf597fc7];
  [0xc6e00bf3; 0xd5a79147; 0x06ca6351; 0x14292967];
  [0x27b70a85; 0x2e1b2138; 0x4d2c6dfc; 0x53380d13];
  [0x650a7354; 0x766a0abb; 0x81c2c92e; 0x92722c85];
  [0xa2bfe8a1; 0xa81a664b; 0xc24b8b70; 0xc76c51a3];
  [0xd192e819; 0xd6990624; 0xf40e3585; 0x106aa070];
  [0x19a4c116; 0x1e376c08; 0x2748774c; 0x34b0bcb5];
  [0x391c0cb3; 0x4ed8aa4a; 0x5b9cca4f; 0x682e6ff3];
  [0x748f82ee; 0x78a5636f; 0x84c87814; 0x8cc70208];
  [0x90befffa; 0xa4506ceb; 0xbef9a3f7; 0xc67178f2]].

Definition sha512_k : list Z := [
   0x428a2f98d728ae22; 0x7137449123ef65cd; 0xb5c0fbcfec4d3b2f; 0xe9b5dba58189dbbc;
   0x3956c25bf348b538; 0x59f111f1b605d019; 0x923f82a4af194f9b; 0xab1c5ed5da6d8118;
   0xd807aa98a3030242; 0x12835b0145706fbe; 0x243185be4ee4b28c; 0x550c7dc3d5ffb4e2;
   0x72be5d74f27b896f; 0x80deb1fe3b1696b1; 0x9bdc06a725c71235; 0xc19bf174cf692694;
   0xe49b69c19ef14ad2; 0xefbe4786384f25e3; 0x0fc19dc68b8cd5b5; 0x240ca1cc77ac9c65;
   0x2de92c6f592b0275; 0x4a7484aa6ea6e483; 0x5cb0a9dcbd41fbd4; 0x76f988da831153b5;
   0x983e5152ee66dfab; 0xa831c66d2db43210; 0xb00327c898fb213f; 0xbf597fc7beef0ee4;
   0xc6e00bf33da88fc2; 0xd5a79147930aa725; 0x06ca6351e003826f; 0x142929670a0e6e70;
   0x27b70a8546d22ffc; 0x2e1b21385c26c926; 0x4d2c6dfc5ac42aed; 0x53380d139d95b3df;
   0x650a73548baf63de; 0x766a0abb3c77b2a8; 0x81c2c92e47edaee6; 0x92722c851482353b;
   0xa2bfe8a14cf10364; 0xa81a664bbc423001; 0xc24b8b70d0f89791; 0xc76c51a30654be30;
   0xd192e819d6ef5218; 0xd69906245565a910; 0xf40e35855771202a; 0x106aa07032bbd1b8;
   0x19a4c116b8d2d0c8; 0x1e376c085141ab53; 0x2748774cdf8eeb99; 0x34b0bcb5e19b48a8;
   0x391c0cb3c5c95a63; 0x4ed8aa4ae3418acb; 0x5b9cca4f7763e373; 0x682e6ff3d6b2b8a3;
   0x748f82ee5defb2fc; 0x78a5636f43172f60; 0x84c87814a1f0ab72; 0x8cc702081a6439ec;
   0x90befffa23631e28; 0xa4506cebde82bde9; 0xbef9a3f7b2c67915; 0xc67178f2e372532b;
   0xca273eceea26619c; 0xd186b8c721c0c207; 0xeada7dd6cde0eb1e; 0xf57d4f7fee6ed178;
   0x06f067aa72176fba; 0x0a637dc5a2c898a6; 0x113f9804bef90dae; 0x1b710b35131c471b;
   0x28db77f523047d84; 0x32caab7b40c72493; 0x3c9ebe0a15c9bebc; 0x431d67c49c100d4c;
   0x4cc5d4becb3e42b6; 0x597f299cfc657e2a; 0x5fcb6fab3ad6faec; 0x6c44198c4a475817].

(** What the code of the four functions differs in: the width of a word in bits
    and bytes, the number of rounds, the macros, the tables, and the number of
    words of the digest. *)
Record sha_alg := {
  sha_w : Z;
  sha_wb : nat;
  sha_rounds : nat;
  sha_F1 : Z → Z; sha_F2 : Z → Z; sha_F3 : Z → Z; sha_F4 : Z → Z;
  sha_pack : list Z → Z; sha_unpack : Z → list Z;
  sha_k : list Z;
  sha_h0 : list Z;
  sha_out : nat
}.

Definition sha_block_size (A : sha_alg) : nat := (16 * sha_wb A)%nat.

Definition SHA256 : sha_alg := {|
  sha_w := 32; sha_wb := 4; sha_rounds := 64;
  sha_F1 := SHA256_F1; sha_F2 := SHA256_F2; sha_F3 := SHA256_F3; sha_F4 := SHA256_F4;
  sha_pack := PACK32; sha_unpack := UNPACK32;
  sha_k := sha256_k; sha_h0 := sha256_h0; sha_out := 8 |}.

Definition SHA224 : sha_alg := {|
  sha_w := 32; sha_wb := 4; sha_rounds := 64;
  sha_F1 := SHA256_F1; sha_F2 := SHA256_F2; sha_F3 := SHA256_F3; sha_F4 := SHA256_F4;
  sha_pack := PACK32; sha_unpack := UNPACK32;
  sha_k := sha256_k; sha_h0 := sha224_h0; sha_out := 7 |}.

Definition SHA512 : sha_alg := {|
  sha_w := 64; sha_wb := 8; sha_rounds := 80;
  sha_F1 := SHA512_F1; sha_F2 := SHA512_F2; sha_F3 := SHA512_F3; sha_F4 := SHA512_F4;
  sha_pack := PACK64; sha_unpack := UNPACK64;
  sha_k := sha512_k; sha_h0 := sha512_h0; sha_out := 8 |}.

Definition SHA384 : sha_alg := {|
  sha_w := 64; sha_wb := 8; sha_rounds := 80;
  sha_F1 := SHA512_F1; sha_F2 := SHA512_F2; sha_F3 := SHA512_F3; sha_F4 := SHA512_F4;
  sha_pack := PACK64; sha_unpack := UNPACK64;
  sha_k := sha512_k; sha_h0 := sha384_h0; sha_out := 6 |}.

(** ** The compression loop *)

Section transf.
Context (A : sha_alg).

(** [w[j]] and [wv[j]]. *)
Definition wget (w : list Z) (j : nat) : Z := nth j w 0.

(** [SHA256_SCR(i)], [SHA512_SCR(i)]. *)
Definition sha_scr (i : nat) (w : list Z) : list Z :=
  <[i := wrap (sha_w A) (sha_F4 A (wget w (i - 2)) + wget w (i - 7)
          + sha_F3 A (wget w (i - 15)) + wget w (i - 16))]> w.

(** The array [w] of the message schedule. *)
Definition sha_schedule (sub_block : list Z) : list Z :=
  let w := words_of (sha_pack A) (sha_wb A) 16 sub_block
           ++ replicate (sha_rounds A - 16) 0 in
  for_up sha_scr (sha_rounds A - 16) 16 w.

(** The sums [t1] and [t2]. *)
Definition sha_t1 (w wv : list Z) (e f g h j : nat) : Z :=
  wrap (sha_w A) (wget wv h + sha_F2 A (wget wv e) + CH (sha_w A) (wget wv e) (wget wv f) (wget wv g)
    + nth j (sha_k A) 0 + wget w j).
Definition sha_t2 (wv : list Z) (a b c : nat) : Z :=
  wrap (sha_w A) (sha_F1 A (wget wv a) + MAJ (wget wv a) (wget wv b) (wget wv c)).

(** One turn of the loop that is compiled: the words of [wv] move by one. *)
Definition sha_round (w : list Z) (j : nat) (wv : list Z) : list Z :=
  let t1 := sha_t1 w wv 4 5 6 7 j in
  let t2 := sha_t2 wv 0 1 2 in
  let wv := <[7%nat := wget wv 6]> wv in
  let wv := <[6%nat := wget wv 5]> wv in
  let wv := <[5%nat := wget wv 4]> wv in
  let wv := <[4%nat := wrap (sha_w A) (wget wv 3 + t1)]> wv in
  let wv := <[3%nat := wget wv 2]> wv in
  let wv := <[2%nat := wget wv 1]> wv in
  let wv := <[1%nat := wget wv 0]> wv in
  <[0%nat := wrap (sha_w A) (t1 + t2)]> wv.

(** [ctx->h[j] += wv[j]]. *)
Definition sha_add (h wv : list Z) : list Z := zip_with (λ x y, wrap (sha_w A) (x + y)) h wv.

Definition sha_block (h sub_block : list Z) : list Z :=
  let w := sha_schedule sub_block in
  sha_add h (for_up (sha_round w) (sha_rounds A) 0 h).

(** [SHA256_EXP], [SHA512_EXP]: a round of the unrolled loop, which renames the
    words instead of moving them. *)
Definition sha_exp (w : list Z) (a b c d e f g h j : nat) (wv : list Z) : list Z :=
  let t1 := sha_t1 w wv e f g h j in
  let t2 := sha_t2 wv a b c in
  let wv := <[d := wrap (sha_w A) (wget wv d + t1)]> wv in
  <[h := wrap (sha_w A) (t1 + t2)]> wv.

(** Eight rounds from round [j] on: the body of the [do] loop of
    [sha512_transf], and each eight of the calls of [sha256_transf]. *)
Definition sha_exp8 (w : list Z) (j : nat) (wv : list Z) : list Z :=
  let wv := sha_exp w 0 1 2 3 4 5 6 7 j wv in
  let wv := sha_exp w 7 0 1 2 3 4 5 6 (j + 1) wv in
  let wv := sha_exp w 6 7 0 1 2 3 4 5 (j + 2) wv in
  let wv := sha_exp w 5 6 7 0 1 2 3 4 (j + 3) wv in
  let wv := sha_exp w 4 5 6 7 0 1 2 3 (j + 4) wv in
  let wv := sha_exp w 3 4 5 6 7 0 1 2 (j + 5) wv in
  let wv := sha_exp w 2 3 4 5 6 7 0 1 (j + 6) wv in
  sha_exp w 1 2 3 4 5 6 7 0 (j + 7) wv.

Definition sha_block_unrolled (h sub_block : list Z) : list Z :=
  let w := sha_schedule sub_block in
  sha_add h (for_up (λ i, sha_exp8 w (8 * i)) (sha_rounds A / 8) 0 h).

(** [for (i = 0; i < (int) block_nb; i++)] over the blocks of [message]. *)
Fixpoint sha_transf (h message : list Z) (block_nb : nat) : list Z :=
  match block_nb with
  | O => h
  | S n => sha_transf (sha_block h (take (sha_block_size A) message))
             (drop (sha_block_size A) message) n
  end.
End transf.

(** ** Contexts *)

(** [sha256_ctx], [sha512_ctx]. *)
Record sha_ctx := mkSha {
  tot_len : Z;
  ctx_len : Z;
  ctx_block : list Z;
  ctx_h : list Z
}.

Section sha.
Context (A : sha_alg).

Definition sha_init (ctx : sha_ctx) : sha_ctx := mkSha 0 0 (ctx_block ctx) (sha_h0 A).

(** [message] are the [len] bytes at the pointer [message]. *)
Definition sha_update (ctx : sha_ctx) (message : list Z) : sha_ctx :=
  let bs := Z.of_nat (sha_block_size A) in
  let len := Z.of_nat (length message) in
  let tmp_len := u32 (bs - ctx_len ctx) in
  let rem_len := if len <? tmp_len then len else tmp_len in
  let block := memcpy (ctx_block ctx) (Z.to_nat (ctx_len ctx)) (take (Z.to_nat rem_len) message) in
  if u32 (ctx_len ctx + len) <? bs
  then mkSha (tot_len ctx) (u32 (ctx_len ctx + len)) block (ctx_h ctx)
  else
    let new_len := u32 (len - rem_len) in
    let block_nb := new_len / bs in
    let shifted_message := drop (Z.to_nat rem_len) message in
    let h := sha_transf A (ctx_h ctx) block 1 in
    let h := sha_transf A h shifted_message (Z.to_nat block_nb) in
    let rem_len := new_len `mod` bs in
    let block := memcpy block 0
      (take (Z.to_nat rem_len) (drop (Z.to_nat (u32 (block_nb * bs))) shifted_message)) in
    mkSha (u32 (tot_len ctx + u32 ((block_nb + 1) * bs))) rem_len block h.

(** [SHA256_BLOCK_SIZE - 9] and [SHA512_BLOCK_SIZE - 17]: the 0x80 and a length
    of two words must fit. *)
Definition sha_final (ctx : sha_ctx) : list Z :=
  let bs := Z.of_nat (sha_block_size A) in
  let fit := bs - (2 * Z.of_nat (sha_wb A) + 1) in
  let block_nb := if fit <? ctx_len ctx `mod` bs then 2 else 1 in
  let len_b := u32 (u32 (tot_len ctx + ctx_len ctx) * 8) in
  let pm_len := Z.to_nat (block_nb * bs) in
  let block := memset (ctx_block ctx) (Z.to_nat (ctx_len ctx)) 0 (pm_len - Z.to_nat (ctx_len ctx)) in
  let block := <[Z.to_nat (ctx_len ctx) := 0x80]> block in
  let block := memcpy block (pm_len - 4) (UNPACK32 len_b) in
  let h := sha_transf A (ctx_h ctx) block (Z.to_nat block_nb) in
  concat (sha_unpack A <$> take (sha_out A) h).

Definition sha (ctx : sha_ctx) (message : list Z) : list Z :=
  sha_final (sha_update (sha_init ctx) message).
End sha.

(** A context on the stack. *)
Definition sha_stack (A : sha_alg) : sha_ctx :=
  mkSha 0 0 (replicate (2 * sha_block_size A) 0) (replicate 8 0).

Definition sha256_transf := sha_transf SHA256.
Definition sha256_init := sha_init SHA256.
Definition sha256_update := sha_update SHA256.
Definition sha256_final := sha_final SHA256.
Definition sha256 (message : list Z) : list Z := sha SHA256 (sha_stack SHA256) message.

Definition sha512_transf := sha_transf SHA512.
Definition sha512_init := sha_init SHA512.
Definition sha512_update := sha_update SHA512.
Definition sha512_final := sha_final SHA512.
Definition sha512 (message : list Z) : list Z := sha SHA512 (sha_stack SHA512) message.

Definition sha384_init := sha_init SHA384.
Definition sha384_update := sha_update SHA384.
Definition sha384_final := sha_final SHA384.
Definition sha384 (message : list Z) : list Z := sha SHA384 (sha_stack SHA384) message.

Definition sha224_init := sha_init SHA224.
Definition sha224_update := sha_update SHA224.
Definition sha224_final := sha_final SHA224.
Definition sha224 (message : list Z) : list Z := sha SHA224 (sha_stack SHA224) message.
