(* ===== verification/Sha2Proofs.v ===== *)
(** * SHA-2 as FIPS 180-4 defines it, and sha2.c

    First the specification, written from the standard: the functions of section
    4.1, the constants as the fractional parts of roots of primes (4.2, 5.3)
    rather than as tables, the padding of 5.1, and the computation of section 6 on
    eight working variables. Then the tables of sha2.c are the roots of primes,
    both forms of the compression loop are the compression function, and the
    contexts compute the padded iteration for messages of fewer than 2^29 bytes,
    for every way of cutting them into updates. *)
From S2P Require Import Prelude Words HashBase Sha2.
Local Open Scope Z_scope.

Module FIPS180.

(** ** Constants from primes *)

Definition is_prime (n : nat) : bool :=
  (2 <=? n)%nat && forallb (λ d, negb (n mod d =? 0)%nat) (seq 2 (n - 2)).
(** The primes below 410: the first eighty. *)
Definition primes : list Z := Z.of_nat <$> List.filter is_prime (seq 0 410).

(** The greatest [r] below [2 ^ n] with [r ^ k <= x], bit by bit from the top. *)
Fixpoint root_bits (k x : Z) (n : nat) (r : Z) : Z :=
  match n with
  | O => r
  | S n' =>
      let r' := r + 2 ^ Z.of_nat n' in
      root_bits k x n' (if r' ^ k <=? x then r' else r)
  end.

(** The first [w] bits of the fractional part of the [k]th root of [p]. *)
Definition frac_root (k w p : Z) : Z := root_bits k (p * 2 ^ (k * w)) (Z.to_nat w + 8) 0 `mod` 2 ^ w.

(** ** The four algorithms *)

Inductive alg := A224 | A256 | A384 | A512.

Definition word (A : alg) : Z := match A with A224 | A256 => 32 | A384 | A512 => 64 end.
Definition rounds (A : alg) : nat := match A with A224 | A256 => 64 | A384 | A512 => 80 end.
(** Bytes of a word, of a block, of a digest. *)
Definition word_bytes (A : alg) : nat := match A with A224 | A256 => 4 | A384 | A512 => 8 end.
Definition block_bytes (A : alg) : nat := match A with A224 | A256 => 64 | A384 | A512 => 128 end.
Definition digest_bytes (A : alg) : nat :=
  match A with A224 => 28 | A256 => 32 | A384 => 48 | A512 => 64 end.

Definition K (A : alg) : list Z := frac_root 3 (word A) <$> take (rounds A) primes.

(** SHA-384 takes the square roots of the ninth to the sixteenth prime, and
    SHA-224 the second halves of the words of SHA-384. *)
Definition H0 (A : alg) : list Z :=
  match A with
  | A256 => frac_root 2 32 <$> take 8 primes
  | A512 => frac_root 2 64 <$> take 8 primes
  | A384 => frac_root 2 64 <$> take 8 (drop 8 primes)
  | A224 => (λ h, h `mod` 2 ^ 32) <$> (frac_root 2 64 <$> take 8 (drop 8 primes))
  end.

Section functions.
Context (A : alg).

Definition add (x y : Z) : Z := wrap (word A) (x + y).
Definition rot (n x : Z) : Z := rotr (word A) x n.
Definition shr (n x : Z) : Z := Z.shiftr x n.
Definition xor3 (x y z : Z) : Z := Z.lxor (Z.lxor x y) z.

Definition Ch (x y z : Z) : Z := Z.lxor (Z.land x y) (Z.land (wrap (word A) (Z.lnot x)) z).
Definition Maj (x y z : Z) : Z := xor3 (Z.land x y) (Z.land x z) (Z.land y z).

Definition Sigma0 (x : Z) : Z :=
  match A with
  | A224 | A256 => xor3 (rot 2 x) (rot 13 x) (rot 22 x)
  | A384 | A512 => xor3 (rot 28 x) (rot 34 x) (rot 39 x)
  end.
Definition Sigma1 (x : Z) : Z :=
  match A with
  | A224 | A256 => xor3 (rot 6 x) (rot 11 x) (rot 25 x)
  | A384 | A512 => xor3 (rot 14 x) (rot 18 x) (rot 41 x)
  end.
Definition sigma0 (x : Z) : Z :=
  match A with
  | A224 | A256 => xor3 (rot 7 x) (rot 18 x) (shr 3 x)
  | A384 | A512 => xor3 (rot 1 x) (rot 8 x) (shr 7 x)
  end.
Definition sigma1 (x : Z) : Z :=
  match A with
  | A224 | A256 => xor3 (rot 17 x) (rot 19 x) (shr 10 x)
  | A384 | A512 => xor3 (rot 19 x) (rot 61 x) (shr 6 x)
  end.

(** The words [W_0 .. W_(n-1)] of the schedule of a block. *)
Fixpoint schedule (M : list Z) (n : nat) : list Z :=
  match n with
  | O => []
  | S t =>
      let W := schedule M t in
      let W_ i := nth i W 0 in
      W ++ [if (t <? 16)%nat then nth t (words_of be_word (word_bytes A) 16 M) 0
            else add (add (sigma1 (W_ (t - 2)%nat)) (W_ (t - 7)%nat))
                     (add (sigma0 (W_ (t - 15)%nat)) (W_ (t - 16)%nat))]
  end.

Record vars := Vars { va : Z; vb : Z; vc : Z; vd : Z; ve : Z; vf : Z; vg : Z; vh : Z }.

(** Step 3 of section 6.2.2. *)
Definition round (W : list Z) (t : nat) (v : vars) : vars :=
  let T1 := add (add (add (add (vh v) (Sigma1 (ve v))) (Ch (ve v) (vf v) (vg v)))
                  (nth t (K A) 0)) (nth t W 0) in
  let T2 := add (Sigma0 (va v)) (Maj (va v) (vb v) (vc v)) in
  Vars (add T1 T2) (va v) (vb v) (vc v) (add (vd v) T1) (ve v) (vf v) (vg v).

Definition compress (H M : list Z) : list Z :=
  let W := schedule M (rounds A) in
  let v := Vars (nth 0 H 0) (nth 1 H 0) (nth 2 H 0) (nth 3 H 0)
                (nth 4 H 0) (nth 5 H 0) (nth 6 H 0) (nth 7 H 0) in
  let v := for_up (round W) (rounds A) 0 v in
  [add (va v) (nth 0 H 0); add (vb v) (nth 1 H 0); add (vc v) (nth 2 H 0); add (vd v) (nth 3 H 0);
   add (ve v) (nth 4 H 0); add (vf v) (nth 5 H 0); add (vg v) (nth 6 H 0); add (vh v) (nth 7 H 0)].

(** Padding: the length in bits as a big-endian integer of two words. *)
Definition pad (M : list Z) : list Z :=
  md_pad (block_bytes A) M (be_bytes (2 * word_bytes A) (8 * Z.of_nat (length M))).

Definition sha2 (M : list Z) : list Z :=
  take (digest_bytes A)
    (concat (be_bytes (word_bytes A) <$> absorb compress (block_bytes A) (H0 A) (pad M))).
End functions.

End FIPS180.


(** The record of each algorithm. *)
Definition impl (A : FIPS180.alg) : sha_alg :=
  match A with
  | FIPS180.A224 => SHA224 | FIPS180.A256 => SHA256
  | FIPS180.A384 => SHA384 | FIPS180.A512 => SHA512
  end.

(** ** Tables *)

Lemma sha_k_spec A : sha_k (impl A) = FIPS180.K A.
Proof. destruct A; vm_compute; reflexivity. Qed.

Lemma sha_h0_spec A : sha_h0 (impl A) = FIPS180.H0 A.
Proof. destruct A; vm_compute; reflexivity. Qed.

#[local] Opaque FIPS180.K FIPS180.H0 sha256_k sha512_k.

(** ** Words in memory *)

Lemma PACK32_spec l : bytes_ok l → length l = 4%nat → PACK32 l = be_word l.
Proof.
  intros Hl Hlen. destruct l as [|a [|b [|c [|d [|]]]]]; try discriminate Hlen.
  rewrite !Forall_cons in Hl. destruct Hl as ([] & [] & [] & [] & _).
  change (2 ^ 8) with 256 in *. unfold PACK32, be_word. cbn [nth rev app le_word].
  rewrite !(Z.lor_comm _ (Z.shiftl _ _)).
  rewrite (lor_shiftl_add 8), (lor_shiftl_add 16), (lor_shiftl_add 24) by lia. lia.
Qed.

Lemma PACK64_spec l : bytes_ok l → length l = 8%nat → PACK64 l = be_word l.
Proof.
  intros Hl Hlen. destruct l as [|a [|b [|c [|d [|e [|f [|g [|h [|]]]]]]]]]; try discriminate Hlen.
  rewrite !Forall_cons in Hl. destruct Hl as ([] & [] & [] & [] & [] & [] & [] & [] & _).
  change (2 ^ 8) with 256 in *. unfold PACK64, be_word. cbn [nth rev app le_word].
  rewrite !(Z.lor_comm _ (Z.shiftl _ _)).
  rewrite (lor_shiftl_add 8), (lor_shiftl_add 16), (lor_shiftl_add 24), (lor_shiftl_add 32),
    (lor_shiftl_add 40), (lor_shiftl_add 48), (lor_shiftl_add 56) by lia. lia.
Qed.

Lemma shiftr_u8 x n : 0 ≤ n → u8 (Z.shiftr x n) = (x / 2 ^ n) `mod` 256.
Proof. intros. unfold u8, wrap. by rewrite Z.shiftr_div_pow2. Qed.

Lemma UNPACK32_spec x : UNPACK32 x = be_bytes 4 x.
Proof.
  unfold UNPACK32, be_bytes. cbn [le_bytes rev app].
  rewrite !shiftr_u8, !Z.div_div by lia. reflexivity.
Qed.

Lemma UNPACK64_spec x : UNPACK64 x = be_bytes 8 x.
Proof.
  unfold UNPACK64, be_bytes. cbn [le_bytes rev app].
  rewrite !shiftr_u8, !Z.div_div by lia. reflexivity.
Qed.

Lemma sha_pack_spec A b :
  bytes_ok b → length b = sha_wb (impl A) → sha_pack (impl A) b = be_word b.
Proof. destruct A; auto using PACK32_spec, PACK64_spec. Qed.

Lemma sha_unpack_spec A x : sha_unpack (impl A) x = be_bytes (sha_wb (impl A)) x.
Proof. destruct A; auto using UNPACK32_spec, UNPACK64_spec. Qed.

(** ** The compression function *)

Section compress.
Context (A : FIPS180.alg).
Let I := impl A.

Lemma wrap_add_l x y : wrap (sha_w I) (wrap (sha_w I) x + y) = wrap (sha_w I) (x + y).
Proof. apply Zplus_mod_idemp_l. Qed.

Lemma wrap_add_r x y : wrap (sha_w I) (x + wrap (sha_w I) y) = wrap (sha_w I) (x + y).
Proof. apply Zplus_mod_idemp_r. Qed.

Lemma add_wrap x y : FIPS180.add A x y = wrap (sha_w I) (x + y).
Proof. unfold I. by destruct A. Qed.

Lemma sha_F_spec x :
  sha_F1 I x = FIPS180.Sigma0 A x ∧ sha_F2 I x = FIPS180.Sigma1 A x ∧
  sha_F3 I x = FIPS180.sigma0 A x ∧ sha_F4 I x = FIPS180.sigma1 A x.
Proof. unfold I. by destruct A. Qed.

Lemma sha_CH_spec x y z : CH (sha_w I) x y z = FIPS180.Ch A x y z.
Proof. unfold I. by destruct A. Qed.

#[local] Opaque wrap FIPS180.sigma0 FIPS180.sigma1 FIPS180.Sigma0 FIPS180.Sigma1 FIPS180.Ch.

Lemma length_schedule M n : length (FIPS180.schedule A M n) = n.
Proof.
  induction n as [|n IH]; [done|]. cbn [FIPS180.schedule]. rewrite length_app, IH. cbn. lia.
Qed.

Lemma schedule_16 M :
  FIPS180.schedule A M 16 = words_of be_word (FIPS180.word_bytes A) 16 M.
Proof.
  apply (nth_ext _ _ 0 0); [by rewrite length_schedule, length_words_of|].
  intros i. rewrite length_schedule. intros Hi.
  enough (∀ n, (n ≤ 16)%nat → (i < n)%nat →
    nth i (FIPS180.schedule A M n) 0 = nth i (words_of be_word (FIPS180.word_bytes A) 16 M) 0)
    as Hn by (by apply Hn).
  induction n as [|n IH]; [lia|]. intros Hn Hin. cbn [FIPS180.schedule].
  destruct (decide (i = n)) as [->|].
  - rewrite app_nth2, length_schedule, Nat.sub_diag by (rewrite length_schedule; lia).
    cbn [nth]. by rewrite (proj2 (Nat.ltb_lt n 16)) by lia.
  - rewrite app_nth1 by (rewrite length_schedule; lia). apply IH; lia.
Qed.

Lemma schedule_S M t :
  (16 ≤ t)%nat →
  FIPS180.schedule A M (S t)
  = FIPS180.schedule A M t ++
    [FIPS180.add A
       (FIPS180.add A (FIPS180.sigma1 A (nth (t - 2) (FIPS180.schedule A M t) 0))
          (nth (t - 7) (FIPS180.schedule A M t) 0))
       (FIPS180.add A (FIPS180.sigma0 A (nth (t - 15) (FIPS180.schedule A M t) 0))
          (nth (t - 16) (FIPS180.schedule A M t) 0))].
Proof. intros Ht. cbn [FIPS180.schedule]. by rewrite (proj2 (Nat.ltb_ge t 16)). Qed.

(** One step of the array version extends the list version. *)
Lemma sha_scr_spec M t z :
  (16 ≤ t)%nat →
  sha_scr I t (FIPS180.schedule A M t ++ replicate (S z) 0)
  = FIPS180.schedule A M (S t) ++ replicate z 0.
Proof.
  intros Ht. rewrite schedule_S by done.
  pose proof (length_schedule M t) as Hl. set (l := FIPS180.schedule A M t) in *. clearbody l.
  unfold sha_scr, wget. rewrite !app_nth1 by lia.
  rewrite insert_app_r_alt, Hl, Nat.sub_diag by lia. cbn [replicate insert list_insert].
  rewrite <-app_assoc. f_equal. cbn [app]. f_equal.
  rewrite !add_wrap, wrap_add_l, wrap_add_r.
  rewrite (proj2 (proj2 (proj2 (sha_F_spec _)))), (proj1 (proj2 (proj2 (sha_F_spec _)))).
  by rewrite !Z.add_assoc.
Qed.

Lemma sha_scr_loop M n t z :
  (16 ≤ t)%nat → (n ≤ z)%nat →
  for_up (sha_scr I) n t (FIPS180.schedule A M t ++ replicate z 0)
  = FIPS180.schedule A M (t + n) ++ replicate (z - n) 0.
Proof.
  revert t z. induction n as [|n IH]; intros t z Ht Hz.
  - by rewrite for_up_0, Nat.add_0_r, Nat.sub_0_r.
  - destruct z as [|z]; [lia|]. rewrite for_up_S, sha_scr_spec, IH by lia.
    by rewrite Nat.add_succ_comm.
Qed.

Lemma sha_rounds_16 : (16 ≤ sha_rounds I)%nat.
Proof. unfold I. destruct A; cbn; lia. Qed.

Lemma sha_schedule_spec b :
  bytes_ok b → length b = sha_block_size I →
  sha_schedule I b = FIPS180.schedule A b (sha_rounds I).
Proof.
  intros Hb Hlen. pose proof sha_rounds_16. unfold sha_schedule.
  rewrite (words_of_ext _ be_word);
    [|done|unfold sha_block_size in Hlen; lia|apply sha_pack_spec].
  replace (sha_wb I) with (FIPS180.word_bytes A) by (unfold I; by destruct A).
  rewrite <-schedule_16, sha_scr_loop by lia.
  replace (16 + (sha_rounds I - 16))%nat with (sha_rounds I) by lia.
  by rewrite Nat.sub_diag, app_nil_r.
Qed.

Definition vars_list (v : FIPS180.vars) : list Z :=
  [FIPS180.va v; FIPS180.vb v; FIPS180.vc v; FIPS180.vd v;
   FIPS180.ve v; FIPS180.vf v; FIPS180.vg v; FIPS180.vh v].

Lemma add_5 u v x y z :
  FIPS180.add A (FIPS180.add A (FIPS180.add A (FIPS180.add A u v) x) y) z
  = wrap (sha_w I) (u + v + x + y + z).
Proof.
  rewrite !add_wrap, (wrap_add_l (u + v)), (wrap_add_l (u + v + x)).
  by rewrite (wrap_add_l (u + v + x + y)).
Qed.

Lemma sha_round_spec w t v :
  sha_round I w t (vars_list v) = vars_list (FIPS180.round A w t v).
Proof.
  destruct v as [a b c d e f g h].
  unfold FIPS180.round, vars_list, sha_round, sha_t1, sha_t2, wget.
  cbn [nth insert list_insert FIPS180.va FIPS180.vb FIPS180.vc FIPS180.vd FIPS180.ve FIPS180.vf
    FIPS180.vg FIPS180.vh].
  rewrite (proj1 (proj2 (sha_F_spec _))), (proj1 (sha_F_spec _)), !sha_CH_spec, (add_5 h _ _ _ (nth t w 0)).
  rewrite !add_wrap. unfold I. by rewrite sha_k_spec.
Qed.

Lemma sha_block_spec h b :
  length h = 8%nat → bytes_ok b → length b = sha_block_size I →
  sha_block I h b = FIPS180.compress A h b.
Proof.
  intros Hh Hb Hlen. unfold sha_block, FIPS180.compress. rewrite sha_schedule_spec by done.
  replace (FIPS180.rounds A) with (sha_rounds I) by (unfold I; by destruct A).
  set (W := FIPS180.schedule A b _).
  destruct h as [|a0 [|a1 [|a2 [|a3 [|a4 [|a5 [|a6 [|a7 [|]]]]]]]]]; try discriminate Hh.
  cbn [nth]. set (v := FIPS180.Vars _ _ _ _ _ _ _ _).
  pose proof (for_up_sim (λ _ l v, l = vars_list v) (sha_round I W) (FIPS180.round A W)
    (sha_rounds I) 0 [a0; a1; a2; a3; a4; a5; a6; a7] v eq_refl) as Hs.
  rewrite Hs by (intros ? ? ? _ ->; apply sha_round_spec).
  destruct (for_up (FIPS180.round A W) _ 0 v) as [b0 b1 b2 b3 b4 b5 b6 b7].
  unfold vars_list, sha_add. cbn [zip_with FIPS180.va FIPS180.vb FIPS180.vc FIPS180.vd FIPS180.ve
    FIPS180.vf FIPS180.vg FIPS180.vh].
  rewrite !add_wrap. by rewrite (Z.add_comm a0), (Z.add_comm a1), (Z.add_comm a2), (Z.add_comm a3),
    (Z.add_comm a4), (Z.add_comm a5), (Z.add_comm a6), (Z.add_comm a7).
Qed.

Lemma length_compress h b : length (FIPS180.compress A h b) = 8%nat.
Proof. reflexivity. Qed.
End compress.

(** ** The unrolled loop *)

Section unrolled.
Context (I : sha_alg).
Implicit Types (w h : list Z) (j r : nat).

#[local] Opaque wrap.

(** [wv] as the rolled loop would hold it after [r] renamings. *)
Definition view r (wv : list Z) : list Z := (λ k, wget wv ((k + 8 - r) mod 8)) <$> seq 0 8.

Lemma sha_exp_view w j r (wv : list Z) :
  (r < 8)%nat → length wv = 8%nat →
  let ix k := ((k + 8 - r) mod 8)%nat in
  let wv' := sha_exp I w (ix 0%nat) (ix 1%nat) (ix 2%nat) (ix 3%nat) (ix 4%nat) (ix 5%nat) (ix 6%nat)
    (ix 7%nat) j wv in
  view (S r) wv' = sha_round I w j (view r wv) ∧ length wv' = 8%nat.
Proof.
  intros Hr Hwv ix wv'. subst ix wv'. split; [|unfold sha_exp; by rewrite !length_insert].
  destruct wv as [|a [|b [|c [|d [|e [|f [|g [|h [|]]]]]]]]]; try discriminate Hwv.
  do 8 (destruct r as [|r]; [reflexivity|]). lia.
Qed.

Lemma length_sha_round w j (wv : list Z) : length (sha_round I w j wv) = length wv.
Proof. unfold sha_round. by rewrite !length_insert. Qed.

Lemma view_id r (wv : list Z) : (r = 0 ∨ r = 8)%nat → length wv = 8%nat → view r wv = wv.
Proof.
  intros Hr Hwv.
  destruct wv as [|a [|b [|c [|d [|e [|f [|g [|h [|]]]]]]]]]; try discriminate Hwv.
  by destruct Hr as [-> | ->].
Qed.

Lemma sha_exp8_spec w j (wv : list Z) :
  length wv = 8%nat → sha_exp8 I w j wv = for_up (sha_round I w) 8 j wv.
Proof.
  intros H0. unfold sha_exp8.
  destruct (sha_exp_view w j 0 wv) as [E1 L1]; [lia|done|].
  set (wv1 := sha_exp I w _ _ _ _ _ _ _ _ j wv) in *.
  destruct (sha_exp_view w (j + 1) 1 wv1) as [E2 L2]; [lia|done|].
  set (wv2 := sha_exp I w _ _ _ _ _ _ _ _ (j + 1) wv1) in *.
  destruct (sha_exp_view w (j + 2) 2 wv2) as [E3 L3]; [lia|done|].
  set (wv3 := sha_exp I w _ _ _ _ _ _ _ _ (j + 2) wv2) in *.
  destruct (sha_exp_view w (j + 3) 3 wv3) as [E4 L4]; [lia|done|].
  set (wv4 := sha_exp I w _ _ _ _ _ _ _ _ (j + 3) wv3) in *.
  destruct (sha_exp_view w (j + 4) 4 wv4) as [E5 L5]; [lia|done|].
  set (wv5 := sha_exp I w _ _ _ _ _ _ _ _ (j + 4) wv4) in *.
  destruct (sha_exp_view w (j + 5) 5 wv5) as [E6 L6]; [lia|done|].
  set (wv6 := sha_exp I w _ _ _ _ _ _ _ _ (j + 5) wv5) in *.
  destruct (sha_exp_view w (j + 6) 6 wv6) as [E7 L7]; [lia|done|].
  set (wv7 := sha_exp I w _ _ _ _ _ _ _ _ (j + 6) wv6) in *.
  destruct (sha_exp_view w (j + 7) 7 wv7) as [E8 L8]; [lia|done|].
  set (wv8 := sha_exp I w _ _ _ _ _ _ _ _ (j + 7) wv7) in *.
  rewrite (view_id 8) in E8 by auto. rewrite (view_id 0) in E1 by auto.
  change (wv8 = for_up (sha_round I w) 8 j wv).
  rewrite !for_up_S, for_up_0, <-E1. do 7 rewrite <-Nat.add_1_r.
  rewrite <-!Nat.add_assoc. cbn [Nat.add].
  by rewrite <-E2, <-E3, <-E4, <-E5, <-E6, <-E7, <-E8.
Qed.

Lemma length_sha_rounds w n j (wv : list Z) :
  length (for_up (sha_round I w) n j wv) = length wv.
Proof.
  apply (for_up_inv (λ _ l, length l = length wv)); [done|].
  intros i l _ <-. apply length_sha_round.
Qed.

Lemma sha_exp8_loop w n r (wv : list Z) :
  length wv = 8%nat →
  for_up (λ i, sha_exp8 I w (8 * i)) n r wv = for_up (sha_round I w) (8 * n) (8 * r) wv.
Proof.
  revert r wv. induction n as [|n IH]; intros r wv Hwv; [done|].
  rewrite for_up_S, sha_exp8_spec, IH by (rewrite ?length_sha_rounds; done).
  replace (8 * S n)%nat with (8 + 8 * n)%nat by lia. rewrite for_up_add.
  f_equal. lia.
Qed.
End unrolled.

(** the two forms of the compression loop agree: [UNROLL_LOOPS], which renames
    the eight working words instead of moving them, changes no digest of any of
    the four algorithms. *)
Theorem sha_block_unrolled_spec (A : FIPS180.alg) h b :
  length h = 8%nat →
  sha_block_unrolled (impl A) h b = sha_block (impl A) h b.
Proof.
  intros Hh. unfold sha_block_unrolled, sha_block. rewrite sha_exp8_loop by done.
  do 2 f_equal. by destruct A.
Qed.

(** ** Contexts *)

Section contexts.
Context (A : sha_alg) (Hwb : sha_wb A = 4%nat ∨ sha_wb A = 8%nat).
Abbreviation BS := (sha_block_size A).
Abbreviation absorbS := (absorb (sha_block A) BS).
Implicit Types (m k l : list Z) (ctx : sha_ctx).

Lemma block_size_bounds : (64 ≤ BS ≤ 128)%nat.
Proof. unfold sha_block_size. lia. Qed.

Lemma sha_transf_spec h m n : sha_transf A h m n = compress_blocks (sha_block A) BS n h m.
Proof. revert h m. induction n as [|n IH]; intros h m; [done|]. apply IH. Qed.

(** The context after absorbing [m]. *)
Record sha_rep (ctx : sha_ctx) (m : list Z) : Prop := {
  srep_h : ctx_h ctx = absorbS (sha_h0 A) m;
  srep_tot : tot_len ctx = u32 (Z.of_nat (BS * (length m / BS)));
  srep_len : ctx_len ctx = Z.of_nat (length (partial BS m));
  srep_length : length (ctx_block ctx) = (2 * BS)%nat;
  srep_block : bytes_ok (ctx_block ctx);
  srep_msg : bytes_ok m;
  srep_partial : take (length (partial BS m)) (ctx_block ctx) = partial BS m
}.

Lemma sha_init_rep ctx :
  length (ctx_block ctx) = (2 * BS)%nat → bytes_ok (ctx_block ctx) → sha_rep (sha_init A ctx) [].
Proof.
  intros Hl Hok. pose proof block_size_bounds.
  constructor; cbn [sha_init ctx_h tot_len ctx_len ctx_block]; rewrite ?partial_short by (cbn; lia);
    try done.
  - by rewrite absorb_nil.
  - cbn [length]. by rewrite Nat.Div0.div_0_l, Nat.mul_0_r.
Qed.

(** The whole blocks of a message that is continued. *)
Lemma whole_app m k :
  (BS * (length (m ++ k) / BS)
   = BS * (length m / BS) + BS * (length (partial BS m ++ k) / BS))%nat.
Proof.
  pose proof block_size_bounds.
  assert (length (m ++ k) = length (partial BS m ++ k) + (length m / BS) * BS)%nat as ->.
  { rewrite !length_app, length_partial by lia. pose proof (Nat.div_mod_eq (length m) BS). lia. }
  rewrite Nat.div_add by lia. lia.
Qed.

Lemma sha_update_rep ctx m k :
  sha_rep ctx m → bytes_ok k → Z.of_nat (length k) < 2 ^ 29 → sha_rep (sha_update A ctx k) (m ++ k).
Proof.
  intros Hr Hk Hlen. pose proof block_size_bounds as HBS.
  set (p := partial BS m).
  assert (length p < BS)%nat as Hp by (apply length_partial_lt; lia).
  pose proof (srep_length _ _ Hr) as Hl. pose proof (srep_block _ _ Hr) as Hb.
  assert (bytes_ok (m ++ k)) as Hmk by (apply Forall_app; split; [apply Hr|done]).
  pose proof (absorb_app (sha_block A) BS ltac:(lia) (sha_h0 A) m k) as Happ. fold p in Happ.
  pose proof (partial_app BS ltac:(lia) m k) as Hpart. fold p in Hpart.
  pose proof (whole_app m k) as Hwhole. fold p in Hwhole.
  unfold sha_update. rewrite (srep_len _ _ Hr). fold p. change (2 ^ 29) with 536870912 in Hlen.
  assert (∀ x, 0 ≤ x < 4294967296 → u32 x = x) as Hu by (intros; by apply u32_small).
  rewrite !(Hu (_ + _)), (Hu (Z.of_nat BS - _)) by lia.
  destruct (Z.ltb_spec (Z.of_nat (length p) + Z.of_nat (length k)) (Z.of_nat BS)) as [Hlt|Hge].
  - assert (length (p ++ k) < BS)%nat as Hs by (rewrite length_app; lia).
    rewrite (absorb_short _ _ _ (p ++ k)) in Happ by done.
    rewrite (partial_short BS (p ++ k)) in Hpart by done.
    rewrite (Nat.div_small (length (p ++ k))), Nat.mul_0_r, Nat.add_0_r in Hwhole by done.
    rewrite (proj2 (Z.ltb_lt _ _)), !Nat2Z.id by lia. rewrite (firstn_all2 k) by lia.
    constructor; cbn [ctx_h tot_len ctx_len ctx_block].
    + by rewrite Happ, (srep_h _ _ Hr).
    + by rewrite Hwhole, (srep_tot _ _ Hr).
    + rewrite Hpart, length_app. lia.
    + by rewrite length_memcpy.
    + by apply memcpy_ok.
    + done.
    + rewrite Hpart, length_app, take_memcpy_prefix by lia. f_equal. apply (srep_partial _ _ Hr).
  - destruct (Z.ltb_spec (Z.of_nat (length k)) (Z.of_nat BS - Z.of_nat (length p))); [lia|].
    set (n := (BS - length p)%nat). set (dk := drop n k).
    replace (Z.of_nat BS - Z.of_nat (length p)) with (Z.of_nat n) by lia.
    assert (length dk = length k - n)%nat as Hdk by apply length_drop.
    replace (Z.of_nat (length k) - Z.of_nat n) with (Z.of_nat (length dk)) by lia.
    rewrite (Hu (Z.of_nat (length dk))) by lia.
    rewrite <-Nat2Z.inj_div, <-Nat2Z.inj_mod, !Nat2Z.id. fold dk.
    assert (BS * (length dk / BS) ≤ length dk)%nat by (apply Nat.Div0.mul_div_le).
    replace (Z.of_nat (length dk / BS) * Z.of_nat BS) with (Z.of_nat (BS * (length dk / BS))) by lia.
    rewrite (Hu (Z.of_nat (BS * _))), Nat2Z.id by lia.
    set (b := p ++ take n k).
    assert (length b = BS) as Hbl by (unfold b; rewrite length_app, length_take; lia).
    assert (p ++ k = b ++ dk) as Hsplit by (unfold b, dk; by rewrite <-app_assoc, take_drop).
    rewrite Hsplit, (absorb_app_block _ BS ltac:(lia) _ b) in Happ by done.
    rewrite Hsplit, (partial_app_block BS ltac:(lia) b) in Hpart by done.
    assert (length (p ++ k) / BS = S (length dk / BS))%nat as Hdiv.
    { rewrite Hsplit, length_app, Hbl. replace (BS + length dk)%nat with (1 * BS + length dk)%nat by lia.
      rewrite Nat.div_add_l by lia. lia. }
    assert (take BS (memcpy (ctx_block ctx) (length p) (take n k)) = b) as Htb.
    { replace BS with (length p + length (take n k))%nat by (rewrite length_take; lia).
      rewrite take_memcpy_prefix by (rewrite length_take; lia).
      unfold b. f_equal. apply (srep_partial _ _ Hr). }
    set (blk := memcpy (ctx_block ctx) (length p) (take n k)) in *.
    assert (length blk = (2 * BS)%nat) as Hblk by (unfold blk; by rewrite length_memcpy).
    assert (take (length dk mod BS) (drop (BS * (length dk / BS)) dk) = partial BS dk) as ->.
    { rewrite <-(length_partial BS ltac:(lia) dk). unfold partial. by rewrite firstn_all. }
    assert (length (partial BS dk) < BS)%nat by (apply length_partial_lt; lia).
    constructor; cbn [ctx_h tot_len ctx_len ctx_block sha_transf].
    + rewrite sha_transf_spec, Htb, (srep_h _ _ Hr). by rewrite Happ.
    + rewrite (srep_tot _ _ Hr), Hwhole, Hdiv. unfold u32, wrap.
      rewrite <-Zplus_mod. f_equal. lia.
    + by rewrite Hpart, length_partial by lia.
    + by rewrite length_memcpy.
    + apply memcpy_ok; [|by do 2 apply Forall_drop].
      apply memcpy_ok; [done|by apply Forall_take].
    + done.
    + rewrite Hpart. apply (take_memcpy_prefix blk 0). lia.
Qed.

(** The memory that [sha_final] hashes: the last bytes, 0x80, zeros, the length. *)
Lemma final_block l t pm len_b :
  (t + 5 ≤ pm ≤ length l)%nat →
  take pm (memcpy (<[t:=0x80]> (memset l t 0 (pm - t))) (pm - 4) (UNPACK32 len_b))
  = take t l ++ [0x80] ++ replicate (pm - 5 - t) 0 ++ be_bytes 4 len_b.
Proof.
  intros Hpm. rewrite UNPACK32_spec.
  assert (memset l t 0 (pm - t) = take t l ++ (0 :: replicate (pm - t - 1) 0) ++ drop pm l) as ->.
  { unfold memset. fold (memcpy l t (replicate (pm - t) 0)).
    rewrite memcpy_split, length_replicate by (rewrite length_replicate; lia).
    replace (t + (pm - t))%nat with pm by lia.
    by replace (pm - t)%nat with (S (pm - t - 1)) at 1 by lia. }
  rewrite insert_app_r_alt, length_take, Nat.min_l, Nat.sub_diag by (rewrite ?length_take; lia).
  cbn [app insert list_insert]. set (L := _ ++ _ :: _).
  assert (length L = length l) as HL.
  { unfold L. rewrite length_app, length_take. cbn [length].
    rewrite length_app, length_replicate, length_drop. lia. }
  replace pm with (pm - 4 + length (be_bytes 4 len_b))%nat at 1 by (rewrite length_be_bytes; lia).
  rewrite take_memcpy_prefix by (rewrite length_be_bytes; lia).
  unfold L. replace (pm - t - 1)%nat with (pm - 5 - t + 4)%nat by lia.
  rewrite replicate_add. change (0x80 :: ?l) with ([0x80] ++ l).
  rewrite !app_assoc. f_equal. rewrite <-(app_assoc _ (replicate 4 0)).
  apply take_app_length'. rewrite !length_app, length_take, length_replicate. cbn [length]. lia.
Qed.

Lemma sha_final_rep ctx m :
  sha_rep ctx m → Z.of_nat (length m) < 2 ^ 29 →
  sha_final A ctx
  = concat (sha_unpack A <$> take (sha_out A)
      (absorbS (sha_h0 A) (md_pad BS m (be_bytes (2 * sha_wb A) (8 * Z.of_nat (length m)))))).
Proof.
  intros Hr Hlen. pose proof block_size_bounds as HBS. change (2 ^ 29) with 536870912 in Hlen.
  unfold sha_final. f_equal. f_equal. f_equal.
  rewrite (srep_len _ _ Hr), (srep_tot _ _ Hr), (srep_h _ _ Hr).
  rewrite absorb_md_pad by (rewrite ?length_be_bytes; lia). rewrite !length_be_bytes.
  pose proof (srep_partial _ _ Hr) as Hp. pose proof (srep_length _ _ Hr) as Hl.
  set (p := partial BS m) in *. set (H := absorbS (sha_h0 A) m).
  assert (length p < BS)%nat as Hlp by (apply length_partial_lt; lia).
  assert (BS * (length m / BS) + length p = length m)%nat as Hsum.
  { unfold p. rewrite length_partial by lia. pose proof (Nat.div_mod_eq (length m) BS). lia. }
  rewrite (u32_small (Z.of_nat (BS * _))), (u32_small (_ + _)), u32_small by (change (2 ^ 32) with 4294967296; lia).
  replace ((Z.of_nat (BS * (length m / BS)) + Z.of_nat (length p)) * 8)
    with (8 * Z.of_nat (length m)) by lia.
  assert (be_bytes (2 * sha_wb A) (8 * Z.of_nat (length m))
    = replicate (2 * sha_wb A - 4) 0 ++ be_bytes 4 (8 * Z.of_nat (length m))) as ->.
  { replace (2 * sha_wb A)%nat with (2 * sha_wb A - 4 + 4)%nat at 1 by lia.
    apply be_bytes_zeros. change (2 ^ (8 * Z.of_nat 4)) with 4294967296. lia. }
  set (L := be_bytes 4 _). rewrite Z.mod_small, Nat2Z.id by lia.
  case_decide as Hfit.
  - rewrite (proj2 (Z.ltb_ge _ _)) by lia. replace (Z.to_nat (1 * Z.of_nat BS)) with BS by lia.
    change (Z.to_nat 1) with 1%nat. rewrite sha_transf_spec.
    cbn [compress_blocks]. f_equal. rewrite final_block, Hp by lia. fold L.
    rewrite (app_assoc (replicate _ _) (replicate _ _)), <-replicate_add.
    do 3 f_equal. f_equal. lia.
  - rewrite (proj2 (Z.ltb_lt _ _)) by lia. replace (Z.to_nat (2 * Z.of_nat BS)) with (BS * 2)%nat by lia.
    change (Z.to_nat 2) with 2%nat. rewrite sha_transf_spec.
    rewrite <-compress_blocks_take by (rewrite ?length_memcpy, ?length_insert, ?length_memset; lia).
    rewrite final_block, Hp by lia. fold L.
    replace (BS * 2 - 5 - length p)%nat with (BS - 1 - length p + (BS - 4))%nat by lia.
    rewrite replicate_add, <-app_assoc, !(app_assoc [_]), (app_assoc p).
    set (b1 := p ++ _ ++ _). 
    assert (length b1 = BS) as Hb1.
    { unfold b1. rewrite !length_app, length_replicate. cbn [length]. lia. }
    cbn [compress_blocks]. rewrite take_app_length', drop_app_length' by done. f_equal.
    rewrite firstn_all2 by (rewrite length_app, length_replicate; unfold L; rewrite length_be_bytes; lia).
    rewrite (app_assoc (replicate _ _) (replicate _ _)), <-replicate_add. f_equal. f_equal. lia.
Qed.

(** SHA-2 contexts are streaming contexts. *)
#[export] Instance sha_StreamHash ctx (Hl : length (ctx_block ctx) = (2 * BS)%nat)
    (Hok : bytes_ok (ctx_block ctx)) :
  StreamHash (sha_init A ctx) (sha_update A) (sha_final A)
    (λ m, concat (sha_unpack A <$> take (sha_out A)
      (absorbS (sha_h0 A) (md_pad BS m (be_bytes (2 * sha_wb A) (8 * Z.of_nat (length m)))))))
    (2 ^ 29) (2 ^ 29) := {
  absorbed := sha_rep;
  absorbed_init := sha_init_rep ctx Hl Hok;
  absorbed_update := sha_update_rep;
  absorbed_final := sha_final_rep
}.
End contexts.

(** ** The digests of the standard *)

Lemma impl_wb A : sha_wb (impl A) = 4%nat ∨ sha_wb (impl A) = 8%nat.
Proof. destruct A; auto. Qed.

(** The digest of the contexts is the one of the standard. *)
Lemma sha2_digest A m :
  bytes_ok m →
  concat (sha_unpack (impl A) <$> take (sha_out (impl A))
    (absorb (sha_block (impl A)) (sha_block_size (impl A)) (sha_h0 (impl A))
       (md_pad (sha_block_size (impl A)) m
          (be_bytes (2 * sha_wb (impl A)) (8 * Z.of_nat (length m))))))
  = FIPS180.sha2 A m.
Proof.
  intros Hm. unfold FIPS180.sha2, FIPS180.pad. rewrite sha_h0_spec.
  replace (FIPS180.block_bytes A) with (sha_block_size (impl A)) by (by destruct A).
  replace (FIPS180.word_bytes A) with (sha_wb (impl A)) by (by destruct A).
  set (msg := md_pad _ _ _).
  assert (bytes_ok msg) as Hmsg.
  { unfold msg, md_pad. repeat apply Forall_app_2; [done| | |apply be_bytes_ok].
    - by repeat constructor.
    - by apply Forall_replicate. }
  rewrite (absorb_ext (sha_block (impl A)) (FIPS180.compress A) (sha_block_size (impl A))
    (λ st, length st = 8%nat) (FIPS180.H0 A) msg).
  - rewrite (list_fmap_ext (sha_unpack (impl A)) (be_bytes (sha_wb (impl A))))
      by (intros; apply sha_unpack_spec).
    rewrite <-(take_concat_words _ (sha_wb (impl A))) by (intros; apply length_be_bytes).
    f_equal. by destruct A.
  - pose proof (block_size_bounds (impl A) (impl_wb A)). lia.
  - rewrite <-sha_h0_spec. by destruct A.
  - done.
  - intros st b Hst Hb Hlen. rewrite sha_block_spec by done. split; [done|]. apply length_compress.
Qed.

(** C7: the contexts of sha2.c compute SHA-224, SHA-256, SHA-384 and SHA-512 of
    FIPS 180-4: however a message of fewer than 2^29 bytes is cut into updates,
    the digest is that of the whole message (the length of a longer message does
    not fit the 32-bit [len_b]). *)
Theorem sha2_is_FIPS180 A ctx chunks :
  length (ctx_block ctx) = (2 * sha_block_size (impl A))%nat → bytes_ok (ctx_block ctx) →
  Forall (λ k, bytes_ok k ∧ Z.of_nat (length k) < 2 ^ 29) chunks →
  Z.of_nat (length (concat chunks)) < 2 ^ 29 →
  sha_final (impl A) (fold_left (sha_update (impl A)) chunks (sha_init (impl A) ctx))
  = FIPS180.sha2 A (concat chunks).
Proof.
  intros Hl Hok Hchunks Htotal.
  rewrite (stream_digest (H := sha_StreamHash (impl A) (impl_wb A) ctx Hl Hok)) by done.
  apply sha2_digest, Forall_concat.
  eapply Forall_impl; [exact Hchunks|]. by intros k [].
Qed.

Lemma sha_spec A m :
  bytes_ok m → Z.of_nat (length m) < 2 ^ 29 →
  sha (impl A) (sha_stack (impl A)) m = FIPS180.sha2 A m.
Proof.
  intros Hm Hlen. unfold sha.
  rewrite (sha_final_rep (impl A) (impl_wb A) _ m); [by apply sha2_digest| |done].
  apply (sha_update_rep (impl A) (impl_wb A) _ []); [|done..].
  apply (sha_init_rep (impl A) (impl_wb A)).
  - apply length_replicate.
  - by apply Forall_replicate.
Qed.

Lemma sha256_spec m :
  bytes_ok m → Z.of_nat (length m) < 2 ^ 29 → sha256 m = FIPS180.sha2 FIPS180.A256 m.
Proof. apply (sha_spec FIPS180.A256). Qed.
