(* ===== verification/Codec.v ===== *)
(** * codec.c: page encryption

    The object [Codec] of codec.h and its operations: password to key, initial
    vectors, and the encryption and decryption of a database page in place. The
    build macro [CODEC_TYPE] is a parameter, so that both forms of the code are
    covered. A page is a region of byte memory. *)
From S2P Require Import Prelude Words HashBase MD5 RC4 Sha2 RijndaelTables Rijndael RijndaelApi.
Local Open Scope Z_scope.

(** ** codec.h *)

Inductive codec_type := CODEC_TYPE_AES128 | CODEC_TYPE_AES256.

Definition KEYLENGTH (ct : codec_type) : nat :=
  match ct with CODEC_TYPE_AES128 => 16 | CODEC_TYPE_AES256 => 32 end.
Definition CODEC_SHA_ITER : nat := 4001.
Definition SQLITE_MAX_PAGE_SIZE : Z := 65536.
(** "SQLite format 3" and its final zero. *)
Definition SQLITE_FILE_HEADER : list Z :=
  [0x53; 0x51; 0x4c; 0x69; 0x74; 0x65; 0x20; 0x66; 0x6f; 0x72; 0x6d; 0x61; 0x74; 0x20; 0x33; 0x00].

(** [struct _Codec], over the type of the B-tree handles. *)
Record Codec {Btree : Type} := mkCodec {
  m_isEncrypted : Z;
  m_hasReadKey : Z;
  m_readKey : list Z;
  m_hasWriteKey : Z;
  m_writeKey : list Z;
  m_aes : Rijndael;
  m_bt : option Btree;
  m_page : list Z
}.
Arguments Codec : clear implicits.

Section Codec.
Context `{Machine} {Btree : Type} (ct : codec_type).
Implicit Types (codec : Codec Btree).

Definition set_aes codec (aes : Rijndael) : Codec Btree :=
  mkCodec Btree (m_isEncrypted codec) (m_hasReadKey codec) (m_readKey codec)
    (m_hasWriteKey codec) (m_writeKey codec) aes (m_bt codec) (m_page codec).
Definition set_readKey codec (key : list Z) : Codec Btree :=
  mkCodec Btree (m_isEncrypted codec) (m_hasReadKey codec) key
    (m_hasWriteKey codec) (m_writeKey codec) (m_aes codec) (m_bt codec) (m_page codec).
Definition set_writeKey codec (key : list Z) : Codec Btree :=
  mkCodec Btree (m_isEncrypted codec) (m_hasReadKey codec) (m_readKey codec)
    (m_hasWriteKey codec) key (m_aes codec) (m_bt codec) (m_page codec).
Definition set_page codec (page : list Z) : Codec Btree :=
  mkCodec Btree (m_isEncrypted codec) (m_hasReadKey codec) (m_readKey codec)
    (m_hasWriteKey codec) (m_writeKey codec) (m_aes codec) (m_bt codec) page.

Definition CodecSetIsEncrypted codec (isEncrypted : Z) : Codec Btree :=
  mkCodec Btree isEncrypted (m_hasReadKey codec) (m_readKey codec)
    (m_hasWriteKey codec) (m_writeKey codec) (m_aes codec) (m_bt codec) (m_page codec).
Definition CodecSetHasReadKey codec (hasReadKey : Z) : Codec Btree :=
  mkCodec Btree (m_isEncrypted codec) hasReadKey (m_readKey codec)
    (m_hasWriteKey codec) (m_writeKey codec) (m_aes codec) (m_bt codec) (m_page codec).
Definition CodecSetHasWriteKey codec (hasWriteKey : Z) : Codec Btree :=
  mkCodec Btree (m_isEncrypted codec) (m_hasReadKey codec) (m_readKey codec)
    hasWriteKey (m_writeKey codec) (m_aes codec) (m_bt codec) (m_page codec).
Definition CodecSetBtree codec (bt : option Btree) : Codec Btree :=
  mkCodec Btree (m_isEncrypted codec) (m_hasReadKey codec) (m_readKey codec)
    (m_hasWriteKey codec) (m_writeKey codec) (m_aes codec) bt (m_page codec).

Definition CodecIsEncrypted codec : bool := negb (m_isEncrypted codec =? 0).
Definition CodecHasReadKey codec : bool := negb (m_hasReadKey codec =? 0).
Definition CodecHasWriteKey codec : bool := negb (m_hasWriteKey codec =? 0).
Definition CodecGetBtree codec : option Btree := m_bt codec.
(** [&codec->m_page[4]], as an index. *)
Definition CodecGetPageBuffer : nat := 4.

(** [codec] and [aes] are the memory that [sqlite3_malloc] returns. *)
Definition CodecInit codec (aes : Rijndael) : Codec Btree :=
  let codec := CodecSetIsEncrypted codec 0 in
  let codec := CodecSetHasReadKey codec 0 in
  let codec := CodecSetHasWriteKey codec 0 in
  set_aes codec (RijndaelCreate aes).

(** [for (j = 0; j < KEYLENGTH; j++) dst[j] = src[j]]. *)
Definition copy_key16 (dst src : list Z) : list Z := memcpy dst 0 (take (KEYLENGTH ct) src).

Definition CodecCopy codec (other : Codec Btree) : Codec Btree :=
  mkCodec Btree (m_isEncrypted other) (m_hasReadKey other)
    (copy_key16 (m_readKey codec) (m_readKey other))
    (m_hasWriteKey other) (copy_key16 (m_writeKey codec) (m_writeKey other))
    (RijndaelInvalidate (m_aes codec)) (m_bt other) (m_page codec).

Definition CodecCopyKey codec (read2write : bool) : Codec Btree :=
  if read2write then set_writeKey codec (copy_key16 (m_writeKey codec) (m_readKey codec))
  else set_readKey codec (copy_key16 (m_readKey codec) (m_writeKey codec)).

(** ** Keys *)

Definition padding : list Z :=
  [0x28; 0xBF; 0x4E; 0x5E; 0x4E; 0x75; 0x8A; 0x41; 0x64; 0x00; 0x4E; 0x56; 0xFF; 0xFA; 0x01; 0x08;
   0x2E; 0x2E; 0x00; 0xB6; 0xD0; 0x68; 0x3E; 0x80; 0x2F; 0x0C; 0xA9; 0xFE; 0x64; 0x53; 0x69; 0x7A].

(** The array [pswd] of 32 bytes. *)
Definition CodecPadPassword (password : list Z) (pswdlen : Z) : list Z :=
  let m := if 32 <? pswdlen then 32 else pswdlen in
  let p := Z.to_nat m in
  take p password ++ take (32 - p) padding.

Definition CodecGetSHABinary (data : list Z) : list Z := sha256 data.

(** [MD5Init; MD5Update...; MD5Final] on a context of the stack. *)
Definition md5_of (chunks : list (list Z)) : list Z :=
  fst (MD5Final (fold_left MD5Update chunks (MD5Init md5_stack))).

(** [for (j = 0; j < keyLength; ++j) mkey[j] = (digest[j] ^ i)], then RC4. *)
Definition owner_round (digest : list Z) (i : nat) (ownerKey : list Z) : list Z :=
  let mkey := (λ d, u8 (Z.lxor d (Z.of_nat i))) <$> take 16 digest in
  CodecRC4 mkey 16 ownerKey 0 32 0.

Definition CodecGenerateEncryptionKey (userPassword : list Z) (passwordLength : Z) : list Z :=
  let userPad := CodecPadPassword userPassword passwordLength in
  match ct with
  | CODEC_TYPE_AES256 =>
      let digest := sha256 userPad in
      for_up (λ _ digest, sha256 (take 32 digest)) CODEC_SHA_ITER 0 digest
  | CODEC_TYPE_AES128 =>
      let ownerPad := CodecPadPassword [] 0 in
      let digest := md5_of [ownerPad] in
      let digest := for_up (λ _ digest, md5_of [take 16 digest]) 50 0 digest in
      let ownerKey := userPad in
      let ownerKey := for_up (owner_round digest) 20 0 ownerKey in
      let digest := md5_of [userPad; ownerKey] in
      for_up (λ _ digest, md5_of [take 16 digest]) 50 0 digest
  end.

Definition CodecGenerateReadKey codec (userPassword : list Z) (passwordLength : Z) : Codec Btree :=
  set_readKey codec (CodecGenerateEncryptionKey userPassword passwordLength).
Definition CodecGenerateWriteKey codec (userPassword : list Z) (passwordLength : Z) : Codec Btree :=
  set_writeKey codec (CodecGenerateEncryptionKey userPassword passwordLength).

(** ** Initial vectors *)

(** The macro [MODMULT], on [int]s: [/] rounds towards zero. *)
Definition MODMULT (a b c m s : Z) : Z :=
  let q := Z.quot s a in
  let s := b * (s - a * q) - c * q in
  if s <? 0 then s + m else s.

(** [0xff & z], [0xff & (z >> 8)], ... *)
Definition int_bytes (z : Z) : list Z :=
  [Z.land 0xff z; Z.land 0xff (Z.shiftr z 8); Z.land 0xff (Z.shiftr z 16); Z.land 0xff (Z.shiftr z 24)].

(** The loop over [j], [n] turns: the bytes of [initkey]. *)
Fixpoint iv_key (n : nat) (z : Z) : list Z :=
  match n with
  | O => []
  | S n' =>
      let z := MODMULT 52774 40692 3791 2147483399 z in
      int_bytes z ++ iv_key n' z
  end.

Definition CodecGenerateInitialVector (seed : Z) : list Z :=
  CodecGetMD5Binary (iv_key 4 (seed + 1)).

(** ** Pages *)

(** The key of a page: the digest of the key, the page number and a salt. *)
Definition nkey (page : Z) (encryptionKey : list Z) : list Z :=
  take (KEYLENGTH ct) encryptionKey ++ int_bytes page ++ [0x73; 0x41; 0x6c; 0x54].

Definition CodecAES codec (page : Z) (encrypt : bool) (encryptionKey : list Z)
    (mem : list Z) (datain : nat) (datalen : Z) (dataout : nat) : Codec Btree * list Z :=
  let direction := if encrypt then RIJNDAEL_Direction_Encrypt else RIJNDAEL_Direction_Decrypt in
  let nkey := nkey page encryptionKey in
  let pagekey := match ct with
                 | CODEC_TYPE_AES256 => CodecGetSHABinary nkey
                 | CODEC_TYPE_AES128 => CodecGetMD5Binary nkey
                 end in
  let initial := CodecGenerateInitialVector page in
  let keyLen := match ct with
                | CODEC_TYPE_AES256 => RIJNDAEL_Direction_KeyLength_Key32Bytes
                | CODEC_TYPE_AES128 => RIJNDAEL_Direction_KeyLength_Key16Bytes
                end in
  let '(_, aes) := RijndaelInit (m_aes codec) RIJNDAEL_Direction_Mode_CBC direction
                     (Some pagekey) keyLen (Some initial) in
  let '(_, mem) := if encrypt
                   then RijndaelBlockEncrypt aes mem (Some datain) (datalen * 8) dataout
                   else RijndaelBlockDecrypt aes mem (Some datain) (datalen * 8) dataout in
  (set_aes codec aes, mem).

(** [memcpy(dst, src, n)] within memory. *)
Definition memcpy_in (mem : list Z) (dst src n : nat) : list Z :=
  memcpy mem dst (take n (drop src mem)).

(** Pages have at most SQLITE_MAX_PAGE_SIZE = 65536 bytes, so that their length in
    bits fits the int of the calls to rijndael.c. *)
Definition CodecEncrypt codec (page : Z) (mem : list Z) (data : nat) (len : Z) (useWriteKey : bool)
    : Codec Btree * list Z :=
  let key := if useWriteKey then m_writeKey codec else m_readKey codec in
  let dbHeader := take 8 (drop (data + 16) mem) in
  let '(codec, mem) :=
    if page =? 1 then CodecAES codec page true key mem data 16 data else (codec, mem) in
  let offset := if page =? 1 then 16%nat else 0%nat in
  let '(codec, mem) :=
    CodecAES codec page true key mem (data + offset) (len - Z.of_nat offset) (data + offset) in
  (codec,
   if page =? 1
   then
     let mem := memcpy_in mem (data + 8) (data + 16) 8 in
     memcpy mem (data + 16) dbHeader
   else mem).

(** The test on the eight bytes at offset 16: they look like the unencrypted
    header of a database. *)
Definition header_ok (dbHeader : list Z) : bool :=
  let dbPageSize := Z.lor (Z.shiftl (nth 0 dbHeader 0) 8) (Z.shiftl (nth 1 dbHeader 0) 16) in
  (512 <=? dbPageSize) && (dbPageSize <=? SQLITE_MAX_PAGE_SIZE)
  && (Z.land (dbPageSize - 1) dbPageSize =? 0)
  && (nth 5 dbHeader 0 =? 0x40) && (nth 6 dbHeader 0 =? 0x20) && (nth 7 dbHeader 0 =? 0x20).

Definition CodecDecrypt codec (page : Z) (mem : list Z) (data : nat) (len : Z)
    : Codec Btree * list Z :=
  let dbHeader := take 8 (drop (data + 16) mem) in
  let plain := (page =? 1) && header_ok dbHeader in
  let mem := if plain then memcpy_in mem (data + 16) (data + 8) 8 else mem in
  let offset := if plain then 16%nat else 0%nat in
  let '(codec, mem) :=
    CodecAES codec page false (m_readKey codec) mem (data + offset) (len - Z.of_nat offset)
      (data + offset) in
  (codec,
   if plain
   then
     if bool_decide (dbHeader = take 8 (drop (data + 16) mem))
     then memcpy mem data SQLITE_FILE_HEADER else mem
   else mem).
End Codec.
