(* ===== verification/CodecProofs.v ===== *)
(** * Page encryption is correct

    Keys and initial vectors in terms of the standard digests; the arithmetic of
    the initial vectors stays within an [int]; a page that is encrypted and then
    decrypted with one key comes back, page 1 with its partly readable header
    included; and every operation keeps the object well-formed. *)
From S2P Require Import Prelude Words HashBase RijndaelTables Rijndael RijndaelSpec RijndaelApi RijndaelCipher RijndaelKey RijndaelBlock RijndaelModes MD5 MD5Proofs RC4 Sha2 Sha2Proofs Codec.
Local Open Scope Z_scope.
Local Open Scope sqlc_scope.

#[local] Opaque absorb sha_schedule.

(** ** Digests *)

Lemma land_ff_byte z : byte_ok (Z.land 0xff z).
Proof.
  rewrite Z.land_comm. change 0xff with (Z.ones 8). rewrite Z.land_ones by done.
  unfold uint. apply Z.mod_pos_bound. done.
Qed.

Lemma int_bytes_ok z : bytes_ok (int_bytes z).
Proof. repeat (constructor; [apply land_ff_byte|]). constructor. Qed.

Lemma length_md5 m : length (RFC1321.md5 m) = 16%nat.
Proof.
  unfold RFC1321.md5. pose proof (absorb_st_ok RFC1321.iv (RFC1321.pad m) iv_ok) as [Hl _].
  destruct (absorb _ _ _ _) as [|a [|b [|c [|d [|]]]]]; try discriminate Hl. reflexivity.
Qed.

Lemma md5_ok m : bytes_ok (RFC1321.md5 m).
Proof. apply concat_bytes_ok, le_bytes_ok. Qed.

Lemma length_sha2_256 m : bytes_ok m → length (FIPS180.sha2 FIPS180.A256 m) = 32%nat.
Proof.
  intros Hm. rewrite <-sha2_digest by done. cbn [impl]. 
  set (h := absorb _ _ _ _).
  assert (length h = 8%nat) as Hl.
  { apply (absorb_inv _ _ (λ st, length st = 8%nat)); [done|]. intros st b Hst.
    unfold sha_block, sha_add. rewrite length_zip_with, length_sha_rounds. lia. }
  destruct h as [|? [|? [|? [|? [|? [|? [|? [|? [|]]]]]]]]]; try discriminate Hl. reflexivity.
Qed.

Lemma sha2_ok m : bytes_ok (FIPS180.sha2 FIPS180.A256 m).
Proof. apply Forall_take, concat_bytes_ok, be_bytes_ok. Qed.

#[local] Opaque RFC1321.md5 FIPS180.sha2 sha256 RC4 Cipher KeyExpansion.

Section codec.
Context `{Machine} {Btree : Type} (ct : codec_type).
Implicit Types (codec : Codec Btree) (mem key pw : list Z) (page : Z) (d n : nat).

Lemma md5_of_spec chunks :
  Forall (λ k, bytes_ok k ∧ Z.of_nat (length k) < 2 ^ 32) chunks →
  md5_of chunks = RFC1321.md5 (concat chunks).
Proof.
  intros Hchunks. unfold md5_of.
  assert (length (md5_in md5_stack) = 64%nat) as Hl by done.
  assert (bytes_ok (md5_in md5_stack)) as Hi by (by apply Forall_replicate).
  apply (stream_digest (H := MD5_StreamHash md5_stack (Z.of_nat (length (concat chunks)) + 1) Hl Hi));
    [done|lia].
Qed.

(** ** The key and the initial vector of a page *)

(** The digest that each build uses for page keys. *)
Definition page_hash (m : list Z) : list Z :=
  match ct with
  | CODEC_TYPE_AES128 => RFC1321.md5 m
  | CODEC_TYPE_AES256 => FIPS180.sha2 FIPS180.A256 m
  end.

Definition page_key (page : Z) (key : list Z) : list Z := page_hash (nkey ct page key).
Definition page_iv (page : Z) : list Z := RFC1321.md5 (iv_key 4 (page + 1)).

(** The block cipher of a page: the AES of FIPS-197 with 4 or 8 key words. *)
Definition key_words : nat := match ct with CODEC_TYPE_AES128 => 4 | CODEC_TYPE_AES256 => 8 end.
Definition page_cipher (page : Z) (key : list Z) : block → block :=
  Cipher (key_words + 6) (KeyExpansion key_words (key_words + 6) (key_matrix (page_key page key) key_words)).

Lemma nkey_ok page key : bytes_ok key → bytes_ok (nkey ct page key) ∧ (length (nkey ct page key) ≤ 40)%nat.
Proof.
  intros Hk. unfold nkey. split.
  - repeat apply Forall_app_2; [by apply Forall_take|apply int_bytes_ok|by repeat constructor].
  - rewrite !length_app, length_take. cbn [length int_bytes]. unfold KEYLENGTH. destruct ct; lia.
Qed.

Lemma page_hash_spec m :
  bytes_ok m → Z.of_nat (length m) < 2 ^ 29 →
  (match ct with CODEC_TYPE_AES256 => CodecGetSHABinary m | CODEC_TYPE_AES128 => CodecGetMD5Binary m end)
  = page_hash m.
Proof.
  intros Hm Hlen. unfold page_hash. destruct ct.
  - apply CodecGetMD5Binary_spec; [done|]. lia.
  - by apply sha256_spec.
Qed.

Lemma page_key_ok page key :
  bytes_ok key → bytes_ok (page_key page key) ∧ length (page_key page key) = KEYLENGTH ct.
Proof.
  intros Hk. unfold page_key, page_hash, KEYLENGTH. destruct (nkey_ok page key Hk).
  destruct ct; auto using md5_ok, sha2_ok, length_md5, length_sha2_256.
Qed.

Lemma iv_key_ok n z : bytes_ok (iv_key n z) ∧ length (iv_key n z) = (4 * n)%nat.
Proof.
  revert z. induction n as [|n IH]; intros z; cbn [iv_key]; [done|].
  destruct (IH (MODMULT 52774 40692 3791 2147483399 z)) as [H1 H2].
  split; [apply Forall_app_2; [apply int_bytes_ok|done]|].
  rewrite length_app, H2. cbn [length int_bytes]. lia.
Qed.

Lemma CodecGenerateInitialVector_spec page : CodecGenerateInitialVector page = page_iv page.
Proof.
  unfold CodecGenerateInitialVector, page_iv. destruct (iv_key_ok 4 (page + 1)) as [Hok Hlen].
  apply CodecGetMD5Binary_spec; [done|]. rewrite Hlen. done.
Qed.

Lemma page_iv_ok page : bytes_ok (page_iv page).
Proof. unfold page_iv. apply md5_ok. Qed.

Lemma page_key_iv_ok page key : bytes_ok key → key_ok (page_key page key) (Some (page_iv page)).
Proof.
  intros Hk. split; [by apply page_key_ok|]. intros v Hv. apply (inj Some) in Hv as <-. apply page_iv_ok.
Qed.

#[local] Opaque page_iv page_key MODMULT.

(** ** [CodecAES] in place *)

Definition aes_keyLen : Z :=
  match ct with
  | CODEC_TYPE_AES256 => RIJNDAEL_Direction_KeyLength_Key32Bytes
  | CODEC_TYPE_AES128 => RIJNDAEL_Direction_KeyLength_Key16Bytes
  end.

(** Initialisation for a page always succeeds. *)
Lemma page_opened (aes : Rijndael) page key dir :
  rijndael_wf aes → bytes_ok key → valid_dir dir →
  ∃ aes', RijndaelInit aes RIJNDAEL_Direction_Mode_CBC dir (Some (page_key page key)) aes_keyLen
            (Some (page_iv page)) = (RIJNDAEL_SUCCESS, aes') ∧
    rijndael_wf aes' ∧
    opened RIJNDAEL_Direction_Mode_CBC dir (page_key page key) aes_keyLen (Some (page_iv page)) aes'.
Proof.
  intros Hwf Hk Hdir. destruct (page_key_iv_ok page key Hk) as [Hpk Hiv].
  destruct (RijndaelInit_spec aes RIJNDAEL_Direction_Mode_CBC dir (page_key page key) aes_keyLen
    (Some (page_iv page)) key_words (key_words + 6)) as (aes' & Heq & Hi);
    try done; [by left|unfold aes_keyLen, key_words; by destruct ct|].
  exists aes'. split_and!; [done|apply Hi|]. by exists aes.
Qed.

Lemma key_params_keyLen : key_params aes_keyLen = Some (4 * key_words, key_words + 6)%nat.
Proof. unfold aes_keyLen, key_words. by destruct ct. Qed.

Definition page_cbc (page : Z) (key : list Z) (bs : list block) : list block :=
  cbc_encrypt (page_cipher page key) (load16 (page_iv page) 0) bs.

Lemma page_cbc_mode page key bs :
  mode_encrypt (Some (page_iv page)) (page_cipher page key) RIJNDAEL_Direction_Mode_CBC bs
  = page_cbc page key bs.
Proof. reflexivity. Qed.

Lemma CodecAES_unfold codec page encrypt key mem p len q :
  bytes_ok key →
  CodecAES ct codec page encrypt key mem p len q
  = (let dir := if encrypt then RIJNDAEL_Direction_Encrypt else RIJNDAEL_Direction_Decrypt in
     let '(_, aes) := RijndaelInit (m_aes codec) RIJNDAEL_Direction_Mode_CBC dir
        (Some (page_key page key)) aes_keyLen (Some (page_iv page)) in
     let '(_, mem) := if encrypt then RijndaelBlockEncrypt aes mem (Some p) (len * 8) q
                      else RijndaelBlockDecrypt aes mem (Some p) (len * 8) q in
     (set_aes codec aes, mem)).
Proof.
  intros Hk. unfold CodecAES. destruct (nkey_ok page key Hk) as [Hok Hlen].
  rewrite page_hash_spec by (done || (change (2 ^ 29) with 536870912; lia)).
  by rewrite CodecGenerateInitialVector_spec.
Qed.

Lemma len_blocks n : Z.to_nat (16 * Z.of_nat n * 8 / 128) = n.
Proof. replace (16 * Z.of_nat n * 8) with (Z.of_nat n * 128) by lia. rewrite Z.div_mul by done. lia. Qed.

Lemma CodecAES_encrypt codec page key mem p n :
  rijndael_wf (m_aes codec) → bytes_ok key → bytes_ok mem → (0 < n)%nat →
  (p + 16 * n ≤ length mem)%nat →
  ∃ aes, rijndael_wf aes ∧
    CodecAES ct codec page true key mem p (16 * Z.of_nat n) p
    = (set_aes codec aes, store_blocks mem p (page_cbc page key (blocks_at mem p n))).
Proof.
  intros Hwf Hk Hmem Hn Hp. rewrite CodecAES_unfold by done. cbv beta iota zeta.
  destruct (page_opened (m_aes codec) page key RIJNDAEL_Direction_Encrypt) as (aes & -> & Haes & Ho);
    [done..|by left|].
  exists aes. split; [done|].
  pose proof (page_key_iv_ok page key Hk) as Hki.
  rewrite (RijndaelBlockEncrypt_spec _ _ _ Hki RIJNDAEL_Direction_Mode_CBC)
    by (rewrite ?len_blocks; first [done | by right | lia | by left]).
  rewrite len_blocks, (mode_encrypt_AES _ _ _ _ _ _ _ _ Ho Hki key_params_keyLen)
    by (by apply blocks_at_ok).
  reflexivity.
Qed.

Lemma CodecAES_decrypt codec page key mem p n bs :
  rijndael_wf (m_aes codec) → bytes_ok key → (0 < n)%nat → length bs = n →
  Forall block_ok bs → blocks_at mem p n = page_cbc page key bs →
  ∃ aes, rijndael_wf aes ∧
    CodecAES ct codec page false key mem p (16 * Z.of_nat n) p
    = (set_aes codec aes, store_blocks mem p bs).
Proof.
  intros Hwf Hk Hn Hlen Hbs Hmem. rewrite CodecAES_unfold by done. cbv beta iota zeta.
  destruct (page_opened (m_aes codec) page key RIJNDAEL_Direction_Decrypt) as (aes & -> & Haes & Ho);
    [done..|by right|].
  exists aes. split; [done|].
  pose proof (page_key_iv_ok page key Hk) as Hki.
  rewrite (RijndaelBlockDecrypt_spec _ _ _ Hki RIJNDAEL_Direction_Mode_CBC)
    by (rewrite ?len_blocks; first [done | by right | lia | by left]).
  rewrite len_blocks, Hmem. do 2 f_equal.
  (* the same key opened for encryption *)
  destruct (page_opened (m_aes codec) page key RIJNDAEL_Direction_Encrypt) as (re & _ & _ & Hoe);
    [done..|by left|].
  rewrite <-page_cbc_mode. unfold page_cipher.
  rewrite <-(mode_encrypt_AES _ _ _ _ _ _ _ _ Hoe Hki key_params_keyLen) by done.
  pose proof (opened_BlockCipher _ _ _ _ _ _ _ _ Hoe Ho Hki Hki) as Hcipher.
  apply mode_decrypt_encrypt; [done| |done]. apply load16_ok, page_iv_ok.
Qed.

(** ** Well-formed objects *)

Record codec_wf (codec : Codec Btree) : Prop := {
  wf_aes : rijndael_wf (m_aes codec);
  wf_readKey : bytes_ok (m_readKey codec) ∧ length (m_readKey codec) = KEYLENGTH ct;
  wf_writeKey : bytes_ok (m_writeKey codec) ∧ length (m_writeKey codec) = KEYLENGTH ct
}.

Lemma copy_key16_spec dst src :
  length dst = KEYLENGTH ct → length src = KEYLENGTH ct → copy_key16 ct dst src = src.
Proof.
  intros Hd Hs. unfold copy_key16. rewrite firstn_all2 by lia. apply memcpy_all. lia.
Qed.

(** What encryption does to memory. *)
Lemma CodecEncrypt_other codec page mem d n (useWriteKey : bool) :
  codec_wf codec → bytes_ok mem → page ≠ 1 → (0 < n)%nat → (d + 16 * n ≤ length mem)%nat →
  let key := if useWriteKey then m_writeKey codec else m_readKey codec in
  ∃ aes, rijndael_wf aes ∧
    CodecEncrypt ct codec page mem d (16 * Z.of_nat n) useWriteKey
    = (set_aes codec aes, store_blocks mem d (page_cbc page key (blocks_at mem d n))).
Proof.
  intros Hwf Hmem Hpage Hn Hd key. unfold CodecEncrypt.
  rewrite (proj2 (Z.eqb_neq page 1)) by done. fold key. cbn iota.
  rewrite Nat.add_0_r, Z.sub_0_r.
  destruct (CodecAES_encrypt codec page key mem d n) as (aes & Haes & ->); try done.
  - apply Hwf.
  - destruct useWriteKey; apply Hwf.
  - by exists aes.
Qed.

Lemma page_cipher_ok page key b : bytes_ok key → block_ok b → block_ok (page_cipher page key b).
Proof.
  intros Hk Hb. unfold page_cipher. apply Cipher_ok; [|done].
  apply KeyExpansion_ok; [unfold key_words; destruct ct; auto|apply length_key_matrix| |lia].
  apply key_matrix_ok. by apply page_key_ok.
Qed.

Lemma page_cbc_ok page key bs :
  bytes_ok key → Forall block_ok bs → Forall block_ok (page_cbc page key bs).
Proof.
  intros Hk Hbs. unfold page_cbc. assert (block_ok (load16 (page_iv page) 0)) as Hiv.
  { apply load16_ok, page_iv_ok. }
  revert Hiv. generalize (load16 (page_iv page) 0) as v.
  induction Hbs as [|b bs Hb Hbs IH]; intros v Hv; cbn [cbc_encrypt]; constructor.
  - apply page_cipher_ok; [done|]. by apply bxor_ok.
  - apply IH. apply page_cipher_ok; [done|]. by apply bxor_ok.
Qed.

Lemma length_page_cbc page key bs : length (page_cbc page key bs) = length bs.
Proof. apply length_cbc_encrypt. Qed.

(** The two calls of [CodecAES] on page 1, before the header is put back. *)
Definition page1_cipher key mem d n : list Z :=
  let mem1 := store_blocks mem d (page_cbc 1 key (blocks_at mem d 1)) in
  store_blocks mem1 (d + 16) (page_cbc 1 key (blocks_at mem (d + 16) (n - 1))).

Lemma CodecEncrypt_page1 codec mem d n (useWriteKey : bool) :
  codec_wf codec → bytes_ok mem → (2 ≤ n)%nat → (d + 16 * n ≤ length mem)%nat →
  let key := if useWriteKey then m_writeKey codec else m_readKey codec in
  ∃ aes, rijndael_wf aes ∧
    CodecEncrypt ct codec 1 mem d (16 * Z.of_nat n) useWriteKey
    = (set_aes codec aes,
       memcpy (memcpy_in (page1_cipher key mem d n) (d + 8) (d + 16) 8) (d + 16)
         (take 8 (drop (d + 16) mem))).
Proof.
  intros Hwf Hmem Hn Hd key. unfold CodecEncrypt. fold key. cbn iota beta delta [Z.eqb Pos.eqb].
  assert (bytes_ok key) as Hkey by (unfold key; destruct useWriteKey; apply Hwf).
  destruct (CodecAES_encrypt codec 1 key mem d 1) as (aes1 & Haes1 & Heq1); [apply Hwf|done|done|lia|lia|].
  change (16 * Z.of_nat 1) with 16 in Heq1. rewrite Heq1.
  set (mem1 := store_blocks mem d _).
  assert (length mem1 = length mem) as Hl1 by apply length_store_blocks.
  assert (bytes_ok mem1) as Hm1.
  { apply store_blocks_ok; [done|]. apply page_cbc_ok; [done|by apply blocks_at_ok]. }
  replace (16 * Z.of_nat n - Z.of_nat 16) with (16 * Z.of_nat (n - 1)) by lia.
  destruct (CodecAES_encrypt (set_aes codec aes1) 1 key mem1 (d + 16) (n - 1))
    as (aes2 & Haes2 & ->); [done|done|done|lia|lia|].
  exists aes2. split; [done|]. unfold page1_cipher.
  rewrite (blocks_at_ext mem1 mem); [done|].
  intros i Hi. apply nth_store_blocks_ne. rewrite length_page_cbc. cbn [length blocks_at]. lia.
Qed.

(** ** Decrypting what was encrypted *)

Lemma header_bytes mem d n :
  (d + 24 ≤ length mem)%nat → n = 8%nat →
  length (take n (drop (d + 16) mem)) = 8%nat.
Proof. intros Hd ->. rewrite length_take, length_drop. lia. Qed.

Lemma nth_memcpy mem p k i :
  (p + length k ≤ length mem)%nat →
  nth i (memcpy mem p k) 0 = if decide (p ≤ i < p + length k)%nat then nth (i - p) k 0 else nth i mem 0.
Proof.
  intros Hp. unfold memcpy. rewrite nth_list_inserts. repeat case_decide; (done || lia).
Qed.

Lemma nth_memcpy_in mem dst src n i :
  (dst + n ≤ length mem)%nat → (src + n ≤ length mem)%nat →
  nth i (memcpy_in mem dst src n) 0
  = if decide (dst ≤ i < dst + n)%nat then nth (src + (i - dst)) mem 0 else nth i mem 0.
Proof.
  intros Hd Hs. assert (length (take n (drop src mem)) = n) as Hl.
  { rewrite length_take, length_drop. lia. }
  unfold memcpy_in. rewrite nth_memcpy, Hl by lia. case_decide; [|done].
  apply take_drop_nth. lia.
Qed.

Lemma length_memcpy_in mem dst src n : length (memcpy_in mem dst src n) = length mem.
Proof. apply length_memcpy. Qed.

Lemma take_drop_ext mem mem' p q n :
  (p + n ≤ length mem)%nat → (q + n ≤ length mem')%nat →
  (∀ i, (i < n)%nat → nth (p + i) mem 0 = nth (q + i) mem' 0) →
  take n (drop p mem) = take n (drop q mem').
Proof.
  intros Hp Hq Hi. apply (nth_ext _ _ 0 0).
  - rewrite !length_take, !length_drop. lia.
  - intros i. rewrite length_take, length_drop. intros Hlt. rewrite !take_drop_nth by lia.
    apply Hi. lia.
Qed.

(** Decryption of a region that holds the encryption of [bs]. *)
Lemma CodecDecrypt_other codec page mem d n bs :
  codec_wf codec → page ≠ 1 → (0 < n)%nat → length bs = n → Forall block_ok bs →
  blocks_at mem d n = page_cbc page (m_readKey codec) bs →
  ∃ aes, rijndael_wf aes ∧
    CodecDecrypt ct codec page mem d (16 * Z.of_nat n) = (set_aes codec aes, store_blocks mem d bs).
Proof.
  intros Hwf Hpage Hn Hlen Hbs Hmem. unfold CodecDecrypt.
  rewrite (proj2 (Z.eqb_neq page 1)) by done. cbn [andb]. rewrite Nat.add_0_r, Z.sub_0_r.
  destruct (CodecAES_decrypt codec page (m_readKey codec) mem d n bs) as (aes & Haes & ->);
    try done; [apply Hwf..|]. by exists aes.
Qed.

(** The region of page 1 after encryption, byte by byte: the first half of the
    first cipher block, the first half of the second, the plain header bytes, and
    the rest of the cipher text. *)
Lemma page1_layout key mem d n i :
  (2 ≤ n)%nat → (d + 16 * n ≤ length mem)%nat →
  let M2 := page1_cipher key mem d n in
  let M4 := memcpy (memcpy_in M2 (d + 8) (d + 16) 8) (d + 16) (take 8 (drop (d + 16) mem)) in
  nth i M4 0 =
    if decide (d + 16 ≤ i < d + 24)%nat then nth i mem 0
    else if decide (d + 8 ≤ i < d + 16)%nat then nth (i + 8) M2 0 else nth i M2 0.
Proof.
  intros Hn Hd M2 M4. subst M4.
  assert (length M2 = length mem) as Hl by (unfold M2, page1_cipher; by rewrite !length_store_blocks).
  pose proof (header_bytes mem d 8 ltac:(lia) eq_refl) as Hh.
  rewrite nth_memcpy by (rewrite length_memcpy_in; lia). rewrite Hh.
  rewrite nth_memcpy_in by lia. repeat case_decide; try lia; try done.
  - rewrite take_drop_nth by lia. f_equal. lia.
  - f_equal. lia.
Qed.

Lemma CodecDecrypt_page1 codec key mem d n :
  codec_wf codec → bytes_ok mem → (2 ≤ n)%nat → (d + 16 * n ≤ length mem)%nat →
  m_readKey codec = key →
  take 16 (drop d mem) = SQLITE_FILE_HEADER →
  header_ok (take 8 (drop (d + 16) mem)) = true →
  let M4 := memcpy (memcpy_in (page1_cipher key mem d n) (d + 8) (d + 16) 8) (d + 16)
              (take 8 (drop (d + 16) mem)) in
  ∃ aes, rijndael_wf aes ∧
    CodecDecrypt ct codec 1 M4 d (16 * Z.of_nat n) = (set_aes codec aes, mem).
Proof.
  intros Hwf Hmem Hn Hd Hkey Hhead Hok M4. set (M2 := page1_cipher key mem d n) in *.
  assert (length M2 = length mem) as Hl2 by (unfold M2, page1_cipher; by rewrite !length_store_blocks).
  assert (length M4 = length mem) as Hl4 by (unfold M4; by rewrite length_memcpy, length_memcpy_in).
  assert (∀ i, nth i M4 0 = if decide (d + 16 ≤ i < d + 24)%nat then nth i mem 0
    else if decide (d + 8 ≤ i < d + 16)%nat then nth (i + 8) M2 0 else nth i M2 0) as Hn4.
  { intros i. by apply page1_layout. }
  assert (bytes_ok key) as Hk by (rewrite <-Hkey; apply Hwf).
  unfold CodecDecrypt. change (1 =? 1) with true.
  assert (take 8 (drop (d + 16) M4) = take 8 (drop (d + 16) mem)) as Hhdr.
  { apply take_drop_ext; [lia..|]. intros i Hi. rewrite Hn4, decide_True by lia. done. }
  rewrite Hhdr, Hok. cbn [andb]. set (N1 := memcpy_in M4 (d + 16) (d + 8) 8).
  assert (length N1 = length mem) as HlN by (unfold N1; by rewrite length_memcpy_in).
  assert (∀ i, (d + 16 ≤ i)%nat → nth i N1 0 = nth i M2 0) as HN1.
  { intros i Hi. unfold N1. rewrite nth_memcpy_in, !Hn4 by lia.
    repeat case_decide; try lia; try done. f_equal. lia. }
  set (bs := blocks_at mem (d + 16) (n - 1)).
  assert (length bs = n - 1)%nat as Hbs by apply length_blocks_at.
  replace (16 * Z.of_nat n - Z.of_nat 16) with (16 * Z.of_nat (n - 1)) by lia.
  destruct (CodecAES_decrypt codec 1 (m_readKey codec) N1 (d + 16) (n - 1) bs)
    as (aes & Haes & ->); [apply Hwf|apply Hwf|lia|done|by apply blocks_at_ok| |].
  { rewrite (blocks_at_ext N1 M2) by (intros; apply HN1; lia). rewrite Hkey.
    pose proof (blocks_at_store_blocks (store_blocks mem d (page_cbc 1 key (blocks_at mem d 1)))
      (d + 16) (page_cbc 1 key bs)) as Hb. rewrite length_page_cbc, Hbs, length_store_blocks in Hb.
    apply Hb. lia. }
  exists aes. split; [done|]. f_equal. set (N2 := store_blocks N1 (d + 16) bs).
  assert (∀ i, (d + 16 ≤ i)%nat → nth i N2 0 = nth i mem 0) as HN2.
  { intros i Hi. unfold N2. destruct (decide (i < d + 16 * n)%nat).
    - replace i with (d + 16 + (i - d - 16))%nat by lia.
      unfold bs. rewrite nth_store_blocks_blocks_at by lia. done.
    - rewrite nth_store_blocks_ne, HN1 by lia. unfold M2, page1_cipher.
      rewrite !nth_store_blocks_ne; [done| |]; rewrite length_page_cbc, length_blocks_at; lia. }
  rewrite bool_decide_true.
  2: { symmetry. apply take_drop_ext; [unfold N2; rewrite length_store_blocks; lia|lia|].
       intros. apply HN2. lia. }
  apply mem_ext; [rewrite length_memcpy; unfold N2; by rewrite length_store_blocks|].
  intros i. rewrite nth_memcpy by (unfold N2; rewrite length_store_blocks; cbn; lia).
  rewrite <-Hhead, length_take, length_drop, Nat.min_l by lia. case_decide.
  - rewrite take_drop_nth by lia. f_equal. lia.
  - destruct (decide (d + 16 ≤ i)%nat); [by apply HN2|]. unfold N2.
    rewrite nth_store_blocks_ne by lia. unfold N1. rewrite nth_memcpy_in by lia.
    rewrite decide_False, Hn4 by lia. rewrite !decide_False by lia. unfold M2, page1_cipher.
    rewrite !nth_store_blocks_ne; [done| |]; rewrite length_page_cbc, length_blocks_at; lia.
Qed.

Lemma decrypt_encrypt codec codec' page mem d n (useWriteKey : bool) :
  codec_wf codec → codec_wf codec' →
  m_readKey codec' = (if useWriteKey then m_writeKey codec else m_readKey codec) →
  bytes_ok mem → (2 ≤ n)%nat → (d + 16 * n ≤ length mem)%nat →
  (page = 1 → take 16 (drop d mem) = SQLITE_FILE_HEADER ∧
              header_ok (take 8 (drop (d + 16) mem)) = true) →
  let '(_, mem') := CodecEncrypt ct codec page mem d (16 * Z.of_nat n) useWriteKey in
  snd (CodecDecrypt ct codec' page mem' d (16 * Z.of_nat n)) = mem.
Proof.
  intros Hwf Hwf' Hkey Hmem Hn Hd Hpage1. destruct (decide (page = 1)) as [->|Hpage].
  - destruct (Hpage1 eq_refl) as [Hhead Hok].
    destruct (CodecEncrypt_page1 codec mem d n useWriteKey) as (aes & _ & ->); [done..|].
    rewrite <-Hkey.
    by destruct (CodecDecrypt_page1 codec' (m_readKey codec') mem d n) as (aes' & _ & ->).
  - destruct (CodecEncrypt_other codec page mem d n useWriteKey) as (aes & _ & ->); [done|done|done|lia|lia|].
    rewrite <-Hkey. set (bs := blocks_at mem d n).
    assert (length bs = n) as Hbs by apply length_blocks_at.
    assert (length (page_cbc page (m_readKey codec') bs) = n) as Hl by (by rewrite length_page_cbc).
    destruct (CodecDecrypt_other codec' page
      (store_blocks mem d (page_cbc page (m_readKey codec') bs)) d n bs) as (aes' & _ & ->);
      [done|done|lia|done|by apply blocks_at_ok| |].
    + rewrite <-Hl at 1. apply blocks_at_store_blocks. lia.
    + apply store_blocks_restore; [apply length_store_blocks|done|].
      intros i Hi. apply nth_store_blocks_ne. lia.
Qed.

(** ** Keys from passwords *)

(** The password padded or cut to 32 bytes. *)
Definition pad32 pw : list Z := take 32 (pw ++ padding).

(** The key of a password: for AES-128 the algorithm of the PDF standard (an
    owner key from the padding alone, then 51 rounds of MD5), for AES-256 the
    4002-fold SHA-256. *)
Definition owner_digest : list Z := Nat.iter 51 RFC1321.md5 padding.
Definition owner_key pw : list Z :=
  for_up (λ i, RC4 ((λ x, Z.lxor x (Z.of_nat i)) <$> owner_digest)) 20 0 (pad32 pw).
Definition password_key pw : list Z :=
  match ct with
  | CODEC_TYPE_AES128 => Nat.iter 51 RFC1321.md5 (pad32 pw ++ owner_key pw)
  | CODEC_TYPE_AES256 => Nat.iter (S CODEC_SHA_ITER) (FIPS180.sha2 FIPS180.A256) (pad32 pw)
  end.

Lemma length_padding : length padding = 32%nat.
Proof. done. Qed.

Lemma padding_ok32 : bytes_ok padding.
Proof. repeat (constructor; [done|]). constructor. Qed.

Lemma CodecPadPassword_spec pw : CodecPadPassword pw (Z.of_nat (length pw)) = pad32 pw.
Proof.
  unfold CodecPadPassword, pad32. rewrite take_app.
  destruct (Z.ltb_spec 32 (Z.of_nat (length pw))) as [Hgt|Hle].
  - change (Z.to_nat 32) with 32%nat. by replace (32 - length pw)%nat with 0%nat by lia.
  - rewrite Nat2Z.id. by rewrite !firstn_all2 with (l := pw) by lia.
Qed.

Lemma pad32_ok pw : bytes_ok pw → bytes_ok (pad32 pw) ∧ length (pad32 pw) = 32%nat.
Proof.
  intros Hpw. unfold pad32. split.
  - apply Forall_take, Forall_app. split; [done|apply padding_ok32].
  - rewrite length_take, length_app, length_padding. lia.
Qed.

Lemma for_up_iter {A} (f : A → A) n r a : for_up (λ _, f) n r a = Nat.iter n f a.
Proof.
  revert r a. induction n as [|n IH]; intros r a; [done|]. rewrite for_up_S, IH.
  symmetry. apply Nat.iter_succ_r.
Qed.

Lemma iter_ext {A} (P : A → Prop) (f g : A → A) n a :
  P a → (∀ a, P a → f a = g a ∧ P (g a)) → Nat.iter n f a = Nat.iter n g a ∧ P (Nat.iter n g a).
Proof.
  intros Ha Hfg. induction n as [|n [IH IHP]]; [done|]. rewrite !Nat.iter_succ, IH.
  by apply Hfg.
Qed.

(** Bytes, and a given number of them. *)
Definition bytes_n n l : Prop := bytes_ok l ∧ length l = n.

Lemma md5_rounds n l :
  bytes_n 16 l → for_up (λ _ digest, md5_of [take 16 digest]) n 0 l = Nat.iter n RFC1321.md5 l.
Proof.
  intros Hl. rewrite for_up_iter. apply (iter_ext (bytes_n 16)); [done|].
  intros digest [Hd Hlen]. rewrite firstn_all2 by lia.
  rewrite md5_of_spec by (constructor; [split; [done|lia]|constructor]).
  cbn [concat]. rewrite app_nil_r. split; [done|]. split; [apply md5_ok|apply length_md5].
Qed.

Lemma md5_bytes_n l : bytes_n 16 (RFC1321.md5 l).
Proof. split; [apply md5_ok|apply length_md5]. Qed.

Lemma owner_digest_spec :
  for_up (λ _ digest, md5_of [take 16 digest]) 50 0 (md5_of [CodecPadPassword [] 0]) = owner_digest
  ∧ bytes_n 16 owner_digest.
Proof.
  change (CodecPadPassword [] 0) with padding.
  rewrite (md5_of_spec [padding]) by (constructor; [split; [apply padding_ok32|done]|constructor]).
  cbn [concat]. rewrite app_nil_r, md5_rounds by apply md5_bytes_n.
  unfold owner_digest. split; [symmetry; apply Nat.iter_succ_r|].
  rewrite Nat.iter_succ. apply md5_bytes_n.
Qed.

Lemma owner_round_spec i l :
  (i < 20)%nat → bytes_n 32 l →
  owner_round owner_digest i l = RC4 ((λ x, Z.lxor x (Z.of_nat i)) <$> owner_digest) l
  ∧ bytes_n 32 (owner_round owner_digest i l).
Proof.
  intros Hi [Hl Hlen]. destruct owner_digest_spec as [_ [Hd Hdl]].
  unfold owner_round. rewrite (firstn_all2 owner_digest) by lia.
  rewrite (list_fmap_ext _ (λ x, Z.lxor x (Z.of_nat i))).
  2: { intros j x Hj. apply wrap_small, uint_lxor; [done| |unfold uint; lia].
       by apply (Forall_lookup_1 _ _ _ _ Hd Hj). }
  set (mkey := _ <$> _). assert (length mkey = 16%nat) as Hm by (unfold mkey; by rewrite length_fmap).
  pose proof (CodecRC4_in_place mkey l) as HE. rewrite Hm, Hlen in HE. rewrite HE.
  split; [done|]. split; [by apply RC4_ok|]. by rewrite RC4_length.
Qed.

Lemma owner_key_spec pw :
  bytes_ok pw →
  for_up (owner_round owner_digest) 20 0 (pad32 pw) = owner_key pw ∧ bytes_n 32 (owner_key pw).
Proof.
  intros Hpw. pose proof (pad32_ok pw Hpw) as Hp. unfold owner_key.
  apply (for_up_sim (λ _ l l', l = l' ∧ bytes_n 32 l') _ _ 20 0); [done|].
  intros i l l' Hi [-> Hl]. destruct (owner_round_spec i l') as [<- ?]; [lia|done|]. done.
Qed.

Lemma sha_rounds_256 n l :
  bytes_n 32 l → for_up (λ _ digest, sha256 (take 32 digest)) n 0 l
                 = Nat.iter n (FIPS180.sha2 FIPS180.A256) l.
Proof.
  intros Hl. rewrite for_up_iter. apply (iter_ext (bytes_n 32)); [done|].
  intros digest [Hd Hlen]. rewrite firstn_all2, sha256_spec by (done || lia).
  split; [done|]. split; [apply sha2_ok|by apply length_sha2_256].
Qed.

Lemma encryption_key_spec pw :
  bytes_ok pw → CodecGenerateEncryptionKey ct pw (Z.of_nat (length pw)) = password_key pw.
Proof.
  intros Hpw. unfold CodecGenerateEncryptionKey, password_key. rewrite CodecPadPassword_spec.
  destruct (pad32_ok pw Hpw) as [Hp Hlp]. destruct ct.
  - destruct owner_digest_spec as [-> _]. destruct (owner_key_spec pw Hpw) as [-> [Ho Hlo]].
    rewrite md5_of_spec by (repeat constructor; (done || lia)).
    cbn [concat]. rewrite app_nil_r, md5_rounds by apply md5_bytes_n.
    symmetry. apply Nat.iter_succ_r.
  - rewrite sha256_spec by (done || lia). rewrite sha_rounds_256.
    + symmetry. apply Nat.iter_succ_r.
    + split; [apply sha2_ok|by apply length_sha2_256].
Qed.

Lemma password_key_ok pw : bytes_ok pw → bytes_n (KEYLENGTH ct) (password_key pw).
Proof.
  intros Hpw. unfold password_key. destruct ct.
  - rewrite Nat.iter_succ. apply md5_bytes_n.
  - pose proof (pad32_ok pw Hpw) as Hp.
    apply (Nat.iter_invariant _ _ _ (bytes_n 32)); [|done].
    intros l [Hl _]. split; [apply sha2_ok|by apply length_sha2_256].
Qed.

(** ** Properties *)

(** C2: a page comes back: decrypting with the key that encrypted it restores the
    whole memory, for every page number and every number of blocks. On page 1,
    where bytes 16 to 23 stay readable and the first eight bytes of cipher text
    of the second block move to offset 8, this is so for pages that start with
    the header of an SQLite database and have a valid page size field. *)
Theorem CodecDecrypt_CodecEncrypt codec codec' page mem d n (useWriteKey : bool) :
  codec_wf codec → codec_wf codec' →
  m_readKey codec' = (if useWriteKey then m_writeKey codec else m_readKey codec) →
  bytes_ok mem → (2 ≤ n)%nat → (d + 16 * n ≤ length mem)%nat →
  (page = 1 → take 16 (drop d mem) = SQLITE_FILE_HEADER ∧
              header_ok (take 8 (drop (d + 16) mem)) = true) →
  let '(_, mem') := CodecEncrypt ct codec page mem d (16 * Z.of_nat n) useWriteKey in
  snd (CodecDecrypt ct codec' page mem' d (16 * Z.of_nat n)) = mem.
Proof. apply decrypt_encrypt. Qed.

(** what [CodecEncrypt] writes on a page other than 1: AES of FIPS-197 in CBC
    mode, under the digest of key, page number and salt, and the MD5 of a
    generated number as initial vector; nothing outside the page changes. *)
Theorem CodecEncrypt_is_AES_CBC codec page mem d n (useWriteKey : bool) :
  codec_wf codec → bytes_ok mem → page ≠ 1 → (0 < n)%nat → (d + 16 * n ≤ length mem)%nat →
  let key := if useWriteKey then m_writeKey codec else m_readKey codec in
  snd (CodecEncrypt ct codec page mem d (16 * Z.of_nat n) useWriteKey)
  = store_blocks mem d
      (cbc_encrypt
         (Cipher (key_words + 6)
            (KeyExpansion key_words (key_words + 6)
               (key_matrix (page_hash (nkey ct page key)) key_words)))
         (load16 (RFC1321.md5 (iv_key 4 (page + 1))) 0) (blocks_at mem d n)).
Proof.
  intros Hwf Hmem Hpage Hn Hd.
  by destruct (CodecEncrypt_other codec page mem d n useWriteKey) as (aes & _ & ->).
Qed.

(** page 1 on disk: bytes 16 to 23 are the plain ones, so that the page size
    can be read without the key; every other byte of the page is cipher text, and
    nothing outside the page changes. *)
Theorem CodecEncrypt_page1_layout codec mem d n (useWriteKey : bool) i :
  codec_wf codec → bytes_ok mem → (2 ≤ n)%nat → (d + 16 * n ≤ length mem)%nat →
  let key := if useWriteKey then m_writeKey codec else m_readKey codec in
  let '(_, mem') := CodecEncrypt ct codec 1 mem d (16 * Z.of_nat n) useWriteKey in
  nth i mem' 0 =
    if decide (d + 16 ≤ i < d + 24)%nat then nth i mem 0
    else if decide (d + 8 ≤ i < d + 16)%nat then nth (i + 8) (page1_cipher key mem d n) 0
    else if decide (d ≤ i < d + 16 * n)%nat then nth i (page1_cipher key mem d n) 0
    else nth i mem 0.
Proof.
  intros Hwf Hmem Hn Hd key.
  destruct (CodecEncrypt_page1 codec mem d n useWriteKey) as (aes & _ & ->); [done..|]. fold key.
  rewrite page1_layout by done. repeat case_decide; try lia; try done.
  unfold page1_cipher. rewrite !nth_store_blocks_ne; [done| |];
    rewrite length_page_cbc, length_blocks_at; lia.
Qed.

(** the key of a password is a function of its first 32 bytes, padded: the
    iteration of MD5 and RC4 of the PDF standard for AES-128, 4002 rounds of
    SHA-256 for AES-256; the result is a key of the length of the build. *)
Theorem CodecGenerateEncryptionKey_spec pw :
  bytes_ok pw →
  CodecGenerateEncryptionKey ct pw (Z.of_nat (length pw)) = password_key pw ∧
  bytes_ok (password_key pw) ∧ length (password_key pw) = KEYLENGTH ct.
Proof.
  intros Hpw. split; [by apply encryption_key_spec|]. by apply password_key_ok.
Qed.
End codec.

(** ** The generator of initial vectors *)

#[local] Transparent MODMULT.

(** The products of [MODMULT] do not overflow an [int]. *)
Definition MODMULT_safe (a b c m s : Z) : Prop :=
  let q := Z.quot s a in
  int32 (a * q) ∧ int32 (s - a * q) ∧ int32 (b * (s - a * q)) ∧ int32 (c * q) ∧
  int32 (b * (s - a * q) - c * q) ∧ int32 (MODMULT a b c m s).

(** [n] turns of the loop from [z]. *)
Fixpoint iv_safe (n : nat) (z : Z) : Prop :=
  match n with
  | O => True
  | S n' => MODMULT_safe 52774 40692 3791 2147483399 z ∧
            iv_safe n' (MODMULT 52774 40692 3791 2147483399 z)
  end.

(** L'Ecuyer's multiplicative generator. *)
Definition lecuyer (z : Z) : Z := (40692 * z) `mod` 2147483399.
Fixpoint lecuyer_bytes (n : nat) (z : Z) : list Z :=
  match n with
  | O => []
  | S n' => int_bytes (lecuyer z) ++ lecuyer_bytes n' (lecuyer z)
  end.

Lemma lecuyer_pos z : 0 < z < 2147483399 → 0 < lecuyer z < 2147483399.
Proof.
  intros Hz. unfold lecuyer. pose proof (Z.mod_pos_bound (40692 * z) 2147483399).
  enough ((40692 * z) `mod` 2147483399 ≠ 0) by lia. intros H0.
  apply Z.mod_divide in H0; [|done].
  apply Z.gauss in H0; [|vm_compute; reflexivity]. apply Z.divide_pos_le in H0; lia.
Qed.

Lemma MODMULT_spec z :
  0 < z < 2147483399 →
  MODMULT 52774 40692 3791 2147483399 z = lecuyer z ∧ MODMULT_safe 52774 40692 3791 2147483399 z.
Proof.
  intros Hz.
  assert (Z.quot z 52774 = z / 52774) as Hq by (apply Z.quot_div_nonneg; lia).
  set (q := z / 52774). set (r := z `mod` 52774).
  assert (z = 52774 * q + r ∧ 0 ≤ r < 52774) as [Hzq Hr].
  { pose proof (Z.div_mod z 52774). pose proof (Z.mod_pos_bound z 52774). lia. }
  assert (0 ≤ q ≤ 40692) as Hq' by lia.
  assert (z - 52774 * q = r) as Hs by lia.
  assert (MODMULT 52774 40692 3791 2147483399 z = lecuyer z) as Heq.
  { unfold MODMULT, lecuyer. rewrite Hq. fold q. rewrite Hs.
    destruct (Z.ltb_spec (40692 * r - 3791 * q) 0).
    - apply (Z.mod_unique_pos _ _ (q - 1)); lia.
    - apply (Z.mod_unique_pos _ _ q); [|lia]. lia. }
  split; [done|]. unfold MODMULT_safe. rewrite Heq, Hq. fold q. rewrite Hs.
  pose proof (lecuyer_pos z Hz). unfold int32. change (2 ^ 31) with 2147483648. lia.
Qed.

(** for every page number below 2147483398 the loop of
    [CodecGenerateInitialVector] never overflows an [int], and it yields four
    steps of the multiplicative generator modulo 2147483399, so the vector is
    the MD5 of those sixteen bytes. *)
Theorem CodecGenerateInitialVector_safe `{Machine} seed :
  0 ≤ seed < 2147483398 →
  iv_safe 4 (seed + 1) ∧
  CodecGenerateInitialVector seed = RFC1321.md5 (lecuyer_bytes 4 (seed + 1)).
Proof.
  intros Hseed. rewrite CodecGenerateInitialVector_spec. unfold page_iv.
  assert (∀ n z, 0 < z < 2147483399 → iv_safe n z ∧ iv_key n z = lecuyer_bytes n z) as Hn.
  { induction n as [|n IH]; intros z Hz; cbn [iv_safe iv_key lecuyer_bytes]; [done|].
    destruct (MODMULT_spec z Hz) as [-> Hsafe].
    destruct (IH (lecuyer z)) as [? ->]; [by apply lecuyer_pos|]. done. }
  destruct (Hn 4%nat (seed + 1)) as [? ->]; [lia|]. done.
Qed.
