(* ===== verification/CodecPage.v ===== *)
(** * Encrypted pages as values

    [CodecEncrypt] and [CodecDecrypt] act on a region of memory; what they do to
    it is a function [sealed] of the bytes of the page, independent of where the
    page lies. The callback of the pager, which encrypts in the page buffer and
    decrypts in the cache, needs this form. *)
From S2P Require Import Prelude Words HashBase RijndaelTables Rijndael RijndaelSpec RijndaelApi RijndaelCipher RijndaelKey RijndaelBlock RijndaelModes MD5 MD5Proofs RC4 Sha2 Sha2Proofs Codec CodecProofs.
Local Open Scope Z_scope.

Section memory.
Implicit Types (mem k : list Z) (p n : nat) (bs : list block).

(** The bytes of [n] from [p] on. *)
Definition region mem p n : list Z := take n (drop p mem).

Lemma length_region mem p n : (p + n ≤ length mem)%nat → length (region mem p n) = n.
Proof. intros. unfold region. rewrite length_take, length_drop. lia. Qed.

Lemma nth_region mem p n i : (i < n)%nat → nth i (region mem p n) 0 = nth (p + i) mem 0.
Proof. apply take_drop_nth. Qed.

Lemma region_ok mem p n : bytes_ok mem → bytes_ok (region mem p n).
Proof. intros. by apply Forall_take, Forall_drop. Qed.

Lemma region_memcpy mem p k : (p + length k ≤ length mem)%nat → region (memcpy mem p k) p (length k) = k.
Proof.
  intros Hp. apply (nth_ext _ _ 0 0).
  - by rewrite length_region by (rewrite length_memcpy; lia).
  - intros i Hi. rewrite length_region in Hi by (rewrite length_memcpy; lia).
    rewrite nth_region, nth_memcpy, decide_True by lia. f_equal. lia.
Qed.

Lemma memcpy_memcpy mem p k k' :
  length k = length k' → (p + length k ≤ length mem)%nat → memcpy (memcpy mem p k) p k' = memcpy mem p k'.
Proof.
  intros Hk Hp. apply mem_ext; [by rewrite !length_memcpy|]. intros i.
  rewrite !nth_memcpy by (rewrite ?length_memcpy; lia). repeat case_decide; done || lia.
Qed.

Lemma memcpy_region mem p n : (p + n ≤ length mem)%nat → memcpy mem p (region mem p n) = mem.
Proof.
  intros Hp. apply mem_ext; [by rewrite length_memcpy|]. intros i.
  rewrite nth_memcpy; rewrite length_region by done; [|done].
  case_decide; [|done]. rewrite nth_region by lia. f_equal. lia.
Qed.

Lemma blocks_at_region mem p n : blocks_at mem p n = blocks_at (region mem p (16 * n)) 0 n.
Proof.
  revert mem p. induction n as [|n IH]; intros mem p; [done|]. cbn [blocks_at]. f_equal.
  - unfold load16, load4. rewrite !nth_region by lia. repeat (f_equal; try lia).
  - rewrite IH, (IH (region mem p (16 * S n)) (0 + 16)%nat). f_equal.
    unfold region. rewrite skipn_firstn_comm, firstn_firstn, skipn_skipn. f_equal; [lia|f_equal; lia].
Qed.

(** The bytes of blocks in a row. *)
Definition bytes_of bs : list Z := concat (block_bytes <$> bs).

Lemma length_bytes_of bs : length (bytes_of bs) = (16 * length bs)%nat.
Proof.
  induction bs as [|b bs IH]; [done|]. unfold bytes_of in *. cbn [fmap list_fmap concat].
  rewrite length_app, IH, length_block_bytes. cbn [length]. lia.
Qed.

Lemma store_blocks_memcpy mem p bs :
  (p + 16 * length bs ≤ length mem)%nat → store_blocks mem p bs = memcpy mem p (bytes_of bs).
Proof.
  revert mem p. induction bs as [|b bs IH]; intros mem p Hp; cbn [store_blocks length] in *; [done|].
  pose proof (length_bytes_of bs) as Hl.
  rewrite IH by (rewrite length_store16; lia). apply mem_ext.
  { by rewrite !length_memcpy, length_store16. }
  intros i. pose proof (length_bytes_of (b :: bs)) as Hl'. cbn [length] in Hl'.
  rewrite !nth_memcpy by (rewrite ?length_store16; lia).
  change (store16 mem p b) with (memcpy mem p (block_bytes b)).
  rewrite nth_memcpy by (rewrite length_block_bytes; lia).
  rewrite Hl, Hl', length_block_bytes.
  change (bytes_of (b :: bs)) with (block_bytes b ++ bytes_of bs).
  repeat case_decide; try lia; try done.
  - rewrite app_nth2 by (rewrite length_block_bytes; lia). rewrite length_block_bytes. f_equal. lia.
  - by rewrite app_nth1 by (rewrite length_block_bytes; lia).
Qed.
End memory.

Section pages.
Context `{Machine} {Btree : Type} (ct : codec_type).
Implicit Types (codec : Codec Btree) (mem key m : list Z) (page : Z) (d n : nat).

(** The page [m] on disk, under [key]. Page 1 keeps bytes 16 to 23 and has the
    first half of its second cipher block at offset 8. *)
Definition sealed (page : Z) (key m : list Z) : list Z :=
  let n := (length m / 16)%nat in
  if decide (page = 1) then
    let c := bytes_of (page_cbc ct 1 key (blocks_at m 0 1)) in
    let c' := bytes_of (page_cbc ct 1 key (blocks_at m 16 (n - 1))) in
    take 8 c ++ take 8 c' ++ take 8 (drop 16 m) ++ drop 8 c'
  else bytes_of (page_cbc ct page key (blocks_at m 0 n)).

(** The pages that SQLite writes: a page 1 starts with the database header. *)
Definition page_ok (page : Z) (m : list Z) : Prop :=
  bytes_ok m ∧ (page = 1 → take 16 m = SQLITE_FILE_HEADER ∧ header_ok (take 8 (drop 16 m)) = true).

Lemma length_sealed page key m n : (2 ≤ n)%nat → length m = (16 * n)%nat → length (sealed page key m) = (16 * n)%nat.
Proof.
  intros Hn Hm. unfold sealed. rewrite Hm, Nat.mul_comm, Nat.div_mul by done. case_decide.
  - rewrite !length_app, length_drop, !length_take, length_drop, !length_bytes_of,
      !length_page_cbc, !length_blocks_at. lia.
  - rewrite length_bytes_of, length_page_cbc, length_blocks_at. lia.
Qed.

Lemma sealed_other page key m n :
  page ≠ 1 → length m = (16 * n)%nat → sealed page key m = bytes_of (page_cbc ct page key (blocks_at m 0 n)).
Proof.
  intros Hpage Hm. unfold sealed. rewrite decide_False by done.
  by rewrite Hm, Nat.mul_comm, Nat.div_mul.
Qed.

(** The bytes of a sealed page 1, from its two cipher texts. *)
Lemma nth_sealed_1 key m n i :
  length m = (16 * n)%nat → (2 ≤ n)%nat → (i < 16 * n)%nat →
  let c := bytes_of (page_cbc ct 1 key (blocks_at m 0 1)) in
  let c' := bytes_of (page_cbc ct 1 key (blocks_at m 16 (n - 1))) in
  nth i (sealed 1 key m) 0 =
    if decide (16 ≤ i < 24)%nat then nth i m 0
    else if decide (8 ≤ i < 16)%nat then nth (i - 8) c' 0
    else if decide (i < 16)%nat then nth i c 0 else nth (i - 16) c' 0.
Proof.
  intros Hm Hn Hi. unfold sealed. rewrite decide_True, Hm, Nat.mul_comm, Nat.div_mul by done.
  set (c := bytes_of (page_cbc ct 1 key (blocks_at m 0 1))).
  set (c' := bytes_of (page_cbc ct 1 key (blocks_at m 16 (n - 1)))). cbn zeta.
  assert (length c = 16%nat) as Hc by done.
  assert (length c' = 16 * (n - 1))%nat as Hc'.
  { unfold c'. by rewrite length_bytes_of, length_page_cbc, length_blocks_at. }
  assert (∀ l : list Z, (8 ≤ length l)%nat → length (take 8 l) = 8%nat) as H8.
  { intros l Hl. rewrite length_take. lia. }
  assert (length (take 8 (drop 16 m)) = 8%nat) as Hd by (apply H8; rewrite length_drop; lia).
  destruct (decide (i < 8)%nat).
  { rewrite app_nth1, nth_firstn, (proj2 (Nat.ltb_lt i 8)) by (rewrite ?H8; lia).
    repeat case_decide; try lia; done. }
  rewrite app_nth2, H8 by (rewrite ?H8; lia). destruct (decide (i < 16)%nat).
  { rewrite app_nth1, nth_firstn, (proj2 (Nat.ltb_lt (i - 8) 8)) by (rewrite ?H8; lia).
    repeat case_decide; try lia; done. }
  rewrite app_nth2, H8 by (rewrite ?H8; lia). destruct (decide (i < 24)%nat).
  { rewrite app_nth1, nth_firstn, nth_skipn, (proj2 (Nat.ltb_lt (i - 8 - 8) 8)) by lia.
    rewrite decide_True by lia. f_equal. lia. }
  rewrite app_nth2, Hd, nth_skipn by lia. repeat case_decide; try lia. f_equal. lia.
Qed.

Lemma nth_page1_cipher key mem d n i :
  (2 ≤ n)%nat → (d + 16 * n ≤ length mem)%nat →
  nth i (page1_cipher ct key mem d n) 0 =
    if decide (d + 16 ≤ i < d + 16 * n)%nat
    then nth (i - (d + 16)) (bytes_of (page_cbc ct 1 key (blocks_at mem (d + 16) (n - 1)))) 0
    else if decide (d ≤ i < d + 16)%nat
    then nth (i - d) (bytes_of (page_cbc ct 1 key (blocks_at mem d 1))) 0
    else nth i mem 0.
Proof.
  intros Hn Hd. unfold page1_cipher.
  set (bs1 := page_cbc ct 1 key (blocks_at mem d 1)).
  set (bs2 := page_cbc ct 1 key (blocks_at mem (d + 16) (n - 1))).
  assert (length bs1 = 1%nat) as H1 by (unfold bs1; by rewrite length_page_cbc).
  assert (length bs2 = n - 1)%nat as H2 by (unfold bs2; by rewrite length_page_cbc, length_blocks_at).
  rewrite (store_blocks_memcpy mem) by lia.
  rewrite store_blocks_memcpy by (rewrite length_memcpy; lia).
  rewrite nth_memcpy by (rewrite length_memcpy, length_bytes_of; lia).
  rewrite nth_memcpy by (rewrite length_bytes_of; lia).
  rewrite !length_bytes_of, H1, H2. repeat case_decide; try lia; done.
Qed.

(** [CodecEncrypt] seals the page and touches nothing else. *)
Lemma CodecEncrypt_sealed codec page mem d n (useWriteKey : bool) :
  codec_wf ct codec → bytes_ok mem → (2 ≤ n)%nat → (d + 16 * n ≤ length mem)%nat →
  ∃ aes, rijndael_wf aes ∧
    CodecEncrypt ct codec page mem d (16 * Z.of_nat n) useWriteKey
    = (set_aes codec aes,
       memcpy mem d (sealed page (if useWriteKey then m_writeKey codec else m_readKey codec)
                       (region mem d (16 * n)))).
Proof.
  intros Hwf Hmem Hn Hd. pose proof (length_region mem d (16 * n) ltac:(lia)) as Hr.
  destruct (decide (page = 1)) as [->|Hpage].
  - destruct (CodecEncrypt_page1 ct codec mem d n useWriteKey) as (aes & Haes & ->); [done..|].
    exists aes. split; [done|]. f_equal. set (key := if useWriteKey then _ else _).
    pose proof (length_sealed 1 key _ n Hn Hr) as Hs.
    apply mem_ext.
    { rewrite !length_memcpy, length_memcpy_in. unfold page1_cipher. by rewrite !length_store_blocks. }
    intros i. rewrite page1_layout, nth_memcpy, Hs by lia.
    assert (blocks_at (region mem d (16 * n)) 0 1 = blocks_at mem d 1) as E1.
    { rewrite (blocks_at_region mem d 1), blocks_at_region. f_equal. unfold region.
      rewrite drop_0, firstn_firstn. f_equal. lia. }
    assert (blocks_at (region mem d (16 * n)) 16 (n - 1) = blocks_at mem (d + 16) (n - 1)) as E2.
    { rewrite (blocks_at_region mem (d + 16)), blocks_at_region. f_equal. unfold region.
      rewrite skipn_firstn_comm, firstn_firstn, skipn_skipn. f_equal; [lia|f_equal; lia]. }
    pose proof (nth_sealed_1 key _ n (i - d) Hr Hn) as Hns. cbv zeta in Hns. rewrite E1, E2 in Hns.
    rewrite !nth_page1_cipher by lia.
    repeat case_decide; try lia; try done; rewrite Hns by lia; repeat case_decide; try lia;
      rewrite ?nth_region by lia; f_equal; lia.
  - destruct (CodecEncrypt_other ct codec page mem d n useWriteKey) as (aes & Haes & ->); [done|done|done|lia|lia|].
    exists aes. split; [done|]. f_equal.
    rewrite (sealed_other page _ _ n), <-blocks_at_region by done.
    apply store_blocks_memcpy. rewrite length_page_cbc, length_blocks_at. lia.
Qed.

(** [CodecDecrypt] turns a sealed page back. *)
Lemma CodecDecrypt_sealed codec page mem d n m :
  codec_wf ct codec → bytes_ok mem → (2 ≤ n)%nat → (d + 16 * n ≤ length mem)%nat →
  length m = (16 * n)%nat → page_ok page m →
  region mem d (16 * n) = sealed page (m_readKey codec) m →
  snd (CodecDecrypt ct codec page mem d (16 * Z.of_nat n)) = memcpy mem d m.
Proof.
  intros Hwf Hmem Hn Hd Hm [Hok Hpage] Hsealed.
  (* the memory that holds the page in plain at the same place *)
  set (mem0 := memcpy mem d m).
  assert (length mem0 = length mem) as Hl0 by apply length_memcpy.
  assert (region mem0 d (16 * n) = m) as Hr0 by (rewrite <-Hm; apply region_memcpy; lia).
  assert (bytes_ok mem0) as Hok0 by (by apply memcpy_ok).
  destruct (CodecEncrypt_sealed codec page mem0 d n false) as (aes & _ & Henc); [done|done|done|lia|].
  pose proof (decrypt_encrypt ct codec codec page mem0 d n false) as Hrt.
  rewrite Henc, Hr0 in Hrt. rewrite <-Hsealed in Hrt.
  assert (memcpy mem0 d (region mem d (16 * n)) = mem) as Hback.
  { unfold mem0. rewrite memcpy_memcpy, memcpy_region by (rewrite ?length_region; lia). done. }
  rewrite Hback in Hrt.
  apply Hrt; try done; [lia|]. intros ->. destruct (Hpage eq_refl) as [Hhead Hpage1].
  split; [rewrite <-Hhead, <-Hr0|rewrite <-Hpage1, <-Hr0]; unfold region.
  - rewrite firstn_firstn. f_equal. lia.
  - rewrite skipn_firstn_comm, firstn_firstn, skipn_skipn. do 2 f_equal; [lia|f_equal; lia].
Qed.

(** Whatever the page holds, decryption stays within it. *)
Lemma CodecAES_decrypt_frame codec page key mem p n :
  rijndael_wf (m_aes codec) → bytes_ok key → (0 < n)%nat →
  ∃ aes bs, rijndael_wf aes ∧ length bs = n ∧
    CodecAES ct codec page false key mem p (16 * Z.of_nat n) p = (set_aes codec aes, store_blocks mem p bs).
Proof.
  intros Hwf Hk Hn. rewrite CodecAES_unfold by done. cbv beta iota zeta.
  destruct (page_opened ct (m_aes codec) page key RIJNDAEL_Direction_Decrypt) as (aes & -> & Haes & Ho);
    [done..|by right|].
  pose proof (page_key_iv_ok ct page key Hk) as Hki.
  rewrite (RijndaelBlockDecrypt_spec _ _ _ Hki RIJNDAEL_Direction_Mode_CBC)
    by (rewrite ?len_blocks; first [done | by right | lia | by left]).
  rewrite len_blocks. eexists aes, _. split_and!; [done| |reflexivity].
  unfold mode_decrypt. destruct (_ =? _); [by rewrite length_fmap, length_blocks_at|].
  by rewrite length_cbc_decrypt, length_blocks_at.
Qed.

Lemma CodecDecrypt_frame codec page mem d n :
  codec_wf ct codec → (2 ≤ n)%nat → (d + 16 * n ≤ length mem)%nat →
  ∃ aes mem', rijndael_wf aes ∧
    CodecDecrypt ct codec page mem d (16 * Z.of_nat n) = (set_aes codec aes, mem') ∧
    length mem' = length mem ∧
    ∀ i, (i < d ∨ d + 16 * n ≤ i)%nat → nth i mem' 0 = nth i mem 0.
Proof.
  intros Hwf Hn Hd. unfold CodecDecrypt. destruct ((page =? 1) && _).
  - replace (16 * Z.of_nat n - Z.of_nat 16) with (16 * Z.of_nat (n - 1)) by lia.
    set (mem1 := memcpy_in mem (d + 16) (d + 8) 8).
    destruct (CodecAES_decrypt_frame codec page (m_readKey codec) mem1 (d + 16) (n - 1))
      as (aes & bs & Haes & Hbs & ->); [apply Hwf|apply Hwf|lia|].
    assert (length mem1 = length mem) as Hl1 by apply length_memcpy_in.
    assert (∀ i, (i < d ∨ d + 16 * n ≤ i)%nat → nth i (store_blocks mem1 (d + 16) bs) 0 = nth i mem 0) as Hout.
    { intros i Hi. rewrite nth_store_blocks_ne by lia. unfold mem1.
      rewrite nth_memcpy_in, decide_False by lia. done. }
    eexists aes, _. split_and!; [done|reflexivity| |]; case_bool_decide;
      rewrite ?length_memcpy, ?length_store_blocks; try done.
    intros i Hi. rewrite nth_memcpy, decide_False, Hout by (rewrite ?length_store_blocks; cbn; lia). done.
  - rewrite Nat.add_0_r, Z.sub_0_r.
    destruct (CodecAES_decrypt_frame codec page (m_readKey codec) mem d n)
      as (aes & bs & Haes & Hbs & ->); [apply Hwf|apply Hwf|lia|].
    eexists aes, _. split_and!; [done|reflexivity|apply length_store_blocks|].
    intros i Hi. apply nth_store_blocks_ne. lia.
Qed.
End pages.
