(* ===== verification/CodecExt.v ===== *)
(** * codecext.c: the codec of a connection

    The callback that the pager runs on pages, attaching keys to databases, and
    changing the key of a database. Codecs are objects on a heap, pagers hold
    their addresses; an access to an address that is not allocated makes an
    operation return [None]. The pager's own work in [sqlite3_rekey_v2] is the
    interface [PagerOps]. *)
From stdpp Require Import gmap strings.
From S2P Require Import Prelude Words HashBase MD5 RC4 Sha2 RijndaelTables Rijndael RijndaelApi Codec.
Local Open Scope Z_scope.

Definition PENDING_BYTE : Z := 0x40000000.
Definition WX_PAGER_MJ_PGNO (x : Z) : Z := PENDING_BYTE / x + 1.

(** ** The callback of the pager *)

(** The buffer whose address [sqlite3Codec] returns: the caller's, or
    [CodecGetPageBuffer]. *)
Inductive page_ref := Data | PageBuffer.

Section callback.
Context `{Machine} {Btree : Type} (ct : codec_type).
Context (sqlite3BtreeGetPageSize : option Btree → Z).

(** [memcpy(pageBuffer, data, pageSize)], then encryption of the buffer. *)
Definition encrypt_buffer (codec : Codec Btree) (mem : list Z) (data : nat) (nPageNum pageSize : Z)
    (useWriteKey : bool) : Codec Btree :=
  let buf := memcpy (m_page codec) CodecGetPageBuffer (take (Z.to_nat pageSize) (drop data mem)) in
  let '(codec, buf) :=
    CodecEncrypt ct codec nPageNum buf CodecGetPageBuffer pageSize useWriteKey in
  set_page codec buf.

(** [nMode] as in the source: 0, 2 and 3 decrypt in place, 6 encrypts for the
    database file and 7 for the journal. *)
Definition sqlite3Codec (pCodecArg : option (Codec Btree)) (mem : list Z) (data : nat)
    (nPageNum nMode : Z) : option (Codec Btree) * list Z * page_ref :=
  match pCodecArg with
  | None => (None, mem, Data)
  | Some codec =>
      if negb (CodecIsEncrypted codec) then (Some codec, mem, Data) else
      let pageSize := sqlite3BtreeGetPageSize (CodecGetBtree codec) in
      if (nMode =? 0) || (nMode =? 2) || (nMode =? 3)
      then
        if CodecHasReadKey codec
        then let '(codec, mem) := CodecDecrypt ct codec nPageNum mem data pageSize in
             (Some codec, mem, Data)
        else (Some codec, mem, Data)
      else if nMode =? 6
      then
        if CodecHasWriteKey codec
        then (Some (encrypt_buffer codec mem data nPageNum pageSize true), mem, PageBuffer)
        else (Some codec, mem, Data)
      else if nMode =? 7
      then
        if CodecHasReadKey codec
        then (Some (encrypt_buffer codec mem data nPageNum pageSize false), mem, PageBuffer)
        else (Some codec, mem, Data)
      else (Some codec, mem, Data)
  end.
End callback.

(** ** Connections *)

(** The fields of [struct Pager] that concern the codec. [xCodec] and
    [xCodecFree] are [sqlite3Codec] and [sqlite3CodecFree], or 0. *)
Record Pager := mkPager {
  memDb : bool;
  xCodec : bool;
  xCodecFree : bool;
  pCodec : option positive
}.

(** An entry of [db->aDb]; its B-tree handle is its index. *)
Record Db := mkDb { zDbSName : string; db_pager : Pager }.

Record sqlite3 := mkConn {
  codecs : gmap positive (Codec nat);
  aDb : list Db
}.

Section connection.
Context `{Machine} (ct : codec_type).
Implicit Types (db : sqlite3) (nDb : nat) (p : positive).

(** [sqlite3_malloc(sizeof(Codec))] and [CodecInit]; [garbage] is what the
    allocated memory held. Failure of [malloc] is not modelled: the source does
    not test for it. *)
Definition new_codec (garbage : Codec nat) db : positive * sqlite3 :=
  let p := fresh (dom (codecs db)) in
  (p, mkConn (<[p := CodecInit garbage (m_aes garbage)]> (codecs db)) (aDb db)).

(** The codec at an address, and its update. *)
Definition get_codec db p : option (Codec nat) := codecs db !! p.
Definition upd_codec (f : Codec nat → Codec nat) p db : option sqlite3 :=
  match get_codec db p with
  | Some codec => Some (mkConn (<[p := f codec]> (codecs db)) (aDb db))
  | None => None
  end.

(** [CodecTerm] and [sqlite3_free]. *)
Definition sqlite3CodecFree (pCodecArg : option positive) db : option sqlite3 :=
  match pCodecArg with
  | None => Some db
  | Some p =>
      match get_codec db p with
      | Some _ => Some (mkConn (delete p (codecs db)) (aDb db))
      | None => None
      end
  end.

Definition set_pager nDb (pager : Pager) db : sqlite3 :=
  mkConn (codecs db)
    (alter (λ d, mkDb (zDbSName d) pager) nDb (aDb db)).

Definition get_pager db nDb : option Pager := db_pager <$> aDb db !! nDb.

Definition mySqlite3PagerGetCodec (pager : Pager) : option positive := pCodec pager.

(** [sqlite3PagerSetCodec]: the old codec is freed first. [codec] is [false] when
    the functions are 0. *)
Definition mySqlite3PagerSetCodec nDb (codec : bool) (p : option positive) db : option sqlite3 :=
  pager ← get_pager db nDb;
  db ← (if xCodecFree pager then sqlite3CodecFree (pCodec pager) db else Some db);
  Some (set_pager nDb (mkPager (memDb pager) (if memDb pager then false else codec) codec p) db).

(** [zKey] is [None] for a null pointer; otherwise the bytes at the pointer. *)
Definition key_bytes (zKey : option (list Z)) : list Z := default [] zKey.
Definition no_key (zKey : option (list Z)) : bool := match zKey with None => true | Some _ => false end.

Definition sqlite3CodecAttach (garbage : Codec nat) db nDb (zKey : option (list Z)) (nKey : Z)
    : option (Z * sqlite3) :=
  let '(p, db) := new_codec garbage db in
  if no_key zKey || (nKey <=? 0)
  then
    if negb (nDb =? 0)%nat && (0 <? nKey)
    then
      main ← get_pager db 0;
      match mySqlite3PagerGetCodec main with
      | Some q =>
          mainCodec ← get_codec db q;
          if CodecIsEncrypted mainCodec
          then
            db ← upd_codec (λ codec, CodecCopy ct codec mainCodec) p db;
            db ← upd_codec (λ codec, CodecSetBtree codec (Some nDb)) p db;
            db ← mySqlite3PagerSetCodec nDb true (Some p) db;
            Some (SQLITE_OK, db)
          else
            db ← upd_codec (λ codec, CodecSetIsEncrypted codec 0) p db;
            Some (SQLITE_OK, mkConn (delete p (codecs db)) (aDb db))
      | None =>
          db ← upd_codec (λ codec, CodecSetIsEncrypted codec 0) p db;
          Some (SQLITE_OK, mkConn (delete p (codecs db)) (aDb db))
      end
    else Some (SQLITE_OK, db)
  else
    db ← upd_codec (λ codec, CodecSetIsEncrypted codec 1) p db;
    db ← upd_codec (λ codec, CodecSetHasReadKey codec 1) p db;
    db ← upd_codec (λ codec, CodecSetHasWriteKey codec 1) p db;
    db ← upd_codec (λ codec, CodecGenerateReadKey ct codec (key_bytes zKey) nKey) p db;
    db ← upd_codec (λ codec, CodecCopyKey ct codec true) p db;
    db ← upd_codec (λ codec, CodecSetBtree codec (Some nDb)) p db;
    db ← mySqlite3PagerSetCodec nDb true (Some p) db;
    Some (SQLITE_OK, db).

(** The values stored through [zKey] and [nKey]. *)
Definition sqlite3CodecGetKey db : option (option (list Z) * Z) :=
  main ← get_pager db 0;
  match mySqlite3PagerGetCodec main with
  | Some q => mainCodec ← get_codec db q; Some (None, if CodecIsEncrypted mainCodec then 1 else 0)
  | None => Some (None, 0)
  end.

(** The [SQLITE_TEXT], [SQLITE_BLOB] and [SQLITE_NULL] cases of ATTACH in
    [attachFunc]; [optimalReserve] is [sqlite3BtreeGetOptimalReserve]. *)
Definition attach_key (garbage : Codec nat) db (optimalReserve : Z) (key : option (list Z))
    : option (Z * sqlite3) :=
  match key with
  | Some zKey => sqlite3CodecAttach garbage db (length (aDb db) - 1) (Some zKey) (Z.of_nat (length zKey))
  | None =>
      '(zKey, nKey) ← sqlite3CodecGetKey db;
      if negb (nKey =? 0) || (0 <? optimalReserve)
      then sqlite3CodecAttach garbage db (length (aDb db) - 1) zKey nKey
      else Some (SQLITE_OK, db)
  end.

(** The first entry with the name, or 0. *)
Definition dbFindIndex db (zDb : option string) : nat :=
  match zDb with
  | None => 0
  | Some zDb => default 0%nat (fst <$> list_find (λ d, zDbSName d = zDb) (aDb db))
  end.

Definition sqlite3_key_v2 (garbage : Codec nat) db (zDbName : option string)
    (zKey : option (list Z)) (nKey : Z) : option (Z * sqlite3) :=
  sqlite3CodecAttach garbage db (dbFindIndex db zDbName) zKey nKey.

Definition sqlite3_key (garbage : Codec nat) db (zKey : option (list Z)) (nKey : Z)
    : option (Z * sqlite3) :=
  sqlite3_key_v2 garbage db (Some "main"%string) zKey nKey.
End connection.

(** ** Changing the key *)

(** What [sqlite3_rekey_v2] calls in the pager and the B-tree, on a world [W] of
    files, caches and locks. Each operation sees the codec of its pager, whose
    flags and keys it reads through [sqlite3Codec]; the results are SQLite's
    result codes. *)
Class PagerOps (W : Type) := {
  sqlite3BtreeGetPageSize : nat → W → Z;
  sqlite3BtreeBeginTrans : nat → option (Codec nat) → W → Z * W;
  sqlite3PagerPagecount : nat → W → Z;
  sqlite3PagerGet : nat → Z → option (Codec nat) → W → Z * W;
  sqlite3PagerWrite : nat → Z → option (Codec nat) → W → Z * W;
  sqlite3PagerUnref : nat → Z → W → W;
  sqlite3BtreeCommit : nat → option (Codec nat) → W → Z * W;
  sqlite3BtreeRollback : nat → option (Codec nat) → W → W
}.

Section rekey.
Context `{Machine} (ct : codec_type) {W : Type} `{PagerOps W}.

(** The loop over the pages, [k] of them from page [n] on. *)
Fixpoint rekey_pages (k : nat) (nDb : nat) (n nSkip : Z) (codec : option (Codec nat)) (rc : Z) (w : W)
    : Z * W :=
  match k with
  | O => (rc, w)
  | S k' =>
      if negb (rc =? SQLITE_OK) then (rc, w) else
      if n =? nSkip then rekey_pages k' nDb (n + 1) nSkip codec rc w else
      let '(rc, w) := sqlite3PagerGet nDb n codec w in
      if rc =? SQLITE_OK
      then
        let '(rc, w) := sqlite3PagerWrite nDb n codec w in
        rekey_pages k' nDb (n + 1) nSkip codec rc (sqlite3PagerUnref nDb n w)
      else rekey_pages k' nDb (n + 1) nSkip codec rc w
  end.

(** The transaction: rewrite all pages and commit, or roll back. *)
Definition rekey_trans (nDb : nat) (codec : option (Codec nat)) (w : W) : Z * W :=
  let '(rc, w) := sqlite3BtreeBeginTrans nDb codec w in
  let '(rc, w) :=
    if rc =? SQLITE_OK
    then
      let nSkip := WX_PAGER_MJ_PGNO (sqlite3BtreeGetPageSize nDb w) in
      let nPage := sqlite3PagerPagecount nDb w in
      rekey_pages (Z.to_nat nPage) nDb 1 nSkip codec rc w
    else (rc, w) in
  let '(rc, w) := if rc =? SQLITE_OK then sqlite3BtreeCommit nDb codec w else (rc, w) in
  let w := if rc =? SQLITE_OK then w else sqlite3BtreeRollback nDb codec w in
  (rc, w).

(** The change of flags and keys after the transaction. *)
Definition rekey_finish (rc : Z) (codec : Codec nat) : Codec nat :=
  if rc =? SQLITE_OK
  then
    if CodecHasWriteKey codec
    then CodecSetHasReadKey (CodecCopyKey ct codec false) 1
    else CodecSetIsEncrypted codec 0
  else
    if CodecHasReadKey codec then CodecCopyKey ct codec true
    else CodecSetIsEncrypted codec 0.

(** The three cases that set up the codec; [None] means that nothing is to be
    done. The result is the address of the codec. *)
Definition rekey_setup (garbage : Codec nat) (db : sqlite3) (nDb : nat) (zKey : option (list Z))
    (nKey : Z) : option (option positive * sqlite3) :=
  pager ← get_pager db nDb;
  let pc := mySqlite3PagerGetCodec pager in
  enc ← match pc with
        | None => Some false
        | Some p => codec ← get_codec db p; Some (CodecIsEncrypted codec)
        end;
  let nokey := no_key zKey || (nKey =? 0) in
  if nokey && negb enc then Some (None, db) else
  if negb enc
  then
    let '(p, db) := match pc with Some p => (p, db) | None => new_codec garbage db end in
    db ← upd_codec (λ codec, CodecSetIsEncrypted codec 1) p db;
    db ← upd_codec (λ codec, CodecSetHasReadKey codec 0) p db;
    db ← upd_codec (λ codec, CodecSetHasWriteKey codec 1) p db;
    db ← upd_codec (λ codec, CodecGenerateWriteKey ct codec (key_bytes zKey) nKey) p db;
    db ← upd_codec (λ codec, CodecSetBtree codec (Some nDb)) p db;
    db ← mySqlite3PagerSetCodec nDb true (Some p) db;
    Some (Some p, db)
  else
    p ← pc;
    if nokey
    then
      db ← upd_codec (λ codec, CodecSetHasWriteKey codec 0) p db;
      Some (Some p, db)
    else
      db ← upd_codec (λ codec, CodecGenerateWriteKey ct codec (key_bytes zKey) nKey) p db;
      db ← upd_codec (λ codec, CodecSetHasWriteKey codec 1) p db;
      Some (Some p, db).

Definition sqlite3_rekey_v2 (garbage : Codec nat) (db : sqlite3) (zDbName : option string)
    (zKey : option (list Z)) (nKey : Z) (w : W) : option (Z * sqlite3 * W) :=
  let dbIndex := dbFindIndex db zDbName in
  '(pc, db) ← rekey_setup garbage db dbIndex zKey nKey;
  match pc with
  | None => Some (SQLITE_OK, db, w)
  | Some p =>
      codec ← get_codec db p;
      let '(rc, w) := rekey_trans dbIndex (Some codec) w in
      db ← upd_codec (rekey_finish rc) p db;
      codec ← get_codec db p;
      if CodecIsEncrypted codec
      then Some (rc, db, w)
      else
        db ← mySqlite3PagerSetCodec dbIndex false None db;
        Some (rc, db, w)
  end.

Definition sqlite3_rekey (garbage : Codec nat) (db : sqlite3) (zKey : option (list Z)) (nKey : Z)
    (w : W) : option (Z * sqlite3 * W) :=
  sqlite3_rekey_v2 garbage db (Some "main"%string) zKey nKey w.
End rekey.
