(* ===== verification/CodecExtCallback.v ===== *)
(** * Codec of a connection: callback and invariant

    What the callback of the pager does to a page, and the invariant of the
    codecs of a connection. *)
From S2P Require Import Prelude Words HashBase RijndaelTables Rijndael RijndaelApi RijndaelCipher RijndaelKey RijndaelBlock MD5 RC4 Sha2 Codec CodecProofs CodecPage CodecExt.
From stdpp Require Import gmap strings.
Local Open Scope Z_scope.

#[local] Opaque CodecEncrypt CodecDecrypt.

Section callback.
Context `{Machine} {Btree : Type} (ct : codec_type).
Context (sqlite3BtreeGetPageSize : option Btree → Z).
Implicit Types (codec : Codec Btree) (mem m : list Z) (page nMode : Z) (d n : nat).

(** A codec as [sqlite3_malloc] and the operations make it: the AES object and
    the keys have their sizes, the buffer is that of codec.h. *)
Record codec_obj codec : Prop := {
  obj_wf : codec_wf ct codec;
  obj_page : bytes_ok (m_page codec) ∧ Z.of_nat (length (m_page codec)) = SQLITE_MAX_PAGE_SIZE + 24
}.

(** The page size that the callback sees is [16 * n]. *)
Definition page_blocks codec n : Prop :=
  sqlite3BtreeGetPageSize (m_bt codec) = 16 * Z.of_nat n ∧ (2 ≤ n)%nat ∧ 16 * Z.of_nat n ≤ SQLITE_MAX_PAGE_SIZE.

(** All but the scratch fields: flags, keys and B-tree. *)
Definition same_settings codec codec' : Prop :=
  m_isEncrypted codec' = m_isEncrypted codec ∧ m_hasReadKey codec' = m_hasReadKey codec ∧
  m_readKey codec' = m_readKey codec ∧ m_hasWriteKey codec' = m_hasWriteKey codec ∧
  m_writeKey codec' = m_writeKey codec ∧ m_bt codec' = m_bt codec.

#[export] Instance same_settings_equiv : Equivalence same_settings.
Proof.
  split.
  - by intros codec.
  - intros c c' (?&?&?&?&?&?). by split_and!.
  - intros c c' c'' (?&?&?&?&?&?) (?&?&?&?&?&?). split_and!; by etrans.
Qed.

Lemma codec_obj_scratch codec aes buf :
  codec_obj codec → rijndael_wf aes → bytes_ok buf → length buf = length (m_page codec) →
  codec_obj (set_page (set_aes codec aes) buf).
Proof.
  intros [[Ha Hr Hw] [Hb Hl]] Haes Hbuf Hlen. split; [by split|]. cbn. by rewrite Hlen.
Qed.

Lemma set_page_id codec aes : set_page (set_aes codec aes) (m_page codec) = set_aes codec aes.
Proof. done. Qed.

Lemma sealed_ok page key m n :
  bytes_ok key → bytes_ok m → length m = (16 * n)%nat → bytes_ok (sealed ct page key m).
Proof.
  intros Hk Hm Hn. 
  assert (∀ bs, Forall block_ok bs → bytes_ok (bytes_of bs)) as Hof.
  { intros bs Hbs. unfold bytes_of. induction Hbs; [constructor|].
    cbn [fmap list_fmap concat]. apply Forall_app_2; [by apply block_bytes_ok|done]. }
  unfold sealed. case_decide.
  - repeat apply Forall_app_2; repeat (apply Forall_take || apply Forall_drop); try done;
      apply Hof, page_cbc_ok; try done; by apply blocks_at_ok.
  - by apply Hof, page_cbc_ok, blocks_at_ok.
Qed.

#[local] Opaque sealed.

(** The buffer holds the sealed page. *)
Lemma encrypt_buffer_spec codec mem d page n (useWriteKey : bool) :
  codec_obj codec → bytes_ok mem → (2 ≤ n)%nat → 16 * Z.of_nat n ≤ SQLITE_MAX_PAGE_SIZE →
  (d + 16 * n ≤ length mem)%nat →
  let key := if useWriteKey then m_writeKey codec else m_readKey codec in
  let codec' := encrypt_buffer ct codec mem d page (16 * Z.of_nat n) useWriteKey in
  codec_obj codec' ∧ same_settings codec codec' ∧
  region (m_page codec') CodecGetPageBuffer (16 * n) = sealed ct page key (region mem d (16 * n)).
Proof.
  intros [Hwf [Hb Hl]] Hmem Hn Hsz Hd key codec'. unfold codec', encrypt_buffer.
  replace (Z.to_nat (16 * Z.of_nat n)) with (16 * n)%nat by lia.
  change (take (16 * n) (drop d mem)) with (region mem d (16 * n)).
  pose proof (length_region mem d (16 * n) ltac:(lia)) as Hr.
  assert (SQLITE_MAX_PAGE_SIZE = 65536) as Hmax by done.
  assert (CodecGetPageBuffer = 4%nat) as Hbuf by done.
  set (buf := memcpy (m_page codec) CodecGetPageBuffer (region mem d (16 * n))).
  assert (length buf = length (m_page codec)) as Hlb by apply length_memcpy.
  assert (bytes_ok buf) as Hokb by (by apply memcpy_ok, region_ok).
  destruct (CodecEncrypt_sealed ct codec page buf CodecGetPageBuffer n useWriteKey)
    as (aes & Haes & ->); [done|done|done|lia|].
  assert (region buf CodecGetPageBuffer (16 * n) = region mem d (16 * n)) as Hreg.
  { pose proof (region_memcpy (m_page codec) CodecGetPageBuffer (region mem d (16 * n))) as He.
    rewrite Hr in He. apply He. lia. }
  rewrite Hreg. fold key. set (s := sealed ct page key (region mem d (16 * n))).
  assert (length s = 16 * n)%nat as Hs by (by apply length_sealed).
  assert (bytes_ok s) as Hoks.
  { apply sealed_ok with n; [|by apply region_ok|done]. unfold key. destruct useWriteKey; apply Hwf. }
  split_and!.
  - apply codec_obj_scratch; [done|done|by apply memcpy_ok|by rewrite length_memcpy].
  - done.
  - cbn [m_page set_page]. rewrite <-Hs. apply region_memcpy. lia.
Qed.

(** The modes, as the comments of the source name them. *)
Definition load_mode nMode : Prop := nMode = 0 ∨ nMode = 2 ∨ nMode = 3.

Lemma load_mode_eqb nMode : load_mode nMode → (nMode =? 0) || (nMode =? 2) || (nMode =? 3) = true.
Proof. intros [-> | [-> | ->]]; done. Qed.

(** The key that a store mode uses, if the codec has it: 6 is the database file,
    7 the journal. *)
Definition store_key codec nMode : option (list Z) :=
  if nMode =? 6 then (if CodecHasWriteKey codec then Some (m_writeKey codec) else None)
  else if nMode =? 7 then (if CodecHasReadKey codec then Some (m_readKey codec) else None)
  else None.

(** The bytes behind the pointer that the callback returns. *)
Definition returned (res : option (Codec Btree) * list Z * page_ref) d len : list Z :=
  match res with
  | (Some codec, mem, PageBuffer) => region (m_page codec) CodecGetPageBuffer len
  | (_, mem, _) => region mem d len
  end.

Lemma store_key_mode codec nMode key :
  store_key codec nMode = Some key →
  ((nMode =? 0) || (nMode =? 2) || (nMode =? 3) = false) ∧
  ((nMode = 6 ∧ CodecHasWriteKey codec = true ∧ key = m_writeKey codec) ∨
   (nMode = 7 ∧ CodecHasReadKey codec = true ∧ key = m_readKey codec)).
Proof.
  unfold store_key. destruct (Z.eqb_spec nMode 6) as [-> | H6].
  - destruct (CodecHasWriteKey codec); [|done]. intros H0. apply (inj Some) in H0. eauto.
  - destruct (Z.eqb_spec nMode 7) as [-> | H7]; [|done].
    destruct (CodecHasReadKey codec); [|done]. intros H0. apply (inj Some) in H0. eauto.
Qed.

(** Storing: the buffer is returned, the cache is not touched. *)
Lemma sqlite3Codec_store codec mem d page nMode key n :
  codec_obj codec → page_blocks codec n → CodecIsEncrypted codec = true →
  store_key codec nMode = Some key → bytes_ok mem → (d + 16 * n ≤ length mem)%nat →
  ∃ codec', sqlite3Codec ct sqlite3BtreeGetPageSize (Some codec) mem d page nMode
            = (Some codec', mem, PageBuffer) ∧
    codec_obj codec' ∧ same_settings codec codec' ∧
    region (m_page codec') CodecGetPageBuffer (16 * n) = sealed ct page key (region mem d (16 * n)).
Proof.
  intros Hobj (Hps & Hn & Hmax) He (Hnl & Hk)%store_key_mode Hmem Hd.
  unfold sqlite3Codec. unfold CodecGetBtree. rewrite He, Hps, Hnl. cbn [negb].
  destruct Hk as [(-> & Hh & ->) | (-> & Hh & ->)]; cbn [Z.eqb Pos.eqb]; rewrite Hh.
  - eexists; split; [done|]. by apply (encrypt_buffer_spec codec mem d page n true).
  - eexists; split; [done|]. by apply (encrypt_buffer_spec codec mem d page n false).
Qed.

(** Loading a page that was sealed with the read key. *)
Lemma sqlite3Codec_load codec mem d page nMode n m :
  codec_obj codec → page_blocks codec n → CodecIsEncrypted codec = true →
  CodecHasReadKey codec = true → load_mode nMode → bytes_ok mem → (d + 16 * n ≤ length mem)%nat →
  length m = (16 * n)%nat → page_ok page m →
  region mem d (16 * n) = sealed ct page (m_readKey codec) m →
  ∃ codec', sqlite3Codec ct sqlite3BtreeGetPageSize (Some codec) mem d page nMode
            = (Some codec', memcpy mem d m, Data).
Proof.
  intros [Hwf _] (Hps & Hn & Hmax) He Hr Hmode Hmem Hd Hm Hok Hseal.
  unfold sqlite3Codec, CodecGetBtree. rewrite He, Hps, load_mode_eqb, Hr by done. cbn [negb].
  pose proof (CodecDecrypt_sealed ct codec page mem d n m Hwf Hmem Hn Hd Hm Hok Hseal) as Hdec.
  destruct (CodecDecrypt _ _ _ _ _ _) as [codec' mem']. cbn [snd] in Hdec. subst. eauto.
Qed.

(** C29: what the callback stores it loads: whatever one codec returns for a page in
    mode 6 or 7, a codec whose read key is the key of that mode decrypts in place,
    wherever the bytes have been copied to; storing leaves the page in the cache
    as it was, so that only the copy is encrypted. *)
Theorem sqlite3Codec_store_load codec reader mem mem2 d d2 page nMode nMode2 n key :
  codec_obj codec → page_blocks codec n → CodecIsEncrypted codec = true →
  store_key codec nMode = Some key →
  codec_obj reader → page_blocks reader n → CodecIsEncrypted reader = true →
  CodecHasReadKey reader = true → m_readKey reader = key → load_mode nMode2 →
  bytes_ok mem → (d + 16 * n ≤ length mem)%nat → bytes_ok mem2 → (d2 + 16 * n ≤ length mem2)%nat →
  page_ok page (region mem d (16 * n)) →
  let res := sqlite3Codec ct sqlite3BtreeGetPageSize (Some codec) mem d page nMode in
  snd (fst res) = mem ∧
  (region mem2 d2 (16 * n) = returned res d (16 * n) →
   snd (fst (sqlite3Codec ct sqlite3BtreeGetPageSize (Some reader) mem2 d2 page nMode2))
   = memcpy mem2 d2 (region mem d (16 * n))).
Proof.
  intros Hc Hpc Hec Hkey Hr Hpr Her Hhr Hrk Hm2 Hmem Hd Hmem2 Hd2 Hok.
  destruct (sqlite3Codec_store codec mem d page nMode key n) as (codec' & Heq & _ & _ & Hreg); [done..|].
  cbv zeta. rewrite Heq. cbn [fst snd returned]. split; [done|]. intros Hcopy.
  destruct (sqlite3Codec_load reader mem2 d2 page nMode2 n (region mem d (16 * n))) as (r' & ->); try done.
  - apply length_region. lia.
  - by rewrite Hrk, Hcopy, Hreg.
Qed.

(** in every mode, on every argument, the callback keeps flags, keys, B-tree
    and the shape of the codec, and writes at most the page in place; when there
    is no codec, no encryption, no key for the mode or no such mode, it does
    nothing at all and returns the caller's page. *)
Theorem sqlite3Codec_frame arg mem d page nMode n :
  (∀ codec, arg = Some codec → codec_obj codec ∧ page_blocks codec n) →
  bytes_ok mem → (d + 16 * n ≤ length mem)%nat →
  let '(arg', mem', ref) := sqlite3Codec ct sqlite3BtreeGetPageSize arg mem d page nMode in
  length mem' = length mem ∧
  (∀ i, (i < d ∨ d + 16 * n ≤ i)%nat → nth i mem' 0 = nth i mem 0) ∧
  match arg, arg' with
  | None, None => mem' = mem ∧ ref = Data
  | Some codec, Some codec' =>
      codec_obj codec' ∧ same_settings codec codec' ∧
      (ref = PageBuffer ↔ CodecIsEncrypted codec = true ∧ is_Some (store_key codec nMode)) ∧
      (¬ (CodecIsEncrypted codec = true ∧ CodecHasReadKey codec = true ∧ load_mode nMode) → mem' = mem) ∧
      (CodecIsEncrypted codec = true ∧ (load_mode nMode ∧ CodecHasReadKey codec = true ∨
         is_Some (store_key codec nMode)) ∨ codec' = codec)
  | _, _ => False
  end.
Proof.
  intros Harg Hmem Hd. destruct arg as [codec|]; [|done].
  destruct (Harg codec eq_refl) as (Hobj & Hpb). pose proof Hpb as (Hps & Hn & Hmax).
  destruct (CodecIsEncrypted codec) eqn:He.
  2: { unfold sqlite3Codec. rewrite He. cbn. split_and!; try done; [|by right].
       split; [done|]. by intros [? _]. }
  destruct (store_key codec nMode) as [key|] eqn:Hkey.
  { destruct (sqlite3Codec_store codec mem d page nMode key n) as (codec' & -> & Ho & Hs & _); try done.
    split_and!; try done. left. eauto. }
  unfold sqlite3Codec, CodecGetBtree. rewrite He, Hps. cbn [negb].
  destruct ((nMode =? 0) || (nMode =? 2) || (nMode =? 3)) eqn:Hload.
  - assert (load_mode nMode) as Hmode by (unfold load_mode; lia).
    destruct (CodecHasReadKey codec) eqn:Hr.
    + destruct (CodecDecrypt_frame ct codec page mem d n) as (aes & mem' & Haes & -> & Hl & Hout);
        [apply Hobj|done|done|].
      rewrite <-set_page_id. split_and!; try done.
      * apply codec_obj_scratch; [done|done|apply Hobj|done].
      * split; [done|]. by intros [_ [? ?]].
      * intros Hn'. by destruct Hn'.
      * left. eauto.
    + split_and!; try done; [|by right]. split; [done|]. by intros [_ [? ?]].
  - unfold store_key in Hkey. destruct (nMode =? 6) eqn:H6, (nMode =? 7) eqn:H7;
      repeat case_match; split_and!; try done; try (by right); (split; [done|]; by intros [_ [? ?]]).
Qed.
End callback.


#[local] Opaque CodecEncrypt CodecDecrypt CodecGenerateEncryptionKey.

Section connection.
Context `{Machine} (ct : codec_type).
Implicit Types (db : sqlite3) (i j : nat) (p q : positive) (codec : Codec nat) (pager : Pager).
Implicit Types (R : nat → Codec nat → Prop).

(** The codec of a database. *)
Definition codec_at db i : option (Codec nat) :=
  pager ← get_pager db i; p ← pCodec pager; get_codec db p.

(** Each pager's codec is allocated, has [R], and belongs to no other pager; the
    functions of the pager are set when the codec is, except that a memory
    database never calls the callback. *)
Record conn_inv R db : Prop := {
  inv_codec i pager p : get_pager db i = Some pager → pCodec pager = Some p →
    ∃ codec, get_codec db p = Some codec ∧ R i codec;
  inv_functions i pager : get_pager db i = Some pager →
    xCodecFree pager = bool_decide (is_Some (pCodec pager)) ∧
    xCodec pager = negb (memDb pager) && bool_decide (is_Some (pCodec pager));
  inv_distinct i j pager pager' p : get_pager db i = Some pager → get_pager db j = Some pager' →
    pCodec pager = Some p → pCodec pager' = Some p → i = j
}.

(** Between operations every codec is ready to load pages. *)
Definition codec_ready i codec : Prop :=
  codec_obj ct codec ∧ CodecIsEncrypted codec = true ∧ CodecHasReadKey codec = true ∧ m_bt codec = Some i.
Definition conn_wf db : Prop := conn_inv codec_ready db.

Lemma conn_inv_mono R (R' : nat → Codec nat → Prop) db :
  conn_inv R db → (∀ i codec, R i codec → R' i codec) → conn_inv R' db.
Proof.
  intros Hinv HR. split; [|apply Hinv|apply Hinv].
  intros i pager p Hi Hp. destruct (inv_codec _ _ Hinv i pager p Hi Hp) as (codec & ? & ?). eauto.
Qed.

(** ** The heap *)

Definition put p codec db : sqlite3 := mkConn (<[p := codec]> (codecs db)) (aDb db).

(** [p] belongs to no pager. *)
Definition unowned p db : Prop := ∀ i pager, get_pager db i = Some pager → pCodec pager ≠ Some p.

Lemma get_put p codec db : get_codec (put p codec db) p = Some codec.
Proof. apply lookup_insert_eq. Qed.

Lemma get_put_ne p q codec db : p ≠ q → get_codec (put p codec db) q = get_codec db q.
Proof. apply lookup_insert_ne. Qed.

Lemma put_put p codec codec' db : put p codec (put p codec' db) = put p codec db.
Proof. unfold put. cbn. by rewrite insert_insert_eq. Qed.

Lemma upd_codec_eq f p codec db :
  get_codec db p = Some codec → upd_codec f p db = Some (put p (f codec) db).
Proof. intros Hp. unfold upd_codec. by rewrite Hp. Qed.

Lemma upd_put f p codec db : upd_codec f p (put p codec db) = Some (put p (f codec) db).
Proof. rewrite (upd_codec_eq _ _ codec) by apply get_put. by rewrite put_put. Qed.

Lemma new_codec_put garbage db :
  ∃ p, new_codec garbage db = (p, put p (CodecInit garbage (m_aes garbage)) db) ∧ get_codec db p = None.
Proof.
  eexists. split; [reflexivity|]. apply not_elem_of_dom. apply is_fresh.
Qed.

Lemma unowned_fresh R p db : conn_inv R db → get_codec db p = None → unowned p db.
Proof.
  intros Hinv Hp i pager Hi Hpc. destruct (inv_codec _ _ Hinv i pager p Hi Hpc) as (? & ? & _). congruence.
Qed.

Lemma put_unowned R p codec db : conn_inv R db → unowned p db → conn_inv R (put p codec db).
Proof.
  intros Hinv Hp. split; [|apply Hinv|apply Hinv].
  intros i pager q Hi Hq. destruct (inv_codec _ _ Hinv i pager q Hi Hq) as (c & Hc & HR).
  exists c. split; [|done]. rewrite get_put_ne; [done|]. intros ->. by apply (Hp i pager).
Qed.

Lemma codec_at_put_unowned p codec db i : unowned p db → codec_at (put p codec db) i = codec_at db i.
Proof.
  intros Hp. unfold codec_at. change (get_pager (put p codec db) i) with (get_pager db i).
  destruct (get_pager db i) as [pager|] eqn:Hi; [|done]. cbn.
  destruct (pCodec pager) as [q|] eqn:Hq; [|done]. cbn.
  apply get_put_ne. intros ->. by apply (Hp i pager).
Qed.

(** Updating the codec of one pager. *)
Lemma put_owned R (R' : nat → Codec nat → Prop) i pager p codec db :
  conn_inv R db → get_pager db i = Some pager → pCodec pager = Some p →
  (∀ j c, j ≠ i → R j c → R' j c) → R' i codec →
  conn_inv R' (put p codec db) ∧ codec_at (put p codec db) i = Some codec ∧
  ∀ j, j ≠ i → codec_at (put p codec db) j = codec_at db j.
Proof.
  intros Hinv Hi Hp HR Hcodec. split_and!.
  - split; [|apply Hinv|apply Hinv]. intros j pager' q Hj Hq. destruct (decide (p = q)) as [<-|Hne].
    + rewrite (inv_distinct _ _ Hinv j i pager' pager p Hj Hi Hq Hp).
      exists codec. split; [apply get_put|done].
    + rewrite get_put_ne by done. destruct (inv_codec _ _ Hinv j pager' q Hj Hq) as (c & Hc & HRc).
      exists c. split; [done|]. apply HR; [|done]. intros ->. change (get_pager db i = Some pager') in Hj.
      congruence.
  - unfold codec_at. change (get_pager (put p codec db) i) with (get_pager db i). rewrite Hi. cbn.
    rewrite Hp. apply get_put.
  - intros j Hne. unfold codec_at. change (get_pager (put p codec db) j) with (get_pager db j).
    destruct (get_pager db j) as [pager'|] eqn:Hj; [|done]. cbn.
    destruct (pCodec pager') as [q|] eqn:Hq; [|done]. cbn.
    apply get_put_ne. intros ->. apply Hne. by eapply inv_distinct.
Qed.

(** ** Pagers *)

Lemma get_set_pager i pager db : (i < length (aDb db))%nat → get_pager (set_pager i pager db) i = Some pager.
Proof.
  intros Hi. unfold get_pager, set_pager. cbn. rewrite list_lookup_alter_eq.
  destruct (lookup_lt_is_Some_2 _ _ Hi) as [d ->]. done.
Qed.

Lemma get_set_pager_ne i j pager db : i ≠ j → get_pager (set_pager i pager db) j = get_pager db j.
Proof. intros. unfold get_pager, set_pager. cbn. by rewrite list_lookup_alter_ne. Qed.

Lemma names_set_pager i pager db : zDbSName <$> aDb (set_pager i pager db) = zDbSName <$> aDb db.
Proof.
  apply list_eq. intros j. rewrite !list_lookup_fmap. unfold set_pager. cbn.
  destruct (decide (i = j)) as [<-|]; [|by rewrite list_lookup_alter_ne].
  rewrite list_lookup_alter_eq. by destruct (aDb db !! i).
Qed.

Lemma get_pager_Some db i : (i < length (aDb db))%nat → ∃ pager, get_pager db i = Some pager.
Proof.
  intros Hi. unfold get_pager. destruct (lookup_lt_is_Some_2 _ _ Hi) as [d ->]. eexists. reflexivity.
Qed.

Lemma get_pager_lt db i pager : get_pager db i = Some pager → (i < length (aDb db))%nat.
Proof. unfold get_pager. destruct (aDb db !! i) eqn:Hi; [|done]. intros _. by apply lookup_lt_Some in Hi. Qed.

(** What every operation keeps of the other databases. *)
Definition same_elsewhere i db db' : Prop :=
  zDbSName <$> aDb db' = zDbSName <$> aDb db ∧ ∀ j, j ≠ i → codec_at db' j = codec_at db j.

#[export] Instance same_elsewhere_preorder i : PreOrder (same_elsewhere i).
Proof.
  split; [by intros db|]. intros db db' db'' [H1 H2] [H3 H4].
  split; [congruence|]. intros j Hj. by rewrite H4, H2.
Qed.

Lemma same_elsewhere_length i db db' : same_elsewhere i db db' → length (aDb db') = length (aDb db).
Proof. intros [Hn _]. by rewrite <-(length_fmap zDbSName), Hn, length_fmap. Qed.

(** [mySqlite3PagerSetCodec] frees the codec of the pager, and no other. *)
Lemma PagerSetCodec_spec R (R' : nat → Codec nat → Prop) i (codec : option (Codec nat)) (p : option positive) db :
  conn_inv R db → (i < length (aDb db))%nat →
  match p, codec with
  | Some p, Some c => get_codec db p = Some c ∧ unowned p db ∧ R' i c
  | None, None => True
  | _, _ => False
  end →
  (∀ j c, j ≠ i → R j c → R' j c) →
  ensures (mySqlite3PagerSetCodec i (bool_decide (is_Some codec)) p db) (λ db',
    conn_inv R' db' ∧ codec_at db' i = codec ∧ same_elsewhere i db db' ∧
    (pager ← get_pager db' i; pCodec pager) = p).
Proof.
  intros Hinv Hi Hp HR. destruct (get_pager_Some db i Hi) as (pager & Hpager).
  destruct (inv_functions _ _ Hinv i pager Hpager) as [Hfree _].
  unfold mySqlite3PagerSetCodec. rewrite Hpager. cbn [mbind option_bind].
  (* the heap after the old codec is freed *)
  assert (∃ db1, (if xCodecFree pager then sqlite3CodecFree (pCodec pager) db else Some db) = Some db1 ∧
            aDb db1 = aDb db ∧ ∀ q, pCodec pager ≠ Some q → get_codec db1 q = get_codec db q) as (db1 & -> & HaDb & Hget).
  { rewrite Hfree. destruct (pCodec pager) as [q|] eqn:Hq; cbn; [|by eexists].
    destruct (inv_codec _ _ Hinv i pager q Hpager Hq) as (c & -> & _).
    eexists. split_and!; [done..|]. intros q' Hne. apply lookup_delete_ne. congruence. }
  cbn [mbind option_bind ensures].
  set (pager' := mkPager _ _ _ _). set (db2 := set_pager i pager' db1).
  assert (∀ j, get_pager db1 j = get_pager db j) as Hsame by (intros j; unfold get_pager; by rewrite HaDb).
  assert (get_pager db2 i = Some pager') as Hi2 by (apply get_set_pager; by rewrite HaDb).
  assert (∀ j, j ≠ i → get_pager db2 j = get_pager db j) as Hj2.
  { intros j Hj. unfold db2. by rewrite get_set_pager_ne. }
  assert (∀ j pj q, j ≠ i → get_pager db j = Some pj → pCodec pj = Some q → get_codec db2 q = get_codec db q) as Hother.
  { intros j pj q Hj Hpj Hq. change (get_codec db2 q) with (get_codec db1 q). apply Hget.
    intros Hq'. apply Hj. by eapply inv_distinct. }
  assert (∀ q c, p = Some q → codec = Some c → get_codec db2 q = Some c ∧ R' i c) as Hown.
  { intros q c -> ->. destruct Hp as (Hc & Hun & HRc). split; [|done].
    change (get_codec db2 q) with (get_codec db1 q). rewrite Hget; [done|]. by apply Hun with i. }
  assert (is_Some p ↔ is_Some codec) as Hiff by (destruct p, codec; split; intros []; done).
  split_and!; [split| |split|].
  - intros j pj q Hpj Hq. destruct (decide (j = i)) as [->|Hj].
    + rewrite Hi2 in Hpj. injection Hpj as <-. cbn in Hq. subst p.
      destruct codec as [c|]; [|done]. eauto.
    + rewrite Hj2 in Hpj by done. destruct (inv_codec _ _ Hinv j pj q Hpj Hq) as (c & Hc & HRc).
      exists c. rewrite (Hother j pj q) by done. auto.
  - intros j pj Hpj. destruct (decide (j = i)) as [->|Hj].
    + rewrite Hi2 in Hpj. injection Hpj as <-. cbn.
      rewrite (bool_decide_ext _ _ Hiff). by destruct (memDb pager).
    + rewrite Hj2 in Hpj by done. by apply Hinv in Hpj.
  - intros j k pj pk q Hpj Hpk Hq Hq'. destruct (decide (j = i)) as [->|Hj], (decide (k = i)) as [->|Hk]; try done.
    + rewrite Hi2 in Hpj. injection Hpj as <-. cbn in Hq. subst p. rewrite Hj2 in Hpk by done.
      destruct codec; [|done]. destruct Hp as (_ & Hun & _). by destruct (Hun k pk).
    + rewrite Hi2 in Hpk. injection Hpk as <-. cbn in Hq'. subst p. rewrite Hj2 in Hpj by done.
      destruct codec; [|done]. destruct Hp as (_ & Hun & _). by destruct (Hun j pj).
    + rewrite Hj2 in Hpj, Hpk by done. by eapply inv_distinct.
  - unfold codec_at. rewrite Hi2. cbn. destruct p as [q|], codec as [c|]; try done. cbn.
    by apply Hown.
  - unfold db2. rewrite names_set_pager. by rewrite HaDb.
  - intros j Hj. unfold codec_at. rewrite Hj2 by done.
    destruct (get_pager db j) as [pj|] eqn:Hpj; [|done]. cbn.
    destruct (pCodec pj) as [q|] eqn:Hq; [|done]. cbn. by apply Hother with j pj.
  - by rewrite Hi2.
Qed.
End connection.
