(* ===== verification/CodecExtKeys.v ===== *)
(** * Attaching and changing keys

    [sqlite3CodecAttach], ATTACH and [sqlite3_rekey_v2]: they never touch an
    address that is not allocated, keep the invariant of the connection, and
    leave each database with the keys that the documentation promises.
    [sqlite3_rekey_v2] is safe and keeps the invariant for every behaviour of the
    pager; with a pager that keeps its promises ([PagerSpec]), a call that
    succeeds has re-encrypted every page of the file and lost none, and a call
    that fails has changed none. *)
From S2P Require Import Prelude Words HashBase RijndaelTables Rijndael RijndaelApi RijndaelKey RijndaelBlock MD5 RC4 Sha2 Codec CodecProofs CodecPage CodecExt CodecExtCallback.
From stdpp Require Import gmap strings.
Local Open Scope Z_scope.

#[local] Opaque CodecEncrypt CodecDecrypt CodecGenerateEncryptionKey password_key.

Section keys.
Context `{Machine} (ct : codec_type).
Implicit Types (db : sqlite3) (i j : nat) (p q : positive) (codec garbage : Codec nat) (pw : list Z).

(** The key argument of the C functions: a null pointer, or [nKey] bytes. *)
Definition key_arg (zKey : option (list Z)) (nKey : Z) : Prop :=
  ∀ pw, zKey = Some pw → bytes_ok pw ∧ nKey = Z.of_nat (length pw).

(** The password, if there is one: null and empty keys are none. *)
Definition password (zKey : option (list Z)) : option (list Z) :=
  match zKey with Some (x :: pw) => Some (x :: pw) | _ => None end.

(** The callback has these keys for loading and storing. *)
Definition has_keys (read : list Z) (write : option (list Z)) codec : Prop :=
  CodecIsEncrypted codec = true ∧ CodecHasReadKey codec = true ∧ m_readKey codec = read ∧
  store_key codec 6 = write.

Lemma password_Some zKey nKey pw :
  key_arg zKey nKey → password zKey = Some pw →
  zKey = Some pw ∧ bytes_ok pw ∧ nKey = Z.of_nat (length pw) ∧ 0 < nKey.
Proof.
  intros Harg Hp. destruct zKey as [[|x k]|]; try done. cbn in Hp. injection Hp as <-.
  destruct (Harg _ eq_refl) as [? Hn]. split_and!; try done. rewrite Hn. cbn. lia.
Qed.

Lemma password_None zKey nKey :
  key_arg zKey nKey → password zKey = None → zKey = None ∨ nKey = 0.
Proof.
  intros Harg Hp. destruct zKey as [[|x k]|]; try done; [|by left].
  destruct (Harg _ eq_refl) as [_ ->]. by right.
Qed.

Lemma password_test zKey nKey :
  key_arg zKey nKey → no_key zKey || (nKey =? 0) = bool_decide (password zKey = None).
Proof.
  intros Harg. destruct (password zKey) as [pw|] eqn:Hp.
  - destruct (password_Some _ _ _ Harg Hp) as (-> & _ & _ & ?). cbn. apply Z.eqb_neq. lia.
  - destruct (password_None _ _ Harg Hp) as [-> | ->]; [done|]. by rewrite orb_comm.
Qed.

(** *** The object as the operations build it *)

Lemma codec_obj_set_writeKey codec key :
  codec_obj ct codec → bytes_n (KEYLENGTH ct) key → codec_obj ct (set_writeKey codec key).
Proof. intros [[Ha Hr Hw] Hp] Hk. by repeat split; try apply Ha; try apply Hr; try apply Hk; try apply Hp. Qed.

Lemma codec_obj_set_readKey codec key :
  codec_obj ct codec → bytes_n (KEYLENGTH ct) key → codec_obj ct (set_readKey codec key).
Proof. intros [[Ha Hr Hw] Hp] Hk. by repeat split; try apply Ha; try apply Hw; try apply Hk; try apply Hp. Qed.

Lemma codec_obj_flags codec codec' :
  codec_obj ct codec → m_aes codec' = m_aes codec → m_readKey codec' = m_readKey codec →
  m_writeKey codec' = m_writeKey codec → m_page codec' = m_page codec → codec_obj ct codec'.
Proof.
  intros [[Ha Hr Hw] Hp] E1 E2 E3 E4. split; [split|]; rewrite ?E1, ?E2, ?E3, ?E4; done.
Qed.

Lemma GenerateKey_eq pw : bytes_ok pw → CodecGenerateEncryptionKey ct pw (Z.of_nat (length pw)) = password_key ct pw.
Proof. apply encryption_key_spec. Qed.

Lemma CodecCopyKey_write codec :
  codec_obj ct codec → CodecCopyKey ct codec true = set_writeKey codec (m_readKey codec).
Proof. intros [[_ [_ Hr] [_ Hw]] _]. unfold CodecCopyKey. by rewrite copy_key16_spec. Qed.

Lemma CodecCopyKey_read codec :
  codec_obj ct codec → CodecCopyKey ct codec false = set_readKey codec (m_writeKey codec).
Proof. intros [[_ [_ Hr] [_ Hw]] _]. unfold CodecCopyKey. by rewrite copy_key16_spec. Qed.

Lemma rijndael_wf_state aes : rijndael_wf aes → rijndael_wf (RijndaelCreate aes).
Proof. done. Qed.

Lemma CodecInit_obj garbage : codec_obj ct garbage → codec_obj ct (CodecInit garbage (m_aes garbage)).
Proof. intros [[Ha Hr Hw] Hp]. split; [split|]; done. Qed.

(** The codec of a password. *)
Definition keyed codec pw i : Codec nat :=
  CodecSetBtree (set_writeKey (set_readKey (CodecSetHasWriteKey (CodecSetHasReadKey
    (CodecSetIsEncrypted codec 1) 1) 1) (password_key ct pw)) (password_key ct pw)) (Some i).

Lemma keyed_ready codec pw i :
  codec_obj ct codec → bytes_ok pw →
  codec_ready ct i (keyed codec pw i) ∧ has_keys (password_key ct pw) (Some (password_key ct pw)) (keyed codec pw i).
Proof.
  intros Hobj Hpw. pose proof (password_key_ok ct pw Hpw) as Hk. split.
  - split_and!; try done. 
    apply (codec_obj_flags (set_writeKey (set_readKey codec (password_key ct pw)) (password_key ct pw))); try done.
    by apply codec_obj_set_writeKey; [apply codec_obj_set_readKey|].
  - split_and!; done.
Qed.

Lemma CodecCopy_ready codec main i :
  codec_obj ct codec → codec_ready ct 0 main →
  let codec' := CodecSetBtree (CodecCopy ct codec main) (Some i) in
  codec_ready ct i codec' ∧ has_keys (m_readKey main) (store_key main 6) codec'.
Proof.
  intros [[Ha Hr Hw] Hp] ([[Ha' Hr' Hw'] Hp'] & He & Hrd & Hb).
  assert (m_readKey (CodecCopy ct codec main) = m_readKey main) as Er
    by (apply copy_key16_spec; [apply Hr|apply Hr']).
  assert (m_writeKey (CodecCopy ct codec main) = m_writeKey main) as Ew
    by (apply copy_key16_spec; [apply Hw|apply Hw']).
  split; [|split_and!; try done].
  - split; [|by split_and!]. split; [split; [done|..]|done].
    + cbn [m_readKey CodecSetBtree]. by rewrite Er.
    + cbn [m_writeKey CodecSetBtree]. by rewrite Ew.
  - cbn in Ew. unfold store_key, CodecHasWriteKey. cbn. by rewrite Ew.
Qed.

(** ** Attaching a key *)

(** The code's steps on the new codec, in one. *)
Lemma attach_steps garbage pw nKey i p db (k : sqlite3 → option (Z * sqlite3)) :
  codec_obj ct garbage → bytes_ok pw → nKey = Z.of_nat (length pw) →
  (db ← upd_codec (λ codec, CodecSetIsEncrypted codec 1) p (put p garbage db);
   db ← upd_codec (λ codec, CodecSetHasReadKey codec 1) p db;
   db ← upd_codec (λ codec, CodecSetHasWriteKey codec 1) p db;
   db ← upd_codec (λ codec, CodecGenerateReadKey ct codec pw nKey) p db;
   db ← upd_codec (λ codec, CodecCopyKey ct codec true) p db;
   db ← upd_codec (λ codec, CodecSetBtree codec (Some i)) p db;
   k db) = k (put p (keyed garbage pw i) db).
Proof.
  intros Hobj Hpw ->. rewrite upd_put. cbn [mbind option_bind].
  rewrite upd_put. cbn [mbind option_bind]. rewrite upd_put. cbn [mbind option_bind].
  rewrite upd_put. cbn [mbind option_bind]. rewrite upd_put. cbn [mbind option_bind].
  rewrite upd_put. cbn [mbind option_bind]. apply (f_equal (λ c, k (put p c db))).
  unfold CodecGenerateReadKey. rewrite GenerateKey_eq by done.
  rewrite CodecCopyKey_write; [reflexivity|].
  apply codec_obj_set_readKey; [|by apply password_key_ok]. by apply (codec_obj_flags garbage).
Qed.

(** A codec on the heap that no pager owns is given to a pager. *)
Lemma install (R R' : nat → Codec nat → Prop) i p codec db :
  conn_inv R db → unowned p db → (i < length (aDb db))%nat →
  (∀ j c, j ≠ i → R j c → R' j c) → R' i codec →
  ensures (mySqlite3PagerSetCodec i true (Some p) (put p codec db)) (λ db',
    conn_inv R' db' ∧ codec_at db' i = Some codec ∧ same_elsewhere i db db' ∧
    (pager ← get_pager db' i; pCodec pager) = Some p).
Proof.
  intros Hwf Hun Hi HR Hready. eapply ensures_mono.
  - apply (PagerSetCodec_spec R R' i (Some codec) (Some p) (put p codec db)); try done.
    + by apply put_unowned.
    + split_and!; [apply get_put|exact Hun|done].
  - intros db' (Hwf' & Hat & [Hn Hs] & Hpc). split_and!; [done|done| |done]. split; [done|].
    intros j Hj. rewrite Hs by done. by apply codec_at_put_unowned.
Qed.

(** Allocating and freeing leaves the heap as it was. *)
Lemma free_put p codec db :
  get_codec db p = None → mkConn (delete p (codecs (put p codec db))) (aDb (put p codec db)) = db.
Proof. intros Hp. unfold put. cbn. rewrite delete_insert_eq, delete_id by done. by destruct db. Qed.

(** What becomes of the codec of database [i]. *)
Definition attached db i (zKey : option (list Z)) (nKey : Z) (codec' : option (Codec nat)) : Prop :=
  match password zKey with
  | Some pw => ∃ codec, codec' = Some codec ∧ has_keys (password_key ct pw) (Some (password_key ct pw)) codec
  | None =>
      match codec_at db 0 with
      | Some main =>
          if decide (i ≠ 0%nat ∧ 0 < nKey)
          then ∃ codec, codec' = Some codec ∧ has_keys (m_readKey main) (store_key main 6) codec
          else codec' = codec_at db i
      | None => codec' = codec_at db i
      end
  end.

Lemma attached_nothing db i zKey nKey :
  password zKey = None → (i ≠ 0%nat ∧ 0 < nKey → codec_at db 0 = None) →
  attached db i zKey nKey (codec_at db i).
Proof.
  intros Hp Hmain. unfold attached. rewrite Hp. destruct (codec_at db 0) eqn:H0; [|done].
  case_decide as Hd; [|done]. by specialize (Hmain Hd).
Qed.

Lemma sqlite3CodecAttach_ensures garbage db i zKey nKey :
  codec_obj ct garbage → conn_wf ct db → (i < length (aDb db))%nat → key_arg zKey nKey →
  ensures (sqlite3CodecAttach ct garbage db i zKey nKey) (λ '(rc, db'),
    rc = SQLITE_OK ∧ conn_wf ct db' ∧ same_elsewhere i db db' ∧ attached db i zKey nKey (codec_at db' i)).
Proof.
  intros Hg Hwf Hi Harg. unfold sqlite3CodecAttach.
  destruct (new_codec_put garbage db) as (p & -> & Hp). apply CodecInit_obj in Hg.
  set (codec0 := CodecInit garbage (m_aes garbage)) in *.
  pose proof (unowned_fresh _ p db Hwf Hp) as Hun.
  assert (conn_wf ct (put p codec0 db) ∧ same_elsewhere i db (put p codec0 db) ∧
          codec_at (put p codec0 db) i = codec_at db i) as (Hwf1 & Hs1 & Hat1).
  { split_and!; [by apply put_unowned|split; [done|]|]; intros; by apply codec_at_put_unowned. }
  destruct (password zKey) as [pw|] eqn:Hpw.
  - destruct (password_Some _ _ _ Harg Hpw) as (-> & Hok & Hn & Hpos).
    cbn [no_key orb key_bytes default]. rewrite (proj2 (Z.leb_gt nKey 0)) by done.
    unfold id. rewrite attach_steps by done.
    destruct (keyed_ready codec0 pw i Hg Hok) as [Hready Hkeys].
    eapply ensures_bind; [by apply (install (codec_ready ct) (codec_ready ct))|]. intros db' (Hwf' & Hat & Hs & _). cbn.
    split_and!; try done. unfold attached. rewrite Hpw. eauto.
  - destruct (password_None _ _ Harg Hpw) as [Hnone | Hzero].
    2: { subst nKey. rewrite orb_comm. cbn [Z.leb Z.compare orb]. rewrite andb_comm. cbn [andb Z.ltb Z.compare ensures].
         split_and!; try done. rewrite Hat1. apply attached_nothing; [done|]. by intros [_ ?]. }
    subst zKey. cbn [no_key orb].
    assert (negb (i =? 0)%nat && (0 <? nKey) = bool_decide (i ≠ 0%nat ∧ 0 < nKey)) as ->.
    { destruct (Nat.eqb_spec i 0), (Z.ltb_spec 0 nKey); symmetry;
        (apply bool_decide_eq_true_2 || apply bool_decide_eq_false_2); lia. }
    case_bool_decide as Hcond.
    2: { cbn [ensures]. split_and!; try done. rewrite Hat1. apply attached_nothing; [done|]. done. }
    assert (0 < length (aDb db))%nat as H0 by lia.
    destruct (get_pager_Some db 0 H0) as (main & Hmain).
    change (get_pager (put p codec0 db) 0) with (get_pager db 0). rewrite Hmain. cbn [mbind option_bind].
    unfold mySqlite3PagerGetCodec. destruct (pCodec main) as [q|] eqn:Hq.
    + destruct (inv_codec _ _ Hwf 0%nat main q Hmain Hq) as (mc & Hmc & Hmready).
      assert (p ≠ q) as Hne by congruence.
      rewrite get_put_ne, Hmc by done. cbn [mbind option_bind].
      destruct Hmready as (Hmobj & Hme & Hmr & Hmb) eqn:Hready. clear Hready. rewrite Hme.
      rewrite upd_put. cbn [mbind option_bind]. rewrite upd_put. cbn [mbind option_bind].
      destruct (CodecCopy_ready codec0 mc i Hg) as [Hready Hkeys]; [by split_and!|].
      eapply ensures_bind; [by apply (install (codec_ready ct) (codec_ready ct))|]. intros db' (Hwf' & Hat & Hs & _). cbn.
      split_and!; try done. unfold attached. cbn [password].
      assert (codec_at db 0 = Some mc) as -> by (unfold codec_at; rewrite Hmain; cbn; by rewrite Hq).
      rewrite decide_True by done. eauto.
    + rewrite upd_put. cbn [mbind option_bind ensures].
      rewrite free_put by done.
      split_and!; try done. apply attached_nothing; [done|]. intros _.
      unfold codec_at. rewrite Hmain. cbn. by rewrite Hq.
Qed.

Lemma sqlite3CodecGetKey_spec db :
  conn_wf ct db → (0 < length (aDb db))%nat →
  sqlite3CodecGetKey db = Some (None, if codec_at db 0 is Some _ then 1 else 0).
Proof.
  intros Hwf H0. destruct (get_pager_Some db 0 H0) as (main & Hmain).
  unfold sqlite3CodecGetKey, codec_at, mySqlite3PagerGetCodec. rewrite Hmain. cbn [mbind option_bind].
  destruct (pCodec main) as [q|] eqn:Hq; [|done]. cbn [mbind option_bind].
  destruct (inv_codec _ _ Hwf 0%nat main q Hmain Hq) as (mc & -> & _ & He & _). cbn [mbind option_bind].
  by rewrite He.
Qed.

Lemma dbFindIndex_lt db zDbName : (0 < length (aDb db))%nat → (dbFindIndex db zDbName < length (aDb db))%nat.
Proof.
  intros H0. unfold dbFindIndex. destruct zDbName as [zDb|]; [|done].
  destruct (list_find _ _) as [[i d]|] eqn:Hf; [|done]. cbn.
  apply list_find_Some in Hf as (Hi & _). by apply lookup_lt_Some in Hi.
Qed.

(** ** Properties *)

(** C38: attaching a key to a database: it never fails, keeps the invariant of the
    connection and touches no other database. With a key the codec loads and
    stores with the key of the password; without one the database gets copies of
    the keys of the main database where the code asks for them, and otherwise
    keeps what it has. *)
Theorem sqlite3CodecAttach_spec garbage db i zKey nKey :
  codec_obj ct garbage → conn_wf ct db → (i < length (aDb db))%nat → key_arg zKey nKey →
  ∃ db', sqlite3CodecAttach ct garbage db i zKey nKey = Some (SQLITE_OK, db') ∧
    conn_wf ct db' ∧ same_elsewhere i db db' ∧ attached db i zKey nKey (codec_at db' i).
Proof.
  intros Hg Hwf Hi Harg.
  destruct (proj1 (ensures_exists _ _) (sqlite3CodecAttach_ensures garbage db i zKey nKey Hg Hwf Hi Harg))
    as ([rc db'] & Heq & -> & ?). eauto.
Qed.

(** ATTACH: a KEY clause with a password keys the new database with it, one
    with an empty password leaves it unencrypted, and without the clause the new
    database is encrypted exactly when the main one is, with the same keys. *)
Theorem attach_key_spec garbage db optimalReserve key :
  codec_obj ct garbage → conn_wf ct db → (2 ≤ length (aDb db))%nat →
  (∀ pw, key = Some pw → bytes_ok pw) →
  let i := (length (aDb db) - 1)%nat in
  ∃ db', attach_key ct garbage db optimalReserve key = Some (SQLITE_OK, db') ∧
    conn_wf ct db' ∧ same_elsewhere i db db' ∧
    match key with
    | Some [] => codec_at db' i = codec_at db i
    | Some pw => ∃ codec, codec_at db' i = Some codec ∧
        has_keys (password_key ct pw) (Some (password_key ct pw)) codec
    | None =>
        match codec_at db 0 with
        | Some main => ∃ codec, codec_at db' i = Some codec ∧ has_keys (m_readKey main) (store_key main 6) codec
        | None => codec_at db' i = codec_at db i
        end
    end.
Proof.
  intros Hg Hwf Hlen Hkey i.
  assert (∀ zKey nKey, key_arg zKey nKey → ∃ db',
    sqlite3CodecAttach ct garbage db i zKey nKey = Some (SQLITE_OK, db') ∧ conn_wf ct db' ∧
    same_elsewhere i db db' ∧ attached db i zKey nKey (codec_at db' i)) as Hattach.
  { intros zKey nKey Harg. assert (i < length (aDb db))%nat as Hi by lia.
    destruct (proj1 (ensures_exists _ _) (sqlite3CodecAttach_ensures garbage db i zKey nKey Hg Hwf Hi Harg))
      as ([rc db'] & Heq & -> & ?). eauto. }
  unfold attach_key. destruct key as [pw|].
  - destruct (Hattach (Some pw) (Z.of_nat (length pw))) as (db' & Heq & Hwf' & Hs & Hat).
    { intros pw' [= <-]. by split; [apply Hkey|]. }
    exists db'. split_and!; try done. unfold attached in Hat. destruct pw as [|x pw]; [|done].
    cbn [password] in Hat. destruct (codec_at db 0); [|done]. by rewrite decide_False in Hat by (intros [_ ?]; done).
  - rewrite sqlite3CodecGetKey_spec by (done || lia). cbn [mbind option_bind].
    assert (∀ nKey, key_arg None nKey) as Hnone by (intros nKey pw; done).
    unfold attached in Hattach. destruct (codec_at db 0) as [main|] eqn:H0.
    + cbn [Z.eqb negb orb]. destruct (Hattach None 1 (Hnone 1)) as (db' & Heq & Hwf' & Hs & Hat).
      cbn [password] in Hat. rewrite decide_True in Hat by lia. eauto.
    + cbn [Z.eqb negb orb]. destruct (0 <? optimalReserve); [|by exists db].
      destruct (Hattach None 0 (Hnone 0)) as (db' & Heq & Hwf' & Hs & Hat). eauto.
Qed.

(** attaching without a key to the main database, or with a key length that is
    not positive, leaks the codec that the function allocates: the pagers are
    the same and the heap has one more object, which no pager owns. *)
Theorem sqlite3CodecAttach_leak garbage db i zKey nKey :
  conn_wf ct db → nKey ≤ 0 ∨ i = 0%nat ∧ zKey = None →
  ∃ p codec, get_codec db p = None ∧ unowned p db ∧
    sqlite3CodecAttach ct garbage db i zKey nKey
    = Some (SQLITE_OK, mkConn (<[p := codec]> (codecs db)) (aDb db)).
Proof.
  intros Hwf Hcase. unfold sqlite3CodecAttach.
  destruct (new_codec_put garbage db) as (p & -> & Hp).
  exists p, (CodecInit garbage (m_aes garbage)). split_and!; [done|by eapply unowned_fresh|].
  assert (no_key zKey || (nKey <=? 0) = true) as ->.
  { destruct Hcase as [Hn | [_ ->]]; [|done]. rewrite (proj2 (Z.leb_le nKey 0)) by done. apply orb_true_r. }
  assert (negb (i =? 0)%nat && (0 <? nKey) = false) as ->; [|done].
  destruct Hcase as [Hn | [-> _]]; [|done]. rewrite (proj2 (Z.ltb_ge 0 nKey)) by done. apply andb_false_r.
Qed.
End keys.


#[local] Opaque CodecEncrypt CodecDecrypt CodecGenerateEncryptionKey password_key sealed.

Section rekey.
Context `{Machine} (ct : codec_type).
Implicit Types (db : sqlite3) (i j : nat) (p q : positive) (codec garbage : Codec nat) (pw : list Z).
Implicit Types (old : option (Codec nat)).

(** During the call the codec of database [i] may lack a read key. *)
Definition rekeying i j codec : Prop :=
  if decide (j = i) then codec_obj ct codec ∧ m_bt codec = Some i else codec_ready ct j codec.

(** The codec during the transaction: it loads with the old key, if there was
    one, and stores with the new one, if there is one. *)
Definition rekey_codec old (new : option (list Z)) i codec : Prop :=
  codec_obj ct codec ∧ CodecIsEncrypted codec = true ∧ m_bt codec = Some i ∧
  match old with
  | Some o => CodecHasReadKey codec = true ∧ m_readKey codec = m_readKey o
  | None => CodecHasReadKey codec = false
  end ∧
  store_key codec 6 = (password_key ct <$> new) ∧ (old = None → is_Some new).

(** The codec after the call. *)
Definition rekeyed old (new : option (list Z)) (rc : Z) (codec' : option (Codec nat)) : Prop :=
  if rc =? SQLITE_OK
  then
    match new with
    | Some pw => ∃ codec, codec' = Some codec ∧ has_keys (password_key ct pw) (Some (password_key ct pw)) codec
    | None => codec' = None
    end
  else
    match old with
    | Some o => ∃ codec, codec' = Some codec ∧ has_keys (m_readKey o) ((λ _, m_readKey o) <$> new) codec
    | None => codec' = None
    end.

Lemma codec_at_inv R db i codec :
  conn_inv R db → codec_at db i = Some codec →
  ∃ pager p, get_pager db i = Some pager ∧ pCodec pager = Some p ∧ get_codec db p = Some codec ∧ R i codec.
Proof.
  intros Hinv Hat. unfold codec_at in Hat.
  destruct (get_pager db i) as [pager|] eqn:Hi; [|done]. cbn in Hat.
  destruct (pCodec pager) as [p|] eqn:Hp; [|done]. cbn in Hat.
  destruct (inv_codec _ _ Hinv i pager p Hi Hp) as (c & Hc & HR).
  exists pager, p. by assert (c = codec) as -> by congruence.
Qed.

Lemma has_keys_GenWrite codec pw :
  codec_obj ct codec → bytes_ok pw →
  CodecGenerateWriteKey ct codec pw (Z.of_nat (length pw)) = set_writeKey codec (password_key ct pw).
Proof. intros Hobj Hpw. unfold CodecGenerateWriteKey. by rewrite GenerateKey_eq. Qed.

Lemma rekeying_ready i j codec : j ≠ i → codec_ready ct j codec → rekeying i j codec.
Proof. intros Hj Hr. unfold rekeying. by rewrite decide_False. Qed.

Lemma ready_rekeying i j codec : j ≠ i → rekeying i j codec → codec_ready ct j codec.
Proof. intros Hj. unfold rekeying. by rewrite decide_False. Qed.

(** The three cases before the transaction. *)
Lemma rekey_setup_ensures garbage db i zKey nKey :
  codec_obj ct garbage → conn_wf ct db → (i < length (aDb db))%nat → key_arg zKey nKey →
  ensures (rekey_setup ct garbage db i zKey nKey) (λ '(pc, db1),
    match pc with
    | None => db1 = db ∧ password zKey = None ∧ codec_at db i = None
    | Some p => ∃ codec, get_codec db1 p = Some codec ∧ (pager ← get_pager db1 i; pCodec pager) = Some p ∧
        conn_inv (rekeying i) db1 ∧ same_elsewhere i db db1 ∧ rekey_codec (codec_at db i) (password zKey) i codec
    end).
Proof.
  intros Hg Hwf Hi Harg. destruct (get_pager_Some db i Hi) as (pager & Hpager).
  unfold rekey_setup, mySqlite3PagerGetCodec. rewrite Hpager, (password_test _ _ Harg). cbn [mbind option_bind].
  destruct (codec_at db i) as [old|] eqn:Hat.
  - destruct (codec_at_inv _ _ _ _ Hwf Hat) as (pager' & p & Hp' & Hp & Hc & (Hobj & He & Hr & Hb)).
    assert (pager' = pager) as -> by congruence. rewrite Hp. cbn [mbind option_bind].
    rewrite Hc. cbn [mbind option_bind]. rewrite He. cbn [negb].
    rewrite andb_false_r. cbn [mbind option_bind].
    (* both remaining cases replace the codec at [p] *)
    assert (∀ codec, rekey_codec (Some old) (password zKey) i codec → ∃ c,
      get_codec (put p codec db) p = Some c ∧
      (pager ← get_pager (put p codec db) i; pCodec pager) = Some p ∧
      conn_inv (rekeying i) (put p codec db) ∧ same_elsewhere i db (put p codec db) ∧
      rekey_codec (Some old) (password zKey) i c) as Hput.
    { intros codec Hrk. exists codec. pose proof Hrk as (Ho & _ & Hb' & _).
      destruct (put_owned (codec_ready ct) (rekeying i) i pager p codec db Hwf Hpager Hp) as (Hinv & _ & Hs).
      - intros j c. apply rekeying_ready.
      - unfold rekeying. by rewrite decide_True.
      - split_and!; [apply get_put| |done|by split|done].
        change (get_pager (put p codec db) i) with (get_pager db i). by rewrite Hpager. }
    destruct (password zKey) as [pw|] eqn:Hpw; case_bool_decide as Hnone; try done.
    + destruct (password_Some _ _ _ Harg Hpw) as (-> & Hok & -> & _). cbn [key_bytes default]. unfold id.
      rewrite (upd_codec_eq _ _ old) by done. cbn [mbind option_bind].
      rewrite upd_put. cbn [mbind option_bind ensures]. rewrite has_keys_GenWrite by done.
      apply Hput. split_and!; try done.
      apply (codec_obj_flags ct (set_writeKey old (password_key ct pw))); try done.
      apply codec_obj_set_writeKey; [done|by apply password_key_ok].
    + rewrite (upd_codec_eq _ _ old) by done. cbn [mbind option_bind ensures].
      apply Hput. split_and!; try done. by apply (codec_obj_flags ct old).
  - assert (pCodec pager = None) as Hp.
    { destruct (pCodec pager) as [p|] eqn:Hp; [|done].
      destruct (inv_codec _ _ Hwf i pager p Hpager Hp) as (c & Hc & _).
      unfold codec_at in Hat. rewrite Hpager in Hat. cbn in Hat. rewrite Hp in Hat. cbn in Hat. congruence. }
    rewrite Hp. cbn [mbind option_bind negb]. rewrite andb_true_r.
    destruct (password zKey) as [pw|] eqn:Hpw; case_bool_decide as Hnone; try done.
    destruct (password_Some _ _ _ Harg Hpw) as (-> & Hok & -> & _). cbn [key_bytes default]. unfold id.
    destruct (new_codec_put garbage db) as (p & -> & Hfree). apply CodecInit_obj in Hg.
    set (codec0 := CodecInit garbage (m_aes garbage)) in *.
    pose proof (unowned_fresh _ p db Hwf Hfree) as Hun.
    rewrite upd_put. cbn [mbind option_bind]. rewrite upd_put. cbn [mbind option_bind].
    rewrite upd_put. cbn [mbind option_bind]. rewrite upd_put. cbn [mbind option_bind].
    rewrite upd_put. cbn [mbind option_bind].
    rewrite has_keys_GenWrite by (try done; by apply (codec_obj_flags ct codec0)).
    set (codec1 := CodecSetBtree _ _).
    assert (codec_obj ct codec1) as Hobj1.
    { apply (codec_obj_flags ct (set_writeKey codec0 (password_key ct pw))); try done.
      apply codec_obj_set_writeKey; [done|by apply password_key_ok]. }
    eapply ensures_bind.
    + apply (install (codec_ready ct) (rekeying i) i p codec1); try done.
      * intros j c. apply rekeying_ready.
      * unfold rekeying. by rewrite decide_True.
    + intros db' (Hinv & Hat' & Hs & Hpc). cbn [ensures].
      destruct (codec_at_inv _ _ _ _ Hinv Hat') as (pager' & p' & Hpg' & Hp' & Hc' & _).
      rewrite Hpg' in Hpc. cbn in Hpc. assert (p' = p) as -> by congruence.
      exists codec1. rewrite Hpg'. cbn. split_and!; done.
Qed.

Lemma store_key_None codec : store_key codec 6 = None ↔ CodecHasWriteKey codec = false.
Proof. unfold store_key. cbn [Z.eqb Pos.eqb]. by destruct (CodecHasWriteKey codec). Qed.

Lemma store_key_Some codec key :
  store_key codec 6 = Some key ↔ CodecHasWriteKey codec = true ∧ m_writeKey codec = key.
Proof.
  unfold store_key. cbn [Z.eqb Pos.eqb]. destruct (CodecHasWriteKey codec); [|naive_solver].
  split; [by intros [= <-]|]. by intros [_ ->].
Qed.

(** The codec after [rekey_finish]: removed, or ready with its keys. *)
Lemma rekey_finish_spec old new i rc codec :
  rekey_codec old new i codec →
  let codec' := rekey_finish ct rc codec in
  codec_obj ct codec' ∧ m_bt codec' = Some i ∧
  (CodecIsEncrypted codec' = true → codec_ready ct i codec') ∧
  rekeyed old new rc (if CodecIsEncrypted codec' then Some codec' else None).
Proof.
  intros (Hobj & He & Hb & Hold & Hstore & Hnew) codec'. unfold codec', rekey_finish, rekeyed.
  pose proof Hobj as [[_ Hrk Hwk] _].
  destruct (rc =? SQLITE_OK).
  - destruct new as [pw|]; cbn [fmap option_fmap option_map] in Hstore.
    + apply store_key_Some in Hstore as [Hw Hkey]. rewrite Hw, CodecCopyKey_read by done.
      set (codec2 := CodecSetHasReadKey (set_readKey codec (m_writeKey codec)) 1).
      assert (codec_obj ct codec2) as Hobj'.
      { apply (codec_obj_flags ct (set_readKey codec (m_writeKey codec))); try done.
        by apply codec_obj_set_readKey. }
      assert (CodecIsEncrypted codec2 = true) as He' by done. rewrite He'.
      split_and!; try done. exists codec2. split; [done|]. split_and!; try done.
      by apply store_key_Some.
    + apply store_key_None in Hstore as ->. split_and!; try done.
      by apply (codec_obj_flags ct codec).
  - destruct old as [o|].
    + destruct Hold as [Hr Hread]. rewrite Hr, CodecCopyKey_write by done.
      set (codec2 := set_writeKey codec (m_readKey codec)).
      assert (codec_obj ct codec2) as Hobj' by (by apply codec_obj_set_writeKey).
      assert (CodecIsEncrypted codec2 = true) as He' by done. rewrite He'.
      split_and!; try done. exists codec2. split; [done|]. split_and!; try done.
      destruct new as [pw|]; cbn [fmap option_fmap option_map] in Hstore |- *.
      * apply store_key_Some in Hstore as [Hw _]. apply store_key_Some. done.
      * apply store_key_None in Hstore. by apply store_key_None.
    + rewrite Hold. split_and!; try done. by apply (codec_obj_flags ct codec).
Qed.

Section pager.
Context {W : Type} `{!PagerOps W}.
Implicit Types w : W.

(** The whole call. *)
Definition rekey_result db zDbName zKey w (res : Z * sqlite3 * W) : Prop :=
  let i := dbFindIndex db zDbName in
  let '(rc, db', w') := res in
  conn_wf ct db' ∧ same_elsewhere i db db' ∧
  (password zKey = None ∧ codec_at db i = None ∧ (rc, db', w') = (SQLITE_OK, db, w) ∨
   ∃ codec, rekey_codec (codec_at db i) (password zKey) i codec ∧
     rekey_trans i (Some codec) w = (rc, w') ∧
     rekeyed (codec_at db i) (password zKey) rc (codec_at db' i)).

Lemma sqlite3_rekey_v2_ensures garbage db zDbName zKey nKey w :
  codec_obj ct garbage → conn_wf ct db → (0 < length (aDb db))%nat → key_arg zKey nKey →
  ensures (sqlite3_rekey_v2 ct garbage db zDbName zKey nKey w) (rekey_result db zDbName zKey w).
Proof.
  intros Hg Hwf Hlen Harg. unfold sqlite3_rekey_v2, rekey_result.
  set (i := dbFindIndex db zDbName).
  assert (i < length (aDb db))%nat as Hi by (by apply dbFindIndex_lt).
  eapply ensures_bind; [by apply (rekey_setup_ensures garbage db i zKey nKey)|].
  intros [[p|] db1]; [|by intros (-> & ? & ?); cbn [ensures]; split_and!; auto].
  intros (codec & Hc & Hpc & Hinv & Hs & Hrk). rewrite Hc. cbn [mbind option_bind].
  destruct (rekey_trans i (Some codec) w) as [rc w'] eqn:Htrans.
  destruct (rekey_finish_spec _ _ _ rc _ Hrk) as (Hobj & Hb & Hready & Hkeys).
  set (codec2 := rekey_finish ct rc codec) in *.
  rewrite (upd_codec_eq _ _ codec) by done. cbn [mbind option_bind]. fold codec2.
  rewrite get_put. cbn [mbind option_bind].
  destruct (get_pager db1 i) as [pager|] eqn:Hpager; [|done]. cbn in Hpc.
  destruct (CodecIsEncrypted codec2) eqn:He.
  - destruct (put_owned (rekeying i) (codec_ready ct) i pager p codec2 db1 Hinv Hpager Hpc) as (Hwf' & Hat & Hs').
    + intros j c. apply ready_rekeying.
    + by apply Hready.
    + cbn [ensures]. split_and!; [done|by etrans; [|split]|]. right. exists codec. by rewrite Hat.
  - destruct (put_owned (rekeying i) (rekeying i) i pager p codec2 db1 Hinv Hpager Hpc) as (Hinv2 & _ & Hs').
    + done.
    + unfold rekeying. by rewrite decide_True.
    + eapply ensures_bind.
      * apply (PagerSetCodec_spec (rekeying i) (codec_ready ct) i None None (put p codec2 db1)); try done.
        -- by apply (get_pager_lt (put p codec2 db1) i pager).
        -- intros j c. apply ready_rekeying.
      * intros db' (Hwf' & Hat & Hs2 & _). cbn [ensures]. split_and!; [done| |].
        -- etrans; [done|]. etrans; [|done]. by split.
        -- right. exists codec. by rewrite Hat.
Qed.

(** C28: changing the key, for every behaviour of the pager: the call returns and
    never touches a freed codec; it keeps the invariant and the other databases.
    If it succeeds the database loads and stores with the new key, or has no codec
    when there is none; if it fails the old key is restored for loading, and for
    storing when a new key was given. Without a key, on a database without a
    codec, nothing happens. *)
Theorem sqlite3_rekey_v2_spec garbage db zDbName zKey nKey w :
  codec_obj ct garbage → conn_wf ct db → (0 < length (aDb db))%nat → key_arg zKey nKey →
  let i := dbFindIndex db zDbName in
  ∃ rc db' w', sqlite3_rekey_v2 ct garbage db zDbName zKey nKey w = Some (rc, db', w') ∧
    conn_wf ct db' ∧ same_elsewhere i db db' ∧
    (password zKey = None ∧ codec_at db i = None ∧ rc = SQLITE_OK ∧ db' = db ∧ w' = w ∨
     rekeyed (codec_at db i) (password zKey) rc (codec_at db' i)).
Proof.
  intros Hg Hwf Hlen Harg i.
  destruct (proj1 (ensures_exists _ _) (sqlite3_rekey_v2_ensures garbage db zDbName zKey nKey w Hg Hwf Hlen Harg))
    as ([[rc db'] w'] & Heq & Hwf' & Hs & Hres).
  exists rc, db', w'. split_and!; try done.
  destruct Hres as [(? & ? & Hid) | (codec & _ & _ & ?)]; [|by right].
  left. apply pair_equal_spec in Hid as [Hid ->]. by apply pair_equal_spec in Hid as [-> ->].
Qed.

(** C40: a failed decryption leaves the database writing plain pages: when the call
    without a key fails on an encrypted database, its codec still decrypts every
    page it loads, but the callback returns the caller's plain page for the
    database file (mode 6), because the write key has been dropped and is not
    restored. *)
Theorem rekey_failed_decrypt garbage db zDbName w rc db' w' ps mem d page :
  codec_obj ct garbage → conn_wf ct db → (0 < length (aDb db))%nat →
  is_Some (codec_at db (dbFindIndex db zDbName)) →
  sqlite3_rekey_v2 ct garbage db zDbName None 0 w = Some (rc, db', w') → rc ≠ SQLITE_OK →
  ∃ codec, codec_at db' (dbFindIndex db zDbName) = Some codec ∧
    CodecIsEncrypted codec = true ∧ CodecHasReadKey codec = true ∧
    sqlite3Codec ct ps (Some codec) mem d page 6 = (Some codec, mem, Data).
Proof.
  intros Hg Hwf Hlen [o Ho] Heq Hrc.
  assert (key_arg None 0) as Harg by (intros pw; done).
  pose proof (sqlite3_rekey_v2_ensures garbage db zDbName None 0 w Hg Hwf Hlen Harg) as Hens.
  rewrite Heq in Hens. destruct Hens as (_ & _ & [(_ & Hnone & _) | (codec & _ & _ & Hres)]); [congruence|].
  rewrite Ho in Hres. unfold rekeyed in Hres. rewrite (proj2 (Z.eqb_neq _ _)) in Hres by done.
  destruct Hres as (codec' & Hat & He & Hr & _ & Hs). exists codec'. split_and!; try done.
  apply store_key_None in Hs. unfold sqlite3Codec. rewrite He. cbn [negb Z.eqb Pos.eqb orb]. by rewrite Hs.
Qed.
End pager.
End rekey.
