(* ===== verification/CodecExtFile.v ===== *)
(** * The database file when its key changes

    What the pager promises to [sqlite3_rekey_v2], as an interface, and what the
    call then does to the pages of the file. *)
From stdpp Require Import gmap strings.
From S2P Require Import Prelude Words HashBase Varint VarintProofs RijndaelTables Rijndael RijndaelApi RijndaelKey RijndaelBlock MD5 RC4 Sha2 Codec CodecProofs CodecPage CodecExt CodecExtCallback CodecExtKeys.
Local Open Scope Z_scope.

#[local] Opaque CodecEncrypt CodecDecrypt CodecGenerateEncryptionKey password_key sealed.

(** ** Pages through the callback *)

Section pages.
Context `{Machine} (ct : codec_type).

(** The page sizes, in blocks, of the databases of a connection. *)
Definition page_bytes (psize : nat → nat) (bt : option nat) : Z :=
  from_option (λ i, 16 * Z.of_nat (psize i)) 0 bt.

(** A page read from the file (mode 3) and a page on its way to it (mode 6). *)
Definition load psize (codec : option (Codec nat)) (n : Z) (image : list Z) : list Z :=
  snd (fst (sqlite3Codec ct (page_bytes psize) codec image 0 n 3)).
Definition store psize (codec : option (Codec nat)) (n : Z) (page : list Z) : list Z :=
  returned (sqlite3Codec ct (page_bytes psize) codec page 0 n 6) 0 (length page).
End pages.

(** ** What the pager and the b-tree write into page 1 on their own *)

Section page1.
Context `{Machine}.

Definition SQLITE_VERSION_NUMBER : Z := 3015002.

(** [put32bits(&page[off], v)]. *)
Definition put32bits (has_bswap : bool) (page : list Z) (off : nat) (v : Z) : option (list Z) :=
  p ← sqlite3Put4byte has_bswap (drop off page) v; Some (take off page ++ p).

(** The argument [dbFileVers] is the field of the pager: bytes 24 to 39 of the
    file as last read or written. *)
Definition pager_write_changecounter (has_bswap : bool) (dbFileVers pData : list Z) : option (list Z) :=
  v ← sqlite3Get4byte has_bswap dbFileVers;
  let change_counter := u32 (v + 1) in
  pData ← put32bits has_bswap pData 24 change_counter;
  pData ← put32bits has_bswap pData 92 change_counter;
  put32bits has_bswap pData 96 SQLITE_VERSION_NUMBER.

(** A page in the cache, and what it may become without a write of the client:
    page 1 gets a new change counter when it is written to the file or the log
    ([pager_write_pagelist], [pagerWalFrames]) and at a commit
    ([pager_incr_changecounter]), and the size of the database when a
    transaction begins ([sqlite3BtreeBeginTrans]). *)
Inductive edited : Z → list Z → list Z → Prop :=
| edit_none n p : edited n p p
| edit_counter has_bswap dbFileVers p q q' :
    edited 1 p q → pager_write_changecounter has_bswap dbFileVers q = Some q' → edited 1 p q'
| edit_size has_bswap nPage p q q' :
    edited 1 p q → uint 32 nPage → put32bits has_bswap q 28 nPage = Some q' → edited 1 p q'.

(** The same page but for the bytes that hold change counter, size of the
    database and version number in page 1. *)
Definition same_page (n : Z) (p q : list Z) : Prop :=
  length q = length p ∧
  ∀ k : nat, ¬ (n = 1 ∧ ((24 ≤ k < 32)%nat ∨ (92 ≤ k < 100)%nat)) → q !! k = p !! k.

#[global] Instance same_page_preorder n : PreOrder (same_page n).
Proof.
  split; [by split|]. intros p q r [Hl Hk] [Hl' Hk']. split; [congruence|].
  intros k Hn. by rewrite Hk', Hk.
Qed.

Lemma put32bits_same b off p v q :
  uint 32 v → bytes_ok p → (24 ≤ off ≤ 28)%nat ∨ (92 ≤ off ≤ 96)%nat →
  put32bits b p off v = Some q → bytes_ok q ∧ same_page 1 p q.
Proof.
  intros Hv Hp Hoff Heq. unfold put32bits in Heq. rewrite put4byte_spec in Heq by done.
  destruct (Nat.leb_spec 4 (length (drop off p))) as [Hl|]; [|done]. cbn [mbind option_bind] in Heq.
  apply (inj Some) in Heq as <-. rewrite length_drop in Hl. rewrite drop_drop. split.
  - apply Forall_app_2; [by apply Forall_take|]. apply Forall_app_2; [apply be_bytes_ok|by apply Forall_drop].
  - pose proof (length_be_bytes 4 v) as Hb.
    split; [rewrite !length_app, length_take, length_drop, Hb; lia|].
    intros k Hk. destruct (decide (k < off)%nat) as [Hlt|Hge].
    + rewrite lookup_app_l by (rewrite length_take; lia). by apply lookup_take_lt.
    + destruct (decide (k < off + 4)%nat); [exfalso; apply Hk; split; [done|lia]|].
      rewrite lookup_app_r; rewrite length_take_le by lia; [|lia].
      rewrite lookup_app_r; rewrite Hb; [|lia]. rewrite lookup_drop. f_equal. lia.
Qed.

Lemma edited_same n p q : edited n p q → bytes_ok p → bytes_ok q ∧ same_page n p q.
Proof.
  induction 1 as [n p | b v p q q' _ IH Heq | b v p q q' _ IH Hv Heq]; intros Hp; [by split| |].
  - destruct (IH Hp) as [Hq Hs]. unfold pager_write_changecounter in Heq.
    destruct (sqlite3Get4byte b v) as [v0|]; [|done]. cbn [mbind option_bind] in Heq.
    destruct (put32bits b q 24 _) as [q1|] eqn:E1; [|done]. cbn [mbind option_bind] in Heq.
    destruct (put32bits b q1 92 _) as [q2|] eqn:E2; [|done]. cbn [mbind option_bind] in Heq.
    assert (uint 32 (u32 (v0 + 1))) as Hu by (unfold u32, uint; apply Z.mod_pos_bound; lia).
    destruct (put32bits_same _ 24 _ _ _ Hu Hq ltac:(lia) E1) as [Hq1 S1].
    destruct (put32bits_same _ 92 _ _ _ Hu Hq1 ltac:(lia) E2) as [Hq2 S2].
    assert (uint 32 SQLITE_VERSION_NUMBER) as Hv by done.
    destruct (put32bits_same _ 96 _ _ _ Hv Hq2 ltac:(lia) Heq) as [Hq3 S3].
    split; [done|]. by rewrite Hs, S1, S2.
  - destruct (IH Hp) as [Hq Hs]. destruct (put32bits_same _ 28 _ _ _ Hv Hq ltac:(lia) Heq) as [Hq' S].
    split; [done|]. by rewrite Hs.
Qed.

#[global] Instance edited_trans n : Transitive (edited n).
Proof.
  intros p q r Hpq Hqr. revert Hpq. induction Hqr; intros Hpq; [done| |].
  - eapply edit_counter; [by apply IHHqr|done].
  - eapply edit_size; [by apply IHHqr|done..].
Qed.

Lemma edited_page_ok n p q : edited n p q → page_ok n p → page_ok n q.
Proof.
  intros He [Hp H1]. destruct (edited_same _ _ _ He Hp) as [Hq [Hl Hk]]. split; [done|]. intros Hn.
  assert (take 24 q = take 24 p) as E.
  { apply list_eq. intros k. destruct (decide (k < 24)%nat).
    - rewrite !lookup_take_lt by done. apply Hk. lia.
    - by rewrite !lookup_take_ge by lia. }
  destruct (H1 Hn) as [H16 Hh]. split.
  - rewrite <-H16. change 16%nat with (16 `min` 24)%nat. by rewrite <-!take_take, E.
  - replace (take 8 (drop 16 q)) with (take 8 (drop 16 p)); [done|].
    rewrite !take_drop_commute. cbn. by rewrite E.
Qed.
End page1.

(** ** The promises of the pager *)

(** What a call may do to a page of the file [f] in a transaction: a page that has
    been written ([d]) stays so, with its contents but for the fields above; one
    that has not may be written along (all pages of a disk sector are), and then
    holds what the callback loads. *)
Definition kept `{Machine} (ct : codec_type) psize c (n : Z) (f f' : list Z) (d d' : option (list Z)) : Prop :=
  match d, d' with
  | None, None => f' = f
  | None, Some p' => edited n (load ct psize c n f) p'
  | Some p, Some p' => edited n p p'
  | Some _, None => False
  end.

(** Ghost state of the pager for database [i]: the pages of the file, the pages
    that a rollback restores, and the contents of the pages written in the
    transaction, which reach the file no later than the commit. [idle] says that
    no transaction is open. The laws are those of the code of [Pager] and
    [Btree], with the edits of page 1 that these make on their own. They are for
    a database that is not empty, and that is not reorganised at the commit
    (with auto_vacuum=FULL, pages are moved if there is a free list; it is empty
    after each commit in this mode). *)
Class PagerSpec `{Machine} (ct : codec_type) (W : Type) `{PagerOps W} := {
  psize : nat → nat;
  file : W → nat → Z → list Z;
  saved : W → nat → Z → list Z;
  dirty : W → nat → Z → option (list Z);
  idle : W → nat → Prop;
  spec_begin i c w rc w' :
    idle w i → 1 ≤ sqlite3PagerPagecount i w → sqlite3BtreeBeginTrans i c w = (rc, w') →
    sqlite3PagerPagecount i w' = sqlite3PagerPagecount i w ∧
    ∀ n, saved w' i n = file w i n ∧ kept ct psize c n (file w i n) (file w' i n) None (dirty w' i n);
  spec_pagesize i w : sqlite3BtreeGetPageSize i w = 16 * Z.of_nat (psize i);
  spec_get i n c w rc w' : sqlite3PagerGet i n c w = (rc, w') →
    ∀ m, saved w' i m = saved w i m ∧
         kept ct psize c m (file w i m) (file w' i m) (dirty w i m) (dirty w' i m);
  spec_write i n c w rc w' : sqlite3PagerWrite i n c w = (rc, w') →
    (∀ m, saved w' i m = saved w i m ∧
          kept ct psize c m (file w i m) (file w' i m) (dirty w i m) (dirty w' i m)) ∧
    (rc = SQLITE_OK → is_Some (dirty w' i n));
  spec_unref i n c w m :
    saved (sqlite3PagerUnref i n w) i m = saved w i m ∧
    kept ct psize c m (file w i m) (file (sqlite3PagerUnref i n w) i m)
      (dirty w i m) (dirty (sqlite3PagerUnref i n w) i m);
  spec_commit i c w rc w' : sqlite3BtreeCommit i c w = (rc, w') →
    (∀ m, saved w' i m = saved w i m) ∧
    (rc = SQLITE_OK → ∀ m,
       (dirty w i m = None ∧ file w' i m = file w i m) ∨
       ∃ p, edited m (default (load ct psize c m (file w i m)) (dirty w i m)) p ∧
            file w' i m = store ct psize c m p);
  spec_rollback i c w m : file (sqlite3BtreeRollback i c w) i m = saved w i m
}.

Section rekey.
Context `{Machine} (ct : codec_type) {W : Type} `{PagerOps W} `{!PagerSpec ct W}.
Implicit Types (w : W) (c : option (Codec nat)).

(** The state of a transaction over the pages: the pages written are as they were
    loaded, but for the fields above, and the others are as they were. *)
Definition rekey_state (w0 : W) (i : nat) c w : Prop :=
  ∀ m, saved w i m = file w0 i m ∧
       kept ct psize c m (file w0 i m) (file w i m) None (dirty w i m).

(** The state of the loop when page [n] is next: the pages before it, but for
    [nSkip], have been written. *)
Definition rekey_loop (w0 : W) (i : nat) c nSkip (n : Z) w : Prop :=
  rekey_state w0 i c w ∧ ∀ m, 1 ≤ m < n → m ≠ nSkip → is_Some (dirty w i m).

Lemma kept_trans c n f f' f'' (d d' : option (list Z)) :
  kept ct psize c n f f' None d → kept ct psize c n f' f'' d d' → kept ct psize c n f f'' None d'.
Proof.
  unfold kept. destruct d as [p|], d' as [p'|]; try done.
  - intros Hp Hp'. by etrans.
  - by intros ->.
  - by intros ->.
Qed.
Lemma kept_written c n f f' (d d' : option (list Z)) : kept ct psize c n f f' d d' → is_Some d → is_Some d'.
Proof. unfold kept. intros Hk [p ->]. by destruct d'. Qed.

(** A call that keeps the pages keeps the state of the loop. *)
Lemma rekey_loop_kept w0 i c nSkip n w w' :
  rekey_loop w0 i c nSkip n w →
  (∀ m, saved w' i m = saved w i m ∧ kept ct psize c m (file w i m) (file w' i m) (dirty w i m) (dirty w' i m)) →
  rekey_loop w0 i c nSkip n w'.
Proof.
  intros [Hs Hd] Hk. split.
  - intros m. destruct (Hs m) as [E K], (Hk m) as [E' K']. split; [congruence|by eapply kept_trans].
  - intros m Hm Hsk. destruct (Hk m) as [_ K']. by eapply kept_written; [|apply Hd].
Qed.

Lemma rekey_pages_spec w0 i c nSkip k n w rc w' :
  1 ≤ n → rekey_loop w0 i c nSkip n w → rekey_pages k i n nSkip c SQLITE_OK w = (rc, w') →
  (∀ m, saved w' i m = file w0 i m) ∧ (rc = SQLITE_OK → rekey_loop w0 i c nSkip (n + Z.of_nat k) w').
Proof.
  revert n w. induction k as [|k IH]; intros n w Hn Hloop Heq; cbn [rekey_pages] in Heq.
  { injection Heq as <- <-. rewrite Z.add_0_r. split; [apply Hloop|done]. }
  replace (n + Z.of_nat (S k)) with (n + 1 + Z.of_nat k) by lia.
  change (negb (SQLITE_OK =? SQLITE_OK)) with false in Heq. cbn iota in Heq.
  (* once the result is an error, the loop is over *)
  assert (∀ rc w1, rc ≠ SQLITE_OK → rekey_pages k i (n + 1) nSkip c rc w1 = (rc, w1)) as Hstop.
  { intros rc1 w1 Hrc. destruct k; [done|]. cbn [rekey_pages]. by rewrite (proj2 (Z.eqb_neq rc1 _)). }
  destruct (Z.eqb_spec n nSkip) as [-> | Hskip].
  { apply (IH (nSkip + 1) w); [lia| |done]. destruct Hloop as [Hs Hl]. split; [done|].
    intros m Hm Hne. apply Hl; [lia|done]. }
  destruct (sqlite3PagerGet i n c w) as [rc1 w1] eqn:Hget.
  apply (rekey_loop_kept _ _ _ _ _ _ w1) in Hloop; [|by eapply spec_get].
  destruct (Z.eqb_spec rc1 SQLITE_OK) as [-> | Hrc1].
  2: { rewrite Hstop in Heq by done. injection Heq as <- <-. split; [apply Hloop|done]. }
  destruct (sqlite3PagerWrite i n c w1) as [rc2 w2] eqn:Hwrite.
  destruct (spec_write _ _ _ _ _ _ Hwrite) as [Hk2 Hd2].
  apply (rekey_loop_kept _ _ _ _ _ _ w2) in Hloop; [|done].
  pose proof (rekey_loop_kept _ _ _ _ _ _ (sqlite3PagerUnref i n w2) Hloop
    (λ m, spec_unref i n c w2 m)) as Hloop'.
  destruct (Z.eq_dec rc2 SQLITE_OK) as [-> | Hrc2].
  2: { rewrite Hstop in Heq by done. injection Heq as <- <-. split; [apply Hloop'|done]. }
  apply (IH (n + 1) (sqlite3PagerUnref i n w2)); [lia| |done]. split; [apply Hloop'|].
  intros m Hm Hne. destruct (decide (m = n)) as [-> | Hmn]; [|apply Hloop'; [lia|done]].
  destruct (spec_unref i n c w2 n) as [_ K]. eapply kept_written; [done|by apply Hd2].
Qed.

(** The transaction: all pages stored as they were loaded, or none changed. *)
Lemma rekey_trans_spec i c w rc w' :
  idle w i → 1 ≤ sqlite3PagerPagecount i w → rekey_trans i c w = (rc, w') →
  if decide (rc = SQLITE_OK)
  then ∀ m, 1 ≤ m ≤ sqlite3PagerPagecount i w → m ≠ WX_PAGER_MJ_PGNO (16 * Z.of_nat (psize i)) →
       ∃ p, edited m (load ct psize c m (file w i m)) p ∧ file w' i m = store ct psize c m p
  else ∀ m, file w' i m = file w i m.
Proof.
  intros Hidle Hpos Heq. unfold rekey_trans in Heq.
  destruct (sqlite3BtreeBeginTrans i c w) as [rc1 w1] eqn:Hbegin.
  destruct (spec_begin _ _ _ _ _ Hidle Hpos Hbegin) as [Hcount Hk1].
  set (nSkip := WX_PAGER_MJ_PGNO (16 * Z.of_nat (psize i))) in *.
  set (count := sqlite3PagerPagecount i w) in *.
  (* after the loop *)
  assert (∃ rc2 w2, (if rc1 =? SQLITE_OK
      then rekey_pages (Z.to_nat (sqlite3PagerPagecount i w1)) i 1
             (WX_PAGER_MJ_PGNO (sqlite3BtreeGetPageSize i w1)) c rc1 w1
      else (rc1, w1)) = (rc2, w2) ∧ (∀ m, saved w2 i m = file w i m) ∧
      (rc2 = SQLITE_OK → rekey_loop w i c nSkip (1 + Z.of_nat (Z.to_nat count)) w2)) as (rc2 & w2 & Hrun & Hs2 & Hl2).
  { destruct (Z.eqb_spec rc1 SQLITE_OK) as [-> | Hrc1].
    - rewrite spec_pagesize, Hcount. fold nSkip.
      destruct (rekey_pages (Z.to_nat count) i 1 nSkip c SQLITE_OK w1) as [rc2 w2] eqn:Hp.
      exists rc2, w2. split; [reflexivity|]. apply (rekey_pages_spec w i c nSkip _ 1 w1); [lia| |done].
      split; [done|]. intros m Hm. lia.
    - eexists _, _. split; [done|]. split; [|done]. intros m. apply Hk1. }
  cbv zeta in Heq. rewrite Hrun in Heq.
  destruct (Z.eqb_spec rc2 SQLITE_OK) as [-> | Hrc2].
  - destruct (sqlite3BtreeCommit i c w2) as [rc3 w3] eqn:Hcommit.
    destruct (spec_commit _ _ _ _ _ Hcommit) as [Hs3 Hf3].
    destruct (Z.eqb_spec rc3 SQLITE_OK) as [-> | Hrc3]; injection Heq as <- <-.
    + rewrite decide_True by done. intros m Hm Hne. destruct (Hl2 eq_refl) as [Hst Hdirty].
      destruct (Hdirty m) as [p Hp]; [lia|done|]. destruct (Hst m) as [_ K]. rewrite Hp in K. cbn [kept] in K.
      destruct (Hf3 eq_refl m) as [[Hno _] | (q & Hq & ->)]; [congruence|].
      rewrite Hp in Hq. exists q. split; [by etrans|done].
    + rewrite decide_False by done. intros m. by rewrite spec_rollback, Hs3, Hs2.
  - rewrite (proj2 (Z.eqb_neq rc2 SQLITE_OK)) in Heq by done. injection Heq as <- <-.
    rewrite decide_False by done. intros m. by rewrite spec_rollback, Hs2.
Qed.

(** ** Loading and storing with the codecs of the call *)

Definition good_psize (n : nat) : Prop := (2 ≤ n)%nat ∧ 16 * Z.of_nat n ≤ SQLITE_MAX_PAGE_SIZE.

Lemma load_sealed codec i n p :
  codec_ready ct i codec → good_psize (psize i) → length p = (16 * psize i)%nat → page_ok n p →
  load ct psize (Some codec) n (sealed ct n (m_readKey codec) p) = p.
Proof.
  intros (Hobj & He & Hr & Hb) [Hn Hmax] Hlen Hok. unfold load.
  assert (length (sealed ct n (m_readKey codec) p) = (16 * psize i)%nat) as Hl by (by apply length_sealed).
  destruct (sqlite3Codec_load ct (page_bytes psize) codec (sealed ct n (m_readKey codec) p) 0 n 3 (psize i) p)
    as (codec' & ->); try done.
  - unfold page_blocks. by rewrite Hb.
  - right. by right.
  - apply sealed_ok with (psize i); [apply Hobj|apply Hok|done].
  - lia.
  - unfold region. rewrite drop_0, firstn_all2 by lia. done.
  - cbn [fst snd]. apply memcpy_all. lia.
Qed.

Lemma load_plain codec n p : CodecHasReadKey codec = false → load ct psize (Some codec) n p = p.
Proof.
  intros Hr. unfold load, sqlite3Codec. destruct (CodecIsEncrypted codec); [|done]. cbn. by rewrite Hr.
Qed.

Lemma store_sealed codec i n p key :
  codec_obj ct codec → CodecIsEncrypted codec = true → m_bt codec = Some i → good_psize (psize i) →
  length p = (16 * psize i)%nat → bytes_ok p → store_key codec 6 = Some key →
  store ct psize (Some codec) n p = sealed ct n key p.
Proof.
  intros Hobj He Hb [Hn Hmax] Hlen Hok Hkey. unfold store.
  destruct (sqlite3Codec_store ct (page_bytes psize) codec p 0 n 6 key (psize i))
    as (codec' & -> & _ & _ & Hreg); try done.
  - unfold page_blocks. by rewrite Hb.
  - lia.
  - cbn [returned]. rewrite Hlen, Hreg. unfold region. by rewrite drop_0, firstn_all2 by lia.
Qed.

Lemma store_plain codec n p : store_key codec 6 = None → store ct psize (Some codec) n p = p.
Proof.
  intros Hw%store_key_None. unfold store, sqlite3Codec.
  destruct (CodecIsEncrypted codec); cbn [negb Z.eqb Pos.eqb orb]; rewrite ?Hw; cbn [returned];
    unfold region; by rewrite drop_0, firstn_all.
Qed.

(** The page [p] in a file with this key, or without one. *)
Definition on_disk (key : option (list Z)) (n : Z) (p : list Z) : list Z :=
  match key with Some key => sealed ct n key p | None => p end.

(** What the codec of a call loads from a page stored with the old key, and how it
    stores it. *)
Lemma rekey_codec_load old new i codec n p :
  rekey_codec ct old new i codec → good_psize (psize i) → length p = (16 * psize i)%nat → page_ok n p →
  load ct psize (Some codec) n (on_disk (m_readKey <$> old) n p) = p.
Proof.
  intros (Hobj & He & Hb & Hold & _) Hsz Hlen Hok.
  destruct old as [o|]; cbn [on_disk fmap option_fmap option_map].
  - destruct Hold as [Hr <-]. by apply load_sealed with i.
  - by apply load_plain.
Qed.
Lemma rekey_codec_store old new i codec n p :
  rekey_codec ct old new i codec → good_psize (psize i) → length p = (16 * psize i)%nat → page_ok n p →
  store ct psize (Some codec) n p = on_disk (password_key ct <$> new) n p.
Proof.
  intros (Hobj & He & Hb & _ & Hstore & _) Hsz Hlen Hok.
  destruct new as [pw|]; cbn [on_disk fmap option_fmap option_map] in *.
  - apply store_sealed with i; try done. apply Hok.
  - by apply store_plain.
Qed.

(** C1: changing the key keeps the data: if the pages of a database that is not
    empty are those of a database in SQLite's format, stored with the old key or
    plain, then after a successful call every page but the one that is never
    used (the lock page) is stored with the new key, or plain if there is none,
    and loads with the codec that the database has then as it did before; page 1
    is the same but for the change counter, the size of the database and the
    version number (bytes 24 to 31 and 92 to 99), which the pager and the b-tree
    write on their own. After a failed call the file is as it was. The pager is
    any that keeps its promises. *)
Theorem rekey_keeps_pages garbage db zDbName zKey nKey w (plain : Z → list Z) :
  codec_obj ct garbage → conn_wf ct db → (0 < length (aDb db))%nat → key_arg zKey nKey →
  let i := dbFindIndex db zDbName in
  let nSkip := WX_PAGER_MJ_PGNO (16 * Z.of_nat (psize i)) in
  let inside n := 1 ≤ n ≤ sqlite3PagerPagecount i w ∧ n ≠ nSkip in
  idle w i → 1 ≤ sqlite3PagerPagecount i w → good_psize (psize i) →
  (∀ n, inside n → length (plain n) = (16 * psize i)%nat ∧ page_ok n (plain n) ∧
     file w i n = on_disk (m_readKey <$> codec_at db i) n (plain n)) →
  ∃ rc db' w', sqlite3_rekey_v2 ct garbage db zDbName zKey nKey w = Some (rc, db', w') ∧
    (rc = SQLITE_OK → ∀ n, inside n → ∃ p, same_page n (plain n) p ∧ page_ok n p ∧
       file w' i n = on_disk (password_key ct <$> password zKey) n p ∧
       load ct psize (codec_at db' i) n (file w' i n) = p) ∧
    (rc ≠ SQLITE_OK → ∀ n, file w' i n = file w i n).
Proof.
  intros Hg Hwf Hlen Harg i nSkip inside Hidle Hpos Hsz Hplain.
  destruct (proj1 (ensures_exists _ _) (sqlite3_rekey_v2_ensures ct garbage db zDbName zKey nKey w Hg Hwf Hlen Harg))
    as ([[rc db'] w'] & Heq & Hwf' & _ & Hres).
  exists rc, db', w'. split; [done|]. fold i in Hres.
  destruct Hres as [(Hpw & Hat & Hid) | (codec & Hrk & Htrans & Hkeys)].
  { apply pair_equal_spec in Hid as [Hid ->]. apply pair_equal_spec in Hid as [-> ->].
    split; [|done]. intros _ n Hin. destruct (Hplain n Hin) as (_ & Hok & ->).
    exists (plain n). rewrite Hpw, Hat. done. }
  pose proof (rekey_trans_spec _ _ _ _ _ Hidle Hpos Htrans) as Hfile.
  destruct (decide (rc = SQLITE_OK)) as [-> | Hrc]; [split; [|done]|split; [done|auto]].
  intros _ n Hin. destruct (Hplain n Hin) as (Hl & Hok & Hf).
  destruct (Hfile n) as (p & Hed & Hst); [apply Hin..|]. rewrite Hf in Hed.
  rewrite (rekey_codec_load _ _ _ _ _ _ Hrk Hsz Hl Hok) in Hed.
  destruct (edited_same _ _ _ Hed (proj1 Hok)) as [_ Hsame].
  pose proof (edited_page_ok _ _ _ Hed Hok) as Hok'.
  assert (length p = (16 * psize i)%nat) as Hl' by (rewrite <-Hl; apply Hsame).
  exists p. split; [done|]. split; [done|].
  rewrite (rekey_codec_store _ _ _ _ _ _ Hrk Hsz Hl' Hok') in Hst.
  split; [done|]. rewrite Hst. unfold rekeyed in Hkeys.
  change (SQLITE_OK =? SQLITE_OK) with true in Hkeys. cbn iota in Hkeys.
  destruct (password zKey) as [pw|]; [|by rewrite Hkeys].
  destruct Hkeys as (c & Hat & _ & _ & Hread & _). rewrite Hat. cbn [on_disk fmap option_fmap option_map].
  rewrite <-Hread. apply load_sealed with i; try done.
  destruct (codec_at_inv _ _ _ _ Hwf' Hat) as (_ & _ & _ & _ & _ & ?). done.
Qed.
End rekey.
