(* ===== verification/CodecExamples.v ===== *)
(** * Concrete digests, pages, connections and pagers

    Published test vectors computed by the models of MD5, RC4 and SHA-2; the
    theorems on pages, on the callback and on keys applied to a small database:
    pages of 32 bytes, a main database with a codec and two others without; and,
    with pages of 512 bytes, a pager over a map of pages that increments the change
    counter of page 1 when it commits, keeps the promises of [PagerSpec] and can be
    told to fail. *)
From S2P Require Import Prelude Words HashBase RijndaelTables Rijndael RijndaelSpec RijndaelApi RijndaelCipher RijndaelKey RijndaelBlock RijndaelModes MD5 MD5Proofs RC4 Sha2 Sha2Proofs Codec CodecProofs CodecPage CodecExt CodecExtCallback CodecExtKeys CodecExtFile.
From stdpp Require Import gmap strings.
Local Open Scope Z_scope.

(** A little-endian machine with 64-bit pointers, and a big-endian one. *)
Definition arm64 : Machine := {| little_endian := true; sizeof_ptr := 8 |}.
Definition ppc32 : Machine := {| little_endian := false; sizeof_ptr := 4 |}.

Definition abc : list Z := [97; 98; 99].
(** 70 bytes: more than a block, in one call and in three. *)
Definition seventy : list Z := seqZ 0 70.

(** RFC 1321, A.5. *)
Example md5_abc : @CodecGetMD5Binary arm64 abc
  = [0x90;0x01;0x50;0x98;0x3c;0xd2;0x4f;0xb0;0xd6;0x96;0x3f;0x7d;0x28;0xe1;0x7f;0x72].
Proof. vm_compute. reflexivity. Qed.
Example md5_abc_big_endian : @CodecGetMD5Binary ppc32 abc = @CodecGetMD5Binary arm64 abc.
Proof. vm_compute. reflexivity. Qed.

(** FIPS 180-4, the one-block example. *)
Example sha256_abc : sha256 abc
  = [0xba;0x78;0x16;0xbf;0x8f;0x01;0xcf;0xea;0x41;0x41;0x40;0xde;0x5d;0xae;0x22;0x23;
     0xb0;0x03;0x61;0xa3;0x96;0x17;0x7a;0x9c;0xb4;0x10;0xff;0x61;0xf2;0x00;0x15;0xad].
Proof. vm_compute. reflexivity. Qed.

(** "Plaintext" under the key "Key". *)
Example rc4_plaintext :
  CodecRC4 [75;101;121] 3 [80;108;97;105;110;116;101;120;116] 0 9 0
  = [0xBB;0xF3;0x16;0xE8;0xD9;0x40;0xAF;0x0A;0xD3].
Proof. vm_compute. reflexivity. Qed.

Lemma bytes_chunk_ok B l :
  forallb (λ x, (0 <=? x) && (x <? 256)) l = true → Z.of_nat (length l) < B →
  bytes_ok l ∧ Z.of_nat (length l) < B.
Proof.
  intros Hl HB. split; [|done]. apply Forall_forall. intros x Hx%list_elem_of_In.
  rewrite forallb_forall in Hl. specialize (Hl x Hx). unfold uint. lia.
Qed.

Ltac chunks :=
  repeat (apply Forall_cons_2; [apply bytes_chunk_ok; vm_compute; reflexivity|]); constructor.

Lemma MD5_is_RFC1321_witness :
  fst (@MD5Final ppc32 (fold_left (@MD5Update ppc32) [take 3 seventy; drop 3 seventy; abc] (MD5Init md5_stack)))
  = RFC1321.md5 (concat [take 3 seventy; drop 3 seventy; abc]).
Proof.
  apply (@MD5_is_RFC1321 ppc32 md5_stack [take 3 seventy; drop 3 seventy; abc]).
  - vm_compute. reflexivity.
  - by apply Forall_replicate.
  - chunks.
Defined.

Lemma MD5Final_leaves_digest_witness :
  let '(digest, ctx') := @MD5Final arm64 (@MD5Update arm64 (MD5Init md5_stack) seventy) in
  drop 2 (md5_buf ctx') = words_of (@native_word arm64) 4 2 (drop 8 digest) ∧
  take 6 (md5_in ctx') = [64; 65; 66; 67; 68; 69].
Proof.
  apply (@MD5Final_leaves_digest arm64 (@MD5Update arm64 (MD5Init md5_stack) seventy) seventy).
  - apply (@MD5Update_rep arm64 (MD5Init md5_stack) []).
    + apply MD5Init_rep; [done|by apply Forall_replicate].
    + apply (bytes_chunk_ok 100); vm_compute; reflexivity.
    + vm_compute. reflexivity.
  - by right.
  - done.
  - vm_compute. lia.
Defined.

Lemma CodecRC4_involution_witness :
  CodecRC4 abc 3 (CodecRC4 abc 3 seventy 5 20 5) 5 20 5 = seventy.
Proof.
  apply (CodecRC4_involution abc 3 seventy 5 5 20); [by left|vm_compute; lia|vm_compute; lia].
Defined.

Lemma sha_block_unrolled_spec_witness :
  sha_block_unrolled SHA512 (sha_h0 SHA512) (replicate 128 7)
  = sha_block SHA512 (sha_h0 SHA512) (replicate 128 7).
Proof. apply (sha_block_unrolled_spec FIPS180.A512 (sha_h0 SHA512) (replicate 128 7)). reflexivity. Defined.

Lemma sha2_is_FIPS180_witness :
  sha384_final (fold_left sha384_update [abc; seventy; seventy] (sha384_init (sha_stack SHA384)))
  = FIPS180.sha2 FIPS180.A384 (concat [abc; seventy; seventy]).
Proof.
  apply (sha2_is_FIPS180 FIPS180.A384 (sha_stack SHA384) [abc; seventy; seventy]).
  - vm_compute. reflexivity.
  - by apply Forall_replicate.
  - chunks.
  - vm_compute. reflexivity.
Defined.


#[local] Existing Instance arm64.

(** ** Pages *)

(** A codec with different keys for loading and storing. *)
Definition buffer : list Z := replicate (Z.to_nat 65560) 0.
Definition codec_ex (ct : codec_type) (read write : Z) (i : nat) : Codec nat :=
  mkCodec nat 1 1 (seqZ read (Z.of_nat (KEYLENGTH ct))) 1 (seqZ write (Z.of_nat (KEYLENGTH ct)))
    blank (Some i) buffer.

(** A first page: the header, the page size 4096, the three constants of the
    format, and eight more bytes. *)
Definition page1_ex : list Z :=
  SQLITE_FILE_HEADER ++ [0x10; 0x00; 1; 1; 0; 0x40; 0x20; 0x20] ++ [1; 2; 3; 4; 5; 6; 7; 8].
Definition page2_ex : list Z := seqZ 50 32.
(** Page 1 at offset 3 of a memory. *)
Definition mem1_ex : list Z := [9; 9; 9] ++ page1_ex ++ [9; 9].
Definition mem2_ex : list Z := [9; 9; 9] ++ page2_ex ++ [9; 9].

Lemma buffer_spec : bytes_ok buffer ∧ Z.of_nat (length buffer) = SQLITE_MAX_PAGE_SIZE + 24.
Proof.
  unfold buffer. split; [by apply Forall_replicate|].
  rewrite length_replicate. rewrite Z2Nat.id; done.
Qed.

#[local] Opaque buffer.

Lemma seq_key_ok ct r : (r = 0 ∨ r = 100) →
  bytes_ok (seqZ r (Z.of_nat (KEYLENGTH ct))) ∧ length (seqZ r (Z.of_nat (KEYLENGTH ct))) = KEYLENGTH ct.
Proof.
  intros Hr. split; [|rewrite length_seqZ; apply Nat2Z.id].
  destruct ct, Hr as [-> | ->]; apply bytes_ok_dec; vm_compute; reflexivity.
Qed.

Lemma codec_ex_obj ct r w i : (r = 0 ∨ r = 100) → (w = 0 ∨ w = 100) → codec_obj ct (codec_ex ct r w i).
Proof.
  intros Hr Hw. split; [split|apply buffer_spec]; [apply blank_wf| |]; by apply seq_key_ok.
Qed.

Lemma codec_ex_wf ct r w i : (r = 0 ∨ r = 100) → (w = 0 ∨ w = 100) → codec_wf ct (codec_ex ct r w i).
Proof. intros. by apply codec_ex_obj. Qed.

Ltac zero_or_100 := first [by left | by right].

(** Page 1, stored with the write key, read by a codec whose read key it is. *)
Lemma CodecDecrypt_CodecEncrypt_witness :
  let '(_, mem') := CodecEncrypt CODEC_TYPE_AES128 (codec_ex CODEC_TYPE_AES128 0 100 0) 1 mem1_ex 3 32 true in
  snd (CodecDecrypt CODEC_TYPE_AES128 (codec_ex CODEC_TYPE_AES128 100 0 0) 1 mem' 3 32) = mem1_ex.
Proof.
  apply (CodecDecrypt_CodecEncrypt CODEC_TYPE_AES128 (codec_ex CODEC_TYPE_AES128 0 100 0)
    (codec_ex CODEC_TYPE_AES128 100 0 0) 1 mem1_ex 3 2 true).
  - apply codec_ex_wf; zero_or_100.
  - apply codec_ex_wf; zero_or_100.
  - reflexivity.
  - apply bytes_ok_dec. vm_compute. reflexivity.
  - lia.
  - vm_compute. lia.
  - intros _. split; vm_compute; reflexivity.
Defined.

Lemma CodecEncrypt_is_AES_CBC_witness :
  snd (CodecEncrypt CODEC_TYPE_AES256 (codec_ex CODEC_TYPE_AES256 0 100 0) 2 mem2_ex 3 32 false)
  = store_blocks mem2_ex 3
      (cbc_encrypt
         (Cipher 14 (KeyExpansion 8 14
            (key_matrix (page_hash CODEC_TYPE_AES256 (nkey CODEC_TYPE_AES256 2 (seqZ 0 32))) 8)))
         (load16 (RFC1321.md5 (iv_key 4 3)) 0) (blocks_at mem2_ex 3 2)).
Proof.
  apply (CodecEncrypt_is_AES_CBC CODEC_TYPE_AES256 (codec_ex CODEC_TYPE_AES256 0 100 0) 2 mem2_ex 3 2 false).
  - apply codec_ex_wf; zero_or_100.
  - apply bytes_ok_dec. vm_compute. reflexivity.
  - done.
  - lia.
  - vm_compute. lia.
Defined.

(** The byte at offset 16 of page 1 stays 0x10. *)
Lemma CodecEncrypt_page1_layout_witness :
  let '(_, mem') := CodecEncrypt CODEC_TYPE_AES128 (codec_ex CODEC_TYPE_AES128 0 100 0) 1 mem1_ex 3 32 true in
  nth 19 mem' 0 = 0x10.
Proof.
  apply (CodecEncrypt_page1_layout CODEC_TYPE_AES128 (codec_ex CODEC_TYPE_AES128 0 100 0) mem1_ex 3 2 true 19).
  - apply codec_ex_wf; zero_or_100.
  - apply bytes_ok_dec. vm_compute. reflexivity.
  - lia.
  - vm_compute. lia.
Defined.

(** The password "abc". *)
Lemma CodecGenerateEncryptionKey_spec_witness :
  CodecGenerateEncryptionKey CODEC_TYPE_AES128 abc 3 = password_key CODEC_TYPE_AES128 abc ∧
  bytes_ok (password_key CODEC_TYPE_AES128 abc) ∧ length (password_key CODEC_TYPE_AES128 abc) = 16%nat.
Proof.
  apply (CodecGenerateEncryptionKey_spec CODEC_TYPE_AES128 abc). apply bytes_ok_dec. vm_compute. reflexivity.
Defined.

Lemma CodecGenerateInitialVector_safe_witness :
  iv_safe 4 1000001 ∧ CodecGenerateInitialVector 1000000 = RFC1321.md5 (lecuyer_bytes 4 1000001).
Proof. apply (CodecGenerateInitialVector_safe 1000000). lia. Defined.

(** ** The callback *)

Definition pages_of_32 (bt : option nat) : Z := 32.

Lemma pages_of_32_blocks (codec : Codec nat) : page_blocks pages_of_32 codec 2.
Proof. split; [done|]. split; [lia|]. unfold SQLITE_MAX_PAGE_SIZE. lia. Qed.

(** Page 1 stored in mode 6, the bytes that the callback returns copied to another
    place, and loaded there in mode 3. *)
Definition stored_ex : list Z :=
  Eval vm_compute in
  replicate 10 9 ++ returned (sqlite3Codec CODEC_TYPE_AES128 pages_of_32 (Some (codec_ex CODEC_TYPE_AES128 0 100 0)) mem1_ex 3 1 6) 3 32 ++ [9].

Lemma sqlite3Codec_store_load_witness :
  let res := sqlite3Codec CODEC_TYPE_AES128 pages_of_32 (Some (codec_ex CODEC_TYPE_AES128 0 100 0)) mem1_ex 3 1 6 in
  snd (fst res) = mem1_ex ∧
  region stored_ex 10 32 = returned res 3 32 ∧
  snd (fst (sqlite3Codec CODEC_TYPE_AES128 pages_of_32 (Some (codec_ex CODEC_TYPE_AES128 100 0 0)) stored_ex 10 1 3))
  = memcpy stored_ex 10 page1_ex.
Proof.
  assert (let codec := codec_ex CODEC_TYPE_AES128 0 100 0 in
    let res := sqlite3Codec CODEC_TYPE_AES128 pages_of_32 (Some codec) mem1_ex 3 1 6 in
    snd (fst res) = mem1_ex ∧
    (region stored_ex 10 32 = returned res 3 32 →
     snd (fst (sqlite3Codec CODEC_TYPE_AES128 pages_of_32 (Some (codec_ex CODEC_TYPE_AES128 100 0 0)) stored_ex 10 1 3))
     = memcpy stored_ex 10 page1_ex)) as [Hmem Hload]; [apply (sqlite3Codec_store_load CODEC_TYPE_AES128 pages_of_32 (codec_ex CODEC_TYPE_AES128 0 100 0)
    (codec_ex CODEC_TYPE_AES128 100 0 0) mem1_ex stored_ex 3 10 1 6 3 2 (seqZ 100 16))|].
  - apply codec_ex_obj; zero_or_100.
  - apply pages_of_32_blocks.
  - done.
  - reflexivity.
  - apply codec_ex_obj; zero_or_100.
  - apply pages_of_32_blocks.
  - done.
  - done.
  - reflexivity.
  - right. by right.
  - apply bytes_ok_dec. vm_compute. reflexivity.
  - vm_compute. lia.
  - apply bytes_ok_dec. vm_compute. reflexivity.
  - vm_compute. lia.
  - split; [apply bytes_ok_dec; vm_compute; reflexivity|]. intros _. split; vm_compute; reflexivity.
  - intros res. assert (region stored_ex 10 32 = returned res 3 32) as Hcopy by (vm_compute; reflexivity).
    split; [exact Hmem|]. split; [exact Hcopy|exact (Hload Hcopy)].
Defined.

(** Mode 0, undoing a journal encryption, writes the page only. *)
Lemma sqlite3Codec_frame_witness :
  let '(_, mem', _) :=
    sqlite3Codec CODEC_TYPE_AES128 pages_of_32 (Some (codec_ex CODEC_TYPE_AES128 0 100 0)) mem2_ex 3 2 0 in
  length mem' = 37%nat ∧ nth 2 mem' 0 = 9.
Proof.
  pose proof (sqlite3Codec_frame CODEC_TYPE_AES128 pages_of_32 (Some (codec_ex CODEC_TYPE_AES128 0 100 0))
    mem2_ex 3 2 0 2) as Hf.
  destruct (sqlite3Codec _ _ _ _ _ _ _) as [[arg' mem'] ref].
  destruct Hf as (Hl & Hout & _).
  - intros codec Hc. apply (inj Some) in Hc as <-.
    split; [apply codec_ex_obj; zero_or_100|apply pages_of_32_blocks].
  - apply bytes_ok_dec. vm_compute. reflexivity.
  - vm_compute. lia.
  - split; [exact Hl|]. apply Hout. left. lia.
Defined.

(** ** A connection *)

Definition keyed_pager (p : positive) : Pager := mkPager false true true (Some p).
Definition plain_pager : Pager := mkPager false false false None.
(** "main" has codec 7, "temp" and "aux" have none. *)
Definition db_ex (ct : codec_type) : sqlite3 :=
  mkConn {[ 7%positive := codec_ex ct 0 0 0 ]}
    [mkDb "main" (keyed_pager 7); mkDb "temp" plain_pager; mkDb "aux" plain_pager].

Lemma db_ex_wf ct : conn_wf ct (db_ex ct).
Proof.
  split.
  - intros [|[|[|i]]] pager p Hi Hp; try done; apply (inj Some) in Hi as <-; try done.
    apply (inj Some) in Hp as <-. exists (codec_ex ct 0 0 0). split; [apply lookup_singleton_eq|].
    split; [apply codec_ex_obj; by left|]. split_and!; reflexivity.
  - intros [|[|[|i]]] pager Hi; try done; by apply (inj Some) in Hi as <-.
  - intros [|[|[|i]]] [|[|[|j]]] pager pager' p Hi Hj Hp Hp'; try done;
      apply (inj Some) in Hi as <-; apply (inj Some) in Hj as <-; done.
Qed.

Lemma key_arg_abc : key_arg (Some abc) 3.
Proof. intros pw Hpw. apply (inj Some) in Hpw as <-. split; [|done]. by repeat constructor. Qed.

(** A key for "aux". *)
Lemma sqlite3CodecAttach_spec_witness :
  ∃ db', sqlite3CodecAttach CODEC_TYPE_AES128 (codec_ex CODEC_TYPE_AES128 100 100 5)
           (db_ex CODEC_TYPE_AES128) 2 (Some abc) 3 = Some (SQLITE_OK, db') ∧
    conn_wf CODEC_TYPE_AES128 db' ∧ same_elsewhere 2 (db_ex CODEC_TYPE_AES128) db' ∧
    attached CODEC_TYPE_AES128 (db_ex CODEC_TYPE_AES128) 2 (Some abc) 3 (codec_at db' 2).
Proof.
  apply (sqlite3CodecAttach_spec CODEC_TYPE_AES128 (codec_ex CODEC_TYPE_AES128 100 100 5)
    (db_ex CODEC_TYPE_AES128) 2 (Some abc) 3).
  - apply codec_ex_obj; by right.
  - apply db_ex_wf.
  - cbn. lia.
  - apply key_arg_abc.
Defined.

(** ATTACH without a KEY clause, "aux" being the new database. *)
Lemma attach_key_spec_witness :
  ∃ db' codec, attach_key CODEC_TYPE_AES256 (codec_ex CODEC_TYPE_AES256 100 100 5)
           (db_ex CODEC_TYPE_AES256) 0 None = Some (SQLITE_OK, db') ∧
    codec_at db' 2 = Some codec ∧
    has_keys (seqZ 0 32) (store_key (codec_ex CODEC_TYPE_AES256 0 0 0) 6) codec.
Proof.
  destruct (attach_key_spec CODEC_TYPE_AES256 (codec_ex CODEC_TYPE_AES256 100 100 5)
    (db_ex CODEC_TYPE_AES256) 0 None) as (db' & Heq & _ & _ & codec & Hat & Hkeys).
  - apply codec_ex_obj; by right.
  - apply db_ex_wf.
  - cbn. lia.
  - done.
  - exists db', codec. split; [exact Heq|]. split; [exact Hat|exact Hkeys].
Defined.

Lemma sqlite3CodecAttach_leak_witness :
  ∃ p codec, get_codec (db_ex CODEC_TYPE_AES128) p = None ∧ unowned p (db_ex CODEC_TYPE_AES128) ∧
    sqlite3CodecAttach CODEC_TYPE_AES128 (codec_ex CODEC_TYPE_AES128 100 100 5)
      (db_ex CODEC_TYPE_AES128) 0 None 0
    = Some (SQLITE_OK, mkConn (<[p := codec]> (codecs (db_ex CODEC_TYPE_AES128))) (aDb (db_ex CODEC_TYPE_AES128))).
Proof.
  apply (sqlite3CodecAttach_leak CODEC_TYPE_AES128 (codec_ex CODEC_TYPE_AES128 100 100 5)
    (db_ex CODEC_TYPE_AES128) 0 None 0); [apply db_ex_wf|by left].
Defined.

(** ** A pager *)

(** Maps of pages for each database, three pages in each; [w_fail] is the page at
    which writing fails, and 0 makes the transaction fail to begin. *)
Record world := mkWorld {
  w_file : nat → Z → list Z;
  w_saved : nat → Z → list Z;
  w_dirty : nat → Z → option (list Z);
  w_fail : Z
}.

Section world.
Context (ct : codec_type).

(** Pages of 512 bytes. *)
Definition w_blocks (i : nat) : nat := 32.

Definition w_write (i : nat) (n : Z) (c : option (Codec nat)) (w : world) : world :=
  mkWorld (w_file w) (w_saved w)
    (λ j m, if decide (j = i ∧ m = n)
            then (match w_dirty w i n with Some p => Some p | None => Some (load ct w_blocks c n (w_file w i n)) end)
            else w_dirty w j m) (w_fail w).
(** Page [m] as it is stored: page 1 gets a new change counter. *)
Definition w_stamp (w : world) (i : nat) (m : Z) (p : list Z) : list Z :=
  if m =? 1 then default p (pager_write_changecounter true (drop 24 (w_file w i 1)) p) else p.
Definition w_commit (i : nat) (c : option (Codec nat)) (w : world) : world :=
  mkWorld (λ j m, if decide (j = i)
                  then match w_dirty w i m with
                       | Some p => store ct w_blocks c m (w_stamp w i m p)
                       | None => w_file w i m
                       end
                  else w_file w j m)
    (w_saved w) (w_dirty w) (w_fail w).

#[local] Instance world_ops : PagerOps world := {|
  sqlite3BtreeGetPageSize i w := 512;
  sqlite3BtreeBeginTrans i c w :=
    (if w_fail w =? 0 then 5 else SQLITE_OK, mkWorld (w_file w) (w_file w) (λ _ _, None) (w_fail w));
  sqlite3PagerPagecount i w := 3;
  sqlite3PagerGet i n c w := (SQLITE_OK, w);
  sqlite3PagerWrite i n c w := if n =? w_fail w then (10, w) else (SQLITE_OK, w_write i n c w);
  sqlite3PagerUnref i n w := w;
  sqlite3BtreeCommit i c w := (SQLITE_OK, w_commit i c w);
  sqlite3BtreeRollback i c w := mkWorld (w_saved w) (w_saved w) (λ _ _, None) (w_fail w)
|}.

Lemma w_stamp_edited w i m p : edited m p (w_stamp w i m p).
Proof.
  unfold w_stamp. destruct (Z.eqb_spec m 1) as [-> |]; [|constructor].
  destruct (pager_write_changecounter true _ p) as [q|] eqn:E; [|constructor].
  eapply edit_counter; [constructor|exact E].
Qed.
Lemma kept_refl c n f d : kept ct w_blocks c n f f d d.
Proof. destruct d; [constructor|done]. Qed.

#[local] Instance world_spec : PagerSpec ct world.
Proof.
  refine {| psize := w_blocks; file := w_file; saved := w_saved; dirty := w_dirty; idle := λ w i, True |}.
  - intros i c w rc w' _ _ Heq. injection Heq as _ <-. done.
  - done.
  - intros i n c w rc w' Heq m. injection Heq as <- <-. split; [done|apply kept_refl].
  - intros i n c w rc w' Heq. cbn in Heq. destruct (n =? w_fail w); injection Heq as <- <-.
    { split; [|done]. intros m. split; [done|apply kept_refl]. }
    split; [|intros _; cbn; rewrite decide_True by done; by destruct (w_dirty w i n)].
    intros m. split; [done|]. cbn. destruct (decide (i = i ∧ m = n)) as [[_ ->]|]; [|apply kept_refl].
    destruct (w_dirty w i n); constructor.
  - intros i n c w m. split; [done|apply kept_refl].
  - intros i c w rc w' Heq. injection Heq as <- <-. split; [done|]. intros _ m. cbn.
    rewrite decide_True by done. destruct (w_dirty w i m) as [p|]; [right|by left].
    exists (w_stamp w i m p). split; [apply w_stamp_edited|done].
  - done.
Defined.

(** A file that is stored with the read key of the codec of [db_ex]. *)
Definition plain_ex (n : Z) : list Z :=
  if n =? 1 then page1_ex ++ replicate 480 0 else replicate 512 7.
Definition world_ex (fail : Z) : world :=
  mkWorld (λ _ n, sealed ct n (seqZ 0 (Z.of_nat (KEYLENGTH ct))) (plain_ex n)) (λ _ _, []) (λ _ _, None) fail.

Lemma plain_ex_ok n : length (plain_ex n) = 512%nat ∧ page_ok n (plain_ex n).
Proof.
  unfold plain_ex. destruct (Z.eqb_spec n 1) as [-> | Hn].
  - split; [done|]. split; [apply bytes_ok_dec; vm_compute; reflexivity|].
    intros _. split; vm_compute; reflexivity.
  - split; [done|]. split; [apply bytes_ok_dec; vm_compute; reflexivity|]. done.
Qed.
End world.

#[local] Instance world_ops128 : PagerOps world := world_ops CODEC_TYPE_AES128.
#[local] Instance world_spec128 : PagerSpec CODEC_TYPE_AES128 world := world_spec CODEC_TYPE_AES128.

(** The result code of the call below, by running it. *)
Lemma rekey_ex_OK :
  (λ r, fst (fst r)) <$> sqlite3_rekey_v2 CODEC_TYPE_AES128 (codec_ex CODEC_TYPE_AES128 100 100 5)
    (db_ex CODEC_TYPE_AES128) (Some "main"%string) (Some abc) 3 (world_ex CODEC_TYPE_AES128 4) = Some SQLITE_OK.
Proof. vm_compute. reflexivity. Qed.

(** Changing the key of "main": the call succeeds, all three pages are stored with
    the new key and load with the codec of the connection; page 1 is the one that
    was there but for the counter. *)
Lemma rekey_keeps_pages_witness :
  ∃ db' w' p, sqlite3_rekey_v2 CODEC_TYPE_AES128 (codec_ex CODEC_TYPE_AES128 100 100 5)
      (db_ex CODEC_TYPE_AES128) (Some "main"%string) (Some abc) 3 (world_ex CODEC_TYPE_AES128 4)
    = Some (SQLITE_OK, db', w') ∧
    same_page 1 (plain_ex 1) p ∧
    w_file w' 0 1 = sealed CODEC_TYPE_AES128 1 (password_key CODEC_TYPE_AES128 abc) p ∧
    load CODEC_TYPE_AES128 w_blocks (codec_at db' 0) 1 (w_file w' 0 1) = p ∧
    load CODEC_TYPE_AES128 w_blocks (codec_at db' 0) 3 (w_file w' 0 3) = plain_ex 3.
Proof.
  destruct (rekey_keeps_pages CODEC_TYPE_AES128 (codec_ex CODEC_TYPE_AES128 100 100 5)
    (db_ex CODEC_TYPE_AES128) (Some "main"%string) (Some abc) 3 (world_ex CODEC_TYPE_AES128 4) plain_ex)
    as (rc & db' & w' & Heq & Hok & _).
  - apply codec_ex_obj; by right.
  - apply db_ex_wf.
  - cbn. lia.
  - apply key_arg_abc.
  - exact I.
  - by intros.
  - split; [by apply Nat.leb_le|]. unfold SQLITE_MAX_PAGE_SIZE. vm_compute. by intros.
  - intros n _. destruct (plain_ex_ok n). split_and!; [done|done|reflexivity].
  - pose proof rekey_ex_OK as Hrc. rewrite Heq in Hrc. apply (inj Some) in Hrc. cbn [fmap fst] in Hrc. subst rc.
    destruct (Hok eq_refl 1) as (p & Hs & _ & Hf & Hl).
    { split; [change (1 ≤ 1 ≤ 3); lia|]. vm_compute. by intros. }
    destruct (Hok eq_refl 3) as (p3 & [Hl3 Hs3] & _ & _ & Hl3').
    { split; [change (1 ≤ 3 ≤ 3); lia|]. vm_compute. by intros. }
    exists db', w', p. split; [exact Heq|]. split; [exact Hs|]. split; [exact Hf|]. split; [exact Hl|].
    etransitivity; [exact Hl3'|]. apply list_eq. intros k. apply Hs3. intros [? _]. discriminate.
Defined.

Lemma sqlite3_rekey_v2_spec_witness :
  ∃ rc db' w', sqlite3_rekey_v2 CODEC_TYPE_AES256 (codec_ex CODEC_TYPE_AES256 100 100 5)
      (db_ex CODEC_TYPE_AES256) (Some "aux"%string) (Some abc) 3 (world_ex CODEC_TYPE_AES128 0)
    = Some (rc, db', w') ∧ conn_wf CODEC_TYPE_AES256 db' ∧ same_elsewhere 2 (db_ex CODEC_TYPE_AES256) db' ∧
    rekeyed CODEC_TYPE_AES256 None (Some abc) rc (codec_at db' 2).
Proof.
  destruct (sqlite3_rekey_v2_spec CODEC_TYPE_AES256 (codec_ex CODEC_TYPE_AES256 100 100 5)
    (db_ex CODEC_TYPE_AES256) (Some "aux"%string) (Some abc) 3 (world_ex CODEC_TYPE_AES128 0))
    as (rc & db' & w' & Heq & Hwf & Hs & Hres).
  - apply codec_ex_obj; by right.
  - apply db_ex_wf.
  - cbn. lia.
  - apply key_arg_abc.
  - exists rc, db', w'. split; [exact Heq|]. split; [exact Hwf|]. split; [exact Hs|].
    destruct Hres as [[Hno _] | Hres]; [discriminate Hno|exact Hres].
Defined.

(** "main" is to be decrypted, and the pager is busy (5). *)
Definition db_failed : sqlite3 :=
  mkConn {[ 7%positive := CodecSetHasWriteKey (codec_ex CODEC_TYPE_AES128 0 0 0) 0 ]} (aDb (db_ex CODEC_TYPE_AES128)).
Definition world_failed : world :=
  mkWorld (w_file (world_ex CODEC_TYPE_AES128 0)) (w_file (world_ex CODEC_TYPE_AES128 0)) (λ _ _, None) 0.

Lemma rekey_failed_decrypt_witness :
  ∃ codec, codec_at db_failed 0 = Some codec ∧
    CodecIsEncrypted codec = true ∧ CodecHasReadKey codec = true ∧
    sqlite3Codec CODEC_TYPE_AES128 pages_of_32 (Some codec) mem1_ex 3 1 6 = (Some codec, mem1_ex, Data).
Proof.
  apply (rekey_failed_decrypt CODEC_TYPE_AES128 (codec_ex CODEC_TYPE_AES128 100 100 5)
    (db_ex CODEC_TYPE_AES128) (Some "main"%string) (world_ex CODEC_TYPE_AES128 0) 5 db_failed world_failed
    pages_of_32 mem1_ex 3 1).
  - apply codec_ex_obj; by right.
  - apply db_ex_wf.
  - cbn. lia.
  - eexists. reflexivity.
  - reflexivity.
  - discriminate.
Defined.
