(* ===== verification/FtsHash.v ===== *)
(** * fts3_hash.c: the hash tables of the full-text module

    A table is a doubly linked list of its elements in which the elements of a
    bucket are neighbours; a bucket holds a count and the address of its first
    element. Elements, the copies of keys and the arrays of buckets live on
    heaps; an access to an address that is not allocated, a second free, or an
    access to a bucket that does not exist makes an operation return [None].
    Each allocation of a call may fail: a boolean argument says whether it
    succeeds. Keys are byte strings, and no null pointers; a table that does not
    copy its keys ([copyKey] 0) is modelled under the rule that callers leave
    them alone. *)
From stdpp Require Import gmap.
From S2P Require Import Prelude.
Local Open Scope Z_scope.

Definition FTS3_HASH_STRING : Z := 1.
Definition FTS3_HASH_BINARY : Z := 2.

(** The pointer to a key: to a copy on the heap, or to the caller's bytes, which
    are then given. The null pointer of an element that has just been allocated
    is [Given []]. *)
Inductive key_ptr := Copied (k : positive) | Given (z : list Z).

(** [struct Fts3HashElem]; a null [data] is 0. *)
Record Fts3HashElem := mkElem {
  next : option positive;
  prev : option positive;
  data : Z;
  pKey : key_ptr;
  nKey : Z
}.

(** [struct _fts3ht]. *)
Record fts3ht := mkHt { ht_count : Z; chain : option positive }.

(** [struct Fts3Hash], with what its calls have allocated and not freed: elements,
    copies of keys, arrays of buckets. *)
Record Fts3Hash := mkHash {
  keyClass : Z;
  copyKey : bool;
  count : Z;
  first : option positive;
  htsize : Z;
  ht : option positive;
  heap : gmap positive Fts3HashElem;
  keys : gmap positive (list Z);
  tables : gmap positive (list fts3ht)
}.

(** ** Keys *)

Section hash.
(** Whether [char] is signed, which C leaves to the machine. *)
Context (char_signed : bool).
(** The size of a bucket: 8 or 16 bytes. *)
Context (sizeof_ht : Z).
Implicit Types (pH : Fts3Hash) (p elem : positive) (key : list Z).

Definition schar (c : Z) : Z := if char_signed && (128 <=? c) then c - 256 else c.

(** [h = (h<<3) ^ h ^ *z++] on [int]. *)
Definition hash_step (h c : Z) : Z := Z.lxor (Z.lxor (s32 (Z.shiftl h 3)) h) (schar c).

(** The bytes before the first zero. *)
Fixpoint cstring (z : list Z) : list Z :=
  match z with [] => [] | c :: z' => if c =? 0 then [] else c :: cstring z' end.

Definition fts3StrHash (pKey : list Z) (nKey : Z) : Z :=
  let nKey := if nKey <=? 0 then Z.of_nat (length (cstring pKey)) else nKey in
  Z.land (fold_left hash_step (take (Z.to_nat nKey) pKey) 0) 0x7fffffff.

(** Zero when equal. [strncmp] stops at a zero byte. *)
Definition fts3StrCompare (pKey1 : list Z) (n1 : Z) (pKey2 : list Z) (n2 : Z) : Z :=
  if negb (n1 =? n2) then 1
  else if bool_decide (cstring (take (Z.to_nat n1) pKey1) = cstring (take (Z.to_nat n1) pKey2))
  then 0 else 1.

Definition fts3BinHash (pKey : list Z) (nKey : Z) : Z :=
  Z.land (fold_left hash_step (take (Z.to_nat nKey) pKey) 0) 0x7fffffff.

Definition fts3BinCompare (pKey1 : list Z) (n1 : Z) (pKey2 : list Z) (n2 : Z) : Z :=
  if negb (n1 =? n2) then 1
  else if bool_decide (take (Z.to_nat n1) pKey1 = take (Z.to_nat n1) pKey2) then 0 else 1.

Definition ftsHashFunction (keyClass : Z) : list Z → Z → Z :=
  if keyClass =? FTS3_HASH_STRING then fts3StrHash else fts3BinHash.
Definition ftsCompareFunction (keyClass : Z) : list Z → Z → list Z → Z → Z :=
  if keyClass =? FTS3_HASH_STRING then fts3StrCompare else fts3BinCompare.

(** ** Fields *)

Definition set_next (q : option positive) (e : Fts3HashElem) : Fts3HashElem :=
  mkElem q (prev e) (data e) (pKey e) (nKey e).
Definition set_prev (q : option positive) (e : Fts3HashElem) : Fts3HashElem :=
  mkElem (next e) q (data e) (pKey e) (nKey e).
Definition set_data (d : Z) (e : Fts3HashElem) : Fts3HashElem :=
  mkElem (next e) (prev e) d (pKey e) (nKey e).

Definition set_key (k : key_ptr) (n : Z) (e : Fts3HashElem) : Fts3HashElem :=
  mkElem (next e) (prev e) (data e) k n.

Definition set_heap (h : gmap positive Fts3HashElem) pH : Fts3Hash :=
  mkHash (keyClass pH) (copyKey pH) (count pH) (first pH) (htsize pH) (ht pH) h (keys pH) (tables pH).
Definition set_keys (ks : gmap positive (list Z)) pH : Fts3Hash :=
  mkHash (keyClass pH) (copyKey pH) (count pH) (first pH) (htsize pH) (ht pH) (heap pH) ks (tables pH).
Definition set_tables (ts : gmap positive (list fts3ht)) pH : Fts3Hash :=
  mkHash (keyClass pH) (copyKey pH) (count pH) (first pH) (htsize pH) (ht pH) (heap pH) (keys pH) ts.
Definition set_first (q : option positive) pH : Fts3Hash :=
  mkHash (keyClass pH) (copyKey pH) (count pH) q (htsize pH) (ht pH) (heap pH) (keys pH) (tables pH).
Definition set_count (n : Z) pH : Fts3Hash :=
  mkHash (keyClass pH) (copyKey pH) n (first pH) (htsize pH) (ht pH) (heap pH) (keys pH) (tables pH).
Definition set_ht (n : Z) (t : option positive) pH : Fts3Hash :=
  mkHash (keyClass pH) (copyKey pH) (count pH) (first pH) n t (heap pH) (keys pH) (tables pH).

(** [p->field = ...]. *)
Definition store (f : Fts3HashElem → Fts3HashElem) p pH : option Fts3Hash :=
  e ← heap pH !! p; Some (set_heap (<[p := f e]> (heap pH)) pH).

(** The bytes that a key pointer points to. *)
Definition key_bytes (ks : gmap positive (list Z)) (k : key_ptr) : option (list Z) :=
  match k with Copied k => ks !! k | Given z => Some z end.

(** The array [pH->ht], and [&pH->ht[h]], read and written. *)
Definition the_table pH : option (list fts3ht) := t ← ht pH; tables pH !! t.
Definition get_entry (h : Z) pH : option fts3ht := t ← the_table pH; t !! Z.to_nat h.
Definition set_entry (h : Z) (pEntry : fts3ht) pH : Fts3Hash :=
  match ht pH with
  | Some t => set_tables (alter (λ l, <[Z.to_nat h := pEntry]> l) t (tables pH)) pH
  | None => pH
  end.

(** ** Memory *)

(** Whether [fts3HashMalloc(n)] returns memory; the argument is an [int], and
    [sqlite3_malloc] refuses what is not positive. *)
Definition fts3HashMalloc (malloc_ok : bool) (n : Z) : bool := malloc_ok && (0 <? s32 n).

(** [fts3HashFree] of an element, of a copied key, and of an array or null. *)
Definition free_elem (p : positive) pH : option Fts3Hash :=
  _ ← heap pH !! p; Some (set_heap (delete p (heap pH)) pH).
Definition free_key (k : key_ptr) pH : option Fts3Hash :=
  match k with
  | Copied k => _ ← keys pH !! k; Some (set_keys (delete k (keys pH)) pH)
  | Given _ => None
  end.
Definition free_table (o : option positive) pH : option Fts3Hash :=
  match o with
  | None => Some pH
  | Some t => _ ← tables pH !! t; Some (set_tables (delete t (tables pH)) pH)
  end.

(** ** Operations *)

Definition sqlite3Fts3HashInit (keyClass : Z) (copyKey : bool) : Fts3Hash :=
  mkHash keyClass copyKey 0 None 0 None ∅ ∅ ∅.

(** The loop that frees the elements and the copies of their keys, at most [n]
    elements. *)
Fixpoint clear_loop (n : nat) (elem : option positive) pH : option Fts3Hash :=
  match elem, n with
  | None, _ => Some pH
  | Some _, O => None
  | Some p, S n' =>
      e ← heap pH !! p;
      pH ← (if copyKey pH then free_key (pKey e) pH else Some pH);
      pH ← free_elem p pH;
      clear_loop n' (next e) pH
  end.

Definition sqlite3Fts3HashClear pH : option Fts3Hash :=
  let elem := first pH in
  let pH := set_first None pH in
  pH ← free_table (ht pH) pH;
  pH ← clear_loop (size (heap pH)) elem (set_ht 0 None pH);
  Some (set_count 0 pH).

Definition fts3HashInsertElement pH (h : Z) (pNew : positive) : option Fts3Hash :=
  pEntry ← get_entry h pH;
  pH ← (match chain pEntry with
        | Some pHead =>
            pH ← store (set_next (Some pHead)) pNew pH;
            head ← heap pH !! pHead;
            pH ← store (set_prev (prev head)) pNew pH;
            pH ← (match prev head with
                  | Some q => store (set_next (Some pNew)) q pH
                  | None => Some (set_first (Some pNew) pH)
                  end);
            store (set_prev (Some pNew)) pHead pH
        | None =>
            pH ← store (set_next (first pH)) pNew pH;
            pH ← (match first pH with
                  | Some f => store (set_prev (Some pNew)) f pH
                  | None => Some pH
                  end);
            pH ← store (set_prev None) pNew pH;
            Some (set_first (Some pNew) pH)
        end);
  Some (set_entry h (mkHt (ht_count pEntry + 1) (Some pNew)) pH).

(** The loop over the old list, at most [n] elements. *)
Fixpoint rehash_loop (n : nat) (new_size : Z) (elem : option positive) pH : option Fts3Hash :=
  match elem, n with
  | None, _ => Some pH
  | Some _, O => None
  | Some p, S n' =>
      e ← heap pH !! p;
      key ← key_bytes (keys pH) (pKey e);
      let h := Z.land (ftsHashFunction (keyClass pH) key (nKey e)) (new_size - 1) in
      pH ← fts3HashInsertElement pH h p;
      rehash_loop n' new_size (next e) pH
  end.

(** Non-zero, and the table as it was, when the allocation fails. *)
Definition fts3Rehash (malloc_ok : bool) pH (new_size : Z) : option (Z * Fts3Hash) :=
  if negb (fts3HashMalloc malloc_ok (new_size * sizeof_ht)) then Some (1, pH) else
  let new_ht := fresh (dom (tables pH)) in
  let pH := set_tables (<[new_ht := replicate (Z.to_nat new_size) (mkHt 0 None)]> (tables pH)) pH in
  pH ← free_table (ht pH) pH;
  let pH := set_ht new_size (Some new_ht) pH in
  let elem := first pH in
  pH ← rehash_loop (size (heap pH)) new_size elem (set_first None pH);
  Some (0, pH).

(** [while( count-- && elem )]; counts are not negative. *)
Fixpoint find_loop pH (count : nat) (elem : option positive) (key : list Z) (nKey' : Z) : option (option positive) :=
  match count, elem with
  | O, _ | _, None => Some None
  | S count', Some p =>
      e ← heap pH !! p;
      k ← key_bytes (keys pH) (pKey e);
      if ftsCompareFunction (keyClass pH) k (nKey e) key nKey' =? 0 then Some (Some p)
      else find_loop pH count' (next e) key nKey'
  end.

Definition fts3FindElementByHash pH (key : list Z) (nKey : Z) (h : Z) : option (option positive) :=
  match ht pH with
  | None => Some None
  | Some _ =>
      pEntry ← get_entry h pH;
      find_loop pH (Z.to_nat (ht_count pEntry)) (chain pEntry) key nKey
  end.

Definition fts3RemoveElementByHash pH (elem : positive) (h : Z) : option Fts3Hash :=
  e ← heap pH !! elem;
  pH ← (match prev e with
        | Some q => store (set_next (next e)) q pH
        | None => Some (set_first (next e) pH)
        end);
  pH ← (match next e with
        | Some q => store (set_prev (prev e)) q pH
        | None => Some pH
        end);
  pEntry ← get_entry h pH;
  let c := if bool_decide (chain pEntry = Some elem) then next e else chain pEntry in
  let n := ht_count pEntry - 1 in
  let pH := set_entry h (mkHt n (if n <=? 0 then None else c)) pH in
  pH ← (if copyKey pH then free_key (pKey e) pH else Some pH);
  pH ← free_elem elem pH;
  let pH := set_count (count pH - 1) pH in
  if count pH <=? 0 then sqlite3Fts3HashClear pH else Some pH.

Definition sqlite3Fts3HashFindElem pH (key : list Z) (nKey : Z) : option (option positive) :=
  match ht pH with
  | None => Some None
  | Some _ =>
      let h := ftsHashFunction (keyClass pH) key nKey in
      fts3FindElementByHash pH key nKey (Z.land h (htsize pH - 1))
  end.

Definition sqlite3Fts3HashFind pH (key : list Z) (nKey : Z) : option Z :=
  pElem ← sqlite3Fts3HashFindElem pH key nKey;
  match pElem with
  | Some p => e ← heap pH !! p; Some (data e)
  | None => Some 0
  end.

(** [ok_ht], [ok_elem] and [ok_key]: the allocations of the table, of the element
    and of the copy of the key succeed. *)
Definition sqlite3Fts3HashInsert (ok_ht ok_elem ok_key : bool) pH (key : list Z) (nKey : Z) (data' : Z)
    : option (Z * Fts3Hash) :=
  let hraw := ftsHashFunction (keyClass pH) key nKey in
  let h := Z.land hraw (htsize pH - 1) in
  elem ← fts3FindElementByHash pH key nKey h;
  match elem with
  | Some p =>
      e ← heap pH !! p;
      let old_data := data e in
      pH ← (if data' =? 0 then fts3RemoveElementByHash pH p h else store (set_data data') p pH);
      Some (old_data, pH)
  | None =>
      if data' =? 0 then Some (0, pH) else
      '(rc, pH) ← (if htsize pH =? 0 then fts3Rehash ok_ht pH 8 else Some (0, pH));
      '(rc, pH) ← (if negb (rc =? 0) then Some (rc, pH)
                   else if htsize pH <=? count pH then fts3Rehash ok_ht pH (htsize pH * 2)
                   else Some (0, pH));
      if negb (rc =? 0) then Some (data', set_count 0 pH) else
      if negb ok_elem then Some (data', pH) else
      let new_elem := fresh (dom (heap pH)) in
      let pH := set_heap (<[new_elem := mkElem None None 0 (Given []) 0]> (heap pH)) pH in
      if copyKey pH && negb (fts3HashMalloc ok_key nKey) then
        pH ← free_elem new_elem pH; Some (data', pH)
      else
      let k := fresh (dom (keys pH)) in
      let pH := if copyKey pH then set_keys (<[k := take (Z.to_nat nKey) key]> (keys pH)) pH else pH in
      pH ← store (set_key (if copyKey pH then Copied k else Given key) nKey) new_elem pH;
      let pH := set_count (count pH + 1) pH in
      let h := Z.land hraw (htsize pH - 1) in
      pH ← fts3HashInsertElement pH h new_elem;
      pH ← store (set_data data') new_elem pH;
      Some (0, pH)
  end.
End hash.
