(* ===== verification/FtsHashLists.v ===== *)
(** * Linked lists and buckets of fts3_hash.c

    The elements of a table as a list of addresses: what the links say of it, how
    linking and unlinking an element change it, and how the segments of the
    buckets follow. *)
From stdpp Require Import gmap.
From S2P Require Import Prelude FtsHash.
Local Open Scope Z_scope.

Section lists.
Context {A : Type}.
Implicit Types (l k : list A) (x y : A).

(** Where an element of one splitting lies in another. *)
Lemma app_cons_cases l1 x l2 k1 k2 :
  l1 ++ x :: l2 = k1 ++ k2 →
  (∃ l, k1 = l1 ++ x :: l ∧ l2 = l ++ k2) ∨ (∃ l, l1 = k1 ++ l ∧ k2 = l ++ x :: l2).
Proof.
  revert k1. induction l1 as [|y l1 IH]; intros [|z k1] Heq; cbn in Heq.
  - right. by exists [].
  - injection Heq as -> ->. left. by exists k1.
  - subst. right. by exists (y :: l1).
  - injection Heq as -> Heq. destruct (IH k1 Heq) as [(l & -> & ->) | (l & -> & ->)]; [left|right]; by exists l.
Qed.

Lemma app_cons_cons l1 x l2 k1 y k2 :
  l1 ++ x :: l2 = k1 ++ y :: k2 →
  (∃ l, l1 = k1 ++ y :: l ∧ k2 = l ++ x :: l2) ∨ (l1 = k1 ∧ x = y ∧ l2 = k2) ∨
  (∃ l, k1 = l1 ++ x :: l ∧ l2 = l ++ y :: k2).
Proof.
  intros Heq. destruct (app_cons_cases _ _ _ _ _ Heq) as [(l & -> & ->) | (l & -> & Hk)].
  - right. right. by exists l.
  - destruct l as [|z l]; cbn in Hk; injection Hk as -> ->.
    + right. left. by rewrite app_nil_r.
    + left. by exists l.
Qed.

Lemma NoDup_split_unique l1 x l2 k1 k2 :
  NoDup (l1 ++ x :: l2) → l1 ++ x :: l2 = k1 ++ x :: k2 → l1 = k1 ∧ l2 = k2.
Proof.
  intros Hnd Heq. rewrite Heq in Hnd.
  destruct (app_cons_cons _ _ _ _ _ _ Heq) as [(l & -> & ->) | [(-> & _ & ->) | (l & -> & ->)]]; [|done|].
  - exfalso. apply NoDup_app in Hnd as (_ & _ & Hnd). apply NoDup_cons in Hnd as [Hx _]. set_solver.
  - exfalso. apply NoDup_app in Hnd as (_ & Hnd & _). apply (Hnd x); set_solver.
Qed.

Lemma last_app_cons l x k : last (l ++ x :: k) = last (x :: k).
Proof. rewrite last_app. by destruct (last (x :: k)) eqn:E; [|apply last_None in E]. Qed.

Lemma last_in l x : last l = Some x → ∃ l', l = l' ++ [x].
Proof. intros Hl. by apply last_Some in Hl. Qed.

Lemma head_in l x : head l = Some x → ∃ l', l = x :: l'.
Proof. intros Hl. by apply head_Some in Hl. Qed.

Lemma head_app_nonempty l k : l ≠ [] → head (l ++ k) = head l.
Proof. by destruct l. Qed.
End lists.

Implicit Types (h : gmap positive Fts3HashElem) (ks : gmap positive (list Z)).
Implicit Types (e p q : positive) (L R : list positive).

(** ** Links *)

(** The links of an element, and what it carries: its key, read from the copies
    [ks] or from the caller's memory, and its data. *)
Definition links h e : option (option positive * option positive) := (λ el, (prev el, next el)) <$> h !! e.
Definition carries ks h e : option (list Z * Z * Z) :=
  el ← h !! e; k ← key_bytes ks (pKey el); Some (k, nKey el, data el).

(** The heap links the elements of [L] in both directions. *)
Definition dll h L : Prop := ∀ A e B, L = A ++ e :: B → links h e = Some (last A, head B).

(** The links forward only. *)
Definition forward h L : Prop := ∀ A e B, L = A ++ e :: B → ∃ el, h !! e = Some el ∧ next el = head B.

Lemma dll_nil h : dll h [].
Proof. intros A e B Heq. by destruct A. Qed.

Lemma dll_forward h L : dll h L → forward h L.
Proof.
  intros Hd A e B Heq. specialize (Hd A e B Heq). unfold links in Hd.
  destruct (h !! e) as [el|]; [|done]. cbn in Hd. exists el. split; [done|]. congruence.
Qed.

Lemma forward_tail h e L : forward h (e :: L) → forward h L.
Proof. intros Hf A x B ->. by apply (Hf (e :: A) x B). Qed.

Lemma forward_ext h h' L : (∀ e, e ∈ L → h' !! e = h !! e) → forward h L → forward h' L.
Proof.
  intros He Hf A x B ->. destruct (Hf A x B eq_refl) as (el & Hel & Hn). exists el. split; [|done].
  rewrite He; [done|]. set_solver.
Qed.

(** Linking [e] between [L1] and [L2]. *)
Lemma dll_insert h h' L1 e L2 :
  NoDup (L1 ++ e :: L2) → dll h (L1 ++ L2) → links h' e = Some (last L1, head L2) →
  (∀ A q, L1 = A ++ [q] → ∀ ls, links h q = Some ls → links h' q = Some (ls.1, Some e)) →
  (∀ q B, L2 = q :: B → ∀ ls, links h q = Some ls → links h' q = Some (Some e, ls.2)) →
  (∀ x, x ∈ L1 ++ L2 → last L1 ≠ Some x → head L2 ≠ Some x → links h' x = links h x) →
  dll h' (L1 ++ e :: L2).
Proof.
  intros Hnd Hd He Hlast Hhead Hother A x B Heq.
  destruct (app_cons_cons _ _ _ _ _ _ Heq) as [(l & -> & ->) | [(<- & -> & <-) | (l & -> & ->)]]; [|done|].
  - (* before [e] *)
    pose proof (Hd A x (l ++ L2)) as Hx. rewrite <-app_assoc in Hx. specialize (Hx eq_refl).
    destruct (decide (l = [])) as [-> | Hl].
    + cbn. apply (Hlast A x eq_refl _ Hx).
    + rewrite head_app_nonempty in Hx |- * by done. rewrite Hother; [done|set_solver| |].
      * intros Hl'. apply last_in in Hl' as (l' & Hl').
        assert (A ++ x :: l = l' ++ x :: []) as Hu by done.
        apply NoDup_split_unique in Hu as [_ Hu]; [done|].
        apply NoDup_app in Hnd. apply Hnd.
      * intros Hh. apply head_in in Hh as (l' & ->). apply NoDup_app in Hnd as (_ & Hnd & _).
        apply (Hnd x); set_solver.
  - (* after [e] *)
    pose proof (Hd (L1 ++ l) x B) as Hx. rewrite <-app_assoc in Hx. specialize (Hx eq_refl).
    rewrite last_app_cons. destruct l as [|y l].
    + cbn. apply (Hhead x B eq_refl _ Hx).
    + rewrite last_app_cons in Hx. rewrite last_cons_cons. rewrite Hother; [done|set_solver| |].
      * intros Hl. apply last_in in Hl as (l' & ->).
        apply NoDup_app in Hnd as (_ & Hnd & _). apply (Hnd x); set_solver.
      * cbn. intros [= ->]. apply NoDup_app in Hnd as (_ & _ & Hnd).
        apply NoDup_cons in Hnd as [_ Hnd]. cbn in Hnd. apply NoDup_cons in Hnd as [Hnd _]. set_solver.
Qed.

(** Unlinking [e]. *)
Lemma dll_remove h h' L1 e L2 :
  NoDup (L1 ++ e :: L2) → dll h (L1 ++ e :: L2) →
  (∀ A q, L1 = A ++ [q] → ∀ ls, links h q = Some ls → links h' q = Some (ls.1, head L2)) →
  (∀ q B, L2 = q :: B → ∀ ls, links h q = Some ls → links h' q = Some (last L1, ls.2)) →
  (∀ x, x ∈ L1 ++ L2 → last L1 ≠ Some x → head L2 ≠ Some x → links h' x = links h x) →
  dll h' (L1 ++ L2).
Proof.
  intros Hnd Hd Hlast Hhead Hother A x B Heq. symmetry in Heq.
  destruct (app_cons_cases _ _ _ _ _ Heq) as [(l & -> & ->) | (l & -> & ->)].
  - pose proof (Hd A x (l ++ e :: L2)) as Hx. rewrite <-app_assoc in Hx. specialize (Hx eq_refl).
    destruct (decide (l = [])) as [-> | Hl].
    + cbn. apply (Hlast A x eq_refl _ Hx).
    + rewrite head_app_nonempty in Hx |- * by done. rewrite Hother; [done|set_solver| |].
      * intros Hl'. apply last_in in Hl' as (l' & Hl').
        assert (A ++ x :: l = l' ++ x :: []) as Hu by done.
        apply NoDup_split_unique in Hu as [_ Hu]; [done|]. apply NoDup_app in Hnd. apply Hnd.
      * intros Hh. apply head_in in Hh as (l' & ->). apply NoDup_app in Hnd as (_ & Hnd & _).
        apply (Hnd x); set_solver.
  - pose proof (Hd (L1 ++ e :: l) x B) as Hx. rewrite <-app_assoc in Hx. specialize (Hx eq_refl).
    rewrite last_app_cons in Hx. destruct l as [|y l].
    + rewrite app_nil_r. apply (Hhead x B eq_refl _ Hx).
    + rewrite last_cons_cons in Hx. rewrite last_app_cons. rewrite Hother; [done|set_solver| |].
      * intros Hl. apply last_in in Hl as (l' & ->).
        apply NoDup_app in Hnd as (_ & Hnd & _). apply (Hnd x); set_solver.
      * cbn. intros [= ->]. apply NoDup_app in Hnd as (_ & _ & Hnd).
        apply NoDup_cons in Hnd as [_ Hnd]. cbn in Hnd. apply NoDup_cons in Hnd as [Hnd _]. set_solver.
Qed.

(** ** Buckets *)

(** The elements of bucket [i] under [idx] are a segment of [L], which the bucket
    counts and points to. *)
Definition bucket_ok (idx : positive → nat) L (i : nat) (b : fts3ht) : Prop :=
  ∃ L1 S L2, L = L1 ++ S ++ L2 ∧ ht_count b = Z.of_nat (length S) ∧ chain b = head S ∧
    ∀ e, e ∈ S ↔ e ∈ L ∧ idx e = i.
Definition buckets (idx : positive → nat) L (t : list fts3ht) : Prop :=
  ∀ i b, t !! i = Some b → bucket_ok idx L i b.

(** Linking [e] in front of [L2], where either [e] comes first or [L2] starts
    with an element of the bucket of [e]. *)
Lemma bucket_ok_insert_ne idx L1 e L2 i b :
  i ≠ idx e → (L1 = [] ∨ ∃ p B, L2 = p :: B ∧ idx p = idx e) →
  bucket_ok idx (L1 ++ L2) i b → bucket_ok idx (L1 ++ e :: L2) i b.
Proof.
  intros Hi Hpos (M1 & S & M2 & Heq & Hc & Hch & HS).
  assert (∀ x, x ∈ S ↔ x ∈ L1 ++ e :: L2 ∧ idx x = i) as HS'.
  { intros x. rewrite HS. split; [set_solver|]. intros [Hin Hx]. split; [|done].
    apply elem_of_app in Hin as [? | [-> | ?]%elem_of_cons]; [set_solver|done|set_solver]. }
  destruct Hpos as [-> | (p & B & -> & Hp)].
  - exists (e :: M1), S, M2. split_and!; try done. cbn in *. by rewrite Heq.
  - destruct (app_cons_cases _ _ _ _ _ Heq) as [(l & -> & ->) | (l & -> & Hl)].
    + exists (L1 ++ e :: p :: l), S, M2. split_and!; try done. by rewrite <-app_assoc.
    + symmetry in Hl. destruct (app_cons_cases l p B S M2) as [(l' & -> & ->) | (l' & -> & ->)]; [done| |].
      * exfalso. assert (p ∈ l ++ p :: l') as Hin by set_solver.
        apply HS in Hin as [_ Hin]. congruence.
      * exists M1, S, (l' ++ e :: p :: B). split_and!; try done. by rewrite <-!app_assoc.
Qed.

Lemma bucket_ok_insert_eq idx L1 e L2 b :
  (L1 = [] ∧ chain b = None ∨ ∃ p B, L2 = p :: B ∧ chain b = Some p) → NoDup (L1 ++ L2) →
  bucket_ok idx (L1 ++ L2) (idx e) b →
  bucket_ok idx (L1 ++ e :: L2) (idx e) (mkHt (ht_count b + 1) (Some e)).
Proof.
  intros Hpos Hnd (M1 & S & M2 & Heq & Hc & Hch & HS).
  assert (∃ N2, L2 = S ++ N2 ∧ (S = [] ∧ L1 = [] ∨ S ≠ [])) as (N2 & HL2 & Hcase).
  { destruct Hpos as [[-> Hb] | (p & B & -> & Hb)].
    - rewrite Hb in Hch. destruct S; [|done]. exists L2. split; [done|]. by left.
    - rewrite Hb in Hch. symmetry in Hch. apply head_in in Hch as (S' & ->).
      cbn in Heq. apply NoDup_split_unique in Heq as [-> ->]; [|done].
      exists M2. split; [done|]. by right. }
  exists L1, (e :: S), N2. split_and!.
  - by rewrite HL2.
  - cbn [ht_count length]. lia.
  - done.
  - intros x. rewrite elem_of_cons, HS. split.
    + intros [-> | [Hx ?]]; [set_solver|]. split; [|done]. set_solver.
    + intros [Hx Hi]. apply elem_of_app in Hx as [? | [-> | ?]%elem_of_cons]; [right|by left|right];
        split; set_solver.
Qed.

Lemma bucket_ok_remove_ne idx L1 e L2 i b :
  i ≠ idx e → bucket_ok idx (L1 ++ e :: L2) i b → bucket_ok idx (L1 ++ L2) i b.
Proof.
  intros Hi (M1 & S & M2 & Heq & Hc & Hch & HS).
  assert (e ∉ S) as He by (intros He; apply HS in He as [_ He]; congruence).
  assert (∀ x, x ∈ S ↔ x ∈ L1 ++ L2 ∧ idx x = i) as HS'.
  { intros x. rewrite HS. split; [|set_solver]. intros [Hin Hx]. split; [|done].
    apply elem_of_app in Hin as [? | [-> | ?]%elem_of_cons]; [set_solver|done|set_solver]. }
  destruct (app_cons_cases _ _ _ _ _ Heq) as [(l & -> & ->) | (l & -> & Hl)].
  - exists (L1 ++ l), S, M2. split_and!; try done. by rewrite <-app_assoc.
  - symmetry in Hl. destruct (app_cons_cases l e L2 S M2) as [(l' & -> & ->) | (l' & -> & ->)]; [done| |].
    + exfalso. apply He. set_solver.
    + exists M1, S, (l' ++ L2). split_and!; try done. by rewrite <-!app_assoc.
Qed.

Lemma bucket_ok_remove_eq idx L1 e L2 b :
  NoDup (L1 ++ e :: L2) → bucket_ok idx (L1 ++ e :: L2) (idx e) b →
  let c := if bool_decide (chain b = Some e) then head L2 else chain b in
  let n := ht_count b - 1 in
  bucket_ok idx (L1 ++ L2) (idx e) (mkHt n (if n <=? 0 then None else c)).
Proof.
  intros Hnd (M1 & S & M2 & Heq & Hc & Hch & HS) c n.
  assert (e ∈ S) as He by (apply HS; set_solver).
  apply list_elem_of_split in He as (S1 & S2 & ->).
  assert (L1 = M1 ++ S1 ∧ L2 = S2 ++ M2) as [-> ->].
  { apply (NoDup_split_unique L1 e L2); [done|]. rewrite Heq. by rewrite <-!app_assoc. }
  exists M1, (S1 ++ S2), M2. split_and!.
  - by rewrite <-!app_assoc.
  - unfold n. cbn. rewrite Hc, !length_app. cbn. lia.
  - unfold n, c. cbn. rewrite Hc, Hch, length_app. cbn [length].
    destruct (Z.leb_spec (Z.of_nat (length S1 + Datatypes.S (length S2)) - 1) 0).
    { by destruct S1, S2; cbn in *; try lia. }
    destruct S1 as [|x S1]; cbn [app head].
    + rewrite bool_decide_true by done. destruct S2; [cbn in *; lia|]. done.
    + rewrite bool_decide_false; [done|]. intros [= ->].
      apply NoDup_app in Hnd as (_ & Hnd & _). apply (Hnd e); set_solver.
  - apply NoDup_app in Hnd as (_ & Hn1 & Hn2). apply NoDup_cons in Hn2 as [Hn2 _].
    assert (e ∉ S1) as He1 by (intros He; apply (Hn1 e); set_solver).
    assert (e ∉ S2) as He2 by set_solver.
    intros x. assert (x ∈ S1 ++ S2 ↔ x ∈ S1 ++ e :: S2 ∧ x ≠ e) as ->.
    { rewrite !elem_of_app, elem_of_cons. split; [|naive_solver].
      intros [Hx | Hx]; (split; [by auto|]); intros ->; done. }
    rewrite HS. split; [set_solver|]. intros [Hx Hi]. split; [split; [set_solver|done]|]. intros ->.
    apply elem_of_app in Hx as [Hx | Hx]; [by apply (Hn1 e Hx); left|done].
Qed.

(** ** Linking and unlinking on the heap *)

Definition alter_opt (f : Fts3HashElem → Fts3HashElem) (o : option positive) h : gmap positive Fts3HashElem :=
  match o with Some p => alter f p h | None => h end.

(** What [fts3HashInsertElement] and [fts3RemoveElementByHash] do to the heap. *)
Definition link h e (pv nx : option positive) : gmap positive Fts3HashElem :=
  alter_opt (set_prev (Some e)) nx
    (alter_opt (set_next (Some e)) pv (alter (λ x, set_prev pv (set_next nx x)) e h)).
Definition unlink h (pv nx : option positive) : gmap positive Fts3HashElem :=
  alter_opt (set_prev pv) nx (alter_opt (set_next nx) pv h).

Lemma lookup_alter_opt_ne f o h e : o ≠ Some e → alter_opt f o h !! e = h !! e.
Proof. destruct o as [p|]; [|done]. intros Hp. apply lookup_alter_ne. congruence. Qed.

Lemma links_alter_opt_ne f o h e : o ≠ Some e → links (alter_opt f o h) e = links h e.
Proof. intros. unfold links. by rewrite lookup_alter_opt_ne. Qed.

Lemma links_alter_next o h e ls :
  links h e = Some ls → links (alter_opt (set_next o) (Some e) h) e = Some (ls.1, o).
Proof.
  unfold links, alter_opt. rewrite lookup_alter_eq. destruct (h !! e); [|done]. cbn. by intros [= <-].
Qed.

Lemma links_alter_prev o h e ls :
  links h e = Some ls → links (alter_opt (set_prev o) (Some e) h) e = Some (o, ls.2).
Proof.
  unfold links, alter_opt. rewrite lookup_alter_eq. destruct (h !! e); [|done]. cbn. by intros [= <-].
Qed.

Lemma carries_alter f ks h p e : (∀ x, pKey (f x) = pKey x ∧ nKey (f x) = nKey x ∧ data (f x) = data x) →
  carries ks (alter f p h) e = carries ks h e.
Proof.
  intros Hf. unfold carries. destruct (decide (p = e)) as [<-|]; [|by rewrite lookup_alter_ne].
  rewrite lookup_alter_eq. destruct (h !! p) as [x|]; [|done]. cbn. by destruct (Hf x) as (-> & -> & ->).
Qed.

Lemma carries_alter_opt f ks h o e : (∀ x, pKey (f x) = pKey x ∧ nKey (f x) = nKey x ∧ data (f x) = data x) →
  carries ks (alter_opt f o h) e = carries ks h e.
Proof. destruct o; [apply carries_alter|done]. Qed.

Lemma carries_link ks h e pv nx x : carries ks (link h e pv nx) x = carries ks h x.
Proof. unfold link. rewrite !carries_alter_opt by done. by rewrite carries_alter. Qed.

Lemma carries_unlink ks h pv nx x : carries ks (unlink h pv nx) x = carries ks h x.
Proof. unfold unlink. by rewrite !carries_alter_opt by done. Qed.

(** The key pointer of an element. *)
Definition key_ptr_at h e : option key_ptr := pKey <$> h !! e.

Lemma key_ptr_alter f h p e : (∀ x, pKey (f x) = pKey x) → key_ptr_at (alter f p h) e = key_ptr_at h e.
Proof.
  intros Hf. unfold key_ptr_at. destruct (decide (p = e)) as [<-|]; [|by rewrite lookup_alter_ne].
  rewrite lookup_alter_eq. destruct (h !! p) as [x|]; [|done]. cbn. by rewrite Hf.
Qed.
Lemma key_ptr_link h e pv nx x : key_ptr_at (link h e pv nx) x = key_ptr_at h x.
Proof. unfold link, alter_opt. destruct pv, nx; by rewrite !key_ptr_alter. Qed.
Lemma key_ptr_unlink h pv nx x : key_ptr_at (unlink h pv nx) x = key_ptr_at h x.
Proof. unfold unlink, alter_opt. destruct pv, nx; by rewrite ?key_ptr_alter. Qed.

Lemma dom_link h e pv nx : dom (link h e pv nx) = dom h.
Proof. unfold link, alter_opt. destruct pv, nx; rewrite ?dom_alter_L; done. Qed.

Lemma dom_unlink h pv nx : dom (unlink h pv nx) = dom h.
Proof. unfold unlink, alter_opt. destruct pv, nx; rewrite ?dom_alter_L; done. Qed.

Lemma last_elem {A} (l : list A) x : last l = Some x → x ∈ l.
Proof. intros [l' ->]%last_in. set_solver. Qed.

Lemma head_elem {A} (l : list A) x : head l = Some x → x ∈ l.
Proof. intros [l' ->]%head_in. set_solver. Qed.

Lemma dll_link h L1 e L2 :
  NoDup (L1 ++ e :: L2) → dll h (L1 ++ L2) → is_Some (h !! e) →
  dll (link h e (last L1) (head L2)) (L1 ++ e :: L2).
Proof.
  intros Hnd Hd [el Hel]. pose proof Hnd as Hnd'.
  apply NoDup_app in Hnd' as (_ & Hn1 & Hn2). apply NoDup_cons in Hn2 as [Hn2 _].
  assert (last L1 ≠ Some e) as Hle by (intros Hl%last_elem; apply (Hn1 e Hl); left).
  assert (head L2 ≠ Some e) as Hhe by (by intros Hl%head_elem).
  assert (∀ q, last L1 = Some q → head L2 ≠ Some q) as Hlh.
  { intros q Hl%last_elem Hh%head_elem. apply (Hn1 q Hl). by right. }
  assert (∀ x f, x ≠ e → links (alter f e h) x = links h x) as Halter.
  { intros x f Hx. unfold links. by rewrite lookup_alter_ne. }
  unfold link. apply (dll_insert h); [done|done| | | |].
  - rewrite !links_alter_opt_ne by done. unfold links. rewrite lookup_alter_eq, Hel. done.
  - intros A q -> ls Hls. assert (last (A ++ [q]) = Some q) as Hq by apply last_snoc.
    rewrite links_alter_opt_ne by (by apply Hlh). rewrite Hq. apply links_alter_next.
    rewrite Halter; [done|]. congruence.
  - intros q B -> ls Hls. cbn [head]. apply links_alter_prev. rewrite links_alter_opt_ne.
    + rewrite Halter; [done|]. cbn in Hhe. congruence.
    + intros Hq. by apply (Hlh q Hq).
  - intros x Hx Hl Hh. rewrite !links_alter_opt_ne by done. apply Halter. set_solver.
Qed.

Lemma dll_unlink h L1 e L2 :
  NoDup (L1 ++ e :: L2) → dll h (L1 ++ e :: L2) →
  dll (unlink h (last L1) (head L2)) (L1 ++ L2).
Proof.
  intros Hnd Hd. pose proof Hnd as Hnd'.
  apply NoDup_app in Hnd' as (_ & Hn1 & Hn2).
  assert (∀ q, last L1 = Some q → head L2 ≠ Some q) as Hlh.
  { intros q Hl%last_elem Hh%head_elem. apply (Hn1 q Hl). by right. }
  unfold unlink. apply (dll_remove h _ L1 e L2); [done|done| | |].
  - intros A q -> ls Hls. assert (last (A ++ [q]) = Some q) as Hq by apply last_snoc.
    rewrite links_alter_opt_ne by (by apply Hlh). rewrite Hq. by apply links_alter_next.
  - intros q B -> ls Hls. cbn [head]. apply links_alter_prev. rewrite links_alter_opt_ne; [done|].
    intros Hq. by apply (Hlh q Hq).
  - intros x Hx Hl Hh. by rewrite !links_alter_opt_ne by done.
Qed.

Lemma lookup_link_notin h L1 e L2 x :
  x ∉ L1 ++ e :: L2 → link h e (last L1) (head L2) !! x = h !! x.
Proof.
  intros Hx. unfold link. rewrite !lookup_alter_opt_ne.
  - apply lookup_alter_ne. set_solver.
  - intros Hl%last_elem. set_solver.
  - intros Hl%head_elem. set_solver.
Qed.
