(* ===== verification/FtsHashProofs.v ===== *)
(** * The hash tables of fts3_hash.c implement maps

    The invariant of a table, its abstraction to a finite map from keys to data,
    and the refinement of each operation, with every allocation failure. *)
From stdpp Require Import gmap.
From S2P Require Import Prelude FtsHash FtsHashLists.
Local Open Scope Z_scope.

Section hash.
Context (char_signed : bool) (sizeof_ht : Z).
Implicit Types (pH : Fts3Hash) (p e : positive) (L : list positive) (key : list Z) (m : gmap (list Z) Z).
Implicit Types (h : gmap positive Fts3HashElem) (ks : gmap positive (list Z)) (cp : bool).

(** ** Keys *)

(** The keys that the hash and the comparison treat alike: a string has no zero
    byte but possibly its terminator, and is not empty. *)
Definition key_ok (kc : Z) key : Prop :=
  kc = FTS3_HASH_STRING → key ≠ [] ∧ 0 ∉ removelast key.

(** The hash of a key, and its bucket in a table of [n] buckets. *)
Definition hash_of (kc : Z) key : Z := ftsHashFunction char_signed kc key (Z.of_nat (length key)).
Definition slot (kc n : Z) key : nat := Z.to_nat (Z.land (hash_of kc key) (n - 1)).

Lemma cstring_inj k1 k2 :
  length k1 = length k2 → 0 ∉ removelast k1 → 0 ∉ removelast k2 → cstring k1 = cstring k2 → k1 = k2.
Proof.
  revert k2. induction k1 as [|c k1 IH]; intros [|d k2] Hl H1 H2 Hc; try done.
  injection Hl as Hl. cbn [cstring] in Hc.
  destruct k1 as [|c' k1], k2 as [|d' k2]; try done.
  - destruct (Z.eqb_spec c 0), (Z.eqb_spec d 0); congruence.
  - cbn [removelast] in H1, H2. apply not_elem_of_cons in H1 as [H1 H1'], H2 as [H2 H2'].
    rewrite (proj2 (Z.eqb_neq c 0)), (proj2 (Z.eqb_neq d 0)) in Hc by done.
    injection Hc as -> Hc. f_equal. by apply IH.
Qed.

Lemma compare_spec kc k1 k2 :
  key_ok kc k1 → key_ok kc k2 →
  (ftsCompareFunction kc k1 (Z.of_nat (length k1)) k2 (Z.of_nat (length k2)) =? 0) = bool_decide (k1 = k2).
Proof.
  intros H1 H2. unfold ftsCompareFunction. destruct (Z.eqb_spec kc FTS3_HASH_STRING) as [->|Hkc].
  - destruct (H1 eq_refl) as [_ Hz1], (H2 eq_refl) as [_ Hz2]. unfold fts3StrCompare.
    destruct (Z.eqb_spec (Z.of_nat (length k1)) (Z.of_nat (length k2))) as [Hl|Hl]; cbn [negb].
    2: { symmetry. apply bool_decide_eq_false_2. congruence. }
    apply Nat2Z.inj in Hl. rewrite Nat2Z.id, firstn_all. rewrite Hl, firstn_all.
    case_bool_decide as Hc; symmetry; cbn.
    + apply bool_decide_eq_true_2. by apply cstring_inj.
    + apply bool_decide_eq_false_2. congruence.
  - unfold fts3BinCompare.
    destruct (Z.eqb_spec (Z.of_nat (length k1)) (Z.of_nat (length k2))) as [Hl|Hl]; cbn [negb].
    2: { symmetry. apply bool_decide_eq_false_2. congruence. }
    apply Nat2Z.inj in Hl. rewrite Nat2Z.id, firstn_all. rewrite Hl, firstn_all.
    by case_bool_decide; symmetry; cbn.
Qed.

(** ** The invariant *)

(** The key of an element on a heap; [idx] is its bucket. *)
Definition key_at ks h e : list Z := from_option (λ c, c.1.1) [] (carries ks h e).
Definition idx pH (n : Z) e : nat := slot (keyClass pH) n (key_at (keys pH) (heap pH) e).

(** Each element has a copy of its key for its own if the table copies keys, and
    none otherwise; there are no other copies. *)
Record owned cp ks h : Prop := {
  own_ptr e k : key_ptr_at h e = Some k →
    if cp then ∃ b, k = Copied b ∧ is_Some (ks !! b) else ∃ z, k = Given z;
  own_inj e e' (b : positive) : key_ptr_at h e = Some (Copied b) → key_ptr_at h e' = Some (Copied b) → e = e';
  own_all (b : positive) : is_Some (ks !! b) → ∃ e, key_ptr_at h e = Some (Copied b)
}.

(** The array [t] is the only one allocated. *)
Definition has_table pH (t : list fts3ht) : Prop := ∃ p, ht pH = Some p ∧ tables pH = {[p := t]}.

(** No table, or one with a power of two buckets. *)
Definition table_ok pH L : Prop :=
  (ht pH = None ∧ tables pH = ∅ ∧ htsize pH = 0 ∧ L = []) ∨
  ∃ t k, has_table pH t ∧ htsize pH = 2 ^ k ∧ 0 ≤ k ∧ Z.of_nat (length t) = htsize pH ∧
    buckets (idx pH (htsize pH)) L t.

(** What the elements carry as a map: their keys are distinct and fit for the key
    class, and no data is null. *)
Record contents (kc : Z) (c : positive → option (list Z * Z * Z)) m : Prop := {
  cont_elem e key n d : c e = Some (key, n, d) → n = Z.of_nat (length key) ∧ key_ok kc key ∧ d ≠ 0;
  cont_keys e e' key n d n' d' : c e = Some (key, n, d) → c e' = Some (key, n', d') → e = e';
  cont_map key d : m !! key = Some d ↔ ∃ e n, c e = Some (key, n, d)
}.

(** The table [pH] has the elements [L], in the order of its list, and stands for
    the map [m]. The heaps hold nothing else. The count is too small by [lost],
    the number of elements at the last failure to grow. *)
Record rep pH L (lost : Z) m : Prop := {
  rep_list : dll (heap pH) L;
  rep_nodup : NoDup L;
  rep_first : first pH = head L;
  rep_heap : dom (heap pH) = list_to_set L;
  rep_owned : owned (copyKey pH) (keys pH) (heap pH);
  rep_table : table_ok pH L;
  rep_lost : 0 ≤ lost ≤ Z.of_nat (length L);
  rep_count : count pH = Z.of_nat (length L) - lost;
  rep_contents : contents (keyClass pH) (carries (keys pH) (heap pH)) m
}.

Lemma carries_is_Some cp ks h e : owned cp ks h → is_Some (carries ks h e) ↔ is_Some (h !! e).
Proof.
  intros Ho. unfold carries. destruct (h !! e) as [el|] eqn:He; [|split; by intros []]. cbn [mbind option_bind].
  assert (is_Some (key_bytes ks (pKey el))) as [k ->]; [|cbn; split; eauto].
  pose proof (own_ptr _ _ _ Ho e (pKey el)) as Hk. unfold key_ptr_at in Hk. rewrite He in Hk.
  specialize (Hk eq_refl). destruct cp; [destruct Hk as (b & -> & ?)|destruct Hk as [z ->]]; cbn; eauto.
Qed.

Lemma carries_Some ks h e key n d :
  carries ks h e = Some (key, n, d) ↔
  ∃ el, h !! e = Some el ∧ key_bytes ks (pKey el) = Some key ∧ nKey el = n ∧ data el = d.
Proof.
  unfold carries. destruct (h !! e) as [el|]; cbn [mbind option_bind].
  - destruct (key_bytes ks (pKey el)) as [k|] eqn:Ek; cbn [mbind option_bind]; split.
    + intros [= <- <- <-]. by exists el.
    + intros (el' & [= <-] & Hk & <- & <-). rewrite Ek in Hk. by injection Hk as ->.
    + done.
    + intros (el' & [= <-] & Hk & _). congruence.
  - split; [done|]. by intros (? & ? & _).
Qed.

Lemma key_at_eq ks h e el key : h !! e = Some el → key_bytes ks (pKey el) = Some key → key_at ks h e = key.
Proof. intros He Hk. unfold key_at, carries. rewrite He. cbn. by rewrite Hk. Qed.

Lemma dom_in pH L e : dom (heap pH) = list_to_set L → e ∈ L ↔ is_Some (heap pH !! e).
Proof. intros Hd. rewrite <-elem_of_dom, Hd. by rewrite elem_of_list_to_set. Qed.

Lemma dom_size pH L : NoDup L → dom (heap pH) = list_to_set L → size (heap pH) = length L.
Proof. intros Hnd Hd. rewrite <-size_dom, Hd. by apply size_list_to_set. Qed.

Lemma contents_ext kc (c c' : positive → option (list Z * Z * Z)) m :
  (∀ e, c' e = c e) → contents kc c m → contents kc c' m.
Proof.
  intros He [H1 H2 H3]. split.
  - intros e key n d. rewrite He. apply H1.
  - intros e e' key n d n' d'. rewrite !He. apply H2.
  - intros key d. rewrite H3. by setoid_rewrite He.
Qed.

Lemma owned_ext cp ks h h' : (∀ e, key_ptr_at h' e = key_ptr_at h e) → owned cp ks h → owned cp ks h'.
Proof.
  intros He [H1 H2 H3]. split.
  - intros e k. rewrite He. apply H1.
  - intros e e' b. rewrite !He. apply H2.
  - intros b Hb. destruct (H3 b Hb) as [e Hp]. exists e. by rewrite He.
Qed.

(** Freeing an element with its copy. *)
Lemma owned_free pH h e el :
  owned (copyKey pH) (keys pH) h → key_ptr_at h e = Some (pKey el) →
  ∃ ks', (if copyKey pH then free_key (pKey el) pH else Some pH) = Some (set_keys ks' pH) ∧
    owned (copyKey pH) ks' (delete e h) ∧
    ∀ x, x ≠ e → carries ks' (delete e h) x = carries (keys pH) h x.
Proof.
  intros [H1 H2 H3] He. pose proof (H1 _ _ He) as Hp.
  assert (∀ x, x ≠ e → key_ptr_at (delete e h) x = key_ptr_at h x) as Hne.
  { intros x Hx. unfold key_ptr_at. by rewrite lookup_delete_ne. }
  assert (key_ptr_at (delete e h) e = None) as Hdel by (unfold key_ptr_at; by rewrite lookup_delete_eq).
  destruct (copyKey pH).
  - destruct Hp as (b & Hb & Hk). rewrite Hb. cbn [free_key]. destruct Hk as [z Hz]. rewrite Hz. cbn [mbind option_bind].
    exists (delete b (keys pH)). split; [done|].
    assert (∀ x b', x ≠ e → key_ptr_at h x = Some (Copied b') → b' ≠ b) as Hinj.
    { intros x b' Hx Hxb ->. apply Hx, (H2 x e b); [done|]. by rewrite <-Hb. }
    split; [split|].
    + intros x k Hx. destruct (decide (x = e)) as [->|Hxe]; [congruence|]. rewrite Hne in Hx by done.
      destruct (H1 _ _ Hx) as (b' & -> & Hs). exists b'. split; [done|].
      rewrite lookup_delete_ne; [done|]. apply not_eq_sym. by apply (Hinj x).
    + intros x x' b' Hx Hx'. destruct (decide (x = e)) as [->|]; [congruence|].
      destruct (decide (x' = e)) as [->|]; [congruence|]. rewrite Hne in Hx, Hx' by done. by apply (H2 x x' b').
    + intros b' Hs. destruct (decide (b' = b)) as [->|Hb']; [rewrite lookup_delete_eq in Hs; by destruct Hs|].
      rewrite lookup_delete_ne in Hs by done. destruct (H3 b' Hs) as [x Hx]. exists x. rewrite Hne; [done|].
      intros ->. congruence.
    + intros x Hx. unfold carries. rewrite lookup_delete_ne by done.
      destruct (h !! x) as [elx|] eqn:Hhx; [|done]. cbn [mbind option_bind].
      destruct (pKey elx) as [b'|z'] eqn:Hkx; [|done]. cbn [key_bytes]. rewrite lookup_delete_ne; [done|].
      apply not_eq_sym, (Hinj x); [done|]. unfold key_ptr_at. by rewrite Hhx, <-Hkx.
  - exists (keys pH). split; [by destruct pH|]. split; [split|].
    + intros x k Hx. destruct (decide (x = e)) as [->|Hxe]; [congruence|]. rewrite Hne in Hx by done. by apply (H1 x).
    + intros x x' b' Hx Hx'. destruct (decide (x = e)) as [->|]; [congruence|].
      destruct (decide (x' = e)) as [->|]; [congruence|]. rewrite Hne in Hx, Hx' by done. by apply (H2 x x' b').
    + intros b' Hs. destruct (H3 b' Hs) as [x Hx]. exists x. destruct (decide (x = e)) as [->|Hxe]; [|by rewrite Hne].
      rewrite He in Hx. destruct Hp as [z Hz]. congruence.
    + intros x Hx. unfold carries. by rewrite lookup_delete_ne.
Qed.

Lemma buckets_ext (i i' : positive → nat) L t : (∀ e, e ∈ L → i' e = i e) → buckets i L t → buckets i' L t.
Proof.
  intros Hi Hb j b Hj. destruct (Hb j b Hj) as (L1 & S & L2 & HL & Hc & Hch & HS).
  exists L1, S, L2. split_and!; try done. intros e. rewrite HS.
  split; (intros [He Hj']; split; [done|]); by rewrite ?Hi, <-?Hi in *.
Qed.

Lemma slot_bound kc n k key : n = 2 ^ k → 0 ≤ k → Z.of_nat (slot kc n key) < n.
Proof.
  intros -> Hk. unfold slot. replace (2 ^ k - 1) with (Z.ones k) by (rewrite Z.ones_equiv; lia).
  rewrite Z.land_ones by done. pose proof (Z.mod_pos_bound (hash_of kc key) (2 ^ k)). lia.
Qed.

(** ** Steps on the heap *)

Lemma store_eq f p pH el :
  heap pH !! p = Some el → store f p pH = Some (set_heap (alter f p (heap pH)) pH).
Proof.
  intros Hp. unfold store. rewrite Hp. cbn. do 2 f_equal. apply map_eq. intros q.
  destruct (decide (p = q)) as [<-|]; [by rewrite lookup_insert_eq, lookup_alter_eq, Hp|].
  by rewrite lookup_insert_ne, lookup_alter_ne.
Qed.

Lemma set_heap_set_heap h h' pH : set_heap h (set_heap h' pH) = set_heap h pH.
Proof. done. Qed.

(** The array of a table, and what becomes of it. *)
Definition set_table (t : list fts3ht) pH : Fts3Hash :=
  set_tables (match ht pH with Some p => {[p := t]} | None => tables pH end) pH.

Lemma get_entry_eq pH t i : has_table pH t → get_entry i pH = t !! Z.to_nat i.
Proof. intros (p & Hp & Ht). unfold get_entry, the_table. by rewrite Hp, Ht; cbn; rewrite lookup_singleton_eq. Qed.

Lemma set_entry_eq pH t i b : has_table pH t → set_entry i b pH = set_table (<[Z.to_nat i := b]> t) pH.
Proof.
  intros (p & Hp & Ht). unfold set_entry, set_table. rewrite Hp, Ht. f_equal. apply alter_singleton_eq.
Qed.

Lemma has_set_table pH t t' : has_table pH t → has_table (set_table t' pH) t'.
Proof. intros (p & Hp & _). exists p. unfold set_table. cbn. by rewrite Hp. Qed.

(** Linking an element in front of [L2], as the code does it. *)
Lemma fts3HashInsertElement_spec pH i pNew L1 L2 t b :
  NoDup (L1 ++ pNew :: L2) → dll (heap pH) (L1 ++ L2) → first pH = head (L1 ++ L2) →
  is_Some (heap pH !! pNew) → has_table pH t → t !! Z.to_nat i = Some b →
  (L1 = [] ∧ chain b = None ∨ ∃ p B, L2 = p :: B ∧ chain b = Some p) →
  fts3HashInsertElement pH i pNew =
    Some (set_table (<[Z.to_nat i := mkHt (ht_count b + 1) (Some pNew)]> t)
      (set_first (head (L1 ++ pNew :: L2)) (set_heap (link (heap pH) pNew (last L1) (head L2)) pH))).
Proof.
  intros Hnd Hd Hfirst [el Hel] Ht Hb Hpos. pose proof Hnd as Hnd'.
  apply NoDup_app in Hnd' as (_ & Hn1 & Hn2). apply NoDup_cons in Hn2 as [Hn2 _].
  unfold fts3HashInsertElement. rewrite (get_entry_eq pH t), Hb by done.
  cbn [mbind option_bind]. destruct Hpos as [[-> ->] | (p & B & -> & ->)].
  - (* at the front of the list *)
    rewrite (store_eq _ _ _ el) by done. cbn [mbind option_bind].
    change (first (set_heap ?h pH)) with (first pH). rewrite Hfirst. cbn [app] in *.
    destruct L2 as [|f B]; cbn [head] in *.
    + cbn [mbind option_bind]. rewrite (store_eq _ _ _ (set_next None el)) by (cbn; by rewrite lookup_alter_eq, Hel).
      cbn [mbind option_bind]. erewrite set_entry_eq by exact Ht. unfold link, alter_opt. cbn [heap set_heap set_first]. rewrite ?set_heap_set_heap. do 4 f_equal.
      by rewrite alter_alter_eq.
    + assert (f ≠ pNew) as Hf by set_solver.
      destruct (dll_forward _ _ Hd [] f B eq_refl) as (fe & Hfe & _).
      rewrite (store_eq _ _ _ fe) by (cbn; by rewrite lookup_alter_ne).
      cbn [mbind option_bind]. rewrite (store_eq _ _ _ (set_next (Some f) el)).
      2: { cbn. by rewrite lookup_alter_ne, lookup_alter_eq, Hel by done. }
      cbn [mbind option_bind]. erewrite set_entry_eq by exact Ht. unfold link, alter_opt. cbn [heap set_heap set_first last]. rewrite ?set_heap_set_heap. do 4 f_equal.
      rewrite (alter_alter_ne _ _ _ pNew f) by done. by rewrite alter_alter_eq.
  - (* in front of [p] *)
    assert (p ≠ pNew) as Hp by set_solver.
    pose proof (Hd L1 p B eq_refl) as Hlinks. unfold links in Hlinks.
    destruct (heap pH !! p) as [pe|] eqn:Hpe; [|done]. cbn in Hlinks. injection Hlinks as Hprev _.
    rewrite (store_eq _ _ _ el) by done. cbn [mbind option_bind].
    assert (heap (set_heap (alter (set_next (Some p)) pNew (heap pH)) pH) !! p = Some pe) as ->
      by (cbn; by rewrite lookup_alter_ne). cbn [mbind option_bind].
    rewrite (store_eq _ _ _ (set_next (Some p) el)) by (cbn; by rewrite lookup_alter_eq, Hel).
    cbn [mbind option_bind]. rewrite Hprev. cbn [heap set_heap].
    rewrite alter_alter_eq.
    set (h2 := alter _ pNew (heap pH)).
    assert (∀ q, q ≠ pNew → h2 !! q = heap pH !! q) as Hh2 by (intros; by apply lookup_alter_ne).
    destruct (last L1) as [q|] eqn:Hlast.
    + apply last_in in Hlast as (A & ->).
      assert (q ≠ pNew ∧ q ≠ p) as [Hq Hqp].
      { split; intros ->; apply (Hn1 pNew) || apply (Hn1 p); set_solver. }
      destruct (dll_forward _ _ Hd A q (p :: B)) as (qe & Hqe & _); [by rewrite <-app_assoc|].
      rewrite (store_eq _ _ _ qe) by (cbn; by rewrite Hh2). cbn [mbind option_bind].
      rewrite (store_eq _ _ _ pe) by (cbn; by rewrite lookup_alter_ne, Hh2 by done).
      cbn [mbind option_bind]. erewrite set_entry_eq by exact Ht.
      assert (head ((A ++ [q]) ++ pNew :: p :: B) = first pH) as ->.
      { rewrite Hfirst. by destruct A. }
      done.
    + apply last_None in Hlast as ->. cbn [mbind option_bind].
      rewrite (store_eq _ _ _ pe) by (cbn; by rewrite Hh2). cbn [mbind option_bind].
      erewrite set_entry_eq by exact Ht. done.
Qed.

(** ** Linking an element into its bucket *)

(** [pNew] joins the list [L] of a table that has buckets. *)
Record linked pH pH' (pNew : positive) L L' : Prop := {
  linked_perm : L' ≡ₚ pNew :: L;
  linked_dll : dll (heap pH') L';
  linked_first : first pH' = head L';
  linked_carries e : carries (keys pH) (heap pH') e = carries (keys pH) (heap pH) e;
  linked_ptr e : key_ptr_at (heap pH') e = key_ptr_at (heap pH) e;
  linked_other e : e ∉ L' → heap pH' !! e = heap pH !! e;
  linked_dom : dom (heap pH') = dom (heap pH);
  linked_same : keyClass pH' = keyClass pH ∧ copyKey pH' = copyKey pH ∧ count pH' = count pH ∧
    htsize pH' = htsize pH ∧ keys pH' = keys pH
}.

Lemma idx_carries pH pH' n e :
  keyClass pH' = keyClass pH → carries (keys pH') (heap pH') e = carries (keys pH) (heap pH) e →
  idx pH' n e = idx pH n e.
Proof. intros Hk Hc. unfold idx, key_at. by rewrite Hc, Hk. Qed.

Lemma link_spec pH pNew L t n i :
  NoDup (pNew :: L) → dll (heap pH) L → first pH = head L → is_Some (heap pH !! pNew) →
  has_table pH t → buckets (idx pH n) L t → Z.to_nat i = idx pH n pNew → (Z.to_nat i < length t)%nat →
  ∃ pH' L' t', fts3HashInsertElement pH i pNew = Some pH' ∧ linked pH pH' pNew L L' ∧
    has_table pH' t' ∧ length t' = length t ∧ buckets (idx pH' n) L' t'.
Proof.
  intros Hnd Hd Hfirst Hnew Ht Hbs Hi Hlt.
  destruct (lookup_lt_is_Some_2 t (Z.to_nat i) Hlt) as [b Hb].
  destruct (Hbs _ _ Hb) as (M1 & S & M2 & HL & Hcnt & Hch & HS).
  (* where the code links it *)
  assert (∃ L1 L2, L = L1 ++ L2 ∧
    (L1 = [] ∧ chain b = None ∨ ∃ p B, L2 = p :: B ∧ chain b = Some p) ∧
    (L1 = [] ∨ ∃ p B, L2 = p :: B ∧ idx pH n p = idx pH n pNew)) as (L1 & L2 & -> & Hpos & Hpos').
  { destruct S as [|p S].
    - exists [], L. split_and!; [done|by left|by left].
    - exists M1, (p :: S ++ M2). split_and!; [done|right; by exists p, (S ++ M2)|].
      right. exists p, (S ++ M2). split; [done|]. rewrite <-Hi. apply HS. left. }
  assert (L1 ++ pNew :: L2 ≡ₚ pNew :: L1 ++ L2) as Hperm by (symmetry; apply Permutation_middle).
  assert (NoDup (L1 ++ pNew :: L2)) as Hnd' by (by rewrite Hperm).
  rewrite (fts3HashInsertElement_spec pH i pNew L1 L2 t b) by done.
  set (pH' := set_table _ _).
  assert (∀ e, idx pH' n e = idx pH n e) as Hidx.
  { intros e. apply idx_carries; [done|]. apply carries_link. }
  exists pH', (L1 ++ pNew :: L2), (<[Z.to_nat i := mkHt (ht_count b + 1) (Some pNew)]> t).
  split_and!; [done|split|by eapply has_set_table|apply length_insert|].
  - done.
  - by apply dll_link.
  - done.
  - intros e. apply carries_link.
  - intros e. apply key_ptr_link.
  - intros e. apply lookup_link_notin.
  - apply dom_link.
  - done.
  - apply (buckets_ext (idx pH n)); [by intros|]. intros j c Hj.
    destruct (decide (j = Z.to_nat i)) as [->|Hne].
    + rewrite list_lookup_insert_eq in Hj by done. injection Hj as <-. rewrite Hi.
      apply bucket_ok_insert_eq; [done|by apply NoDup_cons in Hnd as [_ Hnd]|]. rewrite <-Hi. by apply Hbs.
    + rewrite list_lookup_insert_ne in Hj by done.
      apply bucket_ok_insert_ne; [by rewrite <-Hi|done|by apply Hbs].
Qed.

(** ** Rehashing *)

Lemma rehash_loop_spec n pH R L t k :
  NoDup (L ++ R) → dll (heap pH) L → forward (heap pH) R → first pH = head L →
  (∀ e, e ∈ L ++ R → is_Some (carries (keys pH) (heap pH) e)) →
  (∀ e key nk d, carries (keys pH) (heap pH) e = Some (key, nk, d) → nk = Z.of_nat (length key)) →
  has_table pH t → n = 2 ^ k → 0 ≤ k → Z.of_nat (length t) = n → buckets (idx pH n) L t →
  ∃ pH' L' t', rehash_loop char_signed (length R) n (head R) pH = Some pH' ∧
    L' ≡ₚ L ++ R ∧ dll (heap pH') L' ∧ first pH' = head L' ∧
    (∀ e, carries (keys pH) (heap pH') e = carries (keys pH) (heap pH) e) ∧
    (∀ e, key_ptr_at (heap pH') e = key_ptr_at (heap pH) e) ∧ dom (heap pH') = dom (heap pH) ∧
    (keyClass pH' = keyClass pH ∧ copyKey pH' = copyKey pH ∧ count pH' = count pH ∧
     htsize pH' = htsize pH ∧ keys pH' = keys pH) ∧
    has_table pH' t' ∧ Z.of_nat (length t') = n ∧ buckets (idx pH' n) L' t'.
Proof.
  revert pH L t. induction R as [|e R IH]; intros pH L t Hnd Hd Hf Hfirst Hin Hlen Ht Hn Hk Hlt Hbs.
  { exists pH, L, t. cbn. split_and!; try done. by rewrite app_nil_r. }
  cbn [length head rehash_loop].
  destruct (Hf [] e R eq_refl) as (el & Hel & Hnext). rewrite Hel. cbn [mbind option_bind].
  destruct (Hin e) as [[[key nk] d] Hc]; [set_solver|]. pose proof (Hlen _ _ _ _ Hc) as Hnk.
  apply carries_Some in Hc as (el' & Hel' & Hkey & HnKey & _). rewrite Hel in Hel'. injection Hel' as <-.
  rewrite Hkey. cbn [mbind option_bind]. set (i := Z.land _ _).
  assert (Z.to_nat i = idx pH n e) as Hi.
  { unfold idx, slot, hash_of. rewrite (key_at_eq _ _ _ el key) by done. by rewrite <-Hnk, <-HnKey. }
  assert (Z.to_nat i < length t)%nat as Hit.
  { pose proof (slot_bound (keyClass pH) n k (key_at (keys pH) (heap pH) e) Hn Hk) as Hs.
    rewrite Hi. unfold idx. lia. }
  assert (NoDup (e :: L)) as HndeL.
  { rewrite <-Permutation_middle in Hnd. apply NoDup_cons in Hnd as [He Hnd].
    apply NoDup_cons. split; [set_solver|]. by apply NoDup_app in Hnd as [? _]. }
  destruct (link_spec pH e L t n i) as (pH1 & L1 & t1 & -> & Hl & Ht1 & Hlt1 & Hbs1); try done.
  cbn [mbind option_bind]. rewrite Hnext.
  destruct Hl as [Hp Hd1 Hf1 Hc1 Hptr1 Ho1 Hdom1 (Hk1 & Hcp1 & Hcn1 & Hsz1 & Hks1)].
  assert (NoDup (L1 ++ R)) as Hnd1.
  { rewrite Hp. cbn [app]. by rewrite Permutation_middle. }
  destruct (IH pH1 L1 t1) as (pH' & L' & t' & Heq & Hp' & Hrest); try done.
  - apply (forward_ext (heap pH)); [|by apply forward_tail in Hf].
    intros x Hx. apply Ho1. intros Hx1. apply NoDup_app in Hnd1 as (_ & Hnd1 & _). by apply (Hnd1 x).
  - intros x Hx. rewrite Hks1, Hc1. apply Hin. rewrite Hp in Hx. set_solver.
  - intros x key' nk' d'. rewrite Hks1, Hc1. apply Hlen.
  - by rewrite Hlt1.
  - exists pH', L', t'. rewrite Heq.
    destruct Hrest as (? & ? & Hc & Hptr & Hdom & (? & ? & ? & ? & ?) & ? & ? & ?).
    rewrite Hks1 in Hc.
    split_and!; try done; try congruence.
    rewrite Hp', Hp. cbn [app]. by rewrite Permutation_middle.
Qed.

(** The array that a table frees when it gets a new one. *)
Lemma free_old_table pH L p t :
  table_ok pH L → p = fresh (dom (tables pH)) →
  free_table (ht pH) (set_tables (<[p := t]> (tables pH)) pH) = Some (set_tables {[p := t]} pH).
Proof.
  intros Htab Hp.
  destruct Htab as [(-> & -> & _) | (t0 & _ & (q & -> & Hq) & _)]; [done|]. cbn [free_table].
  assert (p ≠ q) as Hne.
  { intros ->. pose proof (is_fresh (dom (tables pH))) as Hf. rewrite <-Hp, Hq in Hf. set_solver. }
  unfold set_tables. cbn [tables]. rewrite Hq, lookup_insert_ne, lookup_singleton_eq by done.
  cbn [mbind option_bind]. f_equal. f_equal. rewrite delete_insert_ne by done.
  by rewrite delete_singleton_eq.
Qed.

Lemma fts3Rehash_spec pH L lost m k :
  rep pH L lost m → 0 ≤ k → 0 < s32 (2 ^ k * sizeof_ht) →
  ∃ pH' L', fts3Rehash char_signed sizeof_ht true pH (2 ^ k) = Some (0, pH') ∧ rep pH' L' lost m ∧
    htsize pH' = 2 ^ k ∧ keyClass pH' = keyClass pH ∧ copyKey pH' = copyKey pH ∧ count pH' = count pH.
Proof.
  intros Hr Hk Hsize0. unfold fts3Rehash, fts3HashMalloc. rewrite (proj2 (Z.ltb_lt _ _)) by done. cbn [negb andb].
  set (t := replicate (Z.to_nat (2 ^ k)) (mkHt 0 None)). set (p := fresh _).
  change (ht (set_tables ?ts pH)) with (ht pH).
  rewrite (free_old_table pH L p t (rep_table _ _ _ _ Hr) eq_refl). cbn [mbind option_bind].
  set (pH0 := set_first None _).
  assert (0 < 2 ^ k) as Hpos by lia.
  destruct (rehash_loop_spec (2 ^ k) pH0 L [] t k) as
    (pH' & L' & t' & Heq & Hp & Hd & Hf & Hc & Hptr & Hdom & (Hkc & Hcp & Hcn & Hsz & Hks) & Ht & Hlt & Hbs); try done.
  - apply Hr.
  - apply dll_nil.
  - apply dll_forward, Hr.
  - intros e He. apply (carries_is_Some (copyKey pH)); [apply Hr|]. by apply (dom_in pH L); [apply Hr|].
  - intros e key n d He. by apply (cont_elem _ _ _ (rep_contents _ _ _ _ Hr)) in He as [? _].
  - by exists p.
  - unfold t. rewrite length_replicate. lia.
  - intros i b Hb. unfold t in Hb. apply lookup_replicate in Hb as [-> _].
    exists [], [], []. split_and!; try done. intros e. set_solver.
  - assert (size (heap pH) = length L) as Hsize by (apply dom_size; apply Hr).
    change (size (heap (set_ht (2 ^ k) (Some p) (set_tables {[p := t]} pH)))) with (size (heap pH)).
    change (first (set_ht (2 ^ k) (Some p) (set_tables {[p := t]} pH))) with (first pH).
    rewrite Hsize, (rep_first _ _ _ _ Hr). fold pH0. rewrite Heq. cbn [mbind option_bind].
    exists pH', L'. split_and!; try done. split.
    + done.
    + rewrite Hp. apply Hr.
    + done.
    + rewrite Hdom. change (dom (heap pH0)) with (dom (heap pH)). rewrite (rep_heap _ _ _ _ Hr).
      by rewrite Hp.
    + rewrite Hcp, Hks. apply (owned_ext _ _ (heap pH)); [done|]. apply Hr.
    + right. exists t', k. rewrite Hsz. split_and!; try done.
    + rewrite Hp. apply Hr.
    + rewrite Hcn. change (count pH0) with (count pH). rewrite (rep_count _ _ _ _ Hr). by rewrite Hp.
    + rewrite Hkc, Hks. apply (contents_ext _ (carries (keys pH) (heap pH))); [done|]. apply Hr.
Qed.

(** ** Finding *)

Lemma find_loop_spec pH S L2 key :
  forward (heap pH) (S ++ L2) → key_ok (keyClass pH) key →
  (∀ e, e ∈ S → is_Some (carries (keys pH) (heap pH) e)) →
  (∀ e k n d, carries (keys pH) (heap pH) e = Some (k, n, d) → n = Z.of_nat (length k) ∧ key_ok (keyClass pH) k ∧ d ≠ 0) →
  ∃ r, find_loop pH (length S) (head (S ++ L2)) key (Z.of_nat (length key)) = Some r ∧
    match r with
    | Some p => p ∈ S ∧ key_at (keys pH) (heap pH) p = key
    | None => ∀ p, p ∈ S → key_at (keys pH) (heap pH) p ≠ key
    end.
Proof.
  intros Hf Hkey Hin Hel. induction S as [|e S IH]; [by exists None; split; [|set_solver]|].
  cbn [app head length find_loop]. destruct (Hf [] e (S ++ L2) eq_refl) as (el & He & Hnext).
  rewrite He. cbn [mbind option_bind].
  destruct (Hin e) as [[[k n] d] Hc]; [left|]. destruct (Hel _ _ _ _ Hc) as (Hn & Hk & _).
  apply carries_Some in Hc as (el' & He' & Hkey' & Hn' & _). rewrite He in He'. injection He' as <-.
  rewrite Hkey'. cbn [mbind option_bind]. rewrite Hn', Hn, compare_spec by done.
  assert (key_at (keys pH) (heap pH) e = k) as Hkat by (by apply (key_at_eq _ _ _ el)).
  case_bool_decide as Heq.
  - exists (Some e). split; [done|]. split; [left|]. by rewrite Hkat.
  - destruct IH as (r & Hr & Hspec); [by apply forward_tail in Hf|by intros x Hx; apply Hin; right|].
    exists r. rewrite Hnext. split; [done|]. destruct r as [p|].
    + split; [right|]; apply Hspec.
    + intros p [-> | Hp]%elem_of_cons; [congruence|by apply Hspec].
Qed.

Lemma rep_carries pH L lost m e : rep pH L lost m → e ∈ L → is_Some (carries (keys pH) (heap pH) e).
Proof.
  intros Hr He. apply (carries_is_Some (copyKey pH)); [apply Hr|]. by apply (dom_in pH L); [apply Hr|].
Qed.

Lemma key_at_Some pH L lost m e key :
  rep pH L lost m → e ∈ L → key_at (keys pH) (heap pH) e = key →
  ∃ el, heap pH !! e = Some el ∧ key_bytes (keys pH) (pKey el) = Some key ∧ m !! key = Some (data el).
Proof.
  intros Hr He Hk. destruct (rep_carries _ _ _ _ _ Hr He) as [[[k n] d] Hc].
  unfold key_at in Hk. rewrite Hc in Hk. cbn in Hk. subst k. pose proof Hc as Hc'.
  apply carries_Some in Hc as (el & Hel & Hkey & _ & Hd). exists el. split_and!; [done|done|].
  apply (cont_map _ _ _ (rep_contents _ _ _ _ Hr)). rewrite Hd. eauto.
Qed.

Lemma fts3FindElementByHash_spec pH L lost m key :
  rep pH L lost m → key_ok (keyClass pH) key →
  let h := Z.land (ftsHashFunction char_signed (keyClass pH) key (Z.of_nat (length key))) (htsize pH - 1) in
  ∃ r, fts3FindElementByHash pH key (Z.of_nat (length key)) h = Some r ∧
    match r with
    | Some p => ∃ el, heap pH !! p = Some el ∧ key_bytes (keys pH) (pKey el) = Some key ∧ m !! key = Some (data el) ∧ p ∈ L ∧
        Z.to_nat h = idx pH (htsize pH) p
    | None => m !! key = None
    end.
Proof.
  intros Hr Hkey h. unfold fts3FindElementByHash.
  assert (∀ key', (∀ p, p ∈ L → key_at (keys pH) (heap pH) p ≠ key') → m !! key' = None) as Hnone.
  { intros key' Hp. destruct (m !! key') as [d|] eqn:Hm; [|done].
    apply (cont_map _ _ _ (rep_contents _ _ _ _ Hr)) in Hm as (e & n & Hc).
    exfalso. apply (Hp e).
    - apply (dom_in pH L); [apply Hr|]. apply (carries_is_Some (copyKey pH) (keys pH)); [apply Hr|]. eauto.
    - unfold key_at. by rewrite Hc. }
  destruct (rep_table _ _ _ _ Hr) as [(-> & _ & Hsz & ->) | (t & k & Ht & Hsz & Hk & Hlt & Hbs)].
  { exists None. split; [done|]. apply Hnone. set_solver. }
  rewrite (get_entry_eq pH t) by done. assert (is_Some (ht pH)) as [q ->] by (destruct Ht as (q & -> & _); eauto).
  assert (Z.to_nat h = slot (keyClass pH) (htsize pH) key) as Hh by done.
  pose proof (slot_bound (keyClass pH) _ k key Hsz Hk) as Hs.
  destruct (lookup_lt_is_Some_2 t (Z.to_nat h)) as [b Hb]; [lia|].
  rewrite Hb. cbn [mbind option_bind].
  destruct (Hbs _ _ Hb) as (L1 & S & L2 & HL & Hcnt & Hch & HS).
  assert (forward (heap pH) (S ++ L2)) as Hf.
  { pose proof (dll_forward _ _ (rep_list _ _ _ _ Hr)) as Hf. rewrite HL in Hf.
    intros A e B Heq. apply (Hf (L1 ++ A) e B). by rewrite Heq, <-app_assoc. }
  destruct (find_loop_spec pH S L2 key) as (r & Hloop & Hspec); [done|done| | |].
  { intros e He. apply (rep_carries _ _ _ _ _ Hr). apply HS in He as [? _]. done. }
  { intros e k' n d. apply (cont_elem _ _ _ (rep_contents _ _ _ _ Hr)). }
  exists r. split.
  - rewrite Hcnt, Nat2Z.id, Hch. destruct S as [|e S]; [by destruct L2|done].
  - destruct r as [p|].
    + destruct Hspec as [Hp Hkp]. apply HS in Hp as [Hin Hi].
      destruct (key_at_Some pH L lost m p key Hr Hin Hkp) as (el & ? & ? & ?). exists el. by split_and!.
    + apply Hnone. intros p Hp Hkp. apply (Hspec p); [|done]. apply HS. split; [done|].
      unfold idx. rewrite Hkp. done.
Qed.

(** ** Clearing *)

Lemma clear_loop_spec pH L :
  NoDup L → forward (heap pH) L → dom (heap pH) = list_to_set L → owned (copyKey pH) (keys pH) (heap pH) →
  clear_loop (length L) (head L) pH = Some (set_keys ∅ (set_heap ∅ pH)).
Proof.
  revert pH. induction L as [|e L IH]; intros pH Hnd Hf Hdom Ho.
  - cbn in Hdom. apply dom_empty_iff_L in Hdom.
    assert (keys pH = ∅) as Hks.
    { apply map_empty. intros b. destruct (keys pH !! b) eqn:Hb; [|done].
      destruct (own_all _ _ _ Ho b) as [e He]; [eauto|]. unfold key_ptr_at in He. by rewrite Hdom in He. }
    destruct pH. by cbn in *; subst.
  - cbn [head length clear_loop]. destruct (Hf [] e L eq_refl) as (el & He & Hn).
    rewrite He. cbn [mbind option_bind]. rewrite Hn. apply NoDup_cons in Hnd as [Hnin Hnd].
    destruct (owned_free pH (heap pH) e el Ho) as (ks' & -> & Ho' & _); [unfold key_ptr_at; by rewrite He|].
    cbn [mbind option_bind]. unfold free_elem. change (heap (set_keys ks' pH)) with (heap pH). rewrite He.
    cbn [mbind option_bind]. rewrite IH; [done|done| | |done].
    + apply (forward_ext (heap pH)); [|by apply forward_tail in Hf].
      intros x Hx. apply lookup_delete_ne. intros ->. done.
    + cbn. rewrite dom_delete_L, Hdom. set_solver.
Qed.

(** The empty table of a class. *)
Definition empty_hash pH : Fts3Hash := sqlite3Fts3HashInit (keyClass pH) (copyKey pH).

(** At most the array of the table is allocated. *)
Definition tables_ok pH : Prop :=
  match ht pH with None => tables pH = ∅ | Some p => ∃ t, tables pH = {[p := t]} end.

Lemma has_table_ok pH t : has_table pH t → tables_ok pH.
Proof. intros (p & Hp & Ht). unfold tables_ok. rewrite Hp. by exists t. Qed.

(** Whatever the count and the buckets say, clearing frees the whole list, the
    copies of its keys and the array. *)
Lemma sqlite3Fts3HashClear_spec pH L :
  NoDup L → dll (heap pH) L → first pH = head L → dom (heap pH) = list_to_set L →
  owned (copyKey pH) (keys pH) (heap pH) → tables_ok pH →
  sqlite3Fts3HashClear pH = Some (empty_hash pH).
Proof.
  intros Hnd Hd Hf Hdom Ho Ht. unfold sqlite3Fts3HashClear.
  assert (free_table (ht (set_first None pH)) (set_first None pH) = Some (set_tables ∅ (set_first None pH))) as ->.
  { unfold free_table, tables_ok in *. cbn [ht tables set_first]. destruct (ht pH) as [p|].
    - destruct Ht as [t ->]. rewrite lookup_singleton_eq. cbn [mbind option_bind]. by rewrite delete_singleton_eq.
    - rewrite <-Ht. by destruct pH. }
  cbn [mbind option_bind].
  change (heap (set_tables ∅ (set_first None pH))) with (heap pH).
  rewrite (dom_size pH L), Hf by done.
  rewrite clear_loop_spec; [done|done|by apply dll_forward|done|done].
Qed.

Lemma empty_rep pH : rep (empty_hash pH) [] 0 ∅.
Proof.
  split; try done.
  - apply dll_nil.
  - constructor.
  - split; try done. intros b [? ?]. done.
  - by left.
  - split; try done. intros key d. split; [done|]. by intros (? & ? & ?).
Qed.

(** ** Removing *)

(** An element of the list is unlinked and freed; the count is only used to see
    whether the table is empty. *)
Lemma fts3RemoveElementByHash_spec pH L1 e L2 t k i el :
  NoDup (L1 ++ e :: L2) → dll (heap pH) (L1 ++ e :: L2) → first pH = head (L1 ++ e :: L2) →
  dom (heap pH) = list_to_set (L1 ++ e :: L2) → heap pH !! e = Some el →
  owned (copyKey pH) (keys pH) (heap pH) →
  has_table pH t → htsize pH = 2 ^ k → 0 ≤ k → Z.of_nat (length t) = htsize pH →
  buckets (idx pH (htsize pH)) (L1 ++ e :: L2) t → Z.to_nat i = idx pH (htsize pH) e →
  ∃ pH' t', fts3RemoveElementByHash pH e i
    = (if count pH - 1 <=? 0 then Some (empty_hash pH) else Some pH') ∧
    dll (heap pH') (L1 ++ L2) ∧ first pH' = head (L1 ++ L2) ∧
    dom (heap pH') = list_to_set (L1 ++ L2) ∧ 
    (∀ x, x ≠ e → carries (keys pH') (heap pH') x = carries (keys pH) (heap pH) x) ∧
    carries (keys pH') (heap pH') e = None ∧ owned (copyKey pH') (keys pH') (heap pH') ∧ keyClass pH' = keyClass pH ∧ copyKey pH' = copyKey pH ∧
    count pH' = count pH - 1 ∧ htsize pH' = htsize pH ∧ has_table pH' t' ∧ length t' = length t ∧
    buckets (idx pH (htsize pH)) (L1 ++ L2) t'.
Proof.
  intros Hnd Hd Hfirst Hdom Hel Ho Ht Hsz Hk Hlt Hbs Hi. pose proof Hnd as Hnd'.
  apply NoDup_app in Hnd' as (_ & Hn1 & Hn2). apply NoDup_cons in Hn2 as [Hn2 _].
  pose proof (Hd L1 e L2 eq_refl) as Hlinks. unfold links in Hlinks. rewrite Hel in Hlinks. cbn in Hlinks.
  injection Hlinks as Hprev Hnext.
  unfold fts3RemoveElementByHash. rewrite Hel. cbn [mbind option_bind]. rewrite Hprev, Hnext.
  (* the two neighbours *)
  assert ((pH1 ← match last L1 with
                 | Some q => store (set_next (head L2)) q pH
                 | None => Some (set_first (head L2) pH)
                 end;
           match head L2 with
           | Some q => store (set_prev (last L1)) q pH1
           | None => Some pH1
           end) = Some (set_first (head (L1 ++ L2)) (set_heap (unlink (heap pH) (last L1) (head L2)) pH))) as Hun.
  { assert (∀ q B, L2 = q :: B → ∃ qe, heap pH !! q = Some qe) as Hq2.
    { intros q B ->. destruct (dll_forward _ _ Hd (L1 ++ [e]) q B) as (qe & ? & _); [by rewrite <-app_assoc|eauto]. }
    destruct (last L1) as [q|] eqn:Hl1.
    - apply last_in in Hl1 as (A & ->).
      destruct (dll_forward _ _ Hd A q (e :: L2)) as (qe & Hqe & _); [by rewrite <-app_assoc|].
      rewrite (store_eq _ _ _ qe) by done. cbn [mbind option_bind].
      assert (head ((A ++ [q]) ++ L2) = first pH) as -> by (rewrite Hfirst; by destruct A).
      destruct L2 as [|q2 B]; cbn [head]; [done|].
      destruct (Hq2 q2 B eq_refl) as [qe2 Hqe2].
      rewrite (store_eq _ _ _ qe2).
      2: { cbn. rewrite lookup_alter_ne; [done|]. intros ->. apply (Hn1 q2); set_solver. }
      done.
    - apply last_None in Hl1 as ->. cbn [mbind option_bind app].
      destruct L2 as [|q2 B]; cbn [head]; [by destruct pH|].
      destruct (Hq2 q2 B eq_refl) as [qe2 Hqe2]. by rewrite (store_eq _ _ _ qe2). }
  cbn [mbind option_bind] in Hun.
  match type of Hun with ?x ≫= _ = _ => destruct x as [pH1|] eqn:E1; [|done] end.
  cbn [mbind option_bind] in Hun |- *. rewrite Hun. cbn [mbind option_bind]. clear Hun E1 pH1.
  set (pH2 := set_first _ _).
  assert (Z.to_nat i < length t)%nat as Hit.
  { pose proof (slot_bound (keyClass pH) _ k (key_at (keys pH) (heap pH) e) Hsz Hk). rewrite Hi. unfold idx. lia. }
  destruct (lookup_lt_is_Some_2 t (Z.to_nat i) Hit) as [b Hb].
  assert (has_table pH2 t) as Ht2 by exact Ht.
  rewrite (get_entry_eq pH2 t), Hb by done. cbn [mbind option_bind].
  set (b' := mkHt _ _). rewrite (set_entry_eq pH2 t) by done.
  set (pH2' := set_table _ pH2).
  destruct (owned_free pH2' (unlink (heap pH) (last L1) (head L2)) e el) as (ks' & -> & Ho' & Hcs').
  { apply (owned_ext _ _ (heap pH)); [|done]. intros x. apply key_ptr_unlink. }
  { rewrite key_ptr_unlink. unfold key_ptr_at. by rewrite Hel. }
  cbn [mbind option_bind]. unfold free_elem.
  assert (is_Some (heap (set_keys ks' pH2') !! e)) as [el' ->].
  { apply elem_of_dom. change (heap (set_keys ks' pH2')) with (unlink (heap pH) (last L1) (head L2)).
    rewrite dom_unlink, Hdom. set_solver. }
  cbn [mbind option_bind]. set (pH3 := set_count _ _).
  assert (dll (heap pH3) (L1 ++ L2)) as Hd3.
  { assert (dll (unlink (heap pH) (last L1) (head L2)) (L1 ++ L2)) as Hd2 by (by apply dll_unlink in Hd).
    intros A x B Heq. unfold links, pH3. cbn. rewrite lookup_delete_ne; [by apply Hd2|].
    intros ->. assert (x ∈ L1 ++ L2) as Hx by (rewrite Heq; set_solver).
    apply elem_of_app in Hx as [Hx | Hx]; [|done]. apply (Hn1 x Hx). left. }
  assert (dom (heap pH3) = list_to_set (L1 ++ L2)) as Hdom3.
  { unfold pH3. cbn. rewrite dom_delete_L, dom_unlink, Hdom.
    assert (e ∉ L1) by (intros He; apply (Hn1 e He); left). set_solver. }
  assert (has_table pH3 (<[Z.to_nat i := b']> t)) as Ht3 by (apply (has_set_table pH2 t); done).
  exists pH3, (<[Z.to_nat i := b']> t). split_and!; try done.
  - change (count pH3) with (count pH - 1). destruct (count pH - 1 <=? 0); [|done].
    rewrite (sqlite3Fts3HashClear_spec pH3 (L1 ++ L2)); try done; [|by eapply has_table_ok].
    apply NoDup_app in Hnd as (? & ? & [_ ?]%NoDup_cons). apply NoDup_app. split_and!; [done| |done]. set_solver.
  - intros x Hx. change (carries ks' (delete e (unlink (heap pH) (last L1) (head L2))) x = carries (keys pH) (heap pH) x).
    rewrite Hcs' by done. apply (carries_unlink (keys pH) (heap pH)).
  - unfold pH3, carries. cbn. by rewrite lookup_delete_eq.
  - apply length_insert.
  - intros j c Hj. destruct (decide (j = Z.to_nat i)) as [->|Hne].
    + rewrite list_lookup_insert_eq in Hj by done. injection Hj as <-. rewrite Hi.
      unfold b'. apply bucket_ok_remove_eq; [done|]. rewrite <-Hi. by apply Hbs.
    + rewrite list_lookup_insert_ne in Hj by done. apply (bucket_ok_remove_ne _ _ e); [by rewrite <-Hi|by apply Hbs].
Qed.
End hash.
