(* ===== verification/FtsHashSpec.v ===== *)
(** * Properties of fts3_hash.c

    Through every sequence of operations and every failure of an allocation a
    table touches no freed memory and gives back all of it when it is cleared. It
    behaves as a finite map, with one exception: when the table itself cannot
    grow, its count is lost. *)
From stdpp Require Import gmap.
From S2P Require Import Prelude FtsHash FtsHashLists FtsHashProofs.
Local Open Scope Z_scope.

Section hash.
Context (char_signed : bool) (sizeof_ht : Z).
Implicit Types (pH : Fts3Hash) (p e : positive) (L : list positive) (key : list Z) (m : gmap (list Z) Z).

(** ** The map of a heap that changes *)

Lemma contents_insert kc (c c' : positive → option (list Z * Z * Z)) m e key d :
  contents kc c m → c e = None → c' e = Some (key, Z.of_nat (length key), d) →
  (∀ x, x ≠ e → c' x = c x) → m !! key = None → key_ok kc key → d ≠ 0 →
  contents kc c' (<[key := d]> m).
Proof.
  intros [H1 H2 H3] He He' Hx Hm Hkey Hd.
  assert (∀ x n d', c x ≠ Some (key, n, d')) as Hno.
  { intros x n d' Hc. assert (m !! key = Some d') by (apply H3; eauto). congruence. }
  split.
  - intros x k n d'. destruct (decide (x = e)) as [->|Hne]; [|rewrite Hx by done; apply H1].
    rewrite He'. intros [= <- <- <-]. done.
  - intros x x' k n d1 n' d2.
    destruct (decide (x = e)) as [->|Hne], (decide (x' = e)) as [->|Hne']; try done.
    + rewrite He', Hx by done. intros [= <- <- <-] Hc. by apply Hno in Hc.
    + rewrite He', Hx by done. intros Hc [= <- <- <-]. by apply Hno in Hc.
    + rewrite !Hx by done. apply H2.
  - intros k d'. destruct (decide (key = k)) as [<-|Hk].
    + rewrite lookup_insert_eq. split; [intros [= <-]; eauto|].
      intros (x & n & Hc). destruct (decide (x = e)) as [->|Hne]; [congruence|].
      rewrite Hx in Hc by done. by apply Hno in Hc.
    + rewrite lookup_insert_ne, H3 by done. split; intros (x & n & Hc); exists x, n.
      * rewrite Hx; [done|]. congruence.
      * rewrite Hx in Hc; [done|]. congruence.
Qed.

Lemma contents_update kc (c c' : positive → option (list Z * Z * Z)) m e key n d d' :
  contents kc c m → c e = Some (key, n, d) → c' e = Some (key, n, d') →
  (∀ x, x ≠ e → c' x = c x) → d' ≠ 0 → contents kc c' (<[key := d']> m).
Proof.
  intros [H1 H2 H3] He He' Hx Hd. split.
  - intros x k n1 d1. destruct (decide (x = e)) as [->|Hne]; [|rewrite Hx by done; apply H1].
    rewrite He'. intros [= <- <- <-]. destruct (H1 _ _ _ _ He) as (? & ? & _). done.
  - intros x x' k n1 d1 n2 d2.
    destruct (decide (x = e)) as [->|Hne], (decide (x' = e)) as [->|Hne']; try done.
    + rewrite He', Hx by done. intros [= <- <- <-] Hc. by apply (H2 _ _ _ _ _ _ _ He Hc).
    + rewrite He', Hx by done. intros Hc [= <- <- <-]. by apply (H2 _ _ _ _ _ _ _ Hc He).
    + rewrite !Hx by done. apply H2.
  - intros k d1. destruct (decide (key = k)) as [<-|Hk].
    + rewrite lookup_insert_eq. split; [intros [= <-]; eauto|].
      intros (x & n1 & Hc). destruct (decide (x = e)) as [->|Hne]; [congruence|].
      rewrite Hx in Hc by done. by pose proof (H2 _ _ _ _ _ _ _ He Hc).
    + rewrite lookup_insert_ne, H3 by done. split; intros (x & n1 & Hc); exists x, n1.
      * rewrite Hx; [done|]. congruence.
      * rewrite Hx in Hc; [done|]. congruence.
Qed.

Lemma contents_delete kc (c c' : positive → option (list Z * Z * Z)) m e key n d :
  contents kc c m → c e = Some (key, n, d) → c' e = None →
  (∀ x, x ≠ e → c' x = c x) → contents kc c' (delete key m).
Proof.
  intros [H1 H2 H3] He He' Hx.
  assert (∀ x k n1 d1, c' x = Some (k, n1, d1) → x ≠ e ∧ c x = Some (k, n1, d1)) as Hc'.
  { intros x k n1 d1 Hc. destruct (decide (x = e)) as [->|Hne]; [congruence|].
    split; [done|]. by rewrite <-Hx. }
  split.
  - intros x k n1 d1 [_ Hc]%Hc'. by apply H1 in Hc.
  - intros x x' k n1 d1 n2 d2 [_ Hc1]%Hc' [_ Hc2]%Hc'. by apply (H2 _ _ _ _ _ _ _ Hc1 Hc2).
  - intros k d1. destruct (decide (key = k)) as [<-|Hk].
    + rewrite lookup_delete_eq. split; [done|]. intros (x & n1 & [Hne Hc]%Hc').
      by destruct Hne; apply (H2 _ _ _ _ _ _ _ Hc He).
    + rewrite lookup_delete_ne, H3 by done. split; intros (x & n1 & Hc); exists x, n1.
      * rewrite Hx; [done|]. congruence.
      * by apply Hc' in Hc as [_ ?].
Qed.

(** ** The cases of an insertion *)

(** The element of a new key, with a copy of the key if the table copies keys. *)
Definition new_hash (copied : bool) key (nK : Z) pH : option Fts3Hash :=
  let new_elem := fresh (dom (heap pH)) in
  let pH := set_heap (<[new_elem := mkElem None None 0 (Given []) 0]> (heap pH)) pH in
  let k := fresh (dom (keys pH)) in
  let pH := if copied then set_keys (<[k := take (Z.to_nat nK) key]> (keys pH)) pH else pH in
  store (set_key (if copied then Copied k else Given key) nK) new_elem pH.

Lemma new_hash_spec pH key :
  let e := fresh (dom (heap pH)) in
  let nK := Z.of_nat (length key) in
  owned (copyKey pH) (keys pH) (heap pH) →
  ∃ ks kp, new_hash (copyKey pH) key nK pH
      = Some (set_heap (<[e := mkElem None None 0 kp nK]> (heap pH)) (set_keys ks pH)) ∧
    owned (copyKey pH) ks (<[e := mkElem None None 0 kp nK]> (heap pH)) ∧
    carries ks (<[e := mkElem None None 0 kp nK]> (heap pH)) e = Some (key, nK, 0) ∧
    ∀ x, x ≠ e → carries ks (<[e := mkElem None None 0 kp nK]> (heap pH)) x = carries (keys pH) (heap pH) x.
Proof.
  intros e nK [H1 H2 H3]. assert (take (Z.to_nat nK) key = key) as Htake.
  { unfold nK. by rewrite Nat2Z.id, firstn_all. }
  unfold new_hash, store. fold e. rewrite Htake.
  set (k := fresh (dom (keys pH))).
  assert (keys pH !! k = None) as Hk by (apply not_elem_of_dom, is_fresh).
  assert (∀ kp x, x ≠ e → key_ptr_at (<[e := mkElem None None 0 kp nK]> (heap pH)) x = key_ptr_at (heap pH) x) as Hne.
  { intros kp x Hx. unfold key_ptr_at. by rewrite lookup_insert_ne. }
  assert (∀ kp, key_ptr_at (<[e := mkElem None None 0 kp nK]> (heap pH)) e = Some kp) as Heq.
  { intros kp. unfold key_ptr_at. by rewrite lookup_insert_eq. }
  destruct (copyKey pH).
  - exists (<[k := key]> (keys pH)), (Copied k). cbn [heap set_heap set_keys keys]. change (keys (set_heap _ pH)) with (keys pH).
    fold k. rewrite lookup_insert_eq. cbn [mbind option_bind]. rewrite insert_insert_eq. split; [done|].
    assert (∀ x b, key_ptr_at (heap pH) x = Some (Copied b) → b ≠ k) as Hfresh.
    { intros x b Hx ->. destruct (H1 _ _ Hx) as (b & [= <-] & [? ?]). congruence. }
    split; [split|split].
    + intros x kx. destruct (decide (x = e)) as [->|Hx].
      * rewrite Heq. intros [= <-]. exists k. by rewrite lookup_insert_eq.
      * rewrite Hne by done. intros Hp. destruct (H1 _ _ Hp) as (b & -> & Hb). exists b. split; [done|].
        rewrite lookup_insert_ne; [done|]. apply not_eq_sym. by apply (Hfresh x).
    + intros x x' b. destruct (decide (x = e)) as [->|Hx], (decide (x' = e)) as [->|Hx']; try done;
        rewrite ?Heq, ?Hne by done.
      * intros [= <-] Hp. by apply Hfresh in Hp.
      * intros Hp [= <-]. by apply Hfresh in Hp.
      * apply H2.
    + intros b Hb. destruct (decide (b = k)) as [->|Hbk]; [exists e; by rewrite Heq|].
      rewrite lookup_insert_ne in Hb by done. destruct (H3 b Hb) as [x Hx]. exists x. rewrite Hne; [done|].
      intros ->. unfold key_ptr_at in Hx. pose proof (is_fresh (dom (heap pH))) as Hf. fold e in Hf.
      apply not_elem_of_dom in Hf. by rewrite Hf in Hx.
    + unfold carries. rewrite lookup_insert_eq. cbn. by rewrite lookup_insert_eq.
    + intros x Hx. unfold carries. rewrite lookup_insert_ne by done. destruct (heap pH !! x) as [el|] eqn:Hel; [|done].
      cbn [mbind option_bind]. destruct (pKey el) as [b|z] eqn:Hp; [|done]. cbn [key_bytes].
      rewrite lookup_insert_ne; [done|]. apply not_eq_sym, (Hfresh x). unfold key_ptr_at. by rewrite Hel, <-Hp.
  - exists (keys pH), (Given key). cbn [heap set_heap]. rewrite lookup_insert_eq. cbn [mbind option_bind].
    rewrite insert_insert_eq. split; [by destruct pH|]. split; [split|split].
    + intros x kx. destruct (decide (x = e)) as [->|Hx]; [rewrite Heq; intros [= <-]; eauto|].
      rewrite Hne by done. apply H1.
    + intros x x' b. destruct (decide (x = e)) as [->|Hx]; [by rewrite Heq|].
      destruct (decide (x' = e)) as [->|Hx']; [by rewrite Heq|]. rewrite !Hne by done. apply H2.
    + intros b Hb. destruct (H3 b Hb) as [x Hx]. exists x. rewrite Hne; [done|].
      intros ->. unfold key_ptr_at in Hx. pose proof (is_fresh (dom (heap pH))) as Hf. fold e in Hf.
      apply not_elem_of_dom in Hf. by rewrite Hf in Hx.
    + unfold carries. by rewrite lookup_insert_eq.
    + intros x Hx. unfold carries. by rewrite lookup_insert_ne.
Qed.

(** It is linked, once the table has room. *)
Lemma insert_new pH L lost m key d :
  rep char_signed pH L lost m → htsize pH ≠ 0 → m !! key = None → key_ok (keyClass pH) key → d ≠ 0 →
  let nK := Z.of_nat (length key) in
  let e := fresh (dom (heap pH)) in
  ∃ pH', (pH1 ← new_hash (copyKey pH) key nK pH;
          let pH1 := set_count (count pH1 + 1) pH1 in
          pH3 ← fts3HashInsertElement pH1
            (Z.land (ftsHashFunction char_signed (keyClass pH) key nK) (htsize pH1 - 1)) e;
          pH4 ← store (set_data d) e pH3; Some (0, pH4)) = Some (0, pH') ∧
    keyClass pH' = keyClass pH ∧ copyKey pH' = copyKey pH ∧ count pH' = count pH + 1 ∧
    ∃ L', rep char_signed pH' L' lost (<[key := d]> m).
Proof.
  intros Hr Hsz0 Hm Hkey Hd nK e.
  destruct (rep_table _ _ _ _ _ Hr) as [(_ & _ & ? & _) | (t & k & Ht & Hsz & Hk & Hlt & Hbs)]; [done|].
  destruct (new_hash_spec pH key (rep_owned _ _ _ _ _ Hr)) as (ks & kp & Hnew & Ho2 & Hce & Hcx2).
  fold e nK in Hnew, Ho2, Hce, Hcx2. rewrite Hnew. cbn [mbind option_bind]. set (pH2 := set_count _ _).
  change (carries (keys pH2) (heap pH2) e = Some (key, nK, 0)) in Hce.
  change (∀ x, x ≠ e → carries (keys pH2) (heap pH2) x = carries (keys pH) (heap pH) x) in Hcx2.
  assert (heap pH !! e = None) as Hfree by (apply not_elem_of_dom, is_fresh).
  assert (e ∉ L) as HeL by (rewrite (dom_in pH L) by apply Hr; rewrite Hfree; by intros []).
  assert (∀ x, x ≠ e → heap pH2 !! x = heap pH !! x) as Hother.
  { intros x Hx. unfold pH2. cbn. by apply lookup_insert_ne. }
  assert (dom (heap pH2) = {[e]} ∪ dom (heap pH)) as Hdom2 by apply dom_insert_L.
  assert (∀ x, x ∈ L → x ≠ e) as HLe by (intros x Hx ->; done).
  destruct (link_spec char_signed pH2 e L t (htsize pH2)
    (Z.land (ftsHashFunction char_signed (keyClass pH) key nK) (htsize pH2 - 1)))
    as (pH3 & L' & t' & Hins & Hl & Ht' & Hlt' & Hbs').
  - apply NoDup_cons. split; [done|]. apply Hr.
  - intros A x B Heq. unfold links. rewrite Hother; [by apply (rep_list _ _ _ _ _ Hr)|].
    apply HLe. rewrite Heq. set_solver.
  - apply Hr.
  - unfold pH2. cbn. rewrite lookup_insert_eq. eauto.
  - done.
  - apply (buckets_ext (idx char_signed pH (htsize pH))); [|done]. intros x Hx%HLe.
    apply idx_carries; [done|by apply Hcx2].
  - unfold idx, key_at. by rewrite Hce.
  - pose proof (slot_bound char_signed (keyClass pH) _ k key Hsz Hk) as Hs.
    unfold slot, hash_of in Hs. change (htsize pH2) with (htsize pH). fold nK in Hs. lia.
  - rewrite Hins. cbn [mbind option_bind].
    destruct Hl as [Hp Hd3 Hf3 Hc3 Hptr3 Ho3 Hdom3 (Hkc & Hcp & Hcn & Hsz3 & Hks3)].
    assert (is_Some (heap pH3 !! e)) as [el Hel].
    { apply elem_of_dom. rewrite Hdom3, Hdom2. set_solver. }
    rewrite (store_eq _ _ _ el) by done. cbn [mbind option_bind].
    eexists. split; [reflexivity|]. split; [exact Hkc|]. split; [exact Hcp|]. split; [exact Hcn|]. exists L'.
    assert (∀ x, links (alter (set_data d) e (heap pH3)) x = links (heap pH3) x) as Hlinks.
    { intros x. unfold links. destruct (decide (e = x)) as [<-|]; [|by rewrite lookup_alter_ne].
      rewrite lookup_alter_eq. by destruct (heap pH3 !! e). }
    assert (∀ x, x ≠ e → carries (keys pH3) (alter (set_data d) e (heap pH3)) x = carries (keys pH) (heap pH) x) as Hcx.
    { intros x Hx. unfold carries at 1. rewrite lookup_alter_ne by done.
      change (carries (keys pH3) (heap pH3) x = carries (keys pH) (heap pH) x). by rewrite Hks3, Hc3, Hcx2. }
    assert (carries (keys pH3) (alter (set_data d) e (heap pH3)) e = Some (key, nK, d)) as Hce'.
    { rewrite <-Hc3 in Hce. apply carries_Some in Hce as (el' & Hel' & Hkb & Hn & _).
      rewrite Hel in Hel'. injection Hel' as <-. apply carries_Some. exists (set_data d el).
      rewrite lookup_alter_eq, Hel, Hks3. done. }
    split.
    + intros A x B Heq. cbn. rewrite Hlinks. by apply Hd3.
    + rewrite Hp. apply NoDup_cons. split; [done|]. apply Hr.
    + done.
    + change (dom (alter (set_data d) e (heap pH3)) = list_to_set L').
      rewrite dom_alter_L, Hdom3, Hdom2, (rep_heap _ _ _ _ _ Hr), Hp. done.
    + cbn. rewrite Hcp, Hks3. apply (owned_ext _ _ (heap pH2)); [|exact Ho2].
      intros x. by rewrite key_ptr_alter.
    + right. exists t', k. cbn. rewrite Hsz3. split_and!; try done.
      * by rewrite Hlt'.
      * apply (buckets_ext (idx char_signed pH3 (htsize pH2))); [|done]. intros x _.
        unfold idx. cbn. unfold key_at. destruct (decide (x = e)) as [->|Hx].
        -- by rewrite Hce', Hks3, Hc3, Hce.
        -- by rewrite Hcx, Hks3, Hc3, Hcx2.
    + rewrite Hp. cbn [length]. pose proof (rep_lost _ _ _ _ _ Hr). lia.
    + cbn. rewrite Hcn, Hp. unfold pH2. cbn. rewrite (rep_count _ _ _ _ _ Hr). lia.
    + cbn. rewrite Hkc. apply (contents_insert _ (carries (keys pH) (heap pH)) _ _ e); try done; [apply Hr|].
      unfold carries. by rewrite Hfree.
Qed.

(** New data for an element. *)
Lemma insert_replace pH L lost m p el key d :
  rep char_signed pH L lost m → heap pH !! p = Some el → key_bytes (keys pH) (pKey el) = Some key → d ≠ 0 →
  ∃ pH', store (set_data d) p pH = Some pH' ∧ keyClass pH' = keyClass pH ∧ copyKey pH' = copyKey pH ∧
    count pH' = count pH ∧ rep char_signed pH' L lost (<[key := d]> m).
Proof.
  intros Hr Hel Hk Hd. rewrite (store_eq _ _ _ el) by done. eexists. split; [reflexivity|].
  split; [done|]. split; [done|]. split; [done|].
  set (h' := alter (set_data d) p (heap pH)).
  assert (∀ x, links h' x = links (heap pH) x) as Hlinks.
  { intros x. unfold links, h'. destruct (decide (p = x)) as [<-|]; [|by rewrite lookup_alter_ne].
    rewrite lookup_alter_eq. by destruct (heap pH !! p). }
  assert (∀ x, x ≠ p → carries (keys pH) h' x = carries (keys pH) (heap pH) x) as Hcx.
  { intros x Hx. unfold carries, h'. by rewrite lookup_alter_ne. }
  assert (carries (keys pH) (heap pH) p = Some (key, nKey el, data el)) as Hc.
  { apply carries_Some. by exists el. }
  assert (carries (keys pH) h' p = Some (key, nKey el, d)) as Hcp.
  { apply carries_Some. exists (set_data d el). unfold h'. by rewrite lookup_alter_eq, Hel. }
  assert (∀ x, key_at (keys pH) h' x = key_at (keys pH) (heap pH) x) as Hkat.
  { intros x. unfold key_at. destruct (decide (x = p)) as [->|]; [|by rewrite Hcx]. by rewrite Hcp, Hc. }
  split; cbn; try apply Hr.
  - intros A x B Heq. rewrite Hlinks. by apply (rep_list _ _ _ _ _ Hr).
  - change (dom (alter (set_data d) p (heap pH)) = list_to_set L). rewrite dom_alter_L. apply Hr.
  - apply (owned_ext _ _ (heap pH)); [|apply Hr]. intros x. by apply key_ptr_alter.
  - destruct (rep_table _ _ _ _ _ Hr) as [?|(t & k & ? & ? & ? & ? & Hbs)]; [by left|]. right.
    exists t, k. split_and!; try done. apply (buckets_ext (idx char_signed pH (htsize pH))); [|done].
    intros x _. unfold idx. cbn. by rewrite Hkat.
  - apply (contents_update _ (carries (keys pH) (heap pH)) _ _ p key (nKey el) (data el)); try done. apply Hr.
Qed.

(** Null data: the element goes, and all others with it if the count is off. *)
Lemma insert_remove pH L lost m p el key i :
  rep char_signed pH L lost m → heap pH !! p = Some el → key_bytes (keys pH) (pKey el) = Some key → p ∈ L →
  Z.to_nat i = idx char_signed pH (htsize pH) p →
  ∃ pH' L' lost' m', fts3RemoveElementByHash pH p i = Some pH' ∧ keyClass pH' = keyClass pH ∧
    copyKey pH' = copyKey pH ∧ count pH' ≤ count pH + 1 ∧ rep char_signed pH' L' lost' m' ∧
    (lost = 0 → lost' = 0 ∧ m' = delete key m).
Proof.
  intros Hr Hel Hk Hp Hi. apply list_elem_of_split in Hp as (L1 & L2 & ->).
  destruct (rep_table _ _ _ _ _ Hr) as [(_ & _ & _ & Hnil) | (t & k & Ht & Hsz & Hk0 & Hlt & Hbs)]; [by destruct L1|].
  destruct (fts3RemoveElementByHash_spec char_signed pH L1 p L2 t k i el) as
    (pH' & t' & -> & Hd & Hf & Hdom & Hcx & Hcp & Ho & Hkc & Hcopy & Hcn & Hsz' & Ht' & Hlt' & Hbs');
    try done; try apply Hr.
  assert (carries (keys pH) (heap pH) p = Some (key, nKey el, data el)) as Hc by (apply carries_Some; by exists el).
  pose proof (contents_delete _ _ _ _ _ _ _ _ (rep_contents _ _ _ _ _ Hr) Hc Hcp Hcx) as Hcont.
  pose proof (rep_nodup _ _ _ _ _ Hr) as Hnd. pose proof (rep_lost _ _ _ _ _ Hr) as Hlost.
  assert (NoDup (L1 ++ L2)) as Hnd'.
  { apply NoDup_app in Hnd as (? & ? & [_ ?]%NoDup_cons). apply NoDup_app. split_and!; [done| |done]. set_solver. }
  pose proof (rep_count _ _ _ _ _ Hr) as Hcount. rewrite length_app in Hcount, Hlost. cbn [length] in Hcount, Hlost.
  destruct (Z.leb_spec (count pH - 1) 0) as [Hle|Hgt].
  - exists (empty_hash pH), [], 0, ∅. split; [done|]. split; [done|]. split; [done|].
    split; [cbn; lia|]. split; [apply empty_rep|]. intros ->. split; [done|].
    assert (L1 = [] ∧ L2 = []) as [-> ->] by (destruct L1, L2; cbn in *; (done || lia)).
    symmetry. apply map_empty. intros k'. destruct (delete key m !! k') as [d|] eqn:Hd'; [|done].
    apply (cont_map _ _ _ Hcont) in Hd' as (x & n & Hx).
    assert (is_Some (heap pH' !! x)) as Hin.
    { apply (carries_is_Some (copyKey pH') (keys pH')); [done|]. eauto. }
    apply elem_of_dom in Hin. rewrite Hdom in Hin. set_solver.
  - exists pH', (L1 ++ L2), lost, (delete key m). split; [done|]. split; [done|]. split; [done|].
    split; [lia|]. split; [|done]. split; try done.
    + right. exists t', k. rewrite Hsz'. split_and!; try done; [by rewrite Hlt'|].
      apply (buckets_ext (idx char_signed pH (htsize pH))); [|done]. intros x Hx.
      apply idx_carries; [done|]. apply Hcx. intros ->.
      apply NoDup_app in Hnd as (_ & Hn1 & [Hn2 _]%NoDup_cons).
      apply elem_of_app in Hx as [Hx | Hx]; [apply (Hn1 p Hx); left|done].
    + rewrite length_app. lia.
    + rewrite Hcn, length_app. lia.
    + by rewrite Hkc.
Qed.

(** A growth that failed: the count is lost. *)
Lemma lose_count pH L lost m :
  rep char_signed pH L lost m → rep char_signed (set_count 0 pH) L (Z.of_nat (length L)) m.
Proof. intros []. split; try done; cbn; lia. Qed.

(** ** Properties *)

(** A table of class [kc] that stands for the map [m]. *)
Definition abs (kc : Z) (cp : bool) (lost : Z) pH m : Prop :=
  keyClass pH = kc ∧ copyKey pH = cp ∧ ∃ L, rep char_signed pH L lost m.

(** Buckets of 8 or 16 bytes: a table of up to [2^26] buckets can be asked for. *)
Hypothesis sizeof_ht_ok : 0 < sizeof_ht ≤ 16.

Lemma fts3Rehash_cases ok_ht pH L lost m k :
  rep char_signed pH L lost m → 0 ≤ k →
  (∃ pH' L', fts3Rehash char_signed sizeof_ht ok_ht pH (2 ^ k) = Some (0, pH') ∧ rep char_signed pH' L' lost m ∧
     htsize pH' = 2 ^ k ∧ keyClass pH' = keyClass pH ∧ copyKey pH' = copyKey pH ∧ count pH' = count pH) ∨
  fts3Rehash char_signed sizeof_ht ok_ht pH (2 ^ k) = Some (1, pH) ∧ (ok_ht = false ∨ 26 < k).
Proof.
  intros Hr Hk. destruct (fts3HashMalloc ok_ht (2 ^ k * sizeof_ht)) eqn:E.
  - apply andb_true_iff in E as [-> E%Z.ltb_lt]. left. by apply (fts3Rehash_spec char_signed sizeof_ht pH L lost m k).
  - right. split; [unfold fts3Rehash; by rewrite E|]. destruct ok_ht; [right|by left].
    apply Z.lt_nge. intros Hle. cbn in E. apply Z.ltb_ge in E. revert E. apply Z.lt_nge.
    assert (2 ^ k ≤ 2 ^ 26) by (apply Z.pow_le_mono_r; lia). assert (0 < 2 ^ k) by lia.
    unfold s32, wrap. change (2 ^ 26) with 67108864 in *. change (2 ^ 31) with 2147483648. change (2 ^ 32) with 4294967296.
    rewrite Z.mod_small by nia. nia.
Qed.

(** The table has room for one more element, or could not get it. *)
Lemma insert_room ok_ht pH L lost m :
  rep char_signed pH L lost m →
  ∃ rc pH', ('(rc, pH1) ← (if htsize pH =? 0 then fts3Rehash char_signed sizeof_ht ok_ht pH 8 else Some (0, pH));
             (if negb (rc =? 0) then Some (rc, pH1)
              else if htsize pH1 <=? count pH1 then fts3Rehash char_signed sizeof_ht ok_ht pH1 (htsize pH1 * 2)
              else Some (0, pH1))) = Some (rc, pH') ∧
    (rc = 1 ∧ (ok_ht = false ∨ 2 ^ 26 ≤ count pH) ∧ pH' = pH ∨
     rc = 0 ∧ htsize pH' ≠ 0 ∧ keyClass pH' = keyClass pH ∧ copyKey pH' = copyKey pH ∧ count pH' = count pH ∧
       ∃ L', rep char_signed pH' L' lost m).
Proof.
  intros Hr. destruct (rep_table _ _ _ _ _ Hr) as [(Ht & _ & Hsz & ->) | (t & k & Ht & Hsz & Hk & Hlt & Hbs)].
  - rewrite Hsz, Z.eqb_refl. change 8 with (2 ^ 3).
    assert (count pH ≤ 0) as Hcnt by (pose proof (rep_lost _ _ _ _ _ Hr); pose proof (rep_count _ _ _ _ _ Hr); cbn in *; lia).
    destruct (fts3Rehash_cases ok_ht pH [] lost m 3 Hr)
      as [(pH' & L' & Heq & Hr' & Hsz' & Hkc & Hcp & Hcn) | [Heq Hno]]; [done| |]; rewrite Heq; cbn [mbind option_bind Z.eqb negb].
    + rewrite Hsz', Hcn. change (2 ^ 3) with 8. destruct (Z.leb_spec 8 (count pH)); [lia|].
      eexists _, _. split; [done|]. right. rewrite Hsz'. split_and!; try done. by exists L'.
    + eexists _, _. split; [done|]. left. split; [done|]. split; [|done]. destruct Hno; [by left|lia].
  - assert (0 < 2 ^ k) as Hpos by lia.
    rewrite (proj2 (Z.eqb_neq (htsize pH) 0)) by lia. cbn [mbind option_bind Z.eqb negb].
    destruct (Z.leb_spec (htsize pH) (count pH)) as [Hge|Hlt'].
    + replace (htsize pH * 2) with (2 ^ (k + 1)) by (rewrite Hsz, Z.pow_add_r by lia; lia).
      destruct (fts3Rehash_cases ok_ht pH L lost m (k + 1) Hr)
        as [(pH' & L' & Heq & Hr' & Hsz' & Hkc & Hcp & Hcn) | [Heq Hno]]; [lia| |]; rewrite Heq.
      * eexists _, _. split; [done|]. right. rewrite Hsz'.
        split_and!; [done| |done|done|done|by exists L']. pose proof (Z.pow_pos_nonneg 2 (k + 1)). lia.
      * eexists _, _. split; [done|]. left. split; [done|]. split; [|done]. destruct Hno as [?|?]; [by left|right].
        assert (2 ^ 26 ≤ 2 ^ k) by (apply Z.pow_le_mono_r; lia). lia.
    + eexists _, _. split; [done|]. right. rewrite Hsz. split_and!; [done|lia|done|done|done|by exists L].
Qed.

(** Whether the element and, in a table that copies keys, the copy of its key can
    be allocated. *)
Definition new_ok (cp ok_elem ok_key : bool) key : bool :=
  ok_elem && (negb cp || fts3HashMalloc ok_key (Z.of_nat (length key))).

(** Insertion on every branch, with every allocation failure. *)
Lemma insert_refines ok_ht ok_elem ok_key kc cp lost pH m key d :
  abs kc cp lost pH m → key_ok kc key →
  ∃ r pH', sqlite3Fts3HashInsert char_signed sizeof_ht ok_ht ok_elem ok_key pH key (Z.of_nat (length key)) d
      = Some (r, pH') ∧ count pH' ≤ Z.max 0 (count pH) + 1 ∧
    match m !! key with
    | Some old => r = old ∧
        if d =? 0 then ∃ lost' m', abs kc cp lost' pH' m' ∧ (lost = 0 → lost' = 0 ∧ m' = delete key m)
        else abs kc cp lost pH' (<[key := d]> m)
    | None =>
        if d =? 0 then r = 0 ∧ pH' = pH
        else r = 0 ∧ abs kc cp lost pH' (<[key := d]> m) ∧ new_ok cp ok_elem ok_key key = true ∨
             r = d ∧ abs kc cp lost pH' m ∧ new_ok cp ok_elem ok_key key = false ∨
             r = d ∧ (∃ lost', abs kc cp lost' pH' m) ∧ (ok_ht = false ∨ 2 ^ 26 ≤ count pH)
    end.
Proof.
  intros (Hkc & Hcp & L & Hr) Hkey. subst kc cp. unfold sqlite3Fts3HashInsert, new_ok.
  destruct (fts3FindElementByHash_spec char_signed pH L lost m key Hr Hkey) as (r & -> & Hfind).
  cbn [mbind option_bind]. destruct r as [p|].
  - destruct Hfind as (el & Hel & Hk & Hm & Hp & Hi). rewrite Hel, Hm. cbn [mbind option_bind].
    destruct (Z.eqb_spec d 0) as [->|Hd].
    + destruct (insert_remove pH L lost m p el key _ Hr Hel Hk Hp Hi) as (pH' & L' & lost' & m' & -> & Hkc & Hcp & Hcn & Hr' & Hm').
      eexists _, _. split; [done|]. split; [lia|]. split; [done|]. exists lost', m'. split; [|done].
      split; [done|]. split; [done|by exists L'].
    + destruct (insert_replace pH L lost m p el key d Hr Hel Hk Hd) as (pH' & -> & Hkc & Hcp & Hcn & Hr').
      eexists _, _. split; [done|]. split; [lia|]. split; [done|]. split; [done|]. split; [done|by exists L].
  - rewrite Hfind. destruct (Z.eqb_spec d 0) as [->|Hd]; [eexists _, _; split; [done|]; split; [lia|done]|].
    destruct (insert_room ok_ht pH L lost m Hr) as (rc & pH1 & Hroom & Hcase).
    destruct (if htsize pH =? 0 then _ else _) as [[rc0 pH0]|] eqn:E0; [|done].
    cbn [mbind option_bind] in Hroom |- *. rewrite Hroom. cbn [mbind option_bind].
    destruct Hcase as [(-> & Hno & ->) | (-> & Hsz & Hkc & Hcp & Hcn & L' & Hr')].
    { eexists _, _. split; [done|]. split; [cbn; lia|]. right. right. split; [done|]. split; [|done].
      exists (Z.of_nat (length L)). split; [done|]. split; [done|]. exists L. by eapply lose_count. }
    cbn [Z.eqb negb]. rewrite <-Hkc, <-Hcp, <-Hcn in *.
    destruct ok_elem; cbn [negb andb].
    2: { eexists _, _. split; [done|]. split; [lia|]. right. left. split_and!; [done| |done].
         split; [done|]. split; [done|by exists L']. }
    change (copyKey (set_heap ?h pH1)) with (copyKey pH1).
    destruct (copyKey pH1 && negb (fts3HashMalloc ok_key (Z.of_nat (length key)))) eqn:Eok.
    { apply andb_true_iff in Eok as [Ecp Eok%negb_true_iff]. unfold free_elem. cbn [heap set_heap].
      rewrite lookup_insert_eq. cbn [mbind option_bind]. rewrite delete_insert_id by apply not_elem_of_dom, is_fresh.
      assert (set_heap (heap pH1) (set_heap (<[fresh (dom (heap pH1)) := mkElem None None 0 (Given []) 0]> (heap pH1)) pH1) = pH1)
        as -> by (by destruct pH1).
      eexists _, _. split; [done|]. split; [lia|]. right. left. split; [done|]. split; [|by rewrite Ecp, Eok].
      split; [done|]. split; [done|by exists L']. }
    destruct (insert_new pH1 L' lost m key d Hr' Hsz Hfind) as (pH' & Heq & Hkc' & Hcp' & Hcn' & Hr''); [done|done|].
    unfold new_hash in Heq.
    eexists _, pH'. split.
    { destruct (copyKey pH1) eqn:Ecp;
        [change (copyKey (set_keys ?ks (set_heap ?h pH1))) with (copyKey pH1)
        |change (copyKey (set_heap ?h pH1)) with (copyKey pH1)]; rewrite Ecp; exact Heq. }
    split; [lia|]. left. split; [done|]. split; [|by destruct (copyKey pH1), (fts3HashMalloc _ _)].
    split; [congruence|]. split; [congruence|done].
Qed.

Lemma fts3HashFind_spec kc cp lost pH m key :
  abs kc cp lost pH m → key_ok kc key →
  sqlite3Fts3HashFind char_signed pH key (Z.of_nat (length key)) = Some (default 0 (m !! key)).
Proof.
  intros (Hkc & _ & L & Hr) Hkey. subst kc. unfold sqlite3Fts3HashFind, sqlite3Fts3HashFindElem.
  destruct (fts3FindElementByHash_spec char_signed pH L lost m key Hr Hkey) as (r & Heq & Hfind).
  destruct (ht pH) as [t|] eqn:Ht.
  - rewrite Heq. cbn [mbind option_bind]. destruct r as [p|]; [|by rewrite Hfind].
    destruct Hfind as (el & Hel & _ & Hm & _). by rewrite Hel, Hm.
  - cbn [mbind option_bind]. unfold fts3FindElementByHash in Heq. rewrite Ht in Heq. injection Heq as <-.
    by rewrite Hfind.
Qed.

Lemma init_abs kc copyKey : abs kc copyKey 0 (sqlite3Fts3HashInit kc copyKey) ∅.
Proof.
  split; [done|]. split; [done|]. exists []. apply (empty_rep char_signed (sqlite3Fts3HashInit kc copyKey)).
Qed.

(** Clearing frees everything. *)
Lemma sqlite3Fts3HashClear_rep kc cp lost pH m :
  abs kc cp lost pH m → sqlite3Fts3HashClear pH = Some (sqlite3Fts3HashInit kc cp).
Proof.
  intros (<- & <- & L & Hr). rewrite (sqlite3Fts3HashClear_spec pH L); try apply Hr; [done|].
  destruct (rep_table _ _ _ _ _ Hr) as [(Ht & Hts & _) | (t & k & Ht & _)]; [|by eapply has_table_ok].
  unfold tables_ok. by rewrite Ht.
Qed.

(** A program that uses a table, with the outcome of each allocation, and what it
    sees. *)
Inductive op := Insert (ok_ht ok_elem ok_key : bool) (key : list Z) (d : Z) | Find (key : list Z) | Clear.

Definition op_ok kc (o : op) : Prop :=
  match o with Insert _ _ _ key _ | Find key => key_ok kc key | Clear => True end.
Definition grows (o : op) : Prop :=
  match o with Insert ok_ht _ _ _ _ => ok_ht = true | _ => True end.

Definition run_op pH (o : op) : option (Z * Fts3Hash) :=
  match o with
  | Insert ok_ht ok_elem ok_key key d =>
      sqlite3Fts3HashInsert char_signed sizeof_ht ok_ht ok_elem ok_key pH key (Z.of_nat (length key)) d
  | Find key => r ← sqlite3Fts3HashFind char_signed pH key (Z.of_nat (length key)); Some (r, pH)
  | Clear => pH' ← sqlite3Fts3HashClear pH; Some (0, pH')
  end.
Fixpoint run pH (ops : list op) : option (list Z * Fts3Hash) :=
  match ops with
  | [] => Some ([], pH)
  | o :: ops' =>
      '(r, pH) ← run_op pH o;
      '(rs, pH) ← run pH ops';
      Some (r :: rs, pH)
  end.

(** The same on a map: an insertion of a new key returns its data and does nothing
    when the element or the copy of the key cannot be allocated. *)
Definition map_op (cp : bool) m (o : op) : Z * gmap (list Z) Z :=
  match o with
  | Insert _ ok_elem ok_key key d =>
      match m !! key with
      | Some old => (old, if d =? 0 then delete key m else <[key := d]> m)
      | None => if (d =? 0) || negb (new_ok cp ok_elem ok_key key) then (d, m) else (0, <[key := d]> m)
      end
  | Find key => (default 0 (m !! key), m)
  | Clear => (0, ∅)
  end.
Fixpoint map_run cp m (ops : list op) : list Z :=
  match ops with
  | [] => []
  | o :: ops' => let '(r, m) := map_op cp m o in r :: map_run cp m ops'
  end.

(** One operation is safe, whatever fails, and that of the map if no growth does. *)
Lemma run_op_refines kc cp lost pH m o :
  abs kc cp lost pH m → op_ok kc o →
  ∃ r pH' lost' m', run_op pH o = Some (r, pH') ∧ abs kc cp lost' pH' m' ∧
    count pH' ≤ Z.max 0 (count pH) + 1 ∧
    (lost = 0 → grows o → count pH < 2 ^ 26 → lost' = 0 ∧ (r, m') = map_op cp m o).
Proof.
  intros Habs Hok. destruct o as [ok_ht ok_elem ok_key key d|key|]; cbn [run_op map_op op_ok grows] in *.
  - destruct (insert_refines ok_ht ok_elem ok_key kc cp lost pH m key d Habs Hok) as (r & pH' & -> & Hcnt & Hcase).
    exists r, pH'. destruct (m !! key) as [old|] eqn:Hm.
    + destruct Hcase as [-> Hcase]. destruct (d =? 0).
      * destruct Hcase as (lost' & m' & Habs' & Hm'). exists lost', m'. split_and!; try done.
        intros Hl _ _. destruct (Hm' Hl) as [? ->]. done.
      * by exists lost, (<[key := d]> m).
    + destruct (Z.eqb_spec d 0) as [->|Hd]; cbn [orb].
      { destruct Hcase as [-> ->]. by exists lost, m. }
      destruct Hcase as [(-> & Habs' & ->) | [(-> & Habs' & ->) | (-> & [lost' Habs'] & Hno)]].
      * by exists lost, (<[key := d]> m).
      * by exists lost, m.
      * exists lost', m. split_and!; try done. intros _ Hht Hlt. destruct Hno; [congruence|lia].
  - rewrite (fts3HashFind_spec kc cp lost pH m key) by done. exists (default 0 (m !! key)), pH, lost, m.
    split_and!; try done. lia.
  - rewrite (sqlite3Fts3HashClear_rep _ _ _ _ _ Habs). exists 0, (sqlite3Fts3HashInit kc cp), 0, ∅.
    split_and!; try done; [apply init_abs|cbn; lia].
Qed.

(** C8: every program of insertions, removals, look-ups and clearings, started on an
    initialised table, with any allocation of an element, of the copy of a key or
    of the array of buckets failing, runs without touching freed or missing
    memory, and clearing the table at the end frees every element, every copy of
    a key and the array. If no allocation of an array fails, and there are at most
    [2^26] operations, so that the sizes of the arrays stay within an [int], the
    table is a finite map: each operation returns what it would on a map, where an
    insertion that cannot allocate the element or the copy of its key returns its
    data and does nothing. *)
Theorem fts3_hash_is_map kc copyKey ops :
  Forall (op_ok kc) ops →
  ∃ rs pH, run (sqlite3Fts3HashInit kc copyKey) ops = Some (rs, pH) ∧
    (∃ pH', sqlite3Fts3HashClear pH = Some pH' ∧ heap pH' = ∅ ∧ keys pH' = ∅ ∧ tables pH' = ∅) ∧
    (Forall grows ops → Z.of_nat (length ops) ≤ 2 ^ 26 → rs = map_run copyKey ∅ ops).
Proof.
  intros Hops.
  assert (∀ pH lost m, abs kc copyKey lost pH m → ∃ rs pH' lost' m',
    run pH ops = Some (rs, pH') ∧ abs kc copyKey lost' pH' m' ∧
    (lost = 0 → Forall grows ops → Z.max 0 (count pH) + Z.of_nat (length ops) ≤ 2 ^ 26 → rs = map_run copyKey m ops)) as Hrun.
  { induction Hops as [|o ops Ho Hops IH]; intros pH lost m Habs; cbn [run map_run]; [by exists [], pH, lost, m|].
    destruct (run_op_refines kc copyKey lost pH m o Habs Ho) as (r & pH1 & lost1 & m1 & -> & Habs1 & Hcnt & Hmap).
    cbn [mbind option_bind].
    destruct (IH pH1 lost1 m1 Habs1) as (rs & pH2 & lost2 & m2 & -> & Habs2 & Hrest). cbn [mbind option_bind].
    exists (r :: rs), pH2, lost2, m2. split; [done|]. split; [done|].
    intros Hl [Hg Hgs]%Forall_cons Hlen. cbn [length] in Hlen.
    destruct (Hmap Hl Hg) as [Hl1 <-]; [lia|]. f_equal. apply Hrest; [done|done|lia]. }
  destruct (Hrun _ _ _ (init_abs kc copyKey)) as (rs & pH & lost & m & Heq & Habs & Hmap).
  exists rs, pH. split; [done|]. split.
  - rewrite (sqlite3Fts3HashClear_rep _ _ _ _ _ Habs). by eexists.
  - intros Hg Hlen. apply Hmap; [done|done|]. cbn. lia.
Qed.

(** a failed growth loses the table: after an insertion that could not allocate
    a larger table the count is 0, and the next removal of any element, which
    should leave the others, frees all of them. *)
Theorem fts3_failed_rehash_loses kc cp lost pH m key d :
  abs kc cp lost pH m → key_ok kc key → m !! key = Some d →
  sqlite3Fts3HashInsert char_signed sizeof_ht true true true (set_count 0 pH) key (Z.of_nat (length key)) 0
  = Some (d, empty_hash pH).
Proof.
  intros (Hkc & Hcp & L & Hr%lose_count) Hkey Hm. subst kc. unfold sqlite3Fts3HashInsert.
  change (keyClass pH) with (keyClass (set_count 0 pH)) in Hkey.
  destruct (fts3FindElementByHash_spec char_signed _ L _ m key Hr Hkey) as (r & -> & Hfind).
  cbn [mbind option_bind]. destruct r as [p|]; [|congruence].
  destruct Hfind as (el & Hel & Hk & Hm' & Hp & Hi). rewrite Hel. cbn [mbind option_bind Z.eqb].
  apply list_elem_of_split in Hp as (L1 & L2 & ->).
  destruct (rep_table _ _ _ _ _ Hr) as [(_ & _ & _ & Hnil) | (t & k & Ht & Hsz & Hk0 & Hlt & Hbs)]; [by destruct L1|].
  destruct (fts3RemoveElementByHash_spec char_signed (set_count 0 pH) L1 p L2 t k
    (Z.land (hash_of char_signed (keyClass pH) key) (htsize pH - 1)) el) as (pH' & t' & Hrem & _);
    try done; try apply Hr.
  unfold hash_of in Hrem. change (keyClass (set_count 0 pH)) with (keyClass pH).
  change (htsize (set_count 0 pH)) with (htsize pH). rewrite Hrem.
  cbn [mbind option_bind count set_count Z.leb Z.compare Z.sub Z.add Z.opp]. rewrite Hm in Hm'. by injection Hm' as ->.
Qed.
End hash.

(** ** Concrete tables *)

(** A string table that copies its keys: an insertion without memory for the
    copy, two keys, a replacement, a removal. *)
Definition key_a : list Z := [97; 98; 0].
Definition key_b : list Z := [98; 0].
Definition ops_ex : list op :=
  [Insert true true false key_a 9; Insert true true true key_a 10; Insert true true true key_b 20; Find key_a;
   Insert true true true key_a 11; Insert true true true key_b 0; Find key_b; Find key_a].

Example run_ex :
  fst <$> run true 16 (sqlite3Fts3HashInit FTS3_HASH_STRING true) ops_ex = Some [9; 0; 0; 10; 10; 20; 0; 11].
Proof. vm_compute. reflexivity. Qed.

Lemma key_ok_ex : key_ok FTS3_HASH_STRING key_a ∧ key_ok FTS3_HASH_STRING key_b.
Proof. split; intros _; (split; [done|]); cbn; set_solver. Qed.

(** The table of the program above, with one element, its key and its array; it is
    cleared. *)
Lemma fts3_hash_is_map_witness :
  ∃ rs pH, run false 16 (sqlite3Fts3HashInit FTS3_HASH_STRING true) ops_ex = Some (rs, pH) ∧
    (∃ pH', sqlite3Fts3HashClear pH = Some pH' ∧ heap pH' = ∅ ∧ keys pH' = ∅ ∧ tables pH' = ∅) ∧
    rs = [9; 0; 0; 10; 10; 20; 0; 11].
Proof.
  destruct (fts3_hash_is_map false 16 ltac:(lia) FTS3_HASH_STRING true ops_ex) as (rs & pH & Hrun & Hclear & Hmap).
  { destruct key_ok_ex. unfold ops_ex. repeat (apply Forall_cons_2; [done|]). constructor. }
  exists rs, pH. split; [exact Hrun|]. split; [exact Hclear|].
  rewrite Hmap; [vm_compute; reflexivity| |cbn; lia].
  unfold ops_ex. repeat (apply Forall_cons_2; [done|]). constructor.
Defined.

(** Two entries; the count is lost; removing the first removes both. *)
Lemma fts3_failed_rehash_loses_witness :
  ∃ pH, fst <$> run true 16 pH [Find key_b] = Some [20] ∧
    sqlite3Fts3HashInsert true 16 true true true (set_count 0 pH) key_a 3 0 = Some (10, empty_hash pH).
Proof.
  destruct key_ok_ex as [Ha Hb].
  destruct (run_op_refines true 16 ltac:(lia) FTS3_HASH_STRING true 0 (sqlite3Fts3HashInit FTS3_HASH_STRING true) ∅
    (Insert true true true key_a 10)) as (r1 & pH1 & l1 & m1 & _ & Habs1 & Hc1 & Hm1); [apply init_abs|exact Ha|].
  destruct Hm1 as [-> E1]; [done|done|cbn; lia|]. injection E1 as _ ->.
  destruct (run_op_refines true 16 ltac:(lia) FTS3_HASH_STRING true 0 pH1 (<[key_a := 10]> ∅)
    (Insert true true true key_b 20)) as (r2 & pH2 & l2 & m2 & _ & Habs2 & _ & Hm2); [exact Habs1|exact Hb|].
  destruct Hm2 as [-> E2]; [done|done|cbn in Hc1; lia|]. injection E2 as _ ->.
  exists pH2. split.
  - unfold run. cbn [run_op]. by rewrite (fts3HashFind_spec true FTS3_HASH_STRING true 0 pH2 _ key_b Habs2 Hb).
  - apply (fts3_failed_rehash_loses true 16 FTS3_HASH_STRING true 0 pH2 (<[key_b := 20]> (<[key_a := 10]> ∅)) key_a 10).
    + exact Habs2.
    + exact Ha.
    + reflexivity.
Defined.
